(* ===== verification/_CoqProject ===== *)
-Q . S2P
Prelude.v
CString.v
Bytes.v
StateTable.v
TitleState.v
PathState.v
ImageCache.v
InstallQueue.v
PkgStream.v
Sha1Spec.v
WsCrypto.v
PkgWs.v
GameInfo.v
ImageIndex.v
IniFile.v
SelfReader.v
SmbAddress.v
ConfigState.v
ConfigStore.v
ConfigEffect.v
ConfigUpdate.v
ConfigMigrate.v
ConfigRecover.v
ManualList.v
ImageKinds.v
ScanTree.v
MountDevice.v
ImageUnmount.v
ImageMount.v
ImageShutdown.v
Effects.v
GameLifecycle.v
GameCache.v
PkgParam.v
PkgHeader.v
SocketIo.v
PkgHttp.v
PkgReadAhead.v
PkgServer.v
PkgConnections.v
ScanCandidates.v
ScanCollect.v
ScanBackports.v
ScanModules.v
ScanCleanup.v
ScannerWatch.v
ScannerLinks.v
ScannerTable.v
ScannerHistory.v
ScannerSchedule.v
ScannerUsb.v
ScannerEject.v
ScannerEvents.v
ScannerBatch.v
ScannerCycle.v
ScannerLoop.v
ScannerTurn.v
TitleLinks.v
MountStack.v
TitleMounts.v
CopyTree.v
Installation.v
UsbEject.v
