(* ===== verification/Prelude.v ===== *)
(** * ShadowMountPlus: a verification development

    ShadowMountPlus is a background payload for the PS5, written in C.  A scanner
    walks storage for game dumps and disk images, attaches and mounts images,
    reads each game's metadata, and registers the games it finds with the system
    through a batch install queue; bounded tables remember failures per title and
    per path, and an index file remembers which images need not be mounted again.
    Beside that run a file server for packages (with a WebSocket channel through
    which a browser streams a package), an HTTP API, and hooks into the system
    shell.  This development models the parts that carry the program's own logic
    and whose correctness is not decided by the kernel, the firmware or the network.

    ** Files and what they model

    - Prelude.v: notation ([do?] sequences steps that may fault), machine integers
      as [Z] with the wrap-around written out, bounded searches, counted arrays and
      array loops, the tactics [bool_hyps] and [break_hyp], the hint database [sm].
    - CString.v: C strings, the FNV-1a hash (include/sm_hash.h) and the path
      predicates of src/sm_path_utils.c.
    - Bytes.v: fixed character buffers, little-endian two's complement layout,
      checked accesses at an offset.
    - StateTable.v: the open-addressing hash tables that src/sm_title_state.c and
      src/sm_path_state.c share in form (entries array, slot array, tombstones,
      rebuild), once and for all for an entry class [TableEntry], with the
      refinement to a finite map.
    - TitleState.v: src/sm_title_state.c, the attempt counters per title.
    - PathState.v: src/sm_path_state.c, the attempt counters and the metadata
      cache per path, pruning by root.
    - ImageCache.v: src/sm_image_cache.c, the table of image mounts and the life
      cycle of their devices (reserved, attached, published, mounted, detach
      requested, detach claimed, released) and the chain of nested images.
    - InstallQueue.v: src/sm_install_queue.c, the batch install queue, against the
      interface [TitleRetry] that TitleState.v implements.
    - PkgStream.v: src/sm_pkg_stream.c, the window of package segments shared by
      readers and browser clients, as a step relation over threads.
    - Sha1Spec.v: SHA-1 as FIPS 180-4 defines it, independent of the program (words as
      lists of bits, functions, constants, padding, schedule, rounds), for comparison.
      WsCrypto.v and PkgWs.v: src/sm_pkg_ws.c, SHA-1, Base64 and the accept key;
      frame coding, and the server loop.
    - GameInfo.v: src/sm_gameinfo.c, title ids and names from param.json/param.sfo,
      with the cache of PathState.v in front.
    - ImageIndex.v: src/sm_image_index.c, the persistent index, its file format byte
      by byte, using the mount chain of ImageCache.v.
    - IniFile.v: src/sm_config_file.c, INI documents (reading, editing, writing)
      and the rules that import the old configuration.
    - SelfReader.v: src/sm_self.c, the original name of an executable.
    - SmbAddress.v: src/sm_smb.c up to the connection itself: validating
      connections, resolving an smb:// path, containment of paths.
    - ConfigState.v and ConfigStore.v: src/sm_config_mount.c, the typed settings
      read from the two INI documents; loading, reloading and the operations that
      save settings.  ConfigEffect.v and ConfigUpdate.v hold the theorems that span
      the documents, the parser and the files.
    - ConfigMigrate.v and ConfigRecover.v: sm_config_migrate_files and its helpers
      in src/sm_config_file.c, with a record of every state of the disk, so that a
      power failure is a prefix of a run.
    - ManualList.v: src/sm_manual.c, the list of sources the user added by hand,
      its file, its update cycle and the notification marks.
    - ImageKinds.v: the image types of src/sm_image.c, the device kinds and sector
      sizes chosen for them, and the names of mount points.
    - ScanTree.v: src/sm_scan_tree.c, the bounded walk over directories with its
      per-directory callback.
    - ScanCandidates.v and ScanCollect.v: the passes of src/sm_scan.c over scan roots,
      images and manual sources that collect what is to be installed, over that walk;
      the theorems on them.  ScanBackports.v: finding and mounting a title's backport,
      and the repair of permissions.  ScanModules.v: correcting the case of library
      names.  ScanCleanup.v: the calls around a scan.
    - The scanner service, src/sm_scanner.c: ScannerWatch.v, ScannerLinks.v,
      ScannerTable.v and ScannerHistory.v hold the table of watched directories, the
      lists linked through it (children, roots, free slots), its index by descriptor
      and the descriptors it owns; ScannerSchedule.v what is due and when the loop
      wakes; ScannerUsb.v the slots of USB drives; ScannerEject.v the handshake
      between the thread that ejects a drive and the scanner, as a step relation.
      ScannerEvents.v builds watches and handles batches of kernel events,
      ScannerBatch.v holds its properties; ScannerCycle.v the full and targeted
      cycles, ScannerLoop.v a turn of the main loop with start, reload, sleep and
      shutdown, ScannerTurn.v their properties.
    - src/sm_filesystem.c: TitleLinks.v holds the link files of a title (mount.lnk,
      the chain of images), with a record of every state of files and mounts, so that
      an interruption is a prefix of a run; MountStack.v the system's mount table and
      the stack of layers on a title; TitleMounts.v mounting a title, the passes over
      all titles that remove or restore links, and shutdown; CopyTree.v copying and
      removing files and directories.  Layers, links and mounts of TitleMounts.v are
      the operations of the first two.
    - Installation.v: src/sm_install.c, what is done with a candidate of a scan:
      staging (copies leave whatever they leave, but only below their destination),
      mounting, publishing the links, registering or queueing it.
    - UsbEject.v: src/sm_usb.c, the request to the firmware that ejects a drive.
    - MountDevice.v: src/sm_mount_device.c, what is known of a device from the
      kernel's mount table, and waiting for a node to appear.
    - ImageUnmount.v, ImageMount.v, ImageShutdown.v: the rest of src/sm_image.c,
      over the cache of ImageCache.v: unmounting a chain of images from the
      innermost outwards and detaching the devices; attaching, mounting and
      validating an image with every failure path; removal by source and at exit.
    - Effects.v: a small monad for operations that change a state and may wait,
      with fuel for the waits, and its weakest precondition.
    - GameLifecycle.v: src/sm_game_lifecycle.c, the state machine of the running
      game (launch, pid, suspend, sleep, exit window) and the callbacks its owners
      receive.
    - GameCache.v: src/sm_game_cache.c, the record of what each installed title was
      registered from, its file, and the pass that removes titles whose source is
      gone.
    - PkgParam.v and PkgHeader.v: src/sm_pkg.c, the parser of package headers: the
      metadata (param.sfo, param.json) and the SDK version of an executable; the
      entry table, the classification, the icon, the sources of the bytes.
    - SocketIo.v: src/sm_socket_io.c, whole transfers over a socket.
    - PkgHttp.v, PkgReadAhead.v, PkgServer.v, PkgConnections.v: src/sm_pkg_server.c,
      the HTTP server of packages: requests, addresses and ranges; the thread that
      reads ahead of the one that sends, as a step relation over their critical
      sections and waits; what a request is answered with and the record of the
      bytes sent; the listener, the workers and the stop, as a step relation.

    ** How the code is represented

    A C struct is a record, an enum an inductive type, a fixed array a list of its
    length, a static table part of the state that is passed along.  A NULL
    dereference or an access outside an array is [None], so that "the call returns"
    is a theorem and not an assumption; error codes and [false] are values.  The
    answers of the system ([stat], [read], the clock, allocation, the database)
    are arguments, records of functions or inputs of a step; a theorem about them
    holds for all answers.  Operations under one mutex are one step; PkgStream.v
    interleaves the critical sections of several threads, and GameLifecycle.v the
    events of the system with the calls of the monitor.  Libraries that are not
    part of the sources (json-c) are parameters.

    ** What the theorems show

    - Refinement: the hashed title table is a finite map of bounded size
      ([title_state_refines_map]); on a table that keeps its invariant every call of the
      image cache follows the device state machine, and a detach attempt ends only by
      its completion or by a new record of the image ([image_api_follows_state_machine]);
      the manual list is a list of lines ([manual_list_refines]).
    - Invariants over all histories: image cache, install queue, image index
      (restarts, arbitrary index files and failing file systems included), path
      table, game life cycle ([game_history_monitored]: owners see a well-formed
      sequence of start, suspend, resume and stop); from these, the absence of
      faults.
    - Exclusivity and ordering: one detach attempt per device, one client per
      requested range, no eviction of what a reader waits for, and end to end a
      reader gets the bytes of the package under every interleaving
      ([stream_read_correct]).
    - Deadlines: queued installs always have a wake-up ([install_wakeup_pending]);
      an exit window closes ([exit_window_closes]) and going to sleep ends
      ([sleep_stops_game]).
    - Removal: a title is removed only when its source has been checked and is
      gone, and every such title is ([removal_pass_exact]).
    - Scanning: what is handed to the installation has passed every check
      ([scan_candidates_sound]); a scan that reports nothing left out left nothing out
      ([scan_history_exact]); scans end ([scan_ends]); a correction of names never
      loses a file ([module_files_kept]).
    - Crash safety: the migration of the configuration never loses a file
      ([migration_never_loses_files]), and after any interruptions the next boot
      without faults finishes it ([migration_completes]).
    - Typing: the configuration in use is within all its ranges after any history
      of loads and saves ([config_always_typed]).
    - Confinement: an smb:// path cannot leave the directory of its connection.
    - Round trips: index file, INI documents after any edits, settings saved and
      loaded, SMB connections saved and found, WebSocket frames, Base64, the
      metadata cache, the titles told of in the background.
    - Devices: an image is dropped only when its device was released
      ([image_dropped_only_when_released]); a device that a mount attached is committed,
      released or rolled back, and the theorem says what a rollback may leave behind
      ([mounted_device_accounted]); shutdown leaves no record with a device
      ([shutdown_leaves_no_device]).
    - Equivalence: streaming SHA-1 with the standard's definition, given separately
      ([sha1_stream_correct]); parsing a package
      from a stream with parsing it from a file; the requests of a connection with
      those of the plain byte stream, however the network cuts it.
    - Refinement of a table of intervals: the progress of a package is the number of
      its bytes sent ([progress_exact]).
    - Memory safety on untrusted input: SFO files, executables, packages, WebSocket
      bytes.
    - The scanner service: after any history of calls every descriptor opened is in
      the table exactly once or closed ([watch_descriptors_safe]); an event of a batch that
      is handled to its end schedules the roots that subscribe to its descriptor at that
      moment, those that subscribe to the parent of a root when the root changed
      ([batch_schedules_roots]); a rebuild covers the changes noted
      ([rebuild_covers_changes]); the loop waits exactly until something is due
      ([idle_wait_exact]); while an ejection is granted no watch of a slot or of a scan root
      on USB storage is open, and the scanner waits or has stopped
      ([usb_eject_exclusive]), and a request is never left without a wake-up
      ([eject_wakeup_pending]); a cycle runs under the scan mutex and with the claim of
      the scan ([scan_work_exclusive]); one that sleep cut short is made up for, by the root's
      marks or by a full scan soon after waking ([interrupted_scan_repeated]); and after
      any number of turns the watches are well-formed ([scanner_loop_watches]).
    - Titles: links are replaced as a whole ([mount_link_atomic]); a removal of links
      can be interrupted in any state, and the next start loses no link, and without faults
      puts every link back that was set aside, provided links can be read
      ([interrupted_removal_recovered]); a recorded chain of images is read back exactly
      or not at all ([image_chain_roundtrip]); a stack of layers is released from
      the top, only as far as it is the program's own, and the answer is exact
      ([stack_release_exact], [title_mount_exact]); an installation publishes the link
      of a source only over its mount, and changes no files but the links and those it
      stages ([install_publishes_mounted]).
    - Copies end, stay below their destination and, when they report success, are
      complete ([copy_dir_exact]).
    - Ejection: at most one request, for the volume at the asked mount point, after
      it was checked once more, and every client is closed ([usb_eject_once]).
    - Where modelling showed a defect, a theorem states it
      ([batch_more_suffix_lost], [forget_submitted_loses_wakeup],
      [has_source_first_only], [legacy_empty_key_rejected],
      [smb_bracket_name_lost], [title_mode_shadowed], [manual_space_path_stuck],
      [scan_walk_interrupted_succeeds], [unreadable_mount_table_loses_device],
      [handoff_seen_as_no_game], [moved_game_uninstalled], [placeholder_shown],
      [manual_deferral_unreported], [rebuild_inside_batch], [waking_ends_scanner],
      [unreadable_link_deleted], [root_above_drive_keeps_watch]).

    ** Bounds and fuel

    Recursion is structural wherever the code's loop is bounded by an array or a
    counter.  The remaining loops take fuel, and the theorems show that it is
    enough: the probe loops of StateTable.v run at most once around the table; the
    nesting chain has the code's own limit MAX_IMAGE_CHAIN_DEPTH, and unmounting
    recurses into the nested images of a chain, each step leaving fewer of them;
    the WebSocket loop takes the number of buffered bytes, each frame consuming at
    least two; the dynamic section of an executable is at most 65536 bytes, 128
    chunks of 512.  The waits have the code's own limits (31 turns for a virtual
    disk, 100 for a node of /dev).  The sleep loops of the life cycle wait for the
    clock: their fuel suffices as soon as the clock advances past the deadline.
    The removal loop of the game cache takes one turn per entry (512) and one more.
    A scan recurses from containers into the images in them, as deep as they are
    nested; the repair of permissions as deep as a path of 1024 characters.
    In the scanner the index of watches is probed at most once around; its tables
    grow by doubling up to the count needed; removing a subtree takes at most
    count * (count + 1) turns; the search for a watched parent at most the length of
    the path.  Its main loop has no end of its own: theorems on it hold for every
    number of turns.
    A stack is unmounted in at most 16 steps, the limit of the code.  A removal of a
    directory recurses at most as deep as a path has characters; a copy follows the
    tree it copies, and a file has at most as many chunks as characters, and one more.

    ** What is not modelled

    The environment: system calls, device ioctls, libsmb2, sqlite, the HTTP stack,
    firmware hooks, notifications and log lines; the option strings handed to
    nmount; the diagnostic output of src/sm_mount_diag.c; NULL arguments of functions
    whose callers never pass them; errno where no caller reads it.

    Parts of the program that are answers of the system here: virtual file access
    (src/sm_vfs.c), which wraps system calls; the application database
    (src/sm_appdb.c, through sqlite); the union mounts of src/sm_fakelib.c; the hooks and services inside the shell (src/sm_shellcore_*.c),
    whose meaning is in the firmware they patch; the debugger access of src/sm_mdbg.c.
    Not modelled at all: the HTTP API (src/sm_api_service.c), which formats JSON with a
    library and calls the components above; the updater of the emulator
    (src/sm_ampr_updater.c); thumbnails, the fan, the shell icon; the embedded binary
    src/pkg_helper_asset.c. *)
From Stdlib Require Export Ascii ZArith Lia.
From stdpp Require Export base tactics option list strings gmap numbers.

#[global] Set Default Goal Selector "!".
#[global] Open Scope Z_scope.

(** ** Notations *)
Declare Scope c_scope.
Delimit Scope c_scope with C.

(** Strict sequencing of a step that may fail (a NULL dereference or an
    out-of-bounds access is [None]). *)
Notation "'do?' x <- c1 ; c2" :=
  (match c1 with Some x => c2 | None => None end)
  (at level 10, x pattern, c1 at level 100, c2 at level 200) : c_scope.

(** ** Machine integers: [Z] with the wrap-around written out *)
Definition wrap (w z : Z) : Z := z mod 2 ^ w.
Definition u8 := wrap 8.
Definition u16 := wrap 16.
Definition u32 := wrap 32.
Definition u64 := wrap 64.

Definition UINT8_MAX : Z := 255.
Definition UINT64_MAX : Z := 2 ^ 64 - 1.

Lemma wrap_range w z : 0 <= w -> 0 <= wrap w z < 2 ^ w.
Proof. intros. apply Z.mod_pos_bound. by apply Z.pow_pos_nonneg. Qed.

Lemma wrap_small w z : 0 <= z < 2 ^ w -> wrap w z = z.
Proof. intros. by apply Z.mod_small. Qed.

Lemma u8_small z : 0 <= z <= 255 -> u8 z = z.
Proof. intros. apply wrap_small. lia. Qed.
Lemma u32_small z : 0 <= z < 4294967296 -> u32 z = z.
Proof. intros. apply wrap_small. lia. Qed.
Lemma u64_small z : 0 <= z <= UINT64_MAX -> u64 z = z.
Proof. intros. apply wrap_small. unfold UINT64_MAX in *. lia. Qed.

(** Byte values. *)
Definition is_byte (x : Z) : Prop := 0 <= x < 256.

Lemma u8_byte z : is_byte (u8 z).
Proof. unfold is_byte. change 256 with (2 ^ 8). apply wrap_range. lia. Qed.

(** Saturating byte counters. *)

(** [if (x < UINT8_MAX) x++]. *)
Definition bump_u8 (x : Z) : Z := if x <? UINT8_MAX then u8 (x + 1) else x.

Definition inc_u8 (x : Z) : Z := Z.min UINT8_MAX (x + 1).

Lemma bump_u8_inc x : 0 <= x <= UINT8_MAX -> bump_u8 x = inc_u8 x.
Proof.
  intros Hx. unfold bump_u8, inc_u8, UINT8_MAX in *.
  destruct (Z.ltb_spec x 255); [rewrite u8_small|]; lia.
Qed.

Lemma bump_u8_range x : 0 <= x <= UINT8_MAX -> 0 <= bump_u8 x <= UINT8_MAX.
Proof. intros Hx. rewrite bump_u8_inc by done. unfold inc_u8, UINT8_MAX in *. lia. Qed.

(** ** Tactics *)

(** Split boolean connectives in the hypotheses and in the goal. *)
Ltac bool_hyps :=
  repeat match goal with
  | H : _ && _ = true |- _ => apply andb_true_iff in H as [? ?]
  | H : _ || _ = false |- _ => apply orb_false_iff in H as [? ?]
  | H : negb _ = true |- _ => apply negb_true_iff in H
  | H : negb _ = false |- _ => apply negb_false_iff in H
  | H : bool_decide _ = true |- _ => apply bool_decide_eq_true in H
  | H : bool_decide _ = false |- _ => apply bool_decide_eq_false in H
  end.

(** Break every [match]/[if] of a hypothesis, keeping the equations. *)
Ltac break_hyp H :=
  repeat match type of H with
  | context [match ?x with _ => _ end] =>
      lazymatch x with
      | context [match _ with _ => _ end] => fail
      | _ => destruct x eqn:?; simplify_eq/=
      end
  end.

(** ** Bounded searches: [for (i = 0; i < N; i++) if (P(a[i])) { ...; break; }] *)
Fixpoint find_index {A} (p : A -> bool) (l : list A) : option nat :=
  match l with
  | [] => None
  | x :: l' => if p x then Some 0%nat else S <$> find_index p l'
  end.

Section find_index.
Context {A : Type} (p : A -> bool).
Implicit Types (l : list A) (i : nat).

Lemma find_index_Some l i :
  find_index p l = Some i <->
  exists x, l !! i = Some x /\ p x = true /\
    forall j y, (j < i)%nat -> l !! j = Some y -> p y = false.
Proof.
  revert i. induction l as [|a l IH]; intros i; simpl.
  - split; [done|]. intros (x & Hx & _). by rewrite lookup_nil in Hx.
  - destruct (p a) eqn:Ha.
    + split.
      * intros [= <-]. exists a. split; [done|split; [done|]]. lia.
      * intros (x & Hx & Hp & Hmin). destruct i as [|i]; [done|].
        specialize (Hmin 0%nat a ltac:(lia) eq_refl). congruence.
    + destruct i as [|i].
      * split; [by intros (? & ? & ?)%fmap_Some|].
        intros (x & [= <-] & Hp & _). congruence.
      * rewrite fmap_Some. split.
        -- intros (i' & Hi & [= <-]). apply IH in Hi as (x & Hx & Hp & Hmin).
           exists x. split; [done|split; [done|]]. intros [|j] y Hj Hy; simplify_eq/=; [done|].
           apply (Hmin j); [lia|done].
        -- intros (x & Hx & Hp & Hmin). exists i. split; [|done]. apply IH.
           exists x. split; [done|split; [done|]]. intros j y Hj Hy.
           apply (Hmin (S j)); [lia|done].
Qed.

Lemma find_index_None l :
  find_index p l = None <-> forall i x, l !! i = Some x -> p x = false.
Proof.
  induction l as [|a l IH]; simpl.
  - split; [intros _ i x; by rewrite lookup_nil | done].
  - destruct (p a) eqn:Ha.
    + split; [done|]. intros H. specialize (H 0%nat a eq_refl). congruence.
    + rewrite fmap_None, IH. split.
      * intros H [|i] x Hx; simplify_eq/=; eauto.
      * intros H i x Hx. by apply (H (S i)).
Qed.

Lemma find_index_is_Some l i x :
  l !! i = Some x -> p x = true -> exists j, find_index p l = Some j.
Proof.
  intros Hi Hp. destruct (find_index p l) eqn:E; [eauto|].
  rewrite find_index_None in E. rewrite (E i x Hi) in Hp. done.
Qed.

Lemma find_index_hit l i :
  find_index p l = Some i -> exists x, l !! i = Some x /\ p x = true.
Proof. intros (x & ? & ? & _)%find_index_Some. eauto. Qed.

Lemma find_index_lt l i : find_index p l = Some i -> (i < length l)%nat.
Proof. intros (x & ? & _)%find_index_hit. by eapply lookup_lt_Some. Qed.
End find_index.

(** ** Counting array cells: the counters the code keeps beside its arrays *)
Fixpoint count_if {A} (p : A -> bool) (l : list A) : nat :=
  match l with
  | [] => 0
  | x :: l' => (if p x then 1 else 0) + count_if p l'
  end.

Section count_if.
Context {A : Type} (p : A -> bool).
Implicit Types (l : list A).

Lemma count_if_app l k : count_if p (l ++ k) = (count_if p l + count_if p k)%nat.
Proof. induction l; simpl; lia. Qed.

Lemma count_if_le l : (count_if p l <= length l)%nat.
Proof. induction l; simpl; [lia|]. destruct (p a); lia. Qed.

(** Overwriting one cell moves the count by the two cells' contributions. *)
Lemma count_if_insert l i x y :
  l !! i = Some x ->
  (count_if p (<[i:=y]> l) + (if p x then 1 else 0) =
   count_if p l + (if p y then 1 else 0))%nat.
Proof.
  intros Hi. rewrite <-(take_drop_middle l i x Hi) at 2.
  rewrite insert_take_drop by by eapply lookup_lt_Some.
  rewrite !count_if_app. simpl. lia.
Qed.

Lemma count_if_pos l i x :
  l !! i = Some x -> p x = true -> (0 < count_if p l)%nat.
Proof.
  intros Hi Hp. rewrite <-(take_drop_middle l i x Hi), count_if_app.
  simpl. rewrite Hp. lia.
Qed.

Lemma count_if_zero l i x : count_if p l = 0%nat -> l !! i = Some x -> p x = false.
Proof.
  intros H0 Hi. destruct (p x) eqn:Hp; [|done].
  pose proof (count_if_pos l i x Hi Hp). lia.
Qed.

Lemma count_if_lt l i x :
  l !! i = Some x -> p x = false -> (count_if p l < length l)%nat.
Proof.
  intros Hi Hp. rewrite <-(take_drop_middle l i x Hi), count_if_app, length_app.
  simpl. rewrite Hp. pose proof (count_if_le (take i l)).
  pose proof (count_if_le (drop (S i) l)). lia.
Qed.

Lemma count_if_all l : (forall i x, l !! i = Some x -> p x = true) ->
  count_if p l = length l.
Proof.
  induction l as [|a l IH]; intros Hall; simpl; [done|].
  rewrite (Hall 0%nat a eq_refl), IH; [done|]. intros i x. apply (Hall (S i)).
Qed.

Lemma count_if_replicate n x : p x = false -> count_if p (replicate n x) = 0%nat.
Proof. intros Hp. induction n; [done|]. simpl. by rewrite Hp, IHn. Qed.
End count_if.

(** ** Fixed arrays: lookups of an updated array *)
Lemma lookup_insert_cases {A} (l : list A) i j x y :
  <[i:=x]> l !! j = Some y ->
  (j = i /\ y = x /\ (i < length l)%nat) \/ (j <> i /\ l !! j = Some y).
Proof.
  intros H. destruct (decide (i = j)) as [->|Hne].
  - left. pose proof (lookup_lt_Some _ _ _ H) as Hl. rewrite length_insert in Hl.
    rewrite list_lookup_insert_eq in H by done. by simplify_eq.
  - right. rewrite list_lookup_insert_ne in H by done. done.
Qed.

Lemma list_alter_insert {A} (l : list A) i x f :
  l !! i = Some x -> alter f i l = <[i := f x]> l.
Proof.
  revert i. induction l as [|a l IH]; intros [|i] Hi; simplify_eq/=; [done|].
  f_equal. by apply IH.
Qed.

Create HintDb sm discriminated.
#[export] Hint Resolve lookup_lt_Some : sm.
Create Rewrite HintDb sm_len.
#[export] Hint Rewrite @length_insert @length_replicate : sm_len.

(** ** Loops over a fixed array

    [for (int i = 0; i < N; i++) body(i)], each turn changing the cell it
    visits and the rest of the state. *)
Fixpoint for_cells {W : Type} (body : nat -> W -> option W) (n i : nat) (w : W) : option W :=
  match n with
  | O => Some w
  | S n' => match body i w with Some w' => for_cells body n' (S i) w' | None => None end
  end.

Lemma for_cells_rule {W} (P : nat -> W -> Prop) body n i w :
  (forall j v, (i <= j < i + n)%nat -> P j v -> exists v', body j v = Some v' /\ P (S j) v') ->
  P i w -> exists w', for_cells body n i w = Some w' /\ P (i + n)%nat w'.
Proof.
  revert i w. induction n as [|n IH]; intros i w Hstep Hi; simpl.
  - exists w. split; [done|]. by rewrite Nat.add_0_r.
  - destruct (Hstep i w) as (w1 & -> & H1); [lia|done|].
    destruct (IH (S i) w1) as (w' & Hw' & HP); [|done|].
    { intros j v Hj. apply Hstep. lia. }
    exists w'. split; [done|]. by replace (i + S n)%nat with (S i + n)%nat by lia.
Qed.

(** The array after the first [j] cells were replaced by their images. *)
Definition mixed {A} (f : A -> A) (j : nat) (l : list A) : list A := take j (f <$> l) ++ drop j l.

Lemma mixed_0 {A} (f : A -> A) l : mixed f 0 l = l.
Proof. done. Qed.

Lemma mixed_all {A} (f : A -> A) j l : (length l <= j)%nat -> mixed f j l = f <$> l.
Proof.
  intros. unfold mixed. rewrite take_ge by (by rewrite length_fmap).
  by rewrite drop_ge, app_nil_r.
Qed.

Lemma mixed_lookup {A} (f : A -> A) j l : mixed f j l !! j = l !! j.
Proof.
  unfold mixed. destruct (decide (j < length l)%nat) as [Hj|Hj].
  - rewrite lookup_app_r; rewrite length_take, length_fmap; [|lia].
    rewrite lookup_drop. f_equal. lia.
  - rewrite !lookup_ge_None_2; [done|lia|]. rewrite length_app, length_take, length_fmap, length_drop.
    lia.
Qed.

Lemma mixed_step {A} (f : A -> A) j l e : l !! j = Some e ->
  mixed f (S j) l = <[j := f e]> (mixed f j l).
Proof.
  intros He. pose proof (lookup_lt_Some _ _ _ He). unfold mixed.
  rewrite (take_S_r _ _ (f e)) by (by rewrite list_lookup_fmap, He).
  rewrite (drop_S l e j He), insert_app_r_alt; rewrite length_take, length_fmap; [|lia].
  replace (j - (j `min` length l))%nat with 0%nat by lia. simpl. by rewrite <-app_assoc.
Qed.
