(* ===== verification/CString.v ===== *)
(** * C strings, the FNV-1a hash and path predicates

    The string primitives the sources use ([strcmp], [strncmp], [strlcpy],
    [strchr], [strrchr], indexing) on Rocq strings, [sm_fnv1a32] of
    include/sm_hash.h, and the pure path predicates of src/sm_path_utils.c.

    A C string is modelled by its content, the characters before the
    terminator: reading index [strlen s] gives the terminator, which is [None]
    of [char_at]. *)
From S2P Require Import Prelude.

#[local] Arguments String.append !_ _ / : simpl nomatch.

(** ** Primitives *)
Definition strlen (s : string) : nat := String.length s.

(** [s[i]]; [None] is the terminator (or beyond it). *)
Definition char_at (s : string) (i : nat) : option Ascii.ascii := String.get i s.

Definition strcmp_eq (a b : string) : bool := String.eqb a b.

(** [strncmp(a, b, strlen(b)) == 0]. *)
Definition has_prefix (a b : string) : bool := String.prefix b a.

(** Content of a buffer of [size] bytes after [strlcpy(buf, s, size)]. *)
Definition strlcpy (s : string) (size : nat) : string :=
  String.substring 0 (size - 1) s.

Fixpoint strchr (s : string) (c : Ascii.ascii) : bool :=
  match s with
  | EmptyString => false
  | String a s' => Ascii.eqb a c || strchr s' c
  end.

(** The text after the last [c] of [s], when [s] has one. *)
Fixpoint after_last (s : string) (c : Ascii.ascii) : option string :=
  match s with
  | EmptyString => None
  | String a s' =>
      match after_last s' c with
      | Some r => Some r
      | None => if Ascii.eqb a c then Some s' else None
      end
  end.

(** ** include/sm_hash.h *)
Definition ascii_byte (a : Ascii.ascii) : Z := Z.of_N (Ascii.N_of_ascii a).

Fixpoint fnv1a32_from (h : Z) (s : string) : Z :=
  match s with
  | EmptyString => h
  | String a s' => fnv1a32_from (u32 (Z.lxor h (ascii_byte a) * 16777619)) s'
  end.

Definition sm_fnv1a32 (s : string) : Z := fnv1a32_from 2166136261 s.

(** ** include/sm_paths.h, include/sm_limits.h *)
Definition IMAGE_MOUNT_BASE : string := "/mnt/shadowmnt".
Definition PFSC_IMAGE_MOUNT_BASE : string := "/mnt/shadowmnt/pfsc".
Definition DEFAULT_BACKPORTS_DIR_NAME : string := "backports".
Definition MAX_PATH : nat := 1024.
Definition MAX_TITLE_ID : nat := 32.
Definition MAX_TITLE_NAME : nat := 256.

(** ** src/sm_path_utils.c *)
Definition slash : Ascii.ascii := "/"%char.
Definition backslash : Ascii.ascii := "\"%char.

Definition get_filename_component (path : string) : string :=
  match after_last path slash with
  | Some base => base
  | None =>
      match after_last path backslash with
      | Some base => base
      | None => path
      end
  end.

Definition is_under_image_mount_base (path : string) : bool :=
  has_prefix path IMAGE_MOUNT_BASE &&
  bool_decide (char_at path (strlen IMAGE_MOUNT_BASE) = Some slash).

Definition path_matches_root_or_child (path root : string) : bool :=
  if strcmp_eq root "" then false
  else if negb (has_prefix path root) then false
  else if (strlen root =? 1)%nat && bool_decide (char_at root 0 = Some slash)
  then bool_decide (char_at path 0 = Some slash)
  else bool_decide (char_at path (strlen root) = None)
       || bool_decide (char_at path (strlen root) = Some slash).

Definition is_pfsc_image_mount_base_or_child (path : string) : bool :=
  path_matches_root_or_child path PFSC_IMAGE_MOUNT_BASE.

(** [realpath] is the C library's: [None] is its failure. *)
Definition paths_overlap (realpath : string -> option string) (a b : string) : bool :=
  if strcmp_eq a "" || strcmp_eq b "" then false
  else if path_matches_root_or_child a b || path_matches_root_or_child b a then true
  else
    let left := default a (realpath a) in
    let right := default b (realpath b) in
    path_matches_root_or_child left right || path_matches_root_or_child right left.

Definition usb_roots : list string :=
  ["/mnt/usb0"; "/mnt/usb1"; "/mnt/usb2"; "/mnt/usb3"; "/mnt/usb4";
   "/mnt/usb5"; "/mnt/usb6"; "/mnt/usb7"; "/mnt/ext0"]%string.

Definition find_usb_storage_root (path : string) : option string :=
  if strcmp_eq path "" then None
  else find_index (path_matches_root_or_child path) usb_roots ≫= fun i => usb_roots !! i.

Definition is_usb_storage_path (path : string) : bool :=
  bool_decide (is_Some (find_usb_storage_root path)).

(** [st_dev p] is the device of [stat(p)], [None] when [stat] fails. *)
Definition usb_storage_root_mounted (st_dev : string -> option Z) (path : string) : bool :=
  match find_usb_storage_root path with
  | None => false
  | Some usb_root =>
      match st_dev usb_root, st_dev "/mnt"%string with
      | Some root_dev, Some parent_dev => negb (root_dev =? parent_dev)
      | _, _ => false
      end
  end.

(** [None] is the [false] return; [Some out] the path written. *)
Definition build_backports_root_path (scan_path : string) : option string :=
  if is_under_image_mount_base scan_path then None
  else
    let out := String.append scan_path (String slash DEFAULT_BACKPORTS_DIR_NAME) in
    if (strlen out <? MAX_PATH)%nat then Some out else None.

Definition backport_name_matches_title (title_id name : string) : bool :=
  negb (strcmp_eq title_id "") && has_prefix name title_id && negb (strchr name slash).

(** ** Lemmas on the primitives *)
Lemma strcmp_eq_true a b : strcmp_eq a b = true <-> a = b.
Proof. apply String.eqb_eq. Qed.

Lemma strcmp_eq_false a b : strcmp_eq a b = false <-> a <> b.
Proof. apply String.eqb_neq. Qed.

Lemma strcmp_eq_refl a : strcmp_eq a a = true.
Proof. apply String.eqb_refl. Qed.

Lemma has_prefix_spec a b : has_prefix a b = true <-> exists r, a = String.append b r.
Proof.
  unfold has_prefix. revert a. induction b as [|c b IH]; intros a; simpl.
  - split; [eauto|]. by destruct a.
  - destruct a as [|d a]; simpl; [split; [done|by intros [? ?]]|].
    destruct (Ascii.ascii_dec c d) as [->|Hne].
    + rewrite IH. split; intros [r Hr]; exists r; congruence.
    + split; [done|]. intros [r Hr]. congruence.
Qed.

Lemma strlen_append a b : strlen (String.append a b) = (strlen a + strlen b)%nat.
Proof. unfold strlen. induction a; simpl; congruence. Qed.

Lemma char_at_append a b i :
  char_at (String.append a b) (strlen a + i) = char_at b i.
Proof. unfold char_at, strlen. by induction a. Qed.

Lemma char_at_end a b : char_at (String.append a b) (strlen a) = char_at b 0.
Proof. rewrite <-(Nat.add_0_r (strlen a)) at 1. apply char_at_append. Qed.

Lemma string_app_nil_r a : String.append a "" = a.
Proof. induction a; simpl; congruence. Qed.

Lemma string_app_assoc a b c :
  String.append a (String.append b c) = String.append (String.append a b) c.
Proof. induction a; simpl; congruence. Qed.

Lemma substring_full n s : (strlen s <= n)%nat -> String.substring 0 n s = s.
Proof.
  revert n. induction s as [|a s IH]; intros [|n] Hn; simpl in *; try done; try lia.
  f_equal. apply IH. unfold strlen in *. lia.
Qed.

(** A copy that fits is exact. *)
Lemma strlcpy_fits s size : (strlen s < size)%nat -> strlcpy s size = s.
Proof. intros. apply substring_full. lia. Qed.

Lemma strlen_substring n s : (strlen (String.substring 0 n s) <= n)%nat.
Proof.
  unfold strlen. revert n. induction s as [|a s IH]; intros [|n]; simpl; try lia.
  specialize (IH n). lia.
Qed.

(** A copy always leaves room for the terminator. *)
Lemma strlcpy_length s size : (0 < size)%nat -> (strlen (strlcpy s size) < size)%nat.
Proof. intros. unfold strlcpy. pose proof (strlen_substring (size - 1) s). lia. Qed.

Lemma fnv1a32_from_range h s : 0 <= h < 2 ^ 32 -> 0 <= fnv1a32_from h s < 2 ^ 32.
Proof.
  revert h. induction s as [|a s IH]; intros h Hh; simpl; [done|].
  apply IH. apply wrap_range. lia.
Qed.

Lemma sm_fnv1a32_range s : 0 <= sm_fnv1a32 s < 2 ^ 32.
Proof. apply fnv1a32_from_range. lia. Qed.

#[export] Hint Rewrite strlen_append char_at_end : sm_len.

(** ** Path predicates *)

(** a path matches a root other than "/" exactly when it is that
    root or lies below it behind a separator: a sibling that merely shares the
    root's spelling as a prefix ("/mnt/usb10" against "/mnt/usb1") is never
    matched, and the root "/" matches every absolute path. *)
Theorem path_matches_root_or_child_spec path root :
  path_matches_root_or_child path root = true <->
  (root = "/"%string /\ exists r, path = String slash r) \/
  (root <> ""%string /\ root <> "/"%string /\
   (path = root \/ exists r, path = String.append root (String slash r))).
Proof.
  unfold path_matches_root_or_child.
  destruct (strcmp_eq root "") eqn:E0.
  { apply strcmp_eq_true in E0 as ->. split; [done|]. by intros [[? _]|[? _]]. }
  apply strcmp_eq_false in E0.
  destruct (has_prefix path root) eqn:Ep; cbn [negb].
  2: { split; [done|]. intros [[-> [r ->]]|(_ & _ & [->|[r ->]])].
       - by destruct r.
       - rewrite (proj2 (has_prefix_spec root root)) in Ep; [done|].
         exists ""%string. by rewrite string_app_nil_r.
       - rewrite (proj2 (has_prefix_spec _ root)) in Ep; [done|eauto]. }
  apply has_prefix_spec in Ep as [r ->]. rewrite char_at_end.
  destruct ((strlen root =? 1)%nat && bool_decide (char_at root 0 = Some slash)) eqn:E1.
  - bool_hyps. destruct root as [|c [|d root]]; try done.
    match goal with H : char_at _ _ = _ |- _ => injection H as -> end.
    split; [intros _; left; eauto|intros _; by apply bool_decide_true].
  - assert (root <> "/"%string) by (intros ->; done).
    rewrite orb_true_iff, !bool_decide_eq_true. destruct r as [|c r]; simpl.
    + rewrite string_app_nil_r. split; [eauto 10|by left].
    + split.
      * intros [Hc|[= ->]]; [done|]. right. eauto.
      * intros [[-> _]|(_ & _ & [Hr|[r' Hr]])]; [done| |].
        -- apply (f_equal strlen) in Hr. rewrite strlen_append in Hr.
           unfold strlen in Hr; simpl in Hr. lia.
        -- right. apply (f_equal (fun s => char_at s (strlen root))) in Hr.
           by rewrite !char_at_end in Hr.
Qed.
