(* ===== verification/Bytes.v ===== *)
(** * Byte buffers

    Character buffers as the sources keep them inside structs (a fixed number of
    bytes, the string being what precedes the first zero byte), and the
    little-endian two's complement layout the structs have when they are written
    to a file. *)
From S2P Require Import Prelude CString.

(** ** Strings and bytes *)
Fixpoint string_bytes (s : string) : list Z :=
  match s with EmptyString => [] | String a s' => ascii_byte a :: string_bytes s' end.

Definition bytes_string (l : list Z) : string :=
  foldr (fun b s => String (ascii_of_nat (Z.to_nat b)) s) EmptyString l.

(** The bytes before the first zero byte (all of them when there is none). *)
Fixpoint until_nul (l : list Z) : list Z :=
  match l with [] => [] | b :: l' => if b =? 0 then [] else b :: until_nul l' end.

(** The string a buffer holds. *)
Definition cstr (buf : list Z) : string := bytes_string (until_nul buf).

(** [memchr(buf, '\0', sizeof(buf)) != NULL]. *)
Definition terminated (buf : list Z) : bool := existsb (Z.eqb 0) buf.

(** [strlcpy(buf, s, sizeof(buf))]: the bytes after the terminator stay. *)
Definition buf_strlcpy (buf : list Z) (s : string) : list Z :=
  let text := take (length buf - 1) (string_bytes s) in
  text ++ 0 :: drop (S (length text)) buf.

Lemma bytes_string_length l : strlen (bytes_string l) = length l.
Proof. unfold strlen. induction l as [|b l IH]; simpl; [done|]. by rewrite IH. Qed.

Lemma string_bytes_length s : length (string_bytes s) = strlen s.
Proof. unfold strlen. induction s as [|a s IH]; simpl; [done|]. by rewrite IH. Qed.

Lemma ascii_byte_range a : 0 <= ascii_byte a < 256.
Proof. unfold ascii_byte. pose proof (N_ascii_bounded a). lia. Qed.

Lemma bytes_of_string s : bytes_string (string_bytes s) = s.
Proof.
  induction s as [|a s IH]; simpl; [done|]. f_equal; [|done].
  unfold ascii_byte. rewrite <-N_nat_Z, Nat2Z.id. apply ascii_nat_embedding.
Qed.

(** A C string as an argument: no character of it is the terminator. *)
Definition no_nul (s : string) : Prop := Forall (fun b => b <> 0) (string_bytes s).

Lemma until_nul_text text rest : Forall (fun b => b <> 0) text -> until_nul (text ++ 0 :: rest) = text.
Proof.
  induction 1 as [|b text Hb _ IH]; simpl; [done|].
  destruct (Z.eqb_spec b 0); [done|]. by rewrite IH.
Qed.

Lemma terminated_text text rest : terminated (text ++ 0 :: rest) = true.
Proof. unfold terminated. rewrite existsb_app. simpl. by rewrite orb_true_r. Qed.

Lemma buf_strlcpy_length buf s : (0 < length buf)%nat -> length (buf_strlcpy buf s) = length buf.
Proof.
  intros Hb. unfold buf_strlcpy. rewrite length_app. simpl. rewrite length_drop, length_take. lia.
Qed.

Lemma buf_strlcpy_bytes buf s : Forall is_byte buf -> Forall is_byte (buf_strlcpy buf s).
Proof.
  intros Hb. unfold buf_strlcpy. apply Forall_app_2.
  - apply Forall_take. induction s as [|a s IH]; simpl; [by apply Forall_nil_2|].
    apply Forall_cons_2; [|done]. apply ascii_byte_range.
  - apply Forall_cons_2; [unfold is_byte; lia|]. by apply Forall_drop.
Qed.

Lemma buf_strlcpy_terminated buf s : terminated (buf_strlcpy buf s) = true.
Proof. apply terminated_text. Qed.

(** A copy that fits reads back. *)
Lemma cstr_strlcpy buf s : no_nul s -> (strlen s < length buf)%nat -> cstr (buf_strlcpy buf s) = s.
Proof.
  intros Hs Hl. unfold cstr, buf_strlcpy.
  rewrite take_ge by (rewrite string_bytes_length; lia).
  rewrite until_nul_text by done. apply bytes_of_string.
Qed.

(** A truncated copy of a non-empty string is not empty. *)
Lemma cstr_strlcpy_nonempty buf s : no_nul s -> s <> ""%string -> (1 < length buf)%nat ->
  cstr (buf_strlcpy buf s) <> ""%string.
Proof.
  intros Hs Hne Hl. unfold cstr, buf_strlcpy. rewrite until_nul_text by (by apply Forall_take).
  destruct s as [|a s]; [done|]. simpl.
  destruct (length buf - 1)%nat as [|n] eqn:E; [lia|]. done.
Qed.

(** ** Little-endian integers *)
Fixpoint le_bytes (n : nat) (v : Z) : list Z :=
  match n with O => [] | S n' => v mod 256 :: le_bytes n' (v / 256) end.

Definition le_value (l : list Z) : Z := foldr (fun b acc => b + 256 * acc) 0 l.

(** The signed reading of a [w]-bit pattern: conversion to [int<w>_t]. *)
Definition signed (w v : Z) : Z :=
  let u := wrap w v in if u <? 2 ^ (w - 1) then u else u - 2 ^ w.

Definition i32 := signed 32.
Definition i64 := signed 64.

Lemma le_bytes_length n v : length (le_bytes n v) = n.
Proof. revert v. induction n as [|n IH]; intros v; simpl; [done|]. by rewrite IH. Qed.

Lemma le_bytes_bytes n v : Forall is_byte (le_bytes n v).
Proof.
  revert v. induction n as [|n IH]; intros v; simpl; [by apply Forall_nil_2|].
  apply Forall_cons_2; [|done]. unfold is_byte. apply Z.mod_pos_bound. lia.
Qed.

Lemma le_value_bytes n v : le_value (le_bytes n v) = wrap (8 * Z.of_nat n) v.
Proof.
  unfold wrap. revert v. induction n as [|n IH]; intros v.
  - simpl le_bytes. simpl le_value. change (8 * Z.of_nat 0) with 0. by rewrite Z.pow_0_r, Z.mod_1_r.
  - cbn [le_bytes le_value foldr]. fold (le_value (le_bytes n (v / 256))). rewrite IH.
    replace (8 * Z.of_nat (S n)) with (8 + 8 * Z.of_nat n) by lia.
    rewrite Z.pow_add_r by lia. change (2 ^ 8) with 256.
    rewrite Z.rem_mul_r by lia. lia.
Qed.

Lemma le_value_range l : Forall is_byte l -> 0 <= le_value l < 2 ^ (8 * Z.of_nat (length l)).
Proof.
  induction 1 as [|b l Hb _ IH]; simpl; [lia|]. unfold is_byte in Hb.
  replace (8 * Z.of_nat (S (length l))) with (8 + 8 * Z.of_nat (length l)) by lia.
  rewrite Z.pow_add_r by lia. change (2 ^ 8) with 256. lia.
Qed.

Lemma wrap_wrap w z : wrap w (wrap w z) = wrap w z.
Proof. unfold wrap. apply Zmod_mod. Qed.

Lemma signed_wrap w z : signed w (wrap w z) = signed w z.
Proof. unfold signed. by rewrite wrap_wrap. Qed.

Lemma signed_small w z : 0 < w -> - 2 ^ (w - 1) <= z < 2 ^ (w - 1) -> signed w z = z.
Proof.
  intros Hw Hz. unfold signed, wrap.
  assert (H2 : 2 ^ w = 2 * 2 ^ (w - 1)) by (rewrite <-Z.pow_succ_r by lia; f_equal; lia).
  destruct (Z.leb_spec 0 z).
  - rewrite Z.mod_small by lia. destruct (Z.ltb_spec z (2 ^ (w - 1))); lia.
  - rewrite <-(Z.mod_unique z (2 ^ w) (-1) (z + 2 ^ w)) by lia.
    destruct (Z.ltb_spec (z + 2 ^ w) (2 ^ (w - 1))); lia.
Qed.

Lemma signed_idem w z : 0 < w -> signed w (signed w z) = signed w z.
Proof.
  intros Hw. apply signed_small; [done|]. unfold signed.
  assert (H2 : 2 ^ w = 2 * 2 ^ (w - 1)) by (rewrite <-Z.pow_succ_r by lia; f_equal; lia).
  pose proof (wrap_range w z ltac:(lia)). destruct (Z.ltb_spec (wrap w z) (2 ^ (w - 1))); lia.
Qed.

(** ** Reading fields in sequence *)
Lemma take_field {A} n (a r : list A) : length a = n -> take n (a ++ r) = a.
Proof. intros <-. by rewrite take_app_length. Qed.

Lemma drop_field {A} n (a r : list A) : length a = n -> drop n (a ++ r) = r.
Proof. intros <-. by rewrite drop_app_length. Qed.

(** Arrays of [n] elements of [size] bytes. *)
Fixpoint decode_array {A} (size : nat) (decode : list Z -> A) (n : nat) (l : list Z) : list A :=
  match n with
  | O => []
  | S n' => decode (take size l) :: decode_array size decode n' (drop size l)
  end.

Lemma decode_array_length {A} size (decode : list Z -> A) n l : length (decode_array size decode n l) = n.
Proof. revert l. induction n as [|n IH]; intros l; simpl; [done|]. by rewrite IH. Qed.

Lemma decode_array_encode {A} size (decode : list Z -> A) (encode : A -> list Z) (P : A -> Prop) xs :
  (forall x, P x -> length (encode x) = size /\ decode (encode x) = x) -> Forall P xs ->
  decode_array size decode (length xs) (concat (encode <$> xs)) = xs.
Proof.
  intros Hx Hxs. induction Hxs as [|x xs Hp _ IH]; simpl; [done|]. destruct (Hx x Hp) as [Hl Hd].
  rewrite take_field, drop_field, Hd by done. f_equal. exact IH.
Qed.

Lemma encode_array_length {A} size (encode : A -> list Z) (P : A -> Prop) xs :
  (forall x, P x -> length (encode x) = size) -> Forall P xs ->
  length (concat (encode <$> xs)) = (length xs * size)%nat.
Proof.
  intros Hx. induction 1 as [|x xs Hp _ IH]; simpl; [done|]. rewrite length_app, Hx by done. f_equal. exact IH.
Qed.

Lemma decode_array_Forall {A} size (decode : list Z -> A) (P : A -> Prop) n l :
  (forall x, length x = size -> Forall is_byte x -> P (decode x)) ->
  Forall is_byte l -> (n * size <= length l)%nat -> Forall P (decode_array size decode n l).
Proof.
  intros HP. revert l. induction n as [|n IH]; intros l Hb Hl; simpl in *; [by apply Forall_nil_2|].
  apply Forall_cons_2.
  - apply HP; [rewrite length_take; lia|by apply Forall_take].
  - apply IH; [by apply Forall_drop|rewrite length_drop; lia].
Qed.

(** ** Accesses at an offset *)

(** [n] bytes at [offset]: [None] is an access outside the buffer. *)
Definition slice (data : list Z) (offset n : Z) : option (list Z) :=
  if (0 <=? offset) && (0 <=? n) && (offset + n <=? Z.of_nat (length data))
  then Some (take (Z.to_nat n) (drop (Z.to_nat offset) data)) else None.

Lemma slice_total data offset n : 0 <= offset -> 0 <= n -> offset + n <= Z.of_nat (length data) ->
  exists l, slice data offset n = Some l /\ Z.of_nat (length l) = n.
Proof.
  intros Ho Hn Hle. unfold slice.
  destruct (Z.leb_spec 0 offset), (Z.leb_spec 0 n), (Z.leb_spec (offset + n) (Z.of_nat (length data)));
    try lia. simpl. eexists. split; [done|]. rewrite length_take, length_drop. lia.
Qed.

Lemma slice_bytes data offset n l : Forall is_byte data -> slice data offset n = Some l -> Forall is_byte l.
Proof.
  intros Hb. unfold slice. destruct (_ && _); [|done]. intros [= <-]. by apply Forall_take, Forall_drop.
Qed.

Lemma slice_size data offset n l : slice data offset n = Some l -> Z.of_nat (length l) = n.
Proof.
  unfold slice. destruct (Z.leb_spec 0 offset), (Z.leb_spec 0 n), (Z.leb_spec (offset + n) (Z.of_nat (length data)));
    simpl; try done. intros [= <-]. rewrite length_take, length_drop. lia.
Qed.

(** The [n]-byte little-endian number at [offset]. *)
Definition le_at (data : list Z) (offset : Z) (n : nat) : option Z :=
  match slice data offset (Z.of_nat n) with Some l => Some (le_value l) | None => None end.

Lemma le_at_total data offset n : Forall is_byte data -> 0 <= offset ->
  offset + Z.of_nat n <= Z.of_nat (length data) ->
  exists v, le_at data offset n = Some v /\ 0 <= v < 2 ^ (8 * Z.of_nat n).
Proof.
  intros Hb Ho Hle. unfold le_at. destruct (slice_total data offset (Z.of_nat n)) as (l & Hs & Hl); [done|lia|done|].
  rewrite Hs. exists (le_value l). split; [done|].
  pose proof (le_value_range l (slice_bytes _ _ _ _ Hb Hs)) as Hr. by rewrite Hl in Hr.
Qed.
