(* ===== verification/StateTable.v ===== *)
(** * The fixed-capacity hashed table of retry state

    src/sm_title_state.c and src/sm_path_state.c keep the same structure: an
    array of [MAX_PENDING] entries and an open-addressing index of
    [STATE_HASH_SIZE] slots over it.  This file models that structure once,
    generically in the entry type: [StateEntry] is the interface an entry type
    offers, the operations follow the C loops, and the [Section] at the end
    shows that the structure implements a finite map with a bounded number of
    keys. TitleState.v and PathState.v instantiate it. *)
From S2P Require Import Prelude CString.

Definition STATE_HASH_SIZE : Z := 1024.
Definition MAX_PENDING : nat := 512.

(** The trip count of the probing loops. *)
Definition PROBES : nat := Z.to_nat STATE_HASH_SIZE.

(** What an entry type offers to the table: [e_zero] is the [memset] entry,
    [e_fresh] the entry [create] initialises. *)
Class StateEntry (E : Type) := {
  e_key : E -> string;
  e_valid : E -> bool;
  e_zero : E;
  e_fresh : string -> E;
  e_key_size : nat;
  e_zero_invalid : e_valid e_zero = false;
  e_fresh_valid k : e_valid (e_fresh k) = true;
  e_fresh_key k : e_key (e_fresh k) = strlcpy k e_key_size;
}.

Record table (E : Type) := Table { entries : list E; slots : list Z }.
Arguments Table {E} _ _.
Arguments entries {E} _.
Arguments slots {E} _.

Definition home_slot (k : string) : Z := Z.land (sm_fnv1a32 k) (STATE_HASH_SIZE - 1).
Definition next_slot (s : Z) : Z := Z.land (u32 (s + 1)) (STATE_HASH_SIZE - 1).
Definition slot_get (h : list Z) (s : Z) : Z := default 0 (h !! Z.to_nat s).

(** [for (i = 0; i < STATE_HASH_SIZE; i++) { if (hash[slot] == 0) { hash[slot]
    = v; break; } slot = (slot + 1) & mask; }]; [None] when no slot was free. *)
Fixpoint insert_slot (fuel : nat) (h : list Z) (s v : Z) : option (list Z) :=
  match fuel with
  | O => None
  | S fuel' =>
      if slot_get h s =? 0 then Some (<[Z.to_nat s := v]> h)
      else insert_slot fuel' h (next_slot s) v
  end.

Section operations.
Context {E : Type} `{StateEntry E}.

(** [rebuild_*_state_hash]: the loop body from entry [k] on. *)
Fixpoint rebuild_from (k : Z) (es : list E) (h : list Z) : list Z :=
match es with
| [] => h
| e :: es' =>
    if negb (e_valid e) || strcmp_eq (e_key e) "" then rebuild_from (k + 1) es' h
    else rebuild_from (k + 1) es'
           (default h (insert_slot PROBES h (home_slot (e_key e)) (u16 (k + 1))))
end.

Definition rebuild_hash (es : list E) : list Z :=
rebuild_from 0 es (replicate (Z.to_nat STATE_HASH_SIZE) 0).

(** [find_*_state]: the index of the entry found, [None] for NULL. *)
Fixpoint probe_find (fuel : nat) (t : table E) (s : Z) (k : string) : option nat :=
match fuel with
| O => None
| S fuel' =>
    let idx := slot_get (slots t) s in
    if idx =? 0 then None
    else
      match entries t !! Z.to_nat (idx - 1) with
      | None => None
      | Some e =>
          if e_valid e && strcmp_eq (e_key e) k then Some (Z.to_nat (idx - 1))
          else probe_find fuel' t (next_slot s) k
      end
end.

Definition find_state (t : table E) (k : string) : option nat :=
probe_find PROBES t (home_slot k) k.

(** The tail of [create_*_state], from the chosen array cell on. *)
Definition place_state (t : table E) (i : nat) (k : string) : option nat * table E :=
let es := <[i := e_fresh k]> (entries t) in
match insert_slot PROBES (slots t) (home_slot k) (u16 (Z.of_nat i + 1)) with
| Some h => (Some i, Table es h)
| None =>
    let es' := <[i := e_zero]> es in
    (None, Table es' (rebuild_hash es'))
end.

(** [create_*_state]; [evict] is the client's choice among a full array. *)
Definition create_state (evict : list E -> nat) (t : table E) (k : string) :
  option nat * table E :=
match find_index (fun e => negb (e_valid e)) (entries t) with
| Some i => place_state t i k
| None =>
    let i := evict (entries t) in
    let es := <[i := e_zero]> (entries t) in
    place_state (Table es (rebuild_hash es)) i k
end.

Definition get_or_create_state (evict : list E -> nat) (t : table E) (k : string) :
  option nat * table E :=
match find_state t k with
| Some i => (Some i, t)
| None => create_state evict t k
end.

(** [entry->field = ...] through a pointer found in the table. *)
Definition update_entry (f : E -> E) (i : nat) (t : table E) : table E :=
Table (alter f i (entries t)) (slots t).

(** A pass over the array that zeroes some entries, then rebuilds the index if
  it changed anything ([prune_*_state]). *)
Definition prune_entries (dead : E -> bool) (t : table E) : table E :=
let drop e := e_valid e && negb (strcmp_eq (e_key e) "") && dead e in
let es := (fun e => if drop e then e_zero else e) <$> entries t in
if existsb drop (entries t) then Table es (rebuild_hash es) else t.

Definition empty_table : table E :=
Table (replicate MAX_PENDING e_zero) (replicate (Z.to_nat STATE_HASH_SIZE) 0).

(** The finite map a table stands for. *)
Fixpoint entries_map (es : list E) : gmap string E :=
match es with
| [] => ∅
| e :: es' =>
    if e_valid e && negb (strcmp_eq (e_key e) "")
    then <[e_key e := e]> (entries_map es') else entries_map es'
end.

Definition table_map (t : table E) : gmap string E := entries_map (entries t).

End operations.

(** ** Slot arithmetic *)
Definition walk (s : Z) (d : nat) : Z := (s + Z.of_nat d) mod STATE_HASH_SIZE.

Lemma land_mask z : Z.land z (STATE_HASH_SIZE - 1) = z mod STATE_HASH_SIZE.
Proof. change (STATE_HASH_SIZE - 1) with (Z.ones 10). by rewrite Z.land_ones. Qed.

Lemma home_slot_range k : 0 <= home_slot k < STATE_HASH_SIZE.
Proof. unfold home_slot. rewrite land_mask. by apply Z.mod_pos_bound. Qed.

Lemma walk_range s d : 0 <= walk s d < STATE_HASH_SIZE.
Proof. by apply Z.mod_pos_bound. Qed.

Lemma walk_0 s : 0 <= s < STATE_HASH_SIZE -> walk s 0 = s.
Proof. intros. unfold walk. rewrite Z.add_0_r. by apply Z.mod_small. Qed.

Lemma next_slot_walk s d : next_slot (walk s d) = walk s (S d).
Proof.
  unfold next_slot. pose proof (walk_range s d) as Hr. unfold STATE_HASH_SIZE in Hr.
  rewrite land_mask, u32_small by lia. unfold walk, STATE_HASH_SIZE.
  rewrite Zplus_mod_idemp_l. f_equal. lia.
Qed.

(** Every slot is on every walk. *)
Lemma walk_onto s z : 0 <= z < STATE_HASH_SIZE ->
  exists d, (d < PROBES)%nat /\ walk s d = z.
Proof.
  intros Hz. exists (Z.to_nat ((z - s) mod STATE_HASH_SIZE)).
  pose proof (Z.mod_pos_bound (z - s) STATE_HASH_SIZE eq_refl). split.
  - unfold PROBES. lia.
  - unfold walk. rewrite Z2Nat.id by lia. rewrite Zplus_mod_idemp_r.
    replace (s + (z - s)) with z by lia. by apply Z.mod_small.
Qed.

Lemma slot_get_insert_eq h s v : length h = Z.to_nat STATE_HASH_SIZE ->
  0 <= s < STATE_HASH_SIZE -> slot_get (<[Z.to_nat s := v]> h) s = v.
Proof. intros Hl Hs. unfold slot_get. rewrite list_lookup_insert_eq by lia. done. Qed.

Lemma slot_get_insert_ne h s s' v : 0 <= s -> 0 <= s' -> s <> s' ->
  slot_get (<[Z.to_nat s := v]> h) s' = slot_get h s'.
Proof. intros. unfold slot_get. rewrite list_lookup_insert_ne by lia. done. Qed.

#[global] Opaque PROBES.

(** ** The insertion loop *)
Lemma insert_slot_sound fuel h s d v h' :
  insert_slot fuel h (walk s d) v = Some h' ->
  exists j, (d <= j < d + fuel)%nat /\ slot_get h (walk s j) = 0 /\
    (forall i, (d <= i < j)%nat -> slot_get h (walk s i) <> 0) /\
    h' = <[Z.to_nat (walk s j) := v]> h.
Proof.
  revert d. induction fuel as [|fuel IH]; intros d Hi; simpl in Hi; [done|].
  destruct (Z.eqb_spec (slot_get h (walk s d)) 0) as [H0|H0].
  - injection Hi as <-. exists d. split_and!; [lia|lia|done| |done]. lia.
  - rewrite next_slot_walk in Hi. apply IH in Hi as (j & Hj & Hz & Hb & ->).
    exists j. split_and!; [lia|lia|done| |done]. intros i Hi.
    destruct (decide (i = d)) as [->|]; [done|]. apply Hb. lia.
Qed.

Lemma insert_slot_total fuel h s d v j :
  (d <= j < d + fuel)%nat -> slot_get h (walk s j) = 0 ->
  exists h', insert_slot fuel h (walk s d) v = Some h'.
Proof.
  revert d. induction fuel as [|fuel IH]; intros d Hj Hz; simpl; [lia|].
  destruct (Z.eqb_spec (slot_get h (walk s d)) 0) as [H0|H0]; [eauto|].
  rewrite next_slot_walk. apply IH; [|done].
  destruct (decide (j = d)) as [->|]; [done|lia].
Qed.

(** ** Well-formed slot arrays *)

(** Every used slot holds the 1-based number of a cell satisfying [P], and no
    cell is in two slots. *)
Record slots_ok (P : nat -> Prop) (h : list Z) : Prop := {
  so_len : length h = Z.to_nat STATE_HASH_SIZE;
  so_val : forall s v, h !! s = Some v -> v <> 0 ->
    exists i, v = Z.of_nat i + 1 /\ (i < MAX_PENDING)%nat /\ P i;
  so_inj : forall s s' v, h !! s = Some v -> h !! s' = Some v -> v <> 0 -> s = s';
}.

(** Cell number [v] is met by a probe from [s] before any free slot. *)
Definition reach (h : list Z) (s v : Z) : Prop :=
  exists d, (d < PROBES)%nat /\ slot_get h (walk s d) = v /\
    forall j, (j < d)%nat -> slot_get h (walk s j) <> 0.

Lemma slots_ok_mono (P Q : nat -> Prop) h :
  slots_ok P h -> (forall i, P i -> Q i) -> slots_ok Q h.
Proof. intros [Hl Hv Hi] HPQ. split; [done| |done]. intros s v Hs Hz.
  destruct (Hv s v Hs Hz) as (i & ? & ? & ?). eauto. Qed.

Lemma slots_ok_empty P : slots_ok P (replicate (Z.to_nat STATE_HASH_SIZE) 0).
Proof.
  split; [apply length_replicate|..].
  - intros s v [-> _]%lookup_replicate. done.
  - intros s s' v [-> _]%lookup_replicate. done.
Qed.

Lemma slot_get_lookup P h s : slots_ok P h -> 0 <= s < STATE_HASH_SIZE ->
  h !! Z.to_nat s = Some (slot_get h s).
Proof.
  intros Hok Hs. unfold slot_get. destruct (h !! Z.to_nat s) eqn:E; [done|].
  apply lookup_ge_None in E. rewrite (so_len _ _ Hok) in E. lia.
Qed.

(** The index is larger than the array, so it always has a free slot. *)
Lemma slots_ok_free P h : slots_ok P h ->
  exists z, 0 <= z < STATE_HASH_SIZE /\ slot_get h z = 0.
Proof.
  intros Hok. destruct (find_index (Z.eqb 0) h) as [n|] eqn:E.
  - apply find_index_hit in E as (x & Hn & Hx). exists (Z.of_nat n).
    pose proof (lookup_lt_Some _ _ _ Hn) as Hlt. rewrite (so_len _ _ Hok) in Hlt.
    split; [lia|]. unfold slot_get. rewrite Nat2Z.id, Hn. simpl. lia.
  - exfalso. rewrite find_index_None in E.
    assert (Hnz : forall i x, h !! i = Some x -> x <> 0)
      by (intros i x Hx ->; by apply E in Hx).
    assert (Hdup : NoDup h).
    { apply NoDup_alt. intros i j x Hi Hj. eapply so_inj; eauto. }
    assert (Hsub : h ⊆+ seqZ 1 (Z.of_nat MAX_PENDING)).
    { apply NoDup_submseteq; [done|]. intros x [i Hi]%list_elem_of_lookup.
      destruct (so_val _ _ Hok i x Hi (Hnz _ _ Hi)) as (n & -> & Hn & _).
      apply elem_of_seqZ. lia. }
    apply submseteq_length in Hsub. rewrite length_seqZ, (so_len _ _ Hok) in Hsub.
    unfold STATE_HASH_SIZE, MAX_PENDING in Hsub. lia.
Qed.

(** The insertion loop never fails on a well-formed index. *)
Lemma insert_slot_Some P h s v : slots_ok P h -> 0 <= s < STATE_HASH_SIZE ->
  exists h', insert_slot PROBES h s v = Some h'.
Proof.
  intros Hok Hs. destruct (slots_ok_free P h Hok) as (z & Hz & H0).
  destruct (walk_onto s z Hz) as (d & Hd & <-).
  pose proof (insert_slot_total PROBES h s 0 v d ltac:(lia) H0) as Ht.
  by rewrite walk_0 in Ht.
Qed.

Lemma insert_slot_cell P h s v h' : slots_ok P h -> 0 <= s < STATE_HASH_SIZE ->
  insert_slot PROBES h s v = Some h' ->
  exists z d, (d < PROBES)%nat /\ z = walk s d /\ slot_get h z = 0 /\
    (forall j, (j < d)%nat -> slot_get h (walk s j) <> 0) /\
    h' = <[Z.to_nat z := v]> h.
Proof.
  intros Hok Hs Hi. pose proof (insert_slot_sound PROBES h s 0 v h') as Hsd.
  rewrite walk_0 in Hsd by done. destruct (Hsd Hi) as (j & Hj & Hz & Hb & ->).
  exists (walk s j), j. split_and!; [lia|done|done| |done]. intros i Hlt. apply Hb. lia.
Qed.

Lemma insert_slot_ok (P Q : nat -> Prop) h s i h' :
  slots_ok P h -> 0 <= s < STATE_HASH_SIZE ->
  insert_slot PROBES h s (Z.of_nat i + 1) = Some h' ->
  (i < MAX_PENDING)%nat -> ~ P i -> Q i -> (forall j, P j -> Q j) ->
  slots_ok Q h'.
Proof.
  intros Hok Hs Hi Hlt HPi HQi HPQ.
  destruct (insert_slot_cell P h s _ h' Hok Hs Hi) as (z & d & Hd & -> & H0 & Hb & ->).
  assert (Hfresh : forall x, h !! x <> Some (Z.of_nat i + 1)).
  { intros x Hx. destruct (so_val _ _ Hok x _ Hx ltac:(lia)) as (n & Hn & _ & HPn).
    replace n with i in HPn by lia. done. }
  split.
  - rewrite length_insert. apply (so_len _ _ Hok).
  - intros x w Hx Hw. apply lookup_insert_cases in Hx as [(-> & -> & _)|[_ Hx]].
    + exists i. done.
    + destruct (so_val _ _ Hok x w Hx Hw) as (n & ? & ? & ?). eauto.
  - intros x x' w Hx Hx' Hw.
    apply lookup_insert_cases in Hx as [(-> & -> & _)|[_ Hx]];
      apply lookup_insert_cases in Hx' as [(-> & ? & _)|[_ Hx']]; subst;
      try done; try (by destruct (Hfresh _ Hx')); try (by destruct (Hfresh _ Hx)).
    eapply so_inj; eauto.
Qed.

Lemma insert_slot_reach P h s v h' : slots_ok P h -> 0 <= s < STATE_HASH_SIZE ->
  insert_slot PROBES h s v = Some h' -> reach h' s v.
Proof.
  intros Hok Hs Hi.
  destruct (insert_slot_cell P h s _ h' Hok Hs Hi) as (z & d & Hd & -> & H0 & Hb & ->).
  exists d. split_and!; [done| |].
  - apply slot_get_insert_eq; [apply (so_len _ _ Hok)|apply walk_range].
  - intros j Hj Hz. destruct (Z.eq_dec (walk s d) (walk s j)) as [He|Hne].
    + apply (Hb j Hj). by rewrite <-He.
    + rewrite slot_get_insert_ne in Hz by (auto; apply walk_range). by apply (Hb j Hj).
Qed.

(** Filling a free slot breaks no existing probe path. *)
Lemma insert_slot_reach_old P h s v h' s0 v0 :
  slots_ok P h -> 0 <= s < STATE_HASH_SIZE -> v <> 0 -> v0 <> 0 ->
  insert_slot PROBES h s v = Some h' -> reach h s0 v0 -> reach h' s0 v0.
Proof.
  intros Hok Hs Hv Hv0 Hi (d0 & Hd0 & Hg & Hb0).
  destruct (insert_slot_cell P h s _ h' Hok Hs Hi) as (z & d & Hd & -> & H0 & Hb & ->).
  exists d0. split_and!; [done| |].
  - rewrite slot_get_insert_ne; [done|apply walk_range..|]. intros He.
    rewrite He in H0. congruence.
  - intros j Hj. destruct (Z.eq_dec (walk s d) (walk s0 j)) as [He|Hne].
    + rewrite He, slot_get_insert_eq; [done|apply (so_len _ _ Hok)|apply walk_range].
    + rewrite slot_get_insert_ne by (auto; apply walk_range). by apply Hb0.
Qed.

Lemma u16_cell i : (i < MAX_PENDING)%nat -> u16 (Z.of_nat i + 1) = Z.of_nat i + 1.
Proof. intros. apply wrap_small. unfold MAX_PENDING in *. lia. Qed.

(** ** Well-formed tables *)
Section invariant.
Context {E : Type} `{StateEntry E}.
Implicit Types (t : table E) (es : list E) (k : string) (e : E).

Definition live (e : E) : Prop := e_valid e = true.
Definition keyed (e : E) : Prop := e_valid e = true /\ e_key e <> ""%string.

(** Safety part: holds whatever keys are used. *)
Record table_ok (t : table E) : Prop := {
  to_len : length (entries t) = MAX_PENDING;
  to_slots : slots_ok (fun i => exists e, entries t !! i = Some e /\ live e) (slots t);
}.

(** Lookup part: every keyed entry is on its probe path, and no key occurs
    twice.  It needs keys that fit the entry's buffer. *)
Record table_indexed (t : table E) : Prop := {
  ti_reach : forall i e, entries t !! i = Some e -> keyed e ->
    reach (slots t) (home_slot (e_key e)) (Z.of_nat i + 1);
  ti_unique : forall i j e e', entries t !! i = Some e -> entries t !! j = Some e' ->
    keyed e -> keyed e' -> e_key e = e_key e' -> i = j;
}.

Definition unique_keys es : Prop :=
  forall i j e e', es !! i = Some e -> es !! j = Some e' ->
    keyed e -> keyed e' -> e_key e = e_key e' -> i = j.

(** *** Rebuilding *)
Definition indexed_below es (n : nat) (h : list Z) : Prop :=
  slots_ok (fun i => (i < n)%nat /\ exists e, es !! i = Some e /\ keyed e) h /\
  forall i e, (i < n)%nat -> es !! i = Some e -> keyed e ->
    reach h (home_slot (e_key e)) (Z.of_nat i + 1).

Lemma indexed_below_skip es n h e :
  indexed_below es n h -> es !! n = Some e -> ~ keyed e -> indexed_below es (S n) h.
Proof.
  intros [Hok Hr] Hn Hk. split.
  - eapply slots_ok_mono; [done|]. intros i [? ?]. split; [lia|done].
  - intros i e' Hi He' Hk'. apply Hr; [|done..].
    destruct (decide (i = n)) as [->|]; [congruence|lia].
Qed.

Lemma indexed_below_add es n h e h' :
  (length es <= MAX_PENDING)%nat ->
  indexed_below es n h -> es !! n = Some e -> keyed e ->
  insert_slot PROBES h (home_slot (e_key e)) (Z.of_nat n + 1) = Some h' ->
  indexed_below es (S n) h'.
Proof.
  intros Hlen [Hok Hr] Hn Hk Hi. pose proof (lookup_lt_Some _ _ _ Hn).
  pose proof (home_slot_range (e_key e)) as Hh. split.
  - eapply insert_slot_ok; [exact Hok|exact Hh|exact Hi|lia|..].
    + intros [? _]. lia.
    + split; [lia|eauto].
    + intros j [? ?]. split; [lia|done].
  - intros i e' Hi' He' Hk'. destruct (decide (i = n)) as [->|Hne].
    + simplify_eq. by eapply insert_slot_reach.
    + eapply insert_slot_reach_old; [exact Hok|exact Hh| | |exact Hi|]; [lia|lia|].
      apply Hr; [lia|done..].
Qed.

Lemma rebuild_from_spec es pre rest h :
  es = pre ++ rest -> (length es <= MAX_PENDING)%nat ->
  indexed_below es (length pre) h ->
  indexed_below es (length es) (rebuild_from (Z.of_nat (length pre)) rest h).
Proof.
  revert pre h. induction rest as [|e rest IH]; intros pre h -> Hlen Hinv; simpl.
  - by rewrite app_nil_r in *.
  - assert (Hn : (pre ++ e :: rest) !! length pre = Some e) by by apply list_lookup_middle.
    assert (Hpre : pre ++ e :: rest = (pre ++ [e]) ++ rest)
      by by rewrite <-app_assoc.
    assert (Hlp : length (pre ++ [e]) = S (length pre)) by (rewrite length_app; simpl; lia).
    assert (Hz : Z.of_nat (length pre) + 1 = Z.of_nat (length (pre ++ [e]))) by lia.
    rewrite Hz. destruct (negb (e_valid e) || strcmp_eq (e_key e) "") eqn:Ek.
    + apply IH; [done|done|]. rewrite Hlp. eapply indexed_below_skip; [done..|].
      intros [Hv Hne]. apply strcmp_eq_false in Hne. rewrite Hv, Hne in Ek. done.
    + apply orb_false_iff in Ek as [Hv Hne]. apply negb_false_iff in Hv.
      apply strcmp_eq_false in Hne. pose proof (lookup_lt_Some _ _ _ Hn).
      rewrite <-Hz, u16_cell by lia.
      destruct (insert_slot_Some _ h _ (Z.of_nat (length pre) + 1) (proj1 Hinv)
                  (home_slot_range (e_key e))) as [h' Hh']. rewrite Hh'. simpl. rewrite Hz.
      apply IH; [done|done|]. rewrite Hlp.
      by eapply indexed_below_add.
Qed.

Lemma rebuild_hash_spec es : (length es <= MAX_PENDING)%nat ->
  indexed_below es (length es) (rebuild_hash es).
Proof.
  intros Hlen. apply (rebuild_from_spec es [] es); [done|done|].
  split; [apply slots_ok_empty|]. simpl. lia.
Qed.

Lemma rebuild_table_ok es : length es = MAX_PENDING ->
  table_ok (Table es (rebuild_hash es)).
Proof.
  intros Hlen. destruct (rebuild_hash_spec es ltac:(lia)) as [Hok _].
  split; [done|]. simpl. eapply slots_ok_mono; [exact Hok|].
  intros i (_ & e & ? & ? & _). eauto.
Qed.

Lemma rebuild_table_indexed es : length es = MAX_PENDING -> unique_keys es ->
  table_indexed (Table es (rebuild_hash es)).
Proof.
  intros Hlen Hu. destruct (rebuild_hash_spec es ltac:(lia)) as [_ Hr].
  split; [|exact Hu]. simpl. intros i e He Hk. apply Hr; [|done..].
  by eapply lookup_lt_Some.
Qed.

(** *** Placing a fresh entry in a dead cell *)
Lemma place_state_ok t i k :
  table_ok t -> (forall e, entries t !! i = Some e -> e_valid e = false) ->
  (i < MAX_PENDING)%nat ->
  exists h, place_state t i k = (Some i, Table (<[i := e_fresh k]> (entries t)) h) /\
    table_ok (Table (<[i := e_fresh k]> (entries t)) h) /\
    insert_slot PROBES (slots t) (home_slot k) (Z.of_nat i + 1) = Some h.
Proof.
  intros [Hlen Hok] Hdead Hi. unfold place_state. rewrite u16_cell by done.
  destruct (insert_slot_Some _ _ _ (Z.of_nat i + 1) Hok (home_slot_range k)) as [h Hh].
  rewrite Hh. exists h. split; [done|split; [|done]].
  split; simpl; [by rewrite length_insert|].
  eapply insert_slot_ok; [exact Hok|apply home_slot_range|exact Hh|done|..].
  - intros (e & He & Hl). apply Hdead in He. unfold live in Hl. congruence.
  - exists (e_fresh k). rewrite list_lookup_insert_eq by lia. split; [done|apply e_fresh_valid].
  - intros j (e & He & Hl). exists e. split; [|done].
    rewrite list_lookup_insert_ne; [done|]. intros ->. apply Hdead in He.
    unfold live in Hl. congruence.
Qed.

Lemma place_state_indexed t i k h :
  table_ok t -> table_indexed t ->
  (forall e, entries t !! i = Some e -> e_valid e = false) ->
  (i < MAX_PENDING)%nat -> (strlen k < e_key_size)%nat ->
  (forall j e, entries t !! j = Some e -> keyed e -> e_key e <> k) ->
  insert_slot PROBES (slots t) (home_slot k) (Z.of_nat i + 1) = Some h ->
  table_indexed (Table (<[i := e_fresh k]> (entries t)) h).
Proof.
  intros [Hlen Hok] [Hr Hu] Hdead Hi Hk Hnew Hh.
  assert (Hfk : e_key (e_fresh k) = k) by by rewrite e_fresh_key, strlcpy_fits.
  split; simpl.
  - intros j e [(-> & -> & _)|[Hne He]]%lookup_insert_cases Hke.
    + rewrite Hfk. eapply insert_slot_reach; [exact Hok|apply home_slot_range|done].
    + eapply insert_slot_reach_old; [exact Hok|apply home_slot_range| | |exact Hh|]; [lia|lia|].
      by apply Hr.
  - intros j j' e e' [(-> & -> & _)|[Hne He]]%lookup_insert_cases
      [(-> & -> & _)|[Hne' He']]%lookup_insert_cases Hke Hke' Heq; [done|..].
    + rewrite Hfk in Heq. by destruct (Hnew _ _ He' Hke').
    + rewrite Hfk in Heq. by destruct (Hnew _ _ He Hke).
    + by eapply Hu.
Qed.
End invariant.

(** ** Lookup, creation and the map a table implements *)
Section refinement.
Context {E : Type} `{StateEntry E}.
Implicit Types (t : table E) (es : list E) (k : string) (e : E).

Lemma probe_find_sound fuel t s k i :
  probe_find fuel t s k = Some i ->
  exists e, entries t !! i = Some e /\ live e /\ e_key e = k.
Proof.
  revert s. induction fuel as [|fuel IH]; intros s Hf; simpl in Hf; [done|].
  destruct (slot_get (slots t) s =? 0); [done|].
  destruct (entries t !! Z.to_nat (slot_get (slots t) s - 1)) as [e|] eqn:He; [|done].
  destruct (e_valid e && strcmp_eq (e_key e) k) eqn:Hm; [|by eauto].
  bool_hyps. injection Hf as <-. exists e. split_and!; [done..|].
  by apply strcmp_eq_true.
Qed.

Lemma find_state_sound t k i : find_state t k = Some i ->
  exists e, entries t !! i = Some e /\ live e /\ e_key e = k.
Proof. apply probe_find_sound. Qed.

Lemma probe_find_complete fuel t k i e d d0 :
  table_ok t -> entries t !! i = Some e -> live e -> e_key e = k ->
  (d0 <= d < d0 + fuel)%nat ->
  slot_get (slots t) (walk (home_slot k) d) = Z.of_nat i + 1 ->
  (forall j, (j < d)%nat -> slot_get (slots t) (walk (home_slot k) j) <> 0) ->
  exists i', probe_find fuel t (walk (home_slot k) d0) k = Some i'.
Proof.
  intros Hok He Hl Hk. revert d0. induction fuel as [|fuel IH]; intros d0 Hd Hg Hb; [lia|].
  simpl. set (v := slot_get (slots t) (walk (home_slot k) d0)) in *.
  assert (Hv : v <> 0).
  { destruct (decide (d0 = d)) as [->|]; [unfold v; lia|]. apply Hb. lia. }
  rewrite (proj2 (Z.eqb_neq _ _) Hv).
  pose proof (slot_get_lookup _ _ _ (to_slots _ Hok) (walk_range (home_slot k) d0)) as Hs.
  destruct (so_val _ _ (to_slots _ Hok) _ _ Hs Hv) as (n & Hn & _ & e' & He' & _).
  fold v in Hn. rewrite Hn. replace (Z.to_nat (Z.of_nat n + 1 - 1)) with n by lia.
  rewrite He'. destruct (e_valid e' && strcmp_eq (e_key e') k) eqn:Hm; [eauto|].
  rewrite next_slot_walk. apply IH; [|done..].
  destruct (decide (d0 = d)) as [->|]; [|lia].
  exfalso. assert (n = i) as -> by (unfold v in Hn; lia). simplify_eq.
  by rewrite Hl, strcmp_eq_refl in Hm.
Qed.

Lemma find_state_complete t k i e :
  table_ok t -> table_indexed t -> entries t !! i = Some e -> keyed e -> e_key e = k ->
  find_state t k = Some i.
Proof.
  intros Hok [Hr Hu] He Hke Hk. destruct (Hr i e He Hke) as (d & Hd & Hg & Hb).
  subst k. destruct (probe_find_complete PROBES t (e_key e) i e d 0 Hok He (proj1 Hke)
    eq_refl ltac:(lia) Hg Hb) as [i' Hf].
  rewrite walk_0 in Hf by apply home_slot_range. unfold find_state. rewrite Hf. f_equal.
  destruct (probe_find_sound _ _ _ _ _ Hf) as (e' & He' & Hl & Hk').
  symmetry. eapply Hu; [exact He|exact He'|done| |done].
  split; [done|]. rewrite Hk'. apply Hke.
Qed.

(** *** The abstract map *)
Lemma unique_keys_tail e es : unique_keys (e :: es) -> unique_keys es.
Proof. intros Hu i j e1 e2 H1 H2 K1 K2 Hk. by pose proof (Hu (S i) (S j) e1 e2 H1 H2 K1 K2 Hk) as [= ->]. Qed.

Lemma keyed_dec e : e_valid e && negb (strcmp_eq (e_key e) "") = true <-> keyed e.
Proof. unfold keyed. rewrite andb_true_iff, negb_true_iff, strcmp_eq_false. done. Qed.

Lemma entries_map_lookup es k e : unique_keys es ->
  entries_map es !! k = Some e <->
  exists i, es !! i = Some e /\ keyed e /\ e_key e = k.
Proof.
  intros Hu. induction es as [|a es IH]; simpl.
  { rewrite lookup_empty. split; [done|]. by intros (i & Hi & _). }
  specialize (IH (unique_keys_tail _ _ Hu)).
  destruct (e_valid a && negb (strcmp_eq (e_key a) "")) eqn:Ha.
  - apply keyed_dec in Ha. destruct (decide (e_key a = k)) as [<-|Hne].
    + rewrite lookup_insert_eq. split.
      * intros [= <-]. by exists 0%nat.
      * intros (i & Hi & Hke & Hk).
        assert (0%nat = i) as <- by by eapply (Hu 0%nat i a e). by simplify_eq/=.
    + rewrite lookup_insert_ne, IH by done. split.
      * intros (i & ?). by exists (S i).
      * intros ([|i] & Hi & Hke & Hk); simplify_eq/=. eauto.
  - rewrite IH. split.
    + intros (i & ?). by exists (S i).
    + intros ([|i] & Hi & Hke & Hk); simplify_eq/=; [|eauto].
      apply keyed_dec in Hke. congruence.
Qed.

Lemma entries_map_None es k : unique_keys es ->
  entries_map es !! k = None <->
  forall i e, es !! i = Some e -> keyed e -> e_key e <> k.
Proof.
  intros Hu. rewrite eq_None_not_Some. split.
  - intros Hn i e He Hke Hk. apply Hn. exists e. apply entries_map_lookup; eauto.
  - intros Hall [e He]. apply entries_map_lookup in He as (i & He & Hke & Hk); [|done].
    by apply (Hall i e).
Qed.

Lemma unique_keys_zero es i : unique_keys es -> unique_keys (<[i := e_zero]> es).
Proof.
  intros Hu j j' e e' [(-> & -> & _)|[_ He]]%lookup_insert_cases
    [(-> & -> & _)|[_ He']]%lookup_insert_cases Hk Hk' Heq; [done|..|by eapply Hu].
  - destruct Hk as [Hv _]. rewrite e_zero_invalid in Hv. done.
  - destruct Hk' as [Hv _]. rewrite e_zero_invalid in Hv. done.
Qed.

Lemma entries_map_fresh es i k :
  unique_keys es -> (i < length es)%nat ->
  (forall e, es !! i = Some e -> e_valid e = false) ->
  (forall j e, es !! j = Some e -> keyed e -> e_key e <> k) ->
  (strlen k < e_key_size)%nat -> k <> ""%string ->
  unique_keys (<[i := e_fresh k]> es) ->
  entries_map (<[i := e_fresh k]> es) = <[k := e_fresh k]> (entries_map es).
Proof.
  intros Hu Hi Hdead Hnew Hlen Hne Hu'.
  assert (Hfk : e_key (e_fresh k) = k) by by rewrite e_fresh_key, strlcpy_fits.
  apply map_eq. intros k'. apply option_eq. intros e.
  rewrite entries_map_lookup by done. destruct (decide (k = k')) as [<-|Hkk].
  - rewrite lookup_insert_eq. split.
    + intros (j & [(-> & -> & _)|[_ He]]%lookup_insert_cases & Hke & Hk); [done|].
      by destruct (Hnew j e He Hke).
    + intros [= <-]. exists i. rewrite list_lookup_insert_eq by done. split_and!; [done|..|done].
      split; [apply e_fresh_valid|]. by rewrite Hfk.
  - rewrite lookup_insert_ne, entries_map_lookup by done. split.
    + intros (j & [(-> & -> & _)|[_ He]]%lookup_insert_cases & Hke & Hk); [congruence|eauto].
    + intros (j & He & Hke & Hk). exists j. split; [|done].
      rewrite list_lookup_insert_ne; [done|]. intros ->. apply Hdead in He.
      destruct Hke. congruence.
Qed.

Lemma entries_map_zero es i e0 :
  unique_keys es -> es !! i = Some e0 -> e_valid e0 = true ->
  entries_map (<[i := e_zero]> es) = delete (e_key e0) (entries_map es).
Proof.
  intros Hu Hi Hv. apply map_eq. intros k. apply option_eq. intros e.
  rewrite entries_map_lookup by by apply unique_keys_zero.
  destruct (decide (e_key e0 = k)) as [<-|Hne].
  - rewrite lookup_delete_eq. split; [|done].
    intros (j & [(-> & -> & _)|[Hj He]]%lookup_insert_cases & Hke & Hk).
    + destruct Hke as [Hv' _]. by rewrite e_zero_invalid in Hv'.
    + destruct Hj. eapply (Hu j i e e0); [done..| |done]. split; [done|].
      rewrite <-Hk. apply Hke.
  - rewrite lookup_delete_ne, entries_map_lookup by done. split.
    + intros (j & [(-> & -> & _)|[_ He]]%lookup_insert_cases & Hke & Hk); [|eauto].
      destruct Hke as [Hv' _]. by rewrite e_zero_invalid in Hv'.
    + intros (j & He & Hke & Hk). exists j. split; [|done].
      rewrite list_lookup_insert_ne; [done|]. intros ->. congruence.
Qed.
End refinement.

(** ** The operations as map operations *)
Section operations_spec.
Context {E : Type} `{StateEntry E}.
Implicit Types (t : table E) (es : list E) (k : string) (e : E).

(** The map after the entry [create] evicts, if any, is gone. *)
Definition evicted_map (evict : list E -> nat) t : gmap string E :=
  match find_index (fun e => negb (e_valid e)) (entries t) with
  | Some _ => table_map t
  | None =>
      match entries t !! evict (entries t) with
      | Some e => delete (e_key e) (table_map t)
      | None => table_map t
      end
  end.

Definition evict_in_range (evict : list E -> nat) : Prop :=
  forall es, length es = MAX_PENDING -> (evict es < MAX_PENDING)%nat.

Definition table_wf t : Prop := table_ok t /\ table_indexed t.

Lemma find_state_map t k : table_wf t -> k <> ""%string ->
  (find_state t k ≫= fun i => entries t !! i) = table_map t !! k.
Proof.
  intros [Hok Hix] Hk. apply option_eq. intros e. unfold table_map.
  rewrite entries_map_lookup by exact (ti_unique _ Hix). split.
  - destruct (find_state t k) as [i|] eqn:Hf; simpl; [|done]. intros He.
    destruct (find_state_sound _ _ _ Hf) as (e' & He' & Hl & Hk'). simplify_eq.
    exists i. unfold keyed, live in *. done.
  - intros (i & He & Hke & Hk'). rewrite (find_state_complete t k i e); done.
Qed.

Lemma find_state_None t k : table_wf t -> k <> ""%string -> find_state t k = None ->
  forall j e, entries t !! j = Some e -> keyed e -> e_key e <> k.
Proof.
  intros [Hok Hix] Hk Hf j e He Hke Hek.
  rewrite (find_state_complete t k j e Hok Hix He Hke Hek) in Hf. done.
Qed.

Lemma dead_cell t i : find_index (fun e => negb (e_valid e)) (entries t) = Some i ->
  forall e, entries t !! i = Some e -> e_valid e = false.
Proof.
  intros (x & Hx & Hp)%find_index_hit e He. simplify_eq. by apply negb_true_iff.
Qed.

Lemma zeroed_dead es i h e :
  entries (Table (<[i := e_zero]> es) h) !! i = Some e -> e_valid e = false.
Proof.
  simpl. intros [(_ & -> & _)|[? _]]%lookup_insert_cases; [apply e_zero_invalid|done].
Qed.

Lemma create_state_ok evict t k : table_ok t -> evict_in_range evict ->
  exists i t', create_state evict t k = (Some i, t') /\ table_ok t' /\
    entries t' !! i = Some (e_fresh k).
Proof.
  intros Hok Hev. unfold create_state.
  destruct (find_index _ (entries t)) as [i|] eqn:Hfi.
  - pose proof (find_index_lt _ _ _ Hfi) as Hi. rewrite (to_len _ Hok) in Hi.
    destruct (place_state_ok t i k Hok (dead_cell _ _ Hfi) Hi) as (h & -> & Hok' & _).
    eexists _, _. split_and!; [done|done|]. simpl.
    apply list_lookup_insert_eq. rewrite (to_len _ Hok). done.
  - set (i := evict (entries t)). set (es := <[i := e_zero]> (entries t)).
    assert (Hi : (i < MAX_PENDING)%nat) by exact (Hev _ (to_len _ Hok)).
    assert (Hl : length es = MAX_PENDING) by (unfold es; rewrite length_insert; apply Hok).
    destruct (place_state_ok (Table es (rebuild_hash es)) i k (rebuild_table_ok es Hl)
      (zeroed_dead _ _ _) Hi) as (h & -> & Hok' & _).
    eexists _, _. split_and!; [done|done|]. simpl.
    apply list_lookup_insert_eq. by rewrite Hl.
Qed.

Lemma create_state_map evict t k :
  table_wf t -> evict_in_range evict -> (strlen k < e_key_size)%nat -> k <> ""%string ->
  find_state t k = None ->
  exists i t', create_state evict t k = (Some i, t') /\ table_wf t' /\
    entries t' !! i = Some (e_fresh k) /\
    table_map t' = <[k := e_fresh k]> (evicted_map evict t).
Proof.
  intros Hwf Hev Hlen Hk Hf. pose proof (find_state_None t k Hwf Hk Hf) as Hnew.
  destruct Hwf as [Hok Hix]. unfold create_state, evicted_map.
  destruct (find_index _ (entries t)) as [i|] eqn:Hfi.
  - pose proof (find_index_lt _ _ _ Hfi) as Hi. pose proof (dead_cell _ _ Hfi) as Hd.
    destruct (place_state_ok t i k Hok Hd ltac:(rewrite <-(to_len _ Hok); done))
      as (h & -> & Hok' & Hins).
    pose proof (place_state_indexed t i k h Hok Hix Hd ltac:(rewrite <-(to_len _ Hok); done)
      Hlen Hnew Hins) as Hix'.
    eexists _, _. split_and!; [done|by split|by apply list_lookup_insert_eq|].
    apply entries_map_fresh; [exact (ti_unique _ Hix)|done..|exact (ti_unique _ Hix')].
  - set (i := evict (entries t)). set (es := <[i := e_zero]> (entries t)).
    assert (Hi : (i < MAX_PENDING)%nat) by exact (Hev _ (to_len _ Hok)).
    assert (Hl : length es = MAX_PENDING) by (unfold es; rewrite length_insert; apply Hok).
    assert (Hu : unique_keys es) by exact (unique_keys_zero _ i (ti_unique _ Hix)).
    destruct (lookup_lt_is_Some_2 (entries t) i ltac:(rewrite (to_len _ Hok); done)) as [e0 He0].
    assert (Hv0 : e_valid e0 = true).
    { rewrite find_index_None in Hfi. by apply Hfi, negb_false_iff in He0. }
    assert (Hnew' : forall j e, es !! j = Some e -> keyed e -> e_key e <> k).
    { intros j e [(-> & -> & _)|[_ He]]%lookup_insert_cases Hke; [|by eapply Hnew].
      destruct Hke as [Hv _]. by rewrite e_zero_invalid in Hv. }
    pose proof (rebuild_table_ok es Hl) as Hok1.
    destruct (place_state_ok (Table es (rebuild_hash es)) i k Hok1
      (zeroed_dead _ _ _) Hi) as (h & -> & Hok' & Hins).
    pose proof (place_state_indexed (Table es (rebuild_hash es)) i k h Hok1
      (rebuild_table_indexed es Hl Hu) (zeroed_dead _ _ _) Hi Hlen Hnew' Hins) as Hix'.
    eexists _, _. split_and!; [done|by split| |].
    { cbn [entries]. apply list_lookup_insert_eq. by rewrite Hl. }
    rewrite He0. unfold table_map at 1. cbn [entries].
    rewrite entries_map_fresh; [|done|by rewrite Hl|exact (zeroed_dead _ _ [])|done..|exact (ti_unique _ Hix')].
    f_equal. by apply entries_map_zero; [exact (ti_unique _ Hix)|..].
Qed.

(** Field updates through a found entry keep the index. *)
Definition key_stable (f : E -> E) : Prop :=
  forall e, e_key (f e) = e_key e /\ e_valid (f e) = e_valid e.

Lemma lookup_update f i t j e' : entries (update_entry f i t) !! j = Some e' ->
  exists e, entries t !! j = Some e /\ e' = (if decide (j = i) then f e else e).
Proof.
  simpl. destruct (decide (i = j)) as [->|Hne].
  - rewrite list_lookup_alter_eq. intros (e & -> & ->)%fmap_Some.
    exists e. by rewrite decide_True.
  - rewrite list_lookup_alter_ne by done. exists e'. by rewrite decide_False.
Qed.

Lemma update_entry_ok f i t : key_stable f -> table_ok t -> table_ok (update_entry f i t).
Proof.
  intros Hf [Hl Hs]. split; simpl; [by rewrite length_alter|].
  eapply slots_ok_mono; [exact Hs|]. intros j (e & He & Hv).
  destruct (decide (i = j)) as [->|Hne].
  - exists (f e). rewrite list_lookup_alter_eq, He. split; [done|]. unfold live. by rewrite (proj2 (Hf e)).
  - exists e. by rewrite list_lookup_alter_ne.
Qed.

Lemma update_entry_wf f i t : key_stable f -> table_wf t -> table_wf (update_entry f i t).
Proof.
  intros Hf [Hok [Hr Hu]]. split; [by apply update_entry_ok|].
  assert (Hke : forall e j, keyed (if decide (j = i) then f e else e) <-> keyed e).
  { intros e j. case_decide; [|done]. unfold keyed. by rewrite !(proj1 (Hf e)), (proj2 (Hf e)). }
  assert (Hk : forall e j, e_key (if decide (j = i) then f e else e) = e_key e).
  { intros e j. case_decide; [|done]. apply Hf. }
  split.
  - intros j e' (e & He & ->)%lookup_update Hk'. rewrite Hk. apply Hr; [done|]. by rewrite Hke in Hk'.
  - intros j j' e1 e2 (e & He & ->)%lookup_update (e' & He' & ->)%lookup_update K1 K2 Heq.
    rewrite Hke in K1. rewrite Hke in K2. rewrite !Hk in Heq. by eapply Hu.
Qed.

Lemma update_entry_map f i t e : key_stable f -> table_wf t ->
  entries t !! i = Some e -> keyed e ->
  table_map (update_entry f i t) = <[e_key e := f e]> (table_map t).
Proof.
  intros Hf Hwf Hi Hke. pose proof (update_entry_wf f i t Hf Hwf) as [_ [_ Hu']].
  destruct Hwf as [_ [_ Hu]]. destruct (Hf e) as [Hfk Hfv].
  apply map_eq. intros k. apply option_eq. intros e'. unfold table_map.
  rewrite entries_map_lookup by done. destruct (decide (e_key e = k)) as [<-|Hne].
  - rewrite lookup_insert_eq. split.
    + intros (j & (e0 & He0 & ->)%lookup_update & Hk' & Heq). case_decide as Hj.
      * subst. by simplify_eq.
      * destruct Hj. by eapply (Hu j i e0 e).
    + intros [= <-]. exists i. simpl. rewrite list_lookup_alter_eq, Hi. split_and!; [done|..|done].
      unfold keyed in *. by rewrite Hfk, Hfv.
  - rewrite lookup_insert_ne, entries_map_lookup by done. split.
    + intros (j & (e0 & He0 & ->)%lookup_update & Hk' & Heq). case_decide as Hj; [|eauto].
      subst. by simplify_eq.
    + intros (j & He0 & Hk' & Heq). exists j. simpl. split; [|done].
      rewrite list_lookup_alter_ne; [done|]. intros ->. congruence.
Qed.

(** Pruning keeps exactly the entries that are not dead. *)
Lemma prune_entries_lookup dead t i e :
  entries (prune_entries dead t) !! i = Some e -> e_valid e = true ->
  entries t !! i = Some e /\ (keyed e -> dead e = false).
Proof.
  unfold prune_entries. set (drop := fun e0 => _ && dead e0).
  assert (Hd : forall x, keyed x -> drop x = dead x).
  { intros x Hk%keyed_dec. unfold drop. by rewrite Hk. }
  destruct (existsb drop (entries t)) eqn:Hex; cbn [entries].
  - rewrite list_lookup_fmap. intros (x & Hx & He)%fmap_Some Hv.
    change (e = if drop x then e_zero else x) in He.
    destruct (drop x) eqn:Hdx; subst e; [by rewrite e_zero_invalid in Hv|].
    split; [done|]. intros Hk. by rewrite <-Hd.
  - intros He Hv. split; [done|]. intros Hk. rewrite <-Hd by done.
    apply not_true_is_false. intros Ht. apply not_true_iff_false in Hex. apply Hex.
    apply existsb_exists. exists e. split; [|done].
    apply list_elem_of_In, list_elem_of_lookup. eauto.
Qed.

Lemma prune_entries_kept dead t i e :
  entries t !! i = Some e -> (keyed e -> dead e = false) ->
  entries (prune_entries dead t) !! i = Some e.
Proof.
  intros He Hk. unfold prune_entries. destruct (existsb _ _); [|done]. cbn [entries].
  rewrite list_lookup_fmap, He. simpl.
  destruct (e_valid e && negb (strcmp_eq (e_key e) "")) eqn:Hd; [|done].
  apply keyed_dec in Hd. by rewrite (Hk Hd).
Qed.

Lemma prune_entries_ok dead t : table_ok t -> table_ok (prune_entries dead t).
Proof.
  intros Hok. unfold prune_entries. destruct (existsb _ _); [|done].
  apply rebuild_table_ok. rewrite length_fmap. apply Hok.
Qed.

Lemma prune_entries_wf dead t : table_wf t -> table_wf (prune_entries dead t).
Proof.
  intros [Hok Hix]. split; [by apply prune_entries_ok|].
  assert (Hu : unique_keys (entries (prune_entries dead t))).
  { intros i j e e' He He' Hk Hk' Heq.
    apply prune_entries_lookup in He as [He _]; [|apply Hk].
    apply prune_entries_lookup in He' as [He' _]; [|apply Hk'].
    by eapply (ti_unique _ Hix). }
  revert Hu. unfold prune_entries. destruct (existsb _ _); [|done]. intros Hu.
  apply rebuild_table_indexed; [|done]. rewrite length_fmap. apply Hok.
Qed.

Lemma prune_entries_map dead t : table_wf t ->
  table_map (prune_entries dead t) = filter (fun kv => dead kv.2 = false) (table_map t).
Proof.
  intros Hwf. pose proof (prune_entries_wf dead t Hwf) as [_ Hix'].
  destruct Hwf as [Hok Hix]. apply map_eq. intros k. apply option_eq. intros e.
  rewrite map_lookup_filter_Some. unfold table_map.
  rewrite !entries_map_lookup by (exact (ti_unique _ Hix) || exact (ti_unique _ Hix')).
  split.
  - intros (i & He & Hke & Hk). apply prune_entries_lookup in He as [He Hd]; [|apply Hke].
    split; [eauto|]. by apply Hd.
  - intros [(i & He & Hke & Hk) Hd]. exists i. split; [|done]. by apply prune_entries_kept.
Qed.

Lemma empty_table_wf : table_wf (empty_table (E := E)).
Proof.
  split; split; cbn [entries slots empty_table].
  - apply length_replicate.
  - apply slots_ok_empty.
  - intros i e [-> _]%lookup_replicate [Hv _]. by rewrite e_zero_invalid in Hv.
  - intros i j e e' [-> _]%lookup_replicate _ [Hv _]. by rewrite e_zero_invalid in Hv.
Qed.
End operations_spec.

#[export] Hint Resolve update_entry_ok update_entry_wf prune_entries_ok prune_entries_wf
  empty_table_wf : sm.

(** The map has one key per keyed entry. *)
Lemma entries_map_size {E} `{StateEntry E} (es : list E) : unique_keys es ->
  size (entries_map es) =
  count_if (fun e => e_valid e && negb (strcmp_eq (e_key e) "")) es.
Proof.
  induction es as [|e es IH]; intros Hu; simpl; [done|].
  pose proof (unique_keys_tail _ _ Hu) as Hu'. specialize (IH Hu').
  destruct (e_valid e && negb (strcmp_eq (e_key e) "")) eqn:Hk; [|done].
  apply keyed_dec in Hk. rewrite map_size_insert_None, IH; [done|].
  apply entries_map_None; [done|]. intros i e' He' Hk' Heq.
  by pose proof (Hu 0%nat (S i) e e' eq_refl He' Hk Hk' (eq_sym Heq)).
Qed.

(** Creation only writes fresh and zeroed entries. *)
Lemma create_state_entries {E} `{StateEntry E} evict (t : table E) k r t' j e :
  create_state evict t k = (r, t') -> entries t' !! j = Some e ->
  e = e_fresh k \/ e = e_zero \/ entries t !! j = Some e.
Proof.
  unfold create_state, place_state. intros Hc He.
  repeat case_match; simplify_eq/=;
    repeat match goal with
    | H : <[_ := _]> _ !! _ = Some _ |- _ =>
        apply lookup_insert_cases in H as [(_ & -> & _)|[_ H]]
    end; auto.
Qed.

(** A key-preserving pass over the whole array maps over the table's map. *)
Lemma entries_map_fmap {E} `{StateEntry E} (f : E -> E) (es : list E) :
  key_stable f -> entries_map (f <$> es) = f <$> entries_map es.
Proof.
  intros Hf. induction es as [|e es IH]; [cbn; by rewrite fmap_empty|].
  rewrite fmap_cons. cbn [entries_map]. destruct (Hf e) as [-> ->]. rewrite IH.
  destruct (e_valid e && _); [by rewrite fmap_insert|done].
Qed.

Lemma fmap_table_wf {E} `{StateEntry E} (f : E -> E) (t : table E) :
  key_stable f -> table_wf t -> table_wf (Table (f <$> entries t) (slots t)).
Proof.
  intros Hf [[Hl Hs] [Hr Hu]].
  assert (Hk : forall e, keyed (f e) <-> keyed e).
  { intros e. unfold keyed. by destruct (Hf e) as [-> ->]. }
  split; split; cbn [entries slots].
  - by rewrite length_fmap.
  - eapply slots_ok_mono; [exact Hs|]. intros i (e & He & Hv). exists (f e).
    rewrite list_lookup_fmap, He. split; [done|]. unfold live. by rewrite (proj2 (Hf e)).
  - intros i e'. rewrite list_lookup_fmap. intros (e & He & ->)%fmap_Some Hke.
    rewrite (proj1 (Hf e)). apply Hr; [done|]. by apply Hk.
  - intros i j e1 e2. rewrite !list_lookup_fmap.
    intros (e & He & ->)%fmap_Some (e' & He' & ->)%fmap_Some K1 K2 Heq.
    rewrite !(fun e => proj1 (Hf e)) in Heq. rewrite Hk in K1. rewrite Hk in K2. by eapply Hu.
Qed.

Lemma update_entry_id {E} `{StateEntry E} i (t : table E) : update_entry (fun e => e) i t = t.
Proof.
  destruct t as [es h]. unfold update_entry. simpl. f_equal.
  apply list_alter_id. done.
Qed.

(** [get_or_create_*_state] as a map operation: the entry is the one the map
    has, or a fresh one inserted after room was made. *)
Lemma get_or_create_spec {E} `{StateEntry E} evict (t : table E) k :
  table_wf t -> evict_in_range evict -> (strlen k < e_key_size)%nat -> k <> ""%string ->
  exists i t' e, get_or_create_state evict t k = (Some i, t') /\ table_wf t' /\
    entries t' !! i = Some e /\ keyed e /\ e_key e = k /\
    e = default (e_fresh k) (table_map t !! k) /\
    table_map t' = <[k := e]> (match table_map t !! k with
                               | Some _ => table_map t
                               | None => evicted_map evict t
                               end).
Proof.
  intros Hwf Hev Hlen Hne. unfold get_or_create_state.
  pose proof (find_state_map t k Hwf Hne) as Hm.
  destruct (find_state t k) as [i|] eqn:Hf.
  - destruct (find_state_sound _ _ _ Hf) as (e & He & Hl & Hk). simpl in Hm.
    rewrite He in Hm. rewrite <-Hm. exists i, t, e.
    assert (Hke : keyed e) by (split; [done|by rewrite Hk]).
    split_and!; try done. by rewrite insert_id.
  - simpl in Hm. rewrite <-Hm.
    destruct (create_state_map evict t k Hwf Hev Hlen Hne Hf) as (i & t' & Hc & Hwf' & He & Hm').
    assert (Hkey : e_key (e_fresh k) = k) by by rewrite e_fresh_key, strlcpy_fits.
    assert (Hke : keyed (e_fresh k)) by (split; [apply e_fresh_valid|by rewrite Hkey]).
    exists i, t', (e_fresh k). split_and!; done.
Qed.

Lemma get_or_create_ok {E} `{StateEntry E} evict (t : table E) k :
  table_ok t -> evict_in_range evict ->
  exists i t' e, get_or_create_state evict t k = (Some i, t') /\ table_ok t' /\
    entries t' !! i = Some e.
Proof.
  intros Hok Hev. unfold get_or_create_state. destruct (find_state t k) as [i|] eqn:Hf.
  - destruct (find_state_sound _ _ _ Hf) as (e & He & _). eauto 10.
  - destruct (create_state_ok evict t k Hok Hev) as (i & t' & -> & ? & ?). eauto 10.
Qed.

(** Updating the acquired entry and looking it up again. *)
Lemma lookup_after_update {E} `{StateEntry E} f i (t : table E) e :
  key_stable f -> table_wf t -> entries t !! i = Some e -> keyed e ->
  (find_state (update_entry f i t) (e_key e) ≫= fun j => entries (update_entry f i t) !! j)
    = Some (f e).
Proof.
  intros Hf Hwf He Hk. rewrite find_state_map; [|by apply update_entry_wf|apply Hk].
  rewrite (update_entry_map f i t e) by done. apply lookup_insert_eq.
Qed.
