(* ===== verification/TitleState.v ===== *)
(** * Per-title retry state (src/sm_title_state.c)

    The counters that bound how often a title is mounted and registered,
    kept in the hashed table of StateTable.v.  Operations return [None] where
    the C code would dereference the NULL that [create_title_state] can
    return; the first theorem shows that this never happens. *)
From S2P Require Import Prelude CString StateTable.
Open Scope c_scope.

Definition MAX_REGISTER_ATTEMPTS : Z := 2.
Definition MAX_FAILED_MOUNT_ATTEMPTS : Z := 2.

(** ** State *)
Record TitleStateEntry := mkTitleState {
  ts_title_id : string;
  mount_reg_attempts : Z;
  register_attempts : Z;
  duplicate_notified_once : bool;
  ts_valid : bool;
}.

Definition zero_title_state : TitleStateEntry := mkTitleState "" 0 0 false false.

Definition fresh_title_state (id : string) : TitleStateEntry :=
  mkTitleState (strlcpy id MAX_TITLE_ID) 0 0 false true.

#[export, refine] Instance title_entry : StateEntry TitleStateEntry := {
  e_key := ts_title_id;
  e_valid := ts_valid;
  e_zero := zero_title_state;
  e_fresh := fresh_title_state;
  e_key_size := MAX_TITLE_ID;
}.
Proof. all: done. Defined.

Abbreviation title_state := (table TitleStateEntry).

(** ** Lookup and creation *)
Definition rebuild_title_state_hash (es : list TitleStateEntry) : list Z := rebuild_hash es.

Definition find_title_state (t : title_state) (id : string) : option nat := find_state t id.

(** The two eviction passes of [create_title_state]. *)
Definition evict_title (es : list TitleStateEntry) : nat :=
  match find_index (fun e => ts_valid e && (mount_reg_attempts e =? 0) &&
                             (register_attempts e =? 0)) es with
  | Some k => k
  | None =>
      match find_index (fun e => ts_valid e && (mount_reg_attempts e =? 0)) es with
      | Some k => k
      | None => 0%nat
      end
  end.

Definition create_title_state (t : title_state) (id : string) : option nat * title_state :=
  create_state evict_title t id.

Definition get_or_create_title_state (t : title_state) (id : string) :
    option nat * title_state :=
  match find_title_state t id with
  | Some i => (Some i, t)
  | None => create_title_state t id
  end.

(** ** Field updates *)
Definition set_register (f : Z -> Z) (e : TitleStateEntry) : TitleStateEntry :=
  mkTitleState (ts_title_id e) (mount_reg_attempts e) (f (register_attempts e))
    (duplicate_notified_once e) (ts_valid e).
Definition set_mount (f : Z -> Z) (e : TitleStateEntry) : TitleStateEntry :=
  mkTitleState (ts_title_id e) (f (mount_reg_attempts e)) (register_attempts e)
    (duplicate_notified_once e) (ts_valid e).
Definition set_duplicate (b : bool) (e : TitleStateEntry) : TitleStateEntry :=
  mkTitleState (ts_title_id e) (mount_reg_attempts e) (register_attempts e)
    b (ts_valid e).

(** The entry a title has, when [find_title_state] finds one. *)
Definition title_entry_of (t : title_state) (id : string) : option TitleStateEntry :=
  i ← find_title_state t id; entries t !! i.

(** ** Public operations *)
Definition was_register_attempted (t : title_state) (id : string) : bool :=
  match title_entry_of t id with
  | Some e => MAX_REGISTER_ATTEMPTS <=? register_attempts e
  | None => false
  end.

Definition get_register_attempts (t : title_state) (id : string) : Z :=
  match title_entry_of t id with Some e => register_attempts e | None => 0 end.

Definition mark_register_attempted (t : title_state) (id : string) : option title_state :=
  let '(entry, t') := get_or_create_title_state t id in
  do? i <- entry ;
  Some (update_entry (set_register bump_u8) i t').

Definition clear_register_attempts (t : title_state) (id : string) : title_state :=
  match find_title_state t id with
  | Some i => update_entry (set_register (fun _ => 0)) i t
  | None => t
  end.

(** The boolean says whether the notification was shown. *)
Definition notify_duplicate_title_once (t : title_state) (id : string) :
    option (title_state * bool) :=
  let '(entry, t') := get_or_create_title_state t id in
  do? i <- entry ;
  do? e <- entries t' !! i ;
  if duplicate_notified_once e then Some (t', false)
  else Some (update_entry (set_duplicate true) i t', true).

Definition clear_duplicate_title_notification (t : title_state) (id : string) : title_state :=
  match find_title_state t id with
  | Some i => update_entry (set_duplicate false) i t
  | None => t
  end.

Definition get_failed_mount_attempts (t : title_state) (id : string) : Z :=
  match title_entry_of t id with Some e => mount_reg_attempts e | None => 0 end.

Definition clear_failed_mount_attempts (t : title_state) (id : string) : title_state :=
  match find_title_state t id with
  | Some i => update_entry (set_mount (fun _ => 0)) i t
  | None => t
  end.

Definition bump_failed_mount_attempts (t : title_state) (id : string) :
    option (title_state * Z) :=
  let '(entry, t') := get_or_create_title_state t id in
  do? i <- entry ;
  let t'' := update_entry (set_mount bump_u8) i t' in
  do? e <- entries t'' !! i ;
  Some (t'', mount_reg_attempts e).

(** Returns the two counters as they were before the reset. *)
Definition reset_title_attempts (t : title_state) (id : string) : title_state * Z * Z :=
  if strcmp_eq id "" then (t, 0, 0)
  else
    match find_title_state t id with
    | None => (t, 0, 0)
    | Some i =>
        match entries t !! i with
        | None => (t, 0, 0)
        | Some e =>
            (update_entry (fun e => set_mount (fun _ => 0) (set_register (fun _ => 0) e)) i t,
             register_attempts e, mount_reg_attempts e)
        end
    end.

Definition title_attempts_pending (e : TitleStateEntry) : bool :=
  ts_valid e && negb ((register_attempts e =? 0) && (mount_reg_attempts e =? 0)).

Definition reset_all_title_attempts (t : title_state) : title_state * nat :=
  (Table ((fun e => if title_attempts_pending e
                    then set_mount (fun _ => 0) (set_register (fun _ => 0) e) else e)
            <$> entries t) (slots t),
   count_if title_attempts_pending (entries t)).

(** ** The API as a transition function *)
Inductive title_op :=
  | OpMarkRegister (id : string)
  | OpClearRegister (id : string)
  | OpNotifyDuplicate (id : string)
  | OpClearDuplicate (id : string)
  | OpClearMount (id : string)
  | OpBumpMount (id : string)
  | OpReset (id : string)
  | OpResetAll.

Definition run_title_op (op : title_op) (t : title_state) : option title_state :=
  match op with
  | OpMarkRegister id => mark_register_attempted t id
  | OpClearRegister id => Some (clear_register_attempts t id)
  | OpNotifyDuplicate id => fst <$> notify_duplicate_title_once t id
  | OpClearDuplicate id => Some (clear_duplicate_title_notification t id)
  | OpClearMount id => Some (clear_failed_mount_attempts t id)
  | OpBumpMount id => fst <$> bump_failed_mount_attempts t id
  | OpReset id => Some (reset_title_attempts t id).1.1
  | OpResetAll => Some (reset_all_title_attempts t).1
  end.

Fixpoint run_title_ops (ops : list title_op) (t : title_state) : option title_state :=
  match ops with
  | [] => Some t
  | op :: ops' => t' ← run_title_op op t; run_title_ops ops' t'
  end.

(** ** Specification: a finite map of at most [MAX_PENDING] titles *)
Record title_rec := TitleRec { tr_register : Z; tr_mount : Z; tr_duplicate : bool }.

Definition rec_of (e : TitleStateEntry) : title_rec :=
  TitleRec (register_attempts e) (mount_reg_attempts e) (duplicate_notified_once e).

Definition title_abs (t : title_state) : gmap string title_rec := rec_of <$> table_map t.

Definition idle (r : title_rec) : Prop := tr_mount r = 0 /\ tr_register r = 0.

(** The victim of a full map: an idle title if there is one, else one with no
    mount attempts if there is one. *)
Definition victim_choice (m : gmap string title_rec) (r : title_rec) : Prop :=
  idle r \/
  ((forall k r', m !! k = Some r' -> ~ idle r') /\
   (tr_mount r = 0 \/ forall k r', m !! k = Some r' -> tr_mount r' <> 0)).

Definition make_room (m m0 : gmap string title_rec) : Prop :=
  ((size m < MAX_PENDING)%nat /\ m0 = m) \/
  (size m = MAX_PENDING /\
   exists v r, m !! v = Some r /\ victim_choice m r /\ m0 = delete v m).

(** A title's record is found, or created after making room. *)
Definition acquire (id : string) (m : gmap string title_rec) (r : title_rec)
    (m0 : gmap string title_rec) : Prop :=
  (m !! id = Some r /\ m0 = m) \/
  (m !! id = None /\ r = TitleRec 0 0 false /\ make_room m m0).

Inductive title_spec_step : title_op -> gmap string title_rec -> gmap string title_rec -> Prop :=
  | spec_mark id m m0 r : acquire id m r m0 ->
      title_spec_step (OpMarkRegister id) m
        (<[id := TitleRec (inc_u8 (tr_register r)) (tr_mount r) (tr_duplicate r)]> m0)
  | spec_bump id m m0 r : acquire id m r m0 ->
      title_spec_step (OpBumpMount id) m
        (<[id := TitleRec (tr_register r) (inc_u8 (tr_mount r)) (tr_duplicate r)]> m0)
  | spec_notify id m m0 r : acquire id m r m0 ->
      title_spec_step (OpNotifyDuplicate id) m
        (<[id := TitleRec (tr_register r) (tr_mount r) true]> m0)
  | spec_clear_register id m :
      title_spec_step (OpClearRegister id) m
        (alter (fun r => TitleRec 0 (tr_mount r) (tr_duplicate r)) id m)
  | spec_clear_duplicate id m :
      title_spec_step (OpClearDuplicate id) m
        (alter (fun r => TitleRec (tr_register r) (tr_mount r) false) id m)
  | spec_clear_mount id m :
      title_spec_step (OpClearMount id) m
        (alter (fun r => TitleRec (tr_register r) 0 (tr_duplicate r)) id m)
  | spec_reset id m :
      title_spec_step (OpReset id) m
        (alter (fun r => TitleRec 0 0 (tr_duplicate r)) id m)
  | spec_reset_all m :
      title_spec_step OpResetAll m
        ((fun r => TitleRec 0 0 (tr_duplicate r)) <$> m).

Definition op_title (op : title_op) : option string :=
  match op with
  | OpMarkRegister id | OpClearRegister id | OpNotifyDuplicate id | OpClearDuplicate id
  | OpClearMount id | OpBumpMount id | OpReset id => Some id
  | OpResetAll => None
  end.

(** A title identifier that is neither empty nor too long for its buffer. *)
Definition title_fits (id : string) : Prop :=
  id <> ""%string /\ (strlen id < MAX_TITLE_ID)%nat.

Definition counters_ok (e : TitleStateEntry) : Prop :=
  0 <= register_attempts e <= UINT8_MAX /\ 0 <= mount_reg_attempts e <= UINT8_MAX /\
  (ts_valid e = true -> ts_title_id e <> ""%string).

Record title_inv (t : title_state) : Prop := {
  tinv_wf : table_wf t;
  tinv_counters : forall i e, entries t !! i = Some e -> counters_ok e;
}.

(** ** Creation *)
Lemma evict_title_in_range : evict_in_range evict_title.
Proof.
  intros es Hl. unfold evict_title.
  destruct (find_index _ es) as [k|] eqn:E1; [apply find_index_lt in E1; lia|].
  destruct (find_index (fun e => _ && (mount_reg_attempts e =? 0)) es) as [k|] eqn:E2;
    [apply find_index_lt in E2; lia|]. unfold MAX_PENDING. lia.
Qed.

Lemma key_stable_register f : key_stable (set_register f).
Proof. done. Qed.
Lemma key_stable_mount f : key_stable (set_mount f).
Proof. done. Qed.
Lemma key_stable_duplicate b : key_stable (set_duplicate b).
Proof. done. Qed.
Lemma key_stable_reset :
  key_stable (fun e => set_mount (fun _ => 0) (set_register (fun _ => 0) e)).
Proof. done. Qed.

Lemma get_or_create_title_ok (t : title_state) id : table_ok t ->
  exists i t' e, get_or_create_title_state t id = (Some i, t') /\ table_ok t' /\
    entries t' !! i = Some e.
Proof. intros Hok. exact (get_or_create_ok evict_title t id Hok evict_title_in_range). Qed.

#[export] Hint Resolve key_stable_register key_stable_mount key_stable_duplicate
  key_stable_reset : sm.

Lemma update_if_found_ok (t : title_state) id f : key_stable f -> table_ok t ->
  table_ok (match find_title_state t id with Some i => update_entry f i t | None => t end).
Proof. intros. destruct (find_title_state t id); auto with sm. Qed.

Lemma reset_all_ok (t : title_state) : table_ok t -> table_ok (reset_all_title_attempts t).1.
Proof.
  intros [Hl Hs]. split; simpl; [by rewrite length_fmap|].
  eapply slots_ok_mono; [exact Hs|]. intros i (e & He & Hv).
  rewrite list_lookup_fmap, He. eexists. split; [done|]. by destruct (title_attempts_pending e).
Qed.

Lemma run_title_op_ok op (t : title_state) : table_ok t ->
  exists t', run_title_op op t = Some t' /\ table_ok t'.
Proof.
  intros Hok. destruct op as [id|id|id|id|id|id|id|]; simpl;
    try (eexists; split; [done|]; apply update_if_found_ok; auto with sm);
    try (destruct (get_or_create_title_ok t id Hok) as (i & t' & e & Hg & Hok' & He)).
  - unfold mark_register_attempted. rewrite Hg. eexists. split; [done|]. auto with sm.
  - unfold notify_duplicate_title_once. rewrite Hg, He.
    destruct (duplicate_notified_once e); eexists; (split; [done|]); simpl; auto with sm.
  - unfold bump_failed_mount_attempts. rewrite Hg. simpl.
    rewrite list_lookup_alter_eq, He. eexists. split; [done|]. simpl. auto with sm.
  - eexists. split; [done|]. unfold reset_title_attempts.
    destruct (strcmp_eq id ""); [done|]. destruct (find_title_state t id) as [n|]; [|done].
    destruct (entries t !! n); [|done]. simpl. auto with sm.
  - eexists. split; [done|]. by apply reset_all_ok.
Qed.

(** No sequence of calls to the title-state API, with any title
    identifiers (empty, over-long, colliding, more than [MAX_PENDING] of them),
    dereferences a NULL entry: [create_title_state] always finds a free slot,
    and every used slot keeps pointing at a live entry of the array. *)
Theorem title_api_never_null (ops : list title_op) :
  exists t, run_title_ops ops empty_table = Some t /\ table_ok t.
Proof.
  assert (Hgen : forall t, table_ok t ->
    exists t', run_title_ops ops t = Some t' /\ table_ok t').
  { induction ops as [|op ops IH]; intros t Hok; simpl; [eauto|].
    destruct (run_title_op_ok op t Hok) as (t' & -> & Hok'). simpl. by apply IH. }
  apply Hgen, empty_table_wf.
Qed.

(** ** Simulation lemmas *)
Lemma title_abs_lookup (t : title_state) k r : table_wf t ->
  title_abs t !! k = Some r <->
  exists i e, entries t !! i = Some e /\ keyed e /\ e_key e = k /\ r = rec_of e.
Proof.
  intros [_ Hix]. unfold title_abs, table_map. rewrite lookup_fmap, fmap_Some. split.
  - intros (e & He & ->). apply entries_map_lookup in He as (i & ? & ? & ?);
      [|exact (ti_unique _ Hix)]. eauto 10.
  - intros (i & e & He & Hk & <- & ->). exists e. split; [|done].
    apply entries_map_lookup; [exact (ti_unique _ Hix)|]. eauto.
Qed.

Lemma valid_keyed (t : title_state) i e : title_inv t -> entries t !! i = Some e ->
  ts_valid e = true -> keyed e.
Proof. intros Hinv He Hv. split; [done|]. apply (tinv_counters _ Hinv i e He); done. Qed.

Lemma evict_title_choice (t : title_state) e :
  title_inv t -> (forall i e, entries t !! i = Some e -> ts_valid e = true) ->
  entries t !! evict_title (entries t) = Some e ->
  victim_choice (title_abs t) (rec_of e).
Proof.
  intros Hinv Hfull He. unfold evict_title in He. unfold victim_choice.
  destruct (find_index _ (entries t)) as [k|] eqn:E1 in He.
  { left. apply find_index_hit in E1 as (x & Hx & Hp). simplify_eq. bool_hyps.
    unfold idle. simpl. lia. }
  right. rewrite find_index_None in E1.
  assert (Hno : forall k r, title_abs t !! k = Some r -> ~ idle r).
  { intros k r (i & e' & He' & _ & _ & ->)%title_abs_lookup [H1 H2]; [|apply Hinv].
    specialize (E1 i e' He'). rewrite (Hfull i e' He') in E1. simpl in *. lia. }
  split; [done|].
  destruct (find_index _ (entries t)) as [k|] eqn:E2 in He.
  - left. apply find_index_hit in E2 as (x & Hx & Hp). simplify_eq. bool_hyps. simpl. lia.
  - right. rewrite find_index_None in E2. intros k r (i & e' & He' & _ & _ & ->)%title_abs_lookup;
      [|apply Hinv]. specialize (E2 i e' He'). rewrite (Hfull i e' He') in E2. simpl in *. lia.
Qed.

Lemma make_room_sim (t : title_state) : title_inv t ->
  make_room (title_abs t) (rec_of <$> evicted_map evict_title t).
Proof.
  intros Hinv. pose proof (tinv_wf _ Hinv) as [Hok Hix]. unfold evicted_map.
  assert (Hsize : size (title_abs t) =
    count_if (fun e => e_valid e && negb (strcmp_eq (e_key e) "")) (entries t)).
  { unfold title_abs. rewrite map_size_fmap. exact (entries_map_size _ (ti_unique _ Hix)). }
  unfold make_room. destruct (find_index _ (entries t)) as [i|] eqn:Hf.
  - left. split; [|done]. apply find_index_hit in Hf as (x & Hx & Hv).
    rewrite Hsize, <-(to_len _ Hok). eapply count_if_lt; [exact Hx|].
    apply negb_true_iff in Hv. by rewrite Hv.
  - rewrite find_index_None in Hf.
    assert (Hfull : forall i e, entries t !! i = Some e -> ts_valid e = true).
    { intros i e He. by apply Hf, negb_false_iff in He. }
    right. split.
    { rewrite Hsize, <-(to_len _ Hok). apply count_if_all. intros i e He.
      apply keyed_dec. eapply valid_keyed; eauto. }
    destruct (lookup_lt_is_Some_2 (entries t) (evict_title (entries t))) as [e He].
    { rewrite (to_len _ Hok). by apply evict_title_in_range, Hok. }
    rewrite He. exists (e_key e), (rec_of e). split_and!.
    + apply title_abs_lookup; [apply Hinv|]. eexists _, e.
      split_and!; [exact He|eapply valid_keyed; eauto|done..].
    + by apply evict_title_choice.
    + unfold title_abs. by rewrite fmap_delete.
Qed.

(** [get_or_create_title_state] implements [acquire]; a field update of the
    entry it returns is an insertion into the acquired map. *)
Lemma acquire_sim (t : title_state) id : title_inv t -> title_fits id ->
  exists i t' e m0, get_or_create_title_state t id = (Some i, t') /\ title_inv t' /\
    entries t' !! i = Some e /\ keyed e /\ e_key e = id /\
    acquire id (title_abs t) (rec_of e) m0 /\
    forall f, key_stable f ->
      title_abs (update_entry f i t') = <[id := rec_of (f e)]> m0.
Proof.
  intros Hinv [Hne Hlen]. pose proof (tinv_wf _ Hinv) as Hwf.
  unfold get_or_create_title_state, find_title_state.
  destruct (find_state t id) as [i|] eqn:Hf.
  - destruct (find_state_sound _ _ _ Hf) as (e & He & Hl & Hk).
    assert (Hke : keyed e) by by eapply valid_keyed.
    exists i, t, e, (title_abs t). split_and!; [done..| |].
    + left. split; [|done]. apply title_abs_lookup; [done|]. eauto 10.
    + intros f Hst. unfold title_abs. rewrite (update_entry_map f i t e) by done.
      by rewrite fmap_insert, Hk.
  - destruct (create_state_map evict_title t id Hwf evict_title_in_range Hlen Hne Hf)
      as (i & t' & Hc & Hwf' & He & Hm).
    assert (Hkey : e_key (e_fresh id : TitleStateEntry) = id)
      by by rewrite e_fresh_key, strlcpy_fits.
    assert (Hke : keyed (e_fresh id : TitleStateEntry)).
    { split; [done|]. by rewrite Hkey. }
    exists i, t', (e_fresh id), (rec_of <$> evicted_map evict_title t).
    unfold create_title_state. split_and!; [done| |done..| |].
    + split; [done|]. intros j e' He'.
      destruct (create_state_entries _ _ _ _ _ _ _ Hc He') as [->|[->|Hold]].
      * split_and!; [done..|]. intros _. by rewrite <-Hkey in Hne.
      * split_and!; done.
      * by eapply tinv_counters.
    + right. split_and!; [|done|by apply make_room_sim].
      unfold title_abs. rewrite lookup_fmap, <-(find_state_map t id Hwf Hne), Hf. done.
    + intros f Hst. unfold title_abs. rewrite (update_entry_map f i t' (e_fresh id)) by done.
      by rewrite Hkey, Hm, insert_insert_eq, fmap_insert.
Qed.

Lemma update_title_inv f i (t : title_state) : key_stable f ->
  (forall e, counters_ok e -> counters_ok (f e)) ->
  title_inv t -> title_inv (update_entry f i t).
Proof.
  intros Hst Hf [Hwf Hc]. split; [by apply update_entry_wf|].
  intros j e' (e & He & ->)%lookup_update. case_decide; eauto.
Qed.

Lemma counters_ok_register g e :
  (forall x, 0 <= x <= UINT8_MAX -> 0 <= g x <= UINT8_MAX) ->
  counters_ok e -> counters_ok (set_register g e).
Proof. intros Hg (? & ? & ?). split; [by apply Hg|done]. Qed.
Lemma counters_ok_mount g e :
  (forall x, 0 <= x <= UINT8_MAX -> 0 <= g x <= UINT8_MAX) ->
  counters_ok e -> counters_ok (set_mount g e).
Proof. intros Hg (? & ? & ?). split; [done|split; [by apply Hg|done]]. Qed.
Lemma counters_ok_duplicate b e : counters_ok e -> counters_ok (set_duplicate b e).
Proof. done. Qed.
Lemma counters_ok_clear_register e : counters_ok e -> counters_ok (set_register (fun _ => 0) e).
Proof. apply counters_ok_register. unfold UINT8_MAX. lia. Qed.
Lemma counters_ok_clear_mount e : counters_ok e -> counters_ok (set_mount (fun _ => 0) e).
Proof. apply counters_ok_mount. unfold UINT8_MAX. lia. Qed.
Lemma counters_ok_bump_register e : counters_ok e -> counters_ok (set_register bump_u8 e).
Proof. apply counters_ok_register, bump_u8_range. Qed.
Lemma counters_ok_bump_mount e : counters_ok e -> counters_ok (set_mount bump_u8 e).
Proof. apply counters_ok_mount, bump_u8_range. Qed.

#[export] Hint Resolve update_title_inv counters_ok_clear_register counters_ok_clear_mount
  counters_ok_bump_register counters_ok_bump_mount counters_ok_duplicate : sm.

Lemma update_if_found_sim (t : title_state) id f g :
  title_inv t -> id <> ""%string -> key_stable f ->
  (forall e, counters_ok e -> counters_ok (f e)) ->
  (forall e, rec_of (f e) = g (rec_of e)) ->
  let t' := match find_title_state t id with Some i => update_entry f i t | None => t end in
  title_inv t' /\ title_abs t' = alter g id (title_abs t).
Proof.
  intros Hinv Hne Hst Hc Hg t'. unfold find_title_state in t'.
  pose proof (tinv_wf _ Hinv) as Hwf.
  pose proof (find_state_map t id Hwf Hne) as Hm.
  destruct (find_state t id) as [i|] eqn:Hf; subst t'.
  - split; [by apply update_title_inv|].
    destruct (find_state_sound _ _ _ Hf) as (e & He & Hl & Hk). simpl in Hm. rewrite He in Hm.
    unfold title_abs. rewrite (update_entry_map f i t e); [|done..|by eapply valid_keyed].
    rewrite fmap_insert, Hk, Hg. apply map_eq. intros k.
    destruct (decide (id = k)) as [<-|Hne'].
    + by rewrite lookup_insert_eq, lookup_alter_eq, lookup_fmap, <-Hm.
    + by rewrite lookup_insert_ne, lookup_alter_ne.
  - split; [done|]. symmetry. apply map_eq. intros k. destruct (decide (id = k)) as [<-|Hne'].
    + rewrite lookup_alter_eq. unfold title_abs. by rewrite lookup_fmap, <-Hm.
    + by rewrite lookup_alter_ne.
Qed.

Lemma reset_all_sim (t : title_state) : title_inv t ->
  title_inv (reset_all_title_attempts t).1 /\
  title_abs (reset_all_title_attempts t).1 =
    (fun r => TitleRec 0 0 (tr_duplicate r)) <$> title_abs t.
Proof.
  intros [Hwf Hc]. unfold reset_all_title_attempts. cbn [fst].
  set (f := fun e => if title_attempts_pending e then _ else e).
  assert (Hst : key_stable f) by (intros e; unfold f; by destruct (title_attempts_pending e)).
  split.
  - split; [by apply fmap_table_wf|]. cbn [entries]. intros i e'.
    rewrite list_lookup_fmap. intros (e & He & ->)%fmap_Some. unfold f.
    destruct (title_attempts_pending e); eauto with sm.
  - unfold title_abs, table_map. cbn [entries]. rewrite entries_map_fmap by done.
    rewrite <-!map_fmap_compose. apply map_fmap_ext. intros k e He.
    apply entries_map_lookup in He as (i & He & [Hv _] & _); [|exact (ti_unique _ (proj2 Hwf))].
    simpl in Hv. unfold compose, f, title_attempts_pending. rewrite Hv. simpl.
    destruct (Z.eqb_spec (register_attempts e) 0) as [Hr|]; [|done].
    destruct (Z.eqb_spec (mount_reg_attempts e) 0) as [Hm|]; [|done].
    unfold rec_of. simpl. by rewrite Hr, Hm.
Qed.

Lemma run_title_op_sim op (t : title_state) :
  title_inv t -> (forall id, op_title op = Some id -> title_fits id) ->
  exists t', run_title_op op t = Some t' /\ title_inv t' /\
    title_spec_step op (title_abs t) (title_abs t').
Proof.
  intros Hinv Hfit. destruct op as [id|id|id|id|id|id|id|]; simpl in *;
    try (destruct (Hfit id eq_refl) as [Hne Hlen]).
  1: destruct (acquire_sim t id Hinv (conj Hne Hlen))
      as (i & t' & e & m0 & Hg & Hi' & He & Hk & Hid & Hacq & Hup).
  3: destruct (acquire_sim t id Hinv (conj Hne Hlen))
      as (i & t' & e & m0 & Hg & Hi' & He & Hk & Hid & Hacq & Hup).
  6: destruct (acquire_sim t id Hinv (conj Hne Hlen))
      as (i & t' & e & m0 & Hg & Hi' & He & Hk & Hid & Hacq & Hup).
  - unfold mark_register_attempted. rewrite Hg. eexists. split_and!; [done|eauto with sm|].
    rewrite Hup by done. unfold set_register, rec_of at 1. simpl.
    rewrite bump_u8_inc by apply (tinv_counters _ Hi' i e He).
    apply (spec_mark id _ m0 (rec_of e) Hacq).
  - destruct (update_if_found_sim t id (set_register (fun _ => 0))
      (fun r => TitleRec 0 (tr_mount r) (tr_duplicate r))) as [Hi Habs]; eauto with sm.
    eexists. split_and!; [done|exact Hi|]. eapply eq_ind_r; [constructor|exact Habs].
  - unfold notify_duplicate_title_once. rewrite Hg, He.
    destruct (duplicate_notified_once e) eqn:Hd; eexists; (split_and!; [done|simpl; eauto with sm|]);
      simpl.
    + rewrite <-(update_entry_id i t'), Hup by done.
      replace (rec_of e) with (TitleRec (tr_register (rec_of e)) (tr_mount (rec_of e)) true)
        by (unfold rec_of; simpl; by rewrite Hd).
      by constructor.
    + rewrite Hup by done. apply (spec_notify id _ m0 (rec_of e) Hacq).
  - destruct (update_if_found_sim t id (set_duplicate false)
      (fun r => TitleRec (tr_register r) (tr_mount r) false)) as [Hi Habs]; eauto with sm.
    eexists. split_and!; [done|exact Hi|]. eapply eq_ind_r; [constructor|exact Habs].
  - destruct (update_if_found_sim t id (set_mount (fun _ => 0))
      (fun r => TitleRec (tr_register r) 0 (tr_duplicate r))) as [Hi Habs]; eauto with sm.
    eexists. split_and!; [done|exact Hi|]. eapply eq_ind_r; [constructor|exact Habs].
  - unfold bump_failed_mount_attempts. rewrite Hg. simpl. rewrite list_lookup_alter_eq, He.
    eexists. split_and!; [done|simpl; eauto with sm|]. simpl. rewrite Hup by done.
    unfold set_mount, rec_of at 1. simpl.
    rewrite bump_u8_inc by apply (tinv_counters _ Hi' i e He).
    apply (spec_bump id _ m0 (rec_of e) Hacq).
  - destruct (update_if_found_sim t id
      (fun e => set_mount (fun _ => 0) (set_register (fun _ => 0) e))
      (fun r => TitleRec 0 0 (tr_duplicate r))) as [Hi Habs]; eauto 8 with sm.
    assert (Heq : (reset_title_attempts t id).1.1 =
      match find_title_state t id with
      | Some i => update_entry (fun e => set_mount (fun _ => 0) (set_register (fun _ => 0) e)) i t
      | None => t
      end).
    { unfold reset_title_attempts. rewrite (proj2 (strcmp_eq_false id "")) by done.
      destruct (find_title_state t id) as [n|] eqn:Hf; [|done].
      by destruct (find_state_sound _ _ _ Hf) as (e & -> & _). }
    eexists. rewrite Heq. split_and!; [done|exact Hi|]. rewrite Habs. constructor.
  - destruct (reset_all_sim t Hinv) as [Hi Habs]. eexists. split_and!; [done|exact Hi|].
    eapply eq_ind_r; [constructor|exact Habs].
Qed.

(** Claim C2: with title identifiers that fit their buffer, the hashed table
    implements a finite map of at most [MAX_PENDING] titles.  Every API call
    returns, keeps the invariant and takes exactly the specification's step on
    the map: counters saturate at 255, and only a call that needs a new record
    in a full map forgets another title: an idle one whenever one exists. *)
Theorem title_state_refines_map op (t : title_state) :
  title_inv t -> (forall id, op_title op = Some id -> title_fits id) ->
  exists t', run_title_op op t = Some t' /\ title_inv t' /\
    title_spec_step op (title_abs t) (title_abs t').
Proof. apply run_title_op_sim. Qed.

Lemma empty_title_inv : title_inv empty_table.
Proof.
  split; [apply empty_table_wf|]. intros i e [-> _]%lookup_replicate. split_and!; done.
Qed.

Lemma title_state_refines_map_witness :
  exists t', run_title_op (OpBumpMount "PPSA01234") empty_table = Some t' /\
    title_inv t' /\
    title_spec_step (OpBumpMount "PPSA01234") (title_abs empty_table) (title_abs t').
Proof.
  apply (title_state_refines_map (OpBumpMount "PPSA01234") empty_table).
  - exact empty_title_inv.
  - intros id [= <-]. split; [done|]. vm_compute. lia.
Defined.

(** ** Counters *)
Lemma title_entry_of_map (t : title_state) id : title_inv t -> id <> ""%string ->
  title_entry_of t id = table_map t !! id.
Proof. intros Hinv Hne. apply find_state_map; [apply Hinv|done]. Qed.

Lemma bump_mount_counts (t : title_state) id :
  title_inv t -> title_fits id ->
  exists t' n, bump_failed_mount_attempts t id = Some (t', n) /\
    n = Z.min 255 (get_failed_mount_attempts t id + 1) /\
    get_failed_mount_attempts t' id = n /\
    get_register_attempts t' id = get_register_attempts t id /\ title_inv t'.
Proof.
  intros Hinv Hfit. pose proof (proj1 Hfit) as Hne.
  destruct (acquire_sim t id Hinv Hfit)
    as (i & t' & e & m0 & Hg & Hi' & He & Hk & Hid & Hacq & Hup).
  pose proof (tinv_counters _ Hi' i e He) as (_ & Hmr & _).
  assert (Hold : get_failed_mount_attempts t id = mount_reg_attempts e /\
                 get_register_attempts t id = register_attempts e).
  { unfold get_failed_mount_attempts, get_register_attempts.
    rewrite !title_entry_of_map by done.
    unfold title_abs in Hacq. destruct Hacq as [[Hm _]|(Hm & Hr & _)].
    - rewrite lookup_fmap in Hm. apply fmap_Some in Hm as (e' & -> & [= -> ->]). done.
    - rewrite lookup_fmap in Hm. apply fmap_None in Hm as ->.
      injection Hr as -> ->. done. }
  destruct Hold as [-> ->].
  unfold bump_failed_mount_attempts. rewrite Hg. simpl. rewrite list_lookup_alter_eq, He. simpl.
  assert (Hi2 : title_inv (update_entry (set_mount bump_u8) i t')) by eauto with sm.
  assert (Hnew : title_entry_of (update_entry (set_mount bump_u8) i t') id =
                 Some (set_mount bump_u8 e)).
  { rewrite title_entry_of_map by done.
    rewrite (update_entry_map _ i t' e); [|done|apply Hi'|done..].
    rewrite Hid. apply lookup_insert_eq. }
  eexists _, _. split_and!; [done|by rewrite bump_u8_inc|..|done];
    unfold get_failed_mount_attempts, get_register_attempts; by rewrite Hnew.
Qed.

(** A failed mount of a title is counted: the counter returned is the
    previous one plus one, saturating at 255, it is what a later
    [get_failed_mount_attempts] reports, and the title's registration counter
    is not touched. *)
Theorem bump_failed_mount_attempts_spec (t : title_state) id :
  title_inv t -> title_fits id ->
  exists t' n, bump_failed_mount_attempts t id = Some (t', n) /\
    n = Z.min 255 (get_failed_mount_attempts t id + 1) /\
    get_failed_mount_attempts t' id = n /\
    get_register_attempts t' id = get_register_attempts t id /\ title_inv t'.
Proof. apply bump_mount_counts. Qed.

Lemma bump_failed_mount_attempts_witness :
  exists t' n, bump_failed_mount_attempts empty_table "CUSA00001" = Some (t', n) /\
    n = Z.min 255 (get_failed_mount_attempts empty_table "CUSA00001" + 1) /\
    get_failed_mount_attempts t' "CUSA00001" = n /\
    get_register_attempts t' "CUSA00001" = get_register_attempts empty_table "CUSA00001" /\
    title_inv t'.
Proof.
  apply (bump_failed_mount_attempts_spec empty_table "CUSA00001").
  - exact empty_title_inv.
  - split; [done|]. vm_compute. lia.
Defined.

(** ** What the install queue relies on *)
Lemma clear_mount_counts (t : title_state) id : title_inv t -> id <> ""%string ->
  title_inv (clear_failed_mount_attempts t id) /\
  forall id', id' <> ""%string ->
    get_failed_mount_attempts (clear_failed_mount_attempts t id) id' =
    if decide (id' = id) then 0 else get_failed_mount_attempts t id'.
Proof.
  intros Hinv Hne.
  destruct (update_if_found_sim t id (set_mount (fun _ => 0))
    (fun r => TitleRec (tr_register r) 0 (tr_duplicate r)) Hinv Hne) as [Hi Ha];
    [eauto with sm|intros; by apply counters_ok_clear_mount|done|].
  split; [exact Hi|]. intros id' Hne'. unfold get_failed_mount_attempts.
  rewrite !title_entry_of_map by done.
  fold (clear_failed_mount_attempts t id) in Ha.
  apply (f_equal (fun m => m !! id')) in Ha. unfold title_abs in Ha.
  rewrite lookup_fmap in Ha. case_decide as Hid.
  - subst id'. rewrite lookup_alter_eq, lookup_fmap in Ha.
    destruct (table_map (clear_failed_mount_attempts t id) !! id) as [e|], (table_map t !! id);
      unfold rec_of in Ha; simpl in *; congruence.
  - rewrite lookup_alter_ne, lookup_fmap in Ha by done.
    destruct (table_map (clear_failed_mount_attempts t id) !! id') as [e|],
      (table_map t !! id') as [e'|]; unfold rec_of in Ha; simpl in *; congruence.
Qed.

Lemma clear_register_counts (t : title_state) id : title_inv t -> id <> ""%string ->
  title_inv (clear_register_attempts t id) /\
  forall id', id' <> ""%string ->
    get_failed_mount_attempts (clear_register_attempts t id) id' =
    get_failed_mount_attempts t id'.
Proof.
  intros Hinv Hne.
  destruct (update_if_found_sim t id (set_register (fun _ => 0))
    (fun r => TitleRec 0 (tr_mount r) (tr_duplicate r)) Hinv Hne) as [Hi Ha];
    [eauto with sm|intros; by apply counters_ok_clear_register|done|].
  split; [exact Hi|]. intros id' Hne'. unfold get_failed_mount_attempts.
  rewrite !title_entry_of_map by done.
  fold (clear_register_attempts t id) in Ha.
  apply (f_equal (fun m => m !! id')) in Ha. unfold title_abs in Ha.
  rewrite lookup_fmap in Ha. destruct (decide (id' = id)) as [->|Hid].
  - rewrite lookup_alter_eq, lookup_fmap in Ha.
    destruct (table_map (clear_register_attempts t id) !! id) as [e|], (table_map t !! id);
      unfold rec_of in Ha; simpl in *; congruence.
  - rewrite lookup_alter_ne, lookup_fmap in Ha by done.
    destruct (table_map (clear_register_attempts t id) !! id') as [e|],
      (table_map t !! id') as [e'|]; unfold rec_of in Ha; simpl in *; congruence.
Qed.
