(* ===== verification/PathState.v ===== *)
(** * Per-path retry and metadata state (src/sm_path_state.c)

    The same hashed table as TitleState.v, keyed by path: scan back-off
    counters, one-shot log flags and the cache of parsed game metadata.  The
    file system is a parameter: [path_exists] is the answer of [stat] for a
    path at the time of the call.  [log_debug] output is not modelled; the
    one user notification of the file is returned as a boolean. *)
From S2P Require Import Prelude CString StateTable.
Open Scope c_scope.

Definition MAX_MISSING_PARAM_SCAN_ATTEMPTS : Z := 3.
Definition MAX_IMAGE_MOUNT_ATTEMPTS : Z := 3.

(** The fields of [struct stat] that identify one version of a param file. *)
Record param_stat := ParamStat {
  st_mtime : Z; st_mtime_nsec : Z; st_size : Z; st_ino : Z
}.

#[export] Instance param_stat_eq_dec : EqDecision param_stat.
Proof. solve_decision. Defined.

(** The [game_info_*], [game_title_*] fields of an entry. *)
Record game_info := GameInfo {
  game_info_cached : bool;
  game_info_valid : bool;
  game_info_stat : param_stat;
  game_title_id : string;
  game_title_name : string;
}.

Record PathStateEntry := mkPathState {
  ps_path : string;
  missing_param_attempts : Z;
  image_mount_attempts : Z;
  missing_param_limit_logged : bool;
  image_mount_limit_logged : bool;
  backport_mount_blocked : bool;
  backport_permissions_incomplete_logged : bool;
  manual_missing_source_logged : bool;
  module_case_checked : bool;
  module_case_fingerprint : Z;
  ps_game_info : game_info;
  ps_valid : bool;
}.

Definition zero_stat : param_stat := ParamStat 0 0 0 0.
Definition zero_game_info : game_info := GameInfo false false zero_stat "" "".
Definition zero_path_state : PathStateEntry :=
  mkPathState "" 0 0 false false false false false false 0 zero_game_info false.
Definition fresh_path_state (path : string) : PathStateEntry :=
  mkPathState (strlcpy path MAX_PATH) 0 0 false false false false false false 0
    zero_game_info true.

#[export, refine] Instance path_entry : StateEntry PathStateEntry := {
  e_key := ps_path;
  e_valid := ps_valid;
  e_zero := zero_path_state;
  e_fresh := fresh_path_state;
  e_key_size := MAX_PATH;
}.
Proof. all: done. Defined.

Abbreviation path_state := (table PathStateEntry).

(** ** Field updates *)
Definition set_missing (f : Z -> Z) (logged : bool -> Z -> bool) (e : PathStateEntry) :=
  mkPathState (ps_path e) (f (missing_param_attempts e)) (image_mount_attempts e)
    (logged (missing_param_limit_logged e) (f (missing_param_attempts e)))
    (image_mount_limit_logged e) (backport_mount_blocked e)
    (backport_permissions_incomplete_logged e) (manual_missing_source_logged e)
    (module_case_checked e) (module_case_fingerprint e) (ps_game_info e) (ps_valid e).
Definition set_image (f : Z -> Z) (logged : bool -> Z -> bool) (e : PathStateEntry) :=
  mkPathState (ps_path e) (missing_param_attempts e) (f (image_mount_attempts e))
    (missing_param_limit_logged e)
    (logged (image_mount_limit_logged e) (f (image_mount_attempts e)))
    (backport_mount_blocked e)
    (backport_permissions_incomplete_logged e) (manual_missing_source_logged e)
    (module_case_checked e) (module_case_fingerprint e) (ps_game_info e) (ps_valid e).
Definition set_backport_blocked (b : bool) (e : PathStateEntry) :=
  mkPathState (ps_path e) (missing_param_attempts e) (image_mount_attempts e)
    (missing_param_limit_logged e) (image_mount_limit_logged e) b
    (backport_permissions_incomplete_logged e) (manual_missing_source_logged e)
    (module_case_checked e) (module_case_fingerprint e) (ps_game_info e) (ps_valid e).
Definition set_permissions_logged (b : bool) (e : PathStateEntry) :=
  mkPathState (ps_path e) (missing_param_attempts e) (image_mount_attempts e)
    (missing_param_limit_logged e) (image_mount_limit_logged e) (backport_mount_blocked e)
    b (manual_missing_source_logged e)
    (module_case_checked e) (module_case_fingerprint e) (ps_game_info e) (ps_valid e).
Definition set_manual_logged (b : bool) (e : PathStateEntry) :=
  mkPathState (ps_path e) (missing_param_attempts e) (image_mount_attempts e)
    (missing_param_limit_logged e) (image_mount_limit_logged e) (backport_mount_blocked e)
    (backport_permissions_incomplete_logged e) b
    (module_case_checked e) (module_case_fingerprint e) (ps_game_info e) (ps_valid e).
Definition set_module_case (fp : Z) (e : PathStateEntry) :=
  mkPathState (ps_path e) (missing_param_attempts e) (image_mount_attempts e)
    (missing_param_limit_logged e) (image_mount_limit_logged e) (backport_mount_blocked e)
    (backport_permissions_incomplete_logged e) (manual_missing_source_logged e)
    true fp (ps_game_info e) (ps_valid e).
Definition set_game_info (g : game_info) (e : PathStateEntry) :=
  mkPathState (ps_path e) (missing_param_attempts e) (image_mount_attempts e)
    (missing_param_limit_logged e) (image_mount_limit_logged e) (backport_mount_blocked e)
    (backport_permissions_incomplete_logged e) (manual_missing_source_logged e)
    (module_case_checked e) (module_case_fingerprint e) g (ps_valid e).

(** Whether the entry carries nothing worth keeping (second eviction pass). *)
Definition path_entry_idle (e : PathStateEntry) : bool :=
  (missing_param_attempts e =? 0) && (image_mount_attempts e =? 0) &&
  negb (backport_mount_blocked e) && negb (backport_permissions_incomplete_logged e) &&
  negb (manual_missing_source_logged e) && negb (module_case_checked e) &&
  negb (game_info_cached (ps_game_info e)).

Section ops.
  (** [path_exists] of sm_path_utils.c. *)
  Context (path_exists : string -> bool).

(** ** Lookup and creation *)
Definition rebuild_path_state_hash (es : list PathStateEntry) : list Z := rebuild_hash es.

Definition find_path_state (t : path_state) (path : string) : option nat := find_state t path.

Definition evict_path (es : list PathStateEntry) : nat :=
  match find_index (fun e => ps_valid e && negb (path_exists (ps_path e)) &&
                             negb (manual_missing_source_logged e)) es with
  | Some k => k
  | None =>
      match find_index (fun e => ps_valid e && path_entry_idle e) es with
      | Some k => k
      | None => 0%nat
      end
  end.

Definition create_path_state (t : path_state) (path : string) : option nat * path_state :=
  create_state evict_path t path.

Definition get_or_create_path_state (t : path_state) (path : string) :
    option nat * path_state :=
  match find_path_state t path with
  | Some i => (Some i, t)
  | None => create_path_state t path
  end.

Definition path_entry_of (t : path_state) (path : string) : option PathStateEntry :=
  i ← find_path_state t path; entries t !! i.

(** ** Public operations *)
Definition module_case_fingerprint_matches (t : path_state) (path : string) (fp : Z) : bool :=
  match path_entry_of t path with
  | Some e => module_case_checked e && (module_case_fingerprint e =? fp)
  | None => false
  end.

Definition store_module_case_fingerprint (t : path_state) (path : string) (fp : Z) : path_state :=
  let '(entry, t') := get_or_create_path_state t path in
  match entry with
  | None => t'
  | Some i => update_entry (set_module_case fp) i t'
  end.

(** [None]: not cached; [Some None]: cached as invalid; [Some (Some (id,
    name))]: cached as valid, with the text copied to the caller. *)
Definition load_cached_game_info (t : path_state) (path : string) (st : param_stat) :
    option (option (string * string)) :=
  match path_entry_of t path with
  | None => None
  | Some e =>
      let g := ps_game_info e in
      if negb (game_info_cached g) || negb (bool_decide (game_info_stat g = st)) then None
      else if negb (game_info_valid g) then Some None
      else Some (Some (strlcpy (game_title_id g) MAX_TITLE_ID,
                       strlcpy (game_title_name g) MAX_TITLE_NAME))
  end.

Definition store_cached_game_info (t : path_state) (path : string) (st : param_stat)
    (valid : bool) (title_id title_name : string) : option path_state :=
  let '(entry, t') := get_or_create_path_state t path in
  do? i <- entry ;
  Some (update_entry (set_game_info (GameInfo true valid st
          (strlcpy (if valid then title_id else ""%string) MAX_TITLE_ID)
          (strlcpy (if valid then title_name else ""%string) MAX_TITLE_NAME))) i t').

Definition stale_path_entry (e : PathStateEntry) : bool :=
  negb (path_exists (ps_path e)) && negb (manual_missing_source_logged e).

Definition prune_path_state (t : path_state) : path_state := prune_entries stale_path_entry t.

Definition prune_path_state_for_root (t : path_state) (root : string) : path_state :=
  if strcmp_eq root "" then prune_path_state t
  else prune_entries (fun e => path_matches_root_or_child (ps_path e) root &&
                               stale_path_entry e) t.

Definition is_missing_param_scan_limited (t : path_state) (path : string) : bool :=
  if negb (is_under_image_mount_base path) then false
  else
    match path_entry_of t path with
    | None => false
    | Some e => MAX_MISSING_PARAM_SCAN_ATTEMPTS <=? missing_param_attempts e
    end.

(** The boolean says whether the user was notified. *)
Definition record_missing_param_failure (t : path_state) (path : string) :
    option (path_state * bool) :=
  if negb (is_under_image_mount_base path) then Some (t, false)
  else
    let '(entry, t') := get_or_create_path_state t path in
    do? i <- entry ;
    let t'' := update_entry (set_missing bump_u8
                 (fun logged n => logged || (MAX_MISSING_PARAM_SCAN_ATTEMPTS <=? n))) i t' in
    do? e <- entries t'' !! i ;
    Some (t'', missing_param_attempts e =? 1).

Definition clear_missing_param_entry (t : path_state) (path : string) : path_state :=
  match find_path_state t path with
  | None => t
  | Some i => update_entry (set_missing (fun _ => 0) (fun _ _ => false)) i t
  end.

Definition is_image_mount_limited (t : path_state) (path : string) : bool :=
  match path_entry_of t path with
  | Some e => MAX_IMAGE_MOUNT_ATTEMPTS <=? image_mount_attempts e
  | None => false
  end.

Definition bump_image_mount_attempts (t : path_state) (path : string) :
    option (path_state * Z) :=
  let '(entry, t') := get_or_create_path_state t path in
  do? i <- entry ;
  let t'' := update_entry (set_image bump_u8
               (fun logged n => logged || (MAX_IMAGE_MOUNT_ATTEMPTS <=? n))) i t' in
  do? e <- entries t'' !! i ;
  Some (t'', image_mount_attempts e).

Definition clear_image_mount_attempts (t : path_state) (path : string) : path_state :=
  match find_path_state t path with
  | None => t
  | Some i => update_entry (set_image (fun _ => 0) (fun _ _ => false)) i t
  end.

Definition image_attempts_pending (e : PathStateEntry) : bool :=
  ps_valid e && negb (image_mount_attempts e =? 0).

Definition reset_all_image_mount_attempts (t : path_state) : path_state * nat :=
  (Table ((fun e => if image_attempts_pending e
                    then set_image (fun _ => 0) (fun _ _ => false) e else e) <$> entries t)
     (slots t),
   count_if image_attempts_pending (entries t)).

Definition is_backport_mount_blocked (t : path_state) (path : string) : bool :=
  if strcmp_eq path "" then false
  else match path_entry_of t path with Some e => backport_mount_blocked e | None => false end.

Definition note_backport_mount_failure (t : path_state) (path : string) : path_state :=
  if strcmp_eq path "" then t
  else
    let '(entry, t') := get_or_create_path_state t path in
    match entry with
    | None => t'
    | Some i =>
        match entries t' !! i with
        | Some e => if backport_mount_blocked e then t'
                    else update_entry (set_backport_blocked true) i t'
        | None => t'
        end
    end.

Definition clear_backport_mount_failure (t : path_state) (path : string) : path_state :=
  if strcmp_eq path "" then t
  else match find_path_state t path with
       | None => t
       | Some i => update_entry (set_backport_blocked false) i t
       end.

(** The shape shared by the two report-once operations. *)
Definition note_once (get : PathStateEntry -> bool) (put : PathStateEntry -> PathStateEntry)
    (t : path_state) (path : string) : path_state * bool :=
  if strcmp_eq path "" then (t, false)
  else
    let '(entry, t') := get_or_create_path_state t path in
    match entry with
    | None => (t', false)
    | Some i =>
        match entries t' !! i with
        | Some e => if get e then (t', false) else (update_entry put i t', true)
        | None => (t', false)
        end
    end.

Definition note_backport_permissions_incomplete_once :=
  note_once backport_permissions_incomplete_logged (set_permissions_logged true).

Definition clear_backport_permissions_incomplete (t : path_state) (path : string) : path_state :=
  if strcmp_eq path "" then t
  else match find_path_state t path with
       | None => t
       | Some i => update_entry (set_permissions_logged false) i t
       end.

Definition note_manual_missing_source_once :=
  note_once manual_missing_source_logged (set_manual_logged true).

Definition clear_manual_missing_source (t : path_state) (path : string) : path_state :=
  if strcmp_eq path "" then t
  else match find_path_state t path with
       | None => t
       | Some i => update_entry (set_manual_logged false) i t
       end.
End ops.

(** ** The API as a transition function; every call sees its own file system *)
Inductive path_op :=
  | PStoreModuleCase (path : string) (fp : Z)
  | PStoreGameInfo (path : string) (st : param_stat) (valid : bool) (id name : string)
  | PPrune
  | PPruneRoot (root : string)
  | PRecordMissing (path : string)
  | PClearMissing (path : string)
  | PBumpImage (path : string)
  | PClearImage (path : string)
  | PResetAllImages
  | PNoteBackport (path : string)
  | PClearBackport (path : string)
  | PNotePermissions (path : string)
  | PClearPermissions (path : string)
  | PNoteManual (path : string)
  | PClearManual (path : string).

Definition run_path_op (fs : string -> bool) (op : path_op) (t : path_state) :
    option path_state :=
  match op with
  | PStoreModuleCase p fp => Some (store_module_case_fingerprint fs t p fp)
  | PStoreGameInfo p st v id name => store_cached_game_info fs t p st v id name
  | PPrune => Some (prune_path_state fs t)
  | PPruneRoot r => Some (prune_path_state_for_root fs t r)
  | PRecordMissing p => fst <$> record_missing_param_failure fs t p
  | PClearMissing p => Some (clear_missing_param_entry t p)
  | PBumpImage p => fst <$> bump_image_mount_attempts fs t p
  | PClearImage p => Some (clear_image_mount_attempts t p)
  | PResetAllImages => Some (reset_all_image_mount_attempts t).1
  | PNoteBackport p => Some (note_backport_mount_failure fs t p)
  | PClearBackport p => Some (clear_backport_mount_failure t p)
  | PNotePermissions p => Some (note_backport_permissions_incomplete_once fs t p).1
  | PClearPermissions p => Some (clear_backport_permissions_incomplete t p)
  | PNoteManual p => Some (note_manual_missing_source_once fs t p).1
  | PClearManual p => Some (clear_manual_missing_source t p)
  end.

Fixpoint run_path_ops (ops : list ((string -> bool) * path_op)) (t : path_state) :
    option path_state :=
  match ops with
  | [] => Some t
  | (fs, op) :: ops' => t' ← run_path_op fs op t; run_path_ops ops' t'
  end.

Definition path_fits (p : string) : Prop := p <> ""%string /\ (strlen p < MAX_PATH)%nat.

Lemma evict_path_in_range fs : evict_in_range (evict_path fs).
Proof.
  intros es Hl. unfold evict_path.
  destruct (find_index _ es) as [k|] eqn:E1; [apply find_index_lt in E1; lia|].
  destruct (find_index (fun e => _ && path_entry_idle e) es) as [k|] eqn:E2;
    [apply find_index_lt in E2; lia|]. unfold MAX_PENDING. lia.
Qed.

Lemma key_stable_missing f l : key_stable (set_missing f l).
Proof. done. Qed.
Lemma key_stable_image f l : key_stable (set_image f l).
Proof. done. Qed.
Lemma key_stable_backport b : key_stable (set_backport_blocked b).
Proof. done. Qed.
Lemma key_stable_permissions b : key_stable (set_permissions_logged b).
Proof. done. Qed.
Lemma key_stable_manual b : key_stable (set_manual_logged b).
Proof. done. Qed.
Lemma key_stable_module_case fp : key_stable (set_module_case fp).
Proof. done. Qed.
Lemma key_stable_game_info g : key_stable (set_game_info g).
Proof. done. Qed.

#[export] Hint Resolve key_stable_missing key_stable_image key_stable_backport
  key_stable_permissions key_stable_manual key_stable_module_case key_stable_game_info
  evict_path_in_range : sm.

Lemma get_or_create_path_ok fs (t : path_state) p : table_ok t ->
  exists i t' e, get_or_create_path_state fs t p = (Some i, t') /\ table_ok t' /\
    entries t' !! i = Some e.
Proof. intros Hok. exact (get_or_create_ok (evict_path fs) t p Hok (evict_path_in_range fs)). Qed.

Lemma update_if_found_path_ok (t : path_state) p f : key_stable f -> table_ok t ->
  table_ok (match find_path_state t p with Some i => update_entry f i t | None => t end).
Proof. intros. destruct (find_path_state t p); auto with sm. Qed.

Lemma note_once_ok get put fs (t : path_state) p : key_stable put -> table_ok t ->
  table_ok (note_once fs get put t p).1.
Proof.
  intros Hst Hok. unfold note_once. destruct (strcmp_eq p ""); [done|].
  destruct (get_or_create_path_ok fs t p Hok) as (i & t' & e & -> & Hok' & ->).
  destruct (get e); simpl; auto with sm.
Qed.

Lemma fmap_table_ok (f : PathStateEntry -> PathStateEntry) (t : path_state) :
  key_stable f -> table_ok t -> table_ok (Table (f <$> entries t) (slots t)).
Proof.
  intros Hf [Hl Hs]. split; simpl; [by rewrite length_fmap|].
  eapply slots_ok_mono; [exact Hs|]. intros i (e & He & Hv). exists (f e).
  rewrite list_lookup_fmap, He. split; [done|]. unfold live. by rewrite (proj2 (Hf e)).
Qed.

Lemma run_path_op_ok fs op (t : path_state) : table_ok t ->
  exists t', run_path_op fs op t = Some t' /\ table_ok t'.
Proof.
  intros Hok.
  assert (Hg : forall p, exists i t' e, get_or_create_path_state fs t p = (Some i, t') /\
    table_ok t' /\ entries t' !! i = Some e) by (intros p; by apply get_or_create_path_ok).
  destruct op as [p fp|p st v id nm| |r|p|p|p|p| |p|p|p|p|p|p]; simpl;
    try (destruct (Hg p) as (i & t' & e & Hp & Hok' & He)).
  6,8: eexists; (split; [reflexivity|]); apply update_if_found_path_ok; auto with sm.
  - unfold store_module_case_fingerprint. rewrite Hp. eauto with sm.
  - unfold store_cached_game_info. rewrite Hp. eexists. split; [done|]. auto with sm.
  - eauto with sm.
  - eexists. split; [done|]. unfold prune_path_state_for_root.
    destruct (strcmp_eq r ""); by apply prune_entries_ok.
  - unfold record_missing_param_failure. destruct (negb _); [eexists; by split|].
    rewrite Hp. simpl. rewrite list_lookup_alter_eq, He. eexists. split; [done|]. simpl. auto with sm.
  - unfold bump_image_mount_attempts. rewrite Hp. simpl.
    rewrite list_lookup_alter_eq, He. eexists. split; [done|]. simpl. auto with sm.
  - eexists. split; [done|]. apply fmap_table_ok; [|done].
    intros e. by destruct (image_attempts_pending e).
  - eexists. split; [done|]. unfold note_backport_mount_failure.
    destruct (strcmp_eq p ""); [done|]. rewrite Hp, He.
    destruct (backport_mount_blocked e); auto with sm.
  - eexists. split; [done|]. unfold clear_backport_mount_failure.
    destruct (strcmp_eq p ""); [done|]. apply update_if_found_path_ok; auto with sm.
  - eexists. split; [done|]. apply note_once_ok; auto with sm.
  - eexists. split; [done|]. unfold clear_backport_permissions_incomplete.
    destruct (strcmp_eq p ""); [done|]. apply update_if_found_path_ok; auto with sm.
  - eexists. split; [done|]. apply note_once_ok; auto with sm.
  - eexists. split; [done|]. unfold clear_manual_missing_source.
    destruct (strcmp_eq p ""); [done|]. apply update_if_found_path_ok; auto with sm.
Qed.

(** no sequence of calls to the path-state API, interleaved with any
    changes of the file system, dereferences a NULL entry: several operations
    use the result of [get_or_create_path_state] unchecked, and it is never
    NULL. *)
Theorem path_api_never_null (ops : list ((string -> bool) * path_op)) :
  exists t, run_path_ops ops empty_table = Some t /\ table_ok t.
Proof.
  assert (Hgen : forall t, table_ok t ->
    exists t', run_path_ops ops t = Some t' /\ table_ok t').
  { induction ops as [|[fs op] ops IH]; intros t Hok; simpl; [eauto|].
    destruct (run_path_op_ok fs op t Hok) as (t' & -> & Hok'). simpl. by apply IH. }
  apply Hgen, empty_table_wf.
Qed.

(** ** Acquired entries *)
Lemma acquire_path fs (t : path_state) p f : table_wf t -> path_fits p -> key_stable f ->
  exists i t', get_or_create_path_state fs t p = (Some i, t') /\
    let e := default (fresh_path_state p) (path_entry_of t p) in
    entries t' !! i = Some e /\ table_wf (update_entry f i t') /\
    path_entry_of (update_entry f i t') p = Some (f e).
Proof.
  intros Hwf [Hne Hlen] Hst.
  destruct (get_or_create_spec (evict_path fs) t p Hwf (evict_path_in_range fs) Hlen Hne)
    as (i & t' & e & Hg & Hwf' & He & Hk & Hkey & Hdef & _).
  rewrite <-(find_state_map t p Hwf Hne) in Hdef.
  assert (Heq : default (fresh_path_state p) (path_entry_of t p) = e) by (by rewrite Hdef).
  exists i, t'. split; [done|]. cbv zeta. rewrite Heq.
  split_and!; [done|by apply update_entry_wf|].
  rewrite <-Hkey. by apply lookup_after_update.
Qed.

Lemma store_load_game_info fs (t : path_state) p st valid id name :
  table_wf t -> path_fits p ->
  (strlen id < MAX_TITLE_ID)%nat -> (strlen name < MAX_TITLE_NAME)%nat ->
  exists t', store_cached_game_info fs t p st valid id name = Some t' /\ table_wf t' /\
    load_cached_game_info t' p st = Some (if valid then Some (id, name) else None) /\
    forall st', st' <> st -> load_cached_game_info t' p st' = None.
Proof.
  intros Hwf Hp Hid Hnm. unfold store_cached_game_info, load_cached_game_info.
  set (g := GameInfo true valid st _ _).
  destruct (acquire_path fs t p (set_game_info g) Hwf Hp (key_stable_game_info g))
    as (i & t' & -> & He & Hwf' & Hl).
  eexists. split_and!; [done|done|..].
  - rewrite Hl. simpl. rewrite bool_decide_true by done. simpl.
    destruct valid; [|done]. simpl. by rewrite !(strlcpy_fits id), !(strlcpy_fits name) by done.
  - intros st' Hne. rewrite Hl. simpl. by rewrite bool_decide_false by congruence.
Qed.

(** the metadata cache returns what was stored for the same version
    of the param file and nothing for any other version: storing under a path
    and loading with the same (mtime, nsec, size, inode) gives back the
    verdict and, for a valid game, the title id and name; a stat that differs
    in any field is a miss. *)
Theorem game_info_cache_roundtrip fs (t : path_state) p st valid id name :
  table_wf t -> path_fits p ->
  (strlen id < MAX_TITLE_ID)%nat -> (strlen name < MAX_TITLE_NAME)%nat ->
  exists t', store_cached_game_info fs t p st valid id name = Some t' /\ table_wf t' /\
    load_cached_game_info t' p st = Some (if valid then Some (id, name) else None) /\
    forall st', st' <> st -> load_cached_game_info t' p st' = None.
Proof. apply store_load_game_info. Qed.

Lemma game_info_cache_roundtrip_witness :
  let fs := fun _ => true in let st := ParamStat 10 20 30 40 in
  exists t', store_cached_game_info fs empty_table "/data/homebrew/game" st true
      "PPSA01234" "Game" = Some t' /\ table_wf t' /\
    load_cached_game_info t' "/data/homebrew/game" st = Some (Some ("PPSA01234", "Game")) /\
    forall st', st' <> st -> load_cached_game_info t' "/data/homebrew/game" st' = None.
Proof.
  apply (game_info_cache_roundtrip (fun _ => true) empty_table "/data/homebrew/game"
           (ParamStat 10 20 30 40) true "PPSA01234" "Game").
  - apply empty_table_wf.
  - split; [done|]. vm_compute. lia.
  - vm_compute. lia.
  - vm_compute. lia.
Defined.

(** ** Retry limit of image mounts *)
Definition image_attempts (t : path_state) (p : string) : Z :=
  match path_entry_of t p with Some e => image_mount_attempts e | None => 0 end.

Lemma bump_image_spec fs (t : path_state) p :
  table_wf t -> path_fits p -> 0 <= image_attempts t p <= UINT8_MAX ->
  exists t', bump_image_mount_attempts fs t p = Some (t', inc_u8 (image_attempts t p)) /\
    table_wf t' /\ image_attempts t' p = inc_u8 (image_attempts t p).
Proof.
  intros Hwf Hp Hr. unfold bump_image_mount_attempts.
  set (f := set_image bump_u8 _).
  destruct (acquire_path fs t p f Hwf Hp (key_stable_image _ _))
    as (i & t' & -> & He & Hwf' & Hl).
  set (e := default (fresh_path_state p) (path_entry_of t p)) in *.
  assert (Ha : image_mount_attempts e = image_attempts t p).
  { unfold e, image_attempts. by destruct (path_entry_of t p). }
  rewrite <-Ha in Hr |- *. simpl. rewrite list_lookup_alter_eq, He. simpl.
  rewrite bump_u8_inc by done. eexists. split_and!; [done|done|].
  unfold image_attempts. rewrite Hl. simpl. by apply bump_u8_inc.
Qed.

Lemma clear_image_spec (t : path_state) p : table_wf t -> p <> ""%string ->
  table_wf (clear_image_mount_attempts t p) /\
  image_attempts (clear_image_mount_attempts t p) p = 0.
Proof.
  intros Hwf Hne. unfold clear_image_mount_attempts, image_attempts, path_entry_of.
  destruct (find_path_state t p) as [i|] eqn:Hf.
  - split; [auto with sm|].
    destruct (find_state_sound _ _ _ Hf) as (e & He & Hl & <-).
    unfold find_path_state. rewrite lookup_after_update; [done|auto with sm|done..].
  - by rewrite Hf.
Qed.

(** [n] failed mounts of one image in a row. *)
Fixpoint bump_times (fs : string -> bool) (n : nat) (t : path_state) (p : string) :
    option path_state :=
  match n with
  | O => Some t
  | S n' => do? (t', _) <- bump_image_mount_attempts fs t p ; bump_times fs n' t' p
  end.

Lemma bump_times_spec fs n (t : path_state) p :
  table_wf t -> path_fits p -> 0 <= image_attempts t p <= UINT8_MAX ->
  exists t', bump_times fs n t p = Some t' /\
    image_attempts t' p = Z.min UINT8_MAX (image_attempts t p + Z.of_nat n).
Proof.
  intros Hwf Hp. revert t Hwf. induction n as [|n IH]; intros t Hwf Hr; cbn [bump_times].
  - exists t. split; [done|]. lia.
  - destruct (bump_image_spec fs t p Hwf Hp Hr) as (t' & -> & Hwf' & Ha).
    destruct (IH t' Hwf') as (t'' & -> & Ha').
    { rewrite Ha. unfold inc_u8, UINT8_MAX in *. lia. }
    exists t''. split; [done|]. rewrite Ha', Ha. unfold inc_u8, UINT8_MAX in *. lia.
Qed.

(** an image is given exactly three mount attempts: after its state
    is cleared, [n] consecutive failures suppress further attempts if and only
    if [n] is at least [MAX_IMAGE_MOUNT_ATTEMPTS] (for any [n]: the counter
    does not wrap back to an allowed value). *)
Theorem image_mount_retry_limit fs (t : path_state) p n :
  table_wf t -> path_fits p ->
  exists t', bump_times fs n (clear_image_mount_attempts t p) p = Some t' /\
    (is_image_mount_limited t' p = true <-> 3 <= Z.of_nat n).
Proof.
  intros Hwf Hp. destruct (clear_image_spec t p Hwf (proj1 Hp)) as [Hwf0 H0].
  destruct (bump_times_spec fs n _ p Hwf0 Hp) as (t' & -> & Ha).
  { rewrite H0. unfold UINT8_MAX. lia. }
  exists t'. split; [done|]. rewrite H0 in Ha.
  unfold is_image_mount_limited. unfold image_attempts in Ha.
  unfold UINT8_MAX, MAX_IMAGE_MOUNT_ATTEMPTS in *.
  destruct (path_entry_of t' p) as [e|]; [rewrite Z.leb_le; lia|split; [done|lia]].
Qed.

Lemma image_mount_retry_limit_witness :
  exists t', bump_times (fun _ => true) 3
      (clear_image_mount_attempts empty_table "/data/a.ffpkg") "/data/a.ffpkg" = Some t' /\
    (is_image_mount_limited t' "/data/a.ffpkg" = true <-> 3 <= Z.of_nat 3).
Proof.
  apply (image_mount_retry_limit (fun _ => true) empty_table "/data/a.ffpkg" 3).
  - apply empty_table_wf.
  - split; [done|]. vm_compute. lia.
Defined.

(** ** Pruning *)
Lemma prune_lookup dead (t : path_state) p : table_wf t -> p <> ""%string ->
  path_entry_of (prune_entries dead t) p =
  match path_entry_of t p with
  | Some e => if dead e then None else Some e
  | None => None
  end.
Proof.
  intros Hwf Hne. unfold path_entry_of, find_path_state.
  rewrite (find_state_map (prune_entries dead t)) by auto with sm.
  rewrite find_state_map, prune_entries_map by done.
  destruct (table_map t !! p) as [e|] eqn:He.
  - destruct (dead e) eqn:Hd.
    + apply map_lookup_filter_None. right. intros e' He' Hd'. simplify_eq/=. congruence.
    + by apply map_lookup_filter_Some.
  - apply map_lookup_filter_None. by left.
Qed.

(** pruning a root forgets exactly the entries of that root whose
    path no longer exists, except a reported missing manual source; every
    other path keeps its entry and stays findable (the index is rebuilt). *)
Theorem prune_path_state_for_root_spec fs (t : path_state) root p :
  table_wf t -> p <> ""%string ->
  table_wf (prune_path_state_for_root fs t root) /\
  path_entry_of (prune_path_state_for_root fs t root) p =
  match path_entry_of t p with
  | None => None
  | Some e =>
      if (strcmp_eq root "" || path_matches_root_or_child p root) && negb (fs p) &&
         negb (manual_missing_source_logged e)
      then None else Some e
  end.
Proof.
  intros Hwf Hne. unfold prune_path_state_for_root, prune_path_state.
  assert (Hkey : forall e, path_entry_of t p = Some e -> ps_path e = p).
  { intros e (i & Hf & He)%bind_Some.
    destruct (find_state_sound _ _ _ Hf) as (e' & He' & _ & Hk). by simplify_eq. }
  destruct (strcmp_eq root ""); (split; [auto with sm|]); rewrite prune_lookup by done;
    (destruct (path_entry_of t p) as [e|]; [|done]); unfold stale_path_entry;
    by rewrite (Hkey e) by done; rewrite ?andb_assoc.
Qed.

Lemma prune_path_state_for_root_witness :
  table_wf (prune_path_state_for_root (fun _ => false) empty_table "/mnt/usb0") /\
  path_entry_of (prune_path_state_for_root (fun _ => false) empty_table "/mnt/usb0")
    "/mnt/usb0/a" =
  match path_entry_of empty_table "/mnt/usb0/a" with
  | None => None
  | Some e =>
      if (strcmp_eq "/mnt/usb0" "" || path_matches_root_or_child "/mnt/usb0/a" "/mnt/usb0") &&
         negb false && negb (manual_missing_source_logged e)
      then None else Some e
  end.
Proof.
  apply (prune_path_state_for_root_spec (fun _ => false) empty_table "/mnt/usb0" "/mnt/usb0/a").
  - apply empty_table_wf.
  - done.
Defined.
