(* ===== verification/ImageCache.v ===== *)
(** * The image mount cache (src/sm_image_cache.c)

    The registry of image sources, their mount points and the kernel devices
    attached for them.  Every public function takes [g_image_cache_mutex] for
    its whole body, so each is one atomic step on [image_cache]; interleavings
    of threads are sequences of those steps.

    NULL pointer arguments are not modelled (the guards that reject them have
    no counterpart); a C [int] result of [-1] with [errno] is [Err].  The
    parameter [dev_stat] is [stat] on a device node: [None] when it fails. *)
From S2P Require Import Prelude CString.
From stdpp Require Import pretty.
Open Scope Z_scope.

Definition MAX_IMAGE_MOUNTS : nat := 2048.
Definition MAX_IMAGE_CHAIN_DEPTH : nat := 8.

Inductive attach_backend_t := ATTACH_BACKEND_NONE | ATTACH_BACKEND_LVD | ATTACH_BACKEND_MD.

Inductive attached_device_state_t :=
  | ATTACHED_DEVICE_RELEASED
  | ATTACHED_DEVICE_ATTACHING
  | ATTACHED_DEVICE_MOUNTED
  | ATTACHED_DEVICE_DETACH_REQUESTED.

#[export] Instance attach_backend_eq_dec : EqDecision attach_backend_t.
Proof. solve_decision. Defined.
#[export] Instance attached_device_state_eq_dec : EqDecision attached_device_state_t.
Proof. solve_decision. Defined.

Record detach_state_t := DetachState {
  requested : bool;
  node_identity_valid : bool;
  node_device : Z;
  node_inode : Z;
  node_rdev : Z;
}.

(** [struct ImageCache]; [image_cache_entry_t] is the same record, copied out
    under the lock. *)
Record ImageCache := mkImage {
  generation : Z;
  ic_path : string;
  ic_mount_point : string;
  unit_id : Z;
  backend : attach_backend_t;
  ic_state : attached_device_state_t;
  detach_state : detach_state_t;
  detach_attempt_active : bool;
  ic_valid : bool;
}.

Record image_cache := Cache { images : list ImageCache; cache_generation : Z }.

(** The error code a failing call leaves in [errno]; [None] when it sets none. *)
Inductive errno := EINVAL | ENAMETOOLONG | EEXIST | EBUSY | ENOSPC | ESTALE | EAGAIN | EINPROGRESS.

Inductive outcome (A : Type) := Ok (a : A) | Err (e : option errno).
Arguments Ok {A} _.
Arguments Err {A} _.

Definition zero_detach : detach_state_t := DetachState false false 0 0 0.
Definition zero_image : ImageCache :=
  mkImage 0 "" "" 0 ATTACH_BACKEND_NONE ATTACHED_DEVICE_RELEASED zero_detach false false.

Definition empty_cache : image_cache := Cache (replicate MAX_IMAGE_MOUNTS zero_image) 0.

(** ** Helpers *)
Definition next_cache_generation (g : Z) : Z :=
  let g' := u64 (g + 1) in if g' =? 0 then u64 (g' + 1) else g'.

Definition attach_backend_is_valid (b : attach_backend_t) : bool :=
  match b with ATTACH_BACKEND_NONE => false | _ => true end.

Definition device_identity_matches (l r : detach_state_t) : bool :=
  node_identity_valid l && node_identity_valid r &&
  (node_device l =? node_device r) && (node_inode l =? node_inode r) &&
  (node_rdev l =? node_rdev r).

Definition device_name (b : attach_backend_t) (unit : Z) : string :=
  String.append (match b with ATTACH_BACKEND_MD => "/dev/md" | _ => "/dev/lvd" end)
    (pretty unit).

Definition find_source_path_index (l : list ImageCache) (path : string) : option nat :=
  find_index (fun e => ic_valid e && strcmp_eq (ic_path e) path) l.

Definition find_mount_point_index (l : list ImageCache) (mp : string) : option nat :=
  find_index (fun e => ic_valid e && strcmp_eq (ic_mount_point e) mp) l.

Definition cache_entry_is_metadata_only (e : ImageCache) : bool :=
  bool_decide (ic_state e = ATTACHED_DEVICE_RELEASED) && (unit_id e <? 0) &&
  bool_decide (backend e = ATTACH_BACKEND_NONE) && negb (detach_attempt_active e).

(** The scan from cell [k] on, with the two indices found so far; [None] is
    the EEXIST failure on a duplicate. *)
Fixpoint find_mapping_from (path mp : string) (k : nat) (l : list ImageCache)
    (pi mi : option nat) : option (option nat * option nat) :=
  match l with
  | [] => Some (pi, mi)
  | e :: l' =>
      if negb (ic_valid e) then find_mapping_from path mp (S k) l' pi mi
      else
        match strcmp_eq (ic_path e) path, pi with
        | true, Some _ => None
        | is_path, _ =>
            let pi' := if is_path then Some k else pi in
            match strcmp_eq (ic_mount_point e) mp, mi with
            | true, Some _ => None
            | is_mount, _ =>
                find_mapping_from path mp (S k) l' pi' (if is_mount then Some k else mi)
            end
        end
  end.

Definition find_mapping_indices (l : list ImageCache) (path mp : string) :=
  find_mapping_from path mp 0 l None None.

(** Result: the index to use (if any), whether two half-mappings were merged,
    and the array after a merge. *)
Definition resolve_or_merge_mapping_index (l : list ImageCache) (path mp : string) :
    outcome (option nat * bool * list ImageCache) :=
  match find_mapping_indices l path mp with
  | None => Err (Some EEXIST)
  | Some (Some p, Some m) =>
      if (p =? m)%nat then Ok (Some p, false, l)
      else
        match l !! p, l !! m with
        | Some pe, Some me =>
            if negb (cache_entry_is_metadata_only pe) || negb (cache_entry_is_metadata_only me)
            then Err (Some EBUSY)
            else Ok (Some p, true, <[m := zero_image]> l)
        | _, _ => Err None
        end
  | Some (Some p, None) => Ok (Some p, false, l)
  | Some (None, mi) => Ok (mi, false, l)
  end.

Definition set_mapping (path mp : string) (gen : Z) (e : ImageCache) : ImageCache :=
  mkImage gen (strlcpy path MAX_PATH) (strlcpy mp MAX_PATH) (unit_id e) (backend e)
    (ic_state e) (detach_state e) (detach_attempt_active e) (ic_valid e).

Definition new_mapping (path mp : string) (gen : Z) (e : ImageCache) : ImageCache :=
  mkImage gen (strlcpy path MAX_PATH) (strlcpy mp MAX_PATH) (-1) ATTACH_BACKEND_NONE
    ATTACHED_DEVICE_RELEASED (detach_state e) (detach_attempt_active e) true.

Definition upsert_image_source_mapping (c : image_cache) (path mp : string) :
    outcome nat * image_cache :=
  if strcmp_eq path "" || strcmp_eq mp "" then (Err (Some EINVAL), c)
  else if (MAX_PATH <=? strlen path)%nat || (MAX_PATH <=? strlen mp)%nat
  then (Err (Some ENAMETOOLONG), c)
  else
    match resolve_or_merge_mapping_index (images c) path mp with
    | Err e => (Err e, c)
    | Ok (Some i, merged, l) =>
        match l !! i with
        | None => (Err None, Cache l (cache_generation c))
        | Some e =>
            let changed := merged || negb (strcmp_eq (ic_path e) path) ||
                           negb (strcmp_eq (ic_mount_point e) mp) in
            if negb (cache_entry_is_metadata_only e) && changed
            then (Err (Some EBUSY), Cache l (cache_generation c))
            else if changed
            then let g := next_cache_generation (cache_generation c) in
                 (Ok i, Cache (<[i := set_mapping path mp g e]> l) g)
            else (Ok i, Cache (<[i := set_mapping path mp (generation e) e]> l)
                          (cache_generation c))
        end
    | Ok (None, _, l) =>
        match find_index (fun e => negb (ic_valid e)) l with
        | None => (Err (Some ENOSPC), Cache l (cache_generation c))
        | Some k =>
            let g := next_cache_generation (cache_generation c) in
            (Ok k, Cache (alter (new_mapping path mp g) k l) g)
        end
    end.

Definition set_attachment (gen unit : Z) (b : attach_backend_t) (s : attached_device_state_t)
    (d : detach_state_t) (active : bool) (e : ImageCache) : ImageCache :=
  mkImage gen (ic_path e) (ic_mount_point e) unit b s d active (ic_valid e).

Definition find_attachment_record (l : list ImageCache) (path : string) (gen unit : Z)
    (b : attach_backend_t) : option (nat * ImageCache) :=
  i ← find_source_path_index l path;
  e ← l !! i;
  if negb (generation e =? gen) || negb (unit_id e =? unit) || negb (bool_decide (backend e = b))
  then None else Some (i, e).

Definition put_image (c : image_cache) (i : nat) (e : ImageCache) : image_cache :=
  Cache (<[i := e]> (images c)) (cache_generation c).

(** The argument check of the attachment operations. *)
Definition attachment_args_ok (gen unit : Z) (b : attach_backend_t) : bool :=
  negb (gen =? 0) && (0 <=? unit) && attach_backend_is_valid b.

Section ops.
  Context (dev_stat : string -> option (Z * Z * Z)).

(** The entry after the call and whether the identity is known. *)
Definition refresh_attached_unit_identity (e : ImageCache) : ImageCache * bool :=
  if negb (attach_backend_is_valid (backend e)) || (unit_id e <? 0) then (e, false)
  else if node_identity_valid (detach_state e) then (e, true)
  else
    match dev_stat (device_name (backend e) (unit_id e)) with
    | None => (e, false)
    | Some (dev, ino, rdev) =>
        (set_attachment (generation e) (unit_id e) (backend e) (ic_state e)
           (DetachState (requested (detach_state e)) true dev ino rdev)
           (detach_attempt_active e) e, true)
    end.

Definition reset_attached_unit_identity (e : ImageCache) : ImageCache :=
  (refresh_attached_unit_identity
     (set_attachment (generation e) (unit_id e) (backend e) (ic_state e) zero_detach
        (detach_attempt_active e) e)).1.

(** ** Attachment life cycle *)
Definition cache_image_source_mapping (c : image_cache) (path mp : string) :
    outcome unit * image_cache :=
  match upsert_image_source_mapping c path mp with
  | (Ok _, c') => (Ok tt, c')
  | (Err e, c') => (Err e, c')
  end.

Definition begin_image_attachment (c : image_cache) (path mp : string) :
    outcome Z * image_cache :=
  match upsert_image_source_mapping c path mp with
  | (Err e, c') => (Err e, c')
  | (Ok i, c') =>
      match images c' !! i with
      | None => (Err None, c')
      | Some e =>
          if negb (cache_entry_is_metadata_only e) then (Err (Some EBUSY), c')
          else
            let g := next_cache_generation (cache_generation c') in
            (Ok g,
             Cache (<[i := set_attachment g (-1) ATTACH_BACKEND_NONE ATTACHED_DEVICE_ATTACHING
                             zero_detach false e]> (images c')) g)
      end
  end.

(** The reservation test shared by cancel and publish. *)
Definition is_reservation (gen : Z) (e : ImageCache) : bool :=
  (generation e =? gen) && bool_decide (ic_state e = ATTACHED_DEVICE_ATTACHING) &&
  (unit_id e <? 0) && bool_decide (backend e = ATTACH_BACKEND_NONE).

Definition find_by_path (l : list ImageCache) (path : string) : option (nat * ImageCache) :=
  i ← find_source_path_index l path; e ← l !! i; Some (i, e).

Definition cancel_image_attachment (c : image_cache) (path : string) (gen : Z) :
    bool * image_cache :=
  if gen =? 0 then (false, c)
  else
    match find_by_path (images c) path with
    | Some (i, e) =>
        if is_reservation gen e then (true, put_image c i zero_image) else (false, c)
    | None => (false, c)
    end.

Definition publish_image_attachment (c : image_cache) (path : string) (gen unit : Z)
    (b : attach_backend_t) : outcome () * image_cache :=
  if negb (attachment_args_ok gen unit b) then (Err (Some EINVAL), c)
  else
    match find_by_path (images c) path with
    | Some (i, e) =>
        if is_reservation gen e
        then (Ok tt, put_image c i (refresh_attached_unit_identity
                (set_attachment (generation e) unit b (ic_state e) (detach_state e)
                   (detach_attempt_active e) e)).1)
        else (Err None, c)
    | None => (Err None, c)
    end.

Definition complete_image_attachment (c : image_cache) (path : string) (gen unit : Z)
    (b : attach_backend_t) : outcome () * image_cache :=
  if negb (attachment_args_ok gen unit b) then (Err (Some EINVAL), c)
  else
    match find_attachment_record (images c) path gen unit b with
    | Some (i, e) =>
        if bool_decide (ic_state e = ATTACHED_DEVICE_ATTACHING)
        then (Ok tt, put_image c i (refresh_attached_unit_identity
                (set_attachment (generation e) (unit_id e) (backend e) ATTACHED_DEVICE_MOUNTED
                   (detach_state e) (detach_attempt_active e) e)).1)
        else (Err None, c)
    | None => (Err None, c)
    end.

Definition cache_image_mount (c : image_cache) (path mp : string) (unit : Z)
    (b : attach_backend_t) : outcome () * image_cache :=
  if (unit <? 0) || negb (attach_backend_is_valid b) then (Err (Some EINVAL), c)
  else
    match upsert_image_source_mapping c path mp with
    | (Err e, c') => (Err e, c')
    | (Ok i, c') =>
        match images c' !! i with
        | None => (Err None, c')
        | Some e =>
            let g := next_cache_generation (cache_generation c') in
            (Ok tt, Cache (<[i := reset_attached_unit_identity
               (set_attachment g unit b ATTACHED_DEVICE_MOUNTED (detach_state e) false e)]>
               (images c')) g)
        end
    end.

(** ** Detaching *)
Definition set_state (s : attached_device_state_t) (e : ImageCache) : ImageCache :=
  set_attachment (generation e) (unit_id e) (backend e) s (detach_state e)
    (detach_attempt_active e) e.

Definition mark_image_cache_detach_requested (c : image_cache) (path : string) (gen unit : Z)
    (b : attach_backend_t) : outcome () * image_cache :=
  if negb (attachment_args_ok gen unit b) then (Err (Some EINVAL), c)
  else
    match find_attachment_record (images c) path gen unit b with
    | None => (Err (Some ESTALE), c)
    | Some (i, e) =>
        let '(e', known) :=
          refresh_attached_unit_identity (set_state ATTACHED_DEVICE_DETACH_REQUESTED e) in
        (if known then Ok tt else Err (Some EAGAIN), put_image c i e')
    end.

Definition claim_image_cache_detach (c : image_cache) (path : string) (gen unit : Z)
    (b : attach_backend_t) : outcome ImageCache * image_cache :=
  if negb (attachment_args_ok gen unit b) then (Err (Some EINVAL), c)
  else
    match find_attachment_record (images c) path gen unit b with
    | None => (Err (Some ESTALE), c)
    | Some (i, e) =>
        if detach_attempt_active e then (Err (Some EINPROGRESS), c)
        else
          let '(e', known) := refresh_attached_unit_identity e in
          if negb known then (Err (Some EAGAIN), put_image c i e')
          else
            let e'' := set_attachment (generation e') (unit_id e') (backend e')
                         ATTACHED_DEVICE_DETACH_REQUESTED (detach_state e') true e' in
            (Ok e'', put_image c i e'')
    end.

Definition finish_image_cache_detach_attempt (c : image_cache) (path : string) (gen unit : Z)
    (b : attach_backend_t) (d : detach_state_t) : outcome () * image_cache :=
  if negb (attachment_args_ok gen unit b) || negb (node_identity_valid d)
  then (Err (Some EINVAL), c)
  else
    match find_attachment_record (images c) path gen unit b with
    | None => (Err (Some ESTALE), c)
    | Some (i, e) =>
        if negb (detach_attempt_active e) || negb (device_identity_matches (detach_state e) d)
        then (Err (Some ESTALE), c)
        else (Ok tt, put_image c i
                (set_attachment (generation e) (unit_id e) (backend e)
                   ATTACHED_DEVICE_DETACH_REQUESTED d false e))
    end.

Definition invalidate_image_cache_entry (c : image_cache) (index : Z) (expected : ImageCache) :
    outcome () * image_cache :=
  if (index <? 0) || (Z.of_nat MAX_IMAGE_MOUNTS <=? index) then (Err (Some ESTALE), c)
  else
    match images c !! Z.to_nat index with
    | None => (Err (Some ESTALE), c)
    | Some e =>
        if negb (ic_valid e) then (Err (Some ESTALE), c)
        else if negb (generation e =? generation expected) ||
                negb (strcmp_eq (ic_path e) (ic_path expected)) ||
                negb (strcmp_eq (ic_mount_point e) (ic_mount_point expected)) ||
                negb (unit_id e =? unit_id expected) ||
                negb (bool_decide (backend e = backend expected)) ||
                negb (bool_decide (ic_state e = ic_state expected)) ||
                detach_attempt_active e ||
                negb (eqb (requested (detach_state e)) (requested (detach_state expected))) ||
                negb (device_identity_matches (detach_state e) (detach_state expected))
        then (Err (Some ESTALE), c)
        else (Ok tt, put_image c (Z.to_nat index) zero_image)
    end.
End ops.

(** ** Queries *)
Definition get_image_cache_entry (c : image_cache) (index : Z) : option ImageCache :=
  if (index <? 0) || (Z.of_nat MAX_IMAGE_MOUNTS <=? index) then None
  else e ← images c !! Z.to_nat index; if ic_valid e then Some e else None.

Definition image_cache_find_active_source_under (c : image_cache) (root : string) :
    option string :=
  if strcmp_eq root "" then None
  else
    i ← find_index (fun e => ic_valid e &&
           negb (bool_decide (ic_state e = ATTACHED_DEVICE_RELEASED)) &&
           path_matches_root_or_child (ic_path e) root) (images c);
    ic_path <$> images c !! i.

Definition find_image_cache_entry (c : image_cache) (path : string) :
    option (nat * ImageCache) := find_by_path (images c) path.

Definition resolve_device_from_mount_cache (c : image_cache) (mp : string) :
    option (attach_backend_t * Z) :=
  i ← find_mount_point_index (images c) mp;
  e ← images c !! i;
  if bool_decide (backend e = ATTACH_BACKEND_NONE) || (unit_id e <? 0) then None
  else Some (backend e, unit_id e).

Definition resolve_image_source_from_mount_cache (c : image_cache) (mp : string)
    (size : nat) : option string :=
  i ← find_mount_point_index (images c) mp;
  e ← images c !! i; Some (strlcpy (ic_path e) size).

(** The scan from cell [i] on with the best mount point so far. *)
Fixpoint find_owning_from (path : string) (i : nat) (l : list ImageCache)
    (best : option nat) (best_length : nat) : option nat :=
  match l with
  | [] => best
  | e :: l' =>
      if negb (ic_valid e) then find_owning_from path (S i) l' best best_length
      else
        let length := strlen (ic_mount_point e) in
        if (length <=? best_length)%nat || negb (has_prefix path (ic_mount_point e))
        then find_owning_from path (S i) l' best best_length
        else if bool_decide (char_at path length = None) ||
                bool_decide (char_at path length = Some slash)
        then find_owning_from path (S i) l' (Some i) length
        else find_owning_from path (S i) l' best best_length
  end.

Definition find_owning_cache_index (l : list ImageCache) (path : string) : option nat :=
  find_owning_from path 0 l None 0.

(** At most [fuel] further owners of [current]; the loop bound is
    [MAX_IMAGE_CHAIN_DEPTH]. *)
Fixpoint owning_chain (fuel : nat) (l : list ImageCache) (current : string) : list nat :=
  match fuel with
  | O => []
  | S fuel' =>
      match find_owning_cache_index l current with
      | None => []
      | Some i =>
          i :: owning_chain fuel' l
                 (strlcpy (from_option ic_path ""%string (l !! i)) MAX_PATH)
      end
  end.

Definition find_owning_chain_indices (l : list ImageCache) (path : string) : list nat :=
  owning_chain MAX_IMAGE_CHAIN_DEPTH l (strlcpy path MAX_PATH).

Definition path_of (l : list ImageCache) (i : nat) : string :=
  from_option ic_path ""%string (l !! i).

Definition resolve_owning_image_source_from_mount_cache (c : image_cache) (path : string)
    (size : nat) : option string :=
  if (size =? 0)%nat then None
  else (fun i => strlcpy (path_of (images c) i) size) <$> find_owning_cache_index (images c) path.

Definition resolve_image_source_chain_from_mount_cache (c : image_cache) (path : string) :
    list string :=
  (fun i => strlcpy (path_of (images c) i) MAX_PATH) <$>
    reverse (find_owning_chain_indices (images c) path).

Definition resolve_outermost_image_source_from_mount_cache (c : image_cache) (path : string)
    (size : nat) : option string :=
  if (size =? 0)%nat then None
  else (fun i => strlcpy (path_of (images c) i) size) <$>
         last (find_owning_chain_indices (images c) path).

(** ** The device state machine

    The transitions one cell of the cache can make.  [gen_of] is the
    generation the step hands out ([cache_generation] is bumped), and every
    operation above is shown to be a sequence of these. *)
Definition has_device (e : ImageCache) : Prop :=
  0 <= unit_id e /\ attach_backend_is_valid (backend e) = true.

Definition no_device (e : ImageCache) : Prop :=
  unit_id e < 0 /\ backend e = ATTACH_BACKEND_NONE.

(** [refresh_attached_unit_identity] may only add the identity of the node. *)
Definition refreshed (d d' : detach_state_t) : Prop :=
  d' = d \/ (node_identity_valid d = false /\ node_identity_valid d' = true /\
             requested d' = requested d).

Definition key_free (l : list ImageCache) (i : nat) (path mp : string) : Prop :=
  forall j e, j <> i -> l !! j = Some e -> ic_valid e = true ->
    ic_path e <> path /\ ic_mount_point e <> mp.

Definition name_ok (s : string) : Prop := s <> ""%string /\ (strlen s < MAX_PATH)%nat.

Inductive action := AFinish (gen : Z) | AMount (path : string) | AOther.

(** One cell's step: the cell before and after, and the generation counter. *)
Inductive cell_step : action -> Z -> ImageCache -> ImageCache -> Z -> Prop :=
  | step_drop g e : ic_valid e = true -> cache_entry_is_metadata_only e = true ->
      cell_step AOther g e zero_image g
  | step_map_new g e path mp : ic_valid e = false -> name_ok path -> name_ok mp ->
      cell_step AOther g e
        (new_mapping path mp (next_cache_generation g) e) (next_cache_generation g)
  | step_remap g e path mp : ic_valid e = true -> cache_entry_is_metadata_only e = true ->
      name_ok path -> name_ok mp ->
      cell_step AOther g e
        (set_mapping path mp (next_cache_generation g) e) (next_cache_generation g)
  | step_reserve g e : ic_valid e = true -> cache_entry_is_metadata_only e = true ->
      cell_step AOther g e
        (set_attachment (next_cache_generation g) (-1) ATTACH_BACKEND_NONE
           ATTACHED_DEVICE_ATTACHING zero_detach false e) (next_cache_generation g)
  | step_cancel g e gen : ic_valid e = true -> is_reservation gen e = true ->
      cell_step AOther g e zero_image g
  | step_publish g e gen unit b d : ic_valid e = true -> is_reservation gen e = true ->
      0 <= unit -> attach_backend_is_valid b = true -> refreshed (detach_state e) d ->
      cell_step AOther g e
        (set_attachment (generation e) unit b (ic_state e) d (detach_attempt_active e) e) g
  | step_complete g e d : ic_valid e = true -> has_device e ->
      ic_state e = ATTACHED_DEVICE_ATTACHING -> refreshed (detach_state e) d ->
      cell_step AOther g e
        (set_attachment (generation e) (unit_id e) (backend e) ATTACHED_DEVICE_MOUNTED d
           (detach_attempt_active e) e) g
  | step_mount g e unit b d : ic_valid e = true -> 0 <= unit ->
      attach_backend_is_valid b = true -> refreshed zero_detach d ->
      cell_step (AMount (ic_path e)) g e
        (set_attachment (next_cache_generation g) unit b ATTACHED_DEVICE_MOUNTED d false e)
        (next_cache_generation g)
  | step_mark g e d : ic_valid e = true -> has_device e -> refreshed (detach_state e) d ->
      cell_step AOther g e
        (set_attachment (generation e) (unit_id e) (backend e)
           ATTACHED_DEVICE_DETACH_REQUESTED d (detach_attempt_active e) e) g
  | step_claim g e d : ic_valid e = true -> has_device e -> detach_attempt_active e = false ->
      refreshed (detach_state e) d -> node_identity_valid d = true ->
      cell_step AOther g e
        (set_attachment (generation e) (unit_id e) (backend e)
           ATTACHED_DEVICE_DETACH_REQUESTED d true e) g
  | step_finish g e d : ic_valid e = true -> has_device e -> detach_attempt_active e = true ->
      device_identity_matches (detach_state e) d = true ->
      cell_step (AFinish (generation e)) g e
        (set_attachment (generation e) (unit_id e) (backend e)
           ATTACHED_DEVICE_DETACH_REQUESTED d false e) g
  | step_invalidate g e : ic_valid e = true -> detach_attempt_active e = false ->
      node_identity_valid (detach_state e) = true ->
      cell_step AOther g e zero_image g.

(** A step of the cache: one cell moves, and a cell that changes its names
    takes names no other valid cell has. *)
Inductive cache_step (a : action) (c : image_cache) : image_cache -> Prop :=
  | CacheStep i e e' g' :
      images c !! i = Some e -> cell_step a (cache_generation c) e e' g' ->
      (ic_valid e' = true -> ic_path e' <> ic_path e \/ ic_mount_point e' <> ic_mount_point e ->
       key_free (images c) i (ic_path e') (ic_mount_point e')) ->
      cache_step a c (Cache (<[i := e']> (images c)) g').

(** Sequences of steps, with their actions. *)
Inductive cache_steps : list action -> image_cache -> image_cache -> Prop :=
  | steps_refl c : cache_steps [] c c
  | steps_cons a acts c c1 c2 :
      cache_step a c c1 -> cache_steps acts c1 c2 -> cache_steps (a :: acts) c c2.

(** ** Invariant *)
Record entry_ok (e : ImageCache) : Prop := {
  eo_path : name_ok (ic_path e);
  eo_mount : name_ok (ic_mount_point e);
  eo_gen : 0 < generation e;
  eo_identity : unit_id e < 0 -> node_identity_valid (detach_state e) = false;
  eo_device : has_device e \/ no_device e;
  eo_state : match ic_state e with
             | ATTACHED_DEVICE_RELEASED => no_device e
             | ATTACHED_DEVICE_ATTACHING => True
             | ATTACHED_DEVICE_MOUNTED | ATTACHED_DEVICE_DETACH_REQUESTED => has_device e
             end;
  eo_active : detach_attempt_active e = true ->
    ic_state e = ATTACHED_DEVICE_DETACH_REQUESTED /\
    node_identity_valid (detach_state e) = true;
}.

Record cache_inv (c : image_cache) : Prop := {
  ci_len : length (images c) = MAX_IMAGE_MOUNTS;
  ci_dead : forall i e, images c !! i = Some e -> ic_valid e = false -> e = zero_image;
  ci_entry : forall i e, images c !! i = Some e -> ic_valid e = true ->
    entry_ok e /\ generation e <= cache_generation c;
  ci_unique : forall i j e e', i <> j -> images c !! i = Some e -> images c !! j = Some e' ->
    ic_valid e = true -> ic_valid e' = true ->
    ic_path e <> ic_path e' /\ ic_mount_point e <> ic_mount_point e' /\
    generation e <> generation e';
  ci_gen : 0 <= cache_generation c;
}.

Lemma next_generation g : 0 <= g < UINT64_MAX -> next_cache_generation g = g + 1.
Proof.
  intros Hg. unfold next_cache_generation. rewrite u64_small by lia.
  destruct (Z.eqb_spec (g + 1) 0); lia.
Qed.

Lemma metadata_only_spec e : cache_entry_is_metadata_only e = true <->
  ic_state e = ATTACHED_DEVICE_RELEASED /\ no_device e /\ detach_attempt_active e = false.
Proof.
  unfold cache_entry_is_metadata_only, no_device.
  rewrite !andb_true_iff, !bool_decide_eq_true, negb_true_iff, Z.ltb_lt. tauto.
Qed.

Lemma is_reservation_spec gen e : is_reservation gen e = true <->
  generation e = gen /\ ic_state e = ATTACHED_DEVICE_ATTACHING /\ no_device e.
Proof.
  unfold is_reservation, no_device.
  rewrite !andb_true_iff, !bool_decide_eq_true, Z.eqb_eq, Z.ltb_lt. tauto.
Qed.

Lemma identity_matches_valid l r : device_identity_matches l r = true ->
  node_identity_valid l = true /\ node_identity_valid r = true.
Proof. unfold device_identity_matches. intros. by bool_hyps. Qed.

Lemma refreshed_valid d d' : refreshed d d' -> node_identity_valid d = true ->
  node_identity_valid d' = true.
Proof. intros [->|(? & ? & _)] Hv; congruence. Qed.

Ltac cell_entry :=
  repeat match goal with
  | H : cache_entry_is_metadata_only _ = true |- _ => apply metadata_only_spec in H as (? & ? & ?)
  | H : is_reservation _ _ = true |- _ => apply is_reservation_spec in H as (? & ? & ?)
  | H : device_identity_matches _ _ = true |- _ => apply identity_matches_valid in H as [? ?]
  end.

Lemma cell_step_ok a g e e' g' :
  cell_step a g e e' g' -> 0 <= g < UINT64_MAX ->
  (ic_valid e = true -> entry_ok e /\ generation e <= g) ->
  (ic_valid e = false -> e = zero_image) ->
  g <= g' <= g + 1 /\ (ic_valid e' = false -> e' = zero_image) /\
  (ic_valid e' = true -> entry_ok e' /\ generation e' <= g' /\
     (generation e' = generation e \/ g < generation e')).
Proof.
  intros Hs Hg Hok Hdead.
  destruct Hs as [g e Hv Hm|g e path mp Hv Hp Hq|g e path mp Hv Hm Hp Hq|g e Hv Hm|g e gen Hv Hm
    |g e gen u b d Hv Hm Hu Hb Hd|g e d Hv Hd Hst Hr|g e u b d Hv Hu Hb Hr|g e d Hv Hd Hr
    |g e d Hv Hd Hna Hr Hid|g e d Hv Hd Ha Hid|g e Hv Hna Hid];
    rewrite ?next_generation by lia;
    (split; [lia|]); (split; [first [done | intros Hx; simpl in Hx; congruence]|]);
    try done; intros _; cell_entry;
    try (destruct (Hok Hv) as [Ho Hle]; destruct Ho as [Op Om Og Oi Od Os Oa]).
  - rewrite (Hdead Hv). split_and!; [|simpl; lia..]. destruct Hp, Hq.
    split; simpl; rewrite ?strlcpy_fits by done; try done; try lia; right; split; simpl; [lia|done].
  - split_and!; [|simpl; lia..]. destruct Hp, Hq. unfold has_device, no_device in *.
    split; simpl; rewrite ?strlcpy_fits by done; try done; lia.
  - split_and!; [|simpl; lia..]. split; simpl; try done; try lia. right. split; simpl; [lia|done].
  - split_and!; [|simpl; lia..].
    assert (Hact : detach_attempt_active e = false).
    { destruct (detach_attempt_active e); [|done]. destruct (Oa eq_refl). congruence. }
    split; simpl; try done; try lia.
    + left. split; simpl; done.
    + match goal with H : ic_state e = _ |- _ => by rewrite H end.
    + congruence.
  - split_and!; [|simpl; lia..]. split; simpl; try done.
    + destruct Hd. simpl. lia.
    + intros Ha. destruct (Oa Ha). congruence.
  - split_and!; [|simpl; lia..]. split; simpl; try done; try lia; try (left; split; simpl; done);
      split; simpl; done.
  - split_and!; [|simpl; lia..]. split; simpl; try done.
    + destruct Hd. simpl. lia.
    + intros Ha. destruct (Oa Ha). split; [done|]. by eapply refreshed_valid.
  - split_and!; [|simpl; lia..]. split; simpl; try done. destruct Hd. lia.
  - split_and!; [|simpl; lia..]. split; simpl; try done. destruct Hd. lia.
Qed.

Lemma cache_step_inv a c c' : cache_step a c c' -> cache_inv c ->
  cache_generation c < UINT64_MAX ->
  cache_inv c' /\ cache_generation c <= cache_generation c' <= cache_generation c + 1.
Proof.
  intros Hst [Hl Hd He Hu Hg] Hroom. destruct Hst as [i e e' g' Hi Hs Hk].
  destruct (cell_step_ok _ _ _ _ _ Hs ltac:(lia) (He i e Hi) (Hd i e Hi)) as (Hg' & Hd' & He').
  split; [|exact Hg']. split; cbn [images cache_generation].
  - by rewrite length_insert.
  - intros j x [(-> & -> & _)|[_ Hj]]%lookup_insert_cases; eauto.
  - intros j x [(-> & -> & _)|[_ Hj]]%lookup_insert_cases Hv.
    + destruct (He' Hv) as (? & ? & _). done.
    + destruct (He j x Hj Hv). split; [done|lia].
  - assert (Hnew : forall j x, j <> i -> images c !! j = Some x -> ic_valid e' = true ->
      ic_valid x = true -> ic_path x <> ic_path e' /\ ic_mount_point x <> ic_mount_point e' /\
      generation x <> generation e').
    { intros j x Hne Hj Hv Hvx. destruct (He' Hv) as (Hok' & _ & Hgen).
      destruct (He j x Hj Hvx) as [_ Hxg].
      assert (Hnames : ic_path x <> ic_path e' /\ ic_mount_point x <> ic_mount_point e').
      { destruct (decide (ic_path e' = ic_path e)) as [Hp|];
          [destruct (decide (ic_mount_point e' = ic_mount_point e)) as [Hm|]|].
        - rewrite Hp, Hm. destruct (ic_valid e) eqn:Hve.
          + by destruct (Hu j i x e Hne Hj Hi Hvx Hve) as (? & ? & _).
          + destruct (eo_path _ Hok') as [Hne' _]. rewrite Hp, (Hd i e Hi Hve) in Hne'. done.
        - eapply Hk; eauto.
        - eapply Hk; eauto. }
      destruct Hnames. split_and!; [done..|]. destruct Hgen as [Hgen|Hgen]; [|lia].
      destruct (ic_valid e) eqn:Hve.
      - rewrite Hgen. by destruct (Hu j i x e Hne Hj Hi Hvx Hve) as (_ & _ & ?).
      - pose proof (eo_gen _ Hok') as Hp. rewrite Hgen, (Hd i e Hi Hve) in Hp. simpl in Hp. lia. }
    intros j k x y Hjk [(-> & -> & _)|[Hj Hxj]]%lookup_insert_cases
      [(-> & -> & _)|[Hk' Hyk]]%lookup_insert_cases Hvx Hvy; [done|..].
    + destruct (Hnew k y) as (? & ? & ?); [done..|]. split_and!; congruence.
    + by apply (Hnew j).
    + eapply (Hu j k x y); done.
  - lia.
Qed.

Lemma cache_steps_inv acts c c' : cache_steps acts c c' -> cache_inv c ->
  cache_generation c + Z.of_nat (length acts) <= UINT64_MAX ->
  cache_inv c' /\ cache_generation c <= cache_generation c' <=
                  cache_generation c + Z.of_nat (length acts).
Proof.
  induction 1 as [c|a acts c c1 c2 Hs Hss IH]; intros Hinv Hroom; simpl in *; [split; [done|lia]|].
  destruct (cache_step_inv _ _ _ Hs Hinv ltac:(lia)) as [Hinv1 Hg1].
  destruct (IH Hinv1 ltac:(lia)) as [Hinv2 Hg2]. split; [done|lia].
Qed.

Lemma cache_steps_app acts1 acts2 c c1 c2 :
  cache_steps acts1 c c1 -> cache_steps acts2 c1 c2 -> cache_steps (acts1 ++ acts2) c c2.
Proof. induction 1; intros; simpl; [done|]. econstructor; eauto. Qed.

Lemma cache_steps_one a c c' : cache_step a c c' -> cache_steps [a] c c'.
Proof. intros. econstructor; [done|constructor]. Qed.

(** ** Every operation is a sequence of legal steps *)
Lemma set_attachment_same e :
  set_attachment (generation e) (unit_id e) (backend e) (ic_state e) (detach_state e)
    (detach_attempt_active e) e = e.
Proof. by destruct e. Qed.

Lemma refresh_spec ds e e' known : refresh_attached_unit_identity ds e = (e', known) ->
  exists d, e' = set_attachment (generation e) (unit_id e) (backend e) (ic_state e) d
                   (detach_attempt_active e) e /\
    refreshed (detach_state e) d /\
    (known = true -> node_identity_valid d = true).
Proof.
  unfold refresh_attached_unit_identity, refreshed. intros H.
  destruct (_ || _); [|destruct (node_identity_valid (detach_state e)) eqn:Hv;
    [|destruct (ds _) as [[[dev ino] rdev]|]]]; injection H as <- <-.
  - exists (detach_state e). rewrite set_attachment_same.
    split; [done|split; [by left|try done]].
  - exists (detach_state e). rewrite set_attachment_same.
    split; [done|split; [by left|try done]].
  - eexists. split; [reflexivity|]. split; [|done]. by right.
  - exists (detach_state e). rewrite set_attachment_same.
    split; [done|split; [by left|try done]].
Qed.

Lemma find_mapping_from_spec path mp k l pi mi pi' mi' :
  find_mapping_from path mp k l pi mi = Some (pi', mi') ->
  pi' = match pi with
        | Some p => Some p
        | None => Nat.add k <$> find_source_path_index l path
        end /\
  mi' = match mi with
        | Some m => Some m
        | None => Nat.add k <$> find_mount_point_index l mp
        end.
Proof.
  unfold find_source_path_index, find_mount_point_index.
  revert k pi mi. induction l as [|e l IH]; intros k pi mi H; simpl in *.
  { injection H as <- <-. by destruct pi, mi. }
  assert (Hshift : forall o : option nat, Nat.add (S k) <$> o = Nat.add k <$> (S <$> o)).
  { intros [n|]; simpl; [|done]. f_equal. lia. }
  destruct (ic_valid e); simpl in *.
  2: { apply IH in H as [-> ->]. by rewrite !Hshift. }
  destruct (strcmp_eq (ic_path e) path), pi as [p|]; try done;
    destruct (strcmp_eq (ic_mount_point e) mp), mi as [m|]; try done;
    apply IH in H as [-> ->]; rewrite ?Hshift; simpl; rewrite ?Nat.add_0_r; done.
Qed.

Lemma find_mapping_indices_spec l path mp pi mi :
  find_mapping_indices l path mp = Some (pi, mi) ->
  pi = find_source_path_index l path /\ mi = find_mount_point_index l mp.
Proof.
  intros [-> ->]%find_mapping_from_spec.
  by destruct (find_source_path_index l path), (find_mount_point_index l mp).
Qed.

Lemma find_path_hit l path i : find_source_path_index l path = Some i ->
  exists e, l !! i = Some e /\ ic_valid e = true /\ ic_path e = path.
Proof.
  intros (e & He & Hp)%find_index_hit. bool_hyps. exists e. split_and!; [done..|].
  by apply strcmp_eq_true.
Qed.

Lemma find_path_miss l path : find_source_path_index l path = None ->
  forall i e, l !! i = Some e -> ic_valid e = true -> ic_path e <> path.
Proof.
  intros Hn i e He Hv. unfold find_source_path_index in Hn. rewrite find_index_None in Hn.
  specialize (Hn i e He). rewrite Hv in Hn. by apply strcmp_eq_false.
Qed.

Lemma find_mount_hit l mp i : find_mount_point_index l mp = Some i ->
  exists e, l !! i = Some e /\ ic_valid e = true /\ ic_mount_point e = mp.
Proof.
  intros (e & He & Hp)%find_index_hit. bool_hyps. exists e. split_and!; [done..|].
  by apply strcmp_eq_true.
Qed.

Lemma find_mount_miss l mp : find_mount_point_index l mp = None ->
  forall i e, l !! i = Some e -> ic_valid e = true -> ic_mount_point e <> mp.
Proof.
  intros Hn i e He Hv. unfold find_mount_point_index in Hn. rewrite find_index_None in Hn.
  specialize (Hn i e He). rewrite Hv in Hn. by apply strcmp_eq_false.
Qed.

(** What [resolve_or_merge_mapping_index] leaves: the chosen cell may take
    both names, whatever the case. *)
Lemma resolve_spec c path mp i merged l :
  cache_inv c -> resolve_or_merge_mapping_index (images c) path mp = Ok (i, merged, l) ->
  (merged = false /\ l = images c \/
   merged = true /\ cache_steps [AOther] c (Cache l (cache_generation c)) /\
     exists p e, i = Some p /\ l !! p = Some e /\ ic_valid e = true /\
       cache_entry_is_metadata_only e = true) /\
  match i with
  | Some n => (exists e, l !! n = Some e /\ ic_valid e = true) /\ key_free l n path mp
  | None => forall j e, l !! j = Some e -> ic_valid e = true ->
              ic_path e <> path /\ ic_mount_point e <> mp
  end.
Proof.
  intros Hinv H. unfold resolve_or_merge_mapping_index in H.
  destruct (find_mapping_indices (images c) path mp) as [[pi mi]|] eqn:Hf; [|done].
  apply find_mapping_indices_spec in Hf as [Hpi Hmi].
  destruct pi as [p|]; symmetry in Hpi; symmetry in Hmi.
  - apply find_path_hit in Hpi as (pe & Hp & Hpv & Hpp).
    assert (Hothers : forall j e, j <> p -> images c !! j = Some e -> ic_valid e = true ->
      ic_path e <> path).
    { intros j e Hne Hj Hv. destruct (ci_unique _ Hinv j p e pe) as (? & _); congruence. }
    destruct mi as [m|].
    + apply find_mount_hit in Hmi as (me & Hm & Hmv & Hmm).
      destruct (Nat.eqb_spec p m) as [->|Hpm].
      * injection H as <- <- <-. split; [by left|]. split; [eauto|].
        intros j e Hne Hj Hv. split; [by eapply Hothers|].
        destruct (ci_unique _ Hinv j m e me) as (_ & ? & _); congruence.
      * rewrite Hp, Hm in H. destruct (_ || _) eqn:Hmeta; [done|]. bool_hyps.
        injection H as <- <- <-.
        assert (Hp' : <[m := zero_image]> (images c) !! p = Some pe)
          by by rewrite list_lookup_insert_ne.
        split.
        -- right. split_and!; [done|..|eauto 10].
           apply cache_steps_one, (CacheStep _ _ m me); [done|by constructor|done].
        -- split; [eauto|]. intros j e Hne [(-> & -> & _)|[Hj Hje]]%lookup_insert_cases Hv; [done|].
           split; [by eapply Hothers|].
           destruct (ci_unique _ Hinv j m e me) as (_ & ? & _); congruence.
    + injection H as <- <- <-. split; [by left|]. split; [eauto|].
      intros j e Hne Hj Hv. split; [by eapply Hothers|]. by eapply find_mount_miss.
  - injection H as <- <- <-. split; [by left|]. destruct mi as [m|].
    + apply find_mount_hit in Hmi as (me & Hm & Hmv & Hmm). split; [eauto|].
      intros j e Hne Hj Hv. split; [by eapply find_path_miss|].
      destruct (ci_unique _ Hinv j m e me) as (_ & ? & _); congruence.
    + intros j e Hj Hv. split; [by eapply find_path_miss|by eapply find_mount_miss].
Qed.

Definition others (acts : list action) : Prop := Forall (eq AOther) acts.

(** The effect of [upsert_image_source_mapping]: at most two steps, and on
    success the returned cell is valid and carries both names. *)
Definition upsert_post (c : image_cache) (path mp : string) (r : outcome nat)
    (c' : image_cache) : Prop :=
  exists acts, cache_steps acts c c' /\ (length acts <= 2)%nat /\ others acts /\
    forall i, r = Ok i -> exists e, images c' !! i = Some e /\ ic_valid e = true /\
      ic_path e = path /\ ic_mount_point e = mp.

Lemma upsert_post_err c path mp acts c' x :
  cache_steps acts c c' -> (length acts <= 2)%nat -> others acts ->
  upsert_post c path mp (Err x) c'.
Proof. intros. by exists acts. Qed.

Lemma upsert_post_go c path mp acts l k e e' g' :
  cache_steps acts c (Cache l (cache_generation c)) -> (length acts <= 1)%nat -> others acts ->
  l !! k = Some e -> cell_step AOther (cache_generation c) e e' g' -> key_free l k path mp ->
  ic_valid e' = true -> ic_path e' = path -> ic_mount_point e' = mp ->
  upsert_post c path mp (Ok k) (Cache (<[k := e']> l) g').
Proof.
  intros Hs Hlen Hoth Hk Hcs Hfree Hv Hp Hm. exists (acts ++ [AOther]). split_and!.
  - eapply cache_steps_app; [exact Hs|]. apply cache_steps_one.
    apply (CacheStep _ (Cache l (cache_generation c)) k e); [done|done|].
    intros _ _. by rewrite Hp, Hm.
  - rewrite length_app. simpl. lia.
  - apply Forall_app. split; [done|by repeat constructor].
  - intros n [= <-]. exists e'. simpl.
    rewrite list_lookup_insert_eq by by eapply lookup_lt_Some. done.
Qed.

Lemma resolve_pre c path mp i merged l : cache_inv c ->
  resolve_or_merge_mapping_index (images c) path mp = Ok (i, merged, l) ->
  exists acts, cache_steps acts c (Cache l (cache_generation c)) /\
    (length acts <= 1)%nat /\ others acts.
Proof.
  intros Hinv Hr. destruct (resolve_spec _ _ _ _ _ _ Hinv Hr) as [[[_ ->]|(_ & Hs & _)] _].
  - exists []. destruct c. split_and!; [constructor|simpl; lia|constructor].
  - exists [AOther]. split_and!; [done|simpl; lia|by repeat constructor].
Qed.

Lemma upsert_steps c path mp r c' : cache_inv c ->
  upsert_image_source_mapping c path mp = (r, c') -> upsert_post c path mp r c'.
Proof.
  intros Hinv H. unfold upsert_image_source_mapping in H.
  assert (Hnil : forall x, upsert_post c path mp (Err x) c).
  { intros x. apply (upsert_post_err _ _ _ []); [constructor|simpl; lia|constructor]. }
  destruct (strcmp_eq path "" || strcmp_eq mp "") eqn:E1; [by simplify_eq|].
  destruct ((MAX_PATH <=? strlen path)%nat || (MAX_PATH <=? strlen mp)%nat) eqn:E2;
    [by simplify_eq|].
  bool_hyps. rewrite !strcmp_eq_false in *. rewrite !Nat.leb_gt in *.
  destruct (resolve_or_merge_mapping_index (images c) path mp) as [[[i merged] l]|x] eqn:Hr;
    [|by simplify_eq].
  destruct (resolve_spec _ _ _ _ _ _ Hinv Hr) as [Hmerge Hkey].
  destruct (resolve_pre _ _ _ _ _ _ Hinv Hr) as (acts & Hs & Hlen & Hoth).
  assert (Hstop : forall x, upsert_post c path mp (Err x) (Cache l (cache_generation c))).
  { intros x. apply (upsert_post_err _ _ _ acts); [done|lia|done]. }
  destruct i as [n|].
  - destruct Hkey as [(e & He & Hv) Hfree]. rewrite He in H.
    set (changed := merged || _ || _) in H.
    destruct (negb (cache_entry_is_metadata_only e) && changed) eqn:Hb; [by simplify_eq|].
    destruct changed eqn:Hch; unfold changed in Hch; injection H as <- <-.
    + rewrite andb_true_r in Hb. apply negb_false_iff in Hb.
      eapply upsert_post_go; [done|done|done|done|by apply (step_remap _ e path mp)|done|done|
        by apply strlcpy_fits|by apply strlcpy_fits].
    + bool_hyps. rewrite !strcmp_eq_true in *.
      destruct Hmerge as [[_ ->]|(-> & _)]; [|done].
      assert (Hsame : set_mapping path mp (generation e) e = e).
      { destruct e; simpl in *; subst. unfold set_mapping. simpl.
        by rewrite !strlcpy_fits by done. }
      rewrite Hsame, list_insert_id by done. destruct c as [l0 g0]. simpl in *.
      exists []. split_and!; [constructor|simpl; lia|constructor|].
      intros k [= <-]. eauto.
  - destruct (find_index _ l) as [k|] eqn:Hfree; simplify_eq; [|done].
    apply find_index_hit in Hfree as (e & He & Hv). apply negb_true_iff in Hv.
    rewrite (list_alter_insert l k e) by done.
    eapply upsert_post_go; [done|done|done|done|by apply (step_map_new _ e path mp)| |done|
      by apply strlcpy_fits|by apply strlcpy_fits].
    intros j x _ Hj Hvx. by eapply Hkey.
Qed.

(** ** The public mutators as one transition function *)
Inductive image_op :=
  | IMap (path mp : string)
  | IBegin (path mp : string)
  | ICancel (path : string) (gen : Z)
  | IPublish (path : string) (gen unit : Z) (b : attach_backend_t)
  | IComplete (path : string) (gen unit : Z) (b : attach_backend_t)
  | IMount (path mp : string) (unit : Z) (b : attach_backend_t)
  | IMark (path : string) (gen unit : Z) (b : attach_backend_t)
  | IClaim (path : string) (gen unit : Z) (b : attach_backend_t)
  | IFinish (path : string) (gen unit : Z) (b : attach_backend_t) (d : detach_state_t)
  | IInvalidate (index : Z) (expected : ImageCache).

Definition run_image_op (ds : string -> option (Z * Z * Z)) (op : image_op) (c : image_cache) :
    image_cache :=
  match op with
  | IMap path mp => (cache_image_source_mapping c path mp).2
  | IBegin path mp => (begin_image_attachment c path mp).2
  | ICancel path gen => (cancel_image_attachment c path gen).2
  | IPublish path gen unit b => (publish_image_attachment ds c path gen unit b).2
  | IComplete path gen unit b => (complete_image_attachment ds c path gen unit b).2
  | IMount path mp unit b => (cache_image_mount ds c path mp unit b).2
  | IMark path gen unit b => (mark_image_cache_detach_requested ds c path gen unit b).2
  | IClaim path gen unit b => (claim_image_cache_detach ds c path gen unit b).2
  | IFinish path gen unit b d => (finish_image_cache_detach_attempt c path gen unit b d).2
  | IInvalidate index expected => (invalidate_image_cache_entry c index expected).2
  end.

(** A run: each call sees its own device nodes. *)
Fixpoint run_image_ops (ops : list ((string -> option (Z * Z * Z)) * image_op))
    (c : image_cache) : image_cache :=
  match ops with
  | [] => c
  | (ds, op) :: ops' => run_image_ops ops' (run_image_op ds op c)
  end.

Definition finishes (op : image_op) (gen : Z) : Prop :=
  exists path unit b d, op = IFinish path gen unit b d.
Definition mounts (op : image_op) (path : string) : Prop :=
  exists mount_point unit b, op = IMount path mount_point unit b.

(** A detach attempt is completed, and a device recorded as mounted, by their own calls only. *)
Definition allowed (op : image_op) (a : action) : Prop :=
  match a with AFinish gen => finishes op gen | AMount path => mounts op path | AOther => True end.

Definition op_steps (op : image_op) (c c' : image_cache) : Prop :=
  exists acts, cache_steps acts c c' /\ (length acts <= 3)%nat /\ Forall (allowed op) acts.

Lemma others_allowed op acts : others acts -> Forall (allowed op) acts.
Proof. intros H. eapply Forall_impl; [exact H|]. by intros a <-. Qed.

Lemma op_steps_refl op c : op_steps op c c.
Proof. exists []. split_and!; [constructor|simpl; lia|constructor]. Qed.

Lemma op_steps_one op c i e e' g' :
  images c !! i = Some e -> cell_step AOther (cache_generation c) e e' g' ->
  (ic_valid e' = true -> ic_path e' = ic_path e /\ ic_mount_point e' = ic_mount_point e) ->
  op_steps op c (Cache (<[i := e']> (images c)) g').
Proof.
  intros Hi Hs Hn. exists [AOther]. split_and!; [|simpl; lia|by repeat constructor].
  apply cache_steps_one. apply (CacheStep _ _ i e); [done|done|].
  intros Hv [Hp|Hp]; destruct (Hn Hv); congruence.
Qed.

Lemma op_steps_upsert op c c1 path mp r : upsert_post c path mp r c1 -> op_steps op c c1.
Proof.
  intros (acts & Hs & Hlen & Hoth & _). exists acts. split_and!; [done|lia|by apply others_allowed].
Qed.

Lemma op_steps_upsert_one op c c1 path mp i e a e' g' : allowed op a ->
  upsert_post c path mp (Ok i) c1 -> images c1 !! i = Some e ->
  cell_step a (cache_generation c1) e e' g' ->
  (ic_valid e' = true -> ic_path e' = ic_path e /\ ic_mount_point e' = ic_mount_point e) ->
  op_steps op c (Cache (<[i := e']> (images c1)) g').
Proof.
  intros Ha (acts & Hs & Hlen & Hoth & _) Hi Hcs Hn. exists (acts ++ [a]). split_and!.
  - eapply cache_steps_app; [exact Hs|]. apply cache_steps_one.
    apply (CacheStep _ _ i e); [done|done|]. intros Hv [Hp|Hp]; destruct (Hn Hv); congruence.
  - rewrite length_app. simpl. lia.
  - apply Forall_app. split; [by apply others_allowed|by repeat constructor].
Qed.

Lemma find_by_path_Some l path i e : find_by_path l path = Some (i, e) ->
  l !! i = Some e /\ ic_valid e = true /\ ic_path e = path.
Proof.
  unfold find_by_path. intros (n & Hn & (e' & He & [= <- <-])%bind_Some)%bind_Some.
  apply find_path_hit in Hn as (e'' & ? & ? & ?). by simplify_eq.
Qed.

Lemma find_attachment_Some l path gen unit b i e :
  find_attachment_record l path gen unit b = Some (i, e) ->
  l !! i = Some e /\ ic_valid e = true /\ ic_path e = path /\
  generation e = gen /\ unit_id e = unit /\ backend e = b.
Proof.
  unfold find_attachment_record. intros (n & Hn & (e' & He & H)%bind_Some)%bind_Some.
  destruct (_ || _) eqn:Hc; [done|]. injection H as <- <-. bool_hyps.
  apply find_path_hit in Hn as (e'' & ? & ? & ?). simplify_eq.
  split_and!; [done..|lia|lia|done].
Qed.

Lemma attachment_args gen unit b : negb (attachment_args_ok gen unit b) = false ->
  gen <> 0 /\ 0 <= unit /\ attach_backend_is_valid b = true.
Proof. unfold attachment_args_ok. intros. bool_hyps. split_and!; [lia..|done]. Qed.

Lemma map_steps ds c path mp : cache_inv c ->
  op_steps (IMap path mp) c (run_image_op ds (IMap path mp) c).
Proof.
  intros Hinv. simpl. unfold cache_image_source_mapping.
  destruct (upsert_image_source_mapping c path mp) as [r c1] eqn:Hup.
  apply upsert_steps in Hup; [|done]. destruct r; by eapply op_steps_upsert.
Qed.

Lemma begin_steps ds c path mp : cache_inv c ->
  op_steps (IBegin path mp) c (run_image_op ds (IBegin path mp) c).
Proof.
  intros Hinv. simpl. unfold begin_image_attachment.
  destruct (upsert_image_source_mapping c path mp) as [[i|x] c1] eqn:Hup;
    (apply upsert_steps in Hup; [|done]); [|by eapply op_steps_upsert].
  destruct (images c1 !! i) as [e|] eqn:Hi; [|by eapply op_steps_upsert].
  destruct (cache_entry_is_metadata_only e) eqn:Hm; simpl; [|by eapply op_steps_upsert].
  assert (Hv : ic_valid e = true).
  { destruct Hup as (_ & _ & _ & _ & Hok). destruct (Hok i eq_refl) as (e' & ? & ? & _).
    by simplify_eq. }
  eapply (op_steps_upsert_one _ _ _ _ _ _ _ AOther); [done|done|done|by apply step_reserve|done].
Qed.

Lemma cancel_steps ds c path gen : cache_inv c ->
  op_steps (ICancel path gen) c (run_image_op ds (ICancel path gen) c).
Proof.
  intros Hinv. simpl. unfold cancel_image_attachment. destruct (gen =? 0); [apply op_steps_refl|].
  destruct (find_by_path (images c) path) as [[i e]|] eqn:Hf; [|apply op_steps_refl].
  apply find_by_path_Some in Hf as (Hi & Hv & _).
  destruct (is_reservation gen e) eqn:Hr; simpl; [|apply op_steps_refl].
  eapply op_steps_one; [done|by eapply step_cancel|done].
Qed.

Lemma publish_steps ds c path gen u b : cache_inv c ->
  op_steps (IPublish path gen u b) c (run_image_op ds (IPublish path gen u b) c).
Proof.
  intros Hinv. simpl. unfold publish_image_attachment. destruct (negb _) eqn:Ha; [apply op_steps_refl|].
  apply attachment_args in Ha as (_ & Hu & Hb).
  destruct (find_by_path (images c) path) as [[i e]|] eqn:Hf; [|apply op_steps_refl].
  apply find_by_path_Some in Hf as (Hi & Hv & _).
  destruct (is_reservation gen e) eqn:Hr; simpl; [|apply op_steps_refl].
  destruct (refresh_attached_unit_identity _ _) as [e' k] eqn:Hrf.
  apply refresh_spec in Hrf as (d & -> & Hd & _). simpl in *.
  eapply op_steps_one; [done|by apply (step_publish _ e gen u b d)|done].
Qed.

Lemma complete_steps ds c path gen u b : cache_inv c ->
  op_steps (IComplete path gen u b) c (run_image_op ds (IComplete path gen u b) c).
Proof.
  intros Hinv. simpl. unfold complete_image_attachment. destruct (negb _) eqn:Ha; [apply op_steps_refl|].
  apply attachment_args in Ha as (_ & Hu & Hb).
  destruct (find_attachment_record _ _ _ _ _) as [[i e]|] eqn:Hf; [|apply op_steps_refl].
  apply find_attachment_Some in Hf as (Hi & Hv & _ & _ & <- & <-).
  destruct (bool_decide _) eqn:Hst; simpl; [|apply op_steps_refl]. bool_hyps.
  destruct (refresh_attached_unit_identity _ _) as [e' k] eqn:Hrf.
  apply refresh_spec in Hrf as (d & -> & Hd & _). simpl in *.
  eapply op_steps_one; [done|by apply (step_complete _ e d)|done].
Qed.

Lemma mount_steps ds c path mp u b : cache_inv c ->
  op_steps (IMount path mp u b) c (run_image_op ds (IMount path mp u b) c).
Proof.
  intros Hinv. simpl. unfold cache_image_mount. destruct (_ || _) eqn:Ha; [apply op_steps_refl|]. bool_hyps.
  destruct (upsert_image_source_mapping c path mp) as [[i|x] c1] eqn:Hup;
    (apply upsert_steps in Hup; [|done]); [|by eapply op_steps_upsert].
  destruct (images c1 !! i) as [e|] eqn:Hi; [|by eapply op_steps_upsert]. simpl.
  assert (Hv : ic_valid e = true /\ ic_path e = path).
  { destruct Hup as (_ & _ & _ & _ & Hok). destruct (Hok i eq_refl) as (e' & ? & ? & ? & _).
    by simplify_eq. }
  destruct Hv as [Hv <-]. unfold reset_attached_unit_identity.
  destruct (refresh_attached_unit_identity _ _) as [e' k] eqn:Hrf.
  apply refresh_spec in Hrf as (d & -> & Hd & _). simpl in *.
  eapply (op_steps_upsert_one _ _ _ _ _ _ _ (AMount (ic_path e))); [by eexists _, _, _|done|done|apply (step_mount _ e u b d); [done|lia|done..]|done].
Qed.

Lemma mark_steps ds c path gen u b : cache_inv c ->
  op_steps (IMark path gen u b) c (run_image_op ds (IMark path gen u b) c).
Proof.
  intros Hinv. simpl. unfold mark_image_cache_detach_requested. destruct (negb _) eqn:Ha; [apply op_steps_refl|].
  apply attachment_args in Ha as (_ & Hu & Hb).
  destruct (find_attachment_record _ _ _ _ _) as [[i e]|] eqn:Hf; [|apply op_steps_refl].
  apply find_attachment_Some in Hf as (Hi & Hv & _ & _ & <- & <-).
  destruct (refresh_attached_unit_identity _ _) as [e' k] eqn:Hrf.
  apply refresh_spec in Hrf as (d & -> & Hd & _). simpl in *.
  eapply op_steps_one; [done|by apply (step_mark _ e d)|done].
Qed.

Lemma claim_steps ds c path gen u b : cache_inv c ->
  op_steps (IClaim path gen u b) c (run_image_op ds (IClaim path gen u b) c).
Proof.
  intros Hinv. simpl. unfold claim_image_cache_detach. destruct (negb _) eqn:Ha; [apply op_steps_refl|].
  apply attachment_args in Ha as (_ & Hu & Hb).
  destruct (find_attachment_record _ _ _ _ _) as [[i e]|] eqn:Hf; [|apply op_steps_refl].
  apply find_attachment_Some in Hf as (Hi & Hv & _ & _ & <- & <-).
  destruct (detach_attempt_active e) eqn:Hact; [apply op_steps_refl|].
  destruct (refresh_attached_unit_identity ds e) as [e' k] eqn:Hrf.
  pose proof Hrf as Hrf'. apply refresh_spec in Hrf as (d & -> & Hd & Hk).
  destruct k; simpl.
  - eapply op_steps_one; [done|by apply (step_claim _ e d); auto|done].
  - assert (Hsame : (refresh_attached_unit_identity ds e).2 = false ->
      (refresh_attached_unit_identity ds e).1 = e).
    { clear. unfold refresh_attached_unit_identity. case_match; [done|]. case_match; [done|].
      destruct (ds _) as [[[? ?] ?]|]; simpl; [discriminate|done]. }
    rewrite Hrf' in Hsame. simpl in Hsame. rewrite Hsame by done. unfold put_image.
    rewrite list_insert_id by done. destruct c. apply op_steps_refl.
Qed.

Lemma finish_steps ds c path gen u b d : cache_inv c ->
  op_steps (IFinish path gen u b d) c (run_image_op ds (IFinish path gen u b d) c).
Proof.
  intros Hinv. simpl. unfold finish_image_cache_detach_attempt. destruct (_ || _) eqn:Ha; [apply op_steps_refl|].
  apply orb_false_iff in Ha as [Ha _]. apply attachment_args in Ha as (_ & Hu & Hb).
  destruct (find_attachment_record _ _ _ _ _) as [[i e]|] eqn:Hf; [|apply op_steps_refl].
  apply find_attachment_Some in Hf as (Hi & Hv & _ & <- & <- & <-).
  destruct (_ || _) eqn:Hc; [apply op_steps_refl|]. bool_hyps. simpl.
  exists [AFinish (generation e)]. split_and!; [|simpl; lia|apply Forall_singleton; by eexists _, _, _, _].
  apply cache_steps_one, (CacheStep _ _ i e); [done|by apply step_finish|].
  intros _ [Hx|Hx]; by destruct Hx.
Qed.

Lemma invalidate_steps ds c index expected : cache_inv c ->
  op_steps (IInvalidate index expected) c (run_image_op ds (IInvalidate index expected) c).
Proof.
  intros Hinv. simpl. unfold invalidate_image_cache_entry. destruct (_ || _); [apply op_steps_refl|].
  destruct (images c !! Z.to_nat index) as [e|] eqn:Hi; [|apply op_steps_refl].
  destruct (ic_valid e) eqn:Hv; simpl; [|apply op_steps_refl].
  destruct (_ || _) eqn:Hc; [apply op_steps_refl|]. simpl. bool_hyps.
  match goal with H : device_identity_matches _ _ = true |- _ =>
    apply identity_matches_valid in H as [? _] end.
  eapply op_steps_one; [done|by apply step_invalidate|done].
Qed.

Lemma image_op_steps ds op c : cache_inv c -> op_steps op c (run_image_op ds op c).
Proof.
  destruct op; [apply map_steps|apply begin_steps|apply cancel_steps|apply publish_steps
    |apply complete_steps|apply mount_steps|apply mark_steps|apply claim_steps
    |apply finish_steps|apply invalidate_steps].
Qed.

(** ** Runs *)
Lemma empty_cache_inv : cache_inv empty_cache.
Proof.
  assert (Hz : forall i e, images empty_cache !! i = Some e -> e = zero_image).
  { intros i e H. cbn [images empty_cache] in H. by apply lookup_replicate_1 in H as [-> _]. }
  split.
  - apply length_replicate.
  - intros i e H _. eauto.
  - intros i e H Hv. rewrite (Hz _ _ H) in Hv. done.
  - intros i j e e' _ H _ Hv. rewrite (Hz _ _ H) in Hv. done.
  - done.
Qed.

Lemma run_op_inv ds op c : cache_inv c -> cache_generation c + 3 <= UINT64_MAX ->
  cache_inv (run_image_op ds op c) /\
  cache_generation c <= cache_generation (run_image_op ds op c) <= cache_generation c + 3.
Proof.
  intros Hinv Hroom. destruct (image_op_steps ds op c Hinv) as (acts & Hs & Hlen & _).
  destruct (cache_steps_inv _ _ _ Hs Hinv ltac:(lia)) as [? ?]. split; [done|lia].
Qed.

Lemma run_ops_inv ops c : cache_inv c ->
  cache_generation c + 3 * Z.of_nat (length ops) <= UINT64_MAX ->
  cache_inv (run_image_ops ops c) /\
  cache_generation c <= cache_generation (run_image_ops ops c) <=
    cache_generation c + 3 * Z.of_nat (length ops).
Proof.
  revert c. induction ops as [|[ds op] ops IH]; intros c Hinv Hroom; simpl in *; [split; [done|lia]|].
  destruct (run_op_inv ds op c Hinv ltac:(lia)) as [H1 Hg1].
  destruct (IH _ H1 ltac:(lia)) as [H2 Hg2]. split; [done|lia].
Qed.

(** ** Exclusive detach attempts *)

(** Generation [gen] was handed out, and the cell that still carries it (if
    any) has a detach attempt in progress. *)
Definition claimed (gen : Z) (c : image_cache) : Prop :=
  0 < gen <= cache_generation c /\
  forall i e, images c !! i = Some e -> ic_valid e = true -> generation e = gen ->
    detach_attempt_active e = true.

Lemma cell_step_claimed a g e e' g' gen :
  cell_step a g e e' g' -> 0 <= g < UINT64_MAX -> a <> AFinish gen -> gen <= g ->
  (ic_valid e = true -> generation e = gen -> detach_attempt_active e = true) ->
  ic_valid e' = true -> generation e' = gen -> detach_attempt_active e' = true.
Proof.
  intros Hs Hg Ha Hle Hact Hv Hgen. destruct Hs; simpl in *; try done;
    rewrite ?next_generation in * by lia; try lia; eauto; congruence.
Qed.

Lemma cache_step_claimed a gen c c' : cache_step a c c' -> cache_inv c ->
  cache_generation c < UINT64_MAX -> a <> AFinish gen -> claimed gen c -> claimed gen c'.
Proof.
  intros Hs Hinv Hroom Ha [Hgen Hcl].
  destruct (cache_step_inv _ _ _ Hs Hinv Hroom) as [_ Hg]. destruct Hs as [i e e' g' Hi Hcs _].
  simpl in Hg. split; [simpl; lia|]. simpl.
  intros j x [(-> & -> & _)|[_ Hj]]%lookup_insert_cases Hv Hx; [|eauto].
  eapply cell_step_claimed; [done|..|done|done]; [|done|lia|eauto].
  pose proof (ci_gen _ Hinv). lia.
Qed.

Lemma cache_steps_claimed acts gen c c' : cache_steps acts c c' -> cache_inv c ->
  cache_generation c + Z.of_nat (length acts) <= UINT64_MAX -> AFinish gen ∉ acts ->
  claimed gen c -> claimed gen c'.
Proof.
  induction 1 as [c|a acts c c1 c2 Hs Hss IH]; intros Hinv Hroom Hno Hcl; [done|].
  simpl in Hroom. apply not_elem_of_cons in Hno as [Ha Hno].
  destruct (cache_step_inv _ _ _ Hs Hinv ltac:(lia)) as [Hinv1 Hg1].
  apply IH; [done|lia|done|]. eapply cache_step_claimed; [done|done|lia|congruence|done].
Qed.

Lemma run_ops_claimed ops gen c : cache_inv c ->
  cache_generation c + 3 * Z.of_nat (length ops) <= UINT64_MAX ->
  Forall (fun o => ~ finishes o.2 gen) ops -> claimed gen c -> claimed gen (run_image_ops ops c).
Proof.
  revert c. induction ops as [|[ds op] ops IH]; intros c Hinv Hroom Hno Hcl; simpl in *; [done|].
  apply Forall_cons in Hno as [Hop Hno].
  destruct (run_op_inv ds op c Hinv ltac:(lia)) as [H1 Hg1]. apply IH; [done|lia|done|].
  destruct (image_op_steps ds op c Hinv) as (acts & Hs & Hlen & Hf).
  eapply cache_steps_claimed; [done|done|lia| |done].
  intros Hin. rewrite Forall_forall in Hf. by apply Hf in Hin.
Qed.

(** How a detach attempt ends, for the cell that has it. *)
Lemma cell_claim_ends a g e e' g' : cell_step a g e e' g' -> entry_ok e -> ic_valid e = true -> detach_attempt_active e = true ->
  (a = AFinish (generation e) \/ a = AMount (ic_path e)) \/
  (ic_valid e' = true /\ detach_attempt_active e' = true /\ generation e' = generation e /\ ic_path e' = ic_path e).
Proof.
  intros Hs Hok Hv Hact. destruct (eo_active _ Hok Hact) as [Hst _].
  assert (Hmeta : cache_entry_is_metadata_only e = false).
  { destruct (cache_entry_is_metadata_only e) eqn:Hm; [|done]. apply metadata_only_spec in Hm as (_ & _ & ?). congruence. }
  assert (Hres : forall gen, is_reservation gen e = false) by (intros gen; unfold is_reservation; rewrite Hst; by rewrite andb_false_r || done).
  destruct Hs; rewrite ?Hres in *; try congruence; try (by left; auto); by right.
Qed.

Lemma claim_ends_steps acts c c' i e : cache_steps acts c c' -> cache_inv c -> cache_generation c + Z.of_nat (length acts) <= UINT64_MAX ->
  images c !! i = Some e -> ic_valid e = true -> detach_attempt_active e = true ->
  (AFinish (generation e) ∈ acts \/ AMount (ic_path e) ∈ acts) \/
  exists e', images c' !! i = Some e' /\ ic_valid e' = true /\ detach_attempt_active e' = true /\ generation e' = generation e.
Proof.
  intros Hs. revert e. induction Hs as [c|a acts c c1 c2 Hs Hss IH]; intros e Hinv Hroom Hi Hv Hact; [right; by exists e|]. cbn [length] in Hroom.
  destruct (cache_step_inv _ _ _ Hs Hinv ltac:(lia)) as [Hinv1 Hg1].
  assert (Hcell : (a = AFinish (generation e) \/ a = AMount (ic_path e)) \/
    exists e1, images c1 !! i = Some e1 /\ ic_valid e1 = true /\ detach_attempt_active e1 = true /\ generation e1 = generation e /\ ic_path e1 = ic_path e).
  { destruct Hs as [j x x' g' Hj Hcs Hfree]. destruct (decide (j = i)) as [->|Hne].
    - assert (x = e) as -> by congruence. destruct (cell_claim_ends _ _ _ _ _ Hcs (proj1 (ci_entry _ Hinv _ _ Hi Hv)) Hv Hact) as [?|H]; [by left|right].
      exists x'. cbn [images]. by rewrite list_lookup_insert_eq by (by eapply lookup_lt_Some).
    - right. exists e. cbn [images]. by rewrite list_lookup_insert_ne. }
  destruct Hcell as [[-> | ->]|(e1 & Hi1 & Hv1 & Ha1 & Hg & Hp)].
  - left. left. by apply elem_of_cons; left.
  - left. right. by apply elem_of_cons; left.
  - destruct (IH e1 Hinv1 ltac:(lia) Hi1 Hv1 Ha1) as [[H|H]|H]; rewrite ?Hg, ?Hp in *.
    + left. left. by apply elem_of_cons; right.
    + left. right. by apply elem_of_cons; right.
    + by right.
Qed.

Lemma claim_ok_inv ds c path gen u b e c1 :
  claim_image_cache_detach ds c path gen u b = (Ok e, c1) -> cache_inv c ->
  exists i e0, images c !! i = Some e0 /\ ic_valid e0 = true /\ generation e0 = gen /\
    gen <> 0 /\ detach_attempt_active e0 = false /\ c1 = put_image c i e /\
    generation e = gen /\ detach_attempt_active e = true /\
    node_identity_valid (detach_state e) = true.
Proof.
  intros H Hinv. unfold claim_image_cache_detach in H. destruct (negb _) eqn:Ha; [done|].
  apply attachment_args in Ha as (Hg & Hu & Hb).
  destruct (find_attachment_record _ _ _ _ _) as [[i e0]|] eqn:Hf; [|done].
  apply find_attachment_Some in Hf as (Hi & Hv & _ & <- & <- & <-).
  destruct (detach_attempt_active e0) eqn:Hact; [done|].
  destruct (refresh_attached_unit_identity ds e0) as [e' k] eqn:Hrf.
  apply refresh_spec in Hrf as (d & -> & Hd & Hk).
  destruct k; simpl in H; [|done]. injection H as <- <-. exists i, e0. simpl.
  split_and!; try done. by apply Hk.
Qed.

Lemma claim_claimed ds c path gen u b e c1 : cache_inv c ->
  claim_image_cache_detach ds c path gen u b = (Ok e, c1) -> claimed gen c1.
Proof.
  intros Hinv (i & e0 & Hi & Hv & Hg & Hne & Hna & -> & Hge & Hact & _)%claim_ok_inv; [|done].
  destruct (ci_entry _ Hinv i e0 Hi Hv) as [Ho Hle]. pose proof (eo_gen _ Ho).
  split; [simpl; lia|]. simpl. intros j x [(-> & -> & _)|[Hji Hj]]%lookup_insert_cases Hvx Hx; [done|].
  destruct (ci_unique _ Hinv j i x e0 Hji Hj Hi Hvx Hv) as (_ & _ & Hneq). congruence.
Qed.

(** ** Owners of a path *)

(** Cell [e] owns [path]: the path is its mount point or lies below it. *)
Definition owns (e : ImageCache) (path : string) : bool :=
  ic_valid e && has_prefix path (ic_mount_point e) &&
  (bool_decide (char_at path (strlen (ic_mount_point e)) = None) ||
   bool_decide (char_at path (strlen (ic_mount_point e)) = Some slash)).

(** [r] is a best owner among the first cells, or none owns a name longer
    than [base]. *)
Definition best_owner (l : list ImageCache) (path : string) (base : nat) (r : option nat) : Prop :=
  match r with
  | Some i => exists e, l !! i = Some e /\ owns e path = true /\
      (base < strlen (ic_mount_point e))%nat /\
      forall j e', l !! j = Some e' -> owns e' path = true ->
        (strlen (ic_mount_point e') <= strlen (ic_mount_point e))%nat
  | None => forall j e', l !! j = Some e' -> owns e' path = true ->
      (strlen (ic_mount_point e') <= base)%nat
  end.

Lemma best_owner_skip x l path base r : owns x path = false \/ (strlen (ic_mount_point x) <= base)%nat ->
  best_owner l path base r -> best_owner (x :: l) path base (S <$> r).
Proof.
  intros Hx Hb. destruct r as [i|]; simpl in *.
  - destruct Hb as (e & Hi & Ho & Hlt & Hmax). exists e. split_and!; [done..|].
    intros [|j] e' Hj Hoj; simpl in Hj; [|eauto]. injection Hj as <-.
    destruct Hx as [Hx|Hx]; [congruence|lia].
  - intros [|j] e' Hj Hoj; simpl in Hj; [|eauto]. injection Hj as <-.
    destruct Hx as [Hx|Hx]; [congruence|lia].
Qed.

Lemma find_owning_from_spec path k l best blen : exists r,
  best_owner l path blen r /\
  find_owning_from path k l best blen =
    match r with Some i => Some (k + i)%nat | None => best end.
Proof.
  revert k best blen. induction l as [|x l IH]; intros k best blen.
  { exists None. split; [|done]. intros j e' Hj. by rewrite lookup_nil in Hj. }
  assert (Hskip : owns x path = false \/ (strlen (ic_mount_point x) <= blen)%nat ->
    exists r, best_owner (x :: l) path blen r /\
      find_owning_from path (S k) l best blen =
        match r with Some i => Some (k + i)%nat | None => best end).
  { intros Hx. destruct (IH (S k) best blen) as (r & Hr & ->). exists (S <$> r).
    split; [by apply best_owner_skip|]. destruct r; simpl; [f_equal; lia|done]. }
  simpl. destruct (negb (ic_valid x)) eqn:Hv.
  { apply Hskip. left. apply negb_true_iff in Hv. unfold owns. by rewrite Hv. }
  destruct ((_ <=? _)%nat || _) eqn:E1.
  { apply Hskip. apply orb_true_iff in E1 as [E|E]; [right; by apply Nat.leb_le in E|left].
    apply negb_true_iff in E. unfold owns. rewrite E. by rewrite andb_false_r. }
  destruct (bool_decide (char_at _ _ = None) || _) eqn:E2.
  2: { apply Hskip. left. unfold owns. rewrite E2. by rewrite andb_false_r. }
  apply orb_false_iff in E1 as [El Ep]. apply Nat.leb_gt in El.
  apply negb_false_iff in Ep, Hv.
  assert (Ho : owns x path = true) by (unfold owns; by rewrite Hv, Ep, E2).
  destruct (IH (S k) (Some k) (strlen (ic_mount_point x))) as (r & Hr & ->).
  destruct r as [i|]; simpl in Hr.
  - destruct Hr as (e & Hi & Hoe & Hlt & Hmax). exists (Some (S i)). split; [|f_equal; lia].
    exists e. split_and!; [done..|lia|]. intros [|j] e' Hj Hoj; simpl in Hj; [|eauto].
    injection Hj as <-. lia.
  - exists (Some 0%nat). split; [|f_equal; lia]. exists x. split_and!; [done..|].
    intros [|j] e' Hj Hoj; simpl in Hj; [by simplify_eq|eauto].
Qed.

Lemma find_owning_spec l path : best_owner l path 0 (find_owning_cache_index l path).
Proof.
  destruct (find_owning_from_spec path 0 l None 0) as (r & Hr & Hf).
  unfold find_owning_cache_index. rewrite Hf. by destruct r.
Qed.

(** Each link of a chain is the best owner of the previous source path. *)
Fixpoint chain_of (l : list ImageCache) (path : string) (chain : list nat) : Prop :=
  match chain with
  | [] => True
  | i :: chain' => best_owner l path 0 (Some i) /\ chain_of l (strlcpy (path_of l i) MAX_PATH) chain'
  end.

Lemma owning_chain_spec fuel l path :
  chain_of l path (owning_chain fuel l path) /\
  (length (owning_chain fuel l path) <= fuel)%nat /\
  ((length (owning_chain fuel l path) < fuel)%nat ->
   find_owning_cache_index l
     (from_option (fun i => strlcpy (path_of l i) MAX_PATH) path
        (last (owning_chain fuel l path))) = None).
Proof.
  revert path. induction fuel as [|fuel IH]; intros path; simpl; [split_and!; [done|lia|lia]|].
  pose proof (find_owning_spec l path) as Hown.
  destruct (find_owning_cache_index l path) as [i|] eqn:Hf; simpl; [|split_and!; [done|lia|done]].
  destruct (IH (strlcpy (path_of l i) MAX_PATH)) as (Hc & Hlen & Hend). unfold path_of in *.
  split_and!; [exact Hown|done|lia|]. intros Hlt. specialize (Hend ltac:(lia)).
  destruct (owning_chain fuel l _) as [|j ch]; [done|].
  rewrite last_cons_cons. destruct (last_is_Some (j :: ch)) as [_ [x Hx]]; [done|].
  by rewrite Hx in Hend |- *.
Qed.

(** * Theorems *)

(** Claim C26: the device life cycle.  On every table that keeps the cache
    invariant (as every run from the zeroed cache leaves it, by
    [image_cache_invariant]), every public mutator of the cache (whatever its
    arguments and whatever the device nodes look like) is a sequence of at most
    three transitions of the device state machine [cell_step] applied to single
    cells that keep their names unique.  A detach attempt in progress is still
    in progress in the same cell after the call, unless the call is
    [finish_image_cache_detach_attempt] for that generation, or
    [cache_image_mount] for that image, which may record it anew (while the
    64-bit generation counter has room not to wrap). *)
Theorem image_api_follows_state_machine ds op c : cache_inv c ->
  op_steps op c (run_image_op ds op c) /\
  forall i e, cache_generation c + 3 <= UINT64_MAX ->
    images c !! i = Some e -> ic_valid e = true -> detach_attempt_active e = true ->
    (finishes op (generation e) \/ mounts op (ic_path e)) \/
    exists e', images (run_image_op ds op c) !! i = Some e' /\ ic_valid e' = true /\
      detach_attempt_active e' = true /\ generation e' = generation e.
Proof.
  intros Hinv. pose proof (image_op_steps ds op c Hinv) as Hop. split; [exact Hop|].
  intros i e Hroom Hi Hv Ha. destruct Hop as (acts & Hs & Hlen & Hall). rewrite Forall_forall in Hall.
  destruct (claim_ends_steps acts c _ i e Hs Hinv ltac:(lia) Hi Hv Ha) as [[H|H]|H];
    [left; left; exact (Hall _ H)|left; right; exact (Hall _ H)|by right].
Qed.

(** every run of the cache API from the zeroed cache keeps the
    cache invariant: 2048 cells, invalid cells zeroed, valid cells with
    distinct source paths, mount points and generations, non-empty names that
    fit MAX_PATH, a device exactly in the states that have one, a claim only on
    an identified device whose detach was requested.  The bound leaves the
    64-bit generation counter room not to wrap. *)
Theorem image_cache_invariant ops : 3 * Z.of_nat (length ops) <= UINT64_MAX ->
  cache_inv (run_image_ops ops empty_cache).
Proof. intros H. by apply run_ops_inv; [apply empty_cache_inv|]. Qed.

(** Claim C3: a detach attempt is exclusive.  After
    [claim_image_cache_detach] succeeded for a generation, no sequence of cache
    calls (from any thread, on any entry) other than the matching finish call
    lets a second claim of that generation succeed: the entry is either still
    claimed or has been replaced under a new generation. *)
Theorem detach_claim_exclusive ds c path gen u b e c1 ops ds' path' u' b' e' c2 :
  cache_inv c -> claim_image_cache_detach ds c path gen u b = (Ok e, c1) ->
  cache_generation c + 3 * Z.of_nat (length ops) + 3 <= UINT64_MAX ->
  Forall (fun o => ~ finishes o.2 gen) ops ->
  claim_image_cache_detach ds' (run_image_ops ops c1) path' gen u' b' <> (Ok e', c2).
Proof.
  intros Hinv Hcl Hroom Hno H2. pose proof (claim_claimed _ _ _ _ _ _ _ _ Hinv Hcl) as Hc1.
  destruct (run_op_inv ds (IClaim path gen u b) c Hinv ltac:(lia)) as [Hinv1 Hg1].
  simpl in Hinv1, Hg1. rewrite Hcl in Hinv1, Hg1. simpl in *.
  destruct (run_ops_claimed ops gen c1 Hinv1 ltac:(lia) Hno Hc1) as [_ Hact].
  destruct (run_ops_inv ops c1 Hinv1 ltac:(lia)) as [Hinv2 _].
  apply claim_ok_inv in H2 as (i & e0 & Hi & Hv & Hg & _ & Hna & _); [|done].
  specialize (Hact i e0 Hi Hv Hg). congruence.
Qed.

(** [find_owning_cache_index] picks an entry that owns the path
    with the longest mount point of all the owning entries, and finds none
    exactly when no valid entry with a non-empty mount point owns it. *)
Theorem find_owning_cache_index_longest l path :
  match find_owning_cache_index l path with
  | Some i => exists e, l !! i = Some e /\ owns e path = true /\
      forall j e', l !! j = Some e' -> owns e' path = true ->
        (strlen (ic_mount_point e') <= strlen (ic_mount_point e))%nat
  | None => forall j e', l !! j = Some e' -> owns e' path = true ->
      strlen (ic_mount_point e') = 0%nat
  end.
Proof.
  pose proof (find_owning_spec l path) as H. destruct (find_owning_cache_index l path); simpl in H.
  - destruct H as (e & ? & ? & _ & ?). eauto.
  - intros j e' Hj Ho. specialize (H j e' Hj Ho). lia.
Qed.

(** the chain of nested image sources.  It has at most
    MAX_IMAGE_CHAIN_DEPTH links, each link is the longest owner of the previous
    source path, the chain only stops early at a path nothing owns, and the
    outermost source is the source of its last link. *)
Theorem owning_chain_complete c path size : (0 < size)%nat ->
  let chain := find_owning_chain_indices (images c) path in
  (length chain <= MAX_IMAGE_CHAIN_DEPTH)%nat /\
  chain_of (images c) (strlcpy path MAX_PATH) chain /\
  length (resolve_image_source_chain_from_mount_cache c path) = length chain /\
  ((length chain < MAX_IMAGE_CHAIN_DEPTH)%nat ->
   find_owning_cache_index (images c)
     (from_option (fun i => strlcpy (path_of (images c) i) MAX_PATH) (strlcpy path MAX_PATH)
        (last chain)) = None) /\
  resolve_outermost_image_source_from_mount_cache c path size =
    (fun i => strlcpy (path_of (images c) i) size) <$> last chain.
Proof.
  intros Hsize chain. unfold chain, find_owning_chain_indices.
  destruct (owning_chain_spec MAX_IMAGE_CHAIN_DEPTH (images c) (strlcpy path MAX_PATH))
    as (Hc & Hlen & Hend).
  split_and!; [done|done| |done|].
  - unfold resolve_image_source_chain_from_mount_cache. by rewrite length_fmap, length_reverse.
  - unfold resolve_outermost_image_source_from_mount_cache.
    destruct (Nat.eqb_spec size 0); [lia|done].
Qed.

(** ** Concrete runs *)
Definition demo_stat (node : string) : option (Z * Z * Z) :=
  if strcmp_eq node "/dev/lvd3" then Some (7, 42, 9) else None.

(** Map, reserve, publish and complete one image; another is mapped inside it. *)
Definition demo_ops : list ((string -> option (Z * Z * Z)) * image_op) :=
  [(demo_stat, IMap "/data/a.ffpkg" "/mnt/a");
   (demo_stat, IBegin "/data/a.ffpkg" "/mnt/a");
   (demo_stat, IPublish "/data/a.ffpkg" 2 3 ATTACH_BACKEND_LVD);
   (demo_stat, IComplete "/data/a.ffpkg" 2 3 ATTACH_BACKEND_LVD);
   (demo_stat, IMount "/mnt/a/b.exfat" "/mnt/b" 5 ATTACH_BACKEND_MD)].

Definition demo_cache : image_cache := run_image_ops demo_ops empty_cache.

Definition demo_claimed : ImageCache :=
  mkImage 2 "/data/a.ffpkg" "/mnt/a" 3 ATTACH_BACKEND_LVD ATTACHED_DEVICE_DETACH_REQUESTED
    (DetachState false true 7 42 9) true true.

Lemma demo_cache_inv : cache_inv demo_cache.
Proof. apply run_ops_inv; [apply empty_cache_inv|vm_compute; discriminate]. Qed.

Lemma image_api_follows_state_machine_witness : cache_inv demo_cache /\
  op_steps (IClaim "/data/a.ffpkg" 2 3 ATTACH_BACKEND_LVD) demo_cache
    (run_image_op demo_stat (IClaim "/data/a.ffpkg" 2 3 ATTACH_BACKEND_LVD) demo_cache).
Proof.
  split; [exact demo_cache_inv|].
  destruct (image_api_follows_state_machine demo_stat (IClaim "/data/a.ffpkg" 2 3 ATTACH_BACKEND_LVD) demo_cache demo_cache_inv) as [H _]. exact H.
Defined.

Lemma image_cache_invariant_witness :
  3 * Z.of_nat (length demo_ops) <= UINT64_MAX /\ cache_inv (run_image_ops demo_ops empty_cache) /\
  count_if ic_valid (images demo_cache) = 2%nat.
Proof.
  split; [vm_compute; discriminate|]. split; [|vm_compute; reflexivity].
  apply image_cache_invariant. vm_compute. discriminate.
Defined.

Definition demo_after_claim : image_cache :=
  (claim_image_cache_detach demo_stat demo_cache "/data/a.ffpkg" 2 3 ATTACH_BACKEND_LVD).2.

Lemma detach_claim_exclusive_witness :
  claim_image_cache_detach demo_stat demo_cache "/data/a.ffpkg" 2 3 ATTACH_BACKEND_LVD =
    (Ok demo_claimed, demo_after_claim) /\
  claim_image_cache_detach demo_stat
    (run_image_ops [(demo_stat, IMark "/data/a.ffpkg" 2 3 ATTACH_BACKEND_LVD)] demo_after_claim)
    "/data/a.ffpkg" 2 3 ATTACH_BACKEND_LVD <> (Ok demo_claimed, demo_after_claim).
Proof.
  assert (H : claim_image_cache_detach demo_stat demo_cache "/data/a.ffpkg" 2 3 ATTACH_BACKEND_LVD =
    (Ok demo_claimed, demo_after_claim)) by (vm_compute; reflexivity).
  split; [exact H|].
  apply (detach_claim_exclusive demo_stat demo_cache "/data/a.ffpkg" 2 3 ATTACH_BACKEND_LVD
    demo_claimed demo_after_claim); [exact demo_cache_inv|exact H|vm_compute; discriminate|].
  repeat constructor. simpl. intros (? & ? & ? & ? & ?). discriminate.
Defined.

Lemma owning_chain_complete_witness :
  find_owning_chain_indices (images demo_cache) "/mnt/b/eboot.bin" = [1; 0]%nat /\
  resolve_outermost_image_source_from_mount_cache demo_cache "/mnt/b/eboot.bin" 1024 =
    (fun i => strlcpy (path_of (images demo_cache) i) 1024) <$>
      last (find_owning_chain_indices (images demo_cache) "/mnt/b/eboot.bin").
Proof.
  split; [vm_compute; reflexivity|].
  apply (owning_chain_complete demo_cache "/mnt/b/eboot.bin" 1024). lia.
Defined.
