(* ===== verification/InstallQueue.v ===== *)
(** * The batch install queue (src/sm_install_queue.c)

    Titles staged for installation wait in a fixed array, are submitted to the
    system installer in one batch, and are polled until the application
    database lists them or five minutes pass.  The scanner thread owns this
    state, so each function is one step.

    What the code reads from other parts (the clock, the configuration, sleep
    mode, the installer's reply, the application database) is the record
    [install_env], one per call that reads it; what it does to them is the
    trace of [install_event].  The retry counters are used through the
    interface [TitleRetry], which TitleState.v implements. *)
From S2P Require Import Prelude CString StateTable TitleState.
Open Scope c_scope.

Definition INSTALL_WAIT_TIMEOUT_US : Z := 300 * 1000000.
Definition INSTALL_POLL_INTERVAL_US : Z := 2 * 1000000.
Definition INSTALL_SUBMIT_RETRY_US : Z := 2 * 1000000.
(** [sizeof(message)] in [notify_queued_install_batch]. *)
Definition BATCH_MESSAGE_SIZE : nat := 3075.

(** ** Interface: the per-title failure counters *)
Class TitleRetry (T : Type) := {
  tr_get : T -> string -> Z;
  tr_bump : T -> string -> option (T * Z);
  tr_clear : T -> string -> T;
  tr_clear_register : T -> string -> T;
  tr_ok : T -> Prop;
  tr_bump_ok t id : tr_ok t -> title_fits id -> exists t' n,
    tr_bump t id = Some (t', n) /\ tr_ok t' /\ n = Z.min 255 (tr_get t id + 1) /\
    tr_get t' id = n;
  tr_clear_ok t id : tr_ok t -> id <> ""%string -> tr_ok (tr_clear t id) /\
    forall id', id' <> ""%string ->
      tr_get (tr_clear t id) id' = if decide (id' = id) then 0 else tr_get t id';
  tr_clear_register_ok t id : tr_ok t -> id <> ""%string -> tr_ok (tr_clear_register t id) /\
    forall id', id' <> ""%string -> tr_get (tr_clear_register t id) id' = tr_get t id';
}.

#[export, refine] Instance title_state_retry : TitleRetry title_state := {
  tr_get := get_failed_mount_attempts;
  tr_bump := bump_failed_mount_attempts;
  tr_clear := clear_failed_mount_attempts;
  tr_clear_register := clear_register_attempts;
  tr_ok := title_inv;
}.
Proof.
  - intros t id Hok Hfit. destruct (bump_mount_counts t id Hok Hfit) as (t' & n & H).
    exists t', n. tauto.
  - apply clear_mount_counts.
  - apply clear_register_counts.
Defined.

(** ** State *)
Inductive install_track_state_t :=
  INSTALL_TRACK_NONE | INSTALL_TRACK_QUEUED | INSTALL_TRACK_SUBMITTED.

#[export] Instance install_track_state_eq_dec : EqDecision install_track_state_t.
Proof. solve_decision. Defined.

Record pending_install_entry_t := Pending {
  pi_title_id : string;
  pi_title_name : string;
  pi_source_path : string;
  pi_manual_source_path : string;
  requested_at_us : Z;
  has_src_snd0 : bool;
  pi_manual : bool;
  pi_state : install_track_state_t;
}.

Definition zero_pending : pending_install_entry_t :=
  Pending "" "" "" "" 0 false false INSTALL_TRACK_NONE.

Record scan_candidate_t := Candidate {
  sc_path : string;
  sc_title_id : string;
  sc_title_name : string;
  sc_manual_source_path : string;
  sc_manual : bool;
}.

(** The file's static variables. *)
Record install_queue := Queue {
  pending_installs : list pending_install_entry_t;
  poll_due_us : Z;
  submit_due_us : Z;
  tracked_count : Z;
  submitted_count : Z;
  batch_announced : bool;
  submit_failure_notified : bool;
}.

Definition empty_queue : install_queue :=
  Queue (replicate MAX_PENDING zero_pending) 0 0 0 0 false false.

Inductive install_event :=
  | EvGameInstalled (title_id : string)
  | EvUpdateSnd0 (title_id : string)
  | EvCacheGame (source_path title_id title_name : string)
  | EvManualInstalled (source_path title_id title_name : string)
  | EvTimeoutNotice (title_name title_id : string)
  | EvBatchNotice (message : string)
  | EvInstallAll
  | EvBatchFailedNotice (queued res : Z)
  | EvInvalidateAppDb
  | EvReleaseMounts.

Record install_env := Env {
  app_install_all_enabled : bool;
  sleep_mode : bool;
  now_us : Z;
  install_all_res : Z;
  app_db_titles : option (string -> bool);
}.

(** ** Queue-only helpers *)
Definition is_tracked (e : pending_install_entry_t) : bool :=
  negb (bool_decide (pi_state e = INSTALL_TRACK_NONE)).
Definition is_queued (e : pending_install_entry_t) : bool :=
  bool_decide (pi_state e = INSTALL_TRACK_QUEUED).
Definition is_submitted (e : pending_install_entry_t) : bool :=
  bool_decide (pi_state e = INSTALL_TRACK_SUBMITTED).

Definition sm_install_has_pending_work (q : install_queue) : bool := 0 <? tracked_count q.

Definition install_queue_active (env : install_env) (q : install_queue) : bool :=
  app_install_all_enabled env || (0 <? tracked_count q).

Definition find_pending_install_entry (q : install_queue) (id : string) : option nat :=
  if strcmp_eq id "" then None
  else find_index (fun e => is_tracked e && strcmp_eq (pi_title_id e) id) (pending_installs q).

Definition reserve_pending_install_entry (q : install_queue) (id : string) : option nat :=
  match find_pending_install_entry q id with
  | Some i => Some i
  | None => find_index (fun e => negb (is_tracked e)) (pending_installs q)
  end.

Definition count_queued_installs (q : install_queue) : Z :=
  let n := tracked_count q - submitted_count q in if 0 <? n then n else 0.

(** The minimum over the submitted entries so far; 0 is "none". *)
Fixpoint next_deadline_from (l : list pending_install_entry_t) (next : Z) : Z :=
  match l with
  | [] => next
  | e :: l' =>
      if negb (is_submitted e) || (requested_at_us e =? 0) then next_deadline_from l' next
      else
        let deadline := u64 (requested_at_us e + INSTALL_WAIT_TIMEOUT_US) in
        next_deadline_from l' (if (next =? 0) || (deadline <? next) then deadline else next)
  end.

Definition next_pending_install_timeout_us (q : install_queue) : Z :=
  if submitted_count q <=? 0 then 0 else next_deadline_from (pending_installs q) 0.

Definition set_poll_due (d : Z) (q : install_queue) : install_queue :=
  Queue (pending_installs q) d (submit_due_us q) (tracked_count q) (submitted_count q)
    (batch_announced q) (submit_failure_notified q).
Definition set_submit_due (d : Z) (q : install_queue) : install_queue :=
  Queue (pending_installs q) (poll_due_us q) d (tracked_count q) (submitted_count q)
    (batch_announced q) (submit_failure_notified q).
Definition set_flags (announced notified : bool) (q : install_queue) : install_queue :=
  Queue (pending_installs q) (poll_due_us q) (submit_due_us q) (tracked_count q)
    (submitted_count q) announced notified.
(** One cell replaced and the two counters set. *)
Definition set_cell (i : nat) (e : pending_install_entry_t) (tracked submitted : Z)
    (q : install_queue) : install_queue :=
  Queue (<[i := e]> (pending_installs q)) (poll_due_us q) (submit_due_us q) tracked submitted
    (batch_announced q) (submit_failure_notified q).

Definition schedule_pending_install_poll (now : Z) (q : install_queue) : install_queue :=
  if submitted_count q <=? 0 then set_poll_due 0 q
  else set_poll_due (if now =? 0 then 1 else u64 (now + INSTALL_POLL_INTERVAL_US)) q.

Definition schedule_queued_install_submit (now : Z) (q : install_queue) : install_queue :=
  if (count_queued_installs q <=? 0) || (0 <? submitted_count q) then set_submit_due 0 q
  else set_submit_due (if now =? 0 then 1 else now) q.

Definition schedule_queued_install_submit_retry (now : Z) (q : install_queue) : install_queue :=
  if (count_queued_installs q <=? 0) || (0 <? submitted_count q) then set_submit_due 0 q
  else set_submit_due (if now =? 0 then 1 else u64 (now + INSTALL_SUBMIT_RETRY_US)) q.

Definition clear_pending_install_entry (i : nat) (q : install_queue) : install_queue :=
  match pending_installs q !! i with
  | None => q
  | Some e =>
      let submitted := if is_submitted e && (0 <? submitted_count q)
                       then submitted_count q - 1 else submitted_count q in
      let tracked := if is_tracked e && (0 <? tracked_count q)
                     then tracked_count q - 1 else tracked_count q in
      let q1 := set_cell i zero_pending tracked submitted q in
      let q2 := if submitted <=? 0 then set_poll_due 0 q1 else q1 in
      if tracked <=? 0 then set_flags false false (set_submit_due 0 q2) else q2
  end.

Definition is_title_install_pending (q : install_queue) (id : string) : bool :=
  match find_pending_install_entry q id with Some _ => true | None => false end.

Definition sm_install_forget_pending_title (id : string) (q : install_queue) : install_queue :=
  match find_pending_install_entry q id with
  | Some i => clear_pending_install_entry i q
  | None => q
  end.

Definition queued_entry (c : scan_candidate_t) (snd0 : bool) : pending_install_entry_t :=
  Pending (strlcpy (sc_title_id c) MAX_TITLE_ID) (strlcpy (sc_title_name c) MAX_TITLE_NAME)
    (strlcpy (sc_path c) MAX_PATH) (strlcpy (sc_manual_source_path c) MAX_PATH) 0 snd0
    (sc_manual c) INSTALL_TRACK_QUEUED.

Definition sm_install_queue_candidate (env : install_env) (c : scan_candidate_t) (snd0 : bool)
    (q : install_queue) : bool * install_queue :=
  if strcmp_eq (sc_title_id c) "" || strcmp_eq (sc_title_name c) "" || strcmp_eq (sc_path c) ""
  then (false, q)
  else if negb (app_install_all_enabled env) then (false, q)
  else
    let was_queue_empty := count_queued_installs q <=? 0 in
    match reserve_pending_install_entry q (sc_title_id c) with
    | None => (false, q)
    | Some i =>
        let previous := default zero_pending (pending_installs q !! i) in
        if is_submitted previous then (true, q)
        else
          let q1 := set_cell i (queued_entry c snd0)
                      (if is_tracked previous then tracked_count q else tracked_count q + 1)
                      (submitted_count q) q in
          let q2 := if was_queue_empty then set_flags false false q1 else q1 in
          (true, schedule_queued_install_submit (now_us env) q2)
    end.

Definition sm_install_next_wake_us (env : install_env) (now : Z) (q : install_queue) : Z :=
  if sleep_mode env then 0
  else if negb (install_queue_active env q) then 0
  else if submitted_count q <=? 0 then submit_due_us q
  else
    let w0 := next_pending_install_timeout_us q in
    let w1 := if negb (poll_due_us q =? 0) && ((w0 =? 0) || (poll_due_us q <? w0))
              then poll_due_us q else w0 in
    let w2 := if negb (submit_due_us q =? 0) && ((w1 =? 0) || (submit_due_us q <? w1))
              then submit_due_us q else w1 in
    if w2 =? 0 then (if now =? 0 then 1 else u64 (now + INSTALL_POLL_INTERVAL_US)) else w2.

(** ** The batch notification text

    [snprintf] into a buffer of [size] bytes that already holds a text:
    the new text is cut at the end of the buffer; the boolean says it fits. *)
Definition buffer_append (size : nat) (message text : string) : string * bool :=
  let used := strlen message in
  (String.append message (strlcpy text (size - used)), (strlen text <? size - used)%nat).

Definition install_line (name id : string) : string :=
  String.append (String "010" EmptyString)
    (String.append name (String.append " (" (String.append id ")"))).

Definition append_batch_install_line (size : nat) (name id : string) (m : string * Z) :
    string * Z :=
  let '(message, shown) := m in
  if (size <=? strlen message)%nat then m
  else
    let '(message', fits) := buffer_append size message (install_line name id) in
    (message', if fits then shown + 1 else shown).

Fixpoint append_batch_lines (size : nat) (l : list pending_install_entry_t) (m : string * Z) :
    string * Z :=
  match l with
  | [] => m
  | e :: l' =>
      append_batch_lines size l'
        (if is_queued e then append_batch_install_line size (pi_title_name e) (pi_title_id e) m
         else m)
  end.

(** The localised texts are arguments: [header] and [more] are the formatted
    SM_L10N_BATCH_INSTALL_QUEUED and SM_L10N_BATCH_INSTALL_AND_MORE. *)
Definition batch_message (header more : Z -> string) (l : list pending_install_entry_t)
    (queued : Z) : string :=
  let '(message, shown) :=
    append_batch_lines BATCH_MESSAGE_SIZE l (strlcpy (header queued) BATCH_MESSAGE_SIZE, 0) in
  if (shown <? queued) && (strlen message <? BATCH_MESSAGE_SIZE)%nat
  then (buffer_append BATCH_MESSAGE_SIZE message (more (queued - shown))).1
  else message.

(** ** Operations with effects *)
Record world (T : Type) := World {
  queue : install_queue;
  titles : T;
  trace : list install_event;
}.
Arguments World {T} _ _ _.
Arguments queue {T} _.
Arguments titles {T} _.
Arguments trace {T} _.

Section effects.
Context {T : Type} `{TitleRetry T} (header more : Z -> string).

Definition set_queue (f : install_queue -> install_queue) (w : world T) : world T :=
  World (f (queue w)) (titles w) (trace w).
Definition emit (evs : list install_event) (w : world T) : world T :=
  World (queue w) (titles w) (trace w ++ evs).

Definition note_pending_install_failure (e : pending_install_entry_t) (w : world T) :
    option (world T * Z) :=
  do? (t, n) <- tr_bump (titles w) (pi_title_id e) ;
  Some (World (queue w) t (trace w), n).

Definition success_events (e : pending_install_entry_t) : list install_event :=
  [EvGameInstalled (pi_title_id e)] ++
  (if has_src_snd0 e then [EvUpdateSnd0 (pi_title_id e)] else []) ++
  [EvCacheGame (pi_source_path e) (pi_title_id e) (pi_title_name e)] ++
  (if pi_manual e
   then [EvManualInstalled (pi_manual_source_path e) (pi_title_id e) (pi_title_name e)] else []).

Definition finalize_pending_install_success (i : nat) (e : pending_install_entry_t)
    (w : world T) : world T :=
  let w1 := emit (success_events e) w in
  let t := tr_clear (tr_clear_register (titles w1) (pi_title_id e)) (pi_title_id e) in
  World (clear_pending_install_entry i (queue w1)) t (trace w1).

Definition finalize_pending_install_timeout (i : nat) (e : pending_install_entry_t)
    (w : world T) : option (world T) :=
  do? (w', _) <- note_pending_install_failure e
                   (emit [EvTimeoutNotice (pi_title_name e) (pi_title_id e)] w) ;
  Some (set_queue (clear_pending_install_entry i) w').

Definition install_listed (env : install_env) (e : pending_install_entry_t) : bool :=
  match app_db_titles env with Some listed => listed (pi_title_id e) | None => false end.

Definition install_timed_out (now : Z) (e : pending_install_entry_t) : bool :=
  negb (now =? 0) && negb (requested_at_us e =? 0) && (requested_at_us e <=? now) &&
  (INSTALL_WAIT_TIMEOUT_US <=? now - requested_at_us e).

Definition poll_cell (env : install_env) (i : nat) (w : world T) : option (world T) :=
  match pending_installs (queue w) !! i with
  | None => Some w
  | Some e =>
      if negb (is_submitted e) then Some w
      else if install_listed env e then Some (finalize_pending_install_success i e w)
      else if install_timed_out (now_us env) e then finalize_pending_install_timeout i e w
      else Some w
  end.

Definition poll_pending_installs (env : install_env) (w : world T) : option (world T) :=
  if submitted_count (queue w) <=? 0 then Some w
  else
    do? w1 <- for_cells (poll_cell env) MAX_PENDING 0 (emit [EvInvalidateAppDb] w) ;
    let w2 := set_queue (schedule_pending_install_poll (now_us env)) w1 in
    let w3 := if submitted_count (queue w2) =? 0
              then set_queue (schedule_queued_install_submit (now_us env)) w2 else w2 in
    Some (if sm_install_has_pending_work (queue w3) then w3 else emit [EvReleaseMounts] w3).

Definition sm_install_poll_pending (env : install_env) (w : world T) : option (world T) :=
  if sleep_mode env then Some w else poll_pending_installs env w.

Definition notify_queued_install_batch (w : world T) : world T :=
  let queued := count_queued_installs (queue w) in
  if (queued <=? 0) || batch_announced (queue w) then w
  else
    set_queue (fun q => set_flags true (submit_failure_notified q) q)
      (emit [EvBatchNotice (batch_message header more (pending_installs (queue w)) queued)] w).

Definition submitted_entry (now : Z) (e : pending_install_entry_t) : pending_install_entry_t :=
  Pending (pi_title_id e) (pi_title_name e) (pi_source_path e) (pi_manual_source_path e) now
    (has_src_snd0 e) (pi_manual e) INSTALL_TRACK_SUBMITTED.

Definition submit_cell (now : Z) (i : nat) (w : world T) : option (world T) :=
  match pending_installs (queue w) !! i with
  | None => Some w
  | Some e =>
      if negb (is_queued e) then Some w
      else Some (World (set_cell i (submitted_entry now e) (tracked_count (queue w))
                          (submitted_count (queue w) + 1) (queue w))
                   (tr_clear (titles w) (pi_title_id e)) (trace w))
  end.

Definition sm_install_submit_queued (env : install_env) (w : world T) : option (bool * world T) :=
  if sleep_mode env then Some (true, w)
  else
    let queued := count_queued_installs (queue w) in
    if queued <=? 0 then Some (true, w)
    else if 0 <? submitted_count (queue w) then Some (true, w)
    else if negb (submit_due_us (queue w) =? 0) && negb (now_us env =? 0) &&
            (now_us env <? submit_due_us (queue w)) then Some (true, w)
    else
      let w1 := emit [EvInstallAll] (notify_queued_install_batch w) in
      if negb (install_all_res env =? 0) then
        let w2 := if submit_failure_notified (queue w1) then w1
                  else set_queue (fun q => set_flags (batch_announced q) true q)
                         (emit [EvBatchFailedNotice queued (u32 (install_all_res env))] w1) in
        Some (false, set_queue (schedule_queued_install_submit_retry (now_us env)) w2)
      else
        let w2 := set_queue (fun q => set_flags (batch_announced q) false (set_submit_due 0 q)) w1 in
        do? w3 <- for_cells (submit_cell (now_us env)) MAX_PENDING 0 w2 ;
        Some (true, set_queue (schedule_pending_install_poll (now_us env))
                      (emit [EvInvalidateAppDb] w3)).

Definition drop_queued_install_entry (i : nat) (w : world T) : world T :=
  match pending_installs (queue w) !! i with
  | Some e => if is_queued e then set_queue (clear_pending_install_entry i) w else w
  | None => w
  end.

Definition failure_cell (i : nat) (w : world T) : option (world T) :=
  match pending_installs (queue w) !! i with
  | None => Some w
  | Some e =>
      if negb (is_queued e) then Some w
      else
        do? (w', n) <- note_pending_install_failure e w ;
        Some (if MAX_FAILED_MOUNT_ATTEMPTS <=? n then drop_queued_install_entry i w' else w')
  end.

Definition sm_install_note_submit_failure (w : world T) : option (world T) :=
  for_cells failure_cell MAX_PENDING 0 w.

(** [env] is read by this function, [env_poll] by the poll it makes and
    [env_submit] by the submission. *)
Definition sm_install_service_pending (env env_poll env_submit : install_env) (w : world T) :
    option (world T) :=
  if sleep_mode env then Some w
  else if negb (install_queue_active env (queue w)) then Some w
  else
    do? w1 <- sm_install_poll_pending env_poll w ;
    if 0 <? count_queued_installs (queue w1) then
      do? (ok, w2) <- sm_install_submit_queued env_submit w1 ;
      if ok : bool then Some w2 else sm_install_note_submit_failure w2
    else Some w1.
End effects.

(** ** The API as a transition function *)
Inductive install_op :=
  | OQueue (env : install_env) (c : scan_candidate_t) (snd0 : bool)
  | OForget (id : string)
  | OPoll (env : install_env)
  | OService (env env_poll env_submit : install_env)
  | OSubmit (env : install_env)
  | ONoteFailure.

Definition run_install_op {T} `{TitleRetry T} (header more : Z -> string) (op : install_op)
    (w : world T) : option (world T) :=
  match op with
  | OQueue env c snd0 => Some (set_queue (fun q => (sm_install_queue_candidate env c snd0 q).2) w)
  | OForget id => Some (set_queue (sm_install_forget_pending_title id) w)
  | OPoll env => sm_install_poll_pending env w
  | OService e1 e2 e3 => sm_install_service_pending header more e1 e2 e3 w
  | OSubmit env => snd <$> sm_install_submit_queued header more env w
  | ONoteFailure => sm_install_note_submit_failure w
  end.

Fixpoint run_install_ops {T} `{TitleRetry T} (header more : Z -> string) (ops : list install_op)
    (w : world T) : option (world T) :=
  match ops with
  | [] => Some w
  | op :: ops' =>
      match run_install_op header more op w with
      | Some w' => run_install_ops header more ops' w'
      | None => None
      end
  end.

(** ** Invariant *)

(** The array: free cells are zeroed, tracked cells have distinct titles that
    fit their buffer, and the two counters count. *)
Record cells_ok (l : list pending_install_entry_t) (tracked submitted : Z) : Prop := {
  co_len : length l = MAX_PENDING;
  co_free : forall i e, l !! i = Some e -> is_tracked e = false -> e = zero_pending;
  co_fits : forall i e, l !! i = Some e -> is_tracked e = true -> title_fits (pi_title_id e);
  co_unique : forall i j e e', l !! i = Some e -> l !! j = Some e' ->
    is_tracked e = true -> is_tracked e' = true -> pi_title_id e = pi_title_id e' -> i = j;
  co_tracked : tracked = Z.of_nat (count_if is_tracked l);
  co_submitted : submitted = Z.of_nat (count_if is_submitted l);
}.

Record queue_inv (q : install_queue) : Prop := {
  qi_cells : cells_ok (pending_installs q) (tracked_count q) (submitted_count q);
  qi_poll : submitted_count q = 0 -> poll_due_us q = 0;
  qi_idle : tracked_count q = 0 ->
    submit_due_us q = 0 /\ batch_announced q = false /\ submit_failure_notified q = false;
  qi_batch : 0 < submitted_count q -> submit_due_us q = 0;
}.

Lemma submitted_tracked e : is_submitted e = true -> is_tracked e = true.
Proof. unfold is_submitted, is_tracked. by destruct (pi_state e). Qed.
Lemma queued_tracked e : is_queued e = true -> is_tracked e = true.
Proof. unfold is_queued, is_tracked. by destruct (pi_state e). Qed.
Lemma queued_not_submitted e : is_queued e = true -> is_submitted e = false.
Proof. unfold is_queued, is_submitted. by destruct (pi_state e). Qed.
Lemma tracked_cases e : is_tracked e = true -> is_submitted e = false -> is_queued e = true.
Proof. unfold is_queued, is_submitted, is_tracked. by destruct (pi_state e). Qed.

Definition b2z (b : bool) : Z := if b then 1 else 0.

Lemma cells_insert l t s i e e' : cells_ok l t s -> l !! i = Some e ->
  (is_tracked e' = false -> e' = zero_pending) ->
  (is_tracked e' = true -> title_fits (pi_title_id e')) ->
  (is_tracked e' = true -> forall j x, j <> i -> l !! j = Some x -> is_tracked x = true ->
     pi_title_id x <> pi_title_id e') ->
  cells_ok (<[i := e']> l) (t + b2z (is_tracked e') - b2z (is_tracked e))
    (s + b2z (is_submitted e') - b2z (is_submitted e)).
Proof.
  intros [Hl Hz Hf Hu Ht Hs] Hi Hz' Hf' Hu'. split.
  - by rewrite length_insert.
  - intros j x [(-> & -> & _)|[_ Hj]]%lookup_insert_cases; eauto.
  - intros j x [(-> & -> & _)|[_ Hj]]%lookup_insert_cases; eauto.
  - intros j k x y [(-> & -> & _)|[Hji Hj]]%lookup_insert_cases
      [(-> & -> & _)|[Hki Hk]]%lookup_insert_cases Hx Hy Heq; [done| | |by eapply Hu].
    + by destruct (Hu' Hx k y Hki Hk Hy).
    + by destruct (Hu' Hy j x Hji Hj Hx).
  - pose proof (count_if_insert is_tracked l i e e' Hi). unfold b2z.
    destruct (is_tracked e), (is_tracked e'); lia.
  - pose proof (count_if_insert is_submitted l i e e' Hi). unfold b2z.
    destruct (is_submitted e), (is_submitted e'); lia.
Qed.

Lemma submitted_le_tracked l :
  (count_if is_submitted l + count_if is_queued l = count_if is_tracked l)%nat.
Proof.
  induction l as [|e l IH]; simpl; [done|]. rewrite <-IH.
  unfold is_submitted, is_queued, is_tracked. destruct (pi_state e); simpl; lia.
Qed.

Lemma count_queued_spec q : queue_inv q ->
  count_queued_installs q = Z.of_nat (count_if is_queued (pending_installs q)).
Proof.
  intros [[_ _ _ _ Ht Hs] _ _ _]. unfold count_queued_installs.
  pose proof (submitted_le_tracked (pending_installs q)).
  destruct (Z.ltb_spec 0 (tracked_count q - submitted_count q)); lia.
Qed.

Lemma queued_pos q : 0 < count_queued_installs q <-> 0 < tracked_count q - submitted_count q.
Proof.
  unfold count_queued_installs. destruct (Z.ltb_spec 0 (tracked_count q - submitted_count q)); lia.
Qed.

Lemma inv_counts q : queue_inv q -> 0 <= submitted_count q <= tracked_count q.
Proof.
  intros [[_ _ _ _ Ht Hs] _ _ _]. pose proof (submitted_le_tracked (pending_installs q)). lia.
Qed.

Lemma empty_queue_inv : queue_inv empty_queue.
Proof.
  split; [|done..]. cbn [pending_installs empty_queue tracked_count submitted_count]. split.
  - apply length_replicate.
  - intros i e He _. by apply lookup_replicate_1 in He as [-> _].
  - intros i e He. by apply lookup_replicate_1 in He as [-> _].
  - intros i j e e' He _. by apply lookup_replicate_1 in He as [-> _].
  - by rewrite count_if_replicate.
  - by rewrite count_if_replicate.
Qed.

(** Clearing a tracked cell. *)
Lemma clear_spec i q e : queue_inv q -> pending_installs q !! i = Some e ->
  is_tracked e = true ->
  let q' := clear_pending_install_entry i q in
  queue_inv q' /\ pending_installs q' = <[i := zero_pending]> (pending_installs q) /\
  tracked_count q' = tracked_count q - 1 /\
  submitted_count q' = submitted_count q - b2z (is_submitted e) /\
  (tracked_count q' <> 0 -> submit_due_us q' = submit_due_us q).
Proof.
  intros Hinv Hi Ht q'. pose proof (qi_cells _ Hinv) as Hc.
  assert (Hc' : cells_ok (<[i := zero_pending]> (pending_installs q)) (tracked_count q - 1)
                  (submitted_count q - b2z (is_submitted e))).
  { replace (tracked_count q - 1) with
      (tracked_count q + b2z (is_tracked zero_pending) - b2z (is_tracked e))
      by (rewrite Ht; change (b2z (is_tracked zero_pending)) with 0; unfold b2z; lia).
    replace (submitted_count q - b2z (is_submitted e)) with
      (submitted_count q + b2z (is_submitted zero_pending) - b2z (is_submitted e))
      by (change (b2z (is_submitted zero_pending)) with 0; lia).
    by apply cells_insert. }
  pose proof (co_tracked _ _ _ Hc) as Htc. pose proof (co_submitted _ _ _ Hc) as Hsc.
  pose proof (count_if_pos is_tracked _ _ _ Hi Ht) as Htp.
  assert (Hs : (if is_submitted e && (0 <? submitted_count q) then submitted_count q - 1
                else submitted_count q) = submitted_count q - b2z (is_submitted e)).
  { destruct (is_submitted e) eqn:Hs; simpl; [|lia].
    pose proof (count_if_pos is_submitted _ _ _ Hi Hs). destruct (Z.ltb_spec 0 (submitted_count q)); lia. }
  unfold q', clear_pending_install_entry. rewrite Hi, Hs, Ht.
  destruct (Z.ltb_spec 0 (tracked_count q)) as [Hpos|]; [|lia]. cbn [andb].
  destruct Hinv as [_ Hpoll Hidle Hbatch].
  pose proof (co_submitted _ _ _ Hc') as Hs'. pose proof (co_tracked _ _ _ Hc') as Ht'.
  pose proof (submitted_le_tracked (<[i:=zero_pending]> (pending_installs q))).
  destruct (Z.leb_spec (submitted_count q - b2z (is_submitted e)) 0),
    (Z.leb_spec (tracked_count q - 1) 0); simpl; split_and!; try done; try lia;
    (split; simpl; [exact Hc'|try done; try lia..]).
  - intros. apply Hbatch. unfold b2z in *. destruct (is_submitted e); lia.
Qed.

Lemma clear_inv i q : queue_inv q -> queue_inv (clear_pending_install_entry i q).
Proof.
  intros Hinv. destruct (pending_installs q !! i) as [e|] eqn:Hi.
  2: { unfold clear_pending_install_entry. by rewrite Hi. }
  destruct (is_tracked e) eqn:Ht; [by eapply clear_spec|].
  pose proof (co_free _ _ _ (qi_cells _ Hinv) i e Hi Ht) as ->.
  unfold clear_pending_install_entry. rewrite Hi. simpl.
  assert (Hq : set_cell i zero_pending (tracked_count q) (submitted_count q) q = q).
  { unfold set_cell. rewrite list_insert_id by done. by destruct q. }
  rewrite Hq. pose proof (inv_counts q Hinv). destruct Hinv as [Hc Hp Hidle Hb].
  destruct (Z.leb_spec (submitted_count q) 0), (Z.leb_spec (tracked_count q) 0);
    (split; simpl; [exact Hc|try done; try lia; try (intros; by apply Hidle)..]); try tauto; try lia.
Qed.

Lemma find_pending_Some q id i : find_pending_install_entry q id = Some i ->
  id <> ""%string /\ exists e, pending_installs q !! i = Some e /\ is_tracked e = true /\ pi_title_id e = id.
Proof.
  unfold find_pending_install_entry. destruct (strcmp_eq id "") eqn:Hid; [done|].
  apply strcmp_eq_false in Hid. intros (e & He & Hp)%find_index_hit. bool_hyps.
  split; [done|]. exists e. split_and!; [done..|]. by apply strcmp_eq_true.
Qed.

Lemma find_pending_None q id i e : find_pending_install_entry q id = None -> id <> ""%string ->
  pending_installs q !! i = Some e -> is_tracked e = true -> pi_title_id e <> id.
Proof.
  unfold find_pending_install_entry. intros Hf Hid. apply strcmp_eq_false in Hid. rewrite Hid in Hf.
  rewrite find_index_None in Hf. intros He Ht. specialize (Hf i e He). rewrite Ht in Hf.
  by apply strcmp_eq_false.
Qed.

(** Pending titles are exactly the titles of the tracked cells. *)
Lemma pending_iff q id : queue_inv q -> is_title_install_pending q id = true <->
  exists i e, pending_installs q !! i = Some e /\ is_tracked e = true /\ pi_title_id e = id.
Proof.
  intros Hinv. unfold is_title_install_pending. split.
  - destruct (find_pending_install_entry q id) as [i|] eqn:Hf; [|done].
    apply find_pending_Some in Hf as (_ & e & ?). eauto.
  - intros (i & e & He & Ht & <-). destruct (find_pending_install_entry q _) eqn:Hf; [done|].
    destruct (co_fits _ _ _ (qi_cells _ Hinv) i e He Ht) as [Hne _].
    by destruct (find_pending_None _ _ i e Hf Hne He Ht).
Qed.

Lemma set_poll_inv d q : queue_inv q -> (submitted_count q = 0 -> d = 0) ->
  queue_inv (set_poll_due d q).
Proof. intros [? ? ? ?] Hd. by split. Qed.

Lemma set_submit_inv d q : queue_inv q -> (tracked_count q = 0 \/ 0 < submitted_count q -> d = 0) ->
  queue_inv (set_submit_due d q).
Proof. intros [? ? Hi ?] Hd. split; [done..| |]; simpl; intros Hx; [destruct (Hi Hx)|]; auto. Qed.

Lemma schedule_poll_inv now q : queue_inv q -> queue_inv (schedule_pending_install_poll now q).
Proof.
  intros Hinv. unfold schedule_pending_install_poll.
  destruct (Z.leb_spec (submitted_count q) 0); apply set_poll_inv; done || lia.
Qed.

Lemma schedule_submit_inv now q : queue_inv q -> queue_inv (schedule_queued_install_submit now q).
Proof.
  intros Hinv. pose proof (inv_counts q Hinv). unfold schedule_queued_install_submit, count_queued_installs.
  destruct (_ || _) eqn:Hc; apply set_submit_inv; try done. bool_hyps.
  destruct (Z.ltb_spec 0 (tracked_count q - submitted_count q)); lia.
Qed.

Lemma schedule_retry_inv now q : queue_inv q ->
  queue_inv (schedule_queued_install_submit_retry now q).
Proof.
  intros Hinv. pose proof (inv_counts q Hinv).
  unfold schedule_queued_install_submit_retry, count_queued_installs.
  destruct (_ || _) eqn:Hc; apply set_submit_inv; try done. bool_hyps.
  destruct (Z.ltb_spec 0 (tracked_count q - submitted_count q)); lia.
Qed.

Lemma set_flags_inv a b q : queue_inv q -> (tracked_count q = 0 -> a = false /\ b = false) ->
  queue_inv (set_flags a b q).
Proof. intros [? ? Hi ?] Hd. split; simpl; [done..| |done]. intros Hx. destruct (Hi Hx). auto. Qed.

Create HintDb install discriminated.
#[local] Hint Resolve clear_inv schedule_poll_inv schedule_submit_inv schedule_retry_inv : install.

Definition candidate_complete (c : scan_candidate_t) : bool :=
  negb (strcmp_eq (sc_title_id c) "" || strcmp_eq (sc_title_name c) "" || strcmp_eq (sc_path c) "").

Lemma schedule_cells now q :
  pending_installs (schedule_queued_install_submit now q) = pending_installs q /\
  tracked_count (schedule_queued_install_submit now q) = tracked_count q /\
  submitted_count (schedule_queued_install_submit now q) = submitted_count q.
Proof. unfold schedule_queued_install_submit. by destruct (_ || _). Qed.

Lemma reserve_spec q id i : queue_inv q -> id <> ""%string ->
  reserve_pending_install_entry q id = Some i ->
  exists e, pending_installs q !! i = Some e /\ (is_tracked e = true -> pi_title_id e = id) /\
    (forall j x, j <> i -> pending_installs q !! j = Some x -> is_tracked x = true ->
       pi_title_id x <> id).
Proof.
  intros Hinv Hid. unfold reserve_pending_install_entry.
  destruct (find_pending_install_entry q id) as [k|] eqn:Hf.
  - intros [= ->]. apply find_pending_Some in Hf as (_ & e & He & Ht & Hti). exists e.
    split_and!; [done..|]. intros j x Hji Hj Hx Heq. apply Hji.
    eapply (co_unique _ _ _ (qi_cells _ Hinv) j i x e); congruence.
  - intros (e & He & Hnt)%find_index_hit. apply negb_true_iff in Hnt. exists e.
    split_and!; [done|congruence|]. intros j x _ Hj Hx. by eapply find_pending_None.
Qed.

(** What queueing a complete candidate does when a cell is available. *)
Lemma queue_candidate_go env c snd0 q i e : queue_inv q -> title_fits (sc_title_id c) ->
  candidate_complete c = true -> app_install_all_enabled env = true ->
  reserve_pending_install_entry q (sc_title_id c) = Some i ->
  pending_installs q !! i = Some e -> is_submitted e = false ->
  let q' := (sm_install_queue_candidate env c snd0 q).2 in
  queue_inv q' /\ pending_installs q' = <[i := queued_entry c snd0]> (pending_installs q) /\
  submitted_count q' = submitted_count q /\ 0 < tracked_count q' - submitted_count q' /\
  (submitted_count q = 0 -> submit_due_us q' = if now_us env =? 0 then 1 else now_us env).
Proof.
  intros Hinv Hfit Hcomp Hen Hres He Hsub q'. pose proof (reserve_spec q _ i Hinv (proj1 Hfit) Hres) as
    (e' & He' & Hti & Hoth). rewrite He in He'. injection He' as <-.
  assert (Hid : pi_title_id (queued_entry c snd0) = sc_title_id c)
    by (apply strlcpy_fits, Hfit).
  pose proof (cells_insert _ _ _ i e (queued_entry c snd0) (qi_cells _ Hinv) He ltac:(done)
    ltac:(by rewrite Hid) ltac:(by rewrite Hid)) as Hc.
  rewrite Hsub in Hc. change (b2z (is_tracked (queued_entry c snd0))) with 1 in Hc.
  change (b2z (is_submitted (queued_entry c snd0))) with 0 in Hc. simpl in Hc.
  replace (submitted_count q + 0 - 0) with (submitted_count q) in Hc by lia.
  replace (tracked_count q + 1 - b2z (is_tracked e)) with
    (if is_tracked e then tracked_count q else tracked_count q + 1) in Hc
    by (destruct (is_tracked e); simpl; lia).
  unfold q', sm_install_queue_candidate. unfold candidate_complete in Hcomp.
  apply negb_true_iff in Hcomp. rewrite Hcomp, Hen, Hres, He. simpl. rewrite Hsub. simpl.
  set (n := if is_tracked e then tracked_count q else tracked_count q + 1) in *.
  pose proof (inv_counts q Hinv) as Hcnt.
  assert (Hn : 0 < n - submitted_count q).
  { pose proof (co_tracked _ _ _ Hc) as Ht. pose proof (co_submitted _ _ _ Hc) as Hs.
    set (l := <[i:=queued_entry c snd0]> (pending_installs q)) in *.
    pose proof (submitted_le_tracked l).
    assert (0 < count_if is_queued l)%nat.
    { apply (count_if_pos _ _ i (queued_entry c snd0)); [|done]. apply list_lookup_insert_eq.
      by eapply lookup_lt_Some. }
    lia. }
  set (q1 := set_cell i (queued_entry c snd0) n (submitted_count q) q).
  assert (Hq1 : queue_inv q1).
  { destruct Hinv as [_ Hp Hi Hb]. split; simpl; [exact Hc|done|lia|done]. }
  set (q2 := if count_queued_installs q <=? 0 then set_flags false false q1 else q1).
  assert (Hq2 : queue_inv q2) by (unfold q2; destruct (_ <=? _); [by apply set_flags_inv|done]).
  assert (H2 : pending_installs q2 = <[i:=queued_entry c snd0]> (pending_installs q) /\
               tracked_count q2 = n /\ submitted_count q2 = submitted_count q)
    by (unfold q2; by destruct (_ <=? _)).
  destruct H2 as (Hp2 & Ht2 & Hs2). destruct (schedule_cells (now_us env) q2) as (-> & -> & ->).
  split_and!; [by apply schedule_submit_inv|done|done|lia|].
  intros Hs0. unfold schedule_queued_install_submit, count_queued_installs. rewrite Ht2, Hs2.
  destruct (Z.ltb_spec 0 (n - submitted_count q)); [|lia].
  destruct (Z.leb_spec (n - submitted_count q) 0); [lia|].
  destruct (Z.ltb_spec 0 (submitted_count q)); [lia|]. done.
Qed.

(** The three ways a call can end. *)
Lemma queue_candidate_cases env c snd0 q : queue_inv q ->
  let r := sm_install_queue_candidate env c snd0 q in
  (r = (false, q) /\
    (candidate_complete c = false \/ app_install_all_enabled env = false \/
     reserve_pending_install_entry q (sc_title_id c) = None)) \/
  (candidate_complete c = true /\ app_install_all_enabled env = true /\ r.1 = true /\
   exists i e, reserve_pending_install_entry q (sc_title_id c) = Some i /\
     pending_installs q !! i = Some e /\
     (is_submitted e = true /\ r.2 = q \/ is_submitted e = false)).
Proof.
  intros Hinv r. unfold r, sm_install_queue_candidate, candidate_complete.
  destruct (strcmp_eq (sc_title_id c) "" || _ || _) eqn:Hc; [by auto|].
  destruct (app_install_all_enabled env) eqn:Hen; simpl; [|by auto].
  destruct (reserve_pending_install_entry q (sc_title_id c)) as [i|] eqn:Hr; [|by auto].
  right. bool_hyps. apply strcmp_eq_false in H.
  destruct (reserve_spec q _ i Hinv H Hr) as (e & He & _). rewrite He. simpl.
  destruct (is_submitted e) eqn:Hs; simpl; split_and!; try done; exists i, e; auto.
Qed.

(** ** The loops *)
Section loops.
Context {T : Type} `{TitleRetry T} (header more : Z -> string).

Record world_inv (w : world T) : Prop := {
  wi_queue : queue_inv (queue w);
  wi_titles : tr_ok (titles w);
}.

(** A submitted cell that the poll finishes, and what it tells the rest of
    the program. *)
Definition poll_done (env : install_env) (e : pending_install_entry_t) : bool :=
  is_submitted e && (install_listed env e || install_timed_out (now_us env) e).

Definition poll_result (env : install_env) (e : pending_install_entry_t) :
    pending_install_entry_t := if poll_done env e then zero_pending else e.

Definition poll_events (env : install_env) (e : pending_install_entry_t) : list install_event :=
  if negb (is_submitted e) then []
  else if install_listed env e then success_events e
  else if install_timed_out (now_us env) e
  then [EvTimeoutNotice (pi_title_name e) (pi_title_id e)] else [].

(** After [j] turns of the poll loop. *)
Definition poll_at (env : install_env) (w0 : world T) (j : nat) (w : world T) : Prop :=
  world_inv w /\
  pending_installs (queue w) = mixed (poll_result env) j (pending_installs (queue w0)) /\
  trace w = trace w0 ++ concat (poll_events env <$> take j (pending_installs (queue w0))) /\
  (tracked_count (queue w) <> 0 -> submit_due_us (queue w) = submit_due_us (queue w0)).

Lemma bump_total (w : world T) e : world_inv w -> title_fits (pi_title_id e) ->
  exists t n, note_pending_install_failure e w = Some (World (queue w) t (trace w), n) /\ tr_ok t /\
    tr_bump (titles w) (pi_title_id e) = Some (t, n) /\
    n = Z.min 255 (tr_get (titles w) (pi_title_id e) + 1).
Proof.
  intros [_ Ht] Hf. destruct (tr_bump_ok _ _ Ht Hf) as (t & n & Hb & Hok & Hn & _).
  exists t, n. unfold note_pending_install_failure. by rewrite Hb.
Qed.

Lemma clear_due i q e (d : Z) : queue_inv q -> pending_installs q !! i = Some e -> is_tracked e = true ->
  (tracked_count q <> 0 -> submit_due_us q = d) ->
  tracked_count (clear_pending_install_entry i q) <> 0 ->
  submit_due_us (clear_pending_install_entry i q) = d.
Proof.
  intros Hinv He Ht Hd Hne. destruct (clear_spec i q e Hinv He Ht) as (Hq & _ & Htr & _ & Hdue).
  rewrite Hdue by done. apply Hd. pose proof (inv_counts _ Hq). lia.
Qed.

Lemma poll_cell_step env w0 j w e : pending_installs (queue w0) !! j = Some e ->
  poll_at env w0 j w -> exists w', poll_cell env j w = Some w' /\ poll_at env w0 (S j) w'.
Proof.
  intros He (Hinv & Hl & Htr & Hd). pose proof (mixed_lookup (poll_result env) j (pending_installs (queue w0))) as Hj.
  rewrite <-Hl, He in Hj. unfold poll_at. rewrite (mixed_step _ j _ e He), (take_S_r _ _ e He), <-Hl.
  rewrite fmap_app, concat_app. cbn [fmap list_fmap concat]. rewrite app_nil_r, app_assoc, <-Htr.
  unfold poll_cell. rewrite Hj. unfold poll_result, poll_done, poll_events.
  destruct (is_submitted e) eqn:Hs; cbn [negb andb].
  2: { exists w. rewrite list_insert_id, app_nil_r by done. done. }
  pose proof (submitted_tracked e Hs) as Ht. destruct Hinv as [Hq Hok].
  pose proof (co_fits _ _ _ (qi_cells _ Hq) j e Hj Ht) as Hfit.
  destruct (clear_spec j _ e Hq Hj Ht) as (Hcq & Hcl & _).
  destruct (install_listed env e); cbn [orb].
  - eexists. split; [done|]. simpl. split_and!; [|done|done|by eapply clear_due].
    destruct (tr_clear_register_ok _ _ Hok (proj1 Hfit)) as [Hok1 _].
    destruct (tr_clear_ok _ _ Hok1 (proj1 Hfit)) as [Hok2 _]. by split.
  - destruct (install_timed_out (now_us env) e) eqn:Hto; cbn [orb].
    + unfold finalize_pending_install_timeout.
      destruct (bump_total (emit [EvTimeoutNotice (pi_title_name e) (pi_title_id e)] w) e)
        as (t & n & -> & Hokt & _); [by split|done|].
      eexists. split; [done|]. simpl. split_and!; [by split|done|done|by eapply clear_due].
    + exists w. rewrite list_insert_id, app_nil_r by done. done.
Qed.

Lemma poll_loop env w0 : world_inv w0 -> exists w,
  for_cells (poll_cell env) MAX_PENDING 0 w0 = Some w /\ poll_at env w0 MAX_PENDING w.
Proof.
  intros Hinv. apply (for_cells_rule (poll_at env w0)).
  - intros j v Hj. pose proof (co_len _ _ _ (qi_cells _ (wi_queue _ Hinv))) as Hlen.
    destruct (lookup_lt_is_Some_2 (pending_installs (queue w0)) j ltac:(lia)) as [e He].
    by apply (poll_cell_step env w0 j v e).
  - split_and!; [done|done| |done]. simpl. by rewrite app_nil_r.
Qed.

Lemma schedule_poll_cells now q :
  pending_installs (schedule_pending_install_poll now q) = pending_installs q /\
  tracked_count (schedule_pending_install_poll now q) = tracked_count q /\
  submitted_count (schedule_pending_install_poll now q) = submitted_count q /\
  submit_due_us (schedule_pending_install_poll now q) = submit_due_us q.
Proof. unfold schedule_pending_install_poll. by destruct (_ <=? _). Qed.

(** The whole poll when something is submitted. *)
Lemma poll_spec env w : world_inv w -> 0 < submitted_count (queue w) ->
  exists w', poll_pending_installs env w = Some w' /\ world_inv w' /\
    pending_installs (queue w') = poll_result env <$> pending_installs (queue w) /\
    trace w' = trace w ++ [EvInvalidateAppDb] ++
      concat (poll_events env <$> pending_installs (queue w)) ++
      (if sm_install_has_pending_work (queue w') then [] else [EvReleaseMounts]) /\
    (0 < tracked_count (queue w') -> submitted_count (queue w') = 0 ->
     submit_due_us (queue w') = if now_us env =? 0 then 1 else now_us env).
Proof.
  intros Hinv Hs. unfold poll_pending_installs. destruct (Z.leb_spec (submitted_count (queue w)) 0); [lia|].
  destruct (poll_loop env (emit [EvInvalidateAppDb] w)) as (w1 & -> & Hq & Hl & Htr & _); [by split; apply Hinv|].
  pose proof (co_len _ _ _ (qi_cells _ (wi_queue _ Hinv))) as Hlen. simpl in Hl, Htr.
  rewrite mixed_all in Hl by lia. rewrite take_ge in Htr by lia.
  set (w2 := set_queue (schedule_pending_install_poll (now_us env)) w1).
  destruct (schedule_poll_cells (now_us env) (queue w1)) as (Hp2 & Ht2 & Hs2 & _).
  assert (H2 : queue_inv (queue w2)) by (apply schedule_poll_inv, Hq).
  set (w3 := if submitted_count (queue w2) =? 0 then _ else w2).
  assert (H3 : world_inv w3 /\ pending_installs (queue w3) = pending_installs (queue w1) /\
    trace w3 = trace w1 /\
    (0 < tracked_count (queue w3) -> submitted_count (queue w3) = 0 ->
     submit_due_us (queue w3) = if now_us env =? 0 then 1 else now_us env)).
  { unfold w3. destruct (Z.eqb_spec (submitted_count (queue w2)) 0) as [Hz|Hz].
    - destruct (schedule_cells (now_us env) (queue w2)) as (Hp3 & Ht3 & Hs3).
      split_and!; [split; [by apply schedule_submit_inv|apply Hq]|exact (eq_trans Hp3 Hp2)|done|].
      cbn [set_queue queue]. rewrite Ht3, Hs3. intros Hpos _.
      unfold schedule_queued_install_submit, count_queued_installs. rewrite Hz.
      destruct (Z.ltb_spec 0 (tracked_count (queue w2) - 0)); [|lia].
      destruct (Z.leb_spec (tracked_count (queue w2) - 0) 0); [lia|]. done.
    - split_and!; [by split; [|apply Hq]|done|done|]. intros _ ?. lia. }
  destruct H3 as (Hi3 & Hp3 & Htr3 & Hdue).
  eexists. split; [done|]. destruct (sm_install_has_pending_work (queue w3)) eqn:Hpw; simpl.
  - rewrite Hp3, Htr3, Hl, Htr, Hpw, app_nil_r. split_and!; [done|done| |done]. by rewrite <-app_assoc.
  - rewrite Hp3, Htr3, Hl, Htr, Hpw. split_and!; [by split; apply Hi3|done| |done].
    by rewrite <-!app_assoc.
Qed.

(** *** Submission *)
Definition submit_result (now : Z) (e : pending_install_entry_t) : pending_install_entry_t :=
  if is_queued e then submitted_entry now e else e.

Definition queued_title (id : string) (e : pending_install_entry_t) : bool :=
  is_queued e && strcmp_eq (pi_title_id e) id.

Definition submit_at (now : Z) (w0 : world T) (j : nat) (w : world T) : Prop :=
  world_inv w /\
  pending_installs (queue w) = mixed (submit_result now) j (pending_installs (queue w0)) /\
  trace w = trace w0 /\ submit_due_us (queue w) = 0 /\
  tracked_count (queue w) = tracked_count (queue w0) /\
  forall id, id <> ""%string -> tr_get (titles w) id =
    if existsb (queued_title id) (take j (pending_installs (queue w0))) then 0
    else tr_get (titles w0) id.

Lemma submit_cell_step now w0 j w e : pending_installs (queue w0) !! j = Some e ->
  submit_at now w0 j w -> exists w', submit_cell now j w = Some w' /\ submit_at now w0 (S j) w'.
Proof.
  intros He (Hinv & Hl & Htr & Hd & Ht0 & Hg).
  pose proof (mixed_lookup (submit_result now) j (pending_installs (queue w0))) as Hj.
  rewrite <-Hl, He in Hj. unfold submit_at. rewrite (mixed_step _ j _ e He), (take_S_r _ _ e He), <-Hl.
  unfold submit_cell. rewrite Hj. unfold submit_result.
  destruct (is_queued e) eqn:Hqd; cbn [negb].
  2: { exists w. rewrite list_insert_id by done. split_and!; try done. intros id Hid.
       rewrite existsb_app. simpl. unfold queued_title at 2. rewrite Hqd. simpl.
       rewrite orb_false_r. by apply Hg. }
  pose proof (queued_tracked e Hqd) as Ht. destruct Hinv as [Hq Hok].
  pose proof (co_fits _ _ _ (qi_cells _ Hq) j e Hj Ht) as Hfit.
  destruct (tr_clear_ok _ _ Hok (proj1 Hfit)) as [Hok' Hget].
  eexists. split; [done|]. simpl. split_and!; [|done..|].
  - split; [|done]. destruct Hq as [Hc Hp Hi Hb].
    pose proof (cells_insert _ _ _ j e (submitted_entry now e) Hc Hj ltac:(done) ltac:(done)) as Hc'.
    rewrite Ht, (queued_not_submitted e Hqd) in Hc'.
    change (b2z (is_tracked (submitted_entry now e))) with 1 in Hc'.
    change (b2z (is_submitted (submitted_entry now e))) with 1 in Hc'. simpl in Hc'.
    replace (tracked_count (queue w) + 1 - 1) with (tracked_count (queue w)) in Hc' by lia.
    replace (submitted_count (queue w) + 1 - 0) with (submitted_count (queue w) + 1) in Hc' by lia.
    pose proof (co_submitted _ _ _ Hc) as Hsub.
    split; simpl; [apply Hc'|lia|done|done].
    intros _ i x Hne Hx Htx Heq. apply Hne. by eapply (co_unique _ _ _ Hc i j x e).
  - intros id Hid. rewrite (Hget id Hid), existsb_app. simpl. unfold queued_title at 2. rewrite Hqd. simpl.
    case_decide as Heq.
    + subst id. rewrite strcmp_eq_refl. simpl. by rewrite orb_true_r.
    + rewrite (proj2 (strcmp_eq_false _ _)) by congruence. simpl. rewrite orb_false_r. by apply Hg.
Qed.

Lemma submit_loop now w0 : world_inv w0 -> submit_due_us (queue w0) = 0 -> exists w,
  for_cells (submit_cell now) MAX_PENDING 0 w0 = Some w /\ submit_at now w0 MAX_PENDING w.
Proof.
  intros Hinv Hd. apply (for_cells_rule (submit_at now w0)).
  - intros j v Hj. pose proof (co_len _ _ _ (qi_cells _ (wi_queue _ Hinv))) as Hlen.
    destruct (lookup_lt_is_Some_2 (pending_installs (queue w0)) j ltac:(lia)) as [e He].
    by apply (submit_cell_step now w0 j v e).
  - split_and!; try done.
Qed.

(** The batch goes to the installer now. *)
Definition submission_due (env : install_env) (q : install_queue) : bool :=
  negb (sleep_mode env) && (0 <? count_queued_installs q) && (submitted_count q <=? 0) &&
  negb (negb (submit_due_us q =? 0) && negb (now_us env =? 0) && (now_us env <? submit_due_us q)).

Lemma submit_not_due env w : submission_due env (queue w) = false ->
  sm_install_submit_queued header more env w = Some (true, w).
Proof.
  unfold submission_due, sm_install_submit_queued. intros Hd.
  destruct (sleep_mode env); [done|]. destruct (Z.leb_spec (count_queued_installs (queue w)) 0); [done|].
  destruct (Z.ltb_spec 0 (submitted_count (queue w))); [done|].
  destruct (Z.ltb_spec 0 (count_queued_installs (queue w))); [|lia].
  destruct (Z.leb_spec (submitted_count (queue w)) 0); [|lia]. simpl in Hd.
  destruct (_ && _); done.
Qed.

Definition batch_notice (w : world T) : list install_event :=
  if batch_announced (queue w) then []
  else [EvBatchNotice (batch_message header more (pending_installs (queue w))
                         (count_queued_installs (queue w)))].

Lemma notify_batch_spec w : world_inv w -> 0 < count_queued_installs (queue w) ->
  let w' := notify_queued_install_batch header more w in
  world_inv w' /\ titles w' = titles w /\ trace w' = trace w ++ batch_notice w /\
  queue w' = set_flags true (submit_failure_notified (queue w)) (queue w).
Proof.
  intros Hinv Hc w'. unfold w', notify_queued_install_batch, batch_notice.
  destruct (Z.leb_spec (count_queued_installs (queue w)) 0); [lia|]. simpl.
  destruct (batch_announced (queue w)) eqn:Hb.
  - rewrite app_nil_r. split_and!; try done. destruct (queue w); simpl in *. by subst.
  - simpl. split_and!; try done. split; [|apply Hinv]. apply set_flags_inv; [apply Hinv|].
    apply queued_pos in Hc. pose proof (inv_counts _ (wi_queue _ Hinv)). simpl. lia.
Qed.

Lemma submit_failed env w : world_inv w -> submission_due env (queue w) = true ->
  install_all_res env <> 0 ->
  exists w', sm_install_submit_queued header more env w = Some (false, w') /\ world_inv w' /\
    pending_installs (queue w') = pending_installs (queue w) /\ titles w' = titles w /\
    submitted_count (queue w') = 0 /\
    submit_due_us (queue w') =
      (if now_us env =? 0 then 1 else u64 (now_us env + INSTALL_SUBMIT_RETRY_US)) /\
    trace w' = trace w ++ batch_notice w ++ [EvInstallAll] ++
      (if submit_failure_notified (queue w) then []
       else [EvBatchFailedNotice (count_queued_installs (queue w)) (u32 (install_all_res env))]).
Proof.
  intros Hinv Hdue Hres. pose proof (inv_counts _ (wi_queue _ Hinv)) as Hcnt.
  unfold submission_due in Hdue. bool_hyps. unfold sm_install_submit_queued.
  assert (Hq : 0 < count_queued_installs (queue w)) by lia.
  assert (Hs : submitted_count (queue w) = 0) by lia.
  replace (sleep_mode env) with false by done.
  replace (count_queued_installs (queue w) <=? 0) with false by (symmetry; lia).
  rewrite Hs. replace (_ && _) with false by done. cbn [Z.ltb Z.compare].
  destruct (notify_batch_spec w Hinv Hq) as (Hi1 & Ht1 & Htr1 & Hq1).
  assert (Ht0 : tracked_count (queue w) <> 0).
  { apply queued_pos in Hq. lia. }
  destruct (Z.eqb_spec (install_all_res env) 0); [done|]. cbn [negb].
  cbn [emit queue]. rewrite Hq1. cbn [set_flags submit_failure_notified].
  assert (Hdue' : forall b, submit_due_us (schedule_queued_install_submit_retry (now_us env)
      (set_flags true b (queue w))) =
      if now_us env =? 0 then 1 else u64 (now_us env + INSTALL_SUBMIT_RETRY_US)).
  { intros b. unfold schedule_queued_install_submit_retry.
    change (count_queued_installs (set_flags true b (queue w))) with (count_queued_installs (queue w)).
    simpl. rewrite Hs. destruct (Z.leb_spec (count_queued_installs (queue w)) 0); [lia|]. done. }
  assert (Hcell : forall b, pending_installs (schedule_queued_install_submit_retry (now_us env)
      (set_flags true b (queue w))) = pending_installs (queue w) /\
      submitted_count (schedule_queued_install_submit_retry (now_us env)
      (set_flags true b (queue w))) = submitted_count (queue w)).
  { intros b. unfold schedule_queued_install_submit_retry. by destruct (_ || _). }
  assert (Hinv' : forall b, queue_inv (schedule_queued_install_submit_retry (now_us env)
      (set_flags true b (queue w)))).
  { intros b. apply schedule_retry_inv, set_flags_inv; [apply Hinv|done]. }
  destruct (submit_failure_notified (queue w)) eqn:Hn; eexists; (split; [done|]); simpl; rewrite ?Hq1; simpl.
  - destruct (Hcell true) as [Hc1 Hc2]. rewrite Htr1, Hc1, Hc2, Hdue', <-!app_assoc.
    split_and!; try done. split; simpl; [rewrite Hq1; exact (Hinv' true)|rewrite Ht1; apply Hinv].
  - change (set_flags true true (set_flags true false (queue w))) with (set_flags true true (queue w)).
    destruct (Hcell true) as [Hc1 Hc2]. rewrite Htr1, Hc1, Hc2, Hdue', <-!app_assoc.
    split_and!; try done. split; simpl; [rewrite Hq1; exact (Hinv' true)|rewrite Ht1; apply Hinv].
Qed.

Lemma submit_succeeds env w : world_inv w -> submission_due env (queue w) = true ->
  install_all_res env = 0 ->
  exists w', sm_install_submit_queued header more env w = Some (true, w') /\ world_inv w' /\
    pending_installs (queue w') = submit_result (now_us env) <$> pending_installs (queue w) /\
    submitted_count (queue w') = tracked_count (queue w) /\
    tracked_count (queue w') = tracked_count (queue w) /\
    (forall id, id <> ""%string -> tr_get (titles w') id =
       if existsb (queued_title id) (pending_installs (queue w)) then 0 else tr_get (titles w) id) /\
    trace w' = trace w ++ batch_notice w ++ [EvInstallAll; EvInvalidateAppDb].
Proof.
  intros Hinv Hdue Hres. pose proof (inv_counts _ (wi_queue _ Hinv)) as Hcnt.
  unfold submission_due in Hdue. bool_hyps. unfold sm_install_submit_queued.
  assert (Hq : 0 < count_queued_installs (queue w)) by lia.
  assert (Hs : submitted_count (queue w) = 0) by lia.
  replace (sleep_mode env) with false by done.
  replace (count_queued_installs (queue w) <=? 0) with false by (symmetry; lia).
  rewrite Hs. replace (_ && _) with false by done. cbn [Z.ltb Z.compare].
  destruct (notify_batch_spec w Hinv Hq) as (Hi1 & Ht1 & Htr1 & Hq1).
  rewrite Hres. cbn [negb Z.eqb].
  set (w2 := set_queue (fun q => set_flags (batch_announced q) false (set_submit_due 0 q)) _).
  assert (Hw2 : world_inv w2).
  { unfold w2. split; simpl; [|rewrite Ht1; apply Hinv]. rewrite Hq1. apply set_flags_inv; simpl.
    - apply set_submit_inv; [|done]. by rewrite <-Hq1; apply Hi1.
    - apply queued_pos in Hq. lia. }
  assert (Hcell2 : pending_installs (queue w2) = pending_installs (queue w) /\
    tracked_count (queue w2) = tracked_count (queue w) /\ titles w2 = titles w /\
    trace w2 = trace w ++ batch_notice w ++ [EvInstallAll]).
  { unfold w2. simpl. rewrite Hq1, Ht1, Htr1, <-app_assoc. done. }
  destruct Hcell2 as (Hp2 & Htc2 & Hti2 & Htr2).
  destruct (submit_loop (now_us env) w2 Hw2) as (w3 & -> & Hi3 & Hp3 & Htr3 & _ & Htc3 & Hg3); [done|].
  pose proof (co_len _ _ _ (qi_cells _ (wi_queue _ Hinv))) as Hlen.
  rewrite mixed_all, Hp2 in Hp3 by (rewrite ?Hp2; lia).
  eexists. split; [done|]. simpl.
  destruct (schedule_poll_cells (now_us env) (queue w3)) as (-> & -> & -> & _).
  split_and!; [split; [by apply schedule_poll_inv, Hi3|apply Hi3]|done| |congruence| |].
  - pose proof (qi_cells _ (wi_queue _ Hi3)) as Hc3.
    rewrite <-Htc2, <-Htc3, (co_submitted _ _ _ Hc3), (co_tracked _ _ _ Hc3).
    rewrite <-submitted_le_tracked, Hp3.
    assert (Hzero : count_if is_queued (submit_result (now_us env) <$> pending_installs (queue w)) = 0%nat).
    { clear. induction (pending_installs (queue w)) as [|e l IH]; [done|].
      rewrite fmap_cons. cbn [count_if]. rewrite IH. unfold submit_result.
      destruct (is_queued e) eqn:Hq; [done|]. by rewrite Hq. }
    rewrite Hzero. lia.
  - intros id Hid. rewrite (Hg3 id Hid), Hp2, Hti2, take_ge by lia. done.
  - rewrite Htr3, Htr2, <-!app_assoc. done.
Qed.

(** *** A failed submission *)
Definition failure_fold (l : list pending_install_entry_t) (t : T) : T :=
  fold_left (fun t e => if is_queued e
                        then from_option fst t (tr_bump t (pi_title_id e)) else t) l t.

(** The attempts the title has after this failure, when its turn comes. *)
Definition attempts_at (l : list pending_install_entry_t) (t : T) (i : nat) (id : string) : Z :=
  Z.min 255 (tr_get (failure_fold (take i l) t) id + 1).

Definition failure_result (l : list pending_install_entry_t) (t : T) (i : nat)
    (e : pending_install_entry_t) : pending_install_entry_t :=
  if is_queued e && (MAX_FAILED_MOUNT_ATTEMPTS <=? attempts_at l t i (pi_title_id e))
  then zero_pending else e.

Definition failure_at (w0 : world T) (j : nat) (w : world T) : Prop :=
  let l := pending_installs (queue w0) in
  world_inv w /\ trace w = trace w0 /\ titles w = failure_fold (take j l) (titles w0) /\
  (tracked_count (queue w) <> 0 -> submit_due_us (queue w) = submit_due_us (queue w0)) /\
  submitted_count (queue w) = submitted_count (queue w0) /\
  tracked_count (queue w) <= tracked_count (queue w0) /\
  length (pending_installs (queue w)) = length l /\
  forall i e, l !! i = Some e -> pending_installs (queue w) !! i =
    Some (if (i <? j)%nat then failure_result l (titles w0) i e else e).

Lemma failure_cell_step w0 j w e : pending_installs (queue w0) !! j = Some e ->
  failure_at w0 j w -> exists w', failure_cell j w = Some w' /\ failure_at w0 (S j) w'.
Proof.
  intros He (Hinv & Htr & Hti & Hd & Hs & Htle & Hlen & Hl). set (l := pending_installs (queue w0)) in *.
  pose proof (Hl j e He) as Hj. rewrite Nat.ltb_irrefl in Hj.
  assert (Hupd : forall x, x = failure_result l (titles w0) j e ->
    forall i e', l !! i = Some e' -> <[j := x]> (pending_installs (queue w)) !! i =
      Some (if (i <? S j)%nat then failure_result l (titles w0) i e' else e')).
  { intros x -> i e' Hi. destruct (decide (i = j)) as [->|Hne].
    - rewrite list_lookup_insert_eq by by eapply lookup_lt_Some.
      destruct (Nat.ltb_spec j (S j)); [|lia]. fold l in He. congruence.
    - rewrite list_lookup_insert_ne, (Hl i e' Hi) by done.
      destruct (Nat.ltb_spec i j), (Nat.ltb_spec i (S j)); done || lia. }
  assert (Hkeep : e = failure_result l (titles w0) j e -> forall i e', l !! i = Some e' ->
    pending_installs (queue w) !! i =
      Some (if (i <? S j)%nat then failure_result l (titles w0) i e' else e')).
  { intros Hx i e' Hi. rewrite <-(Hupd e Hx i e' Hi). by rewrite list_insert_id. }
  unfold failure_cell, failure_at. fold l. rewrite Hj.
  assert (Hfold : failure_fold (take (S j) l) (titles w0) =
    if is_queued e then from_option fst (titles w) (tr_bump (titles w) (pi_title_id e)) else titles w).
  { unfold failure_fold. rewrite (take_S_r _ _ e He), fold_left_app. simpl.
    fold (failure_fold (take j l) (titles w0)). by rewrite <-Hti. }
  rewrite Hfold. destruct (is_queued e) eqn:Hqd; cbn [negb].
  2: { exists w. split_and!; try done. apply Hkeep. unfold failure_result. by rewrite Hqd. }
  pose proof (queued_tracked e Hqd) as Ht.
  pose proof (co_fits _ _ _ (qi_cells _ (wi_queue _ Hinv)) j e Hj Ht) as Hfit.
  destruct (bump_total w e Hinv Hfit) as (t & n & -> & Hok & Hb & Hn). rewrite Hb. cbn [from_option fst].
  assert (Hres : failure_result l (titles w0) j e =
    if MAX_FAILED_MOUNT_ATTEMPTS <=? n then zero_pending else e).
  { unfold failure_result, attempts_at. rewrite Hqd, <-Hti, <-Hn. done. }
  eexists. split; [done|]. destruct (MAX_FAILED_MOUNT_ATTEMPTS <=? n) eqn:Hmax.
  - unfold drop_queued_install_entry. cbn [queue]. rewrite Hj, Hqd. simpl.
    destruct (clear_spec j _ e (wi_queue _ Hinv) Hj Ht) as (Hcq & Hcl & Hct & Hcs & _).
    rewrite (queued_not_submitted e Hqd) in Hcs. simpl in Hcs.
    split_and!; try done.
    + apply (clear_due j _ e); [apply Hinv|done..].
    + lia.
    + lia.
    + by rewrite Hcl, length_insert.
    + rewrite Hcl. by apply Hupd.
  - simpl. split_and!; try done; [split; [apply Hinv|done]|by apply Hkeep].
Qed.

Lemma failure_loop w0 : world_inv w0 -> exists w,
  sm_install_note_submit_failure w0 = Some w /\ failure_at w0 MAX_PENDING w.
Proof.
  intros Hinv. apply (for_cells_rule (failure_at w0)).
  - intros j v Hj. pose proof (co_len _ _ _ (qi_cells _ (wi_queue _ Hinv))) as Hlen.
    destruct (lookup_lt_is_Some_2 (pending_installs (queue w0)) j ltac:(lia)) as [e He].
    by apply (failure_cell_step w0 j v e).
  - split_and!; try done.
Qed.
End loops.

(** ** Runs *)
Definition op_ok (op : install_op) : Prop :=
  match op with OQueue _ c _ => (strlen (sc_title_id c) < MAX_TITLE_ID)%nat | _ => True end.

Definition time_ok (now : Z) : Prop := 0 <= now /\ now + INSTALL_POLL_INTERVAL_US <= UINT64_MAX.

(** Nothing is forgotten and the clock does not wrap. *)
Definition op_keeps_wake (op : install_op) : Prop :=
  match op with
  | OQueue env _ _ | OPoll env | OSubmit env => time_ok (now_us env)
  | OService e1 e2 e3 => time_ok (now_us e2) /\ time_ok (now_us e3)
  | ONoteFailure => True
  | OForget _ => False
  end.

(** Queued work that is not blocked by a running batch has a due time. *)
Definition wake_inv (q : install_queue) : Prop :=
  0 < tracked_count q - submitted_count q -> submitted_count q = 0 -> submit_due_us q <> 0.

Lemma time_due now : time_ok now -> (if now =? 0 then 1 else now) <> 0.
Proof. intros [? _]. destruct (Z.eqb_spec now 0); lia. Qed.

Lemma time_retry now : time_ok now ->
  (if now =? 0 then 1 else u64 (now + INSTALL_SUBMIT_RETRY_US)) <> 0.
Proof.
  unfold time_ok, INSTALL_POLL_INTERVAL_US, INSTALL_SUBMIT_RETRY_US. intros [? ?].
  destruct (Z.eqb_spec now 0); [lia|]. rewrite u64_small; lia.
Qed.

Section runs.
Context {T : Type} `{TitleRetry T} (header more : Z -> string).

(** The world after a call: the invariant, and the due time unless [P]. *)
Definition call_ok (keeps : Prop) (w w' : world T) : Prop :=
  world_inv w' /\ (keeps -> wake_inv (queue w) -> wake_inv (queue w')).

Lemma call_ok_refl P w : world_inv w -> call_ok P w w.
Proof. by split. Qed.

Lemma poll_call env w : world_inv w -> exists w', sm_install_poll_pending env w = Some w' /\
  call_ok (time_ok (now_us env)) w w'.
Proof.
  intros Hinv. unfold sm_install_poll_pending. destruct (sleep_mode env); [by eauto using call_ok_refl|].
  destruct (decide (0 < submitted_count (queue w))) as [Hs|Hs].
  - destruct (poll_spec env w Hinv Hs) as (w' & -> & Hi & _ & _ & Hd). exists w'. split; [done|].
    split; [done|]. intros Ht _ Hpos H0. rewrite Hd by lia. by apply time_due.
  - unfold poll_pending_installs. destruct (Z.leb_spec (submitted_count (queue w)) 0); [|lia].
    by eauto using call_ok_refl.
Qed.

Lemma submit_call env w : world_inv w -> exists ok w',
  sm_install_submit_queued header more env w = Some (ok, w') /\ call_ok (time_ok (now_us env)) w w'.
Proof.
  intros Hinv. destruct (submission_due env (queue w)) eqn:Hd.
  2: { exists true, w. split; [by apply submit_not_due|by apply call_ok_refl]. }
  destruct (decide (install_all_res env = 0)) as [Hr|Hr].
  - destruct (submit_succeeds header more env w Hinv Hd Hr) as (w' & -> & Hi & _ & Hs & Ht & _).
    exists true, w'. split; [done|]. split; [done|]. intros _ _ Hx. lia.
  - destruct (submit_failed header more env w Hinv Hd Hr) as (w' & -> & Hi & _ & _ & Hs & Hdue & _).
    exists false, w'. split; [done|]. split; [done|]. intros Ht _ _ _. rewrite Hdue. by apply time_retry.
Qed.

Lemma failure_call w : world_inv w -> exists w', sm_install_note_submit_failure w = Some w' /\
  call_ok True w w'.
Proof.
  intros Hinv. destruct (failure_loop w Hinv) as (w' & -> & Hi & _ & _ & Hd & Hs & Ht & _).
  exists w'. split; [done|]. split; [done|]. intros _ Hw Hpos H0.
  pose proof (inv_counts _ (wi_queue _ Hi)). rewrite Hd by lia. apply Hw; lia.
Qed.

Lemma queue_call env c snd0 w : world_inv w -> (strlen (sc_title_id c) < MAX_TITLE_ID)%nat ->
  call_ok (time_ok (now_us env)) w
    (set_queue (fun q => (sm_install_queue_candidate env c snd0 q).2) w).
Proof.
  intros [Hq Hok] Hlen. unfold set_queue.
  destruct (queue_candidate_cases env c snd0 (queue w) Hq) as [[-> _]|Hgo]; [by split|].
  destruct Hgo as (Hc & Hen & _ & i & e & Hr & He & [[_ ->]|Hs]); [by split|].
  assert (Hfit : title_fits (sc_title_id c)).
  { split; [|done]. unfold candidate_complete in Hc. bool_hyps. by apply strcmp_eq_false. }
  destruct (queue_candidate_go env c snd0 (queue w) i e Hq Hfit Hc Hen Hr He Hs)
    as (Hi & _ & Hsub & _ & Hd).
  split; [by split|]. simpl. intros Ht _ _ H0. rewrite Hd by congruence. by apply time_due.
Qed.

Lemma run_op_call op w : world_inv w -> op_ok op -> exists w',
  run_install_op header more op w = Some w' /\ call_ok (op_keeps_wake op) w w'.
Proof.
  intros Hinv Hop. destruct op as [env c snd0|id|env|e1 e2 e3|env|]; simpl in *.
  - eexists. split; [done|]. by apply queue_call.
  - eexists. split; [done|]. split; [|done]. split; [|apply Hinv]. simpl.
    unfold sm_install_forget_pending_title. destruct (find_pending_install_entry _ _); [|apply Hinv].
    apply clear_inv, Hinv.
  - by apply poll_call.
  - unfold sm_install_service_pending. destruct (sleep_mode e1); [by eauto using call_ok_refl|].
    destruct (negb _); [by eauto using call_ok_refl|].
    destruct (poll_call e2 w Hinv) as (w1 & -> & Hi1 & Hw1).
    destruct (0 <? _); [|eexists; split; [done|]; split; [done|]; tauto].
    destruct (submit_call e3 w1 Hi1) as (ok & w2 & -> & Hi2 & Hw2).
    destruct ok; [eexists; split; [done|]; split; [done|]; tauto|].
    destruct (failure_call w2 Hi2) as (w3 & -> & Hi3 & Hw3).
    eexists. split; [done|]. split; [done|]. tauto.
  - destruct (submit_call env w Hinv) as (ok & w' & -> & Hw). by exists w'.
  - by apply failure_call.
Qed.

Lemma run_ops_call ops w : world_inv w -> Forall op_ok ops -> exists w',
  run_install_ops header more ops w = Some w' /\ call_ok (Forall op_keeps_wake ops) w w'.
Proof.
  revert w. induction ops as [|op ops IH]; intros w Hinv Hops; simpl; [by eauto using call_ok_refl|].
  apply Forall_cons_1 in Hops as [Hop Hops].
  destruct (run_op_call op w Hinv Hop) as (w1 & -> & Hi1 & Hw1).
  destruct (IH w1 Hi1 Hops) as (w2 & -> & Hi2 & Hw2). exists w2. split; [done|]. split; [done|].
  intros Hall. apply Forall_cons_1 in Hall as [Hk Hks]. auto.
Qed.
End runs.

(** ** Deadlines *)
Definition deadline_of (e : pending_install_entry_t) : Z := requested_at_us e + INSTALL_WAIT_TIMEOUT_US.

(** Cells whose deadline counts. *)
Definition has_deadline (e : pending_install_entry_t) : bool :=
  is_submitted e && negb (requested_at_us e =? 0).

Lemma next_deadline_spec l n : 0 <= n ->
  (forall i e, l !! i = Some e -> has_deadline e = true ->
     0 <= requested_at_us e /\ deadline_of e <= UINT64_MAX) ->
  let r := next_deadline_from l n in
  0 <= r /\ (n <> 0 -> 0 < r <= n) /\
  (forall i e, l !! i = Some e -> has_deadline e = true -> 0 < r <= deadline_of e).
Proof.
  revert n. induction l as [|e l IH]; intros n Hn Hl; simpl.
  { split_and!; [done|lia|]. intros i e He. by rewrite lookup_nil in He. }
  assert (Hl' : forall i x, l !! i = Some x -> has_deadline x = true ->
     0 <= requested_at_us x /\ deadline_of x <= UINT64_MAX) by (intros i; apply (Hl (S i))).
  destruct (negb (is_submitted e) || (requested_at_us e =? 0)) eqn:Hd.
  - destruct (IH n Hn Hl') as (H1 & H2 & H3). split_and!; [done|done|].
    intros [|i] x Hx Hdx; simplify_eq/=; [|by eapply H3].
    exfalso. unfold has_deadline in Hdx. bool_hyps. by rewrite H, H0 in Hd.
  - assert (Hde : has_deadline e = true).
    { unfold has_deadline. apply orb_false_iff in Hd as [Ha Hb]. apply negb_false_iff in Ha.
      by rewrite Ha, Hb. }
    destruct (Hl 0%nat e eq_refl Hde) as [Hr Hmax]. unfold deadline_of in *.
    assert (Hdl : INSTALL_WAIT_TIMEOUT_US = 300000000) by done.
    rewrite u64_small by lia.
    set (n' := if (n =? 0) || _ then _ else n).
    assert (Hn' : 0 < n' <= requested_at_us e + INSTALL_WAIT_TIMEOUT_US /\ (n <> 0 -> n' <= n)).
    { unfold n'. destruct (Z.eqb_spec n 0); simpl; [lia|].
      destruct (Z.ltb_spec (requested_at_us e + INSTALL_WAIT_TIMEOUT_US) n); lia. }
    destruct (IH n' ltac:(lia) Hl') as (H1 & H2 & H3). split_and!; [done|lia|].
    intros [|i] x Hx Hdx; simplify_eq/=; [lia|by eapply H3].
Qed.

(** * Theorems *)
Section theorems.
Context {T : Type} `{TitleRetry T} (header more : Z -> string).

Definition initial_world (t : T) : world T := World empty_queue t [].

Lemma initial_world_inv t : tr_ok t -> world_inv (initial_world t).
Proof. split; [exact empty_queue_inv|done]. Qed.

(** every sequence of install-queue calls runs to completion (no
    NULL counter entry is ever dereferenced) and keeps the queue invariant:
    free cells are zeroed, the tracked cells have distinct non-empty titles,
    the tracked and submitted counters count their cells, there is no poll
    without a submitted title and no due submission while a batch is running. *)
Theorem install_queue_invariant (t : T) ops : tr_ok t -> Forall op_ok ops ->
  exists w, run_install_ops header more ops (initial_world t) = Some w /\
    queue_inv (queue w) /\ tr_ok (titles w).
Proof.
  intros Ht Hops. destruct (run_ops_call header more ops _ (initial_world_inv t Ht) Hops)
    as (w & Hw & [Hq Hok] & _). eauto.
Qed.

(** Claim C30: no lost wake-up.  After any sequence of queue, poll, submit,
    failure and service calls made while the clock is away from its wrap-around,
    a queue that still tracks a title always has a wake-up time, so the scanner
    comes back to service it. *)
Theorem install_wakeup_pending (t : T) ops w env now : tr_ok t -> Forall op_ok ops ->
  Forall op_keeps_wake ops -> run_install_ops header more ops (initial_world t) = Some w ->
  0 < tracked_count (queue w) -> sleep_mode env = false -> time_ok now ->
  sm_install_next_wake_us env now (queue w) <> 0.
Proof.
  intros Ht Hops Hk Hrun Htr Hsleep Hnow.
  destruct (run_ops_call header more ops _ (initial_world_inv t Ht) Hops) as (w' & Hw' & [Hq _] & Hwake).
  rewrite Hrun in Hw'. injection Hw' as <-. specialize (Hwake Hk ltac:(done)).
  pose proof (inv_counts _ Hq). unfold sm_install_next_wake_us, install_queue_active. rewrite Hsleep.
  destruct (Z.ltb_spec 0 (tracked_count (queue w))); [|lia]. rewrite orb_true_r. cbn [negb].
  destruct (Z.leb_spec (submitted_count (queue w)) 0); [apply Hwake; lia|].
  set (w2 := if _ && _ then submit_due_us _ else _).
  destruct (Z.eqb_spec w2 0); [|done]. by apply time_retry.
Qed.

(** The wake-up is never late: while a batch runs it is no later
    than any submitted title's five-minute deadline and no later than the next
    poll. *)
Theorem install_wakeup_in_time q env now i e : queue_inv q ->
  sleep_mode env = false -> 0 <= poll_due_us q -> 
  (forall j x, pending_installs q !! j = Some x -> has_deadline x = true ->
     0 <= requested_at_us x /\ deadline_of x <= UINT64_MAX) ->
  pending_installs q !! i = Some e -> has_deadline e = true ->
  let wake := sm_install_next_wake_us env now q in
  0 < wake <= deadline_of e /\ (poll_due_us q <> 0 -> wake <= poll_due_us q).
Proof.
  intros Hq Hsleep Hpd Hbound He Hd wake. unfold wake, sm_install_next_wake_us, install_queue_active.
  rewrite Hsleep. pose proof (qi_cells _ Hq) as Hc. pose proof (inv_counts _ Hq).
  assert (Hs : 0 < submitted_count q).
  { rewrite (co_submitted _ _ _ Hc). unfold has_deadline in Hd. bool_hyps.
    pose proof (count_if_pos is_submitted _ i e He ltac:(done)). lia. }
  destruct (Z.ltb_spec 0 (tracked_count q)); [|lia]. rewrite orb_true_r. cbn [negb].
  unfold next_pending_install_timeout_us. destruct (Z.leb_spec (submitted_count q) 0); [lia|].
  destruct (next_deadline_spec (pending_installs q) 0 ltac:(lia) Hbound) as (Hr0 & _ & Hall).
  destruct (Hall i e He Hd) as [Hpos Hle]. set (r := next_deadline_from _ 0) in *.
  rewrite (qi_batch _ Hq Hs). cbn [negb Z.eqb andb].
  destruct (Z.eqb_spec (poll_due_us q) 0), (Z.eqb_spec r 0), (Z.ltb_spec (poll_due_us q) r);
    cbn [negb orb andb]; try lia;
    match goal with |- context [?x =? 0] => destruct (Z.eqb_spec x 0) end; lia.
Qed.

(** queueing a candidate, on every branch.  It is refused, without
    any change, when it is incomplete, when batch installs are disabled or when
    no cell is left; a title that is already submitted is left alone; otherwise
    the title's cell holds exactly the candidate's data in the queued state, and
    no other title's cell changes. *)
Theorem queue_candidate_spec env c snd0 q : queue_inv q ->
  (strlen (sc_title_id c) < MAX_TITLE_ID)%nat ->
  let '(ok, q') := sm_install_queue_candidate env c snd0 q in
  queue_inv q' /\
  ok = candidate_complete c && app_install_all_enabled env &&
       (is_title_install_pending q (sc_title_id c) ||
        existsb (fun e => negb (is_tracked e)) (pending_installs q)) /\
  (ok = false -> q' = q) /\
  (ok = true -> is_title_install_pending q' (sc_title_id c) = true /\
     exists i e, pending_installs q !! i = Some e /\
       (is_tracked e = true -> pi_title_id e = sc_title_id c) /\
       (if is_submitted e then q' = q
        else pending_installs q' = <[i := queued_entry c snd0]> (pending_installs q))).
Proof.
  intros Hq Hlen. pose proof (queue_candidate_cases env c snd0 q Hq) as Hcases. simpl in Hcases.
  assert (Havail : candidate_complete c = true ->
    (is_title_install_pending q (sc_title_id c) || existsb (fun e => negb (is_tracked e)) (pending_installs q)) =
    match reserve_pending_install_entry q (sc_title_id c) with Some _ => true | None => false end).
  { intros _. unfold is_title_install_pending, reserve_pending_install_entry.
    destruct (find_pending_install_entry q (sc_title_id c)); [done|]. simpl. clear.
    induction (pending_installs q) as [|x l IH]; [done|]. simpl. destruct (negb (is_tracked x)); [done|].
    rewrite IH. by destruct (find_index _ l). }
  destruct (sm_install_queue_candidate env c snd0 q) as [ok q'] eqn:Hr. simpl in Hcases.
  destruct Hcases as [(Heq & Hwhy)|(Hc & Hen & Hok & i & e & Hres & He & Hsub)].
  - injection Heq as -> ->. split_and!; [done| |done|done].
    destruct (candidate_complete c); [|done]. destruct (app_install_all_enabled env); [|done].
    rewrite Havail by done. destruct Hwhy as [?|[?|Hno]]; [done..|by rewrite Hno].
  - subst ok. assert (Hfit : title_fits (sc_title_id c)).
    { split; [|done]. unfold candidate_complete in Hc. bool_hyps. by apply strcmp_eq_false. }
    destruct (reserve_spec q _ i Hq (proj1 Hfit) Hres) as (e' & He' & Hti & _).
    rewrite He in He'. injection He' as <-.
    destruct Hsub as [[Hs ->]|Hs].
    + split_and!; [done|by rewrite Hc, Hen, Havail, Hres|done|]. intros _. split.
      * apply pending_iff; [done|]. exists i, e. pose proof (submitted_tracked e Hs). auto.
      * exists i, e. rewrite Hs. done.
    + destruct (queue_candidate_go env c snd0 q i e Hq Hfit Hc Hen Hres He Hs)
        as (Hi & Hp & _). rewrite Hr in Hi, Hp. simpl in Hi, Hp.
      split_and!; [done|by rewrite Hc, Hen, Havail, Hres|done|]. intros _. split.
      * apply pending_iff; [done|]. exists i, (queued_entry c snd0). rewrite Hp.
        rewrite list_lookup_insert_eq by by eapply lookup_lt_Some.
        split_and!; [done|done|]. by apply strlcpy_fits.
      * exists i, e. rewrite Hs. done.
Qed.

(** a submission, on every branch.  Nothing happens while the batch
    is not due (sleep mode, nothing queued, a batch running, the retry delay).
    When the installer refuses, the queue is kept, the retry is due two seconds
    later and the user is told once.  When it accepts, every queued title
    becomes submitted with the current time, its failure counter is cleared and
    no title stays queued. *)
Theorem submit_queued_spec env (w : world T) : world_inv w ->
  if negb (submission_due env (queue w))
  then sm_install_submit_queued header more env w = Some (true, w)
  else exists w', sm_install_submit_queued header more env w = Some (install_all_res env =? 0, w') /\
    world_inv w' /\
    if install_all_res env =? 0 then
      pending_installs (queue w') = submit_result (now_us env) <$> pending_installs (queue w) /\
      submitted_count (queue w') = tracked_count (queue w) /\
      (forall id, id <> ""%string -> tr_get (titles w') id =
         if existsb (queued_title id) (pending_installs (queue w)) then 0 else tr_get (titles w) id) /\
      trace w' = trace w ++ batch_notice header more w ++ [EvInstallAll; EvInvalidateAppDb]
    else
      pending_installs (queue w') = pending_installs (queue w) /\ titles w' = titles w /\
      submit_due_us (queue w') =
        (if now_us env =? 0 then 1 else u64 (now_us env + INSTALL_SUBMIT_RETRY_US)) /\
      trace w' = trace w ++ batch_notice header more w ++ [EvInstallAll] ++
        (if submit_failure_notified (queue w) then []
         else [EvBatchFailedNotice (count_queued_installs (queue w)) (u32 (install_all_res env))]).
Proof.
  intros Hinv. destruct (submission_due env (queue w)) eqn:Hd; cbn [negb]; [|by apply submit_not_due].
  destruct (Z.eqb_spec (install_all_res env) 0) as [Hr|Hr].
  - destruct (submit_succeeds header more env w Hinv Hd Hr) as (w' & ? & ? & ? & ? & _ & ? & ?). eauto 10.
  - destruct (submit_failed header more env w Hinv Hd Hr) as (w' & ? & ? & ? & ? & _ & ? & ?). eauto 10.
Qed.

(** a poll.  Every submitted title that the application database
    lists is announced, cached (and recorded for a manual source) exactly once
    and its cell freed; one that waited five minutes is reported and freed;
    all the others, queued ones included, keep their cells.  Staged mounts are
    released exactly when nothing is tracked any more. *)
Theorem poll_pending_spec env (w : world T) : world_inv w -> sleep_mode env = false ->
  0 < submitted_count (queue w) ->
  exists w', sm_install_poll_pending env w = Some w' /\ world_inv w' /\
    pending_installs (queue w') = poll_result env <$> pending_installs (queue w) /\
    trace w' = trace w ++ [EvInvalidateAppDb] ++
      concat (poll_events env <$> pending_installs (queue w)) ++
      (if sm_install_has_pending_work (queue w') then [] else [EvReleaseMounts]).
Proof.
  intros Hinv Hsl Hs. destruct (poll_spec env w Hinv Hs) as (w' & Hp & Hi & Hl & Htr & _).
  exists w'. unfold sm_install_poll_pending. rewrite Hsl. done.
Qed.

(** a refused batch costs every queued title one attempt, in cell
    order, and exactly the titles that reach MAX_FAILED_MOUNT_ATTEMPTS are
    dropped from the queue; submitted titles are not touched. *)
Theorem note_submit_failure_spec (w : world T) : world_inv w ->
  let l := pending_installs (queue w) in
  exists w', sm_install_note_submit_failure w = Some w' /\ world_inv w' /\ trace w' = trace w /\
    titles w' = failure_fold l (titles w) /\
    forall i e, l !! i = Some e -> pending_installs (queue w') !! i =
      Some (if is_queued e &&
               (MAX_FAILED_MOUNT_ATTEMPTS <=? attempts_at l (titles w) i (pi_title_id e))
            then zero_pending else e).
Proof.
  intros Hinv l. destruct (failure_loop w Hinv) as (w' & Hw & Hi & Htr & Hti & _ & _ & _ & Hlen & Hl).
  pose proof (co_len _ _ _ (qi_cells _ (wi_queue _ Hinv))) as Hl0.
  rewrite take_ge in Hti by lia. exists w'. split_and!; try done.
  intros i e He. rewrite (Hl i e He). pose proof (lookup_lt_Some _ _ _ He) as Hlt.
  assert (i < MAX_PENDING)%nat by (rewrite <-Hl0; exact Hlt).
  destruct (Nat.ltb_spec i MAX_PENDING); [done|lia].
Qed.
End theorems.

(** ** The batch notification *)
Lemma append_line_full size name id m n : (strlen m <= size - 1)%nat -> (0 < size)%nat ->
  let '(m', n') := append_batch_install_line size name id (m, n) in
  (strlen m' <= size - 1)%nat /\
  (n' = n + 1 \/ (n' = n /\ strlen m' = (size - 1)%nat)).
Proof.
  intros Hm Hs. unfold append_batch_install_line. destruct (Nat.leb_spec size (strlen m)); [lia|].
  unfold buffer_append. rewrite strlen_append.
  destruct (Nat.ltb_spec (strlen (install_line name id)) (size - strlen m)) as [Hf|Hf].
  - rewrite strlcpy_fits by done. split; [lia|]. by left.
  - assert (Hcut : strlen (strlcpy (install_line name id) (size - strlen m)) = (size - strlen m - 1)%nat).
    { unfold strlcpy. set (s := install_line name id) in *. clearbody s.
      assert (Hle : (size - strlen m - 1 <= strlen s)%nat) by lia. revert Hle.
      generalize (size - strlen m - 1)%nat. clear. unfold strlen. induction s as [|a s IH]; intros [|n] Hn;
        simpl in *; try lia. rewrite IH; lia. }
    rewrite Hcut. split; [lia|]. right. split; [done|lia].
Qed.

Lemma append_lines_full size l m n : (strlen m <= size - 1)%nat -> (0 < size)%nat ->
  let '(m', n') := append_batch_lines size l (m, n) in
  (strlen m' <= size - 1)%nat /\
  (strlen m = (size - 1)%nat -> strlen m' = (size - 1)%nat) /\
  (n' < n + Z.of_nat (count_if is_queued l) -> strlen m' = (size - 1)%nat).
Proof.
  revert m n. induction l as [|e l IH]; intros m n Hm Hs; cbn [append_batch_lines count_if]; [split_and!; [done|done|lia]|].
  destruct (is_queued e); [|apply IH; done].
  pose proof (append_line_full size (pi_title_name e) (pi_title_id e) m n Hm Hs) as Hone.
  destruct (append_batch_install_line size (pi_title_name e) (pi_title_id e) (m, n)) as [m1 n1] eqn:Hl.
  destruct Hone as [Hm1 Hcase]. specialize (IH m1 n1 Hm1 Hs).
  destruct (append_batch_lines size l (m1, n1)) as [m2 n2]. destruct IH as (Hm2 & Hfull & Hshort).
  split_and!; [done| |].
  - intros Hf. apply Hfull. destruct Hcase as [Hn|[_ Hc]]; [|done].
    unfold append_batch_install_line in Hl. destruct (Nat.leb_spec size (strlen m)); [lia|].
    unfold buffer_append in Hl. simplify_eq. rewrite strlen_append.
    destruct (Nat.ltb_spec (strlen (install_line (pi_title_name e) (pi_title_id e))) (size - strlen m));
      [|lia]. unfold install_line in *. rewrite !strlen_append in *. simpl in *. lia.
  - intros Hlt. destruct Hcase as [->|[-> Hc]]; [apply Hshort; lia|auto].
Qed.

(** the "and N more" suffix of the batch notification is lost
    whenever it is due.  If some title line did not fit, the cut line has
    already filled the message buffer, so the suffix adds nothing: the message
    is the one without it, for any localised texts. *)
Theorem batch_more_suffix_lost header more l queued message shown :
  append_batch_lines BATCH_MESSAGE_SIZE l (strlcpy (header queued) BATCH_MESSAGE_SIZE, 0) =
    (message, shown) ->
  shown < queued -> queued = Z.of_nat (count_if is_queued l) ->
  strlen message = (BATCH_MESSAGE_SIZE - 1)%nat /\ batch_message header more l queued = message.
Proof.
  intros Hl Hlt ->. assert (Hh : (strlen (strlcpy (header (Z.of_nat (count_if is_queued l)))
    BATCH_MESSAGE_SIZE) <= BATCH_MESSAGE_SIZE - 1)%nat).
  { pose proof (strlcpy_length (header (Z.of_nat (count_if is_queued l))) BATCH_MESSAGE_SIZE
      ltac:(unfold BATCH_MESSAGE_SIZE; lia)). lia. }
  pose proof (append_lines_full BATCH_MESSAGE_SIZE l _ 0 Hh ltac:(unfold BATCH_MESSAGE_SIZE; lia)) as Hf.
  rewrite Hl in Hf. destruct Hf as (_ & _ & Hfull). specialize (Hfull ltac:(lia)).
  split; [done|]. unfold batch_message. rewrite Hl. destruct (_ && _); [|done].
  unfold buffer_append. simpl. rewrite Hfull.
  replace (BATCH_MESSAGE_SIZE - (BATCH_MESSAGE_SIZE - 1))%nat with 1%nat
    by (unfold BATCH_MESSAGE_SIZE; lia).
  unfold strlcpy. simpl. destruct (more _); apply string_app_nil_r.
Qed.

(** ** Concrete runs *)
Definition demo_env (now res : Z) : install_env := Env true false now res (Some (strcmp_eq "CUSA00001")).
Definition demo_candidate (id : string) : scan_candidate_t :=
  Candidate (String.append "/data/homebrew/" id) id (String.append "Game " id) "" false.
Definition demo_text (n : Z) : string := "Installing".

Definition demo_install_ops : list install_op :=
  [OQueue (demo_env 1000 0) (demo_candidate "CUSA00001") true;
   OSubmit (demo_env 2000 0);
   OQueue (demo_env 3000 0) (demo_candidate "CUSA00002") false].

Definition demo_world : world title_state :=
  default (initial_world empty_table)
    (run_install_ops demo_text demo_text demo_install_ops (initial_world empty_table)).

Lemma demo_ops_ok : Forall op_ok demo_install_ops /\ Forall op_keeps_wake demo_install_ops.
Proof. split; repeat constructor; vm_compute; lia || discriminate. Qed.

Lemma demo_world_run :
  run_install_ops demo_text demo_text demo_install_ops (initial_world empty_table) = Some demo_world.
Proof. vm_compute. reflexivity. Qed.

Lemma empty_retry_ok : tr_ok (empty_table : title_state).
Proof. unfold tr_ok, title_state_retry. exact empty_title_inv. Qed.

Lemma demo_world_inv : world_inv demo_world.
Proof.
  destruct (run_ops_call demo_text demo_text demo_install_ops (initial_world empty_table)
    (initial_world_inv (T := title_state) empty_table empty_retry_ok) (proj1 demo_ops_ok)) as (w & Hw & Hi & _).
  rewrite demo_world_run in Hw. apply Some_inj in Hw. rewrite Hw. exact Hi.
Qed.

(** forgetting the last submitted title of a batch loses the wake-up
    of the titles queued behind it: CUSA00002 is still pending, nothing is
    running, and [sm_install_next_wake_us] answers "no deadline". *)
Theorem forget_submitted_loses_wakeup :
  let q := sm_install_forget_pending_title "CUSA00001" (queue demo_world) in
  is_title_install_pending q "CUSA00002" = true /\ submitted_count q = 0 /\
  sm_install_next_wake_us (demo_env 4000 0) 4000 q = 0.
Proof. vm_compute. split_and!; reflexivity. Qed.

Lemma install_queue_invariant_witness : Forall op_ok demo_install_ops /\
  exists w, run_install_ops demo_text demo_text demo_install_ops (initial_world empty_table) = Some w /\
    queue_inv (queue w) /\ tr_ok (titles w).
Proof.
  split; [exact (proj1 demo_ops_ok)|].
  apply (install_queue_invariant demo_text demo_text (empty_table : title_state)).
  - exact empty_retry_ok.
  - exact (proj1 demo_ops_ok).
Defined.

Lemma install_wakeup_pending_witness : 0 < tracked_count (queue demo_world) /\
  sm_install_next_wake_us (demo_env 5000 0) 5000 (queue demo_world) <> 0.
Proof.
  split; [vm_compute; reflexivity|].
  apply (install_wakeup_pending demo_text demo_text (empty_table : title_state) demo_install_ops).
  - exact empty_retry_ok.
  - exact (proj1 demo_ops_ok).
  - exact (proj2 demo_ops_ok).
  - exact demo_world_run.
  - vm_compute. reflexivity.
  - reflexivity.
  - vm_compute. split; discriminate.
Defined.

Definition demo_submitted : pending_install_entry_t :=
  default zero_pending (pending_installs (queue demo_world) !! 0%nat).

(** No cell of the demonstration queue has a deadline near the wrap-around. *)
Lemma demo_deadlines j x : pending_installs (queue demo_world) !! j = Some x ->
  has_deadline x = true -> 0 <= requested_at_us x /\ deadline_of x <= UINT64_MAX.
Proof.
  assert (Hall : forallb (fun x => negb (has_deadline x) ||
    ((0 <=? requested_at_us x) && (deadline_of x <=? UINT64_MAX)))
    (pending_installs (queue demo_world)) = true) by (vm_compute; reflexivity).
  rewrite forallb_forall in Hall. intros Hj Hd.
  specialize (Hall x (proj1 (list_elem_of_In _ _) (list_elem_of_lookup_2 _ _ _ Hj))).
  rewrite Hd in Hall. simpl in Hall. bool_hyps. lia.
Qed.

Lemma install_wakeup_in_time_witness :
  deadline_of demo_submitted = 300002000 /\
  0 < sm_install_next_wake_us (demo_env 5000 0) 5000 (queue demo_world) <= deadline_of demo_submitted.
Proof.
  split; [vm_compute; reflexivity|].
  apply (install_wakeup_in_time (queue demo_world) (demo_env 5000 0) 5000 0 demo_submitted).
  - exact (wi_queue _ demo_world_inv).
  - reflexivity.
  - vm_compute. discriminate.
  - exact demo_deadlines.
  - vm_compute. reflexivity.
  - vm_compute. reflexivity.
Defined.

Lemma queue_candidate_spec_witness :
  (sm_install_queue_candidate (demo_env 5000 0) (demo_candidate "CUSA00003") true (queue demo_world)).1 = true /\
  let '(ok, q') := sm_install_queue_candidate (demo_env 5000 0) (demo_candidate "CUSA00003") true
                     (queue demo_world) in
  queue_inv q' /\ (ok = false -> q' = queue demo_world).
Proof.
  split; [vm_compute; reflexivity|].
  pose proof (queue_candidate_spec (demo_env 5000 0) (demo_candidate "CUSA00003") true (queue demo_world)
    (wi_queue _ demo_world_inv) ltac:(vm_compute; lia)) as Hs.
  destruct (sm_install_queue_candidate _ _ _ _) as [ok q']. tauto.
Defined.

Definition demo_queued_world : world title_state :=
  set_queue (fun q => (sm_install_queue_candidate (demo_env 1000 0) (demo_candidate "CUSA00001") true q).2)
    (initial_world empty_table).

Lemma demo_queued_inv : world_inv demo_queued_world.
Proof. apply queue_call; [exact (initial_world_inv (T := title_state) empty_table empty_retry_ok)|vm_compute; lia]. Qed.

Lemma submit_queued_spec_witness :
  submission_due (demo_env 2000 0) (queue demo_queued_world) = true /\
  exists w', sm_install_submit_queued demo_text demo_text (demo_env 2000 0) demo_queued_world =
    Some (true, w') /\ submitted_count (queue w') = 1.
Proof.
  assert (Hd : submission_due (demo_env 2000 0) (queue demo_queued_world) = true)
    by (vm_compute; reflexivity).
  split; [exact Hd|].
  pose proof (submit_queued_spec demo_text demo_text (demo_env 2000 0) demo_queued_world
    demo_queued_inv) as Hs.
  rewrite Hd in Hs. simpl in Hs. destruct Hs as (w' & Hw & _ & _ & Hn & _).
  exists w'. split; [exact Hw|]. rewrite Hn. vm_compute. reflexivity.
Defined.

Lemma poll_pending_spec_witness : 0 < submitted_count (queue demo_world) /\
  exists w', sm_install_poll_pending (demo_env 9000 0) demo_world = Some w' /\ world_inv w'.
Proof.
  split; [vm_compute; reflexivity|].
  destruct (poll_pending_spec (demo_env 9000 0) demo_world demo_world_inv) as (w' & Hw & Hi & _).
  - reflexivity.
  - vm_compute. reflexivity.
  - exists w'. split; assumption.
Defined.

Lemma note_submit_failure_spec_witness : exists w',
  sm_install_note_submit_failure demo_queued_world = Some w' /\ world_inv w' /\ trace w' = [].
Proof.
  destruct (note_submit_failure_spec demo_queued_world demo_queued_inv) as (w' & Hw & Hi & Htr & _).
  exists w'. split; [exact Hw|split; [exact Hi|rewrite Htr; reflexivity]].
Defined.

(** Sixteen queued titles with names of 250 characters. *)
Definition long_name : string := Nat.iter 250 (String "x") EmptyString.
Definition long_entries : list pending_install_entry_t :=
  replicate 16 (Pending "CUSA00001" long_name "/data/x" "" 0 false false INSTALL_TRACK_QUEUED).

Lemma batch_more_suffix_lost_witness :
  strlen (append_batch_lines BATCH_MESSAGE_SIZE long_entries
    (strlcpy (demo_text 16) BATCH_MESSAGE_SIZE, 0)).1 = (BATCH_MESSAGE_SIZE - 1)%nat.
Proof.
  eapply (batch_more_suffix_lost demo_text demo_text long_entries 16).
  - apply surjective_pairing.
  - vm_compute. reflexivity.
  - vm_compute. reflexivity.
Defined.
