(* ===== verification/PkgStream.v ===== *)
(** * The package stream (src/sm_pkg_stream.c)

    Reader threads (the package installer) pull bytes of a package that a
    browser uploads in 1 MiB segments: a reader asks for a segment, a client
    claims the range, replies with its bytes, and the reader copies them.  At
    most [STREAM_SLOTS] segments are kept.

    All state is protected by one mutex, which [pthread_cond_timedwait]
    releases; so the atomic steps of a reader are the code between two waits,
    and [reader_step] is the step a reader takes from its program counter.  The
    scheduler's choices are arguments of the steps: which thread moves, whether
    a wait timed out, whether [realloc] finds memory ([alloc], by the id of the
    request) and what a fresh block holds ([fresh]).  The notification pipe is
    reduced to its descriptors. *)
From S2P Require Import Prelude.

Definition SM_PKG_STREAM_CHUNK : Z := 1024 * 1024.
Definition SM_PKG_STREAM_CLIENTS : Z := 4.
Definition STREAM_SLOTS : nat := 32.
Definition STREAM_READ_AHEAD : nat := 8.
Definition STREAM_PREFETCH_PENDING : Z := 16.
Definition BULK_SIZE : Z := 64 * 1024.
Definition INT64_MAX : Z := 2 ^ 63 - 1.

(** FreeBSD error numbers. *)
Definition ENOENT : Z := 2.
Definition ENOMEM : Z := 12.
Definition EINVAL : Z := 22.
Definition EAGAIN : Z := 35.
Definition ETIMEDOUT : Z := 60.
Definition ECANCELED : Z := 85.

Record sm_pkg_range_t := Range { rg_id : Z; rg_offset : Z; rg_size : Z }.

Record stream_slot_t := Slot {
  range : sm_pkg_range_t;
  data : list Z;
  claimed : bool;
  ready : bool;
  consumed : bool;
  client : Z;
  waiters : Z;
  last_use : Z;
}.

Record sm_pkg_stream := Stream {
  refs : Z;
  total : Z;
  next_id : Z;
  tick : Z;
  status : Z;
  wake : Z * Z;
  slots : list stream_slot_t;
}.

Definition zero_range : sm_pkg_range_t := Range 0 0 0.
Definition zero_slot : stream_slot_t := Slot zero_range [] false false false 0 0 0.

(** ** Life cycle *)

(** [mem] says that the allocation and the pthread initialisations succeed. *)
Definition sm_pkg_stream_create (mem : bool) (tot : Z) : option sm_pkg_stream :=
  if (tot =? 0) || (INT64_MAX <? tot) then None
  else if mem then Some (Stream 1 tot 0 0 0 (-1, -1) (replicate STREAM_SLOTS zero_slot))
  else None.

Definition set_refs (n : Z) (s : sm_pkg_stream) : sm_pkg_stream :=
  Stream n (total s) (next_id s) (tick s) (status s) (wake s) (slots s).

Definition sm_pkg_stream_retain (s : sm_pkg_stream) : sm_pkg_stream := set_refs (u64 (refs s + 1)) s.

(** [None] when the last reference was dropped and the stream is freed. *)
Definition sm_pkg_stream_release (s : sm_pkg_stream) : option sm_pkg_stream :=
  let n := u64 (refs s - 1) in if n =? 0 then None else Some (set_refs n s).

(** [pipe] is what [pipe] and the two [fcntl] calls give, if they succeed. *)
Definition sm_pkg_stream_wakeup_fd (pipe : option (Z * Z)) (s : sm_pkg_stream) :
    Z * sm_pkg_stream :=
  let w := if (wake s).1 <? 0 then default (wake s) pipe else wake s in
  (w.1, Stream (refs s) (total s) (next_id s) (tick s) (status s) w (slots s)).

Definition set_status (st : Z) (s : sm_pkg_stream) : sm_pkg_stream :=
  Stream (refs s) (total s) (next_id s) (tick s) st (wake s) (slots s).

Definition sm_pkg_stream_fail (st : Z) (s : sm_pkg_stream) : sm_pkg_stream :=
  if st <=? 0 then s else if status s =? 0 then set_status st s else s.

Definition sm_pkg_stream_stop (s : sm_pkg_stream) : sm_pkg_stream := sm_pkg_stream_fail ECANCELED s.

Definition sm_pkg_stream_status (s : sm_pkg_stream) : Z := status s.

(** ** Segments *)
Definition used (sl : stream_slot_t) : bool := negb (rg_id (range sl) =? 0).

Definition find_segment_locked (s : sm_pkg_stream) (offset : Z) : option nat :=
  find_index (fun sl => used sl && (rg_offset (range sl) =? offset)) (slots s).

Definition slot_at (s : sm_pkg_stream) (i : nat) : stream_slot_t := default zero_slot (slots s !! i).

(** The scan of [request_segment_locked] from slot [k] on, with the best
    victim so far: a free slot ends it, otherwise the least recently used slot
    that may be evicted wins. *)
Fixpoint pick_slot (demanded : bool) (l : list stream_slot_t) (k : nat)
    (best : option (nat * Z)) : option nat :=
  match l with
  | [] => fst <$> best
  | c :: l' =>
      if negb (used c) then Some k
      else if negb (ready c) || negb (waiters c =? 0) || (rg_offset (range c) =? 0)
      then pick_slot demanded l' (S k) best
      else if negb demanded && negb (consumed c) then pick_slot demanded l' (S k) best
      else
        match best with
        | Some (_, lu) =>
            pick_slot demanded l' (S k) (if last_use c <? lu then Some (k, last_use c) else best)
        | None => pick_slot demanded l' (S k) (Some (k, last_use c))
        end
  end.

Definition segment_length (tot offset : Z) : Z :=
  if tot - offset <? SM_PKG_STREAM_CHUNK then tot - offset else SM_PKG_STREAM_CHUNK.

Inductive seg_result := Seg (i : nat) | SegErr (errno : Z).

Section stream.
Context (fresh : Z -> nat -> list Z).

Definition request_segment_locked (alloc : Z -> bool) (s : sm_pkg_stream) (offset : Z)
    (demanded : bool) : seg_result * sm_pkg_stream :=
  match find_segment_locked s offset with
  | Some i => (Seg i, s)
  | None =>
      match pick_slot demanded (slots s) 0 None with
      | None => (SegErr EAGAIN, s)
      | Some i =>
          let length := segment_length (total s) offset in
          let id := u64 (next_id s + 1) in
          let t := u64 (tick s + 1) in
          if negb (alloc id) then (SegErr ENOMEM, s)
          else
            (Seg i, Stream (refs s) (total s) id t (status s) (wake s)
               (<[i := Slot (Range id offset length) (fresh id (Z.to_nat length))
                         false false false 0 0 t]> (slots s)))
      end
  end.

Definition pending_count (s : sm_pkg_stream) : Z :=
  Z.of_nat (count_if (fun sl => used sl && negb (ready sl)) (slots s)).

(** Turns [i] to [STREAM_READ_AHEAD] of the read-ahead loop. *)
Fixpoint prefetch_from (alloc : Z -> bool) (fuel : nat) (i : Z) (offset pending : Z)
    (s : sm_pkg_stream) : sm_pkg_stream :=
  match fuel with
  | O => s
  | S fuel' =>
      let next := u64 (offset + i * SM_PKG_STREAM_CHUNK) in
      if total s <=? next then s
      else
        match find_segment_locked s next with
        | Some _ => prefetch_from alloc fuel' (i + 1) offset pending s
        | None =>
            if STREAM_PREFETCH_PENDING <=? pending then s
            else
              match request_segment_locked alloc s next false with
              | (SegErr _, s') => s'
              | (Seg _, s') => prefetch_from alloc fuel' (i + 1) offset (pending + 1) s'
              end
        end
  end.

Definition prefetch_segments_locked (alloc : Z -> bool) (s : sm_pkg_stream) (offset : Z) :
    sm_pkg_stream :=
  prefetch_from alloc STREAM_READ_AHEAD 1 offset (pending_count s) s.

(** ** Readers

    One call of [sm_pkg_stream_read].  [PcEnter] is the head of its loop,
    [PcWaitSlot] and [PcWaitData] its two waits, [PcFail] the call of
    [sm_pkg_stream_fail] after the unlock. *)
Inductive reader_pc := PcEnter | PcWaitSlot | PcWaitData (i : nat) | PcFail (st : Z) | PcDone (st : Z).

Record reader := Reader {
  rd_first : Z;          (** the call's [offset] and [size] *)
  rd_want : Z;
  rd_out : list Z;       (** the bytes copied so far *)
  rd_pc : reader_pc;
}.

Definition rd_offset (r : reader) : Z := rd_first r + Z.of_nat (length (rd_out r)).
Definition rd_left (r : reader) : Z := rd_want r - Z.of_nat (length (rd_out r)).
Definition rd_bulk (r : reader) : bool := BULK_SIZE <=? rd_want r.
Definition block_start (offset : Z) : Z := offset - offset mod SM_PKG_STREAM_CHUNK.

Definition goto (r : reader) (pc : reader_pc) : reader :=
  Reader (rd_first r) (rd_want r) (rd_out r) pc.

(** The argument check; the call starts at [PcEnter]. *)
Definition read_call (s : sm_pkg_stream) (offset size : Z) : reader :=
  Reader offset size []
    (if (total s <? offset) || (total s - offset <? size) then PcDone EINVAL else PcEnter).

Definition with_slot (i : nat) (f : stream_slot_t -> stream_slot_t) (s : sm_pkg_stream) :
    sm_pkg_stream :=
  Stream (refs s) (total s) (next_id s) (tick s) (status s) (wake s) (alter f i (slots s)).

Definition add_waiters (n : Z) (sl : stream_slot_t) : stream_slot_t :=
  Slot (range sl) (data sl) (claimed sl) (ready sl) (consumed sl) (client sl)
    (u32 (waiters sl + n)) (last_use sl).

Definition consume (t : Z) (sl : stream_slot_t) : stream_slot_t :=
  Slot (range sl) (data sl) (claimed sl) (ready sl) true (client sl) (waiters sl) t.

Definition bump_tick (s : sm_pkg_stream) : sm_pkg_stream :=
  Stream (refs s) (total s) (next_id s) (u64 (tick s + 1)) (status s) (wake s) (slots s).

(** The bytes one turn copies out of the segment. *)
Definition turn_length (r : reader) : Z :=
  let within := rd_offset r - block_start (rd_offset r) in
  if rd_left r <? SM_PKG_STREAM_CHUNK - within then rd_left r else SM_PKG_STREAM_CHUNK - within.

Definition turn_bytes (r : reader) (d : list Z) : list Z :=
  take (Z.to_nat (turn_length r)) (drop (Z.to_nat (rd_offset r - block_start (rd_offset r))) d).

(** From the test of the second wait loop on. *)
Definition data_section (s : sm_pkg_stream) (r : reader) (i : nat) : sm_pkg_stream * reader :=
  if negb (status s =? 0) then (with_slot i (add_waiters (-1)) s, goto r (PcFail (status s)))
  else if ready (slot_at s i) then
    let s1 := bump_tick s in
    (with_slot i (add_waiters (-1)) (with_slot i (consume (tick s1)) s1),
     Reader (rd_first r) (rd_want r) (rd_out r ++ turn_bytes r (data (slot_at s i))) PcEnter)
  else (s, goto r (PcWaitData i)).

(** From the test of the first wait loop on. *)
Definition slot_section (alloc : Z -> bool) (s : sm_pkg_stream) (r : reader) :
    sm_pkg_stream * reader :=
  if negb (status s =? 0) then (s, goto r (PcFail (status s)))
  else
    let start := block_start (rd_offset r) in
    match request_segment_locked alloc s start true with
    | (SegErr e, s') =>
        if e =? ENOMEM then (s', goto r (PcFail ENOMEM)) else (s', goto r PcWaitSlot)
    | (Seg i, s') =>
        let s1 := with_slot i (add_waiters 1) s' in
        let s2 := if rd_bulk r then prefetch_segments_locked alloc s1 start else s1 in
        data_section s2 r i
    end.

Definition timed_out (s : sm_pkg_stream) : Z := if status s =? 0 then ETIMEDOUT else status s.

Definition reader_step (alloc : Z -> bool) (timeout : bool) (s : sm_pkg_stream) (r : reader) :
    sm_pkg_stream * reader :=
  match rd_pc r with
  | PcEnter => if rd_left r =? 0 then (s, goto r (PcDone 0)) else slot_section alloc s r
  | PcWaitSlot => if timeout then (s, goto r (PcFail (timed_out s))) else slot_section alloc s r
  | PcWaitData i =>
      if timeout then (with_slot i (add_waiters (-1)) s, goto r (PcFail (timed_out s)))
      else data_section s r i
  | PcFail st => (sm_pkg_stream_fail st s, goto r (PcDone st))
  | PcDone _ => (s, r)
  end.

(** ** Clients *)
Fixpoint next_in_pass (demanded : bool) (l : list stream_slot_t) (k : nat)
    (best : option (nat * Z)) : option nat :=
  match l with
  | [] => fst <$> best
  | c :: l' =>
      if negb (used c) || claimed c || ready c || (demanded && (waiters c =? 0))
      then next_in_pass demanded l' (S k) best
      else
        match best with
        | Some (_, id) =>
            next_in_pass demanded l' (S k)
              (if rg_id (range c) <? id then Some (k, rg_id (range c)) else best)
        | None => next_in_pass demanded l' (S k) (Some (k, rg_id (range c)))
        end
  end.

Definition next_request_locked (s : sm_pkg_stream) : option nat :=
  match next_in_pass true (slots s) 0 None with
  | Some i => Some i
  | None => next_in_pass false (slots s) 0 None
  end.

Definition claim (c : option Z) (sl : stream_slot_t) : stream_slot_t :=
  Slot (range sl) (data sl) true (ready sl) (consumed sl)
    (match c with Some n => n | None => client sl end) (waiters sl) (last_use sl).

(** One turn of the polling loop: [None] goes to sleep (or, at the deadline,
    returns EAGAIN). *)
Definition sm_pkg_stream_request (s : sm_pkg_stream) :
    option (Z * option sm_pkg_range_t) * sm_pkg_stream :=
  if negb (status s =? 0) then (Some (status s, None), s)
  else
    match next_request_locked s with
    | Some i => (Some (0, Some (range (slot_at s i))), with_slot i (claim None) s)
    | None => (None, s)
    end.

Definition sm_pkg_stream_try_request (s : sm_pkg_stream) (c : Z) :
    Z * option sm_pkg_range_t * sm_pkg_stream :=
  if SM_PKG_STREAM_CLIENTS <? c then (EINVAL, None, s)
  else if negb (status s =? 0) then (status s, None, s)
  else
    match (if c =? 0 then None
           else find_index (fun sl => used sl && negb (ready sl) && claimed sl && (client sl =? c))
                  (slots s)) with
    | Some i => (0, Some (range (slot_at s i)), s)
    | None =>
        match next_request_locked s with
        | Some i => (0, Some (range (slot_at s i)), with_slot i (claim (Some c)) s)
        | None => (EAGAIN, None, s)
        end
    end.

Definition fill (bytes : list Z) (t : Z) (sl : stream_slot_t) : stream_slot_t :=
  Slot (range sl) bytes (claimed sl) true (consumed sl) 0 (waiters sl) t.

Definition sm_pkg_stream_reply (s : sm_pkg_stream) (id : Z) (bytes : list Z) :
    Z * sm_pkg_stream :=
  if negb (status s =? 0) then (status s, s)
  else if id =? 0 then (ENOENT, s)
  else
    match find_index (fun sl => rg_id (range sl) =? id) (slots s) with
    | None => (ENOENT, s)
    | Some i =>
        let sl := slot_at s i in
        if negb (Z.of_nat (length bytes) =? rg_size (range sl)) then (EINVAL, s)
        else if ready sl then (if bool_decide (data sl = bytes) then 0 else EINVAL, s)
        else if negb (claimed sl) then (EINVAL, s)
        else let s1 := bump_tick s in (0, with_slot i (fill bytes (tick s1)) s1)
    end.

(** ** The system: the stream and its readers *)
Record sys := Sys { stream : sm_pkg_stream; readers : list reader }.

Inductive sys_action :=
  | ASpawn (offset size : Z)
  | AReader (tid : nat) (alloc : Z -> bool) (timeout : bool)
  | ATryRequest (c : Z)
  | ARequest
  | AReply (id : Z) (bytes : list Z)
  | AFail (st : Z).

Definition run_action (a : sys_action) (y : sys) : sys :=
  match a with
  | ASpawn offset size => Sys (stream y) (readers y ++ [read_call (stream y) offset size])
  | AReader tid alloc timeout =>
      match readers y !! tid with
      | None => y
      | Some r =>
          let '(s', r') := reader_step alloc timeout (stream y) r in
          Sys s' (<[tid := r']> (readers y))
      end
  | ATryRequest c => Sys (sm_pkg_stream_try_request (stream y) c).2 (readers y)
  | ARequest => Sys (sm_pkg_stream_request (stream y)).2 (readers y)
  | AReply id bytes => Sys (sm_pkg_stream_reply (stream y) id bytes).2 (readers y)
  | AFail st => Sys (sm_pkg_stream_fail st (stream y)) (readers y)
  end.

Fixpoint run_actions (acts : list sys_action) (y : sys) : sys :=
  match acts with [] => y | a :: acts' => run_actions acts' (run_action a y) end.
End stream.

(** ** Slices of the package *)
Definition slice (src : list Z) (offset size : Z) : list Z :=
  take (Z.to_nat size) (drop (Z.to_nat offset) src).

Lemma slice_length src offset size : 0 <= offset -> 0 <= size ->
  offset + size <= Z.of_nat (length src) -> Z.of_nat (length (slice src offset size)) = size.
Proof. intros. unfold slice. rewrite length_take, length_drop. lia. Qed.

Lemma slice_slice src start size within n : 0 <= start -> 0 <= within -> 0 <= n ->
  within + n <= size ->
  take (Z.to_nat n) (drop (Z.to_nat within) (slice src start size)) = slice src (start + within) n.
Proof.
  intros. unfold slice. rewrite skipn_firstn_comm, drop_drop, take_take.
  f_equal; [lia|]. f_equal. lia.
Qed.

Lemma slice_extend src first n m : 0 <= first -> 0 <= n -> 0 <= m ->
  slice src first n ++ slice src (first + n) m = slice src first (n + m).
Proof.
  intros. unfold slice. rewrite !Z2Nat.inj_add by lia. rewrite <-drop_drop. apply take_take_drop.
Qed.

(** ** Invariant *)
Definition aligned (offset : Z) : Prop := offset mod SM_PKG_STREAM_CHUNK = 0.

Record slot_ok (src : list Z) (n : Z) (sl : stream_slot_t) : Prop := {
  so_free : used sl = false -> sl = zero_slot;
  so_id : used sl = true -> 0 < rg_id (range sl) <= n;
  so_aligned : used sl = true -> aligned (rg_offset (range sl));
  so_bounds : used sl = true -> 0 <= rg_offset (range sl) < Z.of_nat (length src);
  so_size : used sl = true ->
    rg_size (range sl) = segment_length (Z.of_nat (length src)) (rg_offset (range sl));
  so_claimed : ready sl = true -> claimed sl = true;
  so_data : ready sl = true ->
    data sl = slice src (rg_offset (range sl)) (rg_size (range sl));
}.

(** [w k] is the number of readers that wait for slot [k]. *)
Record stream_ok (src : list Z) (w : nat -> Z) (s : sm_pkg_stream) : Prop := {
  sk_total : total s = Z.of_nat (length src);
  sk_small : total s <= INT64_MAX;
  sk_len : length (slots s) = STREAM_SLOTS;
  sk_next : 0 <= next_id s <= UINT64_MAX;
  sk_slot : forall k sl, slots s !! k = Some sl -> slot_ok src (next_id s) sl;
  sk_unique : forall j k a b, slots s !! j = Some a -> slots s !! k = Some b ->
    used a = true -> used b = true ->
    rg_id (range a) = rg_id (range b) \/ rg_offset (range a) = rg_offset (range b) -> j = k;
  sk_waiters : forall k sl, slots s !! k = Some sl -> waiters sl = w k;
}.

(** What eviction must leave alone. *)
Definition protected (sl : stream_slot_t) : Prop :=
  used sl = true /\ (ready sl = false \/ waiters sl <> 0 \/ rg_offset (range sl) = 0).

(** The frame of the segment operations. *)
Record seg_frame (s s' : sm_pkg_stream) (n : Z) : Prop := {
  sf_total : total s' = total s;
  sf_status : status s' = status s;
  sf_next : next_id s <= next_id s' <= next_id s + n;
  sf_keep : forall k sl, slots s !! k = Some sl -> protected sl -> slots s' !! k = Some sl;
}.

Lemma seg_frame_refl s : seg_frame s s 0.
Proof. split; try done. lia. Qed.

Lemma seg_frame_trans s s1 s2 n m : 0 <= n -> seg_frame s s1 n -> seg_frame s1 s2 m ->
  seg_frame s s2 (n + m).
Proof.
  intros ? [H1 H2 H3 H4] [G1 G2 G3 G4]. split; [congruence|congruence|lia|eauto].
Qed.

Lemma seg_frame_mono s s' n m : n <= m -> seg_frame s s' n -> seg_frame s s' m.
Proof. intros ? [H1 H2 H3 H4]. split; [done|done|lia|done]. Qed.

Lemma pick_slot_spec dem l k best i :
  pick_slot dem l k best = Some i ->
  (exists b, best = Some (i, b)) \/
  exists j c, i = (k + j)%nat /\ l !! j = Some c /\
    (used c = false \/
     (ready c = true /\ waiters c = 0 /\ rg_offset (range c) <> 0 /\ (dem = false -> consumed c = true))).
Proof.
  revert k best. induction l as [|c l IH]; intros k best; simpl.
  { destruct best as [[j b]|]; simpl; [|done]. intros [= ->]. eauto. }
  assert (Hlater : forall best', pick_slot dem l (S k) best' = Some i ->
    (exists b, best' = Some (i, b)) \/ exists j x, i = (k + j)%nat /\ (c :: l) !! j = Some x /\
      (used x = false \/ (ready x = true /\ waiters x = 0 /\ rg_offset (range x) <> 0 /\
         (dem = false -> consumed x = true)))).
  { intros best' [?|(j & x & -> & Hj & Hx)]%IH; [by left|right]. exists (S j), x.
    split; [lia|done]. }
  destruct (negb (used c)) eqn:Hu.
  { intros [= <-]. right. exists 0%nat, c. apply negb_true_iff in Hu. split; [lia|]. auto. }
  destruct (negb (ready c) || negb (waiters c =? 0) || (rg_offset (range c) =? 0)) eqn:Hp.
  { intros [?|?]%Hlater; auto. }
  destruct (negb dem && negb (consumed c)) eqn:Hd.
  { intros [?|?]%Hlater; auto. }
  bool_hyps.
  assert (Hok : ready c = true /\ waiters c = 0 /\ rg_offset (range c) <> 0 /\ (dem = false -> consumed c = true)).
  { split_and!; [done|lia|lia|]. intros ->. destruct (consumed c); done. }
  assert (Hmine : forall best', (exists b, best' = Some (i, b)) -> best' = Some (k, last_use c) ->
    exists j x, i = (k + j)%nat /\ (c :: l) !! j = Some x /\
      (used x = false \/ (ready x = true /\ waiters x = 0 /\ rg_offset (range x) <> 0 /\
         (dem = false -> consumed x = true)))).
  { intros best' [b ->] [= -> _]. exists 0%nat, c. split; [lia|]. auto. }
  destruct best as [[j b]|].
  - destruct (last_use c <? b); intros [Hb|?]%Hlater; eauto.
  - intros [Hb|?]%Hlater; eauto.
Qed.

Lemma find_segment_Some s offset i : find_segment_locked s offset = Some i ->
  exists sl, slots s !! i = Some sl /\ used sl = true /\ rg_offset (range sl) = offset.
Proof. intros (sl & Hs & Hp)%find_index_hit. bool_hyps. exists sl. split_and!; [done..|lia]. Qed.

Lemma find_segment_None s offset k sl : find_segment_locked s offset = None ->
  slots s !! k = Some sl -> used sl = true -> rg_offset (range sl) <> offset.
Proof.
  unfold find_segment_locked. rewrite find_index_None. intros Hn Hs Hu. specialize (Hn k sl Hs).
  rewrite Hu in Hn. simpl in Hn. lia.
Qed.

Lemma slot_ok_mono src n m sl : n <= m -> slot_ok src n sl -> slot_ok src m sl.
Proof. intros ? []. split; try done. intros Hu. destruct (so_id0 Hu). lia. Qed.

Section proofs.
Context (fresh : Z -> nat -> list Z) (src : list Z).

(** A new request placed in a free or evictable slot. *)
Lemma place_ok w s i c t offset bytes : stream_ok src w s -> slots s !! i = Some c -> w i = 0 ->
  next_id s + 1 <= UINT64_MAX ->
  (forall k sl, slots s !! k = Some sl -> used sl = true -> rg_offset (range sl) <> offset) ->
  aligned offset -> 0 <= offset < total s ->
  let id := u64 (next_id s + 1) in
  stream_ok src w (Stream (refs s) (total s) id t (status s) (wake s)
    (<[i := Slot (Range id offset (segment_length (total s) offset)) bytes false false false 0 0 t]>
      (slots s))).
Proof.
  intros Hok Hi Hw Hroom Hfree Hal Hb id. destruct Hok as [Ht Hsm Hlen Hn Hs Hu Hwt].
  assert (Hid : id = next_id s + 1) by (apply u64_small; lia). clearbody id.
  split; simpl; [done|done|by rewrite length_insert|unfold UINT64_MAX in *; lia|..].
  - intros k sl [(-> & -> & _)|[_ Hk]]%lookup_insert_cases.
    + split; unfold used; cbn [range rg_id rg_offset rg_size ready claimed data]; try done; intros Hx.
      * apply negb_false_iff, Z.eqb_eq in Hx. lia.
      * lia.
      * lia.
      * by rewrite <-Ht.
    + apply (slot_ok_mono _ (next_id s)); [lia|by apply (Hs k)].
  - intros j k a b [(-> & -> & _)|[Hji Hj]]%lookup_insert_cases
      [(-> & -> & _)|[Hki Hk]]%lookup_insert_cases Ha Hbu Heq; [done| | |by eapply Hu].
    + simpl in Heq. pose proof (so_id _ _ _ (Hs k b Hk) Hbu). destruct Heq as [Heq|Heq]; [lia|].
      by destruct (Hfree k b Hk Hbu).
    + simpl in Heq. pose proof (so_id _ _ _ (Hs j a Hj) Ha). destruct Heq as [Heq|Heq]; [lia|].
      by destruct (Hfree j a Hj Ha).
  - intros k sl [(-> & -> & _)|[_ Hk]]%lookup_insert_cases; [done|]. by apply Hwt.
Qed.

Lemma request_segment_spec alloc w s offset dem r s' : stream_ok src w s ->
  next_id s + 1 <= UINT64_MAX -> aligned offset -> 0 <= offset < total s ->
  request_segment_locked fresh alloc s offset dem = (r, s') ->
  stream_ok src w s' /\ seg_frame s s' 1 /\
  match r with
  | Seg i => exists sl, slots s' !! i = Some sl /\ used sl = true /\ rg_offset (range sl) = offset
  | SegErr e => s' = s /\ (e = EAGAIN \/ e = ENOMEM)
  end.
Proof.
  intros Hok Hroom Hal Hb. unfold request_segment_locked.
  destruct (find_segment_locked s offset) as [i|] eqn:Hf.
  { intros [= <- <-]. split_and!; [done|apply (seg_frame_mono _ _ 0); [lia|apply seg_frame_refl]|].
    by apply find_segment_Some. }
  destruct (pick_slot dem (slots s) 0 None) as [i|] eqn:Hp.
  2: { intros [= <- <-]. split_and!; [done|apply (seg_frame_mono _ _ 0); [lia|apply seg_frame_refl]|done|auto]. }
  destruct (negb (alloc _)).
  { intros [= <- <-]. split_and!; [done|apply (seg_frame_mono _ _ 0); [lia|apply seg_frame_refl]|done|auto]. }
  intros [= <- <-]. apply pick_slot_spec in Hp as [[? ?]|(j & c & -> & Hj & Hc)]; [done|].
  simpl in *. pose proof (sk_slot _ _ _ Hok j c Hj) as Hsl.
  assert (Hw : w j = 0).
  { rewrite <-(sk_waiters _ _ _ Hok j c Hj).
    destruct Hc as [Hc|(_ & Hc & _)]; [|done]. by rewrite (so_free _ _ _ Hsl Hc). }
  split_and!.
  - eapply place_ok; try done. intros k sl Hk Hu. by eapply find_segment_None.
  - pose proof (sk_next _ _ _ Hok).
    assert (Hid : u64 (next_id s + 1) = next_id s + 1) by (apply u64_small; lia).
    split; simpl; [done|done|lia|]. intros k sl Hk [Hu Hprot].
    destruct (decide (k = j)) as [->|Hne]; [|by rewrite list_lookup_insert_ne].
    exfalso. rewrite Hj in Hk. injection Hk as <-.
    destruct Hc as [Hc|(Hr & Hwt & Ho & _)]; [congruence|]. destruct Hprot as [?|[?|?]]; congruence.
  - eexists. rewrite list_lookup_insert_eq by by eapply lookup_lt_Some.
    split_and!; [done| |done]. unfold used. simpl. pose proof (sk_next _ _ _ Hok).
    rewrite u64_small by lia. apply negb_true_iff. lia.
Qed.

Lemma prefetch_spec alloc w offset fuel i pending s : stream_ok src w s ->
  aligned offset -> 0 <= offset < total s -> 1 <= i -> i + Z.of_nat fuel <= 2 ^ 20 ->
  next_id s + Z.of_nat fuel <= UINT64_MAX ->
  let s' := prefetch_from fresh alloc fuel i offset pending s in
  stream_ok src w s' /\ seg_frame s s' (Z.of_nat fuel).
Proof.
  revert i pending s. induction fuel as [|fuel IH]; intros i pending s Hok Hal Hb Hi Hf Hroom; simpl.
  { split; [done|apply seg_frame_refl]. }
  assert (Hrefl : seg_frame s s (Z.of_nat (S fuel))).
  { apply (seg_frame_mono _ _ 0); [lia|apply seg_frame_refl]. }
  assert (Hnext : u64 (offset + i * SM_PKG_STREAM_CHUNK) = offset + i * SM_PKG_STREAM_CHUNK).
  { apply u64_small. pose proof (sk_small _ _ _ Hok).
    unfold INT64_MAX, UINT64_MAX, SM_PKG_STREAM_CHUNK in *. lia. }
  rewrite Hnext. set (next := offset + i * SM_PKG_STREAM_CHUNK) in *.
  destruct (Z.leb_spec (total s) next); [done|].
  destruct (find_segment_locked s next) as [k|] eqn:Hfs.
  { destruct (IH (i + 1) pending s) as [H1 H2]; try done; try lia.
    split; [done|]. by apply (seg_frame_mono _ _ (Z.of_nat fuel)); [lia|]. }
  destruct (STREAM_PREFETCH_PENDING <=? pending); [done|].
  assert (Hal' : aligned next).
  { unfold aligned, next in *. by rewrite Z.mod_add. }
  assert (Hb' : 0 <= next < total s) by (unfold next, SM_PKG_STREAM_CHUNK in *; lia).
  destruct (request_segment_locked fresh alloc s next false) as [r s1] eqn:Hr.
  apply (request_segment_spec _ w) in Hr as (Hok1 & Hfr1 & Hres); try done; try lia.
  destruct r as [k|e].
  - pose proof (sf_total _ _ _ Hfr1) as Ht1. pose proof (sf_next _ _ _ Hfr1).
    destruct (IH (i + 1) (pending + 1) s1) as [H1 H2]; try done; try lia.
    split; [done|]. replace (Z.of_nat (S fuel)) with (1 + Z.of_nat fuel) by lia.
    eapply seg_frame_trans; [lia|done|done].
  - destruct Hres as [-> _]. done.
Qed.

(** *** Readers *)
Definition waits_on (r : reader) (k : nat) : Z :=
  match rd_pc r with PcWaitData i => if (i =? k)%nat then 1 else 0 | _ => 0 end.

(** The part of a request that is still to be read is inside the package and
    what was read is right. *)
Record reading (r : reader) : Prop := {
  rg_first : 0 <= rd_first r;
  rg_end : rd_first r + rd_want r <= Z.of_nat (length src);
  rg_left : 0 <= rd_left r;
  rg_out : rd_out r = slice src (rd_first r) (Z.of_nat (length (rd_out r)));
}.

Definition reader_ok (s : sm_pkg_stream) (r : reader) : Prop :=
  match rd_pc r with
  | PcDone st => st = 0 -> rd_out r = slice src (rd_first r) (rd_want r)
  | PcEnter => reading r
  | PcWaitSlot => reading r /\ 0 < rd_left r
  | PcWaitData i => reading r /\ 0 < rd_left r /\
      exists sl, slots s !! i = Some sl /\ used sl = true /\
        rg_offset (range sl) = block_start (rd_offset r)
  | PcFail st => reading r /\ 0 < st
  end.

(** Slots that satisfy [P] keep their range. *)
Definition keeps (P : nat -> Prop) (s s' : sm_pkg_stream) : Prop :=
  forall k sl, P k -> slots s !! k = Some sl ->
    exists sl', slots s' !! k = Some sl' /\ range sl' = range sl.

Lemma keeps_refl P s : keeps P s s.
Proof. intros k sl _ Hk. eauto. Qed.

Lemma keeps_trans P s s1 s2 : keeps P s s1 -> keeps P s1 s2 -> keeps P s s2.
Proof.
  intros H1 H2 k sl HP Hk. destruct (H1 k sl HP Hk) as (sl1 & Hk1 & Hr1).
  destruct (H2 k sl1 HP Hk1) as (sl2 & Hk2 & Hr2). exists sl2. split; [done|congruence].
Qed.

Lemma keeps_frame P w s s' n : stream_ok src w s -> seg_frame s s' n ->
  (forall k, P k -> w k <> 0) -> keeps P s s'.
Proof.
  intros Hok Hf HP k sl Hk Hs. exists sl. split; [|done]. apply (sf_keep _ _ _ Hf); [done|].
  pose proof (sk_waiters _ _ _ Hok k sl Hs) as Hw. specialize (HP k Hk).
  split; [|rewrite Hw; auto]. destruct (used sl) eqn:Hu; [done|].
  rewrite (so_free _ _ _ (sk_slot _ _ _ Hok k sl Hs) Hu) in Hw. simpl in Hw. congruence.
Qed.

Lemma keeps_with_slot P i f s : (forall sl, range (f sl) = range sl) -> keeps P s (with_slot i f s).
Proof.
  intros Hf k sl _ Hk. simpl. destruct (decide (i = k)) as [->|Hne].
  - rewrite list_lookup_alter_eq, Hk. simpl. eauto.
  - rewrite list_lookup_alter_ne by done. eauto.
Qed.

Lemma with_slot_ok w w2 i f s : stream_ok src w s ->
  (forall sl, range (f sl) = range sl) ->
  (forall sl, slots s !! i = Some sl -> slot_ok src (next_id s) (f sl) /\ waiters (f sl) = w2 i) ->
  (forall k, k <> i -> w2 k = w k) -> stream_ok src w2 (with_slot i f s).
Proof.
  intros [Ht Hsm Hlen Hn Hs Hu Hw] Hr Hf Hother.
  assert (Hlook : forall k x, alter f i (slots s) !! k = Some x ->
    exists sl, slots s !! k = Some sl /\ range x = range sl /\ slot_ok src (next_id s) x /\ waiters x = w2 k).
  { intros k x Hk. destruct (decide (i = k)) as [->|Hne].
    - rewrite list_lookup_alter_eq in Hk. destruct (slots s !! k) as [sl|] eqn:Hsl; [|done].
      simpl in Hk. injection Hk as <-. destruct (Hf sl eq_refl). eauto 10.
    - rewrite list_lookup_alter_ne in Hk by done. exists x. rewrite Hother by done.
      split_and!; [done|done|by apply (Hs k)|by apply Hw]. }
  split; simpl; [done|done|by rewrite length_alter|done|..].
  - intros k x Hk. by destruct (Hlook k x Hk) as (sl & _ & _ & ? & _).
  - intros j k a b Hj Hk Ha Hb. destruct (Hlook j a Hj) as (a' & Hj' & Hra & _).
    destruct (Hlook k b Hk) as (b' & Hk' & Hrb & _). unfold used in *. rewrite Hra in *. rewrite Hrb in *.
    by apply (Hu j k a' b').
  - intros k x Hk. by destruct (Hlook k x Hk) as (sl & _ & _ & _ & ?).
Qed.

Lemma slot_ok_same n sl f : slot_ok src n sl -> range (f sl) = range sl -> data (f sl) = data sl ->
  ready (f sl) = ready sl -> claimed (f sl) = claimed sl -> used sl = true -> slot_ok src n (f sl).
Proof.
  intros [] Hr Hd Hrd Hc Hu. unfold used in *. split; unfold used; rewrite ?Hr, ?Hd, ?Hrd, ?Hc; try done.
  intros Hx. congruence.
Qed.

Lemma bump_tick_ok w s : stream_ok src w s -> stream_ok src w (bump_tick s).
Proof. intros []. by split. Qed.

(** Changing the number of waiters of a used slot. *)
Lemma add_waiters_ok w i n s sl : stream_ok src w s -> slots s !! i = Some sl -> used sl = true ->
  0 <= w i + n < 2 ^ 32 ->
  stream_ok src (fun k => if (i =? k)%nat then w k + n else w k) (with_slot i (add_waiters n) s).
Proof.
  intros Hok Hi Hu Hb. eapply with_slot_ok; [done|done| |].
  - intros sl' Hsl'. rewrite Hi in Hsl'. injection Hsl' as <-. split.
    + by apply slot_ok_same; [apply (sk_slot _ _ _ Hok i)|..].
    + simpl. rewrite (sk_waiters _ _ _ Hok i sl Hi), Nat.eqb_refl. apply u32_small. lia.
  - intros k Hk. simpl. destruct (Nat.eqb_spec i k); [congruence|done].
Qed.

Lemma stream_ok_ext w w' s : (forall k, w k = w' k) -> stream_ok src w s -> stream_ok src w' s.
Proof. intros Hw []. split; try done. intros k sl Hk. rewrite <-Hw. eauto. Qed.

Lemma block_start_spec offset : 0 <= offset ->
  aligned (block_start offset) /\ 0 <= block_start offset <= offset /\
  offset - block_start offset < SM_PKG_STREAM_CHUNK.
Proof.
  intros Ho. unfold block_start, aligned.
  pose proof (Z.mod_pos_bound offset SM_PKG_STREAM_CHUNK ltac:(done)).
  pose proof (Z.mod_le offset SM_PKG_STREAM_CHUNK Ho ltac:(done)).
  split; [|lia]. rewrite Zminus_mod, Z.mod_mod, Z.sub_diag by done. done.
Qed.

(** One turn copies the right bytes and makes progress. *)
Lemma turn_reading r i sl s w : stream_ok src w s -> reading r -> 0 < rd_left r ->
  slots s !! i = Some sl -> used sl = true -> rg_offset (range sl) = block_start (rd_offset r) ->
  ready sl = true ->
  reading (Reader (rd_first r) (rd_want r) (rd_out r ++ turn_bytes r (data sl)) PcEnter).
Proof.
  intros Hok [Hf He Hl Ho] Hpos Hi Hu Hoff Hrd. pose proof (sk_slot _ _ _ Hok i sl Hi) as Hsl.
  set (off := rd_offset r) in *.
  assert (Hoff0 : 0 <= off) by (unfold off, rd_offset; lia).
  destruct (block_start_spec off Hoff0) as (_ & Hbs & Hw).
  assert (Hend : off + rd_left r <= Z.of_nat (length src)) by (unfold off, rd_offset, rd_left; lia).
  assert (Hlen : 0 < turn_length r /\ turn_length r <= rd_left r /\
    off - block_start off + turn_length r <= rg_size (range sl)).
  { rewrite (so_size _ _ _ Hsl Hu), Hoff. unfold turn_length, segment_length. fold off.
    destruct (Z.ltb_spec (rd_left r) (SM_PKG_STREAM_CHUNK - (off - block_start off))),
      (Z.ltb_spec (Z.of_nat (length src) - block_start off) SM_PKG_STREAM_CHUNK); lia. }
  destruct Hlen as (Hl1 & Hl2 & Hl3).
  assert (Hbytes : turn_bytes r (data sl) = slice src off (turn_length r)).
  { unfold turn_bytes. fold off. rewrite (so_data _ _ _ Hsl Hrd), Hoff.
    rewrite slice_slice by lia. f_equal. lia. }
  assert (Hblen : Z.of_nat (length (turn_bytes r (data sl))) = turn_length r).
  { rewrite Hbytes. apply slice_length; lia. }
  split; simpl; [done|done| |].
  - unfold rd_left in *. simpl. rewrite length_app. lia.
  - rewrite length_app, Nat2Z.inj_add, Hblen, Hbytes, Ho at 1.
    rewrite <-(slice_extend src (rd_first r)) by lia. f_equal.
Qed.

Lemma reading_goto r pc : reading r -> reading (goto r pc).
Proof. intros []. by split. Qed.
#[local] Hint Resolve reading_goto : core.

(** What a step of one reader guarantees, [w0] being the waits of the others. *)
Record step_ok (w0 : nat -> Z) (s : sm_pkg_stream) (s' : sm_pkg_stream) (r' : reader) : Prop := {
  st_stream : stream_ok src (fun k => w0 k + waits_on r' k) s';
  st_reader : reader_ok s' r';
  st_keeps : keeps (fun k => w0 k <> 0) s s';
  st_status : 0 <= status s' /\ (status s <> 0 -> status s' = status s);
  st_next : next_id s <= next_id s' <= next_id s + 9;
}.

Lemma data_section_ok w0 s r i sl :
  stream_ok src (fun k => if (i =? k)%nat then w0 k + 1 else w0 k) s ->
  (forall k, 0 <= w0 k /\ w0 k + 1 < 2 ^ 32) -> 0 <= status s ->
  reading r -> 0 < rd_left r -> slots s !! i = Some sl -> used sl = true ->
  rg_offset (range sl) = block_start (rd_offset r) ->
  step_ok w0 s (data_section s r i).1 (data_section s r i).2 /\
  next_id (data_section s r i).1 = next_id s.
Proof.
  intros Hok Hw Hst Hr Hpos Hi Hu Hoff. unfold data_section, slot_at. rewrite Hi. simpl.
  assert (Hdrop : forall s1 sl1, stream_ok src (fun k => if (i =? k)%nat then w0 k + 1 else w0 k) s1 ->
    slots s1 !! i = Some sl1 -> used sl1 = true -> stream_ok src w0 (with_slot i (add_waiters (-1)) s1)).
  { intros s1 sl1 Hok1 Hi1 Hu1. specialize (Hw i).
    eapply stream_ok_ext; [|apply (add_waiters_ok _ i (-1) s1 sl1 Hok1 Hi1 Hu1)].
    - intros k. simpl. destruct (Nat.eqb_spec i k); lia.
    - rewrite Nat.eqb_refl. lia. }
  destruct (Z.eqb_spec (status s) 0) as [Hs0|Hs0]; cbn [negb].
  2: { split; [|done]. split; simpl; [|split; [by auto|lia]|by apply keeps_with_slot|done|lia].
       eapply stream_ok_ext; [|by eapply Hdrop]. intros k. unfold waits_on. simpl. lia. }
  destruct (ready sl) eqn:Hrd.
  - split; [|done]. split; simpl; [|by eapply turn_reading| |by rewrite Hs0|lia].
    + set (s2 := with_slot i _ (bump_tick s)).
      assert (Hok2 : stream_ok src (fun k => if (i =? k)%nat then w0 k + 1 else w0 k) s2).
      { eapply with_slot_ok; [by apply bump_tick_ok|done| |done]. simpl. intros x Hx.
        rewrite Hi in Hx. injection Hx as <-. split.
        - by apply slot_ok_same; [apply (sk_slot _ _ _ Hok i)|..].
        - exact (sk_waiters _ _ _ Hok i sl Hi). }
      eapply stream_ok_ext; [|eapply (Hdrop s2); [done| |]].
      * intros k. unfold waits_on. simpl. lia.
      * unfold s2. simpl. by rewrite list_lookup_alter_eq, Hi.
      * done.
    + eapply keeps_trans; [|by apply keeps_with_slot]. eapply keeps_trans; [|by apply keeps_with_slot].
      exact (keeps_refl _ s).
  - split; [|done]. split; simpl; [|split_and!; eauto|apply keeps_refl|by rewrite Hs0|lia].
    eapply stream_ok_ext; [|exact Hok]. intros k. unfold waits_on. simpl.
    destruct (i =? k)%nat; lia.
Qed.

Lemma slot_section_ok alloc w0 s r : stream_ok src w0 s ->
  (forall k, 0 <= w0 k /\ w0 k + 1 < 2 ^ 32) -> 0 <= status s -> next_id s + 9 <= UINT64_MAX ->
  reading r -> 0 < rd_left r ->
  step_ok w0 s (slot_section fresh alloc s r).1 (slot_section fresh alloc s r).2.
Proof.
  intros Hok Hw Hst Hroom Hr Hpos. unfold slot_section.
  destruct (Z.eqb_spec (status s) 0) as [Hs0|Hs0]; cbn [negb].
  2: { split; simpl; [|split; [by auto|lia]|apply keeps_refl|done|lia].
       eapply stream_ok_ext; [|done]. intros k. unfold waits_on. simpl. lia. }
  set (start := block_start (rd_offset r)).
  assert (Hoff : 0 <= rd_offset r < total s).
  { destruct Hr. unfold rd_offset, rd_left in *. rewrite (sk_total _ _ _ Hok). lia. }
  destruct (block_start_spec (rd_offset r)) as (Hal & Hbs & _); [lia|]. fold start in Hal, Hbs.
  destruct (request_segment_locked fresh alloc s start true) as [res s1] eqn:Hreq.
  apply (request_segment_spec _ w0) in Hreq as (Hok1 & Hfr & Hres); [|done|lia|done|lia].
  pose proof (sf_next _ _ _ Hfr) as Hn1. pose proof (sf_status _ _ _ Hfr) as Hs1.
  pose proof (sf_total _ _ _ Hfr) as Ht1.
  assert (Hk1 : keeps (fun k => w0 k <> 0) s s1) by (by eapply keeps_frame).
  destruct res as [i|e].
  2: { destruct Hres as [-> He].
       destruct (e =? ENOMEM); (split; simpl; [|split; [by auto|done]|apply keeps_refl|by rewrite Hs0|lia]);
         (eapply stream_ok_ext; [|done]; intros k; unfold waits_on; simpl; lia). }
  destruct Hres as (sl & Hi & Hu & Hso).
  set (w1 := fun k => if (i =? k)%nat then w0 k + 1 else w0 k).
  set (s2 := with_slot i (add_waiters 1) s1).
  assert (Hok2 : stream_ok src w1 s2).
  { apply (add_waiters_ok w0 i 1 s1 sl); [done..|]. specialize (Hw i). lia. }
  assert (Hi2 : slots s2 !! i = Some (add_waiters 1 sl)).
  { unfold s2. simpl. by rewrite list_lookup_alter_eq, Hi. }
  set (s3 := if rd_bulk r then _ else s2).
  assert (H3 : stream_ok src w1 s3 /\ seg_frame s2 s3 8).
  { unfold s3. destruct (rd_bulk r).
    - assert (Hb2 : 0 <= start < total s2) by (change (total s2) with (total s1); lia).
      assert (Hn2 : next_id s2 + Z.of_nat STREAM_READ_AHEAD <= UINT64_MAX).
      { change (next_id s2) with (next_id s1). change (Z.of_nat STREAM_READ_AHEAD) with 8. lia. }
      exact (prefetch_spec alloc w1 start STREAM_READ_AHEAD 1 (pending_count s2) s2 Hok2 Hal Hb2
               ltac:(lia) ltac:(vm_compute; discriminate) Hn2).
    - split; [done|]. apply (seg_frame_mono _ _ 0); [lia|apply seg_frame_refl]. }
  destruct H3 as [Hok3 Hfr3].
  assert (Hi3 : slots s3 !! i = Some (add_waiters 1 sl)).
  { apply (sf_keep _ _ _ Hfr3); [done|]. split; [done|]. right. left.
    rewrite (sk_waiters _ _ _ Hok2 i _ Hi2). unfold w1. rewrite Nat.eqb_refl. specialize (Hw i). lia. }
  pose proof (sf_next _ _ _ Hfr3) as Hn3. pose proof (sf_status _ _ _ Hfr3) as Hs3.
  destruct (data_section_ok w0 s3 r i (add_waiters 1 sl)) as [Hstep Hnid]; try done.
  { rewrite Hs3. simpl. lia. }
  assert (Hk3 : keeps (fun k => w0 k <> 0) s s3).
  { eapply keeps_trans; [exact Hk1|]. eapply keeps_trans; [by apply (keeps_with_slot _ i (add_waiters 1))|].
    apply (keeps_frame _ w1 s2 s3 8 Hok2 Hfr3). intros k Hk. unfold w1.
    specialize (Hw k). destruct (i =? k)%nat; lia. }
  simpl in Hn3. destruct Hstep as [G1 G2 G3 G4 G5].
  split; [done|done|by eapply keeps_trans| |lia]. rewrite Hs3 in G4. simpl in G4. by rewrite Hs1 in G4.
Qed.

(** The same waits, for a reader that is not waiting for data. *)
Ltac no_wait := eapply stream_ok_ext; [|eassumption]; intros ?; unfold waits_on; simpl; lia.

Lemma reader_step_ok alloc timeout w0 s r :
  stream_ok src (fun k => w0 k + waits_on r k) s ->
  (forall k, 0 <= w0 k /\ w0 k + 1 < 2 ^ 32) -> 0 <= status s -> next_id s + 9 <= UINT64_MAX ->
  reader_ok s r ->
  step_ok w0 s (reader_step fresh alloc timeout s r).1 (reader_step fresh alloc timeout s r).2.
Proof.
  intros Hok Hw Hst Hroom Hr. unfold reader_step, reader_ok, waits_on in *.
  assert (Hto : 0 < timed_out s).
  { unfold timed_out. destruct (Z.eqb_spec (status s) 0); [done|lia]. }
  destruct (rd_pc r) as [| |i|st|st] eqn:Hpc.
  - assert (Hok0 : stream_ok src w0 s) by (eapply stream_ok_ext; [|done]; intros k; unfold waits_on; simpl; lia).
    destruct (Z.eqb_spec (rd_left r) 0) as [Hl|Hl].
    + split; simpl; [|intros _|apply keeps_refl|done|lia]; [by no_wait|].
      destruct Hr as [_ _ _ Ho]. change (rd_out r = slice src (rd_first r) (rd_want r)).
      rewrite Ho. unfold rd_left in *. f_equal. lia.
    + apply slot_section_ok; try done. destruct Hr. lia.
  - assert (Hok0 : stream_ok src w0 s) by (eapply stream_ok_ext; [|done]; intros k; unfold waits_on; simpl; lia).
    destruct Hr as [Hr Hpos]. destruct timeout; [|by apply slot_section_ok].
    split; simpl; [by no_wait|split; [by auto|done]|apply keeps_refl|done|lia].
  - destruct Hr as (Hr & Hpos & sl & Hi & Hu & Ho).
    assert (Hok1 : stream_ok src (fun k => if (i =? k)%nat then w0 k + 1 else w0 k) s).
    { eapply stream_ok_ext; [|done]. intros k. simpl. destruct (i =? k)%nat; lia. }
    destruct timeout.
    + split; simpl; [|split; [by auto|done]|by apply keeps_with_slot|done|lia].
      eapply stream_ok_ext; [|apply (add_waiters_ok _ i (-1) s sl Hok1 Hi Hu)].
      * intros k. unfold waits_on. simpl. destruct (i =? k)%nat; lia.
      * rewrite Nat.eqb_refl. specialize (Hw i). lia.
    + by apply (data_section_ok w0 s r i sl).
  - assert (Hok0 : stream_ok src w0 s) by (eapply stream_ok_ext; [|done]; intros k; unfold waits_on; simpl; lia).
    assert (Hf : stream_ok src w0 (sm_pkg_stream_fail st s)).
    { unfold sm_pkg_stream_fail. destruct (st <=? 0); [done|]. destruct (status s =? 0); [|done].
      by destruct Hok0. }
    unfold sm_pkg_stream_fail in *. destruct Hr as [_ Hst'].
    destruct (Z.leb_spec st 0); [lia|]. destruct (Z.eqb_spec (status s) 0).
    + split; simpl; [by no_wait|intros ?; lia|exact (keeps_refl _ s)|lia|lia].
    + split; simpl; [by no_wait|intros ?; lia|apply keeps_refl|done|lia].
  - split; simpl; [|unfold reader_ok; by rewrite Hpc|apply keeps_refl|done|lia].
    eapply stream_ok_ext; [|done]. intros k. unfold waits_on. by rewrite Hpc.
Qed.
End proofs.

(** ** The system invariant *)
Definition waiting_for (k : nat) (r : reader) : bool :=
  match rd_pc r with PcWaitData i => (i =? k)%nat | _ => false end.

Definition wait_total (rs : list reader) (k : nat) : Z := Z.of_nat (count_if (waiting_for k) rs).

Lemma waits_on_bool r k : waits_on r k = if waiting_for k r then 1 else 0.
Proof. unfold waits_on, waiting_for. by destruct (rd_pc r). Qed.

Section system.
Context (fresh : Z -> nat -> list Z) (src : list Z).

Record sys_inv (y : sys) : Prop := {
  yi_stream : stream_ok src (wait_total (readers y)) (stream y);
  yi_status : 0 <= status (stream y);
  yi_readers : forall tid r, readers y !! tid = Some r -> reader_ok src (stream y) r;
}.

(** Arguments of the C types; a client that sends the bytes it was asked for. *)
Definition action_ok (y : sys) (a : sys_action) : Prop :=
  match a with
  | ASpawn offset size => 0 <= offset /\ 0 <= size
  | AReply id bytes => forall k sl, slots (stream y) !! k = Some sl -> rg_id (range sl) = id ->
      bytes = slice src (rg_offset (range sl)) (rg_size (range sl))
  | _ => True
  end.

Fixpoint run_ok (y : sys) (acts : list sys_action) : Prop :=
  match acts with
  | [] => True
  | a :: acts' => action_ok y a /\ run_ok (run_action fresh a y) acts'
  end.

Lemma reader_ok_keeps s s' r P : reader_ok src s r -> keeps P s s' ->
  (forall k, waiting_for k r = true -> P k) -> reader_ok src s' r.
Proof.
  unfold reader_ok, waiting_for. intros Hr Hk HP. destruct (rd_pc r) as [| |i|st|st]; try done.
  destruct Hr as (Hr & Hl & sl & Hi & Hu & Ho).
  destruct (Hk i sl) as (sl' & Hi' & Hrg); [apply HP, Nat.eqb_refl|done|].
  split_and!; [done|done|]. exists sl'. unfold used in *. by rewrite Hrg.
Qed.

Lemma next_in_pass_spec dem l k best i :
  next_in_pass dem l k best = Some i ->
  (exists b, best = Some (i, b)) \/
  exists j c, i = (k + j)%nat /\ l !! j = Some c /\ used c = true /\ claimed c = false /\
    ready c = false /\ (dem = true -> waiters c <> 0).
Proof.
  revert k best. induction l as [|c l IH]; intros k best; simpl.
  { destruct best as [[j b]|]; simpl; [|done]. intros [= ->]. eauto. }
  assert (Hlater : forall best', next_in_pass dem l (S k) best' = Some i ->
    (exists b, best' = Some (i, b)) \/ exists j x, i = (k + j)%nat /\ (c :: l) !! j = Some x /\
      used x = true /\ claimed x = false /\ ready x = false /\ (dem = true -> waiters x <> 0)).
  { intros best' [?|(j & x & -> & Hj & Hx)]%IH; [by left|right]. exists (S j), x. split; [lia|done]. }
  destruct (_ || _) eqn:Hskip; [by intros [?|?]%Hlater; auto|]. bool_hyps.
  assert (Hok : used c = true /\ claimed c = false /\ ready c = false /\ (dem = true -> waiters c <> 0)).
  { split_and!; [done..|]. intros ->. simpl in *. lia. }
  assert (Hmine : forall best', (exists b, best' = Some (i, b)) -> best' = Some (k, rg_id (range c)) ->
    exists j x, i = (k + j)%nat /\ (c :: l) !! j = Some x /\
      used x = true /\ claimed x = false /\ ready x = false /\ (dem = true -> waiters x <> 0)).
  { intros best' [b ->] [= -> _]. exists 0%nat, c. split; [lia|done]. }
  destruct best as [[j b]|].
  - destruct (_ <? b); intros [Hb|?]%Hlater; eauto.
  - intros [Hb|?]%Hlater; eauto.
Qed.

Lemma next_request_Some s i : next_request_locked s = Some i ->
  exists c, slots s !! i = Some c /\ used c = true /\ claimed c = false /\ ready c = false.
Proof.
  unfold next_request_locked. destruct (next_in_pass true _ _ _) as [n|] eqn:H1.
  - intros [= ->]. apply next_in_pass_spec in H1 as [[? ?]|(j & c & -> & ? & ? & ? & ? & _)]; [done|eauto].
  - intros H2. apply next_in_pass_spec in H2 as [[? ?]|(j & c & -> & ? & ? & ? & ? & _)]; [done|eauto].
Qed.

Lemma claim_ok w s i c n : stream_ok src w s -> slots s !! i = Some c -> used c = true ->
  stream_ok src w (with_slot i (claim n) s).
Proof.
  intros Hok Hi Hu. eapply with_slot_ok; [done|done| |done].
  intros sl Hsl. rewrite Hi in Hsl. injection Hsl as <-. split; [|exact (sk_waiters _ _ _ Hok i c Hi)].
  destruct (sk_slot _ _ _ Hok i c Hi). split; try done. unfold used in *. simpl. intros. congruence.
Qed.

Lemma fill_ok w s i c bytes t : stream_ok src w s -> slots s !! i = Some c -> used c = true ->
  claimed c = true -> bytes = slice src (rg_offset (range c)) (rg_size (range c)) ->
  stream_ok src w (with_slot i (fill bytes t) s).
Proof.
  intros Hok Hi Hu Hc Hb. eapply with_slot_ok; [done|done| |done].
  intros sl Hsl. rewrite Hi in Hsl. injection Hsl as <-. split; [|exact (sk_waiters _ _ _ Hok i c Hi)].
  destruct (sk_slot _ _ _ Hok i c Hi). split; try done. unfold used in *. simpl. intros. congruence.
Qed.

(** The operations of the clients and of [sm_pkg_stream_fail] keep every
    range, and the waits. *)
Definition client_step (s s' : sm_pkg_stream) : Prop :=
  (forall w, stream_ok src w s -> stream_ok src w s') /\ keeps (fun _ => True) s s' /\
  next_id s' = next_id s /\ (0 <= status s -> 0 <= status s') /\
  (status s <> 0 -> status s' = status s).

Lemma client_step_refl s : client_step s s.
Proof. split_and!; try done. apply keeps_refl. Qed.

Lemma request_client s : client_step s (sm_pkg_stream_request s).2.
Proof.
  unfold sm_pkg_stream_request. destruct (negb _); [apply client_step_refl|].
  destruct (next_request_locked s) as [i|] eqn:Hn; [|apply client_step_refl]. simpl.
  apply next_request_Some in Hn as (c & Hi & Hu & _). split_and!; try done.
  - intros w Hok. by eapply claim_ok.
  - by apply keeps_with_slot.
Qed.

Lemma try_request_client s c : client_step s (sm_pkg_stream_try_request s c).2.
Proof.
  unfold sm_pkg_stream_try_request. destruct (_ <? c); [apply client_step_refl|].
  destruct (negb _); [apply client_step_refl|].
  destruct (if c =? 0 then _ else _); [apply client_step_refl|].
  destruct (next_request_locked s) as [i|] eqn:Hn; [|apply client_step_refl]. simpl.
  apply next_request_Some in Hn as (sl & Hi & Hu & _). split_and!; try done.
  - intros w Hok. by eapply claim_ok.
  - by apply keeps_with_slot.
Qed.

Lemma fail_client st s : client_step s (sm_pkg_stream_fail st s).
Proof.
  unfold sm_pkg_stream_fail. destruct (Z.leb_spec st 0); [apply client_step_refl|].
  destruct (Z.eqb_spec (status s) 0); [|apply client_step_refl].
  split_and!; [intros w []; by split|exact (keeps_refl _ s)|done|simpl; lia|done].
Qed.

Lemma reply_client y id bytes : action_ok y (AReply id bytes) ->
  client_step (stream y) (sm_pkg_stream_reply (stream y) id bytes).2.
Proof.
  intros Hh. simpl in Hh. set (s := stream y) in *. unfold sm_pkg_stream_reply.
  destruct (negb _); [apply client_step_refl|]. destruct (Z.eqb_spec id 0) as [|Hid]; [apply client_step_refl|].
  destruct (find_index _ (slots s)) as [i|] eqn:Hf; [|apply client_step_refl].
  apply find_index_hit in Hf as (sl & Hi & Hp). apply Z.eqb_eq in Hp.
  unfold slot_at. rewrite Hi. simpl. destruct (negb _); [apply client_step_refl|].
  destruct (ready sl); [apply client_step_refl|]. destruct (claimed sl) eqn:Hc; [|apply client_step_refl].
  simpl. split_and!; try done.
  - intros w Hok. eapply fill_ok; [by apply bump_tick_ok|done| |done|by eapply Hh].
    unfold used. apply negb_true_iff. lia.
  - eapply keeps_trans; [exact (keeps_refl _ s)|]. by apply (keeps_with_slot _ i _ (bump_tick s)).
Qed.

Lemma client_inv y s' : sys_inv y -> client_step (stream y) s' -> sys_inv (Sys s' (readers y)).
Proof.
  intros [Hs Hst Hr] (Hok & Hk & _ & Hst' & _). split; simpl; [by apply Hok|by apply Hst'|].
  intros tid r Htid. by eapply reader_ok_keeps; [eapply Hr|..].
Qed.

Lemma run_action_inv a y : sys_inv y -> action_ok y a ->
  next_id (stream y) + 9 <= UINT64_MAX -> Z.of_nat (length (readers y)) + 1 < 2 ^ 32 ->
  let y' := run_action fresh a y in
  sys_inv y' /\ next_id (stream y') <= next_id (stream y) + 9 /\
  (status (stream y) <> 0 -> status (stream y') = status (stream y)).
Proof.
  intros Hinv Hok Hroom Hlen. destruct a as [offset size|tid alloc timeout|c| |id bytes|st]; simpl.
  - destruct Hinv as [Hs Hst Hr]. split_and!; [|lia|done]. split; simpl; [|done|].
    + eapply stream_ok_ext; [|done]. intros k. unfold wait_total. rewrite count_if_app. simpl.
      unfold waiting_for at 3. simpl. destruct (_ || _); lia.
    + intros tid r [Hl|[_ Hl]]%lookup_app_Some; [by eapply Hr|].
      apply list_lookup_singleton_Some in Hl as [_ <-]. unfold reader_ok, read_call. simpl.
      destruct (_ || _) eqn:Hbad; [done|]. destruct Hok as [Ho Hsz]. bool_hyps.
      rewrite (sk_total _ _ _ Hs) in *.
      split; unfold rd_left; simpl; [done|lia|lia|done].
  - destruct (readers y !! tid) as [r|] eqn:Ht; [|split_and!; [done|lia|done]].
    set (w0 := fun k => wait_total (readers y) k - waits_on r k).
    assert (Hw0 : forall k, 0 <= w0 k /\ w0 k + 1 < 2 ^ 32).
    { intros k. unfold w0, wait_total. rewrite waits_on_bool.
      pose proof (count_if_le (waiting_for k) (readers y)). destruct (waiting_for k r) eqn:Hwk; [|lia].
      pose proof (count_if_pos (waiting_for k) _ _ _ Ht Hwk). lia. }
    destruct (reader_step_ok fresh src alloc timeout w0 (stream y) r) as [H1 H2 H3 H4 H5];
      [|done|apply Hinv|done|by eapply Hinv|].
    { eapply stream_ok_ext; [|apply Hinv]. intros k. unfold w0. lia. }
    destruct (reader_step fresh alloc timeout (stream y) r) as [s' r'] eqn:Hstep. simpl in *.
    split_and!; [|lia|apply H4]. split; simpl; [|apply H4|].
    + eapply stream_ok_ext; [|exact H1]. intros k. unfold w0, wait_total. rewrite !waits_on_bool.
      pose proof (count_if_insert (waiting_for k) _ _ _ r' Ht).
      destruct (waiting_for k r), (waiting_for k r'); lia.
    + intros j x [(-> & -> & _)|[Hj Hx]]%lookup_insert_cases; [done|].
      eapply reader_ok_keeps; [by eapply Hinv|exact H3|]. intros k Hk. simpl. unfold w0, wait_total.
      rewrite waits_on_bool.
      assert (Hins : <[tid := goto r PcEnter]> (readers y) !! j = Some x)
        by by rewrite list_lookup_insert_ne.
      pose proof (count_if_pos (waiting_for k) _ _ _ Hins Hk).
      pose proof (count_if_insert (waiting_for k) _ _ _ (goto r PcEnter) Ht) as Hcnt.
      replace (waiting_for k (goto r PcEnter)) with false in Hcnt by done.
      destruct (waiting_for k r); lia.
  - pose proof (try_request_client (stream y) c) as Hc. destruct Hc as (? & ? & Hn & ? & ?).
    split_and!; [by apply client_inv|lia|done].
  - pose proof (request_client (stream y)) as Hc. destruct Hc as (? & ? & Hn & ? & ?).
    split_and!; [by apply client_inv|lia|done].
  - pose proof (reply_client y id bytes Hok) as Hc. destruct Hc as (? & ? & Hn & ? & ?).
    split_and!; [by apply client_inv|lia|done].
  - pose proof (fail_client st (stream y)) as Hc. destruct Hc as (? & ? & Hn & ? & ?).
    split_and!; [by apply client_inv|lia|done].
Qed.

Lemma run_action_readers a y : (length (readers y) <= length (readers (run_action fresh a y)))%nat.
Proof.
  destruct a; simpl; try done.
  - rewrite length_app. simpl. lia.
  - destruct (readers y !! tid); [|done]. destruct (reader_step _ _ _ _ _). simpl. by rewrite length_insert.
Qed.

Lemma run_actions_readers acts y :
  (length (readers y) <= length (readers (run_actions fresh acts y)))%nat.
Proof.
  revert y. induction acts as [|a acts IH]; intros y; simpl; [done|].
  etransitivity; [apply (run_action_readers a)|apply IH].
Qed.

Lemma run_actions_inv acts y : sys_inv y -> run_ok y acts ->
  next_id (stream y) + 9 * Z.of_nat (length acts) <= UINT64_MAX ->
  Z.of_nat (length (readers (run_actions fresh acts y))) + 1 < 2 ^ 32 ->
  sys_inv (run_actions fresh acts y) /\
  (status (stream y) <> 0 -> status (stream (run_actions fresh acts y)) = status (stream y)).
Proof.
  revert y. induction acts as [|a acts IH]; intros y Hinv Hok Hroom Hlen; simpl in *; [done|].
  destruct Hok as [Ha Hok]. pose proof (run_action_readers a y).
  pose proof (run_actions_readers acts (run_action fresh a y)).
  destruct (run_action_inv a y Hinv Ha ltac:(lia) ltac:(lia)) as (H1 & Hn & Hst).
  destruct (IH _ H1 Hok ltac:(lia) Hlen) as [H2 Hst2]. split; [done|].
  intros Hne. rewrite Hst2; [by apply Hst|]. by rewrite Hst.
Qed.

Lemma create_inv s : sm_pkg_stream_create true (Z.of_nat (length src)) = Some s ->
  sys_inv (Sys s []).
Proof.
  unfold sm_pkg_stream_create. destruct (_ || _) eqn:Hb; [done|]. bool_hyps.
  intros [= <-]. split; [|done|intros tid r Hx; cbn [readers] in Hx; by rewrite lookup_nil in Hx].
  assert (Hz : forall k sl, replicate STREAM_SLOTS zero_slot !! k = Some sl -> sl = zero_slot).
  { intros k sl Hk. by apply lookup_replicate_1 in Hk as [-> _]. }
  split; cbn [stream total slots next_id readers].
  - done.
  - lia.
  - done.
  - done.
  - intros k sl Hk. rewrite (Hz k sl Hk). by split.
  - intros j k a b Hj _ Ha. by rewrite (Hz j a Hj) in Ha.
  - intros k sl Hk. by rewrite (Hz k sl Hk).
Qed.
End system.

(** ** The order of requests *)

(** A segment a client may claim; in the first pass only segments that a
    reader waits for. *)
Definition claimable (dem : bool) (c : stream_slot_t) : bool :=
  negb (negb (used c) || claimed c || ready c || (dem && (waiters c =? 0))).

Lemma next_in_pass_min dem l k best :
  match next_in_pass dem l k best with
  | None => best = None /\ forall j c, l !! j = Some c -> claimable dem c = false
  | Some i => exists id,
      (best = Some (i, id) \/
       exists j c, i = (k + j)%nat /\ l !! j = Some c /\ claimable dem c = true /\ id = rg_id (range c)) /\
      (forall j c, l !! j = Some c -> claimable dem c = true -> id <= rg_id (range c)) /\
      (forall n b, best = Some (n, b) -> id <= b)
  end.
Proof.
  revert k best. induction l as [|c l IH]; intros k best; simpl.
  { destruct best as [[n b]|]; simpl.
    - exists b. split_and!; [by left|by intros j c Hj; rewrite lookup_nil in Hj|]. intros ? ? [= _ ->]. done.
    - split; [done|]. intros j c Hj. by rewrite lookup_nil in Hj. }
  destruct (_ || _) eqn:Hskip.
  { assert (Hc : claimable dem c = false) by (unfold claimable; by rewrite Hskip).
    specialize (IH (S k) best). destruct (next_in_pass dem l (S k) best) as [i|].
    - destruct IH as (id & Hwho & Hmin & Hbest). exists id. split_and!; [|..|done].
      + destruct Hwho as [?|(j & x & -> & ?)]; [by left|right]. exists (S j), x. split; [lia|done].
      + intros [|j] x Hj; simplify_eq/=; [congruence|]. by eapply Hmin.
    - destruct IH as [-> Hno]. split; [done|]. intros [|j] x Hj; simplify_eq/=; [done|]. by eapply Hno. }
  assert (Hc : claimable dem c = true) by (unfold claimable; by rewrite Hskip).
  set (best' := match best with Some (_, id) => if rg_id (range c) <? id then Some (k, rg_id (range c)) else best
                | None => Some (k, rg_id (range c)) end).
  assert (Hgoal : match best with
    | Some (_, id) => next_in_pass dem l (S k) (if rg_id (range c) <? id then Some (k, rg_id (range c)) else best)
    | None => next_in_pass dem l (S k) (Some (k, rg_id (range c))) end = next_in_pass dem l (S k) best').
  { unfold best'. by destruct best as [[? ?]|]. }
  rewrite Hgoal. specialize (IH (S k) best').
  assert (Hb' : exists n b, best' = Some (n, b) /\ b <= rg_id (range c) /\
    (forall m b0, best = Some (m, b0) -> b <= b0) /\
    (best = Some (n, b) \/ (n = k /\ b = rg_id (range c)))).
  { unfold best'. destruct best as [[n b]|].
    - destruct (Z.ltb_spec (rg_id (range c)) b).
      + eexists _, _. split_and!; [done|lia| |auto]. intros ? ? [= _ <-]. lia.
      + eexists _, _. split_and!; [done|lia| |auto]. intros ? ? [= _ <-]. lia.
    - eexists _, _. split_and!; [done|lia|done|auto]. }
  destruct Hb' as (n & b & Hbeq & Hble & Hbold & Hbwho).
  destruct (next_in_pass dem l (S k) best') as [i|]; [|by destruct IH; congruence].
  destruct IH as (id & Hwho & Hmin & Hbest). specialize (Hbest n b Hbeq).
  exists id. split_and!.
  - destruct Hwho as [Hw|(j & x & -> & ?)].
    + rewrite Hbeq in Hw. injection Hw as -> ->. destruct Hbwho as [?|[-> ->]]; [by left|right].
      exists 0%nat, c. split; [lia|done].
    + right. exists (S j), x. split; [lia|done].
  - intros [|j] x Hj Hx; simplify_eq/=; [lia|]. by eapply Hmin.
  - intros m b0 Hm. specialize (Hbold m b0 Hm). lia.
Qed.

(** * Theorems *)

(** Claim C1: end to end, the reader gets the package.  Whatever the
    interleaving of readers, clients, time-outs, memory failures and evictions,
    if the clients answer each range with the bytes of the package [src], every
    [sm_pkg_stream_read] call that returns 0 has filled its buffer with exactly
    the bytes of the package at its offset.  (The bounds keep the 64-bit request
    ids and the 32-bit waiter counts from wrapping.) *)
Theorem stream_read_correct fresh src s acts tid r :
  sm_pkg_stream_create true (Z.of_nat (length src)) = Some s ->
  run_ok fresh src (Sys s []) acts ->
  9 * Z.of_nat (length acts) <= UINT64_MAX ->
  Z.of_nat (length (readers (run_actions fresh acts (Sys s [])))) + 1 < 2 ^ 32 ->
  readers (run_actions fresh acts (Sys s [])) !! tid = Some r -> rd_pc r = PcDone 0 ->
  rd_out r = slice src (rd_first r) (rd_want r).
Proof.
  intros Hc Hok Hroom Hlen Hr Hpc. pose proof (create_inv src s Hc) as Hinv.
  assert (Hn : next_id s = 0).
  { unfold sm_pkg_stream_create in Hc. destruct (_ || _); [done|]. by injection Hc as <-. }
  destruct (run_actions_inv fresh src acts _ Hinv Hok) as [Hy _]; [simpl; lia|done|].
  pose proof (yi_readers _ _ Hy tid r Hr) as Hrd. unfold reader_ok in Hrd. rewrite Hpc in Hrd. by apply Hrd.
Qed.

(** eviction is safe.  Neither a demanded request nor read-ahead
    replaces the header segment, a segment in flight or a segment that a reader
    waits for: such slots are unchanged; in particular a waiting reader's slot
    keeps the range it waits for. *)
Theorem segment_eviction_safe fresh src w s alloc offset dem k sl :
  stream_ok src w s -> next_id s + 9 <= UINT64_MAX -> aligned offset -> 0 <= offset < total s ->
  slots s !! k = Some sl -> protected sl ->
  slots (request_segment_locked fresh alloc s offset dem).2 !! k = Some sl /\
  slots (prefetch_segments_locked fresh alloc s offset) !! k = Some sl.
Proof.
  intros Hok Hroom Hal Hb Hk Hp. split.
  - destruct (request_segment_locked fresh alloc s offset dem) as [r s'] eqn:Hr.
    apply (request_segment_spec _ src _ w) in Hr as (_ & Hf & _); [|done|lia|done|done].
    by apply (sf_keep _ _ _ Hf).
  - destruct (prefetch_spec fresh src alloc w offset STREAM_READ_AHEAD 1 (pending_count s) s Hok Hal Hb
      ltac:(lia) ltac:(vm_compute; discriminate)) as [_ Hf].
    { change (Z.of_nat STREAM_READ_AHEAD) with 8. lia. }
    by apply (sf_keep _ _ _ Hf).
Qed.

(** The first terminal status wins: once the stream has failed or
    was cancelled, no action of any thread changes its status. *)
Theorem stream_first_status_wins fresh src s acts1 acts2 :
  sm_pkg_stream_create true (Z.of_nat (length src)) = Some s ->
  run_ok fresh src (Sys s []) (acts1 ++ acts2) ->
  9 * Z.of_nat (length (acts1 ++ acts2)) <= UINT64_MAX ->
  Z.of_nat (length (readers (run_actions fresh (acts1 ++ acts2) (Sys s [])))) + 1 < 2 ^ 32 ->
  let st := status (stream (run_actions fresh acts1 (Sys s []))) in
  st <> 0 -> status (stream (run_actions fresh (acts1 ++ acts2) (Sys s []))) = st.
Proof.
  intros Hc Hok Hroom Hlen. pose proof (create_inv src s Hc) as Hinv.
  assert (Hn : next_id (stream (Sys s [])) = 0).
  { unfold sm_pkg_stream_create in Hc. destruct (_ || _); [done|]. by injection Hc as <-. }
  assert (Hroom' : next_id (stream (Sys s [])) + 9 * Z.of_nat (length (acts1 ++ acts2)) <= UINT64_MAX) by lia.
  clear Hn Hroom Hc. generalize dependent (Sys s []). clear s.
  induction acts1 as [|a acts1 IH]; intros y Hok Hlen Hinv Hroom st Hst; simpl in *.
  - by apply (run_actions_inv fresh src acts2 y).
  - destruct Hok as [Ha Hok]. pose proof (run_action_readers fresh a y).
    pose proof (run_actions_readers fresh (acts1 ++ acts2) (run_action fresh a y)).
    destruct (run_action_inv fresh src a y Hinv Ha ltac:(lia) ltac:(lia)) as (H1 & Hn & _).
    by apply IH; [..|lia|].
Qed.

(** clients are handed demanded segments first, oldest first.  The
    chosen slot is unclaimed and not ready; if any such segment has a waiting
    reader the chosen one has, and within its class no segment was requested
    earlier; none is offered only when nothing can be claimed. *)
Theorem next_request_order s :
  match next_request_locked s with
  | Some i => exists c dem, slots s !! i = Some c /\ claimable dem c = true /\
      (forall j x, slots s !! j = Some x -> claimable dem x = true ->
         rg_id (range c) <= rg_id (range x)) /\
      (dem = false -> forall j x, slots s !! j = Some x -> claimable true x = false)
  | None => forall j x, slots s !! j = Some x -> claimable false x = false
  end.
Proof.
  unfold next_request_locked. pose proof (next_in_pass_min true (slots s) 0 None) as H1.
  destruct (next_in_pass true (slots s) 0 None) as [i|].
  - destruct H1 as (id & [?|(j & c & -> & Hj & Hc & ->)] & Hmin & _); [done|].
    exists c, true. split_and!; [done|done|eauto|done].
  - destruct H1 as [_ Hno1]. pose proof (next_in_pass_min false (slots s) 0 None) as H2.
    destruct (next_in_pass false (slots s) 0 None) as [i|].
    + destruct H2 as (id & [?|(j & c & -> & Hj & Hc & ->)] & Hmin & _); [done|].
      exists c, false. split_and!; [done|done|eauto|eauto].
    + by destruct H2.
Qed.

(** a range is handed to one client.  A successful
    [sm_pkg_stream_try_request] returns the range of a segment that either
    nobody had claimed (and that is now claimed by this client), or that this
    same client had claimed and not answered yet; the stream is otherwise
    unchanged, and a failing call changes nothing. *)
Theorem try_request_exclusive s c st rng s' : sm_pkg_stream_try_request s c = (st, rng, s') ->
  match rng with
  | None => s' = s /\ st <> 0
  | Some r => st = 0 /\ status s = 0 /\ exists i sl, slots s !! i = Some sl /\ range sl = r /\
      used sl = true /\ ready sl = false /\
      ((claimed sl = false /\ s' = with_slot i (claim (Some c)) s) \/
       (claimed sl = true /\ client sl = c /\ c <> 0 /\ s' = s))
  end.
Proof.
  unfold sm_pkg_stream_try_request. destruct (_ <? c); [by intros [= <- <- <-]|].
  destruct (Z.eqb_spec (status s) 0) as [Hst|Hst]; cbn [negb]; [|by intros [= <- <- <-]].
  set (p := fun sl => used sl && negb (ready sl) && claimed sl && (client sl =? c)).
  destruct (if c =? 0 then None else find_index p (slots s)) as [i|] eqn:Hmine.
  - intros [= <- <- <-]. destruct (Z.eqb_spec c 0) as [|Hc]; [done|].
    apply find_index_hit in Hmine as (sl & Hi & Hp). unfold p in Hp. bool_hyps.
    split_and!; [done|done|]. exists i, sl. unfold slot_at. rewrite Hi. simpl.
    split_and!; [done..|]. right. split_and!; [done|lia|done|done].
  - destruct (next_request_locked s) as [i|] eqn:Hn; intros [= <- <- <-]; [|done].
    apply next_request_Some in Hn as (sl & Hi & Hu & Hcl & Hr).
    split_and!; [done|done|]. exists i, sl. unfold slot_at. rewrite Hi. simpl. auto 10.
Qed.

(** ** A concrete run: one reader, one client *)
Definition demo_src : list Z := [10; 20; 30; 40; 50].
Definition demo_fresh (id : Z) (n : nat) : list Z := replicate n 255.
Definition demo_alloc (id : Z) : bool := true.

Definition demo_stream : sm_pkg_stream :=
  Stream 1 5 0 0 0 (-1, -1) (replicate STREAM_SLOTS zero_slot).

Definition demo_acts : list sys_action :=
  [ASpawn 1 3; AReader 0 demo_alloc false; ATryRequest 1; AReply 1 demo_src;
   AReader 0 demo_alloc false; AReader 0 demo_alloc false].

Definition demo_reader : reader := Reader 1 3 [20; 30; 40] (PcDone 0).

(** An executable test of [action_ok] for replies. *)
Lemma reply_ok_check src y id bytes :
  forallb (fun sl => negb (rg_id (range sl) =? id) ||
                     bool_decide (bytes = slice src (rg_offset (range sl)) (rg_size (range sl))))
    (slots (stream y)) = true -> action_ok src y (AReply id bytes).
Proof.
  rewrite forallb_forall. intros Hall k sl Hk Hid.
  specialize (Hall sl (proj1 (list_elem_of_In _ _) (list_elem_of_lookup_2 _ _ _ Hk))).
  rewrite Hid, Z.eqb_refl in Hall. simpl in Hall. by apply bool_decide_eq_true in Hall.
Qed.

Lemma demo_run_ok : run_ok demo_fresh demo_src (Sys demo_stream []) demo_acts.
Proof.
  split; [simpl; lia|]. split; [done|]. split; [done|]. split; [|done].
  apply reply_ok_check. vm_compute. reflexivity.
Qed.

Lemma stream_read_correct_witness :
  readers (run_actions demo_fresh demo_acts (Sys demo_stream [])) !! 0%nat = Some demo_reader /\
  rd_out demo_reader = slice demo_src 1 3.
Proof.
  split; [vm_compute; reflexivity|].
  apply (stream_read_correct demo_fresh demo_src demo_stream demo_acts 0 demo_reader).
  - vm_compute. reflexivity.
  - exact demo_run_ok.
  - vm_compute. discriminate.
  - vm_compute. reflexivity.
  - vm_compute. reflexivity.
  - reflexivity.
Defined.

Lemma stream_first_status_wins_witness :
  status (stream (run_actions demo_fresh ([AFail ENOENT] ++ [AFail ECANCELED]) (Sys demo_stream []))) =
    ENOENT.
Proof.
  apply (stream_first_status_wins demo_fresh demo_src demo_stream [AFail ENOENT] [AFail ECANCELED]).
  - vm_compute. reflexivity.
  - simpl. tauto.
  - vm_compute. discriminate.
  - vm_compute. reflexivity.
  - vm_compute. discriminate.
Defined.

(** The stream after the reader asked for its segment. *)
Definition demo_waiting : sys := run_actions demo_fresh (take 2 demo_acts) (Sys demo_stream []).
Definition demo_slot : stream_slot_t :=
  Slot (Range 1 0 5) (replicate 5 255) false false false 0 1 1.

Lemma demo_waiting_ok : stream_ok demo_src (wait_total (readers demo_waiting)) (stream demo_waiting).
Proof.
  assert (Hc : sm_pkg_stream_create true (Z.of_nat (length demo_src)) = Some demo_stream)
    by (vm_compute; reflexivity).
  apply (run_actions_inv demo_fresh demo_src (take 2 demo_acts) _ (create_inv _ _ Hc)).
  - simpl. lia.
  - vm_compute. discriminate.
  - vm_compute. reflexivity.
Qed.

Lemma segment_eviction_safe_witness :
  slots (stream demo_waiting) !! 0%nat = Some demo_slot /\
  slots (request_segment_locked demo_fresh demo_alloc (stream demo_waiting) 0 true).2 !! 0%nat =
    Some demo_slot.
Proof.
  split; [vm_compute; reflexivity|].
  apply (segment_eviction_safe demo_fresh demo_src (wait_total (readers demo_waiting))
    (stream demo_waiting) demo_alloc 0 true 0 demo_slot).
  - exact demo_waiting_ok.
  - vm_compute. discriminate.
  - reflexivity.
  - vm_compute. split; [discriminate|reflexivity].
  - vm_compute. reflexivity.
  - split; [reflexivity|left; reflexivity].
Defined.

Lemma try_request_exclusive_witness :
  exists i sl, slots (stream demo_waiting) !! i = Some sl /\ range sl = Range 1 0 5 /\
    used sl = true /\ ready sl = false.
Proof.
  destruct (try_request_exclusive (stream demo_waiting) 1 0 (Some (Range 1 0 5))
    (sm_pkg_stream_try_request (stream demo_waiting) 1).2) as (_ & _ & i & sl & H1 & H2 & H3 & H4 & _).
  - vm_compute. reflexivity.
  - exists i, sl. auto.
Defined.
