(* ===== verification/Sha1Spec.v ===== *)
(** * SHA-1 as the standard states it (FIPS 180-4)

    The specification src/sm_pkg_ws.c is compared with.  Nothing of it is taken from the
    program: the functions on words are given bit by bit, the constants by the numbers
    they come from, padding by the congruence it has to satisfy. *)
From S2P Require Import Prelude.
Open Scope Z_scope.

(** ** Words of 32 bits *)
Definition is_word (x : Z) : Prop := 0 <= x < 2 ^ 32.

(** The number with the bits [f i], [f (i+1)], ... of [n] places. *)
Fixpoint of_bits (n : nat) (i : Z) (f : Z -> bool) : Z :=
  match n with O => 0 | S n' => 2 * of_bits n' (i + 1) f + Z.b2z (f i) end.

Definition word (f : Z -> bool) : Z := of_bits 32 0 f.

Definition bit (x i : Z) : bool := Z.testbit x i.

(** Section 2.2.2: the circular left shift. *)
Definition ROTL (n x : Z) : Z := word (fun i => bit x ((i - n) mod 32)).

(** Addition modulo 2^32. *)
Definition plus32 (x y : Z) : Z := (x + y) mod 2 ^ 32.

(** Section 4.1.1. *)
Definition Ch (x y z : Z) : Z := word (fun i => if bit x i then bit y i else bit z i).
Definition Parity (x y z : Z) : Z := word (fun i => Z.odd (Z.b2z (bit x i) + Z.b2z (bit y i) + Z.b2z (bit z i))).
Definition Maj (x y z : Z) : Z := word (fun i => 2 <=? Z.b2z (bit x i) + Z.b2z (bit y i) + Z.b2z (bit z i)).

Definition f_of (t : nat) : Z -> Z -> Z -> Z :=
  if (t <? 20)%nat then Ch else if (t <? 40)%nat then Parity else if (t <? 60)%nat then Maj else Parity.

(** Section 4.2.1: the constants are 2^30 times the roots of 2, 3, 5 and 10. *)
Definition root30 (n : Z) : Z := Z.sqrt (n * 2 ^ 60).
Definition K_of (t : nat) : Z :=
  root30 (if (t <? 20)%nat then 2 else if (t <? 40)%nat then 3 else if (t <? 60)%nat then 5 else 10).

(** Section 5.3.1: the initial value counts the hexadecimal digits up and down, the low
    byte of a word first; the last word counts [F0], [E1], [D2], [C3]. *)
Definition little_endian (bytes : list Z) : Z := foldr (fun b v => b + 256 * v) 0 bytes.
Definition big_endian (bytes : list Z) : Z := foldl (fun v b => 256 * v + b) 0 bytes.

Definition digits_up : list Z := [0x01; 0x23; 0x45; 0x67; 0x89; 0xAB; 0xCD; 0xEF].
Definition digits_down : list Z := [0xFE; 0xDC; 0xBA; 0x98; 0x76; 0x54; 0x32; 0x10].

Definition hash_words : Type := Z * Z * Z * Z * Z.
Definition H0 : hash_words :=
  (little_endian (take 4 digits_up), little_endian (drop 4 digits_up),
   little_endian (take 4 digits_down), little_endian (drop 4 digits_down), little_endian [0xF0; 0xE1; 0xD2; 0xC3]).

(** ** One block (section 6.1.2) *)

(** The word [t] of a block. *)
Definition M_of (block : list Z) (t : nat) : Z := big_endian (take 4 (drop (4 * t) block)).

(** The message schedule: its first [n] words. *)
Fixpoint W_upto (block : list Z) (n : nat) : list Z :=
  match n with
  | O => []
  | S t =>
      let W := W_upto block t in
      let at_ (i : nat) := nth i W 0 in
      W ++ [if (t <? 16)%nat then M_of block t
            else ROTL 1 (word (fun i => Z.odd (Z.b2z (bit (at_ (t - 3)%nat) i) + Z.b2z (bit (at_ (t - 8)%nat) i) +
                                              Z.b2z (bit (at_ (t - 14)%nat) i) + Z.b2z (bit (at_ (t - 16)%nat) i))))]
  end.

Definition round (W : list Z) (s : hash_words) (t : nat) : hash_words :=
  let '(a, b, c, d, e) := s in
  let T := plus32 (plus32 (plus32 (plus32 (ROTL 5 a) (f_of t b c d)) e) (K_of t)) (nth t W 0) in
  (T, a, ROTL 30 b, c, d).

Definition compress (h : hash_words) (block : list Z) : hash_words :=
  let '(a, b, c, d, e) := foldl (round (W_upto block 80)) h (seq 0 80) in
  let '(h0, h1, h2, h3, h4) := h in
  (plus32 a h0, plus32 b h1, plus32 c h2, plus32 d h3, plus32 e h4).

(** ** Messages (section 5.1.1, in bytes) *)

(** [v] in [n] bytes, the high one first. *)
Definition bytes_of (n : nat) (v : Z) : list Z := (fun i => v / 256 ^ (Z.of_nat n - 1 - Z.of_nat i) mod 256) <$> seq 0 n.

(** The least number of zeros after which the length field ends a block. *)
Definition zeros_after (len : nat) : nat :=
  default 0%nat (List.find (fun k => ((len + 1 + k) mod 64 =? 56)%nat) (seq 0 64)).

Definition pad (msg : list Z) : list Z :=
  msg ++ [0x80] ++ replicate (zeros_after (length msg)) 0 ++ bytes_of 8 (8 * Z.of_nat (length msg)).

Fixpoint fold_blocks (n : nat) (h : hash_words) (p : list Z) : hash_words :=
  match n with O => h | S n' => fold_blocks n' (compress h (take 64 p)) (drop 64 p) end.

Definition SHA1 (msg : list Z) : list Z :=
  let p := pad msg in
  let '(a, b, c, d, e) := fold_blocks (length p / 64) H0 p in
  concat (bytes_of 4 <$> [a; b; c; d; e]).

(** The examples of the standard. *)
Example sha1_abc : SHA1 [0x61; 0x62; 0x63] =
  [0xA9; 0x99; 0x3E; 0x36; 0x47; 0x06; 0x81; 0x6A; 0xBA; 0x3E; 0x25; 0x71; 0x78; 0x50; 0xC2; 0x6C; 0x9C; 0xD0; 0xD8; 0x9D].
Proof. vm_compute. reflexivity. Qed.

Example sha1_empty : SHA1 [] =
  [0xDA; 0x39; 0xA3; 0xEE; 0x5E; 0x6B; 0x4B; 0x0D; 0x32; 0x55; 0xBF; 0xEF; 0x95; 0x60; 0x18; 0x90; 0xAF; 0xD8; 0x07; 0x09].
Proof. vm_compute. reflexivity. Qed.

(** ** Bits *)
Lemma of_bits_testbit n i f k : 0 <= k -> Z.testbit (of_bits n i f) k = (k <? Z.of_nat n) && f (i + k).
Proof.
  revert i k. induction n as [|n IH]; intros i k Hk; cbn [of_bits].
  { rewrite Z.bits_0. by destruct (Z.ltb_spec k (Z.of_nat 0)); [lia|]. }
  destruct (Z.eq_dec k 0) as [->|Hne]; [rewrite Z.testbit_0_r; by rewrite Z.add_0_r|].
  replace k with (Z.succ (k - 1)) at 1 by lia. rewrite Z.testbit_succ_r by lia. rewrite IH by lia.
  replace (i + 1 + (k - 1)) with (i + k) by lia. f_equal. destruct (Z.ltb_spec (k - 1) (Z.of_nat n)), (Z.ltb_spec k (Z.of_nat (S n))); lia.
Qed.

Lemma of_bits_range n i f : 0 <= of_bits n i f < 2 ^ Z.of_nat n.
Proof.
  revert i. induction n as [|n IH]; intros i; [done|]. cbn [of_bits]. specialize (IH (i + 1)).
  rewrite Nat2Z.inj_succ, Z.pow_succ_r by lia. destruct (f i); cbn [Z.b2z]; lia.
Qed.

Lemma word_range f : is_word (word f).
Proof. apply (of_bits_range 32). Qed.

Lemma word_testbit f k : 0 <= k < 32 -> Z.testbit (word f) k = f k.
Proof. intros Hk. unfold word. rewrite of_bits_testbit by lia. destruct (Z.ltb_spec k (Z.of_nat 32)); [done|lia]. Qed.

Lemma word_high x k : is_word x -> 32 <= k -> Z.testbit x k = false.
Proof.
  intros [H0 H1] Hk. destruct (Z.eq_dec x 0) as [->|]; [apply Z.bits_0|]. apply Z.bits_above_log2; [done|].
  apply Z.lt_le_trans with 32; [|done]. apply Z.log2_lt_pow2; lia.
Qed.

(** Words are equal when their bits are. *)
Lemma word_eq x f : is_word x -> (forall k, 0 <= k < 32 -> Z.testbit x k = f k) -> x = word f.
Proof.
  intros Hx H. apply Z.bits_inj'. intros k Hk. destruct (Z.lt_ge_cases k 32) as [Hl|Hl].
  - rewrite word_testbit by lia. apply H. lia.
  - rewrite !word_high; [done|apply word_range|lia|done|lia].
Qed.

Lemma plus32_range x y : is_word (plus32 x y).
Proof. apply Z.mod_pos_bound. done. Qed.

Lemma compress_range h p : let '(a, b, c, d, e) := compress h p in is_word a /\ is_word b /\ is_word c /\ is_word d /\ is_word e.
Proof.
  unfold compress. destruct (foldl _ _ _) as [[[[? ?] ?] ?] ?], h as [[[[? ?] ?] ?] ?]. repeat split; apply plus32_range.
Qed.

Lemma W_upto_length block n : length (W_upto block n) = n.
Proof. induction n as [|n IH]; cbn [W_upto]; [done|]. rewrite length_app, IH. simpl. lia. Qed.
