(* ===== verification/WsCrypto.v ===== *)
(** * The WebSocket handshake key (src/sm_pkg_ws.c, first half)

    SHA-1 over a byte stream, Base64, and the accept key computed from them.
    Bytes and 32-bit words are [Z]; [buf] holds the first [buflen] bytes of the
    C buffer (the rest of it is never read). *)
From S2P Require Import Prelude CString Bytes Sha1Spec.

Definition WS_GUID : string := "258EAFA5-E914-47DA-95CA-C5AB0DC85B11".
Definition B64_ALPHABET : string :=
  "ABCDEFGHIJKLMNOPQRSTUVWXYZabcdefghijklmnopqrstuvwxyz0123456789+/".

(** ** SHA-1 *)
Definition words5 : Type := Z * Z * Z * Z * Z.

Record ws_sha1_t := Sha1 { sha_h : words5; sha_len : Z; sha_buf : list Z }.

Definition rol32 (v n : Z) : Z := Z.lor (u32 (Z.shiftl v n)) (Z.shiftr v (32 - n)).

Definition byte_at (p : list Z) (i : nat) : Z := nth i p 0.

Definition word_at (p : list Z) (i : nat) : Z :=
  Z.lor (Z.lor (Z.lor (Z.shiftl (byte_at p (4 * i)) 24) (Z.shiftl (byte_at p (4 * i + 1)) 16))
    (Z.shiftl (byte_at p (4 * i + 2)) 8)) (byte_at p (4 * i + 3)).

(** The message schedule: [n] more words after [w]. *)
Fixpoint expand (n : nat) (w : list Z) : list Z :=
  match n with
  | O => w
  | S n' =>
      let i := length w in
      let x := Z.lxor (Z.lxor (Z.lxor (nth (i - 3) w 0) (nth (i - 8) w 0)) (nth (i - 14) w 0))
                 (nth (i - 16) w 0) in
      expand n' (w ++ [rol32 x 1])
  end.

Definition round_fk (i : nat) (b c d : Z) : Z * Z :=
  if (i <? 20)%nat then (Z.lor (Z.land b c) (Z.land (u32 (Z.lnot b)) d), 0x5A827999)
  else if (i <? 40)%nat then (Z.lxor (Z.lxor b c) d, 0x6ED9EBA1)
  else if (i <? 60)%nat
  then (Z.lor (Z.lor (Z.land b c) (Z.land b d)) (Z.land c d), 0x8F1BBCDC)
  else (Z.lxor (Z.lxor b c) d, 0xCA62C1D6).

(** Rounds [i] to 79, [w] being the words left. *)
Fixpoint sha1_rounds (i : nat) (w : list Z) (h : words5) : words5 :=
  match w with
  | [] => h
  | wi :: w' =>
      let '(a, b, c, d, e) := h in
      let '(fp, k) := round_fk i b c d in
      let t := u32 (rol32 a 5 + fp + e + k + wi) in
      sha1_rounds (S i) w' (t, a, rol32 b 30, c, d)
  end.

Definition add5 (x y : words5) : words5 :=
  let '(a, b, c, d, e) := x in
  let '(a', b', c', d', e') := y in
  (u32 (a + a'), u32 (b + b'), u32 (c + c'), u32 (d + d'), u32 (e + e')).

Definition sha1_block (h : words5) (p : list Z) : words5 :=
  add5 h (sha1_rounds 0 (expand 64 (word_at p <$> seq 0 16)) h).

Definition sha1_init : ws_sha1_t :=
  Sha1 (0x67452301, 0xEFCDAB89, 0x98BADCFE, 0x10325476, 0xC3D2E1F0) 0 [].

(** The loop of [sha1_update]; every turn consumes at least one byte, so the
    length of the data is enough fuel. *)
Fixpoint sha1_feed (fuel : nat) (h : words5) (buf data : list Z) : words5 * list Z :=
  match fuel, data with
  | S fuel', _ :: _ =>
      let n := Nat.min (64 - length buf) (length data) in
      let buf' := buf ++ take n data in
      if (length buf' =? 64)%nat then sha1_feed fuel' (sha1_block h buf') [] (drop n data)
      else sha1_feed fuel' h buf' (drop n data)
  | _, _ => (h, buf)
  end.

Definition sha1_update (c : ws_sha1_t) (data : list Z) : ws_sha1_t :=
  let '(h, buf) := sha1_feed (length data) (sha_h c) (sha_buf c) data in
  Sha1 h (u64 (sha_len c + Z.of_nat (length data))) buf.

(** [while (c->buflen != 56) sha1_update(c, &zero, 1)]: at most 63 turns. *)
Fixpoint sha1_pad (fuel : nat) (c : ws_sha1_t) : ws_sha1_t :=
  match fuel with
  | O => c
  | S fuel' => if (length (sha_buf c) =? 56)%nat then c else sha1_pad fuel' (sha1_update c [0])
  end.

Definition be_bytes (n : nat) (v : Z) : list Z :=
  (fun i => u8 (Z.shiftr v (8 * (Z.of_nat n - 1 - Z.of_nat i)))) <$> seq 0 n.

Definition sha1_final (c : ws_sha1_t) : list Z :=
  let bitlen := u64 (sha_len c * 8) in
  let c' := sha1_pad 64 (sha1_update c [0x80]) in
  let '(a, b, d, e, f) := sha1_block (sha_h c') (sha_buf c' ++ be_bytes 8 bitlen) in
  concat (be_bytes 4 <$> [a; b; d; e; f]).

(** ** Base64 *)
Definition b64_char (v : Z) : ascii := default zero (String.get (Z.to_nat (Z.land v 63)) B64_ALPHABET).

Fixpoint b64_groups (fuel : nat) (input : list Z) : string :=
  match fuel, input with
  | S fuel', x :: rest =>
      let y := nth 0 rest 0 in
      let z := nth 1 rest 0 in
      let v := Z.lor (Z.lor (Z.shiftl x 16) (Z.shiftl y 8)) z in
      String (b64_char (Z.shiftr v 18))
        (String (b64_char (Z.shiftr v 12))
           (String (if (1 <=? length rest)%nat then b64_char (Z.shiftr v 6) else "="%char)
              (String (if (2 <=? length rest)%nat then b64_char v else "="%char)
                 (b64_groups fuel' (drop 2 rest)))))
  | _, _ => EmptyString
  end.

(** [None] is the result -1. *)
Definition b64_encode (input : list Z) (max : nat) : option string :=
  let need := ((length input + 2) / 3 * 4 + 1)%nat in
  if (max <? need)%nat then None else Some (b64_groups (length input) input).

(** ** The accept key *)
Definition is_blank (a : ascii) : bool := Ascii.eqb a " "%char || Ascii.eqb a "009"%char.
Definition is_trailing (a : ascii) : bool :=
  is_blank a || Ascii.eqb a "013"%char || Ascii.eqb a "010"%char.

Fixpoint skip_blanks (s : string) : string :=
  match s with
  | String a s' => if is_blank a then skip_blanks s' else s
  | EmptyString => s
  end.

(** [while (klen > 0 && trailing(key[klen-1])) key[--klen] = 0]. *)
Fixpoint trim_right (s : string) : string :=
  match s with
  | EmptyString => EmptyString
  | String a s' =>
      match trim_right s' with
      | EmptyString => if is_trailing a then EmptyString else String a EmptyString
      | s'' => String a s''
      end
  end.

Definition handshake_accept_key (client_key : string) (max : nat) : option string :=
  if strcmp_eq client_key "" || (max <? 32)%nat then None
  else
    let key := trim_right (strlcpy (skip_blanks client_key) 256) in
    if strcmp_eq key "" then None
    else
      let combo := strlcpy (String.append key WS_GUID) 320 in
      b64_encode (sha1_final (sha1_update sha1_init (string_bytes combo))) max.

Definition in_alphabet (a : ascii) : bool := strchr B64_ALPHABET a.

Fixpoint all_chars (p : ascii -> bool) (s : string) : bool :=
  match s with EmptyString => true | String a s' => p a && all_chars p s' end.

(** [None] is EINVAL. *)
Definition sm_pkg_ws_accept_key (key : string) : option string :=
  if negb (strlen key =? 24)%nat || negb (bool_decide (char_at key 22 = Some "="%char)) ||
     negb (bool_decide (char_at key 23 = Some "="%char)) then None
  else if negb (all_chars in_alphabet (strlcpy key 23)) then None
  else handshake_accept_key key 32.

(** ** Reference definitions *)

(** The padded message, block by block: what streaming is compared with first; that
    this is the digest of the standard (Sha1Spec.v) comes after it. *)
Definition sha1_padded (msg : list Z) : list Z :=
  msg ++ [0x80] ++ replicate (Z.to_nat ((55 - Z.of_nat (length msg)) mod 64)) 0 ++
  be_bytes 8 (8 * Z.of_nat (length msg)).

Fixpoint sha1_blocks (n : nat) (h : words5) (p : list Z) : words5 :=
  match n with
  | O => h
  | S n' => sha1_blocks n' (sha1_block h (take 64 p)) (drop 64 p)
  end.

Definition digest_bytes (h : words5) : list Z :=
  let '(a, b, c, d, e) := h in concat (be_bytes 4 <$> [a; b; c; d; e]).

Definition sha1_by_blocks (msg : list Z) : list Z :=
  let p := sha1_padded msg in
  digest_bytes (sha1_blocks (length p / 64) (sha_h sha1_init) p).

(** Base64 decoding of groups of four characters. *)
Fixpoint index_of (a : ascii) (s : string) : option Z :=
  match s with
  | EmptyString => None
  | String b s' => if Ascii.eqb a b then Some 0 else Z.add 1 <$> index_of a s'
  end.

Fixpoint b64_decode (s : string) : option (list Z) :=
  match s with
  | EmptyString => Some []
  | String a (String b (String c (String d s'))) =>
      x ← index_of a B64_ALPHABET; y ← index_of b B64_ALPHABET;
      if Ascii.eqb c "="%char then Some [x * 4 + y / 16]
      else
        z ← index_of c B64_ALPHABET;
        if Ascii.eqb d "="%char then Some [x * 4 + y / 16; y mod 16 * 16 + z / 4]
        else
          w ← index_of d B64_ALPHABET; rest ← b64_decode s';
          Some ([x * 4 + y / 16; y mod 16 * 16 + z / 4; z mod 4 * 64 + w] ++ rest)
  | _ => None
  end.

(** ** SHA-1 streaming *)
Definition absorb (s : words5 * list Z) (x : Z) : words5 * list Z :=
  let '(h, buf) := s in
  if (length buf =? 63)%nat then (sha1_block h (buf ++ [x]), []) else (h, buf ++ [x]).

Definition absorb_all (data : list Z) (s : words5 * list Z) : words5 * list Z :=
  fold_left absorb data s.

Lemma absorb_all_app a b s : absorb_all (a ++ b) s = absorb_all b (absorb_all a s).
Proof. apply fold_left_app. Qed.

(** Fewer bytes than the block needs are just appended. *)
Lemma absorb_partial data h buf : (length buf + length data < 64)%nat ->
  absorb_all data (h, buf) = (h, buf ++ data).
Proof.
  revert buf. induction data as [|x data IH]; intros buf Hlen; simpl in *; [by rewrite app_nil_r|].
  unfold absorb_all in *. simpl. destruct (Nat.eqb_spec (length buf) 63); [lia|].
  rewrite IH by (rewrite length_app; simpl; lia). by rewrite <-app_assoc.
Qed.

Lemma absorb_block data h buf : (length buf + length data = 64)%nat -> (length buf < 64)%nat ->
  absorb_all data (h, buf) = (sha1_block h (buf ++ data), []).
Proof.
  intros Hlen Hlt. destruct (exists_last (l := data)) as (d & x & ->); [by intros ->; simpl in *; lia|].
  rewrite length_app in Hlen. simpl in Hlen. rewrite absorb_all_app, absorb_partial by lia.
  unfold absorb_all. simpl. rewrite length_app. destruct (Nat.eqb_spec (length buf + length d) 63); [|lia].
  by rewrite <-app_assoc.
Qed.

Lemma sha1_feed_absorb fuel h buf data : (length buf < 64)%nat -> (length data <= fuel)%nat ->
  sha1_feed fuel h buf data = absorb_all data (h, buf).
Proof.
  revert h buf data. induction fuel as [|fuel IH]; intros h buf data Hbuf Hfuel.
  { destruct data; [done|simpl in *; lia]. }
  destruct data as [|x data]; [done|]. cbn [sha1_feed].
  set (l := x :: data) in *. set (n := Nat.min (64 - length buf) (length l)).
  assert (Hn : (0 < n <= length l)%nat) by (unfold n, l; simpl; lia).
  assert (Htake : length (take n l) = n) by (rewrite length_take; lia).
  transitivity (absorb_all (take n l ++ drop n l) (h, buf)); [|by rewrite take_drop].
  rewrite absorb_all_app.
  destruct (Nat.eqb_spec (length (buf ++ take n l)) 64) as [Hf|Hf]; rewrite length_app, Htake in Hf.
  - rewrite absorb_block by lia. apply IH; [simpl; lia|]. rewrite length_drop. lia.
  - rewrite absorb_partial by (rewrite Htake; lia). apply IH; rewrite ?length_app, ?length_drop; lia.
Qed.

Lemma absorb_length data s : (length s.2 < 64)%nat ->
  length (absorb_all data s).2 = ((length s.2 + length data) mod 64)%nat.
Proof.
  revert s. induction data as [|x data IH]; intros [h buf] Hlt; cbn [snd length] in *.
  { unfold absorb_all. cbn [fold_left snd]. by rewrite Nat.add_0_r, Nat.mod_small. }
  unfold absorb_all in *. cbn [fold_left absorb]. destruct (Nat.eqb_spec (length buf) 63) as [He|He].
  - rewrite IH by (cbn; lia). cbn [snd length]. rewrite He.
    replace (63 + S (length data))%nat with (length data + 1 * 64)%nat by lia.
    by rewrite Nat.Div0.mod_add.
  - rewrite IH by (cbn [snd]; rewrite length_app; cbn; lia). cbn [snd]. rewrite length_app.
    cbn [length]. f_equal. lia.
Qed.

Lemma absorb_blocks n h p : length p = (64 * n)%nat -> absorb_all p (h, []) = (sha1_blocks n h p, []).
Proof.
  revert h p. induction n as [|n IH]; intros h p Hlen; simpl.
  { destruct p; [done|simpl in *; lia]. }
  rewrite <-(take_drop 64 p) at 1. rewrite absorb_all_app.
  rewrite absorb_block by (simpl; rewrite ?length_take; lia). simpl. apply IH. rewrite length_drop. lia.
Qed.

(** A state whose buffer is not full. *)
Definition sha_state (c : ws_sha1_t) : words5 * list Z := (sha_h c, sha_buf c).

Lemma sha1_update_state c data : (length (sha_buf c) < 64)%nat ->
  sha_state (sha1_update c data) = absorb_all data (sha_state c).
Proof.
  intros Hb. unfold sha1_update, sha_state. rewrite <-sha1_feed_absorb with (fuel := length data) by done.
  by destruct (sha1_feed _ _ _ _).
Qed.

(** Padding with zeros reaches the length field within 63 bytes. *)
Lemma sha1_pad_spec fuel c : (length (sha_buf c) < 64)%nat ->
  ((56 + 64 - length (sha_buf c)) mod 64 <= fuel)%nat ->
  sha_state (sha1_pad fuel c) =
    absorb_all (replicate ((56 + 64 - length (sha_buf c)) mod 64) 0) (sha_state c).
Proof.
  revert c. induction fuel as [|fuel IH]; intros c Hlt Hfuel; cbn [sha1_pad].
  { replace ((56 + 64 - length (sha_buf c)) mod 64)%nat with 0%nat by lia. done. }
  set (b := length (sha_buf c)) in *. destruct (Nat.eqb_spec b 56) as [->|Hne]; [done|].
  assert (Hb' : length (sha_buf (sha1_update c [0])) = ((b + 1) mod 64)%nat).
  { change (sha_buf (sha1_update c [0])) with (sha_state (sha1_update c [0])).2.
    rewrite sha1_update_state by done. by rewrite absorb_length. }
  assert (Hk : ((56 + 64 - b) mod 64)%nat = S ((56 + 64 - (b + 1) mod 64) mod 64)).
  { destruct (decide (b = 63%nat)) as [->|]; [done|]. rewrite (Nat.mod_small (b + 1)) by lia.
    destruct (decide (b < 56)%nat).
    - replace (56 + 64 - b)%nat with (56 - b + 1 * 64)%nat by lia.
      replace (56 + 64 - (b + 1))%nat with (55 - b + 1 * 64)%nat by lia.
      rewrite !Nat.Div0.mod_add, !Nat.mod_small by lia. lia.
    - rewrite !Nat.mod_small by lia. lia. }
  rewrite Hk in Hfuel |- *. rewrite IH; rewrite Hb'; [|apply Nat.mod_upper_bound; lia|lia].
  rewrite sha1_update_state by done. simpl. done.
Qed.

Lemma sha1_final_absorb c : (length (sha_buf c) < 64)%nat -> 0 <= sha_len c ->
  sha1_final c = digest_bytes
    (absorb_all ([0x80] ++
       replicate ((56 + 64 - (length (sha_buf c) + 1) mod 64) mod 64) 0 ++
       be_bytes 8 (u64 (sha_len c * 8))) (sha_state c)).1.
Proof.
  intros Hb Hl. unfold sha1_final.
  set (c1 := sha1_update c [0x80]). set (c' := sha1_pad 64 c1).
  assert (H1 : sha_state c1 = absorb_all [0x80] (sha_state c)) by (by apply sha1_update_state).
  assert (Hb1 : length (sha_buf c1) = ((length (sha_buf c) + 1) mod 64)%nat).
  { change (sha_buf c1) with (sha_state c1).2. rewrite H1. by rewrite absorb_length. }
  assert (Hlt1 : (length (sha_buf c1) < 64)%nat) by (rewrite Hb1; apply Nat.mod_upper_bound; lia).
  assert (H2 : sha_state c' = absorb_all (replicate ((56 + 64 - length (sha_buf c1)) mod 64) 0) (sha_state c1)).
  { apply sha1_pad_spec; [done|]. pose proof (Nat.mod_upper_bound (56 + 64 - length (sha_buf c1)) 64). lia. }
  assert (Hb2 : length (sha_buf c') = 56%nat).
  { change (sha_buf c') with (sha_state c').2. rewrite H2, absorb_length by done.
    rewrite length_replicate. change (sha_state c1).2 with (sha_buf c1).
    rewrite Nat.Div0.add_mod_idemp_r.
    replace (length (sha_buf c1) + (56 + 64 - length (sha_buf c1)))%nat with 120%nat by lia. done. }
  rewrite !absorb_all_app, <-H1, <-Hb1, <-H2. unfold sha_state at 1.
  rewrite absorb_block by (rewrite ?Hb2; simpl; lia). simpl fst.
  unfold digest_bytes. by destruct (sha1_block _ _) as [[[[? ?] ?] ?] ?].
Qed.

Lemma pad_count n :
  ((56 + 64 - (n mod 64 + 1) mod 64) mod 64)%nat = Z.to_nat ((55 - Z.of_nat n) mod 64).
Proof.
  assert (Hr : (n mod 64 < 64)%nat) by (apply Nat.mod_upper_bound; lia).
  replace ((55 - Z.of_nat n) mod 64) with ((55 - Z.of_nat (n mod 64)) mod 64).
  2: { rewrite Nat2Z.inj_mod. apply Zminus_mod_idemp_r. }
  generalize dependent (n mod 64)%nat. clear n. intros r Hr.
  assert (Hall : forallb (fun r => ((56 + 64 - (r + 1) mod 64) mod 64 =?
    Z.to_nat ((55 - Z.of_nat r) mod 64))%nat) (seq 0 64) = true) by (vm_compute; reflexivity).
  rewrite forallb_forall in Hall. specialize (Hall r (proj2 (in_seq 64 0 r) ltac:(lia))).
  by apply Nat.eqb_eq in Hall.
Qed.

Lemma padded_length msg : exists n, length (sha1_padded msg) = (64 * n)%nat.
Proof.
  set (l := Z.of_nat (length msg)).
  assert (Hmod : (l + 9 + (55 - l) mod 64) mod 64 = 0).
  { rewrite Z.add_mod_idemp_r by lia. by replace (l + 9 + (55 - l)) with (1 * 64) by lia. }
  pose proof (Z.mod_pos_bound (55 - l) 64 ltac:(lia)) as Hk.
  apply Z.mod_divide in Hmod as [n Hn]; [|lia]. exists (Z.to_nat n).
  unfold sha1_padded. rewrite !length_app, length_replicate. unfold be_bytes.
  rewrite length_fmap, length_seq. fold l. simpl. lia.
Qed.

Lemma updates_state parts c : (length (sha_buf c) < 64)%nat ->
  sha_state (fold_left sha1_update parts c) = absorb_all (concat parts) (sha_state c).
Proof.
  revert c. induction parts as [|p parts IH]; intros c Hb; simpl; [done|].
  rewrite absorb_all_app, <-(sha1_update_state c p) by done. apply IH.
  change (sha_buf (sha1_update c p)) with (sha_state (sha1_update c p)).2.
  rewrite sha1_update_state, absorb_length by done. apply Nat.mod_upper_bound. lia.
Qed.

Lemma updates_len parts c : 0 <= sha_len c ->
  sha_len c + Z.of_nat (length (concat parts)) <= UINT64_MAX ->
  sha_len (fold_left sha1_update parts c) = sha_len c + Z.of_nat (length (concat parts)).
Proof.
  revert c. induction parts as [|p parts IH]; intros c Hl Hb; simpl in *; [lia|].
  rewrite length_app in Hb |- *.
  assert (Hu : sha_len (sha1_update c p) = sha_len c + Z.of_nat (length p)).
  { unfold sha1_update. destruct (sha1_feed _ _ _ _). simpl. apply u64_small. lia. }
  rewrite IH; rewrite Hu; lia.
Qed.

Lemma sha1_updates parts : Z.of_nat (length (concat parts)) < 2 ^ 61 ->
  sha1_final (fold_left sha1_update parts sha1_init) = sha1_by_blocks (concat parts).
Proof.
  intros Hlen. set (msg := concat parts) in *. set (c := fold_left _ _ _).
  assert (Hst : sha_state c = absorb_all msg (sha_state sha1_init)) by (apply updates_state; simpl; lia).
  assert (Hbuf : length (sha_buf c) = (length msg mod 64)%nat).
  { change (sha_buf c) with (sha_state c).2. rewrite Hst. apply absorb_length. simpl. lia. }
  assert (Hsl : sha_len c = Z.of_nat (length msg)).
  { unfold c. rewrite updates_len; fold msg; [simpl; lia|simpl; lia|]. unfold UINT64_MAX. simpl. lia. }
  rewrite sha1_final_absorb; [|rewrite Hbuf; apply Nat.mod_upper_bound; lia|lia].
  rewrite Hst, Hbuf, Hsl, pad_count, <-absorb_all_app.
  rewrite u64_small by (unfold UINT64_MAX; lia). unfold sha1_by_blocks. f_equal.
  replace (Z.of_nat (length msg) * 8) with (8 * Z.of_nat (length msg)) by lia.
  fold (sha1_padded msg). destruct (padded_length msg) as [n Hn].
  rewrite Hn. replace (64 * n / 64)%nat with n by (rewrite Nat.mul_comm, Nat.div_mul; lia).
  unfold sha_state, sha1_init. cbn [sha_h sha_buf]. by rewrite (absorb_blocks n).
Qed.

Lemma sha1_one msg : Z.of_nat (length msg) < 2 ^ 61 ->
  sha1_final (sha1_update sha1_init msg) = sha1_by_blocks msg.
Proof.
  intros H. pose proof (sha1_updates [msg]) as Hs. simpl in Hs. rewrite app_nil_r in Hs. by apply Hs.
Qed.

(** ** Bytes *)
Lemma be_bytes_ok n v : Forall is_byte (be_bytes n v) /\ length (be_bytes n v) = n.
Proof.
  unfold be_bytes. rewrite length_fmap, length_seq. split; [|done].
  apply Forall_fmap, Forall_true. intros x. apply u8_byte.
Qed.

Lemma digest_ok h : Forall is_byte (digest_bytes h) /\ length (digest_bytes h) = 20%nat.
Proof.
  destruct h as [[[[a b] c] d] e]. unfold digest_bytes. simpl. split; [|done].
  repeat (constructor; [apply u8_byte|]). constructor.
Qed.

(** ** Base64 *)
Lemma lor_shiftl_add x y n : 0 <= n -> 0 <= y < 2 ^ n -> Z.lor (Z.shiftl x n) y = x * 2 ^ n + y.
Proof.
  intros Hn Hy. rewrite <-Z.add_nocarry_lor; [by rewrite Z.shiftl_mul_pow2 by done|].
  apply Z.bits_inj'. intros k Hk. rewrite Z.land_spec, Z.bits_0.
  destruct (Z.ltb_spec k n).
  - rewrite Z.shiftl_spec_low by done. done.
  - destruct (Z.eq_dec y 0) as [->|]; [by rewrite Z.bits_0, andb_false_r|].
    rewrite (Z.bits_above_log2 y k); [by rewrite andb_false_r|lia|].
    apply Z.log2_lt_pow2; [lia|]. apply Z.lt_le_trans with (2 ^ n); [lia|]. apply Z.pow_le_mono_r; lia.
Qed.

Lemma land63 v : 0 <= v -> Z.land v 63 = v mod 64.
Proof. intros. change 63 with (Z.ones 6). by rewrite Z.land_ones. Qed.

Lemma b64_index v : 0 <= v -> index_of (b64_char v) B64_ALPHABET = Some (v mod 64).
Proof.
  intros Hv. unfold b64_char. rewrite land63 by done.
  pose proof (Z.mod_pos_bound v 64 ltac:(lia)). generalize dependent (v mod 64). intros r Hr.
  assert (Hall : forallb (fun k => bool_decide (index_of
    (default zero (String.get k B64_ALPHABET)) B64_ALPHABET = Some (Z.of_nat k))) (seq 0 64) = true)
    by (vm_compute; reflexivity).
  rewrite forallb_forall in Hall.
  specialize (Hall (Z.to_nat r) (proj2 (in_seq 64 0 (Z.to_nat r)) ltac:(lia))).
  apply bool_decide_eq_true in Hall. rewrite Hall. f_equal. lia.
Qed.

Lemma b64_not_pad v : 0 <= v -> Ascii.eqb (b64_char v) "="%char = false.
Proof.
  intros Hv. destruct (Ascii.eqb_spec (b64_char v) "="%char) as [He|]; [|done].
  pose proof (b64_index v Hv) as Hi. by rewrite He in Hi.
Qed.

(** The 24-bit group of three bytes. *)
Lemma group_value x y z : is_byte x -> is_byte y -> is_byte z ->
  Z.lor (Z.lor (Z.shiftl x 16) (Z.shiftl y 8)) z = x * 65536 + y * 256 + z.
Proof.
  unfold is_byte. intros. rewrite (Z.shiftl_mul_pow2 y) by lia.
  rewrite lor_shiftl_add by lia.
  replace (x * 2 ^ 16 + y * 2 ^ 8) with (Z.shiftl (x * 256 + y) 8)
    by (rewrite Z.shiftl_mul_pow2 by lia; lia).
  rewrite lor_shiftl_add by lia. lia.
Qed.

#[local] Arguments index_of : simpl never.
#[local] Arguments b64_char : simpl never.

(** Linear arithmetic with division and remainder by constants. *)
Ltac div_lia := Z.div_mod_to_equations; lia.

Lemma b64_roundtrip_groups fuel l : Forall is_byte l -> (length l <= fuel)%nat ->
  b64_decode (b64_groups fuel l) = Some l.
Proof.
  revert l. induction fuel as [|fuel IH]; intros l Hl Hlen; [by destruct l; [|simpl in *; lia]|].
  destruct l as [|x rest]; [done|]. apply Forall_cons_1 in Hl as [Hx Hrest].
  set (y := nth 0 rest 0). set (z := nth 1 rest 0).
  assert (Hyz : is_byte y /\ is_byte z).
  { unfold y, z. destruct rest as [|a [|b rest']]; simpl; repeat (apply Forall_cons_1 in Hrest as [? Hrest]);
      unfold is_byte in *; lia. }
  destruct Hyz as [Hy Hz]. cbn [b64_groups]. fold y z. rewrite group_value by done.
  unfold is_byte in *. set (v := x * 65536 + y * 256 + z).
  assert (Hs : forall n, 0 <= n -> 0 <= Z.shiftr v n) by (intros; apply Z.shiftr_nonneg; unfold v; lia).
  assert (Hv : 0 <= v) by (unfold v; lia).
  assert (H18 : Z.shiftr v 18 mod 64 = x / 4)
    by (rewrite Z.shiftr_div_pow2 by lia; unfold v; change (2 ^ 18) with 262144; div_lia).
  assert (H12 : Z.shiftr v 12 mod 64 = x mod 4 * 16 + y / 16)
    by (rewrite Z.shiftr_div_pow2 by lia; unfold v; change (2 ^ 12) with 4096; div_lia).
  assert (H6 : Z.shiftr v 6 mod 64 = y mod 16 * 4 + z / 64)
    by (rewrite Z.shiftr_div_pow2 by lia; unfold v; change (2 ^ 6) with 64; div_lia).
  assert (H0 : v mod 64 = z mod 64) by (unfold v; div_lia).
  cbn [b64_decode]. rewrite !b64_index by (apply Hs; lia). simpl. rewrite H18, H12.
  destruct rest as [|a [|b rest']]; simpl.
  - f_equal. f_equal. unfold y in *. simpl in *. clear -Hx. div_lia.
  - rewrite b64_not_pad, b64_index, H6 by (apply Hs; lia). simpl.
    unfold y, z in *. simpl in *. clear -Hx Hy. f_equal. f_equal; [div_lia|]. f_equal. div_lia.
  - rewrite !b64_not_pad, !b64_index, H6, H0 by (first [exact Hv | apply Hs; lia]). simpl.
    unfold y, z in *. simpl in *. do 2 apply Forall_cons_1 in Hrest as [_ Hrest].
    rewrite drop_0, IH by (done || lia). simpl. clear -Hx Hy Hz. f_equal. f_equal; [div_lia|]. f_equal; [div_lia|].
    f_equal. div_lia.
Qed.

Lemma b64_groups_length fuel l : (length l <= fuel)%nat ->
  strlen (b64_groups fuel l) = ((length l + 2) / 3 * 4)%nat.
Proof.
  revert l. induction fuel as [|fuel IH]; intros l Hlen; [by destruct l; [|simpl in *; lia]|].
  destruct l as [|x rest]; [done|]. cbn [b64_groups]. unfold strlen in *. simpl String.length.
  rewrite IH by (rewrite length_drop; simpl in *; lia). rewrite length_drop. simpl length.
  destruct (decide (2 <= length rest)%nat).
  - replace (S (length rest) + 2)%nat with (length rest - 2 + 2 + 1 * 3)%nat by lia.
    rewrite Nat.div_add by lia. lia.
  - destruct rest as [|a [|b rest']]; simpl in *; [done|done|lia].
Qed.

(** ** The accept key *)
Lemma last_char s a n : strlen s = S n -> char_at s n = Some a ->
  exists s', s = String.append s' (String a EmptyString).
Proof.
  revert n. induction s as [|b s IH]; intros n Hlen Hc; [done|].
  unfold strlen, char_at in *. simpl in Hlen. injection Hlen as Hlen.
  destruct n as [|n]; simpl in Hc.
  - injection Hc as <-. exists EmptyString. destruct s; [done|done].
  - destruct (IH n Hlen Hc) as [s' ->]. exists (String b s'). done.
Qed.

Lemma trim_right_id s a : is_trailing a = false ->
  trim_right (String.append s (String a EmptyString)) = String.append s (String a EmptyString).
Proof.
  intros Ha. induction s as [|b s IH]; [change (trim_right (String a EmptyString) = String a EmptyString); cbn [trim_right]; by rewrite Ha|].
  change (trim_right (String b (String.append s (String a EmptyString))) =
          String b (String.append s (String a EmptyString))).
  cbn [trim_right]. rewrite IH. by destruct s.
Qed.

Lemma alphabet_not_blank a : in_alphabet a = true -> is_blank a = false.
Proof. by destruct a as [[] [] [] [] [] [] [] []]. Qed.

(** The keys a client may send: the Base64 form of 16 bytes. *)
Definition valid_key (key : string) : bool :=
  (strlen key =? 24)%nat && bool_decide (char_at key 22 = Some "="%char) &&
  bool_decide (char_at key 23 = Some "="%char) && all_chars in_alphabet (strlcpy key 23).

Lemma handshake_valid key : valid_key key = true ->
  handshake_accept_key key 32 =
    Some (b64_groups 20 (sha1_by_blocks (string_bytes (String.append key WS_GUID)))).
Proof.
  unfold valid_key. intros Hv. bool_hyps. rename H into Hlen, H2 into H22, H1 into H23, H0 into Hall.
  apply Nat.eqb_eq in Hlen.
  assert (Hskip : skip_blanks key = key).
  { destruct key as [|a s]; [done|]. cbn [skip_blanks].
    rewrite alphabet_not_blank; [done|]. cbn in Hall. by apply andb_true_iff in Hall as [? _]. }
  assert (Htrim : trim_right key = key).
  { destruct (last_char key "="%char 23 Hlen H23) as [s' ->]. by apply trim_right_id. }
  unfold handshake_accept_key. rewrite Hskip, strlcpy_fits, Htrim by lia.
  assert (Hne : strcmp_eq key "" = false).
  { apply strcmp_eq_false. intros ->. done. }
  rewrite Hne. cbn [orb Nat.ltb Nat.leb].
  assert (Hcombo : strlen (String.append key WS_GUID) = 60%nat).
  { rewrite strlen_append, Hlen. done. }
  rewrite strlcpy_fits by lia.
  assert (Hbytes : forall s, length (string_bytes s) = strlen s).
  { induction s; [done|]. cbn. by rewrite IHs. }
  rewrite sha1_one by (rewrite Hbytes, Hcombo; lia).
  unfold b64_encode, sha1_by_blocks. destruct (digest_ok (sha1_blocks
    (length (sha1_padded (string_bytes (String.append key WS_GUID))) / 64) (sha_h sha1_init)
    (sha1_padded (string_bytes (String.append key WS_GUID))))) as [_ Hd].
  rewrite Hd. done.
Qed.

(** ** The digest of the standard *)

Lemma rol32_ROTL n v : 0 < n < 32 -> is_word v -> rol32 v n = ROTL n v.
Proof.
  intros Hn Hv. unfold rol32, ROTL. apply word_eq.
  - unfold u32, wrap. split.
    + apply Z.lor_nonneg. split; [apply Z.mod_pos_bound; lia|apply Z.shiftr_nonneg; apply Hv].
    + apply Z.lt_nge. intros Hge. assert (Hlog : 32 <= Z.log2 (Z.lor (Z.shiftl v n mod 2 ^ 32) (Z.shiftr v (32 - n)))) by (apply Z.log2_le_pow2; lia).
      pose proof (Z.bit_log2 (Z.lor (Z.shiftl v n mod 2 ^ 32) (Z.shiftr v (32 - n))) ltac:(lia)) as Hbit. revert Hbit.
      set (k := Z.log2 _) in *. rewrite Z.lor_spec, Z.mod_pow2_bits_high, Z.shiftr_spec by lia. rewrite word_high by (done || lia). done.
  - intros k Hk. unfold u32, wrap, bit. rewrite Z.lor_spec, Z.mod_pow2_bits_low, Z.shiftr_spec by lia.
    destruct (Z.lt_ge_cases k n) as [Hl|Hl].
    + rewrite Z.shiftl_spec_low by done. cbn [orb]. f_equal. apply Z.mod_unique with (-1); lia.
    + rewrite Z.shiftl_spec by lia. rewrite (word_high v (k + (32 - n))) by (done || lia). rewrite orb_false_r, Z.mod_small by lia. done.
Qed.

(** A bitwise combination of words is a word. *)
Lemma bitwise_range x : 0 <= x -> (forall k, 32 <= k -> Z.testbit x k = false) -> is_word x.
Proof.
  intros Hx H. split; [done|]. apply Z.lt_nge. intros Hge. assert (Hlog : 32 <= Z.log2 x) by (apply Z.log2_le_pow2; lia).
  specialize (H (Z.log2 x) Hlog). by rewrite Z.bit_log2 in H by lia.
Qed.

Lemma roots : root30 2 = 0x5A827999 /\ root30 3 = 0x6ED9EBA1 /\ root30 5 = 0x8F1BBCDC /\ root30 10 = 0xCA62C1D6.
Proof. vm_compute. done. Qed.

Lemma round_fk_spec t b c d : is_word b -> is_word c -> is_word d -> round_fk t b c d = (f_of t b c d, K_of t).
Proof.
  intros Hb Hc Hd. unfold round_fk, f_of, K_of.
  assert (Hxor : Z.lxor (Z.lxor b c) d = Parity b c d).
  { apply word_eq.
    - apply bitwise_range; [rewrite !Z.lxor_nonneg; unfold is_word in *; lia|]. intros k Hk. by rewrite !Z.lxor_spec, !word_high.
    - intros k Hk. rewrite !Z.lxor_spec. unfold bit. by destruct (Z.testbit b k), (Z.testbit c k), (Z.testbit d k). }
  assert (Hch : Z.lor (Z.land b c) (Z.land (u32 (Z.lnot b)) d) = Ch b c d).
  { apply word_eq.
    - apply bitwise_range; [rewrite Z.lor_nonneg, !Z.land_nonneg; unfold is_word in *; lia|].
      intros k Hk. by rewrite Z.lor_spec, !Z.land_spec, (word_high c), (word_high d), !andb_false_r.
    - intros k Hk. unfold u32, wrap, bit. rewrite Z.lor_spec, !Z.land_spec, Z.mod_pow2_bits_low, Z.lnot_spec by lia.
      by destruct (Z.testbit b k), (Z.testbit c k), (Z.testbit d k). }
  assert (Hmaj : Z.lor (Z.lor (Z.land b c) (Z.land b d)) (Z.land c d) = Maj b c d).
  { apply word_eq.
    - apply bitwise_range; [rewrite !Z.lor_nonneg, !Z.land_nonneg; unfold is_word in *; lia|].
      intros k Hk. by rewrite !Z.lor_spec, !Z.land_spec, (word_high b), (word_high c), (word_high d).
    - intros k Hk. rewrite !Z.lor_spec, !Z.land_spec. unfold bit. by destruct (Z.testbit b k), (Z.testbit c k), (Z.testbit d k). }
  rewrite Hxor, Hch, Hmaj. destruct roots as (K2 & K3 & K5 & K10).
  destruct (t <? 20)%nat, (t <? 40)%nat, (t <? 60)%nat; by rewrite ?K2, ?K3, ?K5, ?K10.
Qed.

(** *** The message schedule *)
Lemma take4_at (l : list Z) i : (i + 4 <= length l)%nat ->
  take 4 (drop i l) = [nth i l 0; nth (i + 1) l 0; nth (i + 2) l 0; nth (i + 3) l 0].
Proof.
  revert i. induction l as [|x l IH]; intros i Hi; [simpl in Hi; lia|]. destruct i as [|i]; [|apply IH; simpl in Hi; lia].
  destruct l as [|y [|z [|u l]]]; simpl in Hi; [lia..|done].
Qed.

Lemma word_at_spec block i : Forall is_byte block -> length block = 64%nat -> (i < 16)%nat ->
  word_at block i = M_of block i /\ is_word (word_at block i).
Proof.
  intros Hb Hl Hi. unfold M_of. rewrite take4_at by lia. unfold word_at, byte_at, big_endian. cbn [foldl fold_left].
  assert (Hn : forall k, (k < 64)%nat -> is_byte (nth k block 0)).
  { intros k Hk. rewrite Forall_nth in Hb. apply Hb. lia. }
  pose proof (Hn (4 * i)%nat ltac:(lia)). pose proof (Hn (4 * i + 1)%nat ltac:(lia)).
  pose proof (Hn (4 * i + 2)%nat ltac:(lia)). pose proof (Hn (4 * i + 3)%nat ltac:(lia)). unfold is_byte, is_word in *.
  set (a := nth (4 * i) block 0) in *. set (b := nth (4 * i + 1) block 0) in *. set (c := nth (4 * i + 2) block 0) in *. set (d := nth (4 * i + 3) block 0) in *.
  assert (Hlor : Z.lor (Z.lor (Z.lor (Z.shiftl a 24) (Z.shiftl b 16)) (Z.shiftl c 8)) d = a * 2 ^ 24 + b * 2 ^ 16 + c * 2 ^ 8 + d).
  { replace (Z.lor (Z.lor (Z.shiftl a 24) (Z.shiftl b 16)) (Z.shiftl c 8)) with (Z.shiftl (Z.lor (Z.lor (Z.shiftl a 16) (Z.shiftl b 8)) c) 8)
      by (rewrite !Z.shiftl_lor, !Z.shiftl_shiftl by lia; done).
    replace (Z.lor (Z.shiftl a 16) (Z.shiftl b 8)) with (Z.shiftl (Z.lor (Z.shiftl a 8) b) 8)
      by (rewrite !Z.shiftl_lor, !Z.shiftl_shiftl by lia; done).
    rewrite !lor_shiftl_add by lia. lia. }
  rewrite Hlor. split; lia.
Qed.

Lemma words_of_block block : Forall is_byte block -> length block = 64%nat ->
  word_at block <$> seq 0 16 = W_upto block 16 /\ Forall is_word (W_upto block 16).
Proof.
  intros Hb Hl. assert (Hgo : forall n, (n <= 16)%nat -> word_at block <$> seq 0 n = W_upto block n /\ Forall is_word (W_upto block n)).
  { induction n as [|n IH]; intros Hn; [by split|]. destruct (IH ltac:(lia)) as [He Hw]. cbn [W_upto].
    destruct (Nat.ltb_spec n 16); [|lia]. rewrite seq_S, fmap_app, He. destruct (word_at_spec block n) as [Hm Hr]; [done..|]. simpl.
    rewrite Hm in *. split; [done|]. apply Forall_app_2; [done|]. by constructor. }
  by apply Hgo.
Qed.

Lemma nth_word (l : list Z) i : Forall is_word l -> is_word (nth i l 0).
Proof.
  intros Hl. destruct (Nat.lt_ge_cases i (length l)); [rewrite Forall_nth in Hl; by apply Hl|]. rewrite nth_overflow by done. done.
Qed.

Lemma expand_spec block k n : (16 <= k)%nat -> Forall is_word (W_upto block k) ->
  expand n (W_upto block k) = W_upto block (k + n) /\ Forall is_word (W_upto block (k + n)).
Proof.
  revert k. induction n as [|n IH]; intros k Hk Hw; [by rewrite Nat.add_0_r|].
  assert (Hx : forall x y z u, is_word x -> is_word y -> is_word z -> is_word u -> Z.lxor (Z.lxor (Z.lxor x y) z) u =
    word (fun i => Z.odd (Z.b2z (bit x i) + Z.b2z (bit y i) + Z.b2z (bit z i) + Z.b2z (bit u i)))).
  { intros x y z u Hx Hy Hz Hu. apply word_eq.
    - apply bitwise_range; [rewrite !Z.lxor_nonneg; unfold is_word in *; lia|]. intros i Hi. by rewrite !Z.lxor_spec, !word_high.
    - intros i Hi. rewrite !Z.lxor_spec. unfold bit. by destruct (Z.testbit x i), (Z.testbit y i), (Z.testbit z i), (Z.testbit u i). }
  assert (Hstep : expand (S n) (W_upto block k) = expand n (W_upto block (S k)) /\ Forall is_word (W_upto block (S k))).
  { cbn [expand W_upto]. cbv zeta. rewrite W_upto_length. destruct (Nat.ltb_spec k 16); [lia|].
    rewrite Hx by (by apply nth_word). rewrite rol32_ROTL by (lia || apply word_range). split; [done|].
    apply Forall_app_2; [done|]. constructor; [apply word_range|done]. }
  destruct Hstep as [-> Hw']. replace (k + S n)%nat with (S k + n)%nat by lia. apply IH; [lia|done].
Qed.

(** *** The rounds and the block *)
Definition words_ok (h : words5) : Prop :=
  let '(a, b, c, d, e) := h in is_word a /\ is_word b /\ is_word c /\ is_word d /\ is_word e.

Lemma u32_sum a b c d e : u32 (a + b + c + d + e) = plus32 (plus32 (plus32 (plus32 a b) c) d) e.
Proof.
  assert (H : forall x y, plus32 (u32 x) y = u32 (x + y)) by (intros x y; apply Z.add_mod_idemp_l; lia).
  change (plus32 a b) with (u32 (a + b)). by rewrite !H.
Qed.

Lemma rounds_spec W n i h : length W = (i + n)%nat -> words_ok h ->
  sha1_rounds i (drop i W) h = foldl (round W) h (seq i n) /\ words_ok (sha1_rounds i (drop i W) h).
Proof.
  revert i h. induction n as [|n IH]; intros i h Hl Hh.
  { rewrite drop_ge by lia. done. }
  destruct (drop i W) as [|w r] eqn:Ed; [apply (f_equal length) in Ed; rewrite length_drop in Ed; simpl in Ed; lia|].
  assert (Hr : r = drop (S i) W) by (by rewrite <-Nat.add_1_r, <-drop_drop, Ed).
  assert (Hw : w = nth i W 0).
  { rewrite <-(take_drop i W), Ed, app_nth2; rewrite length_take; [|lia]. by replace (i - i `min` length W)%nat with 0%nat by lia. }
  destruct h as [[[[a b] c] d] e]. destruct Hh as (Ha & Hb & Hc & Hd & He). cbn [sha1_rounds seq foldl fold_left].
  rewrite round_fk_spec by done. rewrite u32_sum, !rol32_ROTL by (lia || done). subst w r.
  apply (IH (S i)); [lia|]. split; [apply plus32_range|]. split; [done|]. split; [apply word_range|done].
Qed.

Lemma block_spec h block : words_ok h -> Forall is_byte block -> length block = 64%nat ->
  sha1_block h block = compress h block /\ words_ok (sha1_block h block).
Proof.
  intros Hh Hb Hl. destruct (words_of_block block Hb Hl) as [H16 Hw16]. destruct (expand_spec block 16 64) as [H80 _]; [lia|done|].
  assert (He : sha1_block h block = compress h block).
  { unfold sha1_block, compress. rewrite H16, H80. change (16 + 64)%nat with 80%nat.
    destruct (rounds_spec (W_upto block 80) 80 0 h) as [Hr _]; [by rewrite W_upto_length|done|]. rewrite drop_0 in Hr. rewrite Hr.
    destruct (foldl _ _ _) as [[[[a b] c] d] e], h as [[[[a' b'] c'] d'] e']. unfold add5, u32, wrap, plus32.
    by rewrite (Z.add_comm a'), (Z.add_comm b'), (Z.add_comm c'), (Z.add_comm d'), (Z.add_comm e'). }
  split; [done|]. rewrite He. pose proof (compress_range h block) as Hc. by destruct (compress h block) as [[[[? ?] ?] ?] ?].
Qed.

Lemma blocks_spec n h p : words_ok h -> Forall is_byte p -> length p = (64 * n)%nat ->
  sha1_blocks n h p = fold_blocks n h p /\ words_ok (sha1_blocks n h p).
Proof.
  revert h p. induction n as [|n IH]; intros h p Hh Hb Hl; [done|]. cbn [sha1_blocks fold_blocks].
  destruct (block_spec h (take 64 p)) as [Hk Hok]; [done|by apply Forall_take|rewrite length_take; lia|].
  rewrite <-Hk. apply IH; [done|by apply Forall_drop|rewrite length_drop; lia].
Qed.

(** *** Padding *)
Lemma be_bytes_spec n v : be_bytes n v = bytes_of n v.
Proof.
  unfold be_bytes, bytes_of. apply list_fmap_ext. intros i x Hi. apply lookup_seq in Hi as [-> Hi].
  unfold u8, wrap. change 256 with (2 ^ 8). rewrite Z.shiftr_div_pow2 by lia. by rewrite <-Z.pow_mul_r by lia.
Qed.


Lemma find_same {A} (f g : A -> bool) l : (forall x, f x = g x) -> List.find f l = List.find g l.
Proof. intros H. induction l as [|x l IH]; simpl; [done|]. by rewrite H, IH. Qed.

Lemma zeros_spec len : zeros_after len = Z.to_nat ((55 - Z.of_nat len) mod 64).
Proof.
  unfold zeros_after. assert (Hr : (len mod 64 < 64)%nat) by (apply Nat.mod_upper_bound; lia).
  replace ((55 - Z.of_nat len) mod 64) with ((55 - Z.of_nat (len mod 64)) mod 64) by (rewrite Nat2Z.inj_mod; apply Zminus_mod_idemp_r).
  transitivity (default 0%nat (List.find (fun k => ((len mod 64 + 1 + k) mod 64 =? 56)%nat) (seq 0 64))).
  { f_equal. apply find_same. intros k. by rewrite <-!Nat.add_assoc, Nat.Div0.add_mod_idemp_l. }
  generalize dependent (len mod 64)%nat. clear len. intros r Hr.
  assert (Hall : forallb (fun r => (default 0%nat (List.find (fun k => ((r + 1 + k) mod 64 =? 56)%nat) (seq 0 64)) =?
    Z.to_nat ((55 - Z.of_nat r) mod 64))%nat) (seq 0 64) = true) by (vm_compute; reflexivity).
  rewrite forallb_forall in Hall. specialize (Hall r (proj2 (in_seq 64 0 r) ltac:(lia))). by apply Nat.eqb_eq in Hall.
Qed.

Lemma pad_spec msg : sha1_padded msg = pad msg.
Proof. unfold sha1_padded, pad. by rewrite zeros_spec, be_bytes_spec. Qed.

Lemma pad_bytes msg : Forall is_byte msg -> Forall is_byte (pad msg).
Proof.
  intros Hm. rewrite <-pad_spec. unfold sha1_padded. repeat apply Forall_app_2; [done|by repeat constructor| |apply be_bytes_ok].
  by apply Forall_replicate.
Qed.

Lemma init_words : sha_h sha1_init = H0 /\ words_ok (sha_h sha1_init).
Proof. by vm_compute. Qed.

(** The digest of the program is that of the standard. *)
Lemma by_blocks_spec msg : Forall is_byte msg -> sha1_by_blocks msg = SHA1 msg.
Proof.
  intros Hm. unfold sha1_by_blocks, SHA1. destruct (padded_length msg) as [n Hn]. rewrite pad_spec in *. destruct init_words as [<- Hw].
  rewrite Hn. replace (64 * n / 64)%nat with n by (rewrite Nat.mul_comm, Nat.div_mul; lia).
  destruct (blocks_spec n (sha_h sha1_init) (pad msg) Hw (pad_bytes msg Hm) Hn) as [-> _].
  destruct (fold_blocks _ _ _) as [[[[a b] c] d] e]. unfold digest_bytes. cbn [fmap list_fmap]. by rewrite !be_bytes_spec.
Qed.

Lemma string_bytes_ok s : Forall is_byte (string_bytes s).
Proof.
  induction s as [|a s IH]; cbn [string_bytes]; constructor; [|done]. destruct a as [[] [] [] [] [] [] [] []]; by vm_compute.
Qed.

(** * Theorems *)

(** Claim C40: streaming SHA-1 is SHA-1: feeding a message of fewer than 2^61 bytes in any
    pieces through [sha1_update] and finishing gives the digest that the standard defines
    for the whole message ([SHA1] of Sha1Spec.v: its own padding, word functions, constants,
    schedule and rounds, none of them taken from the program). *)
Theorem sha1_stream_correct parts : Forall is_byte (concat parts) -> Z.of_nat (length (concat parts)) < 2 ^ 61 ->
  sha1_final (fold_left sha1_update parts sha1_init) = SHA1 (concat parts).
Proof. intros Hb Hl. rewrite sha1_updates by done. by apply by_blocks_spec. Qed.

(** Base64 encoding is refused exactly when the text and its
    terminator do not fit; otherwise it is four characters per started group of
    three bytes and decodes to the input. *)
Theorem b64_encode_roundtrip input max : Forall is_byte input ->
  match b64_encode input max with
  | None => (max <= (length input + 2) / 3 * 4)%nat
  | Some text => b64_decode text = Some input /\
      strlen text = ((length input + 2) / 3 * 4)%nat /\ (strlen text < max)%nat
  end.
Proof.
  intros Hl. unfold b64_encode.
  destruct (Nat.ltb_spec max ((length input + 2) / 3 * 4 + 1)); [lia|].
  rewrite b64_groups_length by done. split_and!; [|done|lia]. by apply b64_roundtrip_groups.
Qed.

(** the WebSocket accept key.  A key is accepted exactly when it is
    24 characters of Base64 ending in two padding characters, and the reply is
    the Base64 text (28 characters) of the SHA-1 digest of the key followed by
    the protocol's GUID. *)
Theorem accept_key_correct key :
  sm_pkg_ws_accept_key key =
    if valid_key key
    then Some (b64_groups 20 (SHA1 (string_bytes (String.append key WS_GUID)))) else None.
Proof.
  rewrite <-by_blocks_spec by apply string_bytes_ok.
  destruct (valid_key key) eqn:Hv.
  - pose proof (handshake_valid key Hv) as Hh. unfold valid_key in Hv. bool_hyps.
    unfold sm_pkg_ws_accept_key. rewrite H, H0. rewrite !bool_decide_eq_true_2 by done. exact Hh.
  - unfold valid_key in Hv. unfold sm_pkg_ws_accept_key.
    destruct (strlen key =? 24)%nat; [|done]. destruct (bool_decide _); [|done].
    destruct (bool_decide _); [|done]. simpl in Hv |- *. by rewrite Hv.
Qed.

(** The example of RFC 6455. *)
Example accept_key_rfc6455 :
  sm_pkg_ws_accept_key "dGhlIHNhbXBsZSBub25jZQ==" = Some "s3pPLMBiTxaQ9kYGzzhZRbK+xOo="%string.
Proof. vm_compute. reflexivity. Qed.

Lemma sha1_stream_correct_witness :
  sha1_final (fold_left sha1_update [[97]; [98; 99]] sha1_init) =
    [0xA9; 0x99; 0x3E; 0x36; 0x47; 0x06; 0x81; 0x6A; 0xBA; 0x3E; 0x25; 0x71; 0x78; 0x50; 0xC2;
     0x6C; 0x9C; 0xD0; 0xD8; 0x9D].
Proof.
  rewrite (sha1_stream_correct [[97]; [98; 99]]).
  - vm_compute. reflexivity.
  - repeat constructor; lia.
  - vm_compute. reflexivity.
Defined.

Lemma b64_encode_roundtrip_witness :
  b64_encode [72; 105; 33; 63] 9 = Some "SGkhPw=="%string /\
  b64_decode "SGkhPw==" = Some [72; 105; 33; 63].
Proof.
  split; [vm_compute; reflexivity|].
  apply (b64_encode_roundtrip [72; 105; 33; 63] 9).
  repeat (apply Forall_cons_2; [unfold is_byte; lia|]). apply Forall_nil_2.
Defined.
