(* ===== verification/PkgWs.v ===== *)
(** * The WebSocket upload channel (src/sm_pkg_ws.c, second half)

    Frames a browser sends, the frames sent to it, and the server loop that
    hands out ranges of the package stream and feeds the uploads back.

    Reads of the receive buffer go through [!!], so [None] is an access outside
    the bytes received so far.  The socket is the environment: the bytes that
    arrive are arguments and [send_ok] says whether the n-th frame could be
    sent; the frames sent are recorded. *)
From S2P Require Import Prelude CString Bytes PkgStream WsCrypto.
From stdpp Require Import pretty.
Open Scope Z_scope.
Open Scope c_scope.

Definition WS_MESSAGE_MAX : Z := SM_PKG_STREAM_CHUNK + 8.
Definition WS_CAPACITY : Z := WS_MESSAGE_MAX + 14.
Definition EPROTO : Z := 92.
Definition ECONNRESET : Z := 54.

(** ** Decoding *)
Inductive ws_frame :=
  | NeedMore
  | BadFrame
  | Frame (opcode : Z) (fin : bool) (offset length consumed : Z) (data : list Z).

Definition opcode_known (op : Z) : bool :=
  (op =? 0) || (op =? 1) || (op =? 2) || (op =? 8) || (op =? 9) || (op =? 10).

(** [payload[i] ^= mask[i & 3]], from index [i] on. *)
Fixpoint unmask_from (mask : list Z) (i : nat) (payload : list Z) : list Z :=
  match payload with
  | [] => []
  | x :: l => Z.lxor x (nth (i mod 4) mask 0) :: unmask_from mask (S i) l
  end.

(** Bytes 2 to 9 as a big-endian number. *)
Fixpoint be_number (data : list Z) (i n : nat) (acc : Z) : option Z :=
  match n with
  | O => Some acc
  | S n' => do? b <- data !! i ; be_number data (S i) n' (u64 (Z.lor (Z.shiftl acc 8) b))
  end.

Definition finish_frame (data : list Z) (op : Z) (fin : bool) (header count : Z) : ws_frame :=
  if (WS_MESSAGE_MAX <? count) || ((8 <=? op) && (negb fin || (125 <? count))) ||
     ((op =? 8) && (count =? 1)) then BadFrame
  else if Z.of_nat (length data) <? header + 4 + count then NeedMore
  else
    let h := Z.to_nat header in
    let n := Z.to_nat count in
    let mask := take 4 (drop h data) in
    let payload := take n (drop (h + 4) data) in
    Frame op fin (header + 4) count (header + 4 + count)
      (take (h + 4) data ++ unmask_from mask 0 payload ++ drop (h + 4 + n) data).

(** [None] is a read outside the data. *)
Definition sm_pkg_ws_decode (data : list Z) : option ws_frame :=
  let size := Z.of_nat (length data) in
  if size <? 2 then Some NeedMore
  else
    do? b0 <- data !! 0%nat ;
    do? b1 <- data !! 1%nat ;
    let op := Z.land b0 15 in
    if negb (Z.land b0 0x70 =? 0) || (Z.land b1 0x80 =? 0) || negb (opcode_known op)
    then Some BadFrame
    else
      let count := Z.land b1 127 in
      let fin := negb (Z.land b0 128 =? 0) in
      if count =? 126 then
        if size <? 4 then Some NeedMore
        else
          do? b2 <- data !! 2%nat ;
          do? b3 <- data !! 3%nat ;
          let count := Z.lor (Z.shiftl b2 8) b3 in
          if count <? 126 then Some BadFrame else Some (finish_frame data op fin 4 count)
      else if count =? 127 then
        if size <? 10 then Some NeedMore
        else
          do? count <- be_number data 2 8 0 ;
          if count <=? 65535 then Some BadFrame else Some (finish_frame data op fin 10 count)
      else Some (finish_frame data op fin 2 count).

(** ** Sending *)
(** The bytes of an unmasked frame; [None] when the payload is too long. *)
Definition frame_bytes (opcode : Z) (payload : list Z) : option (list Z) :=
  let size := Z.of_nat (length payload) in
  if 256 <? size then None
  else
    Some ([u8 (Z.lor 128 opcode)] ++
          (if size <? 126 then [u8 size] else [126; u8 (Z.shiftr size 8); u8 size]) ++ payload).

(** ** The server *)
Record ws_conn := Conn {
  cn_window : nat;
  cn_input : list Z;
  cn_message : list Z;
  cn_fragmented : bool;
  cn_pending : list Z;
  cn_stream : sm_pkg_stream;
  cn_sent : list (Z * list Z);
}.

(** [Go] continues, [Close] sends a close frame and fails the stream, [End]
    only fails it. *)
Inductive ws_phase :=
  | Go (c : ws_conn)
  | Close (code failure : Z) (c : ws_conn)
  | End (failure : Z) (c : ws_conn).

Definition quote : string := String "034" EmptyString.
Definition key_text (k : string) : string := String.append quote (String.append k quote).
Definition join (l : list string) : string := foldr String.append EmptyString l.

Definition range_text (r : sm_pkg_range_t) : string :=
  join ["{"; key_text "op"; ":"; key_text "range"; ","; key_text "id"; ":"; pretty (rg_id r); ",";
        key_text "offset"; ":"; pretty (rg_offset r); ","; key_text "size"; ":"; pretty (rg_size r); "}"]%string.
Definition ack_text (id : Z) : string :=
  join ["{"; key_text "op"; ":"; key_text "ack"; ","; key_text "id"; ":"; pretty id; "}"]%string.
Definition ready_text : string :=
  join ["{"; key_text "op"; ":"; key_text "ready"; ","; key_text "window"; ":2,"; key_text "max_window";
        ":"; pretty SM_PKG_STREAM_CLIENTS; "}"]%string.
Definition window_request : string :=
  join ["{"; key_text "op"; ":"; key_text "window"; ","; key_text "size"; ":4}"]%string.

Definition set_conn_stream (s : sm_pkg_stream) (c : ws_conn) : ws_conn :=
  Conn (cn_window c) (cn_input c) (cn_message c) (cn_fragmented c) (cn_pending c) s (cn_sent c).
Definition set_pending (i : nat) (id : Z) (c : ws_conn) : ws_conn :=
  Conn (cn_window c) (cn_input c) (cn_message c) (cn_fragmented c) (<[i := id]> (cn_pending c))
    (cn_stream c) (cn_sent c).
Definition set_input (l : list Z) (c : ws_conn) : ws_conn :=
  Conn (cn_window c) l (cn_message c) (cn_fragmented c) (cn_pending c) (cn_stream c) (cn_sent c).
Definition set_window (w : nat) (c : ws_conn) : ws_conn :=
  Conn w (cn_input c) (cn_message c) (cn_fragmented c) (cn_pending c) (cn_stream c) (cn_sent c).
Definition set_message (m : list Z) (fragmented : bool) (c : ws_conn) : ws_conn :=
  Conn (cn_window c) (cn_input c) m fragmented (cn_pending c) (cn_stream c) (cn_sent c).
Definition record_sent (op : Z) (payload : list Z) (c : ws_conn) : ws_conn :=
  Conn (cn_window c) (cn_input c) (cn_message c) (cn_fragmented c) (cn_pending c) (cn_stream c)
    (cn_sent c ++ [(op, payload)]).

Section serve.
Context (send_ok : nat -> bool) (alloc_message : bool).

(** [send_frame]: whether it succeeded, and the connection after it. *)
Definition send_frame (op : Z) (payload : list Z) (c : ws_conn) : bool * ws_conn :=
  match frame_bytes op payload with
  | None => (false, c)
  | Some _ => (send_ok (length (cn_sent c)), record_sent op payload c)
  end.

(** The range requests for clients [client] to [window]. *)
Fixpoint offer_ranges (n : nat) (client : nat) (c : ws_conn) : ws_phase :=
  match n with
  | O => Go c
  | S n' =>
      if negb (default 0 (cn_pending c !! (client - 1)%nat) =? 0) then offer_ranges n' (S client) c
      else
        let '(st, rng, s) := sm_pkg_stream_try_request (cn_stream c) (Z.of_nat client) in
        let c1 := set_conn_stream s c in
        if st =? ECANCELED then Close 1000 ECONNRESET c1
        else if st =? EAGAIN then offer_ranges n' (S client) c1
        else
          match rng with
          | Some r =>
              if negb (st =? 0) then Close 1011 ECONNRESET c1
              else
                let '(ok, c2) := send_frame 1 (string_bytes (range_text r)) c1 in
                if ok then offer_ranges n' (S client) (set_pending (client - 1) (rg_id r) c2)
                else End ECONNRESET c2
          | None => Close 1011 ECONNRESET c1
          end
  end.

Definition le_number (l : list Z) : Z := foldr (fun b acc => Z.lor (Z.shiftl acc 8) b) 0 l.

(** A complete binary message: 8 bytes of id, then the data.  The boolean asks
    for new ranges. *)
Definition handle_message (complete : list Z) (c : ws_conn) : ws_phase * bool :=
  if (length complete <? 8)%nat then (Close 1002 EPROTO c, false)
  else
    let id := le_number (take 8 complete) in
    match (if id =? 0 then None else find_index (Z.eqb id) (cn_pending c)) with
    | None => (Close 1002 EPROTO c, false)
    | Some slot =>
        let '(replied, s) := sm_pkg_stream_reply (cn_stream c) id (drop 8 complete) in
        let c1 := set_conn_stream s c in
        if negb (replied =? 0)
        then (Close (if replied =? ECANCELED then 1000 else 1002) replied c1, false)
        else
          let c2 := set_message [] false (set_pending slot 0 c1) in
          let '(ok, c3) := send_frame 1 (string_bytes (ack_text id)) c2 in
          (if ok then Go c3 else End ECONNRESET c3, true)
    end.

Definition handle_frame (op : Z) (fin : bool) (payload : list Z) (c : ws_conn) :
    ws_phase * bool :=
  if op =? 8 then (Close 1000 ECONNRESET c, false)
  else if op =? 9 then
    let '(ok, c1) := send_frame 10 payload c in (if ok then Go c1 else End ECONNRESET c1, false)
  else if op =? 1 then
    if negb fin || cn_fragmented c || negb (bool_decide (payload = string_bytes window_request))
    then (Close 1002 EPROTO c, false)
    else (Go (set_window (Z.to_nat SM_PKG_STREAM_CLIENTS) c), true)
  else if op =? 10 then (Go c, false)
  else if ((op =? 2) && cn_fragmented c) || ((op =? 0) && negb (cn_fragmented c)) ||
          (WS_MESSAGE_MAX - Z.of_nat (length (cn_message c)) <? Z.of_nat (length payload))
  then (Close 1002 EPROTO c, false)
  else if cn_fragmented c || negb fin then
    if negb alloc_message then (Close 1011 ENOMEM c, false)
    else
      let m := cn_message c ++ payload in
      let c1 := set_message m (negb fin) c in
      if fin then handle_message m c1 else (Go c1, false)
  else handle_message payload (set_message (cn_message c) false c).

(** The inner loop: all complete frames of the input.  A frame is at least six
    bytes long, so the length of the input is enough fuel. *)
Fixpoint handle_input (fuel : nat) (c : ws_conn) (refill : bool) : option (ws_phase * bool) :=
  match fuel with
  | O => Some (Go c, refill)
  | S fuel' =>
      do? d <- sm_pkg_ws_decode (cn_input c) ;
      match d with
      | BadFrame => Some (Close 1002 EPROTO c, refill)
      | NeedMore => Some (Go c, refill)
      | Frame op fin offset count consumed data =>
          let payload := take (Z.to_nat count) (drop (Z.to_nat offset) data) in
          let c1 := set_input data c in
          match handle_frame op fin payload c1 with
          | (Go c2, r) => handle_input fuel' (set_input (drop (Z.to_nat consumed) (cn_input c2)) c2) (refill || r)
          | (stop, r) => Some (stop, refill || r)
          end
      end
  end.

(** One turn of the outer loop up to the wait; it repeats while a refill was
    asked for, and each repetition consumed a frame. *)
Fixpoint serve_turn (fuel : nat) (c : ws_conn) : option ws_phase :=
  match fuel with
  | O => Some (Go c)
  | S fuel' =>
      match offer_ranges (cn_window c) 1 c with
      | Go c1 =>
          do? r <- handle_input (S (length (cn_input c1))) c1 false ;
          match r with
          | (Go c2, true) => serve_turn fuel' c2
          | (p, _) => Some p
          end
      | p => Some p
      end
  end.

(** Bytes received after the wait. *)
Definition serve_recv (bytes : list Z) (c : ws_conn) : ws_phase :=
  if Z.of_nat (length (cn_input c)) =? WS_CAPACITY then Close 1009 EPROTO c
  else if (length bytes =? 0)%nat then End ECONNRESET c
  else Go (set_input (cn_input c ++ take (Z.to_nat (WS_CAPACITY - Z.of_nat (length (cn_input c)))) bytes) c).

(** The connection after the handshake, before the first frame. *)
Definition open_conn (s : sm_pkg_stream) (initial : list Z) : ws_conn :=
  Conn 2 initial [] false (replicate (Z.to_nat SM_PKG_STREAM_CLIENTS) 0) s [].

(** The beginning of [sm_pkg_ws_serve]: [Rejected] is an early return.  [mem]
    says whether the receive buffer was allocated, [handshake_ok] whether the
    HTTP answer could be sent. *)
Inductive ws_start := Rejected (s : sm_pkg_stream) | Started (p : ws_phase).

Definition serve_start (pipe : option (Z * Z)) (mem handshake_ok : bool) (key : string)
    (initial : list Z) (s : sm_pkg_stream) : ws_start :=
  match sm_pkg_ws_accept_key key with
  | None => Rejected s
  | Some accept =>
      let '(wake, s1) := sm_pkg_stream_wakeup_fd pipe s in
      if (wake <? 0) || (WS_CAPACITY <? Z.of_nat (length initial))
      then Rejected (sm_pkg_stream_fail (if wake <? 0 then ENOMEM else EPROTO) s1)
      else if negb mem then Rejected (sm_pkg_stream_fail ENOMEM s1)
      else
        let c := open_conn s1 initial in
        Started (if handshake_ok
                 then (let '(ok, c1) := send_frame 1 (string_bytes ready_text) c in
                       if ok then Go c1 else End ECONNRESET c1)
                 else End ECONNRESET c)
  end.

(** The end of the function: the close frame and the stream's status. *)
Definition serve_end (p : ws_phase) : ws_conn :=
  match p with
  | Go c => c
  | Close code failure c =>
      let c1 := (send_frame 8 [u8 (Z.shiftr code 8); u8 code] c).2 in
      set_conn_stream (sm_pkg_stream_fail failure (cn_stream c1)) c1
  | End failure c => set_conn_stream (sm_pkg_stream_fail failure (cn_stream c)) c
  end.
End serve.

(** ** Decoding: safety and bounds *)
Lemma unmask_length mask i p : length (unmask_from mask i p) = length p.
Proof. revert i. induction p as [|x p IH]; intros i; simpl; [done|]. by rewrite IH. Qed.

Lemma be_number_total data i n acc : (i + n <= length data)%nat -> 0 <= acc ->
  exists v, be_number data i n acc = Some v /\ 0 <= v.
Proof.
  revert i acc. induction n as [|n IH]; intros i acc Hlen Hacc; simpl; [eauto|].
  destruct (lookup_lt_is_Some_2 data i ltac:(lia)) as [b ->]. apply IH; [lia|].
  apply (wrap_range 64). lia.
Qed.

(** What a decoded frame guarantees about the buffer [data]. *)
Definition frame_ok (data : list Z) (f : ws_frame) : Prop :=
  match f with
  | Frame op fin offset len consumed data' =>
      opcode_known op = true /\ 6 <= offset <= 14 /\ 0 <= len <= WS_MESSAGE_MAX /\
      consumed = offset + len /\ consumed <= Z.of_nat (length data) /\
      length data' = length data /\
      drop (Z.to_nat consumed) data' = drop (Z.to_nat consumed) data
  | _ => True
  end.

Lemma finish_frame_ok data op fin header count : opcode_known op = true ->
  2 <= header <= 10 -> 0 <= count -> frame_ok data (finish_frame data op fin header count).
Proof.
  intros Hop Hh Hc. unfold finish_frame. destruct (_ || _) eqn:Hbad; [done|]. bool_hyps.
  destruct (Z.ltb_spec (Z.of_nat (length data)) (header + 4 + count)); [done|]. simpl.
  set (h := Z.to_nat header). set (n := Z.to_nat count).
  split_and!; try done; try lia.
  - rewrite !length_app, unmask_length, !length_take, !length_drop. lia.
  - replace (Z.to_nat (header + 4 + count)) with (h + 4 + n)%nat by lia.
    rewrite app_assoc, drop_app_ge;
      rewrite length_app, unmask_length, !length_take, length_drop; [|lia].
    rewrite drop_drop. f_equal. lia.
Qed.

Lemma decode_total data : Forall is_byte data ->
  exists f, sm_pkg_ws_decode data = Some f /\ frame_ok data f.
Proof.
  intros Hb. unfold sm_pkg_ws_decode. destruct (Z.ltb_spec (Z.of_nat (length data)) 2); [by eexists|].
  destruct (lookup_lt_is_Some_2 data 0 ltac:(lia)) as [b0 E0].
  destruct (lookup_lt_is_Some_2 data 1 ltac:(lia)) as [b1 E1]. rewrite E0, E1.
  destruct (_ || _) eqn:Hbad; [by eexists|]. bool_hyps.
  pose proof (Forall_lookup_1 _ _ _ _ Hb E1) as Hb1. unfold is_byte in Hb1.
  assert (Hcnt : 0 <= Z.land b1 127) by (apply Z.land_nonneg; lia).
  destruct (Z.land b1 127 =? 126).
  - destruct (Z.ltb_spec (Z.of_nat (length data)) 4); [by eexists|].
    destruct (lookup_lt_is_Some_2 data 2 ltac:(lia)) as [b2 E2].
    destruct (lookup_lt_is_Some_2 data 3 ltac:(lia)) as [b3 E3]. rewrite E2, E3.
    pose proof (Forall_lookup_1 _ _ _ _ Hb E2). pose proof (Forall_lookup_1 _ _ _ _ Hb E3).
    unfold is_byte in *. destruct (_ <? 126); [by eexists|]. eexists. split; [done|].
    apply finish_frame_ok; [done|lia|]. apply Z.lor_nonneg. rewrite Z.shiftl_nonneg. lia.
  - destruct (Z.land b1 127 =? 127).
    + destruct (Z.ltb_spec (Z.of_nat (length data)) 10); [by eexists|].
      destruct (be_number_total data 2 8 0) as (v & -> & Hv); [lia|lia|].
      destruct (v <=? 65535); [by eexists|]. eexists. split; [done|]. apply finish_frame_ok; [done|lia|done].
    + eexists. split; [done|]. apply finish_frame_ok; [done|lia|done].
Qed.

Lemma finish_not_full data op fin header count : header <= 10 ->
  WS_CAPACITY <= Z.of_nat (length data) -> finish_frame data op fin header count <> NeedMore.
Proof.
  intros Hh Hf. unfold finish_frame. destruct (_ || _) eqn:Hbad; [done|]. bool_hyps.
  destruct (Z.ltb_spec (Z.of_nat (length data)) (header + 4 + count)); [|done].
  unfold WS_CAPACITY in *. lia.
Qed.

Lemma decode_full data f : WS_CAPACITY <= Z.of_nat (length data) ->
  sm_pkg_ws_decode data = Some f -> f <> NeedMore.
Proof.
  intros Hf. assert (Hbig : 10 <= Z.of_nat (length data)).
  { unfold WS_CAPACITY, WS_MESSAGE_MAX, SM_PKG_STREAM_CHUNK in Hf. lia. }
  unfold sm_pkg_ws_decode. destruct (Z.ltb_spec (Z.of_nat (length data)) 2); [lia|].
  destruct (data !! 0%nat); [|done]. destruct (data !! 1%nat); [|done].
  destruct (_ || _); [by intros [= <-]|]. destruct (_ =? 126).
  - destruct (Z.ltb_spec (Z.of_nat (length data)) 4); [lia|].
    destruct (data !! 2%nat); [|done]. destruct (data !! 3%nat); [|done].
    destruct (_ <? 126); intros [= <-]; [done|]. by apply finish_not_full.
  - destruct (_ =? 127).
    + destruct (Z.ltb_spec (Z.of_nat (length data)) 10); [lia|].
      destruct (be_number data 2 8 0); [|done].
      destruct (_ <=? 65535); intros [= <-]; [done|]. by apply finish_not_full.
    + intros [= <-]. by apply finish_not_full.
Qed.

(** ** Frames a client sends *)
Definition length_bytes (n : Z) : list Z :=
  if n <? 126 then [128 + n]
  else if n <=? 65535 then [254; n / 256; n mod 256]
  else 255 :: be_bytes 8 n.

Definition client_header (op : Z) (fin : bool) (n : Z) : list Z :=
  ((if fin then 128 else 0) + op) :: length_bytes n.

(** A masked frame. *)
Definition client_frame (op : Z) (fin : bool) (mask payload : list Z) : list Z :=
  client_header op fin (Z.of_nat (length payload)) ++ mask ++ unmask_from mask 0 payload.

(** The frames the protocol allows. *)
Definition frame_allowed (op : Z) (fin : bool) (n : Z) : Prop :=
  opcode_known op = true /\ n <= WS_MESSAGE_MAX /\ (8 <= op -> fin = true /\ n <= 125) /\
  (op = 8 -> n <> 1).

Lemma unmask_involutive mask i p : unmask_from mask i (unmask_from mask i p) = p.
Proof.
  revert i. induction p as [|x p IH]; intros i; simpl; [done|]. rewrite IH. f_equal.
  by rewrite Z.lxor_assoc, Z.lxor_nilpotent, Z.lxor_0_r.
Qed.

(** The first byte: flags and opcode. *)
Lemma first_byte op (fin : bool) : opcode_known op = true ->
  let b := (if fin then 128 else 0) + op in
  Z.land b 15 = op /\ Z.land b 0x70 = 0 /\ negb (Z.land b 128 =? 0) = fin.
Proof.
  unfold opcode_known. rewrite !orb_true_iff, !Z.eqb_eq. simpl.
  intros [[[[[->| ->]| ->]| ->]| ->]| ->]; destruct fin; done.
Qed.

(** The second byte: mask bit and short length. *)
Lemma second_byte n : 0 <= n <= 127 -> Z.land (128 + n) 127 = n /\ (Z.land (128 + n) 128 =? 0) = false.
Proof.
  intros Hn. assert (Hall : forallb (fun k => (Z.land (128 + Z.of_nat k) 127 =? Z.of_nat k) &&
    negb (Z.land (128 + Z.of_nat k) 128 =? 0)) (seq 0 128) = true) by (vm_compute; reflexivity).
  rewrite forallb_forall in Hall.
  specialize (Hall (Z.to_nat n) (proj2 (in_seq 128 0 (Z.to_nat n)) ltac:(lia))).
  rewrite Z2Nat.id in Hall by lia. bool_hyps. split; [lia|done].
Qed.

Lemma be_step n k b : 0 <= n <= UINT64_MAX -> 0 <= k -> b = u8 (Z.shiftr n k) ->
  u64 (Z.lor (Z.shiftl (Z.shiftr n (k + 8)) 8) b) = Z.shiftr n k.
Proof.
  intros Hn Hk ->. assert (Hb := u8_byte (Z.shiftr n k)). unfold is_byte in Hb.
  rewrite lor_shiftl_add by lia.
  rewrite <-Z.shiftr_shiftr by lia. rewrite (Z.shiftr_div_pow2 _ 8) by lia.
  unfold u8, wrap. pose proof (Z.div_mod (Z.shiftr n k) (2 ^ 8) ltac:(lia)).
  replace (Z.shiftr n k / 2 ^ 8 * 2 ^ 8 + Z.shiftr n k mod 2 ^ 8) with (Z.shiftr n k) by lia.
  apply u64_small. split; [apply Z.shiftr_nonneg; lia|]. rewrite Z.shiftr_div_pow2 by lia.
  pose proof (Z.div_le_upper_bound n (2 ^ k) n ltac:(apply Z.pow_pos_nonneg; lia)) as Hle.
  pose proof (Z.pow_pos_nonneg 2 k ltac:(lia) ltac:(lia)). nia.
Qed.

Lemma be_number_bytes a b n rest : 0 <= n <= UINT64_MAX ->
  be_number (a :: b :: be_bytes 8 n ++ rest) 2 8 0 = Some n.
Proof.
  intros Hn. unfold be_bytes. cbn [seq fmap list_fmap app be_number lookup list_lookup].
  assert (H0 : Z.shiftr n (56 + 8) = 0).
  { rewrite Z.shiftr_div_pow2 by lia. apply Z.div_small. unfold UINT64_MAX in Hn. lia. }
  rewrite <-H0 at 1. rewrite (be_step n 56) by (done || lia).
  change 56 with (48 + 8) at 1. rewrite (be_step n 48) by (done || lia).
  change 48 with (40 + 8) at 1. rewrite (be_step n 40) by (done || lia).
  change 40 with (32 + 8) at 1. rewrite (be_step n 32) by (done || lia).
  change 32 with (24 + 8) at 1. rewrite (be_step n 24) by (done || lia).
  change 24 with (16 + 8) at 1. rewrite (be_step n 16) by (done || lia).
  change 16 with (8 + 8) at 1. rewrite (be_step n 8) by (done || lia).
  change 8 with (0 + 8) at 1. rewrite (be_step n 0) by (done || lia). done.
Qed.

(** A buffer that starts with a client's header is decoded down to the
    payload test. *)
Lemma decode_header op (fin : bool) n rest : opcode_known op = true -> 0 <= n <= WS_MESSAGE_MAX ->
  sm_pkg_ws_decode (client_header op fin n ++ rest) =
    Some (finish_frame (client_header op fin n ++ rest) op fin
            (Z.of_nat (length (client_header op fin n))) n).
Proof.
  intros Hop Hn. destruct (first_byte op fin Hop) as (Ho & Hr & Hf). unfold client_header in *.
  set (b0 := (if fin then 128 else 0) + op) in *. unfold sm_pkg_ws_decode, length_bytes.
  assert (Hmax : WS_MESSAGE_MAX = 1048584) by done.
  destruct (Z.ltb_spec n 126); [|destruct (Z.leb_spec n 65535)].
  - cbn [app lookup list_lookup length]. destruct (second_byte n ltac:(lia)) as [Hc Hm].
    destruct (Z.ltb_spec (Z.of_nat (S (S (length rest)))) 2); [lia|].
    rewrite Ho, Hr, Hm, Hop, Hc, Hf. cbn [negb orb Z.eqb].
    destruct (Z.eqb_spec n 126); [lia|]. destruct (Z.eqb_spec n 127); [lia|]. done.
  - cbn [app lookup list_lookup length].
    destruct (Z.ltb_spec (Z.of_nat (S (S (S (S (length rest)))))) 2); [lia|].
    destruct (second_byte 126 ltac:(lia)) as [Hc Hm]. change (128 + 126) with 254 in *.
    rewrite Ho, Hr, Hm, Hop, Hc, Hf. cbn [negb orb Z.eqb Pos.eqb].
    destruct (Z.ltb_spec (Z.of_nat (S (S (S (S (length rest)))))) 4); [lia|].
    assert (Hv : Z.lor (Z.shiftl (n / 256) 8) (n mod 256) = n).
    { rewrite lor_shiftl_add; [change (2 ^ 8) with 256; pose proof (Z.div_mod n 256); lia|lia|].
      change (2 ^ 8) with 256. apply Z.mod_pos_bound. lia. }
    rewrite Hv. destruct (Z.ltb_spec n 126); [lia|]. done.
  - destruct (second_byte 127 ltac:(lia)) as [Hc Hm]. change (128 + 127) with 255 in *.
    pose proof (proj2 (be_bytes_ok 8 n)) as Hlb.
    cbn [app lookup list_lookup length]. rewrite length_app, Hlb.
    destruct (Z.ltb_spec (Z.of_nat (S (S (8 + length rest)))) 2); [lia|].
    rewrite Ho, Hr, Hm, Hop, Hc, Hf. cbn [negb orb Z.eqb Pos.eqb].
    destruct (Z.ltb_spec (Z.of_nat (S (S (8 + length rest)))) 10); [lia|].
    rewrite be_number_bytes by (unfold UINT64_MAX; lia).
    destruct (Z.leb_spec n 65535); [lia|]. done.
Qed.

Lemma allowed_test op (fin : bool) n : frame_allowed op fin n ->
  (WS_MESSAGE_MAX <? n) || ((8 <=? op) && (negb fin || (125 <? n))) || ((op =? 8) && (n =? 1)) = false.
Proof.
  intros (_ & Hmax & Hctl & Hclose). destruct (Z.ltb_spec WS_MESSAGE_MAX n); [lia|]. simpl.
  destruct (Z.leb_spec 8 op) as [Hop|Hop]; simpl.
  - destruct (Hctl Hop) as [-> H125]. destruct (Z.ltb_spec 125 n); [lia|]. simpl.
    destruct (Z.eqb_spec op 8); [|done]. destruct (Z.eqb_spec n 1); [|done]. by destruct Hclose.
  - destruct (Z.eqb_spec op 8); [lia|done].
Qed.

Lemma finish_whole op (fin : bool) hdr mask payload rest : frame_allowed op fin (Z.of_nat (length payload)) ->
  length mask = 4%nat ->
  finish_frame (hdr ++ mask ++ unmask_from mask 0 payload ++ rest) op fin
    (Z.of_nat (length hdr)) (Z.of_nat (length payload)) =
  Frame op fin (Z.of_nat (length hdr) + 4) (Z.of_nat (length payload))
    (Z.of_nat (length hdr) + 4 + Z.of_nat (length payload)) (hdr ++ mask ++ payload ++ rest).
Proof.
  intros Hal Hm. unfold finish_frame. rewrite (allowed_test _ _ _ Hal).
  destruct (Z.ltb_spec (Z.of_nat (length (hdr ++ mask ++ unmask_from mask 0 payload ++ rest)))
    (Z.of_nat (length hdr) + 4 + Z.of_nat (length payload))) as [Hlt|_].
  { rewrite !length_app, unmask_length in Hlt. lia. }
  rewrite !Nat2Z.id. f_equal.
  set (p := unmask_from mask 0 payload). assert (Hp : length p = length payload) by apply unmask_length.
  assert (Hmask : take 4 (drop (length hdr) (hdr ++ mask ++ p ++ rest)) = mask).
  { rewrite drop_app_length. by apply take_app_length'. }
  rewrite Hmask.
  assert (Hhm : take (length hdr + 4) (hdr ++ mask ++ p ++ rest) = hdr ++ mask).
  { rewrite app_assoc. apply take_app_length'. rewrite length_app. lia. }
  assert (Hd : drop (length hdr + 4) (hdr ++ mask ++ p ++ rest) = p ++ rest).
  { rewrite app_assoc. apply drop_app_length'. rewrite length_app. lia. }
  rewrite Hhm, Hd, (take_app_length' p) by done. unfold p at 1. rewrite unmask_involutive.
  assert (Hr : drop (length hdr + 4 + length payload) (hdr ++ mask ++ p ++ rest) = rest).
  { rewrite <-drop_drop, Hd. apply drop_app_length'. done. }
  by rewrite Hr, <-app_assoc.
Qed.

Lemma decode_short_header op (fin : bool) n k : opcode_known op = true -> 0 <= n <= WS_MESSAGE_MAX ->
  (k < length (client_header op fin n))%nat ->
  sm_pkg_ws_decode (take k (client_header op fin n)) = Some NeedMore.
Proof.
  intros Hop Hn Hk. destruct (first_byte op fin Hop) as (Ho & Hr & Hf). unfold client_header in *.
  set (b0 := (if fin then 128 else 0) + op) in *. unfold sm_pkg_ws_decode.
  destruct k as [|[|k]]; [done|done|]. unfold length_bytes in *.
  destruct (Z.ltb_spec n 126); [simpl in Hk; lia|].
  assert (Hlen : exists b1 l, (if n <=? 65535 then [254; n / 256; n mod 256] else 255 :: be_bytes 8 n) =
    b1 :: l /\ ((b1 = 254 /\ length l = 2%nat) \/ (b1 = 255 /\ length l = 8%nat))).
  { destruct (n <=? 65535); [by eauto 10|]. eexists _, _. split; [done|]. right. by rewrite (proj2 (be_bytes_ok 8 n)). }
  destruct Hlen as (b1 & l & He & Hb). rewrite He in *. cbn [take app lookup list_lookup length] in *.
  rewrite length_take.
  destruct (Z.ltb_spec (Z.of_nat (S (S (k `min` length l)))) 2); [lia|]. rewrite Ho, Hr, Hop.
  destruct Hb as [[-> Hl]|[-> Hl]]; cbn [negb orb Z.eqb Z.land Pos.land Pos.eqb].
  - destruct (Z.ltb_spec (Z.of_nat (S (S (k `min` length l)))) 4); [done|lia].
  - destruct (Z.ltb_spec (Z.of_nat (S (S (k `min` length l)))) 10); [done|lia].
Qed.

(** * The server loop *)
Record conn_ok (c : ws_conn) : Prop := {
  ok_bytes : Forall is_byte (cn_input c);
  ok_input : Z.of_nat (length (cn_input c)) <= WS_CAPACITY;
  ok_message : Z.of_nat (length (cn_message c)) <= WS_MESSAGE_MAX;
  ok_pending : length (cn_pending c) = Z.to_nat SM_PKG_STREAM_CLIENTS;
  ok_window : cn_window c = 2%nat \/ cn_window c = Z.to_nat SM_PKG_STREAM_CLIENTS;
}.

Definition phase_conn (p : ws_phase) : ws_conn :=
  match p with Go c | Close _ _ c | End _ c => c end.

Definition phase_ok (p : ws_phase) : Prop := conn_ok (phase_conn p).

(** Changes that do not touch the buffers. *)
Definition same_buffers (c c' : ws_conn) : Prop :=
  cn_input c' = cn_input c /\ cn_message c' = cn_message c /\ cn_fragmented c' = cn_fragmented c /\
  length (cn_pending c') = length (cn_pending c) /\ cn_window c' = cn_window c.

Lemma same_buffers_refl c : same_buffers c c.
Proof. done. Qed.
Lemma same_buffers_trans c c1 c2 : same_buffers c c1 -> same_buffers c1 c2 -> same_buffers c c2.
Proof. unfold same_buffers. intros. destruct_and!. split_and!; congruence. Qed.
Lemma same_buffers_ok c c' : same_buffers c c' -> conn_ok c -> conn_ok c'.
Proof.
  intros (H1 & H2 & H3 & H4 & H5) []. split; rewrite ?H1, ?H2, ?H3, ?H4, ?H5; done.
Qed.
Lemma send_frame_buffers send_ok op p c : same_buffers c (send_frame send_ok op p c).2.
Proof. unfold send_frame. by destruct (frame_bytes op p). Qed.

Section server.
Context (send_ok : nat -> bool) (alloc_message : bool).

Lemma offer_ranges_buffers n client c :
  same_buffers c (phase_conn (offer_ranges send_ok n client c)).
Proof.
  revert client c. induction n as [|n IH]; intros client c; cbn [offer_ranges]; [done|].
  destruct (negb _); [apply IH|].
  destruct (sm_pkg_stream_try_request (cn_stream c) (Z.of_nat client)) as [[st rng] s].
  assert (H1 : same_buffers c (set_conn_stream s c)) by done.
  destruct (st =? ECANCELED); [done|].
  destruct (st =? EAGAIN); [by eapply same_buffers_trans|].
  destruct rng as [r|]; [|done]. destruct (negb _); [done|].
  pose proof (send_frame_buffers send_ok 1 (string_bytes (range_text r)) (set_conn_stream s c)) as H2.
  destruct (send_frame send_ok 1 (string_bytes (range_text r)) (set_conn_stream s c)) as [ok c2]. simpl in H2.
  destruct ok; [|by eapply same_buffers_trans].
  eapply same_buffers_trans; [exact H1|]. eapply same_buffers_trans; [exact H2|].
  eapply same_buffers_trans; [|apply IH]. unfold same_buffers. simpl. by rewrite length_insert.
Qed.

(** Messages and frames keep the input and the buffer bounds. *)
Definition keeps_input (c : ws_conn) (p : ws_phase) : Prop := cn_input (phase_conn p) = cn_input c.

Lemma handle_message_ok m c : conn_ok c ->
  phase_ok (handle_message send_ok m c).1 /\ keeps_input c (handle_message send_ok m c).1.
Proof.
  intros Hc. unfold handle_message. destruct (_ <? 8)%nat; [done|].
  destruct (if _ =? 0 then None else _) as [slot|]; [|done].
  destruct (sm_pkg_stream_reply _ _ _) as [st s]. destruct (negb _); [by destruct Hc|].
  set (c2 := set_message _ _ _). pose proof (send_frame_buffers send_ok 1
    (string_bytes (ack_text (le_number (take 8 m)))) c2) as Hb.
  destruct (send_frame _ _ _ c2) as [ok c3]. simpl in Hb.
  assert (H2 : conn_ok c2) by (destruct Hc; split; simpl; rewrite ?length_insert; done).
  assert (H3 : conn_ok c3) by by eapply same_buffers_ok.
  assert (Hi : cn_input c3 = cn_input c) by (destruct Hb as (-> & _); done).
  destruct ok; done.
Qed.

Lemma handle_frame_ok op (fin : bool) payload c : conn_ok c ->
  phase_ok (handle_frame send_ok alloc_message op fin payload c).1 /\
  keeps_input c (handle_frame send_ok alloc_message op fin payload c).1.
Proof.
  intros Hc. unfold handle_frame. destruct (op =? 8); [done|]. destruct (op =? 9).
  { pose proof (send_frame_buffers send_ok 10 payload c) as Hb.
    destruct (send_frame send_ok 10 payload c) as [ok c1]. simpl in Hb.
    pose proof (same_buffers_ok _ _ Hb Hc). destruct Hb as (Hi & _). by destruct ok. }
  destruct (op =? 1).
  { destruct (_ || _); [done|]. simpl. split; [|done]. destruct Hc. split; try done. by right. }
  destruct (op =? 10); [done|]. destruct (_ || _) eqn:Hbad; [done|].
  apply orb_false_iff in Hbad as [_ Hlen]. apply Z.ltb_ge in Hlen.
  destruct (cn_fragmented c || negb fin) eqn:Hfr.
  - destruct (negb alloc_message); [done|].
    assert (H1 : forall b, conn_ok (set_message (cn_message c ++ payload) b c)).
    { intros b. destruct Hc. split; try done. simpl. rewrite length_app. lia. }
    destruct fin; [|split; [apply H1|done]].
    exact (handle_message_ok _ (set_message (cn_message c ++ payload) (negb true) c) (H1 _)).
  - apply (handle_message_ok payload (set_message (cn_message c) false c)). by destruct Hc.
Qed.

Lemma drop_bytes n l : Forall is_byte l -> Forall is_byte (drop n l).
Proof. apply Forall_drop. Qed.

Lemma frame_conn c op (fin : bool) offset len consumed data : conn_ok c ->
  frame_ok (cn_input c) (Frame op fin offset len consumed data) -> Forall is_byte data ->
  conn_ok (set_input data c).
Proof. intros [] (_ & _ & _ & _ & _ & Hl & _) Hb. split; try done. simpl. by rewrite Hl. Qed.

Lemma lxor_byte x y : is_byte x -> is_byte y -> is_byte (Z.lxor x y).
Proof.
  unfold is_byte. intros Hx Hy. assert (Hnn : 0 <= Z.lxor x y) by (apply Z.lxor_nonneg; lia).
  split; [done|]. destruct (Z.eq_dec (Z.lxor x y) 0); [lia|]. apply (Z.log2_lt_pow2 _ 8); [lia|].
  eapply Z.le_lt_trans; [apply Z.log2_lxor; lia|].
  assert (Hlog : forall z, 0 <= z < 256 -> Z.log2 z < 8).
  { intros z Hz. destruct (Z.eq_dec z 0) as [->|]; [done|]. apply Z.log2_lt_pow2; lia. }
  apply Z.max_lub_lt; auto.
Qed.

Lemma unmask_bytes mask i p : Forall is_byte mask -> Forall is_byte p ->
  Forall is_byte (unmask_from mask i p).
Proof.
  intros Hm. revert i. induction p as [|x p IH]; intros i Hp; cbn [unmask_from]; [by constructor|].
  apply Forall_cons_1 in Hp as [Hx Hp]. apply Forall_cons_2; [|by apply IH]. apply lxor_byte; [done|].
  destruct (nth_in_or_default (i mod 4) mask 0) as [Hin| ->]; [|unfold is_byte; lia].
  rewrite Forall_forall in Hm. apply Hm. by apply list_elem_of_In.
Qed.

Lemma decode_bytes data op (fin : bool) offset len consumed data' : Forall is_byte data ->
  sm_pkg_ws_decode data = Some (Frame op fin offset len consumed data') -> Forall is_byte data'.
Proof.
  intros Hb. assert (Hfin : forall o f h n x, finish_frame data o f h n = x ->
    match x with Frame _ _ _ _ _ d => Forall is_byte d | _ => True end).
  { intros o f h n x <-. unfold finish_frame. destruct (_ || _); [done|]. destruct (_ <? _); [done|].
    apply Forall_app. split; [by apply Forall_take|]. apply Forall_app. split; [|by apply Forall_drop].
    apply unmask_bytes; by apply Forall_take, Forall_drop. }
  unfold sm_pkg_ws_decode. intros H. repeat (case_match; try done); simplify_eq;
    match goal with H : finish_frame _ _ _ _ _ = _ |- _ => by apply Hfin in H end.
Qed.

(** One decoded frame leaves a good connection and a shorter input. *)
Lemma consume_frame_ok c op (fin : bool) offset len consumed data payload c2 r : conn_ok c ->
  sm_pkg_ws_decode (cn_input c) = Some (Frame op fin offset len consumed data) ->
  handle_frame send_ok alloc_message op fin payload (set_input data c) = (Go c2, r) ->
  let c3 := set_input (drop (Z.to_nat consumed) (cn_input c2)) c2 in
  conn_ok c3 /\ (length (cn_input c3) + 6 <= length (cn_input c))%nat.
Proof.
  intros Hc Hd Hh c3. destruct (decode_total _ (ok_bytes _ Hc)) as (f & Hf & Hfo).
  rewrite Hd in Hf. injection Hf as <-. pose proof (decode_bytes _ _ _ _ _ _ _ (ok_bytes _ Hc) Hd) as Hb.
  pose proof (frame_conn _ _ _ _ _ _ _ Hc Hfo Hb) as Hc1.
  destruct (handle_frame_ok op fin payload (set_input data c) Hc1) as [Hp Hk].
  rewrite Hh in Hp, Hk. unfold keeps_input in Hk. simpl in Hp, Hk.
  destruct Hfo as (_ & Ho & Hl & Hcons & Hle & Hlen & _).
  unfold c3. cbn [cn_input set_input]. rewrite Hk. split.
  - destruct Hp. split; try done; simpl; [by apply Forall_drop|]. rewrite length_drop, Hlen.
    pose proof (ok_input _ Hc). lia.
  - rewrite length_drop, Hlen. lia.
Qed.

Lemma handle_input_ok fuel c refill : conn_ok c -> exists p r,
  handle_input send_ok alloc_message fuel c refill = Some (p, r) /\ phase_ok p /\
  (forall c', p = Go c' -> r = true -> refill = true \/
     (length (cn_input c') + 6 <= length (cn_input c))%nat) /\
  (forall c', p = Go c' -> (length (cn_input c') <= length (cn_input c))%nat).
Proof.
  revert c refill. induction fuel as [|fuel IH]; intros c refill Hc; cbn [handle_input].
  { eexists _, _. split_and!; [done|done|by left|]. intros c' [= <-]. done. }
  destruct (decode_total _ (ok_bytes _ Hc)) as (f & Hd & Hfo). rewrite Hd.
  destruct f as [| |op fin offset len consumed data].
  - eexists _, _. split_and!; [done|done|by left|]. intros c' [= <-]. done.
  - eexists _, _. split_and!; [done|done|done|done].
  - set (payload := take _ (drop _ data)).
    destruct (handle_frame send_ok alloc_message op fin payload (set_input data c)) as [p r] eqn:Hh.
    destruct p as [c2|code fl c2|fl c2].
    + destruct (consume_frame_ok _ _ _ _ _ _ _ _ _ _ Hc Hd Hh) as [Hc3 Hlen].
      destruct (IH _ (refill || r) Hc3) as (p & r' & -> & Hp & Hr & Hl). eexists _, _.
      split_and!; [done|done| |].
      * intros c' -> ->. specialize (Hl c' eq_refl). destruct refill; [by left|right]. lia.
      * intros c' ->. specialize (Hl c' eq_refl). lia.
    + pose proof (decode_bytes _ _ _ _ _ _ _ (ok_bytes _ Hc) Hd) as Hb.
      destruct (handle_frame_ok op fin payload _ (frame_conn _ _ _ _ _ _ _ Hc Hfo Hb)) as [Hp _].
      rewrite Hh in Hp. eexists _, _. done.
    + pose proof (decode_bytes _ _ _ _ _ _ _ (ok_bytes _ Hc) Hd) as Hb.
      destruct (handle_frame_ok op fin payload _ (frame_conn _ _ _ _ _ _ _ Hc Hfo Hb)) as [Hp _].
      rewrite Hh in Hp. eexists _, _. done.
Qed.

(** More fuel than the input is long changes nothing. *)
Lemma handle_input_fuel fuel c refill : conn_ok c -> (length (cn_input c) < fuel)%nat ->
  handle_input send_ok alloc_message (S fuel) c refill = handle_input send_ok alloc_message fuel c refill.
Proof.
  revert c refill. induction fuel as [|fuel IH]; intros c refill Hc Hf; [lia|].
  change (handle_input send_ok alloc_message (S (S fuel)) c refill) with
    (match sm_pkg_ws_decode (cn_input c) with
     | Some d => match d with
       | BadFrame => Some (Close 1002 EPROTO c, refill)
       | NeedMore => Some (Go c, refill)
       | Frame op fin offset count consumed data =>
          match handle_frame send_ok alloc_message op fin (take (Z.to_nat count) (drop (Z.to_nat offset) data))
            (set_input data c) with
          | (Go c2, r) => handle_input send_ok alloc_message (S fuel)
              (set_input (drop (Z.to_nat consumed) (cn_input c2)) c2) (refill || r)
          | (stop, r) => Some (stop, refill || r)
          end
       end
     | None => None end).
  cbn [handle_input]. destruct (sm_pkg_ws_decode (cn_input c)) as [d|] eqn:Hd; [|done].
  destruct d as [| |op fin offset len consumed data]; [done|done|].
  destruct (handle_frame _ _ _ _ _ _) as [[c2|code fl c2|fl c2] r] eqn:Hh; [|done|done].
  destruct (consume_frame_ok _ _ _ _ _ _ _ _ _ _ Hc Hd Hh) as [Hc3 Hlen]. apply IH; [done|lia].
Qed.

Lemma serve_turn_ok fuel c : conn_ok c -> exists p,
  serve_turn send_ok alloc_message fuel c = Some p /\ phase_ok p.
Proof.
  revert c. induction fuel as [|fuel IH]; intros c Hc; cbn [serve_turn]; [by eexists|].
  pose proof (offer_ranges_buffers (cn_window c) 1 c) as Hb.
  destruct (offer_ranges send_ok (cn_window c) 1 c) as [c1|code fl c1|fl c1]; simpl in Hb;
    pose proof (same_buffers_ok _ _ Hb Hc) as H1; [|by eexists|by eexists].
  destruct (handle_input_ok (S (length (cn_input c1))) c1 false H1) as (p & r & -> & Hp & _).
  destruct p as [c2|code fl c2|fl c2]; [|by eexists|by eexists].
  destruct r; [by apply IH|by eexists].
Qed.

Lemma serve_turn_fuel fuel c : conn_ok c -> (length (cn_input c) < fuel)%nat ->
  serve_turn send_ok alloc_message (S fuel) c = serve_turn send_ok alloc_message fuel c.
Proof.
  revert c. induction fuel as [|fuel IH]; intros c Hc Hf; [lia|].
  change (serve_turn send_ok alloc_message (S (S fuel)) c) with
    (match offer_ranges send_ok (cn_window c) 1 c with
     | Go c1 => match handle_input send_ok alloc_message (S (length (cn_input c1))) c1 false with
        | Some r => match r with (Go c2, true) => serve_turn send_ok alloc_message (S fuel) c2 | (p, _) => Some p end
        | None => None end
     | p => Some p end).
  cbn [serve_turn]. pose proof (offer_ranges_buffers (cn_window c) 1 c) as Hb.
  destruct (offer_ranges send_ok (cn_window c) 1 c) as [c1|code fl c1|fl c1]; simpl in Hb; [|done|done].
  pose proof (same_buffers_ok _ _ Hb Hc) as H1. destruct Hb as (Hi & _).
  destruct (handle_input_ok (S (length (cn_input c1))) c1 false H1) as (p & r & -> & Hp & Hr & _).
  destruct p as [c2|code fl c2|fl c2]; [|done|done]. destruct r; [|done].
  destruct (Hr c2 eq_refl eq_refl) as [?|Hlen]; [done|]. apply IH; [done|]. rewrite <-Hi in Hf. lia.
Qed.
End server.

(** * Theorems *)

(** decoding inverts encoding.  A masked client frame the protocol
    allows, at the start of the buffer, is decoded with its opcode, final flag
    and length, and the buffer then holds the unmasked payload at the reported
    offset and is otherwise unchanged; any proper prefix of the frame asks for
    more data. *)
Theorem ws_decode_roundtrip op (fin : bool) mask payload rest k :
  frame_allowed op fin (Z.of_nat (length payload)) -> length mask = 4%nat ->
  (k < length (client_frame op fin mask payload))%nat ->
  let h := client_header op fin (Z.of_nat (length payload)) in
  sm_pkg_ws_decode (client_frame op fin mask payload ++ rest) =
    Some (Frame op fin (Z.of_nat (length h) + 4) (Z.of_nat (length payload))
            (Z.of_nat (length (client_frame op fin mask payload))) (h ++ mask ++ payload ++ rest)) /\
  sm_pkg_ws_decode (take k (client_frame op fin mask payload)) = Some NeedMore.
Proof.
  intros Hal Hm Hk h. pose proof Hal as (Hop & Hmax & _).
  assert (Hn : 0 <= Z.of_nat (length payload) <= WS_MESSAGE_MAX) by lia.
  unfold client_frame in *. fold h in Hk |- *. rewrite !length_app, unmask_length, Hm in Hk. split.
  - rewrite <-!app_assoc. unfold h at 1. rewrite decode_header by done. fold h.
    rewrite finish_whole by done. rewrite !length_app, unmask_length, Hm. do 2 f_equal. lia.
  - destruct (decide (k < length h)%nat) as [Hs|Hs].
    + rewrite take_app_le by lia. by apply decode_short_header.
    + rewrite take_app_ge by lia. unfold h at 1. rewrite decode_header by done. fold h.
      unfold finish_frame. rewrite (allowed_test _ _ _ Hal).
      destruct (Z.ltb_spec (Z.of_nat (length (h ++ take (k - length h) (mask ++ unmask_from mask 0 payload))))
        (Z.of_nat (length h) + 4 + Z.of_nat (length payload))) as [_|Hge]; [done|].
      rewrite length_app, length_take, length_app, unmask_length, Hm in Hge. lia.
Qed.

(** decoding is memory safe on any input: it never reads outside
    the received bytes, a decoded frame lies inside them with at most
    WS_MESSAGE_MAX payload bytes and the bytes behind it are not touched; and a
    full buffer always holds a complete frame or a violation, so the buffer can
    never be stuck waiting for more. *)
Theorem ws_decode_safe data : Forall is_byte data ->
  exists f, sm_pkg_ws_decode data = Some f /\ frame_ok data f /\
    (WS_CAPACITY <= Z.of_nat (length data) -> f <> NeedMore).
Proof.
  intros Hb. destruct (decode_total data Hb) as (f & Hf & Hok). exists f.
  split_and!; [done|done|]. intros Hfull. by eapply decode_full.
Qed.

(** a turn of the server loop is safe and ends.  Whatever the client
    sent and whichever sends fail, the turn makes no access outside the receive
    buffer, keeps the receive buffer within its capacity and the assembled
    message within WS_MESSAGE_MAX, and the loop ends: giving it more turns than
    the input has bytes changes nothing. *)
Theorem ws_serve_turn_safe send_ok alloc_message c fuel : conn_ok c ->
  (length (cn_input c) < fuel)%nat ->
  exists p, serve_turn send_ok alloc_message fuel c = Some p /\ phase_ok p /\
    forall more, serve_turn send_ok alloc_message (fuel + more) c = Some p.
Proof.
  intros Hc Hf. destruct (serve_turn_ok send_ok alloc_message fuel c Hc) as (p & Hp & Hok).
  exists p. split_and!; [done|done|]. induction more as [|m IH]; [by rewrite Nat.add_0_r|].
  rewrite Nat.add_succ_r, serve_turn_fuel by (done || lia). exact IH.
Qed.

(** an upload is only accepted for a range this connection was
    given.  A complete message either closes the connection without touching the
    stream, or its id is one of the outstanding ranges and the stream got
    exactly the bytes after the id; when the stream took them the range is no
    longer outstanding and the acknowledgement is the next frame sent. *)
Theorem ws_message_reply send_ok m c p r : handle_message send_ok m c = (p, r) ->
  (p = Close 1002 EPROTO c /\ r = false) \/
  exists id slot st s, id = le_number (take 8 m) /\ id <> 0 /\ cn_pending c !! slot = Some id /\
    sm_pkg_stream_reply (cn_stream c) id (drop 8 m) = (st, s) /\ cn_stream (phase_conn p) = s /\
    (st = 0 -> cn_pending (phase_conn p) = <[slot := 0]> (cn_pending c) /\
       cn_message (phase_conn p) = [] /\
       (cn_sent (phase_conn p) = cn_sent c ++ [(1, string_bytes (ack_text id))] \/
        (exists fl, p = End fl (phase_conn p)))) /\
    (st <> 0 -> r = false /\ exists code c', p = Close code st c').
Proof.
  unfold handle_message. destruct (_ <? 8)%nat; [intros [= <- <-]; by left|].
  set (id := le_number (take 8 m)). destruct (Z.eqb_spec id 0) as [|Hid]; [intros [= <- <-]; by left|].
  destruct (find_index (Z.eqb id) (cn_pending c)) as [slot|] eqn:Hf; [|intros [= <- <-]; by left].
  apply find_index_hit in Hf as (x & Hx & Hp%Z.eqb_eq). subst x.
  destruct (sm_pkg_stream_reply (cn_stream c) id (drop 8 m)) as [st s] eqn:Hr.
  destruct (Z.eqb_spec st 0) as [Hst|Hst]; cbn [negb].
  - unfold send_frame. destruct (frame_bytes 1 (string_bytes (ack_text id))) as [b|].
    + intros [= <- <-]. right. exists id, slot, st, s.
      destruct (send_ok _); simpl; split_and!; try done; intros _; split_and!; try done; auto.
    + intros [= <- <-]. right. exists id, slot, st, s. simpl.
      split_and!; try done. intros _. split_and!; try done. right. eauto.
  - intros [= <- <-]. right. exists id, slot, st, s. simpl.
    split_and!; try done. intros _. split; [done|]. eauto.
Qed.

(** ** Concrete frames *)
Definition demo_mask : list Z := [1; 2; 3; 4].
Definition demo_payload : list Z := [72; 101; 108; 108; 111].

Lemma ws_decode_roundtrip_witness :
  sm_pkg_ws_decode (client_frame 2 true demo_mask demo_payload ++ [7]) =
    Some (Frame 2 true 6 5 11 ([130; 133] ++ demo_mask ++ demo_payload ++ [7])).
Proof.
  apply (ws_decode_roundtrip 2 true demo_mask demo_payload [7] 3).
  - split; [reflexivity|]. split; [vm_compute; discriminate|]. split; intros; lia.
  - reflexivity.
  - vm_compute. lia.
Defined.

Lemma ws_decode_safe_witness : exists f,
  sm_pkg_ws_decode [130; 254] = Some f /\ f = NeedMore.
Proof.
  destruct (ws_decode_safe [130; 254]) as (f & Hf & _).
  - repeat (apply Forall_cons_2; [unfold is_byte; lia|]). apply Forall_nil_2.
  - exists f. split; [exact Hf|]. vm_compute in Hf. injection Hf as <-. reflexivity.
Defined.

Definition demo_conn : ws_conn :=
  open_conn (stream demo_waiting) (client_frame 2 true demo_mask [1; 0; 0; 0; 0; 0; 0; 0; 10; 20; 30; 40; 50]).

Lemma demo_conn_ok : conn_ok demo_conn.
Proof.
  split; simpl.
  - repeat (apply Forall_cons_2; [unfold is_byte; vm_compute; split; [discriminate|reflexivity]|]).
    apply Forall_nil_2.
  - vm_compute. discriminate.
  - vm_compute. discriminate.
  - reflexivity.
  - by left.
Qed.

Lemma ws_serve_turn_safe_witness : exists p,
  serve_turn (fun _ => true) true 40 demo_conn = Some p /\ phase_ok p /\
  forall more, serve_turn (fun _ => true) true (40 + more) demo_conn = Some p.
Proof.
  apply (ws_serve_turn_safe (fun _ => true) true demo_conn 40).
  - exact demo_conn_ok.
  - vm_compute. lia.
Defined.

(** The upload of the whole (five byte) package: the range is announced, the
    reply stored and acknowledged. *)
Example demo_upload :
  match serve_turn (fun _ => true) true 40 demo_conn with
  | Some (Go c) =>
      cn_sent c = [(1, string_bytes (range_text (Range 1 0 5))); (1, string_bytes (ack_text 1))] /\
      data (slot_at (cn_stream c) 0) = demo_src /\ cn_input c = []
  | _ => False
  end.
Proof. vm_compute. split_and!; reflexivity. Qed.

Definition demo_message : list Z := [1; 0; 0; 0; 0; 0; 0; 0; 10; 20; 30; 40; 50].
Definition demo_offered : ws_conn :=
  phase_conn (offer_ranges (fun _ => true) 2 1 demo_conn).

Lemma ws_message_reply_witness :
  (handle_message (fun _ => true) demo_message demo_offered).2 = true /\
  exists id slot, id <> 0 /\ cn_pending demo_offered !! slot = Some id.
Proof.
  split; [vm_compute; reflexivity|].
  destruct (ws_message_reply (fun _ => true) demo_message demo_offered
    (handle_message (fun _ => true) demo_message demo_offered).1
    (handle_message (fun _ => true) demo_message demo_offered).2)
    as [[_ Hf]|(id & slot & st & s & _ & Hid & Hp & _)].
  - apply surjective_pairing.
  - exfalso. vm_compute in Hf. discriminate.
  - exists id, slot. split; [exact Hid|exact Hp].
Defined.
