(* ===== verification/GameInfo.v ===== *)
(** * Game metadata (src/sm_gameinfo.c)

    Reading the title id and name of a game from sce_sys/param.json or
    sce_sys/param.sfo, with the cache of PathState.v in front.

    Reads of the SFO file go through [!!] and [slice]: [None] is an access
    outside the file.  The JSON library is the parameter [J] with its accessors;
    the file system is the record [game_fs]. *)
From S2P Require Import Prelude CString Bytes StateTable PathState.
Open Scope c_scope.

Definition MAX_PARAM_JSON_SIZE : Z := 1024 * 1024.

(** ** Title ids *)
Definition char_in (s : string) (i : nat) (lo hi : Z) : bool :=
  match char_at s i with
  | Some a => (lo <=? ascii_byte a) && (ascii_byte a <=? hi)
  | None => false
  end.

Definition is_supported_game_title_id (id : string) : bool :=
  forallb (fun i => char_in id i 65 90) (seq 0 4) &&
  forallb (fun i => char_in id i 48 57) (seq 4 5) &&
  bool_decide (char_at id 9 = None) && negb (has_prefix id "NPXS").

(** ** SFO files *)
Definition read_sfo_u32 (data : list Z) (i : nat) : option Z :=
  do? b0 <- data !! i ;
  do? b1 <- data !! (i + 1)%nat ;
  do? b2 <- data !! (i + 2)%nat ;
  do? b3 <- data !! (i + 3)%nat ;
  Some (Z.lor (Z.lor (Z.lor b0 (Z.shiftl b1 8)) (Z.shiftl b2 16)) (Z.shiftl b3 24)).

Definition TITLE_ID_KEY : list Z := [84; 73; 84; 76; 69; 95; 73; 68; 0].
Definition TITLE_KEY : list Z := [84; 73; 84; 76; 69; 0].

Inductive sfo_target := ToId | ToName.

(** The key comparison: which output the entry is for. *)
Definition sfo_key (data : list Z) (name key_space : Z) : option (option sfo_target) :=
  do? is_id <- (if 9 <=? key_space
                then (do? k <- slice data name 9 ; Some (bool_decide (k = TITLE_ID_KEY)))
                else Some false) ;
  if is_id : bool then Some (Some ToId)
  else
    do? is_name <- (if 6 <=? key_space
                    then (do? k <- slice data name 6 ; Some (bool_decide (k = TITLE_KEY)))
                    else Some false) ;
    Some (if is_name : bool then Some ToName else None).

(** What one entry does: [EntryFail] is [return false]. *)
Inductive sfo_step := EntryFail | EntrySkip | EntrySet (t : sfo_target) (text : string).

Definition target_size (t : sfo_target) : Z :=
  Z.of_nat (match t with ToId => MAX_TITLE_ID | ToName => MAX_TITLE_NAME end).

Definition sfo_entry (data : list Z) (keys values : Z) (i : nat) : option sfo_step :=
  let size := Z.of_nat (length data) in
  let e := (20 + i * 16)%nat in
  do? e0 <- data !! e ;
  do? e1 <- data !! (e + 1)%nat ;
  let key := Z.lor e0 (Z.shiftl e1 8) in
  do? length <- read_sfo_u32 data (e + 4) ;
  do? capacity <- read_sfo_u32 data (e + 8) ;
  do? value <- read_sfo_u32 data (e + 12) ;
  if (values - keys <=? key) || (size - values <? value) || (capacity <? length) ||
     (size - values - value <? capacity)
  then Some EntryFail
  else
    do? e2 <- data !! (e + 2)%nat ;
    do? e3 <- data !! (e + 3)%nat ;
    if (negb (e3 =? 0) && negb (e3 =? 2)) || negb (e2 =? 4) then Some EntrySkip
    else
      do? target <- sfo_key data (keys + key) (values - keys - key) ;
      match target with
      | None => Some EntrySkip
      | Some t =>
          let scan_length := if length <? target_size t then length else target_size t in
          do? text <- slice data (values + value) scan_length ;
          let end_ := find_index (Z.eqb 0) text in
          if (match end_ with Some _ => false | None => (e3 =? 2) || (target_size t <=? length) end) ||
             (length =? 0)
          then Some (match t with ToId => EntryFail | ToName => EntrySkip end)
          else
            do? out <- slice data (values + value)
                         (match end_ with Some n => Z.of_nat n | None => length end) ;
            Some (EntrySet t (bytes_string out))
      end.

(** Entries [i] to [i + n - 1]; the boolean says the loop ran to its end. *)
Fixpoint sfo_entries (data : list Z) (keys values : Z) (n i : nat) (id name : string) :
    option (bool * string * string) :=
  match n with
  | O => Some (true, id, name)
  | S n' =>
      do? s <- sfo_entry data keys values i ;
      match s with
      | EntryFail => Some (false, id, name)
      | EntrySkip => sfo_entries data keys values n' (S i) id name
      | EntrySet ToId text => sfo_entries data keys values n' (S i) text name
      | EntrySet ToName text => sfo_entries data keys values n' (S i) id text
      end
  end.

Definition SFO_MAGIC : list Z := [0; 80; 83; 70].

(** The result and the two output buffers (as they were: [id], [name]). *)
Definition parse_game_sfo (data : list Z) (id name : string) : option (bool * string * string) :=
  let size := Z.of_nat (length data) in
  if (size <? 20) then Some (false, id, name)
  else
    do? magic <- slice data 0 4 ;
    if negb (bool_decide (magic = SFO_MAGIC)) then Some (false, id, name)
    else
      do? keys <- read_sfo_u32 data 8 ;
      do? values <- read_sfo_u32 data 12 ;
      do? count <- read_sfo_u32 data 16 ;
      if ((size - 20) / 16 <? count) || (keys <? 20 + count * 16) || (values <=? keys) ||
         (size <=? values)
      then Some (false, id, name)
      else
        do? r <- sfo_entries data keys values (Z.to_nat count) 0 id name ;
        let '(complete, id', name') := r in
        Some (complete && is_supported_game_title_id id', id', name').

(** ** Files *)
Record full_stat := FullStat {
  fs_regular : bool; fs_dev : Z; fs_ino : Z; fs_size : Z; fs_mtime : Z; fs_mtime_nsec : Z;
  fs_ctime : Z; fs_ctime_nsec : Z;
}.

#[export] Instance full_stat_eq_dec : EqDecision full_stat.
Proof. solve_decision. Defined.

Inductive stat_result := StatOk (st : full_stat) | StatMissing | StatError.

(** An opened file: [fstat] before and after the reads, and what the reads
    give until they stop. *)
Record opened := Opened {
  op_before : option full_stat;
  op_bytes : list Z;
  op_after : option full_stat;
}.

Record game_fs := GameFs {
  fs_stat : string -> stat_result;
  fs_open : string -> option opened;
  fs_malloc : bool;
}.

Definition cache_stat (st : full_stat) : param_stat :=
  ParamStat (fs_mtime st) (fs_mtime_nsec st) (fs_size st) (fs_ino st).

Definition game_param_stat_matches (current expected : full_stat) : bool :=
  fs_regular current && (fs_dev current =? fs_dev expected) && (fs_ino current =? fs_ino expected) &&
  (fs_size current =? fs_size expected) && (fs_mtime current =? fs_mtime expected) &&
  (fs_mtime_nsec current =? fs_mtime_nsec expected) && (fs_ctime current =? fs_ctime expected) &&
  (fs_ctime_nsec current =? fs_ctime_nsec expected).

Definition param_path (base name : string) : string :=
  String.append base (String.append "/sce_sys/" name).

Fixpoint resolve_from (fs : game_fs) (base : string) (names : list string) :
    option (string * full_stat) :=
  match names with
  | [] => None
  | n :: names' =>
      let path := param_path base n in
      if (MAX_PATH <=? strlen path)%nat then None
      else
        match fs_stat fs path with
        | StatOk st => if fs_regular st then Some (path, st) else resolve_from fs base names'
        | StatMissing => resolve_from fs base names'
        | StatError => None
        end
  end.

Definition resolve_game_param (fs : game_fs) (base : string) : option (string * full_stat) :=
  resolve_from fs base ["param.json"; "param.sfo"]%string.

Definition directory_has_game_param (fs : game_fs) (dir : string) : option full_stat :=
  snd <$> resolve_game_param fs dir.

(** ** JSON *)
Section json.
Context {J : Type}.
Context (is_object : J -> bool) (get_ex : J -> string -> option J)
  (string_value : J -> option (list Z)) (members : J -> list J).
(** [json_tokener_parse_ex] on the bytes: success, the root and the position
    where parsing stopped; [None] when no tokener could be allocated. *)
Context (parse_ex : list Z -> option (bool * J * nat)).

Definition extract_json_string (object : J) (key : string) (out_size : nat) : option string :=
  if negb (is_object object) then None
  else
    value ← get_ex object key;
    text ← string_value value;
    if (length text =? 0)%nat || (out_size <=? length text)%nat || existsb (Z.eqb 0) text
    then None else Some (bytes_string text).

(** The first [Some] of a list of attempts. *)
Definition orelse {A} (a b : option A) : option A := match a with Some x => Some x | None => b end.

(** The name written to [out]; [None] leaves it alone. *)
Definition extract_title_name (root : J) : option string :=
  let name_of j := extract_json_string j "titleName" MAX_TITLE_NAME in
  let localized := get_ex root "localizedParameters" in
  let in_language := 
    match localized with
    | Some l =>
        if is_object l then
          orelse (en ← get_ex l "en-US"; name_of en)
            (lang ← extract_json_string l "defaultLanguage" 32; d ← get_ex l lang; name_of d)
        else None
    | None => None
    end in
  orelse in_language
    (orelse (name_of root)
       (match localized with
        | Some l => if is_object l then foldr (fun m r => orelse (name_of m) r) None (members l) else None
        | None => None
        end)).

Definition is_space (b : Z) : bool := (b =? 32) || ((9 <=? b) && (b <=? 13)).

(** [while (parsed < len && isspace(buf[parsed])) parsed++]. *)
Fixpoint skip_spaces (l : list Z) : list Z :=
  match l with [] => [] | b :: l' => if is_space b then skip_spaces l' else l end.

(** The JSON branch; [None] when no tokener could be allocated.  The outputs
    are the id and name buffers, empty before. *)
Definition parse_game_json (buf : list Z) : option (bool * string * string) :=
  do? t <- parse_ex buf ;
  let '(success, root, parsed) := t in
  if negb (success && bool_decide (skip_spaces (drop parsed buf) = []) && is_object root)
  then Some (false, ""%string, ""%string)
  else
    match orelse (extract_json_string root "titleId" MAX_TITLE_ID)
            (extract_json_string root "title_id" MAX_TITLE_ID) with
    | None => Some (false, ""%string, ""%string)
    | Some id =>
        if is_supported_game_title_id id
        then Some (true, id, default ""%string (extract_title_name root))
        else Some (false, id, ""%string)
    end.

(** ** The whole lookup *)

(** [None] is an access outside the file's bytes or a NULL cache entry; the
    result is the verdict, the two output buffers and the cache. *)
Definition get_game_info (exists_ : string -> bool) (fs : game_fs) (t : path_state) (base : string)
    (st : full_stat) : option (bool * string * string * path_state) :=
  let no := (false, ""%string, ""%string, t) in
  if negb (fs_regular st) then Some no
  else
    match load_cached_game_info t base (cache_stat st) with
    | Some None => Some no
    | Some (Some (id, name)) => Some (true, id, name, t)
    | None =>
        if (fs_size st <=? 0) || (MAX_PARAM_JSON_SIZE <? fs_size st) then
          do? t' <- store_cached_game_info exists_ t base (cache_stat st) false "" "" ;
          Some (false, ""%string, ""%string, t')
        else
          match resolve_game_param fs base with
          | None => Some no
          | Some (path, _) =>
              match fs_open fs path with
              | None => Some no
              | Some f =>
                  if negb (from_option (fun cur => game_param_stat_matches cur st) false (op_before f)) ||
                     negb (fs_malloc fs) then Some no
                  else
                    let len := Z.to_nat (fs_size st) in
                    let buf := take len (op_bytes f) in
                    if negb ((length buf =? len)%nat &&
                             from_option (fun cur => game_param_stat_matches cur st) false (op_after f))
                    then Some no
                    else
                      match (if bool_decide (after_last path slash = Some "param.sfo"%string)
                             then (match parse_game_sfo buf "" "" with Some r => Some (Some r) | None => None end)
                             else Some (parse_game_json buf)) with
                      | None => None
                      | Some None => Some no
                      | Some (Some (valid, id, name)) =>
                          let name' := if strcmp_eq name "" then strlcpy id MAX_TITLE_NAME else name in
                          let id_out := if valid then id else ""%string in
                          let name_out := if valid then name' else ""%string in
                          do? t' <- store_cached_game_info exists_ t base (cache_stat st) valid
                                      id_out name_out ;
                          Some (valid, id_out, name_out, t')
                      end
              end
          end
    end.
End json.

(** ** SFO parsing: memory safety *)
Lemma bytes_lookup data i : Forall is_byte data -> (i < length data)%nat ->
  exists b, data !! i = Some b /\ 0 <= b < 256.
Proof.
  intros Hb Hi. destruct (lookup_lt_is_Some_2 data i Hi) as [b Hl]. exists b. split; [done|].
  by apply (Forall_lookup_1 _ _ _ _ Hb Hl).
Qed.

Lemma read_u32_total data i : Forall is_byte data -> (i + 4 <= length data)%nat ->
  exists v, read_sfo_u32 data i = Some v /\ 0 <= v.
Proof.
  intros Hb Hi. unfold read_sfo_u32.
  destruct (bytes_lookup data i Hb ltac:(lia)) as (b0 & -> & ?).
  destruct (bytes_lookup data (i + 1) Hb ltac:(lia)) as (b1 & -> & ?).
  destruct (bytes_lookup data (i + 2) Hb ltac:(lia)) as (b2 & -> & ?).
  destruct (bytes_lookup data (i + 3) Hb ltac:(lia)) as (b3 & -> & ?).
  eexists. split; [done|]. rewrite !Z.lor_nonneg, !Z.shiftl_nonneg. lia.
Qed.

Lemma sfo_key_total data name space : 0 <= name -> name + space <= Z.of_nat (length data) ->
  exists r, sfo_key data name space = Some r.
Proof.
  intros Hn Hs. unfold sfo_key. destruct (Z.leb_spec 9 space).
  - destruct (slice_total data name 9) as (k & -> & _); [lia..|]. simpl.
    destruct (Z.leb_spec 6 space); [|lia]. destruct (bool_decide _); [by eexists|].
    destruct (slice_total data name 6) as (k' & -> & _); [lia..|]. by eexists.
  - destruct (Z.leb_spec 6 space); [|by eexists].
    destruct (slice_total data name 6) as (k' & -> & _); [lia..|]. by eexists.
Qed.

(** One entry: in bounds, and what it stores fits its buffer. *)
Lemma sfo_entry_total data keys values i : Forall is_byte data ->
  (20 + i * 16 + 16 <= length data)%nat -> 0 <= keys < values -> values < Z.of_nat (length data) ->
  exists s, sfo_entry data keys values i = Some s /\
    forall t text, s = EntrySet t text -> Z.of_nat (strlen text) < target_size t.
Proof.
  intros Hb He Hk Hv. unfold sfo_entry. set (e := (20 + i * 16)%nat) in *.
  destruct (bytes_lookup data e Hb ltac:(lia)) as (e0 & -> & ?).
  destruct (bytes_lookup data (e + 1) Hb ltac:(lia)) as (e1 & -> & ?).
  destruct (read_u32_total data (e + 4) Hb ltac:(lia)) as (len & -> & ?).
  destruct (read_u32_total data (e + 8) Hb ltac:(lia)) as (cap & -> & ?).
  destruct (read_u32_total data (e + 12) Hb ltac:(lia)) as (val & -> & ?).
  assert (Hkey : 0 <= Z.lor e0 (Z.shiftl e1 8)) by (rewrite Z.lor_nonneg, Z.shiftl_nonneg; lia).
  set (key := Z.lor e0 (Z.shiftl e1 8)) in *.
  destruct (_ || _) eqn:Hbad; [by eexists|]. apply orb_false_iff in Hbad as [Hbad Hb4].
  apply orb_false_iff in Hbad as [Hbad Hb3]. apply orb_false_iff in Hbad as [Hb1 Hb2].
  apply Z.leb_gt in Hb1. apply Z.ltb_ge in Hb2, Hb3, Hb4.
  destruct (bytes_lookup data (e + 2) Hb ltac:(lia)) as (e2 & -> & ?).
  destruct (bytes_lookup data (e + 3) Hb ltac:(lia)) as (e3 & -> & ?).
  destruct (_ || _); [by eexists|].
  destruct (sfo_key_total data (keys + key) (values - keys - key)) as (tgt & ->); [lia..|].
  destruct tgt as [t|]; [|by eexists].
  set (scan := if len <? target_size t then len else target_size t).
  assert (Hpos : 0 < target_size t) by (by destruct t).
  assert (Hscan : 0 <= scan <= len /\ scan <= target_size t).
  { unfold scan. destruct (Z.ltb_spec len (target_size t)); lia. }
  destruct (slice_total data (values + val) scan) as (text & -> & Htl); [lia..|].
  destruct (find_index (Z.eqb 0) text) as [n|] eqn:Hf.
  - pose proof (find_index_lt _ _ _ Hf) as Hn. cbn [orb].
    destruct (len =? 0); [destruct t; by eexists|].
    destruct (slice_total data (values + val) (Z.of_nat n)) as (out & -> & Hol); [lia..|].
    eexists. split; [done|]. intros t' text' [= <- <-]. rewrite bytes_string_length. lia.
  - destruct ((e3 =? 2) || (target_size t <=? len)) eqn:Hc; cbn [orb]; [destruct t; by eexists|].
    destruct (len =? 0); [destruct t; by eexists|]. bool_hyps.
    destruct (slice_total data (values + val) len) as (out & -> & Hol); [lia..|].
    eexists. split; [done|]. intros t' text' [= <- <-]. rewrite bytes_string_length. lia.
Qed.

Definition names_fit (id name : string) : Prop :=
  (strlen id < MAX_TITLE_ID)%nat /\ (strlen name < MAX_TITLE_NAME)%nat.

Lemma sfo_entries_total data keys values n i id name : Forall is_byte data ->
  (20 + (i + n) * 16 <= length data)%nat -> 0 <= keys < values -> values < Z.of_nat (length data) ->
  names_fit id name ->
  exists ok id' name', sfo_entries data keys values n i id name = Some (ok, id', name') /\
    names_fit id' name'.
Proof.
  intros Hb. revert i id name. induction n as [|n IH]; intros i id name Hlen Hk Hv Hfit; simpl; [eauto|].
  destruct (sfo_entry_total data keys values i Hb ltac:(lia) Hk Hv) as (s & -> & Hs).
  destruct s as [| |t text]; [eauto|apply IH; (done || lia)|].
  specialize (Hs t text eq_refl). destruct Hfit as [Hi Hn].
  destruct t; apply IH; try done; try lia; split; try done; unfold target_size in Hs; lia.
Qed.

Lemma sfo_total data id name : Forall is_byte data -> names_fit id name ->
  exists ok id' name', parse_game_sfo data id name = Some (ok, id', name') /\ names_fit id' name' /\
    (ok = true -> is_supported_game_title_id id' = true).
Proof.
  intros Hb Hfit. unfold parse_game_sfo. set (size := Z.of_nat (length data)).
  assert (Hno : exists ok id' name', Some (false, id, name) = Some (ok, id', name') /\ names_fit id' name' /\
    (ok = true -> is_supported_game_title_id id' = true)) by (eexists _, _, _; done).
  destruct (Z.ltb_spec size 20); [done|].
  destruct (slice_total data 0 4) as (magic & -> & _); [lia..|].
  destruct (negb _); [done|].
  destruct (read_u32_total data 8 Hb ltac:(lia)) as (keys & -> & ?).
  destruct (read_u32_total data 12 Hb ltac:(lia)) as (values & -> & ?).
  destruct (read_u32_total data 16 Hb ltac:(lia)) as (count & -> & ?).
  destruct (_ || _) eqn:Hbad; [done|]. apply orb_false_iff in Hbad as [Hbad Hb4].
  apply orb_false_iff in Hbad as [Hbad Hb3]. apply orb_false_iff in Hbad as [Hb1 Hb2].
  apply Z.ltb_ge in Hb1, Hb2. apply Z.leb_gt in Hb3, Hb4.
  assert (Hc : 20 + count * 16 <= size).
  { pose proof (Z.mul_div_le (size - 20) 16 ltac:(lia)). lia. }
  destruct (sfo_entries_total data keys values (Z.to_nat count) 0 id name Hb) as (ok & id' & name' & -> & Hf);
    [lia|lia|lia|done|].
  eexists _, _, _. split_and!; [done|done|]. intros Hok. by apply andb_true_iff in Hok as [_ ?].
Qed.

(** A supported title id has nine characters. *)
Lemma get_length s n a : String.get n s = Some a -> String.get (S n) s = None -> String.length s = S n.
Proof.
  revert n. induction s as [|b s IH]; intros n; [done|]. destruct n as [|n]; simpl.
  - intros _. by destruct s.
  - intros Ha Hn. f_equal. by apply IH.
Qed.

Lemma supported_length id : is_supported_game_title_id id = true -> strlen id = 9%nat.
Proof.
  unfold is_supported_game_title_id. intros H. apply andb_true_iff in H as [H _].
  apply andb_true_iff in H as [H Hend]. apply andb_true_iff in H as [_ Hd]. bool_hyps.
  cbn [seq forallb] in Hd. rewrite !andb_true_iff in Hd. destruct Hd as (_ & _ & _ & _ & H8 & _).
  unfold char_in in H8. destruct (char_at id 8) as [a|] eqn:Ha; [|done].
  by eapply (get_length id 8).
Qed.

(** ** The lookup *)
Section lookup.
Context {J : Type}.
Context (is_object : J -> bool) (get_ex : J -> string -> option J)
  (string_value : J -> option (list Z)) (members : J -> list J)
  (parse_ex : list Z -> option (bool * J * nat)).

Lemma extract_string_fits j key size s :
  extract_json_string is_object get_ex string_value j key size = Some s -> (0 < strlen s < size)%nat.
Proof.
  unfold extract_json_string. destruct (negb _); [done|].
  intros (v & _ & (text & _ & H)%bind_Some)%bind_Some. destruct (_ || _) eqn:Hb; [done|].
  injection H as <-. rewrite bytes_string_length. bool_hyps.
  apply Nat.eqb_neq in H. apply Nat.leb_gt in H1. lia.
Qed.

Lemma title_name_fits root s :
  extract_title_name is_object get_ex string_value members root = Some s -> (strlen s < MAX_TITLE_NAME)%nat.
Proof.
  assert (Hname : forall j s, extract_json_string is_object get_ex string_value j "titleName" MAX_TITLE_NAME = Some s ->
    (strlen s < MAX_TITLE_NAME)%nat) by (intros j x Hx; apply extract_string_fits in Hx; lia).
  assert (Horelse : forall a b : option string, (a = Some s -> (strlen s < MAX_TITLE_NAME)%nat) ->
    (b = Some s -> (strlen s < MAX_TITLE_NAME)%nat) -> orelse a b = Some s -> (strlen s < MAX_TITLE_NAME)%nat).
  { intros [x|] b Ha Hb; simpl; auto. }
  unfold extract_title_name. apply Horelse; [|apply Horelse; [apply Hname|]].
  - destruct (get_ex root "localizedParameters") as [l|]; [|done]. destruct (is_object l); [|done].
    apply Horelse.
    + intros (en & _ & H)%bind_Some. by eapply Hname.
    + intros (lang & _ & (d & _ & H)%bind_Some)%bind_Some. by eapply Hname.
  - destruct (get_ex root "localizedParameters") as [l|]; [|done]. destruct (is_object l); [|done].
    induction (members l) as [|m ms IH]; simpl; [done|]. apply Horelse; [apply Hname|exact IH].
Qed.

Lemma json_fits buf ok id name : 
  parse_game_json is_object get_ex string_value members parse_ex buf = Some (ok, id, name) ->
  ok = true -> names_fit id name /\ is_supported_game_title_id id = true.
Proof.
  unfold parse_game_json. destruct (parse_ex buf) as [[[succ root] parsed]|]; [|done].
  destruct (negb _); [by intros [= <- _ _]|].
  destruct (orelse _ _) as [i|] eqn:Hid; [|by intros [= <- _ _]].
  destruct (is_supported_game_title_id i) eqn:Hs; [|by intros [= <- _ _]].
  intros [= <- <- <-] _. split; [|done]. split; [apply supported_length in Hs; unfold MAX_TITLE_ID; lia|].
  destruct (extract_title_name _ _ _ _ root) as [n|] eqn:Hn; simpl; [by apply title_name_fits in Hn|].
  unfold MAX_TITLE_NAME, strlen. simpl. lia.
Qed.

(** What a cached verdict for [base] promises. *)
Definition cached_ok (t : path_state) (base : string) : Prop :=
  forall st id name, load_cached_game_info t base st = Some (Some (id, name)) ->
    is_supported_game_title_id id = true /\ name <> ""%string.

Definition lookup_ok (t' : path_state) (base : string) (st : full_stat) (ok : bool) (id name : string) : Prop :=
  table_wf t' /\ cached_ok t' base /\
  (if ok then is_supported_game_title_id id = true /\ name <> ""%string /\
              load_cached_game_info t' base (cache_stat st) = Some (Some (id, name))
   else id = ""%string /\ name = ""%string).

(** Storing a verdict. *)
Lemma store_ok exists_ (t : path_state) base st (valid : bool) id name : table_wf t -> path_fits base ->
  names_fit id name ->
  (if valid then is_supported_game_title_id id = true /\ name <> ""%string else id = ""%string /\ name = ""%string) ->
  exists t', store_cached_game_info exists_ t base (cache_stat st) valid id name = Some t' /\
    lookup_ok t' base st valid id name.
Proof.
  intros Hwf Hp [Hi Hn] Hv.
  destruct (store_load_game_info exists_ t base (cache_stat st) valid id name Hwf Hp Hi Hn)
    as (t' & -> & Hwf' & Hl & Hother).
  exists t'. split; [done|]. split_and!; [done| |].
  - intros st' i n Hload. destruct (decide (st' = cache_stat st)) as [->|Hne].
    + rewrite Hl in Hload. destruct valid; [|done]. by injection Hload as <- <-.
    + by rewrite Hother in Hload.
  - destruct valid; [|done]. destruct Hv. split_and!; [done|done|]. by rewrite Hl.
Qed.

Lemma get_game_info_total exists_ fs (t : path_state) base st : table_wf t -> path_fits base ->
  cached_ok t base ->
  (forall path f, fs_open fs path = Some f -> Forall is_byte (op_bytes f)) ->
  exists ok id name t',
    get_game_info is_object get_ex string_value members parse_ex exists_ fs t base st =
      Some (ok, id, name, t') /\ lookup_ok t' base st ok id name.
Proof.
  intros Hwf Hp Hcached Hbytes. unfold get_game_info.
  set (no := (false, ""%string, ""%string, t)).
  assert (Hno : exists ok id name t', Some no = Some (ok, id, name, t') /\ lookup_ok t' base st ok id name)
    by (eexists _, _, _, _; done).
  destruct (negb (fs_regular st)); [done|].
  destruct (load_cached_game_info t base (cache_stat st)) as [[[id name]|]|] eqn:Hload; [|done|].
  { destruct (Hcached _ _ _ Hload). by eexists _, _, _, _. }
  destruct (_ || _).
  { destruct (store_ok exists_ t base st false "" "" Hwf Hp) as (t' & -> & Ht');
      [split; unfold strlen, MAX_TITLE_ID, MAX_TITLE_NAME; simpl; lia|done|]. by eexists _, _, _, _. }
  destruct (resolve_game_param fs base) as [[path st']|]; [|done].
  destruct (fs_open fs path) as [f|] eqn:Hopen; [|done]. destruct (_ || _); [done|].
  set (buf := take _ (op_bytes f)). destruct (negb _); [done|].
  assert (Hstore : forall ok id name, (ok = true -> names_fit id name /\ is_supported_game_title_id id = true) ->
    let name' := if strcmp_eq name "" then strlcpy id MAX_TITLE_NAME else name in
    let id_out := if ok : bool then id else ""%string in
    let name_out := if ok then name' else ""%string in
    exists ok2 id2 name2 t2,
      match store_cached_game_info exists_ t base (cache_stat st) ok id_out name_out with
      | Some t' => Some (ok, id_out, name_out, t') | None => None end = Some (ok2, id2, name2, t2) /\
      lookup_ok t2 base st ok2 id2 name2).
  { intros ok id name Hok name' id_out name_out.
    assert (Hfits : names_fit id_out name_out /\
      (if ok then is_supported_game_title_id id_out = true /\ name_out <> ""%string
       else id_out = ""%string /\ name_out = ""%string)).
    { unfold id_out, name_out, name'. destruct ok.
      - destruct (Hok eq_refl) as [[Hi Hn] Hs]. pose proof (supported_length id Hs) as H9.
        destruct (strcmp_eq name "") eqn:He.
        + rewrite strlcpy_fits by (unfold MAX_TITLE_NAME; lia).
          split_and!; [split; [done|unfold MAX_TITLE_NAME; lia]|done|]. intros ->. done.
        + apply strcmp_eq_false in He. done.
      - split; [|done]. split; unfold strlen, MAX_TITLE_ID, MAX_TITLE_NAME; simpl; lia. }
    destruct Hfits as [Hf Hv].
    destruct (store_ok exists_ t base st ok id_out name_out Hwf Hp Hf Hv) as (t' & -> & Ht').
    by eexists _, _, _, _. }
  destruct (bool_decide _).
  - destruct (sfo_total buf "" "") as (ok & id & name & -> & Hfit & Hs).
    { apply Forall_take. by eapply Hbytes. }
    { split; unfold strlen, MAX_TITLE_ID, MAX_TITLE_NAME; simpl; lia. }
    apply Hstore. auto.
  - destruct (parse_game_json _ _ _ _ _ buf) as [[[ok id] name]|] eqn:Hj; [|done].
    apply Hstore. by eapply json_fits.
Qed.
End lookup.

(** * Theorems *)

(** parsing an SFO file is memory safe: on any bytes, however
    malformed, no read leaves the file, and the id and the name written fit
    their buffers (32 and 256 bytes with the terminator); success means that the
    id is a supported one. *)
Theorem sfo_memory_safe data : Forall is_byte data ->
  exists ok id name, parse_game_sfo data "" "" = Some (ok, id, name) /\
    (strlen id < MAX_TITLE_ID)%nat /\ (strlen name < MAX_TITLE_NAME)%nat /\
    (ok = true -> is_supported_game_title_id id = true /\ strlen id = 9%nat).
Proof.
  intros Hb. destruct (sfo_total data "" "" Hb) as (ok & id & name & Hp & [Hi Hn] & Hs).
  { split; unfold strlen, MAX_TITLE_ID, MAX_TITLE_NAME; simpl; lia. }
  exists ok, id, name. split_and!; try done. intros Hok. auto using supported_length.
Qed.

(** A file with a title id and a name. *)
Definition sample_sfo : list Z :=
  [0; 80; 83; 70; 1; 1; 0; 0; 52; 0; 0; 0; 68; 0; 0; 0; 2; 0; 0; 0] ++
  [0; 0; 4; 2; 5; 0; 0; 0; 8; 0; 0; 0; 0; 0; 0; 0] ++
  [6; 0; 4; 2; 10; 0; 0; 0; 16; 0; 0; 0; 8; 0; 0; 0] ++
  [84; 73; 84; 76; 69; 0; 84; 73; 84; 76; 69; 95; 73; 68; 0; 0] ++
  [71; 97; 109; 101; 0; 0; 0; 0; 80; 80; 83; 65; 48; 49; 50; 51; 52; 0; 0; 0; 0; 0; 0; 0].

Lemma sfo_memory_safe_witness :
  parse_game_sfo sample_sfo "" "" = Some (true, "PPSA01234", "Game")%string /\
  exists ok id name, parse_game_sfo sample_sfo "" "" = Some (ok, id, name) /\
    (strlen id < MAX_TITLE_ID)%nat /\ (strlen name < MAX_TITLE_NAME)%nat /\
    (ok = true -> is_supported_game_title_id id = true /\ strlen id = 9%nat).
Proof.
  split; [vm_compute; reflexivity|]. apply (sfo_memory_safe sample_sfo).
  unfold sample_sfo. repeat (apply Forall_cons_2; [unfold is_byte; lia|]). apply Forall_nil_2.
Defined.

(** the metadata lookup always returns, for a file system and a JSON
    library that behave in any way: a success reports a supported title id and
    a non-empty name, a failure leaves both empty; and a success is remembered:
    asking again for the same version of the file gives the same answer from
    the cache, whatever the file system then does. *)
Theorem game_info_lookup {J : Type} (is_object : J -> bool) get_ex string_value members parse_ex
    exists_ fs (t : path_state) base st :
  table_wf t -> path_fits base -> cached_ok t base ->
  (forall path f, fs_open fs path = Some f -> Forall is_byte (op_bytes f)) ->
  exists ok id name t',
    get_game_info is_object get_ex string_value members parse_ex exists_ fs t base st =
      Some (ok, id, name, t') /\ table_wf t' /\ cached_ok t' base /\
    (if ok then is_supported_game_title_id id = true /\ name <> ""%string
     else id = ""%string /\ name = ""%string) /\
    (ok = true -> forall fs', get_game_info is_object get_ex string_value members parse_ex exists_ fs' t'
       base st = Some (true, id, name, t')).
Proof.
  intros Hwf Hp Hc Hb.
  destruct (get_game_info_total is_object get_ex string_value members parse_ex exists_ fs t base st Hwf Hp Hc Hb)
    as (ok & id & name & t' & Hg & Hwf' & Hc' & Hv).
  exists ok, id, name, t'. split_and!; [done|done|done|by destruct ok; [destruct Hv as (? & ? & _)|]|].
  intros -> fs'. destruct Hv as (_ & _ & Hl). unfold get_game_info. rewrite Hl.
  destruct (fs_regular st) eqn:Hr; [done|].
  unfold get_game_info in Hg. rewrite Hr in Hg. done.
Qed.

(** A file system that holds [sample_sfo] for every game. *)
Definition sample_stat : full_stat :=
  FullStat true 1 2 (Z.of_nat (length sample_sfo)) 100 0 100 0.

Definition sample_fs : game_fs :=
  GameFs (fun p => if bool_decide (after_last p slash = Some "param.sfo"%string) then StatOk sample_stat
                   else StatMissing)
    (fun _ => Some (Opened (Some sample_stat) sample_sfo (Some sample_stat))) true.

Lemma game_info_lookup_witness :
  exists ok id name t',
    get_game_info (fun _ : unit => false) (fun _ _ => None) (fun _ => None) (fun _ => []) (fun _ => None)
      (fun _ => true) sample_fs empty_table "/mnt/usb0/a" sample_stat = Some (ok, id, name, t') /\
    table_wf t' /\ cached_ok t' "/mnt/usb0/a" /\
    (if ok then is_supported_game_title_id id = true /\ name <> ""%string
     else id = ""%string /\ name = ""%string) /\
    (ok = true -> forall fs', get_game_info (fun _ : unit => false) (fun _ _ => None) (fun _ => None)
       (fun _ => []) (fun _ => None) (fun _ => true) fs' t' "/mnt/usb0/a" sample_stat =
       Some (true, id, name, t')).
Proof.
  apply (game_info_lookup (fun _ : unit => false) (fun _ _ => None) (fun _ => None) (fun _ => [])
    (fun _ => None) (fun _ => true) sample_fs empty_table "/mnt/usb0/a" sample_stat).
  - apply empty_table_wf.
  - split; [done|]. unfold strlen, MAX_PATH. simpl. lia.
  - intros st id name Hl. vm_compute in Hl. done.
  - intros path f Hf. injection Hf as <-. simpl op_bytes. unfold sample_sfo.
    repeat (apply Forall_cons_2; [unfold is_byte; lia|]). apply Forall_nil_2.
Defined.

(** The sample game is found, then served from the cache. *)
Example sample_lookup :
  match get_game_info (fun _ : unit => false) (fun _ _ => None) (fun _ => None) (fun _ => []) (fun _ => None)
      (fun _ => true) sample_fs empty_table "/mnt/usb0/a" sample_stat with
  | Some (ok, id, name, _) => ok = true /\ id = "PPSA01234"%string /\ name = "Game"%string
  | None => False
  end.
Proof. vm_compute. auto. Qed.
