(* ===== verification/ImageIndex.v ===== *)
(** * The persistent image index (src/sm_image_index.c)

    The index remembers, per image file, its fingerprint (size and mtime), whether
    its last scan completed and which titles it holds, so that an unchanged image
    need not be mounted again.  It is loaded from and saved to one binary file;
    structs are written as they lie in memory, so the file format is modelled
    byte by byte ([encode_index], [load_index]).

    Every public operation runs under [g_image_index_mutex] and is one step.  The
    answers of the file system and of the title database are records of
    functions; pointers passed by callers are not NULL. *)
From S2P Require Import Prelude CString Bytes ImageCache.
Open Scope c_scope.

(** ** Data *)
Definition MAX_IMAGE_TITLES : nat := Z.to_nat 8192.
Definition IMAGE_INDEX_MAGIC : Z := 0x58444953.
Definition IMAGE_INDEX_VERSION : Z := 5.
Definition IMAGE_INDEX_BUILD_TIME_LENGTH : nat := 24.
Definition CONFIG_FILE : string := "/data/shadowmount/config.ini".
Definition PROFILES_FILE : string := "/data/shadowmount/profiles.ini".

Record image_index_entry_t := IndexEntry {
  ie_path : list Z; ie_size : Z; ie_mtime_sec : Z; ie_mtime_nsec : Z;
  ie_complete : Z; ie_valid : Z; ie_reserved : list Z;
}.

Record image_index_title_t := IndexTitle {
  it_image_index : Z; it_valid : Z; it_reserved : Z; it_title_id : list Z;
}.

(** The reserved bytes of a stamp are zero whenever the program writes one. *)
Record image_index_file_stamp_t := FileStamp {
  sp_inode : Z; sp_size : Z; sp_mtime_sec : Z; sp_ctime_sec : Z; sp_mtime_nsec : Z; sp_ctime_nsec : Z;
  sp_present : Z;
}.

Record image_index_context_t := IndexContext {
  cx_config : image_index_file_stamp_t; cx_profiles : image_index_file_stamp_t;
}.

Record image_index_header_t := IndexHeader {
  hd_magic : Z; hd_version : Z; hd_entry_capacity : Z; hd_title_capacity : Z;
  hd_build_time : list Z; hd_context : image_index_context_t;
}.

(** [memset] to zero. *)
Definition zero_entry : image_index_entry_t :=
  IndexEntry (replicate MAX_PATH 0) 0 0 0 0 0 (replicate 2 0).
Definition zero_title : image_index_title_t := IndexTitle 0 0 0 (replicate MAX_TITLE_ID 0).
Definition zero_stamp : image_index_file_stamp_t := FileStamp 0 0 0 0 0 0 0.
Definition zero_context : image_index_context_t := IndexContext zero_stamp zero_stamp.

(** The globals, and the file IMAGE_INDEX_FILE. *)
Record image_index := ImageIndex {
  ix_entries : list image_index_entry_t;
  ix_titles : list image_index_title_t;
  ix_loaded : bool;
  ix_dirty : bool;
  ix_context_valid : bool;
  ix_context : image_index_context_t;
  ix_file : option (list Z);
}.

Definition set_tables (es : list image_index_entry_t) (ts : list image_index_title_t) (dirty : bool)
    (w : image_index) : image_index :=
  ImageIndex es ts (ix_loaded w) dirty (ix_context_valid w) (ix_context w) (ix_file w).

Definition set_context (valid : bool) (cx : image_index_context_t) (w : image_index) : image_index :=
  ImageIndex (ix_entries w) (ix_titles w) (ix_loaded w) (ix_dirty w) valid cx (ix_file w).

Definition set_file (f : option (list Z)) (w : image_index) : image_index :=
  ImageIndex (ix_entries w) (ix_titles w) (ix_loaded w) (ix_dirty w) (ix_context_valid w)
    (ix_context w) f.

(** A process that has just started beside the file [f]. *)
Definition fresh_index (f : option (list Z)) : image_index :=
  ImageIndex (replicate MAX_IMAGE_MOUNTS zero_entry) (replicate MAX_IMAGE_TITLES zero_title)
    false false false zero_context f.

(** ** The environment of one call *)
Record index_stat := IndexStat {
  xs_regular : bool; xs_ino : Z; xs_size : Z; xs_mtime_sec : Z; xs_mtime_nsec : Z;
  xs_ctime_sec : Z; xs_ctime_nsec : Z;
}.

(** [stat]: a result, ENOENT, or another error. *)
Inductive stat_answer := StatIs (st : index_stat) | StatNoEnt | StatFails.

(** How far writing the temporary file and renaming it gets. *)
Inductive save_io := SaveOpenFails | SaveWriteFails | SaveRenameFails | SaveDone.

Record index_env := IndexEnv {
  env_stat : string -> stat_answer;
  env_open : bool;      (** opening the existing index file for reading succeeds *)
  env_unlink : bool;    (** [unlink] succeeds *)
  env_save : save_io;
}.

(** What the rest of the program knows of a title (src/sm_filesystem.c,
    src/sm_appdb.c). *)
Record title_env := TitleEnv {
  is_installed : string -> bool;
  has_appmeta_data : string -> bool;
  read_mount_link : string -> option string;
  read_mount_image_link : string -> option string;
  app_db_title_list_contains : string -> bool;
}.

(** ** Configuration stamps *)
Definition read_file_stamp (stat : string -> stat_answer) (path : string) :
    bool * image_index_file_stamp_t :=
  match stat path with
  | StatNoEnt => (true, zero_stamp)
  | StatFails => (false, zero_stamp)
  | StatIs st =>
      (true, FileStamp (u64 (xs_ino st)) (u64 (xs_size st)) (i64 (xs_mtime_sec st))
               (i64 (xs_ctime_sec st)) (i32 (xs_mtime_nsec st)) (i32 (xs_ctime_nsec st)) 1)
  end.

Definition read_index_context (stat : string -> stat_answer) : bool * image_index_context_t :=
  let '(config_ready, config) := read_file_stamp stat CONFIG_FILE in
  let '(profiles_ready, profiles) := read_file_stamp stat PROFILES_FILE in
  (config_ready && profiles_ready, IndexContext config profiles).

Definition file_stamp_equals (a b : image_index_file_stamp_t) : bool :=
  (sp_present a =? sp_present b) && (sp_inode a =? sp_inode b) && (sp_size a =? sp_size b) &&
  (sp_mtime_sec a =? sp_mtime_sec b) && (sp_mtime_nsec a =? sp_mtime_nsec b) &&
  (sp_ctime_sec a =? sp_ctime_sec b) && (sp_ctime_nsec a =? sp_ctime_nsec b).

Definition clear_index (w : image_index) : image_index :=
  set_tables (replicate MAX_IMAGE_MOUNTS zero_entry) (replicate MAX_IMAGE_TITLES zero_title) false w.

Definition discard_index (env : index_env) (w : image_index) : image_index :=
  set_file (if env_unlink env then None else ix_file w) (clear_index w).

Definition refresh_index_context (env : index_env) (w : image_index) : bool * image_index :=
  let '(ready, context) := read_index_context (env_stat env) in
  if negb ready then (false, set_context false (ix_context w) (discard_index env w))
  else if ix_context_valid w && file_stamp_equals (cx_config (ix_context w)) (cx_config context) &&
          file_stamp_equals (cx_profiles (ix_context w)) (cx_profiles context)
  then (true, w)
  else (true, set_context true context (discard_index env w)).

(** ** Entries and titles *)
Definition stamp_matches (e : image_index_entry_t) (st : index_stat) : bool :=
  (ie_size e =? i64 (xs_size st)) && (ie_mtime_sec e =? i64 (xs_mtime_sec st)) &&
  (ie_mtime_nsec e =? i32 (xs_mtime_nsec st)).

Definition entry_live (e : image_index_entry_t) : bool := negb (ie_valid e =? 0).

Definition find_entry (es : list image_index_entry_t) (path : string) : option nat :=
  find_index (fun e => entry_live e && strcmp_eq (cstr (ie_path e)) path) es.

(** [title->valid && title->image_index == (uint16_t)entry_index]. *)
Definition title_of_entry (i : nat) (t : image_index_title_t) : bool :=
  negb (it_valid t =? 0) && (it_image_index t =? u16 (Z.of_nat i)).

Definition clear_entry_titles (i : nat) (ts : list image_index_title_t) : list image_index_title_t :=
  (fun t => if title_of_entry i t then zero_title else t) <$> ts.

Definition clear_entry (i : nat) (w : image_index) : image_index :=
  set_tables (<[i := zero_entry]> (ix_entries w)) (clear_entry_titles i (ix_titles w)) true w.

(** ** The file *)
Definition encode_entry (e : image_index_entry_t) : list Z :=
  ie_path e ++ le_bytes 8 (ie_size e) ++ le_bytes 8 (ie_mtime_sec e) ++ le_bytes 4 (ie_mtime_nsec e) ++
  [ie_complete e] ++ [ie_valid e] ++ ie_reserved e.

Definition decode_entry (l0 : list Z) : image_index_entry_t :=
  let l1 := drop MAX_PATH l0 in let l2 := drop 8 l1 in let l3 := drop 8 l2 in let l4 := drop 4 l3 in
  let l5 := drop 1 l4 in let l6 := drop 1 l5 in
  IndexEntry (take MAX_PATH l0) (i64 (le_value (take 8 l1))) (i64 (le_value (take 8 l2)))
    (i32 (le_value (take 4 l3))) (le_value (take 1 l4)) (le_value (take 1 l5)) (take 2 l6).

Definition encode_title (t : image_index_title_t) : list Z :=
  le_bytes 2 (it_image_index t) ++ [it_valid t] ++ [it_reserved t] ++ it_title_id t.

Definition decode_title (l0 : list Z) : image_index_title_t :=
  let l1 := drop 2 l0 in let l2 := drop 1 l1 in let l3 := drop 1 l2 in
  IndexTitle (le_value (take 2 l0)) (le_value (take 1 l1)) (le_value (take 1 l2)) (take MAX_TITLE_ID l3).

Definition encode_stamp (s : image_index_file_stamp_t) : list Z :=
  le_bytes 8 (sp_inode s) ++ le_bytes 8 (sp_size s) ++ le_bytes 8 (sp_mtime_sec s) ++
  le_bytes 8 (sp_ctime_sec s) ++ le_bytes 4 (sp_mtime_nsec s) ++ le_bytes 4 (sp_ctime_nsec s) ++
  le_bytes 1 (sp_present s) ++ replicate 7 0.

Definition decode_stamp (l0 : list Z) : image_index_file_stamp_t :=
  let l1 := drop 8 l0 in let l2 := drop 8 l1 in let l3 := drop 8 l2 in let l4 := drop 8 l3 in
  let l5 := drop 4 l4 in let l6 := drop 4 l5 in
  FileStamp (le_value (take 8 l0)) (le_value (take 8 l1)) (i64 (le_value (take 8 l2)))
    (i64 (le_value (take 8 l3))) (i32 (le_value (take 4 l4))) (i32 (le_value (take 4 l5)))
    (le_value (take 1 l6)).

Definition encode_header (h : image_index_header_t) : list Z :=
  le_bytes 4 (hd_magic h) ++ le_bytes 4 (hd_version h) ++ le_bytes 4 (hd_entry_capacity h) ++
  le_bytes 4 (hd_title_capacity h) ++ hd_build_time h ++ encode_stamp (cx_config (hd_context h)) ++
  encode_stamp (cx_profiles (hd_context h)).

Definition decode_header (l0 : list Z) : image_index_header_t :=
  let l1 := drop 4 l0 in let l2 := drop 4 l1 in let l3 := drop 4 l2 in let l4 := drop 4 l3 in
  let l5 := drop IMAGE_INDEX_BUILD_TIME_LENGTH l4 in let l6 := drop 48 l5 in
  IndexHeader (le_value (take 4 l0)) (le_value (take 4 l1)) (le_value (take 4 l2)) (le_value (take 4 l3))
    (take IMAGE_INDEX_BUILD_TIME_LENGTH l4)
    (IndexContext (decode_stamp (take 48 l5)) (decode_stamp (take 48 l6))).

(** [sizeof] of the structs. *)
Definition ENTRY_SIZE : nat := 1048.
Definition TITLE_SIZE : nat := 36.
Definition HEADER_SIZE : nat := 136.

Section build.
(** SHADOWMOUNT_BUILD_TIME. *)
Context (build_time : string).

Definition index_header (cx : image_index_context_t) : image_index_header_t :=
  IndexHeader IMAGE_INDEX_MAGIC IMAGE_INDEX_VERSION (Z.of_nat MAX_IMAGE_MOUNTS)
    (Z.of_nat MAX_IMAGE_TITLES) (buf_strlcpy (replicate IMAGE_INDEX_BUILD_TIME_LENGTH 0) build_time) cx.

(** What the three [fwrite] calls produce. *)
Definition encode_index (w : image_index) : list Z :=
  encode_header (index_header (ix_context w)) ++ concat (encode_entry <$> ix_entries w) ++
  concat (encode_title <$> ix_titles w).

Definition save_index (env : index_env) (w : image_index) : bool * image_index :=
  if negb (ix_dirty w) then (true, w)
  else
    match env_save env with
    | SaveOpenFails | SaveWriteFails | SaveRenameFails => (false, w)
    | SaveDone =>
        (true, set_file (Some (encode_index w)) (set_tables (ix_entries w) (ix_titles w) false w))
    end.

Definition loaded_entry_is_valid (e : image_index_entry_t) : bool :=
  negb (entry_live e) ||
  negb ((1 <? ie_complete e) || (default 0 (ie_path e !! 0%nat) =? 0) || negb (terminated (ie_path e))).

Definition loaded_title_is_valid (es : list image_index_entry_t) (t : image_index_title_t) : bool :=
  (it_valid t =? 0) ||
  negb ((Z.of_nat MAX_IMAGE_MOUNTS <=? it_image_index t) ||
        negb (from_option entry_live false (es !! Z.to_nat (it_image_index t))) ||
        (default 0 (it_title_id t !! 0%nat) =? 0) || negb (terminated (it_title_id t))).

Definition loaded_index_is_valid (es : list image_index_entry_t) (ts : list image_index_title_t) : bool :=
  forallb loaded_entry_is_valid es && forallb (loaded_title_is_valid es) ts.

(** [true] when there is a reason. *)
Definition index_header_invalid_reason (h : image_index_header_t) (w : image_index) : bool :=
  negb ((hd_magic h =? IMAGE_INDEX_MAGIC) && (hd_version h =? IMAGE_INDEX_VERSION) &&
        (hd_entry_capacity h =? Z.of_nat MAX_IMAGE_MOUNTS) &&
        (hd_title_capacity h =? Z.of_nat MAX_IMAGE_TITLES)) ||
  negb (strcmp_eq (cstr (hd_build_time h)) build_time) ||
  negb (ix_context_valid w) ||
  negb (file_stamp_equals (cx_config (hd_context h)) (cx_config (ix_context w))) ||
  negb (file_stamp_equals (cx_profiles (hd_context h)) (cx_profiles (ix_context w))).

(** [fread(buf, n, 1, file)]: the bytes read and the rest of the file. *)
Definition fread (n : nat) (l : list Z) : option (list Z * list Z) :=
  if (n <=? length l)%nat then Some (take n l, drop n l) else None.

(** The tables a file gives, [None] when it must be discarded. *)
Definition read_index (f : list Z) (w : image_index) :
    option (list image_index_entry_t * list image_index_title_t) :=
  do? (header, l1) <- fread HEADER_SIZE f ;
  if index_header_invalid_reason (decode_header header) w then None
  else
    do? (entries, l2) <- fread (MAX_IMAGE_MOUNTS * ENTRY_SIZE) l1 ;
    do? (titles, _) <- fread (MAX_IMAGE_TITLES * TITLE_SIZE) l2 ;
    let es := decode_array ENTRY_SIZE decode_entry MAX_IMAGE_MOUNTS entries in
    let ts := decode_array TITLE_SIZE decode_title MAX_IMAGE_TITLES titles in
    if loaded_index_is_valid es ts then Some (es, ts) else None.

Definition load_index (env : index_env) (w : image_index) : image_index :=
  if ix_loaded w then w
  else
    let '(valid, cx) := read_index_context (env_stat env) in
    let w1 := ImageIndex (ix_entries w) (ix_titles w) true (ix_dirty w) valid cx (ix_file w) in
    match ix_file w1 with
    | None => w1
    | Some f =>
        if negb (env_open env) then w1
        else
          match read_index f w1 with
          | Some (es, ts) => set_tables es ts (ix_dirty w1) w1
          | None => discard_index env w1
          end
    end.

(** ** Scans *)
Definition reserve_entry (w : image_index) (path : string) : option nat * image_index :=
  match find_entry (ix_entries w) path with
  | Some i => (Some i, w)
  | None =>
      match find_index (fun e => negb (entry_live e)) (ix_entries w) with
      | None => (None, w)
      | Some i =>
          (Some i,
           set_tables
             (alter (fun e => IndexEntry (buf_strlcpy (ie_path e) path) (ie_size e) (ie_mtime_sec e)
                                (ie_mtime_nsec e) (ie_complete e) 1 (ie_reserved e)) i (ix_entries w))
             (ix_titles w) (ix_dirty w) w)
      end
  end.

Definition stamp_entry (st : index_stat) (e : image_index_entry_t) : image_index_entry_t :=
  IndexEntry (ie_path e) (i64 (xs_size st)) (i64 (xs_mtime_sec st)) (i32 (xs_mtime_nsec st)) 0 1
    (ie_reserved e).

Definition begin_scan_locked (w : image_index) (path : string) (st : index_stat) : image_index :=
  match reserve_entry w path with
  | (None, w1) => w1
  | (Some i, w1) =>
      set_tables (alter (stamp_entry st) i (ix_entries w1)) (clear_entry_titles i (ix_titles w1)) true w1
  end.

Definition indexed_source_has_title (env : index_env) (w : image_index) (path title_id : string) : bool :=
  match find_entry (ix_entries w) path with
  | None => false
  | Some i =>
      match ix_entries w !! i with
      | None => false
      | Some e =>
          negb (ie_complete e =? 0) &&
          existsb (fun t => title_of_entry i t && strcmp_eq (cstr (it_title_id t)) title_id) (ix_titles w) &&
          match env_stat env path with StatIs st => xs_regular st && stamp_matches e st | _ => false end
      end
  end.

Definition sm_image_index_source_has_title (env : index_env) (w : image_index) (path title_id : string) :
    bool * image_index :=
  if strcmp_eq path "" || strcmp_eq title_id "" then (false, w)
  else
    let w1 := load_index env w in
    (indexed_source_has_title env w1 path title_id, w1).

(** One title of the loop of [cached_titles_ready]. *)
Definition cached_title_ready (env : index_env) (te : title_env) (app_db_titles_ready : bool)
    (w : image_index) (image_path title_id : string) : bool :=
  if (app_db_titles_ready && negb (app_db_title_list_contains te title_id)) ||
     negb (is_installed te title_id) || negb (has_appmeta_data te title_id)
  then false
  else
    match read_mount_link te title_id with
    | None => false
    | Some runtime_path =>
        is_under_image_mount_base runtime_path &&
        match read_mount_image_link te title_id with
        | None => false
        | Some linked_image =>
            strcmp_eq linked_image image_path || indexed_source_has_title env w linked_image title_id
        end
    end.

(** The titles recorded for entry [i], in table order. *)
Definition entry_titles (i : nat) (ts : list image_index_title_t) : list string :=
  (fun t => cstr (it_title_id t)) <$> filter (fun t => title_of_entry i t = true) ts.

Definition cached_titles_ready (env : index_env) (te : title_env) (app_db_titles_ready : bool)
    (w : image_index) (i : nat) : bool :=
  let image_path := from_option (fun e => cstr (ie_path e)) ""%string (ix_entries w !! i) in
  forallb (cached_title_ready env te app_db_titles_ready w image_path) (entry_titles i (ix_titles w)).

(** The verdict, the titles the visitor is called with, in order, and the new
    state; [calloc_ok]: the copy of the list can be allocated. *)
Definition sm_image_index_visit_ready_titles (env : index_env) (te : title_env) (calloc_ok : bool)
    (w : image_index) (path : string) (st : index_stat) (app_db_titles_ready : bool) :
    bool * list string * image_index :=
  let w1 := load_index env w in
  match find_entry (ix_entries w1) path with
  | None => (false, [], w1)
  | Some i =>
      match ix_entries w1 !! i with
      | None => (false, [], w1)
      | Some e =>
          if negb (ie_complete e =? 0) && stamp_matches e st &&
             cached_titles_ready env te app_db_titles_ready w1 i
          then
            let titles := entry_titles i (ix_titles w1) in
            if (0 <? length titles)%nat && negb calloc_ok then (false, [], w1)
            else (true, (fun t => strlcpy t MAX_TITLE_ID) <$> titles, w1)
          else (false, [], w1)
      end
  end.

(** [None] is an access outside the tables. *)
Definition sm_image_index_has_source_for_title (env : index_env) (path_exists : string -> bool)
    (w : image_index) (title_id : string) : option (bool * image_index) :=
  if strcmp_eq title_id "" then Some (false, w)
  else
    let w1 := load_index env w in
    match find_index (fun t => negb (it_valid t =? 0) && strcmp_eq (cstr (it_title_id t)) title_id)
            (ix_titles w1) with
    | None => Some (false, w1)
    | Some k =>
        do? t <- ix_titles w1 !! k ;
        do? e <- ix_entries w1 !! Z.to_nat (it_image_index t) ;
        Some (entry_live e && path_exists (cstr (ie_path e)), w1)
    end.

Definition sm_image_index_begin_scan (env : index_env) (w : image_index) (path : string)
    (st : index_stat) : image_index :=
  begin_scan_locked (load_index env w) path st.

(** Reserving the slot of a title: [None] when the table is full. *)
Definition add_title (w : image_index) (i : nat) (title_id : string) : option image_index :=
  do? k <- find_index (fun t => it_valid t =? 0) (ix_titles w) ;
  Some (set_tables (ix_entries w)
          (alter (fun t => IndexTitle (u16 (Z.of_nat i)) 1 (it_reserved t)
                             (buf_strlcpy (it_title_id t) title_id)) k (ix_titles w)) true w).

(** The verdict, the image link written ([write_mount_image_link] is attempted
    for that title and path) and the new state. *)
Definition sm_image_index_record_game (env : index_env) (te : title_env) (cache : image_cache)
    (w : image_index) (game_path title_id : string) :
    bool * option (string * string) * image_index :=
  let w1 := load_index env w in
  match resolve_outermost_image_source_from_mount_cache cache game_path MAX_PATH with
  | None => (true, None, w1)
  | Some image_path =>
      let found :=
        match find_entry (ix_entries w1) image_path with
        | Some i => (Some i, w1)
        | None =>
            match env_stat env image_path with
            | StatIs st =>
                let w2 := begin_scan_locked w1 image_path st in
                (find_entry (ix_entries w2) image_path, w2)
            | _ => (None, w1)
            end
        end in
      match found with
      | (None, w2) => (false, None, w2)
      | (Some i, w2) =>
          let repair :=
            if is_installed te title_id &&
               from_option (fun p => strcmp_eq p game_path) false (read_mount_link te title_id) &&
               from_option (fun l => negb (strcmp_eq l image_path)) true (read_mount_image_link te title_id)
            then Some (title_id, image_path) else None in
          if existsb (fun t => title_of_entry i t && strcmp_eq (cstr (it_title_id t)) title_id) (ix_titles w2)
          then (true, repair, w2)
          else
            match add_title w2 i title_id with
            | Some w3 => (true, repair, w3)
            | None => (false, repair, w2)
            end
      end
  end.

Definition sm_image_index_complete_scan (env : index_env) (w : image_index) (path : string) : image_index :=
  let w1 := load_index env w in
  match find_entry (ix_entries w1) path with
  | None => w1
  | Some i =>
      match ix_entries w1 !! i with
      | None => w1
      | Some e =>
          if ie_complete e =? 0
          then set_tables (<[i := IndexEntry (ie_path e) (ie_size e) (ie_mtime_sec e) (ie_mtime_nsec e) 1
                                    (ie_valid e) (ie_reserved e)]> (ix_entries w1)) (ix_titles w1) true w1
          else w1
      end
  end.

Definition sm_image_index_flush (env : index_env) (w : image_index) : image_index :=
  let '(ready, w1) := refresh_index_context env (load_index env w) in
  if ready then snd (save_index env w1) else w1.

(** One cell of the loop of [sm_image_index_prune]. *)
Definition prune_cell (env : index_env) (w : image_index) (i : nat) : image_index :=
  match ix_entries w !! i with
  | None => w
  | Some e =>
      if entry_live e && match env_stat env (cstr (ie_path e)) with StatNoEnt => true | _ => false end
      then clear_entry i w else w
  end.

Definition sm_image_index_prune (env : index_env) (w : image_index) : image_index :=
  let '(context_ready, w1) := refresh_index_context env (load_index env w) in
  let w2 := foldl (prune_cell env) w1 (seq 0 MAX_IMAGE_MOUNTS) in
  if context_ready then snd (save_index env w2) else w2.

Record sm_image_index_snapshot_entry_t := SnapshotEntry {
  sn_path : string; sn_size : Z; sn_mtime_sec : Z; sn_mtime_nsec : Z; sn_complete : bool;
}.

(** [None] is the [false] return. *)
Definition sm_image_index_snapshot (env : index_env) (calloc_ok : bool) (w : image_index) :
    option (list sm_image_index_snapshot_entry_t) * image_index :=
  let w1 := load_index env w in
  let live := filter (fun e => entry_live e = true) (ix_entries w1) in
  if (0 <? length live)%nat && negb calloc_ok then (None, w1)
  else
    (Some ((fun e => SnapshotEntry (strlcpy (cstr (ie_path e)) MAX_PATH) (ie_size e) (ie_mtime_sec e)
                       (ie_mtime_nsec e) (negb (ie_complete e =? 0))) <$> live), w1).
End build.

(** ** Invariant *)

(** The fields lie in the ranges of their types. *)
Record entry_shape (e : image_index_entry_t) : Prop := {
  es_path : length (ie_path e) = MAX_PATH;
  es_bytes : Forall is_byte (ie_path e);
  es_size : i64 (ie_size e) = ie_size e;
  es_sec : i64 (ie_mtime_sec e) = ie_mtime_sec e;
  es_nsec : i32 (ie_mtime_nsec e) = ie_mtime_nsec e;
  es_complete : is_byte (ie_complete e);
  es_valid : is_byte (ie_valid e);
  es_reserved : length (ie_reserved e) = 2%nat;
  es_reserved_bytes : Forall is_byte (ie_reserved e);
}.

Record title_shape (t : image_index_title_t) : Prop := {
  ts_index : 0 <= it_image_index t < 2 ^ 16;
  ts_valid : is_byte (it_valid t);
  ts_reserved : is_byte (it_reserved t);
  ts_title : length (it_title_id t) = MAX_TITLE_ID;
  ts_bytes : Forall is_byte (it_title_id t);
}.

(** What a live entry and a live title promise. *)
Definition live_entry_ok (e : image_index_entry_t) : Prop :=
  terminated (ie_path e) = true /\ cstr (ie_path e) <> ""%string /\ ie_complete e <= 1.

Definition live_title_ok (es : list image_index_entry_t) (t : image_index_title_t) : Prop :=
  terminated (it_title_id t) = true /\ cstr (it_title_id t) <> ""%string /\
  exists e, es !! Z.to_nat (it_image_index t) = Some e /\ entry_live e = true.

Record tables_ok (es : list image_index_entry_t) (ts : list image_index_title_t) : Prop := {
  to_entries : length es = MAX_IMAGE_MOUNTS;
  to_titles : length ts = MAX_IMAGE_TITLES;
  to_entry : forall i e, es !! i = Some e -> entry_shape e /\ (entry_live e = true -> live_entry_ok e);
  to_title : forall k t, ts !! k = Some t ->
    title_shape t /\ (it_valid t <> 0 -> live_title_ok es t);
}.

Definition index_ok (w : image_index) : Prop := tables_ok (ix_entries w) (ix_titles w).

Lemma replicate_bytes n : Forall is_byte (replicate n 0).
Proof. apply Forall_replicate. unfold is_byte. lia. Qed.

Lemma zero_entry_shape : entry_shape zero_entry.
Proof. split; try done; apply replicate_bytes. Qed.

Lemma zero_title_shape : title_shape zero_title.
Proof. split; try done. apply replicate_bytes. Qed.

Lemma zero_tables_ok :
  tables_ok (replicate MAX_IMAGE_MOUNTS zero_entry) (replicate MAX_IMAGE_TITLES zero_title).
Proof.
  split; [by rewrite length_replicate|by rewrite length_replicate| |].
  - intros i e [-> _]%lookup_replicate. split; [apply zero_entry_shape|done].
  - intros k t [-> _]%lookup_replicate. split; [apply zero_title_shape|done].
Qed.

(** ** Encoding and decoding *)
Lemma le_byte_value b : is_byte b -> le_value [b] = b.
Proof. unfold le_value. simpl. lia. Qed.

Lemma i64_le v : i64 (le_value (le_bytes 8 v)) = i64 v.
Proof. rewrite le_value_bytes. apply signed_wrap. Qed.

Lemma i32_le v : i32 (le_value (le_bytes 4 v)) = i32 v.
Proof. rewrite le_value_bytes. apply signed_wrap. Qed.

Ltac fields := repeat (first [rewrite take_field by (done || apply le_bytes_length) |
                              rewrite drop_field by (done || apply le_bytes_length)]).

Lemma encode_entry_length e : entry_shape e -> length (encode_entry e) = ENTRY_SIZE.
Proof.
  intros H. unfold encode_entry. rewrite !length_app, !le_bytes_length. simpl.
  by rewrite (es_path _ H), (es_reserved _ H).
Qed.

Lemma decode_encode_entry e : entry_shape e -> decode_entry (encode_entry e) = e.
Proof.
  intros [Hp _ Hs Hm Hn Hc Hv Hr _]. unfold decode_entry, encode_entry. cbn zeta. fields.
  rewrite (take_ge (ie_reserved e)) by lia.
  rewrite !i64_le, i32_le, Hs, Hm, Hn, !le_byte_value by done. by destruct e.
Qed.

Lemma encode_title_length t : title_shape t -> length (encode_title t) = TITLE_SIZE.
Proof.
  intros H. unfold encode_title. rewrite !length_app, !le_bytes_length. simpl. by rewrite (ts_title _ H).
Qed.

Lemma decode_encode_title t : title_shape t -> decode_title (encode_title t) = t.
Proof.
  intros [Hi Hv Hr Ht _]. unfold decode_title, encode_title. cbn zeta. fields.
  rewrite (take_ge (it_title_id t)) by lia. rewrite le_value_bytes, !le_byte_value by done.
  rewrite wrap_small by done. by destruct t.
Qed.

(** Stamps the program makes. *)
Record stamp_shape (s : image_index_file_stamp_t) : Prop := {
  ss_inode : 0 <= sp_inode s < 2 ^ 64;
  ss_size : 0 <= sp_size s < 2 ^ 64;
  ss_msec : i64 (sp_mtime_sec s) = sp_mtime_sec s;
  ss_csec : i64 (sp_ctime_sec s) = sp_ctime_sec s;
  ss_mnsec : i32 (sp_mtime_nsec s) = sp_mtime_nsec s;
  ss_cnsec : i32 (sp_ctime_nsec s) = sp_ctime_nsec s;
  ss_present : is_byte (sp_present s);
}.

Definition context_shape (cx : image_index_context_t) : Prop :=
  stamp_shape (cx_config cx) /\ stamp_shape (cx_profiles cx).

Lemma read_file_stamp_shape stat path : stamp_shape (read_file_stamp stat path).2.
Proof.
  unfold read_file_stamp. destruct (stat path) as [st| |]; simpl; [|done|done].
  split; simpl; try (apply wrap_range; lia); try (apply signed_idem; lia). unfold is_byte. lia.
Qed.

Lemma read_index_context_shape stat : context_shape (read_index_context stat).2.
Proof.
  unfold read_index_context. pose proof (read_file_stamp_shape stat CONFIG_FILE).
  pose proof (read_file_stamp_shape stat PROFILES_FILE).
  destruct (read_file_stamp stat CONFIG_FILE), (read_file_stamp stat PROFILES_FILE). done.
Qed.

Lemma encode_stamp_length s : length (encode_stamp s) = 48%nat.
Proof. unfold encode_stamp. rewrite !length_app, !le_bytes_length. done. Qed.

Lemma decode_encode_stamp s : stamp_shape s -> decode_stamp (encode_stamp s) = s.
Proof.
  intros [Hi Hs Hm Hc Hmn Hcn Hp]. unfold decode_stamp, encode_stamp. cbn zeta. fields.
  rewrite !i64_le, !i32_le, Hm, Hc, Hmn, Hcn, !le_value_bytes.
  rewrite !wrap_small by done. by destruct s.
Qed.

Lemma encode_header_length h : length (hd_build_time h) = IMAGE_INDEX_BUILD_TIME_LENGTH ->
  length (encode_header h) = HEADER_SIZE.
Proof.
  intros Hb. unfold encode_header. rewrite !length_app, !le_bytes_length, !encode_stamp_length, Hb. done.
Qed.

Lemma index_header_roundtrip build cx : context_shape cx ->
  decode_header (encode_header (index_header build cx)) = index_header build cx.
Proof.
  intros [Hc Hp]. unfold decode_header, encode_header. cbn zeta.
  assert (Hb : length (hd_build_time (index_header build cx)) = IMAGE_INDEX_BUILD_TIME_LENGTH).
  { unfold index_header, hd_build_time.
    rewrite buf_strlcpy_length; [apply length_replicate|]. rewrite length_replicate.
    unfold IMAGE_INDEX_BUILD_TIME_LENGTH. lia. }
  pose proof (encode_stamp_length (cx_config cx)). pose proof (encode_stamp_length (cx_profiles cx)).
  fields.
  rewrite (take_ge (encode_stamp _)) by (by rewrite encode_stamp_length).
  rewrite !decode_encode_stamp by done. rewrite !le_value_bytes.
  rewrite !wrap_small by (simpl; unfold IMAGE_INDEX_MAGIC, IMAGE_INDEX_VERSION, MAX_IMAGE_MOUNTS, MAX_IMAGE_TITLES; lia).
  by destruct cx.
Qed.

Lemma file_stamp_equals_refl s : file_stamp_equals s s = true.
Proof. unfold file_stamp_equals. by rewrite !Z.eqb_refl. Qed.

Lemma cstr_nonempty buf : (default 0 (buf !! 0%nat) =? 0) = false <-> cstr buf <> ""%string.
Proof.
  unfold cstr. destruct buf as [|b buf]; simpl; [done|].
  destruct (Z.eqb_spec b 0); by split.
Qed.

Lemma title_in_range es ts k t : tables_ok es ts -> ts !! k = Some t -> it_valid t <> 0 ->
  it_image_index t < Z.of_nat MAX_IMAGE_MOUNTS.
Proof.
  intros Hok Hk Hv. destruct (to_title _ _ Hok k t Hk) as [Hs Hl].
  destruct (Hl Hv) as (_ & _ & e & He & _). apply lookup_lt_Some in He.
  rewrite (to_entries _ _ Hok) in He. pose proof (ts_index _ Hs). lia.
Qed.

(** The check of a loaded index accepts exactly the tables the program keeps. *)
Lemma loaded_entry_valid e : loaded_entry_is_valid e = true <-> (entry_live e = true -> live_entry_ok e).
Proof.
  unfold loaded_entry_is_valid, live_entry_ok. rewrite <-cstr_nonempty.
  destruct (entry_live e), (Z.ltb_spec 1 (ie_complete e)), (_ =? 0), (terminated _); simpl; intuition (done || lia).
Qed.

Lemma loaded_title_valid es t : length es = MAX_IMAGE_MOUNTS -> 0 <= it_image_index t ->
  loaded_title_is_valid es t = true <-> (it_valid t <> 0 -> live_title_ok es t).
Proof.
  intros Hlen Hi. unfold loaded_title_is_valid, live_title_ok. rewrite <-cstr_nonempty.
  destruct (Z.eqb_spec (it_valid t) 0); simpl; [intuition done|].
  destruct (Z.leb_spec (Z.of_nat MAX_IMAGE_MOUNTS) (it_image_index t)); simpl.
  - split; [done|]. intros (_ & _ & e & He & _); [done|]. apply lookup_lt_Some in He. lia.
  - destruct (es !! Z.to_nat (it_image_index t)) as [e|] eqn:He; simpl.
    + destruct (entry_live e) eqn:Hv, (_ =? 0), (terminated _); simpl;
        (split; [intros Hx; (done || by intros _; eauto 6)|]);
        intros Hx; destruct (Hx ltac:(done)) as (? & ? & e' & ? & ?); simplify_eq/=; congruence.
    + split; [done|]. intros (_ & _ & e & ? & _); done.
Qed.

Lemma loaded_valid es ts : tables_ok es ts -> loaded_index_is_valid es ts = true.
Proof.
  intros Hok. unfold loaded_index_is_valid. apply andb_true_iff. rewrite !forallb_forall. split.
  - intros e He. apply list_elem_of_In, list_elem_of_lookup in He as [i Hi].
    apply loaded_entry_valid. by apply (to_entry _ _ Hok i).
  - intros t Ht. apply list_elem_of_In, list_elem_of_lookup in Ht as [k Hk].
    destruct (to_title _ _ Hok k t Hk) as [Hs Hl]. apply loaded_title_valid; [apply Hok|apply Hs|done].
Qed.

Lemma valid_loaded es ts : length es = MAX_IMAGE_MOUNTS -> length ts = MAX_IMAGE_TITLES ->
  Forall entry_shape es -> Forall title_shape ts -> loaded_index_is_valid es ts = true -> tables_ok es ts.
Proof.
  intros He Ht Hes Hts Hv. unfold loaded_index_is_valid in Hv. apply andb_true_iff in Hv as [Hv1 Hv2].
  rewrite forallb_forall in Hv1, Hv2. split; [done|done| |].
  - intros i e Hi. split; [by apply (Forall_lookup_1 _ _ _ _ Hes Hi)|].
    apply loaded_entry_valid, Hv1, list_elem_of_In. by eapply list_elem_of_lookup_2.
  - intros k t Hk. pose proof (Forall_lookup_1 _ _ _ _ Hts Hk) as Hs. split; [done|].
    apply loaded_title_valid; [done|apply Hs|]. apply Hv2, list_elem_of_In. by eapply list_elem_of_lookup_2.
Qed.

Lemma byte_value l : Forall is_byte l -> is_byte (le_value (take 1 l)).
Proof.
  intros Hl. destruct Hl as [|b l Hb _]; unfold le_value, is_byte in *; simpl; lia.
Qed.

Lemma decode_entry_shape l : length l = ENTRY_SIZE -> Forall is_byte l -> entry_shape (decode_entry l).
Proof.
  intros Hl Hb. split; cbn -[take drop]; try (apply signed_idem; lia);
    try (apply byte_value; by repeat apply Forall_drop).
  - rewrite length_take. unfold ENTRY_SIZE, MAX_PATH in *. lia.
  - by apply Forall_take.
  - rewrite length_take, !length_drop. unfold ENTRY_SIZE, MAX_PATH in *. lia.
  - apply Forall_take. by repeat apply Forall_drop.
Qed.

Lemma decode_title_shape l : length l = TITLE_SIZE -> Forall is_byte l -> title_shape (decode_title l).
Proof.
  intros Hl Hb. split; cbn -[take drop]; try (apply byte_value; by repeat apply Forall_drop).
  - pose proof (le_value_range (take 2 l)) as Hr. rewrite length_take in Hr.
    replace (2 `min` length l)%nat with 2%nat in Hr by (unfold TITLE_SIZE in Hl; lia).
    apply Hr. by apply Forall_take.
  - rewrite length_take, !length_drop. unfold TITLE_SIZE, MAX_TITLE_ID in *. lia.
  - apply Forall_take. by repeat apply Forall_drop.
Qed.

(** Whatever bytes the file holds, what is loaded is well formed. *)
Lemma read_index_ok build f w es ts : Forall is_byte f -> read_index build f w = Some (es, ts) ->
  tables_ok es ts.
Proof.
  intros Hf. unfold read_index, fread. destruct (_ <=? _)%nat; [|done]. destruct (index_header_invalid_reason _ _ _); [done|].
  destruct (Nat.leb_spec (MAX_IMAGE_MOUNTS * ENTRY_SIZE) (length (drop HEADER_SIZE f))) as [H1|]; [|done].
  set (l2 := drop (MAX_IMAGE_MOUNTS * ENTRY_SIZE) (drop HEADER_SIZE f)).
  destruct (Nat.leb_spec (MAX_IMAGE_TITLES * TITLE_SIZE) (length l2)) as [H2|]; [|done].
  destruct (loaded_index_is_valid _ _) eqn:Hv; [|done]. intros Heq. apply Some_inj in Heq.
  apply pair_equal_spec in Heq as [<- <-].
  apply valid_loaded; try apply decode_array_length; try done.
  - apply decode_array_Forall; [apply decode_entry_shape|by repeat (apply Forall_take || apply Forall_drop)|].
    rewrite length_take. apply Nat.min_glb; [reflexivity|exact H1].
  - apply decode_array_Forall; [apply decode_title_shape|unfold l2; by repeat (apply Forall_take || apply Forall_drop)|].
    rewrite length_take. apply Nat.min_glb; [reflexivity|exact H2].
Qed.

Lemma fread_app n a r : length a = n -> fread n (a ++ r) = Some (a, r).
Proof.
  intros Hl. unfold fread. rewrite take_field, drop_field by done.
  destruct (Nat.leb_spec n (length (a ++ r))) as [|Hlt]; [done|]. rewrite length_app in Hlt. lia.
Qed.

Lemma read_encode_index build w w' : index_ok w -> context_shape (ix_context w) ->
  no_nul build -> (strlen build < IMAGE_INDEX_BUILD_TIME_LENGTH)%nat ->
  ix_context_valid w' = true -> ix_context w' = ix_context w ->
  read_index build (encode_index build w) w' = Some (ix_entries w, ix_titles w).
Proof.
  intros Hok Hcx Hnul Hb Hv Hc. unfold read_index, encode_index.
  rewrite fread_app.
  2: { apply encode_header_length. unfold index_header, hd_build_time.
       rewrite buf_strlcpy_length; [apply length_replicate|]. rewrite length_replicate.
       unfold IMAGE_INDEX_BUILD_TIME_LENGTH. lia. }
  rewrite index_header_roundtrip by done.
  assert (Hr : index_header_invalid_reason build (index_header build (ix_context w)) w' = false).
  { unfold index_header_invalid_reason, index_header; cbn [hd_magic hd_version hd_entry_capacity
      hd_title_capacity hd_build_time hd_context].
    rewrite Hv, Hc, !Z.eqb_refl, !file_stamp_equals_refl, cstr_strlcpy, strcmp_eq_refl
      by (done || by rewrite length_replicate). done. }
  rewrite Hr.
  assert (Hes : Forall entry_shape (ix_entries w)).
  { apply Forall_lookup_2. intros i e He. by apply (to_entry _ _ Hok i e). }
  assert (Hts : Forall title_shape (ix_titles w)).
  { apply Forall_lookup_2. intros i t Ht. by apply (to_title _ _ Hok i t). }
  rewrite fread_app.
  2: { rewrite (encode_array_length ENTRY_SIZE _ entry_shape) by eauto using encode_entry_length.
       by rewrite (to_entries _ _ Hok). }
  rewrite <-(app_nil_r (concat (encode_title <$> ix_titles w))), fread_app.
  2: { rewrite (encode_array_length TITLE_SIZE _ title_shape) by eauto using encode_title_length.
       by rewrite (to_titles _ _ Hok). }
  pose proof (decode_array_encode ENTRY_SIZE decode_entry encode_entry entry_shape (ix_entries w)) as H1.
  pose proof (decode_array_encode TITLE_SIZE decode_title encode_title title_shape (ix_titles w)) as H2.
  rewrite (to_entries _ _ Hok) in H1. rewrite (to_titles _ _ Hok) in H2. cbv zeta.
  rewrite H1; [|intros; split; [by apply encode_entry_length|by apply decode_encode_entry]|exact Hes].
  rewrite H2; [|intros; split; [by apply encode_title_length|by apply decode_encode_title]|exact Hts].
  by rewrite loaded_valid.
Qed.

(** ** Table updates *)
Lemma set_entry_ok es ts i e e' : tables_ok es ts -> es !! i = Some e -> entry_shape e' ->
  (entry_live e' = true -> live_entry_ok e') -> (entry_live e = true -> entry_live e' = true) ->
  tables_ok (<[i := e']> es) ts.
Proof.
  intros Hok Hi Hs Hl Hmono. split; [by rewrite length_insert; apply Hok|apply Hok| |].
  - intros j x [(-> & -> & _)|[_ Hj]]%lookup_insert_cases; [done|]. by apply (to_entry _ _ Hok j).
  - intros k t Hk. destruct (to_title _ _ Hok k t Hk) as [Hts Htl]. split; [done|]. intros Hv.
    destruct (Htl Hv) as (Ht1 & Ht2 & x & Hx & Hxl). split_and!; [done|done|].
    destruct (decide (Z.to_nat (it_image_index t) = i)) as [Heq|Hne].
    + exists e'. rewrite Heq in Hx |- *. rewrite list_lookup_insert_eq by (by eapply lookup_lt_Some).
      simplify_eq. auto.
    + exists x. by rewrite list_lookup_insert_ne.
Qed.

Lemma clear_titles_lookup i ts k t : clear_entry_titles i ts !! k = Some t ->
  t = zero_title \/ (ts !! k = Some t /\ title_of_entry i t = false).
Proof.
  unfold clear_entry_titles. rewrite list_lookup_fmap. destruct (ts !! k) as [t'|]; simpl; [|done].
  intros [= <-]. destruct (title_of_entry i t') eqn:?; auto.
Qed.

Lemma clear_titles_ok es ts i : tables_ok es ts -> tables_ok es (clear_entry_titles i ts).
Proof.
  intros Hok. split; [apply Hok|unfold clear_entry_titles; rewrite length_fmap; apply Hok|apply Hok|].
  intros k t [->|[Hk _]]%clear_titles_lookup; [split; [apply zero_title_shape|done]|].
  by apply (to_title _ _ Hok k).
Qed.

Lemma u16_index (i : nat) : (i < MAX_IMAGE_MOUNTS)%nat -> u16 (Z.of_nat i) = Z.of_nat i.
Proof. intros Hi. apply wrap_small. unfold MAX_IMAGE_MOUNTS in Hi. lia. Qed.

Lemma clear_entry_ok w i : index_ok w -> (i < MAX_IMAGE_MOUNTS)%nat -> index_ok (clear_entry i w).
Proof.
  intros Hok Hi. unfold index_ok, clear_entry, set_tables. simpl.
  pose proof (clear_titles_ok _ _ i Hok) as Hok'.
  split; [by rewrite length_insert; apply Hok|apply Hok'| |].
  - intros j x [(-> & -> & _)|[_ Hj]]%lookup_insert_cases; [split; [apply zero_entry_shape|done]|].
    by apply (to_entry _ _ Hok j).
  - intros k t Hk. destruct (to_title _ _ Hok' k t Hk) as [Hts Htl]. split; [done|]. intros Hv.
    destruct (Htl Hv) as (Ht1 & Ht2 & x & Hx & Hxl). split_and!; [done|done|]. exists x. split; [|done].
    apply clear_titles_lookup in Hk as [->|[_ Hne]]; [done|].
    rewrite list_lookup_insert_ne; [done|]. intros ->. unfold title_of_entry in Hne.
    pose proof (ts_index _ Hts). rewrite u16_index in Hne by done. apply andb_false_iff in Hne as [Hne|Hne].
    + apply negb_false_iff, Z.eqb_eq in Hne. done.
    + apply Z.eqb_neq in Hne. lia.
Qed.

Lemma find_entry_sound es path i : find_entry es path = Some i ->
  exists e, es !! i = Some e /\ entry_live e = true /\ cstr (ie_path e) = path.
Proof.
  intros (e & He & Hp)%find_index_hit. bool_hyps. exists e. by rewrite <-strcmp_eq_true.
Qed.

(** An argument that is a non-empty C string. *)
Definition path_arg (s : string) : Prop := no_nul s /\ s <> ""%string.

(** The entry that [reserve_entry] hands out for [path]. *)
Definition reserved_for (path : string) (e : image_index_entry_t) : Prop :=
  entry_shape e /\ entry_live e = true /\ terminated (ie_path e) = true /\ cstr (ie_path e) <> ""%string /\
  ((strlen path < MAX_PATH)%nat -> cstr (ie_path e) = path).

Lemma reserve_entry_spec w path i w' : index_ok w -> path_arg path ->
  reserve_entry w path = (Some i, w') ->
  exists e0 e, ix_entries w !! i = Some e0 /\ reserved_for path e /\
    w' = set_tables (<[i := e]> (ix_entries w)) (ix_titles w) (ix_dirty w) w /\
    (forall j x, (j < i)%nat -> ix_entries w !! j = Some x ->
       entry_live x && strcmp_eq (cstr (ie_path x)) path = false).
Proof.
  intros Hok [Hnul Hne]. unfold reserve_entry. destruct (find_entry (ix_entries w) path) as [k|] eqn:Hf.
  - intros [= <- <-]. destruct (find_entry_sound _ _ _ Hf) as (e & He & Hl & Hp).
    destruct (to_entry _ _ Hok k e He) as [Hs Hlo]. destruct (Hlo Hl) as (Ht & Hc & _).
    exists e, e. split_and!; [done|by split_and!| |].
    + rewrite list_insert_id by done. by destruct w.
    + by apply find_index_Some in Hf as (_ & _ & _ & Hmin).
  - destruct (find_index _ (ix_entries w)) as [k|] eqn:Hfree; [|done].
    destruct (find_index_hit _ _ _ Hfree) as (e & He & _). rewrite (list_alter_insert _ _ _ _ He).
    intros [= <- <-]. destruct (to_entry _ _ Hok k e He) as [Hs _]. pose proof (es_path _ Hs) as Hlen.
    exists e. eexists. split_and!; [done| |done|].
    + assert (1 < length (ie_path e))%nat by (rewrite Hlen; unfold MAX_PATH; lia).
      split_and!; simpl; [|done|apply buf_strlcpy_terminated|by apply cstr_strlcpy_nonempty|].
      * destruct Hs. split; simpl; try done; [|by apply buf_strlcpy_bytes].
        rewrite buf_strlcpy_length by lia. done.
      * intros Hlt. apply cstr_strlcpy; [done|by rewrite Hlen].
    + intros j x _ Hx. by apply (proj1 (find_index_None _ _) Hf j).
Qed.

(** [begin_scan_locked]: the table is full, or the entry of [path] carries the
    stamp, is incomplete and has no titles. *)
Definition scan_begun (path : string) (st : index_stat) (w w' : image_index) (i : nat) : Prop :=
  exists e0 e, ix_entries w !! i = Some e0 /\ reserved_for path e /\ ie_complete e = 0 /\
    stamp_matches e st = true /\
    w' = set_tables (<[i := e]> (ix_entries w)) (clear_entry_titles i (ix_titles w)) true w /\
    ((strlen path < MAX_PATH)%nat -> find_entry (ix_entries w') path = Some i).

Lemma begin_scan_spec w path st : index_ok w -> path_arg path ->
  index_ok (begin_scan_locked w path st) /\
  ((reserve_entry w path).1 = None /\ begin_scan_locked w path st = w \/
   exists i, scan_begun path st w (begin_scan_locked w path st) i).
Proof.
  intros Hok Harg. unfold begin_scan_locked. destruct (reserve_entry w path) as [[i|] w1] eqn:Hr.
  2: { assert (w1 = w) as ->; [|by split; [|left]]. unfold reserve_entry in Hr.
       destruct (find_entry _ _); [done|]. destruct (find_index _ _); [done|]. by injection Hr. }
  destruct (reserve_entry_spec w path i w1 Hok Harg Hr) as (e0 & e & He0 & Hres & -> & Hmin).
  pose proof (lookup_lt_Some _ _ _ He0) as Hlt.
  set (w1 := set_tables (<[i := e]> (ix_entries w)) (ix_titles w) (ix_dirty w) w).
  assert (set_tables (alter (stamp_entry st) i (ix_entries w1)) (clear_entry_titles i (ix_titles w1)) true w1 =
    set_tables (<[i := stamp_entry st e]> (ix_entries w)) (clear_entry_titles i (ix_titles w)) true w) as ->.
  { unfold w1, set_tables; cbn [ix_entries ix_titles ix_loaded ix_context ix_context_valid ix_file].
    rewrite (list_alter_insert (<[i:=e]> (ix_entries w)) i e) by by apply list_lookup_insert_eq.
    by rewrite list_insert_insert_eq. }
  clear Hr. destruct Hres as (Hs & Hl & Ht & Hc & Hp).
  assert (Hres' : reserved_for path (stamp_entry st e)).
  { split_and!; try done. destruct Hs. split; simpl; try done; apply signed_idem; lia. }
  split.
  - apply clear_titles_ok. eapply set_entry_ok; [done|done|apply Hres'|intros _|done].
    by split_and!.
  - right. exists i, e0, (stamp_entry st e). split_and!; try done.
    + unfold stamp_matches. simpl. by rewrite !Z.eqb_refl.
    + intros Hfit. apply find_index_Some. exists (stamp_entry st e). split_and!.
      * by apply list_lookup_insert_eq.
      * change (true && strcmp_eq (cstr (ie_path e)) path = true).
        rewrite Hp by done. apply strcmp_eq_refl.
      * intros j y Hj. cbn [ix_entries set_tables]. rewrite list_lookup_insert_ne by lia.
        by apply Hmin.
Qed.

Lemma add_title_spec w i title w' e : index_ok w -> ix_entries w !! i = Some e -> entry_live e = true ->
  path_arg title -> add_title w i title = Some w' ->
  index_ok w' /\ exists k t0 t, ix_titles w !! k = Some t0 /\ it_valid t0 = 0 /\
    title_of_entry i t = true /\ ((strlen title < MAX_TITLE_ID)%nat -> cstr (it_title_id t) = title) /\
    w' = set_tables (ix_entries w) (<[k := t]> (ix_titles w)) true w.
Proof.
  intros Hok He Hl [Hnul Hne]. unfold add_title. destruct (find_index _ _) as [k|] eqn:Hf; [|done].
  destruct (find_index_hit _ _ _ Hf) as (t0 & Ht0 & Hv0). apply Z.eqb_eq in Hv0.
  rewrite (list_alter_insert _ _ _ _ Ht0). set (t := IndexTitle _ _ _ _). intros [= <-].
  destruct (to_title _ _ Hok k t0 Ht0) as [Hs _]. pose proof (ts_title _ Hs) as Hlen.
  pose proof (lookup_lt_Some _ _ _ He) as Hi. rewrite (to_entries _ _ Hok) in Hi.
  assert (H1 : (1 < length (it_title_id t0))%nat) by (rewrite Hlen; unfold MAX_TITLE_ID; lia).
  split.
  - split; [apply Hok|simpl; rewrite length_insert; apply Hok|apply Hok|].
    intros j x [(-> & -> & _)|[_ Hj]]%lookup_insert_cases; [|by apply (to_title _ _ Hok j)].
    split; [|intros _; split_and!].
    + destruct Hs. split; simpl; try done; [apply wrap_range; lia| |by apply buf_strlcpy_bytes].
      rewrite buf_strlcpy_length by lia. done.
    + apply buf_strlcpy_terminated.
    + by apply cstr_strlcpy_nonempty.
    + exists e. simpl. rewrite u16_index, Nat2Z.id by done. done.
  - exists k, t0, t. split_and!; try done.
    + unfold title_of_entry. simpl. by rewrite Z.eqb_refl.
    + intros Hfit. apply cstr_strlcpy; [done|by rewrite Hlen].
Qed.

(** ** Every operation keeps the invariant *)
Record world_ok (w : image_index) : Prop := {
  wo_tables : index_ok w;
  wo_context : context_shape (ix_context w);
  wo_file : forall f, ix_file w = Some f -> Forall is_byte f;
}.

Lemma fresh_ok f : (forall l, f = Some l -> Forall is_byte l) -> world_ok (fresh_index f).
Proof. intros Hf. by split; [apply zero_tables_ok| |]. Qed.

Lemma set_tables_ok w es ts d : world_ok w -> tables_ok es ts -> world_ok (set_tables es ts d w).
Proof. intros [_ Hc Hf] Hok. by split. Qed.

Lemma discard_ok env w : world_ok w -> world_ok (discard_index env w).
Proof.
  intros [_ Hc Hf]. split; [apply zero_tables_ok|done|]. unfold discard_index. simpl.
  by destruct (env_unlink env).
Qed.

Lemma encode_index_bytes build w : index_ok w -> Forall is_byte (encode_index build w).
Proof.
  intros Hok. unfold encode_index.
  assert (Hst : forall s, Forall is_byte (encode_stamp s)).
  { intros s. unfold encode_stamp. repeat (apply Forall_app_2; [apply le_bytes_bytes|]). apply replicate_bytes. }
  apply Forall_app_2; [|apply Forall_app_2].
  - unfold encode_header. repeat (apply Forall_app_2; [apply le_bytes_bytes|]).
    apply Forall_app_2; [apply buf_strlcpy_bytes, replicate_bytes|]. by apply Forall_app_2.
  - apply Forall_concat, Forall_fmap, Forall_lookup_2. intros i e He.
    destruct (to_entry _ _ Hok i e He) as [[] _]. unfold compose, encode_entry.
    apply Forall_app_2; [done|]. repeat (apply Forall_app_2; [apply le_bytes_bytes|]).
    by repeat (apply Forall_cons_2; [done|]).
  - apply Forall_concat, Forall_fmap, Forall_lookup_2. intros k t Ht.
    destruct (to_title _ _ Hok k t Ht) as [[] _]. unfold compose, encode_title.
    apply Forall_app_2; [apply le_bytes_bytes|]. by repeat (apply Forall_cons_2; [done|]).
Qed.

Section ops.
Context (build : string).

Lemma load_ok env w : world_ok w -> world_ok (load_index build env w).
Proof.
  intros Hw. unfold load_index. destruct (ix_loaded w); [done|].
  pose proof (read_index_context_shape (env_stat env)) as Hc.
  destruct (read_index_context (env_stat env)) as [valid cx]. simpl in Hc.
  set (w1 := ImageIndex _ _ _ _ _ _ _).
  assert (Hw1 : world_ok w1) by (destruct Hw; by split).
  destruct (ix_file w1) as [f|] eqn:Hf; [|done]. destruct (negb _); [done|].
  destruct (read_index build f w1) as [[es ts]|] eqn:Hr; [|by apply discard_ok].
  apply set_tables_ok; [done|]. eapply read_index_ok; [|done]. by apply (wo_file _ Hw1).
Qed.

Lemma begin_ok w path st : world_ok w -> path_arg path -> world_ok (begin_scan_locked w path st).
Proof.
  intros Hw Harg. destruct (begin_scan_spec w path st (wo_tables _ Hw) Harg) as [Hok [[_ Heq]|(i & Hb)]].
  - by rewrite Heq.
  - destruct Hb as (e0 & e & _ & _ & _ & _ & Heq & _). rewrite Heq in Hok |- *. by apply set_tables_ok.
Qed.

Lemma refresh_ok env w : world_ok w -> world_ok (refresh_index_context env w).2.
Proof.
  intros Hw. unfold refresh_index_context.
  pose proof (read_index_context_shape (env_stat env)) as Hc.
  destruct (read_index_context (env_stat env)) as [ready cx]. simpl in Hc.
  pose proof (discard_ok env w Hw) as [Hd1 Hd2 Hd3].
  destruct (negb ready); [by split|]. destruct (_ && _); [done|]. by split.
Qed.

Lemma save_ok env w : world_ok w -> world_ok (save_index build env w).2.
Proof.
  intros Hw. unfold save_index. destruct (negb (ix_dirty w)); [done|].
  destruct (env_save env); [done..|]. destruct Hw as [Ht Hc Hf]. split; [done|done|].
  intros f [= <-]. by apply encode_index_bytes.
Qed.

Lemma complete_ok env w path : world_ok w -> world_ok (sm_image_index_complete_scan build env w path).
Proof.
  intros Hw. unfold sm_image_index_complete_scan. pose proof (load_ok env w Hw) as Hw1.
  set (w1 := load_index build env w) in *. destruct (find_entry (ix_entries w1) path) as [i|]; [|done].
  destruct (ix_entries w1 !! i) as [e|] eqn:He; [|done]. destruct (ie_complete e =? 0); [|done].
  apply set_tables_ok; [done|]. destruct (to_entry _ _ (wo_tables _ Hw1) i e He) as [Hs Hl].
  eapply set_entry_ok; [apply Hw1|done| | |done].
  - destruct Hs. split; simpl; try done.
  - intros Hlive. destruct (Hl Hlive) as (? & ? & _). by split_and!.
Qed.

Lemma prune_cells_ok env l w : world_ok w -> Forall (fun i => (i < MAX_IMAGE_MOUNTS)%nat) l ->
  world_ok (foldl (prune_cell env) w l).
Proof.
  intros Hw Hl. revert w Hw. induction Hl as [|i l Hi _ IH]; intros w Hw; simpl; [done|]. apply IH.
  unfold prune_cell. destruct (ix_entries w !! i) as [e|]; [|done]. destruct (_ && _); [|done].
  apply set_tables_ok; [done|]. by apply (clear_entry_ok w i); [apply Hw|].
Qed.

Lemma flush_ok env w : world_ok w -> world_ok (sm_image_index_flush build env w).
Proof.
  intros Hw. unfold sm_image_index_flush. pose proof (refresh_ok env _ (load_ok env w Hw)) as Hr.
  destruct (refresh_index_context _ _) as [[] w1]; [by apply save_ok|done].
Qed.

Lemma prune_ok env w : world_ok w -> world_ok (sm_image_index_prune build env w).
Proof.
  intros Hw. unfold sm_image_index_prune. pose proof (refresh_ok env _ (load_ok env w Hw)) as Hr.
  destruct (refresh_index_context _ _) as [ready w1]. simpl in Hr.
  pose proof (prune_cells_ok env (seq 0 MAX_IMAGE_MOUNTS) w1 Hr) as Hp.
  destruct ready; [apply save_ok|]; apply Hp; apply Forall_seq; lia.
Qed.

(** The entry a game is recorded under. *)
Lemma record_ok env te cache w game title : world_ok w -> path_arg title ->
  (forall p, resolve_outermost_image_source_from_mount_cache cache game MAX_PATH = Some p -> path_arg p) ->
  world_ok (sm_image_index_record_game build env te cache w game title).2.
Proof.
  intros Hw Ht Hp. unfold sm_image_index_record_game. pose proof (load_ok env w Hw) as Hw1.
  set (w1 := load_index build env w) in *.
  destruct (resolve_outermost_image_source_from_mount_cache _ _ _) as [p|]; [|done].
  set (found := match find_entry _ _ with Some _ => _ | None => _ end).
  assert (Hfound : world_ok found.2 /\
    forall i, found.1 = Some i -> find_entry (ix_entries found.2) p = Some i).
  { unfold found. destruct (find_entry (ix_entries w1) p) eqn:Hf; [by split; [|intros ? [= <-]]|].
    destruct (env_stat env p) as [st| |]; [|done|done]. simpl. split; [|done].
    apply begin_ok; [done|by apply Hp]. }
  destruct found as [[i|] w2]; simpl in Hfound; destruct Hfound as [Hw2 Hfe]; [|done].
  destruct (existsb _ _); [done|]. destruct (add_title w2 i title) as [w3|] eqn:Ha; [|done]. simpl.
  destruct (find_entry_sound _ _ _ (Hfe i eq_refl)) as (e & He & Hl & _).
  destruct (add_title_spec w2 i title w3 e (wo_tables _ Hw2) He Hl Ht Ha) as (Hok & k & t0 & t & _ & _ & _ & _ & ->).
  by apply set_tables_ok.
Qed.
End ops.

(** ** Histories *)
Inductive index_op :=
  | XSourceHas (path title : string)
  | XVisit (te : title_env) (calloc_ok : bool) (path : string) (st : index_stat) (db_ready : bool)
  | XHasSource (path_exists : string -> bool) (title : string)
  | XBegin (path : string) (st : index_stat)
  | XRecord (te : title_env) (cache : image_cache) (game title : string)
  | XComplete (path : string)
  | XFlush
  | XPrune
  | XSnapshot (calloc_ok : bool)
  | XRestart                        (** a new process *)
  | XReplaceFile (f : list Z).      (** someone else writes the file *)

Definition run_index_op (build : string) (env : index_env) (op : index_op) (w : image_index) :
    option image_index :=
  match op with
  | XSourceHas path title => Some (sm_image_index_source_has_title build env w path title).2
  | XVisit te ok path st rdy => Some (sm_image_index_visit_ready_titles build env te ok w path st rdy).2
  | XHasSource ex title => snd <$> sm_image_index_has_source_for_title build env ex w title
  | XBegin path st => Some (sm_image_index_begin_scan build env w path st)
  | XRecord te cache game title => Some (sm_image_index_record_game build env te cache w game title).2
  | XComplete path => Some (sm_image_index_complete_scan build env w path)
  | XFlush => Some (sm_image_index_flush build env w)
  | XPrune => Some (sm_image_index_prune build env w)
  | XSnapshot ok => Some (sm_image_index_snapshot build env ok w).2
  | XRestart => Some (fresh_index (ix_file w))
  | XReplaceFile f => Some (set_file (Some f) w)
  end.

(** What callers promise. *)
Definition op_args_ok (op : index_op) : Prop :=
  match op with
  | XBegin path _ => path_arg path
  | XRecord _ cache game title => path_arg title /\
      forall p, resolve_outermost_image_source_from_mount_cache cache game MAX_PATH = Some p -> path_arg p
  | XReplaceFile f => Forall is_byte f
  | _ => True
  end.

Fixpoint run_index_ops (build : string) (ops : list (index_env * index_op)) (w : image_index) :
    option image_index :=
  match ops with
  | [] => Some w
  | (env, op) :: ops' =>
      match run_index_op build env op w with Some w' => run_index_ops build ops' w' | None => None end
  end.

Lemma visit_world build env te ok w path st rdy :
  (sm_image_index_visit_ready_titles build env te ok w path st rdy).2 = load_index build env w.
Proof.
  unfold sm_image_index_visit_ready_titles. destruct (find_entry _ _) as [i|]; [|done].
  destruct (ix_entries _ !! i) as [e|]; [|done]. destruct (_ && cached_titles_ready _ _ _ _ _); [|done].
  by destruct (_ && negb ok).
Qed.

Lemma run_index_op_ok build env op w : world_ok w -> op_args_ok op ->
  exists w', run_index_op build env op w = Some w' /\ world_ok w'.
Proof.
  intros Hw Hop. pose proof (load_ok build env w Hw) as Hl. destruct op; simpl in *.
  - eexists. split; [done|]. unfold sm_image_index_source_has_title. by destruct (_ || _).
  - eexists. split; [done|]. by rewrite visit_world.
  - unfold sm_image_index_has_source_for_title. destruct (strcmp_eq title ""); [by eexists|].
    destruct (find_index _ _) as [k|] eqn:Hf; [|by eexists].
    destruct (find_index_hit _ _ _ Hf) as (t & Ht & Hv). rewrite Ht. bool_hyps.
    match goal with H : (_ =? 0) = false |- _ => apply Z.eqb_neq in H; rename H into Hv end.
    destruct (proj2 (to_title _ _ (wo_tables _ Hl) k t Ht) Hv) as (_ & _ & e & -> & _). by eexists.
  - eexists. split; [done|]. by apply begin_ok.
  - eexists. split; [done|]. destruct Hop. by apply record_ok.
  - eexists. split; [done|]. by apply complete_ok.
  - eexists. split; [done|]. by apply flush_ok.
  - eexists. split; [done|]. by apply prune_ok.
  - eexists. split; [done|]. unfold sm_image_index_snapshot. by destruct (_ && negb _).
  - eexists. split; [done|]. split; [apply zero_tables_ok|done|apply Hw].
  - eexists. split; [done|]. destruct Hw. split; [done|done|]. by intros ? [= <-].
Qed.

(** ** One scan of an image *)
Definition title_recorded (w : image_index) (i : nat) (title : string) : Prop :=
  exists k t, ix_titles w !! k = Some t /\ title_of_entry i t = true /\ cstr (it_title_id t) = title.

Lemma entry_titles_elem w i title : title ∈ entry_titles i (ix_titles w) <-> title_recorded w i title.
Proof.
  unfold entry_titles, title_recorded. rewrite list_elem_of_fmap. split.
  - intros (t & -> & [Ht Hin]%list_elem_of_filter). apply list_elem_of_lookup in Hin as [k Hk]. eauto.
  - intros (k & t & Hk & Ht & <-). exists t. split; [done|]. apply list_elem_of_filter.
    split; [done|]. by eapply list_elem_of_lookup_2.
Qed.

(** The index between [begin_scan] and [complete_scan] of [path], with the
    titles [done] recorded so far ([complete]: after [complete_scan]). *)
Record scanning (path : string) (st : index_stat) (i : nat) (complete : Z) (recorded : string -> Prop)
    (w : image_index) : Prop := {
  sc_world : world_ok w;
  sc_loaded : ix_loaded w = true;
  sc_find : find_entry (ix_entries w) path = Some i;
  sc_entry : exists e, ix_entries w !! i = Some e /\ ie_complete e = complete /\ stamp_matches e st = true /\
    cstr (ie_path e) = path;
  sc_titles : forall t, title_recorded w i t <-> recorded t;
}.

Section scan.
Context (build path : string) (st : index_stat).
Hypothesis Hpath : path_arg path.
Hypothesis Hfits : (strlen path < MAX_PATH)%nat.

Lemma load_loaded env w : ix_loaded w = true -> load_index build env w = w.
Proof. intros Hl. unfold load_index. by rewrite Hl. Qed.

(** The index has room for [path]: a free entry, or the entry of [path]. *)
Definition has_room (w : image_index) : Prop :=
  exists j e, ix_entries w !! j = Some e /\ (entry_live e = false \/ cstr (ie_path e) = path).

Lemma reserve_room w : has_room w -> (reserve_entry w path).1 <> None.
Proof.
  intros (j & e & He & Hr). unfold reserve_entry. destruct (find_entry (ix_entries w) path) eqn:Hf; [done|].
  unfold find_entry in Hf. rewrite find_index_None in Hf. specialize (Hf j e He).
  destruct (entry_live e) eqn:Hl.
  - destruct Hr as [|Hr]; [done|]. by rewrite Hr, strcmp_eq_refl in Hf.
  - destruct (find_index_is_Some (fun e => negb (entry_live e)) _ j e He) as [k ->]; [by rewrite Hl|]. done.
Qed.

Lemma begin_scanning env w : world_ok w -> ix_loaded w = true -> has_room w ->
  exists i, scanning path st i 0 (fun _ => False) (sm_image_index_begin_scan build env w path st).
Proof.
  intros Hw Hl Hroom. unfold sm_image_index_begin_scan. rewrite load_loaded by done.
  destruct (begin_scan_spec w path st (wo_tables _ Hw) Hpath) as [_ [[Hr _]|(i & Hb)]];
    [by apply reserve_room in Hroom|].
  pose proof (begin_ok w path st Hw Hpath) as Hw'.
  destruct Hb as (e0 & e & He0 & Hres & Hc & Hst & Heq & Hfind). specialize (Hfind Hfits).
  destruct Hres as (_ & _ & _ & _ & Hp). exists i.
  split; [done|by rewrite Heq|done| |].
  - exists e. rewrite Heq at 1. simpl. split_and!; [|done|done|by apply Hp].
    apply list_lookup_insert_eq. by eapply lookup_lt_Some.
  - intros t. split; [|done]. rewrite Heq. intros (k & x & Hk & Hx & _). simpl in Hk.
    apply clear_titles_lookup in Hk as [->|[_ Hno]]; [done|]. congruence.
Qed.

Lemma record_scanning env te cache game title i rec w ok link w' :
  scanning path st i 0 rec w -> path_arg title -> (strlen title < MAX_TITLE_ID)%nat ->
  resolve_outermost_image_source_from_mount_cache cache game MAX_PATH = Some path ->
  sm_image_index_record_game build env te cache w game title = (ok, link, w') -> ok = true ->
  scanning path st i 0 (fun t => t = title \/ rec t) w'.
Proof.
  intros [Hw Hl Hf Hent Htit] Ht Hlen Hres Hrec ->.
  pose proof (record_ok build env te cache w game title Hw Ht) as Hok. rewrite Hres, Hrec in Hok.
  specialize (Hok ltac:(by intros ? [= <-])). simpl in Hok. revert Hrec.
  unfold sm_image_index_record_game. rewrite load_loaded, Hres, Hf by done.
  destruct (existsb _ _) eqn:Hex.
  - intros [= _ <-]. split; try done. intros t. rewrite Htit. split; [tauto|]. intros [->|?]; [|done].
    apply existsb_exists in Hex as (x & Hx%list_elem_of_In & Hb). bool_hyps.
    apply list_elem_of_lookup in Hx as [k Hk]. apply Htit. exists k, x. split_and!; try done.
    by apply strcmp_eq_true.
  - destruct (add_title w i title) as [w3|] eqn:Ha; [|done]. intros [= _ <-].
    destruct (find_entry_sound _ _ _ Hf) as (e & He & Hlive & _).
    destruct (add_title_spec w i title w3 e (wo_tables _ Hw) He Hlive Ht Ha)
      as (_ & k & t0 & x & Hk & Hdead & Hx & Hxt & ->). specialize (Hxt Hlen).
    split; try done. intros t. rewrite <-Htit. unfold title_recorded. simpl. split.
    + intros (j & y & [(-> & -> & _)|[Hne Hj]]%lookup_insert_cases & Hy & Hyt); [left; congruence|].
      right. eauto.
    + intros [->|(j & y & Hj & Hy & Hyt)].
      * exists k, x. rewrite list_lookup_insert_eq by (by eapply lookup_lt_Some). done.
      * exists j, y. rewrite list_lookup_insert_ne; [done|]. intros ->. simplify_eq.
        unfold title_of_entry in Hy. by rewrite Hdead in Hy.
Qed.

Lemma complete_scanning env i rec w : scanning path st i 0 rec w ->
  scanning path st i 1 rec (sm_image_index_complete_scan build env w path).
Proof.
  intros [Hw Hl Hf (e & He & Hc & Hst & Hp) Htit].
  pose proof (complete_ok build env w path Hw) as Hw'. revert Hw'.
  unfold sm_image_index_complete_scan. rewrite load_loaded, Hf, He, Hc by done. cbn [Z.eqb].
  set (e' := IndexEntry _ _ _ _ _ _ _). intros Hw'. split; try done; simpl.
  - apply find_index_Some in Hf as (x & Hx & Hpx & Hmin). simplify_eq. apply find_index_Some.
    exists e'. rewrite list_lookup_insert_eq by (by eapply lookup_lt_Some). split_and!; [done|done|].
    intros j y Hj. rewrite list_lookup_insert_ne by lia. by apply Hmin.
  - exists e'. rewrite list_lookup_insert_eq by (by eapply lookup_lt_Some). done.
Qed.
(** Recording a list of games (the caches at those moments, the games' paths and
    title ids): did every call succeed, and the index after them. *)
Fixpoint record_games (env : index_env) (te : title_env) (games : list (image_cache * string * string))
    (w : image_index) : bool * image_index :=
  match games with
  | [] => (true, w)
  | (cache, game, title) :: games' =>
      let '(ok, _, w') := sm_image_index_record_game build env te cache w game title in
      let '(oks, w'') := record_games env te games' w' in
      (ok && oks, w'')
  end.

Definition game_of_scan (g : image_cache * string * string) : Prop :=
  resolve_outermost_image_source_from_mount_cache g.1.1 g.1.2 MAX_PATH = Some path /\
  path_arg g.2 /\ (strlen g.2 < MAX_TITLE_ID)%nat.

Lemma record_games_scanning env te games i rec w w' : scanning path st i 0 rec w ->
  Forall game_of_scan games -> record_games env te games w = (true, w') ->
  scanning path st i 0 (fun t => rec t \/ t ∈ games.*2) w'.
Proof.
  intros Hs Hg. revert rec w Hs. induction Hg as [|[[cache game] title] games (Hr & Ht & Hlen) _ IH];
    intros rec w Hs; simpl.
  - intros [= <-]. destruct Hs as [? ? ? ? Htit]. split; try done. intros t. rewrite Htit, elem_of_nil. tauto.
  - destruct (sm_image_index_record_game build env te cache w game title) as [[ok link] w1] eqn:Hrec.
    destruct (record_games env te games w1) as [oks w2] eqn:Hgs. intros [= Hoks ->].
    apply andb_true_iff in Hoks as [-> ->].
    pose proof (record_scanning env te cache game title i rec w true link w1 Hs Ht Hlen Hr Hrec eq_refl) as Hs1.
    destruct (IH _ _ Hs1 Hgs) as [? ? ? ? Htit]. split; try done.
    intros t. rewrite Htit, elem_of_cons. tauto.
Qed.

(** What the rest of the program must say of a title for the image to be reused. *)
Definition title_ready (te : title_env) (db_ready : bool) (title : string) : Prop :=
  (db_ready = true -> app_db_title_list_contains te title = true) /\ is_installed te title = true /\
  has_appmeta_data te title = true /\
  (exists p, read_mount_link te title = Some p /\ is_under_image_mount_base p = true).

Lemma cached_title_ready_true env te db_ready w image title :
  cached_title_ready env te db_ready w image title = true ->
  title_ready te db_ready title /\ exists l, read_mount_image_link te title = Some l.
Proof.
  unfold cached_title_ready, title_ready. destruct (_ || _ || _) eqn:Hb; [done|].
  apply orb_false_iff in Hb as [Hb H3]. apply orb_false_iff in Hb as [H1 H2].
  apply negb_false_iff in H2, H3. destruct (read_mount_link te title) as [p|]; [|done].
  intros Hc. apply andb_true_iff in Hc as [Hp Hl]. destruct (read_mount_image_link te title); [|done].
  split; [|eauto]. split_and!; try done; [|eauto]. intros ->. simpl in H1. by apply negb_false_iff in H1.
Qed.

Lemma visit_scanning env te calloc_ok i complete rec w st' db_ready : scanning path st i complete rec w ->
  (forall t, rec t -> (strlen t < MAX_TITLE_ID)%nat) ->
  let '(ready, visited, _) :=
    sm_image_index_visit_ready_titles build env te calloc_ok w path st' db_ready in
  (ready = false -> visited = []) /\
  (ready = true -> complete <> 0 /\
     (i64 (xs_size st'), i64 (xs_mtime_sec st'), i32 (xs_mtime_nsec st')) =
     (i64 (xs_size st), i64 (xs_mtime_sec st), i32 (xs_mtime_nsec st)) /\
     (forall t, t ∈ visited <-> rec t) /\ forall t, t ∈ visited -> title_ready te db_ready t).
Proof.
  intros [Hw Hl Hf (e & He & Hc & Hst & Hp) Htit] Hshort.
  unfold sm_image_index_visit_ready_titles. rewrite load_loaded, Hf, He by done.
  destruct (negb (ie_complete e =? 0) && stamp_matches e st' && cached_titles_ready _ _ _ _ _) eqn:Hr; [|done].
  apply andb_true_iff in Hr as [Hr Hct]. apply andb_true_iff in Hr as [Hcomp Hst'].
  assert (Hin : forall t, t ∈ (fun t => strlcpy t MAX_TITLE_ID) <$> entry_titles i (ix_titles w) <-> rec t).
  { intros t. rewrite list_elem_of_fmap. setoid_rewrite entry_titles_elem. setoid_rewrite Htit.
    split.
    - intros (x & -> & Hx). by rewrite strlcpy_fits by auto.
    - intros Hx. exists t. by rewrite strlcpy_fits by auto. }
  destruct (_ && negb calloc_ok); [done|]. split; [done|]. intros _.
  apply negb_true_iff, Z.eqb_neq in Hcomp. unfold stamp_matches in Hst, Hst'.
  rewrite !andb_true_iff, !Z.eqb_eq in Hst, Hst'. split_and!; [congruence|intuition congruence|apply Hin|].
  intros t Ht%Hin. apply Htit, entry_titles_elem in Ht. unfold cached_titles_ready in Hct.
  rewrite forallb_forall in Hct. by apply list_elem_of_In, Hct, cached_title_ready_true in Ht as [? _].
Qed.

Lemma visit_scanning_ready env te i rec w db_ready : scanning path st i 1 rec w ->
  (forall t, rec t -> title_ready te db_ready t /\ read_mount_image_link te t = Some path) ->
  (sm_image_index_visit_ready_titles build env te true w path st db_ready).1.1 = true.
Proof.
  intros [Hw Hl Hf (e & He & Hc & Hst & Hp) Htit] Hready.
  unfold sm_image_index_visit_ready_titles. rewrite load_loaded, Hf, He by done. rewrite Hc, Hst. simpl.
  assert (cached_titles_ready env te db_ready w i = true) as ->.
  { apply forallb_forall. intros t Ht%list_elem_of_In%entry_titles_elem%Htit.
    destruct (Hready t Ht) as [(Hdb & Hin & Hmeta & p & Hlp & Hu) Him].
    unfold cached_title_ready. rewrite Hin, Hmeta, Hlp, Him, Hu, He. simpl. rewrite Hp, strcmp_eq_refl.
    destruct db_ready; [|done]. by rewrite Hdb. }
  by rewrite andb_false_r.
Qed.
End scan.

(** * Theorems *)

(** the index stays well formed through any history of its operations,
    process restarts and foreign writes of the index file included, whatever
    bytes the file holds and whatever the file system answers: no table access
    is out of range, every live entry has a terminated non-empty path and a
    boolean completion flag, and every live title has a terminated non-empty id
    and belongs to a live entry. *)
Theorem image_index_invariant build ops f : Forall is_byte f ->
  Forall (fun o => op_args_ok o.2) ops ->
  exists w, run_index_ops build ops (fresh_index (Some f)) = Some w /\
    tables_ok (ix_entries w) (ix_titles w).
Proof.
  intros Hf Hops.
  assert (Hw : world_ok (fresh_index (Some f))) by (apply fresh_ok; by intros ? [= <-]).
  revert Hw. generalize (fresh_index (Some f)) as w.
  induction Hops as [|[env op] ops Hop _ IH]; intros w Hw; simpl; [exists w; split; [done|apply Hw]|].
  destruct (run_index_op_ok build env op w Hw Hop) as (w' & -> & Hw'). by apply IH.
Qed.

(** A console where the configuration files exist and every image is 7 bytes. *)
Definition demo_env : index_env :=
  IndexEnv (fun _ => StatIs (IndexStat true 5 7 100 0 100 0)) true true SaveDone.

Definition demo_index_stat : index_stat := IndexStat true 5 7 100 0 100 0.

(** Two images mounted, both with the game PPSA01234. *)
Definition two_images : image_cache :=
  run_image_ops [(fun _ => None, IMap "/data/a.exfat" "/mnt/shadowmnt/a");
                 (fun _ => None, IMap "/data/b.exfat" "/mnt/shadowmnt/b")] empty_cache.

Definition demo_titles : title_env :=
  TitleEnv (fun _ => true) (fun _ => true) (fun _ => Some "/mnt/shadowmnt/a/game"%string)
    (fun _ => Some "/data/a.exfat"%string) (fun _ => true).

Definition scan_two_images : list (index_env * index_op) :=
  [(demo_env, XBegin "/data/a.exfat" demo_index_stat);
   (demo_env, XRecord demo_titles two_images "/mnt/shadowmnt/a/game" "PPSA01234");
   (demo_env, XComplete "/data/a.exfat");
   (demo_env, XBegin "/data/b.exfat" demo_index_stat);
   (demo_env, XRecord demo_titles two_images "/mnt/shadowmnt/b/game" "PPSA01234");
   (demo_env, XComplete "/data/b.exfat")].

Definition arg_ok (s : string) : bool :=
  negb (existsb (Z.eqb 0) (string_bytes s)) && negb (strcmp_eq s "").

Lemma string_arg s : arg_ok s = true -> path_arg s.
Proof.
  unfold arg_ok. intros H. apply andb_true_iff in H as [Hb Hne]. apply negb_true_iff in Hb, Hne.
  apply strcmp_eq_false in Hne. split; [|done]. unfold no_nul. apply Forall_forall. intros b Hb' ->.
  assert (existsb (Z.eqb 0) (string_bytes s) = true); [|congruence].
  apply existsb_exists. exists 0. by split.
Qed.

Lemma image_index_invariant_witness :
  exists w, run_index_ops "Jan" scan_two_images (fresh_index (Some [1; 2; 3])) = Some w /\
    tables_ok (ix_entries w) (ix_titles w).
Proof.
  apply (image_index_invariant "Jan" scan_two_images [1; 2; 3]).
  - repeat (apply Forall_cons_2; [unfold is_byte; lia|]). apply Forall_nil_2.
  - assert (Hr : forall g p, resolve_outermost_image_source_from_mount_cache two_images g MAX_PATH = Some p ->
      from_option arg_ok true (resolve_outermost_image_source_from_mount_cache two_images g MAX_PATH) = true ->
      path_arg p).
    { intros g p -> Hp. by apply string_arg. }
    unfold scan_two_images. repeat (apply Forall_cons_2; [|]); [..|apply Forall_nil_2]; cbn [op_args_ok snd];
      try exact I; try (apply string_arg; reflexivity);
      (split; [apply string_arg; reflexivity|]; intros p Hp; eapply Hr; [exact Hp|vm_compute; reflexivity]).
Defined.

(** Claim C27: saving is atomic and loading restores it: a flush whose writing or
    renaming fails leaves the index file as it was, and after a flush that
    succeeds a new process with the same build and the same configuration files
    loads exactly the entries and titles that were flushed. *)
Theorem image_index_save_load build env env' w :
  world_ok w -> ix_loaded w = true -> ix_dirty w = true -> ix_context_valid w = true ->
  no_nul build -> (strlen build < IMAGE_INDEX_BUILD_TIME_LENGTH)%nat ->
  read_index_context (env_stat env) = (true, ix_context w) ->
  read_index_context (env_stat env') = (true, ix_context w) -> env_open env' = true ->
  let w' := sm_image_index_flush build env w in
  (env_save env <> SaveDone -> w' = w) /\
  (env_save env = SaveDone ->
   let loaded := load_index build env' (fresh_index (ix_file w')) in
   ix_entries loaded = ix_entries w /\ ix_titles loaded = ix_titles w /\ ix_dirty loaded = false).
Proof.
  intros Hw Hl Hd Hv Hnul Hb Hcx Hcx' Hopen. unfold sm_image_index_flush.
  rewrite load_loaded by done. unfold refresh_index_context. rewrite Hcx, Hv, !file_stamp_equals_refl. simpl.
  unfold save_index. rewrite Hd. simpl. split; [by destruct (env_save env)|]. intros ->.
  unfold load_index, fresh_index.
  cbn [snd ix_loaded ix_file set_file set_tables]. rewrite Hcx', Hopen.
  cbn [negb snd ix_loaded ix_file set_file set_tables]. rewrite (read_encode_index build w _ (wo_tables _ Hw) (wo_context _ Hw)) by done. done.
Qed.

(** An index with one scanned image, about to be flushed. *)
Definition one_image : image_index :=
  sm_image_index_begin_scan "Jan" demo_env (load_index "Jan" demo_env (fresh_index None))
    "/data/a.exfat" demo_index_stat.

Lemma loaded_world_ok : world_ok (load_index "Jan" demo_env (fresh_index None)).
Proof. apply load_ok, fresh_ok. done. Qed.

Lemma image_index_save_load_witness :
  let w' := sm_image_index_flush "Jan" demo_env one_image in
  (env_save demo_env <> SaveDone -> w' = one_image) /\
  (env_save demo_env = SaveDone ->
   let loaded := load_index "Jan" demo_env (fresh_index (ix_file w')) in
   ix_entries loaded = ix_entries one_image /\ ix_titles loaded = ix_titles one_image /\
   ix_dirty loaded = false).
Proof.
  apply (image_index_save_load "Jan" demo_env demo_env one_image).
  - apply (begin_ok (load_index "Jan" demo_env (load_index "Jan" demo_env (fresh_index None)))
      "/data/a.exfat" demo_index_stat); [apply load_ok, loaded_world_ok|by apply string_arg].
  - vm_compute. reflexivity.
  - vm_compute. reflexivity.
  - vm_compute. reflexivity.
  - by apply (string_arg "Jan").
  - unfold IMAGE_INDEX_BUILD_TIME_LENGTH, strlen. simpl. lia.
  - vm_compute. reflexivity.
  - vm_compute. reflexivity.
  - reflexivity.
Defined.

(** the scan protocol.  After a scan of an image was begun and games
    were recorded, the image is not reused before the scan is completed; once
    completed it is reused only with the same size and modification time, and
    then exactly the recorded titles are visited, each of them installed and
    mounted below the image mount base; and it is reused when nothing changed
    and every recorded title is in order. *)
Theorem image_scan_protocol build env te path st games w :
  world_ok w -> ix_loaded w = true -> path_arg path -> (strlen path < MAX_PATH)%nat -> has_room path w ->
  Forall (game_of_scan path) games ->
  let wr := record_games build env te games (sm_image_index_begin_scan build env w path st) in
  wr.1 = true ->
  let wc := sm_image_index_complete_scan build env wr.2 path in
  forall env' te' calloc_ok st' db_ready,
  (sm_image_index_visit_ready_titles build env' te' calloc_ok wr.2 path st' db_ready).1 = (false, []) /\
  (let '(ready, visited, _) :=
     sm_image_index_visit_ready_titles build env' te' calloc_ok wc path st' db_ready in
   (ready = false -> visited = []) /\
   (ready = true ->
     (i64 (xs_size st'), i64 (xs_mtime_sec st'), i32 (xs_mtime_nsec st')) =
     (i64 (xs_size st), i64 (xs_mtime_sec st), i32 (xs_mtime_nsec st)) /\
     (forall t, t ∈ visited <-> t ∈ games.*2) /\
     forall t, t ∈ visited -> title_ready te' db_ready t)) /\
  ((forall t, t ∈ games.*2 -> title_ready te' db_ready t /\ read_mount_image_link te' t = Some path) ->
   (sm_image_index_visit_ready_titles build env' te' true wc path st db_ready).1.1 = true).
Proof.
  intros Hw Hl Hp Hlen Hroom Hg wr Hok wc env' te' calloc_ok st' db_ready.
  destruct (begin_scanning build path st Hp Hlen env w Hw Hl Hroom) as [i Hs].
  pose proof (record_games_scanning build path st Hp env te games i _ _ wr.2 Hs Hg) as Hs1.
  specialize (Hs1 ltac:(unfold wr in *; rewrite <-Hok; by destruct (record_games _ _ _ _ _))).
  pose proof (complete_scanning build path st Hp Hlen env i _ _ Hs1) as Hs2. fold wc in Hs2.
  assert (Hshort : forall t, False \/ t ∈ games.*2 -> (strlen t < MAX_TITLE_ID)%nat).
  { intros t [[]|(g & -> & Hin)%list_elem_of_fmap]. apply list_elem_of_lookup in Hin as [k Hk].
    by apply (Forall_lookup_1 _ _ _ _ Hg Hk). }
  pose proof (visit_scanning build path st env' te' calloc_ok i 0 _ wr.2 st' db_ready Hs1 Hshort) as Hv1.
  pose proof (visit_scanning build path st env' te' calloc_ok i 1 _ wc st' db_ready Hs2 Hshort) as Hv2.
  split_and!.
  - destruct (sm_image_index_visit_ready_titles build env' te' calloc_ok wr.2 path st' db_ready) as [[[] v] x];
      simpl in *; [by destruct (proj2 Hv1 eq_refl)|]. by rewrite (proj1 Hv1 eq_refl).
  - destruct (sm_image_index_visit_ready_titles build env' te' calloc_ok wc path st' db_ready) as [[ready v] x].
    split; [apply Hv2|]. intros Hr. destruct (proj2 Hv2 Hr) as (_ & ? & Hin & ?). split_and!; [done| |done].
    intros t. rewrite Hin. tauto.
  - intros Hready. apply (visit_scanning_ready build path st env' te' i _ wc db_ready Hs2).
    intros t [[]|Ht]. by apply Hready.
Qed.

Definition demo_games : list (image_cache * string * string) :=
  [(two_images, "/mnt/shadowmnt/a/game", "PPSA01234")]%string.

Lemma image_scan_protocol_witness :
  let w := load_index "Jan" demo_env (fresh_index None) in
  let wr := record_games "Jan" demo_env demo_titles demo_games
              (sm_image_index_begin_scan "Jan" demo_env w "/data/a.exfat" demo_index_stat) in
  let wc := sm_image_index_complete_scan "Jan" demo_env wr.2 "/data/a.exfat" in
  (sm_image_index_visit_ready_titles "Jan" demo_env demo_titles true wr.2 "/data/a.exfat" demo_index_stat true).1 =
    (false, []) /\
  (let '(ready, visited, _) :=
     sm_image_index_visit_ready_titles "Jan" demo_env demo_titles true wc "/data/a.exfat" demo_index_stat true in
   (ready = false -> visited = []) /\
   (ready = true ->
     (i64 (xs_size demo_index_stat), i64 (xs_mtime_sec demo_index_stat), i32 (xs_mtime_nsec demo_index_stat)) =
     (i64 (xs_size demo_index_stat), i64 (xs_mtime_sec demo_index_stat), i32 (xs_mtime_nsec demo_index_stat)) /\
     (forall t, t ∈ visited <-> t ∈ demo_games.*2) /\
     forall t, t ∈ visited -> title_ready demo_titles true t)) /\
  ((forall t, t ∈ demo_games.*2 -> title_ready demo_titles true t /\
     read_mount_image_link demo_titles t = Some "/data/a.exfat"%string) ->
   (sm_image_index_visit_ready_titles "Jan" demo_env demo_titles true wc "/data/a.exfat" demo_index_stat true).1.1 =
     true).
Proof.
  refine (image_scan_protocol "Jan" demo_env demo_titles "/data/a.exfat" demo_index_stat demo_games
    (load_index "Jan" demo_env (fresh_index None)) _ _ _ _ _ _ _ demo_env demo_titles true demo_index_stat true).
  - apply loaded_world_ok.
  - vm_compute. reflexivity.
  - by apply string_arg.
  - unfold MAX_PATH, strlen. simpl. lia.
  - exists 0%nat, zero_entry. split; [vm_compute; reflexivity|by left].
  - apply Forall_cons_2; [|apply Forall_nil_2]. split_and!.
    + vm_compute. reflexivity.
    + by apply string_arg.
    + unfold MAX_TITLE_ID, strlen. simpl. lia.
  - vm_compute. reflexivity.
Defined.

(** the query for a title's source looks at the first record of the
    title only: after two images holding the same title were scanned and the
    first of them disappeared, the title is still mapped to the second, existing
    image, and the query answers that it has no source. *)
Theorem has_source_first_only :
  let path_exists p := negb (strcmp_eq p "/data/a.exfat") in
  match run_index_ops "Jan" scan_two_images (fresh_index None) with
  | None => False
  | Some w =>
      (exists k t e, ix_titles w !! k = Some t /\ it_valid t = 1 /\ cstr (it_title_id t) = "PPSA01234"%string /\
         ix_entries w !! Z.to_nat (it_image_index t) = Some e /\ entry_live e = true /\
         cstr (ie_path e) = "/data/b.exfat"%string /\ path_exists "/data/b.exfat"%string = true) /\
      fst <$> sm_image_index_has_source_for_title "Jan" demo_env path_exists w "PPSA01234" = Some false
  end.
Proof.
  intros path_exists.
  assert (Hobs : (fun w => ((fun t => (it_valid t, it_image_index t, cstr (it_title_id t))) <$> ix_titles w !! 1%nat,
      (fun e => (entry_live e, cstr (ie_path e))) <$> ix_entries w !! 1%nat,
      fst <$> sm_image_index_has_source_for_title "Jan" demo_env path_exists w "PPSA01234")) <$>
      run_index_ops "Jan" scan_two_images (fresh_index None) =
    Some (Some (1, 1, "PPSA01234"), Some (true, "/data/b.exfat"), Some false)%string)
    by (vm_compute; reflexivity).
  destruct (run_index_ops "Jan" scan_two_images (fresh_index None)) as [w|]; [|done].
  apply Some_inj in Hobs. apply pair_equal_spec in Hobs as [Hobs Hr]. apply pair_equal_spec in Hobs as [Ht He].
  apply fmap_Some in Ht as (t & Ht & Htv). apply fmap_Some in He as (e & He & Hev).
  injection Htv as Hv Hi Hc. injection Hev as Hl Hp. split; [|done]. exists 1%nat, t, e. rewrite <-Hi. split_and!; try done.
Qed.
