(* ===== verification/IniFile.v ===== *)
(** * Configuration documents (src/sm_config_file.c)

    Reading, editing and writing the INI files of the program: a document is a
    list of lines that keep their original text, so that writing a document back
    keeps comments and layout.

    Texts are lists of characters.  A NULL field of a line is [None]; the
    [section] of a line in a document is never NULL.  Allocation succeeds, and
    [errno] is not represented: a failure is [None]. *)
From S2P Require Import Prelude CString.
From stdpp Require Import list.
Open Scope Z_scope.
Open Scope c_scope.

(** ** Characters and texts *)
Definition text := list Ascii.ascii.

Definition lit (s : string) : text := String.list_ascii_of_string s.

Definition nul : ascii := "000"%char.
Definition newline : ascii := "010"%char.
Definition dquote : ascii := "034"%char.
Definition space : ascii := " "%char.

#[export] Instance ascii_inhabited : Inhabited ascii := populate nul.

Definition isspace (a : ascii) : bool :=
  let b := ascii_byte a in (b =? 32) || ((9 <=? b) && (b <=? 13)).

Definition tolower (a : ascii) : ascii :=
  let b := ascii_byte a in if (65 <=? b) && (b <=? 90) then ascii_of_nat (Z.to_nat (b + 32)) else a.

(** [!strcasecmp(a, b)]. *)
Definition strcasecmp_eq (a b : text) : bool := bool_decide (tolower <$> a = tolower <$> b).

(** [#] or [;]: what starts a comment. *)
Definition comment_char (a : ascii) : bool := Ascii.eqb a "#"%char || Ascii.eqb a ";"%char.

Fixpoint skip_space (s : text) : text :=
  match s with [] => [] | a :: s' => if isspace a then skip_space s' else s end.

Definition trim (s : text) : text := reverse (skip_space (reverse (skip_space s))).

(** The text before the first character that satisfies [p], and the text from it. *)
Fixpoint break (p : ascii -> bool) (s : text) : text * text :=
  match s with
  | [] => ([], [])
  | a :: s' => if p a then ([], s) else let '(x, y) := break p s' in (a :: x, y)
  end.

(** The comment of an unquoted value: [strpbrk(s, "#;")]. *)
Definition comment_of (s : text) : option text :=
  match (break comment_char s).2 with [] => None | c => Some c end.

(** ** Documents *)
Definition INI_MAX_BYTES : Z := 1024 * 1024.
Definition INI_MAX_LINES : Z := 8192.
Definition INI_LINE_MAX : Z := 1024 * 2 + 2048.
Definition SECTION_SIZE : nat := MAX_PATH + 32.

Record sm_ini_line_t := IniLine {
  raw : option text; section : text; key : option text; value : option text; comment : option text;
  header : bool;
}.

Abbreviation sm_ini_t := (list sm_ini_line_t).

(** [insert_line(doc, at, line)]. *)
Definition insert_line (doc : sm_ini_t) (at_ : nat) (line : sm_ini_line_t) : option sm_ini_t :=
  if INI_MAX_LINES <=? Z.of_nat (length doc) then None
  else Some (take at_ doc ++ line :: drop at_ doc).

(** ** Reading *)

(** The content of a quoted value and what follows the closing quote. *)
Fixpoint unquote (s : text) : option (text * text) :=
  match s with
  | [] => None
  | a :: s' =>
      if Ascii.eqb a dquote then Some ([], s')
      else if Ascii.eqb a backslash then
        match s' with
        | b :: s'' =>
            if Ascii.eqb b backslash || Ascii.eqb b dquote
            then (do? (x, r) <- unquote s'' ; Some (b :: x, r)) else None
        | [] => None
        end
      else if ascii_byte a <? 32 then None
      else (do? (x, r) <- unquote s' ; Some (a :: x, r))
  end.

(** The text the value holds afterwards and the comment. *)
Definition decode_value (s : text) : option (text * option text) :=
  match s with
  | a :: s' =>
      if Ascii.eqb a dquote then
        do? (x, r) <- unquote s' ;
        match trim r with
        | [] => Some (x, None)
        | b :: tail => if comment_char b then Some (x, Some (b :: tail)) else None
        end
      else Some ((break comment_char s).1, comment_of s)
  | [] => Some ([], None)
  end.

(** A header: the text up to the first "]" that is followed by nothing but
    white space or a comment, and the text after it. *)
Fixpoint header_end (s : text) : option (text * text) :=
  match s with
  | [] => None
  | a :: s' =>
      if Ascii.eqb a "]"%char &&
         match skip_space s' with [] => true | b :: _ => comment_char b end
      then Some ([], s')
      else (do? (x, r) <- header_end s' ; Some (a :: x, r))
  end.

Definition text_option (s : text) : option text := match s with [] => None | _ => Some s end.

(** One line of the loop of [sm_ini_read]: [inl] the line and the section
    buffer, or [inr] when [ok] is false: was a key set, and the section buffer. *)
Definition parse_line (legacy : bool) (sec : text) (raw_text : text) :
    (sm_ini_line_t * text) + (bool * text) :=
  let s := trim raw_text in
  match s with
  | [] => inl (IniLine (Some raw_text) sec None None None false, sec)
  | a :: s' =>
      if Ascii.eqb a "["%char then
        match header_end s' with
        | None => inr (false, sec)
        | Some (x, r) =>
            let name := trim x in
            let sec' := take (SECTION_SIZE - 1) name in
            if (SECTION_SIZE <=? length name)%nat || bool_decide (sec' = []) then inr (false, sec')
            else inl (IniLine (Some raw_text) sec' None None (text_option (trim r)) true, sec')
        end
      else if comment_char a then inl (IniLine (Some raw_text) sec None None None false, sec)
      else
        match break (Ascii.eqb "="%char) s with
        | (_, []) => inr (false, sec)
        | (k, _ :: v) =>
            let k' := trim k in
            let v' := trim v in
            if bool_decide (k' = []) then inr (true, sec)
            else if legacy then
              inl (IniLine (Some raw_text) sec (Some k') (Some (trim (break comment_char v').1))
                     (comment_of v') false, sec)
            else
              match decode_value v' with
              | None => inr (true, sec)
              | Some (x, c) =>
                  let quoted := match v' with b :: _ => Ascii.eqb b dquote | [] => false end in
                  inl (IniLine (Some raw_text) sec (Some k') (Some (if quoted then x else trim x)) c false,
                       sec)
              end
        end
  end.

(** The lines of a file, each with its newline. *)
Fixpoint split_lines (s : text) : list text :=
  match s with
  | [] => []
  | a :: s' =>
      if Ascii.eqb a newline then [a] :: split_lines s'
      else match split_lines s' with [] => [[a]] | l :: ls => (a :: l) :: ls end
  end.

Definition line_fits (l : text) : bool :=
  negb (existsb (Ascii.eqb nul) l) && (Z.of_nat (length l) <? INI_LINE_MAX).

Fixpoint read_lines (legacy : bool) (sec : text) (ls : list text) (doc : sm_ini_t) : option sm_ini_t :=
  match ls with
  | [] => Some doc
  | l :: ls' =>
      if negb (line_fits l) then None
      else
        match parse_line legacy sec l with
        | inl (line, sec') =>
            do? doc' <- insert_line doc (length doc) line ; read_lines legacy sec' ls' doc'
        | inr (key_set, sec') =>
            if legacy && negb key_set then read_lines legacy sec' ls' doc else None
        end
  end.

(** What [open] and [fstat] find: nothing, something unusable, or a file. *)
Inductive ini_file := IniMissing | IniUnusable | IniFile (content : text).

Definition sm_ini_read (f : ini_file) (legacy : bool) : option sm_ini_t :=
  match f with
  | IniMissing => Some []
  | IniUnusable => None
  | IniFile content =>
      if INI_MAX_BYTES <? Z.of_nat (length content) then None
      else read_lines legacy [] (split_lines content) []
  end.

(** ** Looking up and editing *)
Definition is_setting (sec k : text) (line : sm_ini_line_t) : bool :=
  match key line with
  | Some k' => strcasecmp_eq sec (section line) && strcasecmp_eq k k'
  | None => false
  end.

(** The last line of the setting wins. *)
Fixpoint sm_ini_get (doc : sm_ini_t) (sec k : text) : option text :=
  match doc with
  | [] => None
  | line :: doc' =>
      match sm_ini_get doc' sec k with
      | Some v => Some v
      | None => if is_setting sec k line then value line else None
      end
  end.

Definition sm_ini_version (doc : sm_ini_t) : bool :=
  bool_decide (sm_ini_get doc (lit "config") (lit "version") = Some (lit "2")).

Definition valid_text (s : text) : bool :=
  forallb (fun a => (32 <=? ascii_byte a) && negb (ascii_byte a =? 127)) s.

Definition args_valid (sec k : text) (v : option text) : bool :=
  negb (bool_decide (sec = [])) && negb (bool_decide (k = [])) && valid_text sec && valid_text k &&
  negb (existsb (Ascii.eqb "="%char) k) && from_option valid_text true v.

(** Where a setting of [sec] goes: after the last line of the section. *)
Fixpoint section_end (sec : text) (i : nat) (doc : sm_ini_t) (found : option nat) : option nat :=
  match doc with
  | [] => found
  | line :: doc' =>
      section_end sec (S i) doc' (if strcasecmp_eq (section line) sec then Some (S i) else found)
  end.

Definition sm_ini_append (doc : sm_ini_t) (sec k v : text) : option sm_ini_t :=
  if negb (args_valid sec k (Some v)) then None
  else
    let line := IniLine None sec (Some k) (Some v) None false in
    match section_end sec 0 doc None with
    | Some at_ => insert_line doc at_ line
    | None =>
        do? doc' <- insert_line doc (length doc) (IniLine None sec None None None true) ;
        insert_line doc' (length doc') line
    end.

(** The loop of [sm_ini_set]: the new lines and whether the value was set. *)
Fixpoint set_lines (sec k : text) (v : option text) (set_ : bool) (doc : sm_ini_t) : sm_ini_t * bool :=
  match doc with
  | [] => ([], set_)
  | line :: doc' =>
      if negb (is_setting sec k line) then
        let '(rest, r) := set_lines sec k v set_ doc' in (line :: rest, r)
      else
        match v, set_ with
        | Some v', false =>
            let '(rest, r) := set_lines sec k v true doc' in
            (IniLine None (section line) (key line) (Some v') (comment line) (header line) :: rest, r)
        | _, _ =>
            let '(rest, r) := set_lines sec k v set_ doc' in
            (IniLine (comment line) (section line) None None None (header line) :: rest, r)
        end
  end.

Definition sm_ini_set (doc : sm_ini_t) (sec k : text) (v : option text) : option sm_ini_t :=
  if negb (args_valid sec k v) then None
  else
    let '(doc', set_) := set_lines sec k v false doc in
    match v with
    | None => Some doc'
    | Some v' => if set_ then Some doc' else sm_ini_append doc' sec k v'
    end.

Definition sm_ini_rename_section (doc : sm_ini_t) (old name : text) : option sm_ini_t :=
  if bool_decide (name = []) || negb (valid_text name) then None
  else
    Some ((fun line =>
             if strcasecmp_eq (section line) old
             then IniLine (if header line then None else raw line) name (key line) (value line) (comment line)
                    (header line)
             else line) <$> doc).

Definition sm_ini_remove_section (doc : sm_ini_t) (sec : text) : sm_ini_t :=
  filter (fun line => strcasecmp_eq sec (section line) = false) doc.

(** ** Writing *)
Definition quote_text (v : text) : text :=
  dquote :: concat ((fun a => if Ascii.eqb a dquote || Ascii.eqb a backslash then [backslash; a] else [a]) <$> v) ++
  [dquote].

Definition needs_quotes (v : text) : bool :=
  match v with
  | [] => true
  | a :: _ =>
      isspace a || from_option isspace false (last v) ||
      existsb (fun a => comment_char a || Ascii.eqb a dquote || Ascii.eqb a backslash) v
  end.

Definition write_value (v : text) : option text :=
  if negb (valid_text v) then None else Some (if needs_quotes v then quote_text v else v).

Definition comment_suffix (c : option text) : text :=
  match c with Some c' => space :: c' | None => [] end.

Definition print_line (line : sm_ini_line_t) : option text :=
  match raw line with
  | Some r => Some (if bool_decide (last r = Some newline) then r else r ++ [newline])
  | None =>
      if header line then
        Some ([newline; "["%char] ++ section line ++ ["]"%char] ++ comment_suffix (comment line) ++ [newline])
      else
        match key line with
        | Some k =>
            do? v <- write_value (default [] (value line)) ;
            Some (k ++ lit " = " ++ v ++ comment_suffix (comment line) ++ [newline])
        | None => Some []
        end
  end.

Fixpoint print_lines (doc : sm_ini_t) : option text :=
  match doc with
  | [] => Some []
  | line :: doc' => do? a <- print_line line ; do? b <- print_lines doc' ; Some (a ++ b)
  end.

(** How far the file operations get: before the rename, or after it with the
    directory not synced. *)
Inductive write_io := WriteFails | SyncFails | WriteDone.

(** The result and the file afterwards. *)
Definition sm_ini_write (io : write_io) (path : string) (old : ini_file) (doc : sm_ini_t) : bool * ini_file :=
  if (MAX_PATH <=? strlen path + 7)%nat then (false, old)
  else
    match print_lines doc with
    | None => (false, old)
    | Some content =>
        if INI_MAX_BYTES <? Z.of_nat (length content) then (false, old)
        else
          match io with
          | WriteFails => (false, old)
          | SyncFails => (false, IniFile content)
          | WriteDone => (true, IniFile content)
          end
    end.

(** ** Migrating the old format *)
Record sm_config_key_t := ConfigKey { ck_section : string; ck_key : string; ck_legacy : string }.

Definition sm_config_keys : list sm_config_key_t :=
  (fun '(a, b, c) => ConfigKey a b c) <$>
  [("general", "debug", "debug"); ("general", "quiet_mode", "quiet_mode");
   ("general", "library_sync_notification", "library_sync_notification");
   ("general", "language", "language");
   ("api", "enabled", "api_enabled"); ("api", "bind_address", "api_bind_address");
   ("api", "port", "api_port");
   ("scan", "depth", "scan_depth"); ("scan", "path", "scanpath");
   ("scan", "interval_seconds", "scan_interval_seconds");
   ("scan", "stability_wait_seconds", "stability_wait_seconds");
   ("mount", "mode", "mount_read_only"); ("mount", "force", "force_mount");
   ("mount", "persistent_images", "persistent_image_mounts");
   ("mount", "exfat_backend", "exfat_backend"); ("mount", "ufs_backend", "ufs_backend");
   ("mount", "nested_pfs_index_cache", "nested_pfs_index_cache");
   ("library", "install_all", "app_install_all");
   ("library", "remove_missing", "auto_remove_missing_games");
   ("library", "remove_with_dlc", "auto_remove_games_with_dlc");
   ("library", "remove_delay_seconds", "auto_remove_missing_delay_seconds");
   ("fakelib", "enabled", "backport_fakelib");
   ("fakelib", "default_mode", "fakelib_default_mode");
   ("fakelib", "global_enabled", "global_fakelib");
   ("fakelib", "global_path", "global_fakelib_path");
   ("fakelib", "global_priority", "global_fakelib_priority");
   ("emulators", "update_enabled", "update_emulators");
   ("emulators", "path", "emulators_path");
   ("emulators", "auto_update_ampr", "auto_update_ampr");
   ("emulators", "ampr_update_url", "ampr_update_url");
   ("fan", "target_temperature", "fan_target_temperature");
   ("sectors", "lvd_exfat", "lvd_exfat_sector_size");
   ("sectors", "lvd_ufs", "lvd_ufs_sector_size");
   ("sectors", "lvd_pfs", "lvd_pfs_sector_size");
   ("sectors", "md_exfat", "md_exfat_sector_size");
   ("sectors", "md_ufs", "md_ufs_sector_size")]%string.

Definition legacy_aliases : list (string * string) :=
  [("lang", "language"); ("locale", "language");
   ("api_bind_adress", "api_bind_address"); ("read_only", "mount_read_only");
   ("global_fakelib_enabled", "global_fakelib");
   ("legacy_gddr5_cache", "nested_pfs_index_cache");
   ("scan_interval_sec", "scan_interval_seconds");
   ("stability_wait_sec", "stability_wait_seconds");
   ("auto_remove_missing_delay_sec", "auto_remove_missing_delay_seconds")]%string.

Definition sm_config_find_legacy (k : text) : option sm_config_key_t :=
  let k' := match find_index (fun a => strcasecmp_eq k (lit a.1)) legacy_aliases with
            | Some i => from_option (fun a => lit a.2) k (legacy_aliases !! i)
            | None => k
            end in
  find_index (fun c => strcasecmp_eq k' (lit (ck_legacy c))) sm_config_keys ≫= fun i => sm_config_keys !! i.

Definition is_word (v : text) (words : list string) : bool :=
  existsb (fun w => strcasecmp_eq v (lit w)) words.

(** The text before and after the last (the first) character [c]. *)
Fixpoint break_last (c : ascii) (s : text) : option (text * text) :=
  match s with
  | [] => None
  | a :: s' =>
      match break_last c s' with
      | Some (x, y) => Some (a :: x, y)
      | None => if Ascii.eqb a c then Some ([], s') else None
      end
  end.

Definition break_first (c : ascii) (s : text) : option (text * text) :=
  match break (Ascii.eqb c) s with (x, _ :: y) => Some (x, y) | (_, []) => None end.

(** The profile setting an old rule stands for: [None] an error, [Some None] a
    rule that is not migrated, otherwise prefix, identity, setting and value. *)
Definition legacy_rule (autotune : bool) (k local : text) :
    option (option (string * text * string * text)) :=
  if strcasecmp_eq k (lit "image_sector") then
    do? (x, y) <- break_last ":"%char local ; Some (Some ("image", x, "sector_size", y)%string)
  else if negb autotune && (strcasecmp_eq k (lit "image_ro") || strcasecmp_eq k (lit "image_rw")) then
    Some (Some ("image", local, "mount_mode",
                lit (if strcasecmp_eq k (lit "image_ro") then "ro" else "rw"))%string)
  else if negb autotune && strcasecmp_eq k (lit "fakelib_mode") then
    do? (x, y) <- break_first ":"%char local ; Some (Some ("game", x, "fakelib", y)%string)
  else if negb autotune && strcasecmp_eq k (lit "fakelib_exclude") then
    Some (Some ("game", local, "fakelib", lit "disabled")%string)
  else if negb autotune && (strcasecmp_eq k (lit "global_fakelib_exclude") ||
                            strcasecmp_eq k (lit "global_fakelib_exclude_title")) then
    Some (Some ("game", local, "ignore_global_fakelib", lit "on")%string)
  else Some None.

(** The section of a profile. *)
Definition profile_section (prefix : string) (local : text) : text :=
  let identity := trim local in
  let identity' := if bool_decide (prefix = "image"%string)
                   then from_option snd identity (break_last slash identity) else identity in
  take (SECTION_SIZE - 1) (lit prefix ++ ":"%char :: identity').

(** One line of the loop of [import_rules]: the two documents and whether a
    recursive scan was asked for. *)
Definition import_rule (autotune : bool) (line : sm_ini_line_t) (config profiles : sm_ini_t)
    (recursive : bool) : option (sm_ini_t * sm_ini_t * bool) :=
  match key line, value line with
  | Some k, Some ((_ :: _) as v) =>
      match (if autotune then None else sm_config_find_legacy k) with
      | Some m =>
          do? config' <- (if strcmp_eq (ck_legacy m) "scanpath"
                          then sm_ini_append config (lit (ck_section m)) (lit (ck_key m)) v
                          else sm_ini_set config (lit (ck_section m)) (lit (ck_key m)) (Some v)) ;
          Some (config', profiles, recursive)
      | None =>
          if negb autotune && strcasecmp_eq k (lit "recursive_scan") then
            let enabled := is_word v ["on"; "true"; "yes"; "ro"; "1"]%string in
            if negb enabled && negb (is_word v ["off"; "false"; "no"; "rw"; "0"]%string) then None
            else Some (config, profiles, recursive || enabled)
          else if (SECTION_SIZE <=? length v)%nat then None
          else
            do? r <- legacy_rule autotune k v ;
            match r with
            | None => Some (config, profiles, recursive)
            | Some (prefix, local, setting, setting_value) =>
                do? profiles' <- sm_ini_set profiles (profile_section prefix local) (lit setting)
                                   (Some setting_value) ;
                Some (config, profiles', recursive)
            end
      end
  | _, _ => Some (config, profiles, recursive)
  end.

Fixpoint import_lines (autotune : bool) (old : sm_ini_t) (config profiles : sm_ini_t) (recursive : bool) :
    option (sm_ini_t * sm_ini_t * bool) :=
  match old with
  | [] => Some (config, profiles, recursive)
  | line :: old' =>
      do? (config', profiles', recursive') <- import_rule autotune line config profiles recursive ;
      import_lines autotune old' config' profiles' recursive'
  end.

Definition import_rules (old config profiles : sm_ini_t) (autotune : bool) : option (sm_ini_t * sm_ini_t) :=
  do? (config', profiles', recursive) <- import_lines autotune old config profiles false ;
  if recursive : bool then
    do? config'' <- sm_ini_set config' (lit "scan") (lit "depth") (Some (lit "2")) ;
    Some (config'', profiles')
  else Some (config', profiles').

(** ** Texts: white space and breaking *)
Definition spaces (s : text) : Prop := Forall (fun a => isspace a = true) s.

#[local] Hint Extern 0 (spaces []) => apply Forall_nil_2 : core.
#[local] Hint Extern 0 (Forall _ []) => apply Forall_nil_2 : core.

Definition head_nonspace (s : text) : Prop := match s with [] => True | a :: _ => isspace a = false end.

(** Neither end is white space. *)
Definition edges (s : text) : Prop := head_nonspace s /\ head_nonspace (reverse s).

Lemma skip_space_id s : head_nonspace s -> skip_space s = s.
Proof. destruct s as [|a s]; [done|]. simpl. by intros ->. Qed.

Lemma skip_space_head s : head_nonspace (skip_space s).
Proof. induction s as [|a s IH]; simpl; [done|]. by destruct (isspace a) eqn:?. Qed.

Lemma skip_space_app a s : spaces a -> skip_space (a ++ s) = skip_space s.
Proof. induction 1 as [|x a Hx _ IH]; simpl; [done|]. by rewrite Hx. Qed.

Lemma skip_space_split s : exists a, spaces a /\ s = a ++ skip_space s.
Proof.
  induction s as [|x s (a & Ha & Hs)]; simpl; [by exists []|]. destruct (isspace x) eqn:Hx; [|by exists []].
  exists (x :: a). split; [by apply Forall_cons_2|]. simpl. by f_equal.
Qed.

Lemma spaces_reverse a : spaces a -> spaces (reverse a).
Proof. intros Ha. unfold spaces. rewrite Forall_reverse. exact Ha. Qed.

Lemma trim_text a t b : spaces a -> edges t -> spaces b -> trim (a ++ t ++ b) = t.
Proof.
  intros Ha [Hh Hl] Hb. unfold trim. rewrite skip_space_app by done. destruct t as [|x t].
  - simpl. rewrite <-(app_nil_r b), skip_space_app by done. done.
  - rewrite (skip_space_id ((x :: t) ++ b)) by done. rewrite reverse_app, skip_space_app by by apply spaces_reverse.
    rewrite skip_space_id by done. apply reverse_involutive.
Qed.

Lemma trim_edges s : edges (trim s).
Proof.
  unfold edges, trim. rewrite reverse_involutive. split; [|apply skip_space_head].
  pose proof (skip_space_head s) as Hh. destruct (skip_space_split (reverse (skip_space s))) as (a & _ & Ha).
  apply (f_equal reverse) in Ha. rewrite reverse_involutive, reverse_app in Ha.
  destruct (reverse (skip_space (reverse (skip_space s)))) as [|x t]; [done|]. rewrite Ha in Hh. done.
Qed.

Lemma trim_split s : exists a b, spaces a /\ spaces b /\ s = a ++ trim s ++ b.
Proof.
  destruct (skip_space_split s) as (a & Ha & Hs). destruct (skip_space_split (reverse (skip_space s))) as (b & Hb & Hr).
  exists a, (reverse b). split_and!; [done|by apply spaces_reverse|]. rewrite Hs at 1. f_equal.
  apply (f_equal reverse) in Hr. rewrite reverse_involutive, reverse_app in Hr. done.
Qed.

Lemma trim_id t : edges t -> trim t = t.
Proof. intros Ht. rewrite <-(app_nil_r t) at 1. by apply (trim_text [] t []); [apply Forall_nil_2| |apply Forall_nil_2]. Qed.

Lemma trim_l a t : spaces a -> edges t -> trim (a ++ t) = t.
Proof. intros Ha Ht. rewrite <-(app_nil_r t) at 1. apply trim_text; [done|done|apply Forall_nil_2]. Qed.

Lemma trim_r t b : spaces b -> edges t -> trim (t ++ b) = t.
Proof. intros Hb Ht. apply (trim_text [] t b); [apply Forall_nil_2|done|done]. Qed.

(** Appending white space to a text changes nothing for [trim]. *)
Lemma trim_app_spaces s b : spaces b -> trim (s ++ b) = trim s.
Proof.
  intros Hb. destruct (trim_split s) as (x & y & Hx & Hy & Hs). rewrite Hs at 1. rewrite <-!app_assoc.
  apply trim_text; [done|apply trim_edges|by apply Forall_app_2].
Qed.

(** Edges of a concatenation. *)
Lemma edges_app s t : s <> [] -> t <> [] -> head_nonspace s -> head_nonspace (reverse t) -> edges (s ++ t).
Proof.
  intros Hs Ht H1 H2. split; [by destruct s|]. rewrite reverse_app.
  destruct (reverse t) as [|x r] eqn:Hr; [|done]. by apply (f_equal reverse) in Hr; rewrite reverse_involutive in Hr.
Qed.

Lemma break_app p x y : Forall (fun a => p a = false) x -> match y with [] => True | b :: _ => p b = true end ->
  break p (x ++ y) = (x, y).
Proof.
  intros Hx Hy. induction Hx as [|a x Ha _ IH]; simpl.
  - destruct y as [|b y]; [done|]. simpl. by rewrite Hy.
  - by rewrite Ha, IH.
Qed.

Lemma break_spec p s x y : break p s = (x, y) ->
  s = x ++ y /\ Forall (fun a => p a = false) x /\ match y with [] => True | b :: _ => p b = true end.
Proof.
  revert x y. induction s as [|a s IH]; intros x y; simpl.
  - intros [= <- <-]. split_and!; [done|apply Forall_nil_2|done].
  - destruct (p a) eqn:Ha; [intros [= <- <-]; split_and!; [done|apply Forall_nil_2|done]|].
    destruct (break p s) as [x' y']. intros [= <- <-]. destruct (IH x' y' eq_refl) as (-> & Hx & Hy).
    split_and!; [done|by apply Forall_cons_2|done].
Qed.

(** Texts without newlines and zero bytes: the inside of a line. *)
Definition plain (s : text) : Prop := Forall (fun a => a <> newline /\ a <> nul) s.

#[local] Hint Extern 0 (plain []) => apply Forall_nil_2 : core.

Lemma plain_app s t : plain (s ++ t) <-> plain s /\ plain t.
Proof. apply Forall_app. Qed.

Lemma plain_trim s : plain s -> plain (trim s).
Proof.
  intros Hp. destruct (trim_split s) as (a & b & _ & _ & Hs). rewrite Hs, !plain_app in Hp. tauto.
Qed.

(** A stored line: plain, but for a newline at the end. *)
Definition line_text (r : text) : Prop := plain r \/ exists x, r = x ++ [newline] /\ plain x.

Lemma line_text_trim r : line_text r -> plain (trim r).
Proof.
  intros [Hr|(x & -> & Hx)]; [by apply plain_trim|].
  rewrite trim_app_spaces by (apply Forall_cons_2; [done|apply Forall_nil_2]). by apply plain_trim.
Qed.

(** ** What a line means

    A line is a header, a setting or nothing; this does not depend on the section
    it is read in. *)
Inductive meaning := MHeader (sec : text) | MSetting (k v : text) | MNone.

#[export] Instance meaning_eq_dec : EqDecision meaning.
Proof. solve_decision. Defined.

Definition line_meaning (l : sm_ini_line_t) : meaning :=
  if header l then MHeader (section l)
  else match key l, value l with Some k, Some v => MSetting k v | _, _ => MNone end.

(** The section after a line. *)
Definition after_meaning (sec : text) (m : meaning) : text := match m with MHeader s => s | _ => sec end.

Definition parse_meaning (r : text) : option meaning :=
  match parse_line false [] r with inl (l, _) => Some (line_meaning l) | inr _ => None end.

(** Reading a line in any section. *)
Lemma parse_line_meaning sec r m : parse_meaning r = Some m ->
  exists l, parse_line false sec r = inl (l, after_meaning sec m) /\ line_meaning l = m /\
    section l = after_meaning sec m.
Proof.
  unfold parse_meaning, parse_line. destruct (trim r) as [|a s]; [intros [= <-]; eauto|].
  destruct (Ascii.eqb a "["%char).
  { destruct (header_end s) as [[x y]|]; [|done]. destruct (_ || _); [done|]. intros [= <-]. eauto. }
  destruct (comment_char a); [intros [= <-]; eauto|].
  destruct (break _ _) as [k [|e v]]; [done|]. destruct (bool_decide _); [done|].
  destruct (decode_value _) as [[x c]|]; [|done]. intros [= <-]. eauto.
Qed.

Lemma parse_meaning_ext r r' : trim r = trim r' -> parse_meaning r = parse_meaning r'.
Proof.
  intros Heq. unfold parse_meaning, parse_line. rewrite Heq. destruct (trim r') as [|a s]; [done|].
  destruct (Ascii.eqb a "["%char).
  { destruct (header_end s) as [[x y]|]; [|done]. by destruct (_ || _). }
  destruct (comment_char a); [done|]. destruct (break _ _) as [k [|e v]]; [done|].
  destruct (bool_decide _); [done|]. by destruct (decode_value _) as [[x c]|].
Qed.

(** ** Names and comments that survive printing *)
Definition key_ok (k : text) : Prop :=
  edges k /\ plain k /\ Forall (fun a => Ascii.eqb "="%char a = false) k /\
  match k with [] => False | a :: _ => Ascii.eqb a "["%char = false /\ comment_char a = false end.

Definition comment_ok (c : text) : Prop :=
  edges c /\ plain c /\ match c with [] => False | a :: _ => comment_char a = true end.

(** No "]" inside is followed by what looks like a comment. *)
Fixpoint brackets_ok (s : text) : bool :=
  match s with
  | [] => true
  | a :: s' =>
      negb (Ascii.eqb a "]"%char && match skip_space s' with [] => false | b :: _ => comment_char b end) &&
      brackets_ok s'
  end.

Definition section_ok (s : text) : Prop :=
  edges s /\ plain s /\ s <> [] /\ (length s < SECTION_SIZE)%nat /\ brackets_ok s = true.

Lemma comment_edges c : comment_ok c -> c <> [] /\ head_nonspace c /\ head_nonspace (reverse c).
Proof. intros ([H1 H2] & _ & H3). split_and!; [by destruct c|done|done]. Qed.

(** The comment of a printed line. *)
Definition suffix_ok (c : option text) : Prop := forall c', c = Some c' -> comment_ok c'.

Lemma edges_suffix s c : s <> [] -> edges s -> suffix_ok c -> edges (s ++ comment_suffix c).
Proof.
  intros Hs [H1 H2] Hc. destruct c as [c|]; [|by rewrite app_nil_r]. simpl.
  destruct (comment_edges c (Hc c eq_refl)) as (Hne & _ & Hr).
  change (s ++ space :: c) with (s ++ [space] ++ c). rewrite app_assoc. apply edges_app; try done; by destruct s.
Qed.

Lemma suffix_trim c : suffix_ok c -> text_option (trim (comment_suffix c)) = c.
Proof.
  intros Hc. destruct c as [c|]; [|done]. destruct (Hc c eq_refl) as (He & _ & Hh).
  change (comment_suffix (Some c)) with ([space] ++ c). rewrite (trim_l [space] c) by (done || by apply Forall_cons_2). by destruct c.
Qed.

Lemma plain_suffix c : suffix_ok c -> plain (comment_suffix c).
Proof.
  intros Hc. destruct c as [c|]; [|apply Forall_nil_2]. simpl. apply Forall_cons_2; [done|]. by apply Hc.
Qed.

(** A comment line means nothing. *)
Lemma comment_meaning c : comment_ok c -> parse_meaning c = Some MNone.
Proof.
  intros (He & _ & Hh). unfold parse_meaning, parse_line. rewrite trim_id by done.
  destruct c as [|a c]; [done|]. rewrite Hh. destruct (Ascii.eqb_spec a "["%char) as [->|]; [done|]. done.
Qed.

(** *** Values *)
Lemma unquote_quote v r : valid_text v = true ->
  unquote (concat ((fun a => if Ascii.eqb a dquote || Ascii.eqb a backslash then [backslash; a] else [a]) <$> v) ++
    dquote :: r) = Some (v, r).
Proof.
  intros Hv. induction v as [|a v IH]; [done|]. simpl in Hv. apply andb_true_iff in Hv as [Ha Hv].
  apply andb_true_iff in Ha as [Ha _]. specialize (IH Hv). rewrite fmap_cons. cbn [concat].
  destruct (Ascii.eqb_spec a dquote) as [->|Hd]; [|destruct (Ascii.eqb_spec a backslash) as [->|Hb]]; cbn [orb app].
  - cbn [unquote]. change (Ascii.eqb backslash dquote) with false. cbn [Ascii.eqb orb]. simpl. by rewrite IH.
  - cbn [unquote]. simpl. by rewrite IH.
  - cbn [unquote]. apply Ascii.eqb_neq in Hd, Hb. rewrite Hd, Hb. destruct (Z.ltb_spec (ascii_byte a) 32); [|by rewrite IH].
    apply Z.leb_le in Ha. lia.
Qed.

(** Decoding a printed value with its comment. *)
Lemma decode_written v vt c : write_value v = Some vt -> suffix_ok c ->
  vt <> [] /\ edges vt /\
  exists x, decode_value (vt ++ comment_suffix c) = Some (x, c) /\
    (if match vt ++ comment_suffix c with b :: _ => Ascii.eqb b dquote | [] => false end then x else trim x) = v.
Proof.
  unfold write_value. destruct (negb (valid_text v)) eqn:Hv; [done|]. apply negb_false_iff in Hv.
  intros Hvt Hc. apply Some_inj in Hvt as <-. destruct (needs_quotes v) eqn:Hq.
  - unfold quote_text. split_and!; [done| |].
    + apply (edges_app [dquote]); [done| |done|].
      * by destruct (concat _).
      * by rewrite reverse_app.
    + exists v. split; [|done]. cbn [app decode_value]. change (Ascii.eqb dquote dquote) with true. cbn match.
      rewrite <-app_assoc. cbn [app]. rewrite unquote_quote by done. pose proof (suffix_trim c Hc) as Hs.
      destruct (trim (comment_suffix c)) as [|b tail] eqn:Ht; simpl in Hs; subst c; [done|].
      destruct (Hc _ eq_refl) as (_ & _ & Hb). by rewrite Hb.
  - destruct v as [|a v]; [done|]. unfold needs_quotes in Hq. apply orb_false_iff in Hq as [Hq Hspecial].
    apply orb_false_iff in Hq as [Ha Hlast].
    assert (He : edges (a :: v)).
    { split; [done|]. change (from_option isspace false (last (a :: v)) = false) in Hlast.
      destruct (reverse (a :: v)) as [|z r] eqn:Hr; [done|]. apply (f_equal reverse) in Hr.
      rewrite reverse_involutive, reverse_cons in Hr. rewrite Hr, last_snoc in Hlast. done. }
    assert (Hno : Forall (fun x => comment_char x = false /\ Ascii.eqb x dquote = false) (a :: v)).
    { apply Forall_forall. intros x Hx. destruct (comment_char x || Ascii.eqb x dquote || Ascii.eqb x backslash) eqn:Hb.
      - assert (existsb (fun a => comment_char a || Ascii.eqb a dquote || Ascii.eqb a backslash) (a :: v) = true); [|congruence].
        apply existsb_exists. exists x. split; [by apply list_elem_of_In|done].
      - apply orb_false_iff in Hb as [Hb _]. by apply orb_false_iff in Hb. }
    split_and!; [done|done|]. apply Forall_cons_1 in Hno as [[Hac Had] Hno].
    assert (Hnc : Forall (fun x => comment_char x = false) (a :: v)).
    { apply Forall_cons_2; [done|]. eapply Forall_impl; [exact Hno|]. by intros x [? _]. }
    destruct c as [c|]; cbn [comment_suffix].
    + destruct (Hc c eq_refl) as (_ & _ & Hhead). exists ((a :: v) ++ [space]).
      assert (Hbr : break comment_char ((a :: v) ++ [space] ++ c) = ((a :: v) ++ [space], c)).
      { rewrite app_assoc. apply break_app; [|by destruct c].
        apply Forall_app_2; [done|]. apply Forall_cons_2; [done|apply Forall_nil_2]. }
      change ((a :: v) ++ space :: c) with ((a :: v) ++ [space] ++ c).
      unfold decode_value, comment_of. rewrite Hbr. simpl app at 1. cbn match. rewrite Had. split; [by destruct c|].
      cbn [app]. rewrite Had. apply (trim_r (a :: v) [space]); [|done]. apply Forall_cons_2; [done|apply Forall_nil_2].
    + exists (a :: v). rewrite app_nil_r. unfold decode_value, comment_of.
      pose proof (break_app comment_char (a :: v) [] Hnc I) as Hbr. rewrite app_nil_r in Hbr. rewrite Hbr, Had.
      split; [done|]. by apply trim_id.
Qed.

(** *** Printed settings and headers *)
Lemma space_spaces : spaces [space].
Proof. apply Forall_cons_2; [done|apply Forall_nil_2]. Qed.

Lemma newline_spaces : spaces [newline].
Proof. apply Forall_cons_2; [done|apply Forall_nil_2]. Qed.

Lemma setting_meaning k v vt c : key_ok k -> write_value v = Some vt -> suffix_ok c ->
  parse_meaning (k ++ lit " = " ++ vt ++ comment_suffix c ++ [newline]) = Some (MSetting k v).
Proof.
  intros (Hke & _ & Hkeq & Hkh) Hw Hc. destruct (decode_written v vt c Hw Hc) as (Hvne & Hve & x & Hx & Hval).
  pose proof (edges_suffix vt c Hvne Hve Hc) as Hse.
  assert (Hsne : vt ++ comment_suffix c <> []) by (by destruct vt).
  set (val := vt ++ comment_suffix c) in *.
  assert (Hkne : k <> []) by (by destruct k).
  assert (Htrim : trim (k ++ lit " = " ++ vt ++ comment_suffix c ++ [newline]) =
    (k ++ [space]) ++ "="%char :: space :: val).
  { change (lit " = ") with [space; "="%char; space]. rewrite (app_assoc vt). fold val.
    replace (k ++ [space; "="%char; space] ++ val ++ [newline])
      with (((k ++ [space]) ++ "="%char :: space :: val) ++ [newline])
      by (rewrite <-!app_assoc; reflexivity).
    apply trim_r; [apply newline_spaces|].
    change ("="%char :: space :: val) with (["="%char; space] ++ val). rewrite app_assoc.
    apply edges_app; [by destruct k|done| |apply Hse]. destruct Hke. by destruct k. }
  assert (Hbreak : break (Ascii.eqb "="%char) ((k ++ [space]) ++ "="%char :: space :: val) =
    (k ++ [space], "="%char :: space :: val)).
  { apply break_app; [|done]. apply Forall_app_2; [done|]. apply Forall_cons_2; [done|apply Forall_nil_2]. }
  unfold parse_meaning, parse_line. rewrite Htrim. rewrite Hbreak.
  rewrite (trim_r k [space]) by (apply space_spaces || done).
  change (trim (space :: val)) with (trim ([space] ++ val)).
  rewrite (trim_l [space] val) by (apply space_spaces || done). rewrite Hx.
  rewrite bool_decide_false by done.
  destruct k as [|a k]; [done|]. cbn [app]. destruct Hkh as [-> ->]. cbn. f_equal. f_equal. exact Hval.
Qed.

Lemma header_end_ok s r : brackets_ok s = true ->
  match skip_space r with [] => True | b :: _ => comment_char b = true end ->
  header_end (s ++ "]"%char :: r) = Some (s, r).
Proof.
  intros Hs Hr. induction s as [|a s IH]; cbn [app header_end].
  - rewrite Ascii.eqb_refl. destruct (skip_space r) as [|b t]; [done|]. by rewrite Hr.
  - cbn [brackets_ok] in Hs. apply andb_true_iff in Hs as [Ha Hs]. apply negb_true_iff in Ha.
    assert (Hno : (Ascii.eqb a "]"%char &&
      match skip_space (s ++ "]"%char :: r) with [] => true | b :: _ => comment_char b end) = false).
    { destruct (Ascii.eqb a "]"%char); [|done]. cbn [andb] in Ha |- *.
      destruct (skip_space_split s) as (sp & Hsp & Heq). rewrite Heq, <-app_assoc, skip_space_app by done.
      pose proof (skip_space_head s) as Hh. destruct (skip_space s) as [|b t]; [done|].
      cbn [app]. rewrite skip_space_id by done. exact Ha. }
    rewrite Hno, IH by done. done.
Qed.

Lemma header_meaning s c : section_ok s -> suffix_ok c ->
  parse_meaning ("["%char :: s ++ ["]"%char] ++ comment_suffix c ++ [newline]) = Some (MHeader s).
Proof.
  intros (He & _ & Hne & Hlen & Hb) Hc.
  assert (Htrim : trim ("["%char :: s ++ ["]"%char] ++ comment_suffix c ++ [newline]) =
    "["%char :: s ++ "]"%char :: comment_suffix c).
  { replace ("["%char :: s ++ ["]"%char] ++ comment_suffix c ++ [newline])
      with ((("["%char :: s ++ ["]"%char]) ++ comment_suffix c) ++ [newline])
      by (cbn [app]; rewrite <-!app_assoc; reflexivity).
    rewrite trim_r; [|apply newline_spaces|].
    - cbn [app]. by rewrite <-app_assoc.
    - apply edges_suffix; [done| |done]. split; [done|]. cbn [app]. rewrite reverse_cons, reverse_app. done. }
  unfold parse_meaning, parse_line. rewrite Htrim. rewrite Ascii.eqb_refl. rewrite header_end_ok; [|done|].
  2: { destruct c as [c|]; [|done]. destruct (Hc c eq_refl) as ([Hh _] & _ & Hcc). cbn [comment_suffix].
       change (space :: c) with ([space] ++ c). rewrite skip_space_app by apply space_spaces.
       rewrite skip_space_id by done. by destruct c. }
  rewrite trim_id by done. rewrite take_ge by lia.
  destruct (Nat.leb_spec SECTION_SIZE (length s)); [lia|]. rewrite bool_decide_false by done. done.
Qed.

(** ** Lines of a document *)
Record line_ok (l : sm_ini_line_t) : Prop := {
  lo_key : forall k, key l = Some k -> key_ok k /\ is_Some (value l) /\ header l = false;
  lo_comment : suffix_ok (comment l);
  lo_header : header l = true -> section_ok (section l) /\ key l = None;
  lo_raw : forall r, raw l = Some r -> line_text r /\ parse_meaning r = Some (line_meaning l);
}.

Lemma comment_char_nonspace a : comment_char a = true -> isspace a = false.
Proof.
  unfold comment_char. intros H. apply orb_true_iff in H as [H|H]; apply Ascii.eqb_eq in H as ->; done.
Qed.

(** A suffix of a text with edges that starts with a comment character. *)
Lemma suffix_comment x c : edges (x ++ c) -> plain (x ++ c) ->
  match c with [] => False | a :: _ => comment_char a = true end -> comment_ok c.
Proof.
  intros [_ He] Hp Hc. rewrite reverse_app in He. apply plain_app in Hp as [_ Hp]. split_and!; [|done|done].
  split; [destruct c as [|a c]; [done|by apply comment_char_nonspace]|].
  destruct (reverse c) as [|z r]; [done|]. exact He.
Qed.

Lemma skip_space_trim s : exists b, skip_space s = trim s ++ b.
Proof.
  unfold trim. destruct (skip_space_split (reverse (skip_space s))) as (b & _ & Hr). exists (reverse b).
  apply (f_equal reverse) in Hr. by rewrite reverse_involutive, reverse_app in Hr.
Qed.

(** What remains after a value or a header, trimmed, is a comment. *)
Lemma trim_comment r : plain r -> match trim r with [] => True | b :: _ => comment_char b = true end ->
  suffix_ok (text_option (trim r)).
Proof.
  intros Hp Hh c Hc. pose proof (trim_edges r) as He. pose proof (plain_trim r Hp) as Hpt.
  destruct (trim r) as [|b t]; [done|]. injection Hc as <-. by split_and!.
Qed.

Lemma unquote_suffix n s x r : (length s <= n)%nat -> unquote s = Some (x, r) -> exists p, s = p ++ r.
Proof.
  revert s x r. induction n as [|n IH]; intros s x r Hn; destruct s as [|a s]; simpl in *; try done; [lia|].
  destruct (Ascii.eqb a dquote); [intros [= _ <-]; by exists [a]|].
  destruct (Ascii.eqb a backslash).
  - destruct s as [|b s]; [done|]. destruct (_ || _); [|done]. destruct (unquote s) as [[y q]|] eqn:Hu; [|done].
    intros [= _ <-]. simpl in Hn. destruct (IH s y q ltac:(lia) Hu) as [p ->]. by exists (a :: b :: p).
  - destruct (_ <? _); [done|]. destruct (unquote s) as [[y q]|] eqn:Hu; [|done].
    intros [= _ <-]. destruct (IH s y q ltac:(lia) Hu) as [p ->]. by exists (a :: p).
Qed.

Lemma decode_comment v x c : edges v -> plain v -> decode_value v = Some (x, c) -> suffix_ok c.
Proof.
  intros He Hp. unfold decode_value. destruct v as [|a v]; [by intros [= _ <-]|].
  destruct (Ascii.eqb a dquote).
  - destruct (unquote v) as [[y r]|] eqn:Hu; [|done]. destruct (unquote_suffix _ v y r ltac:(done) Hu) as [p ->].
    assert (Hpr : plain r) by (apply Forall_cons_1 in Hp as [_ Hp]; by apply plain_app in Hp as [_ ?]).
    pose proof (trim_comment r Hpr) as Ht. destruct (trim r) as [|b t]; [by intros [= _ <-]|].
    destruct (comment_char b) eqn:Hb; [|done]. intros [= _ <-]. by apply Ht.
  - intros [= _ <-]. unfold comment_of. destruct (break comment_char (a :: v)) as [p q] eqn:Hb.
    apply break_spec in Hb as (Heq & _ & Hq). rewrite Heq in He, Hp. intros c Hc.
    destruct q as [|z q]; [done|]. injection Hc as <-. by eapply suffix_comment.
Qed.

Lemma header_end_spec s x r : header_end s = Some (x, r) ->
  s = x ++ "]"%char :: r /\ brackets_ok x = true /\
  match skip_space r with [] => True | b :: _ => comment_char b = true end.
Proof.
  revert x r. induction s as [|a s IH]; intros x r; cbn [header_end]; [done|].
  destruct (Ascii.eqb a "]"%char && _) eqn:Hc.
  - intros [= <- <-]. apply andb_true_iff in Hc as [Ha Hc]. apply Ascii.eqb_eq in Ha as ->.
    split_and!; [done|done|]. by destruct (skip_space s).
  - destruct (header_end s) as [[y q]|] eqn:Hh; [|done]. intros [= <- <-].
    destruct (IH y q eq_refl) as (-> & Hb & Hr). split_and!; [done| |done]. cbn [brackets_ok].
    apply andb_true_iff. split; [|done]. apply negb_true_iff. apply andb_false_iff in Hc as [Hc|Hc]; apply andb_false_iff; [by left|].
    right. destruct (skip_space_split y) as (sp & Hsp & Hy). pose proof (skip_space_head y) as Hhd.
    rewrite Hy, <-app_assoc, skip_space_app in Hc by done. destruct (skip_space y) as [|b t]; [done|].
    cbn [app] in Hc. by rewrite skip_space_id in Hc.
Qed.

Lemma brackets_suffix a t : brackets_ok (a ++ t) = true -> brackets_ok t = true.
Proof.
  induction a as [|x a IH]; cbn [app brackets_ok]; [done|]. intros H. apply andb_true_iff in H as [_ H]. auto.
Qed.

Lemma brackets_prefix t b : brackets_ok (t ++ b) = true -> brackets_ok t = true.
Proof.
  induction t as [|x t IH]; cbn [app brackets_ok]; [done|]. intros H. apply andb_true_iff in H as [Hx H].
  apply andb_true_iff. split; [|auto]. apply negb_true_iff in Hx. apply negb_true_iff.
  destruct (Ascii.eqb x "]"%char); [|done]. cbn [andb] in *.
  destruct (skip_space_split t) as (sp & Hsp & Ht). pose proof (skip_space_head t) as Hhd.
  rewrite Ht, <-app_assoc, skip_space_app in Hx by done. destruct (skip_space t) as [|z r]; [done|].
  cbn [app] in Hx. by rewrite skip_space_id in Hx.
Qed.

Lemma parse_line_raw sec r l sec' : parse_line false sec r = inl (l, sec') ->
  raw l = Some r /\ parse_meaning r = Some (line_meaning l) /\ sec' = after_meaning sec (line_meaning l) /\
  section l = sec'.
Proof.
  unfold parse_meaning, parse_line. destruct (trim r) as [|a s]; [by intros [= <- <-]|].
  destruct (Ascii.eqb a "["%char).
  { destruct (header_end s) as [[x y]|]; [|done]. destruct (_ || _); [done|]. by intros [= <- <-]. }
  destruct (comment_char a); [by intros [= <- <-]|].
  destruct (break _ _) as [k [|e v]]; [done|]. destruct (bool_decide _); [done|].
  destruct (decode_value _) as [[x c]|]; [|done]. by intros [= <- <-].
Qed.

(** The key of a setting. *)
Lemma parsed_key a s k v : edges (a :: s) -> plain (a :: s) -> Ascii.eqb a "["%char = false -> comment_char a = false ->
  break (Ascii.eqb "="%char) (a :: s) = (k, v) -> trim k <> [] -> key_ok (trim k).
Proof.
  intros He Hp Ha Hc Hb Hne. apply break_spec in Hb as (Heq & Hk & _).
  destruct (trim_split k) as (sp & sp' & Hsp & _ & Hks). rewrite Heq in Hp.
  apply plain_app in Hp as [Hp _]. split_and!; [apply trim_edges|by apply plain_trim| |].
  - rewrite Hks in Hk. by apply Forall_app in Hk as [_ [Hk _]%Forall_app].
  - destruct (trim k) as [|b t]; [done|]. destruct sp as [|z sp].
    + rewrite Hks in Heq. injection Heq as <- _. done.
    + rewrite Hks in Heq. injection Heq as <- _. apply Forall_cons_1 in Hsp as [Hz _].
      destruct He as [He _]. simpl in He. congruence.
Qed.

Lemma parsed_ok sec r l sec' : line_text r -> parse_line false sec r = inl (l, sec') -> line_ok l.
Proof.
  intros Hr Hparse. pose proof (parse_line_raw _ _ _ _ Hparse) as (Hraw & Hmean & _).
  pose proof (trim_edges r) as He. pose proof (line_text_trim r Hr) as Hp.
  assert (Hok : (forall k, key l = Some k -> key_ok k /\ is_Some (value l) /\ header l = false) /\
    suffix_ok (comment l) /\ (header l = true -> section_ok (section l) /\ key l = None)).
  2: { destruct Hok as (H1 & H2 & H3). split; [done|done|done|]. intros r' Hr'. rewrite Hraw in Hr'. by injection Hr' as <-. }
  revert Hparse. unfold parse_line. destruct (trim r) as [|a s]; [by intros [= <- <-]|].
  destruct (Ascii.eqb a "["%char) eqn:Ha.
  { destruct (header_end s) as [[x y]|] eqn:Hh; [|done]. destruct (_ || _) eqn:Hb; [done|].
    apply orb_false_iff in Hb as [Hlen Hne]. apply Nat.leb_gt in Hlen. apply bool_decide_eq_false in Hne.
    rewrite take_ge in Hne |- * by lia. intros [= <- <-]. simpl. split_and!; [done| |].
    - apply header_end_spec in Hh as (-> & _ & Hy). apply Forall_cons_1 in Hp as [_ Hp].
      apply plain_app in Hp as [_ Hp]. apply Forall_cons_1 in Hp as [_ Hp]. apply trim_comment; [done|].
      destruct (skip_space_trim y) as [b Hsk]. destruct (trim y) as [|c t]; [done|]. by rewrite Hsk in Hy.
    - intros _. split; [|done]. apply header_end_spec in Hh as (-> & Hbr & _).
      apply Forall_cons_1 in Hp as [_ Hp]. apply plain_app in Hp as [Hp _].
      destruct (trim_split x) as (a' & b' & _ & _ & Hx). rewrite Hx in Hbr.
      split_and!; [apply trim_edges|by apply plain_trim|done|done|]. by eapply brackets_prefix, brackets_suffix. }
  destruct (comment_char a) eqn:Hc; [by intros [= <- <-]|].
  destruct (break _ _) as [k [|e v]] eqn:Hb; [done|]. destruct (bool_decide _) eqn:Hk; [done|].
  apply bool_decide_eq_false in Hk. destruct (decode_value _) as [[x c]|] eqn:Hd; [|done].
  intros [= <- <-]. simpl. split_and!; [| |done].
  - intros k' [= <-]. split_and!; [by eapply parsed_key|done|done].
  - eapply decode_comment; [apply trim_edges| |done]. apply plain_trim.
    apply break_spec in Hb as (Heq & _). rewrite Heq in Hp. apply plain_app in Hp as [_ Hp].
    by apply Forall_cons_1 in Hp as [_ ?].
Qed.

(** ** Sections in a document *)
Definition same_text (a b : text) : Prop := tolower <$> a = tolower <$> b.

Lemma strcasecmp_eq_true a b : strcasecmp_eq a b = true <-> same_text a b.
Proof. apply bool_decide_eq_true. Qed.

#[export] Instance same_text_equiv : Equivalence same_text.
Proof. split; unfold same_text; [done|intros ???; congruence|intros ?????; congruence]. Qed.

#[export] Instance strcasecmp_eq_proper : Proper (same_text ==> same_text ==> eq) strcasecmp_eq.
Proof. intros a a' Ha b b' Hb. unfold strcasecmp_eq, same_text in *. by rewrite Ha, Hb. Qed.

(** Every line is in the section of the last header before it. *)
Fixpoint consistent (ctx : text) (doc : sm_ini_t) : Prop :=
  match doc with
  | [] => True
  | l :: doc' =>
      same_text (section l) (after_meaning ctx (line_meaning l)) /\
      consistent (after_meaning ctx (line_meaning l)) doc'
  end.

Definition doc_ok (doc : sm_ini_t) : Prop := Forall line_ok doc /\ consistent [] doc.

(** The section after the lines of a document. *)
Definition after_lines (ctx : text) (doc : sm_ini_t) : text :=
  foldl (fun c l => after_meaning c (line_meaning l)) ctx doc.

Lemma consistent_app ctx d1 d2 : consistent ctx (d1 ++ d2) <-> consistent ctx d1 /\ consistent (after_lines ctx d1) d2.
Proof. revert ctx. induction d1 as [|l d1 IH]; intros ctx; simpl; [tauto|]. rewrite IH. tauto. Qed.

Lemma after_meaning_same c c' m : same_text c c' -> same_text (after_meaning c m) (after_meaning c' m).
Proof. by destruct m. Qed.

Lemma consistent_same c c' d : same_text c c' -> consistent c d -> consistent c' d.
Proof.
  revert c c'. induction d as [|l d IH]; intros c c' Hc; simpl; [done|]. intros [Hl Hd].
  pose proof (after_meaning_same c c' (line_meaning l) Hc) as Ha. split; [by rewrite <-Ha|by eapply IH].
Qed.

(** Lookup through the meanings of the lines. *)
Fixpoint meaning_get (ctx : text) (ms : list meaning) (sec k : text) : option text :=
  match ms with
  | [] => None
  | m :: ms' =>
      match meaning_get (after_meaning ctx m) ms' sec k with
      | Some v => Some v
      | None =>
          match m with
          | MSetting k' v => if strcasecmp_eq sec ctx && strcasecmp_eq k k' then Some v else None
          | _ => None
          end
      end
  end.

Lemma consistent_get ctx doc sec k : Forall line_ok doc -> consistent ctx doc ->
  sm_ini_get doc sec k = meaning_get ctx (line_meaning <$> doc) sec k.
Proof.
  intros Hok. revert ctx. induction Hok as [|l doc Hl _ IH]; intros ctx; simpl; [done|]. intros [Hsec Hd].
  rewrite (IH _ Hd). destruct (meaning_get _ _ sec k); [done|].
  unfold is_setting. unfold line_meaning in *. destruct (key l) as [k'|] eqn:Hk.
  - destruct (lo_key l Hl k' Hk) as (_ & [v Hv] & Hh). rewrite Hh, Hv in *. simpl in Hsec.
    by rewrite Hsec.
  - by destruct (header l).
Qed.

Lemma meaning_get_ext ctx ctx' ms sec k : same_text ctx ctx' -> meaning_get ctx ms sec k = meaning_get ctx' ms sec k.
Proof.
  revert ctx ctx'. induction ms as [|m ms IH]; intros ctx ctx' Hc; simpl; [done|].
  rewrite (IH _ _ (after_meaning_same ctx ctx' m Hc)). destruct m as [|k' v|]; [done| |done].
  by rewrite (strcasecmp_eq_proper sec sec (reflexivity sec) ctx ctx' Hc).
Qed.

Definition meaningful (ms : list meaning) : list meaning := filter (fun m => m <> MNone) ms.

Lemma meaning_get_meaningful ctx ms sec k : meaning_get ctx (meaningful ms) sec k = meaning_get ctx ms sec k.
Proof.
  unfold meaningful. revert ctx. induction ms as [|m ms IH]; intros ctx; [done|].
  destruct (decide (m = MNone)) as [->|Hm].
  - rewrite filter_cons_False by tauto. rewrite IH. simpl. by destruct (meaning_get ctx ms sec k).
  - rewrite filter_cons_True by done. simpl. by rewrite IH.
Qed.

(** ** Printing *)
Lemma split_lines_line x rest : plain x -> split_lines (x ++ newline :: rest) = (x ++ [newline]) :: split_lines rest.
Proof.
  intros Hx. induction Hx as [|a x [Ha _] _ IH]; simpl; [done|].
  destruct (Ascii.eqb_spec a newline); [done|]. by rewrite IH.
Qed.

Definition reads_as (ls : list text) (ms : list meaning) : Prop :=
  Forall2 (fun r m => line_text r /\ parse_meaning r = Some m) ls ms.

(** The printed form [t] of a line splits into lines that mean [m]. *)
Definition prints_as (t : text) (m : meaning) : Prop :=
  forall rest, exists ls ms, split_lines (t ++ rest) = ls ++ split_lines rest /\ reads_as ls ms /\
    meaningful ms = meaningful [m].

Lemma prints_line x m : plain x -> parse_meaning (x ++ [newline]) = Some m -> prints_as (x ++ [newline]) m.
Proof.
  intros Hp Hm rest. exists [x ++ [newline]], [m]. rewrite <-app_assoc. cbn [app].
  split_and!; [by apply split_lines_line| |done].
  apply Forall2_cons. split; [|by apply Forall2_nil]. split; [right; by exists x|done].
Qed.

Lemma prints_raw r m : line_text r -> parse_meaning r = Some m ->
  prints_as (if bool_decide (last r = Some newline) then r else r ++ [newline]) m.
Proof.
  intros [Hp|(x & -> & Hp)] Hm.
  - rewrite bool_decide_false.
    + apply prints_line; [done|]. rewrite <-Hm. apply parse_meaning_ext, trim_app_spaces, newline_spaces.
    + intros [y ->]%last_Some. apply plain_app in Hp as [_ Hp]. by apply Forall_cons_1 in Hp as [[Hp _] _].
  - rewrite last_snoc, bool_decide_true by done. by apply prints_line.
Qed.

Lemma prints_header sec c : section_ok sec -> suffix_ok c ->
  prints_as ([newline; "["%char] ++ sec ++ ["]"%char] ++ comment_suffix c ++ [newline]) (MHeader sec).
Proof.
  intros Hs Hc rest. pose proof (header_meaning sec c Hs Hc) as Hm.
  set (x := "["%char :: sec ++ ["]"%char] ++ comment_suffix c).
  assert (Hp : plain x).
  { apply Forall_cons_2; [done|]. apply plain_app. split; [apply Hs|]. apply plain_app.
    split; [by apply Forall_cons_2|]. by apply plain_suffix. }
  replace ([newline; "["%char] ++ sec ++ ["]"%char] ++ comment_suffix c ++ [newline])
    with ([newline] ++ x ++ [newline]) by (unfold x; cbn [app]; by rewrite <-app_assoc).
  destruct (prints_line x (MHeader sec) Hp) with (rest := rest) as (ls & ms & Hsplit & Hr & Hms).
  { unfold x. cbn [app]. rewrite <-app_assoc. exact Hm. }
  exists ([newline] :: ls), (MNone :: ms). split_and!.
  - rewrite <-app_assoc. cbn [app split_lines]. rewrite Ascii.eqb_refl, Hsplit. done.
  - apply Forall2_cons. split; [split; [right; by exists []|done]|done].
  - exact Hms.
Qed.

Lemma write_value_plain v vt : write_value v = Some vt -> plain vt.
Proof.
  unfold write_value. destruct (negb _) eqn:Hval; [done|]. apply negb_false_iff in Hval. intros [= <-].
  assert (Hpv : plain v).
  { apply Forall_forall. intros a Ha. unfold valid_text in Hval. rewrite forallb_forall in Hval.
    specialize (Hval a ltac:(by apply list_elem_of_In)). split; intros ->; done. }
  destruct (needs_quotes v); [|done]. unfold quote_text.
  apply Forall_cons_2; [done|]. apply plain_app. split; [|by apply Forall_cons_2].
  apply Forall_concat, Forall_fmap. eapply Forall_impl; [exact Hpv|]. intros a Ha.
  unfold compose. destruct (_ || _); repeat apply Forall_cons_2; done.
Qed.

Lemma prints_setting k v vt c : key_ok k -> write_value v = Some vt -> suffix_ok c ->
  prints_as (k ++ lit " = " ++ vt ++ comment_suffix c ++ [newline]) (MSetting k v).
Proof.
  intros Hk Hw Hc. pose proof (setting_meaning k v vt c Hk Hw Hc) as Hm.
  replace (k ++ lit " = " ++ vt ++ comment_suffix c ++ [newline])
    with ((k ++ lit " = " ++ vt ++ comment_suffix c) ++ [newline]) in Hm |- * by (by rewrite <-!app_assoc).
  apply prints_line; [|done]. rewrite !plain_app.
  split_and!; [apply Hk|by repeat apply Forall_cons_2|by eapply write_value_plain|by apply plain_suffix].
Qed.

Lemma print_line_reads l t : line_ok l -> print_line l = Some t -> prints_as t (line_meaning l).
Proof.
  intros Hl. unfold print_line. destruct (raw l) as [r|] eqn:Hraw.
  { destruct (lo_raw l Hl r Hraw). intros Ht. apply Some_inj in Ht as <-. by apply prints_raw. }
  unfold line_meaning. destruct (header l) eqn:Hh.
  { destruct (lo_header l Hl Hh). intros Ht. apply Some_inj in Ht as <-. apply prints_header; [done|apply Hl]. }
  destruct (key l) as [k|] eqn:Hk.
  - destruct (lo_key l Hl k Hk) as (Hko & [v Hv] & _). rewrite Hv. cbn [default from_option id].
    destruct (write_value v) as [vt|] eqn:Hw; [|done]. intros Ht. apply Some_inj in Ht as <-.
    apply prints_setting; [done|done|apply Hl].
  - intros Ht. apply Some_inj in Ht as <-. intros rest. exists [], []. by split_and!; [|apply Forall2_nil|].
Qed.

Lemma print_lines_reads doc t : Forall line_ok doc -> print_lines doc = Some t ->
  exists ms, reads_as (split_lines t) ms /\ meaningful ms = meaningful (line_meaning <$> doc).
Proof.
  intros Hok. revert t. induction Hok as [|l doc Hl _ IH]; intros t; cbn [print_lines].
  - intros [= <-]. exists []. by split; [apply Forall2_nil|].
  - destruct (print_line l) as [a|] eqn:Ha; [|done]. destruct (print_lines doc) as [b|]; [|done].
    intros [= <-]. destruct (IH b eq_refl) as (ms & Hms & Hmeq).
    destruct (print_line_reads l a Hl Ha b) as (ls & ms' & -> & Hms' & Hmeq').
    exists (ms' ++ ms). split; [by apply Forall2_app|]. unfold meaningful in *. rewrite filter_app, Hmeq, Hmeq'.
    rewrite fmap_cons. change (line_meaning l :: (line_meaning <$> doc)) with ([line_meaning l] ++ (line_meaning <$> doc)).
    by rewrite filter_app.
Qed.

(** ** Reading *)
Lemma insert_end doc l doc' : insert_line doc (length doc) l = Some doc' -> doc' = doc ++ [l].
Proof.
  unfold insert_line. destruct (_ <=? _); [done|]. intros [= <-]. by rewrite take_ge, drop_ge by done.
Qed.

Lemma split_lines_text s : Forall (fun l => exists x, (l = x ++ [newline] \/ l = x) /\ Forall (fun a => a <> newline) x)
  (split_lines s).
Proof.
  induction s as [|a s IH]; simpl; [done|]. destruct (Ascii.eqb_spec a newline) as [->|Ha].
  - apply Forall_cons_2; [|done]. exists []. by split; [left|].
  - destruct (split_lines s) as [|l ls].
    + apply Forall_cons_2; [|done]. exists [a]. split; [by right|]. by apply Forall_cons_2.
    + apply Forall_cons_1 in IH as [(x & Hl & Hx) IH]. apply Forall_cons_2; [|done]. exists (a :: x).
      split; [|by apply Forall_cons_2]. destruct Hl as [->| ->]; [by left|by right].
Qed.

Lemma fitting_line_text l : line_fits l = true ->
  (exists x, (l = x ++ [newline] \/ l = x) /\ Forall (fun a => a <> newline) x) -> line_text l.
Proof.
  unfold line_fits. intros Hf (x & Hl & Hx). apply andb_true_iff in Hf as [Hf _]. apply negb_true_iff in Hf.
  assert (Hnul : Forall (fun a => a <> nul) l).
  { apply Forall_forall. intros a Ha ->. assert (existsb (Ascii.eqb nul) l = true); [|congruence].
    apply existsb_exists. exists nul. split; [by apply list_elem_of_In|apply Ascii.eqb_refl]. }
  assert (Hp : Forall (fun a => a <> nul) x -> plain x) by (intros Hn; apply Forall_and; by split).
  destruct Hl as [->| ->]; [|left; auto]. right. exists x. split; [done|]. apply Hp. by apply Forall_app in Hnul as [? _].
Qed.

(** Whatever is read is a good document. *)
Lemma read_lines_ok sec ls doc doc' : Forall line_ok doc -> consistent [] doc -> after_lines [] doc = sec ->
  Forall (fun l => exists x, (l = x ++ [newline] \/ l = x) /\ Forall (fun a => a <> newline) x) ls ->
  read_lines false sec ls doc = Some doc' -> doc_ok doc'.
Proof.
  intros Hok Hc Hsec Hls. revert sec doc Hok Hc Hsec. induction Hls as [|l ls Hl _ IH]; intros sec doc Hok Hc Hsec;
    cbn [read_lines]; [by intros [= <-]|].
  destruct (line_fits l) eqn:Hf; [|done]. cbn [negb].
  destruct (parse_line false sec l) as [[line sec']|[ks sec']] eqn:Hp; [|done].
  destruct (insert_line doc (length doc) line) as [doc1|] eqn:Hi; [|done]. apply insert_end in Hi as ->.
  pose proof (parse_line_raw _ _ _ _ Hp) as (_ & _ & Hs' & Hsl).
  assert (Hlok : line_ok line) by (eapply parsed_ok; [|exact Hp]; by apply fitting_line_text).
  apply IH.
  - apply Forall_app_2; [done|]. by apply Forall_cons_2.
  - apply consistent_app. split; [done|]. rewrite Hsec. simpl. by rewrite Hsl, Hs'.
  - unfold after_lines. rewrite foldl_app. simpl. fold (after_lines [] doc). by rewrite Hsec, Hs'.
Qed.

Lemma sm_ini_read_ok f doc : sm_ini_read f false = Some doc -> doc_ok doc.
Proof.
  destruct f as [| |content]; simpl; [by intros [= <-]|done|]. destruct (_ <? _); [done|].
  apply read_lines_ok; try done. apply split_lines_text.
Qed.

(** Lines with a meaning are read. *)
Lemma read_lines_meanings sec ls ms doc : reads_as ls ms ->
  Forall (fun l => Z.of_nat (length l) < INI_LINE_MAX) ls ->
  Z.of_nat (length doc + length ls) <= INI_MAX_LINES ->
  exists doc', read_lines false sec ls doc = Some (doc ++ doc') /\ line_meaning <$> doc' = ms.
Proof.
  intros Hr. revert sec doc. induction Hr as [|l m ls ms [Hlt Hm] _ IH]; intros sec doc Hlen Hcount;
    cbn [read_lines].
  - exists []. by rewrite app_nil_r.
  - apply Forall_cons_1 in Hlen as [Hl Hlen].
    assert (Hf : line_fits l = true).
    { unfold line_fits. apply andb_true_iff. split; [|by apply Z.ltb_lt]. apply negb_true_iff.
      assert (Hnul : Forall (fun a => a <> nul) l).
      { destruct Hlt as [Hp|(x & -> & Hp)]; [|apply Forall_app_2; [|by apply Forall_cons_2]];
          (eapply Forall_impl; [exact Hp|by intros a [_ ?]]). }
      clear -Hnul. induction Hnul as [|a l Ha _ IH]; [done|]. cbn [existsb]. rewrite IH.
      apply orb_false_iff. split; [|done]. apply Ascii.eqb_neq. congruence. }
    rewrite Hf. cbn [negb]. destruct (parse_line_meaning sec l m Hm) as (line & -> & Hlm & _).
    unfold insert_line at 1. simpl length in Hcount. destruct (Z.leb_spec INI_MAX_LINES (Z.of_nat (length doc))); [lia|].
    rewrite take_ge, drop_ge by done. destruct (IH (after_meaning sec m) (doc ++ [line]) Hlen) as (doc' & Hread & Hms).
    { rewrite length_app. simpl. lia. }
    exists (line :: doc'). rewrite Hread, <-app_assoc. split; [done|]. rewrite fmap_cons. by rewrite Hlm, Hms.
Qed.

(** A printed document reads back with the same meaning. *)
Lemma print_read_meanings doc t : doc_ok doc -> print_lines doc = Some t ->
  Z.of_nat (length t) <= INI_MAX_BYTES ->
  Forall (fun l => Z.of_nat (length l) < INI_LINE_MAX) (split_lines t) ->
  Z.of_nat (length (split_lines t)) <= INI_MAX_LINES ->
  exists doc', sm_ini_read (IniFile t) false = Some doc' /\ doc_ok doc' /\
    meaningful (line_meaning <$> doc') = meaningful (line_meaning <$> doc).
Proof.
  intros [Hok Hc] Hp Hbytes Hlen Hcount. destruct (print_lines_reads doc t Hok Hp) as (ms & Hr & Hms).
  destruct (read_lines_meanings [] (split_lines t) ms [] Hr Hlen Hcount) as (doc' & Hread & Hms').
  assert (Hrd : sm_ini_read (IniFile t) false = Some doc').
  { simpl. by destruct (Z.ltb_spec INI_MAX_BYTES (Z.of_nat (length t))); [lia|]. }
  exists doc'. split; [done|]. split; [by apply (sm_ini_read_ok (IniFile t))|]. by rewrite Hms'.
Qed.

(** Lookups only see the meaning. *)
Lemma get_meanings doc doc' sec k : doc_ok doc -> doc_ok doc' ->
  meaningful (line_meaning <$> doc') = meaningful (line_meaning <$> doc) ->
  sm_ini_get doc' sec k = sm_ini_get doc sec k.
Proof.
  intros [Hok Hc] [Hok' Hc'] Hm. rewrite (consistent_get [] doc') by done. rewrite (consistent_get [] doc) by done.
  by rewrite <-(meaning_get_meaningful [] (_ <$> doc)), <-Hm, meaning_get_meaningful.
Qed.

(** A printed document reads back with the same settings. *)
Lemma print_read doc t : doc_ok doc -> print_lines doc = Some t ->
  Z.of_nat (length t) <= INI_MAX_BYTES ->
  Forall (fun l => Z.of_nat (length l) < INI_LINE_MAX) (split_lines t) ->
  Z.of_nat (length (split_lines t)) <= INI_MAX_LINES ->
  exists doc', sm_ini_read (IniFile t) false = Some doc' /\
    forall sec k, sm_ini_get doc' sec k = sm_ini_get doc sec k.
Proof.
  intros Hok Hp Hbytes Hlen Hcount. destruct (print_read_meanings doc t) as (doc' & Hread & Hok' & Hm); [done..|].
  exists doc'. split; [done|]. intros. by apply get_meanings.
Qed.

(** ** Editing: what lookups see *)
Definition same_setting (sec k sec' k' : text) : Prop := same_text sec sec' /\ same_text k k'.

Lemma sm_ini_get_app d1 d2 sec k :
  sm_ini_get (d1 ++ d2) sec k = match sm_ini_get d2 sec k with Some v => Some v | None => sm_ini_get d1 sec k end.
Proof.
  induction d1 as [|l d1 IH]; simpl; [by destruct (sm_ini_get d2 sec k)|]. rewrite IH.
  by destruct (sm_ini_get d2 sec k).
Qed.

Lemma is_setting_true sec k l : is_setting sec k l = true <->
  exists k', key l = Some k' /\ same_setting sec k (section l) k'.
Proof.
  unfold is_setting, same_setting. destruct (key l) as [k'|]; [|by split; [|intros (? & ? & _)]].
  rewrite andb_true_iff, !strcasecmp_eq_true. split; [eauto|]. by intros (? & [= <-] & ?).
Qed.

Lemma is_setting_same sec k sec' k' l : is_setting sec k l = true -> is_setting sec' k' l = true ->
  same_setting sec k sec' k'.
Proof.
  rewrite !is_setting_true. intros (x & Hx & H1 & H2) (y & Hy & H3 & H4). rewrite Hx in Hy. injection Hy as <-.
  split; [by rewrite H1, H3|by rewrite H2, H4].
Qed.

Lemma set_lines_other sec k v b doc sec' k' : ~ same_setting sec k sec' k' ->
  sm_ini_get (set_lines sec k v b doc).1 sec' k' = sm_ini_get doc sec' k'.
Proof.
  intros Hne. revert b. induction doc as [|l doc IH]; intros b; simpl; [done|].
  destruct (is_setting sec k l) eqn:Hs; cbn [negb].
  - assert (Hno : is_setting sec' k' l = false).
    { destruct (is_setting sec' k' l) eqn:Hs'; [|done]. by destruct Hne; eapply is_setting_same. }
    assert (Hnew : forall v', is_setting sec' k' (IniLine None (section l) (key l) v' (comment l) (header l)) = false)
      by (intros v'; exact Hno).
    destruct v as [v'|], b; simpl;
      [specialize (IH true)|specialize (IH true)|specialize (IH true)|specialize (IH false)];
      destruct (set_lines _ _ _ _ doc) as [rest r]; simpl in *; rewrite IH, ?Hnew, ?Hno; done.
  - specialize (IH b). destruct (set_lines sec k v b doc) as [rest r]. simpl in *. by rewrite IH.
Qed.

(** Once set, or when resetting, every line of the setting is retired. *)
Lemma set_lines_retired sec k v b doc : v = None \/ b = true ->
  sm_ini_get (set_lines sec k v b doc).1 sec k = None /\ (set_lines sec k v b doc).2 = b.
Proof.
  intros Hvb. induction doc as [|l doc [IH1 IH2]]; simpl; [done|].
  destruct (is_setting sec k l) eqn:Hs; cbn [negb].
  - destruct v as [v'|], b; try (by destruct Hvb);
      destruct (set_lines _ _ _ _ doc) as [rest r]; simpl in *; by rewrite IH1.
  - destruct (set_lines sec k v b doc) as [rest r]. simpl in *. by rewrite IH1, Hs.
Qed.

Lemma set_lines_set sec k v doc :
  let '(doc', set_) := set_lines sec k (Some v) false doc in
  sm_ini_get doc' sec k = (if set_ : bool then Some v else None).
Proof.
  induction doc as [|l doc IH]; simpl; [done|]. destruct (is_setting sec k l) eqn:Hs; cbn [negb].
  - pose proof (set_lines_retired sec k (Some v) true doc (or_intror eq_refl)) as [H1 H2].
    destruct (set_lines sec k (Some v) true doc) as [rest r]. simpl in *. subst r. rewrite H1.
    change (is_setting sec k (IniLine None (section l) (key l) (Some v) (comment l) (header l))) with (is_setting sec k l).
    by rewrite Hs.
  - destruct (set_lines sec k (Some v) false doc) as [rest r]. simpl in *. rewrite IH, Hs. by destruct r.
Qed.

Lemma insert_line_spec doc at_ l doc' : insert_line doc at_ l = Some doc' ->
  exists d1 d2, doc = d1 ++ d2 /\ doc' = d1 ++ l :: d2 /\ d1 = take at_ doc.
Proof.
  unfold insert_line. destruct (_ <=? _); [done|]. intros [= <-]. exists (take at_ doc), (drop at_ doc).
  by rewrite take_drop.
Qed.

(** The shape of an append: a line, and a header before it when the section is new. *)
Lemma sm_ini_append_spec doc sec k v doc' : sm_ini_append doc sec k v = Some doc' ->
  args_valid sec k (Some v) = true /\
  let line := IniLine None sec (Some k) (Some v) None false in
  (exists at_ d1 d2, section_end sec 0 doc None = Some at_ /\ d1 = take at_ doc /\ doc = d1 ++ d2 /\
     doc' = d1 ++ line :: d2) \/
  (section_end sec 0 doc None = None /\ doc' = doc ++ [IniLine None sec None None None true; line]).
Proof.
  unfold sm_ini_append. destruct (args_valid sec k (Some v)); [|done]. cbn [negb]. intros H. split; [done|]. revert H.
  destruct (section_end sec 0 doc None) as [at_|].
  - intros (d1 & d2 & Hd & -> & Ht)%insert_line_spec. left. eauto 10.
  - destruct (insert_line doc _ _) as [doc1|] eqn:H1; [|done]. apply insert_end in H1 as ->. intros H2%insert_end.
    right. split; [done|]. by rewrite H2, <-app_assoc.
Qed.

Lemma append_get doc sec k v doc' sec' k' : sm_ini_append doc sec k v = Some doc' ->
  (~ same_setting sec k sec' k' -> sm_ini_get doc' sec' k' = sm_ini_get doc sec' k') /\
  (sm_ini_get doc sec k = None -> sm_ini_get doc' sec k = Some v).
Proof.
  intros [_ Happ]%sm_ini_append_spec. cbn zeta in Happ. set (line := IniLine None sec (Some k) (Some v) None false) in *.
  assert (Hsame : is_setting sec k line = true) by (apply is_setting_true; by exists k).
  assert (Hother : ~ same_setting sec k sec' k' -> is_setting sec' k' line = false).
  { intros Hne. destruct (is_setting sec' k' line) eqn:H; [|done]. by destruct Hne; eapply is_setting_same. }
  destruct Happ as [(at_ & d1 & d2 & _ & _ & -> & ->)|[_ ->]].
  - rewrite !sm_ini_get_app. simpl. split.
    + intros Hne. rewrite (Hother Hne). by destruct (sm_ini_get d2 sec' k').
    + rewrite Hsame. destruct (sm_ini_get d2 sec k); [done|]. done.
  - rewrite !sm_ini_get_app. simpl. split; [intros Hne; by rewrite (Hother Hne)|]. by rewrite Hsame.
Qed.

(** ** Editing: documents stay good *)
Definition edit_names_ok (sec k : text) : Prop := section_ok sec /\ key_ok k.

Lemma generated_setting_ok sec k v : key_ok k -> line_ok (IniLine None sec (Some k) (Some v) None false).
Proof. intros Hk. split; simpl; try done. intros k' [= <-]. by split_and!. Qed.

Lemma generated_header_ok sec : section_ok sec -> line_ok (IniLine None sec None None None true).
Proof. intros Hs. by split. Qed.

Lemma set_lines_ok sec k v b doc : Forall line_ok doc ->
  Forall line_ok (set_lines sec k v b doc).1 /\
  Forall2 (fun l l' => section l' = section l /\ header l' = header l) doc (set_lines sec k v b doc).1.
Proof.
  intros Hok. revert b. induction Hok as [|l doc Hl _ IH]; intros b; simpl; [by split; [|apply Forall2_nil]|].
  assert (Hcons : forall b' l', line_ok l' -> section l' = section l -> header l' = header l ->
    Forall line_ok (l' :: (set_lines sec k v b' doc).1) /\
    Forall2 (fun l l' => section l' = section l /\ header l' = header l) (l :: doc)
      (l' :: (set_lines sec k v b' doc).1)).
  { intros b' l' Hl' Hs Hh. destruct (IH b'). split; [by apply Forall_cons_2|]. by apply Forall2_cons. }
  destruct (is_setting sec k l) eqn:Hs; cbn [negb].
  2: { pose proof (Hcons b l Hl eq_refl eq_refl) as H. by destruct (set_lines sec k v b doc). }
  apply is_setting_true in Hs as (k' & Hk & _). destruct (lo_key l Hl k' Hk) as (Hko & _ & Hh).
  assert (Hret : line_ok (IniLine (comment l) (section l) None None None (header l))).
  { split; simpl; [done|done|by rewrite Hh|]. intros r Hr. pose proof (lo_comment l Hl r Hr) as Hc.
    split; [left; apply Hc|]. rewrite Hh. by apply comment_meaning. }
  assert (Hset : forall v', line_ok (IniLine None (section l) (key l) (Some v') (comment l) (header l))).
  { intros v'. split; simpl; [|apply Hl|by rewrite Hh|done]. intros k2 Hk2. rewrite Hk in Hk2. injection Hk2 as <-. by split_and!. }
  destruct v as [v'|], b;
    [pose proof (Hcons true _ Hret eq_refl eq_refl) as H|pose proof (Hcons true _ (Hset v') eq_refl eq_refl) as H|
     pose proof (Hcons true _ Hret eq_refl eq_refl) as H|pose proof (Hcons false _ Hret eq_refl eq_refl) as H];
    by destruct (set_lines _ _ _ _ doc).
Qed.

Lemma after_line c l : after_meaning c (line_meaning l) = if header l then section l else c.
Proof. unfold line_meaning. destruct (header l); [done|]. by destruct (key l), (value l). Qed.

Lemma consistent_shape ctx doc doc' : Forall2 (fun l l' => section l' = section l /\ header l' = header l) doc doc' ->
  consistent ctx doc -> consistent ctx doc'.
Proof.
  intros H. revert ctx. induction H as [|l l' d d' [Hs Hh] _ IH]; intros ctx; simpl; [done|].
  rewrite !after_line, Hs, Hh. intros [H1 H2]. split; [done|]. by apply IH.
Qed.

(** The section a line was put after. *)
Lemma section_end_found sec i doc found at_ : section_end sec i doc found = Some at_ ->
  found = Some at_ \/ exists d1 l d2, doc = d1 ++ l :: d2 /\ at_ = (i + S (length d1))%nat /\ same_text (section l) sec.
Proof.
  revert i found. induction doc as [|l doc IH]; intros i found; simpl; [by left|]. intros H.
  destruct (IH (S i) _ H) as [Hf|(d1 & l' & d2 & -> & -> & Hs)].
  - destruct (strcasecmp_eq (section l) sec) eqn:Hs; [|by left]. injection Hf as <-. right.
    exists [], l, doc. split_and!; [done|simpl; lia|by apply strcasecmp_eq_true].
  - right. exists (l :: d1), l', d2. split_and!; [done|simpl; lia|done].
Qed.

Lemma append_ok doc sec k v doc' : doc_ok doc -> edit_names_ok sec k ->
  sm_ini_append doc sec k v = Some doc' -> doc_ok doc'.
Proof.
  intros [Hok Hc] [Hsec Hk] [_ Happ]%sm_ini_append_spec. cbn zeta in Happ.
  pose proof (generated_setting_ok sec k v Hk) as Hl. set (line := IniLine None sec (Some k) (Some v) None false) in *.
  destruct Happ as [(at_ & d1 & d2 & Hend & Ht & -> & ->)|[_ ->]].
  - apply Forall_app in Hok as [Hok1 Hok2]. split; [apply Forall_app_2; [done|by apply Forall_cons_2]|].
    apply consistent_app in Hc as [Hc1 Hc2]. apply consistent_app. split; [done|]. simpl. split; [|done].
    apply section_end_found in Hend as [|(e1 & l & e2 & Hd & -> & Hs)]; [done|].
    assert (Hd1 : d1 = e1 ++ [l]).
    { rewrite Ht, Hd. change (e1 ++ l :: e2) with (e1 ++ [l] ++ e2). rewrite app_assoc.
      apply (take_app_length' (e1 ++ [l]) e2). rewrite length_app. simpl. lia. }
    rewrite Hd1 in Hc1 |- *. apply consistent_app in Hc1 as [_ [Hl1 _]].
    unfold after_lines. rewrite foldl_app. simpl. fold (after_lines [] e1). by rewrite <-Hl1, Hs.
  - split; [apply Forall_app_2; [done|]; repeat apply Forall_cons_2; [by apply generated_header_ok|done|done]|].
    apply consistent_app. split; [done|]. simpl. done.
Qed.

Lemma set_ok doc sec k v doc' : doc_ok doc -> edit_names_ok sec k -> sm_ini_set doc sec k v = Some doc' -> doc_ok doc'.
Proof.
  intros [Hok Hc] Hn. unfold sm_ini_set. destruct (negb _); [done|].
  destruct (set_lines_ok sec k v false doc Hok) as [Hok' Hshape].
  destruct (set_lines sec k v false doc) as [doc1 b]. simpl in *.
  assert (Hd : doc_ok doc1) by (split; [done|by eapply consistent_shape]).
  destruct v as [v'|]; [|by intros [= <-]]. destruct b; [by intros [= <-]|]. by apply append_ok.
Qed.

Lemma rename_ok doc old name doc' : doc_ok doc -> section_ok name -> old <> [] ->
  sm_ini_rename_section doc old name = Some doc' -> doc_ok doc'.
Proof.
  intros [Hok Hc] Hn Hold. unfold sm_ini_rename_section. destruct (_ || _); [done|]. intros Hd. apply Some_inj in Hd as <-.
  split.
  - apply Forall_fmap. eapply Forall_impl; [exact Hok|]. intros l Hl. unfold compose.
    destruct (strcasecmp_eq _ _); [|done]. destruct Hl as [H1 H2 H3 H4]. split; simpl; [done|done| |].
    + intros Hh. split; [done|]. by destruct (H3 Hh).
    + destruct (header l) eqn:Hh; [done|]. intros r Hr. destruct (H4 r Hr) as [Ht Hm]. split; [done|].
      unfold line_meaning in *. simpl. by rewrite Hh in Hm.
  - assert (Hgen : forall c c', (same_text c old -> c' = name) -> (~ same_text c old -> same_text c c') ->
      consistent c doc -> consistent c' ((fun l => if strcasecmp_eq (section l) old
        then IniLine (if header l then None else raw l) name (key l) (value l) (comment l) (header l) else l) <$> doc)).
    2: { apply (Hgen [] []); [|done|done]. intros Hs. unfold same_text in Hs. symmetry in Hs. by apply fmap_nil_inv in Hs. }
    clear Hc Hok. induction doc as [|l doc IH]; intros c c' Hc1 Hc2; [done|]. rewrite fmap_cons. cbn [consistent].
    rewrite !after_line. intros [Hl Hd]. destruct (strcasecmp_eq (section l) old) eqn:Hs.
    + apply strcasecmp_eq_true in Hs. cbn [section header]. destruct (header l).
      * split; [done|]. apply (IH (section l) name); [done|done|done].
      * rewrite Hl in Hs. rewrite (Hc1 Hs). split; [done|]. by apply (IH c name).
    + assert (Hno : ~ same_text (section l) old) by (rewrite <-strcasecmp_eq_true; congruence).
      destruct (header l).
      * split; [done|]. by apply (IH (section l) (section l)).
      * assert (Hcn : ~ same_text c old) by (by rewrite <-Hl). split; [rewrite Hl; by apply Hc2|]. by apply (IH c c').
Qed.

Lemma remove_ok doc sec : doc_ok doc -> doc_ok (sm_ini_remove_section doc sec).
Proof.
  intros [Hok Hc]. unfold sm_ini_remove_section. rewrite Forall_forall in Hok.
  split; [apply Forall_forall; intros l [_ Hin]%list_elem_of_filter; by apply Hok|].
  assert (Hgen : forall c c', (~ same_text c sec -> same_text c c') -> consistent c doc ->
    consistent c' (filter (fun l => strcasecmp_eq sec (section l) = false) doc)).
  2: { by apply (Hgen [] []). }
  clear Hc Hok. induction doc as [|l doc IH]; intros c c' Hcc Hcd; [done|].
  cbn [consistent] in Hcd. rewrite !after_line in Hcd. destruct Hcd as [Hl Hd].
  destruct (strcasecmp_eq sec (section l)) eqn:Hs.
      - rewrite filter_cons_False by congruence. apply strcasecmp_eq_true in Hs. destruct (header l).
    + apply (IH (section l)); [|done]. intros Hn. by destruct Hn.
    + apply (IH c); [|done]. intros Hn. destruct Hn. by rewrite <-Hl.
  - rewrite filter_cons_True by done. cbn [consistent]. rewrite after_line.
    assert (Hno : ~ same_text sec (section l)) by (rewrite <-strcasecmp_eq_true; congruence).
    destruct (header l).
    + split; [done|]. by apply (IH (section l)).
    + assert (Hcn : ~ same_text c sec) by (intros Hx; apply Hno; by rewrite Hl, Hx).
      split; [rewrite Hl; by apply Hcc|]. by apply (IH c).
Qed.

(** ** Histories of edits *)
Inductive ini_edit :=
  | ESet (sec k : text) (v : option text)
  | EAppend (sec k v : text)
  | ERename (old name : text)
  | ERemove (sec : text).

Definition run_edit (doc : sm_ini_t) (e : ini_edit) : option sm_ini_t :=
  match e with
  | ESet sec k v => sm_ini_set doc sec k v
  | EAppend sec k v => sm_ini_append doc sec k v
  | ERename old name => sm_ini_rename_section doc old name
  | ERemove sec => Some (sm_ini_remove_section doc sec)
  end.

Fixpoint run_edits (doc : sm_ini_t) (es : list ini_edit) : option sm_ini_t :=
  match es with [] => Some doc | e :: es' => do? doc' <- run_edit doc e ; run_edits doc' es' end.

(** The names an edit introduces can be told apart from the syntax around them. *)
Definition edit_ok (e : ini_edit) : Prop :=
  match e with
  | ESet sec k _ | EAppend sec k _ => edit_names_ok sec k
  | ERename old name => section_ok name /\ old <> []
  | ERemove _ => True
  end.

Lemma run_edits_ok doc es doc' : doc_ok doc -> Forall edit_ok es -> run_edits doc es = Some doc' -> doc_ok doc'.
Proof.
  intros Hd He. revert doc Hd. induction He as [|e es He _ IH]; intros doc Hd; simpl; [by intros [= <-]|].
  destruct (run_edit doc e) as [doc1|] eqn:Hr; [|done]. apply IH.
  destruct e; simpl in *; [by eapply set_ok|by eapply append_ok|destruct He; by eapply rename_ok|].
  injection Hr as <-. by apply remove_ok.
Qed.

(** Setting a value: the lemma behind the theorem. *)
Lemma set_get doc sec k v doc' sec' k' : sm_ini_set doc sec k v = Some doc' ->
  sm_ini_get doc' sec k = v /\ (~ same_setting sec k sec' k' -> sm_ini_get doc' sec' k' = sm_ini_get doc sec' k').
Proof.
  unfold sm_ini_set. destruct (negb _); [done|]. destruct v as [v|].
  - pose proof (set_lines_set sec k v doc) as Hset. pose proof (set_lines_other sec k (Some v) false doc sec' k') as Ho.
    destruct (set_lines sec k (Some v) false doc) as [doc1 b]. simpl in Ho. destruct b; [by intros [= <-]|].
    intros Happ. destruct (append_get _ _ _ _ _ sec' k' Happ) as [H1 H2]. split; [by apply H2|].
    intros Hne. rewrite H1 by done. by apply Ho.
  - pose proof (set_lines_retired sec k None false doc (or_introl eq_refl)) as [Hr _].
    pose proof (set_lines_other sec k None false doc sec' k') as Ho.
    destruct (set_lines sec k None false doc) as [doc1 b]. intros [= <-]. by split.
Qed.

Lemma set_get_same doc sec k v doc' sec' k' : sm_ini_set doc sec k v = Some doc' -> same_setting sec k sec' k' ->
  sm_ini_get doc' sec' k' = v.
Proof.
  intros Hs [H1 H2]. destruct (set_get doc sec k v doc' sec k Hs) as [<- _].
  assert (Heq : forall l, is_setting sec' k' l = is_setting sec k l).
  { intros l. unfold is_setting. destruct (key l) as [x|]; [|done].
    by rewrite (strcasecmp_eq_proper sec sec' H1 (section l) (section l) (reflexivity _)),
      (strcasecmp_eq_proper k k' H2 x x (reflexivity _)). }
  clear Hs. induction doc' as [|l d IH]; simpl; [done|]. by rewrite IH, Heq.
Qed.

(** ** Migration *)
#[export] Instance config_key_eq_dec : EqDecision sm_config_key_t.
Proof. solve_decision. Defined.

(** The last non-empty value an old file gives to a setting. *)
Fixpoint legacy_value (m : sm_config_key_t) (old : sm_ini_t) : option text :=
  match old with
  | [] => None
  | l :: old' =>
      match legacy_value m old' with
      | Some v => Some v
      | None =>
          match key l, value l with
          | Some k, Some ((_ :: _) as v) => if bool_decide (sm_config_find_legacy k = Some m) then Some v else None
          | _, _ => None
          end
      end
  end.

Definition get_key (doc : sm_ini_t) (m : sm_config_key_t) : option text :=
  sm_ini_get doc (lit (ck_section m)) (lit (ck_key m)).

Definition same_setting_b (m m' : sm_config_key_t) : bool :=
  strcasecmp_eq (lit (ck_section m)) (lit (ck_section m')) && strcasecmp_eq (lit (ck_key m)) (lit (ck_key m')).

(** No two rows of the table name one setting. *)
Lemma keys_distinct m m' : m ∈ sm_config_keys -> m' ∈ sm_config_keys -> m <> m' ->
  ~ same_setting (lit (ck_section m)) (lit (ck_key m)) (lit (ck_section m')) (lit (ck_key m')).
Proof.
  intros Hm Hm' Hne Hs.
  assert (Hall : forallb (fun a => forallb (fun b => bool_decide (a = b) || negb (same_setting_b a b)) sm_config_keys)
    sm_config_keys = true) by (vm_compute; reflexivity).
  rewrite forallb_forall in Hall. specialize (Hall m ltac:(by apply list_elem_of_In)).
  rewrite forallb_forall in Hall. specialize (Hall m' ltac:(by apply list_elem_of_In)).
  rewrite bool_decide_false in Hall by done. destruct Hs as [H1 H2].
  unfold same_setting_b in Hall. apply strcasecmp_eq_true in H1, H2. by rewrite H1, H2 in Hall.
Qed.

Lemma find_legacy_elem k m : sm_config_find_legacy k = Some m -> m ∈ sm_config_keys.
Proof.
  unfold sm_config_find_legacy. intros (i & _ & Hi)%bind_Some. by eapply list_elem_of_lookup_2.
Qed.

Lemma import_rule_get m l config profiles rec config' profiles' rec' :
  import_rule false l config profiles rec = Some (config', profiles', rec') ->
  m ∈ sm_config_keys -> ck_legacy m <> "scanpath"%string ->
  get_key config' m = match legacy_value m [l] with Some v => Some v | None => get_key config m end.
Proof.
  intros Hi Hm Hsp. unfold import_rule in Hi. simpl. destruct (key l) as [k|]; [|by injection Hi as <- _ _].
  destruct (value l) as [[|a v]|]; [by injection Hi as <- _ _| |by injection Hi as <- _ _].
  destruct (sm_config_find_legacy k) as [m'|] eqn:Hf.
  - pose proof (find_legacy_elem k m' Hf) as Hm'. destruct (decide (m' = m)) as [->|Hne].
    + rewrite bool_decide_true by done. destruct (strcmp_eq (ck_legacy m) "scanpath") eqn:Hs;
        [by apply strcmp_eq_true in Hs|].
      destruct (sm_ini_set _ _ _ _) as [c|] eqn:Hset; [|done]. injection Hi as <- _ _. by apply (set_get _ _ _ _ _ [] []) in Hset as [? _].
    + rewrite bool_decide_false by congruence. unfold get_key.
      pose proof (keys_distinct m' m Hm' Hm Hne) as Hd.
      destruct (strcmp_eq _ _).
      * destruct (sm_ini_append _ _ _ _) as [c|] eqn:Happ; [|done]. injection Hi as <- _ _.
        by apply (append_get _ _ _ _ _ (lit (ck_section m)) (lit (ck_key m))) in Happ as [H _]; apply H.
      * destruct (sm_ini_set _ _ _ _) as [c|] eqn:Hset; [|done]. injection Hi as <- _ _.
        by apply (set_get _ _ _ _ _ (lit (ck_section m)) (lit (ck_key m))) in Hset as [_ H]; apply H.
  - rewrite bool_decide_false by done. revert Hi. cbn [negb andb].
    destruct (strcasecmp_eq k (lit "recursive_scan")).
    { destruct (negb _ && negb _); [done|]. by intros [= <- _ _]. }
    destruct (_ <=? _)%nat; [done|]. destruct (legacy_rule _ _ _) as [[[[[p x] s] y]|]|]; [|by intros [= <- _ _]|done].
    destruct (sm_ini_set profiles _ _ _); [|done]. by intros [= <- _ _].
Qed.

Lemma import_lines_get m old config profiles rec config' profiles' rec' :
  import_lines false old config profiles rec = Some (config', profiles', rec') ->
  m ∈ sm_config_keys -> ck_legacy m <> "scanpath"%string ->
  get_key config' m = match legacy_value m old with Some v => Some v | None => get_key config m end.
Proof.
  intros Hi Hm Hsp. revert config profiles rec Hi. induction old as [|l old IH]; intros config profiles rec;
    cbn [import_lines]; [by intros [= <- _ _]|].
  destruct (import_rule false l config profiles rec) as [[[c1 p1] r1]|] eqn:Hr; [|done]. intros Hi.
  rewrite (IH c1 p1 r1 Hi), (import_rule_get m l config profiles rec c1 p1 r1 Hr Hm Hsp).
  cbn [legacy_value]. by destruct (legacy_value m old).
Qed.

(** * Theorems *)

(** Claim C4: editing then writing a document and reading it back loses nothing:
    for a document read from any file and changed by any history of set, append,
    rename and remove edits whose names cannot be mistaken for syntax, when the
    write succeeds and the file stays within the reader's line limits, the file
    reads back successfully and every lookup (case-insensitive, last line wins)
    gives the same value; a write that fails before its rename leaves the old
    file. *)
Theorem ini_write_read f doc es doc' io path old :
  sm_ini_read f false = Some doc -> Forall edit_ok es -> run_edits doc es = Some doc' ->
  let '(ok, f') := sm_ini_write io path old doc' in
  (ok = false -> f' = old \/ io = SyncFails) /\
  (ok = true -> exists content, f' = IniFile content /\
     (Forall (fun l => Z.of_nat (length l) < INI_LINE_MAX) (split_lines content) ->
      Z.of_nat (length (split_lines content)) <= INI_MAX_LINES ->
      exists doc'', sm_ini_read f' false = Some doc'' /\
        forall sec k, sm_ini_get doc'' sec k = sm_ini_get doc' sec k)).
Proof.
  intros Hread He Hrun. pose proof (run_edits_ok doc es doc' (sm_ini_read_ok f doc Hread) He Hrun) as Hok.
  unfold sm_ini_write. destruct (_ <=? _)%nat; [by split; [left|]|].
  destruct (print_lines doc') as [content|] eqn:Hp; [|by split; [left|]].
  destruct (Z.ltb_spec INI_MAX_BYTES (Z.of_nat (length content))); [by split; [left|]|].
  destruct io; [by split; [left|]|by split; [right|]|]. split; [done|]. intros _. exists content. split; [done|].
  intros Hlen Hcount. by apply print_read.
Qed.

(** A file with two sections, a quoted value and comments. *)
Definition demo_file : text :=
  lit "# settings" ++ [newline] ++ lit "[Scan]" ++ [newline] ++
  lit "path = " ++ [dquote] ++ lit "/data/a #1" ++ [dquote] ++ lit " ; first" ++ [newline] ++
  lit "depth=2" ++ [newline] ++ lit "[api]" ++ [newline] ++ lit "port = 80" ++ [newline].

Definition demo_edits : list ini_edit :=
  [ESet (lit "scan") (lit "PATH") (Some (lit " /data/b;2 ")); ESet (lit "api") (lit "port") None;
   EAppend (lit "api") (lit "enabled") (lit "on"); ESet (lit "fan") (lit "target_temperature") (Some (lit "60"))].

Lemma demo_names sec k : edges sec -> plain sec -> sec <> [] -> (length sec < SECTION_SIZE)%nat ->
  brackets_ok sec = true -> edges k -> plain k ->
  Forall (fun a => Ascii.eqb "="%char a = false) k ->
  match k with [] => False | a :: _ => Ascii.eqb a "["%char = false /\ comment_char a = false end ->
  edit_names_ok sec k.
Proof. intros. unfold edit_names_ok, section_ok, key_ok. tauto. Qed.

Lemma ini_write_read_witness :
  exists doc doc', sm_ini_read (IniFile demo_file) false = Some doc /\ run_edits doc demo_edits = Some doc' /\
  let '(ok, f') := sm_ini_write WriteDone "/data/shadowmount/config.ini" IniMissing doc' in
  (ok = false -> f' = IniMissing \/ WriteDone = SyncFails) /\
  (ok = true -> exists content, f' = IniFile content /\
     (Forall (fun l => Z.of_nat (length l) < INI_LINE_MAX) (split_lines content) ->
      Z.of_nat (length (split_lines content)) <= INI_MAX_LINES ->
      exists doc'', sm_ini_read f' false = Some doc'' /\
        forall sec k, sm_ini_get doc'' sec k = sm_ini_get doc' sec k)).
Proof.
  eexists _, _. split; [vm_compute; reflexivity|]. split; [vm_compute; reflexivity|].
  eapply (ini_write_read (IniFile demo_file) _ demo_edits).
  - vm_compute. reflexivity.
  - assert (Hp : forall s, forallb (fun a => negb (Ascii.eqb a newline) && negb (Ascii.eqb a nul)) s = true -> plain s).
    { intros s Hs. apply Forall_forall. intros a Ha. rewrite forallb_forall in Hs.
      specialize (Hs a ltac:(by apply list_elem_of_In)). split; intros ->; done. }
    repeat (apply Forall_cons_2; [apply demo_names; try done; try (by apply Hp);
      try (vm_compute; lia); repeat (apply Forall_cons_2; [done|]); try done|]). apply Forall_nil_2.
  - vm_compute. reflexivity.
Defined.

(** setting a value makes a lookup of that setting return it, in any
    spelling of the names, and removes it when the value is NULL, whatever
    duplicates the document held; every other setting keeps its value. *)
Theorem ini_set_get doc sec k v doc' : sm_ini_set doc sec k v = Some doc' -> forall sec' k',
  sm_ini_get doc' sec' k' =
    if strcasecmp_eq sec sec' && strcasecmp_eq k k' then v else sm_ini_get doc sec' k'.
Proof.
  intros Hs sec' k'. destruct (strcasecmp_eq sec sec' && strcasecmp_eq k k') eqn:Hb.
  - apply andb_true_iff in Hb as [H1 H2]. eapply set_get_same; [done|]. by split; apply strcasecmp_eq_true.
  - destruct (set_get doc sec k v doc' sec' k' Hs) as [_ Hother]. apply Hother. intros [H1 H2].
    apply strcasecmp_eq_true in H1, H2. by rewrite H1, H2 in Hb.
Qed.

Lemma ini_set_get_witness :
  let doc := default [] (sm_ini_read (IniFile demo_file) false) in
  exists doc', sm_ini_set doc (lit "SCAN") (lit "path") (Some (lit "/b")) = Some doc' /\ forall sec' k',
  sm_ini_get doc' sec' k' =
    if strcasecmp_eq (lit "SCAN") sec' && strcasecmp_eq (lit "path") k' then Some (lit "/b") else sm_ini_get doc sec' k'.
Proof.
  intros doc. eexists. split; [vm_compute; reflexivity|].
  eapply (ini_set_get doc (lit "SCAN") (lit "path") (Some (lit "/b"))). vm_compute. reflexivity.
Defined.

(** migrating an old configuration keeps every setting of the table:
    after [import_rules] succeeds, each setting other than the scan paths and the
    scan depth has the last non-empty value the old file gave to it under any of
    its old names, and the value it had before when the old file gave none. *)
Theorem import_rules_settings old config profiles config' profiles' m :
  import_rules old config profiles false = Some (config', profiles') ->
  m ∈ sm_config_keys -> ck_legacy m <> "scanpath"%string -> ck_legacy m <> "scan_depth"%string ->
  sm_ini_get config' (lit (ck_section m)) (lit (ck_key m)) =
    match legacy_value m old with
    | Some v => Some v
    | None => sm_ini_get config (lit (ck_section m)) (lit (ck_key m))
    end.
Proof.
  unfold import_rules. intros Hi Hm Hsp Hd.
  destruct (import_lines false old config profiles false) as [[[c p] r]|] eqn:Hl; [|done].
  pose proof (import_lines_get m old config profiles false c p r Hl Hm Hsp) as Hget. unfold get_key in Hget.
  rewrite <-Hget. destruct r; [|by injection Hi as <- _].
  destruct (sm_ini_set c _ _ _) as [c2|] eqn:Hs; [|done]. injection Hi as <- _.
  apply (set_get _ _ _ _ _ (lit (ck_section m)) (lit (ck_key m))) in Hs as [_ Hs]. apply Hs.
  apply (keys_distinct (ConfigKey "scan" "depth" "scan_depth") m); [|done|by intros <-].
  apply list_elem_of_lookup. exists 7%nat. reflexivity.
Qed.

(** An old file with an alias and a duplicate. *)
Definition demo_old : sm_ini_t :=
  default [] (sm_ini_read (IniFile (lit "Lang = de" ++ [newline] ++ lit "garbage" ++ [newline] ++
    lit "language = fr # x" ++ [newline] ++ lit "recursive_scan = yes" ++ [newline])) true).

Lemma import_rules_settings_witness :
  exists config' profiles', import_rules demo_old [] [] false = Some (config', profiles') /\
  legacy_value (ConfigKey "general" "language" "language") demo_old = Some (lit "fr") /\
  sm_ini_get config' (lit "general") (lit "language") =
    match legacy_value (ConfigKey "general" "language" "language") demo_old with
    | Some v => Some v
    | None => sm_ini_get [] (lit "general") (lit "language")
    end.
Proof.
  eexists _, _. split; [vm_compute; reflexivity|]. split; [vm_compute; reflexivity|].
  eapply (import_rules_settings demo_old [] [] _ _ (ConfigKey "general" "language" "language")).
  - vm_compute. reflexivity.
  - apply list_elem_of_lookup. exists 3%nat. reflexivity.
  - done.
  - done.
Defined.

(** a malformed line of an old file is skipped, but one malformed line
    is not: a line with an empty key ("= x") makes the whole file unreadable,
    whatever the other lines say, although it is malformed like the lines without
    "=" that are skipped. *)
Theorem legacy_empty_key_rejected sec before after x doc :
  read_lines true sec (before ++ [lit "= " ++ x] ++ after) doc = None /\
  sm_ini_read (IniFile (lit "no equals sign" ++ [newline])) true = Some [].
Proof.
  split; [|vm_compute; reflexivity]. revert sec doc. induction before as [|l before IH]; intros sec doc;
    cbn [app read_lines].
  - destruct (negb _); [done|].
    assert (Hp : exists s, parse_line true sec (lit "= " ++ x) = inr (true, s)).
    { unfold parse_line. assert (Ht : exists t, trim (lit "= " ++ x) = "="%char :: t).
      { pose proof (skip_space_trim (lit "= " ++ x)) as [b Hb].
        change (skip_space (lit "= " ++ x)) with ("="%char :: space :: x) in Hb.
        destruct (trim_split (lit "= " ++ x)) as (a1 & b1 & Ha & Hb1 & Hs).
        destruct (trim (lit "= " ++ x)) as [|c t]; [|injection Hb as <- _; eauto].
        destruct a1 as [|z a1]; simpl in Hs.
        - rewrite <-Hs in Hb1. apply Forall_cons_1 in Hb1 as [Hb1 _]. done.
        - injection Hs as <- _. apply Forall_cons_1 in Ha as [Ha _]. done. }
      destruct Ht as [t ->]. simpl. eauto. }
    destruct Hp as [s ->]. done.
  - destruct (negb (line_fits l)); [done|]. destruct (parse_line true sec l) as [[line s]|[ks s]].
    + destruct (insert_line _ _ _); [apply IH|done].
    + destruct (true && negb ks); [apply IH|done].
Qed.
