(* ===== verification/SelfReader.v ===== *)
(** * Original file names of executables (src/sm_self.c)

    Reading the name an executable (an ELF file, plain or inside a SELF
    container) was linked with, from untrusted bytes.

    Reads of the 8192-byte header buffer go through [slice] and [le_at]: [None]
    of the outer [option] is an access outside a buffer.  A read of the file is
    recorded with its range; its failure is [None] of the inner [option]. *)
From S2P Require Import Prelude CString Bytes.
Open Scope c_scope.

Definition HEADER_BYTES : Z := 8192.
Definition PHDR_SIZE : Z := 56.

Definition executable_range (offset size limit : Z) : bool := (offset <=? limit) && (size <=? limit - offset).

(** The file ([fd]) and what the reader knows of it. *)
Record executable_reader_t := Reader {
  rd_file : list Z; rd_size : Z; rd_elf : Z; rd_phoff : Z; rd_segments : Z; rd_phnum : Z;
  rd_header : list Z;
}.

(** [pread] until [size] bytes arrived; the file ends at its last byte. *)
Definition file_read_at (file : list Z) (offset size : Z) : option (list Z) :=
  if size =? 0 then Some [] else slice file offset size.

Definition executable_phdr (r : executable_reader_t) (index : Z) : Z :=
  rd_elf r + rd_phoff r + index * PHDR_SIZE.

(** ** Reading bytes of a segment *)

(** The segment loop for program header [i] from segment [j] on: where the bytes
    [rel] of the segment lie in the file. *)
Fixpoint find_segment (r : executable_reader_t) (i rel size : Z) (n : nat) (j : Z) : option (option Z) :=
  match n with
  | O => Some None
  | S n' =>
      let segment := 32 + j * 32 in
      do? flags <- le_at (rd_header r) segment 8 ;
      do? physical <- le_at (rd_header r) (segment + 8) 8 ;
      do? stored <- le_at (rd_header r) (segment + 16) 8 ;
      do? unpacked <- le_at (rd_header r) (segment + 24) 8 ;
      if negb (Z.land (Z.shiftr flags 20) 0xffff =? i) || (Z.land flags 0x800 =? 0) ||
         negb (Z.land flags 0xa =? 0) || negb (stored =? unpacked) ||
         (physical <? rd_elf r + rd_phoff r + rd_phnum r * PHDR_SIZE) ||
         negb (executable_range physical stored (rd_size r)) || negb (executable_range rel size stored)
      then find_segment r i rel size n' (j + 1)
      else Some (Some (u64 (physical + rel)))
  end.

(** The program header loop from header [i] on: the file offset of the bytes. *)
Fixpoint find_bytes (r : executable_reader_t) (offset size : Z) (n : nat) (i : Z) : option (option Z) :=
  match n with
  | O => Some None
  | S n' =>
      let ph := executable_phdr r i in
      do? start <- le_at (rd_header r) (ph + 8) 8 ;
      do? bytes <- le_at (rd_header r) (ph + 32) 8 ;
      if (offset <? start) || negb (executable_range (offset - start) size bytes)
      then find_bytes r offset size n' (i + 1)
      else
        do? p <- find_segment r i (offset - start) size (Z.to_nat (rd_segments r)) 0 ;
        match p with
        | Some physical => Some (Some physical)
        | None => find_bytes r offset size n' (i + 1)
        end
  end.

(** The bytes, and the ranges of the file that were read. *)
Definition read_executable_bytes (r : executable_reader_t) (offset size : Z) :
    option (option (list Z) * list (Z * Z)) :=
  if rd_segments r =? 0 then
    Some (if executable_range offset size (rd_size r)
          then (file_read_at (rd_file r) offset size, [(offset, size)]) else (None, []))
  else
    do? p <- find_bytes r offset size (Z.to_nat (rd_phnum r)) 0 ;
    Some (match p with
          | Some at_ => (file_read_at (rd_file r) at_ size, [(at_, size)])
          | None => (None, [])
          end).

(** ** The dynamic section *)
Record dyn_state := DynState {
  dy_name : Z; dy_strtab : Z; dy_strsz : Z; dy_sce_strtab : Z; dy_sce_strsz : Z; dy_terminated : bool;
}.

Definition dyn_start : dyn_state := DynState UINT64_MAX UINT64_MAX 0 UINT64_MAX 0 false.

Definition dyn_entry (tag value : Z) (d : dyn_state) : dyn_state :=
  if tag =? 0 then DynState (dy_name d) (dy_strtab d) (dy_strsz d) (dy_sce_strtab d) (dy_sce_strsz d) true
  else
    DynState (if (tag =? 0x61000009) || (tag =? 0x61000041) then value else dy_name d)
      (if tag =? 5 then value else dy_strtab d) (if tag =? 10 then value else dy_strsz d)
      (if tag =? 0x61000035 then value else dy_sce_strtab d)
      (if tag =? 0x61000037 then value else dy_sce_strsz d) false.

(** The entries of one chunk, [n] of them from [i] on. *)
Fixpoint dyn_entries (entries : list Z) (n : nat) (i : Z) (d : dyn_state) : option dyn_state :=
  match n with
  | O => Some d
  | S n' =>
      do? tag <- le_at entries i 8 ;
      do? value <- le_at entries (i + 8) 8 ;
      let d' := dyn_entry tag value d in
      if dy_terminated d' then Some d' else dyn_entries entries n' (i + 16) d'
  end.

(** The chunks from [offset] on; [fuel] chunks at most. *)
Fixpoint dyn_chunks (fuel : nat) (r : executable_reader_t) (dyn_offset dyn_size offset : Z) (d : dyn_state)
    (reads : list (Z * Z)) : option (option dyn_state * list (Z * Z)) :=
  if negb ((offset <? dyn_size) && negb (dy_terminated d)) then Some (Some d, reads)
  else
    match fuel with
    | O => None
    | S fuel' =>
        let bytes := if dyn_size - offset <? 512 then dyn_size - offset else 512 in
        do? (got, rs) <- read_executable_bytes r (u64 (dyn_offset + offset)) bytes ;
        match got with
        | None => Some (None, reads ++ rs)
        | Some entries =>
            do? d' <- dyn_entries entries (Z.to_nat (bytes / 16)) 0 d ;
            dyn_chunks fuel' r dyn_offset dyn_size (offset + bytes) d' (reads ++ rs)
        end
    end.

(** ** The file name *)

(** The last program headers of the two kinds: [dynamic], [dynlib]. *)
Fixpoint scan_phdrs (r : executable_reader_t) (n : nat) (i : Z) (dynamic dynlib : option Z) :
    option (option Z * option Z) :=
  match n with
  | O => Some (dynamic, dynlib)
  | S n' =>
      let ph := executable_phdr r i in
      do? kind <- le_at (rd_header r) ph 4 ;
      scan_phdrs r n' (i + 1) (if kind =? 2 then Some ph else dynamic)
        (if kind =? 0x61000000 then Some ph else dynlib)
  end.

(** Where the loaded segment that holds the string table puts the name. *)
Fixpoint map_string (r : executable_reader_t) (strtab strsz name : Z) (n : nat) (i : Z) : option (option Z) :=
  match n with
  | O => Some None
  | S n' =>
      let ph := executable_phdr r i in
      do? base <- le_at (rd_header r) (ph + 16) 8 ;
      do? size <- le_at (rd_header r) (ph + 32) 8 ;
      do? file_offset <- le_at (rd_header r) (ph + 8) 8 ;
      do? kind <- le_at (rd_header r) ph 4 ;
      if negb (kind =? 1) || (strtab <? base) || negb (executable_range (strtab - base) strsz size) ||
         (UINT64_MAX - (strtab - base) - name <? file_offset)
      then map_string r strtab strsz name n' (i + 1)
      else Some (Some (file_offset + strtab - base + name))
  end.

(** The string's offset in the executable and the size of its table. *)
Definition locate_name (r : executable_reader_t) (dynlib : option Z) (d : dyn_state) :
    option (option (Z * Z)) :=
  if negb (dy_strtab d =? UINT64_MAX) && negb (dy_strsz d =? 0) && (dy_name d <? dy_strsz d) then
    do? p <- map_string r (dy_strtab d) (dy_strsz d) (dy_name d) (Z.to_nat (rd_phnum r)) 0 ;
    Some ((fun o => (o, dy_strsz d)) <$> p)
  else
    match dynlib with
    | Some ph =>
        if negb (dy_sce_strtab d =? UINT64_MAX) && (dy_name d <? dy_sce_strsz d) then
          do? base <- le_at (rd_header r) (ph + 8) 8 ;
          do? size <- le_at (rd_header r) (ph + 32) 8 ;
          Some (if executable_range (dy_sce_strtab d) (dy_sce_strsz d) size &&
                   (base <=? u64 (UINT64_MAX - dy_sce_strtab d - dy_name d))
                then Some (u64 (base + dy_sce_strtab d + dy_name d), dy_sce_strsz d) else None)
        else Some None
    | None => Some None
    end.

Definition ELF_MAGIC : list Z := [127; 69; 76; 70].

(** The container: [None] of the inner option is [return false]. *)
Definition open_container (r : executable_reader_t) : option (option executable_reader_t) :=
  let h := rd_header r in
  do? magic <- le_at h 0 4 ;
  if (magic =? 0xEEF51454) || (magic =? 0x1D3D154F) then
    do? segments <- le_at h 24 2 ;
    do? limit <- le_at h 16 8 ;
    Some (if (segments =? 0) || (64 <? segments) then None
          else Some (Reader (rd_file r) (if limit <? rd_size r then limit else rd_size r)
                       (32 + segments * 32) (rd_phoff r) segments (rd_phnum r) h))
  else Some (Some r).

(** The ELF header: the program headers must lie inside the bytes read. *)
Definition open_elf (r : executable_reader_t) (length_ : Z) : option (option executable_reader_t) :=
  let h := rd_header r in
  let eh := rd_elf r in
  if negb (executable_range eh 64 length_) || negb (executable_range eh 64 (rd_size r)) then Some None
  else
    do? ident <- slice h eh 4 ;
    do? b4 <- le_at h (eh + 4) 1 ;
    do? b5 <- le_at h (eh + 5) 1 ;
    do? b6 <- le_at h (eh + 6) 1 ;
    do? type <- le_at h (eh + 16) 2 ;
    do? machine <- le_at h (eh + 18) 2 ;
    do? phentsize <- le_at h (eh + 54) 2 ;
    if negb (bool_decide (ident = ELF_MAGIC)) || negb (b4 =? 2) || negb (b5 =? 1) || negb (b6 =? 1) ||
       (negb (type =? 3) && negb (type =? 0xfe18)) || negb (machine =? 62) || negb (phentsize =? 56)
    then Some None
    else
      do? phoff <- le_at h (eh + 32) 8 ;
      do? phnum <- le_at h (eh + 56) 2 ;
      Some (if (phnum =? 0) || (64 <? phnum) || (phoff <? 64) ||
               negb (executable_range phoff (phnum * PHDR_SIZE) (length_ - eh)) ||
               negb (executable_range phoff (phnum * PHDR_SIZE) (rd_size r - eh))
            then None
            else Some (Reader (rd_file r) (rd_size r) eh phoff (rd_segments r) phnum h)).

(** The name read from the opened executable, and the ranges read. *)
Definition read_name (r : executable_reader_t) : option (option string * list (Z * Z)) :=
  do? (dynamic, dynlib) <- scan_phdrs r (Z.to_nat (rd_phnum r)) 0 None None ;
  match dynamic with
  | None => Some (None, [])
  | Some ph =>
      do? dyn_size <- le_at (rd_header r) (ph + 32) 8 ;
      do? dyn_offset <- le_at (rd_header r) (ph + 8) 8 ;
      if (65536 <? dyn_size) || negb (dyn_size mod 16 =? 0) || (UINT64_MAX - dyn_size <? dyn_offset)
      then Some (None, [])
      else
        do? (dyn, reads) <- dyn_chunks 128 r dyn_offset dyn_size 0 dyn_start [] ;
        match dyn with
        | None => Some (None, reads)
        | Some d =>
            if negb (dy_terminated d) || (dy_name d =? UINT64_MAX) then Some (None, reads)
            else
              do? place <- locate_name r dynlib d ;
              match place with
              | None => Some (None, reads)
              | Some (string_offset, strsz) =>
                  let bytes := if strsz - dy_name d <? Z.of_nat MAX_PATH then strsz - dy_name d
                               else Z.of_nat MAX_PATH in
                  do? (got, rs) <- read_executable_bytes r string_offset bytes ;
                  Some (match got with
                        | Some out =>
                            if terminated out && negb (default 0 (out !! 0%nat) =? 0)
                            then Some (cstr out) else None
                        | None => None
                        end, reads ++ rs)
              end
        end
  end.

Definition read_executable_filename (r : executable_reader_t) : option (option string * list (Z * Z)) :=
  let length_ := if rd_size r <? HEADER_BYTES then rd_size r else HEADER_BYTES in
  if length_ <? 64 then Some (None, [])
  else
    match file_read_at (rd_file r) 0 length_ with
    | None => Some (None, [(0, length_)])
    | Some first =>
        let header := first ++ drop (length first) (rd_header r) in
        do? c <- open_container (Reader (rd_file r) (rd_size r) (rd_elf r) (rd_phoff r) (rd_segments r)
                                   (rd_phnum r) header) ;
        match c with
        | None => Some (None, [(0, length_)])
        | Some r1 =>
            do? e <- open_elf r1 length_ ;
            match e with
            | None => Some (None, [(0, length_)])
            | Some r2 => do? (out, reads) <- read_name r2 ; Some (out, (0, length_) :: reads)
            end
        end
    end.

(** The opened file: its bytes, the size and times [fstat] gives before, and
    whether it gives the same afterwards. *)
Record self_file := SelfFile {
  sf_open : bool; sf_stat_ok : bool; sf_regular : bool; sf_size : Z; sf_bytes : list Z; sf_unchanged : bool;
}.

(** The name ([None] when the call returns false, [out] is then empty) and the
    ranges of the file read. *)
Definition sm_self_read_original_filename (f : self_file) : option (option string * list (Z * Z)) :=
  if negb (sf_open f) then Some (None, [])
  else if negb (sf_stat_ok f && sf_regular f && (0 <? sf_size f)) then Some (None, [])
  else
    do? (out, reads) <- read_executable_filename
        (Reader (sf_bytes f) (sf_size f) 0 0 0 0 (replicate (Z.to_nat HEADER_BYTES) 0)) ;
    Some (if sf_unchanged f then out else None, reads).

(** ** Safety *)
Definition is_u64 (v : Z) : Prop := 0 <= v <= UINT64_MAX.

(** What the checks before the reads establish. *)
Record reader_ok (r : executable_reader_t) : Prop := {
  ro_file : Forall is_byte (rd_file r);
  ro_header : Forall is_byte (rd_header r);
  ro_length : Z.of_nat (length (rd_header r)) = HEADER_BYTES;
  ro_size : is_u64 (rd_size r);
  ro_segments : 0 <= rd_segments r <= 64;
  ro_phnum : 0 <= rd_phnum r <= 64;
  ro_phdrs : 0 <= rd_elf r /\ 0 <= rd_phoff r /\
    rd_elf r + rd_phoff r + rd_phnum r * PHDR_SIZE <= HEADER_BYTES;
}.

(** A range of the file. *)
Definition in_file (limit : Z) (rg : Z * Z) : Prop := 0 <= rg.1 /\ 0 <= rg.2 /\ rg.1 + rg.2 <= limit.

Lemma executable_range_true o n l : executable_range o n l = true <-> o <= l /\ n <= l - o.
Proof. unfold executable_range. rewrite andb_true_iff, !Z.leb_le. done. Qed.

#[local] Hint Extern 0 (Forall _ []) => apply Forall_nil_2 : core.

Section safety.
Context (r : executable_reader_t) (Hr : reader_ok r).

Lemma header_le offset n : 0 <= offset -> offset + Z.of_nat n <= HEADER_BYTES ->
  exists v, le_at (rd_header r) offset n = Some v /\ 0 <= v < 2 ^ (8 * Z.of_nat n).
Proof. intros Ho Hle. apply le_at_total; [apply Hr|done|]. by rewrite (ro_length _ Hr). Qed.

Lemma header_u64 offset : 0 <= offset -> offset + 8 <= HEADER_BYTES ->
  exists v, le_at (rd_header r) offset 8 = Some v /\ is_u64 v.
Proof.
  intros Ho Hle. destruct (header_le offset 8 Ho ltac:(lia)) as (v & Hv & Hb). exists v.
  split; [done|]. unfold is_u64, UINT64_MAX. change (8 * Z.of_nat 8) with 64 in Hb. lia.
Qed.

(** The fields of a program header are inside the buffer. *)
Lemma phdr_u64 i k : 0 <= i < rd_phnum r -> 0 <= k <= 48 ->
  exists v, le_at (rd_header r) (executable_phdr r i + k) 8 = Some v /\ is_u64 v.
Proof.
  intros Hi Hk. destruct (ro_phdrs _ Hr) as (H1 & H2 & H3). apply header_u64; unfold executable_phdr, PHDR_SIZE in *; nia.
Qed.

Lemma phdr_kind i : 0 <= i < rd_phnum r -> exists v, le_at (rd_header r) (executable_phdr r i) 4 = Some v.
Proof.
  intros Hi. destruct (ro_phdrs _ Hr) as (H1 & H2 & H3).
  destruct (header_le (executable_phdr r i) 4) as (v & Hv & _); [..|by exists v];
    unfold executable_phdr, PHDR_SIZE in *; nia.
Qed.

Lemma find_segment_safe i rel size n j : 0 <= rel -> 0 <= size -> 0 <= j -> j + Z.of_nat n <= 64 ->
  exists p, find_segment r i rel size n j = Some p /\
    forall at_, p = Some at_ -> in_file (rd_size r) (at_, size).
Proof.
  intros Hrel Hsize. revert j. induction n as [|n IH]; intros j Hj Hn; cbn [find_segment]; [by eexists|].
  assert (Hh : HEADER_BYTES = 8192) by done.
  destruct (header_u64 (32 + j * 32)) as (flags & -> & _); [lia..|].
  destruct (header_u64 (32 + j * 32 + 8)) as (physical & -> & Hp); [lia..|].
  destruct (header_u64 (32 + j * 32 + 16)) as (stored & -> & Hs); [lia..|].
  destruct (header_u64 (32 + j * 32 + 24)) as (unpacked & -> & _); [lia..|].
  destruct (_ || _) eqn:Hb; [apply IH; lia|]. apply orb_false_iff in Hb as [Hb Hr2].
  apply orb_false_iff in Hb as [_ Hr1]. apply negb_false_iff, executable_range_true in Hr1, Hr2.
  eexists. split; [done|]. intros at_ [= <-]. pose proof (ro_size _ Hr) as Hsz. unfold is_u64 in *.
  rewrite u64_small by lia. unfold in_file. simpl. lia.
Qed.

Lemma find_bytes_safe offset size n i : 0 <= size -> 0 <= i -> i + Z.of_nat n <= rd_phnum r ->
  exists p, find_bytes r offset size n i = Some p /\
    forall at_, p = Some at_ -> in_file (rd_size r) (at_, size).
Proof.
  intros Hsize. revert i. induction n as [|n IH]; intros i Hi Hn; cbn [find_bytes]; [by eexists|].
  destruct (phdr_u64 i 8) as (start & -> & Hstart); [lia..|].
  destruct (phdr_u64 i 32) as (bytes & -> & Hbytes); [lia..|].
  destruct (Z.ltb_spec offset start) as [|Hle]; cbn [orb]; [apply IH; lia|].
  destruct (executable_range (offset - start) size bytes); cbn [negb]; [|apply IH; lia].
  destruct (find_segment_safe i (offset - start) size (Z.to_nat (rd_segments r)) 0) as (p & -> & Hp);
    [lia|lia|lia|pose proof (ro_segments _ Hr); lia|].
  destruct p as [at_|]; [|apply IH; lia]. exists (Some at_). split; [done|]. intros a [= <-]. by apply Hp.
Qed.

(** Every read of the file lies inside its size; what arrives has the size asked for. *)
Lemma read_bytes_safe offset size : 0 <= offset -> 0 < size ->
  exists got reads, read_executable_bytes r offset size = Some (got, reads) /\
    Forall (in_file (rd_size r)) reads /\
    forall l, got = Some l -> Z.of_nat (length l) = size /\ Forall is_byte l.
Proof.
  intros Ho Hs. unfold read_executable_bytes.
  assert (Hfile : forall at_ l, file_read_at (rd_file r) at_ size = Some l ->
    Z.of_nat (length l) = size /\ Forall is_byte l).
  { intros at_ l. unfold file_read_at. destruct (Z.eqb_spec size 0); [lia|]. intros Hl.
    split; [by eapply slice_size|]. eapply slice_bytes; [apply Hr|done]. }
  destruct (rd_segments r =? 0).
  - destruct (executable_range offset size (rd_size r)) eqn:He; [|by eexists _, _].
    apply executable_range_true in He. eexists _, _. split_and!; [done| |by apply Hfile].
    apply Forall_cons_2; [unfold in_file; simpl; lia|apply Forall_nil_2].
  - destruct (find_bytes_safe offset size (Z.to_nat (rd_phnum r)) 0) as (p & -> & Hp);
      [lia|lia|pose proof (ro_phnum _ Hr); lia|].
    destruct p as [at_|]; [|by eexists _, _]. eexists _, _. split_and!; [done| |by apply Hfile].
    apply Forall_cons_2; [by apply Hp|apply Forall_nil_2].
Qed.

(** *** The dynamic section *)
Record dyn_ok (d : dyn_state) : Prop := {
  do_name : is_u64 (dy_name d); do_strtab : is_u64 (dy_strtab d); do_strsz : is_u64 (dy_strsz d);
  do_sce_strtab : is_u64 (dy_sce_strtab d); do_sce_strsz : is_u64 (dy_sce_strsz d);
}.

Lemma dyn_entry_ok tag v d : is_u64 v -> dyn_ok d -> dyn_ok (dyn_entry tag v d).
Proof.
  intros Hv [H1 H2 H3 H4 H5]. unfold dyn_entry. destruct (tag =? 0); [by split|].
  split; simpl; repeat case_match; done.
Qed.

Lemma dyn_entries_safe entries n i d : Forall is_byte entries -> 0 <= i ->
  i + 16 * Z.of_nat n <= Z.of_nat (length entries) -> dyn_ok d ->
  exists d', dyn_entries entries n i d = Some d' /\ dyn_ok d'.
Proof.
  intros Hb. revert i d. induction n as [|n IH]; intros i d Hi Hn Hd; cbn [dyn_entries]; [by exists d|].
  destruct (le_at_total entries i 8 Hb Hi ltac:(lia)) as (tag & -> & _).
  destruct (le_at_total entries (i + 8) 8 Hb ltac:(lia) ltac:(lia)) as (v & -> & Hv).
  assert (Hd' : dyn_ok (dyn_entry tag v d)).
  { apply dyn_entry_ok; [|done]. unfold is_u64, UINT64_MAX. change (8 * Z.of_nat 8) with 64 in Hv. lia. }
  destruct (dy_terminated _); [by eexists|]. apply IH; [lia|lia|done].
Qed.

Lemma dyn_chunks_safe fuel dyn_offset dyn_size offset d reads :
  0 <= dyn_offset -> dyn_offset + dyn_size <= UINT64_MAX -> 0 <= offset ->
  dyn_size - offset <= 512 * Z.of_nat fuel -> dyn_ok d -> Forall (in_file (rd_size r)) reads ->
  exists out reads', dyn_chunks fuel r dyn_offset dyn_size offset d reads = Some (out, reads') /\
    Forall (in_file (rd_size r)) reads' /\ forall d', out = Some d' -> dyn_ok d'.
Proof.
  intros Ho Hsum. revert offset d reads.
  induction fuel as [|fuel IH]; intros offset d reads Hoff Hfuel Hd Hreads; cbn [dyn_chunks];
    (destruct (Z.ltb_spec offset dyn_size); cbn [andb negb];
      [destruct (dy_terminated d); cbn [negb]|]); try (eexists _, _; split_and!; [done|done|by intros ? [= <-]]); [lia|].
  set (bytes := if dyn_size - offset <? 512 then dyn_size - offset else 512).
  assert (Hbytes : 0 < bytes <= 512 /\ bytes <= dyn_size - offset /\ (bytes = 512 \/ bytes = dyn_size - offset)).
  { unfold bytes. destruct (Z.ltb_spec (dyn_size - offset) 512); lia. }
  rewrite (u64_small (dyn_offset + offset)) by lia.
  destruct (read_bytes_safe (dyn_offset + offset) bytes) as (got & rs & -> & Hrs & Hgot); [lia..|].
  assert (Hall : Forall (in_file (rd_size r)) (reads ++ rs)) by by apply Forall_app_2.
  destruct got as [entries|]; [|by eexists _, _]. destruct (Hgot entries eq_refl) as [Hlen Hb].
  destruct (dyn_entries_safe entries (Z.to_nat (bytes / 16)) 0 d Hb) as (d' & -> & Hd'); [lia| |done|].
  { rewrite Hlen. pose proof (Z.mul_div_le bytes 16 ltac:(lia)).
    rewrite Z2Nat.id by (apply Z.div_pos; lia). lia. }
  apply IH; [lia|lia|done|done].
Qed.

(** *** The name *)
Definition is_phdr (ph : Z) : Prop := exists i, 0 <= i < rd_phnum r /\ ph = executable_phdr r i.

Lemma scan_phdrs_safe n i dynamic dynlib : 0 <= i -> i + Z.of_nat n <= rd_phnum r ->
  (forall ph, dynamic = Some ph -> is_phdr ph) -> (forall ph, dynlib = Some ph -> is_phdr ph) ->
  exists a b, scan_phdrs r n i dynamic dynlib = Some (a, b) /\
    (forall ph, a = Some ph -> is_phdr ph) /\ (forall ph, b = Some ph -> is_phdr ph).
Proof.
  revert i dynamic dynlib. induction n as [|n IH]; intros i dynamic dynlib Hi Hn Ha Hb; cbn [scan_phdrs];
    [by eexists _, _|].
  destruct (phdr_kind i ltac:(lia)) as (kind & ->).
  assert (Hph : is_phdr (executable_phdr r i)) by (exists i; split; [lia|done]).
  apply IH; [lia|lia| |].
  - intros ph. destruct (kind =? 2); [by intros [= <-]|apply Ha].
  - intros ph. destruct (kind =? 0x61000000); [by intros [= <-]|apply Hb].
Qed.

Lemma map_string_safe strtab strsz name n i : 0 <= i -> i + Z.of_nat n <= rd_phnum r -> 0 <= name < strsz ->
  exists p, map_string r strtab strsz name n i = Some p /\ forall o, p = Some o -> 0 <= o.
Proof.
  intros Hi Hn Hname. revert i Hi Hn. induction n as [|n IH]; intros i Hi Hn; cbn [map_string]; [by eexists|].
  destruct (phdr_u64 i 16) as (base & -> & Hbase); [lia..|].
  destruct (phdr_u64 i 32) as (size & -> & _); [lia..|].
  destruct (phdr_u64 i 8) as (fo & -> & Hfo); [lia..|].
  destruct (phdr_kind i ltac:(lia)) as (kind & ->).
  destruct (_ || _) eqn:Hb; [apply IH; lia|]. apply orb_false_iff in Hb as [Hb _].
  apply orb_false_iff in Hb as [Hb _]. apply orb_false_iff in Hb as [_ Hst]. apply Z.ltb_ge in Hst.
  eexists. split; [done|]. intros o [= <-]. unfold is_u64 in *. lia.
Qed.

Lemma locate_name_safe dynlib d : dyn_ok d -> (forall ph, dynlib = Some ph -> is_phdr ph) ->
  exists p, locate_name r dynlib d = Some p /\
    forall o strsz, p = Some (o, strsz) -> 0 <= o /\ dy_name d < strsz.
Proof.
  intros Hd Hlib. unfold locate_name. destruct (_ && _) eqn:Hc.
  - apply andb_true_iff in Hc as [_ Hn]. apply Z.ltb_lt in Hn. pose proof (do_name d Hd) as Hname.
    destruct (map_string_safe (dy_strtab d) (dy_strsz d) (dy_name d) (Z.to_nat (rd_phnum r)) 0)
      as (p & -> & Hp); [lia|pose proof (ro_phnum _ Hr); lia|unfold is_u64 in Hname; lia|].
    destruct p as [o|]; eexists; (split; [done|]); [|done]. intros o' s [= <- <-]. split; [by apply Hp|done].
  - destruct dynlib as [ph|]; [|by eexists].
    destruct (negb (dy_sce_strtab d =? UINT64_MAX) && (dy_name d <? dy_sce_strsz d)) eqn:Hs; [|by eexists].
    apply andb_true_iff in Hs as [_ Hn]. apply Z.ltb_lt in Hn.
    destruct (Hlib ph eq_refl) as (i & Hi & ->).
    destruct (phdr_u64 i 8) as (base & -> & _); [lia..|]. destruct (phdr_u64 i 32) as (size & -> & _); [lia..|].
    eexists. split; [done|]. intros o s. destruct (executable_range _ _ _ && _); [|done]. intros [= <- <-]. split; [|done].
    apply wrap_range. lia.
Qed.

(** A terminated text with a first character. *)
Lemma terminated_length out : terminated out = true -> (strlen (cstr out) < length out)%nat.
Proof.
  unfold terminated, cstr. rewrite bytes_string_length. induction out as [|b out IH]; cbn [existsb]; [done|].
  cbn [until_nul length]. destruct (Z.eqb_spec b 0) as [->|Hb]; [simpl; lia|].
  replace (0 =? b) with false by (symmetry; apply Z.eqb_neq; lia). cbn [orb length]. intros H.
  specialize (IH H). lia.
Qed.

Lemma read_name_safe : exists out reads, read_name r = Some (out, reads) /\
  Forall (in_file (rd_size r)) reads /\
  forall s, out = Some s -> s <> ""%string /\ (strlen s < MAX_PATH)%nat.
Proof.
  unfold read_name. pose proof (ro_phnum _ Hr) as Hpn.
  destruct (scan_phdrs_safe (Z.to_nat (rd_phnum r)) 0 None None) as (dynamic & dynlib & -> & Hdyn & Hlib);
    [lia|lia|done|done|].
  destruct dynamic as [ph|]; [|by eexists _, _]. destruct (Hdyn ph eq_refl) as (i & Hi & ->).
  destruct (phdr_u64 i 32) as (dyn_size & -> & Hds); [lia..|]. destruct (phdr_u64 i 8) as (dyn_offset & -> & Hdo); [lia..|].
  destruct (_ || _) eqn:Hb; [by eexists _, _|]. apply orb_false_iff in Hb as [Hb Hb3]. apply orb_false_iff in Hb as [Hb1 _].
  apply Z.ltb_ge in Hb1, Hb3. unfold is_u64 in *.
  destruct (dyn_chunks_safe 128 dyn_offset dyn_size 0 dyn_start []) as (dyn & reads & -> & Hreads & Hd);
    [lia|lia|lia|lia|by split|done|].
  destruct dyn as [d|]; [|by eexists _, _]. specialize (Hd d eq_refl). destruct (_ || _); [by eexists _, _|].
  destruct (locate_name_safe dynlib d Hd Hlib) as (place & -> & Hplace).
  destruct place as [[o strsz]|]; [|by eexists _, _]. destruct (Hplace o strsz eq_refl) as [Ho Hn].
  set (bytes := if strsz - dy_name d <? Z.of_nat MAX_PATH then strsz - dy_name d else Z.of_nat MAX_PATH).
  assert (Hbytes : 0 < bytes <= Z.of_nat MAX_PATH).
  { unfold bytes. destruct (Z.ltb_spec (strsz - dy_name d) (Z.of_nat MAX_PATH)); unfold MAX_PATH in *; lia. }
  destruct (read_bytes_safe o bytes Ho ltac:(lia)) as (got & rs & -> & Hrs & Hgot).
  eexists _, _. split_and!; [done|by apply Forall_app_2|]. intros s. destruct got as [out|]; [|done].
  destruct (_ && _) eqn:Hout; [|done]. apply andb_true_iff in Hout as [Hterm Hfirst]. apply negb_true_iff in Hfirst.
  intros [= <-]. destruct (Hgot out eq_refl) as [Hlen _]. split.
  - unfold cstr. destruct out as [|b out]; [done|]. simpl in Hfirst |- *. by rewrite Hfirst.
  - pose proof (terminated_length out Hterm). lia.
Qed.
End safety.

(** ** Opening *)

(** The reader before the ELF header was checked. *)
Record opened_ok (limit : Z) (r : executable_reader_t) : Prop := {
  op_file : Forall is_byte (rd_file r);
  op_header : Forall is_byte (rd_header r);
  op_length : Z.of_nat (length (rd_header r)) = HEADER_BYTES;
  op_size : 0 <= rd_size r <= limit;
  op_segments : 0 <= rd_segments r <= 64;
  op_elf : 0 <= rd_elf r;
}.

Lemma open_container_safe limit r : opened_ok limit r -> rd_segments r = 0 ->
  exists c, open_container r = Some c /\ forall r', c = Some r' -> opened_ok limit r'.
Proof.
  intros Hr Hseg. unfold open_container. pose proof Hr as [Hf Hh Hl Hs _ He].
  assert (H8 : HEADER_BYTES = 8192) by done.
  destruct (le_at_total (rd_header r) 0 4) as (magic & -> & _); [done|lia|lia|].
  destruct (_ || _); [|by exists (Some r); split; [|intros ? [= <-]]].
  destruct (le_at_total (rd_header r) 24 2) as (segments & -> & Hsr); [done|lia|lia|].
  destruct (le_at_total (rd_header r) 16 8) as (lim & -> & Hlim); [done|lia|lia|].
  eexists. split; [done|]. intros r'. destruct (_ || _) eqn:Hb; [done|]. apply orb_false_iff in Hb as [_ Hb].
  apply Z.ltb_ge in Hb. intros [= <-]. split; simpl; try done; try lia.
  destruct (Z.ltb_spec lim (rd_size r)); lia.
Qed.

Lemma open_elf_safe limit r length_ : opened_ok limit r -> limit <= UINT64_MAX -> length_ <= HEADER_BYTES ->
  exists e, open_elf r length_ = Some e /\ forall r', e = Some r' -> reader_ok r' /\ rd_size r' = rd_size r.
Proof.
  intros [Hf Hh Hl Hs Hseg He] Hlim Hlen. unfold open_elf.
  destruct (executable_range (rd_elf r) 64 length_) eqn:H1; cbn [negb orb]; [|by eexists].
  destruct (executable_range (rd_elf r) 64 (rd_size r)); cbn [negb orb]; [|by eexists].
  apply executable_range_true in H1.
  destruct (slice_total (rd_header r) (rd_elf r) 4) as (ident & -> & _); [lia..|].
  destruct (le_at_total (rd_header r) (rd_elf r + 4) 1) as (b4 & -> & _); [done|lia|lia|].
  destruct (le_at_total (rd_header r) (rd_elf r + 5) 1) as (b5 & -> & _); [done|lia|lia|].
  destruct (le_at_total (rd_header r) (rd_elf r + 6) 1) as (b6 & -> & _); [done|lia|lia|].
  destruct (le_at_total (rd_header r) (rd_elf r + 16) 2) as (ty & -> & _); [done|lia|lia|].
  destruct (le_at_total (rd_header r) (rd_elf r + 18) 2) as (ma & -> & _); [done|lia|lia|].
  destruct (le_at_total (rd_header r) (rd_elf r + 54) 2) as (pe & -> & _); [done|lia|lia|].
  destruct (_ || _); [by eexists|].
  destruct (le_at_total (rd_header r) (rd_elf r + 32) 8) as (phoff & -> & Hphoff); [done|lia|lia|].
  destruct (le_at_total (rd_header r) (rd_elf r + 56) 2) as (phnum & -> & Hphnum); [done|lia|lia|].
  eexists. split; [done|]. intros r'.
  destruct (executable_range phoff (phnum * PHDR_SIZE) (length_ - rd_elf r)) eqn:H2; cbn [negb];
    [|by rewrite orb_true_r].
  destruct (_ || _) eqn:Hb; [done|]. apply orb_false_iff in Hb as [Hb _]. apply orb_false_iff in Hb as [Hb _].
  apply orb_false_iff in Hb as [Hb _]. apply orb_false_iff in Hb as [_ Hb]. apply Z.ltb_ge in Hb.
  apply executable_range_true in H2. intros [= <-]. split; [|done].
  split; simpl; try done; try (unfold is_u64; lia); lia.
Qed.

Lemma in_file_mono limit limit' reads : limit <= limit' -> Forall (in_file limit) reads ->
  Forall (in_file limit') reads.
Proof. intros Hle. apply Forall_impl. unfold in_file. intros x (? & ? & ?). lia. Qed.

Lemma read_filename_safe file size : Forall is_byte file -> 0 < size <= UINT64_MAX ->
  exists out reads,
    read_executable_filename (Reader file size 0 0 0 0 (replicate (Z.to_nat HEADER_BYTES) 0)) = Some (out, reads) /\
    Forall (in_file size) reads /\ forall s, out = Some s -> s <> ""%string /\ (strlen s < MAX_PATH)%nat.
Proof.
  intros Hfile Hsize. unfold read_executable_filename. cbn [rd_size rd_file rd_elf rd_phoff rd_segments rd_phnum rd_header].
  set (len := if size <? HEADER_BYTES then size else HEADER_BYTES).
  assert (Hlen : len <= size /\ len <= HEADER_BYTES).
  { unfold len. destruct (Z.ltb_spec size HEADER_BYTES); lia. }
  destruct (Z.ltb_spec len 64); [by eexists _, _|].
  assert (Hfirst : Forall (in_file size) [(0, len)]).
  { apply Forall_cons_2; [unfold in_file; simpl; lia|apply Forall_nil_2]. }
  unfold file_read_at. destruct (Z.eqb_spec len 0); [lia|].
  destruct (slice file 0 len) as [first|] eqn:Hs; [|by eexists _, _].
  pose proof (slice_size _ _ _ _ Hs) as Hfl. pose proof (slice_bytes _ _ _ _ Hfile Hs) as Hfb.
  set (header := first ++ drop (length first) (replicate (Z.to_nat HEADER_BYTES) 0)).
  assert (Hr : opened_ok size (Reader file size 0 0 0 0 header)).
  { split; cbn [rd_size rd_file rd_elf rd_segments rd_header]; try done; try lia; unfold header.
    - apply Forall_app_2; [done|]. apply Forall_drop, Forall_replicate. unfold is_byte. lia.
    - rewrite length_app, length_drop, length_replicate. unfold HEADER_BYTES in *. lia. }
  destruct (open_container_safe size _ Hr eq_refl) as (c & -> & Hc). destruct c as [r1|]; [|by eexists _, _].
  specialize (Hc r1 eq_refl).
  destruct (open_elf_safe size r1 len Hc ltac:(lia) ltac:(lia)) as (e & -> & He).
  destruct e as [r2|]; [|by eexists _, _]. destruct (He r2 eq_refl) as [Hr2 Hsz].
  destruct (read_name_safe r2 Hr2) as (out & reads & -> & Hreads & Hout). eexists _, _. split_and!; [done| |done].
  apply Forall_cons_1 in Hfirst as [Hf1 _]. apply Forall_cons_2; [done|].
  eapply in_file_mono; [|exact Hreads]. rewrite Hsz. apply Hc.
Qed.

(** * Theorems *)

(** reading the name of an executable is safe on any bytes, however
    malformed or hostile: the call returns (its loops end), no access leaves the
    header buffer or a chunk, every read of the file lies within the size the
    file had when it was opened, and a name that is returned is not empty and
    fits the caller's buffer with its terminator. *)
Theorem self_reader_safe f : Forall is_byte (sf_bytes f) -> sf_size f <= UINT64_MAX ->
  exists out reads, sm_self_read_original_filename f = Some (out, reads) /\
    Forall (fun rg => 0 <= rg.1 /\ 0 <= rg.2 /\ rg.1 + rg.2 <= sf_size f) reads /\
    forall s, out = Some s -> s <> ""%string /\ (strlen s < MAX_PATH)%nat.
Proof.
  intros Hb Hs. unfold sm_self_read_original_filename. destruct (negb (sf_open f)); [by eexists _, _|].
  destruct (Z.ltb_spec 0 (sf_size f)); rewrite ?andb_true_r, ?andb_false_r; [|by eexists _, _].
  destruct (negb _); [by eexists _, _|].
  destruct (read_filename_safe (sf_bytes f) (sf_size f) Hb ltac:(lia)) as (out & reads & -> & Hr & Hout).
  eexists _, _. split_and!; [done|exact Hr|]. destruct (sf_unchanged f); [done|by intros].
Qed.

(** A plain ELF file: a loaded segment over the whole file, a dynamic section
    with a string table, and the name at offset 1 of the table. *)
Definition sample_elf : list Z :=
  [127; 69; 76; 70; 2; 1; 1; 0] ++ replicate 8 0 ++ [3; 0; 62; 0; 1; 0; 0; 0] ++ le_bytes 8 0 ++ le_bytes 8 64 ++
  le_bytes 8 0 ++ le_bytes 4 0 ++ [64; 0; 56; 0; 2; 0; 0; 0; 0; 0; 0; 0] ++
  le_bytes 4 1 ++ le_bytes 4 5 ++ le_bytes 8 0 ++ le_bytes 8 0 ++ le_bytes 8 0 ++ le_bytes 8 248 ++ le_bytes 8 248 ++ le_bytes 8 1 ++
  le_bytes 4 2 ++ le_bytes 4 4 ++ le_bytes 8 176 ++ le_bytes 8 176 ++ le_bytes 8 0 ++ le_bytes 8 64 ++ le_bytes 8 64 ++ le_bytes 8 8 ++
  le_bytes 8 5 ++ le_bytes 8 240 ++ le_bytes 8 10 ++ le_bytes 8 8 ++ le_bytes 8 0x61000009 ++ le_bytes 8 1 ++ replicate 16 0 ++
  [0; 97; 46; 112; 114; 120; 0; 0].

Definition sample_self : self_file := SelfFile true true true (Z.of_nat (length sample_elf)) sample_elf true.

Lemma self_reader_safe_witness :
  sm_self_read_original_filename sample_self = Some (Some "a.prx"%string, [(0, 248); (176, 64); (241, 7)]) /\
  exists out reads, sm_self_read_original_filename sample_self = Some (out, reads) /\
    Forall (fun rg => 0 <= rg.1 /\ 0 <= rg.2 /\ rg.1 + rg.2 <= sf_size sample_self) reads /\
    forall s, out = Some s -> s <> ""%string /\ (strlen s < MAX_PATH)%nat.
Proof.
  split; [vm_compute; reflexivity|]. apply (self_reader_safe sample_self).
  - assert (Hb : forallb (fun b => (0 <=? b) && (b <? 256)) (sf_bytes sample_self) = true) by (vm_compute; reflexivity).
    apply Forall_lookup_2. intros i b Hi. rewrite forallb_forall in Hb.
    specialize (Hb b ltac:(apply list_elem_of_In; by eapply list_elem_of_lookup_2)). bool_hyps. unfold is_byte. lia.
  - vm_compute. discriminate.
Defined.
