(* ===== verification/SmbAddress.v ===== *)
(** * SMB connections and addresses (src/sm_smb.c)

    A connection names a directory of a network share ("smb://server/share/dir")
    with credentials; the rest of the program addresses files on it by the
    connection's name ("smb://name/dir/file").  This file models the validation
    of connections and the translation of such paths into a server, a share and a
    path relative to the share, and shows that a translated path stays inside the
    directory of its connection.

    A character array is the text before its first NUL, or all of it when it has
    none: an array of [n] bytes is terminated when its text is shorter than [n].
    The calls into libsmb2 are not part of this file. *)
From S2P Require Import Prelude CString IniFile.
From stdpp Require Import list.
Open Scope Z_scope.
Open Scope c_scope.

Inductive errno := EINVAL | ENAMETOOLONG | ENODEV | ENOENT | EEXIST | EIO.

#[export] Instance errno_eq_dec : EqDecision errno.
Proof. solve_decision. Defined.

(** ** Data *)
Definition SM_SMB_CONNECTIONS_MAX : nat := 16.
Definition SMB_NAME_SIZE : nat := 64.
Definition SMB_USER_SIZE : nat := 256.
Definition SMB_PASSWORD_SIZE : nat := 512.
Definition SMB_HOST_SIZE : nat := 256.

Record sm_smb_connection_t := SmbConnection {
  c_name : text; c_path : text; c_username : text; c_password : text; c_active : bool; c_read_only : bool;
}.

Record sm_smb_address_t := SmbAddress {
  a_path : text; a_server : text; a_share : text; a_relative : text;
  a_user : text; a_domain : text; a_password : text; a_read_only : bool;
}.

#[export] Instance sm_smb_connection_eq_dec : EqDecision sm_smb_connection_t.
Proof. solve_decision. Defined.

(** ** Operations *)
Definition is_slash : ascii -> bool := Ascii.eqb slash.
Definition is_backslash : ascii -> bool := Ascii.eqb backslash.

Definition sm_smb_path (path : text) : bool := bool_decide (take 6 path = lit "smb://").

Definition control (a : ascii) : bool := (ascii_byte a <? 32) || (ascii_byte a =? 127).

(** A path component that could leave the directory. *)
Definition bad_component (x : text) : bool :=
  bool_decide (x = []) || bool_decide (x = lit ".") || bool_decide (x = lit "..").

(** The second loop of [safe_components]; [fuel] is the length of the path, and
    each round consumes a character. *)
Fixpoint component_loop (fuel : nat) (p : text) : bool :=
  match p, fuel with
  | [], _ => true
  | _, O => false
  | _, S fuel' =>
      let '(x, rest) := break is_slash p in
      if bad_component x then false
      else match rest with [] => true | _ :: p' => component_loop fuel' p' end
  end.

Definition safe_components (path : text) : bool :=
  if existsb (fun a => control a || is_backslash a) path then false
  else component_loop (length path) path.

(** [if (size && s[size - 1] == '/') s[size - 1] = 0]. *)
Definition drop_slash (s : text) : text :=
  match last s with
  | Some a => if is_slash a then take (length s - 1) s else s
  | None => s
  end.

Definition bad_server_char (a : ascii) : bool :=
  isspace a || Ascii.eqb a "@"%char || Ascii.eqb a "?"%char || Ascii.eqb a "#"%char.

(** The domain and the user of "domain\user" or "user". *)
Definition split_user (username : text) : option (text * text) :=
  match break is_backslash username with
  | (_, []) => Some ([], username)
  | (domain, _ :: user) =>
      if bool_decide (domain = []) || (SMB_HOST_SIZE <=? length domain)%nat || bool_decide (user = [])
      then None else Some (domain, user)
  end.

Definition base_address (c : sm_smb_connection_t) : sm_smb_address_t + errno :=
  if negb (sm_smb_path (c_path c)) || negb (safe_components (drop 6 (c_path c))) then inr EINVAL
  else
    match break is_slash (drop 6 (c_path c)) with
    | (_, []) => inr EINVAL
    | (server, _ :: share) =>
        if bool_decide (server = []) || bool_decide (share = []) then inr EINVAL
        else if (SMB_HOST_SIZE <=? length server)%nat then inr ENAMETOOLONG
        else if existsb bad_server_char server then inr EINVAL
        else
          let '(name, tail) := break is_slash share in
          if bool_decide (name = []) || (SMB_HOST_SIZE <=? length name)%nat then inr EINVAL
          else
            let relative := match tail with [] => [] | _ :: r => r end in
            if (MAX_PATH <=? length relative)%nat then inr ENAMETOOLONG
            else
              match split_user (c_username c) with
              | None => inr EINVAL
              | Some (domain, user) =>
                  inl (SmbAddress [] (tolower <$> server) name (drop_slash relative)
                         (take (SMB_USER_SIZE - 1) user) domain (take (SMB_PASSWORD_SIZE - 1) (c_password c))
                         (c_read_only c))
              end
    end.

Definition bad_name_char (a : ascii) : bool :=
  control a || existsb (Ascii.eqb a) (lit "/\:@?#%").

(** [0] is [None]. *)
Definition sm_smb_validate (c : sm_smb_connection_t) : option errno :=
  if (SMB_NAME_SIZE <=? length (c_name c))%nat || (MAX_PATH <=? length (c_path c))%nat ||
     (SMB_USER_SIZE <=? length (c_username c))%nat || (SMB_PASSWORD_SIZE <=? length (c_password c))%nat
  then Some EINVAL
  else if bad_component (c_name c) || from_option isspace false (head (c_name c)) ||
          from_option isspace false (last (c_name c))
  then Some EINVAL
  else if existsb bad_name_char (c_name c) then Some EINVAL
  else if existsb control (c_username c) || existsb control (c_password c) then Some EINVAL
  else match base_address c with inl _ => None | inr e => Some e end.

(** [sm_config_smb_get] on the connections of the runtime configuration. *)
Definition sm_config_smb_get (smb : list sm_smb_connection_t) (name : text) : sm_smb_connection_t + errno :=
  match list_find (fun c => strcasecmp_eq name (c_name c) = true) smb with
  | Some (_, c) => inl c
  | None => inr ENOENT
  end.

(** [slash && slash[1] ? "/" : ""], and with [a->relative[0] &&] before it. *)
Definition sep_before (rest : text) : text := match rest with [] => [] | _ => [slash] end.
Definition sep_between (relative rest : text) : text := match relative with [] => [] | _ => sep_before rest end.

Definition sm_smb_parse_address (smb : list sm_smb_connection_t) (path : text) : sm_smb_address_t + errno :=
  if negb (sm_smb_path path) || (MAX_PATH <=? length path)%nat then inr EINVAL
  else
    let '(alias, tail) := break is_slash (drop 6 path) in
    let rest := match tail with [] => [] | _ :: r => r end in
    if bool_decide (alias = []) || (SMB_NAME_SIZE <=? length alias)%nat || negb (safe_components rest)
    then inr EINVAL
    else
      match sm_config_smb_get smb alias with
      | inr e => inr e
      | inl c =>
          if negb (c_active c) then inr ENODEV
          else
            match base_address c with
            | inr e => inr e
            | inl a =>
                let relative := a_relative a ++ sep_between (a_relative a) rest ++ rest in
                if (MAX_PATH <=? length relative)%nat then inr ENAMETOOLONG
                else
                  let full := lit "smb://" ++ alias ++ sep_before rest ++ rest in
                  if (MAX_PATH <=? length full)%nat then inr ENAMETOOLONG
                  else inl (SmbAddress (drop_slash full) (a_server a) (a_share a) (drop_slash relative)
                              (a_user a) (a_domain a) (a_password a) (a_read_only a))
            end
      end.

Definition sm_smb_normalize (smb : list sm_smb_connection_t) (path : text) : text + errno :=
  match sm_smb_parse_address smb path with inl a => inl (a_path a) | inr e => inr e end.

(** [!strncasecmp(a, b, strlen(b))]. *)
Definition strncasecmp_eq (a b : text) : bool := strcasecmp_eq (take (length b) a) b.

Definition sm_smb_path_within (smb : list sm_smb_connection_t) (path root : text) : bool :=
  match sm_smb_parse_address smb path, sm_smb_parse_address smb root with
  | inl a, inl b =>
      strcasecmp_eq (a_server a) (a_server b) && strcasecmp_eq (a_share a) (a_share b) &&
      strncasecmp_eq (a_relative a) (a_relative b) &&
      (bool_decide (a_relative b = []) ||
       match a_relative a !! length (a_relative b) with None => true | Some x => is_slash x end)
  | _, _ => false
  end.

(** ** Splitting at slashes *)
Fixpoint split_slash (s : text) : list text :=
  match s with
  | [] => [[]]
  | a :: s' =>
      if is_slash a then [] :: split_slash s'
      else match split_slash s' with [] => [[a]] | x :: xs => (a :: x) :: xs end
  end.

(** The components of a relative path; the empty path is the directory itself. *)
Definition components (s : text) : list text := match s with [] => [] | _ => split_slash s end.

Definition no_slash (x : text) : Prop := Forall (fun a => is_slash a = false) x.

(** A name that is one component and cannot lead upwards. *)
Definition component_ok (x : text) : Prop :=
  bad_component x = false /\ Forall (fun a => is_slash a = false /\ is_backslash a = false /\ control a = false) x.

Lemma is_slash_true a : is_slash a = true -> a = slash.
Proof. intros H. symmetry. by apply Ascii.eqb_eq. Qed.

Lemma split_slash_cons s : exists x xs, split_slash s = x :: xs.
Proof. induction s as [|a s (x & xs & IH)]; simpl; [eauto|]. destruct (is_slash a); [eauto|]. rewrite IH. eauto. Qed.

Lemma split_slash_app s t : split_slash (s ++ slash :: t) = split_slash s ++ split_slash t.
Proof.
  induction s as [|a s IH]; [done|]. simpl. rewrite IH. destruct (is_slash a); [done|].
  destruct (split_slash_cons s) as (x & xs & ->). done.
Qed.

Lemma split_slash_plain x : no_slash x -> split_slash x = [x].
Proof. induction 1 as [|a x Ha _ IH]; [done|]. simpl. by rewrite Ha, IH. Qed.

Lemma split_slash_chars (P : ascii -> Prop) (s : text) : Forall P s -> Forall (Forall (fun a => P a /\ is_slash a = false)) (split_slash s).
Proof.
  induction 1 as [|a s Ha _ IH]; simpl; [by repeat constructor|]. destruct (is_slash a) eqn:Hs; [by constructor|].
  destruct (split_slash_cons s) as (x & xs & Hx). rewrite Hx in IH |- *. apply Forall_cons_1 in IH as [H1 H2].
  constructor; [|done]. by constructor.
Qed.

Lemma split_slash_lower (s : text) : split_slash (tolower <$> s) = (fun x : text => tolower <$> x) <$> split_slash s.
Proof.
  induction s as [|a s IH]; [done|]. rewrite fmap_cons. cbn [split_slash].
  assert (Hs : is_slash (tolower a) = is_slash a) by (destruct a as [[] [] [] [] [] [] [] []]; reflexivity).
  rewrite Hs, IH. destruct (is_slash a); [done|]. by destruct (split_slash_cons s) as (x & xs & ->).
Qed.

Lemma break_slash s x y : break is_slash s = (x, y) ->
  no_slash x /\ ((y = [] /\ s = x) \/ exists z, y = slash :: z /\ s = x ++ slash :: z).
Proof.
  intros (Hs & Hx & Hy)%break_spec. split; [done|]. destruct y as [|a z]; [left; by rewrite Hs, app_nil_r|].
  right. apply is_slash_true in Hy as ->. eauto.
Qed.

Lemma no_slash_break x y : no_slash x -> match y with [] => True | a :: _ => a = slash end ->
  break is_slash (x ++ y) = (x, y).
Proof. intros Hx Hy. apply break_app; [done|]. destruct y; [done|]. by rewrite Hy. Qed.

(** ** A trailing slash *)
Lemma drop_slash_snoc s : drop_slash (s ++ [slash]) = s.
Proof.
  unfold drop_slash. rewrite last_snoc. simpl. rewrite length_app. apply take_app_length'. simpl. lia.
Qed.

Lemma drop_slash_keep s : (forall a, last s = Some a -> is_slash a = false) -> drop_slash s = s.
Proof. intros H. unfold drop_slash. destruct (last s) as [a|]; [|done]. by rewrite (H a). Qed.

Lemma drop_slash_app s t : t <> [] -> drop_slash (s ++ t) = s ++ drop_slash t.
Proof.
  intros Ht. destruct (exists_last Ht) as (u & a & ->). destruct (is_slash a) eqn:Ha.
  - apply is_slash_true in Ha as ->. by rewrite app_assoc, !drop_slash_snoc.
  - rewrite !drop_slash_keep; [done| |]; intros b; rewrite ?app_assoc, last_snoc; by intros [= <-].
Qed.

Lemma drop_slash_length s : (length (drop_slash s) <= length s)%nat.
Proof. unfold drop_slash. destruct (last s) as [a|]; [|done]. destruct (is_slash a); [|done]. rewrite length_take. lia. Qed.

Lemma drop_slash_chars (P : ascii -> Prop) s : Forall P s -> Forall P (drop_slash s).
Proof. intros. unfold drop_slash. destruct (last s) as [a|]; [|done]. destruct (is_slash a); [|done]. by apply Forall_take. Qed.

Lemma no_slash_keep x : no_slash x -> drop_slash x = x.
Proof.
  intros Hx. apply drop_slash_keep. intros a Ha. apply last_Some_elem_of in Ha.
  unfold no_slash in Hx. rewrite Forall_forall in Hx. by apply Hx.
Qed.

(** ** What [safe_components] accepts *)
Definition good (x : text) : Prop := bad_component x = false.

Lemma good_nonempty x : good x -> x <> [].
Proof. by intros H ->. Qed.

Lemma component_loop_spec fuel p : (length p <= fuel)%nat ->
  component_loop fuel p = true <-> p = [] \/ Forall good (split_slash (drop_slash p)).
Proof.
  revert p. induction fuel as [|fuel IH]; intros [|a p] Hlen; [by simpl; split; [left|]|simpl in Hlen; lia|by simpl; split; [left|]|].
  set (q := a :: p) in *. change (component_loop (S fuel) q) with
    (let '(x, rest) := break is_slash q in
     if bad_component x then false else match rest with [] => true | _ :: p' => component_loop fuel p' end).
  destruct (break is_slash q) as [x rest] eqn:Hb. apply break_slash in Hb as [Hx [[-> Hq]|(z & -> & Hq)]]; rewrite Hq in *.
  - rewrite no_slash_keep, split_slash_plain, Forall_singleton by done. unfold good.
    destruct (bad_component x) eqn:Hbad; split; [done| |by right|done]. intros [->|?]; [|done]. by subst q.
  - assert (Hz : (length z <= fuel)%nat) by (rewrite length_app in Hlen; simpl in Hlen; lia).
    assert (Hne : x ++ slash :: z <> []) by (by destruct x).
    destruct (decide (z = [])) as [->|Hnz].
    + rewrite drop_slash_snoc, split_slash_plain, Forall_singleton by done. unfold good.
      destruct fuel; simpl; (destruct (bad_component x); split; [done| |by right|done]; by intros [|]).
    + assert (Hd : drop_slash (x ++ slash :: z) = x ++ slash :: drop_slash z).
      { change (x ++ slash :: z) with (x ++ [slash] ++ z). by rewrite app_assoc, drop_slash_app, <-app_assoc by done. }
      rewrite Hd, split_slash_app, split_slash_plain, Forall_app, Forall_singleton by done.
      unfold good at 1. destruct (bad_component x); [split; [done|]; by intros [|[? _]]|].
      rewrite (IH z Hz). split; [intros [|]; [done|by right]|]. intros [|[_ ?]]; [done|by right].
Qed.

Lemma safe_components_spec p : safe_components p = true <->
  Forall (fun a => control a = false /\ is_backslash a = false) p /\
  (p = [] \/ Forall good (split_slash (drop_slash p))).
Proof.
  unfold safe_components. rewrite <-(component_loop_spec (length p)) by done.
  assert (Hc : existsb (fun a => control a || is_backslash a) p = false <->
    Forall (fun a => control a = false /\ is_backslash a = false) p).
  { induction p as [|a p IH]; simpl; [by split; [constructor|]|].
    rewrite orb_false_iff, IH, orb_false_iff. split; [intros [? ?]; by constructor|]. by intros [? ?]%Forall_cons_1. }
  rewrite <-Hc. destruct (existsb _ p); split; [done|by intros [? _]|by split|by intros [_ ?]].
Qed.

(** The components of a path that was accepted. *)
Lemma safe_components_ok p : safe_components p = true -> Forall component_ok (components (drop_slash p)).
Proof.
  intros [Hc Hp]%safe_components_spec. destruct Hp as [->|Hg]; [by constructor|].
  apply (drop_slash_chars _ p), split_slash_chars in Hc. unfold components.
  destruct (drop_slash p) as [|a q] eqn:Hq; [by constructor|]. apply Forall_forall. intros x Hx. split.
  - rewrite Forall_forall in Hg. by apply Hg.
  - rewrite Forall_forall in Hc. eapply Forall_impl; [exact (Hc x Hx)|]. simpl. tauto.
Qed.

Lemma safe_nonempty p : safe_components p = true -> p <> [] -> drop_slash p <> [].
Proof.
  intros [_ [->|Hg]]%safe_components_spec Hne; [done|]. intros He. rewrite He in Hg. by apply Forall_cons_1 in Hg as [? _].
Qed.

(** Names without empty components end in no slash. *)
Lemma good_no_trailing q : Forall good (split_slash q) -> drop_slash q = q.
Proof.
  intros Hg. apply drop_slash_keep. intros a Ha. destruct (is_slash a) eqn:Hs; [|done]. apply is_slash_true in Hs as ->.
  apply last_Some in Ha as [q' ->]. rewrite split_slash_app in Hg. apply Forall_app in Hg as [_ Hg].
  by apply Forall_cons_1 in Hg as [? _].
Qed.

Lemma safe_drop_slash p : safe_components p = true -> safe_components (drop_slash p) = true /\
  drop_slash (drop_slash p) = drop_slash p.
Proof.
  intros [Hc Hp]%safe_components_spec. destruct Hp as [->|Hg]; [done|].
  rewrite safe_components_spec, (good_no_trailing _ Hg). split; [|done]. split; [by apply drop_slash_chars|by right].
Qed.

(** ** Addresses *)
Lemma safe_tail x z : no_slash x -> safe_components (x ++ slash :: z) = true ->
  component_ok x /\ safe_components z = true.
Proof.
  intros Hx [Hc Hp]%safe_components_spec. destruct Hp as [?|Hg]; [by destruct x|].
  apply Forall_app in Hc as [Hcx Hcz]. apply Forall_cons_1 in Hcz as [_ Hcz].
  assert (Hok : good x -> component_ok x).
  { intros Hgx. split; [done|]. unfold no_slash in Hx. rewrite Forall_forall in Hcx, Hx. apply Forall_forall.
    intros a Ha. destruct (Hcx a Ha). by rewrite Hx. }
  rewrite safe_components_spec. destruct (decide (z = [])) as [->|Hz].
  - rewrite drop_slash_snoc, split_slash_plain, Forall_singleton in Hg by done. split; [by apply Hok|]. split; [done|by left].
  - change (x ++ slash :: z) with (x ++ [slash] ++ z) in Hg. rewrite app_assoc, drop_slash_app, <-app_assoc in Hg by done.
    cbn [app] in Hg. rewrite split_slash_app, split_slash_plain, Forall_app, Forall_singleton in Hg by done.
    destruct Hg as [Hgx Hgz]. split; [by apply Hok|]. split; [done|by right].
Qed.

Lemma break_length p s x y : break p s = (x, y) -> length s = (length x + length y)%nat.
Proof. intros (-> & _)%break_spec. by rewrite length_app. Qed.

Lemma split_user_spec u dom user : split_user u = Some (dom, user) -> (length dom < SMB_HOST_SIZE)%nat.
Proof.
  unfold split_user. destruct (break is_backslash u) as [d [|a t]].
  - intros [= <- _]. unfold SMB_HOST_SIZE. simpl. lia.
  - destruct (_ || _) eqn:Hb; [done|]. intros [= <- _]. bool_hyps. by apply Nat.leb_gt.
Qed.

(** The fields fit their arrays. *)
Definition address_fits (a : sm_smb_address_t) : Prop :=
  (length (a_path a) < MAX_PATH)%nat /\ (length (a_server a) < SMB_HOST_SIZE)%nat /\
  (length (a_share a) < SMB_HOST_SIZE)%nat /\ (length (a_relative a) < MAX_PATH)%nat /\
  (length (a_user a) < SMB_USER_SIZE)%nat /\ (length (a_domain a) < SMB_HOST_SIZE)%nat /\
  (length (a_password a) < SMB_PASSWORD_SIZE)%nat.

Record base_ok (c : sm_smb_connection_t) (b : sm_smb_address_t) : Prop := BaseOk {
  bo_fits : address_fits b;
  bo_relative : Forall component_ok (components (a_relative b));
  bo_share : component_ok (a_share b);
  bo_slash : drop_slash (a_relative b) = a_relative b;
  bo_read_only : a_read_only b = c_read_only c;
}.

Lemma base_address_ok c b : base_address c = inl b -> base_ok c b.
Proof.
  unfold base_address. destruct (negb _ || negb _) eqn:H1; [done|]. bool_hyps.
  destruct (break is_slash (drop 6 (c_path c))) as [server [|s share]] eqn:Hb1; [done|].
  apply break_slash in Hb1 as [Hns1 [[? _]|(z & [= -> <-] & Hd)]]; [done|].
  rewrite Hd in *. destruct (bool_decide (server = []) || _) eqn:H2; [done|].
  destruct (_ <=? _)%nat eqn:H3; [done|]. destruct (existsb _ _); [done|].
  destruct (break is_slash share) as [name tail] eqn:Hb2. destruct (bool_decide (name = []) || _) eqn:H4; [done|].
  destruct (MAX_PATH <=? _)%nat eqn:H5; [done|].
  destruct (split_user (c_username c)) as [[dom user]|] eqn:Hu; [|done]. intros [= <-].
  apply split_user_spec in Hu. bool_hyps. apply Nat.leb_gt in H3, H5. apply safe_tail in H0 as [_ Hshare]; [|done].
  apply break_slash in Hb2 as [Hns2 Hb2].
  set (rel := match tail with [] => [] | _ :: r => r end) in *.
  assert (Hrel : component_ok name /\ safe_components rel = true).
  { destruct Hb2 as [[-> ->]|(z & -> & ->)]; [|by apply safe_tail]. split; [|done].
    assert (Hs : safe_components (name ++ [slash]) = true).
    { apply safe_components_spec in Hshare as [Hc Hp]. apply safe_components_spec. split.
      - apply Forall_app_2; [done|]. apply Forall_singleton. by split.
      - right. rewrite drop_slash_snoc. destruct Hp as [->|Hp]; [by bool_hyps|]. by rewrite no_slash_keep in Hp. }
    by apply safe_tail in Hs as [? _]. }
  destruct Hrel as [Hname Hrel]. pose proof (drop_slash_length rel). pose proof (safe_drop_slash rel Hrel) as [_ ?].
  split; cbn -[MAX_PATH SMB_HOST_SIZE SMB_USER_SIZE SMB_PASSWORD_SIZE]; [|by apply safe_components_ok|done|done|done].
  unfold address_fits. cbn -[MAX_PATH SMB_HOST_SIZE SMB_USER_SIZE SMB_PASSWORD_SIZE].
  rewrite length_fmap, !length_take.
  repeat match goal with H : (_ <=? _)%nat = false |- _ => apply Nat.leb_gt in H end.
  unfold MAX_PATH, SMB_HOST_SIZE, SMB_USER_SIZE, SMB_PASSWORD_SIZE in *. lia.
Qed.

Lemma components_join r rest :
  drop_slash r = r -> safe_components rest = true ->
  components (drop_slash (r ++ sep_between r rest ++ rest)) =
  components r ++ components (drop_slash rest).
Proof.
  intros Hr Hs. destruct r as [|x r]; [done|]. destruct (decide (rest = [])) as [->|Hrest].
  { simpl. by rewrite !app_nil_r, Hr. }
  pose proof (safe_nonempty rest Hs Hrest) as Hd. destruct rest as [|y rest]; [done|]. cbn [sep_between sep_before].
  rewrite app_assoc, drop_slash_app, <-app_assoc by done. unfold components.
  destruct (drop_slash (y :: rest)) as [|z q]; [done|]. cbn [app].
  change (x :: (r ++ slash :: z :: q)) with ((x :: r) ++ slash :: z :: q). by rewrite split_slash_app.
Qed.

(** A path that parses, taken apart. *)
Record parsed (smb : list sm_smb_connection_t) (path : text) (a : sm_smb_address_t)
    (alias rest : text) (c : sm_smb_connection_t) (b : sm_smb_address_t) : Prop := Parsed {
  pa_alias : no_slash alias /\ alias <> [] /\ (length alias < SMB_NAME_SIZE)%nat;
  pa_path : path = lit "smb://" ++ alias \/ path = lit "smb://" ++ alias ++ slash :: rest;
  pa_safe : safe_components rest = true;
  pa_get : sm_config_smb_get smb alias = inl c;
  pa_active : c_active c = true;
  pa_base : base_address c = inl b;
  pa_a : a = SmbAddress
    (drop_slash (lit "smb://" ++ alias ++ sep_before rest ++ rest))
    (a_server b) (a_share b)
    (drop_slash (a_relative b ++ sep_between (a_relative b) rest ++ rest))
    (a_user b) (a_domain b) (a_password b) (a_read_only b);
  pa_relative_fits : (length (a_relative b ++ sep_between (a_relative b) rest ++ rest) < MAX_PATH)%nat;
  pa_full_fits : (length (lit "smb://" ++ alias ++ sep_before rest ++ rest) < MAX_PATH)%nat;
}.

Lemma parse_address_inv smb path a : sm_smb_parse_address smb path = inl a ->
  exists alias rest c b, parsed smb path a alias rest c b.
Proof.
  unfold sm_smb_parse_address. destruct (negb _ || _) eqn:H1; [done|]. bool_hyps.
  destruct (break is_slash (drop 6 path)) as [alias tail] eqn:Hb.
  set (rest := match tail with [] => [] | _ :: r => r end) in *. destruct (_ || _) eqn:H2; [done|]. bool_hyps.
  destruct (sm_config_smb_get smb alias) as [c|] eqn:Hg; [|done]. destruct (c_active c) eqn:Hac; [|done]. cbn [negb].
  destruct (base_address c) as [b|] eqn:Hbase; [|done].
  destruct (MAX_PATH <=? length (a_relative b ++ _))%nat eqn:Hl3; [done|]. cbv zeta.
  destruct (MAX_PATH <=? length (lit _ ++ _))%nat eqn:Hl4; [done|]. intros [= <-].
  repeat match goal with H : (_ <=? _)%nat = false |- _ => apply Nat.leb_gt in H end.
  exists alias, rest, c, b. unfold sm_smb_path in *. bool_hyps. apply break_slash in Hb as [Hns Hb].
  split; try done. rewrite <-(take_drop 6 path) at 1 2. rewrite H.
  destruct Hb as [[-> ->]|(z & -> & ->)]; [by left|by right].
Qed.

Lemma parse_address_again smb path a alias rest c b : parsed smb path a alias rest c b ->
  parsed smb (a_path a) a alias (drop_slash rest) c b /\ sm_smb_parse_address smb (a_path a) = inl a.
Proof.
  intros [(Hns & Hne & Hlen) Hpath Hsafe Hget Hact Hbase Ha Hrf Hff]. pose proof (base_address_ok c b Hbase) as [_ _ _ Hbs _].
  pose proof (safe_drop_slash rest Hsafe) as [Hsafe' Hdd].
  assert (Hsep : sep_before (drop_slash rest) = sep_before rest).
  { destruct rest as [|x r]; [done|]. pose proof (safe_nonempty _ Hsafe ltac:(done)). by destruct (drop_slash (x :: r)). }
  assert (Hsepr : sep_between (a_relative b) (drop_slash rest) = sep_between (a_relative b) rest).
  { unfold sep_between. by destruct (a_relative b). }
  set (sep := sep_before rest) in *. set (sepr := sep_between (a_relative b) rest) in *.
  assert (Hfull : drop_slash (lit "smb://" ++ alias ++ sep ++ rest) = lit "smb://" ++ alias ++ sep ++ drop_slash rest).
  { destruct (decide (rest = [])) as [->|Hr].
    - unfold sep. cbn [sep_before drop_slash last app]. rewrite !app_nil_r.
      by rewrite drop_slash_app, no_slash_keep.
    - by rewrite !drop_slash_app; [..|by destruct sep|by destruct alias]. }
  assert (Hrel : drop_slash (a_relative b ++ sepr ++ drop_slash rest) = drop_slash (a_relative b ++ sepr ++ rest)).
  { destruct (decide (rest = [])) as [->|Hr]; [done|]. pose proof (safe_nonempty rest Hsafe Hr).
    rewrite !app_assoc, !drop_slash_app by done. by rewrite Hdd. }
  pose proof (drop_slash_length rest) as Hdl.
  assert (Hlen1 : (length (lit "smb://" ++ alias ++ sep ++ drop_slash rest) < MAX_PATH)%nat).
  { rewrite !length_app in *. lia. }
  assert (Hlen2 : (length (a_relative b ++ sepr ++ drop_slash rest) < MAX_PATH)%nat).
  { rewrite !length_app in *. lia. }
  assert (Hp : a_path a = lit "smb://" ++ alias ++ sep ++ drop_slash rest) by (by rewrite Ha).
  assert (Haa : a = SmbAddress (drop_slash (lit "smb://" ++ alias ++ sep ++ drop_slash rest)) (a_server b) (a_share b)
    (drop_slash (a_relative b ++ sepr ++ drop_slash rest)) (a_user b) (a_domain b) (a_password b) (a_read_only b)).
  { rewrite Ha, Hrel, Hfull. f_equal. symmetry. destruct (decide (rest = [])) as [->|Hr].
    - unfold sep. cbn [sep_before drop_slash last app]. rewrite !app_nil_r.
      by rewrite drop_slash_app, no_slash_keep.
    - pose proof (safe_nonempty rest Hsafe Hr). rewrite !drop_slash_app; [by rewrite Hdd|done|by destruct sep|by destruct alias]. }
  split.
  - split; rewrite ?Hsep, ?Hsepr; try done. rewrite Hp. unfold sep. destruct rest as [|x r]; [left; simpl; by rewrite app_nil_r|by right].
  - rewrite Hp at 1. unfold sm_smb_parse_address, sm_smb_path. change 6%nat with (length (lit "smb://")).
    rewrite take_app_length, drop_app_length, bool_decide_true by done. cbn [negb orb].
    destruct (Nat.leb_spec MAX_PATH (length (lit "smb://" ++ alias ++ sep ++ drop_slash rest))); [lia|].
    rewrite (no_slash_break alias (sep ++ drop_slash rest)); [|done|].
    2: { unfold sep. by destruct rest. }
    assert (Hrest : match sep ++ drop_slash rest with [] => [] | _ :: r => r end = drop_slash rest).
    { unfold sep. by destruct rest. }
    rewrite Hrest, Hsafe', bool_decide_false by done. destruct (Nat.leb_spec SMB_NAME_SIZE (length alias)); [lia|].
    cbn [negb orb]. rewrite Hget, Hact, Hbase. cbn [negb]. rewrite Hsep, Hsepr.
    destruct (Nat.leb_spec MAX_PATH (length (a_relative b ++ sepr ++ drop_slash rest))); [lia|].
    destruct (Nat.leb_spec MAX_PATH (length (lit "smb://" ++ alias ++ sep ++ drop_slash rest))); [lia|]. by rewrite <-Haa.
Qed.

Lemma config_get_spec smb name c : sm_config_smb_get smb name = inl c ->
  c ∈ smb /\ strcasecmp_eq name (c_name c) = true.
Proof.
  unfold sm_config_smb_get. destruct (list_find _ smb) as [[i c']|] eqn:Hf; [|done]. intros [= ->].
  apply list_find_Some in Hf as (Hi & Hn & _). split; [by eapply list_elem_of_lookup_2|done].
Qed.

Lemma parsed_relative smb path a alias rest c b : parsed smb path a alias rest c b ->
  components (a_relative a) = components (a_relative b) ++ components (drop_slash rest) /\
  Forall component_ok (components (a_relative a)) /\ drop_slash (a_relative a) = a_relative a.
Proof.
  intros Hp. pose proof (base_address_ok c b (pa_base _ _ _ _ _ _ _ Hp)) as [_ Hrel _ Hs _].
  pose proof (pa_safe _ _ _ _ _ _ _ Hp) as Hsafe.
  assert (Hc : components (a_relative a) = components (a_relative b) ++ components (drop_slash rest)).
  { rewrite (pa_a _ _ _ _ _ _ _ Hp). by apply components_join. }
  assert (Hok : Forall component_ok (components (a_relative a))).
  { rewrite Hc. apply Forall_app_2; [done|]. by apply safe_components_ok. }
  split_and!; [done|done|]. destruct (a_relative a) as [|x r]; [done|]. apply good_no_trailing.
  eapply Forall_impl; [exact Hok|]. by intros y [? _].
Qed.

(** ** Paths as lists of components *)
Fixpoint join (xs : list text) : text :=
  match xs with [] => [] | [x] => x | x :: xs' => x ++ slash :: join xs' end.

Lemma join_split s : join (split_slash s) = s.
Proof.
  induction s as [|a s IH]; [done|]. simpl. destruct (split_slash_cons s) as (x & xs & Hx). rewrite Hx in IH |- *.
  destruct (is_slash a) eqn:Ha; [apply is_slash_true in Ha as ->|]; destruct xs; simpl in *; by rewrite <-IH.
Qed.

Lemma join_app xs ys : xs <> [] -> ys <> [] -> join (xs ++ ys) = join xs ++ slash :: join ys.
Proof.
  intros Hx Hy. induction xs as [|x xs IH]; [done|]. destruct xs as [|x' xs].
  - destruct ys; [done|]. done.
  - cbn [app join] in IH |- *. rewrite IH by done. by rewrite <-app_assoc.
Qed.

(** The test of [sm_smb_path_within] on the relative paths. *)
Lemma within_prefix (x y : text) : x = [] \/ Forall good (split_slash x) -> y <> [] ->
  (exists r, x = y ++ r /\ match r with [] => True | a :: _ => a = slash end) <->
  exists zs, components x = components y ++ zs.
Proof.
  intros Hx Hy. split.
  - intros (r & -> & Hr). destruct y as [|a y]; [done|]. destruct r as [|b r]; [exists []; by rewrite !app_nil_r|].
    subst b. exists (split_slash r). unfold components. cbn [app].
    change (a :: (y ++ slash :: r)) with ((a :: y) ++ slash :: r). apply split_slash_app.
  - intros [zs Hz]. unfold components in Hz. destruct y as [|a y]; [done|]. destruct x as [|b x].
    { destruct (split_slash_cons (a :: y)) as (? & ? & He). by rewrite He in Hz. }
    rewrite <-(join_split (b :: x)), Hz. destruct zs as [|z zs]; [exists []; by rewrite !app_nil_r, join_split|].
    exists (slash :: join (z :: zs)). split; [|done]. rewrite join_app, join_split; [done| |done].
    destruct (split_slash_cons (a :: y)) as (? & ? & ->). done.
Qed.

(** Equality of paths up to case, by components. *)
Definition lower_components (s : text) : list text := (fun x : text => tolower <$> x) <$> components s.

Lemma components_lower (s : text) : components (tolower <$> s) = lower_components s.
Proof. destruct s as [|a s]; [done|]. unfold lower_components, components. by rewrite <-split_slash_lower. Qed.

Lemma bad_component_lower (x : text) : bad_component (tolower <$> x) = bad_component x.
Proof.
  assert (Hb : forall y : text, tolower <$> y = y -> (forall a, tolower a ∈ y -> tolower a = a) ->
    tolower <$> x = y <-> x = y).
  { intros y Hy Hinv. split; [|by intros ->]. intros <-. clear Hy.
    induction x as [|a x IH]; [done|]. rewrite fmap_cons. f_equal.
    - symmetry. apply Hinv. rewrite fmap_cons. by left.
    - apply IH. intros b Hin. apply Hinv. rewrite fmap_cons. by right. }
  assert (Hdot : forall a, tolower a = "."%char -> tolower a = a).
  { intros a. destruct a as [[] [] [] [] [] [] [] []]; vm_compute; congruence. }
  unfold bad_component. f_equal; [f_equal|]; apply bool_decide_ext, Hb; try done.
  - intros a Ha. by apply not_elem_of_nil in Ha.
  - intros a Ha. apply Hdot. apply list_elem_of_In in Ha. simpl in Ha. by intuition congruence.
  - intros a Ha. apply Hdot. apply list_elem_of_In in Ha. simpl in Ha. by intuition congruence.
Qed.

Lemma within_test (x y : text) : y <> [] ->
  strncasecmp_eq x y = true /\ match x !! length y with None => true | Some a => is_slash a end = true <->
  exists r, tolower <$> x = (tolower <$> y) ++ r /\ match r with [] => True | a :: _ => a = slash end.
Proof.
  intros Hy. unfold strncasecmp_eq. rewrite strcasecmp_eq_true. unfold same_text.
  assert (Hlow : forall a, is_slash (tolower a) = is_slash a).
  { intros a. by destruct a as [[] [] [] [] [] [] [] []]. }
  split.
  - intros [Ht Hn]. exists (tolower <$> drop (length y) x). rewrite <-Ht, <-fmap_app, take_drop. split; [done|].
    destruct (drop (length y) x) as [|a r] eqn:Hd; [done|]. rewrite fmap_cons.
    assert (Hx : x !! length y = Some a).
    { pose proof (lookup_drop x (length y) 0) as Hl. rewrite Hd, Nat.add_0_r in Hl. exact (eq_sym Hl). }
    rewrite Hx in Hn. rewrite <-Hlow in Hn. by apply is_slash_true.
  - intros (r & He & Hr). assert (Hly : length y = length (tolower <$> y)) by (by rewrite length_fmap).
    split; [by rewrite fmap_take, He, Hly, take_app_length|].
    assert (Hn : (tolower <$> x) !! length y = head r).
    { rewrite He, Hly, lookup_app_r, Nat.sub_diag by done. by destruct r. }
    rewrite list_lookup_fmap in Hn. destruct (x !! length y) as [a|] eqn:Hx; [|done].
    assert (Hn' : tolower <$> Some a = head r) by (rewrite <-Hx; exact Hn).
    destruct r as [|b r]; [done|]. injection Hn' as Hn'. by rewrite <-Hlow, Hn', Hr.
Qed.

(** * Theorems *)

(** an SMB path never leaves the directory of its connection.  When a
    path parses, it does so through an active connection of the configuration;
    the server, the share and the credentials are the connection's, and the
    components of the path relative to the share are those of the connection's
    directory followed by others, each of them a single non-empty name other than
    "." and "..", without slashes, backslashes or control characters. *)
Theorem smb_address_confined smb path a : sm_smb_parse_address smb path = inl a ->
  exists c b rest, c ∈ smb /\ c_active c = true /\ base_address c = inl b /\
    a_server a = a_server b /\ a_share a = a_share b /\ a_user a = a_user b /\ a_domain a = a_domain b /\
    a_password a = a_password b /\ a_read_only a = c_read_only c /\
    components (a_relative a) = components (a_relative b) ++ rest /\
    Forall component_ok (components (a_relative a)) /\ component_ok (a_share a).
Proof.
  intros (alias & rest & c & b & Hp)%parse_address_inv. destruct (parsed_relative _ _ _ _ _ _ _ Hp) as (Hc & Hok & _).
  destruct Hp as [_ _ _ Hget Hact Hbase Ha _ _]. apply config_get_spec in Hget as [Hin _].
  pose proof (base_address_ok c b Hbase) as [_ _ Hsh _ Hro].
  exists c, b, (components (drop_slash rest)). subst a. cbn in *. split_and!; done.
Qed.

(** every address fits the arrays of sm_smb_address_t: each field is
    shorter than its array, so it is terminated and nothing was cut off except an
    overlong user name or password. *)
Theorem smb_address_fits smb path a : sm_smb_parse_address smb path = inl a -> address_fits a.
Proof.
  intros (alias & rest & c & b & [_ _ _ _ _ Hbase Ha Hrf Hff])%parse_address_inv.
  apply base_address_ok in Hbase as [(_ & H1 & H2 & H3 & H4 & H5 & H6) _ _ _ _]. subst a. unfold address_fits in *.
  cbn -[MAX_PATH SMB_HOST_SIZE SMB_USER_SIZE SMB_PASSWORD_SIZE lit] in *.
  pose proof (drop_slash_length (lit "smb://" ++ alias ++ sep_before rest ++ rest)).
  pose proof (drop_slash_length (a_relative b ++ sep_between (a_relative b) rest ++ rest)).
  split_and!; try done; lia.
Qed.

(** normalizing an SMB path is idempotent: the normalized path names
    the same address, and normalizing it again changes nothing. *)
Theorem smb_normalize_idempotent smb path a : sm_smb_parse_address smb path = inl a ->
  sm_smb_parse_address smb (a_path a) = inl a /\ sm_smb_normalize smb (a_path a) = sm_smb_normalize smb path.
Proof.
  intros Hp. pose proof Hp as (alias & rest & c & b & Hpa)%parse_address_inv.
  destruct (parse_address_again _ _ _ _ _ _ _ Hpa) as [_ Hq]. split; [done|]. unfold sm_smb_normalize. by rewrite Hp, Hq.
Qed.

(** [sm_smb_path_within] compares paths by their components, not by
    their characters: it holds exactly when both paths are on the same server and
    share, ignoring case, and the components of the root begin those of the path,
    ignoring case; "/games2" is not within "/games". *)
Theorem smb_path_within_components smb path root a b :
  sm_smb_parse_address smb path = inl a -> sm_smb_parse_address smb root = inl b ->
  sm_smb_path_within smb path root = true <->
  strcasecmp_eq (a_server a) (a_server b) = true /\ strcasecmp_eq (a_share a) (a_share b) = true /\
  exists rest, lower_components (a_relative a) = lower_components (a_relative b) ++ rest.
Proof.
  intros Ha Hb. unfold sm_smb_path_within. rewrite Ha, Hb. rewrite !andb_true_iff, orb_true_iff.
  apply parse_address_inv in Ha as (alias & rest & c & d & Hpa).
  destruct (parsed_relative _ _ _ _ _ _ _ Hpa) as (_ & Hok & _).
  destruct (decide (a_relative b = [])) as [He|He].
  - rewrite He. split; [intros [[[? ?] _] _]; split_and!; [done|done|by eexists]|].
    intros (? & ? & _). split_and!; [done|done| |by left]. unfold strncasecmp_eq. by apply strcasecmp_eq_true.
  - rewrite (bool_decide_false (a_relative b = [])) by done.
    assert (Hpre : a_relative a = [] \/ Forall good (split_slash (tolower <$> a_relative a))).
    { destruct (a_relative a) as [|x r] eqn:Hr; [by left|right]. rewrite split_slash_lower. apply Forall_fmap.
      eapply Forall_impl; [exact Hok|]. intros y [Hy _]. unfold compose, good. by rewrite bad_component_lower. }
    pose proof (within_test (a_relative a) (a_relative b) He) as Ht.
    pose proof (within_prefix (tolower <$> a_relative a) (tolower <$> a_relative b)) as Hw.
    rewrite !components_lower in Hw. rewrite <-Hw; [|by destruct Hpre as [->|]; [left|right]|by destruct (a_relative b)].
    rewrite <-Ht. intuition done.
Qed.

(** Connections, one of them inactive. *)
Definition demo_connections : list sm_smb_connection_t :=
  [SmbConnection (lit "nas") (lit "smb://Server.lan/Games/ps5/") (lit "WG\me") (lit "pw") true true;
   SmbConnection (lit "old") (lit "smb://10.0.0.2/x") [] [] false false].

Definition demo_address (path : string) : sm_smb_address_t :=
  match sm_smb_parse_address demo_connections (lit path) with
  | inl a => a
  | inr _ => SmbAddress [] [] [] [] [] [] [] false
  end.

Example demo_relative :
  a_relative (demo_address "smb://NAS/Dir/a.ffpkg") = lit "ps5/Dir/a.ffpkg" /\
  a_server (demo_address "smb://NAS/Dir/a.ffpkg") = lit "server.lan" /\
  sm_smb_parse_address demo_connections (lit "smb://nas/../x") = inr EINVAL /\
  sm_smb_parse_address demo_connections (lit "smb://old/x") = inr ENODEV /\
  sm_smb_parse_address demo_connections (lit "smb://none/x") = inr ENOENT /\
  (sm_smb_validate <$> demo_connections) = [None; None].
Proof. vm_compute. done. Qed.

Lemma smb_address_confined_witness :
  let a := demo_address "smb://nas/Dir/" in
  sm_smb_parse_address demo_connections (lit "smb://nas/Dir/") = inl a /\
  exists c b rest, c ∈ demo_connections /\ c_active c = true /\ base_address c = inl b /\
    a_server a = a_server b /\ a_share a = a_share b /\ a_user a = a_user b /\ a_domain a = a_domain b /\
    a_password a = a_password b /\ a_read_only a = c_read_only c /\
    components (a_relative a) = components (a_relative b) ++ rest /\
    Forall component_ok (components (a_relative a)) /\ component_ok (a_share a).
Proof.
  intros a. assert (H : sm_smb_parse_address demo_connections (lit "smb://nas/Dir/") = inl a) by (vm_compute; reflexivity).
  split; [exact H|]. exact (smb_address_confined _ _ _ H).
Defined.

Lemma smb_address_fits_witness :
  let a := demo_address "smb://nas/Dir/" in
  sm_smb_parse_address demo_connections (lit "smb://nas/Dir/") = inl a /\ address_fits a.
Proof.
  intros a. assert (H : sm_smb_parse_address demo_connections (lit "smb://nas/Dir/") = inl a) by (vm_compute; reflexivity).
  split; [exact H|]. exact (smb_address_fits _ _ _ H).
Defined.

Lemma smb_normalize_idempotent_witness :
  let a := demo_address "smb://nas/Dir/" in
  sm_smb_parse_address demo_connections (lit "smb://nas/Dir/") = inl a /\
  sm_smb_parse_address demo_connections (a_path a) = inl a /\
  sm_smb_normalize demo_connections (a_path a) = sm_smb_normalize demo_connections (lit "smb://nas/Dir/").
Proof.
  intros a. assert (H : sm_smb_parse_address demo_connections (lit "smb://nas/Dir/") = inl a) by (vm_compute; reflexivity).
  split; [exact H|]. exact (smb_normalize_idempotent _ _ _ H).
Defined.

Lemma smb_path_within_components_witness :
  let a := demo_address "smb://nas/Games/x" in let b := demo_address "smb://NAS/games" in
  sm_smb_path_within demo_connections (lit "smb://nas/Games2") (lit "smb://nas/games") = false /\
  (sm_smb_path_within demo_connections (lit "smb://nas/Games/x") (lit "smb://NAS/games") = true <->
   strcasecmp_eq (a_server a) (a_server b) = true /\ strcasecmp_eq (a_share a) (a_share b) = true /\
   exists rest, lower_components (a_relative a) = lower_components (a_relative b) ++ rest).
Proof.
  intros a b. split; [vm_compute; reflexivity|].
  apply (smb_path_within_components demo_connections (lit "smb://nas/Games/x") (lit "smb://NAS/games") a b);
    vm_compute; reflexivity.
Defined.
