(* ===== verification/ConfigState.v ===== *)
(** * The runtime configuration (src/sm_config_mount.c, src/sm_l10n.c)

    From the two INI documents (config.ini and profiles.ini) to the configuration
    the rest of the program uses: normalizing and parsing of values, the rule
    tables, flattening the documents to the settings in effect, reading the SMB
    connections, and [parse_runtime_config_state].  The global state and its
    updates are in ConfigStore.v.

    A character array is its content, a counted array the list of its entries in
    use.  A setting that does not parse makes the code set [invalid] and go on,
    and the whole parse fails at the end; the state is scratch then and nobody
    reads it, so the model stops at once with [None].  A line that has a key has a
    value.  [inet_pton] is the system's. *)
From S2P Require Import Prelude CString IniFile ImageCache GameInfo SmbAddress.
From stdpp Require Import list.
Open Scope Z_scope.
Open Scope c_scope.

(** ** Characters *)
Definition of_text (s : text) : string := String.string_of_list_ascii s.

Definition toupper (a : ascii) : ascii :=
  let b := ascii_byte a in if (97 <=? b) && (b <=? 122) then ascii_of_nat (Z.to_nat (b - 32)) else a.

Definition isdigit (a : ascii) : bool := let b := ascii_byte a in (48 <=? b) && (b <=? 57).

Definition isalnum (a : ascii) : bool :=
  let b := ascii_byte (tolower a) in isdigit a || ((97 <=? b) && (b <=? 122)).

Fixpoint skip_ascii (s : text) : text :=
  match s with
  | [] => []
  | a :: s' =>
      let b := ascii_byte a in
      if (b =? 32) || (b =? 9) || (b =? 13) || (b =? 10) then skip_ascii s' else s
  end.

Definition trim_ascii (s : text) : text := reverse (skip_ascii (reverse (skip_ascii s))).

(** [while (len > 1 && s[len - 1] == '/') len--], on the reversed text. *)
Fixpoint skip_slashes (r : text) : text :=
  match r with
  | a :: ((_ :: _) as r') => if is_slash a then skip_slashes r' else r
  | _ => r
  end.

Definition trim_slashes (s : text) : text := reverse (skip_slashes (reverse s)).

(** ** Values *)
Definition normalize_title_id_value (v : text) : option text :=
  if (MAX_TITLE_ID <=? length v)%nat then None
  else
    let t := trim_ascii v in
    if bool_decide (t = []) || (MAX_TITLE_ID <=? length t)%nat then None
    else if forallb isalnum t then Some (toupper <$> t) else None.

Definition supported_title (t : text) : bool := is_supported_game_title_id (of_text t).

Definition normalize_image_filename_value (v : text) : option text :=
  if (MAX_PATH <=? length v)%nat then None
  else
    let filename := lit (get_filename_component (of_text (trim_ascii v))) in
    if bool_decide (filename = []) || (MAX_PATH <=? length filename)%nat then None else Some filename.

Definition normalize_absolute_path_value (v : text) : option text :=
  if (MAX_PATH <=? length v)%nat then None
  else
    let t := trim_ascii v in
    match t with
    | [] => None
    | a :: _ =>
        if (MAX_PATH <=? length t)%nat || negb (is_slash a) then None
        else if existsb (fun b => control b || Ascii.eqb b "#"%char) t then None
        else Some (trim_slashes t)
    end.

Definition normalize_http_url_value (v : text) : option text :=
  if (MAX_PATH <=? length v)%nat then None
  else
    let t := trim_ascii v in
    let authority :=
      if strncasecmp_eq t (lit "https://") then Some (drop 8 t)
      else if strncasecmp_eq t (lit "http://") then Some (drop 7 t) else None in
    match authority with
    | None | Some [] => None
    | Some (a :: _) =>
        if is_slash a || Ascii.eqb a "?"%char || Ascii.eqb a "#"%char then None
        else if existsb (fun b => control b || isspace b) t then None else Some t
    end.

Definition parse_bool_ini (v : text) : option bool :=
  if bool_decide (v = lit "1") || is_word v ["true"; "yes"; "on"; "ro"]%string then Some true
  else if bool_decide (v = lit "0") || is_word v ["false"; "no"; "off"; "rw"]%string then Some false
  else None.

Definition digit_value (a : ascii) : Z :=
  let b := ascii_byte (tolower a) in
  if isdigit a then b - 48 else if (97 <=? b) && (b <=? 122) then b - 87 else 99.

(** The digits of [strtoul]: the value, whether there was one, and the rest. *)
Fixpoint read_digits (base acc : Z) (any : bool) (s : text) : Z * bool * text :=
  match s with
  | a :: s' => if digit_value a <? base then read_digits base (acc * base + digit_value a) true s' else (acc, any, s)
  | [] => (acc, any, [])
  end.

Definition strtoul_sign (s : text) : bool * text :=
  match s with
  | a :: s' => if Ascii.eqb a "-"%char then (true, s') else if Ascii.eqb a "+"%char then (false, s') else (false, s)
  | [] => (false, [])
  end.

Definition strtoul_base (s : text) : Z * text :=
  match s with
  | a :: s' =>
      if negb (Ascii.eqb a "0"%char) then (10, s)
      else
        match s' with
        | x :: ((h :: _) as s'') =>
            if Ascii.eqb (tolower x) "x"%char && (digit_value h <? 16) then (16, s'') else (8, s)
        | _ => (8, s)
        end
  | [] => (10, [])
  end.

(** [strtoul(value, &end, 0)] on a 64-bit unsigned long, and the checks. *)
Definition parse_u32_ini (v : text) : option Z :=
  let '(negative, s) := strtoul_sign (skip_space v) in
  let '(base, s1) := strtoul_base s in
  let '(acc, any, rest) := read_digits base 0 false s1 in
  if negb any || negb (bool_decide (rest = [])) || (UINT64_MAX <? acc) then None
  else
    let n := if negative : bool then u64 (- acc) else acc in
    if 2 ^ 32 - 1 <? n then None else Some n.

Definition is_valid_sector_size (n : Z) : bool :=
  if (n <? 512) || (1024 * 1024 <? n) then false else Z.land n (n - 1) =? 0.

Definition parse_sector_size (v : text) : option Z :=
  do? n <- parse_u32_ini v ; if is_valid_sector_size n then Some n else None.

Definition parse_image_sector_rule_value (v : text) : option (text * Z) :=
  if (MAX_PATH <=? length v)%nat then None
  else
    do? (name, size) <- break_last ":"%char v ;
    do? filename <- normalize_image_filename_value (trim_ascii name) ;
    do? n <- parse_sector_size (trim_ascii size) ;
    Some (filename, n).

Definition parse_backend_ini (v : text) : option attach_backend_t :=
  if is_word v ["lvd"%string] then Some ATTACH_BACKEND_LVD
  else if is_word v ["md"; "mdctl"]%string then Some ATTACH_BACKEND_MD else None.

(** ** Languages (src/sm_l10n.c) *)
Definition SM_LANGUAGE_AUTO : Z := -1.

Definition g_regions : list (string * string * string) :=
  [("jp", "ja", "ja-JP"); ("us", "en", "en-US"); ("fr", "fr", "fr-FR"); ("es", "es", "es-ES");
   ("de", "de", "de-DE"); ("it", "it", "it-IT"); ("nl", "nl", "nl-NL"); ("pt", "pt", "pt-PT");
   ("ru", "ru", "ru-RU"); ("kr", "ko", "ko-KR"); ("tw", "zh", "zh-TW"); ("cn", "zh", "zh-CN");
   ("fi", "fi", "fi-FI"); ("se", "sv", "sv-SE"); ("dk", "da", "da-DK"); ("no", "no", "no-NO");
   ("pl", "pl", "pl-PL"); ("br", "pt", "pt-BR"); ("gb", "en", "en-GB"); ("tr", "tr", "tr-TR");
   ("mx", "es", "es-MX"); ("sa", "ar", "ar-SA"); ("ca", "fr", "fr-CA"); ("cz", "cs", "cs-CZ");
   ("hu", "hu", "hu-HU"); ("gr", "el", "el-GR"); ("ro", "ro", "ro-RO"); ("th", "th", "th-TH");
   ("vn", "vi", "vi-VN"); ("id", "id", "id-ID"); ("ua", "uk", "uk-UA")]%string.

Definition is_valid_language_id (id : Z) : bool := (0 <=? id) && (id <? Z.of_nat (length g_regions)).

Definition language_code_matches (v code : text) : bool :=
  if (16 <=? length code)%nat then false
  else
    strcasecmp_eq v code ||
    strcasecmp_eq v ((fun a => if Ascii.eqb a "-"%char then "_"%char else a) <$> code).

Definition sm_l10n_parse_language_id (v : text) : option Z :=
  if is_word v ["auto"; "system"; "default"]%string then Some SM_LANGUAGE_AUTO
  else
    Z.of_nat <$> find_index (fun '(country, lang, locale) =>
      language_code_matches v (lit locale) || strcasecmp_eq v (lit country) || strcasecmp_eq v (lit lang)) g_regions.

(** ** The state *)
Definition MAX_SCAN_PATHS : nat := 256.
Definition MAX_IMAGE_MODE_RULES : nat := 128.
Definition MAX_FAKELIB_EXCLUDE_RULES : nat := 128.
Definition MAX_API_BIND_ADDRESS : nat := 16.

Inductive sm_fakelib_mode_t := SM_FAKELIB_FULL | SM_FAKELIB_EMULATORS | SM_FAKELIB_DISABLED | SM_FAKELIB_DEFAULT.

#[export] Instance fakelib_mode_eq_dec : EqDecision sm_fakelib_mode_t.
Proof. solve_decision. Defined.

Record runtime_config_t := RuntimeConfig {
  rc_api_enabled : bool; rc_debug_enabled : bool; rc_quiet_mode : bool; rc_library_sync_notification : bool;
  rc_mount_read_only : bool; rc_force_mount : bool; rc_persistent_image_mounts : bool;
  rc_app_install_all_enabled : bool; rc_auto_remove_missing_games : bool; rc_auto_remove_games_with_dlc : bool;
  rc_backport_fakelib_enabled : bool; rc_global_fakelib_enabled : bool; rc_global_fakelib_game_priority : bool;
  rc_update_emulators_enabled : bool; rc_auto_update_ampr_enabled : bool;
  rc_api_bind_address : text; rc_api_port : Z;
  rc_global_fakelib_path : text; rc_emulators_path : text; rc_ampr_update_url : text;
  rc_fakelib_default_mode : sm_fakelib_mode_t;
  rc_fakelib_rules : list (text * sm_fakelib_mode_t);
  rc_global_fakelib_exclude_title_ids : list text;
  rc_scan_depth : Z; rc_scan_interval_us : Z; rc_stability_wait_seconds : Z;
  rc_auto_remove_missing_delay_seconds : Z; rc_fan_target_temperature_c : Z; rc_language_id : Z;
  rc_exfat_backend : attach_backend_t; rc_ufs_backend : attach_backend_t;
  rc_nested_pfs_index_cache_enabled : bool;
  rc_lvd_sector_exfat : Z; rc_lvd_sector_ufs : Z; rc_lvd_sector_pfs : Z;
  rc_md_sector_exfat : Z; rc_md_sector_ufs : Z;
}.

(** A field that is not valid is [None]. *)
Record image_mode_rule_t := ImageRule {
  im_filename : text; im_mount_read_only : option bool; im_sector_size : option Z;
}.

(** The entries of [image_mode_rules]; [None] is an entry that is not valid. *)
Record runtime_config_state_t := RuntimeState {
  rs_cfg : runtime_config_t;
  rs_scan_paths : list text;
  rs_custom_scan_path_count : nat;
  rs_image_mode_rules : list (option image_mode_rule_t);
  rs_smb : list sm_smb_connection_t;
}.

#[export] Instance runtime_config_eq_dec : EqDecision runtime_config_t.
Proof. solve_decision. Defined.
#[export] Instance image_rule_eq_dec : EqDecision image_mode_rule_t.
Proof. solve_decision. Defined.
#[export] Instance runtime_state_eq_dec : EqDecision runtime_config_state_t.
Proof. solve_decision. Defined.

(** ** Scan paths *)
Definition add_runtime_scan_path (st : runtime_config_state_t) (path : text) : option runtime_config_state_t :=
  let p := trim path in
  if bool_decide (p = []) || (MAX_PATH <=? length p)%nat then None
  else
    let normalized := trim_slashes p in
    if bool_decide (normalized ∈ rs_scan_paths st) then Some st
    else if (MAX_SCAN_PATHS <=? length (rs_scan_paths st))%nat then None
    else Some {| st with rs_scan_paths := rs_scan_paths st ++ [normalized] |}.

(** [(void)add_runtime_scan_path(state, path)]. *)
Definition try_add_scan_path (st : runtime_config_state_t) (path : text) : runtime_config_state_t :=
  default st (add_runtime_scan_path st path).

Definition clear_runtime_scan_paths (st : runtime_config_state_t) : runtime_config_state_t :=
  {| st with rs_scan_paths := []; rs_custom_scan_path_count := 0%nat |}.

Definition add_runtime_managed_scan_paths (st : runtime_config_state_t) : runtime_config_state_t :=
  try_add_scan_path (try_add_scan_path st (lit PFSC_IMAGE_MOUNT_BASE)) (lit IMAGE_MOUNT_BASE).

Definition k_default_scan_paths : list string :=
  ["/data/homebrew"; "/data/etaHEN/games"; "/mnt/ext0/homebrew"; "/mnt/ext0/etaHEN/games";
   "/mnt/ext1/homebrew"; "/mnt/ext1/etaHEN/games";
   "/mnt/usb0/homebrew"; "/mnt/usb1/homebrew"; "/mnt/usb2/homebrew"; "/mnt/usb3/homebrew";
   "/mnt/usb4/homebrew"; "/mnt/usb5/homebrew"; "/mnt/usb6/homebrew"; "/mnt/usb7/homebrew";
   "/mnt/usb0/etaHEN/games"; "/mnt/usb1/etaHEN/games"; "/mnt/usb2/etaHEN/games"; "/mnt/usb3/etaHEN/games";
   "/mnt/usb4/etaHEN/games"; "/mnt/usb5/etaHEN/games"; "/mnt/usb6/etaHEN/games"; "/mnt/usb7/etaHEN/games";
   "/mnt/usb0"; "/mnt/usb1"; "/mnt/usb2"; "/mnt/usb3"; "/mnt/usb4"; "/mnt/usb5"; "/mnt/usb6"; "/mnt/usb7";
   "/mnt/ext0"; "/mnt/ext1"]%string.

Definition init_runtime_scan_paths_defaults (st : runtime_config_state_t) : runtime_config_state_t :=
  add_runtime_managed_scan_paths
    (foldl (fun s p => try_add_scan_path s (lit p)) (clear_runtime_scan_paths st) k_default_scan_paths).

Definition init_runtime_config_defaults : runtime_config_state_t :=
  init_runtime_scan_paths_defaults (RuntimeState
    (RuntimeConfig true true false true true false false false false false true true true true false
      (lit "0.0.0.0") 10101 (lit "/data/shadowmount/fakelib") (lit "/data/shadowmount/emus")
      (lit "https://github.com/drakmor/ampr_emu/releases/latest/download/")
      SM_FAKELIB_FULL [] [] 1 15000000 10 300 0 SM_LANGUAGE_AUTO ATTACH_BACKEND_LVD ATTACH_BACKEND_LVD false
      512 4096 4096 512 4096)
    [] 0%nat (replicate MAX_IMAGE_MODE_RULES None) []).

(** ** Rule tables *)

(** The loops of [set_image_mode_rule] and [set_image_sector_rule]: change the
    rule of the file, or fill the first entry that is not valid. *)
Definition is_rule_of (filename : text) (r : option image_mode_rule_t) : Prop :=
  match r with Some r' => strcasecmp_eq (im_filename r') filename = true | None => False end.

#[export] Instance is_rule_of_dec filename r : Decision (is_rule_of filename r).
Proof. destruct r; simpl; apply _. Defined.

Definition put_image_rule (filename : text) (change : image_mode_rule_t -> image_mode_rule_t)
    (st : runtime_config_state_t) : option runtime_config_state_t :=
  let rules := rs_image_mode_rules st in
  match list_find (is_rule_of filename) rules with
  | Some (k, Some r) => Some {| st with rs_image_mode_rules := <[k := Some (change r)]> rules |}
  | _ =>
      match list_find (fun r => r = None) rules with
      | Some (k, _) =>
          Some {| st with rs_image_mode_rules := <[k := Some (change (ImageRule filename None None))]> rules |}
      | None => None
      end
  end.

Definition set_image_mode_rule (st : runtime_config_state_t) (path : text) (read_only : bool) :
    option runtime_config_state_t :=
  do? filename <- normalize_image_filename_value path ;
  put_image_rule filename (fun r => {| r with im_mount_read_only := Some read_only |}) st.

Definition set_image_sector_rule (st : runtime_config_state_t) (v : text) : option runtime_config_state_t :=
  do? (filename, size) <- parse_image_sector_rule_value v ;
  put_image_rule filename (fun r => {| r with im_sector_size := Some size |}) st.

Definition sm_config_fakelib_mode_name (m : sm_fakelib_mode_t) : text :=
  lit (match m with
       | SM_FAKELIB_FULL => "full" | SM_FAKELIB_EMULATORS => "emulators"
       | SM_FAKELIB_DISABLED => "disabled" | SM_FAKELIB_DEFAULT => "default"
       end)%string.

Definition fakelib_modes : list sm_fakelib_mode_t :=
  [SM_FAKELIB_FULL; SM_FAKELIB_EMULATORS; SM_FAKELIB_DISABLED; SM_FAKELIB_DEFAULT].

Definition sm_config_parse_fakelib_mode (v : text) : option sm_fakelib_mode_t :=
  snd <$> list_find (fun m => strcasecmp_eq v (sm_config_fakelib_mode_name m) = true) fakelib_modes.

Definition parse_title_fakelib_rule (k v : text) : option (text * sm_fakelib_mode_t) :=
  if strcasecmp_eq k (lit "fakelib_exclude") then
    do? t <- normalize_title_id_value v ;
    if supported_title t then Some (t, SM_FAKELIB_DISABLED) else None
  else if negb (strcasecmp_eq k (lit "fakelib_mode")) then None
  else
    do? (raw_title, mode) <- break_first ":"%char v ;
    if (MAX_TITLE_ID <=? length raw_title)%nat then None
    else
      do? t <- normalize_title_id_value raw_title ;
      if supported_title t then (do? m <- sm_config_parse_fakelib_mode mode ; Some (t, m)) else None.

Definition set_title_fakelib_rule (rules : list (text * sm_fakelib_mode_t)) (title : text) (mode : sm_fakelib_mode_t) :
    option (list (text * sm_fakelib_mode_t)) :=
  match list_find (fun r => r.1 = title) rules with
  | Some (i, r) =>
      Some (if decide (mode = SM_FAKELIB_DEFAULT) then delete i rules else <[i := (r.1, mode)]> rules)
  | None =>
      if decide (mode = SM_FAKELIB_DEFAULT) then Some rules
      else if (MAX_FAKELIB_EXCLUDE_RULES <=? length rules)%nat then None
      else Some (rules ++ [(title, mode)])
  end.

Definition add_global_fakelib_exclude_rule (ids : list text) (v : text) : option (list text) :=
  do? t <- normalize_title_id_value v ;
  if bool_decide (t ∈ ids) then Some ids
  else if (MAX_FAKELIB_EXCLUDE_RULES <=? length ids)%nat then None
  else Some (ids ++ [t]).

(** ** Flattening the documents *)
Definition in_section (prefix : string) (sec : text) : bool := strncasecmp_eq sec (lit prefix).

(** [sm_ini_get(doc, line->section, line->key) != line->value]: the values are
    separate allocations, so this says that a later line is found instead. *)
Definition superseded (line : sm_ini_line_t) (k : text) (later : sm_ini_t) : bool :=
  bool_decide (is_Some (sm_ini_get later (section line) k)).

Definition find_config_key (sec k : text) : option sm_config_key_t :=
  snd <$> list_find (fun m => strcasecmp_eq sec (lit (ck_section m)) && strcasecmp_eq k (lit (ck_key m)) = true)
    sm_config_keys.

(** What a setting of config.ini adds to the flat list; [later] says that a later
    line sets the same. *)
Definition setting_entry (sec k v : text) (later : bool) : option (text * text) :=
  if strcasecmp_eq sec (lit "config") || in_section "smb:" sec then None
  else
    match find_config_key sec k with
    | None => None
    | Some m =>
        if negb (bool_decide (ck_legacy m = "scanpath"%string)) && later then None
        else Some (lit (ck_legacy m), v)
    end.

Definition main_entry (line : sm_ini_line_t) (later : sm_ini_t) : option (text * text) :=
  match key line, value line with
  | Some k, Some v => setting_entry (section line) k v (superseded line k later)
  | _, _ => None
  end.

Definition PROFILE_VALUE_SIZE : nat := MAX_PATH + 64.

(** The same for profiles.ini: [None] is an error, [Some None] nothing. *)
Definition profile_entry (line : sm_ini_line_t) (later : sm_ini_t) : option (option (text * text)) :=
  match key line, value line with
  | Some k, Some v =>
      if strcasecmp_eq (section line) (lit "config") || superseded line k later then Some None
      else if in_section "game:" (section line) then
        do? title <- normalize_title_id_value (drop 5 (section line)) ;
        if negb (supported_title title) then None
        else if strcasecmp_eq k (lit "fakelib") then
          Some (Some (lit "fakelib_mode", take (PROFILE_VALUE_SIZE - 1) (title ++ ":"%char :: v)))
        else if strcasecmp_eq k (lit "ignore_global_fakelib") then
          if strcasecmp_eq v (lit "default") then Some None
          else
            do? excluded <- parse_bool_ini v ;
            Some (if excluded : bool then Some (lit "global_fakelib_exclude", title) else None)
        else Some None
      else if in_section "image:" (section line) then
        if existsb is_slash (drop 6 (section line)) then None
        else
          do? filename <- normalize_image_filename_value (drop 6 (section line)) ;
          if strcasecmp_eq v (lit "default") then Some None
          else if strcasecmp_eq k (lit "mount_mode") then
            if strcasecmp_eq v (lit "ro") then Some (Some (lit "image_ro", filename))
            else if strcasecmp_eq v (lit "rw") then Some (Some (lit "image_rw", filename)) else None
          else if strcasecmp_eq k (lit "sector_size") then
            Some (Some (lit "image_sector", take (PROFILE_VALUE_SIZE - 1) (filename ++ ":"%char :: v)))
          else Some None
      else Some None
  | _, _ => Some None
  end.

Definition append_flat (flat : sm_ini_t) (e : option (text * text)) : option sm_ini_t :=
  match e with Some (k, v) => sm_ini_append flat (lit "runtime") k v | None => Some flat end.

Fixpoint flatten_main (doc : sm_ini_t) (flat : sm_ini_t) : option sm_ini_t :=
  match doc with
  | [] => Some flat
  | line :: later => do? flat' <- append_flat flat (main_entry line later) ; flatten_main later flat'
  end.

Fixpoint flatten_profiles (doc : sm_ini_t) (flat : sm_ini_t) : option sm_ini_t :=
  match doc with
  | [] => Some flat
  | line :: later =>
      do? e <- profile_entry line later ;
      do? flat' <- append_flat flat e ; flatten_profiles later flat'
  end.

Definition flatten_documents (main profiles : sm_ini_t) : option sm_ini_t :=
  do? flat <- flatten_main main [] ; flatten_profiles profiles flat.

(** ** SMB connections *)
Definition bool_setting (v : option text) (otherwise : bool) : option bool :=
  match v with Some v' => parse_bool_ini v' | None => Some otherwise end.

Definition smb_connection_of (doc : sm_ini_t) (sec : text) : option sm_smb_connection_t :=
  let name := drop 4 sec in
  if (SMB_NAME_SIZE <=? length name)%nat then None
  else
    do? path <- sm_ini_get doc sec (lit "path") ;
    let user := default [] (sm_ini_get doc sec (lit "username")) in
    let password := default [] (sm_ini_get doc sec (lit "password")) in
    if (MAX_PATH <=? length path)%nat || (SMB_USER_SIZE <=? length user)%nat ||
       (SMB_PASSWORD_SIZE <=? length password)%nat
    then None
    else
      do? active <- bool_setting (sm_ini_get doc sec (lit "active")) true ;
      do? ro <- bool_setting (sm_ini_get doc sec (lit "read_only")) false ;
      let c := SmbConnection name path user password active ro in
      match sm_smb_validate c with None => Some c | Some _ => None end.

Definition smb_seen (items : list sm_smb_connection_t) (sec : text) : bool :=
  existsb (fun c => strcasecmp_eq (c_name c) (drop 4 sec)) items.

(** The loop over the lines of the document [doc]. *)
Fixpoint read_smb_lines (doc lines : sm_ini_t) (items : list sm_smb_connection_t) : option (list sm_smb_connection_t) :=
  match lines with
  | [] => Some items
  | line :: lines' =>
      if negb (header line) || negb (in_section "smb:" (section line)) || smb_seen items (section line)
      then read_smb_lines doc lines' items
      else if bool_decide (length items = SM_SMB_CONNECTIONS_MAX) then None
      else do? c <- smb_connection_of doc (section line) ; read_smb_lines doc lines' (items ++ [c])
  end.

Definition read_smb_connections (doc : sm_ini_t) : option (list sm_smb_connection_t) := read_smb_lines doc doc [].

(** ** [parse_runtime_config_state] *)
Definition FAN_TARGET_TEMPERATURE_SYSTEM : Z := 0.

Section parse.
Context (inet_pton : text -> bool).

(** A setting of [cfg]. *)
Definition set_cfg {A} (parse : text -> option A) (put : A -> runtime_config_t -> runtime_config_t) (v : text)
    (st : runtime_config_state_t) : option runtime_config_state_t :=
  do? x <- parse v ; Some {| st with rs_cfg := put x (rs_cfg st) |}.

Definition ranged (lo hi : Z) (v : text) : option Z :=
  do? n <- parse_u32_ini v ; if (n <? lo) || (hi <? n) then None else Some n.

Definition parse_bind_address (v : text) : option text :=
  if (MAX_API_BIND_ADDRESS <=? length v)%nat || negb (inet_pton v) then None else Some v.

Definition parse_default_mode (v : text) : option sm_fakelib_mode_t :=
  do? m <- sm_config_parse_fakelib_mode v ; if decide (m = SM_FAKELIB_DEFAULT) then None else Some m.

Definition parse_priority (v : text) : option bool :=
  if is_word v ["game"%string] then Some true else if is_word v ["global"%string] then Some false else None.

Definition parse_fan_target (v : text) : option Z :=
  if is_word v ["system"; "auto"]%string then Some FAN_TARGET_TEMPERATURE_SYSTEM else ranged 50 91 v.

(** The chain of comparisons with the key, in four parts: a key is treated by the first row that lists it. *)
Definition key_row : Type := list string * (text -> text -> runtime_config_state_t -> option runtime_config_state_t).

Definition general_keys : list key_row :=
  [ (["debug"], fun _ => set_cfg parse_bool_ini (fun b c => {| c with rc_debug_enabled := b |}));
    (["quiet_mode"], fun _ => set_cfg parse_bool_ini (fun b c => {| c with rc_quiet_mode := b |}));
    (["library_sync_notification"],
      fun _ => set_cfg parse_bool_ini (fun b c => {| c with rc_library_sync_notification := b |}));
    (["language"; "lang"; "locale"], fun _ => set_cfg sm_l10n_parse_language_id (fun n c => {| c with rc_language_id := n |}));
    (["api_enabled"], fun _ => set_cfg parse_bool_ini (fun b c => {| c with rc_api_enabled := b |}));
    (["api_bind_address"; "api_bind_adress"],
      fun _ => set_cfg parse_bind_address (fun a c => {| c with rc_api_bind_address := a |}));
    (["api_port"], fun _ => set_cfg (ranged 1 65535) (fun n c => {| c with rc_api_port := n |}));
    (["mount_read_only"; "read_only"], fun _ => set_cfg parse_bool_ini (fun b c => {| c with rc_mount_read_only := b |}));
    (["force_mount"], fun _ => set_cfg parse_bool_ini (fun b c => {| c with rc_force_mount := b |}));
    (["persistent_image_mounts"],
      fun _ => set_cfg parse_bool_ini (fun b c => {| c with rc_persistent_image_mounts := b |}));
    (["app_install_all"], fun _ => set_cfg parse_bool_ini (fun b c => {| c with rc_app_install_all_enabled := b |}));
    (["auto_remove_missing_games"],
      fun _ => set_cfg parse_bool_ini (fun b c => {| c with rc_auto_remove_missing_games := b |}));
    (["auto_remove_games_with_dlc"],
      fun _ => set_cfg parse_bool_ini (fun b c => {| c with rc_auto_remove_games_with_dlc := b |}))
  ]%string.

Definition rule_keys : list key_row :=
  [ (["image_ro"; "image_rw"], fun k v st => set_image_mode_rule st v (strcasecmp_eq k (lit "image_ro")));
    (["image_sector"], fun _ v st => set_image_sector_rule st v);
    (["scan_depth"], fun _ => set_cfg (ranged 1 2) (fun n c => {| c with rc_scan_depth := n |}));
    (["backport_fakelib"], fun _ => set_cfg parse_bool_ini (fun b c => {| c with rc_backport_fakelib_enabled := b |}));
    (["fakelib_default_mode"],
      fun _ => set_cfg parse_default_mode (fun m c => {| c with rc_fakelib_default_mode := m |}));
    (["fakelib_exclude"; "fakelib_mode"], fun k v st =>
      do? (t, m) <- parse_title_fakelib_rule k v ;
      do? rules <- set_title_fakelib_rule (rc_fakelib_rules (rs_cfg st)) t m ;
      Some {| st with rs_cfg := {| (rs_cfg st) with rc_fakelib_rules := rules |} |});
    (["global_fakelib"; "global_fakelib_enabled"],
      fun _ => set_cfg parse_bool_ini (fun b c => {| c with rc_global_fakelib_enabled := b |}));
    (["global_fakelib_path"],
      fun _ => set_cfg normalize_absolute_path_value (fun p c => {| c with rc_global_fakelib_path := p |}));
    (["global_fakelib_priority"],
      fun _ => set_cfg parse_priority (fun b c => {| c with rc_global_fakelib_game_priority := b |}));
    (["global_fakelib_exclude"; "global_fakelib_exclude_title"], fun _ v st =>
      do? ids <- add_global_fakelib_exclude_rule (rc_global_fakelib_exclude_title_ids (rs_cfg st)) v ;
      Some {| st with rs_cfg := {| (rs_cfg st) with rc_global_fakelib_exclude_title_ids := ids |} |});
    (["update_emulators"], fun _ => set_cfg parse_bool_ini (fun b c => {| c with rc_update_emulators_enabled := b |}));
    (["emulators_path"],
      fun _ => set_cfg normalize_absolute_path_value (fun p c => {| c with rc_emulators_path := p |}))
  ]%string.

Definition service_keys : list key_row :=
  [ (["auto_update_ampr"], fun _ => set_cfg parse_bool_ini (fun b c => {| c with rc_auto_update_ampr_enabled := b |}));
    (["ampr_update_url"], fun _ => set_cfg normalize_http_url_value (fun u c => {| c with rc_ampr_update_url := u |}));
    (["fan_target_temperature"],
      fun _ => set_cfg parse_fan_target (fun n c => {| c with rc_fan_target_temperature_c := n |}));
    (["scan_interval_seconds"; "scan_interval_sec"],
      fun _ => set_cfg (ranged 1 3600) (fun n c => {| c with rc_scan_interval_us := u32 (n * 1000000) |}));
    (["stability_wait_seconds"; "stability_wait_sec"],
      fun _ => set_cfg (ranged 0 3600) (fun n c => {| c with rc_stability_wait_seconds := n |}));
    (["auto_remove_missing_delay_seconds"; "auto_remove_missing_delay_sec"],
      fun _ => set_cfg (ranged 1 86400) (fun n c => {| c with rc_auto_remove_missing_delay_seconds := n |}));
    (["exfat_backend"], fun _ => set_cfg parse_backend_ini (fun b c => {| c with rc_exfat_backend := b |}));
    (["ufs_backend"], fun _ => set_cfg parse_backend_ini (fun b c => {| c with rc_ufs_backend := b |}));
    (["nested_pfs_index_cache"; "legacy_gddr5_cache"],
      fun _ => set_cfg parse_bool_ini (fun b c => {| c with rc_nested_pfs_index_cache_enabled := b |}))
  ]%string.

Definition sector_keys : list key_row :=
  [ (["lvd_exfat_sector_size"], fun _ => set_cfg parse_sector_size (fun n c => {| c with rc_lvd_sector_exfat := n |}));
    (["lvd_ufs_sector_size"], fun _ => set_cfg parse_sector_size (fun n c => {| c with rc_lvd_sector_ufs := n |}));
    (["lvd_pfs_sector_size"], fun _ => set_cfg parse_sector_size (fun n c => {| c with rc_lvd_sector_pfs := n |}));
    (["md_exfat_sector_size"], fun _ => set_cfg parse_sector_size (fun n c => {| c with rc_md_sector_exfat := n |}));
    (["md_ufs_sector_size"], fun _ => set_cfg parse_sector_size (fun n c => {| c with rc_md_sector_ufs := n |}))
  ]%string.

Definition runtime_keys : list key_row := general_keys ++ rule_keys ++ service_keys ++ sector_keys.

(** One entry of the flat list; the flag is [has_custom_scanpaths]. *)
Definition apply_entry (k v : text) (s : runtime_config_state_t * bool) : option (runtime_config_state_t * bool) :=
  let '(st, custom) := s in
  if strcasecmp_eq k (lit "scanpath") then
    do? st' <- add_runtime_scan_path (if custom : bool then st else clear_runtime_scan_paths st) v ;
    Some (st', true)
  else
    match list_find (fun row => is_word k row.1 = true) runtime_keys with
    | Some (_, (_, put)) => do? st' <- put k v st ; Some (st', custom)
    | None => Some (st, custom)
    end.

Fixpoint apply_flat (flat : sm_ini_t) (s : runtime_config_state_t * bool) : option (runtime_config_state_t * bool) :=
  match flat with
  | [] => Some s
  | line :: flat' =>
      match key line, value line with
      | Some k, Some v => do? s' <- apply_entry k v s ; apply_flat flat' s'
      | _, _ => apply_flat flat' s
      end
  end.

Definition finish_scan_paths (st : runtime_config_state_t) (custom : bool) : runtime_config_state_t :=
  add_runtime_managed_scan_paths
    (if custom then
       match rs_scan_paths st with
       | [] => init_runtime_scan_paths_defaults st
       | paths => {| st with rs_custom_scan_path_count := length paths |}
       end
     else st).

Definition parse_runtime_config_state (main profiles : sm_ini_t) : option runtime_config_state_t :=
  do? flat <- flatten_documents main profiles ;
  do? smb <- read_smb_connections main ;
  do? (st, custom) <- apply_flat flat ({| init_runtime_config_defaults with rs_smb := smb |}, false) ;
  Some (finish_scan_paths st custom).

Definition validate_documents (main profiles : sm_ini_t) : bool :=
  bool_decide (is_Some (parse_runtime_config_state main profiles)).
End parse.

(** ** What a configuration promises *)
Definition sector_ok (n : Z) : Prop := exists k, 9 <= k <= 20 /\ n = 2 ^ k.
Definition path_ok (p : text) : Prop := (length p < MAX_PATH)%nat /\ exists r, p = slash :: r.

Record config_ok (c : runtime_config_t) : Prop := ConfigOk {
  co_bind : (length (rc_api_bind_address c) < MAX_API_BIND_ADDRESS)%nat;
  co_port : 1 <= rc_api_port c <= 65535;
  co_global_path : path_ok (rc_global_fakelib_path c);
  co_emulators : path_ok (rc_emulators_path c);
  co_url : (length (rc_ampr_update_url c) < MAX_PATH)%nat;
  co_mode : rc_fakelib_default_mode c <> SM_FAKELIB_DEFAULT;
  co_rules : NoDup (rc_fakelib_rules c).*1 /\ (length (rc_fakelib_rules c) <= MAX_FAKELIB_EXCLUDE_RULES)%nat /\
    Forall (fun r => supported_title r.1 = true /\ r.2 <> SM_FAKELIB_DEFAULT) (rc_fakelib_rules c);
  co_exclude : NoDup (rc_global_fakelib_exclude_title_ids c) /\
    (length (rc_global_fakelib_exclude_title_ids c) <= MAX_FAKELIB_EXCLUDE_RULES)%nat /\
    Forall (fun t => (0 < length t < MAX_TITLE_ID)%nat) (rc_global_fakelib_exclude_title_ids c);
  co_depth : 1 <= rc_scan_depth c <= 2;
  co_interval : 1000000 <= rc_scan_interval_us c <= 3600000000;
  co_stability : 0 <= rc_stability_wait_seconds c <= 3600;
  co_delay : 1 <= rc_auto_remove_missing_delay_seconds c <= 86400;
  co_fan : rc_fan_target_temperature_c c = FAN_TARGET_TEMPERATURE_SYSTEM \/ 50 <= rc_fan_target_temperature_c c <= 91;
  co_language : rc_language_id c = SM_LANGUAGE_AUTO \/ is_valid_language_id (rc_language_id c) = true;
  co_exfat : rc_exfat_backend c <> ATTACH_BACKEND_NONE;
  co_ufs : rc_ufs_backend c <> ATTACH_BACKEND_NONE;
  co_sectors : Forall sector_ok [rc_lvd_sector_exfat c; rc_lvd_sector_ufs c; rc_lvd_sector_pfs c;
    rc_md_sector_exfat c; rc_md_sector_ufs c];
}.

Definition rule_ok (r : image_mode_rule_t) : Prop :=
  (0 < length (im_filename r) < MAX_PATH)%nat /\ forall n, im_sector_size r = Some n -> sector_ok n.

(** No two valid rules are for one file. *)
Definition rules_distinct (rules : list (option image_mode_rule_t)) : Prop :=
  forall i j r r', rules !! i = Some (Some r) -> rules !! j = Some (Some r') ->
    same_text (im_filename r) (im_filename r') -> i = j.

Definition smb_ok (smb : list sm_smb_connection_t) : Prop :=
  (length smb <= SM_SMB_CONNECTIONS_MAX)%nat /\ Forall (fun c => sm_smb_validate c = None) smb /\
  NoDup ((fun c => tolower <$> c_name c) <$> smb).

Record state_ok (st : runtime_config_state_t) : Prop := StateOk {
  so_cfg : config_ok (rs_cfg st);
  so_paths : NoDup (rs_scan_paths st) /\ (length (rs_scan_paths st) <= MAX_SCAN_PATHS)%nat /\
    Forall (fun p => (0 < length p < MAX_PATH)%nat) (rs_scan_paths st);
  so_custom : (rs_custom_scan_path_count st <= length (rs_scan_paths st))%nat;
  so_rules : length (rs_image_mode_rules st) = MAX_IMAGE_MODE_RULES /\ rules_distinct (rs_image_mode_rules st) /\
    forall i r, rs_image_mode_rules st !! i = Some (Some r) -> rule_ok r;
  so_smb : smb_ok (rs_smb st);
}.

(** ** Values are in range *)
Lemma valid_sector_size n : is_valid_sector_size n = true -> sector_ok n.
Proof.
  unfold is_valid_sector_size. destruct (_ || _) eqn:Hr; [done|]. bool_hyps. intros Hp%Z.eqb_eq.
  apply Z.ltb_ge in H, H0. set (k := Z.log2 n).
  assert (Hk : 2 ^ k <= n < 2 ^ Z.succ k) by (apply Z.log2_spec; lia).
  assert (0 <= k) by (apply Z.log2_nonneg).
  assert (Hn : n = 2 ^ k).
  { destruct (Z.eq_dec n (2 ^ k)) as [|Hne]; [done|]. exfalso. rewrite Z.pow_succ_r in Hk by done.
    assert (Hb : forall m, 2 ^ k <= m < 2 * 2 ^ k -> Z.testbit m k = true).
    { intros m Hm. rewrite Z.testbit_true by done. replace (m / 2 ^ k) with 1; [done|].
      apply (Z.div_unique m (2 ^ k) 1 (m - 2 ^ k)); lia. }
    pose proof (Z.land_spec n (n - 1) k) as Hl. rewrite Hp, Z.bits_0, !Hb in Hl by lia. done. }
  exists k. split; [|done]. split.
  - apply Z.le_trans with (Z.log2 512); [done|]. by apply Z.log2_le_mono.
  - apply Z.le_trans with (Z.log2 (1024 * 1024)); [|done]. by apply Z.log2_le_mono.
Qed.

Lemma parse_sector_size_ok v n : parse_sector_size v = Some n -> sector_ok n.
Proof.
  unfold parse_sector_size. destruct (parse_u32_ini v) as [m|]; [|done]. destruct (is_valid_sector_size m) eqn:Hm; [|done].
  intros [= <-]. by apply valid_sector_size.
Qed.

Lemma ranged_ok lo hi v n : ranged lo hi v = Some n -> lo <= n <= hi.
Proof.
  unfold ranged. destruct (parse_u32_ini v) as [m|]; [|done]. destruct (_ || _) eqn:Hr; [done|]. intros [= <-].
  bool_hyps. apply Z.ltb_ge in H, H0. lia.
Qed.

Lemma parse_fan_target_ok v n : parse_fan_target v = Some n -> n = FAN_TARGET_TEMPERATURE_SYSTEM \/ 50 <= n <= 91.
Proof. unfold parse_fan_target. destruct (is_word _ _); [intros [= <-]; by left|]. intros ?%ranged_ok. by right. Qed.

Lemma parse_bind_address_ok inet v a : parse_bind_address inet v = Some a -> (length a < MAX_API_BIND_ADDRESS)%nat.
Proof.
  unfold parse_bind_address. destruct (_ || _) eqn:Hr; [done|]. intros [= <-]. bool_hyps. by apply Nat.leb_gt.
Qed.

Lemma parse_default_mode_ok v m : parse_default_mode v = Some m -> m <> SM_FAKELIB_DEFAULT.
Proof. unfold parse_default_mode. destruct (sm_config_parse_fakelib_mode v); [|done]. case_decide; [done|]. by intros [= <-]. Qed.

Lemma parse_backend_ok v b : parse_backend_ini v = Some b -> b <> ATTACH_BACKEND_NONE.
Proof. unfold parse_backend_ini. destruct (is_word _ _); [by intros [= <-]|]. destruct (is_word _ _); [by intros [= <-]|done]. Qed.

Lemma parse_language_ok v n : sm_l10n_parse_language_id v = Some n -> n = SM_LANGUAGE_AUTO \/ is_valid_language_id n = true.
Proof.
  unfold sm_l10n_parse_language_id. destruct (is_word _ _); [intros [= <-]; by left|].
  intros (i & Hi%find_index_lt & ->)%fmap_Some. right. unfold is_valid_language_id. apply andb_true_iff.
  rewrite Z.leb_le, Z.ltb_lt. lia.
Qed.

Lemma skip_ascii_suffix s : exists a, s = a ++ skip_ascii s.
Proof.
  induction s as [|a s [x IH]]; [by exists []|]. simpl. destruct (_ || _); [|by exists []].
  exists (a :: x). simpl. by rewrite <-IH.
Qed.

Lemma trim_ascii_length s : (length (trim_ascii s) <= length s)%nat.
Proof.
  unfold trim_ascii. destruct (skip_ascii_suffix s) as [a Ha]. destruct (skip_ascii_suffix (reverse (skip_ascii s))) as [b Hb].
  apply (f_equal length) in Ha, Hb. rewrite length_app, length_reverse in *. lia.
Qed.

Lemma trim_slashes_spec p : p <> [] -> exists a r z, p = a :: r /\ trim_slashes p = a :: z /\ (length z <= length r)%nat.
Proof.
  intros Hp. destruct p as [|a r]; [done|]. unfold trim_slashes. rewrite reverse_cons.
  assert (Hs : forall u, exists w, skip_slashes (u ++ [a]) = w ++ [a] /\ (length w <= length u)%nat).
  { induction u as [|b u (w & IH & Hw)]; [by exists []|]. simpl. destruct (u ++ [a]) as [|c u'] eqn:Hu; [by destruct u|].
    destruct (is_slash b); [exists w; simpl; split; [done|lia]|]. exists (b :: u). simpl. by rewrite Hu. }
  destruct (Hs (reverse r)) as (w & -> & Hw). rewrite length_reverse in Hw. exists a, r, (reverse w).
  rewrite reverse_app, length_reverse. done.
Qed.

Lemma normalize_absolute_path_ok v p : normalize_absolute_path_value v = Some p -> path_ok p.
Proof.
  unfold normalize_absolute_path_value. destruct (_ <=? _)%nat eqn:Hl; [done|]. apply Nat.leb_gt in Hl.
  pose proof (trim_ascii_length v) as Ht. destruct (trim_ascii v) as [|a t]; [done|].
  destruct (_ || _) eqn:Hr; [done|]. destruct (existsb _ _); [done|]. intros Hq. apply Some_inj in Hq as <-. bool_hyps.
  destruct (trim_slashes_spec (a :: t)) as (b & r & z & [= <- <-] & Hz & Hlen); [done|]. rewrite Hz.
  split; [simpl in *; lia|]. exists z. f_equal. by apply is_slash_true.
Qed.

Lemma normalize_http_url_ok v u : normalize_http_url_value v = Some u -> (length u < MAX_PATH)%nat.
Proof.
  unfold normalize_http_url_value. destruct (_ <=? _)%nat eqn:Hl; [done|]. apply Nat.leb_gt in Hl.
  pose proof (trim_ascii_length v) as Ht. destruct (if strncasecmp_eq _ _ then _ else _) as [[|a t]|]; [done| |done].
  destruct (_ || _ || _); [done|]. destruct (existsb _ _); [done|]. intros [= <-]. lia.
Qed.

Lemma normalize_title_ok v t : normalize_title_id_value v = Some t -> (0 < length t < MAX_TITLE_ID)%nat.
Proof.
  unfold normalize_title_id_value. destruct (_ <=? _)%nat; [done|]. destruct (_ || _) eqn:Hr; [done|].
  destruct (forallb _ _); [|done]. intros [= <-]. bool_hyps. apply Nat.leb_gt in H0. rewrite length_fmap.
  destruct (trim_ascii v); [done|]. simpl in *. lia.
Qed.

Lemma normalize_image_ok v f : normalize_image_filename_value v = Some f -> (0 < length f < MAX_PATH)%nat.
Proof.
  unfold normalize_image_filename_value. destruct (_ <=? _)%nat; [done|]. destruct (_ || _) eqn:Hr; [done|].
  intros [= <-]. bool_hyps. apply Nat.leb_gt in H0. destruct (lit _); [done|]. simpl in *. lia.
Qed.

(** ** Rule tables stay good *)
Definition fakelib_rules_ok (rules : list (text * sm_fakelib_mode_t)) : Prop :=
  NoDup rules.*1 /\ (length rules <= MAX_FAKELIB_EXCLUDE_RULES)%nat /\
  Forall (fun r => supported_title r.1 = true /\ r.2 <> SM_FAKELIB_DEFAULT) rules.

Lemma list_find_None_elem {A} (P : A -> Prop) `{forall x, Decision (P x)} l x : list_find P l = None -> x ∈ l -> ~ P x.
Proof. intros Hl Hx. apply list_find_None in Hl. rewrite Forall_forall in Hl. by apply Hl. Qed.

Lemma set_title_fakelib_rule_ok rules t m rules' : fakelib_rules_ok rules -> supported_title t = true ->
  set_title_fakelib_rule rules t m = Some rules' -> fakelib_rules_ok rules'.
Proof.
  intros (Hnd & Hlen & Hall) Ht. unfold set_title_fakelib_rule.
  destruct (list_find _ rules) as [[i r]|] eqn:Hf.
  - apply list_find_Some in Hf as (Hi & Hr & _). case_decide as Hm; intros [= <-].
    + split_and!.
      * rewrite list_fmap_delete. eapply sublist_NoDup; [done|apply sublist_delete].
      * rewrite length_delete by eauto. lia.
      * by apply Forall_delete.
    + split_and!.
      * rewrite list_fmap_insert. simpl. rewrite list_insert_id; [done|]. by rewrite list_lookup_fmap, Hi.
      * by rewrite length_insert.
      * apply Forall_insert; [done|]. simpl. split; [|done]. by rewrite Hr.
  - case_decide as Hm; [by intros [= <-]|]. destruct (Nat.leb_spec MAX_FAKELIB_EXCLUDE_RULES (length rules)); [done|].
    intros [= <-]. split_and!.
    + rewrite fmap_app. apply NoDup_app. split_and!; [done| |apply NoDup_singleton].
      intros x (r & -> & Hr)%list_elem_of_fmap. simpl. rewrite list_elem_of_singleton.
      exact (list_find_None_elem _ _ r Hf Hr).
    + rewrite length_app. simpl. lia.
    + apply Forall_app_2; [done|]. by apply Forall_singleton.
Qed.

Lemma parse_title_rule_ok k v t m : parse_title_fakelib_rule k v = Some (t, m) -> supported_title t = true.
Proof.
  unfold parse_title_fakelib_rule. destruct (strcasecmp_eq k _).
  - destruct (normalize_title_id_value v) as [x|]; [|done]. destruct (supported_title x) eqn:Hx; [|done]. by intros [= <- _].
  - destruct (negb _); [done|]. destruct (break_first _ v) as [[a b]|]; [|done]. destruct (_ <=? _)%nat; [done|].
    destruct (normalize_title_id_value a) as [x|]; [|done]. destruct (supported_title x) eqn:Hx; [|done].
    destruct (sm_config_parse_fakelib_mode b); [|done]. by intros [= <- _].
Qed.

Definition exclude_ok (ids : list text) : Prop :=
  NoDup ids /\ (length ids <= MAX_FAKELIB_EXCLUDE_RULES)%nat /\ Forall (fun t => (0 < length t < MAX_TITLE_ID)%nat) ids.

Lemma add_exclude_ok ids v ids' : exclude_ok ids -> add_global_fakelib_exclude_rule ids v = Some ids' -> exclude_ok ids'.
Proof.
  intros (Hnd & Hlen & Hall). unfold add_global_fakelib_exclude_rule.
  destruct (normalize_title_id_value v) as [t|] eqn:Hn; [|done]. apply normalize_title_ok in Hn.
  case_bool_decide as Hin; [by intros [= <-]|]. destruct (Nat.leb_spec MAX_FAKELIB_EXCLUDE_RULES (length ids)); [done|].
  intros [= <-]. split_and!.
  - apply NoDup_app. split_and!; [done| |apply NoDup_singleton]. intros x Hx. rewrite list_elem_of_singleton. by intros ->.
  - rewrite length_app. simpl. lia.
  - apply Forall_app_2; [done|]. by apply Forall_singleton.
Qed.

Definition image_rules_ok (rules : list (option image_mode_rule_t)) : Prop :=
  length rules = MAX_IMAGE_MODE_RULES /\ rules_distinct rules /\
  forall i r, rules !! i = Some (Some r) -> rule_ok r.

(** Replacing an entry by a rule for the same file, or for a new one. *)
Lemma image_rules_insert rules k r : image_rules_ok rules -> rule_ok r ->
  (forall j r', rules !! j = Some (Some r') -> same_text (im_filename r') (im_filename r) -> j = k) ->
  image_rules_ok (<[k := Some r]> rules).
Proof.
  intros (Hlen & Hd & Hok) Hr Hk.
  assert (Hget : forall j x, <[k := Some r]> rules !! j = Some (Some x) ->
    (j = k /\ x = r) \/ (j <> k /\ rules !! j = Some (Some x))).
  { intros j x [(<- & [= <-] & _)|[Hne Hj]]%list_lookup_insert_Some; [by left|by right]. }
  split_and!; [by rewrite length_insert| |].
  - intros i j x y Hi Hj Hs. apply Hget in Hi as [[-> ->]|[Hni Hi]], Hj as [[-> ->]|[Hnj Hj]]; [done| | |by eapply Hd].
    + destruct Hnj. apply (Hk j y Hj). by symmetry.
    + destruct Hni. by apply (Hk i x Hi).
  - intros i x [[_ ->]|[_ Hi]]%Hget; [done|by eapply Hok].
Qed.

Lemma put_image_rule_ok filename change st st' : image_rules_ok (rs_image_mode_rules st) ->
  (0 < length filename < MAX_PATH)%nat ->
  (forall r, im_filename (change r) = im_filename r /\ (rule_ok r -> rule_ok (change r))) ->
  put_image_rule filename change st = Some st' ->
  exists rules, st' = {| st with rs_image_mode_rules := rules |} /\ image_rules_ok rules.
Proof.
  intros Hok Hf Hc. pose proof Hok as (Hlen & Hd & Hrule). unfold put_image_rule.
  destruct (list_find (is_rule_of filename) _) as [[k [r|]]|] eqn:Hfind.
  - apply list_find_Some in Hfind as (Hk & _ & _). intros [= <-]. eexists. split; [done|]. destruct (Hc r) as [Hn Hr].
    apply image_rules_insert; [done|by apply Hr, (Hrule k)|]. intros j r' Hj. rewrite Hn. by eapply Hd.
  - by apply list_find_Some in Hfind as (_ & ? & _).
  - destruct (list_find (fun r => r = None) _) as [[k r]|] eqn:Hnone; [|done]. intros [= <-]. eexists. split; [done|].
    destruct (Hc (ImageRule filename None None)) as [Hn Hr]. apply image_rules_insert; [done|by apply Hr|].
    intros j r' Hj Hs. rewrite Hn in Hs. simpl in Hs. exfalso.
    apply (list_find_None_elem _ _ (Some r') Hfind); [by eapply list_elem_of_lookup_2|]. simpl. by apply strcasecmp_eq_true.
Qed.

Lemma add_scan_path_ok st p st' : state_ok st -> add_runtime_scan_path st p = Some st' -> state_ok st'.
Proof.
  intros [Hc (Hnd & Hlen & Hall) Hcust Hr Hs]. unfold add_runtime_scan_path. destruct (_ || _) eqn:Hp; [done|]. bool_hyps.
  apply Nat.leb_gt in H0. destruct (trim_slashes_spec (trim p) H) as (a & r & z & Ht & Hz & Hzl).
  case_bool_decide as Hin; [by intros [= <-]|].
  destruct (Nat.leb_spec MAX_SCAN_PATHS (length (rs_scan_paths st))); [done|]. intros [= <-].
  split; cbn [rs_cfg rs_scan_paths rs_custom_scan_path_count rs_image_mode_rules rs_smb]; try done.
  - split_and!.
    + apply NoDup_app. split_and!; [done| |apply NoDup_singleton]. intros x Hx. rewrite list_elem_of_singleton. by intros ->.
    + rewrite length_app. simpl. lia.
    + apply Forall_app_2; [done|]. apply Forall_singleton. rewrite Hz, Ht in *. simpl in *. lia.
  - rewrite length_app. lia.
Qed.

Lemma try_add_ok st p : state_ok st -> state_ok (try_add_scan_path st p).
Proof. intros Hs. unfold try_add_scan_path. destruct (add_runtime_scan_path st p) eqn:He; [|done]. by eapply add_scan_path_ok. Qed.

Lemma managed_ok st : state_ok st -> state_ok (add_runtime_managed_scan_paths st).
Proof. intros. by do 2 apply try_add_ok. Qed.

Lemma clear_ok st : state_ok st -> state_ok (clear_runtime_scan_paths st).
Proof. intros [Hc Hp Hcu Hr Hs]. split; try done. simpl. split_and!; [constructor|unfold MAX_SCAN_PATHS; lia|constructor]. Qed.

Lemma default_paths_ok st : state_ok st -> state_ok (init_runtime_scan_paths_defaults st).
Proof.
  intros Hs%clear_ok. apply managed_ok. revert Hs. generalize (clear_runtime_scan_paths st).
  induction k_default_scan_paths as [|p l IH]; intros s Hs; [done|]. simpl. by apply IH, try_add_ok.
Qed.

(** ** Settings keep the state good *)
Lemma set_cfg_ok {A} (parse : text -> option A) put v st st' :
  (forall x c, parse v = Some x -> config_ok c -> config_ok (put x c)) ->
  set_cfg parse put v st = Some st' -> state_ok st -> state_ok st'.
Proof.
  intros Hput. unfold set_cfg. destruct (parse v) as [x|]; [|done]. intros [= <-] [Hc Hp Hcu Hr Hs].
  split; try done. by apply Hput.
Qed.

Create HintDb config.
#[local] Hint Resolve ranged_ok parse_fan_target_ok parse_bind_address_ok parse_default_mode_ok parse_backend_ok
  parse_language_ok normalize_absolute_path_ok normalize_http_url_ok parse_sector_size_ok : config.

(** A row that sets one scalar field. *)
Ltac scalar_row :=
  intros k v st st'; apply set_cfg_ok; intros x c Hx []; split; simpl; eauto with config.

(** A row that sets a sector size. *)
Ltac sector_row :=
  intros k v st st'; apply set_cfg_ok; intros x c Hx%parse_sector_size_ok []; split; simpl; try done;
  repeat match goal with H : Forall _ (_ :: _) |- _ => apply Forall_cons_1 in H as [? H] end;
  by repeat apply Forall_cons_2.

Lemma image_mode_row st v b st' : set_image_mode_rule st v b = Some st' -> state_ok st -> state_ok st'.
Proof.
  unfold set_image_mode_rule. destruct (normalize_image_filename_value v) as [f|] eqn:Hf; [|done].
  intros Hp [Hc Hpa Hcu Hr Hs]. apply put_image_rule_ok in Hp as (rules & -> & Hok);
    [by split|done|by apply normalize_image_ok in Hf|]. intros r. split; [done|]. by intros [? ?].
Qed.

Lemma image_sector_row st v st' : set_image_sector_rule st v = Some st' -> state_ok st -> state_ok st'.
Proof.
  unfold set_image_sector_rule. destruct (parse_image_sector_rule_value v) as [[f n]|] eqn:Hf; [|done].
  unfold parse_image_sector_rule_value in Hf. destruct (_ <=? _)%nat; [done|].
  destruct (break_last _ v) as [[a b]|]; [|done].
  destruct (normalize_image_filename_value _) as [f'|] eqn:Hn; [|done].
  destruct (parse_sector_size _) as [n'|] eqn:Hsz; [|done]. injection Hf as <- <-.
  intros Hp [Hc Hpa Hcu Hr Hs]. apply put_image_rule_ok in Hp as (rules & -> & Hok);
    [by split|done|by apply normalize_image_ok in Hn|]. intros r. split; [done|]. intros [? _]. split; [done|].
  simpl. intros m [= <-]. by eapply parse_sector_size_ok.
Qed.

Lemma fakelib_row k v st st' :
  (do? (t, m) <- parse_title_fakelib_rule k v ;
   do? rules <- set_title_fakelib_rule (rc_fakelib_rules (rs_cfg st)) t m ;
   Some {| st with rs_cfg := {| (rs_cfg st) with rc_fakelib_rules := rules |} |}) = Some st' ->
  state_ok st -> state_ok st'.
Proof.
  destruct (parse_title_fakelib_rule k v) as [[t m]|] eqn:Hp; [|done]. apply parse_title_rule_ok in Hp.
  destruct (set_title_fakelib_rule _ t m) as [rules|] eqn:Hs; [|done]. intros [= <-] [Hc Hpa Hcu Hr Hsm].
  split; try done. simpl. destruct Hc. split; try done. by eapply set_title_fakelib_rule_ok.
Qed.

Lemma exclude_row v st st' :
  (do? ids <- add_global_fakelib_exclude_rule (rc_global_fakelib_exclude_title_ids (rs_cfg st)) v ;
   Some {| st with rs_cfg := {| (rs_cfg st) with rc_global_fakelib_exclude_title_ids := ids |} |}) = Some st' ->
  state_ok st -> state_ok st'.
Proof.
  destruct (add_global_fakelib_exclude_rule _ v) as [ids|] eqn:Hs; [|done]. intros [= <-] [Hc Hpa Hcu Hr Hsm].
  split; try done. simpl. destruct Hc. split; try done. by eapply add_exclude_ok.
Qed.

Lemma runtime_keys_ok inet :
  Forall (fun row => forall k v st st', row.2 k v st = Some st' -> state_ok st -> state_ok st') (runtime_keys inet).
Proof.
  unfold runtime_keys. repeat (apply Forall_cons_2; cbn [snd]); try apply Forall_nil_2.
  all: try (scalar_row; fail).
  all: try (sector_row; fail).
  - intros k v st st'. apply image_mode_row.
  - intros k v st st'. apply image_sector_row.
  - intros k v st st'. apply fakelib_row.
  - intros k v st st'. apply exclude_row.
  - intros k v st st'. apply set_cfg_ok. intros x c Hx%ranged_ok []. split; simpl; try done.
    unfold u32. rewrite wrap_small; lia.
Qed.

Lemma apply_entry_ok inet k v st custom st' custom' :
  apply_entry inet k v (st, custom) = Some (st', custom') -> state_ok st -> state_ok st'.
Proof.
  unfold apply_entry. destruct (strcasecmp_eq k _).
  - destruct (add_runtime_scan_path _ v) as [s|] eqn:Ha; [|done]. intros [= <- _] Hs. eapply add_scan_path_ok; [|done].
    destruct custom; [done|by apply clear_ok].
  - destruct (list_find _ _) as [[i [names put]]|] eqn:Hf; [|by intros [= <- _]].
    apply list_find_Some in Hf as (Hi & _ & _). pose proof (runtime_keys_ok inet) as Hall.
    rewrite Forall_lookup in Hall. specialize (Hall i _ Hi k v st).
    destruct (put k v st) as [s|] eqn:Hp; [|done]. intros [= <- _]. by apply Hall.
Qed.

Lemma apply_flat_ok inet flat s s' : apply_flat inet flat s = Some s' -> state_ok s.1 -> state_ok s'.1.
Proof.
  revert s. induction flat as [|l flat IH]; intros s; simpl; [by intros [= <-]|].
  destruct (key l) as [k|]; [|by apply IH]. destruct (value l) as [v|]; [|by apply IH].
  destruct s as [st custom]. destruct (apply_entry inet k v (st, custom)) as [[st1 c1]|] eqn:He; [|done].
  intros Ha Hs. apply (IH _ Ha). by eapply apply_entry_ok.
Qed.

Lemma smb_connection_valid doc sec c : smb_connection_of doc sec = Some c ->
  sm_smb_validate c = None /\ c_name c = drop 4 sec.
Proof.
  unfold smb_connection_of. destruct (_ <=? _)%nat; [done|]. destruct (sm_ini_get doc sec (lit "path")); [|done].
  destruct (_ || _); [done|]. destruct (bool_setting _ true); [|done]. destruct (bool_setting _ false); [|done].
  cbv zeta. set (c0 := SmbConnection _ _ _ _ _ _). destruct (sm_smb_validate c0) eqn:Hv; [done|]. by intros [= <-].
Qed.

Lemma smb_seen_true items sec : smb_seen items sec = true <->
  exists c, c ∈ items /\ same_text (c_name c) (drop 4 sec).
Proof.
  unfold smb_seen. rewrite existsb_exists.
  split; intros (c & Hc & Hs); exists c; [apply list_elem_of_In in Hc|apply list_elem_of_In in Hc];
    by rewrite strcasecmp_eq_true in *.
Qed.

Lemma read_smb_lines_ok doc lines items items' : smb_ok items -> read_smb_lines doc lines items = Some items' -> smb_ok items'.
Proof.
  revert items. induction lines as [|l lines IH]; intros items Hok; simpl; [by intros [= <-]|].
  destruct (negb (header l) || _ || smb_seen items (section l)) eqn:Hskip; [by apply IH|]. bool_hyps.
  case_bool_decide as Hlen; [done|]. destruct (smb_connection_of doc (section l)) as [c|] eqn:Hc; [|done].
  apply smb_connection_valid in Hc as [Hv Hn]. apply IH. destruct Hok as (Hl & Hall & Hnd). split_and!.
  - rewrite length_app. simpl. lia.
  - apply Forall_app_2; [done|]. by apply Forall_singleton.
  - rewrite fmap_app. apply NoDup_app. split_and!; [done| |apply NoDup_singleton].
    intros x (c' & -> & Hin)%list_elem_of_fmap. simpl. rewrite list_elem_of_singleton. intros Heq.
    assert (Hseen : smb_seen items (section l) = true); [|congruence]. apply smb_seen_true. exists c'. by rewrite <-Hn.
Qed.

Lemma read_smb_ok doc smb : read_smb_connections doc = Some smb -> smb_ok smb.
Proof.
  apply read_smb_lines_ok. split_and!; [simpl; unfold SM_SMB_CONNECTIONS_MAX; lia|constructor|constructor].
Qed.

Lemma defaults_ok smb : smb_ok smb -> state_ok {| init_runtime_config_defaults with rs_smb := smb |}.
Proof.
  intros Hs.
  assert (Hd : state_ok init_runtime_config_defaults).
  { apply default_paths_ok. split; cbn [rs_cfg rs_scan_paths rs_custom_scan_path_count rs_image_mode_rules rs_smb].
    - split; simpl; unfold MAX_API_BIND_ADDRESS, FAN_TARGET_TEMPERATURE_SYSTEM, MAX_FAKELIB_EXCLUDE_RULES;
        try done; try lia; try (by split_and!; [constructor|simpl; lia|constructor]).
      all: try (split; [apply Nat.ltb_lt; reflexivity|by eexists]); try (apply Nat.ltb_lt; reflexivity).
      all: try (by left). repeat apply Forall_cons_2; try apply Forall_nil_2; by apply valid_sector_size.
    - split_and!; [constructor|unfold MAX_SCAN_PATHS; simpl; lia|constructor].
    - simpl. lia.
    - split_and!; [by rewrite length_replicate| |].
      + intros i j r r' Hi. by apply lookup_replicate in Hi as [? _].
      + intros i r Hi. by apply lookup_replicate in Hi as [? _].
    - split_and!; [simpl; unfold SM_SMB_CONNECTIONS_MAX; lia|constructor|constructor]. }
  by destruct Hd.
Qed.

Lemma finish_ok st custom : state_ok st -> state_ok (finish_scan_paths st custom).
Proof.
  intros Hs. apply managed_ok. destruct custom; [|done]. destruct (rs_scan_paths st) as [|p l] eqn:Hp; [by apply default_paths_ok|].
  destruct Hs. split; try done. cbn [rs_scan_paths rs_custom_scan_path_count]. by rewrite <-Hp.
Qed.

Lemma parse_state_ok inet main profiles st : parse_runtime_config_state inet main profiles = Some st -> state_ok st.
Proof.
  unfold parse_runtime_config_state. destruct (flatten_documents main profiles) as [flat|]; [|done].
  destruct (read_smb_connections main) as [smb|] eqn:Hsmb; [|done].
  destruct (apply_flat inet flat _) as [[s custom]|] eqn:Ha; [|done]. intros [= <-].
  apply finish_ok. eapply (apply_flat_ok inet flat _ (s, custom) Ha). by apply defaults_ok, (read_smb_ok main).
Qed.
