(* ===== verification/ConfigStore.v ===== *)
(** * The configuration in use (src/sm_config_mount.c)

    The global configuration, loading and reloading it from the two files, and
    the operations that edit a file and publish the part of the configuration
    that changed.  Every operation runs under the file mutex, so it is one step.

    How the system answers is the argument [config_io]: whether the two reads
    succeed, how far the write gets and what [stat] says.  [ensure_runtime_config_ready]
    has run.  When a file operation fails, the error code it leaves is [EIO]. *)
From S2P Require Import Prelude CString IniFile ImageCache GameInfo SmbAddress ConfigState.
From stdpp Require Import list pretty.
Open Scope Z_scope.
Open Scope c_scope.

Record config_file_stamp_t := ConfigStamp {
  st_present : bool; st_inode : Z; st_size : Z; st_mtime_sec : Z; st_mtime_nsec : Z; st_ctime_sec : Z; st_ctime_nsec : Z;
}.

Record config_io := ConfigIo {
  io_read_main : bool; io_read_profiles : bool; io_write : write_io;
  io_main_stamp : config_file_stamp_t; io_profiles_stamp : config_file_stamp_t;
}.

Record config_store := ConfigStore {
  cs_config : ini_file; cs_profiles : ini_file; cs_state : runtime_config_state_t;
  cs_main_stamp : config_file_stamp_t; cs_profiles_stamp : config_file_stamp_t;
}.

Definition CONFIG_FILE : string := "/data/shadowmount/config.ini".
Definition PROFILES_FILE : string := "/data/shadowmount/profiles.ini".

Definition config_file_stamp_equals (a b : config_file_stamp_t) : bool :=
  Bool.eqb (st_present a) (st_present b) && (st_inode a =? st_inode b) && (st_size a =? st_size b) &&
  (st_mtime_sec a =? st_mtime_sec b) && (st_mtime_nsec a =? st_mtime_nsec b) &&
  (st_ctime_sec a =? st_ctime_sec b) && (st_ctime_nsec a =? st_ctime_nsec b).

Definition runtime_config_states_equal (a b : runtime_config_state_t) : bool := bool_decide (a = b).

Definition init_runtime_config (io : config_io) (config profiles : ini_file) : config_store :=
  ConfigStore config profiles init_runtime_config_defaults (io_main_stamp io) (io_profiles_stamp io).

(** ** Reading *)
Definition get_scan_path (st : runtime_config_state_t) (i : Z) : option text :=
  if (0 <=? i) && (i <? Z.of_nat (length (rs_scan_paths st))) then rs_scan_paths st !! Z.to_nat i else None.

Definition get_backport_scan_path (st : runtime_config_state_t) (i : Z) : option text :=
  let count := Z.of_nat (length (rs_scan_paths st)) in
  if (0 <=? i) && (i <=? count) then
    (if i =? count then Some (lit "/data/homebrew") else rs_scan_paths st !! Z.to_nat i)
  else None.

Definition get_custom_scan_path (st : runtime_config_state_t) (i : Z) : option text :=
  if (0 <=? i) && (i <? Z.of_nat (rs_custom_scan_path_count st)) then rs_scan_paths st !! Z.to_nat i else None.

Definition MIN_SCAN_DEPTH : Z := 1.

Definition get_scan_depth_for_root (st : runtime_config_state_t) (scan_path : text) : Z :=
  let depth := rc_scan_depth (rs_cfg st) in
  let depth' := if depth <? MIN_SCAN_DEPTH then MIN_SCAN_DEPTH else depth in
  if is_pfsc_image_mount_base_or_child (of_text scan_path) then u32 (depth' + 1) else depth'.

(** The loops over the rules: the first rule with the field for the file. *)
Definition image_rule_field {A} (field : image_mode_rule_t -> option A) (filename : text)
    (rules : list (option image_mode_rule_t)) : option A :=
  match list_find (fun r => is_rule_of filename r /\ is_Some (r ≫= field)) rules with
  | Some (_, r) => r ≫= field
  | None => None
  end.

Definition get_image_mode_override (st : runtime_config_state_t) (filename : text) : option bool :=
  do? n <- normalize_image_filename_value filename ; image_rule_field im_mount_read_only n (rs_image_mode_rules st).

Definition get_image_sector_size_override (st : runtime_config_state_t) (filename : text) : option Z :=
  do? n <- normalize_image_filename_value filename ; image_rule_field im_sector_size n (rs_image_mode_rules st).

Definition sm_config_title_fakelib_override (c : runtime_config_t) (title : text) : sm_fakelib_mode_t :=
  match list_find (fun r => strcasecmp_eq r.1 title = true) (rc_fakelib_rules c) with
  | Some (_, r) => r.2
  | None => SM_FAKELIB_DEFAULT
  end.

Definition sm_config_title_fakelib_mode (c : runtime_config_t) (title : text) : sm_fakelib_mode_t :=
  let m := sm_config_title_fakelib_override c title in
  if decide (m = SM_FAKELIB_DEFAULT) then rc_fakelib_default_mode c else m.

Definition get_fakelib_mode_for_title (st : runtime_config_state_t) (title : text) : sm_fakelib_mode_t :=
  sm_config_title_fakelib_mode (rs_cfg st) title.

Definition is_fakelib_excluded_for_title (st : runtime_config_state_t) (title : text) : bool :=
  bool_decide (get_fakelib_mode_for_title st title = SM_FAKELIB_DISABLED).

Definition sm_config_title_global_fakelib_excluded (c : runtime_config_t) (title : text) : bool :=
  existsb (fun t => strcasecmp_eq t title) (rc_global_fakelib_exclude_title_ids c).

Definition is_global_fakelib_excluded_for_title (st : runtime_config_state_t) (title : text) : bool :=
  match normalize_title_id_value title with
  | Some n => sm_config_title_global_fakelib_excluded (rs_cfg st) n
  | None => false
  end.

Section store.
Context (inet_pton : text -> bool).

(** ** Loading *)
Definition read_documents (io : config_io) (s : config_store) : option (sm_ini_t * sm_ini_t) :=
  if negb (io_read_main io) then None
  else
    do? main <- sm_ini_read (cs_config s) false ;
    if negb (sm_ini_version main) || negb (io_read_profiles io) then None
    else
      do? profiles <- sm_ini_read (cs_profiles s) false ;
      if bool_decide (profiles = []) || sm_ini_version profiles then Some (main, profiles) else None.

Definition load_runtime_config_state (io : config_io) (s : config_store) : option runtime_config_state_t :=
  do? (main, profiles) <- read_documents io s ; parse_runtime_config_state inet_pton main profiles.

Definition load_runtime_config (io : config_io) (s : config_store) : bool * config_store :=
  match load_runtime_config_state io s with
  | None => (false, s)
  | Some st => (true, ConfigStore (cs_config s) (cs_profiles s) st (io_main_stamp io) (io_profiles_stamp io))
  end.

(** The results are the return value and [*reloaded_out]. *)
Definition reload_runtime_config_if_changed (io : config_io) (s : config_store) : bool * bool * config_store :=
  if config_file_stamp_equals (io_main_stamp io) (cs_main_stamp s) &&
     config_file_stamp_equals (io_profiles_stamp io) (cs_profiles_stamp s)
  then (true, false, s)
  else
    match load_runtime_config_state io s with
    | None => (false, false, s)
    | Some st =>
        let changed := negb (runtime_config_states_equal (cs_state s) st) in
        (true, changed,
         ConfigStore (cs_config s) (cs_profiles s) (if changed then st else cs_state s)
           (io_main_stamp io) (io_profiles_stamp io))
    end.

(** ** Saving *)
Definition publish_individual (old parsed : runtime_config_state_t) : runtime_config_state_t :=
  {| old with
     rs_cfg := {| (rs_cfg old) with
                  rc_fakelib_rules := rc_fakelib_rules (rs_cfg parsed);
                  rc_global_fakelib_exclude_title_ids := rc_global_fakelib_exclude_title_ids (rs_cfg parsed) |};
     rs_image_mode_rules := rs_image_mode_rules parsed |}.

Definition save_document (io : config_io) (s : config_store) (main profiles : sm_ini_t) (individual smb : bool) :
    bool * config_store :=
  match sm_ini_set (if individual then profiles else main) (lit "config") (lit "version") (Some (lit "2")) with
  | None => (false, s)
  | Some doc =>
      match parse_runtime_config_state inet_pton (if individual then main else doc) (if individual then doc else profiles) with
      | None => (false, s)
      | Some parsed =>
          if individual then
            let '(ok, f) := sm_ini_write (io_write io) PROFILES_FILE (cs_profiles s) doc in
            (ok, {| s with cs_profiles := f;
                    cs_state := if ok then publish_individual (cs_state s) parsed else cs_state s |})
          else
            let '(ok, f) := sm_ini_write (io_write io) CONFIG_FILE (cs_config s) doc in
            (ok, {| s with cs_config := f;
                    cs_state := if ok && smb then {| (cs_state s) with rs_smb := rs_smb parsed |} else cs_state s |})
      end
  end.

Definition write_title_fakelib_policy (io : config_io) (s : config_store) (title_id : text) (mode : sm_fakelib_mode_t)
    (global_only : bool) : bool * config_store :=
  match normalize_title_id_value title_id with
  | None => (false, s)
  | Some title =>
      if negb (supported_title title) then (false, s)
      else
        let value :=
          if global_only then (if decide (mode = SM_FAKELIB_DISABLED) then Some (lit "on") else None)
          else if decide (mode = SM_FAKELIB_DEFAULT) then None else Some (sm_config_fakelib_mode_name mode) in
        match read_documents io s with
        | None => (false, s)
        | Some (main, profiles) =>
            match sm_ini_set profiles (lit "game:" ++ title)
                    (lit (if global_only then "ignore_global_fakelib" else "fakelib")) value with
            | None => (false, s)
            | Some profiles' => save_document io s main profiles' true false
            end
        end
  end.

Definition sm_config_set_title_fakelib_mode io s title_id mode := write_title_fakelib_policy io s title_id mode false.

Definition sm_config_set_title_global_fakelib_excluded io s title_id (excluded : bool) :=
  write_title_fakelib_policy io s title_id (if excluded then SM_FAKELIB_DISABLED else SM_FAKELIB_DEFAULT) true.

Definition sm_config_set_title_fakelib_enabled io s title_id (enabled : bool) :=
  sm_config_set_title_fakelib_mode io s title_id (if enabled then SM_FAKELIB_FULL else SM_FAKELIB_DISABLED).

(** [snprintf("%u")]. *)
Definition u32_text (n : Z) : text := lit (pretty n).

Definition upsert_image_sector_size_autotune (io : config_io) (s : config_store) (filename : text) (sector_size : Z) :
    bool * config_store :=
  match normalize_image_filename_value filename with
  | None => (false, s)
  | Some name =>
      if negb (is_valid_sector_size sector_size) then (false, s)
      else
        match read_documents io s with
        | None => (false, s)
        | Some (main, profiles) =>
            match sm_ini_set profiles (lit "image:" ++ name) (lit "sector_size") (Some (u32_text sector_size)) with
            | None => (false, s)
            | Some profiles' => save_document io s main profiles' true false
            end
        end
  end.

Definition on_off (b : bool) : text := lit (if b then "on" else "off").

(** The edits of [sm_config_smb_update]. *)
Definition smb_edits (previous : text) (connection : option sm_smb_connection_t) : list ini_edit :=
  let old := lit "smb:" ++ previous in
  match connection with
  | None => [ERemove old]
  | Some c =>
      let sec := lit "smb:" ++ c_name c in
      (if bool_decide (previous = []) || bool_decide (previous = c_name c) then [] else [ERename old sec]) ++
      [ESet sec (lit "path") (Some (c_path c)); ESet sec (lit "username") (Some (c_username c));
       ESet sec (lit "password") (Some (c_password c)); ESet sec (lit "active") (Some (on_off (c_active c)));
       ESet sec (lit "read_only") (Some (on_off (c_read_only c)))]
  end.

(** [previous] is empty when it is NULL or empty; [None] is the status 0. *)
Definition sm_config_smb_update (io : config_io) (s : config_store) (previous : text)
    (connection : option sm_smb_connection_t) : option errno * config_store :=
  match (match connection with
         | Some c => sm_smb_validate c
         | None => if bool_decide (previous = []) then Some EINVAL else None
         end) with
  | Some e => (Some e, s)
  | None =>
      if (SMB_NAME_SIZE <=? length previous)%nat then (Some EINVAL, s)
      else
        match read_documents io s with
        | None => (Some EIO, s)
        | Some (main, profiles) =>
            let path_of name := sm_ini_get main (lit "smb:" ++ name) (lit "path") in
            if negb (bool_decide (previous = [])) && bool_decide (path_of previous = None) then (Some ENOENT, s)
            else if match connection with
                    | Some c => negb (strcasecmp_eq previous (c_name c)) && bool_decide (is_Some (path_of (c_name c)))
                    | None => false
                    end
            then (Some EEXIST, s)
            else
              match run_edits main (smb_edits previous connection) with
              | None => (Some EIO, s)
              | Some main' =>
                  let '(ok, s') := save_document io s main' profiles false true in
                  (if ok : bool then None else Some EIO, s')
              end
        end
  end.

(** ** Settings from the web page *)
Record web_settings := WebSettings {
  ws_debug_enabled : bool; ws_quiet_mode : bool; ws_update_emulators : bool; ws_auto_update_ampr : bool;
  ws_auto_remove_missing : bool; ws_remove_delay : Z; ws_allow_lan : bool; ws_fan_target : Z;
  ws_scan_paths : list text; ws_default_mode : sm_fakelib_mode_t;
}.

Definition web_settings_valid (w : web_settings) : bool :=
  negb ((ws_remove_delay w <? 1) || (86400 <? ws_remove_delay w) ||
        (negb (ws_fan_target w =? FAN_TARGET_TEMPERATURE_SYSTEM) &&
         ((ws_fan_target w <? 50) || (91 <? ws_fan_target w))) ||
        (MAX_SCAN_PATHS <? length (ws_scan_paths w))%nat ||
        bool_decide (ws_default_mode w = SM_FAKELIB_DEFAULT)).

(** The loop that normalizes the scan paths and drops duplicates. *)
Fixpoint normalize_scan_paths (paths normalized : list text) : option (list text) :=
  match paths with
  | [] => Some normalized
  | p :: paths' =>
      do? path <- normalize_absolute_path_value p ;
      if bool_decide (path = lit "/") || is_under_image_mount_base (of_text path) then None
      else normalize_scan_paths paths' (if bool_decide (path ∈ normalized) then normalized else normalized ++ [path])
  end.

Definition fan_text (n : Z) : text := if n =? FAN_TARGET_TEMPERATURE_SYSTEM then lit "system" else u32_text n.

Definition web_edits (w : web_settings) (paths : list text) : list ini_edit :=
  [ESet (lit "general") (lit "debug") (Some (on_off (ws_debug_enabled w)));
   ESet (lit "general") (lit "quiet_mode") (Some (on_off (ws_quiet_mode w)));
   ESet (lit "emulators") (lit "update_enabled") (Some (on_off (ws_update_emulators w)));
   ESet (lit "emulators") (lit "auto_update_ampr") (Some (on_off (ws_auto_update_ampr w)));
   ESet (lit "fakelib") (lit "default_mode") (Some (sm_config_fakelib_mode_name (ws_default_mode w)));
   ESet (lit "library") (lit "remove_missing") (Some (on_off (ws_auto_remove_missing w)));
   ESet (lit "library") (lit "remove_delay_seconds") (Some (u32_text (ws_remove_delay w)));
   ESet (lit "api") (lit "bind_address") (Some (lit (if ws_allow_lan w then "0.0.0.0" else "127.0.0.1")));
   ESet (lit "fan") (lit "target_temperature") (Some (fan_text (ws_fan_target w)));
   ESet (lit "scan") (lit "path") None] ++
  ((fun p => EAppend (lit "scan") (lit "path") p) <$> paths).

Definition sm_config_write_web_settings (io : config_io) (s : config_store) (w : web_settings) : bool * config_store :=
  if negb (web_settings_valid w) then (false, s)
  else
    match normalize_scan_paths (ws_scan_paths w) [] with
    | None => (false, s)
    | Some paths =>
        match read_documents io s with
        | None => (false, s)
        | Some (main, profiles) =>
            match run_edits main (web_edits w paths) with
            | None => (false, s)
            | Some main' => save_document io s main' profiles false false
            end
        end
    end.

(** ** Histories *)
Inductive config_op :=
  | OpLoad | OpReload
  | OpTitleMode (title : text) (mode : sm_fakelib_mode_t)
  | OpTitleExcluded (title : text) (excluded : bool)
  | OpTitleEnabled (title : text) (enabled : bool)
  | OpSectorSize (filename : text) (n : Z)
  | OpSmb (previous : text) (connection : option sm_smb_connection_t)
  | OpWeb (w : web_settings)
  | OpFiles (config profiles : ini_file).

(** The last operation is the user replacing the files. *)
Definition run_op (io : config_io) (op : config_op) (s : config_store) : config_store :=
  match op with
  | OpLoad => (load_runtime_config io s).2
  | OpReload => (reload_runtime_config_if_changed io s).2
  | OpTitleMode title mode => (sm_config_set_title_fakelib_mode io s title mode).2
  | OpTitleExcluded title b => (sm_config_set_title_global_fakelib_excluded io s title b).2
  | OpTitleEnabled title b => (sm_config_set_title_fakelib_enabled io s title b).2
  | OpSectorSize filename n => (upsert_image_sector_size_autotune io s filename n).2
  | OpSmb previous connection => (sm_config_smb_update io s previous connection).2
  | OpWeb w => (sm_config_write_web_settings io s w).2
  | OpFiles config profiles => {| s with cs_config := config; cs_profiles := profiles |}
  end.

Definition run_ops (ops : list (config_io * config_op)) (s : config_store) : config_store :=
  foldl (fun s '(io, op) => run_op io op s) s ops.

(** ** Good states *)
Lemma save_document_ok io s main profiles individual smb :
  state_ok (cs_state s) -> state_ok (cs_state (save_document io s main profiles individual smb).2).
Proof.
  intros Hs. unfold save_document. destruct (sm_ini_set _ _ _ _) as [doc|]; [|done].
  destruct (parse_runtime_config_state inet_pton _ _) as [parsed|] eqn:Hp; [|done]. apply parse_state_ok in Hp.
  destruct individual.
  - destruct (sm_ini_write _ _ _ _) as [[] f]; [|done]. simpl. destruct Hp, Hs. split; try done. simpl.
    destruct so_cfg, so_cfg0. by split.
  - destruct (sm_ini_write _ _ _ _) as [[] f]; [|done]. simpl. destruct smb; [|done]. destruct Hp, Hs. by split.
Qed.

Lemma write_title_ok io s t m g : state_ok (cs_state s) -> state_ok (cs_state (write_title_fakelib_policy io s t m g).2).
Proof.
  intros Hs. unfold write_title_fakelib_policy. destruct (normalize_title_id_value t) as [title|]; [|done].
  destruct (negb _); [done|]. destruct (read_documents io s) as [[main profiles]|]; [|done].
  destruct (sm_ini_set _ _ _ _); [|done]. by apply save_document_ok.
Qed.

Lemma load_state_ok io s st : load_runtime_config_state io s = Some st -> state_ok st.
Proof.
  unfold load_runtime_config_state. destruct (read_documents io s) as [[main profiles]|]; [|done]. apply parse_state_ok.
Qed.

Lemma run_op_ok io op s : state_ok (cs_state s) -> state_ok (cs_state (run_op io op s)).
Proof.
  intros Hs. destruct op; simpl; try done; try (by apply write_title_ok).
  - unfold load_runtime_config. destruct (load_runtime_config_state io s) eqn:Hl; [by eapply load_state_ok|done].
  - unfold reload_runtime_config_if_changed. destruct (_ && _); [done|].
    destruct (load_runtime_config_state io s) eqn:Hl; [|done]. simpl. destruct (negb _); [by eapply load_state_ok|done].
  - unfold upsert_image_sector_size_autotune. destruct (normalize_image_filename_value _); [|done]. destruct (negb _); [done|].
    destruct (read_documents io s) as [[main profiles]|]; [|done]. destruct (sm_ini_set _ _ _ _); [|done].
    by apply save_document_ok.
  - unfold sm_config_smb_update.
    destruct connection as [c|]; [destruct (sm_smb_validate c); [done|]|destruct (bool_decide (previous = [])); [done|]];
      (destruct (_ <=? _)%nat; [done|]); (destruct (read_documents io s) as [[main profiles]|]; [|done]); cbv zeta;
      (destruct (_ && bool_decide (_ = None)); [done|]);
      (destruct (run_edits _ _) as [main'|];
         [pose proof (save_document_ok io s main' profiles false true Hs); destruct (save_document _ _ _ _ _ _)|]);
      by repeat case_match.
  - unfold sm_config_write_web_settings. destruct (negb _); [done|]. destruct (normalize_scan_paths _ _); [|done].
    destruct (read_documents io s) as [[main profiles]|]; [|done]. destruct (run_edits _ _); [|done].
    by apply save_document_ok.
Qed.
End store.

(** * Theorems *)

(** Claim C28: the configuration in use is always well typed: from the compiled-in
    defaults, after any history of loads, reloads, title, sector, SMB and web
    updates, with any files on disk and any input/output failures, every number
    is in its range (ports, depths, intervals without overflow, sector sizes powers
    of two, temperatures, language indices), every string fits its array, the
    tables respect their capacities and hold no duplicates, and every SMB
    connection is valid. *)
Theorem config_always_typed inet_pton io config profiles ops :
  state_ok (cs_state (run_ops inet_pton ops (init_runtime_config io config profiles))).
Proof.
  assert (H0 : state_ok (cs_state (init_runtime_config io config profiles))).
  { apply (defaults_ok []). split_and!; [simpl; unfold SM_SMB_CONNECTIONS_MAX; lia|constructor|constructor]. }
  revert H0. generalize (init_runtime_config io config profiles) as s. unfold run_ops.
  induction ops as [|[io' op] ops IH]; intros s Hs; [done|]. simpl. by apply IH, run_op_ok.
Qed.
