(* ===== verification/ConfigEffect.v ===== *)
(** * What saved settings do (src/sm_config_mount.c, src/sm_config_file.c)

    Theorems that span the INI documents, the parser of the configuration and the
    operations on the files: the configuration only depends on the meaning of
    config.ini, so a saved document loads as the configuration it was checked as;
    and the settings an operation writes are the ones in effect afterwards. *)
From S2P Require Import Prelude CString IniFile ImageCache GameInfo SmbAddress ConfigState ConfigStore.
From stdpp Require Import list pretty.
Open Scope Z_scope.
Open Scope c_scope.

(** ** The flat list *)
Fixpoint main_entries (doc : sm_ini_t) : list (text * text) :=
  match doc with [] => [] | l :: later => option_list (main_entry l later) ++ main_entries later end.

Fixpoint append_all (flat : sm_ini_t) (es : list (text * text)) : option sm_ini_t :=
  match es with [] => Some flat | e :: es' => do? flat' <- append_flat flat (Some e) ; append_all flat' es' end.

Lemma flatten_main_entries doc flat : flatten_main doc flat = append_all flat (main_entries doc).
Proof.
  revert flat. induction doc as [|l doc IH]; intros flat; [done|]. cbn [flatten_main main_entries].
  destruct (main_entry l doc) as [e|]; simpl; [|apply IH]. destruct e as [k v]. destruct (sm_ini_append _ _ _ _); [apply IH|done].
Qed.

(** ** Only the meaning matters *)
Fixpoint m_entries (ctx : text) (ms : list meaning) : list (text * text) :=
  match ms with
  | [] => []
  | m :: ms' =>
      match m with
      | MSetting k v => option_list (setting_entry ctx k v (bool_decide (is_Some (meaning_get ctx ms' ctx k))))
      | _ => []
      end ++ m_entries (after_meaning ctx m) ms'
  end.

#[local] Instance strncasecmp_proper : Proper (same_text ==> eq ==> eq) strncasecmp_eq.
Proof.
  intros a b Hab c _ <-. unfold strncasecmp_eq, strcasecmp_eq. apply bool_decide_ext. unfold same_text in Hab.
  by rewrite !fmap_take, Hab.
Qed.

Lemma list_find_ext' {A} (P Q : A -> Prop) `{forall x, Decision (P x)} `{forall x, Decision (Q x)} l :
  (forall x, P x <-> Q x) -> list_find P l = list_find Q l.
Proof. intros. by apply list_find_ext. Qed.

Lemma setting_entry_same sec sec' k v b : same_text sec sec' -> setting_entry sec k v b = setting_entry sec' k v b.
Proof.
  intros Hs. unfold setting_entry, in_section. rewrite (strncasecmp_proper sec sec' Hs _ _ eq_refl).
  rewrite (strcasecmp_eq_proper sec sec' Hs _ _ (reflexivity _)).
  assert (Hf : find_config_key sec k = find_config_key sec' k); [|by rewrite Hf]. unfold find_config_key. f_equal.
  apply list_find_ext'. intros m. by rewrite (strcasecmp_eq_proper sec sec' Hs _ _ (reflexivity _)).
Qed.

Lemma meaning_get_same ctx ms sec sec' k k' : same_text sec sec' -> same_text k k' ->
  meaning_get ctx ms sec k = meaning_get ctx ms sec' k'.
Proof.
  intros Hs Hk. revert ctx. induction ms as [|m ms IH]; intros ctx; simpl; [done|]. rewrite IH.
  destruct m as [|k2 v|]; try done.
  by rewrite (strcasecmp_eq_proper sec sec' Hs ctx ctx (reflexivity _)), (strcasecmp_eq_proper k k' Hk k2 k2 (reflexivity _)).
Qed.

Lemma main_entries_meaning ctx doc : Forall line_ok doc -> consistent ctx doc ->
  main_entries doc = m_entries ctx (line_meaning <$> doc).
Proof.
  intros Hok. revert ctx. induction Hok as [|l doc Hl Hok IH]; intros ctx; [done|]. cbn [consistent main_entries].
  rewrite fmap_cons. cbn [m_entries]. intros [Hsec Hd]. rewrite (IH _ Hd). f_equal. unfold main_entry, superseded.
  unfold line_meaning in Hsec, Hd |- *. destruct (key l) as [k|] eqn:Hk; [|by destruct (header l)].
  destruct (lo_key l Hl k Hk) as (_ & [v Hv] & Hh). rewrite Hh, Hv in *. simpl in Hsec, Hd. f_equal.
  rewrite (consistent_get ctx doc) by done. rewrite (setting_entry_same _ _ _ _ _ Hsec). f_equal.
  by rewrite (meaning_get_same ctx _ (section l) ctx k k Hsec (reflexivity _)).
Qed.

Lemma m_entries_meaningful ctx ms : m_entries ctx (meaningful ms) = m_entries ctx ms.
Proof.
  unfold meaningful. revert ctx. induction ms as [|m ms IH]; intros ctx; [done|].
  destruct (decide (m = MNone)) as [->|Hm].
  - rewrite filter_cons_False by tauto. rewrite IH. done.
  - rewrite filter_cons_True by done. cbn [m_entries]. rewrite IH. destruct m as [s|k v|]; try done.
    by rewrite <-(meaning_get_meaningful ctx ms).
Qed.

Definition headers (doc : sm_ini_t) : list text := section <$> filter (fun l => header l = true) doc.

Definition meaning_header (m : meaning) : option text := match m with MHeader s => Some s | _ => None end.

Lemma headers_meaning doc : headers doc = omap meaning_header (meaningful (line_meaning <$> doc)).
Proof.
  unfold headers, meaningful. induction doc as [|l doc IH]; [done|]. rewrite fmap_cons.
  unfold line_meaning at 1. destruct (header l) eqn:Hh.
  - rewrite (filter_cons_True (fun l => header l = true)) by done. rewrite fmap_cons, IH.
    by rewrite (filter_cons_True (fun m => m <> MNone)).
  - rewrite (filter_cons_False (fun l => header l = true)) by congruence. rewrite IH.
    destruct (key l) as [k|], (value l) as [v|];
      first [by rewrite (filter_cons_True (fun m => m <> MNone)) | by rewrite (filter_cons_False (fun m => m <> MNone)) by tauto].
Qed.

(** Reading the connections, by headers. *)
Fixpoint read_smb_headers (get : text -> option sm_smb_connection_t) (hs : list text) (items : list sm_smb_connection_t) :
    option (list sm_smb_connection_t) :=
  match hs with
  | [] => Some items
  | h :: hs' =>
      if negb (in_section "smb:" h) || smb_seen items h then read_smb_headers get hs' items
      else if bool_decide (length items = SM_SMB_CONNECTIONS_MAX) then None
      else do? c <- get h ; read_smb_headers get hs' (items ++ [c])
  end.

Lemma read_smb_lines_headers doc lines items :
  read_smb_lines doc lines items = read_smb_headers (smb_connection_of doc) (headers lines) items.
Proof.
  unfold headers. revert items. induction lines as [|l lines IH]; intros items; [done|]. cbn [read_smb_lines].
  destruct (header l) eqn:Hh.
  - rewrite filter_cons_True by done. rewrite fmap_cons. cbn [read_smb_headers negb orb]. rewrite IH.
    destruct (negb _ || _); [done|]. destruct (bool_decide _); [done|]. by destruct (smb_connection_of doc (section l)).
  - rewrite filter_cons_False by congruence. apply IH.
Qed.

Lemma smb_connection_ext doc doc' sec : (forall s k, sm_ini_get doc s k = sm_ini_get doc' s k) ->
  smb_connection_of doc sec = smb_connection_of doc' sec.
Proof. intros Hg. unfold smb_connection_of. by rewrite !Hg. Qed.

Lemma read_smb_headers_ext get get' hs items : (forall h, get h = get' h) ->
  read_smb_headers get hs items = read_smb_headers get' hs items.
Proof.
  intros Hg. revert items. induction hs as [|h hs IH]; intros items; [done|]. simpl. rewrite !IH, Hg.
  destruct (negb _ || _); [done|]. destruct (bool_decide _); [done|]. by destruct (get' h).
Qed.

(** Documents with the same meaning are the same configuration. *)
Lemma parse_meanings inet main main' profiles : doc_ok main -> doc_ok main' ->
  meaningful (line_meaning <$> main') = meaningful (line_meaning <$> main) ->
  parse_runtime_config_state inet main' profiles = parse_runtime_config_state inet main profiles.
Proof.
  intros Hok Hok' Hm. unfold parse_runtime_config_state, flatten_documents, read_smb_connections.
  assert (He : main_entries main' = main_entries main).
  { destruct Hok as [H1 H2], Hok' as [H3 H4]. rewrite !(main_entries_meaning []) by done.
    by rewrite <-(m_entries_meaningful [] (_ <$> main')), Hm, m_entries_meaningful. }
  rewrite !flatten_main_entries, He, !read_smb_lines_headers, !headers_meaning, Hm.
  rewrite (read_smb_headers_ext (smb_connection_of main') (smb_connection_of main)); [done|].
  intros h. apply smb_connection_ext. intros. by apply get_meanings.
Qed.

(** ** Saving config.ini and loading it *)

(** The limits of the reader, which the writer does not check. *)
Definition within_limits (f : ini_file) : Prop :=
  match f with
  | IniFile c =>
      Forall (fun l => Z.of_nat (length l) < INI_LINE_MAX) (split_lines c) /\
      Z.of_nat (length (split_lines c)) <= INI_MAX_LINES
  | _ => True
  end.

Definition reads_succeed (io : config_io) : Prop := io_read_main io = true /\ io_read_profiles io = true.

Definition plainb (s : text) : bool := forallb (fun a => negb (Ascii.eqb a newline) && negb (Ascii.eqb a nul)) s.

Lemma plainb_plain s : plainb s = true -> plain s.
Proof.
  intros Hs. apply Forall_forall. intros a Ha. unfold plainb in Hs. rewrite forallb_forall in Hs.
  specialize (Hs a ltac:(by apply list_elem_of_In)). split; intros ->; done.
Qed.

Definition edgesb (s : text) : bool :=
  match s with [] => true | a :: _ => negb (isspace a) end && match reverse s with [] => true | a :: _ => negb (isspace a) end.

(** Deciding that names are good. *)
Definition names_okb (sec k : text) : bool :=
  edgesb sec && plainb sec && negb (bool_decide (sec = [])) && (length sec <? SECTION_SIZE)%nat && brackets_ok sec &&
  edgesb k && plainb k && forallb (fun a => negb (Ascii.eqb "="%char a)) k &&
  match k with [] => false | a :: _ => negb (Ascii.eqb a "["%char) && negb (comment_char a) end.

Lemma edgesb_edges s : edgesb s = true -> edges s.
Proof.
  unfold edgesb, edges, head_nonspace. intros H. bool_hyps. split.
  - destruct s; [done|]. by bool_hyps.
  - destruct (reverse s); [done|]. by bool_hyps.
Qed.

Lemma names_okb_ok sec k : names_okb sec k = true -> edit_names_ok sec k.
Proof.
  unfold names_okb. intros H. bool_hyps. apply demo_names; try done; try (by apply edgesb_edges); try (by apply plainb_plain).
  - by apply Nat.ltb_lt.
  - apply Forall_forall. intros a Ha. match goal with H : forallb _ k = true |- _ => rewrite forallb_forall in H;
      specialize (H a ltac:(by apply list_elem_of_In)) end. by bool_hyps.
  - destruct k; [done|]. by bool_hyps.
Qed.

Lemma save_main_load inet io io' s main profiles smb s' :
  doc_ok main -> sm_ini_read (cs_profiles s) false = Some profiles -> profiles = [] \/ sm_ini_version profiles = true ->
  save_document inet io s main profiles false smb = (true, s') ->
  within_limits (cs_config s') -> reads_succeed io' ->
  exists doc st, sm_ini_set main (lit "config") (lit "version") (Some (lit "2")) = Some doc /\ doc_ok doc /\
    parse_runtime_config_state inet doc profiles = Some st /\ load_runtime_config_state inet io' s' = Some st /\
    (smb = true -> rs_smb (cs_state s') = rs_smb st).
Proof.
  intros Hok Hpr Hpv. unfold save_document.
  destruct (sm_ini_set main _ _ _) as [doc|] eqn:Hset; [|done].
  assert (Hdoc : doc_ok doc) by (eapply set_ok; [done| |done]; by apply names_okb_ok).
  destruct (parse_runtime_config_state inet doc profiles) as [st|] eqn:Hp; [|done].
  destruct (sm_ini_write _ _ _ doc) as [ok f] eqn:Hw. intros [= -> <-]. cbn [cs_config cs_state]. intros Hlim [Hr1 Hr2].
  exists doc, st. split_and!; try done; [|by intros ->]. unfold sm_ini_write in Hw.
  destruct (_ <=? _)%nat; [done|]. destruct (print_lines doc) as [c|] eqn:Hc; [|done].
  destruct (Z.ltb_spec INI_MAX_BYTES (Z.of_nat (length c))); [done|]. destruct (io_write io); [done|done|].
  injection Hw as <-. destruct Hlim as [Hl1 Hl2].
  destruct (print_read_meanings doc c) as (doc' & Hread & Hok' & Hm); [done|done|lia|done|done|].
  unfold load_runtime_config_state, read_documents. cbn [cs_config cs_profiles]. rewrite Hr1, Hr2, Hread, Hpr. cbn [negb].
  assert (Hv : sm_ini_version doc' = true).
  { unfold sm_ini_version. rewrite (get_meanings doc doc') by done. apply bool_decide_eq_true.
    by apply (set_get _ _ _ _ _ [] []) in Hset as [? _]. }
  rewrite Hv. cbn [negb orb].
  destruct (bool_decide (profiles = []) || sm_ini_version profiles) eqn:Hb.
  - rewrite <-Hp. by apply parse_meanings.
  - bool_hyps. destruct Hpv; congruence.
Qed.

(** ** The entries that are applied *)
Definition setting_of (l : sm_ini_line_t) : option (text * text) :=
  match key l, value l with Some k, Some v => Some (k, v) | _, _ => None end.

Definition settings (doc : sm_ini_t) : list (text * text) := omap setting_of doc.

Fixpoint apply_all (inet : text -> bool) (es : list (text * text)) (s : runtime_config_state_t * bool) :
    option (runtime_config_state_t * bool) :=
  match es with [] => Some s | (k, v) :: es' => do? s' <- apply_entry inet k v s ; apply_all inet es' s' end.

Lemma apply_flat_settings inet flat s : apply_flat inet flat s = apply_all inet (settings flat) s.
Proof.
  unfold settings. revert s. induction flat as [|l flat IH]; intros s; [done|]. simpl. unfold setting_of at 1.
  destruct (key l) as [k|]; [|apply IH]. destruct (value l) as [v|]; [|apply IH]. simpl.
  destruct (apply_entry inet k v s); [apply IH|done].
Qed.

Lemma apply_all_app inet es es' s : apply_all inet (es ++ es') s = do? s' <- apply_all inet es s ; apply_all inet es' s'.
Proof.
  revert s. induction es as [|[k v] es IH]; intros s; [done|]. simpl. destruct (apply_entry inet k v s); [apply IH|done].
Qed.

Definition in_runtime (flat : sm_ini_t) : Prop := Forall (fun l => section l = lit "runtime") flat.

Lemma section_end_all sec i doc found : Forall (fun l => section l = sec) doc -> doc <> [] ->
  section_end sec i doc found = Some (i + length doc)%nat.
Proof.
  intros Hall. revert i found. induction Hall as [|l doc Hl _ IH]; intros i found Hne; [done|]. cbn [section_end].
  assert (Hs : strcasecmp_eq (section l) sec = true) by (rewrite Hl; by apply strcasecmp_eq_true).
  rewrite Hs. destruct doc as [|l' doc]; [simpl; f_equal; lia|]. rewrite IH by done. f_equal. simpl. lia.
Qed.

Lemma append_runtime flat k v flat' : in_runtime flat -> sm_ini_append flat (lit "runtime") k v = Some flat' ->
  in_runtime flat' /\ settings flat' = settings flat ++ [(k, v)].
Proof.
  intros Hin [_ Happ]%sm_ini_append_spec. cbn zeta in Happ. destruct (decide (flat = [])) as [->|Hne].
  - destruct Happ as [(at_ & d1 & d2 & Hs & _)|[_ ->]]; [done|]. split; [by repeat constructor|done].
  - destruct Happ as [(at_ & d1 & d2 & Hs & -> & Hd & ->)|[Hs _]]; rewrite section_end_all in Hs by done; [|done].
    injection Hs as <-. rewrite take_ge in Hd |- * by (simpl; lia).
    assert (d2 = []) as -> by (rewrite <-(app_nil_r flat) in Hd at 1; by apply app_inv_head in Hd).
    split; [apply Forall_app_2; [done|]; by apply Forall_singleton|]. unfold settings. by rewrite omap_app.
Qed.

Lemma append_all_settings flat es flat' : in_runtime flat -> append_all flat es = Some flat' ->
  in_runtime flat' /\ settings flat' = settings flat ++ es.
Proof.
  revert flat. induction es as [|[k v] es IH]; intros flat Hin; cbn [append_all append_flat].
  - intros [= <-]. by rewrite app_nil_r.
  - destruct (sm_ini_append _ _ _ _) as [flat1|] eqn:Ha; [|done]. apply append_runtime in Ha as [Hin1 He]; [|done].
    intros Hall. destruct (IH flat1 Hin1 Hall) as [? ->]. split; [done|]. by rewrite He, <-app_assoc.
Qed.

Definition profile_keys : list string :=
  ["fakelib_mode"; "global_fakelib_exclude"; "image_ro"; "image_rw"; "image_sector"]%string.

Lemma profile_entry_key l later k v : profile_entry l later = Some (Some (k, v)) -> exists K, K ∈ profile_keys /\ k = lit K.
Proof.
  intros H. enough (Hin : k ∈ lit <$> profile_keys).
  { apply list_elem_of_fmap in Hin as (K & -> & HK). eauto. }
  unfold profile_entry in H. destruct (key l); [|done]. destruct (value l); [|done]. destruct (_ || _); [done|].
  destruct (in_section "game:" _).
  { destruct (normalize_title_id_value _); [|done]. destruct (negb _); [done|]. destruct (strcasecmp_eq _ _).
    { injection H as <- _. set_solver. }
    destruct (strcasecmp_eq _ _); [|done]. destruct (strcasecmp_eq _ _); [done|].
    destruct (parse_bool_ini _) as [[]|]; [|done|done]. injection H as <- _. set_solver. }
  destruct (in_section "image:" _); [|done]. destruct (existsb _ _); [done|].
  destruct (normalize_image_filename_value _); [|done]. destruct (strcasecmp_eq _ (lit "default")); [done|].
  destruct (strcasecmp_eq _ (lit "mount_mode")).
  { destruct (strcasecmp_eq _ (lit "ro")); [injection H as <- _; set_solver|].
    destruct (strcasecmp_eq _ (lit "rw")); [injection H as <- _; set_solver|done]. }
  destruct (strcasecmp_eq _ (lit "sector_size")); [|done]. injection H as <- _. set_solver.
Qed.

Definition has_key_of (keys : list string) (e : text * text) : Prop := exists K, K ∈ keys /\ e.1 = lit K.

Lemma flatten_profiles_entries doc flat flat' : flatten_profiles doc flat = Some flat' ->
  exists es, append_all flat es = Some flat' /\ Forall (has_key_of profile_keys) es.
Proof.
  revert flat. induction doc as [|l doc IH]; intros flat; cbn [flatten_profiles].
  - intros [= <-]. exists []. by split; [|constructor].
  - destruct (profile_entry l doc) as [[[k v]|]|] eqn:Hp; [| |done]; cbn [append_flat].
    + destruct (sm_ini_append _ _ _ _) as [flat1|] eqn:Ha; [|done]. intros (es & Hes & Hk)%IH.
      exists ((k, v) :: es). cbn [append_all append_flat]. rewrite Ha. split; [done|]. constructor; [|done].
      by apply profile_entry_key in Hp.
    + intros (es & Hes & Hk)%IH. eauto.
Qed.

(** No entry touches the connections. *)
Lemma runtime_keys_smb inet :
  Forall (fun row => forall k v st st', row.2 k v st = Some st' -> rs_smb st' = rs_smb st) (runtime_keys inet).
Proof.
  assert (Hcfg : forall A (parse : text -> option A) put v st st', set_cfg parse put v st = Some st' -> rs_smb st' = rs_smb st).
  { intros A parse put v st st'. unfold set_cfg. destruct (parse v); [|done]. by intros [= <-]. }
  assert (Hput : forall f ch st st', put_image_rule f ch st = Some st' -> rs_smb st' = rs_smb st).
  { intros f ch st st'. unfold put_image_rule. destruct (list_find (is_rule_of f) _) as [[k [r|]]|]; [by intros [= <-]| |];
      (destruct (list_find (fun r => r = None) _) as [[j x]|]; [by intros [= <-]|done]). }
  unfold runtime_keys. repeat (apply Forall_cons_2; cbn [snd]); try apply Forall_nil_2.
  all: try (intros k v st st'; apply Hcfg).
  - intros k v st st'. unfold set_image_mode_rule. destruct (normalize_image_filename_value v); [apply Hput|done].
  - intros k v st st'. unfold set_image_sector_rule. destruct (parse_image_sector_rule_value v) as [[f n]|]; [apply Hput|done].
  - intros k v st st'. destruct (parse_title_fakelib_rule k v) as [[t m]|]; [|done].
    destruct (set_title_fakelib_rule _ _ _); [|done]. by intros [= <-].
  - intros k v st st'. destruct (add_global_fakelib_exclude_rule _ _); [|done]. by intros [= <-].
Qed.

(** What does not depend on the scan paths is kept by their operations. *)
Definition scan_frame {A} (f : runtime_config_state_t -> A) : Prop :=
  forall st paths n, f {| st with rs_scan_paths := paths; rs_custom_scan_path_count := n |} = f st.

Lemma add_scan_path_frame {A} (f : _ -> A) st p st' : scan_frame f -> add_runtime_scan_path st p = Some st' -> f st' = f st.
Proof.
  intros Hf. unfold add_runtime_scan_path. destruct (bool_decide _ || _); [done|]. destruct (bool_decide _); [by intros [= <-]|].
  destruct (_ <=? _)%nat; [done|]. intros [= <-]. apply (Hf st _ (rs_custom_scan_path_count st)).
Qed.

Lemma try_add_frame {A} (f : _ -> A) st p : scan_frame f -> f (try_add_scan_path st p) = f st.
Proof.
  intros Hf. unfold try_add_scan_path. destruct (add_runtime_scan_path st p) as [s1|] eqn:Hadd; [|done].
  by apply (add_scan_path_frame f) in Hadd.
Qed.

Lemma finish_frame {A} (f : _ -> A) s custom : scan_frame f -> f (finish_scan_paths s custom) = f s.
Proof.
  intros Hf.
  assert (Hinit : forall s, f (init_runtime_scan_paths_defaults s) = f s).
  { intros s0. unfold init_runtime_scan_paths_defaults, add_runtime_managed_scan_paths. rewrite !try_add_frame by done.
    transitivity (f (clear_runtime_scan_paths s0)); [|apply Hf]. generalize (clear_runtime_scan_paths s0).
    induction k_default_scan_paths as [|p l IH]; intros r; [done|]. simpl. by rewrite IH, try_add_frame. }
  unfold finish_scan_paths, add_runtime_managed_scan_paths. rewrite !try_add_frame by done. destruct custom; [|done].
  destruct (rs_scan_paths s) eqn:Hp; [by rewrite Hinit|]. etransitivity; [|apply (Hf s (rs_scan_paths s) (length (rs_scan_paths s)))].
  by rewrite Hp.
Qed.

Lemma apply_all_smb inet es s s' : apply_all inet es s = Some s' -> rs_smb s'.1 = rs_smb s.1.
Proof.
  revert s. induction es as [|[k v] es IH]; intros [st c]; cbn [apply_all]; [by intros [= <-]|].
  destruct (apply_entry inet k v (st, c)) as [s1|] eqn:Ha; [|done]. intros Hs%IH. rewrite Hs. simpl. revert Ha.
  unfold apply_entry. destruct (strcasecmp_eq k _).
  - destruct (add_runtime_scan_path _ v) as [x|] eqn:Hx; [|done]. intros [= <-]. apply (add_scan_path_frame rs_smb) in Hx; [|done].
    simpl. rewrite Hx. by destruct c.
  - destruct (list_find _ _) as [[i [names put]]|] eqn:Hf; [|by intros [= <-]]. apply list_find_Some in Hf as (Hi & _ & _).
    pose proof (runtime_keys_smb inet) as Hall. rewrite Forall_lookup in Hall. specialize (Hall i _ Hi k v st).
    destruct (put k v st) as [x|] eqn:Hp; [|done]. intros [= <-]. by apply Hall.
Qed.

(** A configuration, as the entries of both documents applied in order. *)
Lemma parse_entries inet main profiles st : parse_runtime_config_state inet main profiles = Some st ->
  exists smb es s custom, read_smb_connections main = Some smb /\ Forall (has_key_of profile_keys) es /\
    apply_all inet (main_entries main ++ es) ({| init_runtime_config_defaults with rs_smb := smb |}, false) = Some (s, custom) /\
    st = finish_scan_paths s custom.
Proof.
  unfold parse_runtime_config_state, flatten_documents. rewrite flatten_main_entries.
  destruct (append_all [] (main_entries main)) as [flat1|] eqn:H1; [|done].
  destruct (flatten_profiles profiles flat1) as [flat|] eqn:H2; [|done].
  destruct (read_smb_connections main) as [smb|] eqn:Hs; [|done].
  apply append_all_settings in H1 as [Hin1 He1]; [|constructor].
  apply flatten_profiles_entries in H2 as (es & H2 & Hes). apply append_all_settings in H2 as [_ He2]; [|done].
  rewrite apply_flat_settings, He2, He1. cbn [settings omap list_omap app].
  destruct (apply_all _ _ _) as [[s custom]|] eqn:Ha; [|done]. intros [= <-]. by exists smb, es, s, custom.
Qed.

(** ** The value of a setting *)
Fixpoint last_value (k : text) (es : list (text * text)) : option text :=
  match es with
  | [] => None
  | (k', v) :: es' =>
      match last_value k es' with Some x => Some x | None => if decide (k' = k) then Some v else None end
  end.

Lemma last_value_app k es es' :
  last_value k (es ++ es') = match last_value k es' with Some x => Some x | None => last_value k es end.
Proof.
  induction es as [|[k' v] es IH]; simpl; [by destruct (last_value k es')|]. rewrite IH. by destruct (last_value k es').
Qed.

Lemma table_forall (P : sm_config_key_t -> bool) m : forallb P sm_config_keys = true -> m ∈ sm_config_keys -> P m = true.
Proof. intros Hall Hm. rewrite forallb_forall in Hall. apply Hall. by apply list_elem_of_In. Qed.

Lemma legacy_distinct m m' : m ∈ sm_config_keys -> m' ∈ sm_config_keys -> ck_legacy m = ck_legacy m' -> m = m'.
Proof.
  intros Hm Hm' Hl.
  pose proof (table_forall (fun a => forallb (fun b => bool_decide (a = b) || negb (String.eqb (ck_legacy a) (ck_legacy b)))
    sm_config_keys) m eq_refl Hm) as H1. cbv beta in H1.
  pose proof (table_forall (fun b => bool_decide (m = b) || negb (String.eqb (ck_legacy m) (ck_legacy b))) m' H1 Hm') as H2.
  apply orb_true_iff in H2 as [H2|H2]; bool_hyps; [done|]. by rewrite Hl, String.eqb_refl in H2.
Qed.

Lemma table_section m : m ∈ sm_config_keys ->
  strcasecmp_eq (lit (ck_section m)) (lit "config") = false /\ in_section "smb:" (lit (ck_section m)) = false.
Proof.
  intros Hm. pose proof (table_forall (fun m => negb (strcasecmp_eq (lit (ck_section m)) (lit "config")) &&
    negb (in_section "smb:" (lit (ck_section m)))) m eq_refl Hm) as H. cbv beta in H. by bool_hyps.
Qed.

Lemma find_config_key_spec sec k m : find_config_key sec k = Some m <->
  m ∈ sm_config_keys /\ same_setting sec k (lit (ck_section m)) (lit (ck_key m)).
Proof.
  unfold find_config_key, same_setting. split.
  - intros ([i m'] & Hf & [= <-])%fmap_Some. apply list_find_Some in Hf as (Hi & Hb & _). simpl. bool_hyps.
    split; [by eapply list_elem_of_lookup_2|]. by split; apply strcasecmp_eq_true.
  - intros (Hm & Hs & Hk). destruct (list_find _ sm_config_keys) as [[i m']|] eqn:Hf.
    + apply list_find_Some in Hf as (Hi & Hb & _). bool_hyps. simpl. f_equal. apply list_elem_of_lookup_2 in Hi.
      destruct (decide (m' = m)) as [|Hne]; [done|]. destruct (keys_distinct m' m Hi Hm Hne). apply strcasecmp_eq_true in H, H0.
      split; [by rewrite <-H|by rewrite <-H0].
    + destruct (list_find_None_elem _ _ m Hf Hm). apply andb_true_iff. by split; apply strcasecmp_eq_true.
Qed.

(** The entry for a setting of the table is the value a lookup finds. *)
Lemma main_entries_value m doc : Forall line_ok doc -> m ∈ sm_config_keys -> ck_legacy m <> "scanpath"%string ->
  last_value (lit (ck_legacy m)) (main_entries doc) = sm_ini_get doc (lit (ck_section m)) (lit (ck_key m)).
Proof.
  intros Hok Hm Hsp. induction Hok as [|l doc Hl _ IH]; [done|]. cbn [main_entries sm_ini_get].
  rewrite last_value_app, IH. destruct (sm_ini_get doc _ _) eqn:Hlater; [done|]. unfold main_entry.
  destruct (key l) as [k|] eqn:Hk; [|by unfold is_setting; rewrite Hk].
  destruct (lo_key l Hl k Hk) as (_ & [v Hv] & _). rewrite Hv. unfold setting_entry.
  destruct (is_setting (lit (ck_section m)) (lit (ck_key m)) l) eqn:Hs.
  - apply is_setting_true in Hs as (k' & Hk' & Hsec & Hkey). rewrite Hk in Hk'. injection Hk' as <-.
    destruct (table_section m Hm) as [H1 H2].
    rewrite <-(strcasecmp_eq_proper _ _ Hsec _ _ (reflexivity _)), H1. unfold in_section in *.
    rewrite <-(strncasecmp_proper _ _ Hsec _ _ eq_refl), H2. cbn [orb].
    assert (Hf : find_config_key (section l) k = Some m) by (apply find_config_key_spec; split; [done|by split]).
    rewrite Hf. unfold superseded.
    assert (Hsup : sm_ini_get doc (section l) k = None).
    { rewrite <-Hlater. clear -Hsec Hkey. induction doc as [|l' doc IH]; [done|]. simpl. rewrite IH.
      unfold is_setting. destruct (key l') as [x|]; [|done].
      by rewrite (strcasecmp_eq_proper _ _ Hsec _ _ (reflexivity _)), (strcasecmp_eq_proper _ _ Hkey x x (reflexivity _)). }
    rewrite Hsup. rewrite (bool_decide_false (is_Some None)) by (by intros [? ?]). rewrite andb_false_r. simpl.
    by rewrite decide_True.
  - destruct (_ || _); [done|]. destruct (find_config_key (section l) k) as [m'|] eqn:Hf; [|done].
    apply find_config_key_spec in Hf as (Hm' & Hsec & Hkey). destruct (_ && _); [done|]. simpl. rewrite decide_False; [done|].
    intros He. assert (ck_legacy m' = ck_legacy m) as Hleg.
    { apply (f_equal of_text) in He. unfold of_text, lit in He. by rewrite !String.string_of_list_ascii_of_string in He. }
    apply legacy_distinct in Hleg as ->; [|done|done].
    assert (is_setting (lit (ck_section m)) (lit (ck_key m)) l = true); [|congruence].
    apply is_setting_true. exists k. split; [done|]. by split.
Qed.

Lemma main_entries_keys doc : Forall (has_key_of (ck_legacy <$> sm_config_keys)) (main_entries doc).
Proof.
  induction doc as [|l doc IH]; [constructor|]. cbn [main_entries]. apply Forall_app_2; [|done].
  destruct (main_entry l doc) as [[k v]|] eqn:He; [|constructor]. apply Forall_singleton.
  unfold main_entry in He. destruct (key l); [|done]. destruct (value l); [|done]. unfold setting_entry in He.
  destruct (_ || _); [done|]. destruct (find_config_key _ _) as [m|] eqn:Hf; [|done].
  apply find_config_key_spec in Hf as [Hm _]. destruct (_ && _); [done|]. injection He as <- _.
  exists (ck_legacy m). split; [by apply list_elem_of_fmap_2|done].
Qed.

(** ** The effect of an entry on one field *)
Definition entry_keys : list string := (ck_legacy <$> sm_config_keys) ++ profile_keys.

Definition runtime_names : list (list string) := (runtime_keys (fun _ => true)).*1.

Lemma row_effect inet K n names put v st c st' c' :
  strcasecmp_eq (lit K) (lit "scanpath") = false -> find_index (is_word (lit K)) runtime_names = Some n ->
  runtime_keys inet !! n = Some (names, put) ->
  apply_entry inet (lit K) v (st, c) = Some (st', c') -> put (lit K) v st = Some st'.
Proof.
  intros Hsp Hn Hrow. unfold apply_entry. rewrite Hsp.
  assert (Hl : list_find (fun row => is_word (lit K) row.1 = true) (runtime_keys inet) = Some (n, (names, put))).
  { change runtime_names with (runtime_keys inet).*1 in Hn. revert n Hn Hrow. generalize (runtime_keys inet) as rows.
    induction rows as [|[ns p] rows IH]; intros n; [done|]. rewrite fmap_cons. cbn [find_index fst list_find].
    destruct (is_word (lit K) ns) eqn:Hw.
    - intros [= <-] [= <- <-]. by rewrite decide_True.
    - rewrite decide_False by congruence. destruct (find_index _ rows.*1) as [j|]; [|done]. simpl. intros [= <-] Hj.
      by rewrite (IH j eq_refl Hj). }
  rewrite Hl. destruct (put (lit K) v st); [|done]. by intros [= <- _].
Qed.

Lemma scanpath_effect inet v st c st' c' : apply_entry inet (lit "scanpath") v (st, c) = Some (st', c') -> rs_cfg st' = rs_cfg st.
Proof.
  unfold apply_entry. assert (Hs : strcasecmp_eq (lit "scanpath") (lit "scanpath") = true) by reflexivity. rewrite Hs. destruct (add_runtime_scan_path _ v) as [s|] eqn:Ha; [|done].
  intros [= <- _]. apply (add_scan_path_frame rs_cfg) in Ha as ->; [|done]. by destruct c.
Qed.

Lemma put_image_cfg f change st st' : put_image_rule f change st = Some st' -> rs_cfg st' = rs_cfg st.
Proof.
  unfold put_image_rule. destruct (list_find (is_rule_of f) _) as [[k [r|]]|]; [by intros [= <-]| |];
    (destruct (list_find (fun r => r = None) _) as [[j x]|]; [by intros [= <-]|done]).
Qed.

Lemma image_mode_cfg st v b st' : set_image_mode_rule st v b = Some st' -> rs_cfg st' = rs_cfg st.
Proof. unfold set_image_mode_rule. destruct (normalize_image_filename_value v); [apply put_image_cfg|done]. Qed.

Lemma image_sector_cfg st v st' : set_image_sector_rule st v = Some st' -> rs_cfg st' = rs_cfg st.
Proof. unfold set_image_sector_rule. destruct (parse_image_sector_rule_value v) as [[f n]|]; [apply put_image_cfg|done]. Qed.

(** The entry [K] sets the field to its parsed value, and no other entry touches it. *)
Definition field_effect {A} (get : runtime_config_t -> A) (K : string) (parse : text -> option A) (K' : string) (v : text)
    (c c' : runtime_config_t) : Prop :=
  if decide (K' = K) then parse v = Some (get c') else get c' = get c.

Definition field_of {A} (inet : text -> bool) (get : runtime_config_t -> A) (K : string) (parse : text -> option A) : Prop :=
  forall K' v st c st' c', K' ∈ entry_keys -> apply_entry inet (lit K') v (st, c) = Some (st', c') ->
    field_effect get K parse K' v (rs_cfg st) (rs_cfg st').

Ltac row_case Happ :=
  first
    [ apply scanpath_effect in Happ; rewrite Happ
    | eapply row_effect in Happ; [|vm_compute; reflexivity|vm_compute; reflexivity|reflexivity];
      first [apply image_mode_cfg in Happ; rewrite Happ | apply image_sector_cfg in Happ; rewrite Happ
            | unfold set_cfg in Happ; break_hyp Happ] ].

(** The fields of the web page. *)
Lemma web_fields inet :
  field_of inet rc_debug_enabled "debug" parse_bool_ini /\ field_of inet rc_quiet_mode "quiet_mode" parse_bool_ini /\
  field_of inet rc_update_emulators_enabled "update_emulators" parse_bool_ini /\
  field_of inet rc_auto_update_ampr_enabled "auto_update_ampr" parse_bool_ini /\
  field_of inet rc_fakelib_default_mode "fakelib_default_mode" parse_default_mode /\
  field_of inet rc_auto_remove_missing_games "auto_remove_missing_games" parse_bool_ini /\
  field_of inet rc_auto_remove_missing_delay_seconds "auto_remove_missing_delay_seconds" (ranged 1 86400) /\
  field_of inet rc_api_bind_address "api_bind_address" (parse_bind_address inet) /\
  field_of inet rc_fan_target_temperature_c "fan_target_temperature" parse_fan_target.
Proof.
  enough (H : forall K' v st c st' c', K' ∈ entry_keys -> apply_entry inet (lit K') v (st, c) = Some (st', c') ->
    let c0 := rs_cfg st in let c1 := rs_cfg st' in
    field_effect rc_debug_enabled "debug" parse_bool_ini K' v c0 c1 /\
    field_effect rc_quiet_mode "quiet_mode" parse_bool_ini K' v c0 c1 /\
    field_effect rc_update_emulators_enabled "update_emulators" parse_bool_ini K' v c0 c1 /\
    field_effect rc_auto_update_ampr_enabled "auto_update_ampr" parse_bool_ini K' v c0 c1 /\
    field_effect rc_fakelib_default_mode "fakelib_default_mode" parse_default_mode K' v c0 c1 /\
    field_effect rc_auto_remove_missing_games "auto_remove_missing_games" parse_bool_ini K' v c0 c1 /\
    field_effect rc_auto_remove_missing_delay_seconds "auto_remove_missing_delay_seconds" (ranged 1 86400) K' v c0 c1 /\
    field_effect rc_api_bind_address "api_bind_address" (parse_bind_address inet) K' v c0 c1 /\
    field_effect rc_fan_target_temperature_c "fan_target_temperature" parse_fan_target K' v c0 c1).
  { split_and!; intros K' v st c st' c' HK' Ha; apply (H K' v st c st' c' HK' Ha). }
  intros K' v st c st' c' HK' Happ. cbv zeta. unfold field_effect. apply list_elem_of_In in HK'. vm_compute in HK'.
  repeat (destruct HK' as [<-|HK']; [row_case Happ; by split_and!|]). done.
Qed.

Lemma lit_inj a b : lit a = lit b -> a = b.
Proof.
  intros He. apply (f_equal of_text) in He. unfold of_text, lit in He.
  by rewrite !String.string_of_list_ascii_of_string in He.
Qed.

Lemma apply_all_field {A} inet (get : runtime_config_t -> A) K parse es st c st' c' :
  field_of inet get K parse -> Forall (has_key_of entry_keys) es -> apply_all inet es (st, c) = Some (st', c') ->
  match last_value (lit K) es with
  | Some v => parse v = Some (get (rs_cfg st'))
  | None => get (rs_cfg st') = get (rs_cfg st)
  end.
Proof.
  intros Hf Hes. revert st c. induction Hes as [|[k v] es (K' & HK' & Hk) _ IH]; intros st c; cbn [apply_all last_value].
  - by intros [= <- _].
  - destruct (apply_entry inet k v (st, c)) as [[st1 c1]|] eqn:Ha; [|done]. intros Hall. specialize (IH st1 c1 Hall).
    destruct (last_value (lit K) es) as [x|]; [done|]. simpl in Hk. subst k. specialize (Hf K' v st c st1 c1 HK' Ha).
    unfold field_effect in Hf. destruct (decide (K' = K)) as [->|Hne].
    + rewrite decide_True by done. by rewrite Hf, IH.
    + rewrite decide_False by (by intros ?%lit_inj). by rewrite IH.
Qed.

(** A scalar setting in effect is the parsed value that a lookup in config.ini finds. *)
Lemma setting_in_effect {A} inet (get : runtime_config_t -> A) m parse main profiles st :
  field_of inet get (ck_legacy m) parse -> m ∈ sm_config_keys -> ck_legacy m <> "scanpath"%string ->
  bool_decide (ck_legacy m ∈ profile_keys) = false -> Forall line_ok main ->
  parse_runtime_config_state inet main profiles = Some st ->
  match sm_ini_get main (lit (ck_section m)) (lit (ck_key m)) with
  | Some v => parse v = Some (get (rs_cfg st))
  | None => get (rs_cfg st) = get (rs_cfg init_runtime_config_defaults)
  end.
Proof.
  intros Hf Hm Hsp Hnp Hok (smb & es & s & custom & _ & Hes & Ha & ->)%parse_entries.
  assert (Hcfg : rs_cfg (finish_scan_paths s custom) = rs_cfg s).
  { by apply finish_frame. }
  rewrite Hcfg.
  assert (Hkeys : Forall (has_key_of entry_keys) (main_entries main ++ es)).
  { apply Forall_app_2; [eapply Forall_impl; [apply main_entries_keys|]|eapply Forall_impl; [exact Hes|]];
      intros e (K & HK & He); exists K; (split; [unfold entry_keys; apply elem_of_app; tauto|done]). }
  pose proof (apply_all_field inet get (ck_legacy m) parse _ _ _ _ _ Hf Hkeys Ha) as H. cbn [rs_cfg] in H.
  rewrite last_value_app, (main_entries_value m main) in H by done.
  assert (Hnone : last_value (lit (ck_legacy m)) es = None).
  { clear -Hes Hnp. induction Hes as [|[k v] es (K & HK & He) _ IH]; [done|]. cbn [last_value]. rewrite IH.
    rewrite decide_False; [done|]. simpl in He. subst k. intros ->%lit_inj. by apply bool_decide_eq_false in Hnp. }
  by rewrite Hnone in H.
Qed.

(** ** Numbers *)
Lemma pretty_digit (x : N) : (x < 10)%N -> digit_value (pretty_N_char x) = Z.of_N x.
Proof.
  intros Hx. assert (x = 0 \/ x = 1 \/ x = 2 \/ x = 3 \/ x = 4 \/ x = 5 \/ x = 6 \/ x = 7 \/ x = 8 \/ x = 9)%N by lia.
  by destruct_or!; subst.
Qed.

Lemma read_digits_pretty (x : N) s any : (0 < x)%N ->
  read_digits 10 0 any (lit (pretty_N_go x s)) = read_digits 10 (Z.of_N x) true (lit s).
Proof.
  revert s any. induction (N.lt_wf_0 x) as [x _ IH]. intros s any Hx. rewrite pretty_N_go_step by done.
  assert (Hm : (x `mod` 10 < 10)%N) by (apply N.mod_lt; lia).
  assert (Hstep : forall a acc, acc = Z.of_N (x `div` 10) ->
    read_digits 10 acc a (lit (String (pretty_N_char (x `mod` 10)) s)) = read_digits 10 (Z.of_N x) true (lit s)).
  { intros a acc ->. cbn [lit String.list_ascii_of_string read_digits]. rewrite pretty_digit by done.
    destruct (Z.ltb_spec (Z.of_N (x `mod` 10)) 10); [|lia]. f_equal. pose proof (N.div_mod' x 10). lia. }
  destruct (decide (x `div` 10 = 0)%N) as [Hz|Hz].
  - rewrite Hz, pretty_N_go_0. apply Hstep. by rewrite Hz.
  - rewrite (IH (x `div` 10)%N); [|by apply N.div_lt|by apply N.neq_0_lt_0]. by apply Hstep.
Qed.

(** A printed number starts with a digit other than zero. *)
Lemma pretty_head (x : N) s : (0 < x)%N -> exists d r, (1 <= d < 10)%N /\ lit (pretty_N_go x s) = pretty_N_char d :: r.
Proof.
  revert s. induction (N.lt_wf_0 x) as [x _ IH]. intros s Hx. rewrite pretty_N_go_step by done.
  destruct (decide (x `div` 10 = 0)%N) as [Hz|Hz].
  - rewrite Hz, pretty_N_go_0. exists (x `mod` 10)%N, (lit s). split; [|done].
    assert (x < 10)%N by (by apply N.div_small_iff). rewrite N.mod_small by done. lia.
  - apply IH; [by apply N.div_lt|by apply N.neq_0_lt_0].
Qed.

Lemma parse_u32_text n : 0 < n < 2 ^ 32 -> parse_u32_ini (u32_text n) = Some n.
Proof.
  intros Hn. destruct n as [|p|p]; [lia| |lia]. unfold u32_text, parse_u32_ini.
  change (pretty (Z.pos p)) with (pretty_N_go (N.pos p) "").
  destruct (pretty_head (N.pos p) "") as (d & r & Hd & Hl); [lia|].
  pose proof (read_digits_pretty (N.pos p) "" false ltac:(lia)) as Hr. rewrite Hl in *.
  assert (Hc : isspace (pretty_N_char d) = false /\ Ascii.eqb (pretty_N_char d) "-"%char = false /\
    Ascii.eqb (pretty_N_char d) "+"%char = false /\ Ascii.eqb (pretty_N_char d) "0"%char = false).
  { assert (d = 1 \/ d = 2 \/ d = 3 \/ d = 4 \/ d = 5 \/ d = 6 \/ d = 7 \/ d = 8 \/ d = 9)%N by lia. by destruct_or!; subst. }
  destruct Hc as (H1 & H2 & H3 & H4). cbn [skip_space]. rewrite H1. cbn [strtoul_sign]. rewrite H2, H3.
  cbn [strtoul_base]. rewrite H4. cbn [negb]. rewrite Hr. cbn [read_digits lit String.list_ascii_of_string negb].
  rewrite bool_decide_true by done. cbn [negb orb]. change (Z.of_N (N.pos p)) with (Z.pos p).
  unfold UINT64_MAX. destruct (Z.ltb_spec (2 ^ 64 - 1) (Z.pos p)); [lia|].
  by destruct (Z.ltb_spec (2 ^ 32 - 1) (Z.pos p)); [lia|].
Qed.

(** ** Lookups after edits *)
Definition edit_other (sec k : text) (e : ini_edit) : bool :=
  match e with
  | ESet sec' k' _ | EAppend sec' k' _ => negb (strcasecmp_eq sec' sec && strcasecmp_eq k' k)
  | _ => false
  end.

Lemma run_edits_other doc es doc' sec k : run_edits doc es = Some doc' -> Forall (fun e => edit_other sec k e = true) es ->
  sm_ini_get doc' sec k = sm_ini_get doc sec k.
Proof.
  intros Hr Hes. revert doc Hr. induction Hes as [|e es He _ IH]; intros doc; cbn [run_edits]; [by intros [= <-]|].
  destruct (run_edit doc e) as [doc1|] eqn:H1; [|done]. intros Hr. rewrite (IH doc1 Hr).
  assert (Hne : forall sec' k', negb (strcasecmp_eq sec' sec && strcasecmp_eq k' k) = true -> ~ same_setting sec' k' sec k).
  { intros sec' k' Hb [Ha Hb']. bool_hyps. apply andb_false_iff in Hb. apply strcasecmp_eq_true in Ha, Hb'.
    destruct Hb; congruence. }
  destruct e as [sec' k' v|sec' k' v| |]; cbn [edit_other run_edit] in *; try done; apply Hne in He.
  - by apply (set_get _ _ _ _ _ sec k) in H1 as [_ H1]; apply H1.
  - by apply (append_get _ _ _ _ _ sec k) in H1 as [H1 _]; apply H1.
Qed.

Lemma run_edits_app doc es es' : run_edits doc (es ++ es') = do? d <- run_edits doc es ; run_edits d es'.
Proof. revert doc. induction es as [|e es IH]; intros doc; [done|]. simpl. destruct (run_edit doc e); [apply IH|done]. Qed.

(** The value that an edit sets, when no later edit sets the same. *)
Lemma run_edits_get doc es doc' i sec k v : run_edits doc es = Some doc' -> es !! i = Some (ESet sec k v) ->
  Forall (fun e => edit_other sec k e = true) (drop (S i) es) -> sm_ini_get doc' sec k = v.
Proof.
  intros Hr Hi Hrest. rewrite <-(take_drop_middle es i _ Hi), run_edits_app in Hr.
  destruct (run_edits doc (take i es)) as [d|]; [|done]. cbn [run_edits run_edit] in Hr.
  destruct (sm_ini_set d sec k v) as [d'|] eqn:Hs; [|done]. rewrite (run_edits_other d' _ doc' sec k Hr Hrest).
  by apply (set_get _ _ _ _ _ [] []) in Hs as [? _].
Qed.

(** ** The settings of the web page *)
Lemma web_edits_ok w paths : Forall edit_ok (web_edits w paths).
Proof.
  unfold web_edits. apply Forall_app_2.
  - repeat (apply Forall_cons_2; [by apply names_okb_ok|]). apply Forall_nil_2.
  - apply Forall_fmap, Forall_true. intros p. by apply names_okb_ok.
Qed.

Lemma paths_other paths sec k : edit_other sec k (EAppend (lit "scan") (lit "path") []) = true ->
  Forall (fun e => edit_other sec k e = true) ((fun p => EAppend (lit "scan") (lit "path") p) <$> paths).
Proof. intros He. apply Forall_fmap, Forall_true. intros p. exact He. Qed.

(** The value of the [i]-th setting the page writes. *)
Lemma web_edit_value main w paths main' doc i sec k v :
  run_edits main (web_edits w paths) = Some main' ->
  sm_ini_set main' (lit "config") (lit "version") (Some (lit "2")) = Some doc ->
  web_edits w [] !! i = Some (ESet sec k v) ->
  forallb (edit_other sec k) (drop (S i) (web_edits w []) ++ [ESet (lit "config") (lit "version") None; EAppend (lit "scan") (lit "path") []]) = true ->
  sm_ini_get doc sec k = v.
Proof.
  intros Hr Hs Hi Hall. unfold web_edits in Hi, Hall. rewrite fmap_nil, app_nil_r in Hi, Hall.
  set (base := [_; _; _; _; _; _; _; _; _; _]) in Hi, Hall. rewrite forallb_app in Hall. bool_hyps. cbn [forallb] in H0. bool_hyps.
  assert (Hget : sm_ini_get doc sec k = sm_ini_get main' sec k).
  { apply (run_edits_other main' [ESet (lit "config") (lit "version") (Some (lit "2"))]).
    - cbn [run_edits run_edit]. by rewrite Hs.
    - by apply Forall_singleton. }
  rewrite Hget. apply (run_edits_get main (web_edits w paths) main' i); [done| |].
  - unfold web_edits. fold base. by apply lookup_app_l_Some.
  - unfold web_edits. fold base. rewrite drop_app_le by (apply lookup_lt_Some in Hi; lia). apply Forall_app_2; [|by apply paths_other].
    apply Forall_forall. intros e He. rewrite forallb_forall in H. apply H. by apply list_elem_of_In.
Qed.

Lemma parse_on_off b : parse_bool_ini (on_off b) = Some b.
Proof. by destruct b. Qed.

Lemma parse_mode_name m : m <> SM_FAKELIB_DEFAULT -> parse_default_mode (sm_config_fakelib_mode_name m) = Some m.
Proof. by destruct m. Qed.

Lemma web_valid_spec w : web_settings_valid w = true ->
  1 <= ws_remove_delay w <= 86400 /\
  (ws_fan_target w = FAN_TARGET_TEMPERATURE_SYSTEM \/ 50 <= ws_fan_target w <= 91) /\
  ws_default_mode w <> SM_FAKELIB_DEFAULT.
Proof.
  unfold web_settings_valid. rewrite negb_true_iff, !orb_false_iff, andb_false_iff, orb_false_iff, negb_false_iff, Z.eqb_eq.
  rewrite !Z.ltb_ge, bool_decide_eq_false. intros ([[[? ?] ?] ?] & ?). split_and!; [lia|lia| |done]. tauto.
Qed.

Lemma parse_fan_text n : n = FAN_TARGET_TEMPERATURE_SYSTEM \/ 50 <= n <= 91 -> parse_fan_target (fan_text n) = Some n.
Proof.
  unfold fan_text. intros [->|Hn]; [done|]. unfold FAN_TARGET_TEMPERATURE_SYSTEM. destruct (Z.eqb_spec n 0); [lia|].
  unfold parse_fan_target, ranged. rewrite parse_u32_text by lia.
  assert (Hw : is_word (u32_text n) ["system"; "auto"]%string = false).
  { assert (Hc : exists d r, (1 <= d < 10)%N /\ u32_text n = pretty_N_char d :: r).
    { destruct n as [|p|p]; [lia| |lia]. apply (pretty_head (N.pos p) ""). lia. }
    destruct Hc as (d & r & Hd & ->). unfold is_word, strcasecmp_eq. cbn [existsb].
    assert (d = 1 \/ d = 2 \/ d = 3 \/ d = 4 \/ d = 5 \/ d = 6 \/ d = 7 \/ d = 8 \/ d = 9)%N by lia.
    by destruct_or!; subst; rewrite !bool_decide_false by (by rewrite fmap_cons). }
  rewrite Hw. by destruct (Z.ltb_spec n 50), (Z.ltb_spec 91 n); try lia.
Qed.

(** What the page asked for. *)
Definition web_in_effect (w : web_settings) (c : runtime_config_t) : Prop :=
  rc_debug_enabled c = ws_debug_enabled w /\ rc_quiet_mode c = ws_quiet_mode w /\
  rc_update_emulators_enabled c = ws_update_emulators w /\ rc_auto_update_ampr_enabled c = ws_auto_update_ampr w /\
  rc_fakelib_default_mode c = ws_default_mode w /\ rc_auto_remove_missing_games c = ws_auto_remove_missing w /\
  rc_auto_remove_missing_delay_seconds c = ws_remove_delay w /\
  rc_api_bind_address c = lit (if ws_allow_lan w then "0.0.0.0" else "127.0.0.1") /\
  rc_fan_target_temperature_c c = ws_fan_target w.

Lemma read_documents_spec io s main profiles : read_documents io s = Some (main, profiles) ->
  sm_ini_read (cs_config s) false = Some main /\ sm_ini_read (cs_profiles s) false = Some profiles /\
  (profiles = [] \/ sm_ini_version profiles = true).
Proof.
  unfold read_documents. destruct (negb _); [done|]. destruct (sm_ini_read (cs_config s) false) as [m|]; [|done].
  destruct (_ || _); [done|]. destruct (sm_ini_read (cs_profiles s) false) as [p|]; [|done].
  destruct (bool_decide (p = []) || sm_ini_version p) eqn:Hp; [|done]. intros [= <- <-]. split_and!; [done|done|].
  apply orb_true_iff in Hp as [Hp|Hp]; [left; by bool_hyps|by right].
Qed.

(** One field, from the edit to the configuration. *)
Lemma web_field {A} inet (get : runtime_config_t -> A) m parse w main paths main' doc profiles st i v :
  field_of inet get (ck_legacy m) parse ->
  run_edits main (web_edits w paths) = Some main' ->
  sm_ini_set main' (lit "config") (lit "version") (Some (lit "2")) = Some doc -> Forall line_ok doc ->
  parse_runtime_config_state inet doc profiles = Some st ->
  web_edits w [] !! i = Some (ESet (lit (ck_section m)) (lit (ck_key m)) (Some v)) ->
  forallb (edit_other (lit (ck_section m)) (lit (ck_key m))) (drop (S i) (web_edits w []) ++
    [ESet (lit "config") (lit "version") None; EAppend (lit "scan") (lit "path") []]) = true ->
  bool_decide (m ∈ sm_config_keys) && negb (String.eqb (ck_legacy m) "scanpath") &&
    negb (bool_decide (ck_legacy m ∈ profile_keys)) = true ->
  parse v = Some (get (rs_cfg st)).
Proof.
  intros Hf Hr Hs Hok Hp Hi Ho Hm. bool_hyps.
  pose proof (web_edit_value main w paths main' doc i _ _ _ Hr Hs Hi Ho) as Hv.
  pose proof (setting_in_effect inet get m parse doc profiles st Hf) as He. rewrite Hv in He.
  apply He; [done| |by apply bool_decide_eq_false|done|done]. by apply String.eqb_neq.
Qed.

Lemma web_saved_state inet w main paths main' doc profiles st :
  web_settings_valid w = true -> run_edits main (web_edits w paths) = Some main' ->
  sm_ini_set main' (lit "config") (lit "version") (Some (lit "2")) = Some doc -> Forall line_ok doc ->
  parse_runtime_config_state inet doc profiles = Some st -> web_in_effect w (rs_cfg st).
Proof.
  intros (Hd & Hfan & Hmode)%web_valid_spec Hr Hs Hok Hp.
  destruct (web_fields inet) as (F1 & F2 & F3 & F4 & F5 & F6 & F7 & F8 & F9).
  epose proof (web_field inet _ (ConfigKey "general" "debug" "debug") _ w main paths main' doc profiles st 0 _
    F1 Hr Hs Hok Hp eq_refl eq_refl eq_refl) as E1.
  epose proof (web_field inet _ (ConfigKey "general" "quiet_mode" "quiet_mode") _ w main paths main' doc profiles st 1 _
    F2 Hr Hs Hok Hp eq_refl eq_refl eq_refl) as E2.
  epose proof (web_field inet _ (ConfigKey "emulators" "update_enabled" "update_emulators") _ w main paths main' doc profiles
    st 2 _ F3 Hr Hs Hok Hp eq_refl eq_refl eq_refl) as E3.
  epose proof (web_field inet _ (ConfigKey "emulators" "auto_update_ampr" "auto_update_ampr") _ w main paths main' doc
    profiles st 3 _ F4 Hr Hs Hok Hp eq_refl eq_refl eq_refl) as E4.
  epose proof (web_field inet _ (ConfigKey "fakelib" "default_mode" "fakelib_default_mode") _ w main paths main' doc
    profiles st 4 _ F5 Hr Hs Hok Hp eq_refl eq_refl eq_refl) as E5.
  epose proof (web_field inet _ (ConfigKey "library" "remove_missing" "auto_remove_missing_games") _ w main paths main' doc
    profiles st 5 _ F6 Hr Hs Hok Hp eq_refl eq_refl eq_refl) as E6.
  epose proof (web_field inet _ (ConfigKey "library" "remove_delay_seconds" "auto_remove_missing_delay_seconds") _ w main
    paths main' doc profiles st 6 _ F7 Hr Hs Hok Hp eq_refl eq_refl eq_refl) as E7.
  epose proof (web_field inet _ (ConfigKey "api" "bind_address" "api_bind_address") _ w main paths main' doc profiles st 7 _
    F8 Hr Hs Hok Hp eq_refl eq_refl eq_refl) as E8.
  epose proof (web_field inet _ (ConfigKey "fan" "target_temperature" "fan_target_temperature") _ w main paths main' doc
    profiles st 8 _ F9 Hr Hs Hok Hp eq_refl eq_refl eq_refl) as E9.
  rewrite parse_on_off in E1, E2, E3, E4, E6. rewrite parse_mode_name in E5 by done. rewrite parse_fan_text in E9 by done.
  unfold ranged in E7. rewrite parse_u32_text in E7 by lia. unfold parse_bind_address in E8.
  destruct (_ || _) in E8; [done|].
  destruct (Z.ltb_spec (ws_remove_delay w) 1), (Z.ltb_spec 86400 (ws_remove_delay w)); try lia. simpl in E7.
  unfold web_in_effect. by simplify_eq.
Qed.

(** * Theorems *)

(** Claim C29: settings saved on the web page are the settings in effect.  When
    [sm_config_write_web_settings] reports success and the file it wrote is within
    the reader's line limits, loading the configuration from the files succeeds,
    and every scalar setting of the page (debug, quiet mode, emulator updates,
    default fakelib mode, removal of missing games and its delay, LAN access, fan
    target) has the value the page gave, whatever config.ini held before
    (duplicates, other spellings, comments). *)
Theorem web_settings_saved_and_loaded inet io io' s w s' :
  sm_config_write_web_settings inet io s w = (true, s') -> within_limits (cs_config s') -> reads_succeed io' ->
  (load_runtime_config inet io' s').1 = true /\ web_in_effect w (rs_cfg (cs_state (load_runtime_config inet io' s').2)).
Proof.
  unfold sm_config_write_web_settings. destruct (web_settings_valid w) eqn:Hw; [|done]. cbn [negb].
  destruct (normalize_scan_paths _ _) as [paths|]; [|done].
  destruct (read_documents io s) as [[main profiles]|] eqn:Hrd; [|done].
  destruct (run_edits main (web_edits w paths)) as [main'|] eqn:Hr; [|done]. intros Hsave Hlim Hio.
  apply read_documents_spec in Hrd as (Hm & Hp & Hv). apply sm_ini_read_ok in Hm.
  pose proof (run_edits_ok main _ main' Hm (web_edits_ok w paths) Hr) as Hok.
  destruct (save_main_load inet io io' s main' profiles false s' Hok Hp Hv Hsave Hlim Hio)
    as (doc & st & Hset & [Hdoc _] & Hparse & Hload & _).
  unfold load_runtime_config. rewrite Hload. split; [done|]. by eapply web_saved_state.
Qed.

(** A configuration file with a duplicate setting in another spelling. *)
Definition effect_config : text :=
  lit "[config]" ++ [newline] ++ lit "version = 2" ++ [newline] ++ lit "[General]" ++ [newline] ++ lit "Debug = on # loud" ++
  [newline] ++ lit "debug = on" ++ [newline] ++ lit "[scan]" ++ [newline] ++ lit "path = /data/x" ++ [newline].

Definition effect_io : config_io :=
  let stamp := ConfigStamp true 1 2 3 4 5 6 in ConfigIo true true WriteDone stamp stamp.

Definition effect_store : config_store := init_runtime_config effect_io (IniFile effect_config) IniMissing.

Definition effect_web : web_settings :=
  WebSettings false true true false true 600 false 75 [lit "/data/games/"; lit "/mnt/usb0"] SM_FAKELIB_EMULATORS.

Lemma web_settings_saved_and_loaded_witness :
  let inet := fun _ : text => true in
  let s' := (sm_config_write_web_settings inet effect_io effect_store effect_web).2 in
  sm_config_write_web_settings inet effect_io effect_store effect_web = (true, s') /\
  (load_runtime_config inet effect_io s').1 = true /\
  web_in_effect effect_web (rs_cfg (cs_state (load_runtime_config inet effect_io s').2)).
Proof.
  intros inet s'.
  assert (H : sm_config_write_web_settings inet effect_io effect_store effect_web = (true, s')) by (vm_compute; reflexivity).
  split; [exact H|]. apply (web_settings_saved_and_loaded inet effect_io effect_io effect_store effect_web s' H); [|by split].
  vm_compute. split; [|discriminate]. repeat (apply Forall_cons_2; [reflexivity|]). apply Forall_nil_2.
Defined.
