(* ===== verification/ConfigUpdate.v ===== *)
(** * SMB connections and title policies through the configuration files

    Theorems about [sm_config_smb_update] and [write_title_fakelib_policy] of
    src/sm_config_mount.c: what an update stores is what lookups find, at once and
    after the files are loaded again. *)
From S2P Require Import Prelude CString IniFile ImageCache GameInfo SmbAddress ConfigState ConfigStore ConfigEffect.
From stdpp Require Import list.
Open Scope Z_scope.
Open Scope c_scope.

(** ** Where connections come from *)
Lemma meaning_get_header ctx ms sec k v : meaning_get ctx ms sec k = Some v ->
  same_text sec ctx \/ exists h, MHeader h ∈ ms /\ same_text sec h.
Proof.
  revert ctx. induction ms as [|m ms IH]; intros ctx; simpl; [done|].
  destruct (meaning_get (after_meaning ctx m) ms sec k) as [x|] eqn:Hg.
  - intros [= ->]. destruct (IH _ Hg) as [Hs|(h & Hh & Hs)]; [|right; exists h; split; [by right|done]].
    destruct m as [h|k' v'|]; [|by left|by left]. right. exists h. split; [by left|done].
  - destruct m as [h|k' v'|]; [done| |done]. destruct (strcasecmp_eq sec ctx) eqn:Hs; [|done]. intros _. left.
    by apply strcasecmp_eq_true.
Qed.

(** A section with a setting has a header. *)
Lemma setting_header doc sec k v : doc_ok doc -> sec <> [] -> sm_ini_get doc sec k = Some v ->
  exists h, h ∈ headers doc /\ same_text sec h.
Proof.
  intros [Hok Hc] Hne. rewrite (consistent_get [] doc) by done. intros [Hs|(h & Hh & Hs)]%meaning_get_header.
  { destruct Hne. unfold same_text in Hs. rewrite fmap_nil in Hs. by apply fmap_nil_inv in Hs. }
  exists h. split; [|done]. rewrite headers_meaning. apply list_elem_of_omap. exists (MHeader h). split; [|done].
  unfold meaningful. by apply list_elem_of_filter.
Qed.

(** Where the connections of a configuration come from. *)
Lemma read_smb_headers_spec get hs items smb : read_smb_headers get hs items = Some smb ->
  (forall c, c ∈ items -> c ∈ smb) /\
  (forall c, c ∈ smb -> c ∈ items \/ exists h, h ∈ hs /\ in_section "smb:" h = true /\ get h = Some c) /\
  ((forall h c, get h = Some c -> c_name c = drop 4 h) ->
   forall h, h ∈ hs -> in_section "smb:" h = true -> smb_seen smb h = true).
Proof.
  revert items. induction hs as [|h hs IH]; intros items; cbn [read_smb_headers].
  - intros [= <-]. split_and!; [done|by left|]. intros _ h Hh. by apply not_elem_of_nil in Hh.
  - destruct (negb (in_section "smb:" h) || smb_seen items h) eqn:Hskip.
    + intros (H1 & H2 & H3)%IH. split_and!; [done| |].
      * intros c Hc. destruct (H2 c Hc) as [?|(h' & Hh' & ?)]; [by left|]. right. exists h'. split; [by right|done].
      * intros Hn h' Hh' Hin. apply elem_of_cons in Hh' as [->|Hh']; [|by apply H3]. rewrite Hin in Hskip.
        cbn [negb orb] in Hskip. apply smb_seen_true in Hskip as (c & Hc & Hs). apply smb_seen_true. exists c. by split; [apply H1|].
    + destruct (bool_decide _); [done|]. destruct (get h) as [c|] eqn:Hg; [|done]. bool_hyps.
      intros (H1 & H2 & H3)%IH. split_and!.
      * intros c' Hc'. apply H1, elem_of_app. by left.
      * intros c' Hc'. destruct (H2 c' Hc') as [Hin|(h' & Hh' & ?)].
        -- apply elem_of_app in Hin as [?|Hin]; [by left|]. apply list_elem_of_singleton in Hin as ->. right.
           exists h. split; [by left|done].
        -- right. exists h'. split; [by right|done].
      * intros Hn h' Hh' Hin. apply elem_of_cons in Hh' as [->|Hh']; [|by apply H3].
        apply smb_seen_true. exists c. split; [apply H1, elem_of_app; right; by apply list_elem_of_singleton|].
        by rewrite (Hn h c Hg).
Qed.

(** ** The operations on connections (src/sm_smb.c) *)
Definition sm_smb_get (s : config_store) (name : text) : sm_smb_connection_t + errno :=
  sm_config_smb_get (rs_smb (cs_state s)) name.

Definition sm_smb_save inet (io : config_io) (s : config_store) (previous : text) (c : sm_smb_connection_t) :
    option errno * config_store := sm_config_smb_update inet io s previous (Some c).

Definition sm_smb_remove inet (io : config_io) (s : config_store) (name : text) : option errno * config_store :=
  sm_config_smb_update inet io s name None.

Definition smb_section (name : text) : text := lit "smb:" ++ name.

Lemma same_section_name h name : in_section "smb:" h = true -> same_text (drop 4 h) name <-> same_text h (smb_section name).
Proof.
  unfold in_section, strncasecmp_eq, smb_section, same_text. intros Ht%strcasecmp_eq_true.
  unfold same_text in Ht. rewrite fmap_app. rewrite <-(take_drop 4 h) at 2. rewrite fmap_app.
  change (length (lit "smb:")) with 4%nat in Ht. rewrite Ht. split; [by intros ->|]. by intros ?%app_inv_head.
Qed.

Lemma same_section_in h name : same_text h (smb_section name) -> in_section "smb:" h = true.
Proof.
  unfold in_section, strncasecmp_eq, smb_section, same_text. rewrite fmap_app. intros Hh. apply strcasecmp_eq_true. unfold same_text.
  rewrite fmap_take, Hh. change (length (lit "smb:")) with (length (tolower <$> lit "smb:")). by rewrite take_app_length.
Qed.

(** The connection a lookup finds is the one its section describes. *)
Lemma smb_lookup doc smb name : read_smb_connections doc = Some smb ->
  (exists h, h ∈ headers doc /\ same_text h (smb_section name)) ->
  exists c h, sm_config_smb_get smb name = inl c /\ same_text h (smb_section name) /\ smb_connection_of doc h = Some c.
Proof.
  unfold read_smb_connections. rewrite read_smb_lines_headers. intros (_ & H2 & H3)%read_smb_headers_spec (h & Hh & Hs).
  pose proof (same_section_in h name Hs) as Hin.
  specialize (H3 ltac:(intros ? ? Hc; by apply smb_connection_valid in Hc as [_ ?]) h Hh Hin).
  apply smb_seen_true in H3 as (c & Hc & Hn). unfold sm_config_smb_get.
  destruct (list_find _ smb) as [[i c']|] eqn:Hf.
  - apply list_find_Some in Hf as (Hi & Hn' & _). apply list_elem_of_lookup_2 in Hi.
    destruct (H2 c' Hi) as [Hnil|(h' & Hh' & Hin' & Hget)]; [by apply not_elem_of_nil in Hnil|].
    exists c', h'. split_and!; [done| |done]. apply (same_section_name h' name Hin').
    apply smb_connection_valid in Hget as [_ <-]. symmetry. by apply strcasecmp_eq_true.
  - destruct (list_find_None_elem _ _ c Hf Hc). apply strcasecmp_eq_true. rewrite Hn. symmetry.
    by apply (same_section_name h name Hin).
Qed.

(** ** Names of valid connections *)
Lemma skip_space_last (x : text) : head_nonspace (reverse x) <-> from_option isspace false (last x) = false.
Proof.
  destruct (decide (x = [])) as [->|Hx]; [done|]. destruct (exists_last Hx) as (y & a & ->).
  by rewrite reverse_app, last_snoc.
Qed.

Lemma valid_name_section c : sm_smb_validate c = None -> brackets_ok (c_name c) = true -> section_ok (smb_section (c_name c)).
Proof.
  unfold sm_smb_validate. destruct (_ || _ || _ || _) eqn:H1; [done|]. destruct (bad_component (c_name c) || _ || _) eqn:H2; [done|].
  destruct (existsb bad_name_char (c_name c)) eqn:H3; [done|]. intros _ Hb. bool_hyps.
  match goal with H : (SMB_NAME_SIZE <=? _)%nat = false |- _ => apply Nat.leb_gt in H end.
  assert (Hne : c_name c <> []) by (by intros He; rewrite He in *).
  unfold section_ok, smb_section. split_and!.
  - split; [done|]. rewrite reverse_app. apply skip_space_last in H0. unfold head_nonspace in *.
    destruct (reverse (c_name c)) as [|a r] eqn:Hr; [|done]. by apply (f_equal reverse) in Hr; rewrite reverse_involutive in Hr.
  - apply Forall_app_2; [by repeat constructor|]. apply Forall_forall. intros a Ha.
    assert (Hbad : bad_name_char a = false).
    { destruct (bad_name_char a) eqn:Hx; [|done]. rewrite <-H3. symmetry. apply existsb_exists. exists a. split; [by apply list_elem_of_In|done]. }
    unfold bad_name_char in Hbad. bool_hyps. by split; intros ->.
  - done.
  - rewrite length_app. simpl. unfold SECTION_SIZE, MAX_PATH, SMB_NAME_SIZE in *. lia.
  - by simpl.
Qed.

Lemma smb_edits_ok previous c : section_ok (smb_section (c_name c)) ->
  Forall edit_ok (smb_edits previous (Some c)).
Proof.
  intros Hs. unfold smb_edits. fold (smb_section (c_name c)). apply Forall_app_2.
  - destruct (_ || _); [constructor|]. apply Forall_singleton. by split.
  - assert (Hk : forall k, names_okb (lit "x") (lit k) = true -> edit_names_ok (smb_section (c_name c)) (lit k)).
    { intros k Hk. split; [done|]. by apply names_okb_ok in Hk as [_ ?]. }
    repeat (apply Forall_cons_2; [by apply Hk|]). constructor.
Qed.

(** The values of the five settings after the edits and the version. *)
Lemma smb_edits_values main previous c main' doc :
  run_edits main (smb_edits previous (Some c)) = Some main' ->
  sm_ini_set main' (lit "config") (lit "version") (Some (lit "2")) = Some doc ->
  let get k := sm_ini_get doc (smb_section (c_name c)) (lit k) in
  get "path"%string = Some (c_path c) /\ get "username"%string = Some (c_username c) /\
  get "password"%string = Some (c_password c) /\ get "active"%string = Some (on_off (c_active c)) /\
  get "read_only"%string = Some (on_off (c_read_only c)).
Proof.
  intros Hr Hs get. unfold smb_edits in Hr. fold (smb_section (c_name c)) in Hr. set (sec := smb_section (c_name c)) in *.
  set (rename := if bool_decide _ || _ then [] else _) in Hr. rewrite run_edits_app in Hr.
  destruct (run_edits main rename) as [main1|]; [|done].
  set (sets := [_; _; _; _; _]) in Hr.
  assert (Hrun : run_edits main1 (sets ++ [ESet (lit "config") (lit "version") (Some (lit "2"))]) = Some doc).
  { rewrite run_edits_app, Hr. cbn [run_edits run_edit]. by rewrite Hs. }
  assert (Hkey : forall k k', strcasecmp_eq k' k = false -> forall v, edit_other sec k (ESet sec k' v) = true).
  { intros k k' Hk v. cbn [edit_other]. by rewrite Hk, andb_false_r. }
  assert (Hver : forall k v, edit_other sec (lit k) (ESet (lit "config") (lit "version") v) = true).
  { intros k v. cbn [edit_other]. unfold sec, smb_section.
    assert (strcasecmp_eq (lit "config") (lit "smb:" ++ c_name c) = false) as ->; [|done].
    apply bool_decide_eq_false. by rewrite fmap_app. }
  split_and!; [eapply (run_edits_get main1 _ doc 0)|eapply (run_edits_get main1 _ doc 1)|eapply (run_edits_get main1 _ doc 2)
    |eapply (run_edits_get main1 _ doc 3)|eapply (run_edits_get main1 _ doc 4)]; try exact Hrun; try reflexivity;
    cbn [sets app drop]; repeat (apply Forall_cons_2; [first [by apply Hver|by apply Hkey]|]); apply Forall_nil_2.
Qed.

(** The same connection, up to the spelling of its name. *)
Definition connection_same (c c' : sm_smb_connection_t) : Prop :=
  same_text (c_name c') (c_name c) /\ c_path c' = c_path c /\ c_username c' = c_username c /\
  c_password c' = c_password c /\ c_active c' = c_active c /\ c_read_only c' = c_read_only c.

Lemma get_same_section doc sec sec' k : same_text sec sec' -> sm_ini_get doc sec k = sm_ini_get doc sec' k.
Proof.
  intros Hs. induction doc as [|l doc IH]; [done|]. simpl. rewrite IH. unfold is_setting. destruct (key l) as [x|]; [|done].
  by rewrite (strcasecmp_eq_proper _ _ Hs _ _ (reflexivity _)).
Qed.

Lemma updated_connection main previous c main' doc smb :
  doc_ok doc -> run_edits main (smb_edits previous (Some c)) = Some main' ->
  sm_ini_set main' (lit "config") (lit "version") (Some (lit "2")) = Some doc ->
  read_smb_connections doc = Some smb -> exists c', sm_config_smb_get smb (c_name c) = inl c' /\ connection_same c c'.
Proof.
  intros Hok Hr Hs Hsmb. destruct (smb_edits_values main previous c main' doc Hr Hs) as (E1 & E2 & E3 & E4 & E5).
  destruct (setting_header doc (smb_section (c_name c)) (lit "path") (c_path c)) as (h & Hh & Hhs); [done|done|done|].
  destruct (smb_lookup doc smb (c_name c) Hsmb) as (c' & h' & Hget & Hh' & Hc'); [by exists h|].
  exists c'. split; [done|]. unfold connection_same.
  assert (Hn : c_name c' = drop 4 h') by (by apply smb_connection_valid in Hc' as [_ ?]).
  split; [rewrite Hn; by apply (same_section_name h' (c_name c) (same_section_in h' _ Hh'))|].
  unfold smb_connection_of in Hc'. rewrite !(get_same_section doc h' _ _ Hh'), E1, E2, E3, E4, E5 in Hc'.
  cbn [default from_option] in Hc'. unfold bool_setting in Hc'. rewrite !parse_on_off in Hc'.
  destruct (_ <=? _)%nat; [done|]. destruct (_ || _); [done|]. cbv zeta in Hc'.
  destruct (sm_smb_validate _); [done|]. by injection Hc' as <-.
Qed.

(** ** Removing *)
Lemma removed_headers doc sec h : h ∈ headers (sm_ini_remove_section doc sec) -> ~ same_text h sec.
Proof.
  unfold headers, sm_ini_remove_section. intros (l & -> & Hl)%list_elem_of_fmap. apply list_elem_of_filter in Hl as [_ Hl].
  apply list_elem_of_filter in Hl as [Hs _]. intros He. symmetry in He. apply strcasecmp_eq_true in He. congruence.
Qed.

Lemma section_headers doc doc' : Forall2 (fun l l' => section l' = section l /\ header l' = header l) doc doc' ->
  headers doc' = headers doc.
Proof.
  unfold headers. induction 1 as [|l l' d d' [Hs Hh] _ IH]; [done|]. destruct (header l) eqn:H.
  - rewrite !filter_cons_True by congruence. rewrite !fmap_cons. by rewrite IH, Hs.
  - rewrite !filter_cons_False by congruence. done.
Qed.

Lemma set_headers doc sec k v doc' h : sm_ini_set doc sec k v = Some doc' -> Forall line_ok doc ->
  h ∈ headers doc' -> h ∈ headers doc \/ h = sec.
Proof.
  unfold sm_ini_set. destruct (negb _); [done|]. intros Hs Hok. destruct (set_lines_ok sec k v false doc Hok) as [_ Hsh].
  apply section_headers in Hsh. destruct (set_lines sec k v false doc) as [d b]. simpl in Hsh. rewrite <-Hsh.
  destruct v as [v'|]; [|injection Hs as <-; by left]. destruct b; [injection Hs as <-; by left|].
  apply sm_ini_append_spec in Hs as [_ Happ]. cbn zeta in Happ. unfold headers.
  destruct Happ as [(at_ & d1 & d2 & _ & _ & -> & ->)|[_ ->]]; intros (l & -> & Hl)%list_elem_of_fmap;
    apply list_elem_of_filter in Hl as [Hh Hl]; apply elem_of_app in Hl as [Hl|Hl].
  - left. apply list_elem_of_fmap_2, list_elem_of_filter. split; [done|]. apply elem_of_app. by left.
  - apply elem_of_cons in Hl as [->|Hl]; [done|]. left. apply list_elem_of_fmap_2, list_elem_of_filter. split; [done|].
    apply elem_of_app. by right.
  - left. apply list_elem_of_fmap_2, list_elem_of_filter. done.
  - apply elem_of_cons in Hl as [->|Hl]; [by right|]. apply list_elem_of_singleton in Hl as ->. done.
Qed.

Lemma removed_connection doc smb name : read_smb_connections doc = Some smb ->
  (forall h, h ∈ headers doc -> ~ same_text h (smb_section name)) -> sm_config_smb_get smb name = inr ENOENT.
Proof.
  unfold read_smb_connections. rewrite read_smb_lines_headers. intros (_ & H2 & _)%read_smb_headers_spec Hno.
  unfold sm_config_smb_get. destruct (list_find _ smb) as [[i c]|] eqn:Hf; [|done].
  apply list_find_Some in Hf as (Hi & Hn & _). apply list_elem_of_lookup_2 in Hi.
  destruct (H2 c Hi) as [Hnil|(h & Hh & Hin & Hget)]; [by apply not_elem_of_nil in Hnil|].
  destruct (Hno h Hh). apply (same_section_name h name Hin). apply smb_connection_valid in Hget as [_ <-].
  symmetry. by apply strcasecmp_eq_true.
Qed.

(** ** What an update saved *)
Lemma save_smb_parsed inet io s main profiles s' : save_document inet io s main profiles false true = (true, s') ->
  exists doc, sm_ini_set main (lit "config") (lit "version") (Some (lit "2")) = Some doc /\
    read_smb_connections doc = Some (rs_smb (cs_state s')).
Proof.
  unfold save_document. destruct (sm_ini_set main _ _ _) as [doc|] eqn:Hset; [|done].
  destruct (parse_runtime_config_state inet doc profiles) as [st|] eqn:Hp; [|done].
  destruct (sm_ini_write _ _ _ doc) as [ok f]. intros [= -> <-]. exists doc. split; [done|]. cbn [cs_state andb rs_smb].
  apply parse_entries in Hp as (smb & es & s1 & custom & -> & Hes & Ha & ->). f_equal.
  rewrite (finish_frame rs_smb) by done. by apply apply_all_smb in Ha.
Qed.

(** An update that succeeds went through the edits. *)
Lemma smb_update_inv inet io s previous connection s' :
  sm_config_smb_update inet io s previous connection = (None, s') ->
  exists main profiles main', read_documents io s = Some (main, profiles) /\
    run_edits main (smb_edits previous connection) = Some main' /\
    save_document inet io s main' profiles false true = (true, s') /\
    match connection with Some c => sm_smb_validate c = None | None => previous <> [] end.
Proof.
  unfold sm_config_smb_update. intros H.
  assert (Hv : match connection with Some c => sm_smb_validate c = None | None => previous <> [] end).
  { destruct connection as [c|]; [by destruct (sm_smb_validate c)|]. intros ->. done. }
  destruct (match connection with Some c => sm_smb_validate c | None => _ end); [done|].
  destruct (_ <=? _)%nat; [done|]. destruct (read_documents io s) as [[main profiles]|]; [|done].
  cbv zeta in H. destruct (_ && bool_decide (_ = None)); [done|].
  destruct (match connection with Some c => _ && _ | None => false end); [done|].
  destruct (run_edits main _) as [main'|] eqn:Hr; [|done]. exists main, profiles, main'.
  destruct (save_document inet io s main' profiles false true) as [[] s1]; [|done]. injection H as <-. done.
Qed.

(** * Theorems *)

(** a saved SMB connection is found again.  When [sm_smb_save]
    reports success for a connection (new, changed or renamed) whose name cannot
    be mistaken for a comment after a closing bracket, a lookup of its name finds
    exactly this connection (path, credentials, flags), at once and also after
    the files are loaded again, and the load succeeds when the file is within the
    reader's line limits. *)
Theorem smb_update_found inet io io' s previous c s' :
  sm_smb_save inet io s previous c = (None, s') -> brackets_ok (c_name c) = true ->
  (exists c', sm_smb_get s' (c_name c) = inl c' /\ connection_same c c') /\
  (within_limits (cs_config s') -> reads_succeed io' ->
   let '(ok, s'') := load_runtime_config inet io' s' in
   ok = true /\ exists c', sm_smb_get s'' (c_name c) = inl c' /\ connection_same c c').
Proof.
  unfold sm_smb_save, sm_smb_get.
  intros (main & profiles & main' & Hrd & Hr & Hsave & Hval)%smb_update_inv Hb.
  apply read_documents_spec in Hrd as (Hm & Hp & Hv). apply sm_ini_read_ok in Hm.
  pose proof (run_edits_ok main _ main' Hm (smb_edits_ok previous c (valid_name_section c Hval Hb)) Hr) as Hok.
  destruct (save_smb_parsed inet io s main' profiles s' Hsave) as (doc & Hset & Hsmb).
  assert (Hdoc : doc_ok doc) by (eapply set_ok; [done| |done]; by apply names_okb_ok).
  pose proof (updated_connection main previous c main' doc _ Hdoc Hr Hset Hsmb) as Hfound. split; [done|]. intros Hlim Hio.
  destruct (save_main_load inet io io' s main' profiles true s' Hok Hp Hv Hsave Hlim Hio)
    as (doc' & st & _ & _ & _ & Hload & Heq).
  unfold load_runtime_config. rewrite Hload. split; [done|]. cbn [cs_state]. by rewrite <-Heq.
Qed.

(** a removed SMB connection is gone: after a removal that reports
    success no lookup, in any spelling of the name, finds it. *)
Theorem smb_removed_not_found inet io s previous s' name :
  sm_smb_remove inet io s previous = (None, s') -> same_text name previous ->
  sm_smb_get s' name = inr ENOENT.
Proof.
  unfold sm_smb_remove, sm_smb_get.
  intros (main & profiles & main' & Hrd & Hr & Hsave & Hne)%smb_update_inv Hname.
  apply read_documents_spec in Hrd as (Hm & Hp & Hv). apply sm_ini_read_ok in Hm.
  destruct (save_smb_parsed inet io s main' profiles s' Hsave) as (doc & Hset & Hsmb). cbn in Hr. injection Hr as <-.
  destruct (remove_ok main (smb_section previous) Hm) as [Hlines _].
  apply (removed_connection doc _ name Hsmb). intros h Hh Hs.
  assert (Hs' : same_text h (smb_section previous)).
  { rewrite Hs. unfold smb_section, same_text. rewrite !fmap_app. by rewrite Hname. }
  destruct (set_headers _ _ _ _ _ h Hset Hlines Hh) as [Hin| ->]; [by eapply removed_headers|].
  by apply same_section_in in Hs'.
Qed.

(** ** Concrete files *)
Definition demo_stamp : config_file_stamp_t := ConfigStamp true 1 2 3 4 5 6.
Definition demo_io : config_io := ConfigIo true true WriteDone demo_stamp demo_stamp.

Definition demo_config : text :=
  lit "[config]" ++ [newline] ++ lit "version = 2" ++ [newline] ++ lit "[general]" ++ [newline] ++ lit "Debug = off # loud" ++
  [newline] ++ lit "debug = off" ++ [newline] ++ lit "[smb:Old]" ++ [newline] ++ lit "path = smb://host/share" ++ [newline].

Definition demo_store : config_store :=
  init_runtime_config demo_io (IniFile demo_config) IniMissing.

Definition demo_connection (name : string) : sm_smb_connection_t :=
  SmbConnection (lit name) (lit "smb://Server/games;1/") (lit "me") (lit "p w ") true false.

(** Deciding the reader's limits. *)
Definition within_limitsb (f : ini_file) : bool :=
  match f with
  | IniFile c =>
      forallb (fun l => Z.of_nat (length l) <? INI_LINE_MAX) (split_lines c) &&
      (Z.of_nat (length (split_lines c)) <=? INI_MAX_LINES)
  | _ => true
  end.

Lemma within_limitsb_true f : within_limitsb f = true -> within_limits f.
Proof.
  destruct f as [| |c]; simpl; [done|done|]. intros H. bool_hyps. split; [|by apply Z.leb_le]. apply Forall_forall. intros l Hl.
  rewrite forallb_forall in H. apply Z.ltb_lt, H. by apply list_elem_of_In.
Qed.

Lemma smb_update_found_witness :
  let inet := fun _ : text => true in
  let s' := (sm_smb_save inet demo_io demo_store (lit "old") (demo_connection "NAS")).2 in
  sm_smb_save inet demo_io demo_store (lit "old") (demo_connection "NAS") = (None, s') /\
  (exists c', sm_smb_get s' (lit "NAS") = inl c' /\ connection_same (demo_connection "NAS") c') /\
  (within_limits (cs_config s') -> reads_succeed demo_io ->
   let '(ok, s'') := load_runtime_config inet demo_io s' in
   ok = true /\ exists c', sm_smb_get s'' (lit "NAS") = inl c' /\
     connection_same (demo_connection "NAS") c').
Proof.
  intros inet s'.
  assert (H : sm_smb_save inet demo_io demo_store (lit "old") (demo_connection "NAS") = (None, s'))
    by (vm_compute; reflexivity).
  split; [exact H|]. apply (smb_update_found inet demo_io demo_io demo_store (lit "old") (demo_connection "NAS") s' H).
  vm_compute. reflexivity.
Defined.

Lemma smb_removed_not_found_witness :
  let inet := fun _ : text => true in
  let s' := (sm_smb_remove inet demo_io demo_store (lit "OLD")).2 in
  sm_smb_remove inet demo_io demo_store (lit "OLD") = (None, s') /\
  sm_smb_get s' (lit "old") = inr ENOENT.
Proof.
  intros inet s'. assert (H : sm_smb_remove inet demo_io demo_store (lit "OLD") = (None, s')) by (vm_compute; reflexivity).
  split; [exact H|]. apply (smb_removed_not_found inet demo_io demo_store (lit "OLD") s' (lit "old") H). vm_compute. reflexivity.
Defined.

(** the name of a connection does not always survive a restart.
    [sm_smb_validate] allows a closing bracket followed by a semicolon, but the
    reader takes the semicolon in the header "[smb:nas];x]" for the start of a
    comment.  Saving such a connection reports success and lookups find it, but
    after the files are loaded again its name is unknown and "nas", which nobody
    configured, is found. *)
Theorem smb_bracket_name_lost :
  let inet := fun _ : text => true in
  let '(status, s') := sm_config_smb_update inet demo_io demo_store [] (Some (demo_connection "nas];x")) in
  let '(ok, s'') := load_runtime_config inet demo_io s' in
  status = None /\ ok = true /\
  sm_smb_get s' (lit "nas];x") = inl (demo_connection "nas];x") /\
  sm_smb_get s'' (lit "nas];x") = inr ENOENT /\
  sm_smb_get s'' (lit "nas") = inl (demo_connection "nas").
Proof. vm_compute. done. Qed.

(** setting the fakelib mode of a title can have no effect.  The loader
    accepts "[game: ppsa01234]" for the title PPSA01234, but the writer looks for
    the section "game:PPSA01234"; it adds a section of that name only when there is
    none, and an older section for the same title that comes later in the file still
    wins.  With such a file the call reports success and the title keeps its old
    mode. *)
Theorem title_mode_shadowed :
  let inet := fun _ : text => true in
  let file := lit "[config]" ++ [newline] ++ lit "version = 2" ++ [newline] ++ lit "[game:PPSA01234]" ++ [newline] ++
    lit "fakelib = full" ++ [newline] ++ lit "[game: ppsa01234]" ++ [newline] ++ lit "fakelib = disabled" ++ [newline] in
  let s := init_runtime_config demo_io (IniFile demo_config) (IniFile file) in
  let '(ok, s') := sm_config_set_title_fakelib_mode inet demo_io s (lit "PPSA01234") SM_FAKELIB_EMULATORS in
  ok = true /\ get_fakelib_mode_for_title (cs_state s') (lit "PPSA01234") = SM_FAKELIB_DISABLED.
Proof. vm_compute. done. Qed.
