(* ===== verification/ConfigMigrate.v ===== *)
(** * Migrating the configuration files (src/sm_config_file.c)

    [sm_config_migrate_files] turns the configuration of version 1 (config.ini,
    autotune.ini, smb.json) into version 2 (config.ini, profiles.ini) at start-up,
    with backups of the originals.  The console may lose power at any moment, so
    the model records the state of the disk after every change: a crash is a
    prefix of that record.  Each file is replaced by renaming a complete
    temporary file, so a change is one file getting a whole new content.

    Every file operation asks an oracle how it ends.  The JSON library (json-c) is a
    parameter: the value of a text and where its parse ended, when it succeeded. *)
From S2P Require Import Prelude CString IniFile SmbAddress ConfigState ConfigStore ConfigEffect.
From stdpp Require Import list.
Open Scope Z_scope.
Open Scope c_scope.

(** ** Files *)
Inductive cfile := Config | Autotune | Smb | Profiles | BConfig | BAutotune | BSmb | Ready | Candidate.

#[export] Instance cfile_eq_dec : EqDecision cfile.
Proof. solve_decision. Defined.

Definition disk := cfile -> ini_file.

Definition set_disk (f : cfile) (x : ini_file) (d : disk) : disk :=
  fun g => if decide (g = f) then x else d g.

Definition sources : list cfile := [Config; Autotune; Smb].

Definition path_of (f : cfile) : string :=
  match f with
  | Config => "/data/shadowmount/config.ini"
  | Autotune => "/data/shadowmount/autotune.ini"
  | Smb => "/data/shadowmount/smb.json"
  | Profiles => "/data/shadowmount/profiles.ini"
  | BConfig => "/data/shadowmount/config-v1-backup/config.ini"
  | BAutotune => "/data/shadowmount/config-v1-backup/autotune.ini"
  | BSmb => "/data/shadowmount/config-v1-backup/smb.json"
  | Ready => "/data/shadowmount/config-v1-backup/ready.ini"
  | Candidate => "/data/shadowmount/config-v1-backup/profiles-v2.ini"
  end.

Definition backup_of (f : cfile) : cfile :=
  match f with Config => BConfig | Autotune => BAutotune | Smb => BSmb | _ => f end.

(** A missing file reads as no bytes. *)
Definition file_bytes (x : ini_file) : option text :=
  match x with
  | IniMissing => Some []
  | IniUnusable => None
  | IniFile c => if INI_MAX_BYTES <? Z.of_nat (length c) then None else Some c
  end.

(** ** Effects *)

(** How a file operation ends: done, not done, or done and reported as failed. *)
Inductive io := IoOk | IoFail | IoLate.

Record mig_state := MigState { ms_disk : disk; ms_tick : nat; ms_trace : list disk }.

Definition M (A : Type) : Type := mig_state -> A * mig_state.

Definition mret {A} (x : A) : M A := fun s => (x, s).
Definition mbind_ {A B} (m : M A) (k : A -> M B) : M B := fun s => let '(x, s') := m s in k x s'.

Notation "'let*' x := m 'in' k" := (mbind_ m (fun x => k)) (at level 10, x pattern, m at level 100, k at level 200) : c_scope.

(** [a && b], [b] only when [a] holds. *)
Definition mand (a b : M bool) : M bool := let* x := a in if x : bool then b else mret false.

(** ** Importing smb.json *)
#[warnings="-register-all"]
Inductive json :=
  | JString (s : text)
  | JBool (b : bool)
  | JArray (items : list json)
  | JObject (fields : list (string * json))
  | JOther.

Definition json_field (item : list (string * json)) (k : string) : option json :=
  (fun x => x.2.2) <$> list_find (fun f => f.1 = k) item.

(** A string member that fits its array and holds no NUL. *)
Definition json_text (item : list (string * json)) (k : string) (size : nat) : option text :=
  match json_field item k with
  | Some (JString s) => if existsb (Ascii.eqb nul) s || (size <=? length s)%nat then None else Some s
  | _ => None
  end.

Definition import_connection (config : sm_ini_t) (item : json) : option sm_ini_t :=
  match item with
  | JObject fields =>
      do? name <- json_text fields "name" SMB_NAME_SIZE ;
      do? path <- json_text fields "path" MAX_PATH ;
      do? username <- json_text fields "username" SMB_USER_SIZE ;
      do? password <- json_text fields "password" SMB_PASSWORD_SIZE ;
      do? active <- (match json_field fields "active" with Some (JBool b) => Some b | _ => None end) ;
      do? read_only <- (match json_field fields "read_only" with
                        | None => Some false | Some (JBool b) => Some b | Some _ => None end) ;
      match sm_smb_validate (SmbConnection name path username password active read_only) with
      | Some _ => None
      | None =>
          let sec := lit "smb:" ++ name in
          if bool_decide (is_Some (sm_ini_get config sec (lit "path"))) then None
          else
            run_edits config
              [ESet sec (lit "path") (Some path); ESet sec (lit "username") (Some username);
               ESet sec (lit "password") (Some password); ESet sec (lit "active") (Some (on_off active));
               ESet sec (lit "read_only") (Some (on_off read_only))]
      end
  | _ => None
  end.

Fixpoint import_connections (config : sm_ini_t) (items : list json) : option sm_ini_t :=
  match items with
  | [] => Some config
  | item :: items' => do? config' <- import_connection config item ; import_connections config' items'
  end.

Section migrate.
Context (oracle : nat -> io).
Context (inet_pton : text -> bool).
Context (json_parse : text -> option (json * nat)).

Definition import_json (config : sm_ini_t) (data : text) : option sm_ini_t :=
  match data with
  | [] => Some config
  | _ =>
      match json_parse data with
      | Some (JArray items, end_) =>
          if forallb isspace (drop end_ data) && (length items <=? SM_SMB_CONNECTIONS_MAX)%nat
          then import_connections config items else None
      | _ => None
      end
  end.

Definition ask : M io := fun s => (oracle (ms_tick s), MigState (ms_disk s) (S (ms_tick s)) (ms_trace s)).

Definition peek (f : cfile) : M ini_file := fun s => (ms_disk s f, s).

Definition put (f : cfile) (x : ini_file) : M unit :=
  fun s => let d := set_disk f x (ms_disk s) in (tt, MigState d (ms_tick s) (ms_trace s ++ [d])).

Definition exists_ (f : cfile) : M bool :=
  let* x := peek f in mret (match x with IniMissing => false | _ => true end).

Definition read_bytes (f : cfile) : M (option text) :=
  let* e := ask in let* x := peek f in
  mret (match e with IoOk => file_bytes x | _ => None end).

Definition read_ini (f : cfile) (legacy : bool) : M (option sm_ini_t) :=
  let* e := ask in let* x := peek f in
  mret (match e with IoOk => sm_ini_read x legacy | _ => None end).

(** Replacing a file by a complete new one. *)
Definition replace_file (f : cfile) (c : text) : M bool :=
  let* e := ask in
  match e with
  | IoFail => mret false
  | IoOk => let* _ := put f (IniFile c) in mret true
  | IoLate => let* _ := put f (IniFile c) in mret false
  end.

Definition write_result (e : io) : write_io :=
  match e with IoOk => WriteDone | IoFail => WriteFails | IoLate => SyncFails end.

Definition write_ini (f : cfile) (doc : sm_ini_t) : M bool :=
  let* e := ask in let* old := peek f in
  let '(ok, new) := sm_ini_write (write_result e) (path_of f) old doc in
  let* _ := put f new in mret ok.

Definition sync_parent : M bool := let* e := ask in mret (match e with IoOk => true | _ => false end).

(** [mkdir] and [lstat] of the backup directory, which holds no data of its own. *)
Definition ensure_backup_dir : M bool := let* e := ask in mret (match e with IoOk => true | _ => false end).

Definition copy_backup (f : cfile) : M bool :=
  let* data := read_bytes f in
  match data with None => mret false | Some c => replace_file (backup_of f) c end.

Definition same_file (a b : cfile) : M bool :=
  let* x := read_bytes a in
  match x with
  | None => mret false
  | Some c =>
      let* y := read_bytes b in
      mret (match y with None => false | Some c' => bool_decide (c = c') end)
  end.

(** [unlink]; a file that is not there is no failure. *)
Definition unlink_file (f : cfile) : M bool :=
  let* e := ask in let* x := peek f in
  match e, x with
  | IoOk, IniMissing => mret true
  | IoOk, _ => let* _ := put f IniMissing in mret true
  | _, _ => mret false
  end.

(** ** The migration *)

(** Retiring the old files that are backed up; [ok] survives a failed [unlink]
    of neither. *)
Definition retire_one (f : cfile) (ok : bool) : M bool :=
  let* same := same_file f (backup_of f) in
  if same : bool then (let* u := unlink_file f in mret (ok && u)) else mret ok.

Definition retire_sources : M bool := let* a := retire_one Autotune true in retire_one Smb a.

(** [for (i...; ok && ...) if (!same_file(sources[i], backups[i])) ok = false]. *)
Definition sources_match : M bool :=
  mand (same_file Config BConfig) (mand (same_file Autotune BAutotune) (same_file Smb BSmb)).

Definition is_versioned (current : sm_ini_t) : bool :=
  bool_decide (is_Some (sm_ini_get current (lit "config") (lit "version"))) ||
  existsb (fun l => header l && strcasecmp_eq (section l) (lit "config")) current.

Definition version_doc (doc : sm_ini_t) : option sm_ini_t :=
  sm_ini_set doc (lit "config") (lit "version") (Some (lit "2")).

(** The branch for a configuration that is already of version 2. *)
Definition check_versioned : M bool :=
  let* current := read_ini Config false in
  match current with
  | None => mret false
  | Some c =>
      if negb (sm_ini_version c) then mret false
      else
        let* profiles := read_ini Profiles false in
        match profiles with
        | None => mret false
        | Some p =>
            if negb (bool_decide (p = []) || sm_ini_version p) || negb (validate_documents inet_pton c p) then mret false
            else
              let* present := exists_ Profiles in
              let* ok := (if present : bool then mret true
                          else match version_doc p with None => mret false | Some p' => write_ini Profiles p' end) in
              if negb ok then mret false
              else
                let* ready := exists_ Ready in
                let* ok2 := (if ready : bool then retire_sources else mret true) in
                if negb ok2 then mret false else sync_parent
        end
  end.

(** The two new documents, from the old ones; smb.json is still to come. *)
Definition build_documents (old tuned : sm_ini_t) : option (sm_ini_t * sm_ini_t) :=
  do? config <- version_doc [] ;
  do? profiles <- version_doc [] ;
  do? (config1, profiles1) <- import_rules old config profiles false ;
  import_rules tuned config1 profiles1 true.

Definition import_smb (config : sm_ini_t) : M (option sm_ini_t) :=
  let* data := read_bytes BSmb in
  mret (match data with Some d => import_json config d | None => None end).

(** Publishing: profiles first, config.ini (the version marker) last. *)
Definition publish (config profiles : sm_ini_t) : M bool :=
  let* ok := write_ini Candidate profiles in
  if negb ok then mret false
  else
    let* present := exists_ Profiles in
    let* clash := (if present : bool then (let* same := same_file Candidate Profiles in mret (negb same))
                   else mret false) in
    if clash : bool then mret false
    else
      let* ok2 := mand (write_ini Profiles profiles) (write_ini Config config) in
      if negb ok2 then mret false
      else
        let* ok3 := retire_sources in
        if negb ok3 then mret false else sync_parent.

(** Backing up the sources, or checking the backups of an earlier attempt. *)
Definition secure_backups (marker : sm_ini_t) : M bool :=
  if bool_decide (marker = []) then
    let* present := exists_ Profiles in
    if present : bool then mret false
    else mand (copy_backup Config) (mand (copy_backup Autotune) (copy_backup Smb))
  else if negb (sm_ini_version marker) then mret false
  else sources_match.

(** Writing the marker of complete backups, unless it is there. *)
Definition mark_ready (marker : sm_ini_t) : M bool :=
  if bool_decide (marker = [])
  then match version_doc marker with None => mret false | Some m => write_ini Ready m end
  else mret true.

Definition convert (marker : sm_ini_t) : M bool :=
  let* old := read_ini BConfig true in
  match old with
  | None => mret false
  | Some o =>
      let* tuned := read_ini BAutotune true in
      match tuned with
      | None => mret false
      | Some t =>
          match build_documents o t with
          | None => mret false
          | Some (config0, profiles) =>
              let* imported := import_smb config0 in
              match imported with
              | None => mret false
              | Some config =>
                  if negb (validate_documents inet_pton config profiles) then mret false
                  else
                    let* same := sources_match in
                    if negb same then mret false
                    else
                      let* ok := mark_ready marker in
                      if negb ok then mret false else publish config profiles
              end
          end
      end
  end.

Definition sm_config_migrate_files : M bool :=
  let* current := read_ini Config true in
  match current with
  | None => mret false
  | Some c =>
      if is_versioned c then check_versioned
      else
        let* dir := ensure_backup_dir in
        if negb dir then mret false
        else
          let* marker := read_ini Ready false in
          match marker with
          | None => mret false
          | Some m =>
              let* ok := secure_backups m in
              if negb ok then mret false else convert m
          end
  end.
End migrate.

(** ** What must hold at every moment *)

(** The configuration is known to be of the new version. *)
Definition config_versioned (d : disk) : Prop :=
  exists c, sm_ini_read (d Config) true = Some c /\ is_versioned c = true.

(** The marker says that the backups are complete. *)
Definition ready_set (d : disk) : Prop := sm_ini_read (d Ready) false <> Some [].

(** Nothing will write to the backups any more. *)
Definition protected (d : disk) : Prop := config_versioned d \/ ready_set d.

Definition content (f : cfile) (d : disk) : option text := file_bytes (d f).

(** No old file is lost: it is in place, or its content is in a protected backup. *)
Definition safe (orig : cfile -> option text) (d : disk) : Prop :=
  forall f, f ∈ sources -> content f d = orig f \/ (content (backup_of f) d = orig f /\ protected d).

Lemma set_disk_eq f x d : set_disk f x d f = x.
Proof. unfold set_disk. by rewrite decide_True. Qed.
Lemma set_disk_ne f g x d : g <> f -> set_disk f x d g = d g.
Proof. intros. unfold set_disk. by rewrite decide_False. Qed.

Lemma elem_sources f : f ∈ sources <-> f = Config \/ f = Autotune \/ f = Smb.
Proof. unfold sources. rewrite !elem_of_cons, elem_of_nil. tauto. Qed.

(** ** Triples with an invariant of the trace *)
Section triples.
Context (oracle : nat -> io).
Context (I : disk -> Prop).

Definition triple {A} (P : disk -> Prop) (m : M A) (Q : A -> disk -> Prop) : Prop :=
  forall s, Forall I (ms_trace s) -> P (ms_disk s) ->
    let '(x, s') := m s in Forall I (ms_trace s') /\ Q x (ms_disk s').

Lemma t_ret {A} (P : disk -> Prop) (x : A) (Q : A -> disk -> Prop) : (forall d, P d -> Q x d) -> triple P (mret x) Q.
Proof. intros H s Ht Hp. by split; [|apply H]. Qed.

Lemma t_bind {A B} (P : disk -> Prop) (m : M A) (k : A -> M B) (R : A -> disk -> Prop) Q :
  triple P m R -> (forall x, triple (R x) (k x) Q) -> triple P (mbind_ m k) Q.
Proof.
  intros Hm Hk s Ht Hp. specialize (Hm s Ht Hp). unfold mbind_. destruct (m s) as [x s1]. destruct Hm as [Ht1 Hr].
  by apply Hk.
Qed.

Lemma t_conseq {A} (P P' : disk -> Prop) (m : M A) (Q Q' : A -> disk -> Prop) :
  triple P' m Q' -> (forall d, P d -> P' d) -> (forall x d, Q' x d -> Q x d) -> triple P m Q.
Proof. intros Hm Hp Hq s Ht Hs. specialize (Hm s Ht (Hp _ Hs)). destruct (m s). destruct Hm. by split; [|apply Hq]. Qed.

Lemma t_ask P : triple P (ask oracle) (fun _ d => P d).
Proof. by intros s Ht Hp. Qed.

Lemma t_peek P f : triple P (peek f) (fun x d => P d /\ x = d f).
Proof. by intros s Ht Hp. Qed.

Lemma t_put (P : disk -> Prop) f x Q : (forall d, P d -> I (set_disk f x d) /\ Q tt (set_disk f x d)) -> triple P (put f x) Q.
Proof.
  intros H s Ht Hp. destruct (H _ Hp) as [Hi Hq]. simpl. split; [|done]. apply Forall_app_2; [done|]. by apply Forall_singleton.
Qed.

Lemma t_if {A} (b : bool) (P : disk -> Prop) (m m' : M A) Q :
  (b = true -> triple P m Q) -> (b = false -> triple P m' Q) -> triple P (if b then m else m') Q.
Proof. destruct b; auto. Qed.

(** Reading changes nothing. *)
Lemma t_exists P f : triple P (exists_ f) (fun _ d => P d).
Proof. eapply t_bind; [apply t_peek|]. intros x. apply t_ret. by intros d [? _]. Qed.

Lemma t_read_bytes P f :
  triple P (read_bytes oracle f) (fun x d => P d /\ forall c, x = Some c -> content f d = Some c).
Proof.
  eapply t_bind; [apply t_ask|]. intros e. eapply t_bind; [apply t_peek|]. intros x. apply t_ret.
  intros d [Hp ->]. split; [done|]. by destruct e.
Qed.

Lemma t_read_ini P f legacy :
  triple P (read_ini oracle f legacy) (fun x d => P d /\ forall doc, x = Some doc -> sm_ini_read (d f) legacy = Some doc).
Proof.
  eapply t_bind; [apply t_ask|]. intros e. eapply t_bind; [apply t_peek|]. intros x. apply t_ret.
  intros d [Hp ->]. split; [done|]. by destruct e.
Qed.

Lemma t_read_ini_keep P f legacy : triple P (read_ini oracle f legacy) (fun _ d => P d).
Proof. eapply t_conseq; [apply t_read_ini|intros d Hd; exact Hd|by intros x d [? _]]. Qed.

Lemma t_same_file P a b : triple P (same_file oracle a b) (fun x d => P d /\ (x = true -> content a d = content b d)).
Proof.
  eapply t_bind; [apply t_read_bytes|]. intros [c|]; [|apply t_ret; by intros d [? _]].
  eapply t_bind; [apply t_read_bytes|]. intros y. apply t_ret. intros d [[Hp Ha] Hb]. split; [done|].
  destruct y as [c'|]; [|done]. intros ?%bool_decide_eq_true. subst c'. by rewrite (Ha c), (Hb c).
Qed.

Lemma t_sync P : triple P (sync_parent oracle) (fun _ d => P d).
Proof. eapply t_bind; [apply t_ask|]. intros e. by apply t_ret. Qed.

Lemma t_dir P : triple P (ensure_backup_dir oracle) (fun _ d => P d).
Proof. eapply t_bind; [apply t_ask|]. intros e. by apply t_ret. Qed.

(** Writing one file. *)
Lemma t_replace (P : disk -> Prop) f c (Q : bool -> disk -> Prop) :
  (forall d, P d -> Q false d) -> (forall d b, P d -> I (set_disk f (IniFile c) d) /\ Q b (set_disk f (IniFile c) d)) ->
  triple P (replace_file oracle f c) Q.
Proof.
  intros Hf Hs. eapply t_bind; [apply t_ask|]. intros [].
  - eapply t_bind; [apply (t_put _ _ _ (fun _ => Q true)); intros d Hd; by apply Hs|]. intros []. by apply t_ret.
  - by apply t_ret.
  - eapply t_bind; [apply (t_put _ _ _ (fun _ => Q false)); intros d Hd; by apply Hs|]. intros []. by apply t_ret.
Qed.

Lemma t_write_ini (P : disk -> Prop) f doc (Q : bool -> disk -> Prop) :
  (forall d, P d -> I (set_disk f (d f) d) /\ Q false (set_disk f (d f) d)) ->
  (forall d b c, P d -> print_lines doc = Some c -> I (set_disk f (IniFile c) d) /\ Q b (set_disk f (IniFile c) d)) ->
  triple P (write_ini oracle f doc) Q.
Proof.
  intros Hf Hs. eapply t_bind; [apply t_ask|]. intros e. eapply t_bind; [apply t_peek|]. intros old. unfold sm_ini_write.
  assert (Hold : triple (fun d => P d /\ old = d f) (let* _ := put f old in mret false) Q).
  { eapply t_bind; [apply (t_put _ _ _ (fun _ => Q false)); intros d [Hd ->]; by apply Hf|]. intros []. by apply t_ret. }
  destruct (_ <=? _)%nat; [done|]. destruct (print_lines doc) as [c|] eqn:Hp; [|done].
  destruct (_ <? _); [done|]. destruct e; cbn [write_result]; [|done|].
  - eapply t_bind; [apply (t_put _ _ _ (fun _ => Q true)); intros d [Hd _]; by apply Hs|]. intros []. by apply t_ret.
  - eapply t_bind; [apply (t_put _ _ _ (fun _ => Q false)); intros d [Hd _]; by apply Hs|]. intros []. by apply t_ret.
Qed.

Lemma t_unlink (P : disk -> Prop) f (Q : bool -> disk -> Prop) :
  (forall d b, P d -> Q b d) -> (forall d b, P d -> I (set_disk f IniMissing d) /\ Q b (set_disk f IniMissing d)) ->
  triple P (unlink_file oracle f) Q.
Proof.
  intros Hf Hs. eapply t_bind; [apply t_ask|]. intros e. eapply t_bind; [apply t_peek|]. intros x.
  assert (Hret : forall b, triple (fun d => P d /\ x = d f) (mret b) Q) by (intros b; apply t_ret; intros d [? _]; by apply Hf).
  assert (Hput : triple (fun d => P d /\ x = d f) (let* _ := put f IniMissing in mret true) Q).
  { eapply t_bind; [apply (t_put _ _ _ (fun _ => Q true)); intros d [Hd _]; by apply Hs|]. intros []. by apply t_ret. }
  destruct e, x; done.
Qed.
End triples.

(** ** The steps keep the files safe *)
Section safety.
Context (oracle : nat -> io) (inet_pton : text -> bool) (json_parse : text -> option (json * nat)).
Context (orig : cfile -> option text).

Abbreviation T := (triple (safe orig)).

Definition intact (d : disk) : Prop := forall f, f ∈ sources -> content f d = orig f.
Definition backed (d : disk) : Prop := forall f, f ∈ sources -> content (backup_of f) d = orig f.

(** A file that no predicate looks at. *)
Definition scratch (g : cfile) : Prop := g = Profiles \/ g = Candidate.

Lemma content_ne f g x d : f <> g -> content f (set_disk g x d) = content f d.
Proof. intros. unfold content. by rewrite set_disk_ne. Qed.

Lemma protected_ne g x d : g <> Config -> g <> Ready -> protected d -> protected (set_disk g x d).
Proof. intros H1 H2 Hp. unfold protected, config_versioned, ready_set in *. by rewrite !set_disk_ne by done. Qed.

Lemma scratch_ne g f : scratch g -> f ∈ sources -> f <> g /\ backup_of f <> g.
Proof. by intros [->| ->] [->|[->| ->]]%elem_sources. Qed.

Lemma safe_scratch g x d : scratch g -> safe orig d -> safe orig (set_disk g x d).
Proof.
  intros Hg Hs f Hf. destruct (scratch_ne g f Hg Hf) as [H1 H2]. rewrite !content_ne by done.
  destruct (Hs f Hf) as [?|[? ?]]; [by left|right]. split; [done|]. by apply protected_ne; [destruct Hg as [->| ->]..|].
Qed.

Lemma intact_safe d : intact d -> safe orig d.
Proof. intros Hi f Hf. left. by apply Hi. Qed.

Lemma backed_safe d : backed d -> protected d -> safe orig d.
Proof. intros Hb Hp f Hf. right. by split; [apply Hb|]. Qed.

Lemma unprotected_intact d : safe orig d -> ~ protected d -> intact d.
Proof. intros Hs Hn f Hf. by destruct (Hs f Hf) as [?|[_ ?]]. Qed.

Lemma safe_matching d : safe orig d -> (forall f, f ∈ sources -> content f d = content (backup_of f) d) -> intact d /\ backed d.
Proof.
  intros Hs Hm. split; intros f Hf; destruct (Hs f Hf) as [He|[He _]]; try done; [by rewrite Hm|by rewrite <-Hm].
Qed.

Lemma file_bytes_self x c : file_bytes x = Some c -> file_bytes (IniFile c) = Some c.
Proof.
  destruct x as [| |c']; simpl; [by intros [= <-]|done|]. destruct (_ <? _) eqn:H; [done|]. intros [= <-]. by rewrite H.
Qed.

(** Retiring a file whose backup is the same. *)
Lemma t_retire_one f ok : f = Autotune \/ f = Smb ->
  T (fun d => safe orig d /\ protected d) (retire_one oracle f ok) (fun _ d => safe orig d /\ protected d).
Proof.
  intros Hf. assert (Hne : f <> Config /\ f <> Ready /\ f ∈ sources /\ backup_of f <> f).
  { rewrite elem_sources. destruct Hf as [->| ->]; split_and!; auto. }
  destruct Hne as (H1 & H2 & H3 & H4).
  eapply t_bind; [apply t_same_file|]. intros same. apply t_if; intros ->; [|apply t_ret; by intros d [? _]].
  eapply (t_bind _ _ _ _ (fun _ d => safe orig d /\ protected d)); [|intros u; by apply t_ret].
  apply t_unlink; [by intros d _ [? _]|]. intros d _ [[Hs Hp] Hsame]. specialize (Hsame eq_refl).
  enough (safe orig (set_disk f IniMissing d)) by (split; [done|]; split; [done|]; by apply protected_ne).
  intros g Hg. destruct (decide (g = f)) as [->|Hgf].
  - right. split; [|by apply protected_ne]. rewrite content_ne by done. destruct (Hs f Hg) as [He|[He _]]; [|done]. by rewrite <-Hsame.
  - rewrite !content_ne; [|by destruct Hf as [->| ->], (proj1 (elem_sources g) Hg) as [->|[->| ->]]|done].
    destruct (Hs g Hg) as [?|[? _]]; [by left|right]. split; [done|]. by apply protected_ne.
Qed.

Lemma t_retire : T (fun d => safe orig d /\ protected d) (retire_sources oracle) (fun _ d => safe orig d /\ protected d).
Proof. eapply t_bind; [apply t_retire_one; by left|]. intros a. apply t_retire_one. by right. Qed.

Lemma t_write_scratch g doc (P : disk -> Prop) : scratch g -> (forall x d, P d -> P (set_disk g x d)) ->
  (forall d, P d -> safe orig d) -> T P (write_ini oracle g doc) (fun _ d => P d).
Proof.
  intros Hg Hset Hsafe. apply t_write_ini; intros d; [|intros b c]; intros Hd; [|intros _];
    (split; [apply safe_scratch; [done|by apply Hsafe]|by apply Hset]).
Qed.

(** The branch for version 2. *)
Lemma t_check_versioned : T (fun d => safe orig d /\ protected d) (check_versioned oracle inet_pton) (fun _ d => safe orig d).
Proof.
  assert (Hret : forall b : bool, T (fun d => safe orig d /\ protected d) (mret b) (fun _ d => safe orig d))
    by (intros b; apply t_ret; by intros d [? _]).
  eapply t_bind; [apply t_read_ini_keep|].
  intros [c|]; [|done]. apply t_if; intros _; [done|].
  eapply t_bind; [apply t_read_ini_keep|].
  intros [p|]; [|done]. apply t_if; intros _; [done|]. eapply t_bind; [apply t_exists|]. intros present.
  eapply (t_bind _ _ _ _ (fun _ d => safe orig d /\ protected d)).
  { apply t_if; intros _; [by apply t_ret|]. destruct (version_doc p); [|by apply t_ret]. apply t_write_scratch; [by left| |by intros d [? _]].
    intros x d [Hs Hp]. split; [apply safe_scratch; [by left|done]|by apply protected_ne]. }
  intros ok. apply t_if; intros _; [done|]. eapply t_bind; [apply t_exists|]. intros ready.
  eapply (t_bind _ _ _ _ (fun _ d => safe orig d /\ protected d)); [apply t_if; intros _; [apply t_retire|by apply t_ret]|].
  intros ok2. apply t_if; intros _; [done|]. eapply t_conseq; [apply t_sync|intros d Hd; exact Hd|by intros x d [? _]].
Qed.

(** Copying a source to its backup, with the backups made before. *)
Lemma t_copy f (K : disk -> Prop) : f ∈ sources -> (forall x d, K d -> K (set_disk (backup_of f) x d)) ->
  T (fun d => intact d /\ K d) (copy_backup oracle f)
    (fun b d => intact d /\ (b = true -> K d /\ content (backup_of f) d = orig f)).
Proof.
  intros Hf HK. eapply t_bind; [apply t_read_bytes|]. intros [c|]; [|apply t_ret; by intros d [[? ?] _]].
  assert (Hset : forall x d, intact d -> intact (set_disk (backup_of f) x d)).
  { intros x d Hi g Hg. rewrite content_ne; [by apply Hi|].
    by destruct (proj1 (elem_sources f) Hf) as [->|[->| ->]], (proj1 (elem_sources g) Hg) as [->|[->| ->]]. }
  apply t_replace.
  - by intros d [[? ?] _].
  - intros d b [[Hi Hk] Hc]. pose proof (Hset (IniFile c) d Hi) as Hi'. split; [by apply intact_safe|]. split; [done|]. intros _.
    split; [by apply HK|]. unfold content. rewrite set_disk_eq, <-(Hi f Hf), (Hc c eq_refl).
    by apply (file_bytes_self (d f)), Hc.
Qed.

(** The three copies, or the comparison with the copies of an earlier run. *)
Lemma t_copy_all : T intact (mand (copy_backup oracle Config) (mand (copy_backup oracle Autotune) (copy_backup oracle Smb)))
  (fun b d => intact d /\ (b = true -> backed d)).
Proof.
  assert (HC : Config ∈ sources /\ Autotune ∈ sources /\ Smb ∈ sources) by (rewrite !elem_sources; tauto).
  destruct HC as (HC1 & HC2 & HC3).
  eapply t_bind; [eapply t_conseq; [apply (t_copy Config (fun _ => True)); [done|done]|by intros d Hd|intros x d Hd; exact Hd]|].
  intros []; [|apply t_ret; by intros d [? _]].
  eapply t_bind; [eapply t_conseq; [apply (t_copy Autotune (fun d => content BConfig d = orig Config)); [done|]|
    intros d [? H]; by split; [|apply H]|intros x d Hd; exact Hd]|].
  { intros x d <-. by apply content_ne. }
  intros []; [|apply t_ret; by intros d [? _]].
  eapply t_conseq; [apply (t_copy Smb (fun d => content BConfig d = orig Config /\ content BAutotune d = orig Autotune)); [done|]|
    intros d [? H]; by split; [|apply H]|].
  - intros x d [<- <-]. by rewrite !content_ne.
  - intros x d [Hi Hb]. split; [done|]. intros ->. destruct (Hb eq_refl) as [[H1 H2] H3].
    by intros f [->|[->| ->]]%elem_sources.
Qed.

Lemma t_sources_match (P : disk -> Prop) : T P (sources_match oracle)
  (fun b d => P d /\ (b = true -> forall f, f ∈ sources -> content f d = content (backup_of f) d)).
Proof.
  eapply t_bind; [apply t_same_file|]. intros []; [|apply t_ret; by intros d [? _]].
  eapply t_bind; [apply t_same_file|]. intros []; [|apply t_ret; by intros d [[? _] _]].
  eapply t_conseq; [apply t_same_file|intros d Hd; exact Hd|]. intros b d [[[Hp H1] H2] H3]. split; [done|]. intros ->.
  intros f [->|[->| ->]]%elem_sources; [by apply H1|by apply H2|by apply H3].
Qed.

(** What [secure_backups] establishes. *)
Definition secured (marker : sm_ini_t) (d : disk) : Prop := intact d /\ backed d /\ (marker <> [] -> ready_set d).

Lemma t_secure marker :
  T (fun d => safe orig d /\ ~ config_versioned d /\ sm_ini_read (d Ready) false = Some marker)
    (secure_backups oracle marker) (fun b d => safe orig d /\ (b = true -> secured marker d)).
Proof.
  unfold secure_backups. case_bool_decide as Hm.
  - subst marker. eapply (t_bind _ _ _ _ (fun _ => intact)).
    { eapply t_conseq; [apply (t_exists _ intact)| |by intros x d Hd]. intros d (Hs & Hv & Hr). apply unprotected_intact; [done|].
      intros [?|Hset]; [done|]. by apply Hset. }
    intros []; [apply t_ret; intros d Hi; by split; [apply intact_safe|]|].
    eapply t_conseq; [apply t_copy_all|by intros d Hd|]. intros b d [Hi Hb]. split; [by apply intact_safe|]. intros ->.
    by split_and!; [|apply Hb|].
  - apply t_if; intros _; [apply t_ret; by intros d (? & _)|].
    eapply t_conseq; [apply t_sources_match|intros d Hd; exact Hd|]. intros b d [(Hs & _ & Hr) Hsame]. split; [done|]. intros ->.
    destruct (safe_matching d Hs (Hsame eq_refl)) as [Hi Hb]. split_and!; [done|done|]. intros _. unfold ready_set. rewrite Hr. congruence.
Qed.

(** The marker, once written, is seen. *)
Lemma ready_written doc c : version_doc [] = Some doc -> print_lines doc = Some c -> sm_ini_read (IniFile c) false <> Some [].
Proof.
  intros Hd. vm_compute in Hd. injection Hd as <-. intros Hc. vm_compute in Hc. injection Hc as <-. vm_compute. congruence.
Qed.

Lemma secured_keep g x d : g <> Config -> g <> Autotune -> g <> Smb -> g <> BConfig -> g <> BAutotune -> g <> BSmb ->
  intact d /\ backed d -> intact (set_disk g x d) /\ backed (set_disk g x d).
Proof.
  intros H1 H2 H3 H4 H5 H6 [Hi Hb]. split; intros f Hf; rewrite content_ne; try (by apply Hi); try (by apply Hb);
    by destruct (proj1 (elem_sources f) Hf) as [->|[->| ->]].
Qed.

Lemma t_mark marker : T (secured marker) (mark_ready oracle marker)
  (fun b d => safe orig d /\ (b = true -> intact d /\ backed d /\ ready_set d)).
Proof.
  unfold mark_ready. case_bool_decide as Hm; [|apply t_ret; intros d (Hi & Hb & Hr); split; [by apply intact_safe|]; intros _; split_and!; [done|done|by apply Hr]].
  subst marker. destruct (version_doc []) as [m|] eqn:Hv; [|apply t_ret; intros d (Hi & _); by split; [apply intact_safe|]].
  apply t_write_ini.
  - intros d (Hi & Hb & _). destruct (secured_keep Ready (d Ready) d) as [Hi' _]; [done..|]. by split; [|split]; try apply intact_safe.
  - intros d b c (Hi & Hb & _) Hc. destruct (secured_keep Ready (IniFile c) d) as [Hi' Hb']; [done..|].
    split; [by apply intact_safe|]. split; [by apply intact_safe|]. intros _. split_and!; [done|done|].
    unfold ready_set. rewrite set_disk_eq. by apply (ready_written m).
Qed.

Lemma ready_keep g x d : g <> Ready -> ready_set d -> ready_set (set_disk g x d).
Proof. intros Hg. unfold ready_set. by rewrite set_disk_ne. Qed.

Lemma backed_keep g x d : (forall f, f ∈ sources -> backup_of f <> g) -> backed d -> backed (set_disk g x d).
Proof. intros Hg Hb f Hf. rewrite content_ne by (by apply Hg). by apply Hb. Qed.

Lemma t_publish config profiles :
  T (fun d => intact d /\ backed d /\ ready_set d) (publish oracle config profiles) (fun _ d => safe orig d).
Proof.
  set (P := fun d => backed d /\ ready_set d).
  assert (HP : forall d, P d -> safe orig d) by (intros d [Hb Hr]; apply backed_safe; [done|by right]).
  assert (Hscratch : forall g, scratch g -> forall x d, P d -> P (set_disk g x d)).
  { intros g Hg x d [Hb Hr]. split; [apply backed_keep; [|done]|apply ready_keep; [|done]].
    - intros f Hf. by apply (scratch_ne g f Hg Hf).
    - by destruct Hg as [->| ->]. }
  assert (Hret : forall b : bool, T P (mret b) (fun _ d => safe orig d)) by (intros b; by apply t_ret).
  eapply (t_bind _ _ _ _ (fun _ => P)).
  { eapply t_conseq; [apply (t_write_scratch Candidate profiles P); [by right|apply Hscratch; by right|done]| |done]. by intros d (_ & ? & ?). }
  intros ok. apply t_if; intros _; [done|]. eapply t_bind; [apply t_exists|]. intros present.
  eapply (t_bind _ _ _ _ (fun _ => P)).
  { apply t_if; intros _; [|by apply t_ret]. eapply t_bind; [apply t_same_file|]. intros same. apply t_ret. by intros d [? _]. }
  intros clash. apply t_if; intros _; [done|].
  eapply (t_bind _ _ _ _ (fun _ => P)).
  { eapply (t_bind _ _ _ _ (fun _ => P)); [apply t_write_scratch; [by left|apply Hscratch; by left|done]|].
    intros []; [|by apply t_ret].
    assert (Hc : forall x d, P d -> P (set_disk Config x d)).
    { intros x d [Hb Hr]. split; [apply backed_keep; [|done]; by intros f [->|[->| ->]]%elem_sources|by apply ready_keep]. }
    apply t_write_ini; intros d; [|intros b c]; intros Hd; [|intros _]; (split; [by apply HP, Hc|by apply Hc]). }
  intros ok2. apply t_if; intros _; [done|].
  eapply t_bind; [eapply t_conseq; [apply t_retire| |intros x d Hd; exact Hd]|].
  { intros d Hd. split; [by apply HP|]. right. by destruct Hd. }
  intros ok3. apply t_if; intros _; [apply t_ret; by intros d [? _]|].
  eapply t_conseq; [apply t_sync|intros d Hd; exact Hd|by intros x d [? _]].
Qed.

Lemma t_convert marker :
  T (fun d => secured marker d) (convert oracle inet_pton json_parse marker) (fun _ d => safe orig d).
Proof.
  assert (Hret : forall b : bool, T (fun d => secured marker d) (mret b) (fun _ d => safe orig d)).
  { intros b. apply t_ret. intros d (Hi & _). by apply intact_safe. }
  eapply t_bind; [apply t_read_ini_keep|]. intros [o|]; [|done].
  eapply t_bind; [apply t_read_ini_keep|]. intros [t|]; [|done].
  destruct (build_documents o t) as [[config0 profiles]|]; [|done].
  eapply (t_bind _ _ _ _ (fun _ => secured marker)).
  { eapply t_bind; [apply t_read_bytes|]. intros data. apply t_ret. by intros d [? _]. }
  intros [config|]; [|done]. apply t_if; intros _; [done|].
  eapply (t_bind _ _ _ _ (fun _ => secured marker)).
  { eapply t_conseq; [apply t_sources_match|intros d Hd; exact Hd|by intros x d [? _]]. }
  intros same. apply t_if; intros _; [done|].
  eapply t_bind; [apply t_mark|]. intros []; [|apply t_ret; by intros d [? _]].
  eapply t_conseq; [apply t_publish| |done]. intros d [_ H]. by apply H.
Qed.

Lemma t_migrate : T (safe orig) (sm_config_migrate_files oracle inet_pton json_parse) (fun _ d => safe orig d).
Proof.
  eapply t_bind; [apply t_read_ini|]. intros [c|]; [|apply t_ret; by intros d [? _]]. apply t_if; intros Hv.
  - eapply t_conseq; [apply t_check_versioned| |done]. intros d [Hs Hr]. split; [done|]. left. exists c. by split; [apply Hr|].
  - eapply (t_bind _ _ _ _ (fun _ d => safe orig d /\ ~ config_versioned d)).
    { eapply t_conseq; [apply t_dir|intros d Hd; exact Hd|]. intros b d [Hs Hr]. split; [done|]. intros (c' & Hc' & Hv').
      rewrite (Hr c eq_refl) in Hc'. injection Hc' as <-. congruence. }
    intros []; cbn [negb]; [|apply t_ret; by intros d [? _]].
    eapply t_bind; [apply t_read_ini|]. intros [m|]; [|apply t_ret; by intros d [[? _] _]].
    eapply t_bind; [eapply t_conseq; [apply t_secure| |intros x d Hd; exact Hd]|].
    { intros d [[Hs Hn] Hr]. split_and!; [done|done|]. by apply Hr. }
    intros []; cbn [negb]; [|apply t_ret; by intros d [? _]].
    eapply t_conseq; [apply t_convert| |done]. intros d [_ H]. by apply H.
Qed.
End safety.

(** ** Boots *)

(** A boot runs the migration; the power may fail at any moment, which leaves the disk
    as it was then, and any file operation may fail. *)
Inductive reachable (inet_pton : text -> bool) (json_parse : text -> option (json * nat)) (d0 : disk) : disk -> Prop :=
| reach_start : reachable inet_pton json_parse d0 d0
| reach_boot oracle d d' : reachable inet_pton json_parse d0 d ->
    d' ∈ d :: ms_trace (sm_config_migrate_files oracle inet_pton json_parse (MigState d 0 [])).2 ->
    reachable inet_pton json_parse d0 d'.

(** What holds of every moment of a boot. *)
Lemma triple_trace {A} I (P : disk -> Prop) (m : M A) Q d d' : triple I P m Q -> I d -> P d ->
  d' ∈ d :: ms_trace (m (MigState d 0 [])).2 -> I d'.
Proof.
  intros Hm Hi Hp Hd. specialize (Hm (MigState d 0 []) (Forall_nil_2 _) Hp). destruct (m _) as [x s]. destruct Hm as [Ht _].
  apply elem_of_cons in Hd as [->|Hd]; [done|]. rewrite Forall_forall in Ht. by apply Ht.
Qed.

Lemma last_elem {A} (l : list A) x : default x (last l) ∈ x :: l.
Proof. destruct (last l) as [y|] eqn:Hl; simpl; [right; apply last_Some in Hl as [l' ->]; set_solver|left]. Qed.

(** Claim C5: the migration of the configuration never loses a file, whatever
    fails and whenever the power goes.  After any number of interrupted, failed or
    completed boots from any disk, each of config.ini, autotune.ini and smb.json
    still has its content in place, or its content is in the backup and the backup
    is protected: the marker of complete backups is set or config.ini is known to be of
    the new version, and in neither case does the program write to the backups
    again. *)
Theorem migration_never_loses_files inet_pton json_parse d0 d f :
  reachable inet_pton json_parse d0 d -> f ∈ sources ->
  content f d = content f d0 \/ (content (backup_of f) d = content f d0 /\ protected d).
Proof.
  intros Hr. revert f. change (safe (fun f => content f d0) d).
  induction Hr as [|oracle d d' _ IH Hd]; [intros f _; by left|].
  by eapply triple_trace; [apply t_migrate|exact IH|exact IH|exact Hd].
Qed.

(** An old configuration without SMB connections, and a boot without faults. *)
Definition demo_disk : disk := fun f =>
  match f with
  | Config => IniFile (lit "debug=on" ++ [newline])
  | Autotune => IniFile (lit "image_sector=a.exfat:4096" ++ [newline])
  | _ => IniMissing
  end.

Definition no_faults : nat -> io := fun _ => IoOk.

Definition demo_migrated : disk :=
  default demo_disk (last (ms_trace (sm_config_migrate_files no_faults (fun _ => true) (fun _ => None) (MigState demo_disk 0 [])).2)).

Lemma migration_never_loses_files_witness :
  demo_migrated Autotune = IniMissing /\ content BAutotune demo_migrated = content Autotune demo_disk /\
  (content Autotune demo_migrated = content Autotune demo_disk \/
   (content (backup_of Autotune) demo_migrated = content Autotune demo_disk /\ protected demo_migrated)).
Proof.
  split; [by vm_compute|]. split; [by vm_compute|].
  apply (migration_never_loses_files (fun _ => true) (fun _ => None)).
  - eapply reach_boot; [apply reach_start|apply last_elem].
  - apply elem_sources. right. by left.
Defined.
