(* ===== verification/ConfigRecover.v ===== *)
(** * The migration always finishes (src/sm_config_file.c)

    Where interrupted boots can leave the disk, as three phases, and that a boot
    without faults finishes the migration from each of them. *)
From stdpp Require Import list.
From S2P Require Import Prelude CString IniFile SmbAddress ConfigState ConfigStore ConfigEffect ConfigMigrate.
Open Scope Z_scope.
Open Scope c_scope.

(** ** Runs without faults *)
Definition runs {A} (m : M A) (d : disk) (x : A) (d' : disk) : Prop :=
  forall s, ms_disk s = d -> exists s', m s = (x, s') /\ ms_disk s' = d'.

Lemma runs_ret {A} (x : A) d : runs (mret x) d x d.
Proof. intros s Hs. by exists s. Qed.

Lemma runs_bind {A B} (m : M A) (k : A -> M B) d x d' y d'' : runs m d x d' -> runs (k x) d' y d'' -> runs (mbind_ m k) d y d''.
Proof. intros Hm Hk s Hs. destruct (Hm s Hs) as (s1 & He & Hs1). unfold mbind_. rewrite He. by apply Hk. Qed.

Lemma runs_exists f d : runs (exists_ f) d (match d f with IniMissing => false | _ => true end) d.
Proof. intros s <-. by exists s. Qed.

Lemma runs_read_bytes f d : runs (read_bytes no_faults f) d (content f d) d.
Proof. intros s <-. by eexists. Qed.

Lemma runs_read_ini f legacy d : runs (read_ini no_faults f legacy) d (sm_ini_read (d f) legacy) d.
Proof. intros s <-. by eexists. Qed.

Lemma runs_sync d : runs (sync_parent no_faults) d true d.
Proof. intros s <-. by eexists. Qed.

Lemma runs_dir d : runs (ensure_backup_dir no_faults) d true d.
Proof. intros s <-. by eexists. Qed.

Lemma runs_copy f c d : content f d = Some c -> runs (copy_backup no_faults f) d true (set_disk (backup_of f) (IniFile c) d).
Proof. intros Hc. eapply runs_bind; [apply runs_read_bytes|]. rewrite Hc. intros s <-. by eexists. Qed.

Lemma runs_same a b c d : content a d = Some c -> content b d = Some c -> runs (same_file no_faults a b) d true d.
Proof.
  intros Ha Hb. eapply runs_bind; [apply runs_read_bytes|]. rewrite Ha. eapply runs_bind; [apply runs_read_bytes|].
  rewrite Hb, bool_decide_true by done. apply runs_ret.
Qed.

Lemma runs_write f doc c d : print_lines doc = Some c -> file_bytes (IniFile c) = Some c ->
  runs (write_ini no_faults f doc) d true (set_disk f (IniFile c) d).
Proof.
  intros Hp Hf s <-. assert (Hl : Z.of_nat (length c) <= INI_MAX_BYTES).
  { simpl in Hf. destruct (Z.ltb_spec INI_MAX_BYTES (Z.of_nat (length c))); [done|lia]. }
  unfold write_ini, mbind_, ask, peek, sm_ini_write. simpl fst. cbn [ms_disk].
  assert (Hpath : (MAX_PATH <=? strlen (path_of f) + 7)%nat = false) by (by destruct f). rewrite Hpath, Hp.
  destruct (Z.ltb_spec INI_MAX_BYTES (Z.of_nat (length c))); [lia|]. cbn [write_result no_faults]. by eexists.
Qed.

Lemma runs_unlink f d : runs (unlink_file no_faults f) d true
  (match d f with IniMissing => d | _ => set_disk f IniMissing d end).
Proof. intros s <-. unfold unlink_file, mbind_, ask, peek. simpl. destruct (ms_disk s f) eqn:Hf; by eexists. Qed.

(** The marker file. *)
Definition marker_text : text := default [] (do? m <- version_doc [] ; print_lines m).

Lemma marker_written : exists m, version_doc [] = Some m /\ print_lines m = Some marker_text.
Proof. eexists. split; vm_compute; reflexivity. Qed.

Lemma marker_read : exists m, sm_ini_read (IniFile marker_text) false = Some m /\ m <> [] /\ sm_ini_version m = true.
Proof. eexists. split; [vm_compute; reflexivity|]. split; [done|vm_compute; reflexivity]. Qed.

Lemma read_content x legacy : sm_ini_read x legacy = match file_bytes x with Some c => read_lines legacy [] (split_lines c) [] | None => None end.
Proof. destruct x as [| |c]; simpl; [done|done|]. by destruct (_ <? _). Qed.

Lemma read_backup x c legacy : file_bytes x = Some c -> sm_ini_read (IniFile c) legacy = sm_ini_read x legacy.
Proof. intros Hc. rewrite !read_content, Hc. by rewrite (file_bytes_self x). Qed.

(** ** Phases *)
Section recover.
Context (inet_pton : text -> bool) (json_parse : text -> option (json * nat)).
Context (c a j : text) (config profiles : sm_ini_t) (tc tp : text).

(** The old files [c], [a] and [j] can be migrated: they become the documents
    [config] and [profiles], which are printed as [tc] and [tp], and the program can read
    what it prints. *)
Record migratable : Prop := Migratable {
  mg_documents : exists o t config0, read_lines true [] (split_lines c) [] = Some o /\ is_versioned o = false /\
    read_lines true [] (split_lines a) [] = Some t /\ build_documents o t = Some (config0, profiles) /\
    import_json json_parse config0 j = Some config;
  mg_valid : validate_documents inet_pton config profiles = true;
  mg_config : print_lines config = Some tc /\ file_bytes (IniFile tc) = Some tc;
  mg_profiles : print_lines profiles = Some tp /\ file_bytes (IniFile tp) = Some tp;
  mg_again : exists c1 c2 p2, sm_ini_read (IniFile tc) true = Some c1 /\ is_versioned c1 = true /\
    sm_ini_read (IniFile tc) false = Some c2 /\ sm_ini_version c2 = true /\
    sm_ini_read (IniFile tp) false = Some p2 /\ sm_ini_version p2 = true /\ validate_documents inet_pton c2 p2 = true;
}.

Definition old_files (d : disk) : Prop := content Config d = Some c /\ content Autotune d = Some a /\ content Smb d = Some j.
Definition backups (d : disk) : Prop := content BConfig d = Some c /\ content BAutotune d = Some a /\ content BSmb d = Some j.
Definition retired (f : cfile) (x : text) (d : disk) : Prop := d f = IniMissing \/ content f d = Some x.

(** Before the marker, between the marker and the new config.ini, after it. *)
Definition phase_a (d : disk) : Prop := old_files d /\ d Ready = IniMissing /\ d Profiles = IniMissing.
Definition phase_b (d : disk) : Prop := old_files d /\ backups d /\ d Ready = IniFile marker_text /\
  (d Profiles = IniMissing \/ d Profiles = IniFile tp).
Definition phase_c (d : disk) : Prop := d Config = IniFile tc /\ d Profiles = IniFile tp /\ d Ready = IniFile marker_text /\
  backups d /\ retired Autotune a d /\ retired Smb j d.
Definition phase (d : disk) : Prop := phase_a d \/ phase_b d \/ phase_c d.

(** The migration is complete. *)
Definition migrated (d : disk) : Prop := d Config = IniFile tc /\ d Profiles = IniFile tp /\
  d Autotune = IniMissing /\ d Smb = IniMissing /\ backups d.

Ltac disk_simpl := unfold phase_a, phase_b, phase_c, old_files, backups, retired, content in *;
  repeat first [rewrite set_disk_eq | rewrite set_disk_ne by done].
(** *** Every boot stays within the phases *)
Section steps.
Context (oracle : nat -> io) (Hm : migratable).

Abbreviation T := (triple phase).

Lemma t_exists_val P f : T P (exists_ f) (fun b d => P d /\ (b = false -> d f = IniMissing)).
Proof. eapply t_bind; [apply t_peek|]. intros x. apply t_ret. intros d [? ->]. split; [done|]. by destruct (d f). Qed.

Lemma t_copy_a f x (K : disk -> Prop) : f ∈ sources -> (forall d, phase_a d -> content f d = Some x) ->
  (forall y d, K d -> K (set_disk (backup_of f) y d)) ->
  T (fun d => phase_a d /\ K d) (copy_backup oracle f)
    (fun b d => phase_a d /\ (b = true -> K d /\ content (backup_of f) d = Some x)).
Proof.
  intros Hf Hx HK. eapply t_bind; [apply t_read_bytes|]. intros [y|]; [|apply t_ret; by intros d [[? ?] _]].
  apply t_replace; [by intros d [[? ?] _]|]. intros d b [[Ha Hk] Hc].
  assert (Ha' : phase_a (set_disk (backup_of f) (IniFile y) d)).
  { revert Ha. by destruct (proj1 (elem_sources f) Hf) as [->|[->| ->]]; disk_simpl. }
  split; [by left|]. split; [done|]. intros _. split; [by apply HK|]. specialize (Hc y eq_refl). rewrite (Hx d Ha) in Hc.
  injection Hc as <-. unfold content. rewrite set_disk_eq. by apply (file_bytes_self (d f)), Hx.
Qed.

Lemma t_secure_a : T phase_a (secure_backups oracle []) (fun b d => phase_a d /\ (b = true -> backups d)).
Proof.
  assert (HC : Config ∈ sources /\ Autotune ∈ sources /\ Smb ∈ sources) by (rewrite !elem_sources; tauto).
  destruct HC as (HC1 & HC2 & HC3). unfold secure_backups. rewrite bool_decide_true by done.
  eapply t_bind; [apply t_exists|]. intros present. apply t_if; intros _; [by apply t_ret|].
  eapply t_bind; [eapply t_conseq; [apply (t_copy_a Config c (fun _ => True)); [done|by intros d [(? & _) _]|done]|by intros d Hd|intros x d Hd; exact Hd]|].
  intros []; [|apply t_ret; by intros d [? _]].
  eapply t_bind; [eapply t_conseq; [apply (t_copy_a Autotune a (fun d => content BConfig d = Some c)); [done|by intros d [(_ & ? & _) _]|]|
    intros d [? H]; by split; [|apply H]|intros x d Hd; exact Hd]|].
  { intros y d <-. by apply content_ne. }
  intros []; [|apply t_ret; by intros d [? _]].
  eapply t_conseq; [apply (t_copy_a Smb j (fun d => content BConfig d = Some c /\ content BAutotune d = Some a));
    [done|by intros d [(_ & _ & ?) _]|]|intros d [? H]; by split; [|apply H]|].
  - intros y d [<- <-]. by rewrite !content_ne.
  - intros x d [Hi Hb]. split; [done|]. intros ->. by destruct (Hb eq_refl) as [[H1 H2] H3].
Qed.

(** A write that keeps the phase. *)
Lemma t_write_keep f doc t (P : disk -> Prop) : print_lines doc = Some t -> (forall d, P d -> phase d) ->
  (forall d, P d -> P (set_disk f (d f) d)) -> (forall d, P d -> P (set_disk f (IniFile t) d)) ->
  T P (write_ini oracle f doc) (fun b d => P d).
Proof.
  intros Ht HP H1 H2. apply t_write_ini; intros d; [|intros b t']; intros Hd; [|intros He; rewrite Ht in He; injection He as <-];
    split; auto.
Qed.

Lemma t_retire_c f x ok : (f = Autotune /\ x = a) \/ (f = Smb /\ x = j) ->
  T phase_c (retire_one oracle f ok) (fun _ => phase_c).
Proof.
  intros Hf. eapply t_bind; [apply t_same_file|]. intros same. apply t_if; intros ->; [|apply t_ret; by intros d [? _]].
  eapply (t_bind _ _ _ _ (fun _ => phase_c)); [|intros u; by apply t_ret].
  apply t_unlink; [by intros d _ [? _]|]. intros d _ [Hc _].
  assert (phase_c (set_disk f IniMissing d)); [|by split; [right; right|]].
  revert Hc. destruct Hf as [[-> _]|[-> _]]; disk_simpl; tauto.
Qed.

Lemma t_retire_all : T phase_c (retire_sources oracle) (fun _ => phase_c).
Proof. eapply t_bind; [apply (t_retire_c Autotune a); by left|]. intros b. apply (t_retire_c Smb j). by right. Qed.
(** Reads give what the phase says, or fail. *)
Lemma t_read_bind {A} (P : disk -> Prop) f legacy x (k : option sm_ini_t -> M A) Q :
  (forall d, P d -> sm_ini_read (d f) legacy = Some x) -> T P (k None) Q -> T P (k (Some x)) Q ->
  T P (mbind_ (read_ini oracle f legacy) k) Q.
Proof.
  intros HP Hn Hs. eapply t_bind; [apply t_read_ini|]. intros [y|].
  - intros s Ht [Hd Hr]. specialize (Hr y eq_refl). rewrite (HP _ Hd) in Hr. injection Hr as <-. by apply Hs.
  - eapply t_conseq; [exact Hn|by intros d [? _]|done].
Qed.

Lemma t_bytes_bind {A} (P : disk -> Prop) f x (k : option text -> M A) Q :
  (forall d, P d -> content f d = Some x) -> T P (k None) Q -> T P (k (Some x)) Q ->
  T P (mbind_ (read_bytes oracle f) k) Q.
Proof.
  intros HP Hn Hs. eapply t_bind; [apply t_read_bytes|]. intros [y|].
  - intros s Ht [Hd Hr]. specialize (Hr y eq_refl). rewrite (HP _ Hd) in Hr. injection Hr as <-. by apply Hs.
  - eapply t_conseq; [exact Hn|by intros d [? _]|done].
Qed.

Lemma t_publish_b : T phase_b (publish oracle config profiles) (fun _ => phase).
Proof.
  destruct (mg_config Hm) as [Hpc _], (mg_profiles Hm) as [Hpp _].
  assert (HB : forall d, phase_b d -> phase d) by (intros; right; by left).
  assert (Hret : forall b : bool, T phase_b (mret b) (fun _ => phase)) by (intros b; by apply t_ret).
  eapply t_bind; [eapply (t_write_keep Candidate); [done|done|..]; intros d; by disk_simpl|].
  intros ok. apply t_if; intros _; [done|]. eapply t_bind; [apply t_exists|]. intros present.
  eapply (t_bind _ _ _ _ (fun _ => phase_b)).
  { apply t_if; intros _; [|by apply t_ret]. eapply t_bind; [apply t_same_file|]. intros same. apply t_ret. by intros d [? _]. }
  intros clash. apply t_if; intros _; [done|].
  eapply (t_bind _ _ _ _ (fun b d => phase d /\ (b = true -> phase_c d))).
  { eapply (t_bind _ _ _ _ (fun b d => phase_b d /\ (b = true -> d Profiles = IniFile tp))).
    { apply t_write_ini; intros d; [|intros b t]; intros Hd; [|rewrite Hpp; intros [= <-]].
      - assert (phase_b (set_disk Profiles (d Profiles) d)) by (revert Hd; by disk_simpl). split; [by apply HB|done].
      - assert (phase_b (set_disk Profiles (IniFile tp) d)) by (revert Hd; disk_simpl; tauto).
        split; [by apply HB|]. split; [done|]. by rewrite set_disk_eq. }
    intros []; [|apply t_ret; intros d [Hd _]; by split; [apply HB|]].
    apply t_write_ini; intros d; [|intros b t]; intros [Hd Hp]; [|rewrite Hpc; intros [= <-]].
    - assert (phase_b (set_disk Config (d Config) d)) by (revert Hd; by disk_simpl). by split; [apply HB|split; [apply HB|]].
    - assert (phase_c (set_disk Config (IniFile tc) d)) by (revert Hd Hp; disk_simpl; tauto).
      split; [by right; right|]. split; [by right; right|done]. }
  intros []; cbn [negb]; [|apply t_ret; by intros d [? _]].
  eapply (t_bind _ _ _ _ (fun _ => phase_c)); [eapply t_conseq; [apply t_retire_all|intros d [_ H]; by apply H|done]|].
  intros ok3. apply t_if; intros _; [apply t_ret; intros d Hd; by right; right|].
  eapply t_conseq; [apply t_sync|intros d Hd; exact Hd|intros x d Hd; by right; right].
Qed.

Lemma t_sources_same (P : disk -> Prop) : T P (sources_match oracle) (fun _ => P).
Proof.
  assert (Hs : forall x y, T P (same_file oracle x y) (fun _ => P)).
  { intros x y. eapply t_conseq; [apply t_same_file|intros d Hd; exact Hd|by intros r d [? _]]. }
  eapply t_bind; [apply Hs|]. intros []; [|by apply t_ret]. eapply t_bind; [apply Hs|]. intros []; [apply Hs|by apply t_ret].
Qed.

(** With the backups made. *)
Definition backed_up (marker : sm_ini_t) (d : disk) : Prop :=
  (marker = [] /\ phase_a d /\ backups d) \/ (marker <> [] /\ phase_b d).

Lemma backed_up_phase marker d : backed_up marker d -> phase d /\ backups d.
Proof. intros [(_ & H & Hb)|[_ H]]; (split; [|by apply H || done]); [by left|by right; left]. Qed.

Lemma t_mark_b marker : T (backed_up marker) (mark_ready oracle marker) (fun b d => phase d /\ (b = true -> phase_b d)).
Proof.
  unfold mark_ready. case_bool_decide as Hmk.
  - destruct marker_written as (m & Hv & Hp). subst marker. rewrite Hv.
    apply t_write_ini; intros d; [|intros b t]; intros [(_ & Ha & Hb)|[? _]]; try done; [|rewrite Hp; intros [= <-]].
    + assert (phase_a (set_disk Ready (d Ready) d)) by (revert Ha; by disk_simpl). by split; [left|split; [left|]].
    + assert (phase_b (set_disk Ready (IniFile marker_text) d)) by (revert Ha Hb; disk_simpl; tauto).
      by split; [right; left|split; [right; left|]].
  - apply t_ret. intros d [[? _]|[_ Hd]]; [done|]. by split; [right; left|].
Qed.

Lemma t_convert_phase marker : T (backed_up marker) (convert oracle inet_pton json_parse marker) (fun _ => phase).
Proof.
  destruct (mg_documents Hm) as (o & t & config0 & Ho & _ & Ht & Hbuild & Himp).
  assert (Hret : forall b : bool, T (backed_up marker) (mret b) (fun _ => phase)).
  { intros b. apply t_ret. intros d Hd. by apply (backed_up_phase marker). }
  apply (t_read_bind _ BConfig true o); [|done|].
  { intros d Hd. apply backed_up_phase in Hd as [_ (Hb & _)]. unfold content in Hb. by rewrite read_content, Hb. }
  apply (t_read_bind _ BAutotune true t); [|done|].
  { intros d Hd. apply backed_up_phase in Hd as [_ (_ & Hb & _)]. unfold content in Hb. by rewrite read_content, Hb. }
  rewrite Hbuild.
  eapply (t_bind _ _ _ _ (fun r d => backed_up marker d /\ (r = None \/ r = Some config))).
  { apply (t_bytes_bind _ BSmb j); [|apply t_ret; by auto|apply t_ret; intros d Hd; split; [done|right; exact Himp]].
    intros d Hd. by apply backed_up_phase in Hd as [_ (_ & _ & Hb)]. }
  intros [cfg|]; [|apply t_ret; intros d [Hd _]; by apply (backed_up_phase marker)].
  intros s Hs [Hd [?|[= ->]]]; [done|]. revert s Hs Hd. apply (t_if _ _ (backed_up marker)); intros _; [done|].
  eapply t_bind; [eapply t_conseq; [apply t_sources_same|intros d Hd; exact Hd|intros x d Hd; exact Hd]|].
  intros same. apply t_if; intros _; [done|].
  eapply t_bind; [apply t_mark_b|]. intros []; cbn [negb]; [|apply t_ret; by intros d [? _]].
  eapply t_conseq; [apply t_publish_b|intros d [_ H]; by apply H|done].
Qed.

Lemma t_check_c : T phase_c (check_versioned oracle inet_pton) (fun _ => phase).
Proof.
  destruct (mg_again Hm) as (c1 & c2 & p2 & _ & _ & Hc2 & Hv2 & Hp2 & Hvp & Hval).
  assert (Hret : forall b : bool, T phase_c (mret b) (fun _ => phase)) by (intros b; apply t_ret; intros d Hd; by right; right).
  apply (t_read_bind _ Config false c2); [by intros d (-> & _)|done|]. rewrite Hv2. cbn [negb].
  apply (t_read_bind _ Profiles false p2); [by intros d (_ & -> & _)|done|]. rewrite Hvp, Hval, orb_true_r. cbn [negb orb].
  eapply t_bind; [apply t_exists_val|]. intros [].
  - eapply (t_bind _ _ _ _ (fun _ => phase_c)); [apply t_ret; by intros d [? _]|]. intros ok. apply t_if; intros _; [done|].
    eapply t_bind; [apply t_exists|]. intros ready.
    eapply (t_bind _ _ _ _ (fun _ => phase_c)); [apply t_if; intros _; [apply t_retire_all|by apply t_ret]|].
    intros ok2. apply t_if; intros _; [done|]. eapply t_conseq; [apply t_sync|intros d Hd; exact Hd|intros x d Hd; by right; right].
  - intros s _ [(_ & Hp & _) He]. rewrite He in Hp by done. done.
Qed.

Lemma t_boot_phase : T phase (sm_config_migrate_files oracle inet_pton json_parse) (fun _ => phase).
Proof.
  destruct (mg_documents Hm) as (o & _ & _ & Ho & Hvo & _). destruct (mg_again Hm) as (c1 & _ & _ & Hc1 & Hvc & _).
  destruct marker_read as (m & Hmr & Hmne & _).
  assert (Hold : forall d, old_files d -> sm_ini_read (d Config) true = Some o).
  { intros d (Hc & _). unfold content in Hc. by rewrite read_content, Hc. }
  intros s Hs [Ha|[Hb|Hc]].
  - revert s Hs Ha. change (T phase_a (sm_config_migrate_files oracle inet_pton json_parse) (fun _ => phase)).
    assert (Hret : forall b : bool, T phase_a (mret b) (fun _ => phase)) by (intros b; apply t_ret; intros d Hd; by left).
    apply (t_read_bind _ Config true o); [by intros d [? _]; apply Hold|done|]. rewrite Hvo.
    eapply t_bind; [apply t_dir|]. intros ok. apply t_if; intros _; [done|].
    apply (t_read_bind _ Ready false []); [by intros d (_ & -> & _)|done|].
    eapply t_bind; [apply t_secure_a|]. intros []; cbn [negb]; [|apply t_ret; intros d [? _]; by left].
    eapply t_conseq; [apply t_convert_phase| |done]. intros d [Ha Hb]. left. by split_and!; [| |apply Hb].
  - revert s Hs Hb. change (T phase_b (sm_config_migrate_files oracle inet_pton json_parse) (fun _ => phase)).
    assert (Hret : forall b : bool, T phase_b (mret b) (fun _ => phase)) by (intros b; apply t_ret; intros d Hd; by right; left).
    apply (t_read_bind _ Config true o); [by intros d [? _]; apply Hold|done|]. rewrite Hvo.
    eapply t_bind; [apply t_dir|]. intros ok. apply t_if; intros _; [done|].
    apply (t_read_bind _ Ready false m); [by intros d (_ & _ & -> & _)|done|].
    eapply (t_bind _ _ _ _ (fun _ => phase_b)).
    { unfold secure_backups. rewrite bool_decide_false by done. apply t_if; intros _; [by apply t_ret|apply t_sources_same]. }
    intros ok2. apply t_if; intros _; [done|]. eapply t_conseq; [apply t_convert_phase|intros d Hd; right; by split|done].
  - revert s Hs Hc. change (T phase_c (sm_config_migrate_files oracle inet_pton json_parse) (fun _ => phase)).
    apply (t_read_bind _ Config true c1); [by intros d (-> & _)|apply t_ret; intros d Hd; by right; right|]. rewrite Hvc.
    apply t_check_c.
Qed.

End steps.

(** *** A boot without faults finishes from each phase *)
Section finish.
Context (Hm : migratable).

Lemma runs_same_not x y u v d : content x d = Some u -> content y d = Some v -> u <> v -> runs (same_file no_faults x y) d false d.
Proof.
  intros Hx Hy Hne. eapply runs_bind; [apply runs_read_bytes|]. rewrite Hx. eapply runs_bind; [apply runs_read_bytes|].
  rewrite Hy, bool_decide_false by done. apply runs_ret.
Qed.

Lemma runs_retire f x d : retired f x d -> content (backup_of f) d = Some x ->
  exists d', runs (retire_one no_faults f true) d true d' /\ d' f = IniMissing /\ forall g, g <> f -> d' g = d g.
Proof.
  intros Hr Hb. destruct (decide (content f d = Some x)) as [Hx|Hx].
  - exists (match d f with IniMissing => d | _ => set_disk f IniMissing d end). split.
    + eapply runs_bind; [by eapply runs_same|]. eapply runs_bind; [apply runs_unlink|]. apply runs_ret.
    + destruct (d f) eqn:Hf; [done|..]; (split; [by rewrite set_disk_eq|intros g Hg; by rewrite set_disk_ne]).
  - destruct Hr as [Hf|?]; [|done]. exists d. split; [|done].
    assert (Hc : content f d = Some []) by (unfold content; by rewrite Hf).
    eapply runs_bind; [eapply (runs_same_not f _ [] x); [done|done|by intros <-]|apply runs_ret].
Qed.

Lemma runs_retire_all d : phase_c d -> exists d', runs (retire_sources no_faults) d true d' /\ migrated d'.
Proof.
  intros (Hc & Hp & _ & (Hb1 & Hb2 & Hb3) & Ha & Hj).
  destruct (runs_retire Autotune a d Ha Hb2) as (d1 & Hr1 & He1 & Ho1).
  destruct (runs_retire Smb j d1) as (d2 & Hr2 & He2 & Ho2); [unfold retired, content; by rewrite Ho1|unfold content; by rewrite Ho1|].
  exists d2. split; [eapply runs_bind; [exact Hr1|exact Hr2]|].
  unfold migrated, backups, content. rewrite He2, !Ho2 by done. by rewrite He1, !Ho1 by done.
Qed.

Lemma runs_publish d : phase_b d -> exists d', runs (publish no_faults config profiles) d true d' /\ migrated d'.
Proof.
  intros Hb. destruct (mg_config Hm) as [Hpc Hlc], (mg_profiles Hm) as [Hpp Hlp].
  set (d1 := set_disk Candidate (IniFile tp) d). set (d2 := set_disk Profiles (IniFile tp) d1).
  set (d3 := set_disk Config (IniFile tc) d2).
  assert (Hc : phase_c d3) by (revert Hb; unfold d3, d2, d1; disk_simpl; tauto).
  destruct (runs_retire_all d3 Hc) as (d' & Hr & Hd'). exists d'. split; [|done].
  eapply runs_bind; [by apply runs_write|]. cbn [negb]. eapply runs_bind; [apply runs_exists|].
  fold d1. assert (He : d1 Profiles = d Profiles) by (unfold d1; by rewrite set_disk_ne).
  eapply (runs_bind _ _ _ false).
  { rewrite He. destruct Hb as (_ & _ & _ & [Hp|Hp]); rewrite Hp; [apply runs_ret|].
    eapply runs_bind; [apply (runs_same _ _ tp)|apply (runs_ret (negb true))]; unfold content; [unfold d1; by rewrite set_disk_eq|by rewrite He, Hp]. }
  eapply runs_bind; [eapply runs_bind; [by apply runs_write|by apply runs_write]|].
  cbn [negb]. fold d2 d3. eapply runs_bind; [exact Hr|]. apply runs_sync.
Qed.

Lemma runs_sources_match d : old_files d -> backups d -> runs (sources_match no_faults) d true d.
Proof.
  intros (H1 & H2 & H3) (B1 & B2 & B3). eapply runs_bind; [by apply (runs_same Config BConfig c)|].
  eapply runs_bind; [by apply (runs_same Autotune BAutotune a)|]. by apply (runs_same Smb BSmb j).
Qed.

Lemma runs_mark marker d : backed_up marker d -> exists d', runs (mark_ready no_faults marker) d true d' /\ phase_b d'.
Proof.
  intros Hb. unfold mark_ready. case_bool_decide as Hmk.
  - destruct marker_written as (m & Hv & Hp). subst marker. rewrite Hv. exists (set_disk Ready (IniFile marker_text) d).
    split; [apply runs_write; [done|by vm_compute]|]. destruct Hb as [(_ & Ha & Hb)|[? _]]; [|done].
    revert Ha Hb. disk_simpl. tauto.
  - exists d. split; [apply runs_ret|]. by destruct Hb as [[? _]|[_ ?]].
Qed.

Lemma runs_convert marker d : backed_up marker d ->
  exists d', runs (convert no_faults inet_pton json_parse marker) d true d' /\ migrated d'.
Proof.
  intros Hd. destruct (mg_documents Hm) as (o & t & config0 & Ho & _ & Ht & Hbuild & Himp).
  destruct (runs_mark marker d Hd) as (d1 & Hr1 & Hb1). destruct (runs_publish d1 Hb1) as (d2 & Hr2 & Hd2).
  exists d2. split; [|done]. destruct (backed_up_phase marker d Hd) as [_ Hback]. pose proof Hback as (B1 & B2 & B3).
  unfold content in B1, B2. eapply runs_bind; [apply runs_read_ini|]. rewrite read_content, B1, Ho.
  eapply runs_bind; [apply runs_read_ini|]. rewrite read_content, B2, Ht, Hbuild.
  eapply runs_bind; [eapply runs_bind; [apply runs_read_bytes|apply runs_ret]|]. rewrite B3, Himp, (mg_valid Hm). cbn [negb].
  eapply runs_bind; [apply runs_sources_match; [|done]|]. { by destruct Hd as [(_ & [? _] & _)|[_ [? _]]]. }
  cbn [negb]. eapply runs_bind; [exact Hr1|]. exact Hr2.
Qed.

Lemma runs_copy_all d : phase_a d -> exists d', runs (secure_backups no_faults []) d true d' /\ phase_a d' /\ backups d'.
Proof.
  intros Ha. pose proof Ha as ((H1 & H2 & H3) & _ & Hp).
  set (d1 := set_disk BConfig (IniFile c) d). set (d2 := set_disk BAutotune (IniFile a) d1).
  set (d3 := set_disk BSmb (IniFile j) d2). exists d3. split_and!.
  - unfold secure_backups. rewrite bool_decide_true by done. eapply runs_bind; [apply runs_exists|]. rewrite Hp.
    apply (runs_bind _ _ _ true d1); [by apply (runs_copy Config c)|].
    apply (runs_bind _ _ _ true d2); [apply (runs_copy Autotune a)|apply (runs_copy Smb j)].
    + unfold content, d1. by rewrite set_disk_ne.
    + unfold content, d2, d1. by rewrite !set_disk_ne.
  - revert Ha. unfold d3, d2, d1. by disk_simpl.
  - assert (Hself : forall f x, content f d = Some x -> file_bytes (IniFile x) = Some x) by (intros f y Hy; by eapply file_bytes_self).
    unfold d3, d2, d1. disk_simpl. by split_and!; eapply Hself.
Qed.

Lemma runs_boot d : phase d ->
  exists d', runs (sm_config_migrate_files no_faults inet_pton json_parse) d true d' /\ migrated d'.
Proof.
  destruct (mg_documents Hm) as (o & _ & _ & Ho & Hvo & _).
  destruct (mg_again Hm) as (c1 & c2 & p2 & Hc1 & Hv1 & Hc2 & Hv2 & Hp2 & Hvp & Hval).
  assert (Hold : forall d, old_files d -> sm_ini_read (d Config) true = Some o).
  { intros d' (Hc & _). unfold content in Hc. by rewrite read_content, Hc. }
  intros [Ha|[Hb|Hc]].
  - destruct (runs_copy_all d Ha) as (d1 & Hr1 & Ha1 & Hb1).
    destruct (runs_convert [] d1) as (d2 & Hr2 & Hd2); [by left|]. exists d2. split; [|done].
    eapply runs_bind; [apply runs_read_ini|]. rewrite (Hold d) by apply Ha. rewrite Hvo.
    eapply runs_bind; [apply runs_dir|]. cbn [negb]. eapply runs_bind; [apply runs_read_ini|].
    destruct Ha as (_ & -> & _). cbn [sm_ini_read]. eapply runs_bind; [exact Hr1|exact Hr2].
  - destruct marker_read as (m & Hmr & Hmne & Hmv). destruct (runs_convert m d) as (d2 & Hr2 & Hd2); [by right|].
    exists d2. split; [|done]. destruct Hb as (Ho1 & Hb1 & Hready & _).
    eapply runs_bind; [apply runs_read_ini|]. rewrite (Hold d), Hvo by done.
    eapply runs_bind; [apply runs_dir|]. cbn [negb]. eapply runs_bind; [apply runs_read_ini|]. rewrite Hready, Hmr.
    eapply (runs_bind _ _ _ true); [|exact Hr2]. unfold secure_backups. rewrite bool_decide_false, Hmv by done.
    by apply runs_sources_match.
  - destruct (runs_retire_all d Hc) as (d1 & Hr1 & Hd1). exists d1. split; [|done]. destruct Hc as (Hc & Hp & Hready & _).
    eapply runs_bind; [apply runs_read_ini|]. rewrite Hc, Hc1, Hv1.
    eapply runs_bind; [apply runs_read_ini|]. rewrite Hc, Hc2, Hv2. cbn [negb].
    eapply runs_bind; [apply runs_read_ini|]. rewrite Hp, Hp2, Hvp, Hval, orb_true_r. cbn [negb orb].
    eapply runs_bind; [apply runs_exists|]. rewrite Hp. eapply runs_bind; [apply runs_ret|]. cbn [negb].
    eapply runs_bind; [apply runs_exists|]. rewrite Hready. eapply runs_bind; [exact Hr1|]. apply runs_sync.
Qed.
End finish.
End recover.

(** Claim C6: the migration always finishes.  When the old files can be migrated
    and the program can read the two files it would write, then after any
    number of boots that failed or lost power at any moment, the next boot without
    faults succeeds, and with the same result: config.ini and profiles.ini are
    the documents made of the original files, autotune.ini and smb.json are
    gone, and the backups hold the three originals. *)
Theorem migration_completes inet_pton json_parse c a j config profiles tc tp d0 d :
  migratable inet_pton json_parse c a j config profiles tc tp -> phase_a c a j d0 -> reachable inet_pton json_parse d0 d ->
  exists s, sm_config_migrate_files no_faults inet_pton json_parse (MigState d 0 []) = (true, s) /\
    migrated c a j tc tp (ms_disk s).
Proof.
  intros Hm Ha Hr. assert (Hp : phase c a j tc tp d).
  { induction Hr as [|oracle d d' _ IH Hd]; [by left|].
    by eapply triple_trace; [by eapply t_boot_phase|exact IH|exact IH|exact Hd]. }
  destruct (runs_boot _ _ _ _ _ _ _ _ _ Hm d Hp) as (d' & Hrun & Hd').
  destruct (Hrun (MigState d 0 []) eq_refl) as (s & He & Hs). exists s. by rewrite Hs.
Qed.

(** *** An example: the power fails in the middle of a boot *)
Definition example_disk : disk := fun f =>
  match f with
  | Config => IniFile (lit "debug=on" ++ [newline])
  | Autotune => IniFile (lit "image_sector=a.exfat:4096" ++ [newline])
  | Smb => IniFile (lit "[one]")
  | _ => IniMissing
  end.

(** A JSON parser that knows one text. *)
Definition example_json (s : text) : option (json * nat) :=
  if bool_decide (s = lit "[one]")
  then Some (JArray [JObject [("name"%string, JString (lit "nas")); ("path"%string, JString (lit "smb://host/share"));
                              ("username"%string, JString []); ("password"%string, JString []);
                              ("active"%string, JBool true)]], 5%nat)
  else None.

Definition example_boot (oracle : nat -> io) (d : disk) : bool * mig_state :=
  sm_config_migrate_files oracle (fun _ => true) example_json (MigState d 0 []).

(** The disk when profiles.ini is written and config.ini is not. *)
Definition example_crash : disk := default example_disk (ms_trace (example_boot no_faults example_disk).2 !! 5%nat).

Definition file_text (x : ini_file) : text := match x with IniFile t => t | _ => [] end.

Definition example_documents : sm_ini_t * sm_ini_t :=
  default ([], []) (do? o <- sm_ini_read (example_disk Config) true ; do? t <- sm_ini_read (example_disk Autotune) true ;
    do? (config0, profiles) <- build_documents o t ;
    do? config <- import_json example_json config0 (lit "[one]") ; Some (config, profiles)).

Definition example_config : text := default [] (print_lines example_documents.1).
Definition example_profiles : text := default [] (print_lines example_documents.2).

Lemma example_migratable :
  migratable (fun _ => true) example_json (file_text (example_disk Config)) (file_text (example_disk Autotune))
    (file_text (example_disk Smb)) example_documents.1 example_documents.2 example_config example_profiles.
Proof.
  split.
  - do 3 eexists. repeat (split; [vm_compute; reflexivity|]). vm_compute. reflexivity.
  - vm_compute. reflexivity.
  - split; vm_compute; reflexivity.
  - split; vm_compute; reflexivity.
  - do 3 eexists. repeat (split; [vm_compute; reflexivity|]). vm_compute. reflexivity.
Qed.

Lemma migration_completes_witness :
  example_crash Profiles = IniFile example_profiles /\ file_text (example_crash Config) = lit "debug=on" ++ [newline] /\
  exists s, example_boot no_faults example_crash = (true, s) /\ ms_disk s Config = IniFile example_config.
Proof.
  split; [by vm_compute|]. split; [by vm_compute|].
  destruct (migration_completes (fun _ => true) example_json (file_text (example_disk Config)) (file_text (example_disk Autotune))
    (file_text (example_disk Smb)) example_documents.1 example_documents.2 example_config example_profiles example_disk example_crash)
    as (s & Hs & Hd & _).
  - exact example_migratable.
  - by vm_compute.
  - apply (reach_boot _ _ _ no_faults example_disk); [apply reach_start|]. right.
    apply (list_elem_of_lookup_2 _ 5%nat). vm_compute. reflexivity.
  - exists s. by split.
Defined.
