(* ===== verification/ManualList.v ===== *)
(** * The manual source list (src/sm_manual.c)

    Two text files: manual.lst, the sources a user added by hand (one path per
    line, comments allowed), and manual.status, which titles were installed from
    them.  Both are read line by line with [fgets] and replaced by renaming a
    temporary file.

    A file that does not exist is [None].  What the file system answers is an input;
    all errors of writing a temporary file (a failed [fputs], [fflush] or [fclose]) are
    one outcome, since each of them discards it. *)
From S2P Require Import Prelude CString StateTable TitleState InstallQueue IniFile SmbAddress ConfigState.
From stdpp Require Import list.
Open Scope Z_scope.
Open Scope c_scope.

Definition MANUAL_STATUS_CAPACITY : nat := 1024.
Definition MANUAL_LINE_SIZE : nat := MAX_PATH + 64.
Definition MANUAL_STATUS_LINE_SIZE : nat := MAX_PATH + MAX_TITLE_NAME + MAX_TITLE_ID + 64.

Definition tab : ascii := "009"%char.
Definition carriage : ascii := "013"%char.

Inductive manual_status_t := MANUAL_STATUS_UNKNOWN | MANUAL_STATUS_INSTALLED | MANUAL_STATUS_DELETED.

#[export] Instance manual_status_eq_dec : EqDecision manual_status_t.
Proof. solve_decision. Defined.

Record manual_status_entry_t := ManualEntry {
  me_path : text; me_title_id : text; me_title_name : text; me_status : manual_status_t; me_remove_from_list : bool;
}.

(** What the file system answers: [fopen] of an existing list, seeking in it, reading
    it (an error after some turns of the loop), [fopen] of the temporary file, writing
    it, renaming it. *)
Record manual_io := ManualIo {
  io_open : bool; io_seek : bool; io_error_at : option nat; io_temp : bool; io_written : bool; io_rename : bool;
}.

Definition io_read (io : manual_io) : bool := match io_error_at io with None => true | Some _ => false end.

(** The turns before a read error. *)
Definition delivered {A} (io : manual_io) (ls : list A) : list A :=
  match io_error_at io with None => ls | Some k => take k ls end.

(** ** Lines *)

(** The C string in a buffer. *)
Definition c_str (s : text) : text := (break (Ascii.eqb nul) s).1.

(** What [fgets] stores, for room for [n] characters, and what is left to read. *)
Fixpoint take_line (n : nat) (s : text) : text * text :=
  match n, s with
  | S n', a :: s' => if Ascii.eqb a newline then ([a], s') else let '(x, r) := take_line n' s' in (a :: x, r)
  | _, _ => ([], s)
  end.

(** The rest of the line, with its newline: [drain_manual_file_line],
    [copy_manual_file_line_remainder]. *)
Fixpoint line_remainder (s : text) : text * text :=
  match s with
  | [] => ([], [])
  | a :: s' => if Ascii.eqb a newline then ([a], s') else let '(x, r) := line_remainder s' in (a :: x, r)
  end.

Definition trim_manual_line (s : text) : text := trim_slashes (trim s).

(** One turn of a loop over manual.lst: the line, whether it was cut off, and then
    the rest of it. *)
Record manual_line := ManualLine { ml_line : text; ml_truncated : bool; ml_remainder : text }.

Definition is_truncated (line : text) : bool :=
  negb (existsb (Ascii.eqb newline) line) && (length line =? MANUAL_LINE_SIZE - 1)%nat.

Fixpoint manual_lines (fuel : nat) (s : text) : list manual_line :=
  match fuel, s with
  | S fuel', _ :: _ =>
      let '(buffer, rest) := take_line (MANUAL_LINE_SIZE - 1) s in
      let line := c_str buffer in
      if is_truncated line
      then let '(more, rest') := line_remainder rest in ManualLine line true more :: manual_lines fuel' rest'
      else ManualLine line false [] :: manual_lines fuel' rest
  | _, _ => []
  end.

(** Each turn consumes a character. *)
Definition read_manual_lines (s : text) : list manual_line := manual_lines (length s) s.

Definition is_entry (t : text) : bool :=
  match t with [] => false | a :: _ => negb (Ascii.eqb a "#"%char) end.

(** ** Adding and removing paths *)
Definition sm_manual_normalize_path (path : text) : option text :=
  if (MAX_PATH <=? length path)%nat then None
  else if existsb (Ascii.eqb carriage) path || existsb (Ascii.eqb newline) path then None
  else match trim_manual_line path with
       | (a :: _ :: _) as p => if is_slash a then Some p else None
       | _ => None
       end.

Definition line_matches (path : text) (l : manual_line) : bool :=
  let n := trim_manual_line (ml_line l) in
  negb (ml_truncated l) && is_entry n && bool_decide (n = path).

(** The text a kept line leaves in the new file. *)
Definition line_copy (l : manual_line) : text := ml_line l ++ ml_remainder l.

Definition copy_lines (ls : list manual_line) : text := concat (line_copy <$> ls).

Definition needs_separator (io : manual_io) (list_ : option text) : bool :=
  match list_ with
  | Some s => io_seek io && match last s with Some a => negb (Ascii.eqb a newline) | None => false end
  | None => false
  end.

(** The new list, when it changes. *)
Definition updated_list (io : manual_io) (list_ : option text) (path : text) (add : bool) : option text :=
  let ls := read_manual_lines (default [] list_) in
  if add then
    if existsb (line_matches path) ls then None
    else Some (copy_lines ls ++ (if needs_separator io list_ then [newline] else []) ++ path ++ [newline])
  else if existsb (line_matches path) ls
  then Some (copy_lines (List.filter (fun l => negb (line_matches path l)) ls)) else None.

(** The answer is success, the list changed. *)
Definition update_manual_list (io : manual_io) (list_ : option text) (path : text) (add : bool) :
    bool * bool * option text :=
  match sm_manual_normalize_path path with
  | None => (false, false, list_)
  | Some p =>
      if bool_decide (is_Some list_) && negb (io_open io) then (false, false, list_)
      else if negb (io_temp io) then (false, false, list_)
      else if negb (io_written io) || (bool_decide (is_Some list_) && negb (io_read io)) then (false, false, list_)
      else match updated_list io list_ p add with
           | None => (true, false, list_)
           | Some new => if io_rename io then (true, true, Some new) else (false, false, list_)
           end
  end.

Definition sm_manual_add_path io list_ path := update_manual_list io list_ path true.
Definition sm_manual_remove_path io list_ path := update_manual_list io list_ path false.

(** ** Visiting *)
Definition visited_line (l : manual_line) : option text :=
  let n := trim_manual_line (ml_line l) in
  if negb (is_entry n) then None
  else if ml_truncated l || (MAX_PATH <=? length n)%nat then None
  else Some n.

(** The visitor is a function on its context that may stop the loop. *)
Fixpoint visit_lines {C} (visit : text -> C -> bool * C) (ls : list manual_line) (ctx : C) : bool * C :=
  match ls with
  | [] => (true, ctx)
  | l :: ls' =>
      match visited_line l with
      | None => visit_lines visit ls' ctx
      | Some p => let '(go, ctx') := visit p ctx in if go : bool then visit_lines visit ls' ctx' else (false, ctx')
      end
  end.

Definition sm_manual_for_each_path {C} (io : manual_io) (list_ : option text) (visit : text -> C -> bool * C) (ctx : C) :
    bool * C :=
  match list_ with
  | None => (false, ctx)
  | Some s =>
      if negb (io_open io) then (false, ctx)
      else let '(completed, ctx') := visit_lines visit (delivered io (read_manual_lines s)) ctx in (completed && io_read io, ctx')
  end.

(** ** The status file *)
Definition manual_status_name (s : manual_status_t) : text :=
  lit (match s with MANUAL_STATUS_INSTALLED => "installed" | MANUAL_STATUS_DELETED => "deleted" | _ => "unknown" end)%string.

Definition parse_manual_status_name (name : text) : manual_status_t :=
  if strcasecmp_eq name (lit "installed") then MANUAL_STATUS_INSTALLED
  else if strcasecmp_eq name (lit "deleted") then MANUAL_STATUS_DELETED
  else MANUAL_STATUS_UNKNOWN.

(** [strtok] with one delimiter: the token and the text behind its delimiter. *)
Fixpoint skip_delim (d : ascii) (s : text) : text :=
  match s with [] => [] | a :: s' => if Ascii.eqb a d then skip_delim d s' else s end.

Definition strtok (d : ascii) (s : text) : option (text * text) :=
  match skip_delim d s with
  | [] => None
  | s' => let '(token, rest) := break (Ascii.eqb d) s' in Some (token, drop 1 rest)
  end.

(** [strlcpy] into an array of [size] characters. *)
Definition copy_text (size : nat) (s : text) : text := take (size - 1) s.

Definition parse_manual_status_line (line : text) : option manual_status_entry_t :=
  do? (status, r1) <- strtok tab line ;
  do? (title_id, r2) <- strtok tab r1 ;
  do? (path, r3) <- strtok tab r2 ;
  let title_name := match strtok newline r3 with Some (n, _) => trim_manual_line n | None => [] end in
  let parsed := parse_manual_status_name (trim_manual_line status) in
  let id := trim_manual_line title_id in
  let p := trim_manual_line path in
  if bool_decide (parsed = MANUAL_STATUS_UNKNOWN) || bool_decide (id = []) || bool_decide (p = []) then None
  else Some (ManualEntry (copy_text MAX_PATH p) (copy_text MAX_TITLE_ID id) (copy_text MAX_TITLE_NAME title_name) parsed false).

(** Plain [fgets] turns. *)
Fixpoint status_lines (fuel : nat) (s : text) : list text :=
  match fuel, s with
  | S fuel', _ :: _ =>
      let '(buffer, rest) := take_line (MANUAL_STATUS_LINE_SIZE - 1) s in c_str buffer :: status_lines fuel' rest
  | _, _ => []
  end.

Definition load_manual_status (io : manual_io) (status : option text) : list manual_status_entry_t :=
  match status with
  | None => []
  | Some s =>
      if negb (io_open io) then []
      else take MANUAL_STATUS_CAPACITY (omap parse_manual_status_line (delivered io (status_lines (length s) s)))
  end.

Definition entry_text (e : manual_status_entry_t) : text :=
  if bool_decide (me_status e = MANUAL_STATUS_UNKNOWN) || bool_decide (me_path e = []) || bool_decide (me_title_id e = []) then []
  else manual_status_name (me_status e) ++ [tab] ++ me_title_id e ++ [tab] ++ me_path e ++ [tab] ++ me_title_name e ++ [newline].

Definition write_manual_status (io : manual_io) (status : option text) (entries : list manual_status_entry_t) :
    bool * option text :=
  if io_temp io && io_written io && io_rename io then (true, Some (concat (entry_text <$> entries))) else (false, status).

Definition find_manual_status_entry (entries : list manual_status_entry_t) (path title_id : text) : option nat :=
  find_index (fun e => (negb (bool_decide (path = [])) && bool_decide (me_path e = path)) ||
                       (negb (bool_decide (title_id = [])) && bool_decide (me_title_id e = title_id))) entries.

(** ** Titles that left the database *)
Definition removed_line (entries : list manual_status_entry_t) (l : manual_line) : bool :=
  let n := trim_manual_line (ml_line l) in
  negb (ml_truncated l) && is_entry n && existsb (fun e => me_remove_from_list e && bool_decide (me_path e = n)) entries.

Definition rewrite_manual_list_without_deleted_entries (io : manual_io) (list_ : option text)
    (entries : list manual_status_entry_t) : bool * option text :=
  match list_ with
  | None => (true, list_)
  | Some s =>
      if negb (io_open io) || negb (io_temp io) || negb (io_read io) || negb (io_written io) then (false, list_)
      else
        let ls := read_manual_lines s in
        if existsb (removed_line entries) ls
        then if io_rename io then (true, Some (copy_lines (List.filter (fun l => negb (removed_line entries l)) ls))) else (false, list_)
        else (true, list_)
  end.

(** The files, and the tables of other components that are told. *)
Record manual_state := ManualState {
  ms_list : option text; ms_status : option text; ms_queue : install_queue; ms_titles : title_state;
}.

Definition title_gone (titles : text -> bool) (e : manual_status_entry_t) : bool :=
  bool_decide (me_status e = MANUAL_STATUS_INSTALLED) && negb (bool_decide (me_title_id e = [])) && negb (titles (me_title_id e)).

Definition disable_entry (e : manual_status_entry_t) : manual_status_entry_t :=
  ManualEntry (me_path e) (me_title_id e) (me_title_name e) MANUAL_STATUS_DELETED true.

Definition reconcile_entry (titles : text -> bool) (e : manual_status_entry_t) : manual_status_entry_t :=
  if title_gone titles e then disable_entry e else e.

Definition forget_title (e : manual_status_entry_t) (st : install_queue * title_state) : install_queue * title_state :=
  let id := of_text (me_title_id e) in
  (sm_install_forget_pending_title id st.1, clear_failed_mount_attempts (clear_register_attempts st.2 id) id).

(** [titles] answers [app_db_title_list_contains]; [ready] is [app_db_titles_ready].
    The three records of answers are for loading the status, rewriting the list and
    writing the status. *)
Definition sm_manual_reconcile_deleted_titles (io1 io2 io3 : manual_io) (titles : text -> bool) (ready : bool)
    (st : manual_state) : bool * manual_state :=
  if negb ready then (true, st)
  else
    let entries := load_manual_status io1 (ms_status st) in
    let gone := List.filter (title_gone titles) entries in
    match gone with
    | [] => (true, st)
    | _ =>
        let entries' := reconcile_entry titles <$> entries in
        let '(queue, table) := foldl (fun acc e => forget_title e acc) (ms_queue st, ms_titles st) gone in
        let '(ok, list') := rewrite_manual_list_without_deleted_entries io2 (ms_list st) entries' in
        if negb ok then (false, ManualState list' (ms_status st) queue table)
        else let '(ok', status') := write_manual_status io3 (ms_status st) entries' in
             (ok', ManualState list' status' queue table)
    end.

Definition blank_entry : manual_status_entry_t := ManualEntry [] [] [] MANUAL_STATUS_UNKNOWN false.

Definition note_entry (path title_id title_name : text) (e : manual_status_entry_t) : manual_status_entry_t :=
  ManualEntry (copy_text MAX_PATH path) (copy_text MAX_TITLE_ID title_id)
    (match title_name with [] => me_title_name e | _ => copy_text MAX_TITLE_NAME title_name end)
    MANUAL_STATUS_INSTALLED (me_remove_from_list e).

Definition entry_unchanged (path title_id title_name : text) (e : manual_status_entry_t) : bool :=
  bool_decide (me_status e = MANUAL_STATUS_INSTALLED) && bool_decide (me_path e = path) &&
  bool_decide (me_title_id e = title_id) && (bool_decide (title_name = []) || bool_decide (me_title_name e = title_name)).

Definition sm_manual_note_installed (io1 io2 : manual_io) (path title_id title_name : text) (status : option text) :
    option text :=
  match path, title_id with
  | [], _ | _, [] => status
  | _, _ =>
      let entries := load_manual_status io1 status in
      let place := match find_manual_status_entry entries path title_id with
                   | Some i => Some (i, entries)
                   | None => if (MANUAL_STATUS_CAPACITY <=? length entries)%nat then None
                             else Some (length entries, entries ++ [blank_entry])
                   end in
      match place with
      | None => status
      | Some (i, entries') =>
          match entries' !! i with
          | None => status
          | Some e =>
              if entry_unchanged path title_id title_name e then status
              else (write_manual_status io2 status (<[i := note_entry path title_id title_name e]> entries')).2
          end
      end
  end.

(** ** Lines: properties *)
Definition no_newline (s : text) : Prop := Forall (fun a => Ascii.eqb a newline = false) s.
Definition no_nul (s : text) : Prop := Forall (fun a => Ascii.eqb nul a = false) s.

#[local] Hint Extern 0 (no_nul []) => apply Forall_nil_2 : core.
#[local] Hint Extern 0 (Forall _ []) => apply Forall_nil_2 : core.

Lemma c_str_id s : no_nul s -> c_str s = s.
Proof. intros Hs. unfold c_str. rewrite <-(app_nil_r s) at 1. by rewrite break_app. Qed.

Lemma take_line_short n l r : no_newline l -> (length l < n)%nat -> take_line n (l ++ newline :: r) = (l ++ [newline], r).
Proof.
  intros Hl. revert n. induction Hl as [|a l Ha _ IH]; intros n Hn; simpl in *; destruct n as [|n]; try lia; simpl; [done|].
  by rewrite Ha, (IH n) by lia.
Qed.

Lemma take_line_last n l : no_newline l -> (length l <= n)%nat -> take_line n l = (l, []).
Proof.
  intros Hl. revert n. induction Hl as [|a l Ha _ IH]; intros n Hn; simpl in *; destruct n as [|n]; try lia; simpl; [done|done|].
  by rewrite Ha, (IH n) by lia.
Qed.

Lemma take_line_long n l r : no_newline l -> (n <= length l)%nat -> take_line n (l ++ r) = (take n l, drop n l ++ r).
Proof.
  intros Hl. revert n. induction Hl as [|a l Ha _ IH]; intros n Hn; simpl in *; destruct n as [|n]; try lia; simpl; try done.
  by rewrite Ha, (IH n) by lia.
Qed.

Lemma line_remainder_line l r : no_newline l -> line_remainder (l ++ newline :: r) = (l ++ [newline], r).
Proof. induction 1 as [|a l Ha _ IH]; simpl; [done|]. by rewrite Ha, IH. Qed.

Lemma line_remainder_last l : no_newline l -> line_remainder l = (l, []).
Proof. induction 1 as [|a l Ha _ IH]; simpl; [done|]. by rewrite Ha, IH. Qed.

(** The turn for the line [l], which ends in [nl] (a newline, or nothing at the end). *)
Definition line_turn (l nl : text) : manual_line :=
  if (MANUAL_LINE_SIZE - 1 <=? length l)%nat
  then ManualLine (take (MANUAL_LINE_SIZE - 1) l) true (drop (MANUAL_LINE_SIZE - 1) l ++ nl)
  else ManualLine (l ++ nl) false [].

Lemma existsb_newline l : no_newline l -> existsb (Ascii.eqb newline) l = false.
Proof. induction 1 as [|a l Ha _ IH]; cbn [existsb]; [done|]. by rewrite Ascii.eqb_sym, Ha. Qed.

Opaque MANUAL_LINE_SIZE.

Lemma line_size : (0 < MANUAL_LINE_SIZE - 1)%nat.
Proof. apply Nat.ltb_lt. by vm_compute. Qed.

Lemma truncated_take l : no_newline l -> (MANUAL_LINE_SIZE - 1 <= length l)%nat -> is_truncated (take (MANUAL_LINE_SIZE - 1) l) = true.
Proof.
  intros Hl Hn. unfold is_truncated. rewrite existsb_newline by by apply Forall_take.
  rewrite length_take_le by done. by rewrite Nat.eqb_refl.
Qed.

Lemma turn_line fuel l r : no_newline l -> no_nul l -> 
  manual_lines (S fuel) (l ++ newline :: r) = line_turn l [newline] :: manual_lines fuel r.
Proof.
  intros Hl Hn. pose proof line_size as Hsz. unfold line_turn. cbn [manual_lines].
  destruct (l ++ newline :: r) as [|z zs] eqn:Hz; [by destruct l|]. rewrite <-Hz. clear z zs Hz.
  destruct (Nat.leb_spec (MANUAL_LINE_SIZE - 1) (length l)).
  - rewrite take_line_long by done. rewrite c_str_id by by apply Forall_take. rewrite truncated_take by done.
    rewrite line_remainder_line by by apply Forall_drop. done.
  - rewrite take_line_short by done. rewrite c_str_id by (apply Forall_app_2; [done|by apply Forall_singleton]).
    assert (Ht : is_truncated (l ++ [newline]) = false); [|by rewrite Ht].
    unfold is_truncated. rewrite existsb_app. simpl. by rewrite orb_true_r.
Qed.

Lemma turn_last fuel l : no_newline l -> no_nul l -> l <> [] -> manual_lines (S fuel) l = [line_turn l []].
Proof.
  intros Hl Hn Hne. pose proof line_size as Hsz. unfold line_turn. cbn [manual_lines].
  destruct l as [|z zs] eqn:Hz; [done|]. rewrite <-Hz in *. clear z zs Hz.
  assert (Hnil : forall n, manual_lines n [] = []) by (by intros []).
  destruct (Nat.leb_spec (MANUAL_LINE_SIZE - 1) (length l)).
  - rewrite <-(app_nil_r l) at 1. rewrite take_line_long by done. rewrite c_str_id by by apply Forall_take. rewrite truncated_take by done.
    rewrite app_nil_r, line_remainder_last by by apply Forall_drop. by rewrite Hnil.
  - rewrite take_line_last by (done || lia). rewrite c_str_id, app_nil_r by done.
    assert (Ht : is_truncated l = false); [|by rewrite Ht, Hnil].
    unfold is_truncated. destruct (Nat.eqb_spec (length l) (MANUAL_LINE_SIZE - 1)); [lia|]. apply andb_false_r.
Qed.

(** Texts line by line. *)
Lemma text_lines_ind (P : text -> Prop) : P [] -> (forall l, no_newline l -> l <> [] -> P l) ->
  (forall l r, no_newline l -> P r -> P (l ++ newline :: r)) -> forall s, P s.
Proof.
  intros H0 H1 H2 s. remember (length s) as n eqn:Hn. revert s Hn. induction (lt_wf n) as [n _ IH]. intros s ->.
  destruct (break (Ascii.eqb newline) s) as [l r] eqn:Hb.
  apply break_spec in Hb as (-> & Hl' & Hr).
  assert (Hl : no_newline l) by (eapply Forall_impl; [exact Hl'|]; intros a; by rewrite Ascii.eqb_sym).
  destruct r as [|a r].
  - rewrite app_nil_r. destruct l; [done|by apply H1].
  - apply Ascii.eqb_eq in Hr as <-. apply H2; [done|]. eapply IH; [|reflexivity]. rewrite length_app. simpl. lia.
Qed.

Lemma manual_lines_fuel n (s : text) : (length s <= n)%nat -> no_nul s -> manual_lines n s = read_manual_lines s.
Proof.
  revert n. pattern s. revert s. apply text_lines_ind; [|intros l Hl Hne|intros l r Hl IH]; intros n Hn Hnul; unfold read_manual_lines.
  - by destruct n.
  - destruct l as [|a l']; [done|]. destruct n as [|n]; [simpl in Hn; lia|]. cbn [length]. by rewrite !turn_last.
  - apply Forall_app in Hnul as [Hnl Hnr]. apply Forall_cons in Hnr as [_ Hnr]. rewrite length_app in Hn |- *. simpl in *.
    destruct n as [|n]; [lia|]. rewrite Nat.add_succ_r, !turn_line by done. by rewrite !IH by (done || lia).
Qed.

Lemma read_line l r : no_newline l -> no_nul l -> no_nul r ->
  read_manual_lines (l ++ newline :: r) = line_turn l [newline] :: read_manual_lines r.
Proof.
  intros Hl Hn Hr. unfold read_manual_lines at 1. rewrite length_app. simpl. rewrite Nat.add_succ_r, turn_line by done.
  by rewrite manual_lines_fuel by (done || lia).
Qed.

Lemma read_last l : no_newline l -> no_nul l -> l <> [] -> read_manual_lines l = [line_turn l []].
Proof. intros Hl Hn Hne. unfold read_manual_lines. destruct l; [done|]. by apply turn_last. Qed.

Lemma line_turn_copy l nl : line_copy (line_turn l nl) = l ++ nl.
Proof.
  unfold line_turn, line_copy. destruct (_ <=? _)%nat; simpl; [|by rewrite app_nil_r].
  by rewrite app_assoc, take_drop.
Qed.

Lemma omap_option_list {A B} (f : A -> option B) x l : omap f (x :: l) = option_list (f x) ++ omap f l.
Proof. simpl. by destruct (f x). Qed.

(** What the readers make of a text. *)
Definition visited (s : text) : list text := omap visited_line (read_manual_lines s).

Lemma copy_read s : no_nul s -> copy_lines (read_manual_lines s) = s.
Proof.
  pattern s. revert s. apply text_lines_ind; [done|intros l Hl Hne|intros l r Hl IH]; intros Hn; unfold copy_lines.
  - rewrite read_last by done. simpl. by rewrite line_turn_copy, !app_nil_r.
  - apply Forall_app in Hn as [Hn1 [_ Hn2]%Forall_cons]. rewrite read_line by done. rewrite fmap_cons. cbn [concat].
    rewrite line_turn_copy, <-app_assoc. unfold copy_lines in IH. by rewrite IH.
Qed.

(** A file of kept lines reads as the kept lines. *)
Lemma read_kept (f : manual_line -> bool) s : no_nul s ->
  no_nul (copy_lines (List.filter f (read_manual_lines s))) /\
  read_manual_lines (copy_lines (List.filter f (read_manual_lines s))) = List.filter f (read_manual_lines s).
Proof.
  pattern s. revert s. apply text_lines_ind; [by split|intros l Hl Hne|intros l r Hl IH]; intros Hn; unfold copy_lines.
  - rewrite read_last by done. simpl. destruct (f _); [|split; [apply Forall_nil_2|done]]. simpl. rewrite line_turn_copy, !app_nil_r. split; [done|].
    by rewrite read_last.
  - apply Forall_app in Hn as [Hn1 [_ Hn2]%Forall_cons]. rewrite read_line by done. cbn [List.filter].
    destruct (IH Hn2) as [IH1 IH2]. destruct (f _); [|done]. rewrite fmap_cons. cbn [concat].
    rewrite line_turn_copy, <-app_assoc. unfold copy_lines in IH1, IH2. cbn [app]. split.
    + apply Forall_app_2; [done|]. by apply Forall_cons_2.
    + by rewrite read_line, IH2.
Qed.

Lemma list_newline_spaces : spaces [newline].
Proof. by apply Forall_singleton. Qed.

Lemma trim_newline l : trim_manual_line (l ++ [newline]) = trim_manual_line l.
Proof. unfold trim_manual_line. by rewrite trim_app_spaces by apply list_newline_spaces. Qed.

(** A missing newline at the end makes no difference. *)
Lemma visited_turn l : visited_line (line_turn l []) = visited_line (line_turn l [newline]).
Proof.
  unfold visited_line, line_turn. destruct (_ <=? _)%nat; cbn [ml_line ml_truncated]; [done|].
  by rewrite app_nil_r, trim_newline.
Qed.

Definition separator (s : text) : text :=
  match last s with Some a => if Ascii.eqb a newline then [] else [newline] | None => [] end.

Lemma separator_line l r : separator (l ++ newline :: r) = separator r.
Proof.
  unfold separator. rewrite last_app. destruct r as [|a r]; [by destruct (last l)|].
  change (newline :: a :: r) with ([newline] ++ a :: r). rewrite last_app. by destruct (last (a :: r)) eqn:Hl; [|apply last_None in Hl].
Qed.

Lemma separator_last l : no_newline l -> l <> [] -> separator l = [newline].
Proof.
  intros Hl Hne. unfold separator. destruct (last l) as [a|] eqn:Ha; [|by apply last_None in Ha].
  apply last_Some in Ha as [l' ->]. apply Forall_app in Hl as [_ [Ha _]%Forall_cons]. by rewrite Ha.
Qed.

(** A line matches a path when it is visited as this path. *)
Lemma line_matches_visited p l : (length p < MAX_PATH)%nat -> line_matches p l = bool_decide (visited_line l = Some p).
Proof.
  intros Hp. unfold line_matches, visited_line. destruct (ml_truncated l); cbn [negb orb andb].
  - symmetry. apply bool_decide_eq_false. by destruct (negb _).
  - destruct (is_entry _); cbn [negb andb]; [|by symmetry; apply bool_decide_eq_false].
    destruct (Nat.leb_spec MAX_PATH (length (trim_manual_line (ml_line l)))).
    + transitivity false; [|by symmetry; apply bool_decide_eq_false]. apply bool_decide_eq_false. intros He. rewrite He in *. lia.
    + apply bool_decide_ext. split; [by intros ->|by intros [= ->]].
Qed.

Lemma existsb_matches p s : (length p < MAX_PATH)%nat -> existsb (line_matches p) (read_manual_lines s) = bool_decide (p ∈ visited s).
Proof.
  intros Hp. apply eq_bool_prop_intro. rewrite bool_decide_spec. unfold visited. rewrite list_elem_of_omap.
  rewrite Is_true_true, existsb_exists. setoid_rewrite <-list_elem_of_In. split; intros (l & Hl & He); exists l; (split; [done|]).
  - rewrite line_matches_visited in He by done. by apply bool_decide_eq_true in He.
  - rewrite line_matches_visited by done. by apply bool_decide_eq_true.
Qed.

(** Lines dropped by what they are visited as. *)
Lemma visited_filter (f : manual_line -> bool) (g : text -> bool) ls :
  (forall l, f l = match visited_line l with Some p => g p | None => false end) ->
  omap visited_line (List.filter (fun l => negb (f l)) ls) = List.filter (fun p => negb (g p)) (omap visited_line ls).
Proof.
  intros Hf. induction ls as [|l ls IH]; [done|]. cbn [List.filter]. rewrite omap_option_list, Hf.
  destruct (visited_line l) as [p|] eqn:Hl; cbn [negb option_list app].
  - change (option_list (Some p) ++ omap visited_line ls) with (p :: omap visited_line ls). cbn [List.filter].
    destruct (g p); cbn [negb]; [exact IH|]. by rewrite omap_option_list, Hl, IH.
  - by rewrite omap_option_list, Hl, IH.
Qed.

(** ** The list as a list of paths *)
Definition all_fine : manual_io := ManualIo true true None true true true.

(** The paths of the list, as the program's own reader delivers them. *)
Definition manual_paths (list_ : option text) : list text :=
  (sm_manual_for_each_path all_fine list_ (fun p acc => (true, acc ++ [p])) []).2.

Lemma visit_collect ls acc : visit_lines (fun p acc => (true, acc ++ [p])) ls acc = (true, acc ++ omap visited_line ls).
Proof.
  revert acc. induction ls as [|l ls IH]; intros acc; [by rewrite app_nil_r|]. cbn [visit_lines]. rewrite omap_option_list.
  destruct (visited_line l) as [p|]; rewrite IH; [by rewrite <-app_assoc|done].
Qed.

Lemma manual_paths_visited list_ : manual_paths list_ = visited (default [] list_).
Proof. destruct list_ as [s|]; [|done]. unfold manual_paths, sm_manual_for_each_path. cbn. by rewrite visit_collect. Qed.

Lemma skip_slashes_suffix r : exists x, r = x ++ skip_slashes r.
Proof.
  induction r as [|a r IH]; [by exists []|]. destruct r as [|b r]; [by exists []|].
  change (skip_slashes (a :: b :: r)) with (if is_slash a then skip_slashes (b :: r) else a :: b :: r).
  destruct (is_slash a); [|by exists []]. destruct IH as [x Hx]. exists (a :: x). rewrite Hx at 1. done.
Qed.

Lemma trim_manual_part s : exists x y, s = x ++ trim_manual_line s ++ y.
Proof.
  unfold trim_manual_line, trim_slashes. destruct (trim_split s) as (a & b & _ & _ & Hs).
  destruct (skip_slashes_suffix (reverse (trim s))) as [x Hx]. exists a, (reverse x ++ b).
  rewrite (app_assoc (reverse _) (reverse x) b), <-reverse_app, <-Hx, reverse_involutive. exact Hs.
Qed.

Lemma normalized_line path p : sm_manual_normalize_path path = Some p -> no_nul path ->
  no_newline p /\ no_nul p /\ (length p < MAX_PATH)%nat /\ is_entry p = true.
Proof.
  unfold sm_manual_normalize_path. intros Hn Hnul. destruct (Nat.leb_spec MAX_PATH (length path)); [done|].
  destruct (_ || _) eqn:Hc; [done|]. apply orb_false_iff in Hc as [_ Hc].
  destruct (trim_manual_part path) as (x & y & Hp). destruct (trim_manual_line path) as [|a [|b r]] eqn:He; [done|done|].
  destruct (is_slash a) eqn:Ha; [|done]. injection Hn as <-. split_and!.
  - assert (Hall : no_newline path).
    { apply Forall_forall. intros z Hz. apply not_true_is_false. intros Hz'. apply not_true_iff_false in Hc. apply Hc.
      apply existsb_exists. exists z. split; [by apply list_elem_of_In|]. by rewrite Ascii.eqb_sym. }
    rewrite Hp in Hall. by apply Forall_app in Hall as [_ [? _]%Forall_app].
  - rewrite Hp in Hnul. by apply Forall_app in Hnul as [_ [? _]%Forall_app].
  - rewrite Hp, !length_app in *. lia.
  - unfold is_slash in Ha. apply Ascii.eqb_eq in Ha as <-. done.
Qed.

(** *** The list as lines *)

(** The lines of a text. *)
Fixpoint text_lines (s : text) : list text :=
  match s with
  | [] => []
  | a :: s' =>
      if Ascii.eqb a newline then [] :: text_lines s'
      else match text_lines s' with [] => [[a]] | l :: ls => (a :: l) :: ls end
  end.

(** What a line stands for: a path, or nothing when it is blank, a comment or too long. *)
Definition entry_of (l : text) : option text :=
  let n := trim_manual_line l in
  if (length l <? MANUAL_LINE_SIZE - 1)%nat && is_entry n && (length n <? MAX_PATH)%nat then Some n else None.

Definition stands_for (p : text) (l : text) : bool := bool_decide (entry_of l = Some p).

(** What an operation means for the lines, and for the paths. *)
Definition lines_op (add : bool) (p : text) (ls : list text) : list text :=
  if add then (if existsb (stands_for p) ls then ls else ls ++ [p]) else List.filter (fun l => negb (stands_for p l)) ls.
Definition list_op (add : bool) (p : text) (l : list text) : list text :=
  if add then (if bool_decide (p ∈ l) then l else l ++ [p]) else List.filter (fun q => negb (bool_decide (q = p))) l.

Lemma text_lines_line l r : no_newline l -> text_lines (l ++ newline :: r) = l :: text_lines r.
Proof. induction 1 as [|a l Ha _ IH]; [done|]. cbn [app text_lines]. by rewrite Ha, IH. Qed.

Lemma text_lines_last l : no_newline l -> l <> [] -> text_lines l = [l].
Proof.
  induction 1 as [|a l Ha _ IH]; intros Hne; [done|]. cbn [text_lines]. rewrite Ha. destruct l as [|b l]; [done|]. by rewrite IH.
Qed.

Lemma turn_entry l nl : nl = [] \/ nl = [newline] -> visited_line (line_turn l nl) = entry_of l.
Proof.
  intros Hnl. transitivity (visited_line (line_turn l [newline])); [by destruct Hnl as [-> | ->]; [apply visited_turn|]|].
  unfold visited_line, line_turn, entry_of. destruct (Nat.leb_spec (MANUAL_LINE_SIZE - 1) (length l)); cbn [ml_line ml_truncated].
  - destruct (Nat.ltb_spec (length l) (MANUAL_LINE_SIZE - 1)); [lia|]. cbn [andb orb]. by destruct (negb _).
  - destruct (Nat.ltb_spec (length l) (MANUAL_LINE_SIZE - 1)); [|lia]. rewrite trim_newline. cbn [andb orb]. destruct (is_entry _); cbn [negb andb]; [|done].
    by destruct (Nat.leb_spec MAX_PATH (length (trim_manual_line l))), (Nat.ltb_spec (length (trim_manual_line l)) MAX_PATH); try lia.
Qed.

Lemma turn_matches p l nl : (length p < MAX_PATH)%nat -> nl = [] \/ nl = [newline] -> line_matches p (line_turn l nl) = stands_for p l.
Proof. intros Hp Hnl. by rewrite line_matches_visited, turn_entry. Qed.

Lemma visited_lines s : no_nul s -> visited s = omap entry_of (text_lines s).
Proof.
  unfold visited. pattern s. revert s. apply text_lines_ind; [done|intros l Hl Hne|intros l r Hl IH]; intros Hs.
  - rewrite read_last, text_lines_last by done. cbn [omap list_omap]. by rewrite turn_entry by auto.
  - apply Forall_app in Hs as [Hs1 [_ Hs2]%Forall_cons]. rewrite read_line, text_lines_line, !omap_option_list, IH by done. by rewrite turn_entry by auto.
Qed.

Lemma matches_lines p s : (length p < MAX_PATH)%nat -> no_nul s -> existsb (line_matches p) (read_manual_lines s) = existsb (stands_for p) (text_lines s).
Proof.
  intros Hp. pattern s. revert s. apply text_lines_ind; [done|intros l Hl Hne|intros l r Hl IH]; intros Hs.
  - rewrite read_last, text_lines_last by done. cbn [existsb]. by rewrite turn_matches by auto.
  - apply Forall_app in Hs as [Hs1 [_ Hs2]%Forall_cons]. rewrite read_line, text_lines_line by done. cbn [existsb]. by rewrite turn_matches, IH by auto.
Qed.

Lemma kept_lines p s : (length p < MAX_PATH)%nat -> no_nul s ->
  text_lines (copy_lines (List.filter (fun l => negb (line_matches p l)) (read_manual_lines s))) = List.filter (fun l => negb (stands_for p l)) (text_lines s).
Proof.
  intros Hp. pattern s. revert s. apply text_lines_ind; [done|intros l Hl Hne|intros l r Hl IH]; intros Hs; unfold copy_lines.
  - rewrite read_last, (text_lines_last l) by done. cbn [List.filter]. rewrite turn_matches by auto. destruct (stands_for p l); cbn [negb fmap list_fmap concat]; [reflexivity|].
    rewrite line_turn_copy, !app_nil_r. by apply text_lines_last.
  - apply Forall_app in Hs as [Hs1 [_ Hs2]%Forall_cons]. rewrite read_line, (text_lines_line l r) by done. cbn [List.filter]. rewrite turn_matches by auto.
    specialize (IH Hs2). unfold copy_lines in IH. destruct (stands_for p l); cbn [negb]; [exact IH|]. rewrite fmap_cons. cbn [concat].
    rewrite line_turn_copy, <-app_assoc. cbn [app]. by rewrite text_lines_line, IH.
Qed.

Lemma appended_lines s p : no_newline p -> text_lines (s ++ separator s ++ p ++ [newline]) = text_lines s ++ [p].
Proof.
  intros Hp. pattern s. revert s. apply text_lines_ind; [|intros l Hl Hne|intros l r Hl IH].
  - cbn [app separator last]. by rewrite text_lines_line.
  - rewrite separator_last, (text_lines_last l) by done. cbn [app]. by rewrite !text_lines_line.
  - rewrite separator_line, <-app_assoc. cbn [app]. by rewrite !text_lines_line, IH.
Qed.

Lemma needs_separator_spec io s : io_seek io = true ->
  (if needs_separator io (Some s) then [newline] else []) = separator s.
Proof. intros Hs. unfold needs_separator, separator. rewrite Hs. destruct (last s); [|done]. by destruct (Ascii.eqb _ _). Qed.

Lemma filter_absent {A} (f : A -> bool) (l : list A) : existsb f l = false -> List.filter (fun x => negb (f x)) l = l.
Proof. induction l as [|x l IH]; [done|]. cbn [existsb List.filter]. intros [-> Hl]%orb_false_iff. cbn [negb]. by rewrite IH. Qed.

Lemma update_refines io list_ path add ok changed list' :
  no_nul (default [] list_) -> no_nul path -> io_seek io = true ->
  update_manual_list io list_ path add = (ok, changed, list') ->
  no_nul (default [] list') /\
  (ok = false -> list' = list_) /\
  (ok = true -> exists p, sm_manual_normalize_path path = Some p /\ text_lines (default [] list') = lines_op add p (text_lines (default [] list_))).
Proof.
  intros Hs Hpath Hseek. unfold update_manual_list.
  destruct (sm_manual_normalize_path path) as [p|] eqn:Hn; [|by intros [= <- <- <-]].
  destruct (normalized_line path p Hn Hpath) as (Hp1 & Hp2 & Hlen & _).
  destruct (_ && _); [by intros [= <- <- <-]|]. destruct (negb _); [by intros [= <- <- <-]|].
  destruct (_ || _); [by intros [= <- <- <-]|]. unfold updated_list, lines_op. rewrite matches_lines by done.
  destruct add, (existsb (stands_for p) _) eqn:Hin.
  - intros [= <- <- <-]. split_and!; [done|done|]. intros _. exists p. by rewrite Hin.
  - destruct (io_rename io); [|by intros [= <- <- <-]]. intros [= <- <- <-]. cbn [default from_option id].
    assert (Hsep : (if needs_separator io list_ then [newline] else []) = separator (default [] list_)) by (destruct list_; [by apply needs_separator_spec|done]).
    rewrite Hsep, copy_read by done. split_and!; [|done|].
    + apply Forall_app_2; [done|]. apply Forall_app_2; [|by apply Forall_app_2; [|apply Forall_singleton]].
      rewrite <-Hsep. by destruct (needs_separator _ _); [apply Forall_singleton|].
    + intros _. exists p. split; [done|]. rewrite Hin. by apply appended_lines.
  - destruct (io_rename io); [|by intros [= <- <- <-]]. intros [= <- <- <-]. cbn [default from_option id].
    destruct (read_kept (fun l => negb (line_matches p l)) (default [] list_) Hs) as [Hk _]. split_and!; [done|done|].
    intros _. exists p. split; [done|]. by apply kept_lines.
  - intros [= <- <- <-]. split_and!; [done|done|]. intros _. exists p. split; [done|]. by rewrite filter_absent.
Qed.

(** For a path that is read as it is written, the lines give the paths. *)
Lemma entry_of_line p : is_entry p = true -> (length p < MAX_PATH)%nat -> trim_manual_line p = p -> entry_of p = Some p.
Proof.
  intros He Hl Ht. unfold entry_of. assert (Hs : (MAX_PATH <= MANUAL_LINE_SIZE - 1)%nat) by (apply Nat.leb_le; by vm_compute).
  rewrite Ht, He. destruct (Nat.ltb_spec (length p) (MANUAL_LINE_SIZE - 1)); [|lia]. by destruct (Nat.ltb_spec (length p) MAX_PATH); [|lia].
Qed.

Lemma lines_op_paths add p ls : entry_of p = Some p -> omap entry_of (lines_op add p ls) = list_op add p (omap entry_of ls).
Proof.
  intros Hp. destruct add; unfold lines_op, list_op.
  - assert (Hin : existsb (stands_for p) ls = bool_decide (p ∈ omap entry_of ls)).
    { apply eq_bool_prop_intro. rewrite bool_decide_spec, list_elem_of_omap, Is_true_true, existsb_exists. setoid_rewrite <-list_elem_of_In.
      unfold stands_for. by setoid_rewrite bool_decide_eq_true. }
    rewrite Hin. case_bool_decide; [done|]. rewrite omap_app. cbn [omap list_omap]. by rewrite Hp.
  - induction ls as [|l ls IH]; [done|]. cbn [List.filter]. rewrite (omap_option_list _ l ls). unfold stands_for at 1.
    destruct (entry_of l) as [q|] eqn:Hq.
    + change (option_list (Some q) ++ omap entry_of ls) with (q :: omap entry_of ls). cbn [List.filter]. destruct (decide (q = p)) as [->|Hne].
      * rewrite !bool_decide_true by done. exact IH.
      * rewrite !bool_decide_false by congruence. cbn [negb]. by rewrite omap_option_list, Hq, IH.
    + rewrite bool_decide_false by done. cbn [negb]. by rewrite omap_option_list, Hq, IH.
Qed.

(** A history of additions and removals, with the lines they should leave. *)
Record manual_op := ManualOp { mo_io : manual_io; mo_add : bool; mo_path : text }.

Definition manual_step (st : option text * list text) (op : manual_op) : option text * list text :=
  match update_manual_list (mo_io op) st.1 (mo_path op) (mo_add op), sm_manual_normalize_path (mo_path op) with
  | (true, _, l), Some p => (l, lines_op (mo_add op) p st.2)
  | (_, _, l), _ => (l, st.2)
  end.

(** The path is a C string, and seeking in the list, once it is open, works. *)
Definition op_good (op : manual_op) : Prop := no_nul (mo_path op) /\ io_seek (mo_io op) = true.

(** Claim C31: manual.lst implements a list of lines, some of which stand for a path.  For
    any history of additions and removals, with any failures of opening, reading, writing
    and renaming files (but seeking in the open list works, and neither the list nor a path
    holds a NUL), the lines of the file are those that the successful operations leave: an
    addition appends the normalised path as a line unless a line stands for it, a removal
    drops exactly the lines that stand for it, every other line (comments, blank and over-long
    lines, other paths) is kept as it was, and a failed operation changes nothing; the
    reader delivers what the lines stand for.  When the normalised path is read back as it
    is written, the delivered paths change as a list of paths does.  (A path such as
    "/data/x /", with white space before its final slash, is not: the line added for it stands
    for another path, so it is added again and again, and its removal succeeds and leaves
    that line: [manual_space_path_stuck].) *)
Theorem manual_list_refines list_ ops :
  no_nul (default [] list_) -> Forall op_good ops ->
  (let '(list', ls) := foldl manual_step (list_, text_lines (default [] list_)) ops in
   text_lines (default [] list') = ls /\ manual_paths list' = omap entry_of ls) /\
  forall path p add ls, no_nul path -> sm_manual_normalize_path path = Some p -> trim_manual_line p = p ->
    omap entry_of (lines_op add p ls) = list_op add p (omap entry_of ls).
Proof.
  intros Hs Hops. split.
  - revert list_ Hs. induction Hops as [|op ops (Hp & Hk) _ IH]; intros list_ Hs.
    + simpl. split; [done|]. by rewrite manual_paths_visited, visited_lines.
    + cbn [foldl]. unfold manual_step at 2. cbn [fst snd].
      destruct (update_manual_list _ _ _ _) as [[ok changed] list'] eqn:Hu.
      destruct (update_refines _ _ _ _ _ _ _ Hs Hp Hk Hu) as (Hs' & Hf & Hok). destruct ok.
      * destruct (Hok eq_refl) as (p & -> & <-). by apply IH.
      * rewrite (Hf eq_refl). by apply IH.
  - intros path p add ls Hnul Hn Ht. destruct (normalized_line path p Hn Hnul) as (_ & _ & Hl & He). by apply lines_op_paths, entry_of_line.
Qed.

Definition manual_example : option text := Some (lit "# mine" ++ [newline] ++ lit "/data/a/ " ++ [newline] ++ lit "/data/b").

Lemma manual_list_refines_witness :
  let ops := [ManualOp all_fine true (lit " /data/c/"); ManualOp all_fine true (lit "/data/a");
              ManualOp all_fine true (lit "/data/x /"); ManualOp all_fine false (lit "/data/b")] in
  let '(list', ls) := foldl manual_step (manual_example, text_lines (default [] manual_example)) ops in
  ls = [lit "# mine"; lit "/data/a/ "; lit "/data/c"; lit "/data/x "] /\
  text_lines (default [] list') = ls /\ manual_paths list' = [lit "/data/a"; lit "/data/c"; lit "/data/x"].
Proof.
  intros ops. assert (H : text_lines (default [] (foldl manual_step (manual_example, text_lines (default [] manual_example)) ops).1) =
      (foldl manual_step (manual_example, text_lines (default [] manual_example)) ops).2).
  { destruct (manual_list_refines manual_example ops) as [H _].
    - repeat (apply Forall_cons_2; [reflexivity|]). apply Forall_nil_2.
    - repeat apply Forall_cons_2; try apply Forall_nil_2; (split; [repeat (apply Forall_cons_2; [reflexivity|]); apply Forall_nil_2|reflexivity]).
    - destruct (foldl manual_step _ ops) as [list' ls]. exact (proj1 H). }
  destruct (foldl manual_step _ ops) as [list' ls] eqn:Hf. vm_compute in Hf. injection Hf as <- <-.
  split; [vm_compute; reflexivity|]. split; [exact H|]. vm_compute. reflexivity.
Defined.

(** a path with a space before a trailing slash cannot be managed.
    [trim_manual_line] removes the white space before the slashes, so the path is
    stored with a trailing space that every reader removes: after a successful
    addition the list holds another path, a second addition adds it again, and
    a removal reports success without removing anything. *)
Theorem manual_space_path_stuck :
  let path := lit "/data/x /" in
  let '(ok1, changed1, l1) := sm_manual_add_path all_fine None path in
  let '(ok2, changed2, l2) := sm_manual_add_path all_fine l1 path in
  let '(ok3, changed3, l3) := sm_manual_remove_path all_fine l2 path in
  ok1 = true /\ changed1 = true /\ manual_paths l1 = [lit "/data/x"] /\
  ok2 = true /\ changed2 = true /\ manual_paths l2 = [lit "/data/x"; lit "/data/x"] /\
  ok3 = true /\ changed3 = false /\ l3 = l2.
Proof. vm_compute. repeat split. Qed.

(** ** The status file *)
Definition field_chars (s : text) : Prop := Forall (fun a => Ascii.eqb tab a = false /\ Ascii.eqb newline a = false /\ Ascii.eqb nul a = false) s.

(** An entry that survives being written. *)
Record entry_ok (e : manual_status_entry_t) : Prop := EntryOk {
  eo_status : me_status e <> MANUAL_STATUS_UNKNOWN;
  eo_id : field_chars (me_title_id e) /\ me_title_id e <> [] /\ trim_manual_line (me_title_id e) = me_title_id e /\
    (length (me_title_id e) < MAX_TITLE_ID)%nat;
  eo_path : field_chars (me_path e) /\ me_path e <> [] /\ trim_manual_line (me_path e) = me_path e /\ (length (me_path e) < MAX_PATH)%nat;
  eo_name : field_chars (me_title_name e) /\ trim_manual_line (me_title_name e) = me_title_name e /\
    (length (me_title_name e) < MAX_TITLE_NAME)%nat;
}.

Definition unmark (e : manual_status_entry_t) : manual_status_entry_t :=
  ManualEntry (me_path e) (me_title_id e) (me_title_name e) (me_status e) false.

Lemma strtok_field d x r : Forall (fun a => Ascii.eqb d a = false) x -> x <> [] -> strtok d (x ++ d :: r) = Some (x, r).
Proof.
  intros Hx Hne. unfold strtok. destruct x as [|a x]; [done|].
  assert (Hs : skip_delim d ((a :: x) ++ d :: r) = (a :: x) ++ d :: r).
  { apply Forall_cons in Hx as [Ha _]. cbn [app skip_delim]. by rewrite Ascii.eqb_sym, Ha. }
  rewrite Hs. cbn [app]. change (a :: x ++ d :: r) with ((a :: x) ++ d :: r). rewrite break_app; [|done|by rewrite Ascii.eqb_refl].
  done.
Qed.

Lemma copy_text_id n s : (length s < n)%nat -> copy_text n s = s.
Proof. intros. unfold copy_text. rewrite take_ge by lia. done. Qed.

Lemma status_name_parse s : s <> MANUAL_STATUS_UNKNOWN -> parse_manual_status_name (trim_manual_line (manual_status_name s)) = s.
Proof. by destruct s; [|vm_compute|vm_compute]. Qed.

Lemma field_no_tab s : field_chars s -> Forall (fun a => Ascii.eqb tab a = false) s.
Proof. intros Hs. eapply Forall_impl; [exact Hs|]. by intros a (? & _). Qed.

Lemma field_no_newline s : field_chars s -> Forall (fun a => Ascii.eqb newline a = false) s.
Proof. intros Hs. eapply Forall_impl; [exact Hs|]. by intros a (_ & ? & _). Qed.

Lemma status_name_chars s : field_chars (manual_status_name s).
Proof. destruct s; repeat (apply Forall_cons_2; [done|]); apply Forall_nil_2. Qed.

Lemma entry_text_ok e : entry_ok e -> entry_text e =
  manual_status_name (me_status e) ++ [tab] ++ me_title_id e ++ [tab] ++ me_path e ++ [tab] ++ me_title_name e ++ [newline].
Proof.
  intros [Hs (_ & Hi & _) (_ & Hp & _) _]. unfold entry_text. by rewrite !bool_decide_false by done.
Qed.

Lemma parse_entry_text e : entry_ok e -> parse_manual_status_line (entry_text e) = Some (unmark e).
Proof.
  intros He. rewrite entry_text_ok by done. destruct He as [Hs (Hi & Hine & Hit & Hil) (Hp & Hpne & Hpt & Hpl) (Hn & Hnt & Hnl)].
  unfold parse_manual_status_line. cbn [app].
  rewrite strtok_field; [|apply field_no_tab, status_name_chars|by destruct (me_status e)].
  rewrite strtok_field; [|by apply field_no_tab|done]. rewrite strtok_field; [|by apply field_no_tab|done].
  rewrite status_name_parse, Hit, Hpt by done. rewrite !bool_decide_false by done. cbn [orb]. unfold unmark. do 2 f_equal;
    [by apply copy_text_id|by apply copy_text_id|]. destruct (me_title_name e) as [|a n] eqn:Hname; [done|].
  rewrite strtok_field; [|rewrite <-Hname in *; by apply field_no_newline|done]. rewrite Hnt. by apply copy_text_id.
Qed.

Opaque MANUAL_STATUS_LINE_SIZE.

(** An entry is a line that fits the buffer. *)
Lemma entry_line e : entry_ok e -> exists l, entry_text e = l ++ [newline] /\ no_newline l /\ no_nul l /\
  (length l < MANUAL_STATUS_LINE_SIZE - 1)%nat.
Proof.
  intros He. exists (manual_status_name (me_status e) ++ [tab] ++ me_title_id e ++ [tab] ++ me_path e ++ [tab] ++ me_title_name e).
  rewrite entry_text_ok by done. destruct He as [_ (Hi & _ & _ & Hil) (Hp & _ & _ & Hpl) (Hn & _ & Hnl)].
  split; [by rewrite <-!app_assoc|].
  assert (Hchars : Forall (fun a => Ascii.eqb newline a = false /\ Ascii.eqb nul a = false)
    (manual_status_name (me_status e) ++ [tab] ++ me_title_id e ++ [tab] ++ me_path e ++ [tab] ++ me_title_name e)).
  { assert (Hf : forall s, field_chars s -> Forall (fun a => Ascii.eqb newline a = false /\ Ascii.eqb nul a = false) s).
    { intros s Hs. eapply Forall_impl; [exact Hs|]. by intros a (_ & ? & ?). }
    repeat apply Forall_app_2; try (by apply Hf); try (by apply Forall_singleton). apply Hf, status_name_chars. }
  split_and!.
  - eapply Forall_impl; [exact Hchars|]. intros a [? _]. by rewrite Ascii.eqb_sym.
  - eapply Forall_impl; [exact Hchars|]. by intros a [_ ?].
  - assert (Hname : (length (manual_status_name (me_status e)) <= 9)%nat) by (destruct (me_status e); vm_compute; lia).
    assert (Hsz : (MANUAL_STATUS_LINE_SIZE - 1 = MAX_PATH + MAX_TITLE_NAME + MAX_TITLE_ID + 63)%nat) by reflexivity.
    rewrite Hsz, !length_app. cbn [length]. lia.
Qed.

Lemma status_lines_entries fuel es : Forall entry_ok es -> (length (concat (entry_text <$> es)) <= fuel)%nat ->
  status_lines fuel (concat (entry_text <$> es)) = entry_text <$> es.
Proof.
  intros Hes. revert fuel. induction Hes as [|e es He Hes IH]; intros fuel Hf; [by destruct fuel|].
  rewrite fmap_cons in Hf |- *. cbn [concat] in Hf |- *. destruct (entry_line e He) as (l & Hl & Hn & Hz & Hlen).
  rewrite Hl, <-app_assoc in Hf |- *. cbn [app] in Hf |- *. rewrite length_app in Hf. cbn [length] in Hf.
  destruct fuel as [|fuel]; [lia|]. cbn [status_lines].
  destruct (l ++ newline :: concat (entry_text <$> es)) as [|z zs] eqn:Hzs; [by destruct l|]. rewrite <-Hzs.
  rewrite take_line_short by done. rewrite c_str_id by (apply Forall_app_2; [done|by apply Forall_singleton]).
  by rewrite IH by lia.
Qed.

Lemma omap_entries es : Forall entry_ok es -> omap parse_manual_status_line (entry_text <$> es) = unmark <$> es.
Proof.
  induction 1 as [|e es He _ IH]; [done|]. rewrite fmap_cons, omap_option_list, parse_entry_text by done. by rewrite IH.
Qed.

Lemma load_entries es : Forall entry_ok es -> (length es <= MANUAL_STATUS_CAPACITY)%nat ->
  load_manual_status all_fine (Some (concat (entry_text <$> es))) = unmark <$> es.
Proof.
  intros Hes Hlen. unfold load_manual_status. cbn [io_open all_fine negb]. unfold delivered. cbn [io_error_at all_fine].
  rewrite status_lines_entries, omap_entries by done. apply take_ge. by rewrite length_fmap.
Qed.

(** Reconciling keeps the entries writable. *)
Lemma reconcile_ok titles e : entry_ok e -> entry_ok (reconcile_entry titles e).
Proof. intros [? ? ? ?]. unfold reconcile_entry. by destruct (title_gone _ _). Qed.

Lemma unmark_ok e : entry_ok e -> entry_ok (unmark e).
Proof. by intros [? ? ? ?]. Qed.

Lemma removed_line_visited es l : Forall (fun e => length (me_path e) < MAX_PATH)%nat es ->
  removed_line es l = match visited_line l with
                      | Some p => existsb (fun e => me_remove_from_list e && bool_decide (me_path e = p)) es | None => false end.
Proof.
  intros Hes. unfold removed_line, visited_line. destruct (ml_truncated l); cbn [negb orb andb]; [by destruct (negb _)|].
  destruct (is_entry _); cbn [negb andb]; [|done]. destruct (Nat.leb_spec MAX_PATH (length (trim_manual_line (ml_line l)))) as [Hl|]; [|done].
  induction Hes as [|e es He _ IH]; [done|]. cbn [existsb]. rewrite IH. rewrite bool_decide_false, andb_false_r; [done|].
  intros Hp. rewrite Hp in He. lia.
Qed.

Lemma existsb_gone titles es p : Forall (fun e => me_remove_from_list e = false) es ->
  existsb (fun e => me_remove_from_list e && bool_decide (me_path e = p)) (reconcile_entry titles <$> es) =
  existsb (fun e => bool_decide (me_path e = p)) (List.filter (title_gone titles) es).
Proof.
  induction 1 as [|e es He _ IH]; [done|]. rewrite fmap_cons. cbn [existsb List.filter]. rewrite IH. unfold reconcile_entry.
  destruct (title_gone titles e); [done|]. by rewrite He.
Qed.

Lemma title_gone_unmark titles e : title_gone titles (unmark e) = title_gone titles e.
Proof. done. Qed.

(** What the entries are afterwards. *)
Definition reconciled (titles : text -> bool) (e : manual_status_entry_t) : manual_status_entry_t :=
  unmark (reconcile_entry titles e).

Lemma reconciled_stays titles e : title_gone titles (reconciled titles e) = false.
Proof.
  unfold reconciled. rewrite title_gone_unmark. unfold reconcile_entry. destruct (title_gone titles e) eqn:He; [|done].
  unfold title_gone. by rewrite bool_decide_false.
Qed.

(** ** Reconciling with the database *)

(** The state of the files: a list without NUL bytes, and a status file that was
    written for the entries [es]. *)
Record files_ok (es : list manual_status_entry_t) (st : manual_state) : Prop := FilesOk {
  fo_list : no_nul (default [] (ms_list st));
  fo_status : ms_status st = Some (concat (entry_text <$> es));
  fo_entries : Forall entry_ok es;
  fo_unmarked : Forall (fun e => me_remove_from_list e = false) es;
  fo_capacity : (length es <= MANUAL_STATUS_CAPACITY)%nat;
}.

Lemma unmark_id es : Forall (fun e => me_remove_from_list e = false) es -> unmark <$> es = es.
Proof. induction 1 as [|[p i n s r] es He _ IH]; [done|]. rewrite fmap_cons, IH. unfold unmark. simpl in *. by rewrite He. Qed.

Lemma files_load es st : files_ok es st -> load_manual_status all_fine (ms_status st) = es.
Proof. intros [_ -> He Hu Hc]. rewrite load_entries by done. by apply unmark_id. Qed.

Lemma entry_text_unmark e : entry_text (unmark e) = entry_text e.
Proof. done. Qed.

Lemma written_reconciled titles es :
  concat (entry_text <$> (reconcile_entry titles <$> es)) = concat (entry_text <$> (reconciled titles <$> es)).
Proof. f_equal. rewrite <-!list_fmap_compose. apply list_fmap_ext. intros i e _. done. Qed.

Lemma rewrite_list_spec s es :
  no_nul s -> Forall (fun e => length (me_path e) < MAX_PATH)%nat es ->
  exists s', rewrite_manual_list_without_deleted_entries all_fine (Some s) es = (true, Some s') /\ no_nul s' /\
    visited s' = List.filter (fun p => negb (existsb (fun e => me_remove_from_list e && bool_decide (me_path e = p)) es)) (visited s).
Proof.
  intros Hs Hes. unfold rewrite_manual_list_without_deleted_entries. cbn [io_open io_temp io_read io_error_at io_written io_rename all_fine negb orb].
  pose proof (visited_filter (removed_line es) (fun p => existsb (fun e => me_remove_from_list e && bool_decide (me_path e = p)) es)
    (read_manual_lines s) (fun l => removed_line_visited es l Hes)) as Hv.
  destruct (existsb (removed_line es) (read_manual_lines s)) eqn:Hex.
  - destruct (read_kept (fun l => negb (removed_line es l)) s Hs) as [Hk1 Hk2]. eexists. split; [reflexivity|]. split; [done|].
    unfold visited at 1. by rewrite Hk2.
  - exists s. split; [done|]. split; [done|]. unfold visited. rewrite <-Hv. f_equal.
    clear Hv. induction (read_manual_lines s) as [|l ls IH]; [done|]. cbn [existsb List.filter] in *.
    apply orb_false_iff in Hex as [-> Hex]. cbn [negb]. by rewrite <-IH.
Qed.

Lemma reconciled_id titles es : Forall (fun e => me_remove_from_list e = false) es ->
  List.filter (title_gone titles) es = [] -> reconciled titles <$> es = es.
Proof.
  induction 1 as [|[p i n s r] es He _ IH]; [done|]. cbn [List.filter]. destruct (title_gone titles _) eqn:Hgone; [done|].
  intros Hg. rewrite fmap_cons, IH by done. unfold reconciled, reconcile_entry. rewrite Hgone. unfold unmark. simpl in *. by rewrite He.
Qed.

Lemma reconciled_none titles es : List.filter (title_gone titles) (reconciled titles <$> es) = [].
Proof. induction es as [|e es IH]; [done|]. rewrite fmap_cons. cbn [List.filter]. by rewrite reconciled_stays. Qed.

(** a title the user deleted from the console is dropped from the manual
    list.  When the files are readable and writable, reconciling with the
    database succeeds; the sources of the installed titles that are no longer in the
    database are exactly those that disappear from manual.lst, their entries are
    marked deleted in manual.status and all other entries are kept, and a pending
    installation and the attempt counters of each such title are reset.
    Reconciling again with the same database changes nothing. *)
Theorem manual_reconcile_spec titles es st : files_ok es st ->
  let gone := List.filter (title_gone titles) es in
  let '(ok, st') := sm_manual_reconcile_deleted_titles all_fine all_fine all_fine titles true st in
  ok = true /\
  manual_paths (ms_list st') = List.filter (fun p => negb (existsb (fun e => bool_decide (me_path e = p)) gone)) (manual_paths (ms_list st)) /\
  load_manual_status all_fine (ms_status st') = reconciled titles <$> es /\
  (ms_queue st', ms_titles st') = foldl (fun acc e => forget_title e acc) (ms_queue st, ms_titles st) gone /\
  sm_manual_reconcile_deleted_titles all_fine all_fine all_fine titles true st' = (true, st').
Proof.
  intros Hst. set (gone := List.filter (title_gone titles) es). cbn zeta.
  assert (Hagain : forall st', load_manual_status all_fine (ms_status st') = reconciled titles <$> es ->
    sm_manual_reconcile_deleted_titles all_fine all_fine all_fine titles true st' = (true, st')).
  { intros st' Hl. unfold sm_manual_reconcile_deleted_titles. cbn [negb]. by rewrite Hl, reconciled_none. }
  unfold sm_manual_reconcile_deleted_titles at 1. cbn [negb]. rewrite (files_load es st) by done. fold gone.
  destruct gone as [|g gone'] eqn:Hg.
  - assert (Hid : reconciled titles <$> es = es) by (by apply reconciled_id; [destruct Hst|]).
    assert (Hl : load_manual_status all_fine (ms_status st) = reconciled titles <$> es) by (rewrite Hid; by apply files_load).
    split_and!; [done| |done|done|by apply Hagain]. cbn [existsb negb].
    induction (manual_paths (ms_list st)) as [|p ps IH]; [done|]. cbn [List.filter]. by f_equal.
  - rewrite <-Hg. clear g gone' Hg. destruct (foldl _ _ gone) as [queue table] eqn:Hfold.
    destruct Hst as [Hlist Hstatus Hok Hun Hcap].
    assert (Hlen : Forall (fun e => length (me_path e) < MAX_PATH)%nat (reconcile_entry titles <$> es)).
    { apply Forall_fmap. eapply Forall_impl; [exact Hok|]. intros e He. apply (reconcile_ok titles) in He. by destruct He as [_ _ (_ & _ & _ & ?) _]. }
    assert (Hload : load_manual_status all_fine (Some (concat (entry_text <$> (reconcile_entry titles <$> es)))) = reconciled titles <$> es).
    { rewrite load_entries; [by rewrite <-list_fmap_compose| |by rewrite length_fmap].
      apply Forall_fmap. eapply Forall_impl; [exact Hok|]. intros e He. by apply reconcile_ok. }
    assert (Hrw : exists list', rewrite_manual_list_without_deleted_entries all_fine (ms_list st) (reconcile_entry titles <$> es) = (true, list') /\
      manual_paths list' = List.filter (fun p => negb (existsb (fun e => bool_decide (me_path e = p)) gone)) (manual_paths (ms_list st))).
    { destruct (ms_list st) as [s|]; [|by exists None].
      destruct (rewrite_list_spec s (reconcile_entry titles <$> es) Hlist Hlen) as (s' & -> & _ & Hv). exists (Some s'). split; [done|].
      rewrite !manual_paths_visited. cbn [default from_option id]. rewrite Hv. apply filter_ext. intros p. f_equal. by apply existsb_gone. }
    destruct Hrw as (list' & -> & Hpaths). cbn [negb write_manual_status io_temp io_written io_rename all_fine andb].
    split_and!; [done|done|done|done|]. by apply Hagain.
Qed.

(** Two titles, one of which the database does not know. *)
Definition manual_es : list manual_status_entry_t :=
  [ManualEntry (lit "/data/a") (lit "PPSA00001") (lit "A Game") MANUAL_STATUS_INSTALLED false;
   ManualEntry (lit "/data/b") (lit "PPSA00002") [] MANUAL_STATUS_INSTALLED false].

Definition manual_st : manual_state :=
  ManualState manual_example (Some (concat (entry_text <$> manual_es))) empty_queue (empty_table).

Definition knows_second (id : text) : bool := bool_decide (id = lit "PPSA00002").

(** Deciding the conditions on entries. *)
Definition charsb (s : text) : bool :=
  forallb (fun a => negb (Ascii.eqb tab a) && negb (Ascii.eqb newline a) && negb (Ascii.eqb nul a)) s.

Lemma charsb_ok s : charsb s = true -> field_chars s.
Proof.
  unfold charsb. rewrite forallb_forall. intros H. apply Forall_forall. intros a Ha. specialize (H a ltac:(by apply list_elem_of_In)).
  by bool_hyps.
Qed.

Lemma manual_files : files_ok manual_es manual_st.
Proof.
  split.
  - repeat (apply Forall_cons_2; [reflexivity|]). apply Forall_nil_2.
  - reflexivity.
  - repeat apply Forall_cons_2; try apply Forall_nil_2;
      (split; [done| | |]; split_and!; try (by apply charsb_ok; vm_compute); try done; apply Nat.ltb_lt; by vm_compute).
  - repeat (apply Forall_cons_2; [reflexivity|]). apply Forall_nil_2.
  - apply Nat.leb_le. by vm_compute.
Qed.

Lemma manual_reconcile_spec_witness :
  manual_paths (ms_list manual_st) = [lit "/data/a"; lit "/data/b"] /\
  let '(ok, st') := sm_manual_reconcile_deleted_titles all_fine all_fine all_fine knows_second true manual_st in
  ok = true /\ manual_paths (ms_list st') = [lit "/data/b"].
Proof.
  split; [vm_compute; reflexivity|]. pose proof (manual_reconcile_spec knows_second manual_es manual_st manual_files) as H. cbv zeta in H.
  destruct (sm_manual_reconcile_deleted_titles _ _ _ _ _ _) as [ok st']. destruct H as (-> & -> & _). split; [done|].
  vm_compute. reflexivity.
Defined.

(** A title noted as installed is in the status file from then on, with the other
    entries as they were. *)
Lemma manual_note_recorded es st path title_id title_name e0 i es' :
  files_ok es st -> path <> [] -> title_id <> [] ->
  match find_manual_status_entry es path title_id with
  | Some k => i = k /\ es' = es
  | None => (length es < MANUAL_STATUS_CAPACITY)%nat /\ i = length es /\ es' = es ++ [blank_entry]
  end ->
  es' !! i = Some e0 -> entry_unchanged path title_id title_name e0 = false ->
  entry_ok (note_entry path title_id title_name e0) ->
  load_manual_status all_fine (sm_manual_note_installed all_fine all_fine path title_id title_name (ms_status st)) =
  <[i := note_entry path title_id title_name e0]> es'.
Proof.
  intros Hst Hp Hi Hplace He0 Hun Hok. unfold sm_manual_note_installed. rewrite (files_load es st) by done.
  destruct path as [|a path]; [done|]. destruct title_id as [|b title_id]; [done|].
  set (place := match find_manual_status_entry es (a :: path) (b :: title_id) with Some _ => _ | None => _ end).
  assert (Hpl : place = Some (i, es')).
  { unfold place. destruct (find_manual_status_entry _ _ _) as [k|]; [by destruct Hplace as [-> ->]|]. destruct Hplace as (Hc & -> & ->).
    by destruct (Nat.leb_spec MANUAL_STATUS_CAPACITY (length es)); [lia|]. }
  rewrite Hpl, He0, Hun. cbn [write_manual_status io_temp io_written io_rename all_fine andb snd].
  assert (Hnew : me_remove_from_list (note_entry (a :: path) (b :: title_id) title_name e0) = false).
  { destruct Hst as [_ _ _ Hu _]. simpl. destruct (find_manual_status_entry _ _ _) as [k|].
    - destruct Hplace as [-> ->]. rewrite Forall_lookup in Hu. by apply (Hu k).
    - destruct Hplace as (_ & -> & ->). rewrite lookup_app_r, Nat.sub_diag in He0 by lia. by injection He0 as <-. }
  assert (Hins : Forall entry_ok (<[i := note_entry (a :: path) (b :: title_id) title_name e0]> es') /\
    Forall (fun e => me_remove_from_list e = false) (<[i := note_entry (a :: path) (b :: title_id) title_name e0]> es') /\
    (length es' <= MANUAL_STATUS_CAPACITY)%nat).
  { destruct Hst as [_ _ Hall Hu Hc]. destruct (find_manual_status_entry _ _ _) as [k|].
    - destruct Hplace as [-> ->]. split_and!; [by apply Forall_insert|by apply Forall_insert|done].
    - destruct Hplace as (Hlt & -> & ->). rewrite insert_app_r_alt, Nat.sub_diag by lia. cbn [list_insert].
      split_and!; [by apply Forall_app_2; [|apply Forall_singleton]..|rewrite length_app; simpl; lia]. }
  destruct Hins as (H1 & H2 & H3). rewrite load_entries; [by apply unmark_id|done|by rewrite length_insert].
Qed.
