(* ===== verification/ImageKinds.v ===== *)
(** * Kinds of disk images, and how each is attached (src/sm_image.c, include/sm_mount_defs.h)

    The decisions of the image code that need no device: the file system of an
    image by its name, the mount point of a source, and the parameters of the attach
    and mount requests.  [statfs] of the source and the size of the field
    [f_mntonname] of the system's [struct statfs] are parameters. *)
From S2P Require Import Prelude CString ImageCache IniFile SmbAddress ConfigState ConfigStore.
From stdpp Require Import list.
Open Scope Z_scope.
Open Scope c_scope.

(** ** File systems *)
Inductive image_fs_type_t := IMAGE_FS_UNKNOWN | IMAGE_FS_UFS | IMAGE_FS_EXFAT | IMAGE_FS_PFS | IMAGE_FS_PFSC_CONTAINER.

#[export] Instance image_fs_type_eq_dec : EqDecision image_fs_type_t.
Proof. solve_decision. Defined.

Definition dot : ascii := "."%char.

Definition detect_image_fs_type (name : string) : image_fs_type_t :=
  match after_last name dot with
  | None => IMAGE_FS_UNKNOWN
  | Some ext =>
      let ext_is x := strcasecmp_eq (lit ext) (lit x) in
      if ext_is "ffpkg" then IMAGE_FS_UFS
      else if ext_is "exfat" then IMAGE_FS_EXFAT
      else if ext_is "ffpfs" then IMAGE_FS_PFS
      else if ext_is "ffpfsc" then IMAGE_FS_PFSC_CONTAINER
      else IMAGE_FS_UNKNOWN
  end%string.

Definition is_nested_pfs_image_file_name (name : string) : bool := strcasecmp_eq (lit name) (lit "pfs_image.dat").

(** [name] is the last component of the path when it is empty. *)
Definition detect_image_fs_type_for_path (path name : string) : image_fs_type_t :=
  let filename := if strcmp_eq name "" then get_filename_component path else name in
  match detect_image_fs_type filename with
  | IMAGE_FS_UNKNOWN =>
      if is_nested_pfs_image_file_name filename && is_pfsc_image_mount_base_or_child path
      then IMAGE_FS_PFS else IMAGE_FS_UNKNOWN
  | t => t
  end.

Definition is_supported_image_file_name (name : string) : bool :=
  negb (bool_decide (detect_image_fs_type name = IMAGE_FS_UNKNOWN)).

Definition is_supported_image_file_path (path name : string) : bool :=
  negb (bool_decide (detect_image_fs_type_for_path path name = IMAGE_FS_UNKNOWN)).

Definition image_fs_name (t : image_fs_type_t) : string :=
  match t with
  | IMAGE_FS_UFS => "ufs" | IMAGE_FS_EXFAT => "exfatfs" | IMAGE_FS_PFS => "pfs" | IMAGE_FS_PFSC_CONTAINER => "pfsc"
  | IMAGE_FS_UNKNOWN => "unknown"
  end.

Definition image_fs_type_name_for_path (path : string) : string := image_fs_name (detect_image_fs_type_for_path path "").

Definition image_fs_type_is_pfs (t : image_fs_type_t) : bool :=
  match t with IMAGE_FS_PFS | IMAGE_FS_PFSC_CONTAINER => true | _ => false end.

Definition pfs_path_is_nested_inner (path : string) (t : image_fs_type_t) : bool :=
  bool_decide (t = IMAGE_FS_PFS) && is_pfsc_image_mount_base_or_child path.

Definition pfs_path_uses_nested_profile (path : string) (t : image_fs_type_t) : bool :=
  bool_decide (t = IMAGE_FS_PFSC_CONTAINER) || pfs_path_is_nested_inner path t.

(** ** Mount points *)

(** The text before the last dot. *)
Fixpoint before_last (s : string) (c : ascii) : option string :=
  match s with
  | EmptyString => None
  | String a s' =>
      match before_last s' c with
      | Some r => Some (String a r)
      | None => if Ascii.eqb a c then Some EmptyString else None
      end
  end.

Definition strip_extension (filename : string) (out_size : nat) : string :=
  strlcpy (default filename (before_last filename dot)) out_size.

(** [%08x]. *)
Definition hex_digit (n : Z) : ascii := ascii_of_nat (Z.to_nat (if n <? 10 then 48 + n else 87 + n)).

Fixpoint hex (digits : nat) (n : Z) (acc : string) : string :=
  match digits with O => acc | S d => hex d (Z.shiftr n 4) (String (hex_digit (Z.land n 15)) acc) end.

Section mount_point.
(** The size of the field [f_mntonname]. *)
Context (MNAMELEN : nat).

Definition mount_base (t : image_fs_type_t) : string :=
  match t with IMAGE_FS_PFSC_CONTAINER => PFSC_IMAGE_MOUNT_BASE | _ => IMAGE_MOUNT_BASE end.

Definition build_image_mount_point_for_fs (file_path : string) (t : image_fs_type_t) : string :=
  let base_name := strip_extension (get_filename_component file_path) MAX_PATH in
  let max_base_len := (MNAMELEN - strlen (mount_base t) - 11)%nat in
  strlcpy (String.append (mount_base t) (String slash (String.append (String.substring 0 max_base_len base_name)
             (String "_"%char (hex 8 (sm_fnv1a32 file_path) EmptyString))))) MAX_PATH.

Definition build_image_mount_point (file_path : string) : string :=
  build_image_mount_point_for_fs file_path (detect_image_fs_type_for_path file_path "").

Definition get_image_mount_point_for_source (file_path : string) : string := build_image_mount_point file_path.
End mount_point.

(** ** Attach parameters *)
Definition LVD_ATTACH_IMAGE_TYPE_SINGLE : Z := 0.
Definition LVD_ATTACH_IMAGE_TYPE_SAVE_DATA : Z := 5.
Definition LVD_ATTACH_IMAGE_TYPE_DOWNLOAD_DATA : Z := 7.
Definition PFS_NESTED_OUTER_IMG_TYPE : Z := 0x02.
Definition PFS_NESTED_INNER_IMG_TYPE : Z := 0x82.
Definition LVD_SECTOR_SIZE_PFS : Z := 4096.
Definition LVD_SECONDARY_UNIT_IMAGE_IO : Z := 0x10000.

Definition LVD_ATTACH_RAW_BIT_RO_VARIANT : Z := 0x0001.
Definition LVD_ATTACH_RAW_BIT_INNER_PROFILE : Z := 0x0002.
Definition LVD_ATTACH_RAW_BIT_DOWNLOAD_DATA_PROFILE : Z := 0x0004.
Definition LVD_ATTACH_RAW_BIT_SINGLE_SAVE_PROFILE : Z := 0x0008.
Definition LVD_ATTACH_RAW_PASSTHROUGH_MASK : Z := 0x8000.
Definition LVD_ATTACH_FLAG_DOWNLOAD_DATA_PROFILE : Z := 0x0002.
Definition LVD_ATTACH_FLAG_BASE : Z := 0x0004.
Definition LVD_ATTACH_FLAG_RO_VARIANT : Z := 0x0008.
Definition LVD_ATTACH_FLAG_SINGLE_SAVE_PROFILE : Z := 0x0010.
Definition LVD_ATTACH_FLAG_INNER_PROFILE : Z := 0x0080.

Definition LVD_ATTACH_RAW_FLAGS_SINGLE_RW : Z := LVD_ATTACH_RAW_BIT_SINGLE_SAVE_PROFILE.
Definition LVD_ATTACH_RAW_FLAGS_SINGLE_RO : Z := Z.lor LVD_ATTACH_RAW_FLAGS_SINGLE_RW LVD_ATTACH_RAW_BIT_RO_VARIANT.
Definition LVD_ATTACH_RAW_FLAGS_DD_RW : Z := Z.lor LVD_ATTACH_RAW_BIT_SINGLE_SAVE_PROFILE LVD_ATTACH_RAW_BIT_DOWNLOAD_DATA_PROFILE.
Definition LVD_ATTACH_RAW_FLAGS_DD_RO : Z := Z.lor LVD_ATTACH_RAW_FLAGS_DD_RW LVD_ATTACH_RAW_BIT_RO_VARIANT.

Definition get_nested_pfs_img_type (path : string) (t : image_fs_type_t) : Z :=
  if pfs_path_is_nested_inner path t then PFS_NESTED_INNER_IMG_TYPE else PFS_NESTED_OUTER_IMG_TYPE.

Definition pfs_lvd_game_image_type_from_selector (selector : Z) : Z :=
  let idx := u32 (Z.land (Z.shiftr selector 7) 1 + 2 * Z.land selector 0x1F) in
  let idx' := Z.lxor idx 1 in
  if 8 <=? idx' then LVD_ATTACH_IMAGE_TYPE_SAVE_DATA
  else default 0 ([1; 2; 3; 4; 8; 9; 10; 11] !! Z.to_nat idx').

Record image_mount_profile_t := MountProfile { legacy : bool; nested_backing_cache : bool }.

Definition get_image_mount_profile (cfg : runtime_config_t) (path : string) (t : image_fs_type_t) : image_mount_profile_t :=
  let optimized_source := path_matches_root_or_child path "/data" || path_matches_root_or_child path "/user" in
  let path_selected_profile :=
    bool_decide (t = IMAGE_FS_UFS) || bool_decide (t = IMAGE_FS_EXFAT) ||
    (bool_decide (t = IMAGE_FS_PFS) && negb (pfs_path_is_nested_inner path t)) in
  MountProfile (pfs_path_uses_nested_profile path t || (path_selected_profile && negb optimized_source))
    (rc_nested_pfs_index_cache_enabled cfg).

Definition should_prepare_nested_backing_cache (profile : image_mount_profile_t) (path : string) : bool :=
  nested_backing_cache profile && is_pfsc_image_mount_base_or_child path.

Definition get_lvd_sector_size_fallback (cfg : runtime_config_t) (t : image_fs_type_t) : Z :=
  match t with
  | IMAGE_FS_UFS => rc_lvd_sector_ufs cfg
  | IMAGE_FS_PFS | IMAGE_FS_PFSC_CONTAINER => rc_lvd_sector_pfs cfg
  | _ => rc_lvd_sector_exfat cfg
  end.

Definition get_image_sector_size_override_or_default (st : runtime_config_state_t) (path : string) (fallback : Z) : Z :=
  let filename := get_filename_component path in
  if strcmp_eq filename "" then fallback
  else default fallback (get_image_sector_size_override st (lit filename)).

(** [statfs] answers [f_bsize] and [f_iosize] of the file system of the source. *)
Definition get_lvd_sector_size (st : runtime_config_state_t) (statfs : string -> option (Z * Z)) (path : string)
    (t : image_fs_type_t) : Z :=
  let nested := pfs_path_uses_nested_profile path t in
  let default_sector := if nested then LVD_SECTOR_SIZE_PFS else get_lvd_sector_size_fallback (rs_cfg st) t in
  let fallback := get_image_sector_size_override_or_default st path default_sector in
  if nested then fallback
  else match statfs path with
       | None => fallback
       | Some (bsize, iosize) =>
           let cluster := u64 (if u64 bsize =? 0 then iosize else bsize) in
           if (cluster =? 0) || (fallback <=? cluster) then fallback else u32 cluster
       end.

Definition get_lvd_secondary_unit (t : image_fs_type_t) (sector_size : Z) (legacy_mount : bool) : Z :=
  if legacy_mount && negb (bool_decide (t = IMAGE_FS_EXFAT)) then sector_size
  else if LVD_SECONDARY_UNIT_IMAGE_IO mod sector_size =? 0 then LVD_SECONDARY_UNIT_IMAGE_IO else sector_size.

Definition get_md_sector_size (cfg : runtime_config_t) (t : image_fs_type_t) : Z :=
  match t with IMAGE_FS_UFS => rc_md_sector_ufs cfg | _ => rc_md_sector_exfat cfg end.

Definition get_md_sector_size_for_path (st : runtime_config_state_t) (path : string) (t : image_fs_type_t) : Z :=
  get_image_sector_size_override_or_default st path (get_md_sector_size (rs_cfg st) t).

Definition get_lvd_attach_raw_flags (t : image_fs_type_t) (mount_read_only legacy_mount : bool) : Z :=
  if legacy_mount && bool_decide (t = IMAGE_FS_UFS) then
    (if mount_read_only then LVD_ATTACH_RAW_FLAGS_DD_RO else LVD_ATTACH_RAW_FLAGS_DD_RW)
  else if mount_read_only then LVD_ATTACH_RAW_FLAGS_SINGLE_RO else LVD_ATTACH_RAW_FLAGS_SINGLE_RW.

Definition flag_if (raw bit flag : Z) : Z := if Z.land raw bit =? 0 then 0 else flag.

Definition normalize_lvd_raw_flags (raw : Z) : Z :=
  Z.lor (Z.lor (Z.lor (Z.lor (Z.lor LVD_ATTACH_FLAG_BASE (Z.land raw LVD_ATTACH_RAW_PASSTHROUGH_MASK))
    (flag_if raw LVD_ATTACH_RAW_BIT_RO_VARIANT LVD_ATTACH_FLAG_RO_VARIANT))
    (flag_if raw LVD_ATTACH_RAW_BIT_INNER_PROFILE LVD_ATTACH_FLAG_INNER_PROFILE))
    (flag_if raw LVD_ATTACH_RAW_BIT_DOWNLOAD_DATA_PROFILE LVD_ATTACH_FLAG_DOWNLOAD_DATA_PROFILE))
    (flag_if raw LVD_ATTACH_RAW_BIT_SINGLE_SAVE_PROFILE LVD_ATTACH_FLAG_SINGLE_SAVE_PROFILE).

Definition get_lvd_image_type (path : string) (t : image_fs_type_t) (legacy_mount : bool) : Z :=
  if pfs_path_uses_nested_profile path t then pfs_lvd_game_image_type_from_selector (get_nested_pfs_img_type path t)
  else match t with
       | IMAGE_FS_UFS => if legacy_mount then LVD_ATTACH_IMAGE_TYPE_DOWNLOAD_DATA else LVD_ATTACH_IMAGE_TYPE_SAVE_DATA
       | IMAGE_FS_EXFAT => if legacy_mount then LVD_ATTACH_IMAGE_TYPE_SINGLE else LVD_ATTACH_IMAGE_TYPE_SAVE_DATA
       | IMAGE_FS_PFS => LVD_ATTACH_IMAGE_TYPE_SAVE_DATA
       | _ => LVD_ATTACH_IMAGE_TYPE_SINGLE
       end.

Definition select_image_backend (cfg : runtime_config_t) (t : image_fs_type_t) : attach_backend_t :=
  match t with
  | IMAGE_FS_EXFAT => rc_exfat_backend cfg
  | IMAGE_FS_UFS => rc_ufs_backend cfg
  | _ => ATTACH_BACKEND_LVD
  end.

(** The parts of [lvd_ioctl_attach_v0_t] that [attach_lvd_backend_as] decides. *)
Record lvd_request := LvdRequest { lr_image_type : Z; lr_sector_size : Z; lr_secondary_unit : Z; lr_flags : Z }.

Definition lvd_attach_request (st : runtime_config_state_t) (statfs : string -> option (Z * Z)) (path : string)
    (t : image_fs_type_t) (mount_read_only : bool) (profile : image_mount_profile_t) (image_type : Z) : lvd_request :=
  let sector := get_lvd_sector_size st statfs path t in
  LvdRequest image_type sector (get_lvd_secondary_unit t sector (legacy profile))
    (normalize_lvd_raw_flags (get_lvd_attach_raw_flags t mount_read_only (legacy profile))).

(** ** Properties *)

(** The rules of the kernel's validator, as include/sm_mount_defs.h records them. *)
Definition lvd_flags_accepted (image_type flags : Z) : bool :=
  if bool_decide (image_type ∈ [0; 5; 6; 8; 9; 10; 11]) then Z.land flags 0x92 =? 0x10
  else if image_type =? 1 then Z.land flags 0x82 =? 0x80
  else if bool_decide (image_type ∈ [2; 3; 4]) then Z.land flags 0x82 =? 0
  else if bool_decide (image_type ∈ [7; 12]) then Z.land flags 0x92 =? 0x12
  else false.

Lemma lvd_image_type_accepted cfg path t ro :
  let profile := get_image_mount_profile cfg path t in
  lvd_flags_accepted (get_lvd_image_type path t (legacy profile))
    (normalize_lvd_raw_flags (get_lvd_attach_raw_flags t ro (legacy profile))) = true.
Proof.
  unfold get_lvd_image_type, get_nested_pfs_img_type. cbn zeta.
  generalize (legacy (get_image_mount_profile cfg path t)) as old. intros old.
  unfold pfs_path_uses_nested_profile. destruct t, (pfs_path_is_nested_inner path _) eqn:Hn, ro, old; try (by vm_compute); done.
Qed.

Lemma secondary_unit_divides t sector old : 0 < sector -> get_lvd_secondary_unit t sector old mod sector = 0.
Proof.
  intros Hs. unfold get_lvd_secondary_unit. destruct (_ && _); [by rewrite Z.mod_same by lia|].
  destruct (Z.eqb_spec (LVD_SECONDARY_UNIT_IMAGE_IO mod sector) 0); [done|]. by rewrite Z.mod_same by lia.
Qed.

Definition sector_bounds (n : Z) : Prop := 512 <= n <= 1048576.

Lemma sector_ok_bounds n : sector_ok n -> sector_bounds n.
Proof.
  intros (k & Hk & ->). split; [change 512 with (2 ^ 9)|change 1048576 with (2 ^ 20)]; apply Z.pow_le_mono_r; lia.
Qed.

Lemma override_ok st path n : state_ok st -> sector_ok n -> sector_ok (get_image_sector_size_override_or_default st path n).
Proof.
  intros [_ _ _ (_ & _ & Hr) _] Hn. unfold get_image_sector_size_override_or_default, get_image_sector_size_override.
  destruct (strcmp_eq _ _); [done|]. destruct (normalize_image_filename_value _) as [name|]; [|done].
  unfold image_rule_field. destruct (list_find _ _) as [[i r]|] eqn:Hf; [|done]. apply list_find_Some in Hf as (Hi & _ & _).
  destruct r as [r|]; [|done]. destruct (Hr i r Hi) as [_ Hs]. simpl. destruct (im_sector_size r) as [k|] eqn:Hk; [|done]. by apply Hs.
Qed.

Lemma fallback_ok st t : state_ok st -> sector_ok (get_lvd_sector_size_fallback (rs_cfg st) t).
Proof.
  intros [Hc _ _ _ _]. destruct Hc as [_ _ _ _ _ _ _ _ _ _ _ _ _ _ _ _ Hs]. rewrite !Forall_cons in Hs. unfold get_lvd_sector_size_fallback.
  destruct t; tauto.
Qed.

Lemma lvd_sector_bounds st statfs path t : state_ok st -> 0 < get_lvd_sector_size st statfs path t <= 1048576.
Proof.
  intros Hst. unfold get_lvd_sector_size.
  set (nested := pfs_path_uses_nested_profile path t).
  assert (Hd : sector_ok (if nested then LVD_SECTOR_SIZE_PFS else get_lvd_sector_size_fallback (rs_cfg st) t)).
  { destruct nested; [by exists 12|by apply fallback_ok]. }
  pose proof (sector_ok_bounds _ (override_ok st path _ Hst Hd)) as [H1 H2].
  destruct nested; [lia|]. destruct (statfs path) as [[bsize iosize]|]; [|lia].
  set (cluster := u64 _). pose proof (wrap_range 64 (if u64 bsize =? 0 then iosize else bsize) ltac:(lia)) as Hc. fold (u64 (if u64 bsize =? 0 then iosize else bsize)) in Hc. fold cluster in Hc.
  destruct (Z.eqb_spec cluster 0); cbn [orb]; [lia|]. match goal with |- context [?f <=? cluster] => destruct (Z.leb_spec f cluster) end; [lia|].
  rewrite u32_small by lia. lia.
Qed.

(** every LVD attach request is one the kernel accepts.  For every
    configuration the program can hold, every source path, file system, access
    mode and answer of [statfs], the normalised flags satisfy the validator rules
    recorded for the image type, the sector size is positive and at most 1 MiB,
    and the mapping unit is a multiple of the sector size. *)
Theorem image_attach_request_valid st statfs path t ro : state_ok st ->
  let profile := get_image_mount_profile (rs_cfg st) path t in
  let r := lvd_attach_request st statfs path t ro profile (get_lvd_image_type path t (legacy profile)) in
  lvd_flags_accepted (lr_image_type r) (lr_flags r) = true /\
  0 < lr_sector_size r <= 1048576 /\ lr_secondary_unit r mod lr_sector_size r = 0.
Proof.
  intros Hst. cbn zeta. unfold lvd_attach_request. cbn [lr_image_type lr_flags lr_sector_size lr_secondary_unit].
  pose proof (lvd_sector_bounds st statfs path t Hst). split_and!; try lia.
  - apply lvd_image_type_accepted.
  - apply secondary_unit_divides. lia.
Qed.

Lemma initial_ok : state_ok init_runtime_config_defaults.
Proof. apply (defaults_ok []). split_and!; [simpl; unfold SM_SMB_CONNECTIONS_MAX; lia|constructor|constructor]. Qed.

Lemma image_attach_request_valid_witness :
  state_ok init_runtime_config_defaults /\
  let profile := get_image_mount_profile (rs_cfg init_runtime_config_defaults) "/mnt/usb0/a.ffpkg" IMAGE_FS_UFS in
  let r := lvd_attach_request init_runtime_config_defaults (fun _ => Some (1000, 0)) "/mnt/usb0/a.ffpkg" IMAGE_FS_UFS true profile
             (get_lvd_image_type "/mnt/usb0/a.ffpkg" IMAGE_FS_UFS (legacy profile)) in
  r = LvdRequest 7 1000 1000 0x1e /\
  lvd_flags_accepted (lr_image_type r) (lr_flags r) = true /\
  0 < lr_sector_size r <= 1048576 /\ lr_secondary_unit r mod lr_sector_size r = 0.
Proof.
  split; [exact initial_ok|]. cbn zeta. split; [vm_compute; reflexivity|].
  apply (image_attach_request_valid init_runtime_config_defaults (fun _ => Some (1000, 0)) "/mnt/usb0/a.ffpkg" IMAGE_FS_UFS true).
  exact initial_ok.
Defined.

(** *** Mount points *)
Lemma string_app_inj_r a b x y : String.append a x = String.append b y -> strlen x = strlen y -> x = y.
Proof.
  intros He Hl. assert (Hab : strlen a = strlen b).
  { apply (f_equal strlen) in He. rewrite !strlen_append in He. lia. }
  revert b He Hab. induction a as [|c a IH]; intros [|d b] He Hab; try done.
  injection He as _ He. injection Hab as Hab. by eapply IH.
Qed.

Lemma hex_digit_inj n m : 0 <= n < 16 -> 0 <= m < 16 -> hex_digit n = hex_digit m -> n = m.
Proof.
  intros Hn Hm He.
  assert (Hall : Forall (fun a => Forall (fun b => hex_digit a = hex_digit b -> a = b) (seqZ 0 16)) (seqZ 0 16)).
  { repeat (apply Forall_cons_2; [repeat (apply Forall_cons_2; [by vm_compute|]); apply Forall_nil_2|]). apply Forall_nil_2. }
  rewrite Forall_forall in Hall. specialize (Hall n ltac:(apply elem_of_seqZ; lia)). rewrite Forall_forall in Hall.
  apply Hall; [apply elem_of_seqZ; lia|done].
Qed.

Lemma strlen_hex d n acc : strlen (hex d n acc) = (d + strlen acc)%nat.
Proof. revert n acc. induction d as [|d IH]; intros n acc; simpl; [done|]. rewrite IH. unfold strlen. simpl. lia. Qed.

Lemma hex_inj d n m acc acc' : 0 <= n < 16 ^ Z.of_nat d -> 0 <= m < 16 ^ Z.of_nat d ->
  strlen acc = strlen acc' -> hex d n acc = hex d m acc' -> n = m /\ acc = acc'.
Proof.
  revert n m acc acc'. induction d as [|d IH]; intros n m acc acc' Hn Hm Hl; simpl; [split; [simpl in Hn, Hm; lia|done]|].
  rewrite Nat2Z.inj_succ, Z.pow_succ_r in Hn, Hm by lia. intros He. rewrite !Z.shiftr_div_pow2 in He by lia. change (2 ^ 4) with 16 in He.
  apply IH in He as [Hq Hacc].
  - injection Hacc as Hd Hacc. split; [|done]. apply hex_digit_inj in Hd.
    + change 15 with (Z.ones 4) in Hd. rewrite !Z.land_ones in Hd by lia. change (2 ^ 4) with 16 in Hd.
      rewrite (Z.div_mod n 16), (Z.div_mod m 16) by lia. by rewrite Hq, Hd.
    + change 15 with (Z.ones 4). rewrite Z.land_ones by lia. apply Z.mod_pos_bound. lia.
    + change 15 with (Z.ones 4). rewrite Z.land_ones by lia. apply Z.mod_pos_bound. lia.
  - split; [apply Z.div_pos; lia|apply Z.div_lt_upper_bound; lia].
  - split; [apply Z.div_pos; lia|apply Z.div_lt_upper_bound; lia].
  - unfold strlen in *. simpl. by rewrite Hl.
Qed.

Section naming.
Context (MNAMELEN : nat).
(** The static assertions of the sources, and that the field is no longer than a path. *)
Hypothesis mname_room : (strlen PFSC_IMAGE_MOUNT_BASE + 11 < MNAMELEN <= MAX_PATH)%nat.

Lemma mount_base_length t : (strlen (mount_base t) <= strlen PFSC_IMAGE_MOUNT_BASE)%nat.
Proof. apply Nat.leb_le. by destruct t. Qed.

Lemma mount_point_shape path t : exists name,
  build_image_mount_point_for_fs MNAMELEN path t =
    String.append (mount_base t) (String slash (String.append name (String "_"%char (hex 8 (sm_fnv1a32 path) EmptyString)))) /\
  (strlen (build_image_mount_point_for_fs MNAMELEN path t) < MNAMELEN)%nat.
Proof.
  unfold build_image_mount_point_for_fs. set (name := String.substring 0 _ _). exists name.
  pose proof (mount_base_length t) as Hb.
  assert (Hn : (strlen name <= MNAMELEN - strlen (mount_base t) - 11)%nat) by apply strlen_substring.
  assert (Hlen : (strlen (String.append (mount_base t) (String slash (String.append name
    (String "_"%char (hex 8 (sm_fnv1a32 path) EmptyString))))) < MNAMELEN)%nat).
  { rewrite strlen_append. change (strlen (String slash ?x)) with (S (strlen x)). rewrite strlen_append.
    change (strlen (String "_"%char ?x)) with (S (strlen x)). rewrite strlen_hex. change (strlen EmptyString) with 0%nat. lia. }
  rewrite strlcpy_fits by lia. done.
Qed.

(** mount points are well formed and tell sources apart.  The mount
    point of any source fits the field the kernel reports mount points in (the
    program compares the two verbatim), lies below the mount base, and ends in
    the full hash of the source path, so that two sources with the same mount point
    have the same hash. *)
Theorem image_mount_point_spec path t path' t' :
  let mp := build_image_mount_point_for_fs MNAMELEN path t in
  (strlen mp < MNAMELEN)%nat /\ is_under_image_mount_base mp = true /\
  (mp = build_image_mount_point_for_fs MNAMELEN path' t' -> sm_fnv1a32 path = sm_fnv1a32 path').
Proof.
  cbn zeta. destruct (mount_point_shape path t) as (name & Hs & Hl), (mount_point_shape path' t') as (name' & Hs' & _).
  split; [done|]. rewrite Hs. split; [by destruct t|]. rewrite Hs'. intros He.
  pose proof (sm_fnv1a32_range path) as H1. pose proof (sm_fnv1a32_range path') as H2.
  destruct (hex_inj 8 (sm_fnv1a32 path) (sm_fnv1a32 path') EmptyString EmptyString); [by change (16 ^ Z.of_nat 8) with (2 ^ 32)..|done| |done].
  set (h := hex 8 _ _) in *. set (h' := hex 8 (sm_fnv1a32 path') _) in *.
  apply (string_app_inj_r (String.append (mount_base t) (String slash (String.append name "_"%string)))
           (String.append (mount_base t') (String slash (String.append name' "_"%string)))).
  - rewrite <-!string_app_assoc. change (String.append (String slash ?x) ?y) with (String slash (String.append x y)).
    rewrite <-!string_app_assoc. exact He.
  - unfold h, h'. by rewrite !strlen_hex.
Qed.
End naming.

Lemma image_mount_point_spec_witness :
  build_image_mount_point_for_fs 88 "/data/games/My Game.ffpkg" IMAGE_FS_UFS = "/mnt/shadowmnt/My Game_007fbd01"%string /\
  let mp := build_image_mount_point_for_fs 88 "/data/games/My Game.ffpkg" IMAGE_FS_UFS in
  (strlen mp < 88)%nat /\ is_under_image_mount_base mp = true /\
  (mp = build_image_mount_point_for_fs 88 "/data/a.exfat" IMAGE_FS_EXFAT ->
   sm_fnv1a32 "/data/games/My Game.ffpkg" = sm_fnv1a32 "/data/a.exfat").
Proof.
  split; [vm_compute; reflexivity|]. apply (image_mount_point_spec 88).
  split; [apply Nat.ltb_lt|apply Nat.leb_le]; vm_compute; reflexivity.
Defined.
