(* ===== verification/ScanTree.v ===== *)
(** * The directory walk (src/sm_scan_tree.c)

    The walk below a scan root that the scanner and its watches share: bounded in
    depth, with hidden names, the backports directory and other scan roots left
    out.  Callbacks are functions on a context.

    The file system is a record of answers; whether the program is to stop (or is
    going to sleep) and whether a game runs are asked at points of time, so they are
    functions of a counter that every question advances. *)
From S2P Require Import Prelude CString ImageCache IniFile ImageKinds.
From stdpp Require Import list.
Open Scope Z_scope.
Open Scope c_scope.

Inductive sm_scan_tree_dir_visit_t := SM_SCAN_TREE_DIR_DESCEND | SM_SCAN_TREE_DIR_SKIP_DESCEND | SM_SCAN_TREE_DIR_ABORT.

#[export] Instance dir_visit_eq_dec : EqDecision sm_scan_tree_dir_visit_t.
Proof. solve_decision. Defined.

Inductive tree_errno := ENOENT | ENOTDIR | EACCES | EPERM | EOTHER.

(** [d_type] of a directory entry. *)
Inductive entry_type := DT_DIR | DT_REG | DT_UNKNOWN | DT_OTHER.

Inductive file_kind := KDir | KRegular | KOther.

(** What [opendir], [readdir] and [closedir] answer: the entries that are read, and the
    error that ends the reading or closing, if any. *)
Inductive listing :=
  | OpenError (e : tree_errno)
  | Entries (names : list (string * entry_type)) (error : option tree_errno).

Record scan_fs := ScanFs {
  fs_dir : string -> listing;
  fs_lstat : string -> file_kind + tree_errno;
}.

Definition denied (e : tree_errno) : bool := match e with EACCES | EPERM => true | _ => false end.
Definition missing (e : tree_errno) : bool := match e with ENOENT | ENOTDIR => true | _ => false end.

Record sm_scan_tree_callbacks_t (C : Type) := Callbacks {
  on_directory : option (string -> nat -> C -> sm_scan_tree_dir_visit_t * C);
  on_image_file : option (string -> string -> nat -> C -> bool * C);
  skip_permission_errors : bool;
}.
Arguments Callbacks {C}.
Arguments on_directory {C}.
Arguments on_image_file {C}.
Arguments skip_permission_errors {C}.

(** [snprintf("%s/%s")]. *)
Definition join_path (dir name : string) : string := String.append dir (String slash name).

Definition hidden (name : string) : bool := bool_decide (char_at name 0 = Some dot).

Section walk.
Context (fs : scan_fs) (scan_paths : list string).
(** [should_stop_requested() || runtime_sleep_mode_active()] and
    [sm_game_lifecycle_has_active_game()] at the [n]-th question. *)
Context (stop : nat -> bool) (active_game : nat -> bool).
Context {C : Type} (callbacks : sm_scan_tree_callbacks_t C) (scan_root : string).

Definition classify_scan_tree_entry (path : string) (t : entry_type) : (bool * bool) + tree_errno :=
  match t with
  | DT_DIR => inl (true, false)
  | DT_REG => inl (false, true)
  | DT_OTHER => inl (false, false)
  | DT_UNKNOWN =>
      match fs_lstat fs path with
      | inl KDir => inl (true, false)
      | inl KRegular => inl (false, true)
      | inl KOther => inl (false, false)
      | inr e => if missing e then inl (false, false) else inr e
      end
  end.

Definition is_distinct_configured_scan_root (path : string) : bool :=
  existsb (fun p => strcmp_eq p path) scan_paths && negb (strcmp_eq scan_root path).

Definition skip_backports_root (depth : nat) : bool := (depth =? 0)%nat && negb (is_under_image_mount_base scan_root).

Definition allow_image_file_visits : bool :=
  negb (path_matches_root_or_child scan_root IMAGE_MOUNT_BASE) || is_pfsc_image_mount_base_or_child scan_root.

(** The state of a walk: the counter of questions, and the context. *)
Definition wstate : Type := nat * C.

(** How a walk below a directory ends. *)
Inductive turn := Go (s : wstate) | Return (ok : bool) (s : wstate).

Definition poll (s : wstate) : bool * wstate := (stop s.1, (S s.1, s.2)).

(** [image_visit] of a regular file with the name of an image. *)
Definition visit_image (path name : string) (depth : nat) (is_regular : bool) (s : wstate) : bool * wstate :=
  match on_image_file callbacks with
  | Some f =>
      if allow_image_file_visits && is_regular && is_supported_image_file_path path name
      then let '(ok, ctx) := f path name depth s.2 in (ok, (s.1, ctx)) else (true, s)
  | None => (true, s)
  end.

(** Pacing while a game runs: every 32nd entry asks once more. *)
Definition pace (entries : nat) (s : wstate) : bool * wstate :=
  if (entries mod 32 =? 0)%nat && active_game s.1 then poll s else (false, s).

(** One turn of the loop over a directory; [sub] walks a subdirectory. *)
Definition entry_turn (sub : string -> wstate -> bool * wstate) (dir : string) (depth entries : nat)
    (entry : string * entry_type) (s : wstate) : turn :=
  let '(name, t) := entry in
  let '(stopped, s1) := poll s in
  if stopped then Return true s1
  else
    let '(stopped2, s2) := pace entries s1 in
    if stopped2 then Return true s2
    else if hidden name then Go s2
    else if skip_backports_root depth && strcmp_eq name DEFAULT_BACKPORTS_DIR_NAME then Go s2
    else
      let path := join_path dir name in
      if (MAX_PATH <=? strlen path)%nat then Go s2
      else
        match classify_scan_tree_entry path t with
        | inr e => if skip_permission_errors callbacks && denied e then Go s2 else Return false s2
        | inl (is_dir, is_regular) =>
            let '(ok, s3) := visit_image path name (S depth) is_regular s2 in
            if negb ok then Return false s3
            else if negb is_dir then Go s3
            else let '(ok', s4) := sub path s3 in if ok' : bool then Go s4 else Return false s4
        end.

Fixpoint entry_loop (sub : string -> wstate -> bool * wstate) (dir : string) (depth entries : nat)
    (names : list (string * entry_type)) (error : option tree_errno) (s : wstate) : bool * wstate :=
  let '(stopped, s1) := poll s in
  if stopped then (true, s1)
  else
    match names with
    | [] => (match error with None => true | Some e => skip_permission_errors callbacks && denied e end, s1)
    | entry :: names' =>
        match entry_turn sub dir depth (S entries) entry s1 with
        | Return ok s2 => (ok, s2)
        | Go s2 => entry_loop sub dir depth (S entries) names' error s2
        end
    end.

Definition visit_directory (dir : string) (depth : nat) (s : wstate) : sm_scan_tree_dir_visit_t * wstate :=
  match on_directory callbacks with
  | Some f => let '(v, ctx) := f dir depth s.2 in (v, (s.1, ctx))
  | None => (SM_SCAN_TREE_DIR_DESCEND, s)
  end.

Fixpoint sm_scan_tree_walk (remaining : nat) (dir : string) (depth : nat) (s : wstate) : bool * wstate :=
  let '(stopped, s1) := poll s in
  if stopped then (true, s1)
  else if (0 <? depth)%nat && is_distinct_configured_scan_root dir then (true, s1)
  else
    let '(stopped2, s2) := poll s1 in
    if stopped2 then (true, s2)
    else
      let '(visit, s3) := visit_directory dir depth s2 in
      match visit, remaining with
      | SM_SCAN_TREE_DIR_ABORT, _ => (false, s3)
      | SM_SCAN_TREE_DIR_SKIP_DESCEND, _ | _, O => (true, s3)
      | SM_SCAN_TREE_DIR_DESCEND, S remaining' =>
          match fs_dir fs dir with
          | OpenError e => (missing e || (skip_permission_errors callbacks && denied e), s3)
          | Entries names error =>
              entry_loop (fun path => sm_scan_tree_walk remaining' path (S depth)) dir depth 0 names error s3
          end
      end.
End walk.

(** ** What a walk should visit *)
Inductive event := VisitDir (path : string) (depth : nat) | VisitImage (path : string) (depth : nat).

Section reference.
Context (fs : scan_fs) (scan_paths : list string) (scan_root : string).
(** What the callbacks answer; they record their calls. *)
Context (dir_answer : string -> nat -> sm_scan_tree_dir_visit_t) (image_answer : string -> bool) (images : bool) (skip_denied : bool).

Definition recorder : sm_scan_tree_callbacks_t (list event) :=
  Callbacks (Some (fun p d ctx => (dir_answer p d, ctx ++ [VisitDir p d])))
    (if images then Some (fun p _ d ctx => (image_answer p, ctx ++ [VisitImage p d])) else None) skip_denied.

(** An entry that is passed over. *)
Definition passed_over (dir name : string) (depth : nat) : bool :=
  hidden name || (skip_backports_root scan_root depth && strcmp_eq name DEFAULT_BACKPORTS_DIR_NAME) ||
  (MAX_PATH <=? strlen (join_path dir name))%nat.

Definition entry_events (sub : string -> nat -> list event) (dir : string) (depth : nat) (entry : string * entry_type) : list event :=
  let '(name, t) := entry in
  if passed_over dir name depth then []
  else
    let path := join_path dir name in
    match classify_scan_tree_entry fs path t with
    | inr _ => []
    | inl (is_dir, is_regular) =>
        (if images && allow_image_file_visits scan_root && is_regular && is_supported_image_file_path path name
         then [VisitImage path (S depth)] else []) ++
        (if is_dir then sub path (S depth) else [])
    end.

(** The visits of a complete walk, in order. *)
Fixpoint tree (n : nat) (dir : string) (depth : nat) : list event :=
  if (0 <? depth)%nat && is_distinct_configured_scan_root scan_paths scan_root dir then []
  else VisitDir dir depth ::
    match dir_answer dir depth, n with
    | SM_SCAN_TREE_DIR_DESCEND, S n' =>
        match fs_dir fs dir with
        | OpenError _ => []
        | Entries names _ => concat (entry_events (tree n') dir depth <$> names)
        end
    | _, _ => []
    end.

(** Whether a complete walk succeeds: every directory and entry it needs could be read,
    was missing, or failed with an error the callbacks pass over, and no callback
    refused. *)
Definition entry_ok (sub : string -> nat -> bool) (dir : string) (depth : nat) (entry : string * entry_type) : bool :=
  let '(name, t) := entry in
  if passed_over dir name depth then true
  else
    let path := join_path dir name in
    match classify_scan_tree_entry fs path t with
    | inr e => skip_denied && denied e
    | inl (is_dir, is_regular) =>
        (if images && allow_image_file_visits scan_root && is_regular && is_supported_image_file_path path name
         then image_answer path else true) &&
        (if is_dir then sub path (S depth) else true)
    end.

Fixpoint tree_ok (n : nat) (dir : string) (depth : nat) : bool :=
  if (0 <? depth)%nat && is_distinct_configured_scan_root scan_paths scan_root dir then true
  else
    match dir_answer dir depth, n with
    | SM_SCAN_TREE_DIR_ABORT, _ => false
    | SM_SCAN_TREE_DIR_DESCEND, S n' =>
        match fs_dir fs dir with
        | OpenError e => missing e || (skip_denied && denied e)
        | Entries names error =>
            forallb (entry_ok (tree_ok n') dir depth) names &&
            match error with None => true | Some e => skip_denied && denied e end
        end
    | _, _ => true
    end.

Section run.
Context (stop active_game : nat -> bool).

Abbreviation walk := (sm_scan_tree_walk fs scan_paths stop active_game recorder scan_root).

(** What a step of the walk adds to the record: [evs], of the events [all]; all of
    them when it goes on and was never stopped. *)
Definition adds (all : list event) (ok : bool) (s s' : wstate (C := list event)) : Prop :=
  exists evs, s'.2 = s.2 ++ evs /\ evs `sublist_of` all /\
    ((forall n, stop n = false) -> evs `prefix_of` all /\ (ok = true -> evs = all)).

Lemma adds_none ok s k : (ok = true -> exists n, stop n = true) -> forall all, adds all ok s (k, s.2).
Proof.
  intros Hok all. exists []. split; [by rewrite app_nil_r|]. split; [apply sublist_nil_l|]. intros Hstop. split; [apply prefix_nil|].
  intros He. destruct (Hok He) as [n Hn]. by rewrite Hstop in Hn.
Qed.

Lemma adds_nil ok s k : adds [] ok s (k, s.2).
Proof. exists []. split; [by rewrite app_nil_r|]. split; [done|]. done. Qed.

Lemma adds_app a b ok s s1 s2 : adds a true s s1 -> adds b ok s1 s2 -> adds (a ++ b) ok s s2.
Proof.
  intros (e1 & H1 & Hs1 & Hp1) (e2 & H2 & Hs2 & Hp2). exists (e1 ++ e2). split; [by rewrite H2, H1, app_assoc|].
  split; [by apply sublist_app|]. intros Hstop. destruct (Hp1 Hstop) as [_ He1], (Hp2 Hstop) as [Hp He2]. rewrite (He1 eq_refl).
  split; [by apply prefix_app|]. intros Hok. by rewrite He2.
Qed.

Lemma adds_stop a b s s1 : adds a false s s1 -> adds (a ++ b) false s s1.
Proof.
  intros (e1 & H1 & Hs1 & Hp1). exists e1. split; [done|]. split; [by apply sublist_inserts_r|]. intros Hstop.
  destruct (Hp1 Hstop) as [Hp _]. split; [|done]. by apply prefix_app_r.
Qed.
Lemma poll_true s k : stop s.1 = true -> forall all, adds all true s (k, s.2).
Proof. intros Hs. apply adds_none. intros _. by exists s.1. Qed.

(** Only the record matters. *)
Lemma adds_eq all ok s s0 s' : s.2 = s0.2 -> adds all ok s0 s' -> adds all ok s s'.
Proof. intros He (e & H). exists e. by rewrite He. Qed.

Lemma pace_spec entries (s : wstate (C := list event)) b s1 : pace stop active_game entries s = (b, s1) -> s1.2 = s.2 /\ (b = true -> exists n, stop n = true).
Proof.
  unfold pace, poll. destruct (_ && _); intros [= <- <-]; [|done]. split; [done|]. intros Hs. by exists s.1.
Qed.

Lemma visit_image_adds path name depth is_regular s ok s' :
  visit_image recorder scan_root path name depth is_regular s = (ok, s') ->
  adds (if images && allow_image_file_visits scan_root && is_regular && is_supported_image_file_path path name
        then [VisitImage path depth] else []) ok s s'.
Proof.
  unfold visit_image, recorder. cbn [on_image_file]. destruct images; cbn [andb]; [|intros [= <- <-]; destruct s; apply adds_nil].
  destruct (_ && _ && _); intros [= <- <-]; [|destruct s; apply adds_nil].
  exists [VisitImage path depth]. split; [done|]. split; [done|]. by intros _.
Qed.

Definition turn_adds (all : list event) (s : wstate (C := list event)) (t : turn (C := list event)) : Prop :=
  match t with
  | Go s' => adds all true s s'
  | Return ok s' => forall rest, adds (all ++ rest) ok s s'
  end.

Lemma entry_turn_adds sub subtree dir depth entries entry s :
  (forall path s ok s', sub path s = (ok, s') -> adds (subtree path (S depth)) ok s s') ->
  turn_adds (entry_events subtree dir depth entry) s (entry_turn fs stop active_game recorder scan_root sub dir depth entries entry s).
Proof.
  intros Hsub. destruct entry as [name t]. unfold entry_turn. unfold poll at 1.
  destruct (stop s.1) eqn:Hstop; [intros rest; by apply poll_true|].
  destruct (pace _ _ _ _) as [b s2] eqn:Hpace. apply pace_spec in Hpace as [H2 Hb]. cbn [snd] in H2.
  assert (Hskip : forall all ok, (ok = true -> exists n, stop n = true) -> adds all ok s s2).
  { intros all ok Hok. destruct s2 as [k c]. simpl in H2. subst c. by apply adds_none. }
  destruct b; [intros rest; by apply Hskip|]. unfold entry_events, passed_over.
  destruct (hidden name); cbn [orb turn_adds]; [apply (adds_eq _ _ _ s2); [done|destruct s2; apply adds_nil]|].
  destruct (_ && _); cbn [orb turn_adds]; [apply (adds_eq _ _ _ s2); [done|destruct s2; apply adds_nil]|].
  destruct (_ <=? _)%nat; [apply (adds_eq _ _ _ s2); [done|destruct s2; apply adds_nil]|].
  destruct (classify_scan_tree_entry fs _ t) as [[is_dir is_regular]|e].
  - destruct (visit_image _ _ _ _ _ _ _) as [ok s3] eqn:Hi. apply visit_image_adds in Hi. apply (adds_eq _ _ s) in Hi; [|done].
    destruct ok; cbn [negb]; [|intros rest; rewrite <-app_assoc; by apply adds_stop].
    destruct is_dir; cbn [negb]; [|by rewrite app_nil_r]. destruct (sub _ s3) as [ok' s4] eqn:Hs. apply Hsub in Hs. destruct ok'.
    + by eapply adds_app.
    + intros rest. rewrite <-app_assoc. eapply adds_app; [done|]. by apply adds_stop.
  - destruct (_ && _); [apply (adds_eq _ _ _ s2); [done|destruct s2; apply adds_nil]|]. intros rest. by apply Hskip.
Qed.

Lemma entry_loop_adds sub subtree dir depth error names entries s ok s' :
  (forall path s ok s', sub path s = (ok, s') -> adds (subtree path (S depth)) ok s s') ->
  entry_loop fs stop active_game recorder scan_root sub dir depth entries names error s = (ok, s') ->
  adds (concat (entry_events subtree dir depth <$> names)) ok s s'.
Proof.
  intros Hsub. revert entries s. induction names as [|entry names IH]; intros entries s; cbn [entry_loop]; unfold poll at 1.
  - destruct (stop s.1) eqn:Hstop; intros [= <- <-]; apply adds_nil.
  - destruct (stop s.1) eqn:Hstop; [intros [= <- <-]; by apply poll_true|]. rewrite fmap_cons. cbn [concat].
    pose proof (entry_turn_adds sub subtree dir depth (S entries) entry (S s.1, s.2) Hsub) as Ht.
    destruct (entry_turn _ _ _ _ _ _ _ _ _ _ _) as [s2|ok2 s2].
    + intros He. apply IH in He. eapply adds_app; [|exact He]. by apply (adds_eq _ _ _ (S s.1, s.2)).
    + intros [= <- <-]. apply (adds_eq _ _ _ (S s.1, s.2)); [done|]. apply Ht.
Qed.

Lemma walk_adds n dir depth s ok s' : walk n dir depth s = (ok, s') -> adds (tree n dir depth) ok s s'.
Proof.
  revert dir depth s ok s'. induction n as [|n IH]; intros dir depth s ok s'; cbn [sm_scan_tree_walk tree]; unfold poll at 1;
    (destruct (stop s.1) eqn:Hstop; [intros [= <- <-]; by apply poll_true|]);
    (destruct (_ && _); [intros [= <- <-]; apply adds_nil|]); unfold poll at 1; cbn [fst snd];
    (destruct (stop (S s.1)) eqn:Hstop2; [intros [= <- <-]; apply adds_none; intros _; by exists (S s.1)|]);
    unfold visit_directory, recorder at 1; cbn [on_directory].
  - assert (Hone : forall ok', adds [VisitDir dir depth] ok' s (S (S s.1), s.2 ++ [VisitDir dir depth])).
    { intros ok'. exists [VisitDir dir depth]. split; [done|]. split; [done|]. by intros _. }
    destruct (dir_answer dir depth); intros [= <- <-]; apply Hone.
  - assert (Hone : forall ok', adds [VisitDir dir depth] ok' s (S (S s.1), s.2 ++ [VisitDir dir depth])).
    { intros ok'. exists [VisitDir dir depth]. split; [done|]. split; [done|]. by intros _. }
    destruct (dir_answer dir depth); [|intros [= <- <-]; apply Hone|intros [= <- <-]; apply Hone].
    destruct (fs_dir fs dir) as [e|names error]; [intros [= <- <-]; apply Hone|]. intros He.
    change (VisitDir dir depth :: ?x) with ([VisitDir dir depth] ++ x).
    eapply adds_app; [apply Hone|]. eapply entry_loop_adds; [|exact He]. intros path s0 ok0 s0'. apply IH.
Qed.
(** *** The answer of a walk that is not stopped *)
Section answer.
Context (Hstop : forall i, stop i = false).

Lemma poll_no (s : wstate (C := list event)) : poll stop s = (false, (S s.1, s.2)).
Proof. unfold poll. by rewrite Hstop. Qed.

Lemma pace_no entries (s : wstate (C := list event)) : (pace stop active_game entries s).1 = false.
Proof. unfold pace. destruct (_ && _); [by rewrite poll_no|done]. Qed.

Lemma visit_image_ok path name depth is_regular s :
  (visit_image recorder scan_root path name depth is_regular s).1 =
  (if images && allow_image_file_visits scan_root && is_regular && is_supported_image_file_path path name then image_answer path else true).
Proof. unfold visit_image, recorder. cbn [on_image_file]. destruct images; [|done]. cbn [andb]. by destruct (_ && _ && _). Qed.

(** A turn that ends the loop without a stop ends it in failure. *)
Lemma entry_turn_ok sub subok dir depth entries entry s :
  (forall path s, (sub path s).1 = subok path (S depth)) ->
  match entry_turn fs stop active_game recorder scan_root sub dir depth entries entry s with
  | Go _ => entry_ok subok dir depth entry = true
  | Return ok _ => ok = false /\ entry_ok subok dir depth entry = false
  end.
Proof.
  intros Hsub. destruct entry as [name t]. unfold entry_turn, entry_ok, passed_over. rewrite poll_no.
  pose proof (pace_no entries (S s.1, s.2)) as Hp. destruct (pace _ _ _ _) as [b s2]. simpl in Hp. subst b.
  destruct (hidden name); [done|]. cbn [orb]. destruct (skip_backports_root _ _ && _); [done|]. cbn [orb].
  destruct (MAX_PATH <=? _)%nat; [done|]. destruct (classify_scan_tree_entry _ _ _) as [[is_dir is_regular]|e].
  - rewrite <-(visit_image_ok (join_path dir name) name (S depth) is_regular s2).
    destruct (visit_image _ _ _ _ _ _ _) as [[] s3]; cbn [negb fst andb]; [|done]. destruct is_dir; cbn [negb]; [|done].
    rewrite <-(Hsub _ s3). by destruct (sub _ _) as [[] s4].
  - cbn [skip_permission_errors recorder]. by destruct (skip_denied && denied e).
Qed.

Lemma entry_loop_ok sub subok dir depth error names entries s :
  (forall path s, (sub path s).1 = subok path (S depth)) ->
  (entry_loop fs stop active_game recorder scan_root sub dir depth entries names error s).1 =
  forallb (entry_ok subok dir depth) names && match error with None => true | Some e => skip_denied && denied e end.
Proof.
  intros Hsub. revert entries s. induction names as [|entry names IH]; intros entries s; cbn [entry_loop]; rewrite poll_no; [done|].
  cbn [forallb]. pose proof (entry_turn_ok sub subok dir depth (S entries) entry (S s.1, s.2) Hsub) as Ht.
  destruct (entry_turn _ _ _ _ _ _ _ _ _ _ _) as [s2|ok s2]; [by rewrite Ht, IH|]. by destruct Ht as [-> ->].
Qed.

Lemma walk_ok n dir depth s : (walk n dir depth s).1 = tree_ok n dir depth.
Proof.
  revert dir depth s. induction n as [|n IH]; intros dir depth s; cbn [sm_scan_tree_walk tree_ok]; rewrite poll_no;
    (destruct (_ && _); [done|]); rewrite poll_no; unfold visit_directory, recorder at 1; cbn [on_directory];
    destruct (dir_answer dir depth); try done.
  destruct (fs_dir fs dir) as [e|names error]; [done|]. apply entry_loop_ok. intros path s0. apply IH.
Qed.
End answer.
End run.
End reference.

(** ** Where a complete walk goes *)
Section confined.
Context (fs : scan_fs) (scan_paths : list string) (scan_root : string).
Context (dir_answer : string -> nat -> sm_scan_tree_dir_visit_t) (images : bool).

Abbreviation walk_tree := (tree fs scan_paths scan_root dir_answer images).

(** The event is below [dir] by [names]: visible names, at most [n] of them, not through
    the backports directory of the root. *)
Record below (n : nat) (dir : string) (depth : nat) (path : string) (d : nat) (names : list string) : Prop := Below {
  bl_path : path = foldl join_path dir names;
  bl_depth : d = (depth + length names)%nat /\ (length names <= n)%nat;
  bl_visible : Forall (fun x => hidden x = false) names;
  bl_fits : names <> [] -> (strlen path < MAX_PATH)%nat;
  bl_backports : depth = 0%nat -> is_under_image_mount_base scan_root = false -> head names <> Some DEFAULT_BACKPORTS_DIR_NAME;
}.

Definition confined (n : nat) (dir : string) (depth : nat) (e : event) : Prop :=
  match e with
  | VisitDir path d => (exists names, below n dir depth path d names) /\
      ((0 < d)%nat -> is_distinct_configured_scan_root scan_paths scan_root path = false)
  | VisitImage path d => exists names, below n dir depth path d names /\ names <> []
  end.

Lemma below_step n dir depth name path d names : passed_over scan_root dir name depth = false ->
  below n (join_path dir name) (S depth) path d names -> below (S n) dir depth path d (name :: names).
Proof.
  unfold passed_over. intros Hp [B1 [B2 B3] B4 B5 B6]. apply orb_false_elim in Hp as [Hp Hl]. apply orb_false_elim in Hp as [Hh Hb].
  apply Nat.leb_gt in Hl. split.
  - done.
  - simpl. lia.
  - by apply Forall_cons_2.
  - intros _. destruct names as [|x names]; [simpl in B1; by rewrite B1|by apply B5].
  - intros -> Hu [= ->]. unfold skip_backports_root in Hb. rewrite Hu in Hb. done.
Qed.

Lemma below_self n dir depth : below n dir depth dir depth [].
Proof. split; [done|simpl; lia|by apply Forall_nil_2|done|done]. Qed.

Lemma entry_events_confined n dir depth entry e :
  (forall path e, e ∈ walk_tree n path (S depth) -> confined n path (S depth) e) ->
  e ∈ entry_events fs scan_root images (walk_tree n) dir depth entry -> confined (S n) dir depth e.
Proof.
  intros IH. destruct entry as [name t]. unfold entry_events. destruct (passed_over _ _ _ _) eqn:Hp; [by intros ?%elem_of_nil|].
  destruct (classify_scan_tree_entry _ _ _) as [[is_dir is_regular]|]; [|by intros ?%elem_of_nil].
  intros [He|He]%elem_of_app.
  - destruct (images && _ && _ && _); [|by apply elem_of_nil in He]. apply list_elem_of_singleton in He as ->.
    exists [name]. split; [|done]. apply below_step; [done|]. apply below_self.
  - destruct is_dir; [|by apply elem_of_nil in He]. apply IH in He. destruct e as [path d|path d].
    + destruct He as [[names Hn] Hd]. split; [|done]. exists (name :: names). by apply below_step.
    + destruct He as (names & Hn & _). exists (name :: names). split; [by apply below_step|done].
Qed.

Lemma tree_confined n dir depth e : e ∈ walk_tree n dir depth -> confined n dir depth e.
Proof.
  assert (Hself : forall m dir depth, (0 <? depth)%nat && is_distinct_configured_scan_root scan_paths scan_root dir = false ->
            confined m dir depth (VisitDir dir depth)).
  { intros m dir' depth' H. split; [exists []; apply below_self|]. intros Hpos. apply Nat.ltb_lt in Hpos. by rewrite Hpos in H. }
  revert dir depth e. induction n as [|n IH]; intros dir depth e; cbn [tree]; (destruct (_ && _) eqn:Hd; [by intros ?%elem_of_nil|]);
    intros [->|He]%elem_of_cons; try by apply Hself.
  - by destruct (dir_answer dir depth); apply elem_of_nil in He.
  - destruct (dir_answer dir depth); [|by apply elem_of_nil in He|by apply elem_of_nil in He].
    destruct (fs_dir fs dir) as [|names error]; [by apply elem_of_nil in He|]. apply list_elem_of_In, in_concat in He as (evs & Hin & He).
    apply list_elem_of_In, list_elem_of_fmap in Hin as (entry & -> & _). apply list_elem_of_In in He.
    eapply entry_events_confined; [|exact He]. intros path e'. apply IH.
Qed.
End confined.

(** ** The walk of a scan root *)

(** Claim C32: With callbacks that answer by the path, the walk that is not stopped visits
    what the tree below the directory says, in its order: a prefix of it in any case,
    and all of it when the walk answers true; and it answers true exactly when every
    directory and entry it needs could be read, was missing, or failed with an error the
    callbacks pass over, and no callback refused. *)
Theorem scan_walk_complete fs scan_paths root dir_answer image_answer images skip_denied stop active_game n dir depth k ok s' :
  (forall i, stop i = false) ->
  sm_scan_tree_walk fs scan_paths stop active_game (recorder dir_answer image_answer images skip_denied) root n dir depth (k, []) = (ok, s') ->
  s'.2 `prefix_of` tree fs scan_paths root dir_answer images n dir depth /\
  (ok = true -> s'.2 = tree fs scan_paths root dir_answer images n dir depth) /\
  ok = tree_ok fs scan_paths root dir_answer image_answer images skip_denied n dir depth.
Proof.
  intros Hstop Hw. pose proof Hw as Hok. apply (f_equal fst) in Hok. rewrite walk_ok in Hok by done.
  apply walk_adds in Hw as (evs & -> & _ & Hp). destruct (Hp Hstop) as [? ?]. done.
Qed.

(** Whatever the callbacks answer and whenever the walk is stopped, its visits
    are among those of the complete walk, in the same order, and each is below the
    directory it started in by at most the remaining depth of visible names, with a path
    that fits its buffer, never in the backports directory of the scan root, and never
    a directory that is a scan root of its own. *)
Theorem scan_walk_confined fs scan_paths root dir_answer image_answer images skip_denied stop active_game n dir depth k ok s' :
  sm_scan_tree_walk fs scan_paths stop active_game (recorder dir_answer image_answer images skip_denied) root n dir depth (k, []) = (ok, s') ->
  s'.2 `sublist_of` tree fs scan_paths root dir_answer images n dir depth /\
  Forall (confined scan_paths root n dir depth) s'.2.
Proof.
  intros Hw. apply walk_adds in Hw as (evs & -> & Hs & _). split; [done|]. apply Forall_forall. intros e He.
  eapply tree_confined. by eapply elem_of_sublist.
Qed.

(** A scan root with a game, an image, a hidden directory and the backports directory. *)
Definition demo_fs : scan_fs := {|
  fs_dir p :=
    if strcmp_eq p "/data/homebrew" then
      Entries [("backports", DT_DIR); (".cache", DT_DIR); ("CUSA00001", DT_UNKNOWN); ("game.ffpkg", DT_REG); ("usb", DT_DIR); ("zzz", DT_DIR)] None
    else if strcmp_eq p "/data/homebrew/CUSA00001" then Entries [("eboot.bin", DT_REG); ("sub", DT_DIR)] None
    else Entries [] None;
  fs_lstat _ := inl KDir;
|}.

Definition demo_walk (stop : nat -> bool) : bool * wstate :=
  sm_scan_tree_walk demo_fs ["/data/homebrew"; "/data/homebrew/usb"] stop (fun _ => true)
    (recorder (fun _ _ => SM_SCAN_TREE_DIR_DESCEND) (fun _ => true) true false) "/data/homebrew" 2 "/data/homebrew" 0 (0%nat, []).

Definition demo_visits : list event :=
  [VisitDir "/data/homebrew" 0; VisitDir "/data/homebrew/CUSA00001" 1; VisitDir "/data/homebrew/CUSA00001/sub" 2;
   VisitImage "/data/homebrew/game.ffpkg" 1; VisitDir "/data/homebrew/zzz" 1].

Lemma scan_walk_complete_witness :
  (demo_walk (fun _ => false)).1 = true /\ demo_visits = (demo_walk (fun _ => false)).2.2 /\
  (demo_walk (fun _ => false)).2.2 =
    tree demo_fs ["/data/homebrew"; "/data/homebrew/usb"] "/data/homebrew" (fun _ _ => SM_SCAN_TREE_DIR_DESCEND) true 2 "/data/homebrew" 0.
Proof.
  split; [vm_compute; reflexivity|]. split; [vm_compute; reflexivity|].
  unfold demo_walk. eapply (scan_walk_complete _ _ _ _ (fun _ => true) true false (fun _ => false) (fun _ => true)); [done| |].
  - apply surjective_pairing.
  - vm_compute. reflexivity.
Defined.

Lemma scan_walk_confined_witness :
  let r := demo_walk (fun i => (i =? 12)%nat) in
  length r.2.2 = 4%nat /\ Forall (confined ["/data/homebrew"; "/data/homebrew/usb"] "/data/homebrew" 2 "/data/homebrew" 0) r.2.2.
Proof.
  split; [vm_compute; reflexivity|]. unfold demo_walk. eapply scan_walk_confined. apply surjective_pairing.
Defined.

(** A walk that is stopped half way answers true as a complete one does, and
    after a wake-up the enclosing loops go on: here the question asked inside the
    subdirectory "CUSA00001" is answered by "sleeping" once, the walk leaves out
    the directory below it, visits what follows, and reports success. *)
Theorem scan_walk_interrupted_succeeds :
  let complete := demo_walk (fun _ => false) in
  let interrupted := demo_walk (fun i => (i =? 10)%nat) in
  complete.1 = true /\ interrupted.1 = true /\ interrupted.2.2 <> complete.2.2 /\
  interrupted.2.2 = [VisitDir "/data/homebrew" 0; VisitDir "/data/homebrew/CUSA00001" 1;
                     VisitImage "/data/homebrew/game.ffpkg" 1; VisitDir "/data/homebrew/zzz" 1].
Proof. repeat (split; [vm_compute; reflexivity|]). split; [vm_compute; congruence|]. vm_compute. reflexivity. Qed.
