(* ===== verification/MountDevice.v ===== *)
(** * Devices of attached images (src/sm_mount_device.c)

    The probes of the mount table and of device nodes, and the request that detaches a
    device.  The system is a record of answers: the [n]-th question is answered by the
    function of the record at [n], so nothing is assumed of how answers change between
    two questions.  Other threads use the image cache as well; [sys_others] is what they
    do to it before the [n]-th question, and nothing is assumed of it either.

    Every question and every change of the image cache is an event of the trace.  A call
    that fails sets [errno]; log lines are not represented and keep it. *)
From S2P Require Import Prelude CString StateTable PathState IniFile SmbAddress ConfigState ConfigStore ImageKinds ImageCache.
From stdpp Require Import list.
Open Scope Z_scope.
Open Scope c_scope.

(** ** Errors, requests, events *)
Inductive error_t := Known (e : errno) | ENOENT | ENOTDIR | ENOTEMPTY | EIO | ETIMEDOUT | ECANCELED | ENOTSUP | EOTHER.

#[export] Instance errno_eq_dec : EqDecision errno.
Proof. solve_decision. Defined.
#[export] Instance error_eq_dec : EqDecision error_t.
Proof. solve_decision. Defined.

(** [st_dev], [st_ino], [st_rdev]. *)
Abbreviation node_id := (Z * Z * Z)%type.

Record statfs_t := Statfs {
  f_mntonname : string; f_mntfromname : string; f_fstypename : string;
  f_bsize : Z; f_iosize : Z; f_rdonly : bool;
}.

(** A row of the mount table: [f_mntfromname], [f_mntonname]. *)
Abbreviation mount_row := (string * string)%type.

Inductive attach_request :=
  | AttachMd (path : string) (size sector : Z) (read_only : bool)
  | AttachLvd (path : string) (size : Z) (special : bool) (request : lvd_request).

Inductive nmount_profile := MountUfs | MountExfat | MountPfs | MountNestedPfs.

Record nmount_request := NmountRequest {
  nm_profile : nmount_profile; nm_from : string; nm_on : string; nm_disc : bool; nm_force : bool;
  nm_read_only : bool; nm_no_atime : bool;
}.

Inductive event :=
  | EvNode (dev : string) (answer : node_id + error_t)
  | EvMounts (answer : list mount_row + error_t)
  | EvStatfs (path : string) (answer : statfs_t + error_t)
  | EvOpen (path : string) (answer : option error_t)
  | EvAsk
  | EvDetach (b : attach_backend_t) (unit : Z) (answer : option error_t)
  | EvAttach (r : attach_request) (answer : Z + error_t)
  | EvNmount (r : nmount_request) (answer : option error_t)
  | EvUnmount (path : string) (answer : option error_t)
  | EvRmdir (path : string) (answer : option error_t)
  (** The image cache: the attachment record of an image. *)
  | EvReserve (path : string) (gen : Z)
  | EvPublish (path : string) (gen unit : Z) (b : attach_backend_t) (ok : bool)
  | EvCommit (path : string) (gen unit : Z) (b : attach_backend_t) (ok : bool)
  | EvAdopt (path mount_point : string) (unit : Z) (b : attach_backend_t) (ok : bool)
  | EvCancel (path : string) (gen : Z) (ok : bool)
  | EvMark (path : string) (gen unit : Z) (b : attach_backend_t) (ok : bool)
  | EvClaim (record : ImageCache)
  | EvFinish (path : string) (gen unit : Z) (b : attach_backend_t) (ok : bool)
  | EvDrop (record : ImageCache)
  (** A release of the attachment [gen] of an image begins; the links and the cached
      game of a mount point are removed; a failed mount is reported. *)
  | EvRelease (path : string) (gen : Z)
  | EvForgetSource (mount_point : string)
  | EvForgetGame (mount_point : string)
  | EvNotify (path : string) (error : option error_t).

Record system := System {
  sys_node : nat -> string -> node_id + error_t;
  sys_mounts : nat -> list mount_row + error_t;
  sys_statfs : nat -> string -> statfs_t + error_t;
  sys_open : nat -> string -> option error_t;
  (** The entries of a directory, and whether each is a directory itself. *)
  sys_list : nat -> string -> list (string * bool);
  sys_backing_cache : nat -> string -> option error_t;
  sys_detach : nat -> attach_backend_t -> Z -> option error_t;
  sys_attach : nat -> attach_request -> Z + error_t;
  sys_nmount : nat -> nmount_request -> option error_t;
  sys_unmount : nat -> string -> option error_t;
  sys_rmdir : nat -> string -> option error_t;
  sys_mkdir : nat -> string -> option error_t;
  sys_size : nat -> string -> Z + error_t;
  sys_is_dir : nat -> string -> bool + error_t;
  sys_special : nat -> string -> bool + error_t;
  sys_exists : nat -> string -> bool;
  sys_stable : nat -> string -> bool;
  sys_sleeping : nat -> bool;
  sys_stopping : nat -> bool;
  sys_protected : nat -> string -> bool;
  sys_config_io : nat -> config_io;
  sys_inet_pton : text -> bool;
  sys_others : nat -> image_cache -> image_cache;
}.

(** ** The state, and programs on it *)
Record world := World {
  w_cache : image_cache;
  w_paths : path_state;
  w_config : config_store;
  w_errno : option error_t;
  (** [notified] of the last error. *)
  w_notified : bool;
  w_clock : nat;
  w_trace : list event;
}.

(** [None] is a recursion deeper than its fuel. *)
Definition M (A : Type) : Type := world -> option (A * world).

Definition ret {A} (x : A) : M A := fun w => Some (x, w).
Definition bind {A B} (m : M A) (k : A -> M B) : M B := fun w => match m w with Some (x, w') => k x w' | None => None end.
Definition stuck {A} : M A := fun _ => None.

Notation "'let*' x := m 'in' k" := (bind m (fun x => k)) (at level 10, x pattern, m at level 100, k at level 200) : c_scope.

Definition change (f : world -> world) : M () := fun w => Some (tt, f w).
Definition look {A} (f : world -> A) : M A := fun w => Some (f w, w).

Definition set_errno (e : option error_t) : M () :=
  change (fun w => World (w_cache w) (w_paths w) (w_config w) e (w_notified w) (w_clock w) (w_trace w)).
Definition set_notified (b : bool) : M () :=
  change (fun w => World (w_cache w) (w_paths w) (w_config w) (w_errno w) b (w_clock w) (w_trace w)).
Definition emit (evs : list event) : M () :=
  change (fun w => World (w_cache w) (w_paths w) (w_config w) (w_errno w) (w_notified w) (w_clock w) (w_trace w ++ evs)).

(** [return fail(errno = e)]. *)
Definition fail_with (e : error_t) : M bool := let* _ := set_errno (Some e) in ret false.

Section device.
Context (sys : system).

(** A question: other threads run, the clock advances. *)
Definition ask {A} (f : nat -> A) (ev : A -> event) : M A := fun w =>
  let a := f (w_clock w) in
  Some (a, World (sys_others sys (w_clock w) (w_cache w)) (w_paths w) (w_config w) (w_errno w) (w_notified w)
             (S (w_clock w)) (w_trace w ++ [ev a])).

Definition quiet {A} : A -> event := fun _ => EvAsk.

(** A call whose failure sets [errno]. *)
Definition call {A} (f : nat -> A + error_t) (ev : A + error_t -> event) : M (A + error_t) :=
  let* a := ask f ev in
  match a with inl _ => ret a | inr e => let* _ := set_errno (Some e) in ret a end.

Definition command (f : nat -> option error_t) (ev : option error_t -> event) : M (option error_t) :=
  let* a := ask f ev in
  match a with None => ret a | Some e => let* _ := set_errno (Some e) in ret a end.

(** A use of the image cache: one step of it, with [dev_stat] of the moment. *)
Definition cache_use {A} (f : (string -> option node_id) -> image_cache -> A * image_cache) (ev : A -> list event) : M A := fun w =>
  let '(a, c) := f (fun dev => match sys_node sys (w_clock w) dev with inl id => Some id | inr _ => None end)
                   (sys_others sys (w_clock w) (w_cache w)) in
  Some (a, World c (w_paths w) (w_config w) (w_errno w) (w_notified w) (S (w_clock w)) (w_trace w ++ ev a)).

Definition cache_query {A} (f : image_cache -> A) : M A := cache_use (fun _ c => (f c, c)) (fun _ => []).

(** ** Device nodes *)
Definition stat_node (dev : string) : M (node_id + error_t) := call (fun n => sys_node sys n dev) (EvNode dev).

Definition LVD_NODE_WAIT_RETRIES : nat := 100.

Definition gone_error (e : error_t) : bool := match e with ENOENT | ENOTDIR => true | _ => false end.

Fixpoint wait_for_dev_node (retries : nat) (dev : string) (should_exist : bool) : M bool :=
  match retries with
  | O => ret false
  | S r =>
      let* st := stat_node dev in
      match st with
      | inl _ => if should_exist then ret true else wait_for_dev_node r dev should_exist
      | inr e => if negb should_exist && gone_error e then ret true else wait_for_dev_node r dev should_exist
      end
  end.

Definition wait_for_dev_node_state (dev : string) (should_exist : bool) : M bool :=
  wait_for_dev_node LVD_NODE_WAIT_RETRIES dev should_exist.

Definition is_source_stable_for_mount (path : string) : M bool := ask (fun n => sys_stable sys n path) quiet.

(** ** The mount table *)
Definition INT_MAX : Z := 2147483647.

(** [strtol(text, &end, 10)] of the whole text, in the range of a unit; a value that
    does not fit a long is out of that range. *)
Definition unit_number (s : text) : option Z :=
  let '(negative, s1) := strtoul_sign (skip_space s) in
  let '(value, any, rest) := read_digits 10 0 false s1 in
  if negb any || negb (bool_decide (rest = [])) then None
  else
    let unit := if negative : bool then - value else value in
    if (unit <? 0) || (INT_MAX <? unit) then None else Some unit.

Definition parse_unit_from_dev_path (dev_path prefix : string) : option Z :=
  if has_prefix dev_path prefix then unit_number (lit (String.substring (strlen prefix) (strlen dev_path) dev_path)) else None.

(** The backend and the unit a device path names. *)
Definition device_of_path (dev_path : string) : option (attach_backend_t * Z) :=
  match parse_unit_from_dev_path dev_path "/dev/lvd" with
  | Some u => Some (ATTACH_BACKEND_LVD, u)
  | None => pair ATTACH_BACKEND_MD <$> parse_unit_from_dev_path dev_path "/dev/md"
  end.

Definition mount_table : M (list mount_row + error_t) := call (sys_mounts sys) EvMounts.
Definition statfs (path : string) : M (statfs_t + error_t) := call (fun n => sys_statfs sys n path) (EvStatfs path).

Fixpoint device_in_table (mount_point : string) (rows : list mount_row) : option (attach_backend_t * Z) :=
  match rows with
  | [] => None
  | (from, on) :: rows' =>
      if strcmp_eq on mount_point
      then match device_of_path from with Some d => Some d | None => device_in_table mount_point rows' end
      else device_in_table mount_point rows'
  end.

Definition resolve_device_from_mount (mount_point : string) : M (option (attach_backend_t * Z)) :=
  let* cached := cache_query (fun c => resolve_device_from_mount_cache c mount_point) in
  match cached with
  | Some d => ret (Some d)
  | None =>
      let* st := statfs mount_point in
      match st with
      | inr _ => ret None
      | inl sfs =>
          if negb (strcmp_eq (f_mntonname sfs) mount_point) then ret None
          else
            match device_of_path (f_mntfromname sfs) with
            | Some d => ret (Some d)
            | None =>
                let* table := mount_table in
                match table with
                | inr _ => ret None
                | inl rows => ret (device_in_table mount_point rows)
                end
            end
      end
  end.

Definition is_path_mountpoint (path : string) : M bool :=
  let* st := statfs path in
  let rest :=
    let* table := mount_table in
    match table with inr _ => ret true | inl rows => ret (existsb (fun r => strcmp_eq r.2 path) rows) end in
  match st with
  | inl sfs => if strcmp_eq (f_mntonname sfs) path then ret true else rest
  | inr _ => rest
  end.

Definition is_active_image_mount_point (path : string) : M bool := is_path_mountpoint path.

Definition LVD_RELEASE_WAIT_MAX_US : Z := 15000000.
Definition LVD_RELEASE_WAIT_POLL_US : Z := 500000.

(** One turn: an answer, or another turn. *)
Definition lvd_release_turn (waited_us : Z) : M (option bool) :=
  let* table := mount_table in
  match table with
  | inr _ => ret (Some false)
  | inl rows =>
      if negb (existsb (fun r => strcmp_eq r.1 "/dev/lvd2") rows) then ret (Some true)
      else
        let* stopping := ask (sys_stopping sys) quiet in
        ret (if stopping then Some false else if LVD_RELEASE_WAIT_MAX_US <=? waited_us then Some true else None)
  end.

Fixpoint lvd_release_loop (fuel : nat) (waited_us : Z) : M bool :=
  match fuel with
  | O => stuck
  | S fuel' =>
      let* r := lvd_release_turn waited_us in
      match r with Some b => ret b | None => lvd_release_loop fuel' (waited_us + LVD_RELEASE_WAIT_POLL_US) end
  end.

Definition wait_for_lvd_release : M bool := lvd_release_loop 31 0.

(** ** Detaching *)
Definition build_attached_unit_devname (b : attach_backend_t) (unit : Z) : string := strlcpy (device_name b unit) 64.

Definition with_identity (id : node_id) (d : detach_state_t) : detach_state_t :=
  let '(dev, ino, rdev) := id in DetachState (requested d) true dev ino rdev.

Definition with_request (d : detach_state_t) : detach_state_t :=
  DetachState true (node_identity_valid d) (node_device d) (node_inode d) (node_rdev d).

Definition identity (d : detach_state_t) : node_id := (node_device d, node_inode d, node_rdev d).

Definition read_device_node_identity (dev : string) (d : detach_state_t) : M (bool * detach_state_t) :=
  let* st := stat_node dev in
  match st with inr _ => ret (false, d) | inl id => ret (true, with_identity id d) end.

(** True also when the table cannot be read. *)
Definition device_node_is_mounted (dev : string) : M bool :=
  let* table := mount_table in
  match table with inr _ => ret true | inl rows => ret (existsb (fun r => strcmp_eq r.1 dev) rows) end.

Definition detach_target_is_released_or_reused (dev : string) (d : detach_state_t) : M bool :=
  if negb (node_identity_valid d) then fail_with (Known EAGAIN)
  else
    let* st := stat_node dev in
    match st with
    | inr e => ret (gone_error e)
    | inl id => if negb (bool_decide (id = identity d)) then ret true else device_node_is_mounted dev
    end.

Inductive attached_unit_detach_prepare_t :=
  | ATTACHED_UNIT_DETACH_COMPLETE
  | ATTACHED_UNIT_DETACH_REQUEST
  | ATTACHED_UNIT_DETACH_PENDING.

(** The answer and the state the request will carry. *)
Definition prepare_attached_unit_detach (b : attach_backend_t) (unit : Z) (d : detach_state_t) :
    M (attached_unit_detach_prepare_t * detach_state_t) :=
  let dev := build_attached_unit_devname b unit in
  let* (known, request) := (if node_identity_valid d then ret (true, d) else read_device_node_identity dev d) in
  if negb known then let* _ := set_errno (Some (Known EAGAIN)) in ret (ATTACHED_UNIT_DETACH_PENDING, request)
  else
    let* released := detach_target_is_released_or_reused dev request in
    if released : bool then ret (ATTACHED_UNIT_DETACH_COMPLETE, request)
    else if requested request then let* _ := set_errno (Some (Known EINPROGRESS)) in ret (ATTACHED_UNIT_DETACH_PENDING, request)
    else ret (ATTACHED_UNIT_DETACH_REQUEST, request).

Definition wait_for_attached_unit_release (b : attach_backend_t) (unit : Z) (d : detach_state_t) : M bool :=
  if negb (node_identity_valid d) then fail_with (Known EAGAIN)
  else
    let dev := build_attached_unit_devname b unit in
    let* absent := wait_for_dev_node_state dev false in
    if absent then ret true
    else
      let* released := detach_target_is_released_or_reused dev d in
      if released then ret true else fail_with (Known EINPROGRESS).

Definition finish_accepted_detach (request : detach_state_t) : M (bool * detach_state_t) :=
  let* _ := set_errno (Some (Known EINPROGRESS)) in ret (false, with_request request).

Definition finish_failed_detach (dev : string) (request : detach_state_t) (detach_errno : error_t) : M bool :=
  let* released := (if node_identity_valid request then detach_target_is_released_or_reused dev request else ret false) in
  if released then ret true else fail_with detach_errno.

Definition control_path (b : attach_backend_t) : string :=
  match b with ATTACH_BACKEND_MD => "/dev/mdctl" | _ => "/dev/lvdctl" end.

(** [detach_lvd_unit] and [detach_md_unit] differ in the device and the request only. *)
Definition detach_unit (b : attach_backend_t) (unit : Z) (d : detach_state_t) : M (bool * detach_state_t) :=
  let* (prepared, request) := prepare_attached_unit_detach b unit d in
  match prepared with
  | ATTACHED_UNIT_DETACH_COMPLETE => ret (true, d)
  | ATTACHED_UNIT_DETACH_PENDING => ret (false, d)
  | ATTACHED_UNIT_DETACH_REQUEST =>
      let* opened := command (fun n => sys_open sys n (control_path b)) (EvOpen (control_path b)) in
      match opened with
      | Some _ => ret (false, d)
      | None =>
          let* answer := command (fun n => sys_detach sys n b unit) (EvDetach b unit) in
          match answer with
          | Some e => let* released := finish_failed_detach (build_attached_unit_devname b unit) request e in ret (released, d)
          | None => finish_accepted_detach request
          end
      end
  end.

Definition detach_attached_unit (b : attach_backend_t) (unit : Z) (d : detach_state_t) : M (bool * detach_state_t) :=
  if (unit <? 0) || negb (attach_backend_is_valid b)
  then let* _ := set_errno (Some (Known EINVAL)) in ret (false, d)
  else detach_unit b unit d.
End device.

(** ** What programs do to the trace

    [emits m Q]: the events of a run of [m] and its answer satisfy [Q], whatever the
    system answers and the other threads do. *)
Definition emits {A} (m : M A) (Q : A -> list event -> Prop) : Prop :=
  forall w a w', m w = Some (a, w') -> exists t, w_trace w' = w_trace w ++ t /\ Q a t.

Lemma emits_weaken {A} (m : M A) (P Q : A -> list event -> Prop) : emits m P -> (forall a t, P a t -> Q a t) -> emits m Q.
Proof. intros Hm HPQ w a w' Hw. destruct (Hm w a w' Hw) as (t & Ht & HP). eauto. Qed.

Lemma emits_bind {A B} (m : M A) (k : A -> M B) (P : A -> list event -> Prop) (Q : B -> list event -> Prop) :
  emits m P -> (forall a t, P a t -> emits (k a) (fun b t' => Q b (t ++ t'))) -> emits (bind m k) Q.
Proof.
  intros Hm Hk w b w' Hw. unfold bind in Hw. destruct (m w) as [[a w1]|] eqn:Ha; [|done].
  destruct (Hm _ _ _ Ha) as (t & Ht & HP). destruct (Hk a t HP _ _ _ Hw) as (t' & Ht' & HQ).
  exists (t ++ t'). by rewrite Ht', Ht, app_assoc.
Qed.

Lemma emits_silent {A} (m : M A) (Q : A -> list event -> Prop) :
  (forall w a w', m w = Some (a, w') -> w_trace w' = w_trace w /\ Q a []) -> emits m Q.
Proof. intros Hm w a w' Hw. destruct (Hm w a w' Hw) as [-> HQ]. exists []. by rewrite app_nil_r. Qed.

Lemma emits_and {A} (m : M A) (P Q : A -> list event -> Prop) : emits m P -> emits m Q -> emits m (fun a t => P a t /\ Q a t).
Proof.
  intros HP HQ w a w' Hw. destruct (HP w a w' Hw) as (t & Ht & ?), (HQ w a w' Hw) as (t' & Ht' & ?). rewrite Ht in Ht'.
  apply app_inv_head in Ht' as <-. eauto.
Qed.

Lemma emits_ret {A} (x : A) (Q : A -> list event -> Prop) : Q x [] -> emits (ret x) Q.
Proof. intros HQ. apply emits_silent. intros w a w' [= <- <-]. done. Qed.

Lemma emits_stuck {A} (Q : A -> list event -> Prop) : emits stuck Q.
Proof. by intros w a w'. Qed.

Lemma emits_look {A} (f : world -> A) (Q : A -> list event -> Prop) : (forall a, Q a []) -> emits (look f) Q.
Proof. intros HQ. apply emits_silent. intros w a w' [= <- <-]. done. Qed.

Lemma emits_errno e (Q : () -> list event -> Prop) : Q tt [] -> emits (set_errno e) Q.
Proof. intros HQ. apply emits_silent. intros w [] w' [= <-]. done. Qed.

Lemma emits_notified b (Q : () -> list event -> Prop) : Q tt [] -> emits (set_notified b) Q.
Proof. intros HQ. apply emits_silent. intros w [] w' [= <-]. done. Qed.

Lemma emits_emit evs (Q : () -> list event -> Prop) : Q tt evs -> emits (emit evs) Q.
Proof. intros HQ w [] w' [= <-]. by exists evs. Qed.

Lemma emits_fail_with e (Q : bool -> list event -> Prop) : Q false [] -> emits (fail_with e) Q.
Proof. intros HQ. apply emits_silent. intros w a w' [= <- <-]. done. Qed.

Section emits_calls.
Context (sys : system).

Lemma emits_ask {A} (f : nat -> A) ev (Q : A -> list event -> Prop) : (forall a, Q a [ev a]) -> emits (ask sys f ev) Q.
Proof. intros HQ w a w' [= <- <-]. eexists. split; [done|]. apply HQ. Qed.

Lemma emits_call {A} (f : nat -> A + error_t) ev (Q : A + error_t -> list event -> Prop) :
  (forall a, Q a [ev a]) -> emits (call sys f ev) Q.
Proof.
  intros HQ. eapply emits_bind; [by apply (emits_ask _ _ (fun a t => t = [ev a]))|]. intros a t ->. destruct a as [a|e].
  - by apply emits_ret.
  - eapply emits_bind; [by apply (emits_errno _ (fun _ t => t = []))|]. intros _ t ->. by apply emits_ret.
Qed.

Lemma emits_command (f : nat -> option error_t) ev (Q : option error_t -> list event -> Prop) :
  (forall a, Q a [ev a]) -> emits (command sys f ev) Q.
Proof.
  intros HQ. eapply emits_bind; [by apply (emits_ask _ _ (fun a t => t = [ev a]))|]. intros [e|] t ->.
  - eapply emits_bind; [by apply (emits_errno _ (fun _ t => t = []))|]. intros _ t ->. by apply emits_ret.
  - by apply emits_ret.
Qed.

(** What a cache operation answers on any cache. *)
Lemma emits_cache_use {A} (f : (string -> option node_id) -> image_cache -> A * image_cache) ev (Q : A -> list event -> Prop) :
  (forall ds c, Q (f ds c).1 (ev (f ds c).1)) -> emits (cache_use sys f ev) Q.
Proof.
  intros HQ w a w'. unfold cache_use. match goal with |- context [f ?ds ?c] => specialize (HQ ds c); destruct (f ds c) as [a' c'] end.
  intros [= <- <-]. by eexists.
Qed.

Lemma emits_cache_query {A} (f : image_cache -> A) (Q : A -> list event -> Prop) :
  (forall c, Q (f c) []) -> emits (cache_query sys f) Q.
Proof. intros HQ. apply emits_cache_use. intros _ c. apply HQ. Qed.
End emits_calls.

(** The next step of a program whose first part has a lemma. *)
Ltac emits_step H := eapply emits_bind; [apply H|].

(** ** Evidence about a device *)

(** A row of the table comes from the device. *)
Definition mounted_from (dev : string) (rows : list mount_row) : bool := existsb (fun r => strcmp_eq r.1 dev) rows.
Definition mounted_on (path : string) (rows : list mount_row) : bool := existsb (fun r => strcmp_eq r.2 path) rows.

(** The trace shows that the node [id] at [dev] is not, or no longer, the device:
    it is absent, it is another node, or something else is mounted from it, or, at worst,
    the mount table could not be read. *)
Inductive gone_seen (dev : string) (id : node_id) (t : list event) : Prop :=
  | GoneAbsent e : EvNode dev (inr e) ∈ t -> gone_error e = true -> gone_seen dev id t
  | GoneOther id' : EvNode dev (inl id') ∈ t -> id' <> id -> gone_seen dev id t
  | GoneReused p q rows : t = p ++ EvNode dev (inl id) :: EvMounts (inl rows) :: q -> mounted_from dev rows = true -> gone_seen dev id t
  | GoneUnknown p q e : t = p ++ EvNode dev (inl id) :: EvMounts (inr e) :: q -> gone_seen dev id t.

Lemma gone_seen_app dev id t1 t2 : gone_seen dev id t1 \/ gone_seen dev id t2 -> gone_seen dev id (t1 ++ t2).
Proof.
  intros [H|H]; destruct H as [e He|id' Hi|p q rows ->|p q e ->].
  - eapply GoneAbsent; [|done]. apply elem_of_app. by left.
  - eapply GoneOther; [|done]. apply elem_of_app. by left.
  - eapply (GoneReused _ _ _ p (q ++ t2)); [|done]. by rewrite <-app_assoc.
  - eapply (GoneUnknown _ _ _ p (q ++ t2)). by rewrite <-app_assoc.
  - eapply GoneAbsent; [|done]. apply elem_of_app. by right.
  - eapply GoneOther; [|done]. apply elem_of_app. by right.
  - eapply (GoneReused _ _ _ (t1 ++ p) q); [|done]. by rewrite <-app_assoc.
  - eapply (GoneUnknown _ _ _ (t1 ++ p) q). by rewrite <-app_assoc.
Qed.

(** The events that lead to a detach request end with the check of its node: it is
    [id] and nothing is mounted from it, or it could not be examined. *)
Definition checked (b : attach_backend_t) (unit : Z) (id : node_id) (pre : list event) : Prop :=
  let dev := build_attached_unit_devname b unit in
  exists p check, pre = p ++ check ++ [EvOpen (control_path b) None] /\
    ((exists rows, check = [EvNode dev (inl id); EvMounts (inl rows)] /\ mounted_from dev rows = false) \/
     (exists e, check = [EvNode dev (inr e)] /\ gone_error e = false)).

Lemma checked_app b unit id t pre : checked b unit id pre -> checked b unit id (t ++ pre).
Proof. intros (p & check & -> & H). exists (t ++ p), check. by rewrite <-app_assoc. Qed.

(** Questions only. *)
Definition probe (e : event) : bool :=
  match e with EvNode _ _ | EvMounts _ | EvStatfs _ _ | EvOpen _ _ | EvAsk => true | _ => false end.

(** ** The operations on a device *)
Section operations.
Context (sys : system).

(** Only probes. *)
Abbreviation probes := (Forall (fun e => probe e = true)).

Lemma probes_quiet t b unit ans : probes t -> EvDetach b unit ans ∉ t.
Proof. intros Ht Hin. rewrite Forall_forall in Ht. by specialize (Ht _ Hin). Qed.

Lemma stat_node_emits dev : emits (stat_node sys dev) (fun a t => t = [EvNode dev a]).
Proof. by apply emits_call. Qed.

Lemma mount_table_emits : emits (mount_table sys) (fun a t => t = [EvMounts a]).
Proof. by apply emits_call. Qed.

Lemma statfs_emits path : emits (statfs sys path) (fun a t => t = [EvStatfs path a]).
Proof. by apply emits_call. Qed.

Lemma wait_for_dev_node_emits n dev should_exist :
  emits (wait_for_dev_node sys n dev should_exist) (fun r t => probes t /\
    (r = true -> should_exist = false -> exists e, EvNode dev (inr e) ∈ t /\ gone_error e = true)).
Proof.
  induction n as [|n IH]; cbn [wait_for_dev_node]; [by apply emits_ret|].
  emits_step stat_node_emits. intros a t ->.
  assert (Hgo : emits (wait_for_dev_node sys n dev should_exist) (fun r t => probes ([EvNode dev a] ++ t) /\
            (r = true -> should_exist = false -> exists e, EvNode dev (inr e) ∈ [EvNode dev a] ++ t /\ gone_error e = true))).
  { eapply emits_weaken; [apply IH|]. intros r t [Ht Hr]. split; [by constructor|]. intros H1 H2.
    destruct (Hr H1 H2) as (e & He & Hg). exists e. split; [|done]. by apply elem_of_cons; right. }
  destruct a as [id|e].
  - destruct should_exist; [|done]. apply emits_ret. split; [by constructor|done].
  - destruct should_exist; cbn [negb andb]; [done|]. destruct (gone_error e) eqn:He; [|done]. apply emits_ret.
    split; [by constructor|]. intros _ _. exists e. split; [by apply elem_of_cons; left|done].
Qed.

Lemma device_node_is_mounted_emits dev : emits (device_node_is_mounted sys dev) (fun r t =>
  exists a, t = [EvMounts a] /\ match a with inl rows => r = mounted_from dev rows | inr _ => r = true end).
Proof.
  emits_step mount_table_emits. intros [rows|e] t ->; apply emits_ret; eexists; done.
Qed.

(** The check that ends without a release. *)
Definition not_released (dev : string) (id : node_id) (t : list event) : Prop :=
  (exists rows, t = [EvNode dev (inl id); EvMounts (inl rows)] /\ mounted_from dev rows = false) \/
  (exists e, t = [EvNode dev (inr e)] /\ gone_error e = false).

Lemma detach_target_emits dev d : node_identity_valid d = true ->
  emits (detach_target_is_released_or_reused sys dev d) (fun r t => probes t /\
    if r then gone_seen dev (identity d) t else not_released dev (identity d) t).
Proof.
  intros Hv. unfold detach_target_is_released_or_reused. rewrite Hv. cbn [negb]. emits_step stat_node_emits.
  intros [id|e] t ->.
  - case_bool_decide as Hid; cbn [negb].
    + subst id. eapply emits_weaken; [apply device_node_is_mounted_emits|]. intros r t (a & -> & Ha). split; [by repeat constructor|].
      destruct a as [rows|e]; subst r.
      * destruct (mounted_from dev rows) eqn:Hm; [by eapply (GoneReused _ _ _ [] [])|]. left. by exists rows.
      * by eapply (GoneUnknown _ _ _ [] []).
    + apply emits_ret. split; [by repeat constructor|]. eapply GoneOther; [|done]. by apply elem_of_cons; left.
  - apply emits_ret. split; [by repeat constructor|]. destruct (gone_error e) eqn:He.
    + eapply GoneAbsent; [|done]. by apply elem_of_cons; left.
    + right. by exists e.
Qed.

Lemma wait_for_release_emits b unit d : node_identity_valid d = true ->
  emits (wait_for_attached_unit_release sys b unit d) (fun r t => probes t /\
    (r = true -> gone_seen (build_attached_unit_devname b unit) (identity d) t)).
Proof.
  intros Hv. unfold wait_for_attached_unit_release. rewrite Hv. cbn [negb]. emits_step wait_for_dev_node_emits.
  intros r t [Ht Hr]. destruct r.
  - apply emits_ret. rewrite app_nil_r. split; [done|]. intros _. destruct (Hr eq_refl eq_refl) as (e & He & Hg). by eapply GoneAbsent.
  - eapply emits_bind; [by apply detach_target_emits|]. intros [] t2 [Ht2 Hg].
    + apply emits_ret. rewrite app_nil_r. split; [by apply Forall_app_2|]. intros _. apply gone_seen_app. by right.
    + apply emits_fail_with. rewrite app_nil_r. split; [by apply Forall_app_2|done].
Qed.

(** The state a request starts from: the identity that was known, or the one just read. *)
Definition known_as (d request : detach_state_t) : Prop :=
  node_identity_valid request = true /\ requested request = requested d /\
  (node_identity_valid d = true -> identity request = identity d).

Lemma prepare_emits b unit d : emits (prepare_attached_unit_detach sys b unit d) (fun '(p, request) t =>
  let dev := build_attached_unit_devname b unit in
  probes t /\
  match p with
  | ATTACHED_UNIT_DETACH_COMPLETE => known_as d request /\ gone_seen dev (identity request) t
  | ATTACHED_UNIT_DETACH_REQUEST => known_as d request /\ exists p check, t = p ++ check /\ not_released dev (identity request) check
  | ATTACHED_UNIT_DETACH_PENDING => True
  end).
Proof.
  unfold prepare_attached_unit_detach. set (dev := build_attached_unit_devname b unit).
  eapply (emits_bind _ _ (fun '(known, request) t => probes t /\ (known = true -> known_as d request))).
  { destruct (node_identity_valid d) eqn:Hv; [by apply emits_ret|]. emits_step stat_node_emits.
    intros [[[? ?] ?]|e] t ->; apply emits_ret; (split; [by repeat constructor|]); [|done]. intros _. unfold known_as. by rewrite Hv. }
  intros [[] request] t [Ht Hk]; cbn [negb].
  - specialize (Hk eq_refl). eapply emits_bind; [apply detach_target_emits, Hk|]. intros [] t2 [Ht2 Hg].
    + apply emits_ret. rewrite app_nil_r. split; [by apply Forall_app_2|]. split; [done|]. apply gone_seen_app. by right.
    + destruct (requested request).
      * eapply emits_bind; [by apply (emits_errno _ (fun _ t => t = []))|]. intros _ t3 ->. apply emits_ret.
        rewrite !app_nil_r. split; [by apply Forall_app_2|done].
      * apply emits_ret. rewrite app_nil_r. split; [by apply Forall_app_2|]. split; [done|]. by exists t, t2.
  - eapply emits_bind; [by apply (emits_errno _ (fun _ t => t = []))|]. intros _ t3 ->. apply emits_ret.
    by rewrite !app_nil_r.
Qed.

(** At most one request, checked first. *)
Definition one_request (b : attach_backend_t) (unit : Z) (known : option node_id) (t : list event) : Prop :=
  probes t \/
  exists pre answer post id, t = pre ++ EvDetach b unit answer :: post /\ probes pre /\ probes post /\
    checked b unit id pre /\ from_option (eq id) True known.

Lemma one_request_probes b unit known t p : probes p -> one_request b unit known t -> one_request b unit known (t ++ p).
Proof.
  intros Hp [Ht|(pre & a & post & id & -> & H)]; [left; by apply Forall_app_2|]. right. exists pre, a, (post ++ p), id.
  rewrite <-app_assoc. split; [done|]. destruct H as (H1 & H2 & H3). split; [done|]. split; [by apply Forall_app_2|done].
Qed.

Definition known_identity (d : detach_state_t) : option node_id := if node_identity_valid d then Some (identity d) else None.

Lemma known_as_identity d request : known_as d request -> from_option (eq (identity request)) True (known_identity d).
Proof. intros (_ & _ & H). unfold known_identity. destruct (node_identity_valid d); [|done]. by apply H. Qed.

(** The state after the call keeps the identity that was known. *)
Definition keeps_identity (d d' : detach_state_t) : Prop :=
  node_identity_valid d = true -> node_identity_valid d' = true /\ identity d' = identity d.

Lemma finish_failed_emits dev request e : node_identity_valid request = true ->
  emits (finish_failed_detach sys dev request e) (fun r t => probes t /\ (r = true -> gone_seen dev (identity request) t)).
Proof.
  intros Hv. unfold finish_failed_detach. rewrite Hv. eapply emits_bind; [by apply detach_target_emits|]. intros [] t [Ht Hg].
  - apply emits_ret. by rewrite app_nil_r.
  - apply emits_fail_with. by rewrite app_nil_r.
Qed.

Lemma emits_finish_failed dev request e : emits (finish_failed_detach sys dev request e) (fun _ _ => True).
Proof.
  unfold finish_failed_detach. destruct (node_identity_valid request) eqn:Hv.
  - eapply emits_bind; [by apply detach_target_emits|]. intros [] t _; [by apply emits_ret|by apply emits_fail_with].
  - eapply emits_bind; [by apply (emits_ret _ (fun r _ => r = false))|]. intros _ t ->. by apply emits_fail_with.
Qed.

Lemma detach_attached_unit_emits b unit d : emits (detach_attached_unit sys b unit d) (fun '(released, d') t =>
  one_request b unit (known_identity d) t /\ keeps_identity d d' /\
  (released = true -> d' = d /\ exists id, gone_seen (build_attached_unit_devname b unit) id t /\
     from_option (eq id) True (known_identity d))).
Proof.
  unfold detach_attached_unit. destruct (_ || _).
  { eapply emits_bind; [by apply (emits_errno _ (fun _ t => t = []))|]. intros _ t ->. apply emits_ret.
    split; [by left|]. split; [by intros ?|done]. }
  unfold detach_unit. emits_step prepare_emits. intros [[] request] t [Ht Hp].
  - destruct Hp as [Hk Hg]. apply emits_ret. rewrite app_nil_r. split; [by left|]. split; [by intros ?|]. intros _.
    split; [done|]. exists (identity request). split; [done|]. by apply known_as_identity.
  - destruct Hp as (Hk & p & check & -> & Hc). eapply emits_bind; [by apply (emits_command _ _ _ (fun a t => t = [EvOpen (control_path b) a]))|].
    intros [e|] t1 ->.
    { apply emits_ret. rewrite app_nil_r. split; [left; by apply Forall_app_2; [|repeat constructor]|]. split; [by intros ?|done]. }
    assert (Hcheck : checked b unit (identity request) ((p ++ check) ++ [EvOpen (control_path b) None])).
    { exists p, check. by rewrite <-app_assoc. }
    eapply emits_bind; [by apply (emits_command _ _ _ (fun a t => t = [EvDetach b unit a]))|]. intros [e|] t2 ->.
    + eapply emits_bind; [by apply finish_failed_emits, Hk|]. intros r t3 [Ht3 Hr]. apply emits_ret. rewrite app_nil_r.
      rewrite app_assoc. split.
      * right. eexists _, _, _, (identity request). split; [done|]. split; [by apply Forall_app_2; [|repeat constructor]|].
        split; [done|]. split; [done|]. by apply known_as_identity.
      * split; [by intros ?|]. intros ->. split; [done|]. exists (identity request). split; [|by apply known_as_identity].
        apply gone_seen_app. right. apply (gone_seen_app _ _ [_]). right. by apply Hr.
    + eapply emits_bind; [by apply (emits_errno _ (fun _ t => t = []))|]. intros _ t3 ->. apply emits_ret. rewrite app_nil_r.
      rewrite app_assoc. split.
      * right. eexists _, _, [], (identity request). split; [done|]. split; [by apply Forall_app_2; [|repeat constructor]|].
        split; [done|]. split; [done|]. by apply known_as_identity.
      * split; [|done]. intros Hv. destruct Hk as (Hv' & _ & Hi). split; [done|]. by apply Hi.
  - apply emits_ret. rewrite app_nil_r. split; [by left|]. split; [by intros ?|done].
Qed.

(** A request to detach the device was made, or the device was seen gone. *)
Definition asked_or_gone (b : attach_backend_t) (unit : Z) (t : list event) : Prop :=
  (exists a, EvDetach b unit a ∈ t) \/ (exists id, gone_seen (build_attached_unit_devname b unit) id t).

Lemma asked_or_gone_app b unit t1 t2 : asked_or_gone b unit t1 \/ asked_or_gone b unit t2 -> asked_or_gone b unit (t1 ++ t2).
Proof.
  intros [[[a H]|[id H]]|[[a H]|[id H]]].
  - left. exists a. apply elem_of_app. by left.
  - right. exists id. apply gone_seen_app. by left.
  - left. exists a. apply elem_of_app. by right.
  - right. exists id. apply gone_seen_app. by right.
Qed.

(** A try that ended before its request: the node could not be examined, or the control
    device could not be opened after the node was found and not seen released. *)
Inductive try_blocked (b : attach_backend_t) (unit : Z) : list event -> Prop :=
  | BlockedNode e : try_blocked b unit [EvNode (build_attached_unit_devname b unit) (inr e)]
  | BlockedControl id check e : not_released (build_attached_unit_devname b unit) id check ->
      try_blocked b unit (EvNode (build_attached_unit_devname b unit) (inl id) :: check ++ [EvOpen (control_path b) (Some e)]).

(** The first try for a device of which nothing is known yet: the state is left as it was
    when it was blocked. *)
Lemma first_try_emits b unit d : 0 <= unit -> attach_backend_is_valid b = true -> node_identity_valid d = false -> requested d = false ->
  emits (detach_attached_unit sys b unit d) (fun '(released, d') t =>
    asked_or_gone b unit t \/ (try_blocked b unit t /\ released = false /\ d' = d)).
Proof.
  intros Hu Hb Hv Hr. unfold detach_attached_unit. rewrite Hb. destruct (Z.ltb_spec unit 0); [lia|]. cbn [orb negb].
  unfold detach_unit, prepare_attached_unit_detach, read_device_node_identity. rewrite Hv. set (dev := build_attached_unit_devname b unit).
  eapply (emits_bind _ _ (fun '(p, request) t =>
    match p with
    | ATTACHED_UNIT_DETACH_COMPLETE => asked_or_gone b unit t
    | ATTACHED_UNIT_DETACH_REQUEST => exists id check, t = EvNode dev (inl id) :: check /\ not_released dev id check
    | ATTACHED_UNIT_DETACH_PENDING => exists e, t = [EvNode dev (inr e)]
    end)).
  { eapply (emits_bind _ _ (fun '(known, request) t =>
      if known : bool then (exists id, t = [EvNode dev (inl id)] /\ identity request = id) /\ node_identity_valid request = true /\ requested request = false
      else exists e, t = [EvNode dev (inr e)])).
    { emits_step stat_node_emits. intros [[[? ?] ?]|e] t ->; apply emits_ret; [|by exists e]. split; [by eexists|by rewrite <-Hr]. }
    intros [[] request] t Ht; cbn [negb].
    - destruct Ht as ((id & -> & Hid) & Hv' & Hr'). eapply emits_bind; [by apply detach_target_emits|]. rewrite Hr', Hid.
      intros [] t2 [_ Hg]; apply emits_ret; rewrite app_nil_r.
      + right. exists id. apply gone_seen_app. by right.
      + by exists id, t2.
    - destruct Ht as [e ->]. eapply emits_bind; [by apply (emits_errno _ (fun _ t => t = []))|]. intros _ t2 ->. apply emits_ret.
      by exists e. }
  intros [[] request] t Ht.
  - apply emits_ret. left. by rewrite app_nil_r.
  - destruct Ht as (id & check & -> & Hc). eapply emits_bind; [by apply (emits_command _ _ _ (fun a t => t = [EvOpen (control_path b) a]))|].
    intros [e|] t1 ->.
    { apply emits_ret. right. rewrite app_nil_r. split; [by apply BlockedControl|done]. }
    eapply emits_bind; [by apply (emits_command _ _ _ (fun a t => t = [EvDetach b unit a]))|]. intros a t2 ->.
    assert (Hin : forall t v, asked_or_gone b unit (t ++ [EvOpen (control_path b) None] ++ [EvDetach b unit a] ++ v)).
    { intros t v. left. exists a. rewrite !elem_of_app. right. right. left. by apply elem_of_cons; left. }
    destruct a as [e|].
    + eapply (emits_bind _ _ (fun _ _ => True)); [apply emits_finish_failed|]. intros r v _. apply emits_ret. left. apply Hin.
    + eapply (emits_bind _ _ (fun _ _ => True)); [by apply emits_errno|]. intros _ v _. apply emits_ret. left. apply Hin.
  - destruct Ht as [e ->]. apply emits_ret. right. rewrite app_nil_r. split; [apply BlockedNode|done].
Qed.

(** A look at a node that fails. *)
Definition not_found (dev : string) (ev : event) : Prop := exists e, ev = EvNode dev (inr e).

(** Waiting for a node: it is found at the end of the looks, or no look finds it. *)
Lemma wait_present_emits n dev : emits (wait_for_dev_node sys n dev true) (fun found t =>
  if found : bool then exists u id, t = u ++ [EvNode dev (inl id)] /\ Forall (not_found dev) u
  else length t = n /\ Forall (not_found dev) t).
Proof.
  induction n as [|n IH]; cbn [wait_for_dev_node]; [by apply emits_ret|].
  emits_step stat_node_emits. intros [id|e] t ->.
  - apply emits_ret. by exists [], id.
  - cbn [negb andb]. assert (He : not_found dev (EvNode dev (inr e))) by (by exists e).
    eapply emits_weaken; [apply IH|]. intros [] t Ht.
    + destruct Ht as (u & id & -> & Hu). exists (EvNode dev (inr e) :: u), id. split; [done|by constructor].
    + destruct Ht as [Hl Hf]. split; [cbn; by rewrite Hl|by constructor].
Qed.

(** Both tries of a rollback were blocked: after the first, the node was not found in
    [LVD_NODE_WAIT_RETRIES] looks, or it was found and the second try was blocked too. *)
Inductive given_up (b : attach_backend_t) (unit : Z) : list event -> Prop :=
  | NeverFound t looks : try_blocked b unit t ->
      length looks = LVD_NODE_WAIT_RETRIES -> Forall (not_found (build_attached_unit_devname b unit)) looks ->
      given_up b unit (t ++ looks)
  | BlockedTwice t looks id t' : try_blocked b unit t ->
      Forall (not_found (build_attached_unit_devname b unit)) looks -> try_blocked b unit t' ->
      given_up b unit (t ++ (looks ++ [EvNode (build_attached_unit_devname b unit) (inl id)]) ++ t').
End operations.

(** ** Demonstration *)
Definition demo_id : node_id := (1, 2, 3).
Definition demo_stamp : config_file_stamp_t := ConfigStamp true 1 2 3 4 5 6.

(** A system that agrees with everything, apart from what is given: the nodes, the
    mount table, the file system of a path, and the unit an attach gets. *)
Definition demo_system (node : nat -> string -> node_id + error_t) (mounts : nat -> list mount_row + error_t)
    (stat : nat -> string -> statfs_t + error_t) (unit : Z) : system := {|
  sys_node := node; sys_mounts := mounts; sys_statfs := stat;
  sys_open _ _ := None; sys_list _ _ := []; sys_backing_cache _ _ := None; sys_detach _ _ _ := None;
  sys_attach _ _ := inl unit; sys_nmount _ _ := None; sys_unmount _ _ := None; sys_rmdir _ _ := None; sys_mkdir _ _ := None;
  sys_size _ _ := inl 1048576; sys_is_dir _ _ := inr ENOENT; sys_special _ _ := inl false; sys_exists _ _ := true;
  sys_stable _ _ := true; sys_sleeping _ := false; sys_stopping _ := false; sys_protected _ _ := false;
  sys_config_io _ := ConfigIo true true WriteDone demo_stamp demo_stamp; sys_inet_pton _ := false;
  sys_others _ c := c;
|}.

Definition demo_world (c : image_cache) : world :=
  World c empty_table (init_runtime_config (ConfigIo true true WriteDone demo_stamp demo_stamp) IniMissing IniMissing) None false 0 [].

(** ** Claims *)

(** A device whose node is unchanged and from which nothing is known to be
    mounted counts as released when the mount table cannot be read: the call answers true
    after two probes, without asking the device to detach.  (The callers then drop the
    record of the device, which stays attached.) *)
Theorem unreadable_mount_table_releases sys b unit d w e :
  let dev := build_attached_unit_devname b unit in
  0 <= unit -> attach_backend_is_valid b = true -> node_identity_valid d = true ->
  sys_node sys (w_clock w) dev = inl (identity d) -> sys_mounts sys (S (w_clock w)) = inr e ->
  exists w', detach_attached_unit sys b unit d w = Some ((true, d), w') /\
    w_trace w' = w_trace w ++ [EvNode dev (inl (identity d)); EvMounts (inr e)].
Proof.
  intros dev Hu Hb Hv Hn Hm. unfold detach_attached_unit. rewrite Hb. destruct (Z.ltb_spec unit 0); [lia|]. cbn [orb negb].
  unfold detach_unit, prepare_attached_unit_detach. fold dev. rewrite Hv.
  unfold detach_target_is_released_or_reused, device_node_is_mounted, stat_node, mount_table, call, bind, ask, ret.
  cbn [negb]. rewrite Hv. cbn [negb]. rewrite Hn. rewrite bool_decide_eq_true_2 by done. cbn [negb w_clock]. rewrite Hm.
  eexists. split; [reflexivity|]. cbn. by rewrite <-app_assoc.
Qed.

Lemma unreadable_mount_table_releases_witness :
  let sys := demo_system (fun _ _ => inl demo_id) (fun _ => inr EOTHER) (fun _ _ => inr ENOENT) 3 in
  let d := DetachState false true 1 2 3 in
  exists w', detach_attached_unit sys ATTACH_BACKEND_LVD 3 d (demo_world empty_cache) = Some ((true, d), w') /\
    w_trace w' = [] ++ [EvNode "/dev/lvd3" (inl demo_id); EvMounts (inr EOTHER)].
Proof.
  intros sys d. apply (unreadable_mount_table_releases sys ATTACH_BACKEND_LVD 3 d (demo_world empty_cache) EOTHER); done.
Defined.
