(* ===== verification/ImageUnmount.v ===== *)
(** * Unmounting images (src/sm_image.c)

    The way from an image that is mounted to one that is not: the file systems of its
    mount point, the device, the directory, and the record in the image cache, each
    released in that order and none forgotten before it is known to be released.

    The mutex that callers hold is not represented: other threads may change
    the image cache between any two steps.  An image inside the mounted container of
    another is unmounted by recursion, to the depth of [fuel]. *)
From S2P Require Import Prelude CString PathState IniFile SmbAddress ConfigState ConfigStore ImageKinds ImageCache MountDevice.
From stdpp Require Import list.
Open Scope Z_scope.
Open Scope c_scope.

Record unmount_result_t := UnmountResult {
  filesystem_released : bool; device_released : bool; directory_removed : bool; ur_error : option error_t;
}.

Definition no_result : unmount_result_t := UnmountResult false false false None.
Definition failed_with (e : error_t) : unmount_result_t := UnmountResult false false false (Some e).

Definition unmount_completed (r : unmount_result_t) : bool :=
  filesystem_released r && device_released r && directory_removed r.

Definition MAX_LAYERED_UNMOUNT_ATTEMPTS : nat := 4.

(** The record of an attachment with a device. *)
Definition holds_device (e : ImageCache) : bool :=
  negb (bool_decide (backend e = ATTACH_BACKEND_NONE)) && negb (unit_id e <? 0).

Section unmount.
Context (sys : system) (MNAMELEN : nat).

Abbreviation mount_point_of := (build_image_mount_point MNAMELEN).

(** A cache operation that leaves its error in [errno]. *)
Definition cache_call {A} (f : (string -> option node_id) -> image_cache -> outcome A * image_cache) (ev : outcome A -> list event) : M (outcome A) :=
  let* r := cache_use sys f ev in
  match r with
  | Err (Some e) => let* _ := set_errno (Some (Known e)) in ret r
  | _ => ret r
  end.

Definition is_ok {A} (r : outcome A) : bool := match r with Ok _ => true | Err _ => false end.

Definition cache_entry (index : nat) : M (option ImageCache) :=
  cache_query sys (fun c => get_image_cache_entry c (Z.of_nat index)).
Definition cache_find (path : string) : M (option (nat * ImageCache)) :=
  cache_query sys (fun c => find_image_cache_entry c path).

(** ** The record *)
Definition same_record (expected current : ImageCache) : bool :=
  (generation current =? generation expected) && strcmp_eq (ic_path current) (ic_path expected) &&
  strcmp_eq (ic_mount_point current) (ic_mount_point expected) && (unit_id current =? unit_id expected) &&
  bool_decide (backend current = backend expected) &&
  (negb (node_identity_valid (detach_state expected)) ||
   (node_identity_valid (detach_state current) && bool_decide (identity (detach_state current) = identity (detach_state expected)))).

Definition invalidate_matching_image_cache_entry (index : nat) (expected : ImageCache) : M bool :=
  let* current := cache_entry index in
  match current with
  | None => fail_with (Known ESTALE)
  | Some e =>
      if negb (same_record expected e) then fail_with (Known ESTALE)
      else
        let* r := cache_call (fun _ c => invalidate_image_cache_entry c (Z.of_nat index) e)
                    (fun r => if is_ok r then [EvDrop e] else []) in
        ret (is_ok r)
  end.

Definition cancel_attachment (path : string) (gen : Z) : M bool :=
  cache_use sys (fun _ c => cancel_image_attachment c path gen) (fun ok => [EvCancel path gen ok]).

(** ** The device *)
Definition detach_cached_image_device (path : string) (gen : Z) (b : attach_backend_t) (unit : Z) : M bool :=
  let* claimed := cache_call (fun ds c => claim_image_cache_detach ds c path gen unit b)
                    (fun r => match r with Ok e => [EvClaim e] | Err _ => [] end) in
  match claimed with
  | Err _ => ret false
  | Ok cached =>
      let d := detach_state cached in
      let* (detached, d') := detach_attached_unit sys b unit d in
      let* detach_errno := look w_errno in
      let* finished := cache_call (fun _ c => finish_image_cache_detach_attempt c path (generation cached) unit b d')
                         (fun r => [EvFinish path (generation cached) unit b (is_ok r)]) in
      if negb (is_ok finished) then fail_with (Known ESTALE)
      else if detached : bool then ret true
      else if negb (requested d) && requested d' then wait_for_attached_unit_release sys b unit d'
      else let* _ := set_errno detach_errno in ret false
  end.

(** ** The file systems of a mount point *)

(** [Some] error ends the release. *)
Fixpoint unmount_layers (attempts : nat) (mount_point : string) : M (option error_t) :=
  match attempts with
  | O => ret None
  | S n =>
      let* active := is_active_image_mount_point sys mount_point in
      if negb active then ret None
      else
        let* r := command sys (fun n => sys_unmount sys n mount_point) (EvUnmount mount_point) in
        match r with
        | None => unmount_layers n mount_point
        | Some e => if bool_decide (e = ENOENT \/ e = Known EINVAL) then ret None else ret (Some e)
        end
  end.

(** ** One image *)

(** The device to release: what the caller names, or what the mount point shows. *)
Definition device_to_release (mount_point : string) (unit : Z) (b : attach_backend_t) : M (attach_backend_t * Z) :=
  if (unit <? 0) || bool_decide (b = ATTACH_BACKEND_NONE) then
    let* r := resolve_device_from_mount sys mount_point in ret (default (ATTACH_BACKEND_NONE, -1) r)
  else ret (b, unit).

(** The record of the image is marked: its generation, or the result that ends here. *)
Definition reserve_release (path : string) (b : attach_backend_t) (unit : Z) (expected_generation : Z) : M (Z + unmount_result_t) :=
  let fail (e : error_t) := let* _ := set_errno (Some e) in ret (inr (failed_with e)) in
  let* tracked := cache_find path in
  match tracked with
  | Some (_, e) =>
      if holds_device e then
        if (negb (expected_generation =? 0) && negb (generation e =? expected_generation)) ||
           negb (unit_id e =? unit) || negb (bool_decide (backend e = b))
        then fail (Known ESTALE)
        else if bool_decide (ic_state e = ATTACHED_DEVICE_ATTACHING) && (expected_generation =? 0) then fail (Known EBUSY)
        else
          let* r := cache_call (fun ds c => mark_image_cache_detach_requested ds c (ic_path e) (generation e) (unit_id e) (backend e))
                      (fun r => [EvMark (ic_path e) (generation e) (unit_id e) (backend e) (is_ok r)]) in
          if is_ok r then ret (inl (generation e))
          else let* code := look w_errno in fail (default (Known ESTALE) code)
      else if negb (bool_decide (b = ATTACH_BACKEND_NONE)) && (0 <=? unit) then fail (Known ESTALE) else ret (inl 0)
  | None => if negb (bool_decide (b = ATTACH_BACKEND_NONE)) && (0 <=? unit) then fail (Known ESTALE) else ret (inl 0)
  end.

(** The device and the directory, when no file system is mounted any more. *)
Definition release_device (path mount_point : string) (gen : Z) (b : attach_backend_t) (unit : Z) : M unmount_result_t :=
  let* (released, error) :=
    (if negb (bool_decide (b = ATTACH_BACKEND_NONE)) && (0 <=? unit) then
       let* released := detach_cached_image_device path gen b unit in
       let* code := look w_errno in
       ret (released, if released : bool then None else Some (default EIO code))
     else ret (true, None)) in
  let* r := command sys (fun n => sys_rmdir sys n mount_point) (EvRmdir mount_point) in
  let removed := match r with None => true | Some e => bool_decide (e = ENOENT) end in
  let error' := match error, r with
                | Some e, _ => Some e
                | None, Some e => if removed then None else Some e
                | None, None => None
                end in
  let* _ := (match error' with Some e => set_errno (Some e) | None => ret tt end) in
  ret (UnmountResult true released removed error').

(** The mounts of the images below a container. *)
Definition child_turn (impl : string -> Z -> attach_backend_t -> M unmount_result_t) (mount_point : string)
    (index : nat) (all_unmounted : bool) : M bool :=
  let* cached := cache_entry index in
  match cached with
  | None => ret all_unmounted
  | Some e =>
      if negb (path_matches_root_or_child (ic_path e) mount_point) then ret all_unmounted
      else if bool_decide (ic_state e = ATTACHED_DEVICE_ATTACHING) then let* _ := set_errno (Some (Known EBUSY)) in ret false
      else if negb (holds_device e) then ret all_unmounted
      else
        let* result := impl (ic_path e) (unit_id e) (backend e) in
        if unmount_completed result then let* _ := invalidate_matching_image_cache_entry index e in ret all_unmounted
        else let* _ := (match ur_error result with Some x => set_errno (Some x) | None => ret tt end) in ret false
  end.

(** [for (k = first; k < first + n; k++)]. *)
Fixpoint for_slots {A} (n first : nat) (turn : nat -> A -> M A) (acc : A) : M A :=
  match n with O => ret acc | S n' => let* acc' := turn first acc in for_slots n' (S first) turn acc' end.

Definition unmount_child_image_mounts_for_container (impl : string -> Z -> attach_backend_t -> M unmount_result_t)
    (mount_point : string) : M bool :=
  for_slots MAX_IMAGE_MOUNTS 0 (child_turn impl mount_point) true.

Definition forget_source (cleanup_source_state : bool) (mount_point : string) : M () :=
  if cleanup_source_state then emit [EvForgetSource mount_point; EvForgetGame mount_point] else ret tt.

(** From the marked record on. *)
Definition release_image (cleanup_source_state : bool) (path mount_point : string) (gen : Z) (b : attach_backend_t) (unit : Z) :
    M unmount_result_t :=
  let fail (e : error_t) := let* _ := set_errno (Some e) in ret (failed_with e) in
  let* _ := forget_source cleanup_source_state mount_point in
  let* layers := unmount_layers MAX_LAYERED_UNMOUNT_ATTEMPTS mount_point in
  match layers with
  | Some e => fail e
  | None =>
      let* active := is_active_image_mount_point sys mount_point in
      if active then fail (Known EBUSY) else release_device path mount_point gen b unit
  end.

Fixpoint unmount_image_impl (fuel : nat) (cleanup_source_state : bool) (expected_generation : Z) (path : string) (unit : Z)
    (b : attach_backend_t) : M unmount_result_t :=
  match fuel with
  | O => stuck
  | S fuel' =>
      let fail (e : error_t) := let* _ := set_errno (Some e) in ret (failed_with e) in
      let* protected := ask sys (fun n => sys_protected sys n path) quiet in
      if protected then fail (Known EBUSY)
      else
        let t := detect_image_fs_type_for_path path "" in
        let mount_point := build_image_mount_point_for_fs MNAMELEN path t in
        let* (b', unit') := device_to_release mount_point unit b in
        let* reserved := reserve_release path b' unit' expected_generation in
        match reserved with
        | inr result => ret result
        | inl gen =>
            let* children :=
              (if bool_decide (t = IMAGE_FS_PFSC_CONTAINER)
               then unmount_child_image_mounts_for_container (unmount_image_impl fuel' cleanup_source_state 0) mount_point
               else ret true) in
            if negb children then let* code := look w_errno in fail (default (Known EBUSY) code)
            else release_image cleanup_source_state path mount_point gen b' unit'
        end
  end.

Context (fuel : nat).

Definition unmount_image (path : string) (unit : Z) (b : attach_backend_t) : M unmount_result_t :=
  unmount_image_impl fuel true 0 path unit b.
Definition unmount_runtime_image (path : string) (unit : Z) (b : attach_backend_t) : M unmount_result_t :=
  unmount_image_impl fuel false 0 path unit b.

(** ** Releasing *)
Definition release_runtime_image_attachment (path : string) (gen : Z) : M bool :=
  let* _ := emit [EvRelease path gen] in
  let* found := cache_find path in
  match found with
  | Some (index, e) =>
      if negb (generation e =? gen) then fail_with (Known ESTALE)
      else if negb (holds_device e) then cancel_attachment path gen
      else
        let* result := unmount_image_impl fuel false gen (ic_path e) (unit_id e) (backend e) in
        if negb (unmount_completed result) then ret false else invalidate_matching_image_cache_entry index e
  | None => fail_with (Known ESTALE)
  end.

Definition release_runtime_image_mount (path : string) : M bool :=
  let* found := cache_find path in
  match found with
  | None => ret true
  | Some (index, e) =>
      if bool_decide (ic_state e = ATTACHED_DEVICE_ATTACHING) then fail_with (Known EBUSY)
      else if negb (holds_device e) then ret true
      else
        let* result := unmount_runtime_image (ic_path e) (unit_id e) (backend e) in
        if negb (unmount_completed result) then ret false
        else let* _ := invalidate_matching_image_cache_entry index e in ret true
  end.

(** An image of the cache with its slot is unmounted, and forgotten when that is complete. *)
Definition unmount_slot (impl : string -> Z -> attach_backend_t -> M unmount_result_t) (index : nat) (e : ImageCache) : M bool :=
  let* result := impl (ic_path e) (unit_id e) (backend e) in
  if unmount_completed result then let* _ := invalidate_matching_image_cache_entry index e in ret true else ret false.

(** The variables of a pass: [all_released], [any_remaining], [progress]. *)
Abbreviation pass_state := (bool * bool * bool)%type.

Definition release_turn (index : nat) (s : pass_state) : M pass_state :=
  let '(all_released, any_remaining, progress) := s in
  let* cached := cache_entry index in
  match cached with
  | None => ret s
  | Some e =>
      if bool_decide (ic_state e = ATTACHED_DEVICE_ATTACHING) then ret (false, true, progress)
      else if negb (holds_device e) then ret s
      else
        let* protected := ask sys (fun n => sys_protected sys n (ic_path e)) quiet in
        if protected then ret s
        else
          let* completed := unmount_slot unmount_runtime_image index e in
          ret (if completed then (all_released, any_remaining, true) else (false, true, progress))
  end.

Fixpoint release_passes (passes : nat) (all_released : bool) : M bool :=
  match passes with
  | O => ret all_released
  | S n =>
      let* (all, remaining, progress) := for_slots MAX_IMAGE_MOUNTS 0 release_turn (all_released, false, false) in
      if negb remaining then ret true else if negb progress then ret all else release_passes n all
  end.

Definition release_runtime_image_mounts : M bool := release_passes MAX_LAYERED_UNMOUNT_ATTEMPTS true.

(** [any_remaining], [progress]. *)
Definition shutdown_turn (index : nat) (s : bool * bool) : M (bool * bool) :=
  let* cached := cache_entry index in
  match cached with
  | None => ret s
  | Some e =>
      if negb (holds_device e) then ret s
      else let* completed := unmount_slot unmount_runtime_image index e in ret (if completed then (s.1, true) else (true, s.2))
  end.

Fixpoint shutdown_passes (passes : nat) : M bool :=
  match passes with
  | O => ret false
  | S n =>
      let* (remaining, progress) := for_slots MAX_IMAGE_MOUNTS 0 shutdown_turn (false, false) in
      if negb remaining then ret true else if negb progress then ret false else shutdown_passes n
  end.

Definition shutdown_image_mounts : M bool := shutdown_passes MAX_LAYERED_UNMOUNT_ATTEMPTS.

Definition usb_turn (index : nat) (all_unmounted : bool) : M bool :=
  let* cached := cache_entry index in
  match cached with
  | None => ret all_unmounted
  | Some e =>
      if negb (is_usb_storage_path (ic_path e)) then ret all_unmounted
      else if bool_decide (ic_state e = ATTACHED_DEVICE_ATTACHING) then ret false
      else if negb (holds_device e) then ret all_unmounted
      else let* completed := unmount_slot unmount_runtime_image index e in ret (if completed then all_unmounted else false)
  end.

Definition unmount_usb_image_mounts_for_suspend : M bool := for_slots MAX_IMAGE_MOUNTS 0 usb_turn true.

(** ** Directories of mount points *)
Definition remove_mount_dir (base : string) (skip : option string) (entry : string * bool) : M bool :=
  let* stopping := ask sys (sys_stopping sys) quiet in
  if stopping then ret false
  else
    let '(name, is_dir) := entry in
    if bool_decide (char_at name 0 = Some ImageKinds.dot) || bool_decide (skip = Some name) || negb is_dir then ret true
    else
      let* _ := command sys (fun n => sys_rmdir sys n (String.append base (String slash name)))
                  (EvRmdir (String.append base (String slash name))) in ret true.

Fixpoint remove_mount_dirs (base : string) (skip : option string) (entries : list (string * bool)) : M () :=
  match entries with
  | [] => ret tt
  | e :: rest => let* go := remove_mount_dir base skip e in if go : bool then remove_mount_dirs base skip rest else ret tt
  end.

Definition cleanup_mount_dirs_under (base : string) (skip : option string) : M () :=
  let* opened := command sys (fun n => sys_open sys n base) (EvOpen base) in
  match opened with
  | Some _ => ret tt
  | None => let* entries := ask sys (fun n => sys_list sys n base) quiet in remove_mount_dirs base skip entries
  end.

Definition cleanup_mount_dirs : M () :=
  let* _ := cleanup_mount_dirs_under PFSC_IMAGE_MOUNT_BASE None in cleanup_mount_dirs_under IMAGE_MOUNT_BASE (Some "pfsc"%string).
End unmount.

(** ** What every trace satisfies *)
Section safe.
Context (sys : system) (MNAMELEN : nat).
(** Whether devices are attached as well. *)
Context (attaching : Prop).

Abbreviation mount_point_of := (build_image_mount_point MNAMELEN).

(** The last two probes of the mount point found nothing mounted there. *)
Definition unmounted_seen (path : string) (t : list event) : Prop :=
  exists p answer rows q, t = p ++ EvStatfs path answer :: EvMounts (inl rows) :: q /\ mounted_on path rows = false /\
    match answer with inl sfs => f_mntonname sfs <> path | inr _ => True end.

Definition directory_gone (path : string) (t : list event) : Prop := EvRmdir path None ∈ t \/ EvRmdir path (Some ENOENT) ∈ t.

(** The image [path] was released: nothing was mounted at its mount point when its
    device was claimed, the device claimed is gone since, and so is the directory. *)
Definition released_seen (path : string) (unit : Z) (b : attach_backend_t) (t : list event) : Prop :=
  exists p record q, t = p ++ EvClaim record :: q /\
    ic_path record = path /\ unit_id record = unit /\ backend record = b /\
    unmounted_seen (mount_point_of path) p /\
    gone_seen (build_attached_unit_devname b unit) (identity (detach_state record)) q /\
    directory_gone (mount_point_of path) q.

(** The device was claimed in the cache by this call, or never recorded in it. *)
Definition owned (b : attach_backend_t) (unit : Z) (id : node_id) (t : list event) : Prop :=
  (exists record, EvClaim record ∈ t /\ unit_id record = unit /\ backend record = b /\ identity (detach_state record) = id) \/
  (exists path gen, EvPublish path gen unit b false ∈ t).

Definition justified (pre : list event) (e : event) : Prop :=
  match e with
  | EvDetach b unit _ => exists id, checked b unit id pre /\ owned b unit id pre
  | EvDrop record => released_seen (ic_path record) (unit_id record) (backend record) pre
  | EvAttach _ _ => attaching
  | _ => True
  end.

Definition safe (t : list event) : Prop := forall pre e post, t = pre ++ e :: post -> justified pre e.

Definition plain (e : event) : bool := match e with EvDetach _ _ _ | EvDrop _ | EvAttach _ _ => false | _ => true end.

Lemma unmounted_seen_app path p t : unmounted_seen path t -> unmounted_seen path (p ++ t).
Proof. intros (p' & a & rows & q & -> & H). exists (p ++ p'), a, rows, q. by rewrite <-app_assoc. Qed.

Lemma directory_gone_app path t1 t2 : directory_gone path t1 \/ directory_gone path t2 -> directory_gone path (t1 ++ t2).
Proof. unfold directory_gone. rewrite !elem_of_app. tauto. Qed.

Lemma released_seen_app path unit b p t : released_seen path unit b t -> released_seen path unit b (p ++ t).
Proof.
  intros (p' & r & q & -> & H1 & H2 & H3 & H4 & H5). exists (p ++ p'), r, q. split; [by rewrite <-app_assoc|].
  repeat (split; [done|]). split; [by apply unmounted_seen_app|done].
Qed.

Lemma owned_app b unit id p t : owned b unit id p \/ owned b unit id t -> owned b unit id (p ++ t).
Proof.
  intros [[(r & Hr & H)|(path & gen & Hp)]|[(r & Hr & H)|(path & gen & Hp)]].
  - left. exists r. split; [apply elem_of_app; by left|done].
  - right. exists path, gen. apply elem_of_app. by left.
  - left. exists r. split; [apply elem_of_app; by right|done].
  - right. exists path, gen. apply elem_of_app. by right.
Qed.

Lemma justified_app p pre e : justified pre e -> justified (p ++ pre) e.
Proof.
  destruct e; try done; cbn [justified].
  - intros (id & Hc & Ho). exists id. split; [by apply checked_app|]. apply owned_app. by right.
  - apply released_seen_app.
Qed.

Lemma safe_nil : safe [].
Proof. intros pre e post He. by destruct pre. Qed.

Lemma safe_snoc_all t u : safe t -> (forall pre e post, u = pre ++ e :: post -> justified (t ++ pre) e) -> safe (t ++ u).
Proof.
  intros Ht Hu pre e post He. apply app_eq_inv in He as [(k & -> & Hk)|(k & -> & Hk)].
  - destruct k as [|x k]; simpl in Hk.
    + specialize (Hu [] e post (eq_sym Hk)). by rewrite !app_nil_r in Hu.
    + injection Hk as <- Hk. by eapply Ht.
  - by eapply Hu.
Qed.

Lemma safe_app t u : safe t -> safe u -> safe (t ++ u).
Proof. intros Ht Hu. apply safe_snoc_all; [done|]. intros pre e post He. apply justified_app. by eapply Hu. Qed.

Lemma safe_plain t : Forall (fun e => plain e = true) t -> safe t.
Proof. intros Ht pre e post ->. apply Forall_app in Ht as [_ Ht]. apply Forall_cons in Ht as [Ht _]. by destruct e. Qed.

Lemma safe_one e : plain e = true -> safe [e].
Proof. intros He. apply safe_plain. by apply Forall_singleton. Qed.

Lemma safe_probes t : Forall (fun e => probe e = true) t -> safe t.
Proof. intros Ht. apply safe_plain. eapply Forall_impl; [exact Ht|]. by intros []. Qed.

(** A request for a device that is owned. *)
Lemma safe_request t b unit known u : safe t -> one_request b unit known u ->
  (forall id, from_option (eq id) True known -> owned b unit id t) -> safe (t ++ u).
Proof.
  intros Ht [Hu|(pre & a & post & id & -> & H1 & H2 & Hc & Hk)] Ho.
  - apply safe_app; [done|]. by apply safe_probes.
  - apply safe_snoc_all; [done|]. intros pre' e post' He. destruct (plain e) eqn:Hp; [by destruct e|].
    assert (Hpre : forall x l, Forall (fun e => probe e = true) l -> x ∈ l -> plain x = true).
    { intros x l Hl Hx. rewrite Forall_forall in Hl. specialize (Hl x Hx). by destruct x. }
    apply app_eq_inv in He as [(k & -> & Hk')|(k & -> & Hk')].
    + destruct k as [|x k]; simpl in Hk'.
      * injection Hk' as -> ->. rewrite app_nil_r in *. exists id. split; [by apply checked_app|]. apply owned_app. left. by apply Ho.
      * injection Hk' as <- Hk'. exfalso. rewrite (Hpre e _ H1) in Hp; [done|]. apply elem_of_app. right. by apply elem_of_cons; left.
    + destruct k as [|x k]; simpl in Hk'.
      * injection Hk' as <- <-. rewrite app_nil_r. exists id. split; [by apply checked_app|]. apply owned_app. left. by apply Ho.
      * injection Hk' as <- ->. exfalso. rewrite (Hpre e _ H2) in Hp; [done|]. apply elem_of_app. right. by apply elem_of_cons; left.
Qed.

(** ** Programs whose traces are safe *)
Abbreviation safely m := (emits m (fun _ t => safe t)).

Lemma safely_bind {A B} (m : M A) (k : A -> M B) : safely m -> (forall a, safely (k a)) -> safely (bind m k).
Proof.
  intros Hm Hk. eapply emits_bind; [exact Hm|]. intros a t Ht. eapply emits_weaken; [apply Hk|]. intros b t'. by apply safe_app.
Qed.

Lemma safely_ret {A} (x : A) : safely (ret x).
Proof. apply emits_ret, safe_nil. Qed.
Lemma safely_look {A} (f : world -> A) : safely (look f).
Proof. apply emits_look. intros _. apply safe_nil. Qed.
Lemma safely_errno e : safely (set_errno e).
Proof. apply emits_errno, safe_nil. Qed.
Lemma safely_fail e : safely (fail_with e).
Proof. apply emits_fail_with, safe_nil. Qed.
Lemma safely_emit evs : Forall (fun e => plain e = true) evs -> safely (emit evs).
Proof. intros H. by apply emits_emit, safe_plain. Qed.
Lemma safely_ask {A} (f : nat -> A) ev : (forall a, plain (ev a) = true) -> safely (ask sys f ev).
Proof. intros H. apply emits_ask. intros a. by apply safe_one. Qed.
Lemma safely_call {A} (f : nat -> A + error_t) ev : (forall a, plain (ev a) = true) -> safely (call sys f ev).
Proof. intros H. apply emits_call. intros a. by apply safe_one. Qed.
Lemma safely_command f ev : (forall a, plain (ev a) = true) -> safely (command sys f ev).
Proof. intros H. apply emits_command. intros a. by apply safe_one. Qed.

Lemma emits_cache_call {A} (f : (string -> option node_id) -> image_cache -> outcome A * image_cache) ev (Q : outcome A -> list event -> Prop) :
  (forall ds c, Q (f ds c).1 (ev (f ds c).1)) -> emits (cache_call sys f ev) Q.
Proof.
  intros HQ. eapply emits_bind; [by apply (emits_cache_use _ _ _ (fun r t => exists ds c, r = (f ds c).1 /\ t = ev r)); eauto|].
  intros r t (ds & c & -> & ->). specialize (HQ ds c). destruct (f ds c).1 as [a|[e|]].
  - apply emits_ret. by rewrite app_nil_r.
  - eapply emits_bind; [by apply (emits_errno _ (fun _ t => t = []))|]. intros _ t ->. apply emits_ret. by rewrite app_nil_r.
  - apply emits_ret. by rewrite app_nil_r.
Qed.

Lemma safely_cache_call {A} (f : (string -> option node_id) -> image_cache -> outcome A * image_cache) ev :
  (forall r, Forall (fun e => plain e = true) (ev r)) -> safely (cache_call sys f ev).
Proof. intros H. apply emits_cache_call. intros ds c. by apply safe_plain. Qed.

Lemma safely_for_slots {A} n first (turn : nat -> A -> M A) acc : (forall k a, safely (turn k a)) -> safely (for_slots n first turn acc).
Proof.
  intros Ht. revert first acc. induction n as [|n IH]; intros first acc; cbn [for_slots]; [apply safely_ret|].
  apply safely_bind; [apply Ht|]. intros a. apply IH.
Qed.

Lemma safely_weaken {A} (m : M A) (P : A -> list event -> Prop) : emits m (fun a t => safe t /\ P a t) -> safely m.
Proof. intros H. eapply emits_weaken; [exact H|]. by intros a t [? _]. Qed.

(** ** The record *)
Lemma cache_entry_emits index : emits (cache_entry sys index) (fun _ t => t = []).
Proof. by apply emits_cache_query. Qed.

Lemma cache_find_emits path : emits (cache_find sys path) (fun r t => t = [] /\ forall i e, r = Some (i, e) -> ic_path e = path).
Proof.
  apply emits_cache_query. intros c. split; [done|]. intros i e H. by apply find_by_path_Some in H as (_ & _ & ?).
Qed.

Definition same_device (e e' : ImageCache) : Prop := ic_path e' = ic_path e /\ unit_id e' = unit_id e /\ backend e' = backend e.

Lemma invalidate_emits index e0 : emits (invalidate_matching_image_cache_entry sys index e0)
  (fun _ t => t = [] \/ exists e, t = [EvDrop e] /\ same_device e0 e).
Proof.
  unfold invalidate_matching_image_cache_entry. emits_step cache_entry_emits. intros [e|] t ->; [|apply emits_fail_with; by left].
  destruct (same_record e0 e) eqn:Hs; cbn [negb]; [|apply emits_fail_with; by left].
  assert (same_device e0 e).
  { unfold same_record in Hs. bool_hyps. repeat match goal with H : strcmp_eq _ _ = true |- _ => apply strcmp_eq_true in H end. split_and!; [done|lia|done]. }
  eapply (emits_bind _ _ (fun _ t => t = [] \/ t = [EvDrop e])); [apply emits_cache_call; intros ds c; destruct (is_ok _); auto|].
  intros r t Ht. apply emits_ret. rewrite app_nil_r. destruct Ht as [->| ->]; [by left|right; by exists e].
Qed.

(** A complete release, then the record is dropped. *)
Lemma safe_drop t e0 u : safe t -> released_seen (ic_path e0) (unit_id e0) (backend e0) t ->
  u = [] \/ (exists e, u = [EvDrop e] /\ same_device e0 e) -> safe (t ++ u).
Proof.
  intros Ht Hr [->|(e & -> & H1 & H2 & H3)]; [by rewrite app_nil_r|]. apply safe_snoc_all; [done|].
  intros pre x post He. destruct pre as [|y pre]; simpl in He; [|by destruct pre]. injection He as <- <-.
  rewrite app_nil_r. cbn [justified]. by rewrite H1, H2, H3.
Qed.

(** ** The device *)
Lemma claim_ok_record ds c path gen unit b e : (claim_image_cache_detach ds c path gen unit b).1 = Ok e ->
  ic_path e = path /\ unit_id e = unit /\ backend e = b /\ node_identity_valid (detach_state e) = true.
Proof.
  unfold claim_image_cache_detach. destruct (negb _); [done|]. destruct (find_attachment_record _ _ _ _ _) as [[i e0]|] eqn:Hf; [|done].
  apply find_attachment_Some in Hf as (_ & _ & H1 & _ & H3 & H4). destruct (detach_attempt_active e0); [done|].
  destruct (refresh_attached_unit_identity ds e0) as [e' known] eqn:Hr. apply refresh_spec in Hr as (d & -> & _ & Hk).
  destruct known; cbn; [|done]. intros [= <-]. cbn. by split_and!; [..|apply Hk].
Qed.

(** The device was claimed and is gone since. *)
Definition claimed_and_gone (path : string) (unit : Z) (b : attach_backend_t) (t : list event) : Prop :=
  exists record q, t = EvClaim record :: q /\ ic_path record = path /\ unit_id record = unit /\ backend record = b /\
    gone_seen (build_attached_unit_devname b unit) (identity (detach_state record)) q.

Lemma detach_cached_emits path gen b unit : emits (detach_cached_image_device sys path gen b unit)
  (fun r t => safe t /\ (r = true -> claimed_and_gone path unit b t)).
Proof.
  unfold detach_cached_image_device.
  eapply (emits_bind _ _ (fun r t => match r with
    | Ok e => t = [EvClaim e] /\ ic_path e = path /\ unit_id e = unit /\ backend e = b /\ node_identity_valid (detach_state e) = true
    | Err _ => t = [] end)).
  { apply emits_cache_call. intros ds c. destruct (claim_image_cache_detach _ _ _ _ _ _).1 as [e|x] eqn:He; [|done].
    split; [done|]. by eapply claim_ok_record. }
  intros [e|x] t; [|intros ->; apply emits_ret; split; [apply safe_nil|done]].
  intros (-> & Hp & Hu & Hb & Hv).
  eapply emits_bind; [apply detach_attached_unit_emits|]. intros [detached d'] t1 (Hone & Hkeep & Hgone).
  unfold known_identity in *. rewrite Hv in *. destruct (Hkeep Hv) as [Hv' Hi].
  assert (Hs : safe ([EvClaim e] ++ t1)).
  { eapply safe_request; [by apply safe_one|exact Hone|]. intros id Hid. left. exists e. split; [by apply elem_of_cons; left|]. cbn in Hid. by subst id. }
  eapply emits_bind; [by apply (emits_look _ (fun _ t => t = []))|]. intros errno t2 ->.
  eapply (emits_bind _ _ (fun _ t => exists ev, t = [ev] /\ plain ev = true)); [apply emits_cache_call; intros ds c; by eexists|].
  intros finished t2 (ev & -> & Hev).
  assert (Hs2 : safe (([EvClaim e] ++ t1) ++ [ev])) by (apply safe_app; [done|by apply safe_one]).
  destruct (is_ok finished); cbn [negb].
  2:{ apply emits_fail_with. rewrite app_nil_r, app_assoc. by split. }
  destruct detached.
  - apply emits_ret. rewrite app_nil_r, app_assoc. split; [done|]. intros _. exists e, (t1 ++ [ev]). split; [by rewrite <-app_assoc|].
    split_and!; try done. destruct (Hgone eq_refl) as (_ & id & Hg & Hid). cbn in Hid. subst id. apply gone_seen_app. by left.
  - destruct (_ && _).
    + eapply emits_weaken; [by apply wait_for_release_emits|]. intros r t3 [Ht3 Hr]. rewrite !app_assoc, app_nil_r. split.
      * apply safe_app; [done|]. by apply safe_probes.
      * intros Hr'. exists e, (t1 ++ [ev] ++ t3). split; [by rewrite <-!app_assoc|]. split_and!; try done.
        rewrite <-Hi. apply gone_seen_app. right. apply gone_seen_app. right. by apply Hr.
    + eapply emits_bind; [by apply (emits_errno _ (fun _ t => t = []))|]. intros _ t3 ->. apply emits_ret.
      rewrite !app_nil_r, app_assoc. by split.
Qed.

(** ** The mount point *)
Lemma is_active_emits path : emits (is_active_image_mount_point sys path)
  (fun r t => safe t /\ (r = false -> unmounted_seen path t)).
Proof.
  unfold is_active_image_mount_point, is_path_mountpoint. emits_step statfs_emits. intros st t ->.
  assert (Hrest : (forall sfs, st = inl sfs -> f_mntonname sfs <> path) ->
    emits (let* table := mount_table sys in
           match table with inr _ => ret true | inl rows => ret (existsb (fun r => strcmp_eq r.2 path) rows) end)
      (fun r t => safe ([EvStatfs path st] ++ t) /\ (r = false -> unmounted_seen path ([EvStatfs path st] ++ t)))).
  { intros Hst. emits_step mount_table_emits. intros [rows|e] t ->; apply emits_ret; (split; [by apply safe_plain; repeat constructor|]); [|done].
    intros Hr. exists [], st, rows, []. split_and!; [done..|]. destruct st as [sfs|]; [by apply Hst|done]. }
  destruct st as [sfs|e]; [|by apply Hrest]. destruct (strcmp_eq _ path) eqn:He.
  - apply emits_ret. split; [by apply safe_one|done].
  - apply Hrest. intros sfs' [= <-]. by apply strcmp_eq_false.
Qed.

Lemma safely_unmount_layers n path : safely (unmount_layers sys n path).
Proof.
  induction n as [|n IH]; cbn [unmount_layers]; [apply safely_ret|]. apply safely_bind; [eapply safely_weaken, is_active_emits|].
  intros active. destruct (negb active); [apply safely_ret|]. apply safely_bind; [by apply safely_command|].
  intros [e|]; [|apply IH]. case_bool_decide; apply safely_ret.
Qed.

(** The end of a release: what a complete result says. *)
Definition device_and_directory_gone (path mount_point : string) (unit : Z) (b : attach_backend_t) (t : list event) : Prop :=
  exists record q, t = EvClaim record :: q /\ ic_path record = path /\ unit_id record = unit /\ backend record = b /\
    gone_seen (build_attached_unit_devname b unit) (identity (detach_state record)) q /\ directory_gone mount_point q.

Definition names_device (unit : Z) (b : attach_backend_t) : Prop := 0 <= unit /\ b <> ATTACH_BACKEND_NONE.

Lemma holds_device_names e : holds_device e = true -> names_device (unit_id e) (backend e).
Proof. unfold holds_device, names_device. intros. bool_hyps. split; [lia|done]. Qed.

Lemma release_device_emits path mount_point gen b unit : emits (release_device sys path mount_point gen b unit)
  (fun r t => safe t /\ (unmount_completed r = true -> names_device unit b -> device_and_directory_gone path mount_point unit b t)).
Proof.
  unfold release_device.
  eapply (emits_bind _ _ (fun r t => safe t /\ (r.1 = true -> names_device unit b -> claimed_and_gone path unit b t))).
  { destruct (negb (bool_decide (b = ATTACH_BACKEND_NONE)) && (0 <=? unit)) eqn:Hd.
    - eapply emits_bind; [apply detach_cached_emits|]. intros released t [Ht Hg].
      eapply emits_bind; [by apply (emits_look _ (fun _ t => t = []))|]. intros code t' ->. apply emits_ret.
      rewrite !app_nil_r. split; [done|]. intros Hr _. by apply Hg.
    - apply emits_ret. split; [apply safe_nil|]. intros _ [Hu Hb]. exfalso. apply andb_false_iff in Hd as [Hd|Hd]; [|lia].
      bool_hyps. done. }
  intros [released error] t [Ht Hg]. cbn [fst] in Hg.
  eapply emits_bind; [by apply (emits_command _ _ _ (fun a t => t = [EvRmdir mount_point a]))|]. intros r t1 ->.
  eapply (emits_bind _ _ (fun _ t => t = [])); [by destruct error, r as [x|]; repeat case_bool_decide; (apply emits_errno || apply emits_ret)|].
  intros _ t2 ->. apply emits_ret. rewrite app_nil_r. split; [apply safe_app; [done|by apply safe_one]|].
  unfold unmount_completed. cbn [filesystem_released device_released directory_removed]. intros Hc Hn. bool_hyps. subst released.
  destruct (Hg eq_refl Hn) as (record & q & -> & H1 & H2 & H3 & H4). exists record, (q ++ [EvRmdir mount_point r]).
  split; [done|]. repeat (split; [done|]). split; [apply gone_seen_app; by left|]. apply directory_gone_app. right.
  destruct r as [e|]; [|left; by apply elem_of_cons; left]. bool_hyps. subst e. right. by apply elem_of_cons; left.
Qed.

Lemma resolve_device_emits mount_point : safely (resolve_device_from_mount sys mount_point).
Proof.
  unfold resolve_device_from_mount. apply safely_bind; [by apply emits_cache_query; intros; apply safe_nil|].
  intros [d|]; [apply safely_ret|]. apply safely_bind; [by apply safely_call|]. intros [sfs|e]; [|apply safely_ret].
  destruct (negb _); [apply safely_ret|]. destruct (device_of_path _); [apply safely_ret|].
  apply safely_bind; [by apply safely_call|]. intros [rows|e]; apply safely_ret.
Qed.

(** The device a caller names is kept. *)
Lemma device_to_release_emits mount_point unit b : emits (device_to_release sys mount_point unit b)
  (fun r t => safe t /\ (names_device unit b -> r = (b, unit))).
Proof.
  unfold device_to_release. destruct (_ || _) eqn:Hd.
  - eapply emits_bind; [apply resolve_device_emits|]. intros r t Ht. apply emits_ret. rewrite app_nil_r. split; [done|].
    intros [Hu Hb]. apply orb_true_iff in Hd as [Hd|Hd]; [lia|]. by apply bool_decide_eq_true in Hd.
  - apply emits_ret. split; [apply safe_nil|done].
Qed.

Lemma reserve_release_emits path b unit expected : emits (reserve_release sys path b unit expected)
  (fun r t => safe t /\ forall result, r = inr result -> unmount_completed result = false).
Proof.
  assert (Hfail : forall e, emits (let* _ := set_errno (Some e) in ret (inr (failed_with e)) : M (Z + unmount_result_t))
            (fun r t => t = [] /\ forall result, r = inr result -> unmount_completed result = false)).
  { intros e. eapply emits_bind; [by apply (emits_errno _ (fun _ t => t = []))|]. intros _ t ->. apply emits_ret.
    split; [done|]. by intros result [= <-]. }
  assert (Hfail' : forall t e, safe t -> emits (let* _ := set_errno (Some e) in ret (inr (failed_with e)) : M (Z + unmount_result_t))
            (fun r u => safe (t ++ u) /\ forall result, r = inr result -> unmount_completed result = false)).
  { intros t e Ht. eapply emits_weaken; [apply Hfail|]. intros r u [-> Hr]. by rewrite app_nil_r. }
  unfold reserve_release. emits_step cache_find_emits. intros [[i e]|] t [-> _].
  2:{ destruct (_ && _); [by apply Hfail', safe_nil|]. apply emits_ret. split; [apply safe_nil|done]. }
  destruct (holds_device e).
  2:{ destruct (_ && _); [by apply Hfail', safe_nil|]. apply emits_ret. split; [apply safe_nil|done]. }
  destruct (_ || _ || _); [by apply Hfail', safe_nil|]. destruct (_ && _); [by apply Hfail', safe_nil|].
  eapply emits_bind; [by apply safely_cache_call; intros r; repeat constructor|]. intros r t Ht. destruct (is_ok r).
  - apply emits_ret. rewrite app_nil_r. by split.
  - eapply emits_bind; [by apply (emits_look _ (fun _ t => t = []))|]. intros code t' ->.
    eapply emits_weaken; [by apply Hfail|]. intros r' u [-> Hr']. by rewrite !app_nil_r.
Qed.

(** ** Releasing an image

    What the unmount functions promise: a safe trace, and the evidence of a release
    when the result is complete. *)
Definition unmounts (impl : string -> Z -> attach_backend_t -> M unmount_result_t) : Prop :=
  forall path unit b, emits (impl path unit b)
    (fun r t => safe t /\ (unmount_completed r = true -> names_device unit b -> released_seen path unit b t)).

Lemma release_image_emits cleanup path gen b unit :
  emits (release_image sys cleanup path (mount_point_of path) gen b unit)
    (fun r t => safe t /\ (unmount_completed r = true -> names_device unit b -> released_seen path unit b t)).
Proof.
  unfold release_image. eapply (emits_bind _ _ (fun _ t => safe t)).
  { unfold forget_source. destruct cleanup; [apply safely_emit; by repeat constructor|apply safely_ret]. }
  intros _ t Ht. eapply emits_bind; [apply safely_unmount_layers|]. intros [e|] t1 Ht1.
  { eapply emits_bind; [by apply (emits_errno _ (fun _ t => t = []))|]. intros _ t2 ->. apply emits_ret.
    rewrite app_nil_r. split; [by apply safe_app|done]. }
  eapply emits_bind; [apply is_active_emits|]. intros active t2 [Ht2 Hu]. destruct active.
  { eapply emits_bind; [by apply (emits_errno _ (fun _ t => t = []))|]. intros _ t3 ->. apply emits_ret.
    rewrite app_nil_r. split; [by repeat apply safe_app|done]. }
  eapply emits_weaken; [apply release_device_emits|]. intros r t3 [Ht3 Hr]. split; [by repeat apply safe_app|].
  intros Hc Hn. destruct (Hr Hc Hn) as (record & q & -> & H1 & H2 & H3 & H4 & H5). rewrite !app_assoc.
  exists ((t ++ t1) ++ t2), record, q. split; [done|]. repeat (split; [done|]). split; [|done]. apply unmounted_seen_app. by apply Hu.
Qed.

(** The record of an unmounted image is dropped. *)
Lemma safely_drop_after impl e : unmounts impl -> holds_device e = true ->
  emits (impl (ic_path e) (unit_id e) (backend e)) (fun r t => safe t /\
    (unmount_completed r = true -> forall u, u = [] \/ (exists e', u = [EvDrop e'] /\ same_device e e') -> safe (t ++ u))).
Proof.
  intros Himpl Hd. eapply emits_weaken; [apply Himpl|]. intros r t [Ht Hr]. split; [done|]. intros Hc u Hu.
  eapply safe_drop; [done| |done]. apply Hr; [done|]. by apply holds_device_names.
Qed.

Lemma safely_unmount_slot impl index e : unmounts impl -> holds_device e = true -> safely (unmount_slot sys impl index e).
Proof.
  intros Himpl Hd. unfold unmount_slot. eapply emits_bind; [by apply safely_drop_after|]. intros r t [Ht Hr].
  destruct (unmount_completed r).
  - eapply emits_bind; [apply invalidate_emits|]. intros x u Hu. apply emits_ret. rewrite app_nil_r. by apply Hr.
  - apply emits_ret. by rewrite app_nil_r.
Qed.

Lemma safely_child_turn impl mount_point index all : unmounts impl -> safely (child_turn sys impl mount_point index all).
Proof.
  intros Himpl. unfold child_turn. apply safely_bind; [eapply emits_weaken; [apply cache_entry_emits|]; intros ? ? ->; apply safe_nil|].
  intros [e|]; [|apply safely_ret]. destruct (negb _); [apply safely_ret|]. case_bool_decide.
  { apply safely_bind; [apply safely_errno|]. intros _. apply safely_ret. }
  destruct (holds_device e) eqn:Hd; cbn [negb]; [|apply safely_ret].
  eapply emits_bind; [by apply safely_drop_after|]. intros r t [Ht Hr]. destruct (unmount_completed r).
  - eapply emits_bind; [apply invalidate_emits|]. intros x u Hu. apply emits_ret. rewrite app_nil_r. by apply Hr.
  - eapply (emits_bind _ _ (fun _ t => t = [])); [by destruct (ur_error r); [apply emits_errno|apply emits_ret]|].
    intros _ u ->. apply emits_ret. by rewrite app_nil_r.
Qed.

Lemma unmount_image_impl_unmounts fuel cleanup expected : unmounts (unmount_image_impl sys MNAMELEN fuel cleanup expected).
Proof.
  revert expected. induction fuel as [|fuel IH]; intros expected path unit b; cbn [unmount_image_impl]; [apply emits_stuck|].
  assert (Hfail : forall e t, safe t -> emits (let* _ := set_errno (Some e) in ret (failed_with e))
    (fun r u => safe (t ++ u) /\ (unmount_completed r = true -> names_device unit b -> released_seen path unit b (t ++ u)))).
  { intros e t Ht. eapply emits_bind; [by apply (emits_errno _ (fun _ t => t = []))|]. intros _ u ->. apply emits_ret.
    rewrite !app_nil_r. by split. }
  eapply emits_bind; [by apply (safely_ask _ quiet)|]. intros protected t Ht. destruct protected; [by apply Hfail|].
  change (build_image_mount_point_for_fs MNAMELEN path (detect_image_fs_type_for_path path "")) with (mount_point_of path).
  eapply emits_bind; [apply device_to_release_emits|]. intros [b' unit'] t1 [Ht1 Hd].
  eapply emits_bind; [apply reserve_release_emits|]. intros [gen|result] t2 [Ht2 Hr].
  2:{ apply emits_ret. rewrite app_nil_r. split; [by repeat apply safe_app|]. by rewrite (Hr result eq_refl). }
  eapply (emits_bind _ _ (fun _ t => safe t)).
  { case_bool_decide; [|apply safely_ret]. apply safely_for_slots. intros k a. by apply safely_child_turn. }
  intros children t3 Ht3. assert (Hsafe : safe (t ++ t1 ++ t2 ++ t3)) by (by repeat apply safe_app).
  destruct children; cbn [negb].
  - eapply emits_weaken; [apply release_image_emits|]. intros r u [Hu Hc].
    replace (t ++ t1 ++ t2 ++ t3 ++ u) with ((t ++ t1 ++ t2 ++ t3) ++ u) by (by rewrite <-!app_assoc).
    split; [by apply safe_app|]. intros Hr' Hn. injection (Hd Hn) as -> ->. apply released_seen_app. by apply Hc.
  - eapply emits_bind; [by apply (emits_look _ (fun _ t => t = []))|]. intros code u ->.
    eapply emits_weaken; [by apply (Hfail _ _ Hsafe)|]. intros r u. by rewrite app_nil_l, <-!app_assoc.
Qed.

(** *** The releases of the cache *)
Context (fuel : nat).

Lemma safely_cache_entry index : safely (cache_entry sys index).
Proof. eapply emits_weaken; [apply cache_entry_emits|]. intros ? ? ->. apply safe_nil. Qed.
Lemma safely_cache_find path : safely (cache_find sys path).
Proof. eapply emits_weaken; [apply cache_find_emits|]. intros ? ? [-> _]. apply safe_nil. Qed.
Lemma safely_cancel path gen : safely (cancel_attachment sys path gen).
Proof. apply emits_cache_use. intros ds c. by apply safe_one. Qed.

Lemma safely_unmount cleanup expected path unit b : safely (unmount_image_impl sys MNAMELEN fuel cleanup expected path unit b).
Proof. eapply safely_weaken, unmount_image_impl_unmounts. Qed.


Lemma safely_release_attachment path gen : safely (release_runtime_image_attachment sys MNAMELEN fuel path gen).
Proof.
  unfold release_runtime_image_attachment. apply safely_bind; [apply safely_emit; by repeat constructor|]. intros _.
  apply safely_bind; [apply safely_cache_find|]. intros [[index e]|]; [|apply safely_fail].
  destruct (negb _); [apply safely_fail|]. destruct (holds_device e) eqn:Hd; cbn [negb]; [|apply safely_cancel].
  eapply emits_bind; [apply safely_drop_after; [apply unmount_image_impl_unmounts|done]|]. intros r t [Ht Hr].
  destruct (unmount_completed r); cbn [negb].
  - eapply emits_weaken; [apply invalidate_emits|]. intros x u Hu. by apply Hr.
  - apply emits_ret. by rewrite app_nil_r.
Qed.

Lemma safely_release_mount path : safely (release_runtime_image_mount sys MNAMELEN fuel path).
Proof.
  unfold release_runtime_image_mount. apply safely_bind; [apply safely_cache_find|]. intros [[index e]|]; [|apply safely_ret].
  case_bool_decide; [apply safely_fail|]. destruct (holds_device e) eqn:Hd; cbn [negb]; [|apply safely_ret].
  eapply emits_bind; [apply safely_drop_after; [apply unmount_image_impl_unmounts|done]|]. intros r t [Ht Hr].
  destruct (unmount_completed r); cbn [negb].
  - eapply emits_bind; [apply invalidate_emits|]. intros x u Hu. apply emits_ret. rewrite app_nil_r. by apply Hr.
  - apply emits_ret. by rewrite app_nil_r.
Qed.

(** The passes over the cache. *)
Lemma safely_slot cleanup index e : holds_device e = true ->
  safely (unmount_slot sys (unmount_image_impl sys MNAMELEN fuel cleanup 0) index e).
Proof. apply safely_unmount_slot, unmount_image_impl_unmounts. Qed.

Lemma safely_release_mounts : safely (release_runtime_image_mounts sys MNAMELEN fuel).
Proof.
  unfold release_runtime_image_mounts. generalize MAX_LAYERED_UNMOUNT_ATTEMPTS as n, true as all. induction n as [|n IH]; intros all;
    cbn [release_passes]; [apply safely_ret|]. apply safely_bind.
  - apply safely_for_slots. intros index [[a r] p]. unfold release_turn. apply safely_bind; [apply safely_cache_entry|].
    intros [e|]; [|apply safely_ret]. case_bool_decide; [apply safely_ret|]. destruct (holds_device e) eqn:Hd; cbn [negb]; [|apply safely_ret].
    apply safely_bind; [by apply (safely_ask _ quiet)|]. intros []; [apply safely_ret|].
    apply safely_bind; [by apply safely_slot|]. intros x. apply safely_ret.
  - intros [[a r] p]. destruct (negb r); [apply safely_ret|]. destruct (negb p); [apply safely_ret|apply IH].
Qed.

Lemma safely_shutdown : safely (shutdown_image_mounts sys MNAMELEN fuel).
Proof.
  unfold shutdown_image_mounts. generalize MAX_LAYERED_UNMOUNT_ATTEMPTS as n. induction n as [|n IH]; cbn [shutdown_passes]; [apply safely_ret|].
  apply safely_bind.
  - apply safely_for_slots. intros index s. unfold shutdown_turn. apply safely_bind; [apply safely_cache_entry|].
    intros [e|]; [|apply safely_ret]. destruct (holds_device e) eqn:Hd; cbn [negb]; [|apply safely_ret].
    apply safely_bind; [by apply safely_slot|]. intros x. apply safely_ret.
  - intros [r p]. destruct (negb r); [apply safely_ret|]. destruct (negb p); [apply safely_ret|apply IH].
Qed.

Lemma safely_usb : safely (unmount_usb_image_mounts_for_suspend sys MNAMELEN fuel).
Proof.
  apply safely_for_slots. intros index all. unfold usb_turn. apply safely_bind; [apply safely_cache_entry|].
  intros [e|]; [|apply safely_ret]. destruct (negb (is_usb_storage_path _)); [apply safely_ret|]. case_bool_decide; [apply safely_ret|].
  destruct (holds_device e) eqn:Hd; cbn [negb]; [|apply safely_ret].
  apply safely_bind; [by apply safely_slot|]. intros x. apply safely_ret.
Qed.

Lemma safely_cleanup_dirs : safely (cleanup_mount_dirs sys).
Proof.
  assert (Hone : forall base skip, safely (cleanup_mount_dirs_under sys base skip)).
  { intros base skip. apply safely_bind; [by apply safely_command|]. intros [e|]; [apply safely_ret|].
    apply safely_bind; [by apply (safely_ask _ quiet)|]. intros entries. induction entries as [|e rest IH]; cbn [remove_mount_dirs]; [apply safely_ret|].
    apply safely_bind; [|intros []; [apply IH|apply safely_ret]]. unfold remove_mount_dir.
    apply safely_bind; [by apply (safely_ask _ quiet)|]. intros []; [apply safely_ret|]. destruct e as [name is_dir].
    destruct (_ || _ || _); [apply safely_ret|]. apply safely_bind; [by apply safely_command|]. intros _. apply safely_ret. }
  apply safely_bind; [apply Hone|]. intros _. apply Hone.
Qed.
End safe.
