(* ===== verification/ImageMount.v ===== *)
(** * Mounting images (src/sm_image.c)

    The pipeline of a mount: reserve a record in the image cache, attach a device,
    publish it in the record, mount it, validate what was mounted, commit; with a release
    of the attachment on every way out after the device is published.  Then the calls
    that retry lost mounts, and the one the scanner makes for an image it finds.

    As in ImageUnmount.v, other threads may change the image cache at any step. *)
From S2P Require Import Prelude CString PathState IniFile SmbAddress ConfigState ConfigStore ImageKinds ImageCache MountDevice ImageUnmount.
From stdpp Require Import list.
Open Scope Z_scope.
Open Scope c_scope.

Section mount.
Context (sys : system) (MNAMELEN : nat) (fuel : nat).

Abbreviation release_attachment := (release_runtime_image_attachment sys MNAMELEN fuel).

Definition sleeping : M bool := ask sys (sys_sleeping sys) quiet.

Definition config_state : M runtime_config_state_t := look (fun w => cs_state (w_config w)).

(** ** Attaching *)
Definition backing_fs_supports_pfs_metadata_cache (fs_name : string) : bool :=
  existsb (strcmp_eq fs_name) ["pfs"; "ppr_pfs"; "transaction_pfs"; "nullfs"; "unionfs"]%string.

Definition prepare_nested_image_backing_cache (path : string) : M () :=
  let* opened := command sys (fun n => sys_open sys n path) (EvOpen path) in
  match opened with
  | Some _ => ret tt
  | None =>
      let* st := statfs sys path in
      match st with
      | inr _ => ret tt
      | inl sfs =>
          if negb (backing_fs_supports_pfs_metadata_cache (f_fstypename sfs)) then ret tt
          else let* _ := command sys (fun n => sys_backing_cache sys n path) quiet in ret tt
      end
  end.

Definition get_lvd_source_type (path : string) : M bool :=
  let* st := call sys (fun n => sys_special sys n path) quiet in
  ret (match st with inl special => special | inr _ => false end).

(** [f_bsize] and [f_iosize] of the file system of the source, which a nested image does not ask for. *)
Definition source_clusters (path : string) (t : image_fs_type_t) : M (option (Z * Z)) :=
  if pfs_path_uses_nested_profile path t then ret None
  else
    let* st := statfs sys path in
    ret (match st with inl sfs => Some (f_bsize sfs, f_iosize sfs) | inr _ => None end).

Definition lvd_sector_size (path : string) (t : image_fs_type_t) : M Z :=
  let* clusters := source_clusters path t in
  let* st := config_state in
  ret (get_lvd_sector_size st (fun _ => clusters) path t).

(** The control device, the request, and the unit it answers. *)
Definition attach_through (b : attach_backend_t) (request : M attach_request) : M (option Z) :=
  let* opened := command sys (fun n => sys_open sys n (control_path b)) (EvOpen (control_path b)) in
  match opened with
  | Some _ => ret None
  | None =>
      let* r := request in
      let* answer := call sys (fun n => sys_attach sys n r) (EvAttach r) in
      ret (match answer with inl unit => if unit <? 0 then None else Some unit | inr _ => None end)
  end.

Definition attach_md_backend (path : string) (t : image_fs_type_t) (read_only : bool) (size : Z) : M (option Z) :=
  attach_through ATTACH_BACKEND_MD
    (let* st := config_state in ret (AttachMd path size (get_md_sector_size_for_path st path t) read_only)).

Definition attach_lvd_backend_as (path : string) (t : image_fs_type_t) (read_only : bool) (size : Z)
    (profile : image_mount_profile_t) (image_type : Z) : M (option Z) :=
  let* _ := (if should_prepare_nested_backing_cache profile path then prepare_nested_image_backing_cache path else ret tt) in
  attach_through ATTACH_BACKEND_LVD
    (let* special := get_lvd_source_type path in
     let* clusters := source_clusters path t in
     let* st := config_state in
     ret (AttachLvd path size special (lvd_attach_request st (fun _ => clusters) path t read_only profile image_type))).

Definition rollback_unpublished_attached_unit (b : attach_backend_t) (unit : Z) : M bool :=
  let dev := build_attached_unit_devname b unit in
  let* (detached, d) := detach_attached_unit sys b unit zero_detach in
  let* (detached, d) :=
    (if negb detached && negb (node_identity_valid d) then
       let* present := wait_for_dev_node_state sys dev true in
       if present then detach_attached_unit sys b unit d else ret (false, d)
     else ret (detached, d)) in
  if negb detached && requested d then wait_for_attached_unit_release sys b unit d else ret detached.

(** The unit that was attached and published, with its node present. *)
Definition attach_image_device (path : string) (t : image_fs_type_t) (read_only : bool) (size : Z) (b : attach_backend_t)
    (profile : image_mount_profile_t) (image_type : Z) (gen : Z) : M (option Z) :=
  let* attached :=
    match b with
    | ATTACH_BACKEND_MD => attach_md_backend path t read_only size
    | ATTACH_BACKEND_LVD => attach_lvd_backend_as path t read_only size profile image_type
    | ATTACH_BACKEND_NONE => let* _ := set_errno (Some (Known EINVAL)) in ret None
    end in
  match attached with
  | None =>
      let* attach_errno := look w_errno in
      let* _ := cancel_attachment sys path gen in
      let* _ := set_errno attach_errno in ret None
  | Some unit =>
      let dev := build_attached_unit_devname b unit in
      let* published := cache_call sys (fun ds c => publish_image_attachment ds c path gen unit b)
                          (fun r => [EvPublish path gen unit b (is_ok r)]) in
      if negb (is_ok published) then
        let* _ := cancel_attachment sys path gen in
        let* _ := rollback_unpublished_attached_unit b unit in
        let* _ := set_errno (Some EIO) in ret None
      else
        let* present := wait_for_dev_node_state sys dev true in
        if present then ret (Some unit)
        else
          let* _ := release_attachment path gen in
          let* _ := set_errno (Some ETIMEDOUT) in ret None
  end.

(** ** Mounting the device *)
Definition is_image_mount_root_accessible (mount_point : string) : M (option error_t) :=
  command sys (fun n => sys_open sys n mount_point) (EvOpen mount_point).

Definition reject_mounted_image_io (path : string) (gen : Z) (io_err : error_t) : M bool :=
  let* _ := set_notified false in
  let* _ := release_attachment path gen in
  fail_with io_err.

Definition verify_exfat_nmount_result (path : string) (gen : Z) (dev mount_point : string) : M bool :=
  let* st := statfs sys mount_point in
  let bad (verify_errno : error_t) :=
    let* released := release_attachment path gen in
    let* code := look w_errno in
    fail_with (if negb released then default verify_errno code else verify_errno) in
  match st with
  | inl sfs =>
      if strcmp_eq (f_fstypename sfs) "exfatfs" && strcmp_eq (f_mntfromname sfs) dev && strcmp_eq (f_mntonname sfs) mount_point
      then ret true else bad (Known EINVAL)
  | inr e => bad e
  end.

Definition image_nmount_request (path : string) (t : image_fs_type_t) (dev mount_point : string) (read_only force : bool)
    (profile : image_mount_profile_t) : option nmount_request :=
  let nested := pfs_path_uses_nested_profile path t in
  let disc := nested && negb (Z.land (get_nested_pfs_img_type path t) 0x40 =? 0) in
  let build p := Some (NmountRequest p dev mount_point disc force read_only (legacy profile && bool_decide (t = IMAGE_FS_UFS))) in
  match t with
  | IMAGE_FS_UFS => build MountUfs
  | IMAGE_FS_EXFAT => build MountExfat
  | IMAGE_FS_PFS | IMAGE_FS_PFSC_CONTAINER => build (if nested then MountNestedPfs else MountPfs)
  | IMAGE_FS_UNKNOWN => None
  end.

Definition perform_image_nmount (path : string) (gen : Z) (t : image_fs_type_t) (dev mount_point : string) (read_only force : bool)
    (profile : image_mount_profile_t) : M bool :=
  match image_nmount_request path t dev mount_point read_only force profile with
  | None => let* _ := release_attachment path gen in fail_with (Known EINVAL)
  | Some r =>
      let* answer := command sys (fun n => sys_nmount sys n r) (EvNmount r) in
      match answer with
      | None => if bool_decide (t = IMAGE_FS_EXFAT) then verify_exfat_nmount_result path gen dev mount_point else ret true
      | Some mount_errno => let* _ := release_attachment path gen in fail_with mount_errno
      end
  end.

Definition UINT32_MAX : Z := 4294967295.

(** [upsert_image_sector_size_autotune] of the configuration. *)
Definition autotune_sector (filename : string) (sector : Z) : M bool := fun w =>
  let '(ok, s) := upsert_image_sector_size_autotune (sys_inet_pton sys) (sys_config_io sys (w_clock w)) (w_config w) (lit filename) sector in
  Some (ok, World (w_cache w) (w_paths w) s (w_errno w) (w_notified w) (S (w_clock w)) (w_trace w)).

Definition validate_mounted_image (path : string) (gen : Z) (t : image_fs_type_t) (b : attach_backend_t) (mount_point : string) : M bool :=
  let* st := statfs sys mount_point in
  match st with
  | inr e => reject_mounted_image_io path gen e
  | inl mounted =>
      let* min_device_sector :=
        (match b with
         | ATTACH_BACKEND_MD => let* st := config_state in ret (get_md_sector_size_for_path st path t)
         | _ => lvd_sector_size path t
         end) in
      let fs_block_size := u64 (f_bsize mounted) in
      if fs_block_size <? min_device_sector then
        let* _ := (if fs_block_size <=? UINT32_MAX then autotune_sector (get_filename_component path) (u32 fs_block_size) else ret false) in
        let* _ := set_notified true in
        let* _ := release_attachment path gen in
        fail_with (Known EINVAL)
      else
        let* root := is_image_mount_root_accessible mount_point in
        match root with Some e => reject_mounted_image_io path gen e | None => ret true end
  end.

(** ** Mounts that exist already *)
Definition get_cached_image_mount (path : string) : M (option ImageCache) :=
  let* found := cache_find sys path in
  ret (match found with Some (_, e) => if holds_device e then Some e else None | None => None end).

Definition directory_has_visible_entries (path : string) : M bool :=
  let* opened := command sys (fun n => sys_open sys n path) (EvOpen path) in
  match opened with
  | Some _ => ret false
  | None => let* entries := ask sys (fun n => sys_list sys n path) quiet in
            ret (existsb (fun e => negb (bool_decide (char_at e.1 0 = Some ImageKinds.dot))) entries)
  end.

Definition adopt_mount (path mount_point : string) (unit : Z) (b : attach_backend_t) : M bool :=
  let* r := cache_call sys (fun ds c => cache_image_mount ds c path mount_point unit b)
              (fun r => [EvAdopt path mount_point unit b (is_ok r)]) in
  ret (is_ok r).

(** Whether the mount is reused, and whether recording it failed. *)
Definition reuse_existing_image_mount (path mount_point : string) : M (bool * bool) :=
  let* st := call sys (fun n => sys_is_dir sys n mount_point) quiet in
  match st with
  | inr _ | inl false => ret (false, false)
  | inl true =>
      let* existing := resolve_device_from_mount sys mount_point in
      match existing with
      | Some (b, unit) =>
          let* root := is_image_mount_root_accessible mount_point in
          match root with
          | Some _ =>
              let* adopted := adopt_mount path mount_point unit b in
              if negb adopted then ret (false, true)
              else let* released := release_runtime_image_mount sys MNAMELEN fuel path in ret (false, negb released)
          | None =>
              let* adopted := adopt_mount path mount_point unit b in
              if adopted then ret (true, false)
              else
                let* _ := set_notified false in
                let* _ := set_errno (Some (Known ENOSPC)) in ret (false, true)
          end
      | None => let* _ := directory_has_visible_entries mount_point in ret (false, false)
      end
  end.

(** Whether the request is answered, and how. *)
Definition reuse_or_go_on (path mount_point : string) : M (bool * bool) :=
  let* (reused, cache_failed) := reuse_existing_image_mount path mount_point in
  if reused : bool then let* asleep := sleeping in ret (true, negb asleep) else ret (cache_failed, false).

Definition active_and_accessible (mount_point : string) : M bool :=
  let* active := is_active_image_mount_point sys mount_point in
  if active then let* root := is_image_mount_root_accessible mount_point in ret (bool_decide (root = None)) else ret false.

Definition handle_cached_or_existing_image_mount (path mount_point : string) : M (bool * bool) :=
  let* asleep := sleeping in
  if asleep then ret (true, false)
  else
    let* cached := get_cached_image_mount path in
    match cached with
    | None => reuse_or_go_on path mount_point
    | Some e =>
        match ic_state e with
        | ATTACHED_DEVICE_DETACH_REQUESTED =>
            let* _ := release_runtime_image_mount sys MNAMELEN fuel path in ret (true, false)
        | ATTACHED_DEVICE_ATTACHING => ret (true, false)
        | _ =>
            let* good := active_and_accessible mount_point in
            if good then ret (true, true)
            else
              let* released := release_attachment (ic_path e) (generation e) in
              if released then reuse_or_go_on path mount_point else ret (true, false)
        end
    end.

(** ** The pipeline *)
Definition stat_image_file (path : string) : M (option Z) :=
  let* st := call sys (fun n => sys_size sys n path) quiet in
  match st with
  | inr _ => ret None
  | inl size => if size <? 0 then let* _ := set_errno (Some (Known EINVAL)) in ret None else ret (Some size)
  end.

Definition ensure_mount_dirs (mount_point : string) : M () :=
  let mkdir path := command sys (fun n => sys_mkdir sys n path) quiet in
  let* _ := mkdir IMAGE_MOUNT_BASE in
  let* _ := (if is_pfsc_image_mount_base_or_child mount_point then mkdir PFSC_IMAGE_MOUNT_BASE else ret None) in
  let* _ := mkdir mount_point in ret tt.

(** A mount that was asked for in a mode has it. *)
Definition mode_matches (mount_point : string) (read_only : bool) : M bool :=
  let* st := statfs sys mount_point in
  ret (match st with inl sfs => Bool.eqb (f_rdonly sfs) read_only | inr _ => false end).

(** [EBUSY] unless the mount has the mode of the request. *)
Definition answer_mounted (override : option bool) (mount_point : string) (read_only : bool) : M bool :=
  match override with
  | None => ret true
  | Some _ => let* same := mode_matches mount_point read_only in if same then ret true else fail_with (Known EBUSY)
  end.

Definition record_is_mounted (path : string) : M bool :=
  let* found := cache_find sys path in
  ret (match found with Some (_, e) => bool_decide (ic_state e = ATTACHED_DEVICE_MOUNTED) | None => false end).

(** From the reserved record [gen] on. *)
Definition mount_reserved (path mount_point : string) (t : image_fs_type_t) (read_only force : bool) (size : Z) (b : attach_backend_t)
    (profile : image_mount_profile_t) (gen : Z) : M bool :=
  let* _ := ensure_mount_dirs mount_point in
  let* attached := attach_image_device path t read_only size b profile (get_lvd_image_type path t (legacy profile)) gen in
  match attached with
  | None => ret false
  | Some unit =>
      let dev := build_attached_unit_devname b unit in
      let* asleep := sleeping in
      if asleep then let* _ := release_attachment path gen in ret false
      else
        let* mounted := perform_image_nmount path gen t dev mount_point read_only force profile in
        if negb mounted then ret false
        else
          let* asleep := sleeping in
          if asleep then let* _ := release_attachment path gen in ret false
          else
            let* valid := validate_mounted_image path gen t b mount_point in
            if negb valid then ret false
            else
              let* asleep := sleeping in
              let* committed :=
                (if asleep then ret false
                 else let* r := cache_call sys (fun ds c => complete_image_attachment ds c path gen unit b)
                                  (fun r => [EvCommit path gen unit b (is_ok r)]) in ret (is_ok r)) in
              if committed : bool then ret true
              else
                let* _ := release_attachment path gen in
                fail_with (if asleep then ECANCELED else Known EAGAIN)
  end.

(** No mount was there to reuse. *)
Definition mount_fresh (path mount_point : string) (t : image_fs_type_t) (override : option bool) (read_only : bool)
    (cfg : runtime_config_t) : M bool :=
  let* st := stat_image_file path in
  match st with
  | None => ret false
  | Some size =>
      let* asleep := sleeping in
      if asleep then ret false
      else
        let* mounted := record_is_mounted path in
        if mounted then answer_mounted override mount_point read_only
        else
          let* reserved := cache_call sys (fun _ c => begin_image_attachment c path mount_point)
                             (fun r => match r with Ok gen => [EvReserve path gen] | Err _ => [] end) in
          match reserved with
          | Err _ => ret false
          | Ok gen =>
              mount_reserved path mount_point t read_only (rc_force_mount cfg) size (select_image_backend cfg t)
                (get_image_mount_profile cfg path t) gen
          end
  end.

Definition requested_mode (st : runtime_config_state_t) (path : string) (t : image_fs_type_t) (override : option bool) : bool :=
  let configured := default (rc_mount_read_only (rs_cfg st))
                      (let filename := get_filename_component path in
                       if strcmp_eq filename "" then None else get_image_mode_override st (lit filename)) in
  if pfs_path_uses_nested_profile path t then true else default configured override.

Definition mount_image_with_mode (path : string) (t : image_fs_type_t) (override : option bool) : M bool :=
  let* _ := set_notified false in
  let* st := config_state in
  if pfs_path_uses_nested_profile path t && bool_decide (override = Some false) then fail_with ENOTSUP
  else
    let read_only := requested_mode st path t override in
    let* asleep := sleeping in
    if asleep then ret false
    else
      let mount_point := build_image_mount_point_for_fs MNAMELEN path t in
      let* (handled, success) := handle_cached_or_existing_image_mount path mount_point in
      if handled && success then answer_mounted override mount_point read_only
      else if handled : bool then
        let* code := look w_errno in
        let* _ := (if bool_decide (is_Some override) && negb (bool_decide (code = Some (Known ENOSPC)))
                   then set_errno (Some (Known EBUSY)) else ret tt) in ret false
      else mount_fresh path mount_point t override read_only (rs_cfg st).

Definition mount_image (path : string) (t : image_fs_type_t) : M bool := mount_image_with_mode path t None.

(** ** Retries *)
Definition with_paths {A} (f : (string -> bool) -> path_state -> option (path_state * A)) : M A := fun w =>
  match f (sys_exists sys (w_clock w)) (w_paths w) with
  | Some (t, a) => Some (a, World (w_cache w) t (w_config w) (w_errno w) (w_notified w) (S (w_clock w)) (w_trace w))
  | None => None
  end.

Definition clear_attempts (path : string) : M () := with_paths (fun _ t => Some (clear_image_mount_attempts t path, tt)).

(** A failed mount is counted, and the first failure is reported once. *)
Definition note_mount_failure (path : string) : M () :=
  let* mount_err := look w_errno in
  let* attempts := with_paths (fun exists_ t => bump_image_mount_attempts exists_ t path) in
  let* notified := look w_notified in
  if (attempts =? 1) && negb notified then emit [EvNotify path mount_err] else ret tt.

Definition prepare_image_mount_retry (cached : ImageCache) : M bool :=
  let mount_point := build_image_mount_point MNAMELEN (ic_path cached) in
  let* active := is_active_image_mount_point sys mount_point in
  let* go_on :=
    (if active then let* root := is_image_mount_root_accessible mount_point in ret (negb (bool_decide (root = None)))
     else let* _ := emit [EvForgetGame mount_point] in ret true) in
  if negb go_on then ret false
  else
    let* released := release_attachment (ic_path cached) (generation cached) in
    if negb released then ret false
    else let* _ := with_paths (fun _ t => Some (clear_missing_param_entry t mount_point, tt)) in ret true.

Definition service_pending_image_detach (index : nat) (e : ImageCache) : M bool :=
  if negb (bool_decide (ic_state e = ATTACHED_DEVICE_DETACH_REQUESTED)) then ret false
  else let* _ := unmount_slot sys (unmount_runtime_image sys MNAMELEN fuel) index e in ret true.

Definition retry_mount (e : ImageCache) : M () :=
  let* ready := prepare_image_mount_retry e in
  if negb ready then ret tt
  else
    let* mounted := mount_image (ic_path e) (detect_image_fs_type_for_path (ic_path e) "") in
    if mounted then clear_attempts (ic_path e) else note_mount_failure (ic_path e).

(** One image of the cache, with a device, whose title is not in use. *)
Definition stale_record (index : nat) (e : ImageCache) : M () :=
  let* protected := ask sys (fun n => sys_protected sys n (ic_path e)) quiet in
  if protected then ret tt
  else
    let* serviced := service_pending_image_detach index e in
    if serviced then ret tt
    else if bool_decide (ic_state e = ATTACHED_DEVICE_ATTACHING) then ret tt
    else
      let* exists_ := ask sys (fun n => sys_exists sys n (ic_path e)) quiet in
      if exists_ : bool then retry_mount e
      else let* _ := unmount_slot sys (unmount_image sys MNAMELEN fuel) index e in ret tt.

(** [false] once the program is to stop. *)
Definition stale_turn (selected : ImageCache -> bool) (index : nat) (go : bool) : M bool :=
  if negb go then ret false
  else
    let* stopping := ask sys (sys_stopping sys) quiet in
    if stopping then ret false
    else
      let* cached := cache_entry sys index in
      match cached with
      | Some e => if holds_device e && selected e then let* _ := stale_record index e in ret true else ret true
      | None => ret true
      end.

Definition stale_slots (selected : ImageCache -> bool) : M () :=
  let* _ := for_slots MAX_IMAGE_MOUNTS 0 (stale_turn selected) true in ret tt.

Definition has_cached_mount : M bool :=
  for_slots MAX_IMAGE_MOUNTS 0
    (fun index found => if found : bool then ret true
                        else let* cached := cache_entry sys index in ret (from_option holds_device false cached)) false.

Definition cleanup_stale_image_mounts : M () :=
  let* stopping := ask sys (sys_stopping sys) quiet in
  if stopping then ret tt
  else let* some := has_cached_mount in if some then stale_slots (fun _ => true) else ret tt.

Definition cleanup_stale_image_mounts_for_root (root : string) : M () :=
  if strcmp_eq root "" then cleanup_stale_image_mounts
  else
    let* stopping := ask sys (sys_stopping sys) quiet in
    if stopping then ret tt
    else stale_slots (fun e => path_matches_root_or_child (ic_path e) root || path_matches_root_or_child (ic_mount_point e) root).

(** ** An image that the scanner found *)

(** The answer, and whether the source was still changing. *)
Definition maybe_mount_image_file_with_mode (path display_name : string) (override : option bool) : M (bool * bool) :=
  let t := detect_image_fs_type_for_path path display_name in
  if bool_decide (t = IMAGE_FS_UNKNOWN) then ret (false, false)
  else
    let* stable := is_source_stable_for_mount sys path in
    if negb stable then ret (false, true)
    else
      let* limited := look (fun w => is_image_mount_limited (w_paths w) path) in
      if limited : bool then ret (false, false)
      else
        let* mounted := mount_image_with_mode path t override in
        if mounted then let* _ := clear_attempts path in ret (true, false)
        else
          let* mount_err := look w_errno in
          if bool_decide (is_Some override) && bool_decide (mount_err = Some (Known EBUSY) \/ mount_err = Some ENOTSUP)
          then ret (false, false)
          else
            let* _ := note_mount_failure path in
            let* _ := set_errno mount_err in ret (false, false).

Definition maybe_mount_image_file (path display_name : string) : M (bool * bool) :=
  maybe_mount_image_file_with_mode path display_name None.
End mount.

(** ** Traces of mounts

    [calm] traces are safe and attach nothing; the traces of a mount are safe. *)
Section safety.
Context (sys : system) (MNAMELEN fuel : nat).

Abbreviation calm := (safe MNAMELEN False).
Abbreviation calmly m := (emits m (fun _ t => calm t)).
Abbreviation releases path gen := (release_runtime_image_attachment sys MNAMELEN fuel path gen).

Lemma calm_loud t : calm t -> safe MNAMELEN True t.
Proof. intros Ht pre e post He. specialize (Ht pre e post He). by destruct e. Qed.

Create HintDb calm.
#[local] Hint Resolve safely_ret safely_look safely_errno safely_fail safely_cache_entry safely_cache_find safely_cancel
  safely_release_attachment safely_release_mount safely_cleanup_dirs : calm.
#[local] Hint Extern 1 (calmly (emit _)) => apply safely_emit; by repeat constructor : calm.
#[local] Hint Extern 1 (calmly (ask _ _ _)) => by apply safely_ask : calm.
#[local] Hint Extern 1 (calmly (call _ _ _)) => by apply safely_call : calm.
#[local] Hint Extern 1 (calmly (command _ _ _)) => by apply safely_command : calm.
#[local] Hint Extern 1 (calmly (cache_call _ _ _)) => apply safely_cache_call; intros []; by repeat constructor : calm.
#[local] Hint Extern 1 (calmly (set_notified _)) => apply emits_notified, safe_nil : calm.

(** Runs through a program, each of whose parts is calm. *)
Ltac calm_step :=
  first [ solve [eauto with calm nocore]
        | apply safely_bind; [|intros ?]
        | progress (cbv beta)
        | match goal with
          | |- emits (let '(_, _) := ?x in _) _ => destruct x
          | |- emits (match ?x with _ => _ end) _ => destruct x eqn:?
          end ].
Ltac calm := repeat calm_step.

Lemma release_emits path gen : emits (releases path gen) (fun _ t => calm t /\ EvRelease path gen ∈ t).
Proof.
  apply emits_and; [apply safely_release_attachment|]. unfold release_runtime_image_attachment.
  eapply emits_bind; [by apply (emits_emit _ (fun _ t => t = [EvRelease path gen]))|]. intros _ t ->.
  match goal with |- emits ?m _ => assert (Hm : calmly m) end.
  { apply safely_bind; [apply safely_cache_find|]. intros [[index e]|]; [|apply safely_fail]. destruct (negb _); [apply safely_fail|].
    destruct (holds_device e) eqn:Hd; cbn [negb]; [|apply safely_cancel].
    eapply emits_bind; [apply safely_drop_after; [apply unmount_image_impl_unmounts|done]|]. intros r t [Ht Hr].
    destruct (unmount_completed r); cbn [negb].
    - eapply emits_weaken; [apply invalidate_emits|]. intros x u Hu. by apply Hr.
    - apply emits_ret. by rewrite app_nil_r. }
  eapply emits_weaken; [exact Hm|]. intros a t _. by apply elem_of_cons; left.
Qed.

(** What is done after a release is calm as well. *)
Lemma release_then {A} path gen (k : bool -> M A) (Q : A -> Prop) : (forall r, emits (k r) (fun a t => calm t /\ Q a)) ->
  emits (let* r := releases path gen in k r) (fun a t => calm t /\ Q a /\ EvRelease path gen ∈ t).
Proof.
  intros Hk. eapply emits_bind; [apply release_emits|]. intros r t [Ht Hin]. eapply emits_weaken; [apply Hk|].
  intros a u [Hu HQ]. split; [by apply safe_app|]. split; [done|]. apply elem_of_app. by left.
Qed.

(** Fails after a release. *)
Lemma release_then_fail path gen e : emits (let* _ := releases path gen in fail_with e)
  (fun r t => calm t /\ r = false /\ EvRelease path gen ∈ t).
Proof. apply (release_then _ _ _ (fun r => r = false)). intros _. apply emits_fail_with. split; [apply safe_nil|done]. Qed.

(** ** Parts that attach nothing *)
Lemma calmly_is_active path : calmly (is_active_image_mount_point sys path).
Proof. eapply safely_weaken, is_active_emits. Qed.
Lemma calmly_resolve path : calmly (resolve_device_from_mount sys path).
Proof. apply resolve_device_emits. Qed.
#[local] Hint Resolve calmly_is_active calmly_resolve : calm.

Lemma calmly_source_clusters path t : calmly (source_clusters sys path t).
Proof. unfold source_clusters, statfs. calm. Qed.
#[local] Hint Resolve calmly_source_clusters : calm.

Lemma calmly_prepare_cache path : calmly (prepare_nested_image_backing_cache sys path).
Proof. unfold prepare_nested_image_backing_cache, statfs. calm. Qed.

Lemma calmly_wait_node n dev b : calmly (wait_for_dev_node sys n dev b).
Proof. eapply emits_weaken; [apply wait_for_dev_node_emits|]. intros r t [Ht _]. by apply safe_probes. Qed.

Lemma calmly_autotune name n : calmly (autotune_sector sys name n).
Proof.
  apply emits_silent. intros w a w'. unfold autotune_sector. destruct (upsert_image_sector_size_autotune _ _ _ _ _).
  intros [= <- <-]. split; [done|]. apply safe_nil.
Qed.

Lemma calmly_reuse path mount_point : calmly (reuse_or_go_on sys MNAMELEN fuel path mount_point).
Proof.
  unfold reuse_or_go_on, reuse_existing_image_mount, adopt_mount, is_image_mount_root_accessible, directory_has_visible_entries, sleeping.
  calm.
Qed.
#[local] Hint Resolve calmly_prepare_cache calmly_autotune calmly_reuse : calm.

Lemma calmly_handle path mount_point : calmly (handle_cached_or_existing_image_mount sys MNAMELEN fuel path mount_point).
Proof.
  unfold handle_cached_or_existing_image_mount, get_cached_image_mount, active_and_accessible, is_image_mount_root_accessible, sleeping.
  calm.
Qed.

Lemma calmly_mode_matches override mount_point read_only : calmly (answer_mounted sys override mount_point read_only).
Proof. unfold answer_mounted, mode_matches, statfs. calm. Qed.

Lemma calmly_ensure mount_point : calmly (ensure_mount_dirs sys mount_point).
Proof. unfold ensure_mount_dirs. calm. Qed.

Lemma calmly_stat_image path : calmly (stat_image_file sys path).
Proof. unfold stat_image_file. calm. Qed.

Lemma calmly_record_is_mounted path : calmly (record_is_mounted sys path).
Proof. unfold record_is_mounted. calm. Qed.
#[local] Hint Resolve calmly_handle calmly_mode_matches calmly_ensure calmly_stat_image calmly_record_is_mounted : calm.

(** A part of the pipeline: it is calm, and fails only after a release. *)
Definition releasing (path : string) (gen : Z) (m : M bool) : Prop :=
  emits m (fun r t => calm t /\ (r = false -> EvRelease path gen ∈ t)).

Lemma releasing_fail path gen e : releasing path gen (let* _ := releases path gen in fail_with e).
Proof. eapply emits_weaken; [apply release_then_fail|]. by intros r t (? & -> & ?). Qed.

Lemma releasing_true path gen : releasing path gen (ret true).
Proof. apply emits_ret. split; [apply safe_nil|done]. Qed.

Lemma releasing_bind {A} path gen (m : M A) k : calmly m -> (forall a, releasing path gen (k a)) -> releasing path gen (bind m k).
Proof.
  intros Hm Hk. eapply emits_bind; [exact Hm|]. intros a t Ht. eapply emits_weaken; [apply Hk|]. intros r u [Hu Hr].
  split; [by apply safe_app|]. intros H. apply elem_of_app. right. by apply Hr.
Qed.

Lemma releasing_reject path gen e : releasing path gen (reject_mounted_image_io sys MNAMELEN fuel path gen e).
Proof. apply releasing_bind; [by eauto with calm|]. intros _. apply releasing_fail. Qed.

Lemma releasing_nmount path gen t dev mount_point read_only force profile :
  releasing path gen (perform_image_nmount sys MNAMELEN fuel path gen t dev mount_point read_only force profile).
Proof.
  unfold perform_image_nmount. destruct (image_nmount_request _ _ _ _ _ _ _); [|apply releasing_fail].
  apply releasing_bind; [by eauto with calm|]. intros [e|]; [apply releasing_fail|]. case_bool_decide; [|apply releasing_true].
  assert (Hbad : forall e, releasing path gen (let* released := releases path gen in
            let* code := look w_errno in fail_with (if negb released then default e code else e))).
  { intros e. eapply emits_weaken; [apply (release_then _ _ _ (fun r => r = false))|by intros r u (? & -> & ?)]. intros r.
    eapply emits_bind; [by apply (emits_look _ (fun _ t => t = []))|]. intros code u ->. apply emits_fail_with. split; [apply safe_nil|done]. }
  unfold verify_exfat_nmount_result, statfs. apply releasing_bind; [by eauto with calm|]. intros [sfs|e]; [|apply Hbad].
  destruct (_ && _ && _); [apply releasing_true|apply Hbad].
Qed.

Lemma releasing_validate path gen t b mount_point : releasing path gen (validate_mounted_image sys MNAMELEN fuel path gen t b mount_point).
Proof.
  unfold validate_mounted_image, statfs. apply releasing_bind; [by eauto with calm|]. intros [mounted|e]; [|apply releasing_reject].
  apply releasing_bind; [destruct b; unfold lvd_sector_size, config_state; calm|]. intros sector. destruct (_ <? _).
  - apply releasing_bind; [calm|]. intros _. apply releasing_bind; [by eauto with calm|]. intros _. apply releasing_fail.
  - unfold is_image_mount_root_accessible. apply releasing_bind; [by eauto with calm|]. intros [e|]; [apply releasing_reject|apply releasing_true].
Qed.

(** ** The device of a mount *)
Abbreviation loud := (safe MNAMELEN True).

(** The unit a successful attach answers. *)
Definition attached_unit (e : event) : option Z :=
  match e with EvAttach _ (inl unit) => if 0 <=? unit then Some unit else None | _ => None end.
Definition no_attach (t : list event) : Prop := Forall (fun e => attached_unit e = None) t.

Lemma calm_no_attach t : calm t -> no_attach t.
Proof.
  intros Ht. apply Forall_forall. intros e He. apply list_elem_of_split in He as (pre & post & ->).
  specialize (Ht pre e post eq_refl). by destruct e.
Qed.

Lemma no_attach_app t u : no_attach t -> no_attach u -> no_attach (t ++ u).
Proof. apply Forall_app_2. Qed.

Lemma loud_attach r a : loud [EvAttach r a].
Proof. intros pre e post He. destruct pre as [|x pre]; [by injection He as <- _|by destruct pre]. Qed.

(** A unit, when the last event attached it. *)
Definition attach_result (r : option Z) (t : list event) : Prop :=
  loud t /\
  match r with
  | None => no_attach t
  | Some unit => 0 <= unit /\ exists pre req, t = pre ++ [EvAttach req (inl unit)] /\ no_attach pre
  end.

Lemma attach_through_emits b request : calmly request -> emits (attach_through sys b request) attach_result.
Proof.
  intros Hr. unfold attach_through. eapply emits_bind; [by apply (safely_command sys MNAMELEN False)|]. intros [e|] t Ht.
  { apply emits_ret. rewrite app_nil_r. split; [by apply calm_loud|by apply calm_no_attach]. }
  eapply emits_bind; [exact Hr|]. intros r t1 Ht1.
  eapply emits_bind; [by apply (emits_call _ _ _ (fun a t => t = [EvAttach r a]))|]. intros a t2 ->. apply emits_ret.
  rewrite app_nil_r, app_assoc. assert (Hpre : loud (t ++ t1)) by (apply safe_app; by apply calm_loud).
  assert (Hno : no_attach (t ++ t1)) by (apply no_attach_app; by apply calm_no_attach).
  split; [apply safe_app; [done|apply loud_attach]|]. destruct a as [unit|e]; [destruct (Z.ltb_spec unit 0) as [Hu|Hu]|].
  - apply no_attach_app; [done|]. constructor; [|done]. cbn. by destruct (Z.leb_spec 0 unit); [lia|].
  - split; [lia|]. by exists (t ++ t1), r.
  - apply no_attach_app; [done|]. by repeat constructor.
Qed.

Lemma attach_result_after {A} (m : M A) k : calmly m -> (forall a, emits (k a) attach_result) -> emits (bind m k) attach_result.
Proof.
  intros Hm Hk. eapply emits_bind; [exact Hm|]. intros a t Ht. eapply emits_weaken; [apply Hk|]. intros r u [Hu Hr].
  split; [apply safe_app; [by apply calm_loud|done]|]. destruct r as [unit|].
  - destruct Hr as (H0 & pre & req & -> & Hp). split; [done|]. exists (t ++ pre), req. rewrite <-app_assoc. split; [done|].
    apply no_attach_app; [by apply calm_no_attach|done].
  - apply no_attach_app; [by apply calm_no_attach|done].
Qed.

Lemma attach_md_emits path t ro size : emits (attach_md_backend sys path t ro size) attach_result.
Proof. apply attach_through_emits. unfold config_state. calm. Qed.

Lemma attach_lvd_emits path t ro size profile image_type :
  emits (attach_lvd_backend_as sys path t ro size profile image_type) attach_result.
Proof.
  unfold attach_lvd_backend_as. apply attach_result_after; [calm|]. intros _. apply attach_through_emits.
  unfold get_lvd_source_type, config_state. calm.
Qed.

(** What a rollback does for its device. *)
Definition rolled_back (b : attach_backend_t) (unit : Z) (t : list event) : Prop := asked_or_gone b unit t \/ given_up b unit t.

(** The two tries of a rollback. *)
Lemma rollback_tries b unit : 0 <= unit -> attach_backend_is_valid b = true ->
  emits (rollback_unpublished_attached_unit sys b unit) (fun _ t => rolled_back b unit t).
Proof.
  intros Hu Hb. unfold rollback_unpublished_attached_unit.
  assert (Hsure : forall (m : M bool) t, asked_or_gone b unit t -> emits m (fun _ _ => True) -> emits m (fun _ v => rolled_back b unit (t ++ v))).
  { intros m t Ht Hm. eapply emits_weaken; [exact Hm|]. intros _ v _. left. apply asked_or_gone_app. by left. }
  assert (Hlast : forall x : bool * detach_state_t, emits (let '(detached, d) := x in
            if negb detached && requested d then wait_for_attached_unit_release sys b unit d else ret detached) (fun _ _ => True)).
  { intros [detached d]. destruct (_ && _); [|by apply emits_ret]. destruct (node_identity_valid d) eqn:Hv.
    - eapply emits_weaken; [by apply (wait_for_release_emits sys b unit d)|]. done.
    - unfold wait_for_attached_unit_release. rewrite Hv. by apply emits_fail_with. }
  eapply emits_bind; [by apply first_try_emits|]. intros [detached d] t [Ht|(Ht & -> & ->)].
  - apply Hsure; [done|].
    eapply (emits_bind _ _ (fun _ _ => True)); [|intros x u _; apply Hlast]. destruct (_ && _); [|by apply emits_ret].
    eapply (emits_bind _ _ (fun _ _ => True)); [eapply emits_weaken; [apply wait_present_emits|done]|]. intros [] u _; [|by apply emits_ret].
    eapply emits_weaken; [apply detach_attached_unit_emits|]. by intros [].
  - cbn [negb andb node_identity_valid zero_detach].
    eapply (emits_bind _ _ (fun x u => asked_or_gone b unit u \/ (x = (false, zero_detach) /\ given_up b unit (t ++ u)))).
    + eapply emits_bind; [apply wait_present_emits|]. intros [] u Hl.
      * destruct Hl as (looks & id & -> & Hl). eapply emits_weaken; [by apply first_try_emits|].
        intros [detached d] t' [Ht'|(Ht' & -> & ->)]; [left; apply asked_or_gone_app; by right|right].
        split; [done|]. by apply BlockedTwice.
      * apply emits_ret. rewrite app_nil_r. right. split; [done|]. destruct Hl as [Hl Hf]. by apply NeverFound.
    + intros x u [Hu'|[-> Hu']].
      * eapply emits_weaken; [apply (Hlast x)|]. intros _ v _. left. apply asked_or_gone_app. right. apply asked_or_gone_app. by left.
      * apply emits_ret. rewrite app_nil_r. by right.
Qed.

(** A unit that could not be published is rolled back. *)
Lemma rollback_emits b unit path gen t0 : 0 <= unit -> attach_backend_is_valid b = true -> loud t0 -> EvPublish path gen unit b false ∈ t0 ->
  emits (rollback_unpublished_attached_unit sys b unit) (fun _ t => loud (t0 ++ t) /\ no_attach t).
Proof.
  intros Hu Hb Ht0 Hp.
  assert (Hown : forall t id, owned b unit id (t0 ++ t)).
  { intros t id. right. exists path, gen. apply elem_of_app. by left. }
  assert (Hone : forall known t, one_request b unit known t -> no_attach t).
  { intros known t Ht. assert (Hpr : forall l, Forall (fun e => probe e = true) l -> no_attach l).
    { intros l Hl. eapply Forall_impl; [exact Hl|]. by intros []. }
    destruct Ht as [Ht|(pre & a & post & id & -> & H1 & H2 & _)]; [by apply Hpr|]. apply no_attach_app; [by apply Hpr|].
    constructor; [done|by apply Hpr]. }
  unfold rollback_unpublished_attached_unit.
  eapply emits_bind; [apply detach_attached_unit_emits|]. intros [detached d] t (H1 & _ & _).
  assert (Hs1 : loud (t0 ++ t)).
  { eapply safe_request; [done|exact H1|]. intros id _. specialize (Hown [] id). by rewrite app_nil_r in Hown. }
  eapply (emits_bind _ _ (fun _ u => loud ((t0 ++ t) ++ u) /\ no_attach u)).
  { destruct (_ && _); [|apply emits_ret; rewrite app_nil_r; split; [done|by apply Forall_nil_2]].
    eapply emits_bind; [apply calmly_wait_node|]. intros present u Hu'. destruct present.
    - eapply emits_weaken; [apply detach_attached_unit_emits|]. intros [x d'] v (H2 & _). rewrite app_assoc.
      assert (Hs2 : loud ((t0 ++ t) ++ u)) by (apply safe_app; [done|by apply calm_loud]).
      split; [eapply safe_request; [exact Hs2|exact H2|]|apply no_attach_app; [by apply calm_no_attach|by eapply Hone]].
      intros id _. rewrite <-app_assoc. apply Hown.
    - apply emits_ret. rewrite app_nil_r. split; [apply safe_app; [done|by apply calm_loud]|by apply calm_no_attach]. }
  intros [detached' d'] u [Hu' Hn]. assert (Hfin : forall v, calm v -> loud (t0 ++ t ++ u ++ v) /\ no_attach (t ++ u ++ v)).
  { intros v Hv. split.
    - rewrite app_assoc, app_assoc. apply safe_app; [done|by apply calm_loud].
    - repeat apply no_attach_app; [by eapply Hone|done|by apply calm_no_attach]. }
  destruct (negb detached' && requested d').
  - destruct (node_identity_valid d') eqn:Hv.
    + eapply emits_weaken; [by apply (wait_for_release_emits sys b unit d')|]. intros r v [Hv' _]. by apply Hfin, safe_probes.
    + unfold wait_for_attached_unit_release. rewrite Hv. apply emits_fail_with. apply Hfin, safe_nil.
  - apply emits_ret. apply Hfin, safe_nil.
Qed.

(** The account of a mount: at most one device is attached. The next event is its
    publication in the record; when that works, [kept] says what became of it, and
    when it does not, the mount has failed and the device was rolled back: the events from
    the publication on end with those of the rollback. *)
Definition accounted (path : string) (gen : Z) (b : attach_backend_t) (failed : Prop) (kept : Z -> list event -> Prop) (t : list event) : Prop :=
  (no_attach t /\ failed) \/
  exists pre req unit published post, t = pre ++ EvAttach req (inl unit) :: EvPublish path gen unit b published :: post /\
    0 <= unit /\ no_attach pre /\ no_attach post /\
    if published : bool then kept unit post else failed /\ exists before tries, post = before ++ tries /\ rolled_back b unit tries.

Lemma publish_ok_backend ds c path gen unit b : is_ok (publish_image_attachment ds c path gen unit b).1 = false \/ attach_backend_is_valid b = true.
Proof.
  unfold publish_image_attachment, attachment_args_ok. destruct (attach_backend_is_valid b); [by right|]. left. by rewrite andb_false_r.
Qed.

(** The node of a published unit appears, or the attachment is released. *)
Definition unit_kept (path : string) (gen : Z) (r : option Z) (unit : Z) (post : list event) : Prop :=
  r = Some unit \/ (r = None /\ EvRelease path gen ∈ post).

Lemma attach_image_device_emits path t ro size b profile image_type gen :
  emits (attach_image_device sys MNAMELEN fuel path t ro size b profile image_type gen)
    (fun r tr => loud tr /\ accounted path gen b (r = None) (unit_kept path gen r) tr).
Proof.
  unfold attach_image_device.
  eapply (emits_bind _ _ (fun r tr => attach_result r tr /\ (is_Some r -> attach_backend_is_valid b = true))).
  { destruct b; [|eapply emits_weaken; [apply attach_lvd_emits|intros; by split]|eapply emits_weaken; [apply attach_md_emits|intros; by split]].
    eapply emits_bind; [by apply (emits_errno _ (fun _ t => t = []))|]. intros _ u ->. apply emits_ret.
    split; [|by intros [? ?]]. split; [apply safe_nil|by apply Forall_nil_2]. }
  intros [unit|] tr [[Hl Hr] Hb].
  2:{ match goal with |- emits ?m _ => assert (Hm : emits m (fun r u => calm u /\ r = None)) end.
      { eapply emits_bind; [by apply (emits_look _ (fun _ t => t = []))|]. intros code u ->.
        eapply emits_bind; [apply (safely_cancel sys MNAMELEN False)|]. intros x u1 Hu1. eapply emits_bind; [by apply (emits_errno _ (fun _ t => t = []))|].
        intros _ u2 ->. apply emits_ret. by rewrite !app_nil_r. }
      eapply emits_weaken; [exact Hm|]. intros r u [Hu ->]. split; [apply safe_app; [done|by apply calm_loud]|].
      left. split; [|done]. apply no_attach_app; [done|by apply calm_no_attach]. }
  destruct Hr as (Hu & pre & req & -> & Hpre). specialize (Hb (mk_is_Some _ _ eq_refl)).
  eapply (emits_bind _ _ (fun r u => u = [EvPublish path gen unit b (is_ok r)])); [by apply emits_cache_call|].
  intros published tr2 ->. assert (Hl2 : loud ((pre ++ [EvAttach req (inl unit)]) ++ [EvPublish path gen unit b (is_ok published)])).
  { apply safe_app; [done|by apply safe_one]. }
  destruct (is_ok published) eqn:Hp; cbn [negb].
  - eapply emits_bind; [apply calmly_wait_node|]. intros present u Hu1. destruct present.
    + apply emits_ret. rewrite app_nil_r, app_assoc. split; [apply safe_app; [done|by apply calm_loud]|]. right.
      exists pre, req, unit, true, u. split; [by rewrite <-!app_assoc|]. split; [done|]. split; [done|]. split; [by apply calm_no_attach|]. by left.
    + eapply emits_bind; [apply release_emits|]. intros x u1 [Hu2 Hin]. eapply emits_bind; [by apply (emits_errno _ (fun _ t => t = []))|].
      intros _ u2 ->. apply emits_ret. rewrite !app_nil_r. rewrite (app_assoc (pre ++ _)). split.
      * apply safe_app; [done|]. by apply safe_app; apply calm_loud.
      * right. exists pre, req, unit, true, (u ++ u1). split; [by rewrite <-!app_assoc|]. split; [done|]. split; [done|].
        split; [by apply no_attach_app; apply calm_no_attach|]. right. split; [done|]. apply elem_of_app. by right.
  - eapply emits_bind; [apply (safely_cancel sys MNAMELEN False)|]. intros x u Hu1.
    assert (Hl3 : loud (((pre ++ [EvAttach req (inl unit)]) ++ [EvPublish path gen unit b false]) ++ u)) by (apply safe_app; [done|by apply calm_loud]).
    eapply emits_bind; [eapply emits_and; [eapply (rollback_emits b unit path gen _ Hu Hb Hl3)|by apply rollback_tries]|].
    { rewrite !elem_of_app. left. right. by apply elem_of_cons; left. }
    intros y u1 ([Hs Hn] & Hat). eapply emits_bind; [by apply (emits_errno _ (fun _ t => t = []))|]. intros _ u2 ->. apply emits_ret.
    rewrite !app_nil_r. split; [by rewrite !app_assoc|]. right. exists pre, req, unit, false, (u ++ u1).
    split; [by rewrite <-!app_assoc|]. split; [done|]. split; [done|].
    split; [apply no_attach_app; [by apply calm_no_attach|done]|]. split; [done|].
    by exists u, u1.
Qed.

(** What becomes of a published device: the mount is committed, or released. *)
Definition mount_kept (path : string) (gen : Z) (b : attach_backend_t) (ok : bool) (unit : Z) (post : list event) : Prop :=
  if ok then EvCommit path gen unit b true ∈ post else EvRelease path gen ∈ post.

(** The rest of the pipeline, once a unit is attached. *)
Lemma accounted_after path gen b unit t u (ok : bool) :
  accounted path gen b (Some unit = None) (unit_kept path gen (Some unit)) t -> calm u ->
  (if ok then EvCommit path gen unit b true ∈ u else EvRelease path gen ∈ u) ->
  accounted path gen b (ok = false) (mount_kept path gen b ok) (t ++ u).
Proof.
  intros [[_ ?]|(pre & req & unit' & published & post & -> & Hu & Hpre & Hpost & Hk)] Hc Hok; [done|].
  destruct published; [|by destruct Hk]. destruct Hk as [[= <-]|[? _]]; [|done]. right.
  exists pre, req, unit, true, (post ++ u). split; [by rewrite <-app_assoc|]. split; [done|]. split; [done|].
  split; [apply no_attach_app; [done|by apply calm_no_attach]|]. unfold mount_kept. destruct ok; apply elem_of_app; by right.
Qed.

Lemma mount_reserved_emits path mount_point t ro force size b profile gen :
  emits (mount_reserved sys MNAMELEN fuel path mount_point t ro force size b profile gen)
    (fun ok tr => loud tr /\ accounted path gen b (ok = false) (mount_kept path gen b ok) tr).
Proof.
  unfold mount_reserved. eapply emits_bind; [apply calmly_ensure|]. intros [] t0 Ht0.
  eapply emits_bind; [apply attach_image_device_emits|]. intros [unit|] t1 [Hl Hacc].
  2:{ apply emits_ret. rewrite app_nil_r. split; [apply safe_app; [by apply calm_loud|done]|].
      destruct Hacc as [[Hn _]|(pre & req & unit & published & post & -> & Hu & Hpre & Hpost & Hk)].
      - left. split; [|done]. apply no_attach_app; [by apply calm_no_attach|done].
      - right. exists (t0 ++ pre), req, unit, published, post. split; [by rewrite <-app_assoc|]. split; [done|].
        split; [apply no_attach_app; [by apply calm_no_attach|done]|]. split; [done|].
        destruct published; [|split; [done|by destruct Hk]]. by destruct Hk as [?|[_ ?]]. }
  (* Whatever follows is calm, and commits or releases. *)
  match goal with |- emits ?m _ => assert (Hm : emits m (fun (ok : bool) u => calm u /\
    (if ok then EvCommit path gen unit b true ∈ u else EvRelease path gen ∈ u))) end.
  { eapply emits_bind; [by apply (safely_ask sys MNAMELEN False _ quiet)|]. intros asleep u0 Hu0.
    assert (Hrel : forall u, calm u -> emits (let* _ := releases path gen in ret false)
      (fun (ok : bool) v => calm (u ++ v) /\ (if ok then EvCommit path gen unit b true ∈ u ++ v else EvRelease path gen ∈ u ++ v))).
    { intros u Hu. eapply emits_weaken; [apply (release_then _ _ _ (fun r => r = false))|].
      - intros _. apply emits_ret. split; [apply safe_nil|done].
      - intros r v (Hv & -> & Hin). split; [by apply safe_app|]. apply elem_of_app. by right. }
    destruct asleep; [by apply Hrel|].
    eapply emits_bind; [apply releasing_nmount|]. intros [] u1 [Hu1 Hr1]; cbn [negb].
    2:{ apply emits_ret. rewrite app_nil_r. split; [by apply safe_app|]. apply elem_of_app. right. by apply Hr1. }
    eapply emits_bind; [by apply (safely_ask sys MNAMELEN False _ quiet)|]. intros asleep u2 Hu2.
    assert (H012 : calm (u0 ++ u1 ++ u2)) by (by repeat apply safe_app).
    destruct asleep.
    { eapply emits_weaken; [by apply (Hrel _ H012)|]. intros ok v Hv. cbn beta in Hv. by rewrite <-!app_assoc in Hv. }
    eapply emits_bind; [apply releasing_validate|]. intros [] u3 [Hu3 Hr3]; cbn [negb].
    2:{ apply emits_ret. rewrite app_nil_r. split; [by repeat apply safe_app|]. rewrite !elem_of_app. right. right. right. by apply Hr3. }
    eapply emits_bind; [by apply (safely_ask sys MNAMELEN False _ quiet)|]. intros asleep u4 Hu4.
    eapply (emits_bind _ _ (fun (ok : bool) u => calm u /\ (ok = true -> u = [EvCommit path gen unit b true]))).
    { destruct asleep; [apply emits_ret; split; [apply safe_nil|done]|].
      eapply emits_bind; [by apply (emits_cache_call sys _ _ (fun r u => u = [EvCommit path gen unit b (is_ok r)]))|].
      intros r u ->. apply emits_ret. rewrite app_nil_r. split; [by apply safe_one|]. by intros ->. }
    intros committed u5 [Hu5 Hc]. destruct committed.
    - apply emits_ret. rewrite app_nil_r. split; [by repeat apply safe_app|]. rewrite (Hc eq_refl), !elem_of_app. do 5 right.
      by apply elem_of_cons; left.
    - eapply emits_weaken; [apply release_then_fail|]. intros r v (Hv & -> & Hin). split; [by repeat apply safe_app|].
      rewrite !elem_of_app. by do 6 right. }
  eapply emits_weaken; [exact Hm|]. intros ok u [Hu Hok]. split.
  - apply safe_app; [by apply calm_loud|]. apply safe_app; [done|by apply calm_loud].
  - destruct (accounted_after _ _ _ _ _ _ _ Hacc Hu Hok) as [[Hn ?]|(pre & req & unit' & published & post & He & Hu' & Hpre & Hpost & Hk)].
    + left. split; [|done]. apply no_attach_app; [by apply calm_no_attach|done].
    + right. exists (t0 ++ pre), req, unit', published, post. split; [rewrite He; by rewrite <-app_assoc|]. split; [done|].
      split; [|done]. apply no_attach_app; [by apply calm_no_attach|done].
Qed.

(** A whole mount: nothing is attached, or the record that was reserved accounts for it. *)
Definition mount_accounted (path : string) (ok : bool) (t : list event) : Prop :=
  no_attach t \/
  exists pre gen b post, t = pre ++ EvReserve path gen :: post /\ no_attach pre /\ 
    accounted path gen b (ok = false) (mount_kept path gen b ok) post.

Lemma mount_accounted_after path ok t u : calm t -> mount_accounted path ok u -> mount_accounted path ok (t ++ u).
Proof.
  intros Ht [Hn|(pre & gen & b & post & -> & Hpre & Hp)].
  - left. apply no_attach_app; [by apply calm_no_attach|done].
  - right. exists (t ++ pre), gen, b, post. rewrite <-app_assoc. split; [done|]. split; [|done].
    apply no_attach_app; [by apply calm_no_attach|done].
Qed.

Abbreviation accounts path m := (emits m (fun ok t => loud t /\ mount_accounted path ok t)).

Lemma accounts_bind {A} path (m : M A) k : calmly m -> (forall a, accounts path (k a)) -> accounts path (bind m k).
Proof.
  intros Hm Hk. eapply emits_bind; [exact Hm|]. intros a t Ht. eapply emits_weaken; [apply Hk|]. intros ok u [Hu Ha].
  split; [apply safe_app; [by apply calm_loud|done]|by apply mount_accounted_after].
Qed.

Lemma accounts_calm path m : calmly m -> accounts path m.
Proof. intros Hm. eapply emits_weaken; [exact Hm|]. intros ok t Ht. split; [by apply calm_loud|]. left. by apply calm_no_attach. Qed.

Lemma mount_fresh_accounts path mount_point t override ro cfg :
  accounts path (mount_fresh sys MNAMELEN fuel path mount_point t override ro cfg).
Proof.
  unfold mount_fresh. apply accounts_bind; [apply calmly_stat_image|]. intros [size|]; [|apply accounts_calm; calm].
  unfold sleeping. apply accounts_bind; [calm|]. intros []; [apply accounts_calm; calm|].
  apply accounts_bind; [calm|]. intros []; [apply accounts_calm; calm|].
  eapply (emits_bind _ _ (fun r u => u = match r with Ok gen => [EvReserve path gen] | Err _ => [] end)); [by apply emits_cache_call|].
  intros [gen|e] u ->.
  - eapply emits_weaken; [apply mount_reserved_emits|]. intros ok v [Hl Ha]. split; [apply safe_app; [by apply safe_one|done]|].
    right. exists [], gen, (select_image_backend cfg t), v. split; [done|]. split; [by apply Forall_nil_2|done].
  - eapply emits_weaken; [by apply accounts_calm; calm|]. intros ok v. by rewrite app_nil_l.
Qed.

Lemma mount_image_accounts path t override : accounts path (mount_image_with_mode sys MNAMELEN fuel path t override).
Proof.
  unfold mount_image_with_mode, config_state, sleeping. apply accounts_bind; [calm|]. intros _. apply accounts_bind; [calm|]. intros st.
  destruct (_ && _); [apply accounts_calm; calm|]. apply accounts_bind; [calm|]. intros []; [apply accounts_calm; calm|].
  apply accounts_bind; [calm|]. intros [handled success]. destruct (handled && success); [apply accounts_calm; calm|].
  destruct handled; [apply accounts_calm; calm|]. apply mount_fresh_accounts.
Qed.

(** ** Every request *)
Lemma calmly_paths {A} (f : (string -> bool) -> path_state -> option (path_state * A)) : calmly (with_paths sys f).
Proof.
  apply emits_silent. intros w a w'. unfold with_paths. destruct (f _ _) as [[t x]|]; [|done]. intros [= <- <-].
  split; [done|]. apply safe_nil.
Qed.
#[local] Hint Resolve calmly_paths : calm.

Lemma calmly_clear path : calmly (clear_attempts sys path).
Proof. apply calmly_paths. Qed.
Lemma calmly_note path : calmly (note_mount_failure sys path).
Proof. unfold note_mount_failure. calm. Qed.
#[local] Hint Resolve calmly_clear calmly_note : calm.

Abbreviation loudly m := (emits m (fun _ t => loud t)).

Lemma loudly_calm {A} (m : M A) : calmly m -> loudly m.
Proof. intros Hm. eapply emits_weaken; [exact Hm|]. intros a t. apply calm_loud. Qed.

Lemma loudly_mount path t override : loudly (mount_image_with_mode sys MNAMELEN fuel path t override).
Proof. eapply emits_weaken; [apply mount_image_accounts|]. by intros ok u [? _]. Qed.

Lemma loudly_retry e : loudly (retry_mount sys MNAMELEN fuel e).
Proof.
  unfold retry_mount. apply safely_bind.
  - apply loudly_calm. unfold prepare_image_mount_retry, is_image_mount_root_accessible. calm.
  - intros ready. destruct (negb ready); [apply loudly_calm; calm|]. apply safely_bind; [apply loudly_mount|].
    intros []; apply loudly_calm; calm.
Qed.

Lemma loudly_stale_record index e : holds_device e = true -> loudly (stale_record sys MNAMELEN fuel index e).
Proof.
  intros Hd. unfold stale_record. apply safely_bind; [apply loudly_calm; calm|]. intros []; [apply loudly_calm; calm|].
  apply safely_bind.
  { apply loudly_calm. unfold service_pending_image_detach. destruct (negb _); [calm|]. apply safely_bind; [|intros ?; calm].
    by apply safely_slot. }
  intros []; [apply loudly_calm; calm|]. case_bool_decide; [apply loudly_calm; calm|].
  apply safely_bind; [apply loudly_calm; calm|]. intros []; [apply loudly_retry|].
  apply loudly_calm. apply safely_bind; [by apply safely_slot|]. intros x. calm.
Qed.

Lemma loudly_stale_slots selected : loudly (stale_slots sys MNAMELEN fuel selected).
Proof.
  unfold stale_slots. apply safely_bind; [|intros x; apply loudly_calm; calm]. apply safely_for_slots. intros index go. unfold stale_turn.
  destruct (negb go); [apply loudly_calm; calm|]. apply safely_bind; [apply loudly_calm; calm|]. intros []; [apply loudly_calm; calm|].
  apply safely_bind; [apply loudly_calm; calm|]. intros [e|]; [|apply loudly_calm; calm].
  destruct (holds_device e) eqn:Hd; cbn [andb]; [|apply loudly_calm; calm]. destruct (selected e); [|apply loudly_calm; calm].
  apply safely_bind; [by apply loudly_stale_record|]. intros x. apply loudly_calm. calm.
Qed.

Lemma loudly_cleanup : loudly (cleanup_stale_image_mounts sys MNAMELEN fuel).
Proof.
  unfold cleanup_stale_image_mounts. apply safely_bind; [apply loudly_calm; calm|]. intros []; [apply loudly_calm; calm|].
  apply safely_bind; [|intros []; [apply loudly_stale_slots|apply loudly_calm; calm]].
  apply loudly_calm, safely_for_slots. intros index []; calm.
Qed.

Lemma loudly_maybe path name override : loudly (maybe_mount_image_file_with_mode sys MNAMELEN fuel path name override).
Proof.
  unfold maybe_mount_image_file_with_mode, is_source_stable_for_mount. case_bool_decide; [apply loudly_calm; calm|].
  apply safely_bind; [apply loudly_calm; calm|]. intros stable. destruct (negb stable); [apply loudly_calm; calm|].
  apply safely_bind; [apply loudly_calm; calm|]. intros []; [apply loudly_calm; calm|].
  apply safely_bind; [apply loudly_mount|]. intros []; apply loudly_calm; calm.
Qed.
End safety.

(** ** Mounts that return

    The only recursion without a bound of its own is that into the images below a
    container; a mount of any other image returns, whatever the kernel answers and other
    threads do. *)
Section ends.
Context (sys : system) (MNAMELEN fuel : nat).

Definition ends {A} (m : M A) : Prop := forall w, is_Some (m w).

Lemma ends_bind {A B} (m : M A) (k : A -> M B) : ends m -> (forall a, ends (k a)) -> ends (bind m k).
Proof. intros Hm Hk w. unfold bind. destruct (Hm w) as [[a w'] ->]. apply Hk. Qed.
Lemma ends_ret {A} (x : A) : ends (ret x).
Proof. by eexists. Qed.
Lemma ends_look {A} (f : world -> A) : ends (look f).
Proof. by eexists. Qed.
Lemma ends_change f : ends (change f).
Proof. by eexists. Qed.
Lemma ends_ask {A} (f : nat -> A) ev : ends (ask sys f ev).
Proof. by eexists. Qed.
Lemma ends_use {A} (f : (string -> option node_id) -> image_cache -> A * image_cache) ev : ends (cache_use sys f ev).
Proof. intros w. unfold cache_use. destruct (f _ _). by eexists. Qed.
Lemma ends_autotune filename sector : ends (autotune_sector sys filename sector).
Proof. intros w. unfold autotune_sector. destruct (upsert_image_sector_size_autotune _ _ _ _ _). by eexists. Qed.

Create HintDb ends.
#[local] Hint Resolve ends_ret ends_look ends_change ends_ask ends_use ends_autotune : ends.
#[local] Hint Unfold set_errno set_notified emit fail_with : ends.

Ltac ends :=
  cbv beta zeta;
  repeat first
    [ solve [autounfold with ends; eauto with ends nocore]
    | apply ends_bind; [|intros ?]
    | match goal with
      | |- ends (let '(_, _) := ?x in _) => destruct x
      | |- ends (match ?x with _ => _ end) => destruct x eqn:?
      end ].

Lemma ends_call {A} (f : nat -> A + error_t) ev : ends (call sys f ev).
Proof. unfold call. ends. Qed.
Lemma ends_command f ev : ends (command sys f ev).
Proof. unfold command. ends. Qed.
Lemma ends_cache_call {A} (f : (string -> option node_id) -> image_cache -> outcome A * image_cache) ev : ends (cache_call sys f ev).
Proof. unfold cache_call. ends. Qed.
#[local] Hint Resolve ends_call ends_command ends_cache_call : ends.
#[local] Hint Unfold stat_node mount_table statfs sleeping config_state cache_query cache_entry cache_find cancel_attachment : ends.

Lemma ends_wait n dev b : ends (wait_for_dev_node sys n dev b).
Proof. induction n as [|n IH]; cbn [wait_for_dev_node]; ends. Qed.
Lemma ends_target dev d : ends (detach_target_is_released_or_reused sys dev d).
Proof. unfold detach_target_is_released_or_reused, device_node_is_mounted. ends. Qed.
#[local] Hint Resolve ends_wait ends_target : ends.
#[local] Hint Unfold wait_for_dev_node_state : ends.
Lemma ends_wait_release b unit d : ends (wait_for_attached_unit_release sys b unit d).
Proof. unfold wait_for_attached_unit_release. ends. Qed.
Lemma ends_detach b unit d : ends (detach_attached_unit sys b unit d).
Proof.
  unfold detach_attached_unit, detach_unit, prepare_attached_unit_detach, read_device_node_identity, finish_failed_detach,
    finish_accepted_detach. ends.
Qed.
Lemma ends_active path : ends (is_active_image_mount_point sys path).
Proof. unfold is_active_image_mount_point, is_path_mountpoint. ends. Qed.
Lemma ends_resolve mount_point : ends (resolve_device_from_mount sys mount_point).
Proof. unfold resolve_device_from_mount. ends. Qed.
#[local] Hint Resolve ends_wait_release ends_detach ends_active ends_resolve : ends.
Lemma ends_layers n path : ends (unmount_layers sys n path).
Proof. induction n as [|n IH]; cbn [unmount_layers]; ends. Qed.
#[local] Hint Resolve ends_layers : ends.
Lemma ends_invalidate index e : ends (invalidate_matching_image_cache_entry sys index e).
Proof. unfold invalidate_matching_image_cache_entry. ends. Qed.
Lemma ends_detach_cached path gen b unit : ends (detach_cached_image_device sys path gen b unit).
Proof. unfold detach_cached_image_device. ends. Qed.
#[local] Hint Resolve ends_invalidate ends_detach_cached : ends.
Lemma ends_release_image cleanup path mount_point gen b unit : ends (release_image sys cleanup path mount_point gen b unit).
Proof. unfold release_image, release_device, forget_source. ends. Qed.
Lemma ends_reserve path b unit gen : ends (reserve_release sys path b unit gen).
Proof. unfold reserve_release. ends. Qed.
#[local] Hint Resolve ends_release_image ends_reserve : ends.

Context (path : string).
Context (Hfuel : (0 < fuel)%nat) (Hplain : detect_image_fs_type_for_path path "" <> IMAGE_FS_PFSC_CONTAINER).

Lemma ends_unmount cleanup gen unit b : ends (unmount_image_impl sys MNAMELEN fuel cleanup gen path unit b).
Proof.
  destruct fuel as [|n]; [lia|]. cbn [unmount_image_impl]. cbv zeta. rewrite (bool_decide_eq_false_2 _ Hplain). unfold device_to_release. ends.
Qed.

(** The record found for the image names it. *)
Lemma ends_found {A} (k : option (nat * ImageCache) -> M A) :
  ends (k None) -> (forall i e, ic_path e = path -> ends (k (Some (i, e)))) -> ends (let* found := cache_find sys path in k found).
Proof.
  intros Hn Hs w. unfold bind, cache_find, cache_query, cache_use.
  match goal with |- context [find_image_cache_entry ?c path] => destruct (find_image_cache_entry c path) as [[i e]|] eqn:Hf end; [|apply Hn].
  apply find_by_path_Some in Hf as (_ & _ & Hp). by apply Hs.
Qed.

Lemma ends_release gen : ends (release_runtime_image_attachment sys MNAMELEN fuel path gen).
Proof.
  unfold release_runtime_image_attachment. apply ends_bind; [ends|]. intros _. apply ends_found; [ends|]. intros i e ->.
  pose proof ends_unmount. ends.
Qed.
Lemma ends_release_mount : ends (release_runtime_image_mount sys MNAMELEN fuel path).
Proof.
  unfold release_runtime_image_mount, unmount_runtime_image. apply ends_found; [ends|]. intros i e ->. pose proof ends_unmount. ends.
Qed.
#[local] Hint Resolve ends_release ends_release_mount : ends.

Lemma ends_attach t ro size b profile image_type gen :
  ends (attach_image_device sys MNAMELEN fuel path t ro size b profile image_type gen).
Proof.
  unfold attach_image_device, attach_md_backend, attach_lvd_backend_as, attach_through, prepare_nested_image_backing_cache,
    get_lvd_source_type, source_clusters, rollback_unpublished_attached_unit. ends.
Qed.
#[local] Hint Resolve ends_attach : ends.

Lemma ends_nmount gen t dev mount_point ro force profile :
  ends (perform_image_nmount sys MNAMELEN fuel path gen t dev mount_point ro force profile).
Proof. unfold perform_image_nmount, verify_exfat_nmount_result. ends. Qed.
Lemma ends_validate gen t b mount_point : ends (validate_mounted_image sys MNAMELEN fuel path gen t b mount_point).
Proof.
  unfold validate_mounted_image, reject_mounted_image_io, is_image_mount_root_accessible, lvd_sector_size, source_clusters. ends.
Qed.
#[local] Hint Resolve ends_nmount ends_validate : ends.

Lemma ends_reserved mount_point t ro force size b profile gen :
  ends (mount_reserved sys MNAMELEN fuel path mount_point t ro force size b profile gen).
Proof. unfold mount_reserved, ensure_mount_dirs. ends. Qed.
#[local] Hint Resolve ends_reserved : ends.

Lemma ends_fresh mount_point t override ro cfg : ends (mount_fresh sys MNAMELEN fuel path mount_point t override ro cfg).
Proof. unfold mount_fresh, stat_image_file, record_is_mounted, answer_mounted, mode_matches. ends. Qed.

Lemma ends_reuse mount_point : ends (reuse_or_go_on sys MNAMELEN fuel path mount_point).
Proof.
  unfold reuse_or_go_on, reuse_existing_image_mount, is_image_mount_root_accessible, adopt_mount, directory_has_visible_entries. ends.
Qed.
#[local] Hint Resolve ends_fresh ends_reuse : ends.

Lemma ends_cached {A} (k : option ImageCache -> M A) :
  ends (k None) -> (forall e, ic_path e = path -> ends (k (Some e))) -> ends (let* cached := get_cached_image_mount sys path in k cached).
Proof.
  intros Hn Hs w. unfold get_cached_image_mount, bind, cache_find, cache_query, cache_use.
  match goal with |- context [find_image_cache_entry ?c path] => destruct (find_image_cache_entry c path) as [[i e]|] eqn:Hf end; [|apply Hn].
  apply find_by_path_Some in Hf as (_ & _ & Hp). unfold ret. destruct (holds_device e); [by apply Hs|apply Hn].
Qed.

Lemma ends_existing mount_point : ends (handle_cached_or_existing_image_mount sys MNAMELEN fuel path mount_point).
Proof.
  unfold handle_cached_or_existing_image_mount. apply ends_bind; [ends|]. intros []; [ends|]. apply ends_cached; [ends|]. intros e ->.
  unfold active_and_accessible, is_image_mount_root_accessible. ends.
Qed.
#[local] Hint Resolve ends_existing : ends.

Lemma ends_mount t override : ends (mount_image_with_mode sys MNAMELEN fuel path t override).
Proof. unfold mount_image_with_mode, answer_mounted, mode_matches. ends. Qed.
End ends.

(** The calls of src/sm_image.c that other components make. *)
Inductive image_request :=
  | RMaybeMount (path name : string) (override : option bool)
  | RMount (path : string) (t : image_fs_type_t) (override : option bool)
  | RUnmount (permanent : bool) (path : string) (unit : Z) (b : attach_backend_t)
  | RRelease (path : string)
  | RReleaseAll
  | RCleanup
  | RCleanupRoot (root : string)
  | RUsbSuspend
  | RShutdown
  | RCleanupDirs.

Section requests.
Context (MNAMELEN fuel : nat).

Definition run_request (sys : system) (r : image_request) : M () :=
  match r with
  | RMaybeMount path name override => let* _ := maybe_mount_image_file_with_mode sys MNAMELEN fuel path name override in ret tt
  | RMount path t override => let* _ := mount_image_with_mode sys MNAMELEN fuel path t override in ret tt
  | RUnmount true path unit b => let* _ := unmount_image sys MNAMELEN fuel path unit b in ret tt
  | RUnmount false path unit b => let* _ := unmount_runtime_image sys MNAMELEN fuel path unit b in ret tt
  | RRelease path => let* _ := release_runtime_image_mount sys MNAMELEN fuel path in ret tt
  | RReleaseAll => let* _ := release_runtime_image_mounts sys MNAMELEN fuel in ret tt
  | RCleanup => cleanup_stale_image_mounts sys MNAMELEN fuel
  | RCleanupRoot root => cleanup_stale_image_mounts_for_root sys MNAMELEN fuel root
  | RUsbSuspend => let* _ := unmount_usb_image_mounts_for_suspend sys MNAMELEN fuel in ret tt
  | RShutdown => let* _ := shutdown_image_mounts sys MNAMELEN fuel in ret tt
  | RCleanupDirs => cleanup_mount_dirs sys
  end.

Fixpoint run_requests (sys : system) (rs : list image_request) : M () :=
  match rs with [] => ret tt | r :: rs' => let* _ := run_request sys r in run_requests sys rs' end.

Lemma loudly_request sys r : emits (run_request sys r) (fun _ t => safe MNAMELEN True t).
Proof.
  assert (Hret : forall {A} (m : M A), emits m (fun _ t => safe MNAMELEN True t) -> emits (let* _ := m in ret tt) (fun _ t => safe MNAMELEN True t)).
  { intros A m Hm. apply safely_bind; [done|]. intros _. apply safely_ret. }
  destruct r as [path name override|path t override|[] path unit b|path| | |root| | |]; cbn [run_request].
  - apply Hret, loudly_maybe.
  - apply Hret, loudly_mount.
  - apply Hret, safely_unmount.
  - apply Hret, safely_unmount.
  - apply Hret, safely_release_mount.
  - apply Hret, safely_release_mounts.
  - apply loudly_cleanup.
  - unfold cleanup_stale_image_mounts_for_root. destruct (strcmp_eq root ""); [apply loudly_cleanup|].
    apply safely_bind; [by apply (safely_ask _ _ _ _ quiet)|]. intros []; [apply safely_ret|apply loudly_stale_slots].
  - apply Hret, safely_usb.
  - apply Hret, safely_shutdown.
  - apply safely_cleanup_dirs.
Qed.

Lemma loudly_requests sys rs : emits (run_requests sys rs) (fun _ t => safe MNAMELEN True t).
Proof.
  induction rs as [|r rs IH]; cbn [run_requests]; [apply safely_ret|]. apply safely_bind; [apply loudly_request|]. by intros _.
Qed.
End requests.

(** ** Claims *)

(** Claim C7: Whatever the kernel answers, and whatever other threads do to the image
    cache between any two steps, in any sequence of image requests a record with a device
    is dropped from the cache only after its device was claimed with nothing mounted at
    the image's mount point, the device was seen gone (its node absent or changed, or
    something else mounted from it, or the mount table unreadable) and the mount directory
    was seen gone. *)
Theorem image_dropped_only_when_released sys MNAMELEN fuel rs w w' pre record post :
  run_requests MNAMELEN fuel sys rs w = Some (tt, w') -> w_trace w' = w_trace w ++ pre ++ EvDrop record :: post ->
  released_seen MNAMELEN (ic_path record) (unit_id record) (backend record) pre.
Proof.
  intros Hr Ht. destruct (loudly_requests MNAMELEN fuel sys rs w tt w' Hr) as (t & Ht' & Hs). rewrite Ht in Ht'.
  apply app_inv_head in Ht'. by apply (Hs pre (EvDrop record) post).
Qed.

(** Whatever the kernel answers and other threads do, a detach request is made
    only for a device that this program claimed in the image cache with the node it sees
    now, or whose publication had just failed; and right after its node was seen with
    nothing mounted from it (or the node could not be examined at all). *)
Theorem detach_requests_checked sys MNAMELEN fuel rs w w' pre b unit answer post :
  run_requests MNAMELEN fuel sys rs w = Some (tt, w') -> w_trace w' = w_trace w ++ pre ++ EvDetach b unit answer :: post ->
  exists id, checked b unit id pre /\ owned b unit id pre.
Proof.
  intros Hr Ht. destruct (loudly_requests MNAMELEN fuel sys rs w tt w' Hr) as (t & Ht' & Hs). rewrite Ht in Ht'.
  apply app_inv_head in Ht'. by apply (Hs pre (EvDetach b unit answer) post).
Qed.

(** Claim C8: What a mount does with the device it attaches.  In every run of a
    mount that returns, whatever the kernel answers and other threads do: at most one
    device is attached, under a record that was reserved before; the next event publishes
    it in that record; from there a mount that succeeds has committed the record with that
    device, and one that fails has begun the release of that record.  If it could not be
    published the mount fails and the device is rolled back: a request to detach it is
    made, or it is taken for gone (node absent or changed, something mounted from it, or the
    mount table unreadable), or both tries are blocked, as its node cannot be examined or the
    control device not opened (no second try is made when a hundred looks do not find the
    node); a refused request, an unreadable table or blocked tries may leave it attached.
    A mount of an image that is not a container always returns; that of a container
    recurses into the images below it, to a depth [fuel] that is arbitrary here. *)
Theorem mounted_device_accounted sys MNAMELEN fuel path t override w :
  (detect_image_fs_type_for_path path "" <> IMAGE_FS_PFSC_CONTAINER -> (0 < fuel)%nat ->
     is_Some (mount_image_with_mode sys MNAMELEN fuel path t override w)) /\
  forall ok w', mount_image_with_mode sys MNAMELEN fuel path t override w = Some (ok, w') ->
    exists tr, w_trace w' = w_trace w ++ tr /\ mount_accounted path ok tr.
Proof.
  split; [intros Hp Hf; by apply ends_mount|].
  intros ok w' Hm. destruct (mount_image_accounts sys MNAMELEN fuel path t override w ok w' Hm) as (tr & Ht & _ & Ha). eauto.
Qed.

(** ** Witnesses *)

(** Nodes exist up to the 40th question; nothing is in the mount table. *)
Definition demo_sys : system :=
  demo_system (fun n _ => if (n <? 40)%nat then inl demo_id else inr ENOENT) (fun _ => inl [])
    (fun _ p => if has_prefix p "/mnt/" then inl (Statfs "/" "/dev/da0" "exfatfs" 65536 65536 false) else inr ENOENT) 3.

Definition demo_path : string := "/data/games/game.ffpkg".

(** An image is mounted and unmounted again. *)
Definition demo_requests : list image_request := [RMount demo_path IMAGE_FS_UFS None; RRelease demo_path].

Definition demo_end : world := from_option snd (demo_world empty_cache) (run_requests 1024 2 demo_sys demo_requests (demo_world empty_cache)).

(** The position of the first event of a kind. *)
Definition position (p : event -> bool) : nat := default 0%nat (find_index p (w_trace demo_end)).
Definition drop_position : nat := position (fun e => match e with EvDrop _ => true | _ => false end).
Definition detach_position : nat := position (fun e => match e with EvDetach _ _ _ => true | _ => false end).

Lemma image_dropped_only_when_released_witness : exists record,
  w_trace demo_end !! drop_position = Some (EvDrop record) /\ unit_id record = 3 /\
  released_seen 1024 (ic_path record) (unit_id record) (backend record) (take drop_position (w_trace demo_end)).
Proof.
  eexists. split; [vm_compute; reflexivity|]. split; [reflexivity|].
  apply (image_dropped_only_when_released demo_sys 1024 2 demo_requests (demo_world empty_cache) demo_end _ _
           (drop (S drop_position) (w_trace demo_end))); vm_compute; reflexivity.
Defined.

Lemma detach_requests_checked_witness :
  w_trace demo_end !! detach_position = Some (EvDetach ATTACH_BACKEND_LVD 3 None) /\
  exists id, checked ATTACH_BACKEND_LVD 3 id (take detach_position (w_trace demo_end)) /\
  owned ATTACH_BACKEND_LVD 3 id (take detach_position (w_trace demo_end)).
Proof.
  split; [vm_compute; reflexivity|].
  apply (detach_requests_checked demo_sys 1024 2 demo_requests (demo_world empty_cache) demo_end _ _ _ None
           (drop (S detach_position) (w_trace demo_end))); vm_compute; reflexivity.
Defined.

Definition demo_mounted : world :=
  from_option snd (demo_world empty_cache) (mount_image_with_mode demo_sys 1024 2 demo_path IMAGE_FS_UFS None (demo_world empty_cache)).

Lemma mounted_device_accounted_witness :
  is_Some (mount_image_with_mode demo_sys 1024 2 demo_path IMAGE_FS_UFS None (demo_world empty_cache)) /\
  existsb (fun e => bool_decide (attached_unit e = Some 3)) (w_trace demo_mounted) = true /\
  exists tr, w_trace demo_mounted = [] ++ tr /\ mount_accounted demo_path true tr.
Proof.
  destruct (mounted_device_accounted demo_sys 1024 2 demo_path IMAGE_FS_UFS None (demo_world empty_cache)) as [Hends Hall].
  split; [apply Hends; [by vm_compute|lia]|]. split; [vm_compute; reflexivity|].
  apply (Hall true demo_mounted). vm_compute. reflexivity.
Defined.

(** A complete run in which the mount table cannot be read any more once the device is
    to be detached: the release answers true and the image cache is empty again, but no
    detach request was made for the device, which stays attached. *)
Theorem unreadable_mount_table_loses_device :
  let sys := demo_system (fun _ _ => inl demo_id) (fun n => if (n <? 34)%nat then inl [] else inr EOTHER)
    (fun _ p => if has_prefix p "/mnt/" then inl (Statfs "/" "/dev/da0" "exfatfs" 65536 65536 false) else inr ENOENT) 3 in
  let w := from_option snd (demo_world empty_cache) (run_requests 1024 2 sys demo_requests (demo_world empty_cache)) in
  existsb (fun e => bool_decide (attached_unit e = Some 3)) (w_trace w) = true /\
  images (w_cache w) = images empty_cache /\
  forallb (fun e => match e with EvDetach _ _ _ => false | _ => true end) (w_trace w) = true.
Proof. vm_compute. done. Qed.
