(* ===== verification/ImageShutdown.v ===== *)
(** * Shutting the images down (src/sm_image.c, without other threads)

    ImageUnmount.v makes no assumption on what other threads do to the image cache between
    two steps.  At shutdown there are none: here [sys_others] is the identity, so the
    cache changes by the program's own steps only, and the result of
    [shutdown_image_mounts] can be compared with what is left in the cache.

    [runs m c Q]: from the cache [c] the program [m] ends, with an answer and a cache that
    satisfy [Q], whatever the system answers. *)
From S2P Require Import Prelude CString ImageKinds ImageCache MountDevice ImageUnmount.
From stdpp Require Import list.
Open Scope Z_scope.
Open Scope c_scope.

(** ** Programs that end *)
Definition runs {A} (m : M A) (c : image_cache) (Q : A -> image_cache -> Prop) : Prop :=
  forall w, w_cache w = c -> exists a w', m w = Some (a, w') /\ Q a (w_cache w').

Lemma runs_weaken {A} (m : M A) c (P Q : A -> image_cache -> Prop) : runs m c P -> (forall a c', P a c' -> Q a c') -> runs m c Q.
Proof. intros Hm HPQ w Hw. destruct (Hm w Hw) as (a & w' & He & HP). eauto. Qed.

Lemma device_runs_bind {A B} (m : M A) (k : A -> M B) c (P : A -> image_cache -> Prop) (Q : B -> image_cache -> Prop) :
  runs m c P -> (forall a c', P a c' -> runs (k a) c' Q) -> runs (bind m k) c Q.
Proof.
  intros Hm Hk w Hw. destruct (Hm w Hw) as (a & w1 & He & HP). destruct (Hk a _ HP w1 eq_refl) as (b & w2 & He2 & HQ).
  exists b, w2. unfold bind. by rewrite He.
Qed.

Lemma device_runs_ret {A} (x : A) c (Q : A -> image_cache -> Prop) : Q x c -> runs (ret x) c Q.
Proof. intros HQ w <-. by eexists _, _. Qed.
Lemma runs_look {A} (f : world -> A) c (Q : A -> image_cache -> Prop) : (forall a, Q a c) -> runs (look f) c Q.
Proof. intros HQ w <-. by eexists _, _. Qed.
Lemma runs_errno e c (Q : () -> image_cache -> Prop) : Q tt c -> runs (set_errno e) c Q.
Proof. intros HQ w <-. by eexists _, _. Qed.
Lemma runs_emit evs c (Q : () -> image_cache -> Prop) : Q tt c -> runs (emit evs) c Q.
Proof. intros HQ w <-. by eexists _, _. Qed.
Lemma runs_fail e c (Q : bool -> image_cache -> Prop) : Q false c -> runs (fail_with e) c Q.
Proof. intros HQ w <-. by eexists _, _. Qed.

Section alone.
Context (sys : system) (MNAMELEN : nat).
Context (Halone : forall n c, sys_others sys n c = c).

Lemma runs_ask {A} (f : nat -> A) ev c (Q : A -> image_cache -> Prop) : (forall a, Q a c) -> runs (ask sys f ev) c Q.
Proof. intros HQ w <-. eexists _, _. split; [done|]. cbn. rewrite Halone. apply HQ. Qed.

Lemma runs_cache_use {A} (f : (string -> option node_id) -> image_cache -> A * image_cache) ev c (Q : A -> image_cache -> Prop) :
  (forall ds, Q (f ds c).1 (f ds c).2) -> runs (cache_use sys f ev) c Q.
Proof.
  intros HQ w <-. unfold cache_use. rewrite Halone. match goal with |- context [f ?ds ?c] => specialize (HQ ds); destruct (f ds c) as [a c'] end.
  by eexists _, _.
Qed.

(** A program that leaves the cache as it is. *)
Abbreviation still m := (forall c, runs m c (fun _ c' => c' = c)).

Lemma still_bind {A B} (m : M A) (k : A -> M B) : still m -> (forall a, still (k a)) -> still (bind m k).
Proof. intros Hm Hk c. eapply device_runs_bind; [apply Hm|]. intros a c' ->. apply Hk. Qed.

Lemma still_then {A B} (m : M A) (k : A -> M B) c (Q : B -> image_cache -> Prop) :
  still m -> (forall a, runs (k a) c Q) -> runs (bind m k) c Q.
Proof. intros Hm Hk. eapply device_runs_bind; [apply Hm|]. intros a c' ->. apply Hk. Qed.

Lemma still_ret {A} (x : A) : still (ret x).
Proof. intros c. by apply device_runs_ret. Qed.
Lemma still_look {A} (f : world -> A) : still (look f).
Proof. intros c. by apply runs_look. Qed.
Lemma still_errno e : still (set_errno e).
Proof. intros c. by apply runs_errno. Qed.
Lemma still_emit evs : still (emit evs).
Proof. intros c. by apply runs_emit. Qed.
Lemma still_fail e : still (fail_with e).
Proof. intros c. by apply runs_fail. Qed.
Lemma still_ask {A} (f : nat -> A) ev : still (ask sys f ev).
Proof. intros c. by apply runs_ask. Qed.
Lemma still_call {A} (f : nat -> A + error_t) ev : still (call sys f ev).
Proof. apply still_bind; [apply still_ask|]. intros [a|e]; [apply still_ret|]. apply still_bind; [apply still_errno|]. intros _. apply still_ret. Qed.
Lemma still_command f ev : still (command sys f ev).
Proof. apply still_bind; [apply still_ask|]. intros [e|]; [|apply still_ret]. apply still_bind; [apply still_errno|]. intros _. apply still_ret. Qed.
Lemma still_query {A} (f : image_cache -> A) : still (cache_query sys f).
Proof. intros c. by apply runs_cache_use. Qed.

Create HintDb still.
#[local] Hint Resolve still_ret still_look still_errno still_emit still_fail still_ask still_call still_command still_query : still.

(** Runs through a program, each of whose parts leaves the cache. *)
Ltac still :=
  repeat first
    [ solve [eauto with still nocore]
    | apply still_bind; [|intros ?]
    | match goal with
      | |- forall _, runs (let '(_, _) := ?x in _) _ _ => destruct x
      | |- forall _, runs (match ?x with _ => _ end) _ _ => destruct x eqn:?
      end ].

Lemma still_wait n dev b : still (wait_for_dev_node sys n dev b).
Proof. induction n as [|n IH]; cbn [wait_for_dev_node]; unfold stat_node; still. Qed.
Lemma still_target dev d : still (detach_target_is_released_or_reused sys dev d).
Proof. unfold detach_target_is_released_or_reused, device_node_is_mounted, mount_table, stat_node. still. Qed.
#[local] Hint Resolve still_wait still_target : still.
Lemma still_wait_release b unit d : still (wait_for_attached_unit_release sys b unit d).
Proof. unfold wait_for_attached_unit_release, wait_for_dev_node_state. still. Qed.
Lemma still_detach b unit d : still (detach_attached_unit sys b unit d).
Proof.
  unfold detach_attached_unit, detach_unit, prepare_attached_unit_detach, read_device_node_identity, stat_node, finish_failed_detach,
    finish_accepted_detach. still.
Qed.
Lemma still_active path : still (is_active_image_mount_point sys path).
Proof. unfold is_active_image_mount_point, is_path_mountpoint, mount_table, statfs. cbv zeta. still. Qed.
#[local] Hint Resolve still_wait_release still_detach still_active : still.
Lemma still_layers n path : still (unmount_layers sys n path).
Proof. induction n as [|n IH]; cbn [unmount_layers]; still. Qed.
Lemma still_resolve mount_point : still (resolve_device_from_mount sys mount_point).
Proof. unfold resolve_device_from_mount, mount_table, statfs. still. Qed.
#[local] Hint Resolve still_layers still_resolve : still.
Lemma still_to_release mount_point unit b : still (device_to_release sys mount_point unit b).
Proof. unfold device_to_release. still. Qed.

(** ** How releasing changes the cache *)

(** The same attachment, perhaps further in its release. *)
Record keeps (e e' : ImageCache) : Prop := Keeps {
  kp_valid : ic_valid e' = ic_valid e;
  kp_path : ic_path e' = ic_path e;
  kp_mount : ic_mount_point e' = ic_mount_point e;
  kp_generation : generation e' = generation e;
  kp_unit : unit_id e' = unit_id e;
  kp_backend : backend e' = backend e;
  kp_identity : node_identity_valid (detach_state e) = true ->
    node_identity_valid (detach_state e') = true /\ identity (detach_state e') = identity (detach_state e);
}.

(** Records are kept or dropped; none is added. *)
Definition shrinks (c c' : image_cache) : Prop :=
  length (images c') = length (images c) /\
  forall i e', images c' !! i = Some e' -> exists e, images c !! i = Some e /\ (keeps e e' \/ ic_valid e' = false).

Lemma rest_keeps_refl e : keeps e e.
Proof. by split. Qed.
Lemma rest_keeps_trans e1 e2 e3 : keeps e1 e2 -> keeps e2 e3 -> keeps e1 e3.
Proof.
  intros [? ? ? ? ? ? H1] [? ? ? ? ? ? H2]. split; try congruence. intros Hv. destruct (H1 Hv) as [Hv2 ?], (H2 Hv2). split; congruence.
Qed.

Lemma shrinks_refl c : shrinks c c.
Proof. split; [done|]. intros i e He. exists e. split; [done|]. left. apply rest_keeps_refl. Qed.
Lemma shrinks_trans c1 c2 c3 : shrinks c1 c2 -> shrinks c2 c3 -> shrinks c1 c3.
Proof.
  intros [L1 H1] [L2 H2]. split; [congruence|]. intros i e3 H3. destruct (H2 i e3 H3) as (e2 & He2 & Hk2).
  destruct (H1 i e2 He2) as (e1 & He1 & Hk1). exists e1. split; [done|]. destruct Hk2 as [Hk2|]; [|by right].
  destruct Hk1 as [Hk1|Hk1]; [left; by eapply rest_keeps_trans|]. right. by rewrite (kp_valid _ _ Hk2).
Qed.

#[local] Instance shrinks_preorder : PreOrder shrinks.
Proof. split; [exact shrinks_refl|exact shrinks_trans]. Qed.

Lemma put_shrinks c i e e' : images c !! i = Some e -> keeps e e' \/ ic_valid e' = false -> shrinks c (put_image c i e').
Proof.
  intros Hi Hk. split; [cbn; by rewrite length_insert|]. intros j x Hj. cbn in Hj. destruct (decide (i = j)) as [->|Hne].
  - rewrite list_lookup_insert_eq in Hj by (by eapply lookup_lt_Some). injection Hj as <-. by exists e.
  - rewrite list_lookup_insert_ne in Hj by done. exists x. split; [done|]. left. apply rest_keeps_refl.
Qed.

(** At most one record of a source. *)
Definition unique_paths (c : image_cache) : Prop :=
  forall i j e e', images c !! i = Some e -> images c !! j = Some e' -> ic_valid e = true -> ic_valid e' = true ->
    ic_path e = ic_path e' -> i = j.

Lemma shrinks_unique c c' : shrinks c c' -> unique_paths c -> unique_paths c'.
Proof.
  intros [_ Hs] Hu i j e e' Hi Hj Hv Hv' Hp. destruct (Hs i e Hi) as (x & Hx & [Kx|?]); [|congruence].
  destruct (Hs j e' Hj) as (y & Hy & [Ky|?]); [|congruence]. destruct Kx, Ky. eapply Hu; eauto; congruence.
Qed.

Lemma cache_inv_unique c : cache_inv c -> unique_paths c.
Proof.
  intros Hinv i j e e' Hi Hj Hv Hv' Hp. destruct (decide (i = j)) as [|Hne]; [done|].
  destruct (ci_unique _ Hinv i j e e' Hne Hi Hj Hv Hv') as (Hn & _). done.
Qed.

Lemma refreshed_identity d d' : refreshed d d' -> node_identity_valid d = true -> node_identity_valid d' = true /\ identity d' = identity d.
Proof. intros [->|(Hv & _ & _)]; [done|]. intros ?. congruence. Qed.

Lemma mark_shrinks ds c path gen unit b : shrinks c (mark_image_cache_detach_requested ds c path gen unit b).2.
Proof.
  unfold mark_image_cache_detach_requested. destruct (negb _); [apply shrinks_refl|].
  destruct (find_attachment_record _ _ _ _ _) as [[i e]|] eqn:Hf; [|apply shrinks_refl].
  apply find_attachment_Some in Hf as (Hi & _). destruct (refresh_attached_unit_identity _ _) as [e' known] eqn:Hr.
  apply refresh_spec in Hr as (d & -> & Hd & _). eapply put_shrinks; [exact Hi|]. left. split; try done. cbn in *. by apply refreshed_identity.
Qed.

Lemma claim_shrinks ds c path gen unit b : shrinks c (claim_image_cache_detach ds c path gen unit b).2.
Proof.
  unfold claim_image_cache_detach. destruct (negb _); [apply shrinks_refl|].
  destruct (find_attachment_record _ _ _ _ _) as [[i e]|] eqn:Hf; [|apply shrinks_refl].
  apply find_attachment_Some in Hf as (Hi & _). destruct (detach_attempt_active e); [apply shrinks_refl|].
  destruct (refresh_attached_unit_identity _ _) as [e' known] eqn:Hr. apply refresh_spec in Hr as (d & -> & Hd & _).
  destruct (negb known); (eapply put_shrinks; [exact Hi|]); left; (split; try done); cbn in *; by apply refreshed_identity.
Qed.

(** The source has no detach attempt under way, and its device's node is known. *)
Definition settled (path : string) (c : image_cache) : Prop :=
  forall i e, images c !! i = Some e -> ic_valid e = true -> ic_path e = path ->
    detach_attempt_active e = false /\ node_identity_valid (detach_state e) = true.

Lemma identity_matches_identity d d' : device_identity_matches d d' = true ->
  node_identity_valid d = true /\ node_identity_valid d' = true /\ identity d' = identity d.
Proof. unfold device_identity_matches, identity. intros H. bool_hyps. split_and!; [done..|]. f_equal; [f_equal|]; lia. Qed.

Lemma finish_shrinks c path gen unit b d : unique_paths c ->
  let r := finish_image_cache_detach_attempt c path gen unit b d in
  shrinks c r.2 /\ (is_ok r.1 = true -> settled path r.2).
Proof.
  intros Hu. cbv zeta. unfold finish_image_cache_detach_attempt. destruct (_ || _) eqn:Ha; [split; [apply shrinks_refl|done]|].
  destruct (find_attachment_record _ _ _ _ _) as [[i e]|] eqn:Hf; [|split; [apply shrinks_refl|done]].
  apply find_attachment_Some in Hf as (Hi & Hv & Hp & _). clear Ha. destruct (negb (detach_attempt_active e) || _) eqn:Hm; [split; [apply shrinks_refl|done]|].
  apply orb_false_iff in Hm as [_ Hm]. apply negb_false_iff, identity_matches_identity in Hm as (Hv1 & Hv2 & Hid). cbn [fst snd].
  set (e' := set_attachment _ _ _ _ _ _ _). assert (Hk : keeps e e') by (by split).
  split; [by eapply put_shrinks; [exact Hi|left]|]. intros _ j x Hj Hvx Hpx. cbn in Hj.
  destruct (decide (i = j)) as [->|Hne].
  - rewrite list_lookup_insert_eq in Hj by (by eapply lookup_lt_Some). by injection Hj as <-.
  - rewrite list_lookup_insert_ne in Hj by done. destruct Hne. eapply Hu; eauto. congruence.
Qed.

Lemma cancel_shrinks c path gen : shrinks c (cancel_image_attachment c path gen).2.
Proof.
  unfold cancel_image_attachment. destruct (_ =? _); [apply shrinks_refl|]. destruct (find_by_path _ _) as [[i e]|] eqn:Hf; [|apply shrinks_refl].
  destruct (is_reservation gen e); [|apply shrinks_refl]. apply find_by_path_Some in Hf as [Hi _]. eapply put_shrinks; [exact Hi|by right].
Qed.

Lemma runs_cache_call {A} (f : (string -> option node_id) -> image_cache -> outcome A * image_cache) ev c (Q : outcome A -> image_cache -> Prop) :
  (forall ds, Q (f ds c).1 (f ds c).2) -> runs (cache_call sys f ev) c Q.
Proof.
  intros HQ. eapply device_runs_bind; [by apply (runs_cache_use _ _ _ (fun r c' => exists ds, r = (f ds c).1 /\ c' = (f ds c).2)); eauto|].
  intros r c' (ds & -> & ->). specialize (HQ ds). destruct (f ds c).1 as [a|[e|]]; [by apply device_runs_ret| |by apply device_runs_ret].
  apply still_then; [apply still_errno|]. intros _. by apply device_runs_ret.
Qed.

(** ** Releasing one image *)
Lemma detach_cached_runs path gen b unit c : unique_paths c ->
  runs (detach_cached_image_device sys path gen b unit) c (fun r c' => shrinks c c' /\ (r = true -> settled path c')).
Proof.
  intros Hu. unfold detach_cached_image_device.
  eapply device_runs_bind; [apply (runs_cache_call _ _ _ (fun _ c' => shrinks c c')); intros ds; apply claim_shrinks|].
  intros [e|x] c1 H1; [|apply device_runs_ret; by split].
  apply still_then; [apply still_detach|]. intros [detached d']. apply still_then; [apply still_look|]. intros code.
  eapply device_runs_bind; [apply (runs_cache_call _ _ _ (fun r c' => shrinks c1 c' /\ (is_ok r = true -> settled path c'))); intros ds;
    apply finish_shrinks; by eapply shrinks_unique|].
  intros r c2 [H2 Hs]. assert (H12 : shrinks c c2) by (by etransitivity).
  destruct (is_ok r); cbn [negb]; [|apply runs_fail; by split]. specialize (Hs eq_refl).
  destruct detached; [apply device_runs_ret; by split|]. destruct (_ && _).
  - eapply runs_weaken; [apply still_wait_release|]. by intros x c' ->.
  - apply still_then; [apply still_errno|]. intros _. apply device_runs_ret. by split.
Qed.

Lemma release_device_runs path mount_point gen b unit c : unique_paths c ->
  runs (release_device sys path mount_point gen b unit) c
    (fun r c' => shrinks c c' /\ (unmount_completed r = true -> names_device unit b -> settled path c')).
Proof.
  intros Hu. unfold release_device.
  eapply (device_runs_bind _ _ _ (fun r c' => shrinks c c' /\ (r.1 = true -> names_device unit b -> settled path c'))).
  { destruct (_ && _) eqn:Hd.
    - eapply device_runs_bind; [by apply detach_cached_runs|]. intros released c' [Hs Hr]. apply still_then; [apply still_look|].
      intros code. apply device_runs_ret. split; [done|]. intros ? _. by apply Hr.
    - apply device_runs_ret. split; [apply shrinks_refl|]. intros _ [H1 H2]. apply andb_false_iff in Hd as [Hd|Hd]; [|lia].
      apply negb_false_iff, bool_decide_eq_true in Hd. done. }
  intros [released error] c' [Hs Hr]. apply still_then; [apply still_command|]. intros r.
  apply still_then; [destruct error, r as [x|]; try case_bool_decide; eauto with still|]. intros _. apply device_runs_ret. split; [done|].
  unfold unmount_completed. cbn. intros Hc Hn. bool_hyps. by apply Hr.
Qed.

Lemma reserve_runs path b unit expected c : runs (reserve_release sys path b unit expected) c
  (fun r c' => shrinks c c' /\ forall result, r = inr result -> unmount_completed result = false).
Proof.
  assert (Hfail : forall e c', shrinks c c' -> runs (let* _ := set_errno (Some e) in ret (inr (failed_with e)) : M (Z + unmount_result_t)) c'
    (fun r c2 => shrinks c c2 /\ forall result, r = inr result -> unmount_completed result = false)).
  { intros e c' Hs. apply still_then; [apply still_errno|]. intros _. apply device_runs_ret. split; [done|]. by intros result [= <-]. }
  pose proof (shrinks_refl c) as Hr. unfold reserve_release. apply still_then; [apply still_query|]. intros [[i e]|].
  2:{ destruct (_ && _); [by apply Hfail|by apply device_runs_ret]. }
  destruct (holds_device e); [|destruct (_ && _); [by apply Hfail|by apply device_runs_ret]].
  destruct (_ || _ || _); [by apply Hfail|]. destruct (_ && _); [by apply Hfail|].
  eapply device_runs_bind; [apply (runs_cache_call _ _ _ (fun _ c' => shrinks c c')); intros ds; apply mark_shrinks|]. intros r c1 H1.
  destruct (is_ok r); [by apply device_runs_ret|]. apply still_then; [apply still_look|]. intros code. by apply Hfail.
Qed.

Lemma release_image_runs cleanup path mount_point gen b unit c : unique_paths c ->
  runs (release_image sys cleanup path mount_point gen b unit) c
    (fun r c' => shrinks c c' /\ (unmount_completed r = true -> names_device unit b -> settled path c')).
Proof.
  intros Hu. unfold release_image. apply still_then; [unfold forget_source; destruct cleanup; eauto with still|]. intros _.
  apply still_then; [apply still_layers|]. intros [e|].
  { apply still_then; [apply still_errno|]. intros _. apply device_runs_ret. split; [apply shrinks_refl|done]. }
  apply still_then; [apply still_active|]. intros [].
  { apply still_then; [apply still_errno|]. intros _. apply device_runs_ret. split; [apply shrinks_refl|done]. }
  by apply release_device_runs.
Qed.

(** ** Dropping a record *)
Definition lives (index : nat) (c : image_cache) : Prop := exists e, images c !! index = Some e /\ ic_valid e = true.

Lemma get_entry_None c index : (index < MAX_IMAGE_MOUNTS)%nat -> get_image_cache_entry c (Z.of_nat index) = None -> ~ lives index c.
Proof.
  intros Hi. unfold get_image_cache_entry. destruct (_ || _) eqn:Hb; [apply orb_true_iff in Hb as [Hb|Hb]; lia|]. rewrite Nat2Z.id.
  intros He (e & Hl & Hv). rewrite Hl in He. cbn in He. by rewrite Hv in He.
Qed.

Lemma get_entry_Some c index e : get_image_cache_entry c (Z.of_nat index) = Some e ->
  (index < MAX_IMAGE_MOUNTS)%nat /\ images c !! index = Some e /\ ic_valid e = true.
Proof.
  unfold get_image_cache_entry. destruct (_ || _) eqn:Hb; [done|]. rewrite Nat2Z.id. intros (x & Hx & H)%bind_Some.
  destruct (ic_valid x) eqn:Hv; [|done]. injection H as <-. apply orb_false_iff in Hb as [_ Hb]. split; [lia|done].
Qed.

Lemma invalidate_same_record c index e : (index < MAX_IMAGE_MOUNTS)%nat -> images c !! index = Some e -> ic_valid e = true ->
  detach_attempt_active e = false -> node_identity_valid (detach_state e) = true ->
  (invalidate_image_cache_entry c (Z.of_nat index) e).2 = put_image c index zero_image.
Proof.
  intros Hi Hl Hv Ha Hn. unfold invalidate_image_cache_entry. destruct (_ || _) eqn:Hb; [apply orb_true_iff in Hb as [Hb|Hb]; lia|].
  rewrite Nat2Z.id, Hl, Hv, Ha. cbn [negb]. rewrite !strcmp_eq_refl, !Z.eqb_refl, !bool_decide_eq_true_2, Bool.eqb_reflx by done.
  unfold device_identity_matches. by rewrite Hn, !Z.eqb_refl.
Qed.

Lemma invalidate_shrinks c index e : shrinks c (invalidate_image_cache_entry c index e).2.
Proof.
  unfold invalidate_image_cache_entry. destruct (_ || _); [apply shrinks_refl|]. destruct (images c !! Z.to_nat index) as [x|] eqn:Hx; [|apply shrinks_refl].
  destruct (ic_valid x); [|apply shrinks_refl]. cbn [negb]. destruct (_ || _); [apply shrinks_refl|]. eapply put_shrinks; [exact Hx|by right].
Qed.

Lemma keeps_same_record e e' : keeps e e' -> same_record e e' = true.
Proof.
  intros [_ H1 H2 H3 H4 H5 H6]. unfold same_record. rewrite H1, H2, H3, H4, H5, !strcmp_eq_refl, !Z.eqb_refl, bool_decide_eq_true_2 by done.
  cbn [andb]. destruct (node_identity_valid (detach_state e)) eqn:Hv; [|done]. destruct (H6 eq_refl) as [-> ->]. cbn. by rewrite bool_decide_eq_true_2.
Qed.

(** The record of a settled source that was kept is dropped. *)
Lemma invalidate_runs index e c0 c : shrinks c0 c -> images c0 !! index = Some e -> ic_valid e = true -> (index < MAX_IMAGE_MOUNTS)%nat ->
  runs (invalidate_matching_image_cache_entry sys index e) c (fun _ c' => shrinks c c' /\ (settled (ic_path e) c -> ~ lives index c')).
Proof.
  intros [Hl Hs] Hi Hv Hlt. unfold invalidate_matching_image_cache_entry.
  eapply device_runs_bind; [by apply (runs_cache_use _ _ _ (fun r c' => c' = c /\ r = get_image_cache_entry c (Z.of_nat index)))|].
  intros [x|] c1 [-> Hx].
  - symmetry in Hx. apply get_entry_Some in Hx as (_ & Hx & Hvx). destruct (Hs index x Hx) as (e0 & He0 & Hk). rewrite Hi in He0. injection He0 as <-.
    destruct Hk as [Hk|?]; [|congruence]. rewrite (keeps_same_record _ _ Hk). cbn [negb].
    eapply device_runs_bind; [apply (runs_cache_call _ _ _ (fun _ c' => shrinks c c' /\ (settled (ic_path e) c -> ~ lives index c')))|].
    + intros ds. split; [apply invalidate_shrinks|]. intros Hset. destruct (Hset index x Hx Hvx (kp_path _ _ Hk)) as [Ha Hn].
      rewrite (invalidate_same_record c index x) by done. intros (y & Hy & Hvy). cbn in Hy.
      rewrite list_lookup_insert_eq in Hy by (by eapply lookup_lt_Some). by injection Hy as <-.
    + intros r c' H. by apply device_runs_ret.
  - apply runs_fail. split; [apply shrinks_refl|]. intros _. by apply get_entry_None.
Qed.

(** ** The recursion into containers

    [nested fuel c path]: the images that are mounted from the inside of [path], and
    from the inside of those, are at most [fuel] deep. *)
Fixpoint nested (fuel : nat) (c : image_cache) (path : string) : Prop :=
  match fuel with
  | O => False
  | S fuel' =>
      detect_image_fs_type_for_path path "" = IMAGE_FS_PFSC_CONTAINER ->
      forall i e, images c !! i = Some e -> ic_valid e = true -> holds_device e = true ->
        path_matches_root_or_child (ic_path e) (build_image_mount_point MNAMELEN path) = true -> nested fuel' c (ic_path e)
  end.

Lemma keeps_holds e e' : keeps e e' -> holds_device e' = holds_device e.
Proof. intros [_ _ _ _ H1 H2 _]. unfold holds_device. by rewrite H1, H2. Qed.

Lemma shrinks_nested fuel c c' path : shrinks c c' -> nested fuel c path -> nested fuel c' path.
Proof.
  intros Hs. revert path. induction fuel as [|fuel IH]; intros path; [done|]. cbn [nested]. intros Hn Ht i e' Hi Hv Hd Hp.
  destruct Hs as [_ Hs]. destruct (Hs i e' Hi) as (e & He & [Hk|?]); [|congruence]. rewrite (kp_path _ _ Hk) in *. apply IH.
  eapply Hn; [done|exact He| | |done]; [by rewrite <-(kp_valid _ _ Hk)|by rewrite <-(keeps_holds _ _ Hk)].
Qed.

(** What an unmount function does to a cache where it can end. *)
Definition impl_runs (fuel : nat) (impl : string -> Z -> attach_backend_t -> M unmount_result_t) : Prop :=
  forall path unit b c, unique_paths c -> nested fuel c path ->
    runs (impl path unit b) c (fun r c' => shrinks c c' /\ (unmount_completed r = true -> names_device unit b -> settled path c')).

Lemma unmount_slot_runs fuel impl index e c : impl_runs fuel impl -> unique_paths c -> nested fuel c (ic_path e) ->
  images c !! index = Some e -> ic_valid e = true -> holds_device e = true -> (index < MAX_IMAGE_MOUNTS)%nat ->
  runs (unmount_slot sys impl index e) c (fun r c' => shrinks c c' /\ (r = true -> ~ lives index c')).
Proof.
  intros Himpl Hu Hn Hi Hv Hd Hlt. unfold unmount_slot. eapply device_runs_bind; [by apply Himpl|]. intros r c1 [Hs Hc].
  destruct (unmount_completed r); [|apply device_runs_ret; by split]. specialize (Hc eq_refl (holds_device_names e Hd)).
  eapply device_runs_bind; [by eapply invalidate_runs|]. intros x c2 [Hs2 Hl]. apply device_runs_ret. split; [by etransitivity|]. intros _. by apply Hl.
Qed.

(** A loop over the slots with an invariant that each turn keeps. *)
Lemma for_slots_runs {A} (I : nat -> A -> image_cache -> Prop) (turn : nat -> A -> M A) n first acc c :
  (forall k a c', (k < first + n)%nat -> I k a c' -> runs (turn k a) c' (I (S k))) ->
  I first acc c -> runs (for_slots n first turn acc) c (I (first + n)%nat).
Proof.
  revert first acc c. induction n as [|n IH]; intros first acc c Ht HI; cbn [for_slots].
  - apply device_runs_ret. by rewrite Nat.add_0_r.
  - eapply device_runs_bind; [apply Ht; [lia|done]|]. intros a c' HI'. rewrite <-Nat.add_succ_comm. apply IH; [|done]. intros k b c2 Hk. apply Ht. lia.
Qed.

Lemma child_turn_runs fuel impl path index all c : impl_runs fuel impl -> unique_paths c -> nested (S fuel) c path ->
  detect_image_fs_type_for_path path "" = IMAGE_FS_PFSC_CONTAINER ->
  runs (child_turn sys impl (build_image_mount_point MNAMELEN path) index all) c (fun _ c' => shrinks c c').
Proof.
  intros Himpl Hu Hn Ht. unfold child_turn.
  eapply device_runs_bind; [by apply (runs_cache_use _ _ _ (fun r c' => c' = c /\ r = get_image_cache_entry c (Z.of_nat index)))|].
  intros [e|] c1 [-> He]; [|apply device_runs_ret, shrinks_refl]. symmetry in He. apply get_entry_Some in He as (Hlt & Hi & Hv).
  destruct (path_matches_root_or_child _ _) eqn:Hp; cbn [negb]; [|apply device_runs_ret, shrinks_refl]. case_bool_decide.
  { apply still_then; [apply still_errno|]. intros _. apply device_runs_ret, shrinks_refl. }
  destruct (holds_device e) eqn:Hd; cbn [negb]; [|apply device_runs_ret, shrinks_refl].
  eapply device_runs_bind; [apply Himpl; [done|by eapply Hn]|]. intros r c1 [Hs Hc]. destruct (unmount_completed r).
  - eapply device_runs_bind; [by eapply invalidate_runs|]. intros x c2 [Hs2 _]. apply device_runs_ret. by etransitivity.
  - apply still_then; [destruct (ur_error r); eauto with still|]. intros _. by apply device_runs_ret.
Qed.

Lemma unmount_image_impl_runs fuel cleanup expected : impl_runs fuel (unmount_image_impl sys MNAMELEN fuel cleanup expected).
Proof.
  revert expected. induction fuel as [|fuel IH]; intros expected path unit b c Hu Hn; [done|]. cbn [unmount_image_impl].
  assert (Hfail : forall e c', shrinks c c' -> runs (let* _ := set_errno (Some e) in ret (failed_with e)) c'
    (fun r c2 => shrinks c c2 /\ (unmount_completed r = true -> names_device unit b -> settled path c2))).
  { intros e c' Hs. apply still_then; [apply still_errno|]. intros _. apply device_runs_ret. by split. }
  apply still_then; [apply still_ask|]. intros []; [apply Hfail, shrinks_refl|].
  eapply (device_runs_bind _ _ _ (fun r c' => c' = c /\ (names_device unit b -> r = (b, unit)))).
  { unfold device_to_release. destruct (_ || _) eqn:Hd.
    - apply still_then; [apply still_resolve|]. intros r. apply device_runs_ret. split; [done|]. intros [H1 H2].
      apply orb_true_iff in Hd as [Hd|Hd]; [lia|]. by apply bool_decide_eq_true in Hd.
    - by apply device_runs_ret. }
  intros [b' unit'] c1 [-> Hdev]. eapply device_runs_bind; [apply reserve_runs|]. intros [gen|result] c1 [H1 Hr].
  2:{ apply device_runs_ret. split; [done|]. by rewrite (Hr result eq_refl). }
  eapply (device_runs_bind _ _ _ (fun _ c' => shrinks c c')).
  { case_bool_decide as Ht; [|by apply device_runs_ret]. unfold unmount_child_image_mounts_for_container.
    apply (for_slots_runs (fun _ _ c' => shrinks c c')); [|done]. intros k a c' _ Hs. eapply runs_weaken.
    - apply (child_turn_runs fuel); [apply IH|by eapply shrinks_unique|by eapply shrinks_nested|done].
    - intros x c2 H2. by etransitivity. }
  intros children c2 H2. destruct children; cbn [negb].
  - eapply runs_weaken; [by apply release_image_runs; eapply shrinks_unique|]. intros r c3 [H3 Hc]. split; [by etransitivity|].
    intros Hcr Hn'. injection (Hdev Hn') as -> ->. by apply Hc.
  - apply still_then; [apply still_look|]. intros code. by apply Hfail.
Qed.

(** ** Shutdown *)
Context (fuel : nat).

(** A slot without a device. *)
Definition clean (index : nat) (c : image_cache) : Prop :=
  forall e, images c !! index = Some e -> ic_valid e = true -> holds_device e = false.

Lemma shrinks_clean index c c' : shrinks c c' -> clean index c -> clean index c'.
Proof.
  intros [_ Hs] Hc e' Hi Hv. destruct (Hs index e' Hi) as (e & He & [Hk|?]); [|congruence]. rewrite (keeps_holds _ _ Hk).
  apply (Hc e He). by rewrite <-(kp_valid _ _ Hk).
Qed.

Lemma not_lives_clean index c : ~ lives index c -> clean index c.
Proof. intros Hl e Hi Hv. destruct Hl. by exists e. Qed.

(** Every image of the cache can be unmounted within the fuel. *)
Definition all_nested (c : image_cache) : Prop :=
  forall i e, images c !! i = Some e -> ic_valid e = true -> holds_device e = true -> nested fuel c (ic_path e).

Lemma shrinks_all_nested c c' : shrinks c c' -> all_nested c -> all_nested c'.
Proof.
  intros Hs Ha i e' Hi Hv Hd. eapply shrinks_nested; [done|]. destruct Hs as [_ Hs].
  destruct (Hs i e' Hi) as (e & He & [Hk|?]); [|congruence]. rewrite (kp_path _ _ Hk).
  apply (Ha i e He); [by rewrite <-(kp_valid _ _ Hk)|by rewrite <-(keeps_holds _ _ Hk)].
Qed.

(** The pass has reached slot [k]. *)
Definition pass_at (c0 : image_cache) (k : nat) (s : bool * bool) (c : image_cache) : Prop :=
  shrinks c0 c /\ (s.1 = false -> forall j, (j < k)%nat -> clean j c).

Lemma shutdown_turn_runs c0 k s c : unique_paths c0 -> all_nested c0 -> (k < MAX_IMAGE_MOUNTS)%nat -> pass_at c0 k s c ->
  runs (shutdown_turn sys MNAMELEN fuel k s) c (pass_at c0 (S k)).
Proof.
  intros Hu Ha Hk [Hs Hc].
  assert (Hnext : clean k c -> pass_at c0 (S k) s c).
  { intros Hcl. split; [done|]. intros H j Hj. destruct (decide (j = k)) as [->|]; [done|]. apply Hc; [done|lia]. }
  unfold shutdown_turn. eapply device_runs_bind; [by apply (runs_cache_use _ _ _ (fun r c' => c' = c /\ r = get_image_cache_entry c (Z.of_nat k)))|].
  intros [e|] c1 [-> He]; symmetry in He.
  - apply get_entry_Some in He as (_ & Hi & Hv). destruct (holds_device e) eqn:Hd; cbn [negb].
    + eapply device_runs_bind; [eapply (unmount_slot_runs fuel); try done|].
      * apply unmount_image_impl_runs.
      * by eapply shrinks_unique.
      * by apply (shrinks_all_nested c0 c Hs Ha k e).
      * intros completed c1 [Hs1 Hl]. apply device_runs_ret. destruct completed; (split; [by etransitivity|]); cbn [fst]; [|done].
        intros H j Hj. destruct (decide (j = k)) as [->|]; [by apply not_lives_clean, Hl|]. eapply shrinks_clean; [exact Hs1|]. apply Hc; [done|lia].
    + apply device_runs_ret, Hnext. intros x Hx _. rewrite Hi in Hx. by injection Hx as <-.
  - apply device_runs_ret, Hnext. by apply not_lives_clean, get_entry_None.
Qed.

Lemma shutdown_runs c : unique_paths c -> all_nested c ->
  runs (shutdown_image_mounts sys MNAMELEN fuel) c (fun ok c' =>
    shrinks c c' /\ (ok = true -> forall j, (j < MAX_IMAGE_MOUNTS)%nat -> clean j c')).
Proof.
  unfold shutdown_image_mounts. intros Hu Ha. generalize MAX_LAYERED_UNMOUNT_ATTEMPTS as n. intros n.
  assert (Hgo : forall c1, shrinks c c1 -> runs (shutdown_passes sys MNAMELEN fuel n) c1 (fun ok c' =>
    shrinks c c' /\ (ok = true -> forall j, (j < MAX_IMAGE_MOUNTS)%nat -> clean j c'))); [|by apply Hgo].
  induction n as [|n IH]; intros c1 H1; cbn [shutdown_passes]; [by apply device_runs_ret|].
  eapply device_runs_bind.
  { apply (for_slots_runs (pass_at c1)).
    - intros k s c2 Hk. apply shutdown_turn_runs; [by eapply shrinks_unique|by eapply shrinks_all_nested|done].
    - split; [done|]. intros _ j Hj. lia. }
  intros [remaining progress] c2 [H2 Hc]. assert (H12 : shrinks c c2) by (by etransitivity).
  destruct remaining; cbn [negb]; [|apply device_runs_ret; split; [done|]; intros _ j Hj; by apply Hc].
  destruct progress; cbn [negb]; [by apply IH|]. by apply device_runs_ret.
Qed.
End alone.

(** ** Claims *)

(** Claim C9: Shutting down when no other thread uses the image cache: from any
    consistent cache whose containers nest within the fuel the function returns, whatever
    the kernel answers and however each image resists; it adds no record; and when it returns
    true no record with a device is left (with [image_dropped_only_when_released]: every
    device the cache held was released). *)
Theorem shutdown_leaves_no_device sys MNAMELEN fuel w :
  (forall n c, sys_others sys n c = c) -> cache_inv (w_cache w) -> all_nested MNAMELEN fuel (w_cache w) ->
  exists ok w', shutdown_image_mounts sys MNAMELEN fuel w = Some (ok, w') /\
    shrinks (w_cache w) (w_cache w') /\
    (ok = true -> forall i e, images (w_cache w') !! i = Some e -> ic_valid e = true -> holds_device e = false).
Proof.
  intros Halone Hinv Ha. pose proof (cache_inv_unique _ Hinv) as Hu.
  destruct (shutdown_runs sys MNAMELEN Halone fuel (w_cache w) Hu Ha w eq_refl) as (ok & w' & He & Hs & Hc).
  exists ok, w'. split; [done|]. split; [done|]. intros Hok i e Hi Hv. apply (Hc Hok i); [|done|done].
  apply lookup_lt_Some in Hi. destruct Hs as [Hl _]. rewrite Hl in Hi. by rewrite (ci_len _ Hinv) in Hi.
Qed.

(** ** Witness *)

(** [nested] by computation. *)
Section nested.
Context (MNAMELEN : nat).

Fixpoint nestedb (fuel : nat) (c : image_cache) (path : string) : bool :=
  match fuel with
  | O => false
  | S fuel' =>
      if decide (detect_image_fs_type_for_path path "" = IMAGE_FS_PFSC_CONTAINER) then
        let mount_point := build_image_mount_point MNAMELEN path in
        forallb (fun e => if ic_valid e && holds_device e && path_matches_root_or_child (ic_path e) mount_point
                          then nestedb fuel' c (ic_path e) else true) (images c)
      else true
  end.

Lemma nestedb_nested fuel c path : nestedb fuel c path = true -> nested MNAMELEN fuel c path.
Proof.
  revert path. induction fuel as [|fuel IH]; intros path; [done|]. cbn [nestedb nested]. intros Hb Ht i e Hi Hv Hd Hp.
  rewrite decide_True in Hb by done. cbv zeta in Hb. rewrite forallb_forall in Hb.
  specialize (Hb e). rewrite Hv, Hd, Hp in Hb. apply IH, Hb, list_elem_of_In. by eapply list_elem_of_lookup_2.
Qed.

Definition all_nestedb (fuel : nat) (c : image_cache) : bool :=
  forallb (fun e => if ic_valid e && holds_device e then nestedb fuel c (ic_path e) else true) (images c).

Lemma all_nestedb_nested fuel c : all_nestedb fuel c = true -> all_nested MNAMELEN fuel c.
Proof.
  unfold all_nestedb. rewrite forallb_forall. intros Hb i e Hi Hv Hd. apply nestedb_nested. specialize (Hb e). rewrite Hv, Hd in Hb.
  apply Hb, list_elem_of_In. by eapply list_elem_of_lookup_2.
Qed.
End nested.

(** A container, and the image inside its mount. *)
Definition outer_path : string := "/data/games/big.ffpfsc".
Definition inner_path : string := String.append (build_image_mount_point 1024 outer_path) "/pfs_image.dat".

Definition demo_node (_ : string) : option node_id := Some demo_id.

Definition mounted_cache : image_cache :=
  run_image_ops [(demo_node, IMount outer_path (build_image_mount_point 1024 outer_path) 3 ATTACH_BACKEND_LVD);
                 (demo_node, IMount inner_path (build_image_mount_point 1024 inner_path) 4 ATTACH_BACKEND_LVD)] empty_cache.

Definition shutdown_sys : system :=
  demo_system (fun n _ => if (n <? 100)%nat then inl demo_id else inr ENOENT) (fun _ => inl []) (fun _ _ => inr ENOENT) 3.

Lemma shutdown_leaves_no_device_witness :
  let r := shutdown_image_mounts shutdown_sys 1024 2 (demo_world mounted_cache) in
  length (filter (fun e => holds_device e = true) (images mounted_cache)) = 2%nat /\ (fst <$> r) = Some true /\
  exists ok w', r = Some (ok, w') /\ shrinks mounted_cache (w_cache w') /\
    (ok = true -> forall i e, images (w_cache w') !! i = Some e -> ic_valid e = true -> holds_device e = false).
Proof.
  intros r. split; [vm_compute; reflexivity|]. split; [vm_compute; reflexivity|].
  apply (shutdown_leaves_no_device shutdown_sys 1024 2 (demo_world mounted_cache)).
  - done.
  - apply run_ops_inv; [apply empty_cache_inv|vm_compute; discriminate].
  - apply all_nestedb_nested. vm_compute. reflexivity.
Defined.
