(* ===== verification/Effects.v ===== *)
(** * Programs with effects

    A state and fuel monad for code that changes its state between questions to the
    system, and its weakest preconditions.  [None] is a loop that did not end within its
    fuel; [wp] speaks about the runs that end, [runs] says that a run ends. *)
From S2P Require Import Prelude.
Open Scope Z_scope.
Open Scope c_scope.

Definition prog (W A : Type) : Type := W -> option (A * W).

Definition ret {W A} (x : A) : prog W A := fun w => Some (x, w).
Definition bind {W A B} (m : prog W A) (k : A -> prog W B) : prog W B :=
  fun w => match m w with Some (x, w') => k x w' | None => None end.
Definition stuck {W A} : prog W A := fun _ => None.
Definition look {W A} (f : W -> A) : prog W A := fun w => Some (f w, w).
Definition change {W} (f : W -> W) : prog W () := fun w => Some (tt, f w).

Notation "'let*' x := m 'in' k" := (bind m (fun x => k)) (at level 10, x pattern, m at level 100, k at level 200) : c_scope.

(** [if (b) m;] *)
Definition when {W} (b : bool) (m : prog W ()) : prog W () := if b then m else ret tt.

(** ** Weakest preconditions

    A run that exceeds its fuel satisfies [exhausted]: [True] where only the runs that end
    matter, [False] where the run has to end. *)
Class Fuel := exhausted : Prop.

Definition wp {F : Fuel} {W A} (m : prog W A) (Q : A -> W -> Prop) (w : W) : Prop :=
  match m w with Some (a, w') => Q a w' | None => exhausted end.

Definition partly : Fuel := True.
Definition wholly : Fuel := False.

#[global] Arguments wp : simpl never.
#[global] Arguments bind : simpl never.
#[global] Arguments ret : simpl never.

Section rules.
Context {F : Fuel} {W : Type}.

Lemma wp_ret {A} (x : A) (Q : A -> W -> Prop) w : Q x w -> wp (ret x) Q w.
Proof. exact (fun H => H). Qed.

Lemma wp_bind {A B} (m : prog W A) (k : A -> prog W B) Q w :
  wp m (fun a w' => wp (k a) Q w') w -> wp (bind m k) Q w.
Proof. unfold wp, bind. destruct (m w) as [[a w']|]; done. Qed.

Lemma wp_look {A} (f : W -> A) (Q : A -> W -> Prop) w : Q (f w) w -> wp (look f) Q w.
Proof. exact (fun H => H). Qed.

Lemma wp_change f (Q : () -> W -> Prop) w : Q tt (f w) -> wp (change f) Q w.
Proof. exact (fun H => H). Qed.

Lemma wp_when b (m : prog W ()) Q w : (b = true -> wp m Q w) -> (b = false -> Q tt w) -> wp (when b m) Q w.
Proof. intros Ht Hf. destruct b; [by apply Ht|]. apply wp_ret. by apply Hf. Qed.

Lemma wp_mono {A} (m : prog W A) (Q R : A -> W -> Prop) w :
  wp m Q w -> (forall a w', Q a w' -> R a w') -> wp m R w.
Proof. unfold wp. destruct (m w) as [[a w']|]; auto. Qed.

Lemma wp_stuck {A} (Q : A -> W -> Prop) w : exhausted -> wp stuck Q w.
Proof. exact (fun H => H). Qed.

(** What is known of a run that ended. *)
Lemma wp_result {A} (m : prog W A) (Q : A -> W -> Prop) w a w' : wp m Q w -> m w = Some (a, w') -> Q a w'.
Proof. unfold wp. intros H E. by rewrite E in H. Qed.
End rules.

(** The run ends. *)
Lemma wp_ends {W A} (m : prog W A) (Q : A -> W -> Prop) w :
  wp (F := wholly) m Q w -> exists a w', m w = Some (a, w') /\ Q a w'.
Proof. unfold wp. destruct (m w) as [[a w']|]; [|done]. by exists a, w'. Qed.
