(* ===== verification/GameLifecycle.v ===== *)
(** * The life cycle of games (src/sm_game_lifecycle.c)

    The watcher thread: which process is the running game, the window after its exit in
    which a replacement process of the same application takes over, launches whose title
    is not known yet, and the atomically published state other threads read.

    Every call that leaves the file is a question to the system, answered by the
    functions of the record [system] at the number of the question; before each of them
    the flag monitor may publish application focus.  The trace holds the calls and, as
    [EvShared], every value the published atomics take; newest first. *)
From S2P Require Import Prelude CString GameInfo Effects.
From stdpp Require Import list.
Open Scope Z_scope.
Open Scope c_scope.

(** ** Limits (include/sm_limits.h) *)
Definition MAX_PENDING_GAME_EXEC_CANDIDATES : nat := 32.
Definition GAME_LIFECYCLE_POLL_INTERVAL_US : Z := 250000.
Definition GAME_APPINFO_LOOKUP_TIMEOUT_US : Z := 1000000.
Definition GAME_PROCESS_HANDOFF_GRACE_US : Z := 1000000.
Definition GAME_PROCESS_HANDOFF_FALLBACK_POLL_US : Z := 5000000.
Definition GAME_EXIT_SANDBOX_LINGER_US : Z := 10000000.
Definition GAME_RUNTIME_PREPARE_TIMEOUT_US : Z := GAME_EXIT_SANDBOX_LINGER_US + GAME_PROCESS_HANDOFF_GRACE_US.
Definition GAME_SLEEP_EXIT_TIMEOUT_US : Z := 5000000.

Definition GAME_BACKGROUND_IDLE : Z := 0.
Definition GAME_BACKGROUND_BLOCKED : Z := 1.
Definition GAME_BACKGROUND_TITLE_BASE : Z := 2.
Definition GAME_BACKGROUND_TITLE_RANGE : Z := 100000.
Definition GAME_BACKGROUND_TITLE_BLOCKED : Z := 2 ^ 63.
Definition GAME_APP_FOCUS_KNOWN : Z := 2 ^ 32.
Definition GAME_APP_FOCUS_PENDING : Z := 2 ^ 33.

(** ** State *)
Record pending_game_launch_t := PendingLaunch {
  pl_active : bool; pl_pid : Z; exec_time_us : Z; deadline_us : Z;
}.

Record pending_game_exit_t := PendingExit {
  pe_active : bool; pe_pid : Z; pe_app_id : Z; exit_time_us : Z; pe_title : string;
}.

Definition zero_launch : pending_game_launch_t := PendingLaunch false 0 0 0.
Definition zero_exit : pending_game_exit_t := PendingExit false 0 0 0 "".

Inductive game_handoff_result_t := GAME_HANDOFF_NONE | GAME_HANDOFF_COMPLETE | GAME_HANDOFF_DEFERRED.

Inductive error := ESRCH | EINTR | EAGAIN | EOTHER.

#[export] Instance error_eq_dec : EqDecision error.
Proof. solve_decision. Defined.

(** What [kevent] delivers. *)
Inductive kernel_event :=
  | KWake
  | KProc (pid : Z) (track_error exec exit : bool)
  | KOther.

Inductive event :=
  (** A store to one of the atomics other threads read: the values of all three. *)
  | EvShared (pid : Z) (handoff : bool) (background : Z)
  (** The owner recorded by [publish_active_game]. *)
  | EvOwner (pid : Z) (title : string) (app : Z)
  | EvWatch (pid : Z) (ok : bool)
  | EvBind (title : string) (app pid : Z) (ok : bool)
  | EvEnsure (title : string) (ok : bool)
  | EvExitQueued (pid : Z) (title : string)
  (** [finalize_pending_game_exit] began, and its cleanup is complete. *)
  | EvResolved (pid : Z)
  | EvCleaned
  | EvHandoff (old new : Z)
  | EvScannerWake
  | EvWakeThread
  | EvMdbgExec (pid : Z) (title : string) (time : Z)
  | EvMdbgExit (pid : Z)
  | EvMdbgPoll (allowed : bool)
  | EvNoteExit (pid time : Z) (owned : option string)
  | EvBackportExec (pid : Z) (title : string)
  | EvBackportExit (pid : Z)
  | EvFakelibExec (pid : Z) (title : string) (fresh : bool)
  | EvFakelibExit (pid : Z)
  | EvLaunchFailed (title : string)
  | EvNormalize (title : string)
  | EvFan (title : string)
  | EvKill (pid : Z) (answer : option error)
  | EvUnmountUsb
  (** The watcher ended and the modules dropped their games. *)
  | EvShutdown
  | EvAsk.

Record system := System {
  sys_time : nat -> Z;
  sys_app_info : nat -> Z -> option (string * Z);
  (** [kill(pid, 0)], [kill(pid, SIGKILL)]: the error, if any. *)
  sys_signal : nat -> Z -> option error;
  sys_kill : nat -> Z -> option error;
  sys_watch : nat -> Z -> option error;
  sys_prepared : nat -> string -> bool;
  sys_data_mounted : nat -> string -> bool;
  sys_ensure : nat -> string -> bool;
  sys_bind : nat -> string -> Z -> Z -> bool;
  sys_sandbox_exists : nat -> string -> bool;
  sys_note_exit : nat -> Z -> Z -> option string;
  sys_mount_link : nat -> string -> option string;
  sys_image_link : nat -> string -> option string;
  sys_release_status : nat -> option error;
  sys_has_prepared_mount : nat -> bool;
  sys_usb_suspend : nat -> bool -> bool;
  sys_watches_suspended : nat -> bool;
  sys_sleeping : nat -> bool;
  sys_stopping : nat -> bool;
  sys_kevent : nat -> option kernel_event + error;
  sys_kevents : nat -> list kernel_event + error;
  sys_select : nat -> option error;
  sys_next_wakes : nat -> list Z;
  sys_pipe : nat -> bool;
  sys_thread_starts : nat -> bool;
  (** Focus published by the flag monitor before a question. *)
  sys_focus : nat -> list Z;
}.

(** The variables of the file. *)
Record life := Life {
  active_game_pid : Z;
  game_exit_handoff_pending : bool;
  background_game_state : Z;
  active_game_app_id : Z;
  pending_game_exit : pending_game_exit_t;
  app_focus_state : Z;
  active_game_title_id : string;
  pending_game_launches : list pending_game_launch_t;
  thread_started : bool;
}.

Record world := World { w_life : life; w_clock : nat; w_trace : list event }.

Definition initial_life : life :=
  Life 0 false GAME_BACKGROUND_IDLE 0 zero_exit 0 "" (replicate MAX_PENDING_GAME_EXEC_CANDIDATES zero_launch) false.

Definition initial_world : world := World initial_life 0 [].

Abbreviation M := (prog world).

Definition get {A} (f : life -> A) : M A := look (fun w => f (w_life w)).
Definition emit (e : event) : M () := change (fun w => World (w_life w) (w_clock w) (e :: w_trace w)).
Definition put (f : life -> life) : M () := change (fun w => World (f (w_life w)) (w_clock w) (w_trace w)).

(** A store to a published atomic. *)
Definition store (f : life -> life) : M () := change (fun w =>
  let v := f (w_life w) in
  World v (w_clock w) (EvShared (active_game_pid v) (game_exit_handoff_pending v) (background_game_state v) :: w_trace w)).

Definition with_pid x (v : life) := Life x (game_exit_handoff_pending v) (background_game_state v) (active_game_app_id v)
  (pending_game_exit v) (app_focus_state v) (active_game_title_id v) (pending_game_launches v) (thread_started v).
Definition with_handoff x (v : life) := Life (active_game_pid v) x (background_game_state v) (active_game_app_id v)
  (pending_game_exit v) (app_focus_state v) (active_game_title_id v) (pending_game_launches v) (thread_started v).
Definition with_background x (v : life) := Life (active_game_pid v) (game_exit_handoff_pending v) x (active_game_app_id v)
  (pending_game_exit v) (app_focus_state v) (active_game_title_id v) (pending_game_launches v) (thread_started v).
Definition with_exit x (v : life) := Life (active_game_pid v) (game_exit_handoff_pending v) (background_game_state v)
  (active_game_app_id v) x (app_focus_state v) (active_game_title_id v) (pending_game_launches v) (thread_started v).
Definition with_focus x (v : life) := Life (active_game_pid v) (game_exit_handoff_pending v) (background_game_state v)
  (active_game_app_id v) (pending_game_exit v) x (active_game_title_id v) (pending_game_launches v) (thread_started v).
Definition with_owner title app (v : life) := Life (active_game_pid v) (game_exit_handoff_pending v) (background_game_state v)
  app (pending_game_exit v) (app_focus_state v) title (pending_game_launches v) (thread_started v).
Definition with_launches x (v : life) := Life (active_game_pid v) (game_exit_handoff_pending v) (background_game_state v)
  (active_game_app_id v) (pending_game_exit v) (app_focus_state v) (active_game_title_id v) x (thread_started v).
Definition with_started x (v : life) := Life (active_game_pid v) (game_exit_handoff_pending v) (background_game_state v)
  (active_game_app_id v) (pending_game_exit v) (app_focus_state v) (active_game_title_id v) (pending_game_launches v) x.

(** ** What other threads call *)

(** The focus word after a publication, and whether the watcher is woken. *)
Definition focus_after (focus previous : Z) : Z * bool :=
  if Z.ldiff previous GAME_APP_FOCUS_PENDING =? focus then (previous, false)
  else (Z.lor focus GAME_APP_FOCUS_PENDING, true).

Definition publish_app_focus (focus : Z) : M () :=
  let* previous := get app_focus_state in
  let '(v, woken) := focus_after focus previous in
  let* _ := put (with_focus v) in
  when woken (emit EvWakeThread).

Definition sm_game_lifecycle_note_app_focus (app_id : Z) : M () := publish_app_focus (Z.lor GAME_APP_FOCUS_KNOWN app_id).
Definition sm_game_lifecycle_invalidate_app_focus : M () := publish_app_focus 0.

Definition focus_published (l : list Z) (v : life) : life :=
  with_focus (fold_left (fun s f => (focus_after f s).1) l (app_focus_state v)) v.

(** Two loads, the process first. *)
Definition has_active_game_loads (pid : Z) (handoff : bool) : bool := (0 <? pid) || handoff.

Definition sm_game_lifecycle_has_active_game : M bool :=
  get (fun v => has_active_game_loads (active_game_pid v) (game_exit_handoff_pending v)).

(** [n] letters of base 26, the last one first. *)
Fixpoint base26 (n : nat) (prefix : Z) (tail : string) : string :=
  match n with
  | O => tail
  | S n' => base26 n' (prefix / 26) (String (Ascii.ascii_of_N (Z.to_N (65 + prefix mod 26))) tail)
  end.

(** [snprintf("%05u")] of a number below 100000. *)
Fixpoint decimals (n : nat) (number : Z) (tail : string) : string :=
  match n with
  | O => tail
  | S n' => decimals n' (number / 10) (String (Ascii.ascii_of_N (Z.to_N (48 + number mod 10))) tail)
  end.

(** The answer and the title written to the buffer. *)
Definition background_title (state : Z) : bool * string :=
  let allowed := negb (state =? GAME_BACKGROUND_BLOCKED) && (Z.land state GAME_BACKGROUND_TITLE_BLOCKED =? 0) in
  if (state =? GAME_BACKGROUND_BLOCKED) || (state =? GAME_BACKGROUND_IDLE) then (allowed, ""%string)
  else
    let identity := u64 (Z.ldiff state GAME_BACKGROUND_TITLE_BLOCKED - GAME_BACKGROUND_TITLE_BASE) in
    (allowed, base26 4 (identity / GAME_BACKGROUND_TITLE_RANGE) (decimals 5 (identity mod GAME_BACKGROUND_TITLE_RANGE) "")).

Definition sm_game_lifecycle_background_title : M (bool * string) := get (fun v => background_title (background_game_state v)).

(** ** Publication *)
Definition published_game_active (pid : Z) (handoff_pending : bool) : bool := (0 <? pid) || handoff_pending.

Definition char_code (s : string) (i : nat) : Z := match char_at s i with Some a => ascii_byte a | None => 0 end.

Definition title_state (title : string) : Z :=
  let prefix := fold_left (fun p i => u64 (u64 (p * 26) + u64 (char_code title i - 65))) (seq 0 4) 0 in
  let number := fold_left (fun n i => u32 (u32 (n * 10) + u32 (char_code title i - 48))) (seq 4 5) 0 in
  u64 (GAME_BACKGROUND_TITLE_BASE + prefix * GAME_BACKGROUND_TITLE_RANGE + number).

Definition background_of (pid : Z) (pending : bool) (title : string) : Z :=
  if (0 <? pid) && is_supported_game_title_id title
  then if pending then Z.lor (title_state title) GAME_BACKGROUND_TITLE_BLOCKED else title_state title
  else if published_game_active pid pending then GAME_BACKGROUND_BLOCKED else GAME_BACKGROUND_IDLE.

Definition state_blocked (state : Z) : bool :=
  (state =? GAME_BACKGROUND_BLOCKED) || negb (Z.land state GAME_BACKGROUND_TITLE_BLOCKED =? 0).

Definition publish_background_game_state (was_active : bool) : M () :=
  let* pid := get active_game_pid in
  let* pending := get game_exit_handoff_pending in
  let* title := get active_game_title_id in
  let* previous := get background_game_state in
  let active := published_game_active pid pending in
  let state := background_of pid pending title in
  let* _ := store (with_background state) in
  let blocked := state_blocked state in
  when (negb (Bool.eqb was_active active) || negb (Bool.eqb (state_blocked previous) blocked) ||
        (negb blocked && negb (previous =? state)))
    (emit EvScannerWake).

Definition publish_active_game_pid (pid : Z) : M () :=
  let* previous_pid := get active_game_pid in
  let* _ := store (with_pid pid) in
  let* handoff_pending := get game_exit_handoff_pending in
  publish_background_game_state (published_game_active previous_pid handoff_pending).

Definition publish_game_exit_handoff_pending (pending : bool) : M () :=
  let* previous_pending := get game_exit_handoff_pending in
  let* _ := store (with_handoff pending) in
  let* active_pid := get active_game_pid in
  publish_background_game_state (published_game_active active_pid previous_pending).

Definition publish_active_game (pid : Z) (title_id : string) (app_id : Z) : M () :=
  let named := (0 <? pid) && negb (strcmp_eq title_id "") in
  let* _ := put (if named then with_owner (strlcpy title_id MAX_TITLE_ID) app_id else with_owner "" 0) in
  let* _ := when named (emit (EvOwner pid (strlcpy title_id MAX_TITLE_ID) app_id)) in
  publish_active_game_pid pid.

(** The title and the application of the process, no longer the owner's. *)
Definition consume_active_game (pid : Z) : M (option (string * Z)) :=
  let* v := get id in
  if (pid <=? 0) || negb (active_game_pid v =? pid) || strcmp_eq (active_game_title_id v) "" then ret None
  else
    let* _ := put (with_owner "" 0) in
    ret (Some (strlcpy (active_game_title_id v) MAX_TITLE_ID, active_game_app_id v)).

Definition snapshot_active_game (pid : Z) : M (option string) :=
  let* v := get id in
  ret (if (pid <=? 0) || negb (active_game_pid v =? pid) || strcmp_eq (active_game_title_id v) "" then None
       else Some (strlcpy (active_game_title_id v) MAX_TITLE_ID)).

Definition min_nonzero_u64 (a b : Z) : Z := if a =? 0 then b else if b =? 0 then a else if a <? b then a else b.

Section watcher.
Context (sys : system).

(** A question: the flag monitor runs, then the system answers. *)
Definition ask {A} (f : nat -> A) (ev : A -> event) : M A := fun w =>
  let a := f (w_clock w) in
  Some (a, World (focus_published (sys_focus sys (w_clock w)) (w_life w)) (S (w_clock w)) (ev a :: w_trace w)).

Definition quiet {A} : A -> event := fun _ => EvAsk.
Definition tell (ev : event) : M () := ask (fun _ => tt) (fun _ => ev).

Definition monotonic_time_us : M Z := ask (sys_time sys) quiet.

Definition handle_pending_app_focus : M () :=
  let* _ := tell EvAsk in
  let* focus := get app_focus_state in
  let* _ := put (with_focus (Z.ldiff focus GAME_APP_FOCUS_PENDING)) in
  if Z.land focus GAME_APP_FOCUS_PENDING =? 0 then ret tt
  else
    let* v := get id in
    if (active_game_pid v <=? 0) || (active_game_app_id v =? 0) || strcmp_eq (active_game_title_id v) "" then
      let* _ := tell EvAsk in
      let* now := get app_focus_state in
      put (with_focus (Z.lor now GAME_APP_FOCUS_PENDING))
    else
      let* active := sm_game_lifecycle_has_active_game in
      let* _ := publish_background_game_state active in
      if (Z.land focus GAME_APP_FOCUS_KNOWN =? 0) || negb (u32 focus =? active_game_app_id v) then ret tt
      else tell (EvFan (active_game_title_id v)).

Definition title_is_usb_backed (title_id source_path : string) (has_mount_link : bool) : M bool :=
  let* image_path := ask (fun n => sys_image_link sys n title_id) quiet in
  ret (match image_path with
       | Some p => is_usb_storage_path p || (has_mount_link && is_usb_storage_path source_path)
       | None => has_mount_link && is_usb_storage_path source_path
       end).

(** [strnlen] of the field; a title that fills it is accepted by the length test. *)
Definition resolve_game_title_id (pid : Z) : M (option (string * Z)) :=
  let* appinfo := ask (fun n => sys_app_info sys n pid) quiet in
  ret (match appinfo with
       | None => None
       | Some (title, app_id) =>
           if (strlen title =? 0)%nat || (MAX_TITLE_ID <=? strlen title)%nat then None else Some (title, app_id)
       end).

Definition is_process_alive (pid : Z) : M bool :=
  let* answer := ask (fun n => sys_signal sys n pid) quiet in
  ret (negb (bool_decide (answer = Some ESRCH))).

(** ** Exits and handoff *)
Definition clear_pending_game_exit : M () :=
  let* _ := put (with_exit zero_exit) in
  publish_game_exit_handoff_pending false.

Definition queue_pending_game_exit (pid : Z) (title_id : string) (app_id : Z) : M () :=
  let* now := monotonic_time_us in
  let* _ := put (with_exit (PendingExit true pid app_id now (strlcpy title_id MAX_TITLE_ID))) in
  let* _ := emit (EvExitQueued pid title_id) in
  publish_game_exit_handoff_pending true.

Definition same_application_identity (title_id : string) (app_id : Z) (other_title_id : string) (other_app_id : Z) : bool :=
  strcmp_eq title_id other_title_id && ((app_id =? 0) || (other_app_id =? 0) || (app_id =? other_app_id)).

(** The process replaced, its application and whether it is the pending exit; or that
    the replacement must wait. *)
Definition handoff_source (pid : Z) (title_id : string) (app_id : Z) : M (option (Z * Z * bool)) :=
  let* v := get id in
  let e := pending_game_exit v in
  if pe_active e && same_application_identity title_id app_id (pe_title e) (pe_app_id e) then ret (Some (pe_pid e, pe_app_id e, true))
  else if (0 <? active_game_pid v) && negb (active_game_pid v =? pid) &&
          same_application_identity title_id app_id (active_game_title_id v) (active_game_app_id v) then
    let* waits := (if (app_id =? 0) || (active_game_app_id v =? 0) then is_process_alive (active_game_pid v) else ret false) in
    ret (if waits : bool then None else Some (active_game_pid v, active_game_app_id v, false))
  else ret (Some (0, 0, false)).

(** [(!prepared || !mounted) && !ensure]: the runtime is not there. *)
Definition runtime_missing (known : bool) (title_id : string) : M bool :=
  let* prepared := (if known then ask (fun n => sys_prepared sys n title_id) quiet else ret false) in
  let* ready := (if prepared : bool then ask (fun n => sys_data_mounted sys n title_id) quiet else ret false) in
  if ready : bool then ret false
  else
    let* ok := ask (fun n => sys_ensure sys n title_id) (EvEnsure title_id) in
    ret (negb ok).

Definition bind_prepared_app (title_id : string) (app_id pid : Z) : M bool :=
  ask (fun n => sys_bind sys n title_id app_id pid) (EvBind title_id app_id pid).

Definition try_game_process_handoff (pid : Z) (title_id : string) (app_id : Z) : M game_handoff_result_t :=
  if (pid <=? 0) || strcmp_eq title_id "" then ret GAME_HANDOFF_NONE
  else
    let* source := handoff_source pid title_id app_id in
    match source with
    | None => ret GAME_HANDOFF_DEFERRED
    | Some (old_pid, old_app_id, pending_exit) =>
        if old_pid <=? 0 then ret GAME_HANDOFF_NONE
        else
          let effective_app_id := if app_id =? 0 then old_app_id else app_id in
          let* missing := runtime_missing true title_id in
          if missing : bool then ret GAME_HANDOFF_DEFERRED
          else
            let* bound := bind_prepared_app title_id effective_app_id pid in
            if negb bound then ret GAME_HANDOFF_DEFERRED
            else
              let* _ := tell (EvBackportExec pid title_id) in
              let* _ := tell (EvFakelibExec pid title_id false) in
              let* _ := tell (EvHandoff old_pid pid) in
              let* _ := publish_active_game pid title_id effective_app_id in
              let* _ := when pending_exit clear_pending_game_exit in
              ret GAME_HANDOFF_COMPLETE
    end.

Definition finalize_game_exit (pid exit_time : Z) (fallback_title_id : option string) : M () :=
  let* _ := tell (EvMdbgExit pid) in
  let* owned := ask (fun n => sys_note_exit sys n pid exit_time) (EvNoteExit pid exit_time) in
  let* _ := tell (EvBackportExit pid) in
  let* _ := tell (EvFakelibExit pid) in
  match (match owned with Some t => Some t | None => fallback_title_id end) with
  | Some t => when (negb (strcmp_eq t "")) (tell (EvNormalize t))
  | None => ret tt
  end.

Definition finalize_pending_game_exit : M () :=
  let* exited := get pending_game_exit in
  when (pe_active exited)
    (let* _ := put (with_exit zero_exit) in
     let* _ := emit (EvResolved (pe_pid exited)) in
     let* _ := finalize_game_exit (pe_pid exited) (exit_time_us exited) (Some (pe_title exited)) in
     let* _ := emit EvCleaned in
     publish_game_exit_handoff_pending false).

(** The error of the watch, [None] when it is installed. *)
Definition register_game_exit_watch (pid : Z) : M (option error) :=
  ask (fun n => sys_watch sys n pid) (fun e => EvWatch pid (bool_decide (e = None))).

Definition dispatch_game_launch (pid exec_time : Z) (title_id : string) (app_id : Z) : M bool :=
  let* watch := register_game_exit_watch pid in
  match watch with
  | Some e =>
      let* _ := when (bool_decide (e = ESRCH)) (tell (EvLaunchFailed title_id)) in
      ret false
  | None =>
      let* handoff := try_game_process_handoff pid title_id app_id in
      match handoff with
      | GAME_HANDOFF_COMPLETE => ret true
      | GAME_HANDOFF_DEFERRED => ret false
      | GAME_HANDOFF_NONE =>
          let* _ := finalize_pending_game_exit in
          let* v := get id in
          let same_process := (active_game_pid v =? pid) &&
            same_application_identity title_id app_id (active_game_title_id v) (active_game_app_id v) in
          let app := if same_process && (app_id =? 0) then active_game_app_id v else app_id in
          let* missing := runtime_missing same_process title_id in
          if missing : bool then ret false
          else
            let* bound := bind_prepared_app title_id app pid in
            if negb bound then ret false
            else
              let* _ := publish_active_game pid title_id app in
              let* _ := when (negb same_process) (tell (EvMdbgExec pid title_id exec_time)) in
              let* _ := tell (EvBackportExec pid title_id) in
              let* _ := tell (EvFakelibExec pid title_id (negb same_process)) in
              ret true
      end
  end.

(** ** Launches whose title is not known yet *)
Definition has_launch (pid : Z) (e : pending_game_launch_t) : bool := pl_active e && (pl_pid e =? pid).

Definition find_pending_game_launch (pid : Z) (l : list pending_game_launch_t) : option nat := find_index (has_launch pid) l.

(** The entry that replaces the older candidate for eviction. *)
Definition older_deadline (e o : pending_game_launch_t) : bool :=
  negb (deadline_us e =? 0) && ((deadline_us o =? 0) || (deadline_us e <? deadline_us o)).

Fixpoint reserve_from (l : list pending_game_launch_t) (now_us : Z) (i : nat) (oldest : option (nat * pending_game_launch_t)) :
    option nat :=
  match l with
  | [] => fst <$> oldest
  | e :: l' =>
      if negb (pl_active e) then Some i
      else if negb (now_us =? 0) && negb (deadline_us e =? 0) && (deadline_us e <=? now_us) then Some i
      else
        reserve_from l' now_us (S i)
          (match oldest with
           | None => Some (i, e)
           | Some (j, o) => if older_deadline e o then Some (i, e) else Some (j, o)
           end)
  end.

Definition reserve_pending_game_launch (l : list pending_game_launch_t) (now_us : Z) : option nat := reserve_from l now_us 0 None.

(** The index of the entry; [None] is an access through NULL. *)
Definition queue_pending_game_launch (pid exec_time now_us : Z) (l : list pending_game_launch_t) :
    option (nat * list pending_game_launch_t) :=
  do? i <- match find_pending_game_launch pid l with Some i => Some i | None => reserve_pending_game_launch l now_us end ;
  let base := if exec_time =? 0 then now_us else exec_time in
  let deadline := if base =? 0 then 0 else u64 (base + GAME_APPINFO_LOOKUP_TIMEOUT_US) in
  Some (i, <[i := PendingLaunch true pid base deadline]> l).

Definition cleared_launches : list pending_game_launch_t := replicate MAX_PENDING_GAME_EXEC_CANDIDATES zero_launch.

Definition clear_all_pending_game_launches : M () := put (with_launches cleared_launches).
Definition clear_pending_game_launch (i : nat) : M () :=
  put (fun v => with_launches (<[i := zero_launch]> (pending_game_launches v)) v).

Definition set_deadline (i : nat) (deadline : Z) (l : list pending_game_launch_t) : list pending_game_launch_t :=
  match l !! i with
  | Some e => <[i := PendingLaunch (pl_active e) (pl_pid e) (exec_time_us e) deadline]> l
  | None => l
  end.

Definition defer_confirmed_game_launch_retry (pid exec_time now_us : Z) : M () :=
  if now_us =? 0 then ret tt
  else
    let base := if exec_time =? 0 then now_us else exec_time in
    let deadline := u64 (base + GAME_RUNTIME_PREPARE_TIMEOUT_US) in
    let* _ := clear_all_pending_game_launches in
    let* l := get pending_game_launches in
    match queue_pending_game_launch pid base now_us l with
    | Some (i, l') => put (with_launches (set_deadline i deadline l'))
    | None => stuck
    end.

Definition entry_wake (now_us : Z) (e : pending_game_launch_t) : Z :=
  if now_us =? 0 then 1 else min_nonzero_u64 (deadline_us e) (u64 (now_us + GAME_LIFECYCLE_POLL_INTERVAL_US)).

Definition next_pending_game_wake_us (now_us : Z) (l : list pending_game_launch_t) : Z :=
  fold_left (fun wake e => if pl_active e then min_nonzero_u64 wake (entry_wake now_us e) else wake) l 0.

Definition next_pending_exit_wake_us (now_us : Z) (sandbox_watch_active : bool) (e : pending_game_exit_t) : Z :=
  if negb (pe_active e) then 0
  else if now_us =? 0 then 1
  else
    let grace := if exit_time_us e =? 0 then 0 else u64 (exit_time_us e + GAME_PROCESS_HANDOFF_GRACE_US) in
    let linger := u64 (exit_time_us e + GAME_EXIT_SANDBOX_LINGER_US) in
    if negb (exit_time_us e =? 0) && (now_us <? linger) && (negb sandbox_watch_active || (grace <=? now_us)) then
      let poll := u64 (now_us + (if sandbox_watch_active then GAME_PROCESS_HANDOFF_FALLBACK_POLL_US
                                 else GAME_LIFECYCLE_POLL_INTERVAL_US)) in
      if poll <? linger then poll else linger
    else if sandbox_watch_active && negb (grace =? 0) && (now_us <? grace) then grace
    else if sandbox_watch_active then u64 (now_us + GAME_PROCESS_HANDOFF_FALLBACK_POLL_US)
    else u64 (now_us + GAME_LIFECYCLE_POLL_INTERVAL_US).

(** The wait in microseconds; [None] waits for an event.  [sys_next_wakes] are the
    wake-ups the other modules ask for. *)
Definition compute_game_wait_timeout (sandbox_watch_active : bool) : M (option Z) :=
  let* now_us := monotonic_time_us in
  let* v := get id in
  let* others := ask (sys_next_wakes sys) quiet in
  let own := min_nonzero_u64 (min_nonzero_u64 0 (next_pending_game_wake_us now_us (pending_game_launches v)))
               (next_pending_exit_wake_us now_us sandbox_watch_active (pending_game_exit v)) in
  let wake := fold_left min_nonzero_u64 others own in
  ret (if wake =? 0 then None
       else Some (if now_us =? 0 then GAME_LIFECYCLE_POLL_INTERVAL_US else if now_us <? wake then wake - now_us else 0)).

(** ** Polling *)
Definition maybe_finalize_pending_game_exit : M () :=
  let* v := get id in
  let e := pending_game_exit v in
  if negb (pe_active e) then ret tt
  else if 0 <? active_game_pid v then
    when (negb (same_application_identity (active_game_title_id v) (active_game_app_id v) (pe_title e) (pe_app_id e)))
      finalize_pending_game_exit
  else
    let* now_us := monotonic_time_us in
    let* sandbox := ask (fun n => sys_sandbox_exists sys n (pe_title e)) quiet in
    if sandbox && ((now_us =? 0) || (exit_time_us e =? 0) || (u64 (now_us - exit_time_us e) <? GAME_EXIT_SANDBOX_LINGER_US)) then ret tt
    else if negb (exit_time_us e =? 0) && negb (now_us =? 0) &&
            (u64 (now_us - exit_time_us e) <? GAME_PROCESS_HANDOFF_GRACE_US) then ret tt
    else finalize_pending_game_exit.

(** An entry whose time is over. *)
Definition expire_launch (i : nat) (now_us : Z) : M () :=
  let* l := get pending_game_launches in
  match l !! i with
  | Some e => when (pl_active e && negb (now_us =? 0) && negb (deadline_us e =? 0) && (deadline_us e <=? now_us)) (clear_pending_game_launch i)
  | None => stuck
  end.

(** A launch with a supported title; the loop over the entries ends with it. *)
Definition poll_confirmed (i : nat) (now_us : Z) (e : pending_game_launch_t) (title_id : string) (app_id : Z) : M () :=
  let exec_time := exec_time_us e in
  let deadline := if exec_time =? 0 then 0 else u64 (exec_time + GAME_RUNTIME_PREPARE_TIMEOUT_US) in
  let* _ := put (fun v => with_launches (set_deadline i deadline (pending_game_launches v)) v) in
  if (deadline =? 0) || (now_us =? 0) || (deadline <=? now_us) then clear_pending_game_launch i
  else
    let* launched := dispatch_game_launch (pl_pid e) exec_time title_id app_id in
    if launched : bool then
      let* _ := clear_pending_game_launch i in
      clear_all_pending_game_launches
    else
      let* retry_now_us := monotonic_time_us in
      if (retry_now_us =? 0) || (deadline <=? retry_now_us) then clear_pending_game_launch i
      else defer_confirmed_game_launch_retry (pl_pid e) exec_time retry_now_us.

(** One entry; [true] ends the loop. *)
Definition poll_entry (i : nat) (now_us : Z) : M bool :=
  let* l := get pending_game_launches in
  match l !! i with
  | None => stuck
  | Some e =>
      if negb (pl_active e) then ret false
      else
        let* title := resolve_game_title_id (pl_pid e) in
        match title with
        | Some (title_id, app_id) =>
            if is_supported_game_title_id title_id then
              let* _ := poll_confirmed i now_us e title_id app_id in ret true
            else
              let* _ := clear_pending_game_launch i in
              let* _ := expire_launch i now_us in ret false
        | None =>
            let* alive := is_process_alive (pl_pid e) in
            let* _ := when (negb alive) (clear_pending_game_launch i) in
            let* _ := expire_launch i now_us in ret false
        end
  end.

Fixpoint poll_entries (n i : nat) (now_us : Z) : M () :=
  match n with
  | O => ret tt
  | S n' =>
      let* done := poll_entry i now_us in
      if done : bool then ret tt else poll_entries n' (S i) now_us
  end.

Definition poll_game_modules : M () :=
  let* now_us := monotonic_time_us in
  let* _ := poll_entries MAX_PENDING_GAME_EXEC_CANDIDATES 0 now_us in
  let* _ := maybe_finalize_pending_game_exit in
  let* e := get pending_game_exit in
  let* _ := tell (EvMdbgPoll (negb (pe_active e))) in
  if pe_active e then ret tt else handle_pending_app_focus.

(** ** Process events *)
Definition handle_game_exec (pid : Z) : M () :=
  let* l := get pending_game_launches in
  match find_pending_game_launch pid l with
  | Some _ => ret tt
  | None =>
      let* now_us := monotonic_time_us in
      let* title := resolve_game_title_id pid in
      match title with
      | Some (title_id, app_id) =>
          when (is_supported_game_title_id title_id)
            (let* launched := dispatch_game_launch pid now_us title_id app_id in
             if launched : bool then clear_all_pending_game_launches
             else defer_confirmed_game_launch_retry pid now_us now_us)
      | None =>
          let* alive := is_process_alive pid in
          when (alive && negb (now_us =? 0))
            (let* l := get pending_game_launches in
             match queue_pending_game_launch pid now_us now_us l with
             | Some (_, l') => put (with_launches l')
             | None => stuck
             end)
      end
  end.

Definition handle_game_exit (pid : Z) : M () :=
  let* l := get pending_game_launches in
  let* _ := match find_pending_game_launch pid l with Some i => clear_pending_game_launch i | None => ret tt end in
  let* e := get pending_game_exit in
  if pe_active e && (pe_pid e =? pid) then ret tt
  else
    let* owner := consume_active_game pid in
    match owner with
    | Some (title_id, app_id) =>
        let* _ := finalize_pending_game_exit in
        let* _ := queue_pending_game_exit pid title_id app_id in
        let* _ := publish_active_game_pid 0 in
        tell (EvFakelibExit pid)
    | None => finalize_game_exit pid 0 None
    end.

Definition handle_process_event (pid : Z) (exec exit : bool) : M () :=
  let* _ := when exec (handle_game_exec pid) in
  when exit (handle_game_exit pid).

(** ** Suspension *)
Definition finalize_exit_of (pid : Z) : M () :=
  let* e := get pending_game_exit in
  when (pe_active e && (pe_pid e =? pid)) finalize_pending_game_exit.

Definition stop_requested : M bool := ask (sys_stopping sys) quiet.

(** The clock against a deadline, 0 being none. *)
Definition deadline_passed (deadline now : Z) : bool := negb (deadline =? 0) && negb (now =? 0) && (deadline <=? now).

Definition deadline_after (now delay : Z) : Z := if now =? 0 then 0 else u64 (now + delay).

(** Waiting for the exit of a killed game. *)
Fixpoint sleep_exit_loop (fuel : nat) (pid deadline : Z) : M bool :=
  match fuel with
  | O => stuck
  | S fuel' =>
      let* stop := stop_requested in
      if stop : bool then ret false
      else
        let* nev := ask (sys_kevent sys) quiet in
        match nev with
        | inr EINTR => sleep_exit_loop fuel' pid deadline
        | inr _ => ret false
        | inl ev =>
            let* stopped :=
              match ev with
              | Some (KProc exited _ _ true) =>
                  let* _ := handle_game_exit exited in
                  if exited =? pid then let* _ := finalize_exit_of pid in ret true else ret false
              | _ => ret false
              end in
            if stopped : bool then ret true
            else
              let* now_us := monotonic_time_us in
              if deadline_passed deadline now_us then
                let* alive := is_process_alive pid in
                if alive : bool then ret false
                else
                  let* _ := handle_game_exit pid in
                  let* _ := finalize_exit_of pid in
                  ret true
              else sleep_exit_loop fuel' pid deadline
        end
  end.

Definition terminate_game_for_sleep (fuel : nat) (pid : Z) : M bool :=
  let* killed := ask (fun n => sys_kill sys n pid) (EvKill pid) in
  match killed with
  | Some ESRCH =>
      let* _ := handle_game_exit pid in
      let* _ := finalize_exit_of pid in
      ret true
  | Some _ => ret false
  | None =>
      let* now_us := monotonic_time_us in
      sleep_exit_loop fuel pid (deadline_after now_us GAME_SLEEP_EXIT_TIMEOUT_US)
  end.

Fixpoint sleep_cleanup_loop (fuel : nat) (require_no_owner : bool) (deadline : Z) : M bool :=
  match fuel with
  | O => stuck
  | S fuel' =>
      let* stop := stop_requested in
      if stop : bool then ret false
      else
        let* status := ask (sys_release_status sys) quiet in
        let* owned := (if bool_decide (status = None) && require_no_owner then ask (sys_has_prepared_mount sys) quiet else ret false) in
        if bool_decide (status = None) && negb owned then ret true
        else if negb (bool_decide (status = None)) && negb (bool_decide (status = Some EAGAIN)) then ret false
        else
          let* nev := ask (sys_kevent sys) quiet in
          match nev with
          | inr EINTR => sleep_cleanup_loop fuel' require_no_owner deadline
          | inr _ => ret false
          | inl ev =>
              let* _ := match ev with Some (KProc exited _ _ true) => handle_game_exit exited | _ => ret tt end in
              let* now_us := monotonic_time_us in
              if deadline_passed deadline now_us then ret false else sleep_cleanup_loop fuel' require_no_owner deadline
          end
  end.

Definition wait_for_shellcore_exit_cleanup_for_sleep (fuel : nat) (require_no_owner : bool) : M bool :=
  let* now_us := monotonic_time_us in
  sleep_cleanup_loop fuel require_no_owner (deadline_after now_us GAME_SLEEP_EXIT_TIMEOUT_US).

(** The cleanup before the system sleeps; the result is [suspended_game_pid]. *)
Definition suspend_cleanup (fuel : nat) : M Z :=
  let* _ := finalize_pending_game_exit in
  let* suspended := get active_game_pid in
  let* title := snapshot_active_game suspended in
  let* usb_game :=
    match title with
    | None => ret false
    | Some t =>
        let* link := ask (fun n => sys_mount_link sys n t) quiet in
        title_is_usb_backed t (default "" link)%string (match link with Some _ => true | None => false end)
    end in
  let* _ := clear_all_pending_game_launches in
  let* _ := tell EvAsk in
  let* complete := (if usb_game : bool then terminate_game_for_sleep fuel suspended else ret true) in
  let suspended' := if usb_game && complete then 0 else suspended in
  let* complete' := (if complete : bool then wait_for_shellcore_exit_cleanup_for_sleep fuel usb_game else ret false) in
  let* released := ask (fun n => sys_usb_suspend sys n true) quiet in
  let* _ := when (complete' && released) (tell EvUnmountUsb) in
  ret suspended'.

Definition handle_drained (evs : list kernel_event) : M () :=
  foldr (fun ev (rest : M ()) =>
    let* _ := match ev with KProc pid _ exec exit => handle_process_event pid exec exit | _ => ret tt end in rest) (ret tt) evs.

Fixpoint drain_game_lifecycle_events_nowait (fuel : nat) : M bool :=
  match fuel with
  | O => stuck
  | S fuel' =>
      let* nev := ask (sys_kevents sys) quiet in
      match nev with
      | inr EINTR => drain_game_lifecycle_events_nowait fuel'
      | inr _ => ret false
      | inl [] => ret true
      | inl evs =>
          let* _ := handle_drained evs in
          let* _ := ask (sys_release_status sys) quiet in
          drain_game_lifecycle_events_nowait fuel'
      end
  end.

(** ** The watcher thread *)

(** The locals of [game_lifecycle_watcher_main]. *)
Record watcher := Watcher { sleep_cleanup_done : bool; suspended_game_pid : Z }.

(** A turn while the system sleeps; [None] leaves the loop. *)
Definition sleep_turn (fuel : nat) (s : watcher) : M (option watcher) :=
  let* suspended := (if sleep_cleanup_done s then ret false else ask (sys_watches_suspended sys) quiet) in
  let* s' := (if suspended : bool then let* pid := suspend_cleanup fuel in ret (Watcher true pid) else ret s) in
  let* rc := ask (sys_select sys) quiet in
  ret (match rc with None | Some EINTR => Some s' | Some _ => None end).

(** A turn of the main loop while it is awake. *)
Definition wait_turn (sandbox_watch_active : bool) (s : watcher) : M (option watcher) :=
  let* _ := compute_game_wait_timeout sandbox_watch_active in
  let* nev := ask (sys_kevent sys) quiet in
  match nev with
  | inr EINTR => ret (Some s)
  | inr _ => ret None
  | inl ev =>
      let* _ :=
        match ev with
        | Some (KProc pid false exec exit) => handle_process_event pid exec exit
        | _ => ret tt
        end in
      let* sleeping := ask (sys_sleeping sys) quiet in
      if sleeping : bool then ret (Some s)
      else
        let* _ := poll_game_modules in
        let* _ := tell EvAsk in
        ret (Some s)
  end.

(** After a sleep: the events of the meantime, then the suspended game again. *)
Definition resume_turn (fuel : nat) (sandbox_watch_active : bool) (s : watcher) : M (option watcher) :=
  let* drained := drain_game_lifecycle_events_nowait fuel in
  if negb drained then ret None
  else
    let* sleeping := ask (sys_sleeping sys) quiet in
    if sleeping : bool then ret (Some (Watcher false (suspended_game_pid s)))
    else
      let* pid := get active_game_pid in
      let* alive := (if (0 <? suspended_game_pid s) && (pid =? suspended_game_pid s) then is_process_alive (suspended_game_pid s)
                     else ret false) in
      let* _ := when alive (handle_game_exec (suspended_game_pid s)) in
      let* _ := ask (fun n => sys_usb_suspend sys n false) quiet in
      wait_turn sandbox_watch_active (Watcher false 0).

Definition watcher_turn (fuel : nat) (sandbox_watch_active : bool) (s : watcher) : M (option watcher) :=
  let* sleeping := ask (sys_sleeping sys) quiet in
  if sleeping : bool then sleep_turn fuel s
  else if sleep_cleanup_done s then resume_turn fuel sandbox_watch_active s
  else wait_turn sandbox_watch_active s.

Definition watcher_shutdown : M () :=
  let* _ := clear_all_pending_game_launches in
  let* _ := tell EvShutdown in
  let* _ := publish_active_game 0 "" 0 in
  clear_pending_game_exit.

(** The loop's test and its body. *)
Definition watcher_iteration (fuel : nat) (sandbox_watch_active : bool) (s : watcher) : M (option watcher) :=
  let* stop := stop_requested in
  if stop : bool then ret None else watcher_turn fuel sandbox_watch_active s.

(** At most [turns] iterations; [None] when the loop was not over. *)
Fixpoint watcher_loop (turns fuel : nat) (sandbox_watch_active : bool) (s : watcher) : M () :=
  match turns with
  | O => stuck
  | S turns' =>
      let* next := watcher_iteration fuel sandbox_watch_active s in
      match next with
      | None => watcher_shutdown
      | Some s' => watcher_loop turns' fuel sandbox_watch_active s'
      end
  end.

(** [sys_thread_starts] is the answer of the new thread after it installed its watches. *)
Definition start_game_lifecycle_watcher : M bool :=
  let* started := get thread_started in
  if started : bool then ret true
  else
    let* pipe := ask (sys_pipe sys) quiet in
    if negb pipe then ret false
    else
      let* _ := put (with_focus 0) in
      let* _ := clear_pending_game_exit in
      let* ok := ask (sys_thread_starts sys) quiet in
      let* _ := when ok (put (with_started true)) in
      ret ok.

(** What follows the join of the thread. *)
Definition stop_game_lifecycle_watcher : M () :=
  let* started := get thread_started in
  when started
    (let* _ := put (with_started false) in
     let* _ := put (with_focus 0) in
     publish_active_game 0 "" 0).

Definition refresh_game_lifecycle_watcher : M bool :=
  let* started := get thread_started in
  if started : bool then let* _ := emit EvWakeThread in ret true else start_game_lifecycle_watcher.
End watcher.

(** * The contract of the watcher *)

(** ** The monitor: which histories of calls and published values are allowed *)
Inductive authority := NoAuthority | Watched (pid : Z) | Bound (pid : Z) (title : string) (app : Z).

#[export] Instance authority_eq_dec : EqDecision authority.
Proof. solve_decision. Defined.

(** The process whose game is not cleaned up yet, the exit that awaits a handoff, and
    what was established for the next owner. *)
Record monitor := Monitor { m_owner : option Z; m_waiting : option Z; m_authority : authority }.

Definition monitor_step (g : monitor) (e : event) : option monitor :=
  match e with
  | EvWatch p ok => Some (if ok then Monitor (m_owner g) (m_waiting g) (Watched p) else g)
  | EvBind t a p ok =>
      let watched := match m_authority g with Watched q | Bound q _ _ => q =? p | NoAuthority => false end in
      Some (if ok && watched then Monitor (m_owner g) (m_waiting g) (Bound p t a) else g)
  | EvOwner p t a =>
      if bool_decide (m_authority g = Bound p t a) && bool_decide (m_waiting g = None)
      then Some (Monitor (Some p) None NoAuthority) else None
  | EvShared p h _ => if published_game_active p h || bool_decide (m_owner g = None) then Some g else None
  | EvExitQueued p _ =>
      if bool_decide (m_owner g = Some p) && bool_decide (m_waiting g = None)
      then Some (Monitor (m_owner g) (Some p) (m_authority g)) else None
  | EvHandoff old _ =>
      if bool_decide (m_owner g = Some old) && bool_decide (m_waiting g = None \/ m_waiting g = Some old)
      then Some (Monitor (m_owner g) None (m_authority g)) else None
  | EvResolved p =>
      if bool_decide (m_waiting g = Some p) then Some (Monitor (m_owner g) None (m_authority g)) else None
  | EvCleaned => if bool_decide (m_waiting g = None) then Some (Monitor None None (m_authority g)) else None
  | EvShutdown => Some (Monitor None None (m_authority g))
  | _ => Some g
  end.

Fixpoint monitored (tr : list event) : option monitor :=
  match tr with
  | [] => Some (Monitor None None NoAuthority)
  | e :: tr' => do? g <- monitored tr' ; monitor_step g e
  end.

(** ** Reachable states of the program *)
Inductive phase := Idle | Running (s : watcher) | Ended.

Section history.
Context (sys : system).

Inductive step : phase * world -> phase * world -> Prop :=
  | StepStart w w' : thread_started (w_life w) = false ->
      start_game_lifecycle_watcher sys w = Some (true, w') -> step (Idle, w) (Running (Watcher false 0), w')
  | StepStartFails w w' : start_game_lifecycle_watcher sys w = Some (false, w') -> step (Idle, w) (Idle, w')
  | StepTurn fuel sandbox s s' w w' :
      watcher_iteration sys fuel sandbox s w = Some (Some s', w') -> step (Running s, w) (Running s', w')
  | StepEnd fuel sandbox s w w' w'' :
      watcher_iteration sys fuel sandbox s w = Some (None, w') ->
      watcher_shutdown sys w' = Some (tt, w'') -> step (Running s, w) (Ended, w'')
  | StepStop w w' : stop_game_lifecycle_watcher w = Some (tt, w') -> step (Ended, w) (Idle, w')
  | StepFocus focus p w w' : publish_app_focus focus w = Some (tt, w') -> step (p, w) (p, w').

Definition reachable (s : phase * world) : Prop := rtc step (Idle, initial_world) s.
End history.

(** The kernel names processes by positive numbers. *)
Definition event_pid_positive (ev : kernel_event) : Prop := match ev with KProc pid _ _ _ => 0 < pid | _ => True end.

Definition pids_positive (sys : system) : Prop := forall n,
  match sys_kevent sys n with inl (Some ev) => event_pid_positive ev | _ => True end /\
  match sys_kevents sys n with inl evs => Forall event_pid_positive evs | _ => True end.

(** ** The invariant between two steps *)
Definition launch_ok (e : pending_game_launch_t) : Prop := pl_active e = true -> 0 < pl_pid e.

Definition launches_ok (l : list pending_game_launch_t) : Prop :=
  length l = MAX_PENDING_GAME_EXEC_CANDIDATES /\ Forall launch_ok l /\
  (forall i j a b, l !! i = Some a -> l !! j = Some b -> pl_active a = true -> pl_active b = true -> pl_pid a = pl_pid b -> i = j).

(** The game [v] publishes: nothing, a running process, or an exit awaiting a handoff. *)
Inductive owner_state := NoGame | Live (pid : Z) (title : string) (app : Z) | Exiting (e : pending_game_exit_t).

Definition owner_fields (o : owner_state) : Z * string * Z * pending_game_exit_t :=
  match o with
  | NoGame => (0, ""%string, 0, zero_exit)
  | Live pid title app => (pid, title, app, zero_exit)
  | Exiting e => (0, ""%string, 0, e)
  end.

Definition owner_ok (o : owner_state) : Prop :=
  match o with
  | NoGame => True
  | Live pid title _ => 0 < pid /\ is_supported_game_title_id title = true
  | Exiting e => pe_active e = true /\ 0 < pe_pid e /\ is_supported_game_title_id (pe_title e) = true
  end.

Definition owner_monitor (o : owner_state) (a : authority) : monitor :=
  match o with
  | NoGame => Monitor None None a
  | Live pid _ _ => Monitor (Some pid) None a
  | Exiting e => Monitor (Some (pe_pid e)) (Some (pe_pid e)) a
  end.

Definition owner_life (o : owner_state) (focus : Z) (l : list pending_game_launch_t) (started : bool) : life :=
  let '(pid, title, app, e) := owner_fields o in
  Life pid (pe_active e) (background_of pid (pe_active e) title) app e focus title l started.

(** The state is that of the owner [o], and the monitor accepted the history. *)
Definition at_rest (o : owner_state) (w : world) : Prop :=
  owner_ok o /\
  (exists focus l started, launches_ok l /\ w_life w = owner_life o focus l started) /\
  exists a, monitored (w_trace w) = Some (owner_monitor o a).

(** ** Titles in the background state *)
Definition letter (v : Z) : Ascii.ascii := Ascii.ascii_of_N (Z.to_N (65 + v)).
Definition digit (v : Z) : Ascii.ascii := Ascii.ascii_of_N (Z.to_N (48 + v)).

Lemma ascii_of_byte a : Ascii.ascii_of_N (Z.to_N (ascii_byte a)) = a.
Proof. unfold ascii_byte. by rewrite N2Z.id, Ascii.ascii_N_embedding. Qed.

Lemma byte_of_code z : 0 <= z < 256 -> ascii_byte (Ascii.ascii_of_N (Z.to_N z)) = z.
Proof. intros. unfold ascii_byte. rewrite Ascii.N_ascii_embedding; lia. Qed.

Lemma byte_letter v : 0 <= v < 26 -> ascii_byte (letter v) = 65 + v.
Proof. intros. apply byte_of_code. lia. Qed.

Lemma byte_digit v : 0 <= v < 10 -> ascii_byte (digit v) = 48 + v.
Proof. intros. apply byte_of_code. lia. Qed.

Lemma in_letters a : (65 <=? ascii_byte a) && (ascii_byte a <=? 90) = true -> exists v, a = letter v /\ 0 <= v < 26.
Proof.
  intros H. exists (ascii_byte a - 65). unfold letter.
  replace (65 + (ascii_byte a - 65)) with (ascii_byte a) by lia. rewrite ascii_of_byte. split; [done|lia].
Qed.

Lemma in_digits a : (48 <=? ascii_byte a) && (ascii_byte a <=? 57) = true -> exists v, a = digit v /\ 0 <= v < 10.
Proof.
  intros H. exists (ascii_byte a - 48). unfold digit.
  replace (48 + (ascii_byte a - 48)) with (ascii_byte a) by lia. rewrite ascii_of_byte. split; [done|lia].
Qed.

Definition title_of (v0 v1 v2 v3 d0 d1 d2 d3 d4 : Z) : string :=
  String (letter v0) (String (letter v1) (String (letter v2) (String (letter v3)
    (String (digit d0) (String (digit d1) (String (digit d2) (String (digit d3) (String (digit d4) "")))))))).

Lemma supported_title_shape t : is_supported_game_title_id t = true ->
  exists v0 v1 v2 v3 d0 d1 d2 d3 d4, t = title_of v0 v1 v2 v3 d0 d1 d2 d3 d4 /\
    (0 <= v0 < 26 /\ 0 <= v1 < 26 /\ 0 <= v2 < 26 /\ 0 <= v3 < 26) /\
    (0 <= d0 < 10 /\ 0 <= d1 < 10 /\ 0 <= d2 < 10 /\ 0 <= d3 < 10 /\ 0 <= d4 < 10).
Proof.
  unfold is_supported_game_title_id. rewrite !andb_true_iff. intros [[[Hl Hd] He] _].
  unfold char_in, char_at in Hl, Hd, He. apply bool_decide_eq_true in He.
  destruct t as [|c0 [|c1 [|c2 [|c3 [|c4 [|c5 [|c6 [|c7 [|c8 [|? ?]]]]]]]]]]; cbn in Hl, Hd, He;
    rewrite ?andb_false_r in Hl; try done; rewrite ?andb_false_r in Hd; try done.
  rewrite !andb_true_r in Hl, Hd. rewrite !andb_true_iff in Hl, Hd.
  destruct_and?.
  destruct (in_letters c0) as (v0 & -> & ?); [first [done|by apply andb_true_iff]|]. destruct (in_letters c1) as (v1 & -> & ?); [first [done|by apply andb_true_iff]|].
  destruct (in_letters c2) as (v2 & -> & ?); [first [done|by apply andb_true_iff]|]. destruct (in_letters c3) as (v3 & -> & ?); [first [done|by apply andb_true_iff]|].
  destruct (in_digits c4) as (d0 & -> & ?); [first [done|by apply andb_true_iff]|]. destruct (in_digits c5) as (d1 & -> & ?); [first [done|by apply andb_true_iff]|].
  destruct (in_digits c6) as (d2 & -> & ?); [first [done|by apply andb_true_iff]|]. destruct (in_digits c7) as (d3 & -> & ?); [first [done|by apply andb_true_iff]|].
  destruct (in_digits c8) as (d4 & -> & ?); [first [done|by apply andb_true_iff]|].
  by exists v0, v1, v2, v3, d0, d1, d2, d3, d4.
Qed.

Definition letters_value (v0 v1 v2 v3 : Z) : Z := ((v0 * 26 + v1) * 26 + v2) * 26 + v3.
Definition digits_value (d0 d1 d2 d3 d4 : Z) : Z := (((d0 * 10 + d1) * 10 + d2) * 10 + d3) * 10 + d4.

Lemma title_state_value v0 v1 v2 v3 d0 d1 d2 d3 d4 :
  0 <= v0 < 26 -> 0 <= v1 < 26 -> 0 <= v2 < 26 -> 0 <= v3 < 26 ->
  0 <= d0 < 10 -> 0 <= d1 < 10 -> 0 <= d2 < 10 -> 0 <= d3 < 10 -> 0 <= d4 < 10 ->
  title_state (title_of v0 v1 v2 v3 d0 d1 d2 d3 d4) =
    2 + letters_value v0 v1 v2 v3 * 100000 + digits_value d0 d1 d2 d3 d4.
Proof.
  intros. unfold title_state, title_of, char_code, char_at. cbn [seq fold_left String.get].
  rewrite !byte_letter, !byte_digit by lia.
  unfold letters_value, digits_value, u64, u32, wrap, GAME_BACKGROUND_TITLE_BASE, GAME_BACKGROUND_TITLE_RANGE.
  repeat match goal with |- context [?x mod ?m] =>
    lazymatch x with context [_ mod _] => fail | _ => rewrite (Z.mod_small x m) by lia end end.
  lia.
Qed.

Lemma div_last b p v : 0 <= v < b -> (p * b + v) / b = p.
Proof. intros. symmetry. apply Z.div_unique with v; lia. Qed.

Lemma mod_last b p v : 0 <= v < b -> (p * b + v) mod b = v.
Proof. intros. symmetry. apply Z.mod_unique with p; lia. Qed.

Lemma base26_digit n p v tail : 0 <= v < 26 -> base26 (S n) (p * 26 + v) tail = base26 n p (String (letter v) tail).
Proof.
  intros. cbn [base26]. unfold letter. by rewrite div_last, mod_last by lia.
Qed.

Lemma decimals_digit n p v tail : 0 <= v < 10 -> decimals (S n) (p * 10 + v) tail = decimals n p (String (digit v) tail).
Proof.
  intros. cbn [decimals]. unfold digit. by rewrite div_last, mod_last by lia.
Qed.

Lemma title_state_bounds t : is_supported_game_title_id t = true -> 2 <= title_state t < 2 ^ 63.
Proof.
  intros (v0 & v1 & v2 & v3 & d0 & d1 & d2 & d3 & d4 & -> & (?&?&?&?) & (?&?&?&?&?))%supported_title_shape.
  rewrite title_state_value by done. unfold letters_value, digits_value. lia.
Qed.

Lemma high_bit_clear x : 0 <= x < 2 ^ 63 ->
  Z.land x (2 ^ 63) = 0 /\ Z.ldiff x (2 ^ 63) = x /\ Z.land (Z.lor x (2 ^ 63)) (2 ^ 63) = 2 ^ 63 /\
  Z.ldiff (Z.lor x (2 ^ 63)) (2 ^ 63) = x /\ Z.lor x (2 ^ 63) = x + 2 ^ 63.
Proof.
  intros Hx.
  assert (Hb : forall i, Z.testbit x i && (i =? 63) = false).
  { intros i. destruct (Z.eqb_spec i 63) as [->|]; [|by rewrite andb_false_r].
    rewrite andb_true_r. destruct (Z.eq_dec x 0) as [->|]; [apply Z.testbit_0_l|].
    apply Z.bits_above_log2; [lia|]. apply Z.log2_lt_pow2; lia. }
  assert (Hbit : forall i, 0 <= i -> Z.testbit (2 ^ 63) i = (i =? 63)).
  { intros i Hi. rewrite Z.eqb_sym. by apply Z.pow2_bits_eqb. }
  assert (Hl : Z.land x (2 ^ 63) = 0).
  { apply Z.bits_inj'. intros i Hi. rewrite Z.land_spec, Hbit, Hb, Z.testbit_0_l by done. done. }
  assert (Hd : Z.ldiff x (2 ^ 63) = x).
  { apply Z.bits_inj'. intros i Hi. rewrite Z.ldiff_spec, Hbit by done. specialize (Hb i).
    by destruct (Z.testbit x i), (i =? 63). }
  split_and!; [done|done| | |].
  - apply Z.bits_inj'. intros i Hi. rewrite Z.land_spec, Z.lor_spec, Hbit by done. by destruct (Z.testbit x i), (i =? 63).
  - apply Z.bits_inj'. intros i Hi. rewrite Z.ldiff_spec, Z.lor_spec, Hbit by done. specialize (Hb i).
    by destruct (Z.testbit x i), (i =? 63).
  - rewrite <-Z.lxor_lor, <-Z.add_nocarry_lxor by done. done.
Qed.

(** Reading back what was published. *)
Lemma title_state_decoded t : is_supported_game_title_id t = true ->
  background_title (title_state t) = (true, t) /\
  background_title (Z.lor (title_state t) GAME_BACKGROUND_TITLE_BLOCKED) = (false, t).
Proof.
  intros Ht. pose proof (title_state_bounds t Ht) as Hb.
  destruct (high_bit_clear (title_state t)) as (Hl & Hd & Hl' & Hd' & Hor); [lia|].
  assert (Hdec : base26 4 (u64 (title_state t - 2) / 100000) (decimals 5 (u64 (title_state t - 2) mod 100000) "") = t).
  { unfold u64, wrap. rewrite (Z.mod_small (title_state t - 2)) by lia. clear Hl Hd Hl' Hd' Hor Hb.
    destruct (supported_title_shape t Ht) as (v0 & v1 & v2 & v3 & d0 & d1 & d2 & d3 & d4 & -> & (?&?&?&?) & (?&?&?&?&?)).
    rewrite title_state_value by done.
    assert (0 <= digits_value d0 d1 d2 d3 d4 < 100000) by (unfold digits_value; lia).
    replace (2 + letters_value v0 v1 v2 v3 * 100000 + digits_value d0 d1 d2 d3 d4 - 2)
      with (letters_value v0 v1 v2 v3 * 100000 + digits_value d0 d1 d2 d3 d4) by lia.
    rewrite div_last, mod_last by lia.
    unfold letters_value, digits_value. rewrite !decimals_digit by done.
    replace d0 with (0 * 10 + d0) at 1 by lia. rewrite decimals_digit by done. cbn [decimals].
    rewrite !base26_digit by done. replace v0 with (0 * 26 + v0) at 1 by lia. by rewrite base26_digit. }
  unfold background_title, GAME_BACKGROUND_BLOCKED, GAME_BACKGROUND_IDLE, GAME_BACKGROUND_TITLE_BLOCKED,
    GAME_BACKGROUND_TITLE_BASE, GAME_BACKGROUND_TITLE_RANGE.
  rewrite Hl, Hl', Hd, Hd'.
  destruct (Z.eqb_spec (title_state t) 1), (Z.eqb_spec (title_state t) 0); [lia..|].
  destruct (Z.eqb_spec (Z.lor (title_state t) (2 ^ 63)) 1), (Z.eqb_spec (Z.lor (title_state t) (2 ^ 63)) 0); [lia..|].
  by rewrite Hdec.
Qed.

(** ** A logic for the operations *)
#[local] Arguments strcmp_eq : simpl never.
#[local] Arguments strlcpy : simpl never.
#[local] Arguments is_supported_game_title_id : simpl never.

(** The number of the first question of a run. *)
Class Since := since : nat.

(** The variables are [v] up to the focus, the monitor is in [g]. *)
Definition holds `{Since} (v : life) (g : monitor) (w : world) : Prop :=
  (exists focus, w_life w = with_focus focus v) /\ monitored (w_trace w) = Some g /\ (since <= w_clock w)%nat.

Section logic.
Context {Fu : Fuel} {Sn : Since} {A : Type}.

Lemma wp_get (f : life -> A) (x : A) v g (Q : A -> world -> Prop) w :
  holds v g w -> (forall focus, f (with_focus focus v) = x) -> Q x w -> wp (get f) Q w.
Proof. intros ([focus E] & _) Hf HQ. apply wp_look. by rewrite E, Hf. Qed.

Lemma wp_get_life v g (Q : life -> world -> Prop) w :
  holds v g w -> (forall focus, Q (with_focus focus v) w) -> wp (get id) Q w.
Proof. intros ([focus E] & _) HQ. apply wp_look. rewrite E. apply HQ. Qed.

Lemma wp_put f v g (Q : () -> world -> Prop) w :
  holds v g w -> (forall focus, exists focus', f (with_focus focus v) = with_focus focus' (f v)) ->
  (forall w', holds (f v) g w' -> Q tt w') -> wp (put f) Q w.
Proof.
  intros ([focus E] & Hg & Hs) HF HQ. apply wp_change. apply HQ. split; [|done]. cbn. rewrite E. apply HF.
Qed.

Lemma wp_emit e v g g' (Q : () -> world -> Prop) w :
  holds v g w -> monitor_step g e = Some g' -> (forall w', holds v g' w' -> Q tt w') -> wp (emit e) Q w.
Proof. intros (Hv & Hg & Hs) He HQ. apply wp_change. apply HQ. split; [done|]. split; [|done]. cbn. by rewrite Hg. Qed.

Lemma wp_store f v g (Q : () -> world -> Prop) w :
  holds v g w -> (forall focus, f (with_focus focus v) = with_focus focus (f v)) ->
  published_game_active (active_game_pid (f v)) (game_exit_handoff_pending (f v)) || bool_decide (m_owner g = None) = true ->
  (forall w', holds (f v) g w' -> Q tt w') -> wp (store f) Q w.
Proof.
  intros ([focus E] & Hg & Hs) HF Hok HQ. apply wp_change. apply HQ. split; [|split; [|done]].
  - exists focus. cbn. by rewrite E.
  - cbn. rewrite Hg, E, HF. cbn. by rewrite Hok.
Qed.

(** The answer is one given since the run began. *)
Lemma wp_ask_since sys (f : nat -> A) ev v g g' (Q : A -> world -> Prop) w :
  holds v g w -> (forall n, monitor_step g (ev (f n)) = Some (g' n)) ->
  (forall n w', (since <= n)%nat -> w_clock w = n -> w_clock w' = S n -> holds v (g' n) w' -> Q (f n) w') -> wp (ask sys f ev) Q w.
Proof.
  intros ([focus E] & Hg & Hs) Hev HQ. unfold wp, ask. apply HQ; [done|done|done|]. split; [|split].
  - cbn. rewrite E. eexists. reflexivity.
  - cbn. rewrite Hg. apply Hev.
  - cbn. lia.
Qed.

Lemma wp_ask sys (f : nat -> A) ev v g g' (Q : A -> world -> Prop) w :
  holds v g w -> (forall n, monitor_step g (ev (f n)) = Some (g' n)) ->
  (forall n w', holds v (g' n) w' -> Q (f n) w') -> wp (ask sys f ev) Q w.
Proof. intros H Hev HQ. eapply wp_ask_since; [exact H|exact Hev|auto]. Qed.
End logic.

Section stepping.
Context {Fu : Fuel} {Sn : Since}.

Lemma wp_quiet {A} sys (f : nat -> A) ev v g (Q : A -> world -> Prop) w :
  holds v g w -> (forall n, monitor_step g (ev (f n)) = Some g) ->
  (forall n w', holds v g w' -> Q (f n) w') -> wp (ask sys f ev) Q w.
Proof. intros H Hev HQ. by apply (wp_ask sys f ev v g (fun _ => g)). Qed.

Lemma wp_tell sys ev v g g' (Q : () -> world -> Prop) w :
  holds v g w -> monitor_step g ev = Some g' -> (forall w', holds v g' w' -> Q tt w') -> wp (tell sys ev) Q w.
Proof. intros H Hev HQ. apply (wp_ask sys _ _ v g (fun _ => g')); auto. Qed.

End stepping.

(** One operation: the state is read off the [holds] hypothesis and the new one is
    introduced under its name. *)
Ltac refocus := intros; eexists; cbn; reflexivity.
Ltac step :=
  lazymatch goal with
  | |- wp (bind _ _) _ _ => apply wp_bind; step
  | |- wp (ret _) _ _ => apply wp_ret
  | |- wp (when _ _) _ _ => apply wp_when; [intros ?|intros ?]
  | H : holds _ _ ?w |- wp (get id) _ ?w => eapply (wp_get_life _ _ _ _ H); intros ?; cbn
  | H : holds _ _ ?w |- wp (get _) _ ?w => eapply (wp_get _ _ _ _ _ _ H); [intros ?; cbn; reflexivity|cbn]
  | H : holds _ _ ?w |- wp (put _) _ ?w => eapply (wp_put _ _ _ _ _ H); [refocus|clear H; intros ? H; cbn in H]
  | H : holds _ _ ?w |- wp (emit _) _ ?w => eapply (wp_emit _ _ _ _ _ _ H); [cbn; try reflexivity|clear H; intros ? H]
  | H : holds _ _ ?w |- wp (tell _ _) _ ?w => eapply (wp_tell _ _ _ _ _ _ _ H); [cbn; try reflexivity|clear H; intros ? H]
  | H : holds _ _ ?w |- wp (ask _ _ _) _ ?w => eapply (wp_quiet _ _ _ _ _ _ _ H); [intros ?; cbn; try reflexivity|clear H; intros ? ? H]
  | H : holds _ _ ?w |- wp (store _) _ ?w =>
      eapply (wp_store _ _ _ _ _ H); [intros ?; reflexivity|cbn|clear H; intros ? H; cbn in H]
  end.

(** *** Publication *)
Section publication.
Context {Fu : Fuel} {Sn : Since}.

Lemma wp_publish_background was v g (Q : () -> world -> Prop) w :
  holds v g w ->
  published_game_active (active_game_pid v) (game_exit_handoff_pending v) || bool_decide (m_owner g = None) = true ->
  (forall w', holds (with_background (background_of (active_game_pid v) (game_exit_handoff_pending v) (active_game_title_id v)) v) g w' ->
     Q tt w') -> wp (publish_background_game_state was) Q w.
Proof.
  intros H Hok HQ. unfold publish_background_game_state. do 4 step. step; [exact Hok|].
  step; [|by apply HQ]. step. by apply HQ.
Qed.

Lemma wp_publish_pid pid v g (Q : () -> world -> Prop) w :
  holds v g w ->
  published_game_active pid (game_exit_handoff_pending v) || bool_decide (m_owner g = None) = true ->
  (forall w', holds (with_background (background_of pid (game_exit_handoff_pending v) (active_game_title_id v)) (with_pid pid v)) g w' ->
     Q tt w') -> wp (publish_active_game_pid pid) Q w.
Proof.
  intros H Hok HQ. unfold publish_active_game_pid. step. step; [exact Hok|]. step.
  eapply (wp_publish_background _ _ _ _ _ H); [exact Hok|exact HQ].
Qed.

Lemma wp_publish_handoff pending v g (Q : () -> world -> Prop) w :
  holds v g w ->
  published_game_active (active_game_pid v) pending || bool_decide (m_owner g = None) = true ->
  (forall w', holds (with_background (background_of (active_game_pid v) pending (active_game_title_id v)) (with_handoff pending v)) g w' ->
     Q tt w') -> wp (publish_game_exit_handoff_pending pending) Q w.
Proof.
  intros H Hok HQ. unfold publish_game_exit_handoff_pending. step. step; [exact Hok|]. step.
  eapply (wp_publish_background _ _ _ _ _ H); [exact Hok|exact HQ].
Qed.

End publication.

(** *** Titles *)
Lemma supported_title_named t : is_supported_game_title_id t = true -> strcmp_eq t "" = false.
Proof.
  intros (v0 & v1 & v2 & v3 & d0 & d1 & d2 & d3 & d4 & -> & _)%supported_title_shape. reflexivity.
Qed.

Lemma supported_title_copied t : is_supported_game_title_id t = true -> strlcpy t MAX_TITLE_ID = t.
Proof.
  intros (v0 & v1 & v2 & v3 & d0 & d1 & d2 & d3 & d4 & -> & _)%supported_title_shape. reflexivity.
Qed.

(** ** The operations between two owners *)
Definition rest `{Since} (o : owner_state) (l : list pending_game_launch_t) (a : authority) (w : world) : Prop :=
  owner_ok o /\ exists started, holds (owner_life o 0 l started) (owner_monitor o a) w.

(** The owner once its exit is finalized. *)
Definition settled (o : owner_state) : owner_state := match o with Exiting _ => NoGame | _ => o end.

Section operations.
Context {Fu : Fuel} {Sn : Since} (sys : system).

Lemma rest_quiet {A} (f : nat -> A) ev o l a (Q : A -> world -> Prop) w :
  rest o l a w -> (forall n g, monitor_step g (ev (f n)) = Some g) ->
  (forall n w', rest o l a w' -> Q (f n) w') -> wp (ask sys f ev) Q w.
Proof.
  intros (Ho & st & H) Hev HQ. eapply wp_quiet; [exact H|intros ?; apply Hev|].
  intros n w' H'. apply HQ. split; [done|by exists st].
Qed.

Lemma rest_tell ev o l a (Q : () -> world -> Prop) w :
  rest o l a w -> (forall g, monitor_step g ev = Some g) -> (forall w', rest o l a w' -> Q tt w') -> wp (tell sys ev) Q w.
Proof. intros H Hev HQ. eapply rest_quiet; [exact H|auto|]. intros _. apply HQ. Qed.

Lemma rest_life o l a (Q : life -> world -> Prop) w :
  rest o l a w -> (forall focus started, rest o l a w -> Q (owner_life o focus l started) w) -> wp (get id) Q w.
Proof.
  intros (Ho & st & H) HQ. eapply wp_get_life; [exact H|]. intros focus.
  change (with_focus focus (owner_life o 0 l st)) with (with_focus focus (owner_life o 0 l st)).
  replace (with_focus focus (owner_life o 0 l st)) with (owner_life o focus l st) by (by destruct o).
  apply HQ. split; [done|by exists st].
Qed.

Lemma rest_get {A} (f : life -> A) (x : A) o l a (Q : A -> world -> Prop) w :
  rest o l a w -> (forall focus started, f (owner_life o focus l started) = x) -> Q x w -> wp (get f) Q w.
Proof.
  intros (Ho & st & H) Hf HQ. eapply wp_get; [exact H| |exact HQ]. intros focus. rewrite <-(Hf focus st). by destruct o.
Qed.

Lemma rest_launches l' o l a f (Q : () -> world -> Prop) w :
  rest o l a w -> (forall v, pending_game_launches v = l -> f v = with_launches l' v) ->
  (forall w', rest o l' a w' -> Q tt w') -> wp (put f) Q w.
Proof.
  intros (Ho & st & [focus E] & Hg) HF HQ. apply wp_change. apply HQ. split; [done|]. exists st.
  split; [|done]. exists focus. cbn. rewrite E, HF; by destruct o.
Qed.

Lemma rest_focus f o l a (Q : () -> world -> Prop) w :
  rest o l a w -> (forall v, exists focus, f v = with_focus focus v) ->
  (forall w', rest o l a w' -> Q tt w') -> wp (put f) Q w.
Proof.
  intros (Ho & st & [focus E] & Hg) HF HQ. apply wp_change. apply HQ. split; [done|]. exists st.
  split; [|done]. cbn. rewrite E. destruct (HF (with_focus focus (owner_life o 0 l st))) as [focus' ->].
  exists focus'. by destruct o.
Qed.

(** *** Exits *)
Lemma wp_finalize_game_exit pid time fallback v g (Q : () -> world -> Prop) w :
  holds v g w -> (forall w', holds v g w' -> Q tt w') -> wp (finalize_game_exit sys pid time fallback) Q w.
Proof.
  intros H HQ. unfold finalize_game_exit. do 4 step.
  destruct (match sys_note_exit _ _ _ _ with Some t => Some t | None => fallback end) as [t|]; [|step; by apply HQ].
  step; [|by apply HQ]. step. by apply HQ.
Qed.

Lemma wp_finalize_pending o l a (Q : () -> world -> Prop) w :
  rest o l a w -> (forall w', rest (settled o) l a w' -> Q tt w') -> wp (finalize_pending_game_exit sys) Q w.
Proof.
  intros (Ho & st & H) HQ. unfold finalize_pending_game_exit. step.
  destruct o as [|pid title app|e]; cbn in H.
  1,2: apply HQ; by split; [|exists st].
  destruct Ho as (He & Hp & Ht). cbn. rewrite He. step; [|done]. step.
  apply wp_bind. eapply wp_emit; [exact H|cbn; by rewrite bool_decide_true|]. clear H. intros ? H. cbn in H.
  apply wp_bind. eapply wp_finalize_game_exit; [exact H|]. clear H. intros ? H.
  step. eapply wp_publish_handoff; [exact H|reflexivity|]. clear H. intros ? H. cbn in H.
  apply HQ. split; [done|]. by exists st.
Qed.

(** The owner is recorded and published; before, only the runtime of the title. *)
Lemma wp_publish_owner pid title app v g l st (Q : () -> world -> Prop) w :
  holds v g w -> 0 < pid -> is_supported_game_title_id title = true ->
  m_authority g = Bound pid title app -> m_waiting g = None ->
  pending_game_launches v = l -> thread_started v = st ->
  (forall w', holds (Life pid (game_exit_handoff_pending v) (background_of pid (game_exit_handoff_pending v) title) app
                       (pending_game_exit v) 0 title l st) (Monitor (Some pid) None NoAuthority) w' -> Q tt w') ->
  wp (publish_active_game pid title app) Q w.
Proof.
  intros H Hp Ht Ha Hw <- <- HQ. unfold publish_active_game.
  rewrite (proj2 (Z.ltb_lt 0 pid) Hp), (supported_title_named title Ht), (supported_title_copied title Ht). cbn [andb negb].
  step. apply wp_bind. apply wp_when; [intros _|done].
  eapply wp_emit; [exact H|cbn; by rewrite Ha, Hw, !bool_decide_true|]. clear H. intros ? H. cbn in H.
  eapply wp_publish_pid; [exact H|cbn; unfold published_game_active; rewrite (proj2 (Z.ltb_lt 0 pid) Hp); done|].
  clear H. intros wq ([focus E] & Hg). apply HQ. split; [|done]. exists focus. rewrite E. by destruct v.
Qed.

Lemma wp_clear_pending v g (Q : () -> world -> Prop) w :
  holds v g w -> published_game_active (active_game_pid v) false || bool_decide (m_owner g = None) = true ->
  (forall w', holds (Life (active_game_pid v) false (background_of (active_game_pid v) false (active_game_title_id v))
                       (active_game_app_id v) zero_exit 0 (active_game_title_id v) (pending_game_launches v) (thread_started v)) g w' ->
     Q tt w') -> wp clear_pending_game_exit Q w.
Proof.
  intros H Hok HQ. unfold clear_pending_game_exit. step.
  eapply wp_publish_handoff; [exact H|exact Hok|]. clear H. intros wq ([focus E] & Hg). apply HQ.
  split; [|done]. exists focus. rewrite E. by destruct v.
Qed.

(** *** Launches *)
Lemma wp_runtime_missing known title v g (Q : bool -> world -> Prop) w :
  holds v g w -> (forall b w', holds v g w' -> Q b w') -> wp (runtime_missing sys known title) Q w.
Proof.
  intros H HQ. unfold runtime_missing. apply wp_bind.
  assert (Hprep : wp (if known then ask sys (fun n => sys_prepared sys n title) quiet else ret false)
                    (fun _ w' => holds v g w') w) by (destruct known; [by step|by step]).
  eapply wp_mono; [exact Hprep|]. clear Hprep H. intros prepared w1 H. apply wp_bind.
  assert (Hmount : wp (if prepared : bool then ask sys (fun n => sys_data_mounted sys n title) quiet else ret false)
                     (fun _ w' => holds v g w') w1) by (destruct prepared; [by step|by step]).
  eapply wp_mono; [exact Hmount|]. clear Hmount H. intros ready w2 H. destruct ready; [step; by apply HQ|].
  step. step. by apply HQ.
Qed.

Lemma wp_bind_app title app pid v g (Q : bool -> world -> Prop) w :
  holds v g w -> m_authority g = Watched pid ->
  (forall w', holds v (Monitor (m_owner g) (m_waiting g) (Bound pid title app)) w' -> Q true w') ->
  (forall w', holds v g w' -> Q false w') -> wp (bind_prepared_app sys title app pid) Q w.
Proof.
  intros H Ha Ht Hf. unfold bind_prepared_app.
  eapply (wp_ask sys _ _ v g (fun n => if sys_bind sys n title app pid then Monitor (m_owner g) (m_waiting g) (Bound pid title app) else g)); [exact H| |].
  - intros n. cbn. rewrite Ha, Z.eqb_refl. by destruct (sys_bind sys n title app pid).
  - intros n w' H'. destruct (sys_bind sys n title app pid); auto.
Qed.

(** What a handoff leaves: the new owner, or everything as it was. *)
Definition after_handoff (o : owner_state) (l : list pending_game_launch_t) (pid : Z) (title : string)
    (r : game_handoff_result_t) (w : world) : Prop :=
  match r with
  | GAME_HANDOFF_NONE => rest o l (Watched pid) w
  | GAME_HANDOFF_COMPLETE => exists app, rest (Live pid title app) l NoAuthority w
  | GAME_HANDOFF_DEFERRED => exists a, rest o l a w
  end.

Lemma wp_handoff_source pid title app o l a (Q : option (Z * Z * bool) -> world -> Prop) w :
  rest o l a w ->
  (forall w' r, rest o l a w' ->
     match r with
     | Some (old, _, true) => exists e, o = Exiting e /\ old = pe_pid e
     | Some (old, _, false) => 0 < old -> exists t ap, o = Live old t ap
     | None => True
     end -> Q r w') ->
  wp (handoff_source sys pid title app) Q w.
Proof.
  intros H HQ. unfold handoff_source. apply wp_bind. eapply rest_life; [exact H|]. intros focus st _.
  destruct o as [|p t ap|e]; cbn.
  - step. apply HQ; [done|lia].
  - destruct (_ && _) eqn:E; [|step; apply HQ; [done|lia]].
    apply wp_bind. assert (Hw : forall r w', rest (Live p t ap) l a w' ->
      wp (ret (if r : bool then None else Some (p, ap, false))) Q w').
    { intros r w' H'. step. apply HQ; [done|]. destruct r; [done|]. intros. by eexists _, _. }
    destruct (_ || _); [|step; by apply (Hw false)]. unfold is_process_alive. apply wp_bind.
    eapply rest_quiet; [exact H|done|]. intros n w' H'. step. by apply Hw.
  - destruct (pe_active e && _) eqn:E; step; (apply HQ; [done|]); [by exists e|lia].
Qed.

Lemma wp_try_handoff pid title app o l (Q : game_handoff_result_t -> world -> Prop) w :
  0 < pid -> is_supported_game_title_id title = true -> rest o l (Watched pid) w ->
  (forall r w', after_handoff o l pid title r w' -> Q r w') -> wp (try_game_process_handoff sys pid title app) Q w.
Proof.
  intros Hp Ht H HQ. unfold try_game_process_handoff.
  rewrite (supported_title_named title Ht). destruct (Z.leb_spec pid 0); [lia|]. cbn [orb].
  apply wp_bind. eapply wp_handoff_source; [exact H|]. clear H. intros w1 r H Hr.
  destruct r as [[[old oldapp] pending]|]; [|step; apply HQ; by eexists].
  destruct (Z.leb_spec old 0); [step; by apply HQ|].
  set (app' := if app =? 0 then oldapp else app). destruct H as (Ho & st & H).
  apply wp_bind. eapply wp_runtime_missing; [exact H|]. clear H. intros missing w2 H.
  destruct missing; [step; apply HQ; eexists; split; [done|by exists st]|].
  apply wp_bind. eapply (wp_bind_app title app' pid _ _ _ _ H); [by destruct o| |]; clear H; intros w3 H; cbn [negb];
    [|step; apply HQ; eexists; split; [done|by exists st]].
  step. step.
  assert (Hown : m_owner (owner_monitor o (Watched pid)) = Some old).
  { destruct pending; [destruct Hr as (e & -> & ->); done|destruct Hr as (t & ap & ->); done]. }
  assert (Hwait : m_waiting (owner_monitor o (Watched pid)) = None \/ m_waiting (owner_monitor o (Watched pid)) = Some old).
  { destruct pending; [destruct Hr as (e & -> & ->); by right|destruct Hr as (t & ap & ->); [done|by left]]. }
  apply wp_bind. eapply (wp_tell sys (EvHandoff old pid) _ _ _ _ _ H).
  { cbn. by rewrite Hown, !bool_decide_true. }
  clear H. intros w6 H. apply wp_bind.
  eapply (wp_publish_owner _ _ _ _ _ _ _ _ _ H Hp Ht eq_refl eq_refl eq_refl eq_refl). clear H. intros w7 H.
  assert (Hdone : forall w', holds (owner_life (Live pid title app') 0 l st) (Monitor (Some pid) None NoAuthority) w' ->
    Q GAME_HANDOFF_COMPLETE w').
  { intros wz Hz. apply HQ. exists app'. split; [done|]. by exists st. }
  assert (Hl : pending_game_launches (owner_life o 0 l st) = l) by (by destruct o).
  assert (Hst : thread_started (owner_life o 0 l st) = st) by (by destruct o).
  rewrite Hl, Hst in H.
  apply wp_bind. apply wp_when; intros ->.
  - eapply wp_clear_pending; [exact H|cbn; unfold published_game_active; by rewrite (proj2 (Z.ltb_lt 0 pid) Hp)|].
    clear H. intros w8 H. step. apply Hdone. exact H.
  - step. destruct Hr as (t & ap & ->); [done|]. apply Hdone. exact H.
Qed.

Lemma wp_dispatch pid time title app o l a (Q : bool -> world -> Prop) w :
  0 < pid -> is_supported_game_title_id title = true -> rest o l a w ->
  (forall r w', (if r : bool then exists app' a', rest (Live pid title app') l a' w'
                 else exists o' a', rest o' l a' w' /\ (o' = o \/ o' = settled o)) -> Q r w') ->
  wp (dispatch_game_launch sys pid time title app) Q w.
Proof.
  intros Hp Ht (Ho & st & H) HQ. unfold dispatch_game_launch, register_game_exit_watch.
  apply wp_bind. eapply (wp_ask sys _ _ _ _ (fun n => if bool_decide (sys_watch sys n pid = None) then owner_monitor o (Watched pid)
    else owner_monitor o a) _ _ H).
  { intros n. cbn. by destruct (bool_decide _), o. }
  clear H. intros n w1 H. destruct (sys_watch sys n pid) as [e|].
  - rewrite bool_decide_false in H by done.
    step; [step|]; step; apply HQ; exists o, a; (split; [by split; [|exists st]|by left]).
  - rewrite bool_decide_true in H by done. apply wp_bind.
    apply (wp_try_handoff _ _ _ o l _ _ Hp Ht); [by split; [|exists st]|]. clear H st n.
    intros r w2 H. destruct r; cbn in H.
    + apply wp_bind. eapply wp_finalize_pending; [exact H|]. clear H. intros w3 H.
      apply wp_bind. eapply rest_life; [exact H|]. intros focus st _. destruct H as (Ho' & st' & H).
      cbv zeta beta. set (same := andb _ (same_application_identity _ _ _ _)). 
      match goal with |- context [if ?b then ?x else app] => set (app' := if b then x else app) end. apply wp_bind.
      eapply wp_runtime_missing; [exact H|]. clear H. intros missing w4 H.
      destruct missing; [step; apply HQ; exists (settled o), (Watched pid); split; [by split; [|exists st']|by right]|].
      apply wp_bind. eapply (wp_bind_app _ _ _ _ _ _ _ H); [by destruct o| |]; clear H; intros w5 H; cbn [negb];
        [|step; apply HQ; exists (settled o), (Watched pid); split; [by split; [|exists st']|by right]].
      apply wp_bind.
      assert (Hwait : m_waiting (owner_monitor (settled o) (Watched pid)) = None) by (by destruct o).
      eapply (wp_publish_owner _ _ _ _ _ _ _ _ _ H Hp Ht eq_refl Hwait eq_refl eq_refl). clear H. intros w6 H.
      assert (Hrest : forall w', holds (owner_life (Live pid title app') 0 l st') (Monitor (Some pid) None NoAuthority) w' -> Q true w').
      { intros wz Hz. apply HQ. exists app', NoAuthority. by split; [|exists st']. }
      assert (H' : holds (owner_life (Live pid title app') 0 l st') (Monitor (Some pid) None NoAuthority) w6) by (by destruct o).
      clear H. step; [step|]; do 2 step; step; apply Hrest; assumption.
    + step. destruct H as (ap & H). apply HQ. by eexists _, _.
    + step. destruct H as (a' & H). apply HQ. exists o, a'. by split; [|left].
Qed.

End operations.

(** *** The table of launches *)
Lemma launches_cleared : launches_ok cleared_launches.
Proof.
  unfold cleared_launches. split; [by rewrite length_replicate|]. split.
  - apply Forall_replicate. by intros ?.
  - intros i j x y [-> _]%lookup_replicate. done.
Qed.

(** An entry written is inactive, or active for a process no other entry holds. *)
Lemma launches_written i e l : launches_ok l ->
  (pl_active e = true -> 0 < pl_pid e /\ forall j x, l !! j = Some x -> pl_active x = true -> pl_pid x = pl_pid e -> j = i) ->
  launches_ok (<[i := e]> l).
Proof.
  intros (Hlen & Hpos & Hu) He. split; [by rewrite length_insert|]. split.
  - apply Forall_insert; [done|]. intros Ha. by apply He.
  - intros j k x y Hj Hk Hx Hy Heq.
    apply list_lookup_insert_Some in Hj as [(<- & <- & _)|[? Hj]], Hk as [(<- & <- & _)|[? Hk]].
    + done.
    + destruct (He Hx) as [_ He']. symmetry. by apply (He' k y).
    + destruct (He Hy) as [_ He']. by apply (He' j x).
    + by eapply Hu.
Qed.

Lemma launches_entry_cleared i l : launches_ok l -> launches_ok (<[i := zero_launch]> l).
Proof. intros H. by apply launches_written. Qed.

Lemma launches_deadline i d l : launches_ok l -> launches_ok (set_deadline i d l).
Proof.
  intros H. unfold set_deadline. destruct (l !! i) as [e|] eqn:E; [|done].
  apply launches_written; [done|]. cbn. intros Ha.
  destruct H as (_ & Hpos & Hu). split; [by eapply (Forall_lookup_1 _ _ _ _ Hpos E)|].
  intros j x Hx Hax Heq. by eapply Hu.
Qed.

Lemma reserve_from_in l now i0 oldest :
  match oldest with Some (j, _) => (j < i0)%nat | None => l <> [] end ->
  exists i, reserve_from l now i0 oldest = Some i /\ (i < i0 + length l)%nat.
Proof.
  revert i0 oldest. induction l as [|e l IH]; intros i0 oldest Ho; cbn [reserve_from length].
  - destruct oldest as [[j ?]|]; [|done]. exists j. split; [done|lia].
  - destruct (negb (pl_active e)); [exists i0; split; [done|lia]|].
    destruct (_ && _); [exists i0; split; [done|lia]|].
    destruct (IH (S i0) (match oldest with None => Some (i0, e) | Some (j, o) => if older_deadline e o then Some (i0, e) else Some (j, o) end))
      as (i & -> & ?).
    { destruct oldest as [[j o]|]; [destruct (older_deadline e o)|]; lia. }
    exists i. split; [done|lia].
Qed.

Lemma find_launch_spec pid l i : find_pending_game_launch pid l = Some i ->
  exists e, l !! i = Some e /\ pl_active e = true /\ pl_pid e = pid.
Proof.
  intros (e & He & Hp & _)%find_index_Some. exists e. split; [done|]. by apply andb_true_iff in Hp as [? ?%Z.eqb_eq].
Qed.

Lemma queue_launch_ok pid time now l : launches_ok l -> 0 < pid ->
  exists i l', queue_pending_game_launch pid time now l = Some (i, l') /\ launches_ok l' /\ (i < length l)%nat /\
    find_pending_game_launch pid l' = Some i.
Proof.
  intros Hl Hp. unfold queue_pending_game_launch.
  set (base := if time =? 0 then now else time). set (deadline := if base =? 0 then 0 else _).
  assert (Hw : forall i, (i < length l)%nat -> (forall j x, l !! j = Some x -> pl_active x = true -> pl_pid x = pid -> j = i) ->
    exists i0 l', Some (i, <[i:=PendingLaunch true pid base deadline]> l) = Some (i0, l') /\ launches_ok l' /\ (i0 < length l)%nat /\
      find_pending_game_launch pid l' = Some i0).
  { intros i Hi Hu. eexists _, _. split; [done|]. split; [by apply launches_written|]. split; [done|].
    apply find_index_Some. eexists. split; [by apply list_lookup_insert_eq|]. split; [unfold has_launch; cbn; apply Z.eqb_refl|].
    intros j x Hj Hx. destruct (decide (j = i)) as [->|Hne]; [lia|].
    rewrite list_lookup_insert_ne in Hx by done. destruct (has_launch pid x) eqn:E; [|done].
    apply andb_true_iff in E as [? ?%Z.eqb_eq]. exfalso. apply Hne. by apply (Hu j x Hx). }
  destruct (find_pending_game_launch pid l) as [i|] eqn:Hf.
  - apply find_launch_spec in Hf as (e & He & Ha & Hpid). apply Hw; [by eapply lookup_lt_Some|].
    intros j x Hx Hax Hxp. destruct Hl as (_ & _ & Hu). eapply Hu; [exact Hx|exact He|..]; congruence.
  - destruct (reserve_from_in l now 0 None) as (i & Hr & Hi).
    { destruct l; [|done]. by destruct Hl. }
    unfold reserve_pending_game_launch. rewrite Hr. apply Hw; [lia|].
    intros j x Hx Hax Hxp. exfalso. unfold find_pending_game_launch in Hf.
    eapply find_index_None in Hf; [|exact Hx]. unfold has_launch in Hf. by rewrite Hax, Hxp, Z.eqb_refl in Hf.
Qed.

(** *** The invariant through the handlers *)

(** What is known of the owner; no operation but the exit of the running game opens a
    handoff window. *)
Class OwnerProperty := {
  owner_property : owner_state -> Prop;
  property_settled o : owner_property o -> owner_property (settled o);
  property_live pid title app : owner_property (Live pid title app);
}.

Section calm.
Context {Fu : Fuel} {Sn : Since} {P : OwnerProperty} (sys : system).

Definition calm (w : world) : Prop := exists o l a, owner_property o /\ launches_ok l /\ rest o l a w.

(** An operation that takes the invariant to the invariant. *)
Definition calming {A} (m : M A) : Prop := forall w, calm w -> wp m (fun _ w' => calm w') w.

Lemma calming_ret {A} (x : A) : calming (ret x).
Proof. intros w H. by apply wp_ret. Qed.

Lemma calming_stuck {A} : exhausted -> calming (@stuck world A).
Proof. intros Hex w _. by apply wp_stuck. Qed.

Lemma calming_bind {A B} (m : M A) (k : A -> M B) : calming m -> (forall x, calming (k x)) -> calming (bind m k).
Proof. intros Hm Hk w H. apply wp_bind. eapply wp_mono; [by apply Hm|]. intros x w' Hw. by apply Hk. Qed.

Lemma calming_when b (m : M ()) : (b = true -> calming m) -> calming (when b m).
Proof. intros Hm w H. apply wp_when; [intros; by apply Hm|done]. Qed.

Lemma calming_get {A} (f : life -> A) : calming (get f).
Proof. intros w H. by apply wp_look. Qed.

Lemma calming_ask {A} (f : nat -> A) ev : (forall n g, monitor_step g (ev (f n)) = Some g) -> calming (ask sys f ev).
Proof. intros Hev w (o & l & a & Po & Hl & H). eapply rest_quiet; [exact H|done|]. intros n w' H'. by exists o, l, a. Qed.

Lemma calming_tell ev : (forall g, monitor_step g ev = Some g) -> calming (tell sys ev).
Proof. intros Hev. by apply calming_ask. Qed.

Lemma calming_focus F : (forall v, exists focus, F v = with_focus focus v) -> calming (put F).
Proof. intros HF w (o & l & a & Po & Hl & H). eapply rest_focus; [exact H|done|]. intros w' H'. by exists o, l, a. Qed.

Lemma calming_launches (F : list pending_game_launch_t -> list pending_game_launch_t) :
  (forall l, launches_ok l -> launches_ok (F l)) ->
  calming (put (fun v => with_launches (F (pending_game_launches v)) v)).
Proof.
  intros HF w (o & l & a & Po & Hl & H). apply (rest_launches (F l) o l a _ _ _ H).
  - by intros v ->.
  - intros w' H'. exists o, (F l), a. auto.
Qed.

Lemma calming_clear_all : calming clear_all_pending_game_launches.
Proof. apply (calming_launches (fun _ => cleared_launches)). intros. apply launches_cleared. Qed.

Lemma calming_clear i : calming (clear_pending_game_launch i).
Proof. apply (calming_launches (fun l => <[i := zero_launch]> l)). apply launches_entry_cleared. Qed.

(** Reading the launches gives a table that is in order. *)
Lemma calm_launches {A} (k : list pending_game_launch_t -> M A) Q w :
  calm w -> (forall l, launches_ok l -> wp (k l) Q w) -> wp (let* l := get pending_game_launches in k l) Q w.
Proof.
  intros (o & l & a & Po & Hl & H) HQ. apply wp_bind. eapply (rest_get _ l); [exact H|by destruct o|]. by apply HQ.
Qed.

Lemma calming_finalize : calming (finalize_pending_game_exit sys).
Proof.
  intros w (o & l & a & Po & Hl & H). eapply wp_finalize_pending; [exact H|]. intros w' H'. exists (settled o), l, a. by split; [apply property_settled|].
Qed.

Lemma calming_finalize_other pid time : calming (finalize_game_exit sys pid time None).
Proof.
  intros w (o & l & a & Po & Hl & Ho & st & H). eapply wp_finalize_game_exit; [exact H|].
  intros w' H'. exists o, l, a. split; [done|]. split; [done|]. by split; [|exists st].
Qed.

Lemma calming_dispatch pid time title app : 0 < pid -> is_supported_game_title_id title = true ->
  calming (dispatch_game_launch sys pid time title app).
Proof.
  intros Hp Ht w (o & l & a & Po & Hl & H). eapply wp_dispatch; [done|done|exact H|].
  intros [] w' H'.
  - destruct H' as (app' & a' & H'). exists (Live pid title app'), l, a'. by split; [apply property_live|].
  - destruct H' as (o' & a' & H' & Ho'). exists o', l, a'. split; [|done].
    destruct Ho' as [->| ->]; [done|by apply property_settled].
Qed.

Lemma calming_resolve pid : calming (resolve_game_title_id sys pid).
Proof. apply calming_bind; [by apply calming_ask|]. intros. apply calming_ret. Qed.

Lemma calming_alive pid : calming (is_process_alive sys pid).
Proof. apply calming_bind; [by apply calming_ask|]. intros. apply calming_ret. Qed.
End calm.

Create HintDb calm.
#[export] Hint Resolve calming_ret calming_stuck calming_bind calming_when calming_get calming_clear_all calming_clear
  calming_finalize calming_finalize_other calming_dispatch calming_resolve calming_alive : calm.
#[export] Hint Extern 1 (calming (ask _ _ _)) => apply calming_ask; intros; reflexivity : calm.
#[export] Hint Extern 1 (calming (tell _ _)) => apply calming_tell; intros; reflexivity : calm.
#[export] Hint Extern 1 (calming (monotonic_time_us _)) => apply calming_ask; intros; reflexivity : calm.
#[export] Hint Extern 1 (calming (stop_requested _)) => apply calming_ask; intros; reflexivity : calm.

(** Sequencing, branches and matches, down to the operations. *)
Ltac calmly :=
  lazymatch goal with
  | |- calming (bind _ _) => apply calming_bind; [calmly|intros; calmly]
  | |- calming (when _ _) => apply calming_when; intros; calmly
  | |- calming (if ?b then _ else _) => destruct b eqn:?; calmly
  | |- calming (match ?x with _ => _ end) => destruct x eqn:?; calmly
  | |- calming (put (with_focus _)) => apply calming_focus; intros; eexists; reflexivity
  | |- calming _ => auto with calm
  | |- _ => idtac
  end.

Section handlers.
Context {Fu : Fuel} {Sn : Since} {P : OwnerProperty} (sys : system).

Lemma calming_publish_background was : calming (publish_background_game_state was).
Proof.
  intros w (o & l & a & Po & Hl & Ho & st & H). eapply wp_publish_background; [exact H| |].
  - destruct o as [|pid t app|e]; cbn; [done| |].
    + destruct Ho as [Hp _]. unfold published_game_active. by rewrite (proj2 (Z.ltb_lt 0 pid) Hp).
    + destruct Ho as (He & _). by rewrite He.
  - intros w' ([focus E] & Hg). exists o, l, a. split; [done|]. split; [done|]. split; [done|]. exists st. split; [|done].
    exists focus. rewrite E. by destruct o.
Qed.

Lemma calming_focus_handler : calming (handle_pending_app_focus sys).
Proof.
  unfold handle_pending_app_focus, sm_game_lifecycle_has_active_game. calmly. apply calming_publish_background.
Qed.

Lemma calming_maybe_finalize : calming (maybe_finalize_pending_game_exit sys).
Proof. unfold maybe_finalize_pending_game_exit. calmly. Qed.

Lemma calming_defer pid time now : 0 < pid -> calming (defer_confirmed_game_launch_retry pid time now).
Proof.
  intros Hp. unfold defer_confirmed_game_launch_retry. destruct (now =? 0); [calmly|].
  apply calming_bind; [apply calming_clear_all|]. intros _ w Hw. apply calm_launches; [done|]. intros l Hl.
  destruct (queue_launch_ok pid (if time =? 0 then now else time) now l Hl Hp) as (i & l' & -> & Hl' & _).
  set (d := u64 _). apply (calming_launches (fun _ => set_deadline i d l')); [|done].
  intros _ _. by apply launches_deadline.
Qed.

Lemma calming_expire i now : (i < MAX_PENDING_GAME_EXEC_CANDIDATES)%nat -> calming (expire_launch i now).
Proof.
  intros Hi w Hw. unfold expire_launch. apply calm_launches; [done|]. intros l (Hlen & _).
  destruct (lookup_lt_is_Some_2 l i) as [e ->]; [lia|]. apply wp_when; [|done]. intros _. by apply calming_clear.
Qed.

Lemma calming_poll_confirmed i now e title app : 0 < pl_pid e -> is_supported_game_title_id title = true ->
  calming (poll_confirmed sys i now e title app).
Proof.
  intros Hp Ht. unfold poll_confirmed. cbv zeta. apply calming_bind.
  - match goal with |- context [set_deadline i ?d] => apply (calming_launches (set_deadline i d)) end. apply launches_deadline.
  - intros _. calmly. by apply calming_defer.
Qed.

Lemma calming_poll_entry i now : (i < MAX_PENDING_GAME_EXEC_CANDIDATES)%nat -> calming (poll_entry sys i now).
Proof.
  intros Hi w Hw. unfold poll_entry. apply calm_launches; [done|]. intros l (Hlen & Hpos & _).
  destruct (lookup_lt_is_Some_2 l i) as [e E]; [lia|]. rewrite E. revert w Hw.
  match goal with |- forall w, calm w -> wp ?m _ w => change (calming m) end.
  calmly; try by apply calming_expire. apply calming_poll_confirmed; [|done].
  eapply (Forall_lookup_1 _ _ _ _ Hpos E). by destruct (pl_active e).
Qed.

Lemma calming_poll_entries n i now : (i + n <= MAX_PENDING_GAME_EXEC_CANDIDATES)%nat -> calming (poll_entries sys n i now).
Proof.
  revert i. induction n as [|n IH]; intros i Hi; cbn [poll_entries]; [calmly|].
  apply calming_bind; [apply calming_poll_entry; lia|]. intros []; [calmly|apply IH; lia].
Qed.

Lemma calming_poll : calming (poll_game_modules sys).
Proof.
  unfold poll_game_modules. calmly; [by apply calming_poll_entries|apply calming_maybe_finalize|apply calming_focus_handler].
Qed.

(** Queueing the launch of a process finds an entry and keeps the processes distinct. *)
Lemma calming_queue pid time now : 0 < pid ->
  calming (let* l := get pending_game_launches in
    match queue_pending_game_launch pid time now l with
    | Some (_, l') => put (with_launches l')
    | None => stuck
    end).
Proof.
  intros Hp w Hw. apply calm_launches; [done|]. intros l Hl.
  destruct (queue_launch_ok pid time now l Hl Hp) as (i & l' & -> & Hl' & _).
  by apply (calming_launches (fun _ => l')).
Qed.

Lemma calming_exec pid : 0 < pid -> calming (handle_game_exec sys pid).
Proof.
  intros Hp. unfold handle_game_exec. apply calming_bind; [calmly|]. intros l.
  destruct (find_pending_game_launch pid l); [calmly|].
  apply calming_bind; [calmly|]. intros now. apply calming_bind; [calmly|]. intros [[title app]|].
  - calmly. by apply calming_defer.
  - apply calming_bind; [calmly|]. intros alive. apply calming_when. intros _. by apply calming_queue.
Qed.

(** The exit of the running game opens the handoff window. *)
Lemma wp_exit_live pid title app l a (Q : () -> world -> Prop) w :
  rest (Live pid title app) l a w ->
  (forall time w', rest (Exiting (PendingExit true pid app time title)) l a w' -> Q tt w') ->
  wp (let* owner := consume_active_game pid in
      match owner with
      | Some (title_id, app_id) =>
          let* _ := finalize_pending_game_exit sys in
          let* _ := queue_pending_game_exit sys pid title_id app_id in
          let* _ := publish_active_game_pid 0 in
          tell sys (EvFakelibExit pid)
      | None => finalize_game_exit sys pid 0 None
      end) Q w.
Proof.
  intros ((Hp & Ht) & st & H) HQ. unfold consume_active_game. apply wp_bind. step.
  rewrite Z.eqb_refl, (supported_title_named title Ht), (supported_title_copied title Ht).
  destruct (Z.leb_spec pid 0); [lia|]. cbn [orb negb]. step. step.
  apply wp_bind. unfold finalize_pending_game_exit. step. step.
  unfold queue_pending_game_exit, monotonic_time_us. apply wp_bind. step. step. apply wp_bind.
  eapply wp_emit; [exact H|cbn; by rewrite !bool_decide_true|]. clear H. intros ? H. cbn in H.
  eapply wp_publish_handoff; [exact H|cbn; unfold published_game_active; by destruct (0 <? pid)|]. clear H. intros ? H. cbn in H.
  rewrite (supported_title_copied title Ht) in H. apply wp_bind.
  eapply wp_publish_pid; [exact H|done|]. clear H. intros ? H. cbn in H.
  step. eapply (HQ (sys_time sys n)). split; [done|]. exists st. exact H.
Qed.

(** A process that is not the running game is nobody's owner. *)
Lemma wp_consume_other pid o l a (Q : option (string * Z) -> world -> Prop) w :
  rest o l a w -> match o with Live p _ _ => p <> pid | _ => True end -> Q None w -> wp (consume_active_game pid) Q w.
Proof.
  intros H Ho HQ. unfold consume_active_game. apply wp_bind. eapply rest_life; [exact H|]. intros focus started _.
  destruct o as [|p t ap|e]; cbn; rewrite ?orb_true_r; [by apply wp_ret| |by apply wp_ret].
  destruct (Z.eqb_spec p pid); [done|]. cbn. rewrite orb_true_r. by apply wp_ret.
Qed.

Context (Hexit : forall e, owner_property (Exiting e)).

Lemma calming_exit pid : calming (handle_game_exit sys pid).
Proof.
  unfold handle_game_exit. apply calming_bind; [calmly|]. intros l0.
  apply calming_bind; [calmly|]. intros _. apply calming_bind; [calmly|]. intros e.
  destruct (pe_active e && (pe_pid e =? pid)); [calmly|].
  intros w (o & l & a & Po & Hl & H).
  assert (Hother : match o with Live p _ _ => p <> pid | _ => True end \/ exists t ap, o = Live pid t ap).
  { destruct o as [|p t ap|]; [by left| |by left]. destruct (decide (p = pid)) as [->|]; [right; by eexists _, _|by left]. }
  destruct Hother as [Hother|(t & ap & ->)].
  - apply wp_bind. eapply wp_consume_other; [exact H|done|]. apply calming_finalize_other. by exists o, l, a.
  - eapply wp_exit_live; [exact H|]. intros time w' H'. by exists (Exiting (PendingExit true pid ap time t)), l, a.
Qed.

Lemma calming_process_event pid exec exit : 0 < pid -> calming (handle_process_event sys pid exec exit).
Proof. intros Hp. unfold handle_process_event. calmly; [by apply calming_exec|apply calming_exit]. Qed.

(** *** Suspension and the turns of the watcher *)
Lemma calming_finalize_of pid : calming (finalize_exit_of sys pid).
Proof. unfold finalize_exit_of. calmly. Qed.

Context (Hpids : pids_positive sys) (Hfuel : exhausted).

Lemma calming_kevent {A} (k : option kernel_event + error -> M A) :
  (forall nev, match nev with inl (Some ev) => event_pid_positive ev | _ => True end -> calming (k nev)) ->
  calming (bind (ask sys (sys_kevent sys) quiet) k).
Proof.
  intros Hk w (o & l & a & Po & Hl & H). apply wp_bind. eapply rest_quiet; [exact H|done|]. intros n w' H'.
  apply Hk; [apply Hpids|]. by exists o, l, a.
Qed.

Lemma calming_kevents {A} (k : list kernel_event + error -> M A) :
  (forall nev, match nev with inl evs => Forall event_pid_positive evs | _ => True end -> calming (k nev)) ->
  calming (bind (ask sys (sys_kevents sys) quiet) k).
Proof.
  intros Hk w (o & l & a & Po & Hl & H). apply wp_bind. eapply rest_quiet; [exact H|done|]. intros n w' H'.
  apply Hk; [apply Hpids|]. by exists o, l, a.
Qed.

Lemma calming_sleep_exit fuel pid deadline : calming (sleep_exit_loop sys fuel pid deadline).
Proof.
  induction fuel as [|fuel IH]; cbn [sleep_exit_loop]; calmly; auto using calming_exit, calming_finalize_of.
Qed.

Lemma calming_terminate fuel pid : calming (terminate_game_for_sleep sys fuel pid).
Proof. unfold terminate_game_for_sleep. calmly; auto using calming_exit, calming_finalize_of, calming_sleep_exit. Qed.

Lemma calming_sleep_cleanup fuel owner deadline : calming (sleep_cleanup_loop sys fuel owner deadline).
Proof. induction fuel as [|fuel IH]; cbn [sleep_cleanup_loop]; calmly; auto using calming_exit. Qed.

Lemma calming_suspend fuel : calming (suspend_cleanup sys fuel).
Proof.
  unfold suspend_cleanup, snapshot_active_game, title_is_usb_backed, wait_for_shellcore_exit_cleanup_for_sleep.
  calmly; auto using calming_terminate, calming_sleep_cleanup.
Qed.

Lemma calming_drained evs : Forall event_pid_positive evs -> calming (handle_drained sys evs).
Proof.
  induction 1 as [|ev evs Hev _ IH]; cbn [handle_drained foldr]; [calmly|].
  apply calming_bind; [|by intros]. destruct ev; calmly. by apply calming_process_event.
Qed.

Lemma calming_drain fuel : calming (drain_game_lifecycle_events_nowait sys fuel).
Proof.
  induction fuel as [|fuel IH]; cbn [drain_game_lifecycle_events_nowait]; [calmly|].
  apply calming_kevents. intros nev Hev. calmly; auto. by apply calming_drained.
Qed.

Lemma calming_wait_turn sandbox s : calming (wait_turn sys sandbox s).
Proof.
  unfold wait_turn, compute_game_wait_timeout. apply calming_bind; [calmly|]. intros _.
  apply calming_kevent. intros nev Hev.
  calmly; auto using calming_poll, calming_process_event.
Qed.

Lemma calming_resume fuel sandbox s : calming (resume_turn sys fuel sandbox s).
Proof.
  unfold resume_turn. apply calming_bind; [apply calming_drain|]. intros drained. destruct (negb drained); [calmly|].
  apply calming_bind; [calmly|]. intros sleeping. destruct sleeping; [calmly|].
  apply calming_bind; [calmly|]. intros pid. destruct (_ && (pid =? _)) eqn:E.
  - calmly; auto using calming_wait_turn. apply calming_exec. lia.
  - intros w Hw. apply wp_bind, wp_ret. revert w Hw.
    match goal with |- forall w, calm w -> wp ?m _ w => change (calming m) end.
    calmly; auto using calming_wait_turn. done.
Qed.

Lemma calming_turn fuel sandbox s : calming (watcher_turn sys fuel sandbox s).
Proof.
  unfold watcher_turn, sleep_turn.
  calmly; auto using calming_suspend, calming_resume, calming_wait_turn.
Qed.

Lemma calming_iteration fuel sandbox s : calming (watcher_iteration sys fuel sandbox s).
Proof. unfold watcher_iteration. calmly; auto using calming_turn. Qed.

(** *** The ends of a session: nothing is published *)
Definition idle (w : world) : Prop := exists l a, launches_ok l /\ rest NoGame l a w.

Lemma idle_calm w : idle w -> calm w.
Proof.
  intros (l & a & H). exists NoGame, l, a. split; [|done]. apply (property_settled (Exiting zero_exit)), Hexit.
Qed.

Lemma wp_unpublish l a st (Q : () -> world -> Prop) v w :
  holds v (Monitor None None a) w -> game_exit_handoff_pending v = pe_active (pending_game_exit v) ->
  pending_game_launches v = l -> thread_started v = st ->
  (forall w', holds (Life 0 (pe_active (pending_game_exit v)) (background_of 0 (pe_active (pending_game_exit v)) "") 0
      (pending_game_exit v) 0 "" l st) (Monitor None None a) w' -> Q tt w') ->
  wp (publish_active_game 0 "" 0) Q w.
Proof.
  intros H He <- <- HQ. unfold publish_active_game. cbn [Z.ltb Z.compare andb]. step. step; [done|].
  eapply wp_publish_pid; [exact H|by rewrite orb_true_r|]. clear H. intros wq ([focus E] & Hg). apply HQ.
  split; [|done]. exists focus. rewrite E. destruct v; cbn in *. by rewrite He.
Qed.

Lemma wp_shutdown w : calm w -> wp (watcher_shutdown sys) (fun _ w' => idle w') w.
Proof.
  intros (o & l & a & Po & Hl & H). unfold watcher_shutdown. apply wp_bind.
  apply (rest_launches cleared_launches o l a _ _ _ H); [done|]. clear H. intros w1 (Ho & st & H).
  step. set (b := m_authority _) in H.
  apply wp_bind. eapply (wp_unpublish cleared_launches b st _ _ _ H); [by destruct o..|]. clear H. intros w3 H.
  eapply wp_clear_pending; [exact H|done|]. clear H. intros w4 H.
  exists cleared_launches, b. split; [apply launches_cleared|]. split; [done|]. by exists st.
Qed.

Lemma wp_start w : idle w -> wp (start_game_lifecycle_watcher sys) (fun _ w' => idle w') w.
Proof.
  intros (l & a & Hl & Ho & st & H). unfold start_game_lifecycle_watcher.
  assert (Hidle : forall st' w', holds (owner_life NoGame 0 l st') (owner_monitor NoGame a) w' -> idle w').
  { intros st' w' H'. exists l, a. split; [done|]. split; [done|]. by exists st'. }
  step. destruct st; [apply wp_ret; by eapply Hidle|]. step. destruct (sys_pipe sys n); cbn [negb]; [|apply wp_ret; by eapply Hidle].
  step. apply wp_bind. eapply wp_clear_pending; [exact H|done|]. clear H. intros w2 H. cbn in H.
  step. step; [step|]; step; eapply Hidle; exact H.
Qed.

Lemma wp_stop w : idle w -> wp stop_game_lifecycle_watcher (fun _ w' => idle w') w.
Proof.
  intros (l & a & Hl & Ho & st & H). unfold stop_game_lifecycle_watcher. step. step.
  - step. step. eapply (wp_unpublish l a false _ _ _ H); [done..|]. clear H. intros w2 H.
    exists l, a. split; [done|]. split; [done|]. by exists false.
  - exists l, a. split; [done|]. split; [done|]. by exists st.
Qed.
End handlers.

(** *** The owner, exactly *)
Definition owned_by `{Since} (o : owner_state) (w : world) : Prop := exists l a, launches_ok l /\ rest o l a w.

Section exact.
Context {Fu : Fuel} {Sn : Since} (sys : system).

Lemma owned_clear i o (Q : () -> world -> Prop) w :
  owned_by o w -> (forall w', owned_by o w' -> Q tt w') -> wp (clear_pending_game_launch i) Q w.
Proof.
  intros (l & a & Hl & H) HQ. apply (rest_launches (<[i := zero_launch]> l) o l a _ _ _ H).
  - by intros v ->.
  - intros w' H'. apply HQ. exists (<[i := zero_launch]> l), a. split; [by apply launches_entry_cleared|done].
Qed.

(** The exit of a process while another, or the same, is the running game. *)
Lemma wp_exit_of_live exited pid title app (Q : () -> world -> Prop) w :
  owned_by (Live pid title app) w ->
  (forall time w', exited = pid -> owned_by (Exiting (PendingExit true pid app time title)) w' -> Q tt w') ->
  (forall w', exited <> pid -> owned_by (Live pid title app) w' -> Q tt w') ->
  wp (handle_game_exit sys exited) Q w.
Proof.
  intros H Hown Hother. unfold handle_game_exit. apply wp_bind.
  destruct H as (l & a & Hl & H). eapply (rest_get _ l); [exact H|done|]. apply wp_bind.
  assert (Hc : wp (match find_pending_game_launch exited l with Some i => clear_pending_game_launch i | None => ret tt end)
                 (fun _ w' => owned_by (Live pid title app) w') w).
  { destruct (find_pending_game_launch exited l) as [i|]; [eapply owned_clear; [by exists l, a|auto]|apply wp_ret; by exists l, a]. }
  eapply wp_mono; [exact Hc|]. clear Hc H Hl l a. intros _ w1 (l & a & Hl & H).
  apply wp_bind. eapply (rest_get _ zero_exit); [exact H|done|]. cbn [pe_active zero_exit andb].
  destruct (decide (exited = pid)) as [->|Hne].
  - eapply wp_exit_live; [exact H|]. intros time w' H'. apply (Hown time); [done|]. by exists l, a.
  - apply wp_bind. eapply wp_consume_other; [exact H|done|]. destruct H as (Ho & st & H).
    eapply wp_finalize_game_exit; [exact H|]. intros w' H'. apply Hother; [done|].
    exists l, a. split; [done|]. split; [done|]. by exists st.
Qed.

Lemma wp_finalize_exit_of e (Q : () -> world -> Prop) w :
  owned_by (Exiting e) w -> (forall w', owned_by NoGame w' -> Q tt w') -> wp (finalize_exit_of sys (pe_pid e)) Q w.
Proof.
  intros (l & a & Hl & H) HQ. unfold finalize_exit_of. apply wp_bind. pose proof H as ((He & _) & _).
  eapply (rest_get _ e); [exact H|done|]. rewrite He, Z.eqb_refl. apply wp_when; [|done]. intros _.
  eapply wp_finalize_pending; [exact H|]. intros w' H'. apply HQ. by exists l, a.
Qed.

(** What the answer of the wait for a killed game means. *)
Definition game_gone (pid : Z) (title : string) (app : Z) (stopped : bool) (w : world) : Prop :=
  owned_by (if stopped then NoGame else Live pid title app) w.

Lemma owned_ask {A} (f : nat -> A) o (Q : A -> world -> Prop) w :
  owned_by o w -> (forall n w', (since <= n)%nat -> w_clock w = n -> w_clock w' = S n -> owned_by o w' -> Q (f n) w') -> wp (ask sys f quiet) Q w.
Proof.
  intros (l & a & Hl & Ho & st & H) HQ. eapply wp_ask_since; [exact H|done|]. intros n w' Hn Hc Hc' H'. apply HQ; [done..|].
  exists l, a. split; [done|]. split; [done|]. by exists st.
Qed.

(** The handling of the exit, and the report that the game is gone. *)
Lemma wp_exit_and_finalize pid title app (Q : bool -> world -> Prop) w :
  owned_by (Live pid title app) w -> (forall w', owned_by NoGame w' -> Q true w') ->
  wp (let* _ := handle_game_exit sys pid in let* _ := finalize_exit_of sys pid in ret true) Q w.
Proof.
  intros H HQ. apply wp_bind. eapply wp_exit_of_live; [exact H| |done]. intros time w1 _ H1.
  apply wp_bind. change pid with (pe_pid (PendingExit true pid app time title)).
  eapply wp_finalize_exit_of; [exact H1|]. intros w2 H2. apply wp_ret. by apply HQ.
Qed.
Lemma owned_publish_focus focus o (Q : () -> world -> Prop) w :
  owned_by o w -> (forall w', owned_by o w' -> Q tt w') -> wp (publish_app_focus focus) Q w.
Proof.
  intros (l & a & Hl & H) HQ. unfold publish_app_focus. apply wp_bind, wp_look.
  destruct (focus_after focus _) as [v woken]. apply wp_bind. eapply rest_focus; [exact H|by eexists|].
  clear H. intros w1 H. apply wp_when; intros _; [|apply HQ; by exists l, a].
  destruct H as (Ho & st & H). eapply wp_emit; [exact H|reflexivity|]. intros w' H'. apply HQ.
  exists l, a. split; [done|]. split; [done|]. by exists st.
Qed.
End exact.

(** The run so far, as the beginning of another. *)
Lemma owned_since n (Sn : Since) o w : @owned_by Sn o w -> (n <= w_clock w)%nat -> @owned_by n o w.
Proof.
  intros (l & a & Hl & Ho & st & Hv & Hg & _) Hn. exists l, a. split; [done|]. split; [done|]. exists st.
  split; [done|]. by split.
Qed.

(** The answers of the system once it has settled, from the question [N] on. *)
Record settled_from (sys : system) (deadline : Z) (N : nat) : Prop := {
  settled_deadline : 0 < deadline;
  settled_time n : (N <= n)%nat -> deadline <= sys_time sys n;
  settled_kevent n : (N <= n)%nat -> sys_kevent sys n <> inr EINTR;
}.


(** One turn of the wait: an answer, or another turn while the system has not settled. *)
Lemma sleep_exit_turn sys deadline N pid title app fuel (Sn : Since) w :
  settled_from sys deadline N -> @owned_by Sn (Live pid title app) w ->
  (forall w', (Sn < N)%nat -> @owned_by (S Sn) (Live pid title app) w' ->
     wp (F := wholly) (sleep_exit_loop sys fuel pid deadline) (fun b w'' => @game_gone 0%nat pid title app b w'') w') ->
  wp (F := wholly) (sleep_exit_loop sys (S fuel) pid deadline) (fun b w' => @game_gone 0%nat pid title app b w') w.
Proof.
  intros Hset H Hloop. cbn [sleep_exit_loop].
  apply wp_bind, (owned_ask _ _ _ _ _ H). clear H. intros n w1 Hn _ Hn' H.
  apply (owned_since (S Sn)) in H; [|unfold since in *; lia]. clear Hn Hn'. set (S1 := S Sn : Since) in *.
  assert (Hend : forall (b : bool) w', @owned_by S1 (if b then NoGame else Live pid title app) w' ->
    @game_gone 0%nat pid title app b w') by (intros b w' H'; eapply owned_since; [exact H'|lia]).
  destruct (sys_stopping sys n); [by apply wp_ret, (Hend false)|].
  apply wp_bind, (owned_ask _ _ _ _ _ H). clear H. intros k w2 Hk _ _ H.
  destruct (sys_kevent sys k) as [ev|e] eqn:Ek.
  2:{ destruct e; try by apply wp_ret, (Hend false). apply Hloop; [|exact H].
      destruct (decide (N <= k)%nat) as [Hle|]; [by destruct (settled_kevent _ _ _ Hset k Hle)|].
      change since with (S Sn) in Hk. lia. }
  assert (Htime : forall w', owned_by (Live pid title app) w' ->
    wp (F := wholly) (let* now_us := monotonic_time_us sys in
        if deadline_passed deadline now_us then
          let* alive := is_process_alive sys pid in
          if alive : bool then ret false
          else let* _ := handle_game_exit sys pid in let* _ := finalize_exit_of sys pid in ret true
        else sleep_exit_loop sys fuel pid deadline) (fun b w'' => @game_gone 0%nat pid title app b w'') w').
  { clear H. intros w3 H. apply wp_bind, (owned_ask _ _ _ _ _ H). clear H. intros m w4 Hm _ _ H.
    destruct (deadline_passed deadline (sys_time sys m)) eqn:Ed.
    - unfold is_process_alive. apply wp_bind, wp_bind, (owned_ask _ _ _ _ _ H). clear H. intros ? w5 _ _ _ H. apply wp_ret.
      destruct (negb _); [by apply wp_ret, (Hend false)|].
      eapply wp_exit_and_finalize; [exact H|]. intros w6 H6. by apply (Hend true).
    - apply Hloop; [|exact H]. destruct (decide (N <= m)%nat) as [Hle|]; [|change since with (S Sn) in Hm; lia].
      pose proof (settled_time _ _ _ Hset m Hle). pose proof (settled_deadline _ _ _ Hset). unfold deadline_passed in Ed. lia. }
  apply wp_bind. destruct ev as [[|exited err exec []|]|]; try by apply wp_ret, Htime.
  apply wp_bind. eapply wp_exit_of_live; [exact H|intros time w3 -> H3|intros w3 Hne H3].
  - rewrite Z.eqb_refl. apply wp_bind. change pid with (pe_pid (PendingExit true pid app time title)).
    eapply wp_finalize_exit_of; [exact H3|]. intros w4 H4. apply wp_ret, wp_ret. by apply (Hend true).
  - destruct (Z.eqb_spec exited pid); [done|]. apply wp_ret. by apply Htime.
Qed.

Lemma sleep_exit_ends sys deadline N pid title app fuel (Sn : Since) w :
  settled_from sys deadline N -> (N <= fuel + Sn)%nat -> @owned_by Sn (Live pid title app) w ->
  wp (F := wholly) (sleep_exit_loop sys (S fuel) pid deadline) (fun b w' => @game_gone 0%nat pid title app b w') w.
Proof.
  intros Hset. revert Sn w. induction fuel as [|fuel IH]; intros Sn w Hf H; (eapply sleep_exit_turn; [exact Hset|exact H|]).
  - intros w' Hlt. lia.
  - intros w' Hlt H'. apply (IH (S Sn)); [lia|exact H'].
Qed.

(** ** The theorems *)

Lemma at_rest_owned o w : at_rest o w <-> @owned_by 0%nat o w.
Proof.
  assert (Hf : forall focus st l, with_focus focus (owner_life o 0 l st) = owner_life o focus l st) by (by destruct o).
  split.
  - intros (Ho & (focus & l & st & Hl & E) & a & Hg). exists l, a. split; [done|]. split; [done|]. exists st.
    split; [exists focus; by rewrite Hf|]. split; [done|]. apply Nat.le_0_l.
  - intros (l & a & Hl & Ho & st & [focus E] & Hg & _). split; [done|]. split; [|by exists a].
    exists focus, l, st. by rewrite E, Hf.
Qed.

(** What the atomics say of an owner. *)
Definition told_title (o : owner_state) : bool * string :=
  match o with NoGame => (true, ""%string) | Live _ title _ => (true, title) | Exiting _ => (false, ""%string) end.

Definition told_active (o : owner_state) : bool := match o with NoGame => false | _ => true end.

(** Nothing is known of the owner but that there is one. *)
#[local] Instance any_owner : OwnerProperty := { owner_property _ := True; property_settled _ _ := I; property_live _ _ _ := I }.

Definition phase_invariant (p : phase) (w : world) : Prop :=
  match p with Running _ => @calm 0%nat any_owner w | _ => @idle 0%nat w end.

Lemma step_keeps_invariant sys s s' : pids_positive sys -> step sys s s' ->
  phase_invariant s.1 s.2 -> phase_invariant s'.1 s'.2.
Proof.
  intros Hp Hs. pose proof (fun e => I : owner_property (Exiting e)) as Hx.
  destruct Hs as [w w' _ E|w w' E|fuel sb t t' w w' E|fuel sb t w w' w'' E E'|w w' E|focus p w w' E]; cbn; intros H.
  - eapply idle_calm, (wp_result _ _ _ _ _ (wp_start (Fu := partly) sys w H) E). exact Hx.
  - exact (wp_result _ _ _ _ _ (wp_start (Fu := partly) sys w H) E).
  - exact (wp_result _ _ _ _ _ (calming_iteration (Fu := partly) sys Hx Hp I fuel sb t w H) E).
  - pose proof (wp_result _ _ _ _ _ (calming_iteration (Fu := partly) sys Hx Hp I fuel sb t w H) E) as H'.
    exact (wp_result _ _ _ _ _ (wp_shutdown (Fu := partly) sys w' H') E').
  - exact (wp_result _ _ _ _ _ (wp_stop (Fu := partly) w H) E).
  - assert (Hf : forall o, @owned_by 0%nat o w -> @owned_by 0%nat o w').
    { intros o Ho. refine (wp_result (F := partly) _ (fun _ w' => owned_by o w') _ _ _ _ E). eapply owned_publish_focus; [exact Ho|auto]. }
    destruct p; cbn in *; [by apply Hf| |by apply Hf].
    destruct H as (o & l & a & _ & Hl & H). destruct (Hf o) as (l' & a' & H'); [by exists l, a|]. by exists o, l', a'.
Qed.

Lemma reachable_invariant sys s : pids_positive sys -> reachable sys s -> phase_invariant s.1 s.2.
Proof.
  intros Hp Hr. unfold reachable in Hr. revert s Hr. apply rtc_ind_r.
  - exists cleared_launches, NoAuthority. split; [apply launches_cleared|]. split; [done|]. exists false.
    split; [by exists 0|]. split; [done|]. apply Nat.le_0_l.
  - intros y z _ Hs. by apply (step_keeps_invariant sys).
Qed.

(** *** The window after an exit *)

(** The exit [e] awaits its handoff, or no exit does. *)
Definition awaits_only (e : pending_game_exit_t) (o : owner_state) : Prop := forall e', o = Exiting e' -> e' = e.

Lemma awaits_settled e o : awaits_only e o -> awaits_only e (settled o).
Proof. by destruct o. Qed.

Definition awaiting (e : pending_game_exit_t) : OwnerProperty :=
  {| owner_property := awaits_only e; property_settled := awaits_settled e; property_live _ _ _ e' H := ltac:(done) |}.

Definition not_exiting (o : owner_state) : Prop := forall e, o <> Exiting e.

Lemma settled_not_exiting o : not_exiting o -> not_exiting (settled o).
Proof. by destruct o. Qed.

Definition closed_window : OwnerProperty :=
  {| owner_property := not_exiting; property_settled := settled_not_exiting; property_live _ _ _ e H := ltac:(done) |}.

Definition past_linger (sys : system) (e : pending_game_exit_t) (c : nat) : Prop := forall n, (c <= n)%nat ->
  sys_time sys n <> 0 /\ GAME_EXIT_SANDBOX_LINGER_US <= u64 (sys_time sys n - exit_time_us e).

Lemma closed_of o (Sn : Since) w : not_exiting o -> owned_by o w -> calm (P := closed_window) w.
Proof. intros Ho (l & a & H). by exists o, l, a. Qed.

Lemma wp_maybe_finalize_late (Fu : Fuel) (Sn : Since) sys e w :
  exit_time_us e <> 0 -> past_linger sys e since -> calm (P := awaiting e) w ->
  wp (maybe_finalize_pending_game_exit sys) (fun _ w' => calm (P := closed_window) w') w.
Proof.
  intros He Htime (o & l & a & Ho & Hl & H).
  destruct o as [|pid title app|e']; [| |pose proof (Ho e' eq_refl) as ->].
  1,2: apply (calming_maybe_finalize (P := closed_window)); eapply (closed_of _ _ _); [|by exists l, a]; done.
  unfold maybe_finalize_pending_game_exit, monotonic_time_us. apply wp_bind. eapply rest_life; [exact H|].
  intros focus started _. cbv zeta. pose proof H as ((Ha & _) & _). cbn. rewrite Ha. cbn.
  apply wp_bind. pose proof H as (Hok & st & Hh). eapply wp_ask_since; [exact Hh|done|]. intros n w1 Hn _ _ H1.
  destruct (Htime n Hn) as [Hz Hlin]. apply wp_bind. eapply wp_quiet; [exact H1|done|]. intros k w2 H2.
  destruct (Z.eqb_spec (sys_time sys n) 0); [done|]. destruct (Z.eqb_spec (exit_time_us e) 0); [done|].
  destruct (Z.ltb_spec (u64 (sys_time sys n - exit_time_us e)) GAME_EXIT_SANDBOX_LINGER_US); [lia|].
  destruct (Z.ltb_spec (u64 (sys_time sys n - exit_time_us e)) GAME_PROCESS_HANDOFF_GRACE_US);
    [unfold GAME_PROCESS_HANDOFF_GRACE_US, GAME_EXIT_SANDBOX_LINGER_US in *; lia|].
  rewrite andb_false_r. cbn.
  apply (wp_finalize_pending sys (Exiting e) l a); [split; [done|]; by exists st|].
  intros w3 Hf. exists NoGame, l, a. by split.
Qed.

Lemma poll_closes_window (Sn : Since) sys e w :
  exit_time_us e <> 0 -> past_linger sys e since -> calm (P := awaiting e) w ->
  wp (F := wholly) (poll_game_modules sys) (fun _ w' => calm (P := closed_window) w') w.
Proof.
  intros He Htime Hw. unfold poll_game_modules. apply wp_bind.
  eapply wp_mono; [apply (calming_ask (P := awaiting e)); [done|exact Hw]|]. clear Hw. cbv beta. intros now w1 Hw.
  apply wp_bind. eapply wp_mono; [apply (calming_poll_entries (P := awaiting e)); [done|exact Hw]|]. clear Hw. cbv beta. intros _ w2 Hw.
  apply wp_bind. eapply wp_mono; [by apply (wp_maybe_finalize_late _ _ sys e)|]. clear Hw. cbv beta. intros _. 
  match goal with |- forall w, calm w -> wp ?m _ w => change (calming (Fu := wholly) (P := closed_window) m) end.
  calmly. apply calming_focus_handler.
Qed.

(** Claim C25: in every reachable state of the program, under all answers of the system, the variables are those of one of
    three situations (no game, a running process with its supported title, an exit that
    awaits a handoff), pending launches name distinct processes, and the monitor accepted
    the history: a process becomes the owner only after its exit watch was installed and
    its runtime bound to it, and never while an exit is unresolved; an exit is queued for
    the owner only and resolved once, by finalizing it or by a handoff from it; and
    "no game" is published only when the cleanup of the last owner is complete.  (Only
    the end of the watcher, [EvShutdown], drops a process and a pending exit unresolved.) *)
Theorem game_history_monitored sys p w : pids_positive sys -> reachable sys (p, w) ->
  exists o, at_rest o w /\ (match p with Running _ => True | _ => o = NoGame end).
Proof.
  intros Hp Hr. pose proof (reachable_invariant sys (p, w) Hp Hr) as H. destruct p as [|s|]; cbn in H.
  2:{ destruct H as (o & l & a & _ & Hl & H). exists o. split; [|done]. apply at_rest_owned. by exists l, a. }
  1,2: exists NoGame; split; [by apply at_rest_owned|done].
Qed.

(** what other threads are told. With a running game the title read back from
    the atomic snapshot is its title and work on other titles is allowed; while an exit
    awaits its handoff no title is told and work is not allowed; without a game all work is allowed. *)
Theorem background_title_told o w : at_rest o w ->
  sm_game_lifecycle_background_title w = Some (told_title o, w) /\
  sm_game_lifecycle_has_active_game w = Some (told_active o, w).
Proof.
  intros (Ho & (focus & l & started & _ & E) & _).
  unfold sm_game_lifecycle_background_title, sm_game_lifecycle_has_active_game, get, look. rewrite E.
  destruct o as [|pid title app|e]; cbn.
  - done.
  - destruct Ho as [Hp Ht]. unfold background_of, has_active_game_loads. rewrite (proj2 (Z.ltb_lt 0 pid) Hp), Ht.
    cbn. by rewrite (proj1 (title_state_decoded title Ht)).
  - destruct Ho as (He & _). by rewrite He.
Qed.

(** the handoff window is bounded. A poll whose clock has passed the linger
    time of a pending exit ends, whatever the sandbox and the other modules answer, and
    afterwards no exit is pending: it was finalized, or handed to a replacement. *)
Theorem exit_window_closes sys e w : at_rest (Exiting e) w -> exit_time_us e <> 0 -> past_linger sys e (w_clock w) ->
  exists w', poll_game_modules sys w = Some (tt, w') /\ exists o, at_rest o w' /\ not_exiting o.
Proof.
  intros H He Htime. apply at_rest_owned in H.
  apply (owned_since (w_clock w)) in H; [|done]. destruct H as (l & a & Hl & H).
  destruct (wp_ends _ _ _ (poll_closes_window (w_clock w) sys e w He Htime
    ltac:(exists (Exiting e), l, a; by split; [intros e' [= ->]|]))) as ([] & w' & E & o & l' & a' & Ho & Hl' & H').
  exists w'. split; [done|]. exists o. split; [|done]. apply at_rest_owned.
  eapply owned_since; [by exists l', a'|lia].
Qed.

(** before the system sleeps, a game on a USB device is stopped or the wait is
    given up. The wait ends once the clock passes its deadline; its answer is [true]
    exactly when the exit of the game has been handled and finalized, so that nothing is published any more. *)
Theorem sleep_stops_game sys pid title app N fuel w :
  at_rest (Live pid title app) w ->
  settled_from sys (deadline_after (sys_time sys (S (w_clock w))) GAME_SLEEP_EXIT_TIMEOUT_US) N -> (N <= fuel)%nat ->
  exists stopped w', terminate_game_for_sleep sys (S fuel) pid w = Some (stopped, w') /\
    at_rest (if stopped then NoGame else Live pid title app) w'.
Proof.
  intros H%at_rest_owned Hset Hfuel.
  assert (Hwp : wp (F := wholly) (terminate_game_for_sleep sys (S fuel) pid)
      (fun b w' => @game_gone 0%nat pid title app b w') w).
  2:{ apply wp_ends in Hwp as (b & w' & E & H'). exists b, w'. split; [done|]. by apply at_rest_owned. }
  unfold terminate_game_for_sleep. apply wp_bind. destruct H as (l & a & Hl & Ho & st & H).
  eapply wp_ask_since; [exact H|done|]. clear H. intros n w1 _ En En1 H.
  assert (H' : @owned_by 0%nat (Live pid title app) w1).
  { exists l, a. split; [done|]. split; [done|]. by exists st. }
  clear H. destruct (sys_kill sys n pid) as [[]|].
  1:{ eapply wp_exit_and_finalize; [exact H'|]. done. }
  1-3: by apply wp_ret.
  apply wp_bind, (owned_ask _ _ _ _ _ H'). clear H'. intros m w2 _ Em _ H'.
  replace m with (S (w_clock w)) by congruence. eapply sleep_exit_ends; [exact Hset| |exact H'].
  change (0%nat : Since) with 0%nat. lia.
Qed.

(** *** Two loads are not one *)

(** The first [n] turns of a session. *)
Fixpoint turns (sys : system) (n fuel : nat) (s : watcher) : M (option watcher) :=
  match n with
  | O => ret (Some s)
  | S n' =>
      let* next := watcher_iteration sys fuel true s in
      match next with Some s' => turns sys n' fuel s' | None => ret None end
  end.

Definition session (sys : system) (n fuel : nat) : M (option watcher) :=
  let* ok := start_game_lifecycle_watcher sys in
  if ok : bool then turns sys n fuel (Watcher false 0) else ret None.

Lemma turns_reachable sys n fuel s s' w w' :
  reachable sys (Running s, w) -> turns sys n fuel s w = Some (Some s', w') -> reachable sys (Running s', w').
Proof.
  revert s w. induction n as [|n IH]; intros s w Hr; cbn [turns].
  - by intros [= <- <-].
  - unfold bind. destruct (watcher_iteration sys fuel true s w) as [[[s1|] w1]|] eqn:E; [|done|done].
    apply IH. eapply rtc_r; [exact Hr|]. by eapply StepTurn.
Qed.

Lemma session_reachable sys n fuel s w : session sys n fuel initial_world = Some (Some s, w) -> reachable sys (Running s, w).
Proof.
  unfold session, bind. destruct (start_game_lifecycle_watcher sys initial_world) as [[[] w1]|] eqn:E; [|done|done].
  apply turns_reachable. apply rtc_once. by constructor.
Qed.

(** The published values, oldest first, and the answer of a reader of
    [sm_game_lifecycle_has_active_game] whose loads meet the values [i] and [j]. *)
Definition snapshots (tr : list event) : list (Z * bool) :=
  omap (fun e => match e with EvShared pid handoff _ => Some (pid, handoff) | _ => None end) (rev tr).

Definition reader_answer (tr : list event) (i j : nat) : option bool :=
  do? a <- snapshots tr !! i ;
  do? b <- snapshots tr !! j ;
  Some (has_active_game_loads a.1 b.2).

(** A game whose process is replaced: 10 starts, exits, and 11 takes over. *)
Definition replacing (time : nat -> Z) : system := {|
  sys_time := time;
  sys_app_info _ _ := Some ("CUSA00001"%string, 5);
  sys_signal _ _ := None; sys_kill _ _ := None; sys_watch _ _ := None;
  sys_prepared _ _ := true; sys_data_mounted _ _ := true; sys_ensure _ _ := true; sys_bind _ _ _ _ := true;
  sys_sandbox_exists _ _ := true; sys_note_exit _ _ _ := None; sys_mount_link _ _ := None; sys_image_link _ _ := None;
  sys_release_status _ := None; sys_has_prepared_mount _ := false; sys_usb_suspend _ _ := true;
  sys_watches_suspended _ := true; sys_sleeping _ := false; sys_stopping _ := false;
  sys_kevent n := inl (Some (if (n <? 20)%nat then KProc 10 false true false
                             else if (n <? 30)%nat then KProc 10 false false true else KProc 11 false true false));
  sys_kevents _ := inl []; sys_select _ := None; sys_next_wakes _ := []; sys_pipe _ := true; sys_thread_starts _ := true;
  sys_focus _ := [];
|}.

Definition slow_clock (n : nat) : Z := 1000 + Z.of_nat n.
Definition fast_clock (n : nat) : Z := 1000 + 1000000 * Z.of_nat n.

Lemma replacing_pids time : pids_positive (replacing time).
Proof.
  intros n. unfold event_pid_positive. split; [|by constructor]. cbn -[Nat.ltb].
  destruct (Nat.ltb n 20); [done|]. by destruct (Nat.ltb n 30).
Qed.

(** The world after [n] turns. *)
Definition world_after (time : nat -> Z) (n : nat) : world :=
  match session (replacing time) n 10 initial_world with Some (Some _, w) => w | _ => initial_world end.

Lemma world_after_reachable time n s w : session (replacing time) n 10 initial_world = Some (Some s, w) ->
  reachable (replacing time) (Running s, world_after time n).
Proof. intros E. unfold world_after. rewrite E. by eapply session_reachable. Qed.

(** [sm_game_lifecycle_has_active_game] loads the process before the handoff flag,
    which hides the exit of a game but not its handoff: a reader that loads the process
    while an exit is pending and the flag after the replacement took over is told that no
    game is active, although the published values show one throughout. *)
Theorem handoff_seen_as_no_game : exists sys s w i j,
  pids_positive sys /\ reachable sys (Running s, w) /\ (i < j)%nat /\ reader_answer (w_trace w) i j = Some false /\
  Forall (fun v => has_active_game_loads v.1 v.2 = true) (take (j - i + 1) (drop i (snapshots (w_trace w)))).
Proof.
  exists (replacing slow_clock), (Watcher false 0), (world_after slow_clock 3), 7%nat, 10%nat.
  split; [apply replacing_pids|]. split; [eapply (world_after_reachable slow_clock 3); vm_compute; reflexivity|].
  split; [lia|]. split; [vm_compute; reflexivity|]. vm_compute. by repeat constructor.
Qed.

Lemma game_history_monitored_witness : exists o, at_rest o (world_after slow_clock 3).
Proof.
  destruct (game_history_monitored (replacing slow_clock) (Running (Watcher false 0)) (world_after slow_clock 3)
    (replacing_pids slow_clock)) as (o & Ho & _); [eapply (world_after_reachable slow_clock 3); vm_compute; reflexivity|].
  exists o. exact Ho.
Defined.

Definition live_title : string := "CUSA00001".

Lemma background_title_told_witness : exists w, sm_game_lifecycle_background_title w = Some ((true, live_title), w).
Proof.
  exists (world_after slow_clock 1).
  destruct (background_title_told (Live 10 live_title 5) (world_after slow_clock 1)) as [H _]; [|exact H].
  split; [by vm_compute|]. split; [exists 0, cleared_launches, true; split; [apply launches_cleared|vm_compute; reflexivity]|].
  exists NoAuthority. vm_compute. reflexivity.
Defined.

(** A clock that jumps after the exit. *)
Definition late_clock (n : nat) : Z := if (n <? 33)%nat then 1000 else 20000000.

Lemma exit_window_closes_witness :
  let w := world_after late_clock 2 in
  exists w', poll_game_modules (replacing late_clock) w = Some (tt, w') /\ exists o, at_rest o w' /\ not_exiting o.
Proof.
  apply (exit_window_closes (replacing late_clock) (PendingExit true 10 5 1000 live_title)).
  - split; [by vm_compute|]. split; [exists 0, cleared_launches, true; split; [apply launches_cleared|vm_compute; reflexivity]|].
    eexists. vm_compute. reflexivity.
  - done.
  - intros n Hn. change (w_clock (world_after late_clock 2)) with 33%nat in Hn. cbn. unfold late_clock.
    destruct (Nat.ltb_spec n 33); [lia|]. split; [done|]. by vm_compute.
Defined.

Lemma sleep_stops_game_witness :
  let w := world_after fast_clock 1 in
  exists stopped w', terminate_game_for_sleep (replacing fast_clock) 61 10 w = Some (stopped, w') /\
    at_rest (if stopped then NoGame else Live 10 live_title 5) w'.
Proof.
  apply (sleep_stops_game (replacing fast_clock) 10 live_title 5 60 60).
  - split; [by vm_compute|]. split; [exists 0, cleared_launches, true; split; [apply launches_cleared|vm_compute; reflexivity]|].
    exists NoAuthority. vm_compute. reflexivity.
  - change (w_clock (world_after fast_clock 1)) with 20%nat.
    replace (deadline_after _ _) with 26001000 by (by vm_compute). split; [lia| |done].
    intros n Hn. cbn. unfold fast_clock. lia.
  - lia.
Defined.
