(* ===== verification/GameCache.v ===== *)
(** * The game cache and automatic removal (src/sm_game_cache.c)

    The table of games whose sources are known, with the timers of sources that are
    missing, and the pass that uninstalls the titles whose timer has expired.

    The file system, the configuration, the application database, the image cache, the
    image index and the system shell are questions of the record [system], answered at the
    number of the question; the list of scan roots is one question.  The trace holds the
    questions with their answers and the calls that change other components, newest
    first.  A call under the mutex of the table is a sequence of questions and changes. *)
From S2P Require Import Prelude CString StateTable Effects.
From stdpp Require Import list.
Open Scope Z_scope.
Open Scope c_scope.

Record GameCache := Game {
  gc_path : string; gc_title_id : string; gc_title_name : string; gc_root : string;
  missing_since_us : Z; gc_valid : bool;
}.

Definition zero_game : GameCache := Game "" "" "" "" 0 false.

Definition with_missing (t : Z) (e : GameCache) : GameCache :=
  Game (gc_path e) (gc_title_id e) (gc_title_name e) (gc_root e) t (gc_valid e).
Definition with_root (r : string) (e : GameCache) : GameCache :=
  Game (gc_path e) (gc_title_id e) (gc_title_name e) r (missing_since_us e) (gc_valid e).

#[export] Instance GameCache_eq_dec : EqDecision GameCache.
Proof. solve_decision. Defined.

(** [stat]: a directory, something else, or an error, with "there is no such path". *)
Inductive stat_answer := IsDirectory | IsOther | StatFailed (missing : bool).

Record config := Config {
  auto_remove_missing_games : bool; auto_remove_missing_delay_seconds : Z; auto_remove_games_with_dlc : bool;
}.

Inductive event :=
  | EvExists (path : string) (answer : bool)
  | EvLink (title : string) (answer : option string)
  | EvStat (path : string) (answer : stat_answer)
  | EvProtected (title : string) (answer : bool)
  | EvIndexed (title : string) (answer : bool)
  | EvUninstall (title : string) (result : Z)
  | EvForgetPending (title : string)
  | EvInvalidateTitles
  | EvClearNotice (title : string)
  | EvAsk.

Record system := System {
  sys_exists : nat -> string -> bool;
  sys_image_link : nat -> string -> option string;
  sys_stat : nat -> string -> stat_answer;
  sys_protected : nat -> string -> bool;
  sys_image_source : nat -> string -> option string;
  sys_scan_paths : nat -> list string;
  sys_indexed : nat -> string -> bool;
  sys_config : nat -> config;
  sys_titles : nat -> option (list string);
  sys_now : nat -> Z;
  sys_uninstall : nat -> string -> Z;
}.

Record world := World { w_games : list GameCache; w_clock : nat; w_trace : list event }.

Abbreviation M := (prog world).

Definition games : M (list GameCache) := look w_games.
Definition set_games (f : list GameCache -> list GameCache) : M () :=
  change (fun w => World (f (w_games w)) (w_clock w) (w_trace w)).
Definition emit (e : event) : M () := change (fun w => World (w_games w) (w_clock w) (e :: w_trace w)).

(** The entry [k]; [None] is an access outside the table. *)
Definition slot (k : nat) : M GameCache := fun w => match w_games w !! k with Some e => Some (e, w) | None => None end.
Definition set_slot (k : nat) (e : GameCache) : M () := set_games (fun l => <[k := e]> l).

Definition write_game_cache_slot (path title_id title_name owning_scan_root : string) : GameCache :=
  Game (strlcpy path MAX_PATH) (strlcpy title_id MAX_TITLE_ID) (strlcpy title_name MAX_TITLE_NAME)
    (strlcpy owning_scan_root MAX_PATH) 0 true.

Definition start_missing_timer (now_us : Z) (e : GameCache) : GameCache :=
  if negb (missing_since_us e =? 0) || (now_us =? 0) then e else with_missing now_us e.

Definition missing_timer_expired (e : GameCache) (now_us delay_us : Z) : bool :=
  gc_valid e && negb (missing_since_us e =? 0) && (missing_since_us e <=? now_us) &&
  (delay_us <=? u64 (now_us - missing_since_us e)).

(** The sorted list of titles is searched by bisection. *)
Definition app_db_title_list_contains (titles : list string) (title_id : string) : bool := existsb (strcmp_eq title_id) titles.

Section cache.
Context (sys : system).

Definition ask {A} (f : nat -> A) (ev : A -> event) : M A := fun w =>
  let a := f (w_clock w) in Some (a, World (w_games w) (S (w_clock w)) (ev a :: w_trace w)).
Definition quiet {A} : A -> event := fun _ => EvAsk.

Definition path_exists (p : string) : M bool := ask (fun n => sys_exists sys n p) (EvExists p).
Definition is_protected (title_id : string) : M bool := ask (fun n => sys_protected sys n title_id) (EvProtected title_id).

Definition game_cache_source_exists (e : GameCache) : M bool :=
  let* at_path := (if strcmp_eq (gc_path e) "" then ret false else path_exists (gc_path e)) in
  if at_path : bool then ret true
  else if strcmp_eq (gc_title_id e) "" then ret false
  else
    let* link := ask (fun n => sys_image_link sys n (gc_title_id e)) (EvLink (gc_title_id e)) in
    match link with Some image_path => path_exists image_path | None => ret false end.

(** A path that does not fit the buffer protects the title. *)
Definition title_is_protected_by_dlc (title_id : string) (remove_games_with_dlc : bool) : M bool :=
  if remove_games_with_dlc then ret false
  else
    let addcont_path := ("/user/addcont/" ++ title_id)%string in
    if (MAX_PATH <=? strlen addcont_path)%nat then ret true
    else
      let* st := ask (fun n => sys_stat sys n addcont_path) (EvStat addcont_path) in
      ret (match st with IsDirectory => true | IsOther => false | StatFailed missing => negb missing end).

(** The longest scan root above the path. *)
Definition best_root (match_path : string) (roots : list string) : string :=
  fold_left (fun best root =>
    if path_matches_root_or_child match_path root && (strlen best <? strlen root)%nat then strlcpy root MAX_PATH else best)
    roots ""%string.

Definition resolve_game_cache_owning_scan_root (path title_id : string) : M string :=
  let* resolved :=
    (if is_under_image_mount_base path then
       let* source := ask (fun n => sys_image_source sys n path) quiet in
       match source with
       | Some s => ret (Some s)
       | None => if strcmp_eq title_id "" then ret None
                 else ask (fun n => sys_image_link sys n title_id) (EvLink title_id)
       end
     else ret None) in
  let* roots := ask (sys_scan_paths sys) quiet in
  ret (best_root (default path resolved) roots).

(** The root of an entry, resolved when it is not known, and whether it is known now. *)
Definition ensure_game_cache_owning_scan_root (k : nat) : M bool :=
  let* e := slot k in
  if negb (strcmp_eq (gc_root e) "") then ret true
  else
    let* root := resolve_game_cache_owning_scan_root (gc_path e) (gc_title_id e) in
    let* _ := set_slot k (with_root root e) in
    ret (negb (strcmp_eq root "")).

Definition entry_root (k : nat) : M string :=
  let* known := ensure_game_cache_owning_scan_root k in
  let* e := slot k in
  ret (if known : bool then gc_root e else gc_path e).

Definition clear_game_cache_slot (k : nat) : M () :=
  let* e := slot k in
  when (gc_valid e)
    (let* _ := when (negb (strcmp_eq (gc_title_id e) "")) (emit (EvClearNotice (gc_title_id e))) in
     set_slot k zero_game).

(** ** Entries *)
Definition same_game (path title_id : string) (e : GameCache) : bool :=
  gc_valid e && (strcmp_eq (gc_path e) path || strcmp_eq (gc_title_id e) title_id).

Definition cache_game_entry (path title_id title_name : string) : M () :=
  let* root := resolve_game_cache_owning_scan_root path title_id in
  let* l := games in
  match find_index (same_game path title_id) l with
  | Some k => set_slot k (write_game_cache_slot path title_id title_name root)
  | None =>
      match find_index (fun e => negb (gc_valid e)) l with
      | Some k => set_slot k (write_game_cache_slot path title_id title_name root)
      | None => ret tt
      end
  end.

(** The body of the loop over the entries in [prune_game_cache_entries]. *)
Definition prune_entry (root : option string) (auto_remove : bool) (k : nat) : M () :=
  let* e := slot k in
  if negb (gc_valid e) then ret tt
  else
    let* protected := is_protected (gc_title_id e) in
    if protected : bool then ret tt
    else
      let* outside :=
        match root with
        | None => ret false
        | Some r => let* er := entry_root k in ret (negb (path_matches_root_or_child er r))
        end in
      if outside : bool then ret tt
      else
        let* exists_ := game_cache_source_exists e in
        let* e := slot k in
        if exists_ : bool then when (negb (missing_since_us e =? 0)) (set_slot k (with_missing 0 e))
        else if auto_remove then ret tt
        else clear_game_cache_slot k.

Fixpoint each_slot (n k : nat) (body : nat -> M ()) : M () :=
  match n with
  | O => ret tt
  | S n' => let* _ := body k in each_slot n' (S k) body
  end.

Definition prune_game_cache_entries (root : option string) : M () :=
  let* cfg := ask (sys_config sys) quiet in
  each_slot MAX_PENDING 0 (prune_entry root (auto_remove_missing_games cfg)).

Definition prune_game_cache : M () := prune_game_cache_entries None.

Definition prune_game_cache_for_root (root : string) : M () :=
  if strcmp_eq root "" then prune_game_cache else prune_game_cache_entries (Some root).

Definition note_game_cache_source_seen (path title_id title_name : string) : M () :=
  if strcmp_eq title_id "" then ret tt
  else
    let* root := resolve_game_cache_owning_scan_root path title_id in
    let* l := games in
    match find_index (fun e => gc_valid e && negb (missing_since_us e =? 0) && strcmp_eq (gc_title_id e) title_id) l with
    | Some k => set_slot k (write_game_cache_slot path title_id title_name root)
    | None => ret tt
    end.

(** ** Automatic removal *)

(** An entry that no removal candidate stands for and whose source is gone. *)
Definition drop_untracked (titles : list string) (k : nat) : M () :=
  let* e := slot k in
  if negb (gc_valid e) then ret tt
  else
    let* exists_ := game_cache_source_exists e in
    if exists_ : bool then ret tt
    else
      let* protected := is_protected (gc_title_id e) in
      when (negb protected && negb (app_db_title_list_contains titles (gc_title_id e))) (clear_game_cache_slot k).

(** The first entry of the title, and the first free entry before it or the end. *)
Fixpoint find_title (l : list GameCache) (title_id : string) (k : nat) (free : option nat) : option nat * option nat :=
  match l with
  | [] => (None, free)
  | e :: l' =>
      if negb (gc_valid e) then find_title l' title_id (S k) (match free with Some f => Some f | None => Some k end)
      else if strcmp_eq (gc_title_id e) title_id then (Some k, free)
      else find_title l' title_id (S k) free
  end.

Definition reconcile_title (now_us : Z) (remove_games_with_dlc : bool) (title_id : string) : M () :=
  let* protected := is_protected title_id in
  if protected : bool then ret tt
  else
    let* by_dlc := title_is_protected_by_dlc title_id remove_games_with_dlc in
    let* in_image := (if by_dlc : bool then ret false else ask (fun n => sys_indexed sys n title_id) (EvIndexed title_id)) in
    let* l := games in
    let '(entry_index, free_index) := find_title l title_id 0 None in
    match entry_index with
    | Some k =>
        let* e := slot k in
        let* exists_ := game_cache_source_exists e in
        if by_dlc then if exists_ : bool then set_slot k (with_missing 0 e) else clear_game_cache_slot k
        else if exists_ || in_image then
          if strcmp_eq (gc_path e) "" then clear_game_cache_slot k else set_slot k (with_missing 0 e)
        else set_slot k (start_missing_timer now_us e)
    | None =>
        if by_dlc || in_image then ret tt
        else
          match free_index with
          | Some k => set_slot k (start_missing_timer now_us (write_game_cache_slot "" title_id "" ""))
          | None => ret tt
          end
    end.

Fixpoint reconcile_titles (now_us : Z) (remove_games_with_dlc : bool) (titles : list string) : M () :=
  match titles with
  | [] => ret tt
  | t :: titles' =>
      let* _ := reconcile_title now_us remove_games_with_dlc t in
      reconcile_titles now_us remove_games_with_dlc titles'
  end.

Definition reconcile_missing_game_cache (titles : list string) (now_us : Z) (remove_games_with_dlc : bool) : M () :=
  let* _ := each_slot MAX_PENDING 0 (drop_untracked titles) in
  reconcile_titles now_us remove_games_with_dlc titles.

(** The first expired entry that is not protected: its title, the entry cleared. *)
Fixpoint take_expired (n k : nat) (now_us delay_us : Z) : M (option string) :=
  match n with
  | O => ret None
  | S n' =>
      let* e := slot k in
      if negb (missing_timer_expired e now_us delay_us) then take_expired n' (S k) now_us delay_us
      else
        let* protected := is_protected (gc_title_id e) in
        if protected : bool then take_expired n' (S k) now_us delay_us
        else
          let* _ := clear_game_cache_slot k in
          ret (Some (strlcpy (gc_title_id e) MAX_TITLE_ID))
  end.

Definition remove_title (titles : list string) (with_dlc : bool) (title_id : string) : M () :=
  if negb (app_db_title_list_contains titles title_id) then ret tt
  else
    let* by_dlc := title_is_protected_by_dlc title_id with_dlc in
    if by_dlc : bool then ret tt
    else
      let* res := ask (fun n => sys_uninstall sys n title_id) (EvUninstall title_id) in
      when (res =? 0)
        (let* _ := emit (EvForgetPending title_id) in
         emit EvInvalidateTitles).

(** The loop ends at an entry without a title. *)
Fixpoint remove_expired (fuel : nat) (titles : list string) (now_us delay_us : Z) (with_dlc : bool) : M () :=
  match fuel with
  | O => stuck
  | S fuel' =>
      let* title := take_expired MAX_PENDING 0 now_us delay_us in
      match title with
      | None => ret tt
      | Some t =>
          if strcmp_eq t "" then ret tt
          else
            let* _ := remove_title titles with_dlc t in
            remove_expired fuel' titles now_us delay_us with_dlc
      end
  end.

Definition reconcile_missing_app_db_games : M () :=
  let* cfg := ask (sys_config sys) quiet in
  if negb (auto_remove_missing_games cfg) then ret tt
  else
    let* titles := ask (sys_titles sys) quiet in
    match titles with
    | None => ret tt
    | Some titles =>
        let* now_us := ask (sys_now sys) quiet in
        let delay_us := u64 (auto_remove_missing_delay_seconds cfg * 1000000) in
        let* _ := reconcile_missing_game_cache titles now_us (auto_remove_games_with_dlc cfg) in
        remove_expired (S MAX_PENDING) titles now_us delay_us (auto_remove_games_with_dlc cfg)
    end.

Definition reset_missing_game_cache_timers : M () :=
  each_slot MAX_PENDING 0 (fun k =>
    let* e := slot k in
    if negb (gc_valid e) then ret tt
    else if strcmp_eq (gc_path e) "" then clear_game_cache_slot k
    else set_slot k (with_missing 0 e)).

(** ** Readers *)

(** The games visited, in order, until the visitor [fn] answers false. *)
Fixpoint visit_games (n k : nat) (root : string) (fn : GameCache -> bool) : M (list GameCache) :=
  match n with
  | O => ret []
  | S n' =>
      let* e := slot k in
      let* shown :=
        (if gc_valid e && (missing_since_us e =? 0) then
           let* er := entry_root k in
           let* e := slot k in
           ret (if strcmp_eq root "" || strcmp_eq er root then Some e else None)
         else ret None) in
      match shown with
      | None => visit_games n' (S k) root fn
      | Some e =>
          if fn e then let* rest := visit_games n' (S k) root fn in ret (e :: rest)
          else ret [e]
      end
  end.

Definition for_each_cached_game_entry (root : string) (fn : GameCache -> bool) : M (list GameCache) :=
  visit_games MAX_PENDING 0 root fn.

Definition snapshot_visible (e : GameCache) : bool := gc_valid e && (missing_since_us e =? 0).

(** [allocated]: memory for the entries is there; none is needed for no entries. *)
Definition sm_game_cache_snapshot (allocated : bool) : M (option (list (string * string * string))) :=
  let* l := games in
  let shown := filter (fun e => snapshot_visible e = true) l in
  ret (if negb (bool_decide (shown = [])) && negb allocated then None
       else Some ((fun e => (gc_path e, gc_title_id e, gc_title_name e)) <$> shown)).

(** The path of the game found, NULL arguments as [None]. *)
Definition find_cached_game (path title_id : option string) : M (option string) :=
  let* l := games in
  let hit e := gc_valid e &&
    (match path with Some p => strcmp_eq (gc_path e) p | None => false end ||
     match title_id with Some t => negb (strcmp_eq t "") && strcmp_eq (gc_title_id e) t | None => false end) in
  match find_index hit l with
  | Some k => let* e := slot k in ret (Some (gc_path e))
  | None => ret None
  end.

Definition clear_cached_game (path : string) : M () :=
  each_slot MAX_PENDING 0 (fun k =>
    let* e := slot k in
    when (gc_valid e && (missing_since_us e =? 0) && strcmp_eq (gc_path e) path) (clear_game_cache_slot k)).
End cache.

(** * A removal pass while the answers stay the same *)

Record answers := Answers {
  a_exists : string -> bool; a_image_link : string -> option string; a_stat : string -> stat_answer;
  a_protected : string -> bool; a_image_source : string -> option string; a_scan_paths : list string;
  a_indexed : string -> bool; a_config : config; a_titles : option (list string); a_now : Z; a_uninstall : string -> Z;
}.

Definition steady (a : answers) : system := System (fun _ => a_exists a) (fun _ => a_image_link a) (fun _ => a_stat a)
  (fun _ => a_protected a) (fun _ => a_image_source a) (fun _ => a_scan_paths a) (fun _ => a_indexed a) (fun _ => a_config a)
  (fun _ => a_titles a) (fun _ => a_now a) (fun _ => a_uninstall a).

(** The source of a game is at its path or in the image its link names. *)
Definition source_present (a : answers) (e : GameCache) : bool :=
  (negb (strcmp_eq (gc_path e) "") && a_exists a (gc_path e)) ||
  (negb (strcmp_eq (gc_title_id e) "") && match a_image_link a (gc_title_id e) with Some p => a_exists a p | None => false end).

Definition kept_by_dlc (a : answers) (title_id : string) : bool :=
  negb (auto_remove_games_with_dlc (a_config a)) &&
  ((MAX_PATH <=? strlen ("/user/addcont/" ++ title_id))%nat ||
   match a_stat a ("/user/addcont/" ++ title_id)%string with IsDirectory => true | IsOther => false | StatFailed missing => negb missing end).

Definition delay_of (a : answers) : Z := u64 (auto_remove_missing_delay_seconds (a_config a) * 1000000).

(** The titles the history uninstalls, newest first. *)
Definition uninstalled (tr : list event) : list string :=
  omap (fun e => match e with EvUninstall t _ => Some t | _ => None end) tr.

(** The table, and the titles uninstalled so far. *)
Definition stands (l : list GameCache) (us : list string) (w : world) : Prop := w_games w = l /\ uninstalled (w_trace w) = us.

Section steady.
Context (a : answers).
#[local] Existing Instance wholly.

Lemma stands_ask {A} (f : A) (ev : A -> event) l us (Q : A -> world -> Prop) w :
  stands l us w -> (match ev f with EvUninstall _ _ => False | _ => True end) ->
  (forall w', stands l us w' -> Q f w') -> wp (ask (fun _ => f) ev) Q w.
Proof.
  intros [Hl Hu] Hev HQ. apply HQ. split; [done|]. cbn. unfold uninstalled in *. cbn. by destruct (ev f).
Qed.

Lemma stands_slot k e l us (Q : GameCache -> world -> Prop) w :
  stands l us w -> l !! k = Some e -> Q e w -> wp (slot k) Q w.
Proof. intros [<- Hu] He HQ. unfold wp, slot. by rewrite He. Qed.

Lemma stands_set k e l us (Q : () -> world -> Prop) w :
  stands l us w -> (forall w', stands (<[k := e]> l) us w' -> Q tt w') -> wp (set_slot k e) Q w.
Proof. intros [<- Hu] HQ. by apply HQ. Qed.

Lemma stands_emit ev l us (Q : () -> world -> Prop) w :
  stands l us w -> (match ev with EvUninstall _ _ => False | _ => True end) ->
  (forall w', stands l us w' -> Q tt w') -> wp (emit ev) Q w.
Proof. intros [Hl Hu] Hev HQ. apply HQ. split; [done|]. cbn. by destruct ev. Qed.

Lemma stands_games l us (Q : list GameCache -> world -> Prop) w : stands l us w -> Q l w -> wp games Q w.
Proof. intros [<- Hu] HQ. done. Qed.

Lemma stands_clear k e l us (Q : () -> world -> Prop) w :
  stands l us w -> l !! k = Some e -> (forall w', stands (if gc_valid e then <[k := zero_game]> l else l) us w' -> Q tt w') ->
  wp (clear_game_cache_slot k) Q w.
Proof.
  intros H He HQ. unfold clear_game_cache_slot. apply wp_bind. eapply stands_slot; [exact H|exact He|].
  destruct (gc_valid e); apply wp_when; try done; [intros _|by intros _; apply HQ].
  apply wp_bind. apply wp_when; intros _; [|by eapply stands_set].
  eapply stands_emit; [exact H|done|]. intros w' H'. by eapply stands_set.
Qed.

Lemma stands_source e l us (Q : bool -> world -> Prop) w :
  stands l us w -> (forall w', stands l us w' -> Q (source_present a e) w') -> wp (game_cache_source_exists (steady a) e) Q w.
Proof.
  intros H HQ. unfold game_cache_source_exists, path_exists, source_present in *.
  assert (Hlink : forall w', stands l us w' -> (negb (strcmp_eq (gc_path e) "") && a_exists a (gc_path e)) = false ->
    wp (if strcmp_eq (gc_title_id e) "" then ret false
        else let* link := ask (fun n => sys_image_link (steady a) n (gc_title_id e)) (EvLink (gc_title_id e)) in
             match link with
             | Some image_path => ask (fun n => sys_exists (steady a) n image_path) (EvExists image_path)
             | None => ret false
             end) Q w').
  { clear w H. intros w H E. rewrite E in HQ. cbn [orb] in HQ. destruct (strcmp_eq (gc_title_id e) ""); [by apply wp_ret, HQ|].
    apply wp_bind. eapply stands_ask; [exact H|done|]. intros w1 H1. cbn in *.
    destruct (a_image_link a (gc_title_id e)); [|by apply wp_ret, HQ]. by eapply stands_ask. }
  apply wp_bind. destruct (strcmp_eq (gc_path e) "").
  - apply wp_ret. by apply Hlink.
  - eapply stands_ask; [exact H|done|]. intros w1 H1. cbn in *. destruct (a_exists a (gc_path e)); [by apply wp_ret, HQ|by apply Hlink].
Qed.

Lemma stands_protected t l us (Q : bool -> world -> Prop) w :
  stands l us w -> (forall w', stands l us w' -> Q (a_protected a t) w') -> wp (is_protected (steady a) t) Q w.
Proof. intros H HQ. by eapply stands_ask. Qed.

Lemma stands_dlc t l us (Q : bool -> world -> Prop) w :
  stands l us w -> (forall w', stands l us w' -> Q (kept_by_dlc a t) w') ->
  wp (title_is_protected_by_dlc (steady a) t (auto_remove_games_with_dlc (a_config a))) Q w.
Proof.
  intros H HQ. unfold title_is_protected_by_dlc, kept_by_dlc in *.
  destruct (auto_remove_games_with_dlc (a_config a)); [by apply wp_ret, HQ|]. cbn [negb andb] in HQ.
  destruct (MAX_PATH <=? _)%nat; [by apply wp_ret, HQ|].
  apply wp_bind. apply (stands_ask (a_stat a ("/user/addcont/" ++ t)) (EvStat ("/user/addcont/" ++ t)) l us _ w H); [done|].
  intros w' H'. apply wp_ret. cbn in *. by apply HQ.
Qed.

(** A loop whose body changes its own entry only. *)
Lemma stands_each_slot (body : nat -> M ()) (f : GameCache -> GameCache) l us (Q : () -> world -> Prop) w :
  (forall k e l0 w0 R, stands l0 us w0 -> l0 !! k = Some e ->
     (forall w', stands (<[k := f e]> l0) us w' -> R tt w') -> wp (body k) R w0) ->
  stands l us w -> length l = MAX_PENDING ->
  (forall w', stands (f <$> l) us w' -> Q tt w') -> wp (each_slot MAX_PENDING 0 body) Q w.
Proof.
  intros Hbody H Hlen HQ.
  assert (Hgen : forall n k w0, (k + n = MAX_PENDING)%nat -> stands (mixed f k l) us w0 -> wp (each_slot n k body) Q w0).
  { induction n as [|n IH]; intros k w0 Hk H0; cbn [each_slot].
    - apply wp_ret, HQ. by rewrite mixed_all in H0 by lia.
    - destruct (lookup_lt_is_Some_2 l k) as [e He]; [lia|]. apply wp_bind.
      eapply Hbody; [exact H0|by rewrite mixed_lookup|]. intros w1 H1. apply IH; [lia|].
      by rewrite <-(mixed_step _ _ _ _ He) in H1. }
  apply (Hgen MAX_PENDING 0%nat); [lia|]. done.
Qed.

(** *** The first half: dropping untracked entries, starting and stopping timers *)
Definition dropped (titles : list string) (e : GameCache) : GameCache :=
  if gc_valid e && negb (source_present a e) && negb (a_protected a (gc_title_id e)) &&
     negb (app_db_title_list_contains titles (gc_title_id e)) then zero_game else e.

Lemma stands_keep k e l us (Q : () -> world -> Prop) w :
  stands l us w -> l !! k = Some e -> (forall w', stands (<[k := e]> l) us w' -> Q tt w') -> Q tt w.
Proof. intros H He HQ. apply HQ. by rewrite (list_insert_id _ _ _ He). Qed.

Lemma stands_drop_untracked titles k e l us (Q : () -> world -> Prop) w :
  stands l us w -> l !! k = Some e -> (forall w', stands (<[k := dropped titles e]> l) us w' -> Q tt w') ->
  wp (drop_untracked (steady a) titles k) Q w.
Proof.
  intros H He HQ. unfold drop_untracked, dropped in *. apply wp_bind. eapply stands_slot; [exact H|exact He|].
  destruct (gc_valid e) eqn:Ev; cbn [negb andb] in *; [|apply wp_ret; by eapply stands_keep].
  apply wp_bind. eapply stands_source; [exact H|]. clear H w. intros w H.
  destruct (source_present a e); cbn [negb andb] in *; [apply wp_ret; by eapply stands_keep|].
  apply wp_bind. eapply stands_protected; [exact H|]. clear H w. intros w H.
  destruct (negb (a_protected a (gc_title_id e)) && _); apply wp_when; try done; intros _; [|by eapply stands_keep].
  eapply stands_clear; [exact H|exact He|]. by rewrite Ev.
Qed.

Lemma find_title_spec l t k free : 
  match find_title l t k free with
  | (Some i, _) => exists e, (k <= i)%nat /\ l !! (i - k)%nat = Some e /\ gc_valid e = true /\ gc_title_id e = t
  | (None, f) => (forall e, e ∈ l -> gc_valid e = true -> gc_title_id e <> t) /\
      match f with Some i => free = Some i \/ exists e, (k <= i)%nat /\ l !! (i - k)%nat = Some e /\ gc_valid e = false | None => True end
  end.
Proof.
  revert k free. induction l as [|e l IH]; intros k free; cbn [find_title].
  { split; [by intros e ?%elem_of_nil|]. destruct free; [by left|done]. }
  destruct (gc_valid e) eqn:Ev; cbn [negb].
  - destruct (strcmp_eq (gc_title_id e) t) eqn:Et.
    + exists e. rewrite Nat.sub_diag. split; [lia|]. split; [done|]. split; [done|]. by apply String.eqb_eq.
    + specialize (IH (S k) free). apply String.eqb_neq in Et. destruct (find_title l t (S k) free) as [[i|] f].
      * destruct IH as (e' & Hi & He' & ?). exists e'. split; [lia|]. by replace (i - k)%nat with (S (i - S k)) by lia.
      * destruct IH as [Hn Hf]. split; [by intros e' [->|?]%elem_of_cons; auto|].
        destruct f; [|done]. destruct Hf as [?|(e' & ? & He' & ?)]; [by left|right]. exists e'. split; [lia|].
        by replace (n - k)%nat with (S (n - S k)) by lia.
  - specialize (IH (S k) (match free with Some f => Some f | None => Some k end)).
    destruct (find_title l t (S k) _) as [[i|] f].
    + destruct IH as (e' & Hi & He' & ?). exists e'. split; [lia|]. by replace (i - k)%nat with (S (i - S k)) by lia.
    + destruct IH as [Hn Hf]. split; [intros e' [->|?]%elem_of_cons; [by rewrite Ev|auto]|].
      destruct f as [n|]; [|done]. destruct Hf as [Hfree|(e' & ? & He' & ?)].
      * destruct free as [f|]; [by left|]. right. injection Hfree as <-. exists e. rewrite Nat.sub_diag. split; [lia|done].
      * right. exists e'. split; [lia|]. by replace (n - k)%nat with (S (n - S k)) by lia.
Qed.
End steady.

(** *** The invariant of the table: every title at most once *)
Definition title_ok (t : string) : Prop := t <> ""%string /\ (strlen t < MAX_TITLE_ID)%nat.

Definition cache_ok (l : list GameCache) : Prop :=
  length l = MAX_PENDING /\
  (forall i j x y, l !! i = Some x -> l !! j = Some y -> gc_valid x = true -> gc_valid y = true -> gc_title_id x = gc_title_id y -> i = j) /\
  (forall i x, l !! i = Some x -> gc_valid x = true -> title_ok (gc_title_id x)).

(** The entry of a title. *)
Definition holds_game (l : list GameCache) (e : GameCache) : Prop := e ∈ l /\ gc_valid e = true.

Lemma holds_unique l e e' : cache_ok l -> holds_game l e -> holds_game l e' -> gc_title_id e = gc_title_id e' -> e = e'.
Proof.
  intros (_ & Hu & _) [[i Hi]%list_elem_of_lookup He] [[j Hj]%list_elem_of_lookup He'] Heq.
  rewrite (Hu i j e e' Hi Hj He He' Heq) in Hi. congruence.
Qed.

(** Writing the entry of the title [t], or a free entry when there is none. *)
Lemma write_ok k t e x l : cache_ok l -> l !! k = Some e -> (gc_valid e = true -> gc_title_id e = t) ->
  (gc_valid x = true -> gc_title_id x = t /\ title_ok t) ->
  (gc_valid e = false -> forall e', holds_game l e' -> gc_title_id e' <> t) ->
  cache_ok (<[k := x]> l) /\
  (forall e', gc_title_id e' <> t -> holds_game (<[k := x]> l) e' <-> holds_game l e') /\
  (forall e', gc_title_id e' = t -> holds_game (<[k := x]> l) e' <-> e' = x /\ gc_valid x = true).
Proof.
  intros (Hlen & Hu & Hne) Hk He Hx Hfree. pose proof (lookup_lt_Some _ _ _ Hk) as Hlt.
  assert (Hother : forall j y, j <> k -> l !! j = Some y -> gc_valid y = true -> gc_title_id y <> t).
  { intros j y Hj Hy Hv Ht. destruct (gc_valid e) eqn:Ev.
    - apply Hj. apply (Hu j k y e); auto. rewrite He; auto.
    - apply (Hfree eq_refl y); [|done]. split; [by eapply list_elem_of_lookup_2|done]. }
  split_and!.
  - split; [by rewrite length_insert|]. split.
    + intros i j y z Hi Hj Hy Hz Heq.
      apply list_lookup_insert_Some in Hi as [(<- & <- & _)|[? Hi]], Hj as [(<- & <- & _)|[? Hj]]; [done| | |by eapply Hu].
      * destruct (Hx Hy). exfalso. eapply (Hother j z); [done|exact Hj|done|congruence].
      * destruct (Hx Hz). exfalso. eapply (Hother i y); [done|exact Hi|done|congruence].
    + intros i y [(<- & <- & _)|[? Hi]]%list_lookup_insert_Some Hy; [by destruct (Hx Hy) as [-> ?]|by eapply Hne].
  - intros e' Ht. split; intros [[j Hj]%list_elem_of_lookup Hv]; (split; [|done]).
    + apply list_lookup_insert_Some in Hj as [(<- & <- & _)|[? Hj]]; [destruct (Hx Hv); congruence|by eapply list_elem_of_lookup_2].
    + apply list_elem_of_lookup. exists j. rewrite list_lookup_insert_ne; [done|]. intros <-.
      assert (e' = e) as -> by congruence. by rewrite (He Hv) in Ht.
  - intros e' Ht. split.
    + intros [[j Hj]%list_elem_of_lookup Hv]. apply list_lookup_insert_Some in Hj as [(<- & <- & _)|[? Hj]]; [done|].
      exfalso. by eapply (Hother j e').
    + intros [-> Hv]. split; [|done]. apply list_elem_of_lookup. exists k. by apply list_lookup_insert_eq.
Qed.

(** What a pass over the title [t] does: only its entry changes; a timer runs afterwards
    only if the source is missing, and a timer that ran over a missing source still runs. *)
Record reconciled (a : answers) (t : string) (l l' : list GameCache) : Prop := {
  rec_ok : cache_ok l';
  rec_others e : gc_title_id e <> t -> holds_game l' e <-> holds_game l e;
  rec_missing e : a_protected a t = false -> holds_game l' e -> gc_title_id e = t -> missing_since_us e <> 0 ->
    missing_since_us e = a_now a \/
    (holds_game l e /\ kept_by_dlc a t = false /\ a_indexed a t = false /\ source_present a e = false);
  rec_protected : a_protected a t = true -> l' = l;
  rec_kept e : holds_game l e -> gc_title_id e = t -> missing_since_us e <> 0 -> kept_by_dlc a t = false ->
    a_indexed a t = false -> source_present a e = false -> holds_game l' e;
}.

(** Nothing is known under the title. *)
Lemma reconciled_same a t l : cache_ok l -> (forall e, holds_game l e -> gc_title_id e <> t) -> reconciled a t l l.
Proof. intros Hok Hno. split; auto. intros e _ He Ht. by destruct (Hno e He). Qed.

(** Its entry, or a free one, is written. *)
Lemma reconciled_write a t k e x l : cache_ok l -> l !! k = Some e -> (gc_valid e = true -> gc_title_id e = t) ->
  (gc_valid x = true -> gc_title_id x = t /\ title_ok t) ->
  (gc_valid e = false -> forall e', holds_game l e' -> gc_title_id e' <> t) ->
  a_protected a t = false ->
  (gc_valid x = true -> missing_since_us x <> 0 ->
    missing_since_us x = a_now a \/
    (x = e /\ gc_valid e = true /\ kept_by_dlc a t = false /\ a_indexed a t = false /\ source_present a x = false)) ->
  (gc_valid e = true -> missing_since_us e <> 0 -> kept_by_dlc a t = false -> a_indexed a t = false ->
    source_present a e = false -> x = e) ->
  reconciled a t l (<[k := x]> l).
Proof.
  intros Hok Hk He Hx Hfree Hp Hm Hkept. destruct (write_ok k t e x l Hok Hk He Hx Hfree) as (Hok' & Hother & Hown).
  assert (Hin : gc_valid e = true -> holds_game l e) by (intros; split; [by eapply list_elem_of_lookup_2|done]).
  split; auto.
  - intros e' _ He' Ht Hmiss. apply (Hown e' Ht) in He' as [-> Hv]. destruct (Hm Hv Hmiss) as [?|(-> & ? & ? & ? & ?)]; [by left|right; split_and!; auto].
  - congruence.
  - intros e' He' Ht Hmiss Hdlc Hidx Hsrc. apply (Hown e' Ht).
    destruct (gc_valid e) eqn:Ev; [|by destruct (Hfree eq_refl e' He')].
    rewrite (holds_unique l e' e Hok He' (Hin eq_refl)) in * by (rewrite Ht, He; auto).
    by rewrite (Hkept eq_refl Hmiss Hdlc Hidx Hsrc).
Qed.

Lemma timer_started now e : start_missing_timer now e = e \/
  start_missing_timer now e = with_missing now e /\ missing_since_us e = 0.
Proof. unfold start_missing_timer. destruct (Z.eqb_spec (missing_since_us e) 0), (now =? 0); auto. Qed.

Section reconcile.
Context (a : answers).
#[local] Existing Instance wholly.

Lemma stands_reconcile_title t l us (Q : () -> world -> Prop) w :
  stands l us w -> cache_ok l -> title_ok t ->
  (forall l' w', stands l' us w' -> reconciled a t l l' -> Q tt w') ->
  wp (reconcile_title (steady a) (a_now a) (auto_remove_games_with_dlc (a_config a)) t) Q w.
Proof.
  intros H Hok Hne HQ. unfold reconcile_title.
  apply wp_bind. eapply stands_protected; [exact H|]. clear H w. intros w H.
  destruct (a_protected a t) eqn:Ep; [apply wp_ret; eapply HQ; [exact H|by split; auto; congruence]|].
  apply wp_bind. eapply stands_dlc; [exact H|]. clear H w. intros w H.
  assert (Hcont : forall in_image w', stands l us w' -> (kept_by_dlc a t = false -> in_image = a_indexed a t) ->
    wp (let* l := games in
        let '(entry_index, free_index) := find_title l t 0 None in
        match entry_index with
        | Some k =>
            let* e := slot k in
            let* exists_ := game_cache_source_exists (steady a) e in
            if kept_by_dlc a t then if exists_ : bool then set_slot k (with_missing 0 e) else clear_game_cache_slot k
            else if exists_ || in_image then
              if strcmp_eq (gc_path e) "" then clear_game_cache_slot k else set_slot k (with_missing 0 e)
            else set_slot k (start_missing_timer (a_now a) e)
        | None =>
            if kept_by_dlc a t || in_image then ret tt
            else
              match free_index with
              | Some k => set_slot k (start_missing_timer (a_now a) (write_game_cache_slot "" t "" ""))
              | None => ret tt
              end
        end) Q w').
  2:{ apply wp_bind. destruct (kept_by_dlc a t); [apply wp_ret; by apply Hcont|].
      eapply stands_ask; [exact H|done|]. intros w1 H1. by apply Hcont. }
  clear w H. intros in_image w H Himg. apply wp_bind. eapply stands_games; [exact H|].
  pose proof (find_title_spec l t 0 None) as Hfind. destruct (find_title l t 0 None) as [[k|] f].
  - destruct Hfind as (e & _ & He & Hv & Ht). rewrite Nat.sub_0_r in He. apply wp_bind. eapply stands_slot; [exact H|exact He|].
    apply wp_bind. eapply stands_source; [exact H|]. clear H w. intros w H.
    assert (Hw : forall x w', stands (<[k := x]> l) us w' -> (gc_valid x = true -> gc_title_id x = t) ->
      (gc_valid x = true -> missing_since_us x <> 0 -> missing_since_us x = a_now a \/
        (x = e /\ gc_valid e = true /\ kept_by_dlc a t = false /\ a_indexed a t = false /\ source_present a x = false)) ->
      (missing_since_us e <> 0 -> kept_by_dlc a t = false -> a_indexed a t = false -> source_present a e = false -> x = e) -> Q tt w').
    { intros x w1 H1 Hxt Hm Hkept. eapply HQ; [exact H1|]. eapply reconciled_write; [done|exact He|done|by auto|congruence|done|done|auto]. }
    assert (Hclear : (missing_since_us e <> 0 -> kept_by_dlc a t = false -> a_indexed a t = false -> source_present a e = false -> False) ->
      wp (clear_game_cache_slot k) Q w).
    { intros Hno. eapply stands_clear; [exact H|exact He|]. rewrite Hv. intros w' H'. eapply Hw; [exact H'|done|done|].
      intros. exfalso. auto. }
    assert (Hreset : (missing_since_us e <> 0 -> kept_by_dlc a t = false -> a_indexed a t = false -> source_present a e = false -> False) ->
      wp (set_slot k (with_missing 0 e)) Q w).
    { intros Hno. eapply stands_set; [exact H|]. intros w' H'. eapply Hw; [exact H'|done|done|]. intros. exfalso. auto. }
    destruct (kept_by_dlc a t) eqn:Ed.
    { destruct (source_present a e); [apply Hreset|apply Hclear]; done. }
    rewrite (Himg eq_refl) in *. destruct (source_present a e) eqn:Es; cbn [orb].
    { destruct (strcmp_eq (gc_path e) ""); [apply Hclear|apply Hreset]; done. }
    destruct (a_indexed a t) eqn:Ei.
    { destruct (strcmp_eq (gc_path e) ""); [apply Hclear|apply Hreset]; done. }
    eapply stands_set; [exact H|]. intros w' H'.
    destruct (timer_started (a_now a) e) as [Eq|[Eq Hz]]; rewrite Eq in H'; (eapply Hw; [exact H'|done| |]).
    + intros _ _. right. split_and!; auto.
    + done.
    + by left.
    + done.
  - destruct Hfind as [Hno Hf].
    assert (Hsame : Q tt w) by (eapply HQ; [exact H|apply reconciled_same; [done|]; by intros e [? ?]; apply Hno]).
    destruct (kept_by_dlc a t) eqn:Ed; [by apply wp_ret|]. rewrite (Himg eq_refl) in *. destruct (a_indexed a t) eqn:Ei; [by apply wp_ret|].
    cbn [orb]. destruct f as [k|]; [|by apply wp_ret]. destruct Hf as [?|(e & _ & He & Hv)]; [done|]. rewrite Nat.sub_0_r in He.
    eapply stands_set; [exact H|]. intros w' H'. eapply HQ; [exact H'|].
    assert (Hcopy : strlcpy t MAX_TITLE_ID = t) by (by apply strlcpy_fits, Hne).
    eapply reconciled_write; [done|exact He|congruence| |intros _ e' [? ?]; by apply Hno|done| |congruence].
    + destruct (timer_started (a_now a) (write_game_cache_slot "" t "" "")) as [->|[-> _]]; cbn; by rewrite Hcopy.
    + destruct (timer_started (a_now a) (write_game_cache_slot "" t "" "")) as [->|[-> _]]; [done|by left].
Qed.

(** *** All titles of the list *)
Record passed (titles : list string) (l l' : list GameCache) : Prop := {
  pass_ok : cache_ok l';
  pass_others e : gc_title_id e ∉ titles -> holds_game l' e <-> holds_game l e;
  pass_missing e : gc_title_id e ∈ titles -> a_protected a (gc_title_id e) = false -> holds_game l' e -> missing_since_us e <> 0 ->
    missing_since_us e = a_now a \/
    (holds_game l e /\ kept_by_dlc a (gc_title_id e) = false /\ a_indexed a (gc_title_id e) = false /\ source_present a e = false);
  pass_kept e : holds_game l e -> missing_since_us e <> 0 -> kept_by_dlc a (gc_title_id e) = false ->
    a_indexed a (gc_title_id e) = false -> source_present a e = false -> holds_game l' e;
}.

Lemma passed_cons t titles l l1 l' : reconciled a t l l1 -> passed titles l1 l' -> passed (t :: titles) l l'.
Proof.
  intros Hr Hp. split; [apply Hp| | |].
  - intros e [Hne Hni]%not_elem_of_cons. rewrite (pass_others _ _ _ Hp e Hni). by apply (rec_others _ _ _ _ Hr).
  - intros e Hin Hprot He Hm.
    assert (Hfirst : holds_game l1 e -> missing_since_us e = a_now a \/
      (gc_title_id e = t -> holds_game l e /\ kept_by_dlc a t = false /\ a_indexed a t = false /\ source_present a e = false)).
    { intros H1. destruct (decide (gc_title_id e = t)) as [Ht|]; [|by right]. subst t.
      destruct (rec_missing _ _ _ _ Hr e Hprot H1 eq_refl Hm); auto. }
    destruct (decide (gc_title_id e ∈ titles)) as [Hin'|Hni].
    + destruct (pass_missing _ _ _ Hp e Hin' Hprot He Hm) as [?|(H1 & ? & ? & ?)]; [by left|].
      destruct (Hfirst H1) as [?|Hf]; [by left|right]. split_and!; try done.
      destruct (decide (gc_title_id e = t)); [by apply Hf|by apply (rec_others _ _ _ _ Hr)].
    + apply elem_of_cons in Hin as [Ht|]; [|done]. apply (pass_others _ _ _ Hp e Hni) in He.
      destruct (Hfirst He) as [?|Hf]; [by left|right]. rewrite Ht. by apply Hf.
  - intros e He Hm Hd Hi Hs. apply (pass_kept _ _ _ Hp); try done.
    destruct (decide (gc_title_id e = t)) as [<-|]; [by apply (rec_kept _ _ _ _ Hr)|by apply (rec_others _ _ _ _ Hr)].
Qed.

Lemma stands_reconcile_titles titles l us (Q : () -> world -> Prop) w :
  stands l us w -> cache_ok l -> Forall title_ok titles ->
  (forall l' w', stands l' us w' -> passed titles l l' -> Q tt w') ->
  wp (reconcile_titles (steady a) (a_now a) (auto_remove_games_with_dlc (a_config a)) titles) Q w.
Proof.
  intros H Hok Ht. revert l w Q H Hok. induction Ht as [|t titles Ht _ IH]; intros l w Q H Hok HQ; cbn [reconcile_titles].
  - apply wp_ret. eapply HQ; [exact H|]. split; [done|done| |auto]. by intros e ?%elem_of_nil.
  - apply wp_bind. eapply stands_reconcile_title; [exact H|done|done|]. intros l1 w1 H1 Hr.
    eapply IH; [exact H1|apply Hr|]. intros l2 w2 H2 Hp. eapply HQ; [exact H2|]. by eapply passed_cons.
Qed.

Lemma dropped_cases titles e : dropped a titles e = e \/ (dropped a titles e = zero_game /\ app_db_title_list_contains titles (gc_title_id e) = false).
Proof.
  unfold dropped. destruct (gc_valid e && _ && _ && negb _) eqn:E; [right|by left]. split; [done|].
  apply andb_true_iff in E as [_ E]. by destruct (app_db_title_list_contains _ _).
Qed.

Lemma contains_elem titles t : app_db_title_list_contains titles t = true <-> t ∈ titles.
Proof.
  unfold app_db_title_list_contains. rewrite existsb_exists. split.
  - intros (x & Hx & E%String.eqb_eq). subst. by apply list_elem_of_In.
  - intros H. exists t. split; [by apply list_elem_of_In|apply String.eqb_refl].
Qed.

Lemma dropped_ok titles l : cache_ok l -> cache_ok (dropped a titles <$> l).
Proof.
  intros (Hlen & Hu & Ht). split; [by rewrite length_fmap|]. split.
  - intros i j x y Hi Hj Hx Hy Heq. rewrite list_lookup_fmap in Hi, Hj.
    apply fmap_Some in Hi as (x' & Hi & ->), Hj as (y' & Hj & ->).
    destruct (dropped_cases titles x') as [E|[E _]], (dropped_cases titles y') as [E'|[E' _]]; rewrite E in *; rewrite E' in *; try done.
    by eapply Hu.
  - intros i x Hi Hx. rewrite list_lookup_fmap in Hi. apply fmap_Some in Hi as (x' & Hi & ->).
    destruct (dropped_cases titles x') as [E|[E _]]; rewrite E in *; [by eapply Ht|done].
Qed.

(** What the drop keeps: every candidate for removal, and nothing new. *)
Lemma dropped_holds titles l e : (holds_game (dropped a titles <$> l) e -> holds_game l e) /\
  (gc_title_id e ∈ titles -> holds_game l e -> holds_game (dropped a titles <$> l) e).
Proof.
  split.
  - intros [(e' & -> & He)%list_elem_of_fmap Hv]. destruct (dropped_cases titles e') as [E|[E _]]; rewrite E in *; [by split|done].
  - intros Hin [He Hv]. split; [|done]. apply list_elem_of_fmap. exists e. split; [|done].
    destruct (dropped_cases titles e) as [->|[_ Hc]]; [done|]. apply contains_elem in Hin. congruence.
Qed.
End reconcile.

(** *** The second half: uninstalling what is due *)
Definition due (a : answers) (e : GameCache) : bool :=
  missing_timer_expired e (a_now a) (delay_of a) && negb (a_protected a (gc_title_id e)).

(** The titles of the list that an entry due asks to remove. *)
Definition to_remove (a : answers) (titles : list string) (l : list GameCache) (t : string) : Prop :=
  t ∈ titles /\ kept_by_dlc a t = false /\ exists e, e ∈ l /\ due a e = true /\ gc_title_id e = t.

Section removal.
Context (a : answers).
#[local] Existing Instance wholly.

Lemma due_valid e : due a e = true -> gc_valid e = true.
Proof. unfold due, missing_timer_expired. by destruct (gc_valid e). Qed.

Lemma stands_take_expired l us (Q : option string -> world -> Prop) w :
  stands l us w -> cache_ok l ->
  (forall w', stands l us w' -> (forall e, e ∈ l -> due a e = false) -> Q None w') ->
  (forall j e w', l !! j = Some e -> due a e = true -> stands (<[j := zero_game]> l) us w' -> Q (Some (gc_title_id e)) w') ->
  wp (take_expired (steady a) MAX_PENDING 0 (a_now a) (delay_of a)) Q w.
Proof.
  intros H Hok Hnone Hsome.
  assert (Hgen : forall n k w0, (k + n = MAX_PENDING)%nat -> stands l us w0 -> (forall j e, (j < k)%nat -> l !! j = Some e -> due a e = false) ->
    wp (take_expired (steady a) n k (a_now a) (delay_of a)) Q w0).
  { clear w H. induction n as [|n IH]; intros k w Hk H Hpre; cbn [take_expired].
    - apply wp_ret. apply Hnone; [done|]. intros e [j Hj]%list_elem_of_lookup. apply (Hpre j); [|done].
      apply lookup_lt_Some in Hj. destruct Hok as [Hlen _]. lia.
    - destruct (lookup_lt_is_Some_2 l k) as [e He]; [destruct Hok as [-> _]; lia|]. apply wp_bind.
      eapply stands_slot; [exact H|exact He|].
      assert (Hskip : forall w', stands l us w' -> due a e = false -> wp (take_expired (steady a) n (S k) (a_now a) (delay_of a)) Q w').
      { intros w' H' Hd. apply IH; [lia|done|]. intros j x Hj Hx. destruct (decide (j = k)) as [->|]; [congruence|]. apply (Hpre j); [lia|done]. }
      destruct (missing_timer_expired e (a_now a) (delay_of a)) eqn:Em; cbn [negb]; [|apply Hskip; [done|by unfold due; rewrite Em]].
      apply wp_bind. eapply stands_protected; [exact H|]. intros w1 H1.
      destruct (a_protected a (gc_title_id e)) eqn:Ep; [apply Hskip; [done|by unfold due; rewrite Em, Ep]|].
      assert (Hd : due a e = true) by (unfold due; by rewrite Em, Ep).
      apply wp_bind. eapply stands_clear; [exact H1|exact He|]. rewrite (due_valid e Hd). intros w2 H2. apply wp_ret.
      destruct Hok as (_ & _ & Ht). destruct (Ht k e He (due_valid e Hd)) as [_ Hfit]. rewrite strlcpy_fits by done.
      by apply (Hsome k e). }
  apply Hgen; [lia|done|lia].
Qed.

Lemma stands_remove_title titles t l us (Q : () -> world -> Prop) w :
  stands l us w ->
  (forall w', stands l (if app_db_title_list_contains titles t && negb (kept_by_dlc a t) then t :: us else us) w' -> Q tt w') ->
  wp (remove_title (steady a) titles (auto_remove_games_with_dlc (a_config a)) t) Q w.
Proof.
  intros H HQ. unfold remove_title. destruct (app_db_title_list_contains titles t); cbn [negb andb] in *; [|by apply wp_ret, HQ].
  apply wp_bind. eapply stands_dlc; [exact H|]. clear w H. intros w H. destruct (kept_by_dlc a t); cbn [negb] in *; [by apply wp_ret, HQ|].
  apply wp_bind. unfold wp, ask. cbn. set (w1 := World _ _ _).
  assert (H1 : stands l (t :: us) w1) by (destruct H as [? Hu]; split; [done|]; by rewrite <-Hu).
  change (wp (when (a_uninstall a t =? 0) (let* _ := emit (EvForgetPending t) in emit EvInvalidateTitles)) Q w1).
  apply wp_when; intros _; [|by apply HQ]. apply wp_bind. eapply stands_emit; [exact H1|done|]. intros w2 H2.
  eapply stands_emit; [exact H2|done|]. intros w3 H3. by apply HQ.
Qed.

Lemma cleared_ok j e l : cache_ok l -> l !! j = Some e -> gc_valid e = true -> cache_ok (<[j := zero_game]> l).
Proof.
  intros Hok Hj Hv. destruct (write_ok j (gc_title_id e) e zero_game l Hok Hj) as [H _]; auto; [done|congruence].
Qed.

(** The rest of the entries that are due once one of them is taken. *)
Lemma due_rest j e (l : list GameCache) x : l !! j = Some e -> due a e = true ->
  x ∈ l /\ due a x = true <-> x = e \/ (x ∈ <[j := zero_game]> l /\ due a x = true).
Proof.
  intros Hj Hd. pose proof (lookup_lt_Some _ _ _ Hj) as Hlt. split.
  - intros [[i Hi]%list_elem_of_lookup Hx]. destruct (decide (i = j)) as [->|]; [left; congruence|]. right. split; [|done].
    apply list_elem_of_lookup. exists i. by rewrite list_lookup_insert_ne.
  - intros [->|[[i Hi]%list_elem_of_lookup Hx]]; [split; [by eapply list_elem_of_lookup_2|done]|].
    apply list_lookup_insert_Some in Hi as [(<- & <- & _)|[? Hi]]; [done|]. split; [by eapply list_elem_of_lookup_2|done].
Qed.

Lemma stands_remove_expired titles fuel l us (Q : () -> world -> Prop) w :
  stands l us w -> cache_ok l -> (count_if (due a) l < fuel)%nat ->
  (forall l' us' w', stands l' us' w' -> (forall t, t ∈ us' <-> t ∈ us \/ to_remove a titles l t) -> Q tt w') ->
  wp (remove_expired (steady a) fuel titles (a_now a) (delay_of a) (auto_remove_games_with_dlc (a_config a))) Q w.
Proof.
  revert l us w. induction fuel as [|fuel IH]; intros l us w H Hok Hf HQ; [lia|]. cbn [remove_expired].
  apply wp_bind. eapply stands_take_expired; [exact H|done| |].
  - intros w' H' Hno. apply wp_ret. eapply HQ; [exact H'|]. intros t. split; [by left|].
    intros [?|(_ & _ & e & He & Hd & _)]; [done|]. by rewrite (Hno e He) in Hd.
  - intros j e w' Hj Hd H'. pose proof (due_valid e Hd) as Hv. destruct Hok as (Hlen & Hu & Ht).
    destruct (Ht j e Hj Hv) as [Hne _]. apply String.eqb_neq in Hne. unfold strcmp_eq. rewrite Hne.
    apply wp_bind. eapply stands_remove_title; [exact H'|]. intros w2 H2.
    eapply IH; [exact H2|by eapply cleared_ok; [|exact Hj|]| |].
    + pose proof (count_if_insert (due a) l j e zero_game Hj) as Hc. rewrite Hd in Hc. cbn [due missing_timer_expired gc_valid zero_game andb] in Hc. lia.
    + intros l' us' w3 H3 Hus. eapply HQ; [exact H3|]. intros t. rewrite Hus.
      assert (Hsplit : to_remove a titles l t <->
        (t = gc_title_id e /\ t ∈ titles /\ kept_by_dlc a t = false) \/ to_remove a titles (<[j := zero_game]> l) t).
      { unfold to_remove. split.
        - intros (Hin & Hk & x & Hx & Hxd & Hxt). destruct (proj1 (due_rest j e l x Hj Hd) (conj Hx Hxd)) as [->|[Hx' _]]; [by left|right].
          split_and!; [done|done|]. by exists x.
        - intros [(-> & Hin & Hk)|(Hin & Hk & x & Hx & Hxd & Hxt)]; split_and!; try done.
          + exists e. split; [by eapply list_elem_of_lookup_2|done].
          + destruct (proj2 (due_rest j e l x Hj Hd) (or_intror (conj Hx Hxd))) as [? _]. by exists x. }
      rewrite Hsplit. destruct (app_db_title_list_contains titles (gc_title_id e)) eqn:Ec.
      2:{ assert (gc_title_id e ∉ titles) by (intros ?%contains_elem; congruence). cbn [andb].
          split; [tauto|]. intros [?|[(-> & ? & _)|?]]; [tauto|done|tauto]. }
      apply contains_elem in Ec. destruct (kept_by_dlc a (gc_title_id e)) eqn:Ek; cbn [andb negb].
      * split; [tauto|]. intros [?|[(-> & _ & ?)|?]]; [tauto|congruence|tauto].
      * rewrite elem_of_cons. split; [intros [[->|?]|?]; auto|]. intros [?|[(-> & _)|?]]; auto.
Qed.
End removal.

(** ** The theorems *)

(** Titles the pass may remove: on the list, not in use, without content kept for DLC, not in an indexed image. *)
Definition removable (a : answers) (titles : list string) (t : string) : Prop :=
  t ∈ titles /\ a_protected a t = false /\ kept_by_dlc a t = false /\ a_indexed a t = false.

(** A cached game whose timer has run for the delay and whose source is gone. *)
Definition overdue (a : answers) (e : GameCache) : Prop :=
  missing_timer_expired e (a_now a) (delay_of a) = true /\ source_present a e = false.

(** one removal pass of a table in order ends, and while the answers of the system
    stay the same it uninstalls exactly the titles that are candidates of the application
    database, not in use, without DLC to keep, not in an indexed image, and whose cached
    entry has been missing for the configured delay and is still missing. *)
Theorem removal_pass_exact a titles w :
  cache_ok (w_games w) -> auto_remove_missing_games (a_config a) = true -> 0 < delay_of a ->
  a_titles a = Some titles -> Forall title_ok titles ->
  exists w', reconcile_missing_app_db_games (steady a) w = Some (tt, w') /\
    forall t, t ∈ uninstalled (w_trace w') <->
      t ∈ uninstalled (w_trace w) \/
      (removable a titles t /\ exists e, holds_game (w_games w) e /\ gc_title_id e = t /\ overdue a e).
Proof.
  intros Hok Hauto Hdelay Htitles Hts. set (l := w_games w) in *. set (us := uninstalled (w_trace w)).
  assert (Hwp : wp (F := wholly) (reconcile_missing_app_db_games (steady a)) (fun _ w' => forall t, t ∈ uninstalled (w_trace w') <->
      t ∈ us \/ (removable a titles t /\ exists e, holds_game l e /\ gc_title_id e = t /\ overdue a e)) w).
  2:{ by apply wp_ends in Hwp as ([] & w' & E & H); exists w'. }
  assert (H : stands l us w) by done. clearbody l us. unfold reconcile_missing_app_db_games.
  apply wp_bind. apply (stands_ask (a_config a) quiet l us _ w H I). intros w1 H1. cbv beta. rewrite Hauto. cbn [negb].
  apply wp_bind. apply (stands_ask (a_titles a) quiet l us _ w1 H1 I). intros w2 H2. cbv beta. rewrite Htitles.
  apply wp_bind. apply (stands_ask (a_now a) quiet l us _ w2 H2 I). intros w3 H3. cbv beta zeta. fold (delay_of a).
  apply wp_bind. unfold reconcile_missing_game_cache. apply wp_bind.
  eapply (stands_each_slot _ (dropped a titles)); [|exact H3|apply Hok|].
  { intros k e l0 w0 R H0 He HR. by eapply stands_drop_untracked. }
  intros w4 H4. eapply stands_reconcile_titles; [exact H4|by apply dropped_ok|done|]. intros l2 w5 H5 Hpass.
  eapply stands_remove_expired; [exact H5|apply Hpass| |].
  { pose proof (count_if_le (due a) l2). destruct (pass_ok _ _ _ _ Hpass) as [Hlen _]. unfold MAX_PENDING in *. lia. }
  intros l3 us' w6 [_ <-] Hus t. rewrite Hus. apply or_iff_compat_l. split.
  - intros (Hin & Hk & e & He & Hd & <-). unfold due in Hd. apply andb_true_iff in Hd as [Hexp Hprot].
    apply negb_true_iff in Hprot.
    assert (Hm : missing_since_us e <> 0) by (unfold missing_timer_expired in Hexp; lia).
    assert (Hv : holds_game l2 e) by (split; [done|]; unfold missing_timer_expired in Hexp; by destruct (gc_valid e)).
    destruct (pass_missing _ _ _ _ Hpass e Hin Hprot Hv Hm) as [Heq|(H1' & _ & Hi & Hs)].
    { exfalso. unfold missing_timer_expired in Hexp. rewrite Heq, Z.sub_diag in Hexp. change (u64 0) with 0 in Hexp. lia. }
    apply dropped_holds in H1'. split; [done|]. by exists e.
  - intros ((Hin & Hprot & Hk & Hi) & e & He & <- & Hexp & Hs). split; [done|]. split; [done|].
    assert (Hm : missing_since_us e <> 0) by (unfold missing_timer_expired in Hexp; lia).
    destruct (pass_kept _ _ _ _ Hpass e) as [Hin2 _]; try done; [by apply dropped_holds|].
    exists e. split; [done|]. split; [|done]. unfold due. by rewrite Hexp, Hprot.
Qed.

(** *** A game that moved to a known path *)
Definition empty_table : list GameCache := replicate MAX_PENDING zero_game.
Definition start_world : world := World empty_table 0 [].

(** Removal after one second; [present] are the paths that exist. *)
Definition demo_answers (now : Z) (present : list string) (link : string -> option string) : answers := {|
  a_exists p := existsb (strcmp_eq p) present; a_image_link := link; a_stat _ := StatFailed true;
  a_protected _ := false; a_image_source _ := None; a_scan_paths := ["/data"%string]; a_indexed _ := false;
  a_config := Config true 1 false; a_titles := Some ["PPSA00001"; "PPSA00002"]%string; a_now := now; a_uninstall _ := 0;
|}.

Definition both_found : system := steady (demo_answers 0 ["/data/one"; "/data/two"]%string (fun _ => None)).
Definition two_gone : answers := demo_answers 1000000 ["/data/one"%string] (fun _ => None).
Definition two_moved : answers := demo_answers 3000000 ["/data/one"%string] (fun _ => None).

(** The second game leaves its directory and comes back in that of the first. *)
Definition moving_game : M () :=
  let* _ := cache_game_entry both_found "/data/one" "PPSA00001" "one" in
  let* _ := cache_game_entry both_found "/data/two" "PPSA00002" "two" in
  let* _ := reconcile_missing_app_db_games (steady two_gone) in
  cache_game_entry (steady two_moved) "/data/one" "PPSA00002" "two".

Definition after (m : M ()) : world := match m start_world with Some (_, w) => w | None => start_world end.

(** a title can have two entries: [cache_game_entry] takes the first entry with the path
    or the title, so a game that appears at a path known for another game leaves its old
    entry in place. The pass checks the first entry of a title only, and the timer of the
    old one runs on: the game is uninstalled although its source is there. *)
Theorem moved_game_uninstalled : exists w w',
  moving_game start_world = Some (tt, w) /\
  (exists e, holds_game (w_games w) e /\ gc_title_id e = "PPSA00002"%string /\ missing_since_us e = 0 /\ source_present two_moved e = true) /\
  reconcile_missing_app_db_games (steady two_moved) w = Some (tt, w') /\
  uninstalled (w_trace w) = [] /\ uninstalled (w_trace w') = ["PPSA00002"%string].
Proof.
  exists (after moving_game), (after (let* _ := moving_game in reconcile_missing_app_db_games (steady two_moved))).
  split; [vm_compute; reflexivity|]. split.
  { exists (Game "/data/one" "PPSA00002" "two" "/data" 0 true). split; [|by vm_compute]. split; [|done].
    apply list_elem_of_lookup. exists 0%nat. vm_compute. reflexivity. }
  split; [vm_compute; reflexivity|]. split; vm_compute; reflexivity.
Qed.

(** A title without a source gets an entry without a path; when its image comes back,
    pruning stops the timer and the entry is shown to readers. *)
Theorem placeholder_shown : exists w w',
  reconcile_missing_app_db_games (steady two_gone) start_world = Some (tt, w) /\
  (let* _ := prune_game_cache (steady (demo_answers 2000000 ["/data/x.img"%string] (fun _ => Some "/data/x.img"%string))) in
   sm_game_cache_snapshot true) w = Some (Some [(""%string, "PPSA00001"%string, ""%string); (""%string, "PPSA00002"%string, ""%string)], w').
Proof.
  exists (after (reconcile_missing_app_db_games (steady two_gone))).
  eexists. split; vm_compute; reflexivity.
Qed.

Lemma two_games_ok x y n : S (S n) = MAX_PENDING -> gc_title_id x <> gc_title_id y -> title_ok (gc_title_id x) -> title_ok (gc_title_id y) ->
  cache_ok (x :: y :: replicate n zero_game).
Proof.
  intros Hn Hne Hx Hy.
  assert (Hcases : forall i e, (x :: y :: replicate n zero_game) !! i = Some e -> gc_valid e = true -> (i = 0%nat /\ e = x) \/ (i = 1%nat /\ e = y)).
  { intros [|[|i]] e [= E] Hv; subst; [by left|by right|]. by apply lookup_replicate in E as [-> _]. }
  split; [cbn; by rewrite length_replicate|]. split.
  - intros i j e e' Hi Hj He He' Heq.
    destruct (Hcases i e Hi He) as [[-> ->]|[-> ->]], (Hcases j e' Hj He') as [[-> ->]|[-> ->]]; congruence.
  - intros i e Hi He. by destruct (Hcases i e Hi He) as [[_ ->]|[_ ->]].
Qed.

Lemma removal_pass_exact_witness : exists w', 
  reconcile_missing_app_db_games (steady two_moved) (after (reconcile_missing_app_db_games (steady two_gone))) = Some (tt, w') /\
  "PPSA00002"%string ∈ uninstalled (w_trace w').
Proof.
  destruct (removal_pass_exact two_moved ["PPSA00001"; "PPSA00002"]%string (after (reconcile_missing_app_db_games (steady two_gone))))
    as (w' & E & Hu).
  - assert (Hl : w_games (after (reconcile_missing_app_db_games (steady two_gone))) =
      Game "" "PPSA00001" "" "" 1000000 true :: Game "" "PPSA00002" "" "" 1000000 true :: replicate 510 zero_game) by (vm_compute; reflexivity).
    rewrite Hl. apply two_games_ok; [done|done| | ]; split; [done|vm_compute; lia|done|vm_compute; lia].
  - done.
  - done.
  - done.
  - repeat constructor; done || (vm_compute; lia).
  - exists w'. split; [exact E|]. apply Hu. right. split.
    + split; [by right; left|]. split; [done|]. split; [vm_compute; reflexivity|done].
    + exists (Game "" "PPSA00002" "" "" 1000000 true). split; [split; [apply list_elem_of_lookup; exists 1%nat; vm_compute; reflexivity|done]|].
      split; [done|]. split; vm_compute; reflexivity.
Defined.
