(* ===== verification/PkgParam.v ===== *)
(** * Package metadata (src/sm_pkg.c, first part)

    What src/sm_pkg.c reads from bytes that are already in memory: param.sfo and
    param.json, the ids they hold, the SDK version recorded in them and in an
    executable, and the tests on paths.

    Reads of a buffer go through [slice] and [le_at]: [None] of the outer
    [option] is an access outside it.  A buffer that was filled only in part is
    the bytes that were filled, so an access to what was not is [None] too.
    json-c is a parameter, as in GameInfo.v. *)
From S2P Require Import Prelude CString Bytes GameInfo SelfReader IniFile ConfigState.
Open Scope Z_scope.
Open Scope c_scope.

Definition MAX_CONTENT_ID : nat := 128.
Definition MAX_GAME_VERSION : nat := 32.
Definition CATEGORY_SIZE : nat := 16.

(** The fields of [sm_pkg_info_t] that the package's own metadata fills. *)
Record pkg_meta := PkgMeta {
  pm_title_id : string; pm_title_name : string; pm_content_id : string; pm_category : string;
  pm_app_ver : string; pm_sdk_version : Z; pm_icon_offset : Z; pm_icon_size : Z;
}.

#[export] Instance pkg_meta_eq_dec : EqDecision pkg_meta.
Proof. solve_decision. Defined.

Definition empty_meta : pkg_meta := PkgMeta "" "" "" "" "" 0 0 0.

(** The character arrays among them. *)
Inductive text_field := FTitleId | FTitle | FContentId | FCategory | FAppVer.

#[export] Instance text_field_eq_dec : EqDecision text_field.
Proof. solve_decision. Defined.

Definition field_size (f : text_field) : nat :=
  match f with
  | FTitleId => MAX_TITLE_ID | FTitle => MAX_TITLE_NAME | FContentId => MAX_CONTENT_ID
  | FCategory => CATEGORY_SIZE | FAppVer => MAX_GAME_VERSION
  end.

Definition get_field (f : text_field) (m : pkg_meta) : string :=
  match f with
  | FTitleId => pm_title_id m | FTitle => pm_title_name m | FContentId => pm_content_id m
  | FCategory => pm_category m | FAppVer => pm_app_ver m
  end.

Definition set_field (f : text_field) (v : string) (m : pkg_meta) : pkg_meta :=
  let 'PkgMeta id name content cat ver sdk io isz := m in
  match f with
  | FTitleId => PkgMeta v name content cat ver sdk io isz
  | FTitle => PkgMeta id v content cat ver sdk io isz
  | FContentId => PkgMeta id name v cat ver sdk io isz
  | FCategory => PkgMeta id name content v ver sdk io isz
  | FAppVer => PkgMeta id name content cat v sdk io isz
  end.

Definition set_sdk (v : Z) (m : pkg_meta) : pkg_meta :=
  let 'PkgMeta id name content cat ver _ io isz := m in PkgMeta id name content cat ver v io isz.

Definition set_icon (offset size : Z) (m : pkg_meta) : pkg_meta :=
  let 'PkgMeta id name content cat ver sdk _ _ := m in PkgMeta id name content cat ver sdk offset size.

(** ** Strings *)
Fixpoint str_drop (n : nat) (s : string) : string :=
  match n, s with
  | S n', String _ s' => str_drop n' s'
  | _, _ => s
  end.

(** [strchr(s, c)]: the index of the first [c]. *)
Definition strchr_index (s : string) (c : Ascii.ascii) : option nat := find_index (Ascii.eqb c) (lit s).

(** [strcasecmp(a, b) == 0]. *)
Definition same_nocase (a b : string) : bool := strcasecmp_eq (lit a) (lit b).

(** [copy_string]: the text up to its first zero byte, cut to the buffer. *)
Definition copy_string (out_size : nat) (value : list Z) : string :=
  strlcpy (bytes_string (until_nul value)) out_size.

Definition pkg_filename (path : string) : string := default path (after_last path slash).

Definition id_char (c : Ascii.ascii) : bool := isalnum c || Ascii.eqb c "-" || Ascii.eqb c "_".

Definition package_content_id_valid (content_id : string) : bool :=
  negb (strcmp_eq content_id "") && (strlen content_id <=? MAX_CONTENT_ID - 1)%nat && forallb id_char (lit content_id).

Definition pkg_extension (name : string) : bool :=
  (4 <=? strlen name)%nat && same_nocase (str_drop (strlen name - 4) name) ".pkg".

(** The loop over the digits of the extension's number. *)
Fixpoint skip_digits (s : string) : string :=
  match s with
  | String a s' => if isdigit a then skip_digits s' else s
  | EmptyString => s
  end.

Definition starts_digit (s : string) : bool := match s with String a _ => isdigit a | EmptyString => false end.

Definition sm_pkg_is_installed_content_path (path : string) : bool :=
  let rest :=
    if has_prefix path "/user/" then Some (str_drop 6 path)
    else if has_prefix path "/mnt/ext" then
      let p := str_drop 8 path in
      if negb (starts_digit p) then None
      else
        let p := skip_digits p in
        if has_prefix p "/user/" then Some (str_drop 6 p)
        else if has_prefix p "/ps5/user/" then Some (str_drop 10 p) else None
    else None in
  match rest with
  | None => false
  | Some rest =>
      strcmp_eq rest "app" || has_prefix rest "app/" || strcmp_eq rest "patch" || has_prefix rest "patch/" ||
      strcmp_eq rest "addcont" || has_prefix rest "addcont/"
  end.

(** The title id inside a content id ("UP0000-CUSA00000_00-..."). *)
Definition content_title_id (content_id : string) : option string :=
  d ← strchr_index content_id "-";
  let dash := str_drop (S d) content_id in
  e ← strchr_index dash "_";
  if negb (e =? 9)%nat then None
  else if (MAX_TITLE_ID <=? e)%nat then None
  else
    let text := String.substring 0 e dash in
    if forallb isalnum (lit text) then Some text else None.

(** ** The SDK version as text *)
Definition isxdigit (c : Z) : bool :=
  ((48 <=? c) && (c <=? 57)) || ((65 <=? c) && (c <=? 70)) || ((97 <=? c) && (c <=? 102)).

Definition hex_digit (c : Z) : Z := if c <=? 57 then c - 48 else (if c <=? 90 then c + 32 else c) - 97 + 10.

(** The digits into a [w]-bit number; [None] at the first byte that is none. *)
Fixpoint read_hex (w : Z) (digits : list Z) (value : Z) : option Z :=
  match digits with
  | [] => Some value
  | c :: ds => if isxdigit c then read_hex w ds (wrap w (Z.lor (Z.shiftl value 4) (hex_digit c))) else None
  end.

Definition comma_or_space (c : Z) : bool := (c =? 44) || (c =? 32).

(** One turn of the loop of [read_pubtool_sdk]: [None] of the inner option is
    [continue]. *)
Definition pubtool_at (text : list Z) (i : Z) : option (option Z) :=
  do? separated <- (if i =? 0 then Some true
                    else (do? c <- le_at text (i - 1) 1 ; Some (comma_or_space c))) ;
  if negb separated then Some None
  else
    do? name <- slice text i 8 ;
    if negb (bool_decide (name = string_bytes "sdk_ver=")) then Some None
    else
      do? digits <- slice text (i + 8) 8 ;
      match read_hex 32 digits 0 with
      | None => Some (Some 0)
      | Some value =>
          if i + 16 <? Z.of_nat (length text) then
            do? c <- le_at text (i + 16) 1 ;
            Some (Some (if (c =? 0) || comma_or_space c then value else 0))
          else Some (Some value)
      end.

Fixpoint pubtool_from (text : list Z) (n : nat) (i : Z) : option Z :=
  match n with
  | O => Some 0
  | S n' =>
      do? r <- pubtool_at text i ;
      match r with Some v => Some v | None => pubtool_from text n' (i + 1) end
  end.

(** [for (i = 0; i + 16 <= size; ++i)]. *)
Definition read_pubtool_sdk (text : list Z) : option Z :=
  pubtool_from text (Z.to_nat (Z.of_nat (length text) - 15)) 0.

Definition parse_json_sdk (text : list Z) : Z :=
  match until_nul text with
  | 48 :: x :: digits =>
      if negb ((x =? 120) || (x =? 88)) then 0
      else if negb ((length digits =? 8)%nat || (length digits =? 16)%nat) then 0
      else
        match read_hex 64 digits 0 with
        | None => 0
        | Some value => if (length digits =? 16)%nat then u32 (Z.shiftr value 32) else u32 value
        end
  | _ => 0
  end.

(** ** param.sfo *)
Inductive sfo_what := SfoSdk | SfoText (f : text_field).

Definition sfo_what_of (key : list Z) : option sfo_what :=
  let named s := bool_decide (key = string_bytes s) in
  if named "PUBTOOLINFO" then Some SfoSdk
  else if named "TITLE" then Some (SfoText FTitle)
  else if named "TITLE_ID" then Some (SfoText FTitleId)
  else if named "CATEGORY" then Some (SfoText FCategory)
  else if named "APP_VER" then Some (SfoText FAppVer)
  else if named "CONTENT_ID" then Some (SfoText FContentId)
  else None.

Definition parse_sfo_entry (data : list Z) (key_offset value_offset i : Z) (m : pkg_meta) : option pkg_meta :=
  let size := Z.of_nat (length data) in
  let entry := 20 + i * 16 in
  do? key_rel <- le_at data entry 2 ;
  do? format <- le_at data (entry + 2) 2 ;
  do? len <- le_at data (entry + 4) 4 ;
  do? value_rel <- le_at data (entry + 12) 4 ;
  let key_pos := key_offset + key_rel in
  let value_pos := value_offset + value_rel in
  if (size <=? key_pos) || (size <? value_pos) || (size - value_pos <? len) then Some m
  else
    do? keys <- slice data key_pos (size - key_pos) ;
    match find_index (Z.eqb 0) keys with
    | None => Some m
    | Some key_length =>
        if negb ((format =? 0x0004) || (format =? 0x0204)) then Some m
        else
          match sfo_what_of (take key_length keys) with
          | None => Some m
          | Some SfoSdk =>
              do? text <- slice data value_pos len ;
              do? v <- read_pubtool_sdk text ;
              Some (set_sdk v m)
          | Some (SfoText f) =>
              do? value <- slice data value_pos len ;
              let text := until_nul value in
              Some (if (field_size f <=? length text)%nat then m else set_field f (bytes_string text) m)
          end
    end.

Fixpoint parse_sfo_entries (data : list Z) (key_offset value_offset : Z) (n : nat) (i : Z) (m : pkg_meta) :
    option pkg_meta :=
  match n with
  | O => Some m
  | S n' =>
      do? m' <- parse_sfo_entry data key_offset value_offset i m ;
      parse_sfo_entries data key_offset value_offset n' (i + 1) m'
  end.

(** [None] of the inner option is [return false]. *)
Definition parse_sfo (data : list Z) (m : pkg_meta) : option (option pkg_meta) :=
  let size := Z.of_nat (length data) in
  if size <? 20 then Some None
  else
    do? magic <- slice data 0 4 ;
    if negb (bool_decide (magic = SFO_MAGIC)) then Some None
    else
      do? key_offset <- le_at data 8 4 ;
      do? value_offset <- le_at data 12 4 ;
      do? count <- le_at data 16 4 ;
      if ((size - 20) / 16 <? count) || (size <=? key_offset) || (size <=? value_offset) then Some None
      else do? m' <- parse_sfo_entries data key_offset value_offset (Z.to_nat count) 0 m ; Some (Some m').

(** ** param.json *)

(** json-c: the type of a value, its string ([None] for another type), a member
    of an object ([None] when it is absent or null), its members in order, and
    the strict parser: [None] when no tokener could be allocated, otherwise
    whether it succeeded, and the root. *)
Record json_lib := JsonLib {
  jl_value : Type;
  jl_is_object : jl_value -> bool;
  jl_string : jl_value -> option (list Z);
  jl_get : jl_value -> string -> option jl_value;
  jl_members : jl_value -> list (string * jl_value);
  jl_parse : list Z -> option (bool * jl_value);
}.

Section json.
Context (J : json_lib).
Implicit Types (j : jl_value J).

(** [while (size > 0 && data[size - 1] == '\0') size--]. *)
Fixpoint drop_zeros (l : list Z) : list Z :=
  match l with 0 :: l' => drop_zeros l' | _ => l end.

Definition strip_nuls (data : list Z) : list Z := rev (drop_zeros (rev data)).

(** A member that is a string. *)
Definition json_text j (key : string) : option (list Z) := value ← jl_get J j key; jl_string J value.

Definition copy_json j (key : string) (f : text_field) (m : pkg_meta) : pkg_meta :=
  match json_text j key with
  | Some text => set_field f (copy_string (field_size f) text) m
  | None => m
  end.

(** The object with the localized name. *)
Definition localized_params j : option (jl_value J) :=
  match (preferred ← json_text j "defaultLanguage"; jl_get J j (bytes_string (until_nul preferred))) with
  | Some params => if jl_is_object J params then Some params else None
  | None => None
  end.

Definition first_params j : option (jl_value J) :=
  snd <$> (i ← find_index (fun kv => negb (strcmp_eq kv.1 "defaultLanguage") && jl_is_object J kv.2) (jl_members J j);
           jl_members J j !! i).

Definition copy_title_name (root : jl_value J) (m : pkg_meta) : pkg_meta :=
  match jl_get J root "localizedParameters" with
  | Some localized =>
      if jl_is_object J localized then
        match (match localized_params localized with Some p => Some p | None => first_params localized end) with
        | Some params => copy_json params "titleName" FTitle m
        | None => m
        end
      else m
  | None => m
  end.

(** [JsonNoMemory]: no tokener, [malloc] has set errno. *)
Inductive json_result := JsonOk (m : pkg_meta) | JsonBad | JsonNoMemory.

Definition parse_param_json (data : list Z) (m : pkg_meta) : json_result :=
  let text := strip_nuls data in
  if (length text =? 0)%nat then JsonBad
  else
    match jl_parse J text with
    | None => JsonNoMemory
    | Some (success, root) =>
        if negb (success && jl_is_object J root) then JsonBad
        else
          let m1 := match json_text root "sdkVersion" with
                    | Some t => set_sdk (parse_json_sdk t) m | None => m end in
          let content := json_text root "contentId" in
          let bad := from_option (fun t => (MAX_CONTENT_ID <=? length t)%nat || existsb (Z.eqb 0) t) false content in
          if bad then JsonBad
          else
            let m2 := copy_json root "contentId" FContentId m1 in
            let m3 := copy_json root "titleId" FTitleId m2 in
            let m4 := copy_json root "contentVersion" FAppVer m3 in
            let m5 := if strcmp_eq (pm_app_ver m4) "" then copy_json root "masterVersion" FAppVer m4 else m4 in
            JsonOk (copy_title_name root m5)
    end.
End json.

(** ** The SDK version of an executable *)
Definition SELF_MAGIC : Z := 0xEEF51454.
Definition PROC_PARAM_TYPE : Z := 0x61000001.
Definition PROC_PARAM_SIZE : Z := 24.
Definition PROC_PARAM_MAGIC : Z := 0x4942524F.

(** The file as far as it was read: its first [length] bytes, and where the
    parts of the container lie. *)
Record sdk_reader := SdkReader {
  sr_file : list Z; sr_header : list Z; sr_segments : Z; sr_elf : Z; sr_limit : Z; sr_phoff : Z; sr_count : Z;
}.

Definition sdk_phdr (r : sdk_reader) (i : Z) : Z := sr_elf r + sr_phoff r + i * 56.

(** The program header of the process parameter: [None] of the inner option is
    [return 0] (a second one), [Some None] that there is none. *)
Fixpoint find_param (r : sdk_reader) (n : nat) (i : Z) (param : option Z) : option (option (option Z)) :=
  match n with
  | O => Some (Some param)
  | S n' =>
      let entry := sdk_phdr r i in
      do? kind <- le_at (sr_header r) entry 4 ;
      if negb (kind =? PROC_PARAM_TYPE) then find_param r n' (i + 1) param
      else
        match param with
        | Some _ => Some None
        | None => find_param r n' (i + 1) (Some entry)
        end
  end.

(** What a search over the segments has: the process parameter's bytes (the
    variables [mapped] and [proc]), [None] after [return 0]; and the reads. *)
Definition sdk_search : Type := option (option (list Z)) * list (Z * Z).

(** The container's segments from [j] on, for the load segment [i] whose file
    range starts [rel] bytes before the parameter. *)
Fixpoint sdk_segments (r : sdk_reader) (i rel param_size : Z) (n : nat) (j : Z) (proc : option (list Z))
    (reads : list (Z * Z)) : option sdk_search :=
  match n with
  | O => Some (Some proc, reads)
  | S n' =>
      let segment := 32 + j * 32 in
      do? flags <- le_at (sr_header r) segment 8 ;
      do? physical <- le_at (sr_header r) (segment + 8) 8 ;
      do? stored <- le_at (sr_header r) (segment + 16) 8 ;
      do? unpacked <- le_at (sr_header r) (segment + 24) 8 ;
      if negb (Z.shiftr flags 20 =? i) || (Z.land flags 0x800 =? 0)
      then sdk_segments r i rel param_size n' (j + 1) proc reads
      else if bool_decide (is_Some proc) || negb (Z.land flags 0xA =? 0) || negb (stored =? unpacked) ||
              (physical <? sr_elf r + sr_phoff r + sr_count r * 56) ||
              negb (executable_range physical stored (sr_limit r)) || negb (executable_range rel param_size stored)
      then Some (None, reads)
      else
        let at_ := u64 (physical + rel) in
        let reads' := reads ++ [(at_, PROC_PARAM_SIZE)] in
        match file_read_at (sr_file r) at_ PROC_PARAM_SIZE with
        | None => Some (None, reads')
        | Some bytes => sdk_segments r i rel param_size n' (j + 1) (Some bytes) reads'
        end
  end.

(** The load segments from [i] on that hold the parameter. *)
Fixpoint sdk_loads (r : sdk_reader) (offset param_size : Z) (n : nat) (i : Z) (proc : option (list Z))
    (reads : list (Z * Z)) : option sdk_search :=
  match n with
  | O => Some (Some proc, reads)
  | S n' =>
      let load := sdk_phdr r i in
      do? start <- le_at (sr_header r) (load + 8) 8 ;
      do? bytes <- le_at (sr_header r) (load + 32) 8 ;
      do? kind <- le_at (sr_header r) load 4 ;
      if negb (kind =? 1) || (offset <? start) || negb (executable_range (offset - start) param_size bytes)
      then sdk_loads r offset param_size n' (i + 1) proc reads
      else
        do? s <- sdk_segments r i (offset - start) param_size (Z.to_nat (sr_segments r)) 0 proc reads ;
        match s with
        | (None, reads') => Some (None, reads')
        | (Some proc', reads') => sdk_loads r offset param_size n' (i + 1) proc' reads'
        end
  end.

(** The container and the ELF header; [None] of the inner option is [return 0]. *)
Definition open_sdk (file header : list Z) (size : Z) : option (option sdk_reader) :=
  let len := Z.of_nat (length header) in
  do? magic <- le_at header 0 4 ;
  let self := magic =? SELF_MAGIC in
  do? segments <- (if self then le_at header 24 2 else Some 0) ;
  do? limit <- (if self then le_at header 16 8 else Some size) ;
  let elf := if self then 32 + segments * 32 else 0 in
  if (self && ((segments =? 0) || (64 <? segments) || (size <? limit))) ||
     negb (executable_range elf 64 len) || negb (executable_range elf 64 limit)
  then Some None
  else
    do? ident <- slice header elf 4 ;
    do? b4 <- le_at header (elf + 4) 1 ;
    do? b5 <- le_at header (elf + 5) 1 ;
    do? b6 <- le_at header (elf + 6) 1 ;
    do? machine <- le_at header (elf + 18) 2 ;
    if negb (bool_decide (ident = ELF_MAGIC)) || negb (b4 =? 2) || negb (b5 =? 1) || negb (b6 =? 1) ||
       negb (machine =? 62)
    then Some None
    else
      do? phoff <- le_at header (elf + 32) 8 ;
      do? count <- le_at header (elf + 56) 2 ;
      do? phentsize <- le_at header (elf + 54) 2 ;
      Some (if negb (phentsize =? 56) || (count =? 0) || (64 <? count) || (phoff <? 64) ||
               negb (executable_range phoff (count * 56) (len - elf)) ||
               negb (executable_range phoff (count * 56) (limit - elf))
            then None else Some (SdkReader file header segments elf limit phoff count)).

(** The version in the process parameter; 0 when it is not one. *)
Definition proc_sdk (proc : list Z) (param_size : Z) : option Z :=
  do? magic <- le_at proc 8 4 ;
  do? proc_size <- le_at proc 0 8 ;
  if negb (magic =? PROC_PARAM_MAGIC) || (proc_size <? PROC_PARAM_SIZE) || (param_size <? proc_size)
  then Some 0
  else
    do? version <- le_at proc 12 4 ;
    if version =? 0 then Some 0
    else
      do? sdk <- le_at proc (if version =? 1 then 16 else 20) 4 ;
      let major := Z.shiftr sdk 24 in
      Some (if negb (major =? 0) && (Z.shiftr major 4 <=? 9) && (Z.land major 15 <=? 9) then sdk else 0).

(** The version, and the ranges of the file read. *)
Definition read_executable_sdk (file : list Z) (size : Z) : option (Z * list (Z * Z)) :=
  let len := if size <? HEADER_BYTES then size else HEADER_BYTES in
  if len <? 64 then Some (0, [])
  else
    let reads := [(0, len)] in
    match file_read_at file 0 len with
    | None => Some (0, reads)
    | Some header =>
        do? opened <- open_sdk file header size ;
        match opened with
        | None => Some (0, reads)
        | Some r =>
            do? found <- find_param r (Z.to_nat (sr_count r)) 0 None ;
            match found with
            | Some (Some param) =>
                do? offset <- le_at header (param + 8) 8 ;
                do? param_size <- le_at header (param + 32) 8 ;
                if param_size <? PROC_PARAM_SIZE then Some (0, reads)
                else
                  do? s <-
                    (if negb (sr_segments r =? 0) then
                       sdk_loads r offset param_size (Z.to_nat (sr_count r)) 0 None reads
                     else if negb (executable_range offset param_size size) then Some (None, reads)
                     else Some (Some <$> file_read_at file offset PROC_PARAM_SIZE,
                                reads ++ [(offset, PROC_PARAM_SIZE)])) ;
                  match s with
                  | (Some (Some proc), reads') => do? v <- proc_sdk proc param_size ; Some (v, reads')
                  | (_, reads') => Some (0, reads')
                  end
            | _ => Some (0, reads)
            end
        end
    end.

(** [None] is that [open] fails. *)
Definition sm_pkg_read_executable_sdk (f : self_file) : option (Z * list (Z * Z)) :=
  if negb (sf_open f) then Some (0, [])
  else if sf_stat_ok f && sf_regular f && (0 <? sf_size f) then read_executable_sdk (sf_bytes f) (sf_size f)
  else Some (0, []).

(** * Lemmas *)

(** ** Fields *)
Lemma get_set_field f g v m : get_field f (set_field g v m) = if decide (f = g) then v else get_field f m.
Proof. destruct m. by destruct f, g. Qed.

Lemma get_set_sdk f v m : get_field f (set_sdk v m) = get_field f m.
Proof. destruct m. by destruct f. Qed.

Lemma get_set_icon f o n m : get_field f (set_icon o n m) = get_field f m.
Proof. destruct m. by destruct f. Qed.

(** Every text fits its array with the terminator, the version is 32 bits. *)
Record meta_fits (m : pkg_meta) : Prop := {
  mf_text : forall f, (strlen (get_field f m) < field_size f)%nat;
  mf_sdk : 0 <= pm_sdk_version m < 2 ^ 32;
}.

Definition same_icon (m m' : pkg_meta) : Prop :=
  pm_icon_offset m' = pm_icon_offset m /\ pm_icon_size m' = pm_icon_size m.

#[export] Instance same_icon_preorder : PreOrder same_icon.
Proof. split; [done|]. intros a b c [H1 H2] [H3 H4]. split; congruence. Qed.

Lemma set_field_icon f v m : same_icon m (set_field f v m).
Proof. destruct m. by destruct f. Qed.

Lemma set_sdk_icon v m : same_icon m (set_sdk v m).
Proof. by destruct m. Qed.

Lemma field_size_pos f : (0 < field_size f)%nat.
Proof. by destruct f; apply Nat.ltb_lt. Qed.

Lemma empty_meta_fits : meta_fits empty_meta.
Proof. split; [|done]. intros f. replace (get_field f empty_meta) with ""%string by by destruct f. apply field_size_pos. Qed.

Lemma set_field_fits f v m : (strlen v < field_size f)%nat -> meta_fits m -> meta_fits (set_field f v m).
Proof.
  intros Hv [Ht Hs]. split; [|by destruct m, f].
  intros g. rewrite get_set_field. by destruct (decide (g = f)) as [->|].
Qed.

Lemma set_sdk_fits v m : 0 <= v < 2 ^ 32 -> meta_fits m -> meta_fits (set_sdk v m).
Proof. intros Hv [Ht Hs]. split; [intros f; by rewrite get_set_sdk|by destruct m]. Qed.

Lemma set_icon_fits o n m : meta_fits m -> meta_fits (set_icon o n m).
Proof. intros [Ht Hs]. split; [intros f; by rewrite get_set_icon|by destruct m]. Qed.

Lemma copy_string_fits f value : (strlen (copy_string (field_size f) value) < field_size f)%nat.
Proof. apply strlcpy_length, field_size_pos. Qed.

Create HintDb pkg discriminated.
#[export] Hint Resolve set_field_fits set_sdk_fits set_icon_fits copy_string_fits empty_meta_fits : pkg.

(** ** SDK texts *)
Lemma read_hex_range w ds v n : 0 <= w -> read_hex w ds v = Some n -> 0 <= v < 2 ^ w -> 0 <= n < 2 ^ w.
Proof.
  intros Hw. revert v. induction ds as [|c ds IH]; simpl; intros v; [congruence|].
  destruct (isxdigit c); [|done]. intros Hn _. eapply IH; [exact Hn|]. by apply wrap_range.
Qed.

Lemma pubtool_at_total text i : Forall is_byte text -> 0 <= i -> i + 16 <= Z.of_nat (length text) ->
  exists r, pubtool_at text i = Some r /\ forall v, r = Some v -> 0 <= v < 2 ^ 32.
Proof.
  intros Hb Hi Hl. unfold pubtool_at.
  assert (exists s, (if i =? 0 then Some true else do? c <- le_at text (i - 1) 1; Some (comma_or_space c)) = Some s)
    as (s & ->).
  { destruct (Z.eqb_spec i 0); [by eexists|].
    destruct (le_at_total text (i - 1) 1 Hb) as (c & -> & _); [lia..|]. by eexists. }
  destruct (negb s); [by eexists|].
  destruct (slice_total text i 8) as (name & -> & _); [lia..|]. destruct (negb _); [by eexists|].
  destruct (slice_total text (i + 8) 8) as (digits & -> & _); [lia..|].
  destruct (read_hex 32 digits 0) as [v|] eqn:Hv; [|eexists; split; [done|by intros ? [= <-]]].
  apply read_hex_range in Hv; [|done..]. destruct (Z.ltb_spec (i + 16) (Z.of_nat (length text))).
  - destruct (le_at_total text (i + 16) 1 Hb) as (c & -> & _); [lia..|].
    eexists. split; [done|]. intros ? [= <-]. by destruct (_ || _).
  - eexists. split; [done|]. by intros ? [= <-].
Qed.

Lemma pubtool_from_total text n i : Forall is_byte text -> 0 <= i ->
  (n = 0%nat \/ i + Z.of_nat n + 15 <= Z.of_nat (length text)) ->
  exists v, pubtool_from text n i = Some v /\ 0 <= v < 2 ^ 32.
Proof.
  intros Hb. revert i. induction n as [|n IH]; intros i Hi Hl; cbn [pubtool_from]; [by exists 0|].
  destruct (pubtool_at_total text i Hb Hi ltac:(lia)) as ([v|] & -> & Hv); [exists v; auto|].
  apply IH; lia.
Qed.

Lemma read_pubtool_sdk_total text : Forall is_byte text ->
  exists v, read_pubtool_sdk text = Some v /\ 0 <= v < 2 ^ 32.
Proof. intros Hb. apply pubtool_from_total; [done|done|lia]. Qed.

Lemma parse_json_sdk_range text : 0 <= parse_json_sdk text < 2 ^ 32.
Proof.
  unfold parse_json_sdk. repeat case_match; try done; apply wrap_range; done.
Qed.

(** ** param.sfo *)
Lemma parse_sfo_entry_total data keys values i m : Forall is_byte data -> meta_fits m ->
  0 <= i -> 20 + i * 16 + 16 <= Z.of_nat (length data) -> 0 <= keys -> 0 <= values ->
  exists m', parse_sfo_entry data keys values i m = Some m' /\ meta_fits m' /\ same_icon m m'.
Proof.
  intros Hb Hm Hi Hl Hk Hv. unfold parse_sfo_entry.
  destruct (le_at_total data (20 + i * 16) 2 Hb) as (key_rel & -> & ?); [lia..|].
  destruct (le_at_total data (20 + i * 16 + 2) 2 Hb) as (format & -> & ?); [lia..|].
  destruct (le_at_total data (20 + i * 16 + 4) 4 Hb) as (len & -> & ?); [lia..|].
  destruct (le_at_total data (20 + i * 16 + 12) 4 Hb) as (value_rel & -> & ?); [lia..|].
  destruct (_ || _) eqn:Hc; [by exists m|]. bool_hyps.
  repeat match goal with H : (_ <=? _) = false |- _ => apply Z.leb_gt in H | H : (_ <? _) = false |- _ => apply Z.ltb_ge in H end.
  destruct (slice_total data (keys + key_rel) (Z.of_nat (length data) - (keys + key_rel))) as (ks & -> & _); [lia..|].
  destruct (find_index _ ks) as [n|]; [|by exists m]. destruct (negb _); [by exists m|].
  destruct (sfo_what_of _) as [[|f]|]; [| |by exists m].
  - destruct (slice_total data (values + value_rel) len) as (text & Ht & _); [lia..|]. rewrite Ht.
    destruct (read_pubtool_sdk_total text) as (v & -> & Hr); [by eapply slice_bytes|].
    eexists. split_and!; [done|auto with pkg|apply set_sdk_icon].
  - destruct (slice_total data (values + value_rel) len) as (text & -> & _); [lia..|].
    destruct (Nat.leb_spec (field_size f) (length (until_nul text))); [by exists m|].
    eexists. split_and!; [done| |apply set_field_icon].
    apply set_field_fits; [|done]. by rewrite bytes_string_length.
Qed.

Lemma parse_sfo_total data m : Forall is_byte data -> meta_fits m ->
  exists r, parse_sfo data m = Some r /\ forall m', r = Some m' -> meta_fits m' /\ same_icon m m'.
Proof.
  intros Hb Hm. unfold parse_sfo. destruct (Z.ltb_spec (Z.of_nat (length data)) 20); [by eexists|].
  destruct (slice_total data 0 4) as (magic & -> & _); [lia..|]. destruct (negb _); [by eexists|].
  destruct (le_at_total data 8 4 Hb) as (keys & -> & ?); [lia..|].
  destruct (le_at_total data 12 4 Hb) as (values & -> & ?); [lia..|].
  destruct (le_at_total data 16 4 Hb) as (count & -> & ?); [lia..|].
  destruct (_ || _) eqn:Hc; [by eexists|]. bool_hyps.
  repeat match goal with H : (_ <? _) = false |- _ => apply Z.ltb_ge in H end.
  pose proof (Z.mul_div_le (Z.of_nat (length data) - 20) 16 ltac:(lia)).
  assert (forall n i m1, 0 <= i -> 20 + (i + Z.of_nat n) * 16 <= Z.of_nat (length data) -> meta_fits m1 ->
    exists m', parse_sfo_entries data keys values n i m1 = Some m' /\ meta_fits m' /\ same_icon m1 m') as Hloop.
  { induction n as [|n IH]; intros i m1 Hi Hn Hm1; cbn [parse_sfo_entries]; [by exists m1|].
    destruct (parse_sfo_entry_total data keys values i m1) as (m2 & -> & Hm2 & Hi2); [done|done|lia..|].
    destruct (IH (i + 1) m2) as (m3 & -> & Hm3 & Hi3); [lia|lia|done|].
    exists m3. split_and!; [done|done|by etrans]. }
  destruct (Hloop (Z.to_nat count) 0 m) as (m' & -> & Hm' & Hi'); [done|lia|done|].
  eexists. split; [done|]. by intros ? [= <-].
Qed.

(** ** param.json *)
Section json_lemmas.
Context (J : json_lib).

Lemma copy_json_fits j key f m : meta_fits m -> meta_fits (copy_json J j key f m).
Proof. intros. unfold copy_json. destruct (json_text J j key); auto with pkg. Qed.

Lemma copy_json_icon j key f m : same_icon m (copy_json J j key f m).
Proof. unfold copy_json. destruct (json_text J j key); [apply set_field_icon|done]. Qed.

Lemma copy_title_name_fits root m : meta_fits m -> meta_fits (copy_title_name J root m).
Proof. intros. unfold copy_title_name. repeat case_match; auto using copy_json_fits. Qed.

Lemma copy_title_name_icon root m : same_icon m (copy_title_name J root m).
Proof. unfold copy_title_name. repeat case_match; auto using copy_json_icon; done. Qed.

#[local] Hint Resolve copy_json_fits copy_title_name_fits parse_json_sdk_range : pkg.

Lemma parse_param_json_fits data m m' : meta_fits m -> parse_param_json J data m = JsonOk m' ->
  meta_fits m' /\ same_icon m m'.
Proof.
  intros Hm. unfold parse_param_json. destruct (_ =? 0)%nat; [done|].
  destruct (jl_parse J _) as [[success root]|]; [|done]. destruct (negb _); [done|].
  destruct (from_option _ _ _); [done|]. intros [= <-].
  set (m1 := match json_text J root "sdkVersion" with Some t => set_sdk (parse_json_sdk t) m | None => m end).
  assert (H1 : meta_fits m1 /\ same_icon m m1).
  { unfold m1. destruct (json_text _ _ _); [|done]. split; [auto with pkg|apply set_sdk_icon]. }
  destruct H1 as [H1 Hi1]. split.
  - destruct (strcmp_eq _ _); auto 10 with pkg.
  - etrans; [exact Hi1|]. etrans; [|apply copy_title_name_icon].
    destruct (strcmp_eq _ _); repeat (etrans; [|apply copy_json_icon]); done.
Qed.
End json_lemmas.

(** ** The SDK version of an executable *)

(** What the checks before the search establish, for a file of [size] bytes. *)
Record sdk_reader_ok (size : Z) (r : sdk_reader) : Prop := {
  so_file : Forall is_byte (sr_file r);
  so_header : Forall is_byte (sr_header r);
  so_segments : 0 <= sr_segments r <= 64;
  so_count : 0 <= sr_count r <= 64;
  so_elf : sr_elf r = if sr_segments r =? 0 then 0 else 32 + sr_segments r * 32;
  so_phdrs : 64 <= sr_phoff r /\ sr_elf r + sr_phoff r + sr_count r * 56 <= Z.of_nat (length (sr_header r));
  so_limit : 0 <= sr_limit r <= size /\ size <= UINT64_MAX;
}.

Lemma le_at_u64 data o : Forall is_byte data -> 0 <= o -> o + 8 <= Z.of_nat (length data) ->
  exists v, le_at data o 8 = Some v /\ is_u64 v.
Proof.
  intros Hb Ho Hl. destruct (le_at_total data o 8 Hb Ho ltac:(lia)) as (v & -> & Hv). exists v. split; [done|].
  unfold is_u64, UINT64_MAX. change (8 * Z.of_nat 8) with 64 in Hv. lia.
Qed.

(** A search that ends: reads inside the file, the parameter of its size. *)
Definition search_ok (size : Z) (s : option sdk_search) : Prop :=
  exists found reads, s = Some (found, reads) /\ Forall (in_file size) reads /\
    forall proc, found = Some (Some proc) -> Forall is_byte proc /\ Z.of_nat (length proc) = PROC_PARAM_SIZE.

Lemma file_read_ok file o n l : Forall is_byte file -> 0 < n -> file_read_at file o n = Some l ->
  Forall is_byte l /\ Z.of_nat (length l) = n.
Proof.
  intros Hb Hn. unfold file_read_at. destruct (Z.eqb_spec n 0); [lia|]. intros Hl.
  split; [by eapply slice_bytes|by eapply slice_size].
Qed.

Section sdk.
Context (size : Z) (r : sdk_reader) (Hr : sdk_reader_ok size r).

Definition proc_ok (proc : option (list Z)) : Prop :=
  forall p, proc = Some p -> Forall is_byte p /\ Z.of_nat (length p) = PROC_PARAM_SIZE.

Lemma sdk_phdr_le i k n : 0 <= i < sr_count r -> 0 <= k -> k + Z.of_nat n <= 56 ->
  exists v, le_at (sr_header r) (sdk_phdr r i + k) n = Some v /\ 0 <= v < 2 ^ (8 * Z.of_nat n).
Proof.
  intros Hi Hk Hn. destruct Hr as [? ? ? ? He Hp ?]. apply le_at_total; [done|..]; unfold sdk_phdr;
    destruct (_ =? 0); lia.
Qed.

Lemma sdk_phdr_u64 i k : 0 <= i < sr_count r -> 0 <= k -> k + 8 <= 56 ->
  exists v, le_at (sr_header r) (sdk_phdr r i + k) 8 = Some v /\ is_u64 v.
Proof.
  intros Hi Hk Hn. destruct (sdk_phdr_le i k 8) as (v & -> & Hv); [lia..|]. exists v. split; [done|].
  unfold is_u64, UINT64_MAX. change (8 * Z.of_nat 8) with 64 in Hv. lia.
Qed.

Lemma search_stop found reads : (forall p, found = Some (Some p) -> proc_ok (Some p)) -> Forall (in_file size) reads ->
  search_ok size (Some (found, reads)).
Proof. intros Hf Hr'. exists found, reads. split_and!; [done|done|]. intros p ->. by apply (Hf p). Qed.

Lemma sdk_segments_ok i rel param_size n j proc reads :
  0 <= rel -> PROC_PARAM_SIZE <= param_size -> 0 <= j -> j + Z.of_nat n <= sr_segments r -> 0 < sr_segments r ->
  proc_ok proc -> Forall (in_file size) reads ->
  search_ok size (sdk_segments r i rel param_size n j proc reads).
Proof.
  intros Hrel Hps. revert j proc reads. induction n as [|n IH]; intros j proc reads Hj Hn Hsg Hproc Hreads;
    cbn [sdk_segments]; [apply search_stop; [intros p [= ->]; exact Hproc|done]|].
  pose proof (so_phdrs _ _ Hr) as [Hpo Hph]. pose proof (so_elf _ _ Hr) as He.
  pose proof (so_count _ _ Hr) as Hcnt. pose proof (so_limit _ _ Hr) as Hlim.
  destruct (Z.eqb_spec (sr_segments r) 0); [lia|].
  destruct (le_at_u64 (sr_header r) (32 + j * 32)) as (flags & -> & _); [apply Hr|lia..|].
  destruct (le_at_u64 (sr_header r) (32 + j * 32 + 8)) as (physical & -> & Hp); [apply Hr|lia..|].
  destruct (le_at_u64 (sr_header r) (32 + j * 32 + 16)) as (stored & -> & Hs); [apply Hr|lia..|].
  destruct (le_at_u64 (sr_header r) (32 + j * 32 + 24)) as (unpacked & -> & _); [apply Hr|lia..|].
  destruct (negb (Z.shiftr flags 20 =? i) || _); [apply IH; try done; lia|].
  destruct (_ || _) eqn:Hc; [by apply search_stop|].
  apply orb_false_iff in Hc as [Hc Hc2]. apply orb_false_iff in Hc as [_ Hc1].
  apply negb_false_iff, executable_range_true in Hc1, Hc2. unfold is_u64, PROC_PARAM_SIZE in *.
  rewrite (u64_small (physical + rel)) by lia.
  assert (Hall : Forall (in_file size) (reads ++ [(physical + rel, 24)])).
  { apply Forall_app_2; [done|]. apply Forall_cons_2; [unfold in_file; simpl; lia|apply Forall_nil_2]. }
  destruct (file_read_at _ _ _) as [bytes|] eqn:Hf; [|by apply search_stop].
  apply IH; try done; try lia. intros p [= <-]. eapply file_read_ok; [apply Hr|done|exact Hf].
Qed.

Lemma sdk_loads_ok offset param_size n i proc reads :
  PROC_PARAM_SIZE <= param_size -> 0 <= i -> i + Z.of_nat n <= sr_count r -> 0 < sr_segments r ->
  proc_ok proc -> Forall (in_file size) reads ->
  search_ok size (sdk_loads r offset param_size n i proc reads).
Proof.
  intros Hps. revert i proc reads. induction n as [|n IH]; intros i proc reads Hi Hn Hsg Hproc Hreads;
    cbn [sdk_loads]; [apply search_stop; [intros p [= ->]; exact Hproc|done]|].
  destruct (sdk_phdr_u64 i 8) as (start & -> & Hstart); [lia..|].
  destruct (sdk_phdr_u64 i 32) as (bytes & -> & _); [lia..|].
  destruct (sdk_phdr_le i 0 4) as (kind & Hk & _); [lia..|]. rewrite Z.add_0_r in Hk. rewrite Hk.
  destruct (negb (kind =? 1) || (offset <? start) || _) eqn:Hc; [apply IH; try done; lia|].
  apply orb_false_iff in Hc as [Hc _]. apply orb_false_iff in Hc as [_ Hc]. apply Z.ltb_ge in Hc.
  destruct (sdk_segments_ok i (offset - start) param_size (Z.to_nat (sr_segments r)) 0 proc reads)
    as (found & reads' & -> & Hreads' & Hfound); [lia|done|lia|lia|done|done|done|].
  destruct found as [proc'|]; [|by apply search_stop].
  apply IH; try done; try lia. intros p ->. by apply Hfound.
Qed.

Lemma find_param_ok n i param : 0 <= i -> i + Z.of_nat n <= sr_count r ->
  (forall p, param = Some p -> exists k, 0 <= k < sr_count r /\ p = sdk_phdr r k) ->
  exists found, find_param r n i param = Some found /\
    forall p, found = Some (Some p) -> exists k, 0 <= k < sr_count r /\ p = sdk_phdr r k.
Proof.
  revert i param. induction n as [|n IH]; intros i param Hi Hn Hp; cbn [find_param].
  { eexists. split; [done|]. intros p [= ->]. by apply Hp. }
  destruct (sdk_phdr_le i 0 4) as (kind & Hk & _); [lia..|]. rewrite Z.add_0_r in Hk. rewrite Hk.
  destruct (negb _); [apply IH; [lia|lia|done]|]. destruct param as [p0|]; [by eexists|].
  apply IH; [lia|lia|]. intros p [= <-]. exists i. split; [lia|done].
Qed.
End sdk.

Lemma open_sdk_ok file header size : Forall is_byte file -> Forall is_byte header ->
  64 <= Z.of_nat (length header) <= size -> size <= UINT64_MAX ->
  exists o, open_sdk file header size = Some o /\
    forall r, o = Some r -> sdk_reader_ok size r /\ sr_file r = file /\ sr_header r = header.
Proof.
  intros Hf Hb Hl Hs. unfold open_sdk. set (len := Z.of_nat (length header)) in *.
  destruct (le_at_total header 0 4 Hb) as (magic & -> & _); [lia..|]. set (self := magic =? SELF_MAGIC).
  assert (exists segments, (if self then le_at header 24 2 else Some 0) = Some segments /\
    (if self then 0 <= segments else segments = 0)) as (segments & -> & Hsg).
  { destruct self; [|by exists 0]. destruct (le_at_total header 24 2 Hb) as (v & -> & ?); [lia..|]. exists v. split; [done|lia]. }
  assert (exists limit, (if self then le_at header 16 8 else Some size) = Some limit /\ 0 <= limit /\
    (if self then True else limit = size)) as (limit & -> & Hlim & Hlim').
  { destruct self; [|exists size; split_and!; [done|lia|done]]. destruct (le_at_u64 header 16 Hb) as (v & -> & ?); [lia..|].
    exists v. unfold is_u64 in *. split_and!; [done|lia|done]. }
  set (elf := if self then 32 + segments * 32 else 0).
  destruct ((self && _) || _ || _) eqn:Hc; [by eexists|].
  apply orb_false_iff in Hc as [Hc Hc3]. apply orb_false_iff in Hc as [Hc1 Hc2].
  apply negb_false_iff, executable_range_true in Hc2, Hc3.
  assert (Hsg' : 0 <= segments <= 64 /\ limit <= size /\ 0 <= elf /\
    elf = (if segments =? 0 then 0 else 32 + segments * 32)).
  { unfold elf. destruct self; cbn [andb] in Hc1.
    - bool_hyps. destruct (Z.eqb_spec segments 0); [done|].
      repeat match goal with H : (_ <? _) = false |- _ => apply Z.ltb_ge in H end. lia.
    - subst. destruct (Z.eqb_spec 0 0); lia. }
  destruct Hsg' as (Hsg' & Hlim2 & Helf & Hel).
  destruct (slice_total header elf 4) as (ident & -> & _); [lia..|].
  destruct (le_at_total header (elf + 4) 1 Hb) as (b4 & -> & _); [lia..|].
  destruct (le_at_total header (elf + 5) 1 Hb) as (b5 & -> & _); [lia..|].
  destruct (le_at_total header (elf + 6) 1 Hb) as (b6 & -> & _); [lia..|].
  destruct (le_at_total header (elf + 18) 2 Hb) as (machine & -> & _); [lia..|].
  destruct (negb _ || _ || _ || _ || _); [by exists None|].
  destruct (le_at_total header (elf + 32) 8 Hb) as (phoff & -> & ?); [lia..|].
  destruct (le_at_total header (elf + 56) 2 Hb) as (count & -> & ?); [lia..|].
  destruct (le_at_total header (elf + 54) 2 Hb) as (pes & -> & _); [lia..|].
  eexists. split; [done|]. intros r. destruct (negb _ || _ || _ || _ || _ || _) eqn:Hc; [done|]. intros [= <-].
  apply orb_false_iff in Hc as [Hc _]. apply orb_false_iff in Hc as [Hc Hr1].
  apply orb_false_iff in Hc as [Hc Hpo]. apply orb_false_iff in Hc as [_ Hcnt].
  apply negb_false_iff, executable_range_true in Hr1. apply Z.ltb_ge in Hpo, Hcnt.
  split; [|done]. split; simpl; try done; lia.
Qed.

Lemma proc_sdk_total proc param_size : Forall is_byte proc -> Z.of_nat (length proc) = PROC_PARAM_SIZE ->
  exists v, proc_sdk proc param_size = Some v /\ 0 <= v < 2 ^ 32 /\
    (v <> 0 -> 1 <= Z.shiftr v 24 <= 0x99 /\ Z.land (Z.shiftr v 24) 15 <= 9).
Proof.
  intros Hb Hl. unfold PROC_PARAM_SIZE in *. unfold proc_sdk.
  destruct (le_at_total proc 8 4 Hb) as (magic & -> & _); [lia..|].
  destruct (le_at_total proc 0 8 Hb) as (psz & -> & _); [lia..|].
  destruct (_ || _); [by exists 0|]. destruct (le_at_total proc 12 4 Hb) as (version & -> & _); [lia..|].
  destruct (version =? 0); [by exists 0|].
  destruct (le_at_total proc (if version =? 1 then 16 else 20) 4 Hb) as (sdk & -> & Hv); [destruct (version =? 1); lia..|].
  eexists. split; [done|]. destruct (negb _ && _ && _) eqn:Hc; [|done]. split; [lia|]. intros _.
  apply andb_true_iff in Hc as [Hc Hlow]. apply andb_true_iff in Hc as [Hnz Hhigh].
  apply negb_true_iff, Z.eqb_neq in Hnz. apply Z.leb_le in Hlow, Hhigh. split; [|done].
  pose proof (proj2 (Z.shiftr_nonneg sdk 24) ltac:(lia)).
  rewrite (Z.shiftr_div_pow2 (Z.shiftr sdk 24) 4) in Hhigh by lia. change (2 ^ 4) with 16 in Hhigh.
  change 15 with (Z.ones 4) in Hlow. rewrite Z.land_ones in Hlow by lia. change (2 ^ 4) with 16 in Hlow.
  pose proof (Z.div_mod (Z.shiftr sdk 24) 16 ltac:(lia)). lia.
Qed.

(** The whole reader. *)
Lemma read_executable_sdk_safe file size : Forall is_byte file -> 0 <= size <= UINT64_MAX ->
  exists v reads, read_executable_sdk file size = Some (v, reads) /\ Forall (in_file size) reads /\
    0 <= v < 2 ^ 32 /\ (v <> 0 -> 1 <= Z.shiftr v 24 <= 0x99 /\ Z.land (Z.shiftr v 24) 15 <= 9).
Proof.
  intros Hf Hs. unfold read_executable_sdk.
  set (len := if size <? HEADER_BYTES then size else HEADER_BYTES).
  assert (Hlen : len <= size /\ len <= 8192).
  { unfold len. change HEADER_BYTES with 8192. destruct (Z.ltb_spec size 8192); lia. }
  destruct (Z.ltb_spec len 64); [by exists 0, []|].
  assert (Hr0 : Forall (in_file size) [(0, len)]).
  { apply Forall_cons_2; [unfold in_file; simpl; lia|apply Forall_nil_2]. }
  destruct (file_read_at file 0 len) as [header|] eqn:Hh; [|by exists 0, [(0, len)]].
  destruct (file_read_ok file 0 len header Hf ltac:(lia) Hh) as [Hhb Hhl].
  destruct (open_sdk_ok file header size Hf Hhb) as (o & -> & Ho); [lia|lia|].
  destruct o as [r|]; [|by exists 0, [(0, len)]]. destruct (Ho r eq_refl) as (Hr & Hrf & Hrh).
  pose proof (so_count _ _ Hr) as Hcnt.
  destruct (find_param_ok size r Hr (Z.to_nat (sr_count r)) 0 None) as (found & -> & Hfound); [lia|lia|done|].
  destruct found as [[param|]|]; [|by exists 0, [(0, len)]..].
  destruct (Hfound param eq_refl) as (k & Hk & ->). rewrite <-Hrh.
  destruct (sdk_phdr_u64 size r Hr k 8) as (offset & -> & Hoff); [lia..|].
  destruct (sdk_phdr_u64 size r Hr k 32) as (param_size & -> & Hps); [lia..|].
  destruct (Z.ltb_spec param_size PROC_PARAM_SIZE); [by exists 0, [(0, len)]|].
  unfold is_u64 in *. match goal with |- context [do? s <- ?X ; _] => assert (Hsearch : search_ok size X) end.
  { pose proof (so_segments _ _ Hr). destruct (Z.eqb_spec (sr_segments r) 0); cbn [negb].
    - destruct (executable_range offset param_size size) eqn:He; cbn [negb].
      + apply executable_range_true in He. eexists _, _. split_and!; [done| |].
        * apply Forall_app_2; [done|]. apply Forall_cons_2; [|apply Forall_nil_2].
          unfold in_file, PROC_PARAM_SIZE in *. simpl. lia.
        * intros proc Hp. destruct (file_read_at file offset PROC_PARAM_SIZE) as [l|] eqn:Hl; [|done].
          injection Hp as ->. exact (file_read_ok file offset PROC_PARAM_SIZE proc Hf eq_refl Hl).
      + eexists _, _. split_and!; [done|done|done].
    - apply (sdk_loads_ok size r Hr); [done|lia|lia|lia|by intros ?|done]. }
  destruct Hsearch as (found & reads & -> & Hreads & Hproc).
  destruct found as [[proc|]|]; [|by exists 0, reads..]. destruct (Hproc proc eq_refl) as [Hpb Hpl].
  destruct (proc_sdk_total proc param_size Hpb Hpl) as (v & -> & Hv). by exists v, reads.
Qed.
