(* ===== verification/PkgHeader.v ===== *)
(** * Package headers (src/sm_pkg.c, second part)

    The parser of a package: the outer header, the table of entries with its
    param.sfo, param.json and icon, the classification, and the callers that
    parse an opened file or a stream.

    A package is read through a callback whose answers are arbitrary and may
    depend on the reads before; every read is recorded.  [None] of the outer
    [option] is an access outside a buffer, [None] of the inner one is [false].
    What a failing parse leaves in the candidate is not represented. *)
From S2P Require Import Prelude CString Bytes GameInfo SelfReader IniFile ConfigState SmbAddress PkgParam.
Open Scope Z_scope.
Open Scope c_scope.

Definition EIO : Z := 5.
Definition ENOENT : Z := 2.
Definition ENOMEM : Z := 12.
Definition EINVAL : Z := 22.
Definition ENAMETOOLONG : Z := 63.
Definition ESTALE : Z := 70.
Definition INT64_MAX : Z := 2 ^ 63 - 1.

Definition PKG_MAGIC_CNT : Z := 0x7F434E54.
Definition PKG_MAGIC_FIH : Z := 0x7F464948.
Definition PKG_MAGIC_LIH : Z := 0x7F4C4948.
Definition PKG_HEADER_SIZE : Z := 0xA0.
Definition PKG_ENTRY_SIZE : Z := 0x20.
Definition PKG_MAX_ENTRIES : Z := 1024.
Definition PKG_PARAM_MAX : Z := 1024 * 1024.
Definition PKG_ENTRY_PARAM_SFO : Z := 0x1000.
Definition PKG_ENTRY_PARAM_JSON : Z := 0x2000.
Definition PKG_ENTRY_ICON : Z := 0x1200.
Definition PKG_PATCH_FLAG_MASK : Z := 0x40100000.
Definition SM_PKG_ICON_MAX : Z := 4 * 1024 * 1024.

(** ** The candidate *)
Inductive pkg_kind_t := PKG_KIND_UNKNOWN | PKG_KIND_BASE | PKG_KIND_PATCH | PKG_KIND_DLC.

#[export] Instance pkg_kind_eq_dec : EqDecision pkg_kind_t.
Proof. solve_decision. Defined.

(** The fields of [sm_pkg_info_t] that identify the source. *)
Record pkg_source := PkgSource {
  ps_path : string; ps_size : Z; ps_device : Z; ps_inode : Z; ps_ctime : Z;
  ps_mtime : Z; ps_mtime_ns : Z; ps_ctime_ns : Z;
}.

(** Those that say what kind of package it is. *)
Record pkg_class := PkgClass {
  pc_outer_content_type : Z; pc_outer_content_flags : Z; pc_content_type : Z; pc_content_flags : Z;
  pc_kind : pkg_kind_t; pc_confident : bool;
}.

Record sm_pkg_info_t := PkgInfo { pi_source : pkg_source; pi_meta : pkg_meta; pi_class : pkg_class }.

Definition sm_pkg_kind_name (kind : pkg_kind_t) : string :=
  match kind with
  | PKG_KIND_BASE => "base" | PKG_KIND_PATCH => "patch" | PKG_KIND_DLC => "dlc" | PKG_KIND_UNKNOWN => "unknown"
  end.

Definition sm_pkg_kind_is_installable (kind : pkg_kind_t) : bool :=
  match kind with PKG_KIND_BASE | PKG_KIND_PATCH | PKG_KIND_DLC => true | PKG_KIND_UNKNOWN => false end.

(** On [content_type] and [content_flags]. *)
Definition sm_pkg_is_media_remaster (content_type content_flags : Z) : bool :=
  (content_type =? 0x26) && (Z.land content_flags 0x40400000 =? 0x40400000).

(** ** Reading *)

(** The reader: the ranges asked for so far, [error], and errno. *)
Record pkg_reader_t := PkgReader { pr_log : list (Z * Z); pr_error : Z; pr_errno : Z }.

Definition new_reader : pkg_reader_t := PkgReader [] 0 0.

(** What the environment answers: the callback's status and bytes for a read,
    whether [malloc] succeeds, both after the reads so far. *)
Record pkg_env := PkgEnv {
  pe_read : list (Z * Z) -> Z -> Z -> Z * list Z;
  pe_malloc : list (Z * Z) -> Z -> bool;
  pe_json : json_lib;
}.

(** The big-endian number of four bytes at [offset]. *)
Definition be32 (data : list Z) (offset : Z) : option Z :=
  do? l <- slice data offset 4 ; Some (foldl (fun acc b => acc * 256 + b) 0 l).

Section parser.
Context (E : pkg_env).

Definition read_at (r : pkg_reader_t) (offset size : Z) : option (list Z) * pkg_reader_t :=
  let '(status, bytes) := pe_read E (pr_log r) offset size in
  let log := pr_log r ++ [(offset, size)] in
  if status =? 0 then (Some bytes, PkgReader log (pr_error r) (pr_errno r))
  else (None, PkgReader log status status).

Definition no_memory (r : pkg_reader_t) : pkg_reader_t := PkgReader (pr_log r) (pr_error r) ENOMEM.

(** ** The table of entries *)

(** The entry of the icon: its range when it is within the package. *)
Definition icon_entry (base file_size offset len : Z) (m : pkg_meta) : pkg_meta :=
  if (8 <=? len) && (len <=? SM_PKG_ICON_MAX) && (offset <=? file_size - base) &&
     (len <=? file_size - base - offset)
  then set_icon (base + offset) len m else m.

(** The entry of param.sfo or param.json. *)
Definition param_entry (id base file_size offset len : Z) (m : pkg_meta) (r : pkg_reader_t) :
    option (option pkg_meta * pkg_reader_t) :=
  if (len =? 0) || (PKG_PARAM_MAX <? len) || (file_size - base <? offset) || (file_size - base - offset <? len)
  then Some (Some m, r)
  else if negb (pe_malloc E (pr_log r) len) then Some (None, no_memory r)
  else
    match read_at r (base + offset) len with
    | (None, r') => Some (None, r')
    | (Some data, r') =>
        if id =? PKG_ENTRY_PARAM_SFO then do? m' <- parse_sfo data m ; Some (m', r')
        else
          match parse_param_json (pe_json E) data m with
          | JsonOk m' => Some (Some m', r')
          | JsonBad => Some (None, r')
          | JsonNoMemory => Some (None, no_memory r')
          end
    end.

Definition pkg_entry (base file_size : Z) (entry : list Z) (m : pkg_meta) (r : pkg_reader_t) :
    option (option pkg_meta * pkg_reader_t) :=
  do? id <- be32 entry 0 ;
  do? offset <- be32 entry 0x10 ;
  do? len <- be32 entry 0x14 ;
  if id =? PKG_ENTRY_ICON then Some (Some (icon_entry base file_size offset len m), r)
  else if negb (id =? PKG_ENTRY_PARAM_SFO) && negb (id =? PKG_ENTRY_PARAM_JSON) then Some (Some m, r)
  else param_entry id base file_size offset len m r.

(** Entries [i] to [count - 1], [n] of them; [entries] is the batch in memory. *)
Fixpoint pkg_entries (base file_size table count : Z) (n : nat) (i : Z) (entries : list Z) (m : pkg_meta)
    (r : pkg_reader_t) : option (option pkg_meta * pkg_reader_t) :=
  match n with
  | O => Some (Some m, r)
  | S n' =>
      let '(loaded, r1) :=
        if i mod 32 =? 0 then
          let batch := if count - i <? 32 then count - i else 32 in
          read_at r (base + table + i * PKG_ENTRY_SIZE) (batch * PKG_ENTRY_SIZE)
        else (Some entries, r) in
      match loaded with
      | None => Some (None, r1)
      | Some entries' =>
          do? entry <- slice entries' (i mod 32 * PKG_ENTRY_SIZE) PKG_ENTRY_SIZE ;
          do? (m', r2) <- pkg_entry base file_size entry m r1 ;
          match m' with
          | None => Some (None, r2)
          | Some m'' => pkg_entries base file_size table count n' (i + 1) entries' m'' r2
          end
      end
  end.

Definition read_pkg_sfo (base file_size : Z) (header : list Z) (m : pkg_meta) (r : pkg_reader_t) :
    option (option pkg_meta * pkg_reader_t) :=
  do? count <- be32 header 0x10 ;
  do? table <- be32 header 0x18 ;
  if (count =? 0) || (PKG_MAX_ENTRIES <? count) || (file_size - base <? table) ||
     ((file_size - base - table) / PKG_ENTRY_SIZE <? count)
  then Some (None, r)
  else pkg_entries base file_size table count (Z.to_nat count) 0 [] m r.

(** ** The classification *)
Definition is_dlc_type (content_type : Z) : bool :=
  (content_type =? 0x1B) || (content_type =? 0x1C) || (content_type =? 0x21).

Definition is_delta (magic container_type : Z) : bool :=
  (magic =? PKG_MAGIC_LIH) || (Z.land container_type 0xFF =? 0x1E) ||
  (Z.land container_type 0xFF000000 =? 0x41000000).

Definition one_of (category : string) (names : list string) : bool := existsb (same_nocase category) names.

Definition patch_category (category : string) : bool := one_of category ["gp"; "gpd"; "ps5dp"].

Definition known_type (content_type : Z) (delta : bool) : bool :=
  existsb (Z.eqb content_type) [0x1A; 0x1B; 0x1C; 0x20; 0x21; 0x26] || delta.

Definition kind_of (content_type content_flags : Z) (delta : bool) (category : string) : pkg_kind_t :=
  if is_dlc_type content_type then PKG_KIND_DLC
  else if delta || patch_category category ||
          (negb (sm_pkg_is_media_remaster content_type content_flags) &&
           negb (Z.land content_flags PKG_PATCH_FLAG_MASK =? 0))
  then PKG_KIND_PATCH
  else PKG_KIND_BASE.

(** The category stored when the package names none. *)
Definition default_category (kind : pkg_kind_t) : string :=
  match kind with PKG_KIND_DLC => "ac" | PKG_KIND_PATCH => "gp" | _ => "gd" end.

Definition sfo_kind (category : string) : pkg_kind_t :=
  if one_of category ["gd"; "gde"; "gdc"; "gdp"] then PKG_KIND_BASE
  else if patch_category category then PKG_KIND_PATCH
  else if one_of category ["ac"; "ps5ac"; "dlc"] then PKG_KIND_DLC
  else PKG_KIND_UNKNOWN.

(** Kind, category and confidence. *)
Definition classify (content_type content_flags : Z) (delta : bool) (category : string) :
    pkg_kind_t * string * bool :=
  let kind := kind_of content_type content_flags delta category in
  let category' := if strcmp_eq category "" then default_category kind else category in
  let agrees := strcmp_eq category' "" || bool_decide (sfo_kind category' = PKG_KIND_UNKNOWN) ||
                bool_decide (sfo_kind category' = kind) in
  (kind, category', known_type content_type delta && agrees).

(** ** The package *)

(** The first bytes and the inner header: the package's magic, the outer type
    and flags, where the inner header is, and the inner header. *)
Definition read_header (file_size : Z) (r : pkg_reader_t) :
    option (option (Z * Z * Z * Z * list Z) * pkg_reader_t) :=
  if file_size <? PKG_HEADER_SIZE then Some (None, r)
  else
    match read_at r 0 PKG_HEADER_SIZE with
    | (None, r1) => Some (None, r1)
    | (Some header, r1) =>
        do? magic <- be32 header 0 ;
        do? outer_type <- be32 header 0x74 ;
        do? outer_flags <- be32 header 0x78 ;
        if (magic =? PKG_MAGIC_FIH) || (magic =? PKG_MAGIC_LIH) then
          do? version <- le_at header 6 2 ;
          do? base <- le_at header (if magic =? PKG_MAGIC_LIH then 0x30 else 0x58) 8 ;
          if negb (version =? (if magic =? PKG_MAGIC_LIH then 1 else 3)) || (base <? PKG_HEADER_SIZE) ||
             (file_size <? base) || (file_size - base <? PKG_HEADER_SIZE)
          then Some (None, r1)
          else
            match read_at r1 base PKG_HEADER_SIZE with
            | (None, r2) => Some (None, r2)
            | (Some inner, r2) =>
                do? inner_magic <- be32 inner 0 ;
                Some (if negb (inner_magic =? PKG_MAGIC_CNT) then None
                      else Some (magic, outer_type, outer_flags, base, inner), r2)
            end
        else if negb (magic =? PKG_MAGIC_CNT) then Some (None, r1)
        else Some (Some (magic, outer_type, outer_flags, 0, header), r1)
    end.

Definition source_of (path : string) (st : full_stat) : pkg_source :=
  PkgSource (strlcpy path MAX_PATH) (u64 (fs_size st)) (u64 (fs_dev st)) (u64 (fs_ino st)) (u64 (fs_ctime st))
    (fs_mtime st) (u32 (fs_mtime_nsec st)) (u32 (fs_ctime_nsec st)).

(** The content id in the header: at most 36 bytes; [None] when it is empty or
    too long. *)
Definition header_content_id (header : list Z) : option (option string) :=
  do? field <- slice header 0x40 36 ;
  let id := until_nul field in
  Some (if (length id =? 0)%nat || (MAX_CONTENT_ID <=? length id)%nat then None else Some (bytes_string id)).

(** The title id of the package's own metadata, or the one in its content id. *)
Definition with_title_id (m : pkg_meta) : pkg_meta :=
  if strcmp_eq (pm_title_id m) ""
  then match content_title_id (pm_content_id m) with Some id => set_field FTitleId id m | None => m end
  else m.

(** The end of [parse_package]: what is accepted, and as what. *)
Definition accept_package (path : string) (st : full_stat) (magic outer_type outer_flags : Z)
    (header : list Z) (m : pkg_meta) : option (option sm_pkg_info_t) :=
  if negb (package_content_id_valid (pm_content_id m)) then Some None
  else
    let m1 := with_title_id m in
    if strcmp_eq (pm_title_id m1) "" || negb (is_supported_game_title_id (pm_title_id m1)) then Some None
    else
      do? content_type <- be32 header 0x74 ;
      do? content_flags <- be32 header 0x78 ;
      do? container_type <- be32 header 4 ;
      let '(kind, category, confident) :=
        classify content_type content_flags (is_delta magic container_type) (pm_category m1) in
      let m2 := set_field FCategory category m1 in
      if negb (sm_pkg_kind_is_installable kind) || negb confident then Some None
      else
        let m3 := if strcmp_eq (pm_title_name m2) ""
                  then set_field FTitle (strlcpy (pkg_filename path) MAX_TITLE_NAME) m2 else m2 in
        Some (Some (PkgInfo (source_of path st) m3
                      (PkgClass outer_type outer_flags content_type content_flags kind confident))).

Definition parse_package (path : string) (st : full_stat) (r : pkg_reader_t) :
    option (option sm_pkg_info_t * pkg_reader_t) :=
  let file_size := u64 (fs_size st) in
  do? (opened, r1) <- read_header file_size r ;
  match opened with
  | None => Some (None, r1)
  | Some (magic, outer_type, outer_flags, base, header) =>
      do? id <- header_content_id header ;
      match id with
      | None => Some (None, r1)
      | Some content_id =>
          if negb (package_content_id_valid content_id) then Some (None, r1)
          else
            do? (parsed, r2) <- read_pkg_sfo base file_size header (set_field FContentId content_id empty_meta) r1 ;
            match parsed with
            | None => Some (None, r2)
            | Some m =>
                do? info <- accept_package path st magic outer_type outer_flags header m ;
                Some (info, r2)
            end
      end
  end.

(** [sm_pkg_parse_stream]: the candidate or errno. *)
Definition sm_pkg_parse_stream (name : string) (size : Z) : option (sum Z sm_pkg_info_t) :=
  if (size =? 0) || (INT64_MAX <? size) || (MAX_PATH <=? strlen name)%nat || negb (pkg_extension name)
  then Some (inl 0)
  else
    do? (info, r) <- parse_package name (FullStat true 0 0 size 0 0 0 0) new_reader ;
    Some (match info with
          | Some info => inr info
          | None => inl (if negb (pr_error r =? 0) then pr_error r
                         else if pr_errno r =? ENOMEM then ENOMEM else EINVAL)
          end).
End parser.

Definition sm_pkg_source_matches (info : sm_pkg_info_t) (st : full_stat) : bool :=
  let s := pi_source info in
  fs_regular st && (u64 (fs_size st) =? ps_size s) && (u64 (fs_dev st) =? ps_device s) &&
  (u64 (fs_ino st) =? ps_inode s) && (u64 (fs_ctime st) =? ps_ctime s) && (fs_mtime st =? ps_mtime s) &&
  (u32 (fs_mtime_nsec st) =? ps_mtime_ns s) && (u32 (fs_ctime_nsec st) =? ps_ctime_ns s).

(** ** Files *)

(** What one [pread] does other than deliver everything asked for: fewer bytes,
    EINTR, or another errno. *)
Inductive pread_answer := Short (n : nat) | Interrupted | Failed (error : positive).

(** [file_read_at]: status and bytes.  [answers] are the unusual ones; after them
    the rest arrives, or the file ends. *)
Fixpoint pread_all (file : list Z) (answers : list pread_answer) (offset size : Z) : Z * list Z :=
  if size =? 0 then (0, [])
  else
    match answers with
    | [] => match slice file offset size with Some l => (0, l) | None => (EIO, []) end
    | Interrupted :: answers' => pread_all file answers' offset size
    | Failed e :: _ => (Z.pos e, [])
    | Short n :: answers' =>
        let got := take (min n (Z.to_nat size)) (drop (Z.to_nat offset) file) in
        if (length got =? 0)%nat then (EIO, [])
        else
          let '(status, rest) :=
            pread_all file answers' (offset + Z.of_nat (length got)) (size - Z.of_nat (length got)) in
          (status, got ++ rest)
    end.

(** An opened file: [fstat] ([None] is its failure with this errno), the bytes,
    what [pread] does after the reads so far, and [fstat] at the end. *)
Record pkg_file := PkgFile {
  pf_stat : option full_stat; pf_stat_errno : Z; pf_bytes : list Z;
  pf_preads : list (Z * Z) -> list pread_answer; pf_after : option full_stat;
}.

Section files.
Context (malloc : list (Z * Z) -> Z -> bool) (J : json_lib).

Definition file_env (f : pkg_file) : pkg_env :=
  PkgEnv (fun log offset size => pread_all (pf_bytes f) (pf_preads f log) offset size) malloc J.

(** [open] of a path: errno or the file. *)
Definition sm_pkg_parse_file (open_ : string -> sum Z pkg_file) (path : string) : option (option sm_pkg_info_t) :=
  if negb (pkg_extension (pkg_filename path)) || (MAX_PATH <=? strlen path)%nat then Some None
  else
    match open_ path with
    | inl _ => Some None
    | inr f =>
        match pf_stat f with
        | Some opened =>
            if fs_regular opened && (0 <? fs_size opened)
            then do? (info, _) <- parse_package (file_env f) path opened new_reader ; Some info
            else Some None
        | None => Some None
        end
    end.

Definition PNG_MAGIC : list Z := [137; 80; 78; 71; 13; 10; 26; 10].

(** The icon of a package: errno (0 with the bytes). *)
Definition sm_pkg_read_icon (open_ : string -> sum Z pkg_file) (path : string) : option (Z * list Z) :=
  match open_ path with
  | inl e => Some (e, [])
  | inr f =>
      match pf_stat f with
      | Some st =>
          if fs_regular st && (0 <? fs_size st) then
            do? (info, r) <- parse_package (file_env f) path st new_reader ;
            match info with
            | None => Some (ENOENT, [])
            | Some info =>
                let size := pm_icon_size (pi_meta info) in
                if size =? 0 then Some (ENOENT, [])
                else if negb (malloc (pr_log r) size) then Some (ENOMEM, [])
                else
                  let '(status, bytes) := pread_all (pf_bytes f) (pf_preads f (pr_log r))
                                            (pm_icon_offset (pi_meta info)) size in
                  if negb (status =? 0) then Some (status, [])
                  else
                    do? magic <- slice bytes 0 8 ;
                    Some (if bool_decide (magic = PNG_MAGIC) then (0, bytes) else (EINVAL, []))
            end
          else Some (ENOENT, [])
      | None => Some (ENOENT, [])
      end
  end.

(** ** A game's directory *)

(** Opening below a directory: the directory, its sce_sys, a file in it; the
    first two are 0 or errno. *)
Record asset_fs := AssetFs {
  af_open : string -> sum Z pkg_file;
  af_directory : string -> Z;
  af_system_dir : string -> Z;
  af_openat : string -> string -> sum Z pkg_file;
}.

(** Size and times. *)
Definition unchanged (before after : full_stat) : bool :=
  (fs_size before =? fs_size after) && (fs_mtime before =? fs_mtime after) &&
  (fs_mtime_nsec before =? fs_mtime_nsec after) && (fs_ctime before =? fs_ctime after) &&
  (fs_ctime_nsec before =? fs_ctime_nsec after).

Definition open_asset (fs : asset_fs) (path name : string) : sum Z pkg_file :=
  if sm_smb_path (lit path) then
    let asset := String.append path (String.append "/sce_sys/" name) in
    if (MAX_PATH <=? strlen asset)%nat then inl ENAMETOOLONG else af_open fs asset
  else if negb (af_directory fs path =? 0) then inl (af_directory fs path)
  else if negb (af_system_dir fs path =? 0) then inl (af_system_dir fs path)
  else af_openat fs path name.

(** errno (0 with the bytes). *)
Definition read_directory_asset (fs : asset_fs) (path name : string) (limit : Z) : Z * list Z :=
  match open_asset fs path name with
  | inl e => (e, [])
  | inr f =>
      match pf_stat f with
      | None => (pf_stat_errno f, [])
      | Some before =>
          if negb (fs_regular before) || (fs_size before <=? 0) || (limit <? u64 (fs_size before)) then (EINVAL, [])
          else if negb (malloc [] (fs_size before)) then (ENOMEM, [])
          else
            let '(status, data) := pread_all (pf_bytes f) (pf_preads f []) 0 (fs_size before) in
            if negb (status =? 0) then (status, [])
            else if from_option (unchanged before) false (pf_after f) then (0, data) else (ESTALE, [])
      end
  end.

(** The verdict and the metadata; the rest of the candidate is zero. *)
Fixpoint directory_metadata (fs : asset_fs) (path : string) (names : list (string * bool)) :
    option (option pkg_meta) :=
  match names with
  | [] => Some None
  | (name, json) :: names' =>
      let '(result, data) := read_directory_asset fs path name PKG_PARAM_MAX in
      if result =? ENOENT then directory_metadata fs path names'
      else if negb (result =? 0) then Some None
      else if json : bool then
        Some (match parse_param_json J data empty_meta with JsonOk m => Some m | _ => None end)
      else parse_sfo data empty_meta
  end.

Definition sm_pkg_read_directory_metadata (fs : asset_fs) (path : string) : option (option pkg_meta) :=
  directory_metadata fs path [("param.json", true); ("param.sfo", false)]%string.

Definition sm_pkg_read_directory_icon (fs : asset_fs) (path : string) : option (Z * list Z) :=
  let '(result, data) := read_directory_asset fs path "icon0.png" SM_PKG_ICON_MAX in
  if negb (result =? 0) then Some (result, [])
  else if Z.of_nat (length data) <? 8 then Some (EINVAL, [])
  else do? magic <- slice data 0 8 ; Some (if bool_decide (magic = PNG_MAGIC) then (0, data) else (EINVAL, [])).
End files.

(** * Lemmas *)
Lemma be32_total data offset : Forall is_byte data -> 0 <= offset -> offset + 4 <= Z.of_nat (length data) ->
  exists v, be32 data offset = Some v /\ 0 <= v < 2 ^ 32.
Proof.
  intros Hb Ho Hl. unfold be32. destruct (slice_total data offset 4) as (l & Hs & Hn); [lia..|]. rewrite Hs.
  pose proof (slice_bytes _ _ _ _ Hb Hs) as Hlb.
  destruct l as [|a [|b [|c [|d [|]]]]]; simpl in Hn; try lia.
  repeat match goal with H : Forall _ (_ :: _) |- _ => apply Forall_cons_1 in H as [? ?] end. unfold is_byte in *.
  eexists. split; [done|]. simpl. lia.
Qed.

(** The callback's contract: a read that succeeds has filled the buffer. *)
Definition reads_fill (E : pkg_env) : Prop :=
  forall log offset size l, 0 <= size -> pe_read E log offset size = (0, l) ->
    Forall is_byte l /\ Z.of_nat (length l) = size.

(** At most [budget] reads, all of them within the file. *)
Definition reads_within (size : Z) (budget : nat) (r r' : pkg_reader_t) : Prop :=
  exists reads, pr_log r' = pr_log r ++ reads /\ Forall (in_file size) reads /\ (length reads <= budget)%nat.

Lemma reads_none size n r r' : pr_log r' = pr_log r -> reads_within size n r r'.
Proof. intros H. exists []. rewrite H, app_nil_r. split_and!; [done|apply Forall_nil_2|simpl; lia]. Qed.

Lemma reads_app size n k r r1 r2 : reads_within size n r r1 -> reads_within size k r1 r2 ->
  reads_within size (n + k) r r2.
Proof.
  intros (l1 & H1 & Hf1 & Hn1) (l2 & H2 & Hf2 & Hn2). exists (l1 ++ l2). rewrite H2, H1, app_assoc.
  split_and!; [done|by apply Forall_app_2|]. rewrite length_app. lia.
Qed.

Lemma reads_mono size n k r r' : (n <= k)%nat -> reads_within size n r r' -> reads_within size k r r'.
Proof. intros Hn (l & ? & ? & ?). exists l. split_and!; [done|done|lia]. Qed.

(** The icon is absent or within the package. *)
Definition icon_within (size : Z) (m : pkg_meta) : Prop :=
  pm_icon_size m = 0 \/
  8 <= pm_icon_size m <= SM_PKG_ICON_MAX /\ in_file size (pm_icon_offset m, pm_icon_size m).

Lemma icon_within_same size m m' : same_icon m m' -> icon_within size m -> icon_within size m'.
Proof. unfold icon_within. intros [-> ->]. done. Qed.

Section safety.
Context (E : pkg_env) (HE : reads_fill E) (size : Z).

(** What a step of the parser ends with. *)
Definition step_ok (budget : nat) (r : pkg_reader_t) (res : option (option pkg_meta * pkg_reader_t)) : Prop :=
  exists m' r', res = Some (m', r') /\ reads_within size budget r r' /\
    forall m, m' = Some m -> meta_fits m /\ icon_within size m.

Lemma read_at_ok r offset n : in_file size (offset, n) ->
  exists got r', read_at E r offset n = (got, r') /\ reads_within size 1 r r' /\
    forall l, got = Some l -> Forall is_byte l /\ Z.of_nat (length l) = n.
Proof.
  intros Hin. unfold read_at. destruct (pe_read E (pr_log r) offset n) as [status bytes] eqn:Hr.
  assert (Hlog : forall e1 e2, reads_within size 1 r (PkgReader (pr_log r ++ [(offset, n)]) e1 e2)).
  { intros e1 e2. exists [(offset, n)]. split_and!; [done| |simpl; lia]. by apply Forall_cons_2; [|apply Forall_nil_2]. }
  destruct (Z.eqb_spec status 0) as [->|]; eexists _, _; (split_and!; [done|apply Hlog|]); [|done].
  intros l [= <-]. eapply HE; [|exact Hr]. destruct Hin as (_ & ? & _). done.
Qed.

Lemma step_fail n r r' : reads_within size n r r' -> step_ok n r (Some (None, r')).
Proof. intros. by exists None, r'. Qed.

Lemma step_done n r m : meta_fits m -> icon_within size m -> step_ok n r (Some (Some m, r)).
Proof. intros. exists (Some m), r. split_and!; [done|by apply reads_none|]. by intros ? [= <-]. Qed.

Lemma param_entry_ok id base offset len m r : 0 <= base <= size -> 0 <= offset -> 0 <= len ->
  meta_fits m -> icon_within size m -> step_ok 1 r (param_entry E id base size offset len m r).
Proof.
  intros Hbase Ho Hl Hm Hi. unfold param_entry.
  destruct ((len =? 0) || _ || _ || _) eqn:Hc; [by apply step_done|]. bool_hyps.
  repeat match goal with H : (_ <? _) = false |- _ => apply Z.ltb_ge in H end.
  destruct (negb _); [by apply step_fail, reads_none|].
  destruct (read_at_ok r (base + offset) len) as (got & r' & -> & Hr & Hgot); [unfold in_file; simpl; lia|].
  destruct got as [data|]; [|by apply step_fail]. destruct (Hgot data eq_refl) as [Hb _].
  assert (Hok : forall m', meta_fits m' -> same_icon m m' -> step_ok 1 r (Some (Some m', r'))).
  { intros m' Hm' Hs. exists (Some m'), r'. split_and!; [done|done|]. intros ? [= <-].
    split; [done|]. by eapply icon_within_same. }
  destruct (id =? PKG_ENTRY_PARAM_SFO).
  - destruct (parse_sfo_total data m Hb Hm) as ([m'|] & -> & Hp); [|by apply step_fail].
    destruct (Hp m' eq_refl). by apply Hok.
  - destruct (parse_param_json (pe_json E) data m) as [m'| |] eqn:Hj; [|by apply step_fail..].
    apply parse_param_json_fits in Hj as [? ?]; [|done]. by apply Hok.
Qed.

Lemma pkg_entry_ok base entry m r : 0 <= base <= size -> Forall is_byte entry ->
  Z.of_nat (length entry) = PKG_ENTRY_SIZE -> meta_fits m -> icon_within size m ->
  step_ok 1 r (pkg_entry E base size entry m r).
Proof.
  intros Hbase Hb Hl Hm Hi. unfold PKG_ENTRY_SIZE in *. unfold pkg_entry.
  destruct (be32_total entry 0 Hb) as (id & -> & ?); [lia..|].
  destruct (be32_total entry 0x10 Hb) as (offset & -> & ?); [lia..|].
  destruct (be32_total entry 0x14 Hb) as (len & -> & ?); [lia..|].
  destruct (id =? PKG_ENTRY_ICON).
  - unfold icon_entry. destruct ((8 <=? len) && _ && _ && _) eqn:Hc; [|by apply step_done]. bool_hyps.
    repeat match goal with H : (_ <=? _) = true |- _ => apply Z.leb_le in H end.
    apply step_done; [auto with pkg|]. right. destruct m; simpl. split; [lia|unfold in_file; simpl; lia].
  - destruct (negb _ && negb _); [by apply step_done|]. apply param_entry_ok; (done || lia).
Qed.

(** The number of reads of the entries from [i] on: one per entry and one per
    batch that begins. *)
Definition entry_reads (n : nat) (i : Z) : nat := (n + Z.to_nat ((i + Z.of_nat n + 31) / 32 - (i + 31) / 32))%nat.

Lemma entry_reads_step n i : 0 <= i -> (i mod 32 = 0 -> (2 + entry_reads n (i + 1)%Z <= entry_reads (S n) i)%nat) /\
  (1 + entry_reads n (i + 1)%Z <= entry_reads (S n) i)%nat.
Proof.
  intros Hi. unfold entry_reads. replace (i + 1 + Z.of_nat n + 31) with (i + Z.of_nat (S n) + 31) by lia.
  pose proof (Z.div_le_mono (i + 1 + 31) (i + Z.of_nat (S n) + 31) 32 ltac:(lia) ltac:(lia)).
  pose proof (Z.div_le_mono (i + 31) (i + 1 + 31) 32 ltac:(lia) ltac:(lia)). split; [|lia].
  intros Hmod. assert ((i + 1 + 31) / 32 = (i + 31) / 32 + 1); [|lia].
  pose proof (Z.div_mod i 32 ltac:(lia)). rewrite Hmod in *.
  rewrite <-(Z.div_unique (i + 1 + 31) 32 (i / 32 + 1) 0), <-(Z.div_unique (i + 31) 32 (i / 32) 31); lia.
Qed.

(** The batch in memory before entry [i]: the part of its batch up to [count]. *)
Definition batch_ok (count i : Z) (entries : list Z) : Prop :=
  i mod 32 <> 0 -> Forall is_byte entries /\
    Z.of_nat (length entries) = Z.min 32 (count - (i - i mod 32)) * PKG_ENTRY_SIZE.

Lemma batch_next count i entries : 0 <= i -> Forall is_byte entries ->
  Z.of_nat (length entries) = Z.min 32 (count - (i - i mod 32)) * PKG_ENTRY_SIZE -> batch_ok count (i + 1) entries.
Proof.
  intros Hi Hb Hl Hm. split; [done|]. rewrite Hl. f_equal. f_equal. f_equal.
  pose proof (Z.div_mod i 32 ltac:(lia)). pose proof (Z.mod_pos_bound i 32 ltac:(lia)).
  destruct (decide (i mod 32 = 31)) as [He|Hne].
  - rewrite <-(Z.mod_unique (i + 1) 32 (i / 32 + 1) 0) in Hm; lia.
  - rewrite <-(Z.mod_unique (i + 1) 32 (i / 32) (i mod 32 + 1)); lia.
Qed.

Lemma pkg_entries_ok base table count n i entries m r :
  0 <= base -> 0 <= table -> base + table + count * PKG_ENTRY_SIZE <= size -> 0 <= i -> i + Z.of_nat n = count ->
  batch_ok count i entries -> meta_fits m -> icon_within size m ->
  step_ok (entry_reads n i) r (pkg_entries E base size table count n i entries m r).
Proof.
  intros Hbase Htable Hsize. revert i entries m r.
  induction n as [|n IH]; intros i entries m r Hi Hn Hbatch Hm Hic; cbn [pkg_entries]; [by apply step_done|].
  destruct (entry_reads_step n i Hi) as [Hr2 Hr1]. pose proof (Z.mod_pos_bound i 32 ltac:(lia)) as Hmod.
  pose proof (Z.mod_le i 32 Hi ltac:(lia)) as Hmle.
  unfold PKG_ENTRY_SIZE in *.
  set (x := if i mod 32 =? 0 then _ else _).
  assert (Hx : exists loaded r1, x = (loaded, r1) /\
    reads_within size (if i mod 32 =? 0 then 1 else 0) r r1 /\
    forall l, loaded = Some l -> Forall is_byte l /\ Z.of_nat (length l) = Z.min 32 (count - (i - i mod 32)) * 32).
  { unfold x. destruct (Z.eqb_spec (i mod 32) 0) as [H0|H0].
    - set (batch := if count - i <? 32 then count - i else 32).
      assert (batch = Z.min 32 (count - i)) by (unfold batch; destruct (Z.ltb_spec (count - i) 32); lia).
      destruct (read_at_ok r (base + table + i * 32) (batch * 32)) as (got & r1 & -> & Hr & Hgot);
        [unfold in_file; simpl; lia|].
      eexists _, _. split_and!; [done|done|]. intros l Hl. destruct (Hgot l Hl). split; [done|].
      rewrite H0, Z.sub_0_r. lia.
    - eexists _, _. split_and!; [done|by apply reads_none|]. intros l [= <-]. by apply Hbatch. }
  destruct Hx as (loaded & r1 & -> & Hreads & Hload). destruct loaded as [entries'|].
  2: { apply step_fail. eapply reads_mono; [|exact Hreads]. destruct (Z.eqb_spec (i mod 32) 0); lia. }
  destruct (Hload entries' eq_refl) as [Hb Hl].
  destruct (slice_total entries' (i mod 32 * 32) 32) as (entry & Hs & Hel); [lia..|]. rewrite Hs.
  destruct (pkg_entry_ok base entry m r1) as (m1 & r2 & -> & Hreads2 & Hm1);
    [lia|by eapply slice_bytes|done|done|done|].
  pose proof (reads_app _ _ _ _ _ _ Hreads Hreads2) as Hr12.
  destruct m1 as [m1|].
  2: { apply step_fail. eapply reads_mono; [|exact Hr12]. destruct (Z.eqb_spec (i mod 32) 0); lia. }
  destruct (Hm1 m1 eq_refl) as [Hf1 Hi1].
  destruct (IH (i + 1) entries' m1 r2) as (m3 & r3 & -> & Hr3 & Hm3);
    [lia|lia|by apply batch_next|done|done|].
  exists m3, r3. split_and!; [done| |done]. eapply reads_mono; [|by eapply reads_app].
  destruct (Z.eqb_spec (i mod 32) 0) as [H0|H0]; [specialize (Hr2 H0)|]; lia.
Qed.

Lemma read_pkg_sfo_ok base header m r : 0 <= base <= size -> Forall is_byte header ->
  Z.of_nat (length header) = PKG_HEADER_SIZE -> meta_fits m -> icon_within size m ->
  step_ok 1056 r (read_pkg_sfo E base size header m r).
Proof.
  intros Hbase Hb Hl Hm Hi. unfold PKG_HEADER_SIZE in *. unfold read_pkg_sfo.
  destruct (be32_total header 0x10 Hb) as (count & -> & ?); [lia..|].
  destruct (be32_total header 0x18 Hb) as (table & -> & ?); [lia..|].
  destruct ((count =? 0) || _ || _ || _) eqn:Hc; [by apply step_fail, reads_none|]. bool_hyps.
  repeat match goal with H : (_ <? _) = false |- _ => apply Z.ltb_ge in H end.
  unfold PKG_ENTRY_SIZE, PKG_MAX_ENTRIES in *. pose proof (Z.mul_div_le (size - base - table) 32 ltac:(lia)).
  destruct (pkg_entries_ok base table count (Z.to_nat count) 0 [] m r) as (m' & r' & -> & Hr & Hm');
    [lia|lia|unfold PKG_ENTRY_SIZE; lia|lia|lia|done|done|done|].
  exists m', r'. split_and!; [done| |done]. eapply reads_mono; [|exact Hr]. unfold entry_reads.
  rewrite Z.add_0_l, Z2Nat.id by lia.
  pose proof (Z.div_le_mono (count + 31) 1055 32 ltac:(lia) ltac:(lia)) as Hd.
  change (1055 / 32) with 32 in Hd. change ((0 + 31) / 32) with 0. lia.
Qed.
End safety.

(** ** The header *)
Section package.
Context (E : pkg_env) (HE : reads_fill E).

Lemma read_header_ok size r : 0 <= size -> exists o r', read_header E size r = Some (o, r') /\
  reads_within size 2 r r' /\
  forall magic ty fl base header, o = Some (magic, ty, fl, base, header) ->
    0 <= base <= size /\ Forall is_byte header /\ Z.of_nat (length header) = PKG_HEADER_SIZE.
Proof.
  intros Hs. unfold read_header. change PKG_HEADER_SIZE with 160.
  destruct (Z.ltb_spec size 160); [by eexists _, _; split_and!; [done|apply reads_none|]|].
  destruct (read_at_ok E HE size r 0 160) as (got & r1 & -> & Hr1 & Hgot); [unfold in_file; simpl; lia|].
  pose proof (reads_mono size 1 2 r r1 ltac:(lia) Hr1) as Hr1'.
  destruct got as [header|]; [|by eexists _, _]. destruct (Hgot header eq_refl) as [Hb Hl].
  destruct (be32_total header 0 Hb) as (magic & -> & _); [lia..|].
  destruct (be32_total header 0x74 Hb) as (ty & -> & _); [lia..|].
  destruct (be32_total header 0x78 Hb) as (fl & -> & _); [lia..|].
  destruct ((magic =? PKG_MAGIC_FIH) || (magic =? PKG_MAGIC_LIH)).
  - destruct (le_at_total header 6 2 Hb) as (version & -> & _); [lia..|].
    destruct (le_at_total header (if magic =? PKG_MAGIC_LIH then 0x30 else 0x58) 8 Hb) as (base & -> & Hbase);
      [destruct (magic =? PKG_MAGIC_LIH); lia..|].
    destruct (negb _ || _ || _ || _) eqn:Hc; [by eexists _, _|]. bool_hyps.
    repeat match goal with H : (_ <? _) = false |- _ => apply Z.ltb_ge in H end.
    destruct (read_at_ok E HE size r1 base 160) as (got & r2 & -> & Hr2 & Hgot2); [unfold in_file; simpl; lia|].
    pose proof (reads_app _ _ _ _ _ _ Hr1 Hr2) as Hr12.
    destruct got as [inner|]; [|by eexists _, _]. destruct (Hgot2 inner eq_refl) as [Hb2 Hl2].
    destruct (be32_total inner 0 Hb2) as (im & -> & _); [lia..|]. eexists _, _. split_and!; [done|exact Hr12|].
    intros ? ? ? ? ?. destruct (negb _); [done|]. intros [= <- <- <- <- <-]. by split; [lia|].
  - destruct (negb _); eexists _, _; (split_and!; [done|exact Hr1'|]); [done|].
    intros ? ? ? ? ? [= <- <- <- <- <-]. by split; [lia|].
Qed.

Lemma header_content_id_ok header : Z.of_nat (length header) = PKG_HEADER_SIZE ->
  exists o, header_content_id header = Some o /\ forall id, o = Some id -> (strlen id < MAX_CONTENT_ID)%nat.
Proof.
  change PKG_HEADER_SIZE with 160. intros Hl. unfold header_content_id.
  destruct (slice_total header 0x40 36) as (field & -> & _); [lia..|]. eexists. split; [done|]. intros id.
  destruct (_ || _) eqn:Hc; [done|]. intros [= <-]. apply orb_false_iff in Hc as [_ Hc].
  rewrite bytes_string_length. by apply Nat.leb_gt.
Qed.

(** ** What is accepted *)

(** The classification of an accepted package is consistent. *)
Record class_ok (category : string) (c : pkg_class) : Prop := {
  co_installable : sm_pkg_kind_is_installable (pc_kind c) = true;
  co_confident : pc_confident c = true;
  co_category : category <> ""%string /\ (sfo_kind category = PKG_KIND_UNKNOWN \/ sfo_kind category = pc_kind c);
  co_dlc : pc_kind c = PKG_KIND_DLC <-> pc_content_type c ∈ [0x1B; 0x1C; 0x21];
}.

(** An accepted package in a file of [size] bytes. *)
Record package_ok (path : string) (st : full_stat) (i : sm_pkg_info_t) : Prop := {
  po_fits : meta_fits (pi_meta i);
  po_icon : icon_within (u64 (fs_size st)) (pi_meta i);
  po_title : is_supported_game_title_id (pm_title_id (pi_meta i)) = true;
  po_content : package_content_id_valid (pm_content_id (pi_meta i)) = true;
  po_class : class_ok (pm_category (pi_meta i)) (pi_class i);
  po_name : pkg_filename path <> ""%string -> pm_title_name (pi_meta i) <> ""%string;
  po_source : pi_source i = source_of path st;
}.

Lemma classify_ok ct cf delta category kind category' :
  classify ct cf delta category = (kind, category', true) ->
  category' <> ""%string /\ (sfo_kind category' = PKG_KIND_UNKNOWN \/ sfo_kind category' = kind) /\
  (kind = PKG_KIND_DLC <-> ct ∈ [0x1B; 0x1C; 0x21]) /\ (category' = category \/ category' ∈ ["ac"; "gp"; "gd"]%string).
Proof.
  unfold classify. intros [= <- <- Hc]. apply andb_true_iff in Hc as [_ Hc].
  set (kind := kind_of ct cf delta category) in *.
  assert (Hne : (if strcmp_eq category "" then default_category kind else category) <> ""%string).
  { destruct (strcmp_eq category "") eqn:He; [by destruct kind|by apply strcmp_eq_false]. }
  split_and!; [done| | |].
  - apply orb_true_iff in Hc as [Hc|Hc]; [|right; by apply bool_decide_eq_true_1 in Hc].
    apply orb_true_iff in Hc as [Hc|Hc]; [by apply strcmp_eq_true in Hc|left; by apply bool_decide_eq_true_1 in Hc].
  - assert (Hd : is_dlc_type ct = true <-> ct ∈ [0x1B; 0x1C; 0x21]).
    { unfold is_dlc_type. rewrite !orb_true_iff, !Z.eqb_eq, !elem_of_cons, elem_of_nil. tauto. }
    rewrite <-Hd. unfold kind, kind_of. destruct (is_dlc_type ct); [done|]. by destruct (delta || _ || _).
  - destruct (strcmp_eq category ""); [right|by left]. destruct kind; set_solver.
Qed.

Lemma strlcpy_nonempty s n : s <> ""%string -> (1 < n)%nat -> strlcpy s n <> ""%string.
Proof. destruct s; [done|]. intros _ Hn. unfold strlcpy. destruct n as [|[|n]]; [lia|lia|discriminate]. Qed.

Lemma content_title_id_length c id : content_title_id c = Some id -> (strlen id < MAX_TITLE_ID)%nat.
Proof.
  unfold content_title_id. destruct (strchr_index c "-") as [d|]; [|done]. cbn [mbind option_bind].
  destruct (strchr_index _ "_") as [e|]; [|done]. cbn [mbind option_bind].
  destruct (negb _); [done|]. destruct (Nat.leb_spec MAX_TITLE_ID e); [done|]. destruct (forallb _ _); [|done].
  intros [= <-]. eapply Nat.le_lt_trans; [apply strlen_substring|done].
Qed.

Lemma with_title_id_ok m : meta_fits m -> meta_fits (with_title_id m) /\ same_icon m (with_title_id m) /\
  pm_content_id (with_title_id m) = pm_content_id m.
Proof.
  intros Hm. unfold with_title_id. destruct (strcmp_eq _ _); [|done].
  destruct (content_title_id _) as [id|] eqn:Hid; [|done]. apply content_title_id_length in Hid.
  split_and!; [by apply set_field_fits|apply set_field_icon|]. by destruct m.
Qed.

Lemma accept_package_ok path st magic ty fl header m :
  Forall is_byte header -> Z.of_nat (length header) = PKG_HEADER_SIZE ->
  meta_fits m -> icon_within (u64 (fs_size st)) m ->
  exists o, accept_package path st magic ty fl header m = Some o /\ forall i, o = Some i -> package_ok path st i.
Proof.
  change PKG_HEADER_SIZE with 160. intros Hb Hl Hm Hi. unfold accept_package.
  destruct (package_content_id_valid (pm_content_id m)) eqn:Hid; cbn [negb]; [|by eexists].
  destruct (with_title_id_ok m Hm) as (Hm1 & Hs1 & Hc1). set (m1 := with_title_id m) in *.
  destruct (_ || negb _) eqn:Ht; [by eexists|]. apply orb_false_iff in Ht as [_ Ht]. apply negb_false_iff in Ht.
  destruct (be32_total header 0x74 Hb) as (ct & -> & _); [lia..|].
  destruct (be32_total header 0x78 Hb) as (cf & -> & _); [lia..|].
  destruct (be32_total header 4 Hb) as (cty & -> & _); [lia..|].
  destruct (classify ct cf (is_delta magic cty) (pm_category m1)) as [[kind category] confident] eqn:Hcl.
  destruct (negb _ || negb _) eqn:Hk; [by eexists|]. apply orb_false_iff in Hk as [Hk Hcf].
  apply negb_false_iff in Hk, Hcf. subst confident.
  apply classify_ok in Hcl as (Hne & Hsfo & Hdlc & Hcat).
  eexists. split; [done|]. intros i [= <-].
  set (m2 := set_field FCategory category m1) in *.
  assert (Hm2 : meta_fits m2).
  { apply set_field_fits; [|done]. destruct Hcat as [->|Hin]; [apply (mf_text _ Hm1 FCategory)|].
    apply Nat.ltb_lt. repeat (apply elem_of_cons in Hin as [->|Hin]; [done|]). by apply elem_of_nil in Hin. }
  assert (Hfields : pm_title_id m2 = pm_title_id m1 /\ pm_content_id m2 = pm_content_id m1 /\ pm_category m2 = category)
    by (unfold m2; by destruct m1).
  destruct Hfields as (Hf1 & Hf2 & Hf3).
  assert (Hicon : icon_within (u64 (fs_size st)) m2).
  { eapply icon_within_same; [apply set_field_icon|]. by eapply icon_within_same. }
  assert (Hclass : forall c, c = category -> class_ok c (PkgClass ty fl ct cf kind true)) by by intros ? ->.
  destruct (strcmp_eq (pm_title_name m2) "") eqn:Hn; split; cbn [pi_meta pi_class pi_source]; try done.
  - apply set_field_fits; [|done]. apply strlcpy_length. by apply Nat.ltb_lt.
  - eapply icon_within_same; [apply set_field_icon|done].
  - replace (pm_title_id _) with (pm_title_id m2) by by destruct m2. by rewrite Hf1.
  - replace (pm_content_id _) with (pm_content_id m2) by by destruct m2. by rewrite Hf2, Hc1.
  - apply Hclass. replace (pm_category _) with (pm_category m2) by by destruct m2. done.
  - intros Hp. replace (pm_title_name _) with (strlcpy (pkg_filename path) MAX_TITLE_NAME) by by destruct m2.
    apply strlcpy_nonempty; [done|]. by apply Nat.ltb_lt.
  - by rewrite Hf1.
  - by rewrite Hf2, Hc1.
  - by apply Hclass.
  - intros _. by apply strcmp_eq_false.
Qed.

Lemma u64_nonneg z : 0 <= u64 z.
Proof. apply wrap_range. done. Qed.

Lemma parse_package_ok path st r : exists o r', parse_package E path st r = Some (o, r') /\
  reads_within (u64 (fs_size st)) 1058 r r' /\ forall i, o = Some i -> package_ok path st i.
Proof.
  unfold parse_package. set (size := u64 (fs_size st)). pose proof (u64_nonneg (fs_size st)) as Hs.
  destruct (read_header_ok size r Hs) as (o & r1 & -> & Hr1 & Ho).
  assert (Hfail : forall r', reads_within size 2 r r' -> exists o r'', Some (@None sm_pkg_info_t, r') = Some (o, r'') /\
    reads_within size 1058 r r'' /\ forall i, o = Some i -> package_ok path st i).
  { intros r' Hr'. eexists _, _. split_and!; [done| |done]. eapply reads_mono; [|exact Hr']. lia. }
  destruct o as [[[[[magic ty] fl] base] header]|]; [|by apply Hfail].
  destruct (Ho _ _ _ _ _ eq_refl) as (Hbase & Hb & Hl).
  destruct (header_content_id_ok header Hl) as (oid & -> & Hid). destruct oid as [id|]; [|by apply Hfail].
  destruct (negb _); [by apply Hfail|].
  assert (Hm0 : meta_fits (set_field FContentId id empty_meta)).
  { apply set_field_fits; [by apply Hid|apply empty_meta_fits]. }
  destruct (read_pkg_sfo_ok E HE size base header (set_field FContentId id empty_meta) r1) as (om & r2 & -> & Hr2 & Hm);
    [lia|done|done|done|by left|].
  pose proof (reads_app _ _ _ _ _ _ Hr1 Hr2) as Hr12. change (2 + 1056)%nat with 1058%nat in Hr12.
  destruct om as [m|]; [|by eexists _, _]. destruct (Hm m eq_refl) as [Hf Hi].
  destruct (accept_package_ok path st magic ty fl header m Hb Hl Hf Hi) as (info & -> & Hinfo).
  by eexists _, _.
Qed.
End package.

(** ** Two environments that answer alike *)
Definition answers_agree (size : Z) (E1 E2 : pkg_env) : Prop :=
  pe_json E1 = pe_json E2 /\ (forall log n, pe_malloc E1 log n = pe_malloc E2 log n) /\
  forall log offset n, 0 < n -> in_file size (offset, n) -> pe_read E1 log offset n = pe_read E2 log offset n.

Section agree.
Context (E1 E2 : pkg_env) (size : Z) (HA : answers_agree size E1 E2) (HE : reads_fill E2).

Lemma read_at_agree r offset n : 0 < n -> in_file size (offset, n) -> read_at E1 r offset n = read_at E2 r offset n.
Proof. intros Hn Hin. unfold read_at. destruct HA as (_ & _ & Hr). by rewrite (Hr _ _ _ Hn Hin). Qed.

Lemma pkg_entry_agree base entry m r : 0 <= base <= size -> Forall is_byte entry ->
  Z.of_nat (length entry) = PKG_ENTRY_SIZE ->
  pkg_entry E1 base size entry m r = pkg_entry E2 base size entry m r.
Proof.
  intros Hbase Hb Hl. unfold PKG_ENTRY_SIZE in *. unfold pkg_entry.
  destruct (be32_total entry 0 Hb) as (id & -> & ?); [lia..|].
  destruct (be32_total entry 0x10 Hb) as (offset & -> & ?); [lia..|].
  destruct (be32_total entry 0x14 Hb) as (len & -> & ?); [lia..|].
  destruct (id =? PKG_ENTRY_ICON); [done|]. destruct (negb _ && negb _); [done|]. unfold param_entry.
  destruct ((len =? 0) || _ || _ || _) eqn:Hc; [done|]. bool_hyps.
  repeat match goal with H : (_ <? _) = false |- _ => apply Z.ltb_ge in H | H : (_ =? _) = false |- _ => apply Z.eqb_neq in H end.
  destruct HA as (HJ & Hm & _). rewrite Hm, HJ. destruct (negb _); [done|].
  rewrite read_at_agree; [done|lia|unfold in_file; simpl; lia].
Qed.

Lemma pkg_entries_agree base table count n i entries m r :
  0 <= base -> 0 <= table -> base + table + count * PKG_ENTRY_SIZE <= size -> 0 <= i -> i + Z.of_nat n = count ->
  batch_ok count i entries ->
  pkg_entries E1 base size table count n i entries m r = pkg_entries E2 base size table count n i entries m r.
Proof.
  intros Hbase Htable Hsize. revert i entries m r.
  induction n as [|n IH]; intros i entries m r Hi Hn Hbatch; cbn [pkg_entries]; [done|].
  pose proof (Z.mod_pos_bound i 32 ltac:(lia)) as Hmod. pose proof (Z.mod_le i 32 Hi ltac:(lia)) as Hmle.
  unfold PKG_ENTRY_SIZE in *.
  set (batch := if count - i <? 32 then count - i else 32).
  assert (Hba : batch = Z.min 32 (count - i)) by (unfold batch; destruct (Z.ltb_spec (count - i) 32); lia).
  assert (Hin : in_file size (base + table + i * 32, batch * 32)) by (unfold in_file; simpl; lia).
  rewrite (read_at_agree r (base + table + i * 32) (batch * 32)) by (done || lia).
  destruct (read_at_ok E2 HE size r (base + table + i * 32) (batch * 32) Hin) as (got & r1 & -> & _ & Hgot).
  assert (Hx : forall loaded r', (if i mod 32 =? 0 then (got, r1) else (Some entries, r)) = (Some loaded, r') ->
    Forall is_byte loaded /\ Z.of_nat (length loaded) = Z.min 32 (count - (i - i mod 32)) * 32).
  { intros loaded r'. destruct (Z.eqb_spec (i mod 32) 0) as [H0|H0].
    - intros [= -> _]. destruct (Hgot loaded eq_refl). split; [done|]. rewrite H0, Z.sub_0_r. lia.
    - intros [= <- _]. by apply Hbatch. }
  destruct (if i mod 32 =? 0 then _ else _) as [[entries'|] r']; [|done].
  destruct (Hx entries' r' eq_refl) as [Hb Hl].
  destruct (slice_total entries' (i mod 32 * 32) 32) as (entry & Hs & Hel); [lia..|]. rewrite Hs.
  rewrite pkg_entry_agree; [|lia|by eapply slice_bytes|done].
  destruct (pkg_entry E2 base size entry m r') as [[[m'|] r2]|]; [|done..].
  apply IH; [lia|lia|by apply batch_next].
Qed.

Lemma read_header_agree r : read_header E1 size r = read_header E2 size r.
Proof.
  unfold read_header. change PKG_HEADER_SIZE with 160. destruct (Z.ltb_spec size 160); [done|].
  assert (Hin : in_file size (0, 160)) by (unfold in_file; simpl; lia).
  rewrite (read_at_agree r 0 160) by done.
  destruct (read_at_ok E2 HE size r 0 160 Hin) as (got & r1 & -> & _ & Hgot).
  destruct got as [header|]; [|done]. destruct (Hgot header eq_refl) as [Hb Hl].
  destruct (be32_total header 0 Hb) as (magic & -> & _); [lia..|].
  destruct (be32_total header 0x74 Hb) as (ty & -> & _); [lia..|].
  destruct (be32_total header 0x78 Hb) as (fl & -> & _); [lia..|].
  destruct ((magic =? PKG_MAGIC_FIH) || (magic =? PKG_MAGIC_LIH)); [|done].
  destruct (le_at_total header 6 2 Hb) as (version & -> & _); [lia..|].
  destruct (le_at_total header (if magic =? PKG_MAGIC_LIH then 0x30 else 0x58) 8 Hb) as (base & -> & Hbase);
    [destruct (magic =? PKG_MAGIC_LIH); lia..|].
  destruct (negb _ || _ || _ || _) eqn:Hc; [done|]. bool_hyps.
  repeat match goal with H : (_ <? _) = false |- _ => apply Z.ltb_ge in H end.
  rewrite read_at_agree; [done|lia|unfold in_file; simpl; lia].
Qed.

Lemma read_pkg_sfo_agree base header m r : 0 <= base <= size -> Forall is_byte header ->
  Z.of_nat (length header) = PKG_HEADER_SIZE ->
  read_pkg_sfo E1 base size header m r = read_pkg_sfo E2 base size header m r.
Proof.
  intros Hbase Hb Hl. unfold PKG_HEADER_SIZE in *. unfold read_pkg_sfo.
  destruct (be32_total header 0x10 Hb) as (count & -> & ?); [lia..|].
  destruct (be32_total header 0x18 Hb) as (table & -> & ?); [lia..|].
  destruct ((count =? 0) || _ || _ || _) eqn:Hc; [done|]. bool_hyps.
  repeat match goal with H : (_ <? _) = false |- _ => apply Z.ltb_ge in H end.
  unfold PKG_ENTRY_SIZE, PKG_MAX_ENTRIES in *. pose proof (Z.mul_div_le (size - base - table) 32 ltac:(lia)).
  apply pkg_entries_agree; [lia|lia|unfold PKG_ENTRY_SIZE; lia|lia|lia|done].
Qed.

Lemma parse_package_agree path st r : size = u64 (fs_size st) ->
  parse_package E1 path st r = parse_package E2 path st r.
Proof.
  intros Hs. unfold parse_package. rewrite <-Hs, read_header_agree.
  destruct (read_header_ok E2 HE size r) as (o & r1 & -> & _ & Ho); [rewrite Hs; apply u64_nonneg|].
  destruct o as [[[[[magic ty] fl] base] header]|]; [|done].
  destruct (Ho _ _ _ _ _ eq_refl) as (Hbase & Hb & Hl).
  destruct (header_content_id header) as [[id|]|]; [|done..]. destruct (negb _); [done|].
  by rewrite read_pkg_sfo_agree.
Qed.
End agree.

(** ** What depends on the file's name and identity *)

(** Metadata and classification of an outcome. *)
Definition contents (i : sm_pkg_info_t) : pkg_meta * pkg_class := (pi_meta i, pi_class i).

Definition parsed_contents (x : option (option sm_pkg_info_t * pkg_reader_t)) : option (option (pkg_meta * pkg_class) * pkg_reader_t) :=
  match x with Some (o, r) => Some (contents <$> o, r) | None => None end.

Lemma parse_package_contents E path1 path2 st1 st2 r :
  pkg_filename path1 = pkg_filename path2 -> u64 (fs_size st1) = u64 (fs_size st2) ->
  parsed_contents (parse_package E path1 st1 r) = parsed_contents (parse_package E path2 st2 r).
Proof.
  intros Hn Hs. unfold parse_package. rewrite Hs.
  destruct (read_header E (u64 (fs_size st2)) r) as [[[[[[[magic ty] fl] base] header]|] r1]|]; [|done..].
  destruct (header_content_id header) as [[id|]|]; [|done..]. destruct (negb _); [done|].
  destruct (read_pkg_sfo E base (u64 (fs_size st2)) header (set_field FContentId id empty_meta) r1) as [[[m|] r2]|]; [|done..].
  unfold accept_package. rewrite Hn. destruct (negb _); [done|]. destruct (_ || negb _); [done|].
  destruct (be32 header 116); [|done]. destruct (be32 header 120); [|done]. destruct (be32 header 4); [|done].
  destruct (classify _ _ _ _) as [[kind category] confident]. by destruct (negb _ || negb _).
Qed.

(** ** [file_read_at] *)

(** Interrupts and short reads do not matter: the bytes are the file's. *)
Definition harmless (a : pread_answer) : Prop := match a with Short n => (0 < n)%nat | Interrupted => True | Failed _ => False end.

Lemma slice_split data o n k l : 0 < k <= n -> slice data o n = Some l ->
  slice data o k = Some (take (Z.to_nat k) l) /\ slice data (o + k) (n - k) = Some (drop (Z.to_nat k) l).
Proof.
  unfold slice. intros Hk. destruct (_ && _ && _) eqn:Hc; [|done]. intros [= <-]. bool_hyps.
  repeat match goal with H : (_ <=? _) = true |- _ => apply Z.leb_le in H end.
  split.
  - replace (0 <=? o) with true by (symmetry; apply Z.leb_le; lia).
    replace (0 <=? k) with true by (symmetry; apply Z.leb_le; lia).
    replace (o + k <=? Z.of_nat (length data)) with true by (symmetry; apply Z.leb_le; lia). cbn [andb].
    rewrite take_take. do 2 f_equal. lia.
  - replace (0 <=? o + k) with true by (symmetry; apply Z.leb_le; lia).
    replace (0 <=? n - k) with true by (symmetry; apply Z.leb_le; lia).
    replace (o + k + (n - k) <=? Z.of_nat (length data)) with true by (symmetry; apply Z.leb_le; lia). cbn [andb].
    replace (Z.to_nat n) with (Z.to_nat k + Z.to_nat (n - k))%nat by lia.
    rewrite <-take_drop_commute, drop_drop. do 3 f_equal. lia.
Qed.

Lemma pread_all_exact file answers o n l : Forall harmless answers -> 0 < n -> slice file o n = Some l ->
  pread_all file answers o n = (0, l).
Proof.
  intros Ha. revert o n l. induction Ha as [|a answers Ha _ IH]; intros o n l Hn Hl; cbn [pread_all].
  { destruct (Z.eqb_spec n 0); [lia|]. by rewrite Hl. }
  destruct (Z.eqb_spec n 0); [lia|]. destruct a as [k| |e]; [|by apply IH|done]. simpl in Ha.
  set (c := Z.of_nat (min k (Z.to_nat n))).
  destruct (slice_split file o n c l) as [H1 H2]; [lia|done|].
  assert (Hgot : take (min k (Z.to_nat n)) (drop (Z.to_nat o) file) = take (Z.to_nat c) l).
  { unfold slice in H1. destruct (_ && _ && _); [|done]. injection H1 as H1. rewrite <-H1. f_equal. lia. }
  pose proof (slice_size _ _ _ _ Hl) as Hlen. rewrite Hgot.
  assert (Hc : length (take (Z.to_nat c) l) = Z.to_nat c) by (rewrite length_take; lia). rewrite Hc.
  destruct (Nat.eqb_spec (Z.to_nat c) 0); [lia|]. rewrite Z2Nat.id by lia.
  destruct (decide (c = n)) as [->|Hne].
  - rewrite Z.sub_diag, Z.eqb_refl || idtac.
    replace (pread_all file answers (o + n) (n - n)) with (0, @nil Z); [|by rewrite Z.sub_diag; destruct answers].
    rewrite app_nil_r, take_ge; [done|lia].
  - rewrite (IH (o + c) (n - c) (drop (Z.to_nat c) l)); [by rewrite take_drop|lia|done].
Qed.

Lemma pread_all_fills file answers o n l : Forall is_byte file -> 0 <= n -> pread_all file answers o n = (0, l) ->
  Forall is_byte l /\ Z.of_nat (length l) = n.
Proof.
  intros Hb. revert o n l. induction answers as [|a answers IH]; intros o n l Hn; cbn [pread_all].
  - destruct (Z.eqb_spec n 0) as [->|]; [intros [= <-]; split; [apply Forall_nil_2|done]|].
    destruct (slice file o n) as [l'|] eqn:Hs; [|done]. intros [= <-].
    split; [by eapply slice_bytes|by eapply slice_size].
  - destruct (Z.eqb_spec n 0) as [->|]; [intros [= <-]; split; [apply Forall_nil_2|done]|].
    destruct a as [k| |e]; [|by apply IH|done].
    set (got := take (min k (Z.to_nat n)) (drop (Z.to_nat o) file)).
    assert (Hgl : Z.of_nat (length got) <= n) by (unfold got; rewrite length_take; lia).
    destruct (length got =? 0)%nat; [done|].
    destruct (pread_all file answers _ _) as [status rest] eqn:Hrest. intros [= -> <-].
    apply IH in Hrest as [Hrb Hrl]; [|lia]. split; [|rewrite length_app; lia].
    apply Forall_app_2; [|done]. by apply Forall_take, Forall_drop.
Qed.

Lemma file_env_fills malloc J f : Forall is_byte (pf_bytes f) -> reads_fill (file_env malloc J f).
Proof. intros Hb log o n l Hn Hr. exact (pread_all_fills _ _ _ _ _ Hb Hn Hr). Qed.

Lemma after_last_none s c r : after_last s c = Some r -> after_last r c = None.
Proof.
  revert r. induction s as [|a s IH]; intros r; simpl; [done|].
  destruct (after_last s c) as [r'|] eqn:Hs; [intros [= <-]; by apply IH|].
  destruct (Ascii.eqb a c); [by intros [= <-]|done].
Qed.

Lemma after_last_length s c r : after_last s c = Some r -> (strlen r < strlen s)%nat.
Proof.
  unfold strlen. revert r. induction s as [|a s IH]; intros r; simpl; [done|].
  destruct (after_last s c) as [r'|]; [intros [= <-]; specialize (IH r' eq_refl); lia|].
  destruct (Ascii.eqb a c); [intros [= <-]; lia|done].
Qed.

Lemma pkg_filename_idem path : pkg_filename (pkg_filename path) = pkg_filename path.
Proof.
  unfold pkg_filename at 2 3. destruct (after_last path slash) as [r|] eqn:H; simpl.
  - unfold pkg_filename. by rewrite (after_last_none _ _ _ H).
  - unfold pkg_filename. by rewrite H.
Qed.

Lemma pkg_filename_length path : (strlen (pkg_filename path) <= strlen path)%nat.
Proof.
  unfold pkg_filename. destruct (after_last path slash) as [r|] eqn:H; simpl; [|done].
  apply after_last_length in H. lia.
Qed.

(** A name with the extension does not end in a slash. *)
Lemma after_last_empty s c : after_last s c = Some ""%string -> exists l, lit s = l ++ [c].
Proof.
  induction s as [|a s IH]; simpl; [done|].
  destruct (after_last s c) as [r|]; [intros [= ->]; destruct (IH eq_refl) as [l Hl]; exists (a :: l); unfold lit in *; simpl; by rewrite Hl|].
  destruct (Ascii.eqb_spec a c) as [->|]; [intros [= ->]; by exists []|done].
Qed.

Lemma lit_str_drop n s : lit (str_drop n s) = drop n (lit s).
Proof. revert s. induction n as [|n IH]; intros [|a s]; try done. apply IH. Qed.

Lemma extension_filename name : pkg_extension name = true -> pkg_filename name <> ""%string.
Proof.
  unfold pkg_extension, pkg_filename. intros H. apply andb_true_iff in H as [H4 Hs]. apply Nat.leb_le in H4.
  destruct (after_last name slash) as [r|] eqn:Hr; simpl; [|intros ->; change (4 <= 0)%nat in H4; lia]. intros ->.
  apply after_last_empty in Hr as [l Hl].
  assert (Hlen : strlen name = S (length l)).
  { replace (strlen name) with (length (lit name)); [rewrite Hl, length_app; simpl; lia|].
    unfold lit, strlen. clear. induction name as [|a s IH]; simpl; [done|]. by rewrite IH. }
  unfold same_nocase, strcasecmp_eq in Hs. apply bool_decide_eq_true in Hs.
  rewrite lit_str_drop, Hl, drop_app_le, fmap_app in Hs by lia.
  change (tolower <$> [slash]) with [slash] in Hs. apply (f_equal list.last) in Hs. rewrite last_snoc in Hs. discriminate.
Qed.

Lemma wrap_inj w a b : 0 <= w -> Z.abs (a - b) < 2 ^ w -> wrap w a = wrap w b -> a = b.
Proof.
  unfold wrap. intros Hw Hab H. pose proof (Z.pow_pos_nonneg 2 w ltac:(lia) Hw).
  pose proof (Z.div_mod a (2 ^ w) ltac:(lia)). pose proof (Z.div_mod b (2 ^ w) ltac:(lia)).
  destruct (Z.eq_dec (a / 2 ^ w) (b / 2 ^ w)) as [He|]; [rewrite He in *; lia|nia].
Qed.

(** * Theorems *)

(** Claim C35: parsing a package is safe on any bytes and with any reader that
    keeps its contract (a successful read fills the buffer): the call returns, no
    access leaves a buffer, every range it reads lies within the size the package
    has, it issues at most 1058 reads however large the package, and in an
    accepted package every text fits its array and the icon lies within the
    file. *)
Theorem package_parse_safe E path st : reads_fill E ->
  exists o r, parse_package E path st new_reader = Some (o, r) /\
    Forall (in_file (u64 (fs_size st))) (pr_log r) /\ (length (pr_log r) <= 1058)%nat /\
    forall i, o = Some i ->
      (forall f, strlen (get_field f (pi_meta i)) < field_size f)%nat /\ icon_within (u64 (fs_size st)) (pi_meta i).
Proof.
  intros HE. destruct (parse_package_ok E HE path st new_reader) as (o & r & Hp & (l & Hl & Hin & Hn) & Hok).
  exists o, r. rewrite Hp, Hl. split_and!; [done|done|done|]. intros i Hi. destruct (Hok i Hi). split; [|done].
  by apply mf_text.
Qed.

(** whatever a package's metadata says, an accepted one (from a file
    or a stream) has the id of a supported title, a content id of allowed
    characters, an installable kind that does not contradict its category, and
    is additional content exactly when its content type says so; it has a name,
    and its version is 32 bits.  *)
Theorem accepted_package_valid E name size i : reads_fill E ->
  sm_pkg_parse_stream E name size = Some (inr i) ->
  let m := pi_meta i in
  is_supported_game_title_id (pm_title_id m) = true /\ package_content_id_valid (pm_content_id m) = true /\
  class_ok (pm_category m) (pi_class i) /\ pm_title_name m <> ""%string /\ 0 <= pm_sdk_version m < 2 ^ 32.
Proof.
  intros HE. unfold sm_pkg_parse_stream. destruct (_ || negb (pkg_extension name)) eqn:Hc; [done|].
  apply orb_false_iff in Hc as [_ Hext]. apply negb_false_iff in Hext.
  set (st := FullStat true 0 0 size 0 0 0 0).
  destruct (parse_package_ok E HE name st new_reader) as (o & r & -> & _ & Hok).
  destruct o as [i'|]; [|done]. intros [= ->]. destruct (Hok i eq_refl) as [Hf _ Ht Hi Hk Hn _].
  split_and!; [done|done|done| |by destruct (mf_sdk _ Hf)..]. apply Hn. by apply extension_filename.
Qed.

(** Metadata and classification, when the package is accepted. *)
Definition stream_contents (x : option (sum Z sm_pkg_info_t)) : option (pkg_meta * pkg_class) :=
  match x with Some (inr i) => Some (contents i) | _ => None end.

Definition file_contents (x : option (option sm_pkg_info_t)) : option (pkg_meta * pkg_class) :=
  match x with Some (Some i) => Some (contents i) | _ => None end.

(** Claim C36: a package sent as a stream under its file name is judged as the
    file is: accepted or not alike, with the same metadata, kind and icon; how
    [pread] splits or interrupts the reads does not matter. *)
Theorem stream_agrees_with_file malloc J read open_ f st path :
  open_ path = inr f -> pf_stat f = Some st -> fs_regular st = true -> 0 < fs_size st <= INT64_MAX ->
  Forall is_byte (pf_bytes f) -> fs_size st <= Z.of_nat (length (pf_bytes f)) ->
  (forall log, Forall harmless (pf_preads f log)) ->
  (forall log o n l, slice (pf_bytes f) o n = Some l -> read log o n = (0, l)) ->
  (strlen path < MAX_PATH)%nat ->
  stream_contents (sm_pkg_parse_stream (PkgEnv read malloc J) (pkg_filename path) (fs_size st)) =
  file_contents (sm_pkg_parse_file malloc J open_ path).
Proof.
  intros Hopen Hst Hreg Hsz Hb Hlen Hpreads Hread Hpath.
  unfold sm_pkg_parse_stream, sm_pkg_parse_file. rewrite Hopen, Hst, Hreg. pose proof (pkg_filename_length path).
  replace (MAX_PATH <=? strlen path)%nat with false by (symmetry; apply Nat.leb_gt; lia).
  replace (MAX_PATH <=? strlen (pkg_filename path))%nat with false by (symmetry; apply Nat.leb_gt; lia).
  destruct (Z.eqb_spec (fs_size st) 0); [lia|]. destruct (Z.ltb_spec INT64_MAX (fs_size st)); [lia|].
  destruct (Z.ltb_spec 0 (fs_size st)); [|lia]. cbn [orb andb]. rewrite orb_false_r.
  destruct (pkg_extension (pkg_filename path)); cbn [negb]; [|done].
  set (st' := FullStat true 0 0 (fs_size st) 0 0 0 0).
  assert (Hu : fs_size st = u64 (fs_size st)) by (unfold INT64_MAX in *; rewrite u64_small; unfold UINT64_MAX; lia).
  rewrite (parse_package_agree (PkgEnv read malloc J) (file_env malloc J f) (fs_size st)); [|..|exact Hu].
  2: { split_and!; [done|done|]. intros log o k Hk [Ho Hin]. simpl in *.
       destruct (slice_total (pf_bytes f) o k) as (l & Hl & _); [lia..|].
       rewrite (Hread log o k l Hl). symmetry. by apply pread_all_exact. }
  2: by apply file_env_fills.
  pose proof (parse_package_contents (file_env malloc J f) (pkg_filename path) path st' st new_reader
                (pkg_filename_idem path) eq_refl) as Hc.
  destruct (parse_package _ (pkg_filename path) st' _) as [[[i|] r]|], (parse_package _ path st _) as [[[i'|] r']|];
    simpl in Hc |- *; congruence.
Qed.

(** The values of a stat. *)
Definition stat_sane (st : full_stat) : Prop :=
  0 <= fs_size st <= INT64_MAX /\ 0 <= fs_dev st <= UINT64_MAX /\ 0 <= fs_ino st <= UINT64_MAX /\
  - 2 ^ 63 <= fs_ctime st < 2 ^ 63 /\ 0 <= fs_mtime_nsec st < 2 ^ 32 /\ 0 <= fs_ctime_nsec st < 2 ^ 32.

(** The identity kept with an accepted package is exact: a later
    [stat] matches if and only if the file is the one that was parsed, unchanged
    (same device, inode, size and both times to the nanosecond). *)
Theorem package_source_exact malloc J open_ path f st i st' :
  sm_pkg_parse_file malloc J open_ path = Some (Some i) -> open_ path = inr f -> pf_stat f = Some st ->
  Forall is_byte (pf_bytes f) -> stat_sane st -> stat_sane st' ->
  sm_pkg_source_matches i st' = true <-> st' = st.
Proof.
  intros Hp Hopen Hst Hb H1 H2. unfold sm_pkg_parse_file in Hp. rewrite Hopen, Hst in Hp.
  destruct (_ || _); [done|]. destruct (fs_regular st) eqn:Hreg; [|done]. destruct (0 <? fs_size st); [|done].
  cbn [andb] in Hp.
  destruct (parse_package_ok (file_env malloc J f) (file_env_fills malloc J f Hb) path st new_reader)
    as (o & r & Ho & _ & Hok). rewrite Ho in Hp. injection Hp as ->.
  unfold sm_pkg_source_matches. rewrite (po_source _ _ _ (Hok i eq_refl)). cbn [ps_size ps_device ps_inode ps_ctime
    ps_mtime ps_mtime_ns ps_ctime_ns source_of].
  destruct H1 as (? & ? & ? & ? & ? & ?), H2 as (? & ? & ? & ? & ? & ?). unfold INT64_MAX, UINT64_MAX in *.
  rewrite !andb_true_iff, !Z.eqb_eq. split.
  - intros [[[[[[[Hr Hs] Hd] Hi] Hct] Hm] Hmn] Hcn]. destruct st, st'; simpl in *.
    apply wrap_inj in Hs, Hd, Hi, Hct, Hmn, Hcn; try lia. by subst.
  - intros ->. by split_and!.
Qed.

(** Reading the SDK version of an executable is safe on any bytes: the
    call returns, no access leaves the bytes that were read, every read lies
    within the size the file had when it was opened, and a version that is
    returned is 32 bits with a major number that is two decimal digits. *)
Theorem executable_sdk_safe f : Forall is_byte (sf_bytes f) -> sf_size f <= UINT64_MAX ->
  exists v reads, sm_pkg_read_executable_sdk f = Some (v, reads) /\ Forall (in_file (sf_size f)) reads /\
    0 <= v < 2 ^ 32 /\ (v <> 0 -> 1 <= Z.shiftr v 24 <= 0x99 /\ Z.land (Z.shiftr v 24) 15 <= 9).
Proof.
  intros Hb Hs. unfold sm_pkg_read_executable_sdk. destruct (negb (sf_open f)).
  { exists 0, []. by split_and!; [|apply Forall_nil_2|..]. }
  destruct (sf_stat_ok f && sf_regular f && (0 <? sf_size f)) eqn:Hc.
  - apply andb_true_iff in Hc as [_ Hc]. apply Z.ltb_lt in Hc. apply read_executable_sdk_safe; [done|lia].
  - exists 0, []. by split_and!; [|apply Forall_nil_2|..].
Qed.

(** ** A sample package: one entry, its param.sfo *)
Definition be_bytes (n : nat) (v : Z) : list Z := rev (le_bytes n v).

Definition sample_sfo : list Z :=
  [0; 80; 83; 70] ++ le_bytes 4 0x101 ++ le_bytes 4 52 ++ le_bytes 4 70 ++ le_bytes 4 2 ++
  le_bytes 2 0 ++ le_bytes 2 0x204 ++ le_bytes 4 10 ++ le_bytes 4 10 ++ le_bytes 4 0 ++
  le_bytes 2 9 ++ le_bytes 2 0x204 ++ le_bytes 4 3 ++ le_bytes 4 3 ++ le_bytes 4 10 ++
  string_bytes "TITLE_ID" ++ [0] ++ string_bytes "CATEGORY" ++ [0] ++
  string_bytes "CUSA00001" ++ [0] ++ string_bytes "gd" ++ [0].

Definition sample_header : list Z :=
  be_bytes 4 PKG_MAGIC_CNT ++ be_bytes 4 1 ++ replicate 8 0 ++ be_bytes 4 1 ++ replicate 4 0 ++ be_bytes 4 160 ++
  replicate 36 0 ++ string_bytes "UP0000-CUSA00001_00-ABCDEFGHIJKLMNOP" ++ replicate 16 0 ++
  be_bytes 4 0x1A ++ be_bytes 4 0 ++ replicate 36 0.

Definition sample_package : list Z :=
  sample_header ++ be_bytes 4 PKG_ENTRY_PARAM_SFO ++ replicate 12 0 ++ be_bytes 4 192 ++
  be_bytes 4 (Z.of_nat (length sample_sfo)) ++ replicate 8 0 ++ sample_sfo.

(** json-c refusing everything, enough for a package without param.json. *)
Definition no_json : json_lib := JsonLib unit (fun _ => false) (fun _ => None) (fun _ _ => None) (fun _ => []) (fun _ => None).

Definition serve (bytes : list Z) (log : list (Z * Z)) (offset size : Z) : Z * list Z :=
  match slice bytes offset size with Some l => (0, l) | None => (EIO, []) end.

Definition sample_env : pkg_env := PkgEnv (serve sample_package) (fun _ _ => true) no_json.

Definition sample_pkg_stat : full_stat := FullStat true 1 2 (Z.of_nat (length sample_package)) 3 4 5 6.

(** The file, whose reads are interrupted and come in pieces. *)
Definition sample_pkg_file : pkg_file :=
  PkgFile (Some sample_pkg_stat) 0 sample_package (fun _ => [Interrupted; Short 7; Short 100]) (Some sample_pkg_stat).

Lemma serve_fills bytes malloc J : Forall is_byte bytes -> reads_fill (PkgEnv (serve bytes) malloc J).
Proof.
  intros Hb log o n l Hn. unfold pe_read, serve. destruct (slice bytes o n) as [l'|] eqn:Hs; [|done]. intros [= <-].
  split; [by eapply slice_bytes|by eapply slice_size].
Qed.

Lemma bytes_decided l : forallb (fun b => (0 <=? b) && (b <? 256)) l = true -> Forall is_byte l.
Proof.
  rewrite forallb_forall. intros Hb. apply Forall_lookup_2. intros i b Hi.
  specialize (Hb b ltac:(apply list_elem_of_In; by eapply list_elem_of_lookup_2)). bool_hyps. unfold is_byte. lia.
Qed.

Lemma sample_package_bytes : Forall is_byte sample_package.
Proof. apply bytes_decided. vm_compute. reflexivity. Qed.

Definition sample_info : sm_pkg_info_t :=
  PkgInfo (source_of "a.pkg" (FullStat true 0 0 275 0 0 0 0))
    (PkgMeta "CUSA00001" "a.pkg" "UP0000-CUSA00001_00-ABCDEFGHIJKLMNOP" "gd" "" 0 0 0)
    (PkgClass 0x1A 0 0x1A 0 PKG_KIND_BASE true).

Lemma package_parse_safe_witness :
  parse_package sample_env "a.pkg" (FullStat true 0 0 275 0 0 0 0) new_reader =
    Some (Some sample_info, PkgReader [(0, 160); (160, 32); (192, 83)] 0 0) /\
  exists o r, parse_package sample_env "a.pkg" sample_pkg_stat new_reader = Some (o, r) /\
    Forall (in_file (u64 (fs_size sample_pkg_stat))) (pr_log r) /\ (length (pr_log r) <= 1058)%nat /\
    forall i, o = Some i ->
      (forall f, strlen (get_field f (pi_meta i)) < field_size f)%nat /\
      icon_within (u64 (fs_size sample_pkg_stat)) (pi_meta i).
Proof.
  split; [vm_compute; reflexivity|].
  apply (package_parse_safe sample_env "a.pkg" sample_pkg_stat), serve_fills, sample_package_bytes.
Defined.

Lemma accepted_package_valid_witness :
  sm_pkg_parse_stream sample_env "a.pkg" 275 = Some (inr sample_info) /\
  let m := pi_meta sample_info in
  is_supported_game_title_id (pm_title_id m) = true /\ package_content_id_valid (pm_content_id m) = true /\
  class_ok (pm_category m) (pi_class sample_info) /\ pm_title_name m <> ""%string /\ 0 <= pm_sdk_version m < 2 ^ 32.
Proof.
  assert (H : sm_pkg_parse_stream sample_env "a.pkg" 275 = Some (inr sample_info)) by (vm_compute; reflexivity).
  split; [exact H|]. apply (accepted_package_valid sample_env "a.pkg" 275); [|exact H].
  apply serve_fills, sample_package_bytes.
Defined.

Lemma stream_agrees_with_file_witness :
  file_contents (sm_pkg_parse_file (fun _ _ => true) no_json (fun _ => inr sample_pkg_file) "/data/pkg/a.pkg") =
    Some (contents sample_info) /\
  stream_contents (sm_pkg_parse_stream sample_env (pkg_filename "/data/pkg/a.pkg") (fs_size sample_pkg_stat)) =
  file_contents (sm_pkg_parse_file (fun _ _ => true) no_json (fun _ => inr sample_pkg_file) "/data/pkg/a.pkg").
Proof.
  split; [vm_compute; reflexivity|].
  apply (stream_agrees_with_file (fun _ _ => true) no_json (serve sample_package) (fun _ => inr sample_pkg_file)
           sample_pkg_file sample_pkg_stat "/data/pkg/a.pkg").
  - reflexivity.
  - reflexivity.
  - reflexivity.
  - split; [vm_compute; reflexivity|vm_compute; discriminate].
  - apply sample_package_bytes.
  - vm_compute. discriminate.
  - intros log. repeat (apply Forall_cons_2; [simpl; try exact I; lia|]). apply Forall_nil_2.
  - intros log o n l Hl. unfold serve. change (pf_bytes sample_pkg_file) with sample_package in Hl. by rewrite Hl.
  - apply Nat.ltb_lt. vm_compute. reflexivity.
Defined.

Definition sample_file_info : sm_pkg_info_t :=
  PkgInfo (source_of "/data/pkg/a.pkg" sample_pkg_stat) (pi_meta sample_info) (pi_class sample_info).

Lemma package_source_exact_witness :
  sm_pkg_source_matches sample_file_info sample_pkg_stat = true /\
  (sm_pkg_source_matches sample_file_info (FullStat true 1 2 275 3 4 5 7) = true <->
   FullStat true 1 2 275 3 4 5 7 = sample_pkg_stat).
Proof.
  split; [vm_compute; reflexivity|].
  apply (package_source_exact (fun _ _ => true) no_json (fun _ => inr sample_pkg_file) "/data/pkg/a.pkg" sample_pkg_file
           sample_pkg_stat sample_file_info (FullStat true 1 2 275 3 4 5 7)).
  - vm_compute. reflexivity.
  - reflexivity.
  - reflexivity.
  - apply sample_package_bytes.
  - vm_compute. repeat split; discriminate.
  - vm_compute. repeat split; discriminate.
Defined.

(** An executable with a process parameter of version 1. *)
Definition sample_eboot : list Z :=
  [127; 69; 76; 70; 2; 1; 1; 0] ++ replicate 8 0 ++ [3; 0; 62; 0; 1; 0; 0; 0] ++ le_bytes 8 0 ++ le_bytes 8 64 ++
  replicate 12 0 ++ le_bytes 2 64 ++ le_bytes 2 56 ++ le_bytes 2 1 ++ replicate 6 0 ++
  le_bytes 4 PROC_PARAM_TYPE ++ le_bytes 4 4 ++ le_bytes 8 120 ++ le_bytes 8 0 ++ le_bytes 8 0 ++ le_bytes 8 24 ++
  le_bytes 8 24 ++ le_bytes 8 8 ++
  le_bytes 8 24 ++ le_bytes 4 PROC_PARAM_MAGIC ++ le_bytes 4 1 ++ le_bytes 4 0x09508001 ++ le_bytes 4 0.

Definition sample_eboot_file : self_file :=
  SelfFile true true true (Z.of_nat (length sample_eboot)) sample_eboot true.

Lemma executable_sdk_safe_witness :
  sm_pkg_read_executable_sdk sample_eboot_file = Some (0x09508001, [(0, 144); (120, 24)]) /\
  exists v reads, sm_pkg_read_executable_sdk sample_eboot_file = Some (v, reads) /\
    Forall (in_file (sf_size sample_eboot_file)) reads /\
    0 <= v < 2 ^ 32 /\ (v <> 0 -> 1 <= Z.shiftr v 24 <= 0x99 /\ Z.land (Z.shiftr v 24) 15 <= 9).
Proof.
  split; [vm_compute; reflexivity|]. apply (executable_sdk_safe sample_eboot_file).
  - apply bytes_decided. vm_compute. reflexivity.
  - vm_compute. discriminate.
Defined.
