(* ===== verification/SocketIo.v ===== *)
(** * Whole transfers over a socket (src/sm_socket_io.c; [send_all] of src/sm_pkg_server.c)

    The loops that repeat [send] and [recv] until all bytes went through, as
    functions of the answers of the system; [None] where the answers end while the
    loop would call again. *)
From S2P Require Import Prelude.
From stdpp Require Import list.
Open Scope Z_scope.

(** What a call of [send] or [recv] returns: a count (the system takes or gives at
    most what was asked for), interrupted, or another error. *)
Inductive io_answer := Count (n : nat) | Interrupted | Failed.

Section transfers.
Context {byte : Type}.

(** The bytes the peer is sent, and the result. *)
Fixpoint sm_socket_write_full (answers : list io_answer) (buffer : list byte) : option (list byte * bool) :=
  match buffer with
  | [] => Some ([], true)
  | _ =>
      match answers with
      | [] => None
      | Count 0 :: _ => Some ([], false)
      | Count n :: answers' =>
          '(out, ok) ← sm_socket_write_full answers' (drop n buffer); Some (take n buffer ++ out, ok)
      | Interrupted :: answers' => sm_socket_write_full answers' buffer
      | Failed :: _ => Some ([], false)
      end
  end.

(** [send_all]: the same loop, with [MSG_NOSIGNAL]. *)
Fixpoint send_all (answers : list io_answer) (data : list byte) : option (list byte * bool) :=
  match data with
  | [] => Some ([], true)
  | _ =>
      match answers with
      | [] => None
      | Interrupted :: answers' => send_all answers' data
      | Count 0 :: _ | Failed :: _ => Some ([], false)
      | Count n :: answers' => '(out, ok) ← send_all answers' (drop n data); Some (take n data ++ out, ok)
      end
  end.

(** The bytes of the buffer that were filled, the rest of the stream, and the
    result. [stream] is what the peer has sent or will send. *)
Fixpoint sm_socket_read_full (answers : list io_answer) (stream : list byte) (size : nat) :
    option (list byte * list byte * bool) :=
  match size with
  | O => Some ([], stream, true)
  | _ =>
      match answers with
      | [] => None
      | Count 0 :: _ => Some ([], stream, false)
      | Count n :: answers' =>
          let count := (n `min` size)%nat in
          '(bytes, rest, ok) ← sm_socket_read_full answers' (drop count stream) (size - count)%nat;
          Some (take count stream ++ bytes, rest, ok)
      | Interrupted :: answers' => sm_socket_read_full answers' stream size
      | Failed :: _ => Some ([], stream, false)
      end
  end.

Lemma send_all_write_full answers data : send_all answers data = sm_socket_write_full answers data.
Proof.
  revert data. induction answers as [|[[|n]| |] answers IH]; intros [|b data]; simpl; rewrite ?IH; done.
Qed.

(** A write: the peer is sent a prefix of the buffer, all of it when the call
    succeeds and a proper one when it fails. *)
Lemma write_full_prefix answers buffer out ok : sm_socket_write_full answers buffer = Some (out, ok) ->
  exists rest, buffer = out ++ rest /\ (if ok then rest = [] else rest <> []).
Proof.
  revert buffer out. induction answers as [|[[|n]| |] answers IH]; intros [|b buffer] out; cbn -[take drop]; intros H;
    try (injection H as <- <-); try (by exists []); try (by exists (b :: buffer)).
  - destruct (sm_socket_write_full answers (drop (S n) (b :: buffer))) as [[out' ok']|] eqn:Hw; cbn -[take drop] in H; simplify_eq.
    destruct (IH _ _ Hw) as (rest & Hd & Hr). exists rest. split; [|done].
    by rewrite <-(assoc_L app), <-Hd, take_drop.
  - by apply IH.
Qed.

Lemma read_full_prefix answers stream size bytes rest ok :
  sm_socket_read_full answers stream size = Some (bytes, rest, ok) -> (size <= length stream)%nat ->
  stream = bytes ++ rest /\ (if ok then length bytes = size else (length bytes < size)%nat).
Proof.
  revert stream size bytes. induction answers as [|[[|n]| |] answers IH]; intros stream [|size] bytes; cbn -[take drop Nat.min Nat.sub];
    intros H Hs; simplify_eq; try (split; [done|simpl; lia]).
  - set (count := (S n `min` S size)%nat) in *.
    destruct (sm_socket_read_full answers (drop count stream) (S size - count)) as [[[bytes' rest'] ok']|] eqn:Hr;
      cbn -[take drop Nat.min Nat.sub] in H; simplify_eq.
    destruct (IH _ _ _ Hr) as (Hd & Hl); [rewrite length_drop; lia|]. split.
    + by rewrite <-(assoc_L app), <-Hd, take_drop.
    + rewrite length_app, length_take. destruct ok; lia.
  - by apply IH.
Qed.
End transfers.

(** what one side writes whole the other reads whole, however the
    system cuts the transfer and however often it interrupts either side: after a
    successful [sm_socket_write_full] (or [send_all]) a successful
    [sm_socket_read_full] of as many bytes returns exactly the buffer, and the next
    read starts behind it; a write that fails has sent a proper prefix, and a read
    that fails has given fewer bytes than asked for, so neither ever passes part of
    a message for all of it. *)
Theorem socket_transfer_whole {byte : Type} (wa ra : list io_answer) (buffer later out bytes rest : list byte) (sent got : bool) :
  sm_socket_write_full wa buffer = Some (out, sent) ->
  sm_socket_read_full ra (out ++ later) (length buffer) = Some (bytes, rest, got) ->
  (length buffer <= length (out ++ later))%nat ->
  (sent = true /\ got = true -> bytes = buffer /\ rest = later) /\
  (sent = false -> exists missing, buffer = out ++ missing /\ missing <> []) /\
  (got = false -> (length bytes < length buffer)%nat) /\
  send_all wa buffer = Some (out, sent).
Proof.
  intros Hw Hr Hl. destruct (write_full_prefix _ _ _ _ Hw) as (missing & Hb & Hm).
  destruct (read_full_prefix _ _ _ _ _ _ Hr Hl) as (Hs & Hlen). split_and!.
  - intros [-> ->]. subst missing. rewrite app_nil_r in Hb. subst out.
    apply app_inj_1 in Hs as [-> ->]; [done|lia].
  - intros ->. by exists missing.
  - by intros ->.
  - by rewrite send_all_write_full.
Qed.

Lemma socket_transfer_whole_witness : exists out, sm_socket_write_full [Count 2; Interrupted; Count 1] [1;2;3] = Some (out, true) /\
  forall bytes rest, sm_socket_read_full [Count 1; Interrupted; Count 9] (out ++ [4;5]) 3 = Some (bytes, rest, true) ->
  bytes = [1;2;3] /\ rest = [4;5].
Proof.
  eexists. split; [reflexivity|]. intros bytes rest H.
  destruct (socket_transfer_whole [Count 2; Interrupted; Count 1] [Count 1; Interrupted; Count 9] [1;2;3] [4;5] [1;2;3] bytes rest true true
    eq_refl H ltac:(simpl; lia)) as [Hall _]. exact (Hall (conj eq_refl eq_refl)).
Defined.
