(* ===== verification/PkgHttp.v ===== *)
(** * Requests of the package server (src/sm_pkg_server.c, first part)

    The texts the package server reads and writes: request lines and headers,
    byte ranges, percent-encoded paths, response headers; and how a connection
    cuts the received bytes into requests.

    A text is the characters before its terminator; a buffer that was received
    may hold zero bytes, and [c_string] is what the string functions see of it. *)
From S2P Require Import Prelude CString Bytes IniFile ConfigState.
From stdpp Require Import list pretty.
Open Scope Z_scope.
Open Scope c_scope.

Definition SM_PKG_SERVER_REQUEST_MAX : nat := Z.to_nat 8192.

Definition cr : ascii := "013"%char.
Definition crlf : text := [cr; newline].
Definition blank_line : text := crlf ++ crlf.

(** ** String functions *)

(** What precedes the first zero byte. *)
Fixpoint c_string (s : text) : text :=
  match s with [] => [] | a :: s' => if Ascii.eqb a nul then [] else a :: c_string s' end.

(** Decidable prefix: [strncmp(s, p, strlen(p)) == 0]. *)
Definition begins (p s : text) : bool := bool_decide (take (length p) s = p).

(** The same without case: [strncasecmp]. *)
Definition begins_ci (p s : text) : bool := strcasecmp_eq (take (length p) s) p.

(** [strstr(s, p)]: the text before the first [p], and the text after it. *)
Fixpoint strstr (p s : text) : option (text * text) :=
  if begins p s then Some ([], drop (length p) s)
  else
    match s with
    | [] => None
    | a :: s' => match strstr p s' with Some (x, y) => Some (a :: x, y) | None => None end
    end.

(** ** Percent-encoded paths *)
Definition hex_digit (value : ascii) : option Z :=
  let b := ascii_byte value in
  if (48 <=? b) && (b <=? 57) then Some (b - 48)
  else if (97 <=? b) && (b <=? 102) then Some (b - 97 + 10)
  else if (65 <=? b) && (b <=? 70) then Some (b - 65 + 10)
  else None.

Definition char_of (b : Z) : ascii := ascii_of_nat (Z.to_nat b).

(** [decode_path] from the state where [used] characters are written; [None] is
    [return false]. *)
Fixpoint decode_from (size used : nat) (encoded : text) : option text :=
  match encoded with
  | [] => Some []
  | c :: rest =>
      if Ascii.eqb c "?"%char then Some []
      else if Ascii.eqb c "%"%char then
        match rest with
        | h :: l :: rest' =>
            match hex_digit h, hex_digit l with
            | Some high, Some low =>
                let value := Z.lor (Z.shiftl high 4) low in
                if (value =? 0) || (size <=? used + 1)%nat then None
                else do? decoded <- decode_from size (S used) rest' ; Some (char_of value :: decoded)
            | _, _ => None
            end
        | _ => None
        end
      else if (size <=? used + 1)%nat then None
      else do? decoded <- decode_from size (S used) rest ; Some (c :: decoded)
  end.

Definition decode_path (encoded : text) (size : nat) : option text := decode_from size 0 encoded.

(** The encoding of a file name in the address handed to the system
    (src/sm_api_service.c). *)
Definition hex_char (d : Z) : ascii := char_of (if d <? 10 then d + 48 else d - 10 + 65).

Definition plain_char (c : ascii) : bool :=
  isalnum c || Ascii.eqb c "."%char || Ascii.eqb c "-"%char || Ascii.eqb c "_"%char.

Fixpoint encode_name (name : text) : text :=
  match name with
  | [] => []
  | c :: rest =>
      (if plain_char c then [c]
       else ["%"%char; hex_char (Z.shiftr (ascii_byte c) 4); hex_char (Z.land (ascii_byte c) 15)]) ++ encode_name rest
  end.

(** ** Headers *)

(** The pieces between the line ends. *)
Fixpoint split_lines (s current : text) : list text :=
  match s with
  | [] => [reverse current]
  | a :: s' =>
      match s' with
      | b :: s'' => if Ascii.eqb a cr && Ascii.eqb b newline then reverse current :: split_lines s'' []
                    else split_lines s' (a :: current)
      | [] => split_lines s' (a :: current)
      end
  end.

Definition blank (a : ascii) : bool := Ascii.eqb a " "%char || Ascii.eqb a "009"%char.

Fixpoint skip_blank (s : text) : text :=
  match s with [] => [] | a :: s' => if blank a then skip_blank s' else s end.

Definition trim_blank (s : text) : text := reverse (skip_blank (reverse (skip_blank s))).

(** The value of a line when its name is [name]. *)
Definition line_value (name line : text) : option text :=
  if (length name <? length line)%nat && begins_ci name line && bool_decide (line !! length name = Some ":"%char)
  then Some (trim_blank (drop (S (length name)) line)) else None.

Fixpoint first_value (name : text) (lines : list text) : option text :=
  match lines with
  | [] => None
  | line :: lines' => match line_value name line with Some v => Some v | None => first_value name lines' end
  end.

(** [None] is [return false]; the value is cut to the buffer. *)
Definition header_value (request name : text) (value_size : nat) : option text :=
  take (value_size - 1) <$> first_value name (split_lines request []).

(** [needle] at some place of [value], without case. *)
Fixpoint contains_ci (value needle : text) : bool :=
  if (length needle =? 0)%nat then true
  else match value with [] => false | _ :: value' => begins_ci needle value || contains_ci value' needle end.

(** [%<n>s] of [sscanf]. *)
Fixpoint take_word (n : nat) (s : text) : text * text :=
  match n, s with
  | S n', a :: s' => if isspace a then ([], s) else let '(w, r) := take_word n' s' in (a :: w, r)
  | _, _ => ([], s)
  end.

Definition scan_word (n : nat) (s : text) : option (text * text) :=
  let '(w, r) := take_word n (skip_space s) in if bool_decide (w = []) then None else Some (w, r).

Record sm_pkg_http_request_t := Request {
  rq_get : bool; rq_head : bool; rq_keep_alive : bool; rq_target : text; rq_range : option text;
}.

Definition parse_request (request : text) : option sm_pkg_http_request_t :=
  do? (method, r1) <- scan_word 15 request ;
  do? (target, r2) <- scan_word 1023 r1 ;
  do? (version, _) <- scan_word 15 r2 ;
  let get := strcasecmp_eq method (lit "GET") in
  let head := strcasecmp_eq method (lit "HEAD") in
  if negb get && negb head then None
  else
    let keep_alive :=
      match header_value request (lit "Connection") 64 with
      | Some connection =>
          if contains_ci connection (lit "close") then false
          else if contains_ci connection (lit "keep-alive") then true
          else negb (strcasecmp_eq version (lit "HTTP/1.0"))
      | None => negb (strcasecmp_eq version (lit "HTTP/1.0"))
      end in
    Some (Request get head keep_alive target (header_value request (lit "Range") 128)).

(** ** Byte ranges *)

(** [strtoull] in base 10 on a text that begins with a digit: the value and the
    rest, [None] when the value does not fit ([ERANGE]). *)
Definition strtoull (s : text) : option (Z * text) :=
  let '(n, _, rest) := read_digits 10 0 false s in if UINT64_MAX <? n then None else Some (n, rest).

Definition first_digit (s : text) : bool := match s with a :: _ => isdigit a | [] => false end.

(** The range's first and last byte; [None] is [return false]. *)
Definition parse_range (value : text) (total : Z) : option (Z * Z) :=
  if (total =? 0) || negb (begins_ci (lit "bytes=") value) then None
  else
    let spec := drop 6 value in
    let '(before, from_dash) := break (fun a => Ascii.eqb a "-"%char) spec in
    match from_dash with
    | [] => None
    | _ :: after =>
        if existsb (fun a => Ascii.eqb a ","%char) after then None
        else if bool_decide (before = []) then
          if negb (first_digit after) then None
          else
            do? (suffix, rest) <- strtoull after ;
            if negb (bool_decide (rest = [])) || (suffix =? 0) then None
            else
              let suffix := if total <? suffix then total else suffix in
              Some (total - suffix, total - 1)
        else if negb (first_digit spec) then None
        else
          do? (first, rest) <- strtoull spec ;
          if negb (bool_decide (rest = from_dash)) || (total <=? first) then None
          else
            match after with
            | [] => Some (first, total - 1)
            | _ =>
                if negb (first_digit after) then None
                else
                  do? (last, rest') <- strtoull after ;
                  if negb (bool_decide (rest' = [])) || (last <? first) then None
                  else Some (first, if total <=? last then total - 1 else last)
            end
    end.

(** ** Responses *)

(** [%llu]. *)
Definition u64_text (n : Z) : text := lit (pretty n).

Definition connection_text (keep_alive : bool) : text := lit (if keep_alive then "keep-alive" else "close").

Definition header_404 (keep_alive : bool) : text :=
  lit "HTTP/1.1 404 Not Found" ++ crlf ++ lit "Content-Length: 0" ++ crlf ++
  lit "Connection: " ++ connection_text keep_alive ++ blank_line.

Definition header_416 (total : Z) (keep_alive : bool) : text :=
  lit "HTTP/1.1 416 Range Not Satisfiable" ++ crlf ++ lit "Content-Length: 0" ++ crlf ++
  lit "Content-Range: bytes */" ++ u64_text total ++ crlf ++ lit "Connection: " ++ connection_text keep_alive ++ blank_line.

(** [date] is the clock's, formatted. *)
Definition header_content (date : text) (start end_ total : Z) (ranged keep_alive : bool) : text :=
  lit "HTTP/1.1 " ++ lit (if ranged then "206 Partial Content" else "200 OK") ++ crlf ++
  lit "Date: " ++ date ++ crlf ++ lit "Last-Modified: Wed, 01 Jan 2025 00:00:00 GMT" ++ crlf ++
  lit "Content-Type: application/octet-stream" ++ crlf ++
  lit "Content-Length: " ++ u64_text (if ranged then end_ - start + 1 else total) ++ crlf ++
  (if ranged then lit "Content-Range: bytes " ++ u64_text start ++ lit "-" ++ u64_text end_ ++ lit "/" ++
                  u64_text total ++ crlf else []) ++
  lit "Accept-Ranges: bytes" ++ crlf ++ lit "Connection: " ++ connection_text keep_alive ++ blank_line.

(** ** Requests on a connection *)

(** The end of the first request in the buffer: its length. *)
Definition request_size (buffer : text) : option nat :=
  match strstr blank_line (c_string buffer) with Some (x, _) => Some (length x + 4)%nat | None => None end.

(** What the loop of [worker] does with a complete request: serve it and keep the
    connection or not, or hand the connection over with the bytes after it. *)
Inductive verdict := Keep | Close | HandOver.

(** How the connection ends: the requests served, and for a hand-over the bytes
    received after its request and the segments not yet received. *)
Record connection_end := ConnectionEnd { ce_requests : list text; ce_rest : option (text * list text) }.

(** The loop of [worker] with the buffer's contents, and what the peer sends: the
    segments as they arrive ([recv] takes from the first one what the buffer has
    room for; an empty one is an interrupted [recv]), after the last one the
    connection is closed or fails.  [decide_] is what is done after the requests
    so far; the server runs on. *)
Fixpoint worker_loop (fuel : nat) (decide_ : list text -> verdict) (served : list text) (buffer : text)
    (incoming : list text) : option connection_end :=
  match fuel with
  | O => None
  | S fuel' =>
      if negb (length buffer <? SM_PKG_SERVER_REQUEST_MAX)%nat then Some (ConnectionEnd served None)
      else
        let received :=
          match request_size buffer with
          | Some _ => Some (buffer, incoming)
          | None =>
              match incoming with
              | [] => None
              | segment :: incoming' =>
                  let room := (SM_PKG_SERVER_REQUEST_MAX - length buffer)%nat in
                  let rest := drop room segment in
                  Some (buffer ++ take room segment, if bool_decide (rest = []) then incoming' else rest :: incoming')
              end
          end in
        match received with
        | None => Some (ConnectionEnd served None)
        | Some (buffer', incoming') =>
            match request_size buffer' with
            | None => worker_loop fuel' decide_ served buffer' incoming'
            | Some n =>
                let served' := served ++ [take n buffer'] in
                match decide_ served' with
                | Keep => worker_loop fuel' decide_ served' (drop n buffer') incoming'
                | Close => Some (ConnectionEnd served' None)
                | HandOver => Some (ConnectionEnd served' (Some (drop n buffer', incoming')))
                end
            end
        end
  end.

(** * Specification: the requests of a stream of bytes *)

(** One request after the other, each at most [SM_PKG_SERVER_REQUEST_MAX] long;
    for a hand-over all that follows. *)
Fixpoint requests_of (fuel : nat) (decide_ : list text -> verdict) (served : list text) (stream : text) :
    list text * option text :=
  match fuel with
  | O => (served, None)
  | S fuel' =>
      match request_size (take SM_PKG_SERVER_REQUEST_MAX stream) with
      | None => (served, None)
      | Some n =>
          let served' := served ++ [take n stream] in
          match decide_ served' with
          | Keep => requests_of fuel' decide_ served' (drop n stream)
          | Close => (served', None)
          | HandOver => (served', Some (drop n stream))
          end
      end
  end.

(** * Lemmas *)

#[local] Opaque SM_PKG_SERVER_REQUEST_MAX.

(** ** Finding the end of a request *)
Lemma begins_app p s t : (length p <= length s)%nat -> begins p (s ++ t) = begins p s.
Proof. intros Hl. unfold begins. by rewrite take_app_le. Qed.

Lemma begins_length p s : begins p s = true -> (length p <= length s)%nat.
Proof. unfold begins. intros H%bool_decide_eq_true. apply (f_equal length) in H. rewrite length_take in H. lia. Qed.

Lemma strstr_some p s x y : strstr p s = Some (x, y) -> s = x ++ p ++ y.
Proof.
  revert x. induction s as [|a s IH]; intros x; cbn [strstr].
  - destruct (begins p []) eqn:Hb; [|done]. intros [= <- <-]. unfold begins in Hb. apply bool_decide_eq_true in Hb.
    rewrite take_nil in Hb. by subst.
  - destruct (begins p (a :: s)) eqn:Hb.
    + intros [= <- <-]. unfold begins in Hb. apply bool_decide_eq_true in Hb. simpl.
      by rewrite <-Hb at 1; rewrite take_drop.
    + destruct (strstr p s) as [[x' y']|]; [|done]. intros [= <- <-]. simpl. f_equal. by apply IH.
Qed.

Lemma strstr_app p s t x y : strstr p s = Some (x, y) -> strstr p (s ++ t) = Some (x, y ++ t).
Proof.
  intros H. assert (Hl : (length p <= length s)%nat).
  { apply strstr_some in H. apply (f_equal length) in H. rewrite !length_app in H. lia. }
  revert x H Hl. induction s as [|a s IH]; intros x H Hl.
  - simpl in Hl. destruct p; [|simpl in Hl; lia]. simpl in H. injection H as <- <-. by destruct t.
  - cbn [strstr app] in *. change (a :: s ++ t) with ((a :: s) ++ t). rewrite begins_app by done.
    destruct (begins p (a :: s)) eqn:Hb; [injection H as <- <-; by rewrite drop_app_le|].
    destruct (strstr p s) as [[x' y']|] eqn:Hs; [|done]. injection H as <- <-.
    rewrite (IH x' eq_refl); [done|]. apply strstr_some in Hs. apply (f_equal length) in Hs. rewrite !length_app in Hs. lia.
Qed.

Lemma c_string_app s t : exists u, c_string (s ++ t) = c_string s ++ u.
Proof.
  induction s as [|a s [u IH]]; simpl; [by eexists|]. destruct (Ascii.eqb a nul); [by exists []|].
  exists u. by rewrite IH.
Qed.

Lemma c_string_prefix s : exists u, s = c_string s ++ u.
Proof. induction s as [|a s [u IH]]; simpl; [by exists []|]. destruct (Ascii.eqb a nul); [by eexists|]. exists u. simpl. by f_equal. Qed.

(** More bytes after it do not change the first request. *)
Lemma request_size_app s t n : request_size s = Some n -> request_size (s ++ t) = Some n.
Proof.
  unfold request_size. intros H. destruct (strstr _ (c_string s)) as [[x y]|] eqn:Hs; [|done].
  destruct (c_string_app s t) as [u ->]. by rewrite (strstr_app _ _ _ _ _ Hs).
Qed.

Lemma request_size_bounds s n : request_size s = Some n -> (4 <= n <= length s)%nat.
Proof.
  unfold request_size. intros H. destruct (strstr _ (c_string s)) as [[x y]|] eqn:Hs; [|done]. injection H as <-.
  apply strstr_some in Hs. destruct (c_string_prefix s) as [u Hu]. rewrite Hu, Hs, !length_app. simpl. lia.
Qed.

(** A buffer that is the beginning of the stream finds what the specification
    finds, unless it is still too short. *)
Lemma request_size_stream buffer rest n : (length buffer <= SM_PKG_SERVER_REQUEST_MAX)%nat ->
  request_size buffer = Some n -> request_size (take SM_PKG_SERVER_REQUEST_MAX (buffer ++ rest)) = Some n.
Proof. intros Hl H. rewrite take_app_ge by lia. by apply request_size_app. Qed.

Lemma request_size_none buffer rest : request_size buffer = None ->
  (SM_PKG_SERVER_REQUEST_MAX <= length buffer)%nat \/ rest = [] ->
  request_size (take SM_PKG_SERVER_REQUEST_MAX (buffer ++ rest)) = None.
Proof.
  intros H Hc. destruct (request_size (take _ _)) as [n|] eqn:Hn; [|done]. rewrite <-H. symmetry.
  destruct Hc as [Hl| ->].
  - rewrite take_app_le in Hn by lia. rewrite <-(take_drop SM_PKG_SERVER_REQUEST_MAX buffer). by apply request_size_app.
  - rewrite app_nil_r in Hn. rewrite <-(take_drop SM_PKG_SERVER_REQUEST_MAX buffer). by apply request_size_app.
Qed.

(** ** The loop against its specification *)
Definition worker_measure (buffer : text) (incoming : list text) : nat :=
  (length buffer + 2 * length (concat incoming) + length incoming)%nat.

(** The end of a connection says what the specification says; after a hand-over
    the bytes in the buffer and those still to come are the rest of the stream. *)
Definition ends_as (e : connection_end) (spec : list text * option text) : Prop :=
  ce_requests e = spec.1 /\ (fun p => p.1 ++ concat p.2) <$> ce_rest e = spec.2.

Lemma requests_of_fuel decide_ fuel1 fuel2 served stream :
  (length stream < fuel1)%nat -> (length stream < fuel2)%nat ->
  requests_of fuel1 decide_ served stream = requests_of fuel2 decide_ served stream.
Proof.
  revert fuel2 served stream. induction fuel1 as [|f1 IH]; intros [|f2] served stream H1 H2; try lia.
  cbn [requests_of]. destruct (request_size _) as [n|] eqn:Hn; [|done].
  apply request_size_bounds in Hn as [Hn1 Hn2]. rewrite length_take in Hn2.
  destruct (decide_ _); [|done|done]. apply IH; rewrite length_drop; lia.
Qed.

Lemma worker_loop_spec decide_ fuel sfuel served buffer incoming :
  (worker_measure buffer incoming < fuel)%nat -> (length (buffer ++ concat incoming) < sfuel)%nat ->
  (length buffer <= SM_PKG_SERVER_REQUEST_MAX)%nat ->
  (length buffer = SM_PKG_SERVER_REQUEST_MAX -> request_size buffer = None) ->
  exists e, worker_loop fuel decide_ served buffer incoming = Some e /\
    ends_as e (requests_of sfuel decide_ served (buffer ++ concat incoming)).
Proof.
  revert sfuel served buffer incoming. induction fuel as [|fuel IH]; intros sfuel served buffer incoming Hf Hs Hb Hfull; [lia|].
  cbn [worker_loop]. destruct (Nat.ltb_spec (length buffer) SM_PKG_SERVER_REQUEST_MAX) as [Hlt|Hge]; cbn [negb].
  2: { eexists. split; [done|]. destruct sfuel as [|sfuel]; [lia|]. cbn [requests_of].
       rewrite request_size_none; [done|by apply Hfull; lia|by left]. }
  assert (Hserve : forall buffer' incoming' n, buffer' ++ concat incoming' = buffer ++ concat incoming ->
    (worker_measure buffer' incoming' <= worker_measure buffer incoming)%nat ->
    (length buffer' <= SM_PKG_SERVER_REQUEST_MAX)%nat -> request_size buffer' = Some n ->
    exists e, (let served' := served ++ [take n buffer'] in
      match decide_ served' with
      | Keep => worker_loop fuel decide_ served' (drop n buffer') incoming'
      | Close => Some (ConnectionEnd served' None)
      | HandOver => Some (ConnectionEnd served' (Some (drop n buffer', incoming')))
      end) = Some e /\ ends_as e (requests_of sfuel decide_ served (buffer ++ concat incoming))).
  { intros buffer' incoming' n Heq Hmeas Hl Hn. rewrite <-Heq in *. destruct sfuel as [|sfuel]; [lia|].
    cbn [requests_of]. rewrite (request_size_stream _ _ _ Hl Hn).
    apply request_size_bounds in Hn as [Hn1 Hn2].
    rewrite take_app_le, drop_app_le by lia. cbv zeta. destruct (decide_ _); [|by eexists..].
    apply IH; unfold worker_measure in *; rewrite ?length_app, ?length_drop in *; lia. }
  destruct (request_size buffer) as [n|] eqn:Hn.
  { rewrite Hn. apply Hserve; [done|lia|done|done]. }
  destruct incoming as [|segment incoming].
  { eexists. split; [done|]. destruct sfuel as [|sfuel]; [lia|]. cbn [requests_of].
    rewrite request_size_none; [done|done|by right]. }
  set (room := (SM_PKG_SERVER_REQUEST_MAX - length buffer)%nat).
  set (incoming' := if bool_decide (drop room segment = []) then incoming else drop room segment :: incoming).
  assert (Hconcat : concat incoming' = drop room segment ++ concat incoming).
  { unfold incoming'. destruct (bool_decide_reflect (drop room segment = [])) as [He|]; [by rewrite He|done]. }
  assert (Heq : (buffer ++ take room segment) ++ concat incoming' = buffer ++ concat (segment :: incoming)).
  { rewrite Hconcat, <-app_assoc. f_equal. simpl. by rewrite app_assoc, take_drop. }
  assert (Hmeas : (worker_measure (buffer ++ take room segment) incoming' < worker_measure buffer (segment :: incoming))%nat).
  { unfold worker_measure. rewrite Hconcat. simpl. rewrite !length_app, length_take, length_drop. unfold incoming'.
    destruct (bool_decide_reflect (drop room segment = [])) as [He|He]; simpl; [lia|].
    assert (room < length segment)%nat; [|lia]. destruct (decide (room < length segment)%nat) as [|Hge]; [done|].
    destruct He. apply drop_ge. lia. }
  assert (Hl : (length (buffer ++ take room segment) <= SM_PKG_SERVER_REQUEST_MAX)%nat).
  { rewrite length_app, length_take. lia. }
  destruct (request_size (buffer ++ take room segment)) as [n|] eqn:Hn'.
  - apply Hserve; [done|lia|done|done].
  - rewrite <-Heq. apply IH; [lia|rewrite Heq; done|done|done].
Qed.

(** ** Words of a request line *)
Definition solid (s : text) : bool := forallb (fun a => negb (isspace a)) s.

Lemma take_word_solid n w a r : solid w = true -> (length w <= n)%nat -> isspace a = true ->
  take_word n (w ++ a :: r) = (w, a :: r).
Proof.
  revert n. induction w as [|b w IH]; intros n Hw Hn Ha; cbn [app].
  - destruct n; cbn [take_word]; [done|]. by rewrite Ha.
  - destruct n as [|n]; simpl in Hn; [lia|]. cbn [solid forallb] in Hw. apply andb_true_iff in Hw as [Hb Hw].
    cbn [take_word]. apply negb_true_iff in Hb. rewrite Hb, (IH n) by (done || lia). done.
Qed.

Lemma scan_word_solid n w a r : solid w = true -> w <> [] -> (length w <= n)%nat -> isspace a = true ->
  scan_word n (w ++ a :: r) = Some (w, a :: r).
Proof.
  intros Hw Hne Hn Ha. unfold scan_word. destruct w as [|b w]; [done|]. pose proof Hw as Hw'.
  cbn [solid forallb] in Hw. apply andb_true_iff in Hw as [Hb _]. apply negb_true_iff in Hb.
  cbn [app skip_space]. rewrite Hb. change (b :: w ++ a :: r) with ((b :: w) ++ a :: r).
  rewrite take_word_solid by done. by rewrite bool_decide_false.
Qed.

Lemma scan_word_space n a s : isspace a = true -> scan_word n (a :: s) = scan_word n s.
Proof. intros Ha. unfold scan_word. cbn [skip_space]. by rewrite Ha. Qed.

(** ** Encoded names *)
Lemma byte_char_roundtrip (a : ascii) : char_of (ascii_byte a) = a.
Proof. unfold char_of, ascii_byte. rewrite <-N_nat_Z, Nat2Z.id. apply ascii_nat_embedding. Qed.

(** What holds of every character, by trying them all. *)
Lemma ascii_forall (P : ascii -> bool) : forallb (fun n => P (ascii_of_nat n)) (seq 0 256) = true -> forall a, P a = true.
Proof.
  intros H a. rewrite forallb_forall in H. rewrite <-(ascii_nat_embedding a). apply H.
  apply in_seq. pose proof (nat_ascii_bounded a). lia.
Qed.

Lemma hex_char_digit d : 0 <= d < 16 -> hex_digit (hex_char d) = Some d.
Proof.
  intros Hd. assert (Hin : d ∈ Z.of_nat <$> seq 0 16).
  { apply list_elem_of_fmap. exists (Z.to_nat d). split; [lia|]. apply elem_of_seq. lia. }
  revert Hin. assert (Hall : forallb (fun d => bool_decide (hex_digit (hex_char d) = Some d)) (Z.of_nat <$> seq 0 16) = true)
    by (vm_compute; reflexivity).
  intros Hin. rewrite forallb_forall in Hall. apply list_elem_of_In in Hin. by apply Hall, bool_decide_eq_true in Hin.
Qed.

Lemma byte_halves (a : ascii) : let b := ascii_byte a in
  0 <= Z.shiftr b 4 < 16 /\ 0 <= Z.land b 15 < 16 /\ Z.lor (Z.shiftl (Z.shiftr b 4) 4) (Z.land b 15) = b.
Proof.
  pose proof (ascii_forall (fun a => let b := ascii_byte a in
    (0 <=? Z.shiftr b 4) && (Z.shiftr b 4 <? 16) && (0 <=? Z.land b 15) && (Z.land b 15 <? 16) &&
    (Z.lor (Z.shiftl (Z.shiftr b 4) 4) (Z.land b 15) =? b)) ltac:(vm_compute; reflexivity) a) as H.
  cbv beta zeta in *. bool_hyps.
  repeat match goal with H : (_ <=? _) = true |- _ => apply Z.leb_le in H | H : (_ <? _) = true |- _ => apply Z.ltb_lt in H
    | H : (_ =? _) = true |- _ => apply Z.eqb_eq in H end. by split_and!.
Qed.

Lemma plain_not_special (a : ascii) : plain_char a = true ->
  Ascii.eqb a "?"%char = false /\ Ascii.eqb a "%"%char = false /\ isspace a = false.
Proof.
  intros Ha. pose proof (ascii_forall (fun a => negb (plain_char a) ||
    (negb (Ascii.eqb a "?"%char) && negb (Ascii.eqb a "%"%char) && negb (isspace a)))
    ltac:(vm_compute; reflexivity) a) as H. cbv beta in H. rewrite Ha in H. cbn [negb orb] in H. bool_hyps. by split_and!.
Qed.

Lemma hex_char_solid d : 0 <= d < 16 -> isspace (hex_char d) = false.
Proof.
  intros Hd. assert (Hall : forallb (fun d => negb (isspace (hex_char d))) (Z.of_nat <$> seq 0 16) = true)
    by (vm_compute; reflexivity).
  rewrite forallb_forall in Hall. apply negb_true_iff, Hall. apply list_elem_of_In, list_elem_of_fmap.
  exists (Z.to_nat d). split; [lia|]. apply elem_of_seq. lia.
Qed.

Lemma encode_name_solid name : solid (encode_name name) = true.
Proof.
  unfold solid. induction name as [|c name IH]; [done|]. cbn [encode_name]. rewrite forallb_app, IH, andb_true_r.
  destruct (byte_halves c) as (Hh & Hl & _). destruct (plain_char c) eqn:Hp; cbn [forallb].
  - by rewrite (proj2 (proj2 (plain_not_special c Hp))).
  - rewrite (hex_char_solid _ Hh), (hex_char_solid _ Hl). done.
Qed.

(** Decoding gives an encoded name back, whatever query follows. *)
Lemma decode_encoded size used name query :
  Forall (fun a => a <> nul) name -> (used + length name < size)%nat ->
  (query = [] \/ exists q, query = "?"%char :: q) ->
  decode_from size used (encode_name name ++ query) = Some name.
Proof.
  intros Hn Hsize Hq. revert used Hsize. induction Hn as [|c name Hc _ IH]; intros used Hsize.
  - destruct Hq as [-> | [q ->]]; done.
  - simpl in Hsize. cbn [encode_name]. destruct (plain_char c) eqn:Hp.
    + destruct (plain_not_special c Hp) as (H1 & H2 & _). cbn [app decode_from]. rewrite H1, H2.
      destruct (Nat.leb_spec size (used + 1)); [lia|]. rewrite IH by lia. done.
    + destruct (byte_halves c) as (Hh & Hl & Hb). cbn [app decode_from].
      rewrite (hex_char_digit _ Hh), (hex_char_digit _ Hl). cbn [Ascii.eqb Bool.eqb]. rewrite Hb.
      destruct (Z.eqb_spec (ascii_byte c) 0) as [H0|H0].
      { destruct Hc. rewrite <-(byte_char_roundtrip c), H0. done. }
      destruct (Nat.leb_spec size (used + 1)); [lia|]. cbn [orb]. rewrite IH by lia. by rewrite byte_char_roundtrip.
Qed.

(** Characters that are copied. *)
Definition path_char (a : ascii) : bool := plain_char a || Ascii.eqb a "/"%char.

Lemma path_char_copied a : path_char a = true ->
  Ascii.eqb a "?"%char = false /\ Ascii.eqb a "%"%char = false /\ isspace a = false.
Proof.
  unfold path_char. destruct (plain_char a) eqn:Hp; [intros _; by apply plain_not_special|].
  cbn [orb]. intros H. apply Ascii.eqb_eq in H as ->. done.
Qed.

Lemma decode_plain size used path rest : forallb path_char path = true -> (used + length path < size)%nat ->
  decode_from size used (path ++ rest) = (fun d => path ++ d) <$> decode_from size (used + length path) rest.
Proof.
  revert used. induction path as [|c path IH]; intros used Hp Hs.
  - cbn [app length]. rewrite Nat.add_0_r. by destruct (decode_from _ _ _).
  - cbn [forallb] in Hp. apply andb_true_iff in Hp as [Hc Hp]. destruct (path_char_copied c Hc) as (H1 & H2 & _).
    simpl in Hs. cbn [app decode_from length]. rewrite H1, H2. destruct (Nat.leb_spec size (used + 1)); [lia|].
    rewrite IH by (done || lia). replace (used + S (length path))%nat with (S used + length path)%nat by lia.
    by destruct (decode_from _ _ rest).
Qed.

Lemma solid_app a b : solid (a ++ b) = solid a && solid b.
Proof. apply forallb_app. Qed.

Lemma path_solid path : forallb path_char path = true -> solid path = true.
Proof.
  unfold solid. induction path as [|c path IH]; [done|]. cbn [forallb]. intros H. apply andb_true_iff in H as [Hc Hp].
  destruct (path_char_copied c Hc) as (_ & _ & ->). by apply IH.
Qed.

(** ** Ranges *)
Lemma digit_value_nonneg a : 0 <= digit_value a.
Proof.
  pose proof (ascii_forall (fun a => 0 <=? digit_value a) ltac:(vm_compute; reflexivity) a) as H. by apply Z.leb_le in H.
Qed.

Lemma read_digits_nonneg s acc any : 0 <= acc -> 0 <= (read_digits 10 acc any s).1.1.
Proof.
  revert acc any. induction s as [|a s IH]; intros acc any Ha; cbn [read_digits]; [done|].
  destruct (digit_value a <? 10); [|done]. apply IH. pose proof (digit_value_nonneg a). lia.
Qed.

Lemma strtoull_nonneg s n rest : strtoull s = Some (n, rest) -> 0 <= n.
Proof.
  unfold strtoull. pose proof (read_digits_nonneg s 0 false ltac:(lia)) as H.
  destruct (read_digits 10 0 false s) as [[v any] r]. destruct (UINT64_MAX <? v); [done|]. by intros [= <- _].
Qed.

(** A range that is accepted lies within the package. *)
Lemma parse_range_within value total first last : 0 <= total -> parse_range value total = Some (first, last) ->
  0 <= first <= last /\ last < total.
Proof.
  intros Ht. unfold parse_range. destruct (Z.eqb_spec total 0) as [|Hne]; [done|]. cbn [orb].
  destruct (negb _); [done|]. destruct (break _ (drop 6 value)) as [before from_dash].
  destruct from_dash as [|d after]; [done|]. destruct (existsb _ after); [done|].
  destruct (bool_decide (before = [])).
  - destruct (negb _); [done|]. destruct (strtoull after) as [[suffix rest]|] eqn:Hs; [|done].
    apply strtoull_nonneg in Hs. destruct (negb _ || _) eqn:Hc; [done|]. apply orb_false_iff in Hc as [_ Hc].
    apply Z.eqb_neq in Hc. intros [= <- <-]. destruct (Z.ltb_spec total suffix); lia.
  - destruct (negb _); [done|]. destruct (strtoull (drop 6 value)) as [[f rest]|] eqn:Hf; [|done].
    apply strtoull_nonneg in Hf. destruct (negb _ || _) eqn:Hc; [done|]. apply orb_false_iff in Hc as [_ Hc].
    apply Z.leb_gt in Hc. destruct after as [|a after]; [intros [= <- <-]; lia|].
    destruct (negb _); [done|]. destruct (strtoull (a :: after)) as [[l rest']|] eqn:Hl; [|done].
    destruct (negb _ || _) eqn:Hc2; [done|]. apply orb_false_iff in Hc2 as [_ Hc2]. apply Z.ltb_ge in Hc2.
    intros [= <- <-]. destruct (Z.leb_spec total l); lia.
Qed.

Lemma digit_char (d : N) : (d < 10)%N -> isdigit (pretty_N_char d) = true /\ digit_value (pretty_N_char d) = Z.of_N d.
Proof.
  intros Hd. assert (d = 0 \/ d = 1 \/ d = 2 \/ d = 3 \/ d = 4 \/ d = 5 \/ d = 6 \/ d = 7 \/ d = 8 \/ d = 9)%N by lia.
  by destruct_or!; subst.
Qed.

(** A printed number is digits, and reads back up to what follows. *)
Lemma digits_not_dash (x : N) s : (0 < x)%N -> exists l, lit (pretty_N_go x s) = l ++ lit s /\ forallb isdigit l = true /\ l <> [].
Proof.
  revert s. induction (N.lt_wf_0 x) as [x _ IH]. intros s Hx. rewrite pretty_N_go_step by done.
  assert (Hm : (x `mod` 10 < 10)%N) by (apply N.mod_lt; lia).
  destruct (digit_char _ Hm) as [Hd _].
  destruct (decide (x `div` 10 = 0)%N) as [Hz|Hz].
  - rewrite Hz, pretty_N_go_0. exists [pretty_N_char (x `mod` 10)]. split_and!; [done| |done]. cbn [forallb]. by rewrite Hd.
  - destruct (IH (x `div` 10)%N ltac:(by apply N.div_lt) (String (pretty_N_char (x `mod` 10)) s)) as (l & Hl & Hall & Hne);
      [by apply N.neq_0_lt_0|].
    exists (l ++ [pretty_N_char (x `mod` 10)]). rewrite Hl, <-app_assoc. split_and!; [done| |by destruct l].
    rewrite forallb_app, Hall. cbn [forallb]. by rewrite Hd.
Qed.

Lemma u64_text_digits n : 0 <= n -> forallb isdigit (u64_text n) = true /\ u64_text n <> [].
Proof.
  intros Hn. destruct n as [|p|p]; [done| |lia]. unfold u64_text. change (pretty (Z.pos p)) with (pretty_N_go (N.pos p) "").
  destruct (digits_not_dash (N.pos p) "" ltac:(lia)) as (l & -> & Hl & Hne). by rewrite app_nil_r.
Qed.

Lemma strtoull_text n rest : 0 <= n <= UINT64_MAX -> first_digit rest = false -> 
  (forall a r, rest = a :: r -> 10 <= digit_value a) -> strtoull (u64_text n ++ rest) = Some (n, rest).
Proof.
  intros Hn Hr Hd. unfold strtoull.
  assert (Hstop : forall acc any, read_digits 10 acc any rest = (acc, any, rest)).
  { intros acc any. destruct rest as [|a r]; [done|]. cbn [read_digits]. specialize (Hd a r eq_refl).
    by destruct (Z.ltb_spec (digit_value a) 10); [lia|]. }
  assert (Happ : exists any, read_digits 10 0 false (u64_text n ++ rest) = (n, any, rest)).
  { destruct n as [|p|p]; [| |lia].
    - change (u64_text 0 ++ rest) with ("0"%char :: rest). cbn [read_digits]. eexists. by rewrite Hstop.
    - unfold u64_text. change (pretty (Z.pos p)) with (pretty_N_go (N.pos p) "").
      assert (Hgo : forall x s any, (0 < x)%N -> read_digits 10 0 any (lit (pretty_N_go x s) ++ rest) =
        read_digits 10 (Z.of_N x) true (lit s ++ rest)).
      { clear. intros x. induction (N.lt_wf_0 x) as [x _ IH]. intros s any Hx. rewrite pretty_N_go_step by done.
        assert (Hstep : forall a acc, acc = Z.of_N (x `div` 10) ->
          read_digits 10 acc a (lit (String (pretty_N_char (x `mod` 10)) s) ++ rest) = read_digits 10 (Z.of_N x) true (lit s ++ rest)).
        { intros a acc ->. cbn [lit String.list_ascii_of_string app read_digits].
          assert (Hm : (x `mod` 10 < 10)%N) by (apply N.mod_lt; lia).
          destruct (digit_char _ Hm) as [_ Hv].
          rewrite Hv. destruct (Z.ltb_spec (Z.of_N (x `mod` 10)) 10); [|lia]. f_equal. pose proof (N.div_mod' x 10). lia. }
        destruct (decide (x `div` 10 = 0)%N) as [Hz|Hz]; [rewrite Hz, pretty_N_go_0; apply Hstep; by rewrite Hz|].
        rewrite (IH (x `div` 10)%N); [|by apply N.div_lt|by apply N.neq_0_lt_0]. by apply Hstep. }
      eexists. rewrite Hgo by lia. change (lit "") with (@nil ascii). cbn [app]. apply Hstop. }
  destruct Happ as [any ->]. destruct (Z.ltb_spec UINT64_MAX n); [lia|done].
Qed.

Lemma break_first p a b r : forallb (fun c => negb (p c)) a = true -> p b = true -> break p (a ++ b :: r) = (a, b :: r).
Proof.
  intros Ha Hb. induction a as [|c a IH]; cbn [app break forallb] in *; [by rewrite Hb|].
  apply andb_true_iff in Ha as [Hc Ha]. apply negb_true_iff in Hc. by rewrite Hc, IH.
Qed.

Lemma digit_not a : isdigit a = true ->
  Ascii.eqb a "-"%char = false /\ Ascii.eqb a ","%char = false /\ isspace a = false.
Proof.
  intros Ha. pose proof (ascii_forall (fun a => negb (isdigit a) ||
    (negb (Ascii.eqb a "-"%char) && negb (Ascii.eqb a ","%char) && negb (isspace a)))
    ltac:(vm_compute; reflexivity) a) as H. cbv beta in H. rewrite Ha in H. cbn [negb orb] in H. bool_hyps. by split_and!.
Qed.

Lemma digits_no_dash l : forallb isdigit l = true -> forallb (fun c => negb (Ascii.eqb c "-"%char)) l = true.
Proof.
  induction l as [|a l IH]; [done|]. cbn [forallb]. intros H. apply andb_true_iff in H as [Ha Hl].
  rewrite (proj1 (digit_not a Ha)), IH by done. done.
Qed.

Lemma digits_no_comma l : forallb isdigit l = true -> existsb (fun c => Ascii.eqb c ","%char) l = false.
Proof.
  induction l as [|a l IH]; [done|]. cbn [forallb existsb]. intros H. apply andb_true_iff in H as [Ha Hl].
  rewrite (proj1 (proj2 (digit_not a Ha))), IH by done. done.
Qed.

Lemma parse_range_text first last total : 0 <= first < total -> first <= last -> last <= UINT64_MAX -> total <= UINT64_MAX ->
  parse_range (lit "bytes=" ++ u64_text first ++ "-"%char :: u64_text last) total = Some (first, Z.min last (total - 1)).
Proof.
  intros Hf Hl Hlm Ht. unfold parse_range. destruct (Z.eqb_spec total 0); [lia|].
  destruct (u64_text_digits first ltac:(lia)) as [Hdf Hnf]. destruct (u64_text_digits last ltac:(lia)) as [Hdl Hnl].
  rewrite drop_app_length' by done.
  assert (Hb : begins_ci (lit "bytes=") (lit "bytes=" ++ u64_text first ++ "-"%char :: u64_text last) = true).
  { unfold begins_ci. rewrite take_app_length' by done. reflexivity. }
  rewrite Hb. cbn [negb orb].
  rewrite break_first by (done || by apply digits_no_dash). rewrite digits_no_comma by done.
  rewrite bool_decide_false by done.
  assert (Hfd : forall x r, forallb isdigit x = true -> x <> [] -> first_digit (x ++ r) = true).
  { intros [|a x] r Hx Hne; [done|]. cbn [forallb] in Hx. by apply andb_true_iff in Hx as [? _]. }
  rewrite (Hfd (u64_text first)) by done. cbn [negb].
  rewrite strtoull_text; [|lia|done|by intros a r [= <- <-]].
  rewrite bool_decide_true by done. cbn [negb orb]. destruct (Z.leb_spec total first); [lia|].
  pose proof (Hfd (u64_text last) [] Hdl Hnl) as Hfl. rewrite app_nil_r in Hfl. rewrite Hfl. cbn [negb].
  pose proof (strtoull_text last [] ltac:(lia) eq_refl ltac:(done)) as Hs. rewrite app_nil_r in Hs. rewrite Hs.
  rewrite bool_decide_true by done. cbn [negb orb]. destruct (Z.ltb_spec last first); [lia|].
  destruct (u64_text last) as [|a r] eqn:He; [done|]. f_equal. f_equal. destruct (Z.leb_spec total last); lia.
Qed.

(** * Theorems *)

(** the requests a connection serves do not depend on how the network
    splits or delays the bytes: for any segments the loop ends, and it serves the
    requests of the stream one after the other, each cut at its blank line (up to
    one that is longer than the buffer), until one closes the connection; when a
    request hands the connection over to the WebSocket channel, the bytes kept in
    the buffer and those still to come are exactly what follows it. *)
Theorem worker_requests_exact decide_ segments :
  exists e, worker_loop (S (worker_measure [] segments)) decide_ [] [] segments = Some e /\
    ends_as e (requests_of (S (length (concat segments))) decide_ [] (concat segments)).
Proof.
  apply worker_loop_spec; simpl; [lia|lia|lia|]. intros H.
  exfalso. assert (0 < SM_PKG_SERVER_REQUEST_MAX)%nat by (apply Nat.ltb_lt; vm_compute; reflexivity). lia.
Qed.

(** the address handed to the system for a package is one the server
    recognises: for a token of plain characters and any file name (not only plain
    ones), a request for the encoded name, with whatever query the system
    appends, is parsed with that target, and the target decodes to the path the
    server compares with, "/token/name". *)
Theorem package_address_found token name query headers :
  forallb plain_char token = true -> Forall (fun a => a <> nul) name ->
  (query = [] \/ exists q, query = "?"%char :: q) -> solid query = true ->
  let target := "/"%char :: token ++ "/"%char :: encode_name name ++ query in
  (length target <= 1023)%nat ->
  exists r, parse_request (lit "GET " ++ target ++ lit " HTTP/1.1" ++ crlf ++ headers) = Some r /\
    rq_get r = true /\ rq_target r = target /\
    decode_path (rq_target r) MAX_PATH = Some ("/"%char :: token ++ "/"%char :: name).
Proof.
  intros Htok Hname Hq Hqs target Hlen.
  set (prefix := "/"%char :: token ++ ["/"%char]).
  assert (Htarget : target = prefix ++ encode_name name ++ query) by (unfold target, prefix; simpl; by rewrite <-app_assoc).
  assert (Hpath : forallb path_char prefix = true).
  { unfold prefix. change ("/"%char :: token ++ ["/"%char]) with (["/"%char] ++ token ++ ["/"%char]).
    rewrite !forallb_app, !andb_true_iff. split_and!; [done| |done].
    clear -Htok. induction token as [|a token IH]; [done|].
    cbn [forallb] in *. apply andb_true_iff in Htok as [Ha Ht]. unfold path_char at 1. by rewrite Ha, IH. }
  assert (Hsolid : solid target = true).
  { rewrite Htarget, !solid_app, encode_name_solid, Hqs, (path_solid _ Hpath). done. }
  assert (Hdecode : decode_path target MAX_PATH = Some ("/"%char :: token ++ "/"%char :: name)).
  { assert (Hel : (length name <= length (encode_name name))%nat).
    { clear. induction name as [|c name IH]; [done|]. cbn [encode_name length]. rewrite length_app.
      destruct (plain_char c); simpl; lia. }
    assert (Hmax : (length prefix + length name < MAX_PATH)%nat).
    { rewrite Htarget, !length_app in Hlen. change MAX_PATH with (S 1023). lia. }
    unfold decode_path. rewrite Htarget, decode_plain by (done || lia). rewrite decode_encoded by (done || lia).
    simpl. by rewrite <-app_assoc. }
  unfold parse_request.
  change (lit "GET " ++ target ++ lit " HTTP/1.1" ++ crlf ++ headers) with
    (lit "GET" ++ " "%char :: target ++ " "%char :: lit "HTTP/1.1" ++ cr :: newline :: headers).
  rewrite (scan_word_solid 15 (lit "GET")) by (done || simpl; lia).
  rewrite scan_word_space by done. rewrite (scan_word_solid 1023 target) by done.
  rewrite scan_word_space by done. rewrite (scan_word_solid 15 (lit "HTTP/1.1")) by (done || simpl; lia).
  change (strcasecmp_eq (lit "GET") (lit "GET")) with true. cbn [negb andb].
  eexists. split; [done|]. by split_and!.
Qed.

Lemma package_address_found_witness :
  decode_path (lit "/t0/My%20Game%2B.pkg?product=1") MAX_PATH = Some (lit "/t0/My Game+.pkg") /\
  let target := "/"%char :: lit "t0" ++ "/"%char :: encode_name (lit "My Game+.pkg") ++ lit "?product=1" in
  exists r, parse_request (lit "GET " ++ target ++ lit " HTTP/1.1" ++ crlf ++ lit "Host: a") = Some r /\
    rq_get r = true /\ rq_target r = target /\
    decode_path (rq_target r) MAX_PATH = Some ("/"%char :: lit "t0" ++ "/"%char :: lit "My Game+.pkg").
Proof.
  split; [vm_compute; reflexivity|].
  apply (package_address_found (lit "t0") (lit "My Game+.pkg") (lit "?product=1") (lit "Host: a")).
  - reflexivity.
  - repeat (apply Forall_cons_2; [discriminate|]). apply Forall_nil_2.
  - right. eexists. reflexivity.
  - reflexivity.
  - apply Nat.leb_le. vm_compute. reflexivity.
Defined.
