(* ===== verification/PkgReadAhead.v ===== *)
(** * Reading ahead (src/sm_pkg_server.c, the two-block pipeline)

    A thread reads a range of the package into two blocks while the worker of the
    connection sends what is read.  The steps are the critical sections of the two
    threads and what they do between them; a waiting thread runs again only when
    it is signalled. *)
From S2P Require Import Prelude.
Open Scope Z_scope.

(** A block: being written, the bytes of a read, or a read that gave none. *)
Inductive block := Garbage | Data (bytes : list Z) | NoData.

(** Where the thread is: [read_ahead_worker] at its loop with the mutex, waiting,
    reading into a block without the mutex, ended. *)
Inductive producer := PTop | PWaiting | PReading (i : nat) (want : Z) | PExited.

#[export] Instance producer_eq_dec : EqDecision producer.
Proof. solve_decision. Defined.

(** Where the worker is in its loop: at its condition, asking for a block,
    waiting, sending a block, having sent some bytes, and in [stop_read_ahead]:
    at its start, joining, finished. *)
Inductive consumer := CTop | CAsk | CWaiting | CSending (i : nat) | CSent (count : Z) | CStopping | CJoining | CEnded.

(** [sm_pkg_read_ahead_t], [running] of the server, and of the worker its offset,
    [ok] and the bytes that went out. *)
Record read_ahead := RA {
  ra_blocks : list block; ra_offset : Z; ra_head : nat; ra_pending : nat; ra_stop : bool; ra_done : bool;
  ra_running : bool; ra_p : producer; ra_c : consumer; ra_sent_to : Z; ra_ok : bool; ra_out : list Z;
}.

Section pipeline.
(** What [pread] gives of the package, the range, and the size of a block. *)
Context (file : list Z) (start end_ chunk_size : Z).

Definition piece (a b : Z) : list Z := take (Z.to_nat (b - a)) (drop (Z.to_nat a) file).

Definition start_read_ahead : read_ahead :=
  RA [Garbage; Garbage] start 0 0 false false true PTop CTop start true [].

(** ** Updates *)
Definition set_p (p : producer) (s : read_ahead) : read_ahead :=
  RA (ra_blocks s) (ra_offset s) (ra_head s) (ra_pending s) (ra_stop s) (ra_done s) (ra_running s) p (ra_c s)
    (ra_sent_to s) (ra_ok s) (ra_out s).
Definition set_c (c : consumer) (s : read_ahead) : read_ahead :=
  RA (ra_blocks s) (ra_offset s) (ra_head s) (ra_pending s) (ra_stop s) (ra_done s) (ra_running s) (ra_p s) c
    (ra_sent_to s) (ra_ok s) (ra_out s).
Definition set_block (i : nat) (b : block) (s : read_ahead) : read_ahead :=
  RA (<[i:=b]> (ra_blocks s)) (ra_offset s) (ra_head s) (ra_pending s) (ra_stop s) (ra_done s) (ra_running s)
    (ra_p s) (ra_c s) (ra_sent_to s) (ra_ok s) (ra_out s).
(** [++pending] and [offset += size]. *)
Definition publish (n : Z) (s : read_ahead) : read_ahead :=
  RA (ra_blocks s) (ra_offset s + n) (ra_head s) (S (ra_pending s)) (ra_stop s) (ra_done s) (ra_running s)
    (ra_p s) (ra_c s) (ra_sent_to s) (ra_ok s) (ra_out s).
Definition set_done (s : read_ahead) : read_ahead :=
  RA (ra_blocks s) (ra_offset s) (ra_head s) (ra_pending s) (ra_stop s) true (ra_running s) (ra_p s) (ra_c s)
    (ra_sent_to s) (ra_ok s) (ra_out s).
Definition set_stop (s : read_ahead) : read_ahead :=
  RA (ra_blocks s) (ra_offset s) (ra_head s) (ra_pending s) true (ra_done s) (ra_running s) (ra_p s) (ra_c s)
    (ra_sent_to s) (ra_ok s) (ra_out s).
Definition stop_server (s : read_ahead) : read_ahead :=
  RA (ra_blocks s) (ra_offset s) (ra_head s) (ra_pending s) (ra_stop s) (ra_done s) false (ra_p s) (ra_c s)
    (ra_sent_to s) (ra_ok s) (ra_out s).
Definition set_failed (s : read_ahead) : read_ahead :=
  RA (ra_blocks s) (ra_offset s) (ra_head s) (ra_pending s) (ra_stop s) (ra_done s) (ra_running s) (ra_p s) (ra_c s)
    (ra_sent_to s) false (ra_out s).
Definition put_out (bytes : list Z) (s : read_ahead) : read_ahead :=
  RA (ra_blocks s) (ra_offset s) (ra_head s) (ra_pending s) (ra_stop s) (ra_done s) (ra_running s) (ra_p s) (ra_c s)
    (ra_sent_to s) (ra_ok s) (ra_out s ++ bytes).
(** [head = (head + 1) % 2; --pending; offset += count]. *)
Definition release (count : Z) (s : read_ahead) : read_ahead :=
  RA (ra_blocks s) (ra_offset s) ((ra_head s + 1) mod 2) (ra_pending s - 1) (ra_stop s) (ra_done s) (ra_running s)
    (ra_p s) (ra_c s) (ra_sent_to s + count) (ra_ok s) (ra_out s).

(** ** The condition variable *)
Definition wake_p (s : read_ahead) : read_ahead := match ra_p s with PWaiting => set_p PTop s | _ => s end.
Definition wake_c (s : read_ahead) : read_ahead := match ra_c s with CWaiting => set_c CAsk s | _ => s end.

(** [pthread_cond_broadcast], [pthread_cond_signal]: the latter wakes one of the
    threads that wait. *)
Definition broadcast (s : read_ahead) : read_ahead := wake_c (wake_p s).

Inductive signal (s : read_ahead) : read_ahead -> Prop :=
  | signal_p : ra_p s = PWaiting -> signal s (wake_p s)
  | signal_c : ra_c s = CWaiting -> signal s (wake_c s)
  | signal_none : ra_p s <> PWaiting -> ra_c s <> CWaiting -> signal s s.

(** ** The steps of [read_ahead_worker] *)
Definition may_read (s : read_ahead) : bool := negb (ra_stop s) && ra_running s && (ra_offset s <=? end_).

Inductive producer_step (s : read_ahead) : read_ahead -> Prop :=
  | p_exit : ra_p s = PTop -> may_read s = false ->
      producer_step s (broadcast (set_p PExited (set_done s)))
  | p_wait : ra_p s = PTop -> may_read s = true -> ra_pending s = 2%nat -> producer_step s (set_p PWaiting s)
  | p_begin : ra_p s = PTop -> may_read s = true -> ra_pending s <> 2%nat ->
      let i := ((ra_head s + ra_pending s) mod 2)%nat in
      let remaining := end_ - ra_offset s + 1 in
      producer_step s (set_p (PReading i (if remaining <? chunk_size then remaining else chunk_size))
                         (set_block i Garbage s))
  | p_read i want n s' : ra_p s = PReading i want -> 0 < n <= want ->
      Z.of_nat (length (piece (ra_offset s) (ra_offset s + n))) = n ->
      signal (set_p PTop (publish n (set_block i (Data (piece (ra_offset s) (ra_offset s + n))) s))) s' ->
      producer_step s s'
  | p_end i want s' : ra_p s = PReading i want ->
      signal (publish 0 (set_block i NoData s)) s' ->
      producer_step s (broadcast (set_p PExited (set_done s'))).

(** An interrupted read starts again. *)
Inductive interrupted_step (s : read_ahead) : read_ahead -> Prop :=
  | p_interrupted i want : ra_p s = PReading i want -> interrupted_step s (set_p PTop s).

(** ** The steps of the worker *)
Inductive consumer_step (s : read_ahead) : read_ahead -> Prop :=
  | c_continue : ra_c s = CTop -> ra_sent_to s <= end_ -> ra_running s = true -> consumer_step s (set_c CAsk s)
  | c_leave : ra_c s = CTop -> (end_ < ra_sent_to s \/ ra_running s = false) -> consumer_step s (set_c CStopping s)
  | c_wait : ra_c s = CAsk -> ra_pending s = 0%nat -> ra_done s = false -> consumer_step s (set_c CWaiting s)
  | c_over : ra_c s = CAsk -> ra_pending s = 0%nat -> ra_done s = true ->
      consumer_step s (set_c CStopping (set_failed s))
  | c_take : ra_c s = CAsk -> ra_pending s <> 0%nat -> consumer_step s (set_c (CSending (ra_head s)) s)
  | c_send i bytes : ra_c s = CSending i -> ra_blocks s !! i = Some (Data bytes) ->
      consumer_step s (set_c (CSent (Z.of_nat (length bytes))) (put_out bytes s))
  (* A block that is being written: anything may go out. *)
  | c_garbage i bytes : ra_c s = CSending i -> ra_blocks s !! i = Some Garbage ->
      consumer_step s (set_c (CSent (Z.of_nat (length bytes))) (put_out bytes s))
  (* [send_all] fails, or the block has no bytes; a part may have gone out. *)
  | c_fail i b n : ra_c s = CSending i -> ra_blocks s !! i = Some b ->
      consumer_step s (set_c CStopping (set_failed
        (put_out (match b with Data bytes => take n bytes | _ => [] end) s)))
  | c_release count s' : ra_c s = CSent count ->
      signal (release count s) s' -> consumer_step s (set_c CTop s')
  | c_stop : ra_c s = CStopping -> consumer_step s (set_c CJoining (broadcast (set_stop s)))
  | c_join : ra_c s = CJoining -> ra_p s = PExited -> consumer_step s (set_c CEnded s).

Definition thread_step (s s' : read_ahead) : Prop := producer_step s s' \/ consumer_step s s'.

Inductive reachable : read_ahead -> Prop :=
  | reach_start : reachable start_read_ahead
  | reach_thread s s' : reachable s -> thread_step s s' -> reachable s'
  | reach_interrupted s s' : reachable s -> interrupted_step s s' -> reachable s'
  | reach_stop s : reachable s -> reachable (stop_server s).

(** * The invariant *)

(** The queued blocks hold the bytes from [a] on, up to [b]; a block without
    bytes is the last one. *)
Fixpoint chain (a : Z) (q : list block) (b : Z) : Prop :=
  match q with
  | [] => a = b
  | Data bytes :: q' => bytes = piece a (a + Z.of_nat (length bytes)) /\ (0 < length bytes)%nat /\
      chain (a + Z.of_nat (length bytes)) q' b
  | NoData :: q' => q' = [] /\ a = b
  | Garbage :: _ => False
  end.

(** The blocks from [head] on, [pending] of them. *)
Definition queue (s : read_ahead) : list block :=
  omap (fun k => ra_blocks s !! ((ra_head s + k) mod 2)%nat) (seq 0 (ra_pending s)).

(** How far the bytes that went out reach. *)
Definition out_to (s : read_ahead) : Z := ra_sent_to s + match ra_c s with CSent n => n | _ => 0 end.

(** Of the data and the places of the threads. *)
Record core (s : read_ahead) : Prop := {
  in_blocks : length (ra_blocks s) = 2%nat;
  in_head : (ra_head s < 2)%nat;
  in_pending : (ra_pending s <= 2)%nat;
  in_chain : chain (ra_sent_to s) (queue s) (ra_offset s);
  in_offset : start <= ra_sent_to s <= ra_offset s /\ ra_offset s <= end_ + 1;
  in_last : NoData ∈ queue s -> ra_p s = PExited;
  in_reading : forall i want, ra_p s = PReading i want ->
    (ra_pending s < 2)%nat /\ i = ((ra_head s + ra_pending s) mod 2)%nat /\ want <= end_ - ra_offset s + 1;
  in_done : ra_done s = true <-> ra_p s = PExited;
  in_sending : forall i, ra_c s = CSending i -> i = ra_head s /\ (0 < ra_pending s)%nat;
  in_sent : forall n, ra_c s = CSent n -> exists bytes q, queue s = Data bytes :: q /\ n = Z.of_nat (length bytes);
  in_stop : ra_stop s = true <-> ra_c s = CJoining \/ ra_c s = CEnded;
  in_joined : ra_c s = CEnded -> ra_p s = PExited;
  in_ok : ra_ok s = true -> ra_out s = piece start (out_to s) /\
    match ra_c s with
    | CStopping | CJoining | CEnded => ra_sent_to s = end_ + 1 \/ ra_running s = false
    | _ => True
    end;
  in_failed : ra_ok s = false -> (exists b, b <= end_ + 1 /\ ra_out s = piece start b) /\
    (ra_c s = CStopping \/ ra_c s = CJoining \/ ra_c s = CEnded);
}.

(** A thread waits only while what it waits for has not happened. *)
Definition waits (s : read_ahead) : Prop :=
  (ra_p s = PWaiting -> ra_pending s = 2%nat /\ ra_stop s = false) /\
  (ra_c s = CWaiting -> ra_pending s = 0%nat /\ ra_done s = false).

Definition inv (s : read_ahead) : Prop := core s /\ waits s.

(** ** Pieces of the package *)
Lemma piece_nil a : piece a a = [].
Proof. unfold piece. by rewrite Z.sub_diag. Qed.

Lemma piece_app a b c : 0 <= a <= b -> b <= c -> piece a b ++ piece b c = piece a c.
Proof.
  intros Hab Hbc. unfold piece.
  replace (Z.to_nat (c - a)) with (Z.to_nat (b - a) + Z.to_nat (c - b))%nat by lia.
  replace (drop (Z.to_nat b) file) with (drop (Z.to_nat (b - a)) (drop (Z.to_nat a) file)); [by rewrite take_take_drop|].
  rewrite drop_drop. f_equal. lia.
Qed.

Lemma piece_take a b n : 0 <= a <= b -> exists c, c <= b /\ a <= c /\ take n (piece a b) = piece a c.
Proof.
  intros Hab. exists (Z.min b (a + Z.of_nat n)). split_and!; [lia|lia|]. unfold piece. rewrite take_take. f_equal. lia.
Qed.

(** ** The queue *)
Lemma queue_other (s s' : read_ahead) : ra_blocks s' = ra_blocks s -> ra_head s' = ra_head s ->
  ra_pending s' = ra_pending s -> queue s' = queue s.
Proof. unfold queue. by intros -> -> ->. Qed.

Ltac two_blocks s :=
  destruct s as [[|b0 [|b1 [|]]] ? [|[|]] [|[|[|]]] ? ? ? ? ? ? ? ?]; simpl in *; try lia; try done.

(** Writing into the block after the queue does not touch it; publishing adds it. *)
Lemma queue_write b s : length (ra_blocks s) = 2%nat -> (ra_head s < 2)%nat -> (ra_pending s < 2)%nat ->
  queue (set_block ((ra_head s + ra_pending s) mod 2)%nat b s) = queue s.
Proof. intros H1 H2 H3. two_blocks s. Qed.

Lemma queue_publish b n s : length (ra_blocks s) = 2%nat -> (ra_head s < 2)%nat -> (ra_pending s < 2)%nat ->
  queue (publish n (set_block ((ra_head s + ra_pending s) mod 2)%nat b s)) = queue s ++ [b].
Proof. intros H1 H2 H3. two_blocks s. Qed.

Lemma queue_release n s : length (ra_blocks s) = 2%nat -> (ra_head s < 2)%nat -> (0 < ra_pending s <= 2)%nat ->
  exists b, ra_blocks s !! ra_head s = Some b /\ queue s = b :: queue (release n s).
Proof. intros H1 H2 H3. two_blocks s; eexists; split; done. Qed.

Lemma chain_snoc a q b bytes : chain a q b -> NoData ∉ q -> (0 < length bytes)%nat ->
  bytes = piece b (b + Z.of_nat (length bytes)) -> chain a (q ++ [Data bytes]) (b + Z.of_nat (length bytes)).
Proof.
  intros Hc Hn Hl Hb. revert a Hc. induction q as [|x q IH]; intros a Hc; cbn [app chain] in *; [by subst|].
  apply not_elem_of_cons in Hn as [Hx Hn]. destruct x as [|d|]; [done| |done].
  destruct Hc as (H1 & H2 & H3). split_and!; [done|done|]. by apply IH.
Qed.

Lemma chain_end a q b : chain a q b -> NoData ∉ q -> chain a (q ++ [NoData]) b.
Proof.
  intros Hc Hn. revert a Hc. induction q as [|x q IH]; intros a Hc; cbn [app chain] in *; [by subst|].
  apply not_elem_of_cons in Hn as [Hx Hn]. destruct x as [|d|]; [done| |done].
  destruct Hc as (H1 & H2 & H3). split_and!; [done|done|]. by apply IH.
Qed.

(** ** Waking *)

(** Waking keeps everything but where the threads are. *)
Record woken (s s' : read_ahead) : Prop := {
  wk_same : ra_blocks s' = ra_blocks s /\ ra_head s' = ra_head s /\ ra_pending s' = ra_pending s /\
    ra_offset s' = ra_offset s /\ ra_stop s' = ra_stop s /\ ra_done s' = ra_done s /\ ra_running s' = ra_running s /\
    ra_sent_to s' = ra_sent_to s /\ ra_ok s' = ra_ok s /\ ra_out s' = ra_out s;
  wk_p : ra_p s' = ra_p s \/ ra_p s = PWaiting /\ ra_p s' = PTop;
  wk_c : ra_c s' = ra_c s \/ ra_c s = CWaiting /\ ra_c s' = CAsk;
}.

Lemma woken_p s : woken s (wake_p s).
Proof. unfold wake_p. destruct s as [? ? ? ? ? ? ? []]; split; simpl; tauto. Qed.

Lemma woken_c s : woken s (wake_c s).
Proof. unfold wake_c. destruct s as [? ? ? ? ? ? ? ? []]; split; simpl; tauto. Qed.

Lemma woken_trans s1 s2 s3 : woken s1 s2 -> woken s2 s3 -> woken s1 s3.
Proof.
  intros [(H1 & H2 & H3 & H4 & H5 & H6 & H7 & H8 & H9 & H10) Hp Hc]
    [(K1 & K2 & K3 & K4 & K5 & K6 & K7 & K8 & K9 & K10) Kp Kc]. split; [split_and!; congruence| |].
  - destruct Hp as [Hp|[Hp Hp']], Kp as [Kp|[Kp Kp']]; rewrite ?Kp, ?Kp', ?Hp, ?Hp' in *; tauto || congruence.
  - destruct Hc as [Hc|[Hc Hc']], Kc as [Kc|[Kc Kc']]; rewrite ?Kc, ?Kc', ?Hc, ?Hc' in *; tauto || congruence.
Qed.

Lemma woken_broadcast s : woken s (broadcast s).
Proof. eapply woken_trans; [apply woken_p|apply woken_c]. Qed.

Lemma woken_refl s : woken s s.
Proof. split; tauto. Qed.

Lemma woken_signal s s' : signal s s' -> woken s s'.
Proof. intros []; [apply woken_p|apply woken_c|apply woken_refl]. Qed.

(** The core survives waking. *)
Lemma core_woken s s' : woken s s' -> core s -> core s'.
Proof.
  intros [(H1 & H2 & H3 & H4 & H5 & H6 & H7 & H8 & H9 & H10) Hp Hc] [].
  assert (Hq : queue s' = queue s) by by apply queue_other.
  assert (Ho : out_to s' = out_to s).
  { unfold out_to. rewrite H8. destruct Hc as [->|[Hc1 ->]]; [done|by rewrite Hc1]. }
  split; rewrite ?Hq, ?Ho, ?H1, ?H2, ?H3, ?H4, ?H5, ?H6, ?H7, ?H8, ?H9, ?H10; try done.
  - intros Hn. specialize (in_last0 Hn). destruct Hp as [->|[Hp1 ->]]; congruence.
  - intros i want Hr. apply (in_reading0 i want). destruct Hp as [<-|[Hp1 Hp2]]; congruence.
  - rewrite in_done0. destruct Hp as [->|[Hp1 ->]]; [done|]. rewrite Hp1. split; congruence.
  - intros i Hw. apply in_sending0. destruct Hc as [<-|[Hc1 Hc2]]; congruence.
  - intros n Hw. apply in_sent0. destruct Hc as [<-|[Hc1 Hc2]]; congruence.
  - rewrite in_stop0. destruct Hc as [->|[Hc1 ->]]; [done|]. rewrite Hc1. split; intros [|]; congruence.
  - intros Hw. assert (ra_c s = CEnded) as He by (destruct Hc as [<-|[Hc1 Hc2]]; congruence).
    specialize (in_joined0 He). destruct Hp as [->|[Hp1 Hp2]]; congruence.
  - intros Hok. destruct (in_ok0 Hok) as [? Hm]. split; [done|]. destruct Hc as [->|[Hc1 ->]]; done.
  - intros Hok. destruct (in_failed0 Hok) as [? Hm]. split; [done|].
    destruct Hc as [->|[Hc1 ->]]; [done|]. rewrite Hc1 in Hm. by destruct Hm as [|[|]].
Qed.

(** A broadcast leaves nobody waiting; a signal does when only one thread can wait. *)
Lemma waits_broadcast s : waits (broadcast s).
Proof.
  unfold broadcast, wake_c, wake_p. destruct s as [? ? ? ? ? ? ? [] [] ? ? ?]; split; done.
Qed.

Lemma waits_signal_p s s' : ra_p s <> PWaiting -> signal s s' -> waits s'.
Proof.
  intros Hp []; [done| |].
  - unfold wake_c. destruct s as [? ? ? ? ? ? ? p [] ? ? ?]; split; simpl in *; done.
  - by split.
Qed.

Lemma waits_signal_c s s' : ra_c s <> CWaiting -> signal s s' -> waits s'.
Proof.
  intros Hc []; [|done|].
  - unfold wake_p. destruct s as [? ? ? ? ? ? ? [] c ? ? ?]; split; simpl in *; done.
  - by split.
Qed.

(** ** Every step keeps it *)
Context (Hstart : 0 <= start <= end_ + 1) (Hchunk : 0 < chunk_size).

Lemma inv_start : inv start_read_ahead.
Proof.
  split; [|by split]. split; simpl; try done; try lia.
  - by intros ?%not_elem_of_nil.
  - by split; [|intros [|]].
  - intros _. unfold out_to. simpl. by rewrite Z.add_0_r, piece_nil.
Qed.

(** The steps of the reading thread. *)
Lemma core_exit s : core s -> ra_p s = PTop -> core (set_p PExited (set_done s)).
Proof. intros [] Hp. split; simpl; try done; try tauto. Qed.

Lemma core_place s p : core s -> ra_p s <> PExited -> (forall i w, p <> PReading i w) -> p <> PExited -> core (set_p p s).
Proof.
  intros [] Hp Hr He. split; simpl; try done.
  - intros Hn. by specialize (in_last0 Hn).
  - intros i w ->. by destruct (Hr i w).
  - rewrite in_done0. tauto.
  - intros Hc. by specialize (in_joined0 Hc).
Qed.

Lemma no_last s : core s -> ra_p s <> PExited -> NoData ∉ queue s.
Proof. intros [] Hp Hn. by apply Hp, in_last0. Qed.

Lemma core_begin s : core s -> ra_p s = PTop -> may_read s = true -> ra_pending s <> 2%nat ->
  let i := ((ra_head s + ra_pending s) mod 2)%nat in let remaining := end_ - ra_offset s + 1 in
  core (set_p (PReading i (if remaining <? chunk_size then remaining else chunk_size)) (set_block i Garbage s)).
Proof.
  intros Hcore Hp Hm Hpend i remaining. pose proof (no_last s Hcore ltac:(congruence)) as Hn. destruct Hcore.
  assert (Hq : queue (set_block i Garbage s) = queue s) by (apply queue_write; [done|done|lia]).
  assert (Hq' : forall p, queue (set_p p (set_block i Garbage s)) = queue s).
  { intros p. rewrite <-Hq. by apply queue_other. }
  split; rewrite ?Hq'; simpl; try done.
  - by rewrite length_insert.
  - intros i' w' [= <- <-]. split_and!; [lia|done|]. destruct (Z.ltb_spec remaining chunk_size); unfold remaining in *; lia.
  - rewrite in_done0, Hp. done.
  - intros Hc. specialize (in_joined0 Hc). congruence.
Qed.

Lemma core_publish s i want n : core s -> ra_p s = PReading i want -> 0 < n <= want ->
  Z.of_nat (length (piece (ra_offset s) (ra_offset s + n))) = n ->
  core (set_p PTop (publish n (set_block i (Data (piece (ra_offset s) (ra_offset s + n))) s))).
Proof.
  intros Hcore Hp Hn Hlen. pose proof (no_last s Hcore ltac:(congruence)) as Hnl. destruct Hcore.
  destruct (in_reading0 i want Hp) as (Hpend & -> & Hwant).
  set (d := piece (ra_offset s) (ra_offset s + n)) in *.
  assert (Hq : forall p, queue (set_p p (publish n (set_block ((ra_head s + ra_pending s) mod 2)%nat (Data d) s))) =
    queue s ++ [Data d]).
  { intros p. rewrite <-(queue_publish (Data d) n s) by done. by apply queue_other. }
  split; rewrite ?Hq; simpl; try done; try lia.
  - by rewrite length_insert.
  - rewrite <-Hlen. apply chain_snoc; [done|done|lia|by rewrite Hlen].
  - rewrite elem_of_app, list_elem_of_singleton. intros [?|?]; done.
  - rewrite in_done0, Hp. done.
  - intros j Hc. destruct (in_sending0 j Hc). split; [done|lia].
  - intros m Hc. destruct (in_sent0 m Hc) as (bytes & q & Hbq & Hm). exists bytes, (q ++ [Data d]). by rewrite Hbq.
  - intros Hc. specialize (in_joined0 Hc). congruence.
Qed.

Lemma core_no_data s i want : core s -> ra_p s = PReading i want ->
  core (set_p PExited (set_done (publish 0 (set_block i NoData s)))).
Proof.
  intros Hcore Hp. pose proof (no_last s Hcore ltac:(congruence)) as Hnl. destruct Hcore.
  destruct (in_reading0 i want Hp) as (Hpend & -> & Hwant).
  assert (Hq : queue (set_p PExited (set_done (publish 0 (set_block ((ra_head s + ra_pending s) mod 2)%nat NoData s)))) =
    queue s ++ [NoData]).
  { rewrite <-(queue_publish NoData 0 s) by done. by apply queue_other. }
  split; rewrite ?Hq; simpl; rewrite ?Z.add_0_r; try done; try lia.
  - by rewrite length_insert.
  - by apply chain_end.
  - intros j Hc. destruct (in_sending0 j Hc). split; [done|lia].
  - intros m Hc. destruct (in_sent0 m Hc) as (bytes & q & Hbq & Hm). exists bytes, (q ++ [NoData]). by rewrite Hbq.
Qed.

Lemma woken_exit s s' : woken s s' -> woken (set_p PExited (set_done s)) (set_p PExited (set_done s')).
Proof.
  intros [(H1 & H2 & H3 & H4 & H5 & H6 & H7 & H8 & H9 & H10) Hp Hc].
  split; simpl; [by split_and!|by left|done].
Qed.

Lemma inv_producer s s' : inv s -> producer_step s s' -> inv s'.
Proof.
  intros [Hcore [Hwp Hwc]] Hstep. destruct Hstep as [Hp Hm|Hp Hm Hpend|Hp Hm Hpend|i want n s' Hp Hn Hl Hs|i want s' Hp Hs].
  - split; [|apply waits_broadcast]. eapply core_woken; [apply woken_broadcast|]. by apply core_exit.
  - split; [apply core_place; [done|by rewrite Hp|done|done]|]. split; simpl; [|done]. intros _. split; [done|].
    unfold may_read in Hm. by bool_hyps.
  - split; [by apply core_begin|]. split; simpl; done.
  - split; [|eapply waits_signal_p; [|exact Hs]; done]. eapply core_woken; [by apply woken_signal|]. by eapply core_publish.
  - split; [|apply waits_broadcast]. eapply core_woken; [apply woken_broadcast|].
    eapply core_woken; [apply woken_exit, woken_signal; exact Hs|]. by eapply core_no_data.
Qed.

Lemma inv_interrupted s s' : inv s -> interrupted_step s s' -> inv s'.
Proof.
  intros [Hcore [Hwp Hwc]] [i want Hp]. split; [apply core_place; [done|by rewrite Hp|done|done]|]. by split.
Qed.

Lemma inv_stopped s : inv s -> inv (stop_server s).
Proof.
  intros [[] [Hwp Hwc]]. split; [|by split]. split; simpl; try done.
  intros Hok. destruct (in_ok0 Hok) as [? Hm]. split; [done|]. destruct (ra_c s); tauto.
Qed.

(** The steps of the worker. *)

(** Moving the worker between places where nothing has gone out of the block. *)
Lemma core_move s c : core s -> (forall n, ra_c s <> CSent n) -> (forall n, c <> CSent n) ->
  (forall i, c = CSending i -> i = ra_head s /\ (0 < ra_pending s)%nat) ->
  ra_stop s = false -> c <> CJoining -> c <> CEnded ->
  (c = CStopping -> ra_ok s = true -> ra_sent_to s = end_ + 1 \/ ra_running s = false) ->
  (ra_ok s = false -> c = CStopping) -> core (set_c c s).
Proof.
  intros [] Hs Hs' Hi Hst Hj He Hok Hf.
  assert (Ho : out_to (set_c c s) = out_to s).
  { unfold out_to. simpl. destruct c; try (by destruct (Hs' count)); destruct (ra_c s) eqn:Hc; try done; by destruct (Hs count). }
  split; rewrite ?Ho; simpl; try done.
  - intros n ->. by destruct (Hs' n).
  - rewrite Hst. split; [done|]. intros [|]; congruence.
  - intros H. destruct (in_ok0 H) as [? _]. split; [done|]. destruct c; try done. by apply Hok.
  - intros H. destruct (in_failed0 H) as [? _]. split; [done|]. left. by apply Hf.
Qed.

Lemma not_stopped s : core s -> ra_c s <> CJoining -> ra_c s <> CEnded -> ra_stop s = false.
Proof. intros [] Hj He. destruct (ra_stop s); [|done]. by destruct (proj1 in_stop0 eq_refl). Qed.

Lemma still_ok s : core s -> (ra_c s <> CStopping /\ ra_c s <> CJoining /\ ra_c s <> CEnded) -> ra_ok s = true.
Proof. intros [] (H1 & H2 & H3). destruct (ra_ok s); [done|]. by destruct (in_failed0 eq_refl) as [_ [|[|]]]. Qed.

(** The worker stops with a failure; of the block it was at a part may be out. *)
Lemma core_fail s out b : core s -> (forall n, ra_c s <> CSent n) -> ra_c s <> CStopping -> ra_c s <> CJoining ->
  ra_c s <> CEnded -> b <= end_ + 1 -> ra_out s ++ out = piece start b ->
  core (set_c CStopping (set_failed (put_out out s))).
Proof.
  intros Hcore Hs H1 H2 H3 Hb Hout. pose proof (not_stopped s Hcore H2 H3) as Hst. destruct Hcore.
  split; simpl; try done.
  - rewrite Hst. split; [done|]. intros [|]; done.
  - intros _. split; [by exists b|by left].
Qed.

(** The block the worker is at. *)
Lemma front_block s : core s -> (0 < ra_pending s)%nat ->
  exists b, ra_blocks s !! ra_head s = Some b /\ forall n, queue s = b :: queue (release n s).
Proof.
  intros [] Hp. destruct (queue_release 0 s) as (b & Hb & Hq); [done|done|lia|]. exists b. split; [done|]. intros n.
  rewrite Hq. f_equal.
Qed.

Lemma chain_bound a q b : chain a q b -> a <= b.
Proof.
  revert a. induction q as [|[|d|] q IH]; intros a; cbn [chain]; [lia|done| |lia].
  intros (_ & Hl & H). apply IH in H. lia.
Qed.

Lemma core_send s i bytes : core s -> ra_c s = CSending i -> ra_blocks s !! i = Some (Data bytes) ->
  core (set_c (CSent (Z.of_nat (length bytes))) (put_out bytes s)).
Proof.
  intros Hcore Hc Hb. pose proof (still_ok s Hcore ltac:(rewrite Hc; done)) as Hok.
  pose proof (not_stopped s Hcore ltac:(congruence) ltac:(congruence)) as Hst.
  destruct (in_sending _ Hcore i Hc) as [-> Hp]. destruct (front_block s Hcore Hp) as (b & Hb' & Hq).
  rewrite Hb in Hb'. injection Hb' as <-. destruct Hcore.
  rewrite (Hq 0) in in_chain0. cbn [chain] in in_chain0. destruct in_chain0 as (Hd & Hl & Hrest).
  assert (Hq' : queue (set_c (CSent (Z.of_nat (length bytes))) (put_out bytes s)) = queue s) by by apply queue_other.
  destruct (in_ok0 Hok) as [Hout _]. unfold out_to in Hout. rewrite Hc, Z.add_0_r in Hout.
  split; rewrite ?Hq'; simpl; try done; try (by rewrite Hok).
  - rewrite (Hq 0). by cbn [chain].
  - intros n [= <-]. by exists bytes, (queue (release 0 s)).
  - rewrite Hst. split; [done|]. intros [|]; done.
  - intros _. split; [|done]. unfold out_to. simpl. rewrite Hout.
    rewrite <-(piece_app start (ra_sent_to s) (ra_sent_to s + Z.of_nat (length bytes))) by lia. f_equal. exact Hd.
Qed.

Lemma core_release s count : core s -> ra_c s = CSent count -> core (set_c CTop (release count s)).
Proof.
  intros Hcore Hc. pose proof (still_ok s Hcore ltac:(rewrite Hc; done)) as Hok.
  pose proof (not_stopped s Hcore ltac:(congruence) ltac:(congruence)) as Hst.
  destruct (in_sent _ Hcore count Hc) as (bytes & q & Hq & ->).
  assert (Hp : (0 < ra_pending s)%nat). { destruct (ra_pending s) eqn:E; [|lia]. unfold queue in Hq. by rewrite E in Hq. }
  destruct (front_block s Hcore Hp) as (b & _ & Hq'). specialize (Hq' (Z.of_nat (length bytes))).
  rewrite Hq in Hq'. injection Hq' as <- Hq'. destruct Hcore.
  assert (Hqc : queue (set_c CTop (release (Z.of_nat (length bytes)) s)) = q) by (rewrite Hq'; by apply queue_other).
  rewrite Hq in in_chain0. cbn [chain] in in_chain0. destruct in_chain0 as (Hd & Hl & Hrest).
  pose proof (chain_bound _ _ _ Hrest).
  split; rewrite ?Hqc; simpl; try done; try lia.
  - intros Hn. apply in_last0. rewrite Hq. by right.
  - intros i w Hr. destruct (in_reading0 i w Hr) as (H1 & -> & H3). split_and!; [lia| |lia].
    destruct (ra_pending s) as [|[|]], (ra_head s) as [|[|]]; try lia; done.
  - rewrite Hst. split; [done|]. intros [|]; done.
  - intros _. destruct (in_ok0 Hok) as [Hout _]. split; [|done]. unfold out_to in *. rewrite Hc in Hout. simpl.
    by rewrite Z.add_0_r.
  - congruence.
Qed.

Lemma woken_place s s' c : woken s s' -> woken (set_c c s) (set_c c s').
Proof.
  intros [(H1 & H2 & H3 & H4 & H5 & H6 & H7 & H8 & H9 & H10) Hp Hc].
  split; simpl; [by split_and!|done|by left].
Qed.

Lemma waits_place s c : waits s -> c <> CWaiting -> waits (set_c c s).
Proof. intros [Hp _] Hc. by split. Qed.

Lemma core_stop s : core s -> ra_c s = CStopping -> core (set_c CJoining (set_stop s)).
Proof.
  intros [] Hc.
  assert (Ho : out_to (set_c CJoining (set_stop s)) = out_to s) by (unfold out_to; simpl; by rewrite Hc).
  split; rewrite ?Ho; simpl; try done.
  - split; [by left|done].
  - intros H. destruct (in_ok0 H) as [? Hm]. by rewrite Hc in Hm.
  - intros H. destruct (in_failed0 H) as [? _]. split; [done|]. right. by left.
Qed.

Lemma core_join s : core s -> ra_c s = CJoining -> ra_p s = PExited -> core (set_c CEnded s).
Proof.
  intros [] Hc Hp.
  assert (Ho : out_to (set_c CEnded s) = out_to s) by (unfold out_to; simpl; by rewrite Hc).
  split; rewrite ?Ho; simpl; try done.
  - rewrite in_stop0. split; [by right|by left].
  - intros H. destruct (in_ok0 H) as [? Hm]. by rewrite Hc in Hm.
  - intros H. destruct (in_failed0 H) as [? _]. split; [done|]. by right; right.
Qed.

(** No byte of a block that is being written goes out. *)
Lemma no_garbage s i : core s -> ra_c s = CSending i -> ra_blocks s !! i <> Some Garbage.
Proof.
  intros Hcore Hc Hb. destruct (in_sending _ Hcore i Hc) as [-> Hp]. destruct (front_block s Hcore Hp) as (b & Hb' & Hq).
  rewrite Hb in Hb'. injection Hb' as <-. pose proof (in_chain _ Hcore) as Hch. rewrite (Hq 0) in Hch. done.
Qed.

Lemma sending_failed s i b n : core s -> ra_c s = CSending i -> ra_blocks s !! i = Some b ->
  core (set_c CStopping (set_failed (put_out (match b with Data bytes => take n bytes | _ => [] end) s))).
Proof.
  intros Hcore Hc Hb. pose proof (still_ok s Hcore ltac:(rewrite Hc; done)) as Hok.
  destruct (in_sending _ Hcore i Hc) as [-> Hp]. destruct (front_block s Hcore Hp) as (b' & Hb' & Hq).
  rewrite Hb in Hb'. injection Hb' as <-. pose proof (in_chain _ Hcore) as Hch. rewrite (Hq 0) in Hch.
  destruct (in_ok _ Hcore Hok) as [Hout _]. unfold out_to in Hout. rewrite Hc, Z.add_0_r in Hout.
  destruct (in_offset _ Hcore) as [Ho1 Ho2].
  assert (Hcut : exists c, c <= end_ + 1 /\
    ra_out s ++ (match b with Data bytes => take n bytes | _ => [] end) = piece start c).
  { destruct b as [|bytes|]; [done| |].
    - cbn [chain] in Hch. destruct Hch as (Hd & Hl & Hrest). apply chain_bound in Hrest.
      rewrite Hd. destruct (piece_take (ra_sent_to s) (ra_sent_to s + Z.of_nat (length bytes)) n) as (c & H1 & H2 & ->);
        [lia|]. exists c. split; [lia|]. rewrite Hout. apply piece_app; lia.
    - exists (ra_sent_to s). split; [lia|]. by rewrite app_nil_r. }
  destruct Hcut as (c & Hc1 & Hc2). by apply (core_fail s _ c); rewrite ?Hc.
Qed.

Lemma inv_consumer s s' : inv s -> consumer_step s s' -> inv s'.
Proof.
  intros [Hcore Hw] Hstep. destruct (in_offset _ Hcore) as [Ho1 Ho2].
  destruct Hstep as [Hc Hle Hrun|Hc Hle|Hc Hp Hd|Hc Hp Hd|Hc Hp|i bytes Hc Hb|i bytes Hc Hb|i b n Hc Hb|count s' Hc Hs|Hc|Hc Hp].
  - pose proof (still_ok s Hcore ltac:(rewrite Hc; done)). pose proof (not_stopped s Hcore ltac:(congruence) ltac:(congruence)).
    split; [|by apply waits_place]. apply core_move; try done; congruence.
  - pose proof (still_ok s Hcore ltac:(rewrite Hc; done)). pose proof (not_stopped s Hcore ltac:(congruence) ltac:(congruence)).
    split; [|by apply waits_place]. apply core_move; try done; try congruence.
    intros _ _. destruct Hle as [Hle|Hle]; [left; lia|by right].
  - pose proof (still_ok s Hcore ltac:(rewrite Hc; done)). pose proof (not_stopped s Hcore ltac:(congruence) ltac:(congruence)).
    split; [apply core_move; try done; congruence|]. destruct Hw as [Hwp _]. by split.
  - pose proof (still_ok s Hcore ltac:(rewrite Hc; done)) as Hok.
    destruct (in_ok _ Hcore Hok) as [Hout _]. unfold out_to in Hout. rewrite Hc, Z.add_0_r in Hout.
    split; [|by apply (waits_place (set_failed s))].
    replace (set_failed s) with (set_failed (put_out [] s)) by (destruct s; unfold set_failed, put_out; simpl; by rewrite app_nil_r).
    apply (core_fail s [] (ra_sent_to s)); rewrite ?Hc; try done; [lia|by rewrite app_nil_r].
  - pose proof (still_ok s Hcore ltac:(rewrite Hc; done)). pose proof (not_stopped s Hcore ltac:(congruence) ltac:(congruence)).
    split; [|by apply waits_place]. apply core_move; try done; try congruence. intros i [= <-]. split; [done|lia].
  - split; [by eapply core_send|]. by apply (waits_place (put_out bytes s)).
  - by destruct (no_garbage s i Hcore Hc).
  - split; [by eapply sending_failed|]. apply waits_place; [|done]. exact Hw.
  - pose proof (woken_signal _ _ Hs) as Hwk. split.
    + eapply core_woken; [apply woken_place; exact Hwk|]. by apply core_release.
    + apply waits_place; [|done]. eapply waits_signal_c; [|exact Hs]. simpl. by rewrite Hc.
  - split; [|apply waits_place; [apply waits_broadcast|done]].
    eapply core_woken; [apply woken_place, woken_broadcast|]. by apply core_stop.
  - split; [by apply core_join|]. by apply waits_place.
Qed.

Lemma reachable_inv s : reachable s -> inv s.
Proof.
  induction 1 as [|s s' _ IH [Hs|Hs]|s s' _ IH Hs|s _ IH]; [apply inv_start|by eapply inv_producer|by eapply inv_consumer|
    by eapply inv_interrupted|by apply inv_stopped].
Qed.

(** * Progress *)

(** Unless the worker is done, some thread can go on. *)
Lemma can_step s : inv s -> ra_c s <> CEnded -> exists s', thread_step s s'.
Proof.
  intros [Hcore [Hwp Hwc]] Hne.
  assert (Hsig : forall x, exists y, signal x y).
  { intros x. destruct (ra_p x) eqn:Hp; try (destruct (ra_c x) eqn:Hc;
      try (eexists; apply signal_none; congruence); eexists; by apply signal_c). eexists. by apply signal_p. }
  assert (Hprod : ra_p s <> PExited -> ra_p s <> PWaiting -> exists s', thread_step s s').
  { intros H1 H2. destruct (ra_p s) as [| |i want|] eqn:Hp; try done.
    - destruct (may_read s) eqn:Hm; [|eexists; left; by apply p_exit].
      destruct (decide (ra_pending s = 2%nat)); eexists; left; [by apply p_wait|by apply p_begin].
    - destruct (Hsig (publish 0 (set_block i NoData s))) as [y Hy]. eexists. left. by eapply p_end. }
  destruct (ra_c s) as [| | |i|n| | |] eqn:Hc; [..|done].
  - destruct (decide (ra_sent_to s <= end_)); [destruct (ra_running s) eqn:Hr|]; eexists; right;
      [by apply c_continue|apply c_leave; [done|by right]|apply c_leave; [done|left; lia]].
  - destruct (decide (ra_pending s = 0%nat)); [destruct (ra_done s) eqn:Hd|]; eexists; right;
      [by apply c_over|by apply c_wait|by apply c_take].
  - destruct (Hwc eq_refl) as [Hp Hd]. apply Hprod.
    + intros He. apply (in_done _ Hcore) in He. congruence.
    + intros He. destruct (Hwp He). lia.
  - destruct (in_sending _ Hcore i Hc) as [-> Hp]. destruct (front_block s Hcore Hp) as (b & Hb & _).
    eexists. right. by apply (c_fail s (ra_head s) b 0).
  - destruct (Hsig (release n s)) as [y Hy]. eexists. right. by eapply c_release.
  - eexists. right. by apply c_stop.
  - destruct (decide (ra_p s = PExited)); [eexists; right; by apply c_join|]. apply Hprod; [done|].
    intros He. destruct (Hwp He) as [_ Hst].
    assert (ra_stop s = true) by (apply (in_stop _ Hcore); by left). congruence.
Qed.

(** Every step that is not an interrupted read uses up some of this. *)
Definition place_p (s : read_ahead) : nat :=
  match ra_p s with PTop => 3 | PWaiting => 2 | PReading _ _ => 2 | PExited => 0 end.

Definition place_c (s : read_ahead) : nat :=
  match ra_c s with
  | CTop => 6 | CAsk => 5 | CWaiting => 4 | CSending _ => 4 | CSent _ => 2 | CStopping => 3 | CJoining => 1 | CEnded => 0
  end.

Definition to_read (s : read_ahead) : nat :=
  match ra_p s with PExited => 0 | _ => S (Z.to_nat (end_ + 1 - ra_offset s)) end.

Definition work (s : read_ahead) : nat := (16 * to_read s + 6 * ra_pending s + place_p s + place_c s)%nat.

Lemma woken_work s s' : woken s s' -> (work s' <= work s + 2)%nat /\
  (ra_p s <> PWaiting \/ ra_c s <> CWaiting -> (work s' <= work s + 1)%nat).
Proof.
  intros [(H1 & H2 & H3 & H4 & H5 & H6 & H7 & H8 & H9 & H10) Hp Hc]. unfold work, to_read, place_p, place_c.
  rewrite H3, H4. destruct Hp as [->|[Hp ->]], Hc as [->|[Hc ->]]; rewrite ?Hp, ?Hc; split; try lia. intros [|]; done.
Qed.

Lemma step_works s s' : inv s -> thread_step s s' -> (work s' < work s)%nat.
Proof.
  intros [Hcore [Hwp Hwc]] [Hstep|Hstep].
  - destruct Hstep as [Hp Hm|Hp Hm Hpend|Hp Hm Hpend|i want n s' Hp Hn Hl Hs|i want s' Hp Hs].
    + destruct (woken_work _ _ (woken_broadcast (set_p PExited (set_done s)))) as [_ Hb].
      specialize (Hb ltac:(left; done)). revert Hb. unfold work, to_read, place_p, place_c. simpl. rewrite Hp. lia.
    + unfold work, to_read, place_p, place_c. simpl. rewrite Hp. lia.
    + unfold work, to_read, place_p, place_c. simpl. rewrite Hp. lia.
    + destruct (woken_work _ _ (woken_signal _ _ Hs)) as [_ Hb]. specialize (Hb ltac:(left; done)).
      destruct (in_reading _ Hcore i want Hp) as (_ & _ & Hw). revert Hb.
      unfold work, to_read, place_p, place_c. simpl. rewrite Hp. lia.
    + destruct (woken_work _ _ (woken_broadcast (set_p PExited (set_done s')))) as [_ Hb].
      specialize (Hb ltac:(left; done)).
      destruct (woken_work _ _ (woken_exit _ _ (woken_signal _ _ Hs))) as [_ Hb'].
      specialize (Hb' ltac:(left; done)). revert Hb Hb'. unfold work, to_read, place_p, place_c. simpl. rewrite Hp. lia.
  - destruct Hstep as [Hc Hle Hrun|Hc Hle|Hc Hp Hd|Hc Hp Hd|Hc Hp|i bytes Hc Hb|i bytes Hc Hb|i b n Hc Hb|count s' Hc Hs|Hc|Hc Hp];
      try (unfold work, to_read, place_p, place_c; simpl; rewrite Hc; lia).
    + destruct (woken_work _ _ (woken_place _ _ CTop (woken_signal _ _ Hs))) as [_ Hb].
      specialize (Hb ltac:(right; done)).
      destruct (in_sent _ Hcore count Hc) as (bytes & q & Hq & _).
      assert (Hp : (0 < ra_pending s)%nat). { destruct (ra_pending s) eqn:E; [|lia]. unfold queue in Hq. by rewrite E in Hq. }
      revert Hb. unfold work, to_read, place_p, place_c. simpl. rewrite Hc. lia.
    + destruct (woken_work _ _ (woken_place _ _ CJoining (woken_broadcast (set_stop s)))) as [_ Hb].
      specialize (Hb ltac:(right; done)). revert Hb. unfold work, to_read, place_p, place_c. simpl. rewrite Hc. lia.
Qed.

(** A history: how many steps the threads took, and how many reads were
    interrupted. *)
Inductive history : nat -> nat -> read_ahead -> Prop :=
  | history_start : history 0 0 start_read_ahead
  | history_thread n k s s' : history n k s -> thread_step s s' -> history (S n) k s'
  | history_interrupted n k s s' : history n k s -> interrupted_step s s' -> history n (S k) s'
  | history_stop n k s : history n k s -> history n k (stop_server s).

Lemma history_reachable n k s : history n k s -> reachable s.
Proof. induction 1; [apply reach_start|by eapply reach_thread; [|]|by eapply reach_interrupted|by apply reach_stop]. Qed.

Lemma history_work n k s : history n k s -> (n + work s <= work start_read_ahead + k)%nat.
Proof.
  induction 1 as [|n k s s' Hh IH Hs|n k s s' Hh IH Hs|n k s Hh IH]; [lia| | |done].
  - pose proof (step_works s s' (reachable_inv s (history_reachable _ _ _ Hh)) Hs). lia.
  - destruct Hs as [i want Hp]. revert IH. unfold work, to_read, place_p, place_c. simpl. rewrite Hp. lia.
Qed.

(** * Theorems *)

(** under every interleaving of the reading thread and the worker, and
    with reads of any length, interrupted or failing, what goes out on the
    connection is the package's bytes from the start of the range on, never a
    block that is still being written; when the transfer ends without an error,
    the whole range has gone out, unless the server was stopped. *)
Theorem read_ahead_sends_range s : reachable s ->
  (exists b, b <= end_ + 1 /\ ra_out s = piece start b) /\
  (ra_c s = CEnded -> ra_ok s = true -> ra_running s = true -> ra_out s = piece start (end_ + 1)).
Proof.
  intros Hr. destruct (reachable_inv s Hr) as [Hcore _]. destruct (in_offset _ Hcore) as [Ho1 Ho2].
  destruct (ra_ok s) eqn:Hok.
  - destruct (in_ok _ Hcore Hok) as [Hout Hend]. split.
    + exists (out_to s). split; [|done]. unfold out_to. destruct (ra_c s) eqn:Hc; try lia.
      destruct (in_sent _ Hcore count Hc) as (bytes & q & Hq & ->). pose proof (in_chain _ Hcore) as Hch.
      rewrite Hq in Hch. cbn [chain] in Hch. destruct Hch as (_ & _ & Hch%chain_bound). lia.
    + intros Hc _ Hrun. rewrite Hc in Hend. destruct Hend as [Hend|]; [|congruence].
      rewrite Hout. unfold out_to. by rewrite Hc, Z.add_0_r, Hend.
  - destruct (in_failed _ Hcore Hok) as [Hout _]. by split.
Qed.

(** Claim C37: the two threads never wait for each other for ever: as long as the
    worker is not done some thread can take a step (no wake-up is lost, also when
    the server stops or a read or the connection fails), and the steps are bounded
    by the length of the range and the number of interrupted reads; so every
    transfer ends, with the reading thread joined. *)
Theorem read_ahead_ends n k s : history n k s ->
  (n <= 16 * (Z.to_nat (end_ + 1 - start) + 1) + 9 + k)%nat /\
  (ra_c s <> CEnded -> exists s', thread_step s s') /\ (ra_c s = CEnded -> ra_p s = PExited).
Proof.
  intros Hh. pose proof (history_work n k s Hh) as Hw. pose proof (reachable_inv s (history_reachable _ _ _ Hh)) as Hinv.
  split_and!; [|by apply can_step|apply Hinv]. unfold work at 2 in Hw. unfold to_read, place_p, place_c in Hw. simpl in Hw. lia.
Qed.
End pipeline.

(** ** A transfer of four bytes in two blocks *)
Definition four_bytes : list Z := [10; 20; 30; 40].

Definition sent_all : read_ahead :=
  RA [Data [10; 20]; Data [30; 40]] 4 0 0 true true true PExited CEnded 4 true [10; 20; 30; 40].

Ltac goes H step :=
  match type of H with
  | history ?f ?a ?e ?c ?n ?k ?s =>
      let H' := fresh "H" in
      eassert (H' : history f a e c (S n) k _) by (eapply history_thread; [exact H|step]);
      vm_compute in H'; clear H; rename H' into H
  end.

Lemma transfer_history : history four_bytes 0 3 2 16 0 sent_all.
Proof.
  pose proof (history_start four_bytes 0 3 2) as H. unfold start_read_ahead in H.
  goes H ltac:(left; apply p_begin; [reflexivity|reflexivity|discriminate]).
  goes H ltac:(left; eapply (p_read _ _ _ _ _ _ 2); [reflexivity|vm_compute; split; [reflexivity|discriminate]|reflexivity|apply signal_none; discriminate]).
  goes H ltac:(left; apply p_begin; [reflexivity|reflexivity|discriminate]).
  goes H ltac:(left; eapply (p_read _ _ _ _ _ _ 2); [reflexivity|vm_compute; split; [reflexivity|discriminate]|reflexivity|apply signal_none; discriminate]).
  goes H ltac:(left; apply p_exit; reflexivity).
  goes H ltac:(right; apply c_continue; [reflexivity|simpl; lia|reflexivity]).
  goes H ltac:(right; apply c_take; [reflexivity|discriminate]).
  goes H ltac:(right; eapply c_send; reflexivity).
  goes H ltac:(right; eapply c_release; [reflexivity|apply signal_none; discriminate]).
  goes H ltac:(right; apply c_continue; [reflexivity|simpl; lia|reflexivity]).
  goes H ltac:(right; apply c_take; [reflexivity|discriminate]).
  goes H ltac:(right; eapply c_send; reflexivity).
  goes H ltac:(right; eapply c_release; [reflexivity|apply signal_none; discriminate]).
  goes H ltac:(right; apply c_leave; [reflexivity|left; simpl; lia]).
  goes H ltac:(right; apply c_stop; reflexivity).
  goes H ltac:(right; apply c_join; reflexivity).
  exact H.
Qed.

Lemma read_ahead_sends_range_witness :
  ra_out sent_all = four_bytes /\
  (exists b, b <= 3 + 1 /\ ra_out sent_all = piece four_bytes 0 b) /\
  (ra_c sent_all = CEnded -> ra_ok sent_all = true -> ra_running sent_all = true ->
   ra_out sent_all = piece four_bytes 0 (3 + 1)).
Proof.
  split; [reflexivity|]. apply (read_ahead_sends_range four_bytes 0 3 2); [lia|].
  eapply history_reachable, transfer_history.
Defined.

Lemma read_ahead_ends_witness :
  (16 <= 16 * (Z.to_nat (3 + 1 - 0) + 1) + 9 + 0)%nat /\
  (ra_c sent_all <> CEnded -> exists s', thread_step four_bytes 3 2 sent_all s') /\
  (ra_c sent_all = CEnded -> ra_p sent_all = PExited).
Proof.
  apply (read_ahead_ends four_bytes 0 3 2 ltac:(lia) 16 0 sent_all transfer_history).
Defined.
