(* ===== verification/PkgServer.v ===== *)
(** * The package server (src/sm_pkg_server.c, third part)

    The parts of the package that were sent (the table of intervals), the answer
    to a request, and a connection's transfer of a range without reading ahead
    (PkgReadAhead.v has the other one).

    The clock, log lines and transfer statistics are not represented; a server's
    configuration does not change after its start. *)
From S2P Require Import Prelude CString Bytes GameInfo IniFile ConfigState PkgHttp PkgHeader PkgStream.
From stdpp Require Import list.
Open Scope Z_scope.
Open Scope c_scope.

Definition SM_PKG_SERVER_COVERAGE_MAX : nat := 256.
Definition SM_PKG_SERVER_SEND_CHUNK : Z := 2 * 1024 * 1024.
Definition SM_PKG_SERVER_SMB_CHUNK : Z := 4 * 1024 * 1024.

(** ** The intervals sent *)
Definition interval : Type := Z * Z.

(** The first loop of [add_coverage_locked]: the intervals wholly before [start]. *)
Fixpoint before_start (start : Z) (l : list interval) : list interval * list interval :=
  match l with
  | (a, b) :: l' => if b + 1 <? start then let '(x, y) := before_start start l' in ((a, b) :: x, y) else ([], l)
  | [] => ([], [])
  end.

(** The second: the intervals that touch the new one are absorbed. *)
Fixpoint absorb (start end_ : Z) (l : list interval) : Z * Z * list interval :=
  match l with
  | (a, b) :: l' =>
      if a <=? end_ + 1 then absorb (if a <? start then a else start) (if end_ <? b then b else end_) l'
      else (start, end_, l)
  | [] => (start, end_, [])
  end.

Definition add_coverage_locked (start end_ : Z) (l : list interval) : list interval :=
  if end_ <? start then l
  else
    let '(before, rest) := before_start start l in
    let '(start', end', after) := absorb start end_ rest in
    if (length after <? length rest)%nat then before ++ (start', end') :: after
    else if (SM_PKG_SERVER_COVERAGE_MAX <=? length l)%nat then l
    else before ++ (start', end') :: after.

Definition covered_bytes_locked (l : list interval) : Z := foldr (fun i total => i.2 - i.1 + 1 + total) 0 l.

Definition complete_locked (total : Z) (l : list interval) : bool :=
  (total =? 0) || match l with [(a, b)] => (a =? 0) && (b =? total - 1) | _ => false end.

(** ** The server *)

(** Where the package comes from: an opened file, or a reader. *)
Inductive source_kind := FromFile (remote : bool) | FromReader (stream : bool).

Record sm_pkg_server := Server {
  sv_source : source_kind; sv_total : Z; sv_directory : text; sv_attempt : text; sv_basename : text;
  sv_browser : bool; sv_intervals : list interval;
}.

(** [sm_pkg_server_bytes_served], [sm_pkg_server_complete]. *)
Definition sm_pkg_server_bytes_served (s : sm_pkg_server) : Z := covered_bytes_locked (sv_intervals s).
Definition sm_pkg_server_total (s : sm_pkg_server) : Z := sv_total s.
Definition sm_pkg_server_complete (s : sm_pkg_server) : bool := complete_locked (sv_total s) (sv_intervals s).

(** [fstat] of the opened package: [None] when it fails or there is none. *)
Definition sm_pkg_server_source_matches (s : sm_pkg_server) (fstat : option full_stat) (info : sm_pkg_info_t) : bool :=
  match sv_source s, fstat with
  | FromFile _, Some st => sm_pkg_source_matches info st
  | _, _ => false
  end.

(** ** The start of a server *)

(** The text before the last slash and the text after it. *)
Definition last_slash (s : text) : option (text * text) :=
  match break (fun a => Ascii.eqb a slash) (reverse s) with
  | (after, _ :: before) => Some (reverse before, reverse after)
  | _ => None
  end.

(** [strlcpy] into an array of [size] characters. *)
Definition text_copy (s : text) (size : nat) : text := take (size - 1) s.

(** What [start_server] needs of the system, step by step: errno or 0; [stat] of
    the path; the file opened, its size. *)
Record start_env := StartEnv {
  se_stat : option full_stat; se_calloc : bool; se_mutex : Z; se_cond : Z;
  se_open : sum Z (option full_stat); se_remote : bool;
  se_socket : Z; se_address_valid : bool; se_listen : Z; se_thread : Z;
}.

Definition stat_usable (st : option full_stat) : bool :=
  from_option (fun st => fs_regular st && (0 <? fs_size st)) false st.

(** The descriptors left open when it fails, for which the caller has no handle:
    the package and the listening socket are closed on every path. *)
Definition start_server (e : start_env) (path : text) (size : Z) (reader : option bool) (attempt : text)
    (browser : bool) : sum Z sm_pkg_server :=
  if (match reader with None => negb (stat_usable (se_stat e)) | Some _ => (size =? 0) || (INT64_MAX <? size) end)
  then inl EINVAL
  else if negb (se_calloc e) then inl ENOMEM
  else if negb (se_mutex e =? 0) then inl (se_mutex e)
  else if negb (se_cond e =? 0) then inl (se_cond e)
  else
    let opened :=
      match reader with
      | Some stream => inr (FromReader stream, size)
      | None =>
          match se_open e with
          | inl error => inl error
          | inr st => match st with
                      | Some st => if fs_regular st && (0 <? fs_size st) then inr (FromFile (se_remote e), fs_size st)
                                   else inl EINVAL
                      | None => inl EINVAL
                      end
          end
      end in
    match opened with
    | inl error => inl error
    | inr (source, total) =>
        if negb (se_socket e =? 0) then inl (se_socket e)
        else if negb (se_address_valid e) then inl EINVAL
        else if negb (se_listen e =? 0) then inl (se_listen e)
        else if negb (se_thread e =? 0) then inl (se_thread e)
        else
          let name := match last_slash path with Some (_, n) => n | None => path end in
          let directory := text_copy path MAX_PATH in
          inr (Server source total (match last_slash directory with Some (d, _) => d | None => lit "." end)
                 (text_copy attempt 64) (text_copy name MAX_PATH) browser [])
    end.

Definition sm_pkg_server_start (e : start_env) (path attempt : text) : sum Z sm_pkg_server :=
  start_server e path 0 None attempt false.
Definition sm_pkg_server_start_reader (e : start_env) (name : text) (size : Z) (stream : bool) (attempt : text) :
    sum Z sm_pkg_server := start_server e name size (Some stream) attempt false.
Definition sm_pkg_server_start_browser (e : start_env) (name : text) (size : Z) (attempt : text) :
    sum Z sm_pkg_server := start_server e name size (Some true) attempt true.

(** ** The answer to a request *)

(** What [serve_file] does: a header alone and whether the connection stays, a
    file beside the package, or the header and a range of the package. *)
Inductive answer :=
  | HeaderOnly (header : text) (keep : bool)
  | Sidecar (path : text) (size : Z) (body : bool)
  | Package (header : text) (first last : Z).

Definition path_of (s : sm_pkg_server) (name : text) : text := "/"%char :: sv_attempt s ++ "/"%char :: name.

(** The name of a .crc file asked for, after the prefix. *)
Definition sidecar_name (s : sm_pkg_server) (decoded : text) : option text :=
  if negb (begins (path_of s []) decoded) then None
  else
    let name := drop (length (path_of s [])) decoded in
    if existsb (fun a => Ascii.eqb a slash) name || (length name <=? 4)%nat ||
       negb (strcasecmp_eq (drop (length name - 4) name) (lit ".crc"))
    then None else Some name.

(** [lstat] is of the path of the file beside the package. *)
Definition serve_file (s : sm_pkg_server) (lstat : text -> option full_stat) (date : text)
    (request : sm_pkg_http_request_t) : answer :=
  let keep := rq_keep_alive request in
  match decode_path (rq_target request) MAX_PATH with
  | None => HeaderOnly (header_404 false) false
  | Some decoded =>
      if negb (bool_decide (decoded = path_of s (sv_basename s))) then
        match sidecar_name s decoded with
        | None => HeaderOnly (header_404 keep) keep
        | Some name =>
            let sidecar := sv_directory s ++ "/"%char :: name in
            match (if (MAX_PATH <=? length sidecar)%nat then None
                   else match sv_source s with FromReader _ => None | FromFile _ => lstat sidecar end) with
            | Some st => if fs_regular st then Sidecar sidecar (fs_size st) (negb (rq_head request))
                         else HeaderOnly (header_404 keep) keep
            | None => HeaderOnly (header_404 keep) keep
            end
        end
      else
        let total := sv_total s in
        match rq_range request with
        | Some value =>
            match parse_range value total with
            | None => HeaderOnly (header_416 total keep) false
            | Some (first, last) =>
                let header := header_content date first last total true keep in
                if rq_head request || (total =? 0) then HeaderOnly header keep else Package header first last
            end
        | None =>
            let last := if total =? 0 then 0 else total - 1 in
            let header := header_content date 0 last total false keep in
            if rq_head request || (total =? 0) then HeaderOnly header keep else Package header 0 last
        end
  end.

(** ** The transfer of a range *)

(** Bytes read and sent at a time. *)
Definition transfer_chunk (source : source_kind) (first last : Z) : Z :=
  let chunk := match source with
               | FromReader true => SM_PKG_STREAM_CHUNK
               | FromReader false => SM_PKG_SERVER_SEND_CHUNK
               | FromFile remote => if remote && (2 * SM_PKG_SERVER_SMB_CHUNK <=? last - first + 1)
                                    then SM_PKG_SERVER_SMB_CHUNK else SM_PKG_SERVER_SEND_CHUNK
               end in
  if last - first + 1 <? chunk then last - first + 1 else chunk.

(** Whether a thread reads ahead (when it can be started). *)
Definition reads_ahead (source : source_kind) (first last : Z) : bool :=
  match source with
  | FromFile _ => 2 * transfer_chunk source first last <=? last - first + 1
  | FromReader _ => false
  end.

(** The size of the next read. *)
Definition next_read (source : source_kind) (chunk offset last : Z) : Z :=
  let remaining := last - offset + 1 in
  let want := if chunk <? remaining then chunk else remaining in
  match source with
  | FromReader true =>
      let available := SM_PKG_STREAM_CHUNK - offset mod SM_PKG_STREAM_CHUNK in
      if available <? want then available else want
  | _ => want
  end.

(** What happens in one turn of the loop: an interrupted [pread], a read of so
    many bytes that are then sent ([pread] gives at least one and at most what is
    asked, a reader gives all), a read or a send that fails, or the server is
    stopped. *)
Inductive turn := Interrupted | Transferred (count : Z) | TurnFailed | Stopped.

Record transfer := Transfer {
  tf_offset : Z; tf_intervals : list interval; tf_reads : list (Z * Z); tf_end : option bool;
}.

(** One turn; [tf_end] is the result of the loop. *)
Definition transfer_turn (source : source_kind) (chunk last : Z) (t : transfer) (e : turn) : transfer :=
  match tf_end t with
  | Some _ => t
  | None =>
      if negb (tf_offset t <=? last) then Transfer (tf_offset t) (tf_intervals t) (tf_reads t) (Some true)
      else
        let want := next_read source chunk (tf_offset t) last in
        let reads := tf_reads t ++ [(tf_offset t, want)] in
        match e with
        | Stopped => Transfer (tf_offset t) (tf_intervals t) (tf_reads t) (Some true)
        | Interrupted =>
            match source with
            | FromFile _ => Transfer (tf_offset t) (tf_intervals t) reads None
            | FromReader _ => Transfer (tf_offset t) (tf_intervals t) reads (Some false)
            end
        | TurnFailed => Transfer (tf_offset t) (tf_intervals t) reads (Some false)
        | Transferred count =>
            let count := match source with FromReader _ => want | FromFile _ => Z.max 1 (Z.min count want) end in
            Transfer (tf_offset t + count)
              (add_coverage_locked (tf_offset t) (tf_offset t + count - 1) (tf_intervals t)) reads None
        end
  end.

Definition start_transfer (s : sm_pkg_server) (first : Z) : transfer := Transfer first (sv_intervals s) [] None.

Definition run_transfer (s : sm_pkg_server) (first last : Z) (turns : list turn) : transfer :=
  foldl (transfer_turn (sv_source s) (transfer_chunk (sv_source s) first last) last) (start_transfer s first) turns.

(** * Lemmas *)

(** ** The intervals as a set of bytes *)
Definition covered (l : list interval) (x : Z) : Prop := exists i, i ∈ l /\ i.1 <= x <= i.2.

(** Sorted, not empty, and apart: no two touch. *)
Fixpoint apart (lo : Z) (l : list interval) : Prop :=
  match l with
  | [] => True
  | (a, b) :: l' => lo <= a <= b /\ apart (b + 2) l'
  end.

Lemma covered_nil x : ~ covered [] x.
Proof. by intros (i & Hi%not_elem_of_nil & _). Qed.

Lemma covered_cons i l x : covered (i :: l) x <-> i.1 <= x <= i.2 \/ covered l x.
Proof.
  unfold covered. split.
  - intros (j & Hj & Hx). apply elem_of_cons in Hj as [->|Hj]; [by left|right; eauto].
  - intros [Hx|(j & Hj & Hx)]; [exists i|exists j]; (split; [|done]); [by left|by right].
Qed.

Lemma covered_app l1 l2 x : covered (l1 ++ l2) x <-> covered l1 x \/ covered l2 x.
Proof. induction l1 as [|i l1 IH]; simpl; [pose proof (covered_nil x); tauto|]. rewrite !covered_cons, IH. tauto. Qed.

Lemma apart_mono lo lo' l : lo' <= lo -> apart lo l -> apart lo' l.
Proof. destruct l as [|[a b] l]; simpl; [done|]. intros Hl [? ?]. split; [lia|done]. Qed.

Lemma apart_above lo l x : apart lo l -> covered l x -> lo <= x.
Proof.
  revert lo. induction l as [|[a b] l IH]; intros lo; simpl; [by intros _ ?%covered_nil|].
  intros [Hab Hl]. rewrite covered_cons. simpl. intros [?|Hc]; [lia|]. specialize (IH _ Hl Hc). lia.
Qed.

Lemma before_start_spec start l x y : before_start start l = (x, y) ->
  l = x ++ y /\ (forall i, i ∈ x -> i.2 + 1 < start) /\
  match y with (a, b) :: _ => start <= b + 1 | [] => True end.
Proof.
  revert x. induction l as [|[a b] l IH]; intros x; simpl.
  - intros [= <- <-]. split_and!; [done|by intros i ?%not_elem_of_nil|done].
  - destruct (Z.ltb_spec (b + 1) start).
    + destruct (before_start start l) as [x' y']. intros [= <- <-]. destruct (IH x' eq_refl) as (-> & Hx & Hy).
      split_and!; [done| |done]. intros i [->|Hi]%elem_of_cons; [done|by apply Hx].
    + intros [= <- <-]. split_and!; [done|by intros i ?%not_elem_of_nil|lia].
Qed.

(** Absorbing: the union, and what is left is further on. *)
Lemma absorb_spec lo start end_ l start' end' z : apart lo l -> start <= end_ ->
  absorb start end_ l = (start', end', z) ->
  match l with (a, b) :: _ => start <= b + 1 | [] => True end ->
  start' = (match l with (a, b) :: _ => if a <=? end_ + 1 then Z.min a start else start | [] => start end) /\
  end_ <= end' /\ apart (end' + 2) z /\ (exists k, l = k ++ z /\ (k = [] -> end' = end_)) /\
  forall x, (start' <= x <= end' \/ covered z x) <-> (start <= x <= end_ \/ covered l x).
Proof.
  revert lo start end_. induction l as [|[a b] l IH]; intros lo start end_ Hl Hse; simpl.
  - intros [= <- <- <-] _. split_and!; [done|lia|done|by exists []|done].
  - destruct Hl as [Hab Hl]. destruct (Z.leb_spec a (end_ + 1)) as [Hle|Hgt].
    + intros Habs Hb.
      set (s1 := if a <? start then a else start) in *. set (e1 := if end_ <? b then b else end_) in *.
      assert (Hs1 : s1 = Z.min a start) by (unfold s1; destruct (Z.ltb_spec a start); lia).
      assert (He1 : e1 = Z.max b end_) by (unfold e1; destruct (Z.ltb_spec end_ b); lia).
      assert (Hhead : match l with (a', b') :: _ => s1 <= b' + 1 | [] => True end).
      { destruct l as [|[a' b'] l]; [done|]. simpl in Hl. lia. }
      destruct (IH (b + 2) s1 e1 Hl ltac:(lia) Habs Hhead) as (Hs' & He' & Hz & (k & -> & Hk) & Hcov).
      split_and!; [|lia|done| |].
      * rewrite Hs', Hs1. destruct (k ++ z) as [|[a' b'] r] eqn:Hkz; [done|].
        destruct (Z.leb_spec a' (e1 + 1)); [|done]. destruct Hl as [Hl _]. lia.
      * exists ((a, b) :: k). split; [done|discriminate].
      * intros x. rewrite Hcov, covered_cons. simpl. split; [intros [Hx|Hx]; [|tauto]|intros [Hx|[Hx|Hx]]; [| |tauto]].
        -- destruct (decide (start <= x <= end_)); [tauto|]. right. left. lia.
        -- left. lia.
        -- left. lia.
    + intros [= <- <- <-] _. split_and!; [done|lia|split; [lia|done]|by exists []|done].
Qed.

Lemma apart_app lo x y lo' : apart lo x -> apart lo' y -> lo <= lo' -> (forall i, i ∈ x -> i.2 + 2 <= lo') -> apart lo (x ++ y).
Proof.
  intros Hx Hy. revert lo Hx. induction x as [|[a b] x IH]; intros lo Hx Hlo Hi; simpl; [by eapply apart_mono|].
  destruct Hx as [Hab Hx]. split; [done|]. apply IH; [done| |].
  - apply (Hi (a, b)). by left.
  - intros i Hin. apply Hi. by right.
Qed.

Lemma apart_split lo x y : apart lo (x ++ y) -> apart lo x /\ exists lo', lo <= lo' /\ apart lo' y /\
  (forall i, i ∈ x -> i.1 <= i.2 /\ lo <= i.1 /\ i.2 + 2 <= lo').
Proof.
  revert lo. induction x as [|[a b] x IH]; intros lo; simpl.
  - intros H. split; [done|]. exists lo. split_and!; [lia|done|by intros i ?%not_elem_of_nil].
  - intros [Hab H]. destruct (IH _ H) as (Hx & lo' & Hlo & Hy & Hi). split; [done|]. exists lo'.
    split_and!; [lia|done|]. intros i [->|Hin]%elem_of_cons; simpl; [lia|]. destruct (Hi i Hin). lia.
Qed.

(** One more range: the table stays sorted and apart, and covers the union, except
    that a range that touches nothing is lost when the table is full. *)
Lemma add_coverage_spec start end_ l : apart 0 l -> 0 <= start <= end_ ->
  let l' := add_coverage_locked start end_ l in
  apart 0 l' /\ ((length l <= SM_PKG_SERVER_COVERAGE_MAX)%nat -> (length l' <= SM_PKG_SERVER_COVERAGE_MAX)%nat) /\
  ((forall x, covered l' x <-> covered l x \/ start <= x <= end_) \/
   (SM_PKG_SERVER_COVERAGE_MAX <= length l)%nat /\ l' = l).
Proof.
  intros Hl Hse l'. unfold l', add_coverage_locked. destruct (Z.ltb_spec end_ start); [lia|].
  destruct (before_start start l) as [x y] eqn:Hb. destruct (before_start_spec _ _ _ _ Hb) as (-> & Hx & Hy).
  destruct (apart_split _ _ _ Hl) as (Hax & lo' & Hlo & Hay & Hxi).
  destruct (absorb start end_ y) as [[start' end'] z] eqn:Ha.
  destruct (absorb_spec lo' start end_ y start' end' z Hay ltac:(lia) Ha Hy) as (Hs' & He' & Hz & (k & -> & Hk) & Hcov).
  assert (Hs'' : start' <= start /\ 0 <= start' /\ forall i, i ∈ x -> i.2 + 2 <= start').
  { destruct (k ++ z) as [|[a b] r]; [subst start'; split_and!; [lia|lia|]|].
    - intros i Hi. specialize (Hx i Hi). lia.
    - destruct Hay as [Hab _]. destruct (a <=? end_ + 1); subst start'; (split_and!; [lia|lia|]); intros i Hi;
        specialize (Hx i Hi); destruct (Hxi i Hi) as (_ & _ & ?); lia. }
  destruct Hs'' as (Hle & Hnn & Hxs).
  assert (Hapart : apart 0 (x ++ (start', end') :: z)).
  { eapply apart_app; [done| |exact Hnn|exact Hxs]. simpl. split; [lia|done]. }
  assert (Hunion : forall v, covered (x ++ (start', end') :: z) v <-> covered (x ++ k ++ z) v \/ start <= v <= end_).
  { intros v. rewrite !(covered_app x), covered_cons. simpl. rewrite (Hcov v). tauto. }
  destruct (Nat.ltb_spec (length z) (length (k ++ z))) as [Hlt|Hge].
  - split_and!; [done| |by left]. rewrite !length_app in *. simpl. lia.
  - destruct (Nat.leb_spec SM_PKG_SERVER_COVERAGE_MAX (length (x ++ k ++ z))) as [Hfull|Hroom].
    + split_and!; [done|done|]. right. by split.
    + split_and!; [done| |by left]. intros _. rewrite !length_app in *. simpl. lia.
Qed.

(** ** Counting bytes *)
Definition covers (l : list interval) (x : Z) : bool := existsb (fun i => (i.1 <=? x) && (x <=? i.2)) l.

Lemma covers_spec l x : covers l x = true <-> covered l x.
Proof.
  unfold covers, covered. rewrite existsb_exists. split.
  - intros (i & Hi & Hx). exists i. apply andb_true_iff in Hx as [H1 H2]. apply Z.leb_le in H1, H2.
    split; [by apply list_elem_of_In|done].
  - intros (i & Hi & Hx). exists i. split; [by apply list_elem_of_In|]. apply andb_true_iff. by rewrite !Z.leb_le.
Qed.

(** The bytes of [lo, hi) that satisfy [p]. *)
Definition count_bytes (p : Z -> bool) (lo hi : Z) : Z := Z.of_nat (count_if p (seqZ lo (hi - lo))).

Lemma seqZ_split lo mid hi : lo <= mid <= hi -> seqZ lo (hi - lo) = seqZ lo (mid - lo) ++ seqZ mid (hi - mid).
Proof.
  intros H. replace (hi - lo) with ((mid - lo) + (hi - mid)) by lia. rewrite seqZ_app by lia. do 2 f_equal. lia.
Qed.

Lemma count_bytes_split p lo mid hi : lo <= mid <= hi -> count_bytes p lo hi = count_bytes p lo mid + count_bytes p mid hi.
Proof. intros H. unfold count_bytes. rewrite (seqZ_split lo mid hi) by done. rewrite count_if_app. lia. Qed.

Lemma count_bytes_all p lo hi : lo <= hi -> (forall x, lo <= x < hi -> p x = true) -> count_bytes p lo hi = hi - lo.
Proof.
  intros Hle Hp. unfold count_bytes. rewrite count_if_all.
  - rewrite length_seqZ. lia.
  - intros i x Hi. apply Hp. apply list_elem_of_lookup_2, elem_of_seqZ in Hi. lia.
Qed.

Lemma count_bytes_none p lo hi : (forall x, lo <= x < hi -> p x = false) -> count_bytes p lo hi = 0.
Proof.
  intros Hp. unfold count_bytes. assert (H : forall x, x ∈ seqZ lo (hi - lo) -> p x = false).
  { intros x Hx%elem_of_seqZ. apply Hp. lia. }
  revert H. generalize (seqZ lo (hi - lo)). intros l. induction l as [|x l IH]; intros H; simpl; [done|].
  rewrite (H x) by by left. apply IH. intros y Hy. apply H. by right.
Qed.

Lemma count_bytes_ext p q lo hi : (forall x, lo <= x < hi -> p x = q x) -> count_bytes p lo hi = count_bytes q lo hi.
Proof.
  intros Hp. unfold count_bytes. assert (H : forall x, x ∈ seqZ lo (hi - lo) -> p x = q x).
  { intros x Hx%elem_of_seqZ. apply Hp. lia. }
  revert H. generalize (seqZ lo (hi - lo)). intros l. induction l as [|x l IH]; intros H; simpl; [done|].
  rewrite (H x) by by left. specialize (IH ltac:(intros y Hy; apply H; by right)). lia.
Qed.

(** The sum of the intervals' lengths is the number of bytes they cover. *)
Lemma covered_bytes_count l lo hi : apart lo l -> (forall x, covered l x -> x < hi) -> lo <= hi ->
  covered_bytes_locked l = count_bytes (covers l) lo hi.
Proof.
  revert lo. induction l as [|[a b] l IH]; intros lo Hl Hhi Hlo; simpl.
  - by rewrite count_bytes_none.
  - destruct Hl as [Hab Hl].
    assert (Hb : b < hi) by (apply Hhi, covered_cons; left; simpl; lia).
    rewrite (count_bytes_split _ lo a hi), (count_bytes_split _ a (b + 1) hi) by lia.
    rewrite (count_bytes_none _ lo a), (count_bytes_all _ a (b + 1)).
    + rewrite (count_bytes_ext _ (covers l) (b + 1) hi).
      * rewrite (IH (b + 1)); [lia|by eapply apart_mono; [|exact Hl]; lia| |lia].
        intros x Hx. apply Hhi, covered_cons. by right.
      * intros x Hx. unfold covers. simpl. destruct (Z.leb_spec x b); [lia|]. by rewrite andb_false_r.
    + lia.
    + intros x Hx. unfold covers. simpl. destruct (Z.leb_spec a x), (Z.leb_spec x b); done || lia.
    + intros x Hx. destruct (covers ((a, b) :: l) x) eqn:Hc; [|done]. apply covers_spec, covered_cons in Hc as [Hc|Hc].
      * simpl in Hc. lia.
      * apply (apart_above _ _ _ Hl) in Hc. lia.
Qed.

(** Complete exactly when every byte is covered. *)
Lemma complete_spec l total : apart 0 l -> 0 <= total -> (forall x, covered l x -> x < total) ->
  complete_locked total l = true <-> forall x, 0 <= x < total -> covered l x.
Proof.
  intros Hl Ht Hhi. unfold complete_locked. destruct (Z.eqb_spec total 0) as [->|Hne]; simpl.
  { split; [intros _ x Hx; lia|done]. }
  destruct l as [|[a b] l]; [|destruct l as [|[c d] l]].
  - split; [done|]. intros H. by destruct (covered_nil 0 (H 0 ltac:(lia))).
  - rewrite andb_true_iff, !Z.eqb_eq. split.
    + intros [-> ->] x Hx. apply covered_cons. left. simpl. lia.
    + intros H. destruct Hl as [Hab _].
      assert (Hend : forall x, covered [(a, b)] x -> a <= x <= b).
      { intros x Hx. apply covered_cons in Hx as [Hx|Hx]; [done|by destruct (covered_nil x Hx)]. }
      pose proof (Hend 0 (H 0 ltac:(lia))). pose proof (Hend (total - 1) (H (total - 1) ltac:(lia))).
      assert (b < total) by (apply Hhi, covered_cons; left; simpl; lia). lia.
  - split; [done|]. intros H. destruct Hl as [Hab [Hcd Hl]].
    assert (Hb : b + 1 < total).
    { assert (d < total); [|lia]. apply Hhi. rewrite !covered_cons. right. left. simpl. lia. }
    specialize (H (b + 1) ltac:(lia)). rewrite !covered_cons in H. simpl in H. destruct H as [H|[H|H]]; [lia|lia|].
    apply (apart_above _ _ _ Hl) in H. lia.
Qed.

(** ** Histories of ranges *)

(** The table after some ranges were sent, in the order of their ends. *)
Definition table_after (ranges : list interval) : list interval :=
  foldl (fun l r => add_coverage_locked r.1 r.2 l) [] ranges.

(** A byte was sent in one of the ranges. *)
Definition sent (ranges : list interval) (x : Z) : bool := covers ranges x.

(** The table had room whenever a range was added. *)
Definition never_full (ranges : list interval) : Prop :=
  forall k, (k < length ranges)%nat -> (length (table_after (take k ranges)) < SM_PKG_SERVER_COVERAGE_MAX)%nat.

Definition in_package (total : Z) (r : interval) : Prop := 0 <= r.1 <= r.2 /\ r.2 < total.

Lemma table_after_snoc ranges r : table_after (ranges ++ [r]) = add_coverage_locked r.1 r.2 (table_after ranges).
Proof. unfold table_after. by rewrite foldl_app. Qed.

Lemma table_spec total ranges : Forall (in_package total) ranges ->
  apart 0 (table_after ranges) /\ (length (table_after ranges) <= SM_PKG_SERVER_COVERAGE_MAX)%nat /\
  (forall x, covered (table_after ranges) x -> covered ranges x) /\
  (never_full ranges -> forall x, covered ranges x -> covered (table_after ranges) x).
Proof.
  induction ranges as [|[a b] ranges IH] using rev_ind; intros Hr.
  - split_and!; [done|simpl; lia|done|done].
  - apply Forall_app in Hr as [Hr Hab]. rewrite Forall_singleton in Hab. destruct Hab as [Hab Hbt]. simpl in Hab, Hbt.
    destruct (IH Hr) as (Hap & Hlen & Hsub & Hsup). rewrite table_after_snoc. simpl.
    destruct (add_coverage_spec a b (table_after ranges) Hap ltac:(lia)) as (Hap' & Hlen' & Hcov).
    split_and!; [done|by apply Hlen'| |].
    + intros x Hx. rewrite covered_app, covered_cons. simpl. destruct Hcov as [Hcov|[_ Heq]].
      * apply Hcov in Hx as [Hx|Hx]; [left; by apply Hsub|by right; left].
      * rewrite Heq in Hx. left. by apply Hsub.
    + intros Hnf x Hx. assert (Hnf' : never_full ranges).
      { intros k Hk. specialize (Hnf k). rewrite length_app in Hnf. simpl in Hnf. rewrite take_app_le in Hnf by lia.
        apply Hnf. lia. }
      assert (Hroom : (length (table_after ranges) < SM_PKG_SERVER_COVERAGE_MAX)%nat).
      { specialize (Hnf (length ranges)). rewrite length_app, take_app_length in Hnf. apply Hnf. simpl. lia. }
      destruct Hcov as [Hcov|[Hfull _]]; [|lia]. apply Hcov. apply covered_app in Hx as [Hx|Hx]; [left; by apply Hsup|].
      rewrite covered_cons in Hx. destruct Hx as [Hx|Hx]; [by right|by destruct (covered_nil x Hx)].
Qed.

(** ** Transfers *)

(** The state of a transfer of [first, last]: the reads made lie within the range,
    and the range up to the offset has been added to the table. *)
Record transfer_ok (source : source_kind) (first last : Z) (l : list interval) (t : transfer) : Prop := {
  to_offset : first <= tf_offset t <= last + 1;
  to_reads : Forall (fun r => first <= r.1 /\ 0 < r.2 /\ r.1 + r.2 <= last + 1 /\
    (source = FromReader true -> r.1 / SM_PKG_STREAM_CHUNK = (r.1 + r.2 - 1) / SM_PKG_STREAM_CHUNK)) (tf_reads t);
  to_table : exists ranges, tf_intervals t = foldl (fun l r => add_coverage_locked r.1 r.2 l) l ranges /\
    (forall x, covered ranges x <-> first <= x < tf_offset t) /\ Forall (fun r => first <= r.1 <= r.2) ranges;
}.

Lemma transfer_chunk_pos source first last : first <= last -> 0 < transfer_chunk source first last.
Proof.
  intros H. unfold transfer_chunk, SM_PKG_STREAM_CHUNK, SM_PKG_SERVER_SEND_CHUNK, SM_PKG_SERVER_SMB_CHUNK.
  destruct source as [remote|[]]; [destruct (remote && _)|..];
    match goal with |- context [?a <? ?b] => destruct (Z.ltb_spec a b) end; lia.
Qed.

Lemma next_read_spec source chunk offset last : 0 < chunk -> 0 <= offset <= last ->
  let n := next_read source chunk offset last in 0 < n /\ offset + n <= last + 1 /\
  (source = FromReader true -> offset / SM_PKG_STREAM_CHUNK = (offset + n - 1) / SM_PKG_STREAM_CHUNK).
Proof.
  intros Hc Ho n. unfold n, next_read.
  set (want := if chunk <? last - offset + 1 then chunk else last - offset + 1).
  assert (Hw : 0 < want <= last - offset + 1) by (unfold want; destruct (Z.ltb_spec chunk (last - offset + 1)); lia).
  destruct source as [remote|[]]; [split_and!; [lia|lia|done]| |split_and!; [lia|lia|done]].
  assert (Hp : 0 < SM_PKG_STREAM_CHUNK) by done.
  pose proof (Z.mod_pos_bound offset _ Hp). pose proof (Z.div_mod offset SM_PKG_STREAM_CHUNK ltac:(lia)).
  set (avail := SM_PKG_STREAM_CHUNK - offset mod SM_PKG_STREAM_CHUNK).
  assert (Hn : exists m, (if avail <? want then avail else want) = m /\ 0 < m <= want /\ m <= avail).
  { eexists. split; [done|]. destruct (Z.ltb_spec avail want); lia. }
  destruct Hn as (m & -> & Hm & Ha). split_and!; [lia|lia|]. intros _.
  apply (Z.div_unique _ _ _ (offset mod SM_PKG_STREAM_CHUNK + m - 1)); lia.
Qed.

Lemma transfer_turn_ok source chunk first last l t e : 0 <= first -> 0 < chunk ->
  transfer_ok source first last l t -> transfer_ok source first last l (transfer_turn source chunk last t e).
Proof.
  intros Hf Hc [Ho Hr Ht]. unfold transfer_turn. destruct (tf_end t); [done|].
  destruct (Z.leb_spec (tf_offset t) last) as [Hle|]; cbn [negb]; [|done].
  destruct (next_read_spec source chunk (tf_offset t) last Hc ltac:(lia)) as (Hn1 & Hn2 & Hn3).
  set (want := next_read source chunk (tf_offset t) last) in *.
  assert (Hreads : Forall (fun r => first <= r.1 /\ 0 < r.2 /\ r.1 + r.2 <= last + 1 /\
    (source = FromReader true -> r.1 / SM_PKG_STREAM_CHUNK = (r.1 + r.2 - 1) / SM_PKG_STREAM_CHUNK))
    (tf_reads t ++ [(tf_offset t, want)])).
  { apply Forall_app_2; [done|]. apply Forall_singleton. simpl. split_and!; [lia|done|done|done]. }
  destruct e as [|count| |]; [by destruct source|..|done|done].
  set (n := match source with FromReader _ => want | FromFile _ => Z.max 1 (Z.min count want) end).
  assert (Hnn : 0 < n <= want) by (unfold n; destruct source; lia).
  destruct Ht as (ranges & Htab & Hcov & Hrr). split; simpl; [lia|done|].
  exists (ranges ++ [(tf_offset t, tf_offset t + n - 1)]). rewrite foldl_app, <-Htab. split_and!; [done| |].
  - intros x. rewrite covered_app, covered_cons, Hcov. simpl. pose proof (covered_nil x). split; [intros [?|[?|?]]; [lia|lia|tauto]|].
    intros Hx. destruct (decide (x < tf_offset t)); [left; lia|right; left; lia].
  - apply Forall_app_2; [done|]. apply Forall_singleton. simpl. lia.
Qed.

Lemma run_transfer_ok s first last turns : 0 <= first <= last ->
  transfer_ok (sv_source s) first last (sv_intervals s) (run_transfer s first last turns).
Proof.
  intros Hfl. unfold run_transfer. pose proof (transfer_chunk_pos (sv_source s) first last ltac:(lia)) as Hc.
  set (chunk := transfer_chunk _ _ _) in *.
  assert (Hstart : transfer_ok (sv_source s) first last (sv_intervals s) (start_transfer s first)).
  { split; simpl; [lia|apply Forall_nil_2|]. exists []. split_and!; [done| |apply Forall_nil_2].
    intros x. pose proof (covered_nil x). split; [tauto|lia]. }
  revert Hstart. generalize (start_transfer s first). induction turns as [|e turns IH]; intros t Ht; [done|].
  simpl. apply IH. apply transfer_turn_ok; [lia|done|done].
Qed.

(** A transfer that ends well has sent the whole range, unless the server stopped. *)
Lemma transfer_complete source chunk last turns t :
  tf_end t = None \/ (tf_end t = Some true -> last < tf_offset t) ->
  ~ In Stopped turns ->
  tf_end (foldl (transfer_turn source chunk last) t turns) = Some true ->
  last < tf_offset (foldl (transfer_turn source chunk last) t turns).
Proof.
  revert t. induction turns as [|e turns IH]; intros t Ht Hns; simpl in *.
  - intros He. destruct Ht as [Ht|Ht]; [congruence|by apply Ht].
  - intros He. apply IH; [|tauto|done]. unfold transfer_turn. destruct (tf_end t) as [[]|] eqn:Hte.
    + destruct Ht as [?|Ht]; [congruence|]. right. intros _. by apply Ht.
    + rewrite Hte. by right.
    + destruct (Z.leb_spec (tf_offset t) last); cbn [negb]; [|by right].
      destruct e as [|count| |]; [destruct source; [by left|by right]|by left|by right|tauto].
Qed.

(** * Theorems *)

(** Claim C38: the progress reported for a package is exact: whatever ranges the
    connections sent, in any order and overlapping in any way, the table stays
    sorted, apart and within its size, it never counts a byte that was not sent
    (so a package is only reported complete when all of it was sent), and as long
    as the table had room the number of bytes served is the number of different
    bytes sent, and the package is complete exactly when every byte was. *)
Theorem progress_exact total ranges : 0 <= total -> Forall (in_package total) ranges ->
  let table := table_after ranges in
  apart 0 table /\ (length table <= SM_PKG_SERVER_COVERAGE_MAX)%nat /\
  covered_bytes_locked table <= count_bytes (sent ranges) 0 total /\
  (complete_locked total table = true -> forall x, 0 <= x < total -> sent ranges x = true) /\
  (never_full ranges -> covered_bytes_locked table = count_bytes (sent ranges) 0 total /\
    ((forall x, 0 <= x < total -> sent ranges x = true) -> complete_locked total table = true)).
Proof.
  intros Ht Hr table. destruct (table_spec total ranges Hr) as (Hap & Hlen & Hsub & Hsup).
  assert (Hhi : forall x, covered table x -> x < total).
  { intros x Hx. apply Hsub in Hx as (i & Hi & Hx). rewrite Forall_forall in Hr. destruct (Hr i Hi). lia. }
  pose proof (covered_bytes_count table 0 total Hap Hhi Ht) as Hcount.
  pose proof (complete_spec table total Hap Ht Hhi) as Hcomp.
  split_and!; [done|done| | |].
  - rewrite Hcount. unfold count_bytes. apply Nat2Z.inj_le. generalize (seqZ 0 (total - 0)). intros l.
    induction l as [|x l IH]; simpl; [done|]. destruct (covers table x) eqn:Hc; [|destruct (sent ranges x); lia].
    assert (sent ranges x = true) as -> by (apply covers_spec, Hsub; by apply covers_spec). lia.
  - intros Hc x Hx. apply covers_spec, Hsub. by apply Hcomp.
  - intros Hnf. specialize (Hsup Hnf). split.
    + rewrite Hcount. apply count_bytes_ext. intros x _. unfold sent. apply Bool.eq_iff_eq_true.
      rewrite !covers_spec. split; [apply Hsub|apply Hsup].
    + intros Hall. apply Hcomp. intros x Hx. apply Hsup, covers_spec. by apply Hall.
Qed.

Definition sample_ranges : list interval := [(4, 9); (0, 3); (2, 5)].

Lemma progress_exact_witness :
  table_after sample_ranges = [(0, 9)] /\
  let table := table_after sample_ranges in
  apart 0 table /\ (length table <= SM_PKG_SERVER_COVERAGE_MAX)%nat /\
  covered_bytes_locked table <= count_bytes (sent sample_ranges) 0 10 /\
  (complete_locked 10 table = true -> forall x, 0 <= x < 10 -> sent sample_ranges x = true) /\
  (never_full sample_ranges -> covered_bytes_locked table = count_bytes (sent sample_ranges) 0 10 /\
    ((forall x, 0 <= x < 10 -> sent sample_ranges x = true) -> complete_locked 10 table = true)).
Proof.
  split; [vm_compute; reflexivity|]. apply (progress_exact 10 sample_ranges); [lia|].
  repeat (apply Forall_cons_2; [unfold in_package; simpl; lia|]). apply Forall_nil_2.
Defined.

(** when a request is answered with bytes of the package, its target is
    the package's path, the header announces exactly the range that is then read,
    which lies within the package, and the transfer reads only from that range,
    never across a segment of a browser's stream; what it has sent is recorded, and
    if it ends well the whole announced range was sent, unless the server stopped. *)
Theorem package_answer_exact s lstat date request header first last turns :
  0 <= sv_total s -> serve_file s lstat date request = Package header first last ->
  decode_path (rq_target request) MAX_PATH = Some (path_of s (sv_basename s)) /\
  0 <= first <= last /\ last < sv_total s /\
  (match rq_range request with
   | Some _ => header = header_content date first last (sv_total s) true (rq_keep_alive request)
   | None => header = header_content date first last (sv_total s) false (rq_keep_alive request) /\
             first = 0 /\ last = sv_total s - 1
   end) /\
  let t := run_transfer s first last turns in
  transfer_ok (sv_source s) first last (sv_intervals s) t /\
  (tf_end t = Some true -> ~ In Stopped turns -> tf_offset t = last + 1).
Proof.
  intros Ht Hs. unfold serve_file in Hs. destruct (decode_path _ _) as [decoded|]; [|done].
  destruct (bool_decide (decoded = path_of s (sv_basename s))) eqn:Hd; cbn [negb] in Hs.
  2: { destruct (sidecar_name s decoded); [|done]. destruct (_ <=? _)%nat; [done|].
       destruct (sv_source s); [|done]. destruct (lstat _) as [st|]; [|done]. by destruct (fs_regular st). }
  apply bool_decide_eq_true in Hd. split; [by rewrite Hd|].
  assert (Hrange : 0 <= first <= last /\ last < sv_total s /\
    (match rq_range request with
     | Some _ => header = header_content date first last (sv_total s) true (rq_keep_alive request)
     | None => header = header_content date first last (sv_total s) false (rq_keep_alive request) /\
               first = 0 /\ last = sv_total s - 1
     end)).
  { destruct (rq_range request) as [value|].
    - destruct (parse_range value (sv_total s)) as [[f l]|] eqn:Hp; [|done].
      destruct (rq_head request || _); [done|]. injection Hs as <- <- <-.
      destruct (parse_range_within _ _ _ _ Ht Hp) as [? ?]. split_and!; (done || lia).
    - destruct (Z.eqb_spec (sv_total s) 0) as [|Hne]; [by rewrite orb_true_r in Hs|].
      destruct (rq_head request || _); [done|]. injection Hs as <- <- <-. split_and!; (done || lia). }
  destruct Hrange as (H1 & H2 & H3). split_and!; [lia|lia|done|done|].
  pose proof (run_transfer_ok s first last turns H1) as Hok. split; [done|]. intros He Hns.
  destruct (to_offset _ _ _ _ _ Hok) as [? ?].
  pose proof (transfer_complete (sv_source s) (transfer_chunk (sv_source s) first last) last turns
                (start_transfer s first) (or_introl eq_refl) Hns He). unfold run_transfer in *. lia.
Qed.

Definition sample_server : sm_pkg_server :=
  Server (FromFile false) 10 (lit "/data/pkg") (lit "t0") (lit "a.pkg") false [].

Definition sample_request : sm_pkg_http_request_t :=
  Request true false true (lit "/t0/a%2Epkg?product=1") (Some (lit "bytes=2-20")).

Definition sample_transfer : transfer :=
  run_transfer sample_server 2 9 [Interrupted; Transferred 3; Transferred 8; Transferred 1].

Lemma package_answer_exact_witness :
  serve_file sample_server (fun _ => None) (lit "now") sample_request =
    Package (header_content (lit "now") 2 9 10 true true) 2 9 /\
  sample_transfer = Transfer 10 [(2, 9)] [(2, 8); (2, 8); (5, 5)] (Some true) /\
  decode_path (rq_target sample_request) MAX_PATH = Some (path_of sample_server (sv_basename sample_server)) /\
  0 <= 2 <= 9 /\ 9 < sv_total sample_server /\
  (match rq_range sample_request with
   | Some _ => header_content (lit "now") 2 9 10 true true =
       header_content (lit "now") 2 9 (sv_total sample_server) true (rq_keep_alive sample_request)
   | None => header_content (lit "now") 2 9 10 true true =
       header_content (lit "now") 2 9 (sv_total sample_server) false (rq_keep_alive sample_request) /\
       2 = 0 /\ 9 = sv_total sample_server - 1
   end) /\
  transfer_ok (sv_source sample_server) 2 9 (sv_intervals sample_server) sample_transfer /\
  (tf_end sample_transfer = Some true ->
   ~ In Stopped [Interrupted; Transferred 3; Transferred 8; Transferred 1] -> tf_offset sample_transfer = 9 + 1).
Proof.
  assert (H : serve_file sample_server (fun _ => None) (lit "now") sample_request =
    Package (header_content (lit "now") 2 9 10 true true) 2 9) by (vm_compute; reflexivity).
  split; [exact H|]. split; [vm_compute; reflexivity|].
  apply (package_answer_exact sample_server (fun _ => None) (lit "now") sample_request
           (header_content (lit "now") 2 9 10 true true) 2 9 [Interrupted; Transferred 3; Transferred 8; Transferred 1]);
    [vm_compute; discriminate|exact H].
Defined.
