(* ===== verification/PkgConnections.v ===== *)
(** * The threads of the package server (src/sm_pkg_server.c, fourth part)

    The listener, the workers of the connections and [sm_pkg_server_stop], as a
    step relation over their critical sections and system calls.  Descriptors are
    numbers that the system reuses once they are closed, also outside this
    server; closing or shutting down one that the server does not own is recorded
    as a fault. *)
From S2P Require Import Prelude.
From stdpp Require Import list gmap.
Open Scope Z_scope.

Definition SM_PKG_SERVER_MAX_CONNECTIONS : nat := 16.

(** The listener: at its loop, with an accepted descriptor, with one it has
    counted, with one it must count down and close, close only; ended. *)
Inductive listener := LLoop | LAccepted (fd : Z) | LCounted (fd : Z) | LRetire (fd : Z) | LClose (fd : Z) | LExited.

(** A worker: before it registers, serving (its slot), about to close, about to
    retire, gone. *)
Inductive worker := WStart (fd : Z) | WServing (fd : Z) (slot : nat) | WClosing (fd : Z) | WRetiring | WGone.

(** [sm_pkg_server_stop]: not called, joining the listener, before the sweep,
    waiting for the workers, returned (the server is freed). *)
Inductive stopper := SRunning | SJoining | SSweeping | SWaiting | SFreed.

Record connections := Connections {
  cs_running : bool; cs_count : nat; cs_slots : list (option Z); cs_listener : listener;
  cs_workers : list worker; cs_stop : stopper; cs_open : gset Z; cs_fault : bool;
}.

Definition start_connections : connections :=
  Connections true 0 (replicate SM_PKG_SERVER_MAX_CONNECTIONS None) LLoop [] SRunning ∅ false.

(** ** Updates *)
Definition set_listener (l : listener) (s : connections) : connections :=
  Connections (cs_running s) (cs_count s) (cs_slots s) l (cs_workers s) (cs_stop s) (cs_open s) (cs_fault s).
Definition set_count (n : nat) (s : connections) : connections :=
  Connections (cs_running s) n (cs_slots s) (cs_listener s) (cs_workers s) (cs_stop s) (cs_open s) (cs_fault s).
Definition set_slots (l : list (option Z)) (s : connections) : connections :=
  Connections (cs_running s) (cs_count s) l (cs_listener s) (cs_workers s) (cs_stop s) (cs_open s) (cs_fault s).
Definition set_workers (w : list worker) (s : connections) : connections :=
  Connections (cs_running s) (cs_count s) (cs_slots s) (cs_listener s) w (cs_stop s) (cs_open s) (cs_fault s).
Definition set_phase (p : stopper) (s : connections) : connections :=
  Connections (cs_running s) (cs_count s) (cs_slots s) (cs_listener s) (cs_workers s) p (cs_open s) (cs_fault s).
Definition set_open (o : gset Z) (s : connections) : connections :=
  Connections (cs_running s) (cs_count s) (cs_slots s) (cs_listener s) (cs_workers s) (cs_stop s) o (cs_fault s).
Definition set_fault (b : bool) (s : connections) : connections :=
  Connections (cs_running s) (cs_count s) (cs_slots s) (cs_listener s) (cs_workers s) (cs_stop s) (cs_open s)
    (cs_fault s || b).
Definition set_stopped (s : connections) : connections :=
  Connections false (cs_count s) (cs_slots s) (cs_listener s) (cs_workers s) (cs_stop s) (cs_open s) (cs_fault s).

(** [close] of a connection's descriptor. *)
Definition close_fd (fd : Z) (s : connections) : connections :=
  set_open (cs_open s ∖ {[fd]}) (set_fault (bool_decide (fd ∉ cs_open s)) s).

(** [retire_worker]: counting down under the mutex; the thread touches the server
    no more. *)
Definition retire (s : connections) : connections := set_count (cs_count s - 1) s.

(** [shutdown] of every registered connection. *)
Definition sweep (s : connections) : connections :=
  set_fault (existsb (fun c => match c with Some fd => bool_decide (fd ∉ cs_open s) | None => false end) (cs_slots s)) s.

(** The first free slot. *)
Definition free_slot (l : list (option Z)) : option nat :=
  find_index (fun c => match c with None => true | Some _ => false end) l.

(** ** Steps *)
Inductive step (s : connections) : connections -> Prop :=
  (* the listener *)
  | l_leave : cs_listener s = LLoop -> step s (set_listener LExited s)
  | l_accept fd : cs_listener s = LLoop -> cs_running s = true -> fd ∉ cs_open s ->
      step s (set_listener (LAccepted fd) (set_open ({[fd]} ∪ cs_open s) s))
  | l_flags_fail fd : cs_listener s = LAccepted fd -> step s (set_listener (LClose fd) s)
  | l_count fd : cs_listener s = LAccepted fd ->
      step s (set_listener (if (SM_PKG_SERVER_MAX_CONNECTIONS <? S (cs_count s))%nat then LRetire fd else LCounted fd)
                (set_count (S (cs_count s)) s))
  | l_no_thread fd : cs_listener s = LCounted fd -> step s (set_listener (LRetire fd) s)
  | l_thread fd : cs_listener s = LCounted fd ->
      step s (set_listener LLoop (set_workers (cs_workers s ++ [WStart fd]) s))
  | l_retire fd : cs_listener s = LRetire fd -> step s (set_listener (LClose fd) (retire s))
  | l_close fd : cs_listener s = LClose fd -> step s (set_listener LLoop (close_fd fd s))
  (* a worker *)
  | w_register k fd : cs_workers s !! k = Some (WStart fd) ->
      step s (match free_slot (cs_slots s) with
              | Some i => set_workers (<[k := WServing fd i]> (cs_workers s)) (set_slots (<[i := Some fd]> (cs_slots s)) s)
              | None => set_workers (<[k := WClosing fd]> (cs_workers s)) s
              end)
  | w_unregister k fd i : cs_workers s !! k = Some (WServing fd i) ->
      step s (set_workers (<[k := WClosing fd]> (cs_workers s)) (set_slots (<[i := None]> (cs_slots s)) s))
  | w_close k fd : cs_workers s !! k = Some (WClosing fd) ->
      step s (set_workers (<[k := WRetiring]> (cs_workers s)) (close_fd fd s))
  | w_retire k : cs_workers s !! k = Some WRetiring ->
      step s (set_workers (<[k := WGone]> (cs_workers s)) (retire s))
  (* [sm_pkg_server_stop] *)
  | s_stop : cs_stop s = SRunning -> step s (set_phase SJoining (set_stopped s))
  | s_join : cs_stop s = SJoining -> cs_listener s = LExited -> step s (set_phase SSweeping s)
  | s_sweep : cs_stop s = SSweeping -> step s (set_phase SWaiting (sweep s))
  | s_free : cs_stop s = SWaiting -> cs_count s = 0%nat -> step s (set_phase SFreed s).

Inductive reachable : connections -> Prop :=
  | reach_start : reachable start_connections
  | reach_step s s' : reachable s -> step s s' -> reachable s'.

(** * The invariant *)

Definition alive (w : worker) : bool := match w with WGone => false | _ => true end.
Definition serving (w : worker) : bool := match w with WServing _ _ => true | _ => false end.
Definition used (c : option Z) : bool := match c with Some _ => true | None => false end.

(** The descriptor a worker or the listener owns. *)
Definition worker_fd (w : worker) : option Z :=
  match w with WStart fd | WServing fd _ | WClosing fd => Some fd | WRetiring | WGone => None end.
Definition listener_fd (l : listener) : option Z :=
  match l with LAccepted fd | LCounted fd | LRetire fd | LClose fd => Some fd | LLoop | LExited => None end.
Definition listener_counts (l : listener) : nat := match l with LCounted _ | LRetire _ => 1 | _ => 0 end.

(** Who owns what, by worker. *)
Definition owners (s : connections) : list (option Z) := worker_fd <$> cs_workers s.

Record inv (s : connections) : Prop := {
  iv_fault : cs_fault s = false;
  iv_slots : length (cs_slots s) = SM_PKG_SERVER_MAX_CONNECTIONS;
  iv_count : cs_count s = (count_if alive (cs_workers s) + listener_counts (cs_listener s))%nat;
  iv_workers : (count_if alive (cs_workers s) <= SM_PKG_SERVER_MAX_CONNECTIONS)%nat;
  iv_counted : forall fd, cs_listener s = LCounted fd ->
    (count_if alive (cs_workers s) < SM_PKG_SERVER_MAX_CONNECTIONS)%nat;
  iv_used : count_if used (cs_slots s) = count_if serving (cs_workers s);
  iv_registered : forall k fd i, cs_workers s !! k = Some (WServing fd i) -> cs_slots s !! i = Some (Some fd);
  iv_slot : forall i fd, cs_slots s !! i = Some (Some fd) -> exists k, cs_workers s !! k = Some (WServing fd i);
  iv_owned : forall fd, fd ∈ cs_open s <->
    (exists k, owners s !! k = Some (Some fd)) \/ listener_fd (cs_listener s) = Some fd;
  iv_distinct : forall k k' fd, owners s !! k = Some (Some fd) -> owners s !! k' = Some (Some fd) -> k = k';
  iv_listener : forall k fd, owners s !! k = Some (Some fd) -> listener_fd (cs_listener s) <> Some fd;
  iv_joined : cs_stop s = SSweeping \/ cs_stop s = SWaiting \/ cs_stop s = SFreed -> cs_listener s = LExited;
  iv_stopped : cs_stop s <> SRunning -> cs_running s = false;
  iv_freed : cs_stop s = SFreed -> cs_count s = 0%nat;
}.

(** ** Lemmas *)
Lemma owners_lookup s k w : cs_workers s !! k = Some w -> owners s !! k = Some (worker_fd w).
Proof. intros H. unfold owners. by rewrite list_lookup_fmap, H. Qed.

(** A worker that moves on and keeps its descriptor. *)
Lemma owners_same s k w w' : cs_workers s !! k = Some w -> worker_fd w' = worker_fd w ->
  worker_fd <$> <[k := w']> (cs_workers s) = owners s.
Proof.
  intros Hk Hw. unfold owners. rewrite list_fmap_insert, Hw. apply list_insert_id. by rewrite list_lookup_fmap, Hk.
Qed.

(** A worker that gives its descriptor up. *)
Lemma owners_drop s k w' : worker_fd w' = None ->
  worker_fd <$> <[k := w']> (cs_workers s) = <[k := None]> (owners s).
Proof. intros Hw. unfold owners. by rewrite list_fmap_insert, Hw. Qed.

Lemma owned_open s k w fd : inv s -> cs_workers s !! k = Some w -> worker_fd w = Some fd -> fd ∈ cs_open s.
Proof. intros [] Hk Hw. apply iv_owned0. left. exists k. by rewrite (owners_lookup s k w Hk), Hw. Qed.

(** Some slot is free while not all of them are used. *)
Lemma free_slot_some l : (count_if used l < length l)%nat -> exists i, free_slot l = Some i /\ l !! i = Some None.
Proof.
  intros Hl. destruct (free_slot l) as [i|] eqn:Hf.
  - exists i. split; [done|]. apply find_index_hit in Hf as (c & Hc & Hn). by destruct c.
  - exfalso. unfold free_slot in Hf. rewrite find_index_None in Hf.
    rewrite count_if_all in Hl; [lia|]. intros i c Hc. specialize (Hf i c Hc). by destruct c.
Qed.

Lemma serving_le_alive l : (count_if serving l <= count_if alive l)%nat.
Proof. induction l as [|w l IH]; simpl; [done|]. destruct w; simpl; lia. Qed.

Lemma count_alive_pos l k w : l !! k = Some w -> alive w = true -> (0 < count_if alive l)%nat.
Proof. apply count_if_pos. Qed.

Lemma count_alive_none l : (forall i w, l !! i = Some w -> alive w = false) -> count_if alive l = 0%nat.
Proof.
  induction l as [|w l IH]; intros H; [done|]. simpl. rewrite (H 0%nat w eq_refl), IH; [done|].
  intros i w' Hw. exact (H (S i) w' Hw).
Qed.

(** A worker that has not registered leaves room for itself. *)
Lemma serving_lt_alive l k w : l !! k = Some w -> alive w = true -> serving w = false ->
  (count_if serving l < count_if alive l)%nat.
Proof.
  intros Hk Ha Hs. rewrite <-(take_drop_middle l k w Hk), !count_if_app. simpl. rewrite Ha, Hs.
  pose proof (serving_le_alive (take k l)). pose proof (serving_le_alive (drop (S k) l)). lia.
Qed.

(** ** Every step keeps it *)
Lemma inv_connections_start : inv start_connections.
Proof.
  split; try done; unfold start_connections; cbn [cs_slots cs_workers cs_open cs_listener cs_stop owners fmap list_fmap].
  - apply Nat.le_0_l.
  - intros i fd H. by apply lookup_replicate_1 in H as [H _].
  - intros fd. split; [set_solver|]. by intros [[k H]|H].
  - by intros [|[|]].
Qed.

(** The listener moves; it owns what it owned. *)
Lemma inv_listen s l n : inv s -> listener_fd l = listener_fd (cs_listener s) ->
  n = (count_if alive (cs_workers s) + listener_counts l)%nat -> cs_listener s <> LExited ->
  (forall fd, l = LCounted fd -> (count_if alive (cs_workers s) < SM_PKG_SERVER_MAX_CONNECTIONS)%nat) ->
  inv (set_listener l (set_count n s)).
Proof.
  intros [] Hl Hn Hne Hc. split; simpl; rewrite ?Hl; try done.
  - intros H. destruct Hne. by apply iv_joined0.
  - intros H. destruct Hne. apply iv_joined0. by right; right.
Qed.

(** A worker that keeps its descriptor and its slot, if it has one. *)
Lemma inv_move s k w w' : inv s -> cs_workers s !! k = Some w -> worker_fd w' = worker_fd w ->
  alive w = true -> alive w' = true -> serving w = false -> serving w' = false ->
  inv (set_workers (<[k := w']> (cs_workers s)) s).
Proof.
  intros Hinv Hk Hw Ha Ha' Hs Hs'.
  assert (Ho : owners (set_workers (<[k := w']> (cs_workers s)) s) = owners s) by (unfold owners at 1; simpl; by eapply owners_same).
  pose proof (count_if_insert alive _ k w w' Hk) as Hca. rewrite Ha, Ha' in Hca.
  pose proof (count_if_insert serving _ k w w' Hk) as Hcs. rewrite Hs, Hs' in Hcs.
  destruct Hinv. split; rewrite ?Ho; simpl; try done; try lia.
  - intros fd Hl. specialize (iv_counted0 fd Hl). lia.
  - intros j fd i Hj. apply lookup_insert_cases in Hj as [(-> & <- & _)|(_ & Hj)]; [done|]. by eapply iv_registered0.
  - intros i fd Hi. destruct (iv_slot0 i fd Hi) as [j Hj]. exists j.
    rewrite list_lookup_insert_ne; [done|]. intros ->. rewrite Hk in Hj. by injection Hj as ->.
Qed.

Lemma inv_register s k fd i : inv s -> cs_workers s !! k = Some (WStart fd) -> cs_slots s !! i = Some None ->
  inv (set_workers (<[k := WServing fd i]> (cs_workers s)) (set_slots (<[i := Some fd]> (cs_slots s)) s)).
Proof.
  intros Hinv Hk Hi. set (s' := set_workers _ _).
  assert (Ho : owners s' = owners s) by (unfold owners at 1; simpl; by eapply owners_same).
  pose proof (count_if_insert alive _ k _ (WServing fd i) Hk) as Hca. simpl in Hca.
  pose proof (count_if_insert serving _ k _ (WServing fd i) Hk) as Hcs. simpl in Hcs.
  pose proof (count_if_insert used _ i _ (Some fd) Hi) as Hcu. simpl in Hcu.
  pose proof (lookup_lt_Some _ _ _ Hi) as Hil. pose proof (lookup_lt_Some _ _ _ Hk) as Hkl.
  destruct Hinv. split; rewrite ?Ho; simpl; try done; try lia.
  - by rewrite length_insert.
  - intros fd' Hl. specialize (iv_counted0 fd' Hl). lia.
  - intros j fd' i' Hj. apply lookup_insert_cases in Hj as [(-> & [= <- <-] & _)|(Hne & Hj)].
    + by apply list_lookup_insert_eq.
    + rewrite list_lookup_insert_ne; [by eapply iv_registered0|]. intros <-.
      rewrite (iv_registered0 _ _ _ Hj) in Hi. done.
  - intros i' fd' Hi'. apply lookup_insert_cases in Hi' as [(-> & [= <-] & _)|(Hne & Hi')].
    + exists k. by apply list_lookup_insert_eq.
    + destruct (iv_slot0 i' fd' Hi') as [j Hj]. exists j. rewrite list_lookup_insert_ne; [done|].
      intros ->. congruence.
Qed.

Lemma inv_unregister s k fd i : inv s -> cs_workers s !! k = Some (WServing fd i) ->
  inv (set_workers (<[k := WClosing fd]> (cs_workers s)) (set_slots (<[i := None]> (cs_slots s)) s)).
Proof.
  intros Hinv Hk. set (s' := set_workers _ _). pose proof (iv_registered _ Hinv _ _ _ Hk) as Hi.
  assert (Ho : owners s' = owners s) by (unfold owners at 1; simpl; by eapply owners_same).
  pose proof (count_if_insert alive _ k _ (WClosing fd) Hk) as Hca. simpl in Hca.
  pose proof (count_if_insert serving _ k _ (WClosing fd) Hk) as Hcs. simpl in Hcs.
  pose proof (count_if_insert used _ i _ None Hi) as Hcu. simpl in Hcu.
  pose proof (lookup_lt_Some _ _ _ Hi) as Hil. pose proof (lookup_lt_Some _ _ _ Hk) as Hkl.
  destruct Hinv. split; rewrite ?Ho; simpl; try done; try lia.
  - by rewrite length_insert.
  - intros fd' Hl. specialize (iv_counted0 fd' Hl). lia.
  - intros j fd' i' Hj. apply lookup_insert_cases in Hj as [(-> & [=] & _)|(Hne & Hj)].
    rewrite list_lookup_insert_ne; [by eapply iv_registered0|]. intros <-.
    pose proof (iv_registered0 _ _ _ Hj) as Hi2. rewrite Hi in Hi2. injection Hi2 as ->.
    apply Hne. eapply iv_distinct0; [exact (owners_lookup s j _ Hj)|exact (owners_lookup s k _ Hk)].
  - intros i' fd' Hi'. apply lookup_insert_cases in Hi' as [(-> & [=] & _)|(Hne & Hi')].
    destruct (iv_slot0 i' fd' Hi') as [j Hj]. exists j. rewrite list_lookup_insert_ne; [done|]. intros ->. congruence.
Qed.

Lemma inv_close s k fd : inv s -> cs_workers s !! k = Some (WClosing fd) ->
  inv (set_workers (<[k := WRetiring]> (cs_workers s)) (close_fd fd s)).
Proof.
  intros Hinv Hk. set (s' := set_workers _ _).
  assert (Hopen : fd ∈ cs_open s) by by eapply owned_open.
  assert (Ho : owners s' = <[k := None]> (owners s)) by (unfold owners at 1; simpl; by apply owners_drop).
  pose proof (owners_lookup s k _ Hk) as Hok. simpl in Hok.
  pose proof (count_if_insert alive _ k _ WRetiring Hk) as Hca. simpl in Hca.
  pose proof (count_if_insert serving _ k _ WRetiring Hk) as Hcs. simpl in Hcs.
  pose proof (lookup_lt_Some _ _ _ Hok) as Hkl.
  destruct Hinv. split; rewrite ?Ho; simpl; try done; try lia.
  - rewrite iv_fault0, bool_decide_false by tauto. done.
  - intros fd' Hl. specialize (iv_counted0 fd' Hl). lia.
  - intros j fd' i Hj. apply lookup_insert_cases in Hj as [(-> & [=] & _)|(_ & Hj)]. by eapply iv_registered0.
  - intros i fd' Hi. destruct (iv_slot0 i fd' Hi) as [j Hj]. exists j. rewrite list_lookup_insert_ne; [done|]. intros ->. congruence.
  - intros fd'. rewrite elem_of_difference, elem_of_singleton, iv_owned0. split.
    + intros [[[j Hj]|Hl] Hne]; [left|by right]. exists j. rewrite list_lookup_insert_ne; [done|]. intros ->. congruence.
    + intros [[j Hj]|Hl].
      * apply lookup_insert_cases in Hj as [(_ & [=] & _)|(Hne & Hj)]. split; [left; by exists j|]. intros ->.
        apply Hne. by eapply iv_distinct0.
      * split; [by right|]. intros ->. by destruct (iv_listener0 k fd).
  - intros j j' fd' Hj Hj'. apply lookup_insert_cases in Hj as [(_ & [=] & _)|(_ & Hj)].
    apply lookup_insert_cases in Hj' as [(_ & [=] & _)|(_ & Hj')]. by eapply iv_distinct0.
  - intros j fd' Hj. apply lookup_insert_cases in Hj as [(_ & [=] & _)|(_ & Hj)]. by eapply iv_listener0.
Qed.

Lemma inv_retire s k : inv s -> cs_workers s !! k = Some WRetiring ->
  inv (set_workers (<[k := WGone]> (cs_workers s)) (retire s)).
Proof.
  intros Hinv Hk. set (s' := set_workers _ _).
  assert (Ho : owners s' = owners s) by (unfold owners at 1; simpl; by eapply owners_same).
  pose proof (count_if_insert alive _ k _ WGone Hk) as Hca. simpl in Hca.
  pose proof (count_if_insert serving _ k _ WGone Hk) as Hcs. simpl in Hcs.
  pose proof (count_if_pos alive _ k _ Hk eq_refl).
  destruct Hinv. split; rewrite ?Ho; simpl; try done; try lia.
  - intros j fd' i Hj. apply lookup_insert_cases in Hj as [(-> & [=] & _)|(_ & Hj)]. by eapply iv_registered0.
  - intros i fd' Hi. destruct (iv_slot0 i fd' Hi) as [j Hj]. exists j. rewrite list_lookup_insert_ne; [done|]. intros ->. congruence.
  - intros H'. specialize (iv_freed0 H'). lia.
Qed.

Lemma inv_accept s fd : inv s -> cs_listener s = LLoop -> fd ∉ cs_open s ->
  inv (set_listener (LAccepted fd) (set_open ({[fd]} ∪ cs_open s) s)).
Proof.
  intros [] Hl Hn. rewrite Hl in *. split; simpl; try done.
  - intros fd'. rewrite elem_of_union, elem_of_singleton, iv_owned0. simpl. split.
    + intros [->|[H|H]]; [by right|by left|done].
    + intros [H|[= ->]]; [right; by left|by left].
  - intros k fd' Hk [= ->]. apply Hn, iv_owned0. left. by exists k.
  - intros H. specialize (iv_joined0 H). done.
Qed.

Lemma inv_thread s fd : inv s -> cs_listener s = LCounted fd ->
  inv (set_listener LLoop (set_workers (cs_workers s ++ [WStart fd]) s)).
Proof.
  intros [] Hl. rewrite Hl in *. specialize (iv_counted0 fd eq_refl). simpl in *.
  assert (Ho : forall k x, (owners s ++ [Some fd]) !! k = Some x <->
    owners s !! k = Some x \/ (k = length (owners s) /\ x = Some fd)).
  { intros k x. rewrite lookup_app_Some, list_lookup_singleton_Some. split; [|intros [H|[-> ->]]].
    - intros [H|(H1 & H2 & <-)]; [by left|right]. split; [lia|done].
    - by left.
    - right. split_and!; [lia|lia|done]. }
  assert (Hlen : length (owners s) = length (cs_workers s)) by (unfold owners; by rewrite length_fmap).
  split; simpl; try done; rewrite ?count_if_app; simpl; try lia.
  - intros k fd' i. rewrite lookup_app_Some, list_lookup_singleton_Some. intros [Hk|(_ & _ & [=])]. by eapply iv_registered0.
  - intros i fd' Hi. destruct (iv_slot0 i fd' Hi) as [k Hk]. exists k. by apply lookup_app_l_Some.
  - intros fd'. rewrite iv_owned0. unfold owners at 2. simpl. rewrite fmap_app. simpl. fold (owners s). split.
    + intros [[k Hk]|[= ->]]; left; [exists k; apply Ho; by left|]. exists (length (owners s)). apply Ho. by right.
    + intros [[k Hk]|[=]]. apply Ho in Hk as [Hk|[_ [= ->]]]; [left; by exists k|by right].
  - unfold owners. simpl. rewrite fmap_app. simpl. fold (owners s). intros k k' fd' Hk Hk'.
    apply Ho in Hk as [Hk|[-> Hf]]; apply Ho in Hk' as [Hk'|[-> Hf']]; simplify_eq; [by eapply iv_distinct0| | |done].
    + by destruct (iv_listener0 k fd Hk).
    + by destruct (iv_listener0 k' fd Hk').
  - intros H. specialize (iv_joined0 H). done.
Qed.

Lemma inv_listener_close s fd : inv s -> cs_listener s = LClose fd -> inv (set_listener LLoop (close_fd fd s)).
Proof.
  intros [] Hl. rewrite Hl in *. simpl in *.
  assert (Hopen : fd ∈ cs_open s) by (apply iv_owned0; by right).
  split; simpl; try done.
  - rewrite iv_fault0, bool_decide_false by tauto. done.
  - intros fd'. rewrite elem_of_difference, elem_of_singleton, iv_owned0. split.
    + intros [[H|[= ->]] Hne]; [by left|done].
    + intros [[k Hk]|[=]]. split; [left; by exists k|]. intros ->. by destruct (iv_listener0 k fd Hk).
  - intros H. specialize (iv_joined0 H). done.
Qed.


(** ** All steps *)
Lemma set_count_same s : set_count (cs_count s) s = s.
Proof. by destruct s. Qed.

(** The listener counts a connection: refused when all the workers are there. *)
Lemma inv_count_step s fd : inv s -> cs_listener s = LAccepted fd ->
  inv (set_listener (if (SM_PKG_SERVER_MAX_CONNECTIONS <? S (cs_count s))%nat then LRetire fd else LCounted fd)
         (set_count (S (cs_count s)) s)).
Proof.
  intros Hinv Hl. pose proof (iv_count _ Hinv) as Hc. rewrite Hl in Hc. simpl in Hc.
  destruct (Nat.ltb_spec SM_PKG_SERVER_MAX_CONNECTIONS (S (cs_count s))) as [Hlt|Hlt];
    (apply inv_listen; simpl; rewrite ?Hl; [done|done|lia|done|]); intros fd' Hf; [done|lia].
Qed.

(** Every registered connection is open, so the sweep shuts down what the server owns. *)
Lemma sweep_same s : inv s -> sweep s = s.
Proof.
  intros Hinv. assert (Hs : existsb (fun c => match c with Some fd => bool_decide (fd ∉ cs_open s) | None => false end) (cs_slots s) = false).
  { apply not_true_is_false. intros (c & Hin & Hc)%existsb_exists. apply list_elem_of_In, list_elem_of_lookup in Hin as [i Hi].
    destruct c as [fd|]; [|done]. destruct (iv_slot _ Hinv i fd Hi) as [k Hk]. apply bool_decide_eq_true in Hc. apply Hc.
    by eapply owned_open. }
  unfold sweep. rewrite Hs. unfold set_fault. rewrite orb_false_r. by destruct s.
Qed.

Lemma inv_phase s p : inv s -> (p = SSweeping \/ p = SWaiting \/ p = SFreed -> cs_listener s = LExited) ->
  (p <> SRunning -> cs_running s = false) -> (p = SFreed -> cs_count s = 0%nat) -> inv (set_phase p s).
Proof. intros [] Hj Hr Hf. by split. Qed.

(** A worker that registers always finds a slot. *)
Lemma register_finds s k fd : inv s -> cs_workers s !! k = Some (WStart fd) ->
  exists i, free_slot (cs_slots s) = Some i /\ cs_slots s !! i = Some None.
Proof.
  intros Hinv Hk. apply free_slot_some. rewrite (iv_used _ Hinv), (iv_slots _ Hinv).
  pose proof (serving_lt_alive _ _ _ Hk eq_refl eq_refl). pose proof (iv_workers _ Hinv). lia.
Qed.

Lemma inv_connections_step s s' : inv s -> step s s' -> inv s'.
Proof.
  intros Hinv Hs. destruct Hs as [Hl|fd Hl Hr Hn|fd Hl|fd Hl|fd Hl|fd Hl|fd Hl|fd Hl|k fd Hk|k fd i Hk|k fd Hk|k Hk|Hp|Hp Hl|Hp|Hp Hc].
  - rewrite <-(set_count_same s). apply inv_listen; rewrite ?Hl; try done. rewrite (iv_count _ Hinv), Hl. done.
  - by apply inv_accept.
  - rewrite <-(set_count_same s). apply inv_listen; rewrite ?Hl; try done. rewrite (iv_count _ Hinv), Hl. done.
  - by apply inv_count_step.
  - rewrite <-(set_count_same s). apply inv_listen; rewrite ?Hl; try done. rewrite (iv_count _ Hinv), Hl. done.
  - by apply inv_thread.
  - apply inv_listen; rewrite ?Hl; try done. rewrite (iv_count _ Hinv), Hl. simpl. lia.
  - by apply inv_listener_close.
  - destruct (register_finds s k fd Hinv Hk) as (i & -> & Hi). by apply inv_register.
  - by apply inv_unregister.
  - by apply inv_close.
  - by apply inv_retire.
  - apply (inv_phase (set_stopped s)); try done; [|by intros [|[|]]]. destruct Hinv. by split.
  - apply inv_phase; try done. intros _. apply (iv_stopped _ Hinv). by rewrite Hp.
  - rewrite (sweep_same s Hinv). apply inv_phase; try done; [|intros _; apply (iv_stopped _ Hinv); by rewrite Hp].
    intros _. apply (iv_joined _ Hinv). by left.
  - apply inv_phase; try done; [|intros _; apply (iv_stopped _ Hinv); by rewrite Hp].
    intros _. apply (iv_joined _ Hinv). by right; left.
Qed.

Lemma reachable_connections s : reachable s -> inv s.
Proof. induction 1; [apply inv_connections_start|by eapply inv_connections_step]. Qed.

(** ** What is left to do once the server was told to stop *)
Definition worker_left (w : worker) : nat :=
  match w with WStart _ => 4 | WServing _ _ => 3 | WClosing _ => 2 | WRetiring => 1 | WGone => 0 end.
Definition listener_left (l : listener) : nat :=
  match l with LAccepted _ => 7 | LCounted _ => 6 | LRetire _ => 3 | LClose _ => 2 | LLoop => 1 | LExited => 0 end.
Definition stop_left (p : stopper) : nat :=
  match p with SRunning => 4 | SJoining => 3 | SSweeping => 2 | SWaiting => 1 | SFreed => 0 end.
Definition left_of (s : connections) : nat :=
  (sum_list_with worker_left (cs_workers s) + listener_left (cs_listener s) + stop_left (cs_stop s))%nat.

Lemma left_insert l k w w' : l !! k = Some w ->
  (sum_list_with worker_left (<[k := w']> l) + worker_left w = sum_list_with worker_left l + worker_left w')%nat.
Proof.
  intros Hk. pose proof (take_drop_middle l k w Hk) as Hl. pose proof (lookup_lt_Some _ _ _ Hk) as Hlt.
  rewrite <-Hl at 2. rewrite insert_take_drop by done. rewrite !sum_list_with_app. simpl. lia.
Qed.

Lemma left_workers l : (sum_list_with worker_left l <= 4 * count_if alive l)%nat.
Proof. induction l as [|[]]; simpl in *; lia. Qed.

Lemma left_bound s : inv s -> cs_stop s <> SRunning -> (left_of s <= 4 * SM_PKG_SERVER_MAX_CONNECTIONS + 10)%nat.
Proof.
  intros Hinv Hs. unfold left_of. pose proof (left_workers (cs_workers s)). pose proof (iv_workers _ Hinv).
  assert (listener_left (cs_listener s) <= 7)%nat by (destruct (cs_listener s); simpl; lia).
  assert (stop_left (cs_stop s) <= 3)%nat by (destruct (cs_stop s); simpl; congruence || lia).
  unfold SM_PKG_SERVER_MAX_CONNECTIONS in *. lia.
Qed.

Lemma left_step s s' : inv s -> cs_stop s <> SRunning -> step s s' -> (left_of s' < left_of s)%nat /\ cs_stop s' <> SRunning.
Proof.
  intros Hinv Hrun Hs. pose proof (iv_stopped _ Hinv Hrun) as Hr0. unfold left_of.
  destruct Hs as [Hl|fd Hl Hr Hn|fd Hl|fd Hl|fd Hl|fd Hl|fd Hl|fd Hl|k fd Hk|k fd i Hk|k fd Hk|k Hk|Hp|Hp Hl|Hp|Hp Hc];
    try rewrite Hl; simpl; try (split; [|done]); try lia; try congruence.
  - case_match; simpl; lia.
  - rewrite sum_list_with_app. simpl. lia.
  - destruct (free_slot (cs_slots s)) as [i|]; [pose proof (left_insert _ _ _ (WServing fd i) Hk)|pose proof (left_insert _ _ _ (WClosing fd) Hk)]; simpl in *;
      (split; [lia|done]).
  - pose proof (left_insert _ _ _ (WClosing fd) Hk). simpl in *. lia.
  - pose proof (left_insert _ _ _ WRetiring Hk). simpl in *. lia.
  - pose proof (left_insert _ _ _ WGone Hk). simpl in *. lia.
  - rewrite Hp, Hl. simpl. lia.
  - rewrite Hp. simpl. lia.
  - rewrite Hp. simpl. lia.
Qed.

(** [n] steps. *)
Inductive steps : nat -> connections -> connections -> Prop :=
  | steps_none s : steps 0 s s
  | steps_next n s s' s'' : step s s' -> steps n s' s'' -> steps (S n) s s''.

Lemma left_steps n s s' : inv s -> cs_stop s <> SRunning -> steps n s s' ->
  (n + left_of s' <= left_of s)%nat /\ inv s' /\ cs_stop s' <> SRunning.
Proof.
  intros Hinv Hrun H. induction H as [s|n s s' s'' Hs H IH]; [split_and!; [lia|done|done]|].
  destruct (left_step s s' Hinv Hrun Hs) as [Hlt Hrun']. destruct (IH (inv_connections_step _ _ Hinv Hs) Hrun') as (? & ? & ?).
  split_and!; [lia|done|done].
Qed.

(** A live worker can always go on. *)
Lemma alive_steps s k w : cs_workers s !! k = Some w -> alive w = true -> exists s', step s s'.
Proof.
  intros Hk Ha. destruct w as [fd|fd i|fd| |]; [| | | |done]; eexists.
  - by eapply w_register.
  - by eapply w_unregister.
  - by eapply w_close.
  - by eapply w_retire.
Qed.

Lemma stop_can_step s : inv s -> cs_stop s <> SRunning -> cs_stop s = SFreed \/ exists s', step s s'.
Proof.
  intros Hinv Hrun. destruct (cs_stop s) eqn:Hp; [done| | | |by left]; right.
  - destruct (cs_listener s) as [|fd|fd|fd|fd|] eqn:Hl; eexists.
    + by apply l_leave.
    + by eapply l_count.
    + by eapply l_thread.
    + by eapply l_retire.
    + by eapply l_close.
    + by apply s_join.
  - eexists. by apply s_sweep.
  - destruct (decide (cs_count s = 0%nat)) as [Hc|Hc]; [eexists; by apply s_free|].
    pose proof (iv_count _ Hinv) as Hcount. rewrite (iv_joined _ Hinv) in Hcount by (right; by left). simpl in Hcount.
    destruct (find_index alive (cs_workers s)) as [k|] eqn:Hf.
    + apply find_index_hit in Hf as (w & Hw & Ha). by eapply alive_steps.
    + rewrite find_index_None in Hf. exfalso. rewrite (count_alive_none _ Hf) in Hcount. lia.
Qed.

(** What the released server leaves. *)
Lemma freed_all_gone s : inv s -> cs_stop s = SFreed ->
  cs_listener s = LExited /\ (forall k w, cs_workers s !! k = Some w -> w = WGone) /\ cs_open s = ∅ /\ (forall s', ~ step s s').
Proof.
  intros Hinv Hp. pose proof (iv_joined _ Hinv) as Hl. specialize (Hl (or_intror (or_intror Hp))).
  assert (Hw : forall k w, cs_workers s !! k = Some w -> w = WGone).
  { intros k w Hk. destruct (alive w) eqn:Ha; [|by destruct w]. pose proof (count_alive_pos _ _ _ Hk Ha).
    pose proof (iv_count _ Hinv). rewrite (iv_freed _ Hinv Hp) in *. lia. }
  split_and!; [done|done| |].
  - apply set_eq. intros fd. rewrite (iv_owned _ Hinv), Hl. split; [|set_solver]. intros [[k Hk]|[=]].
    unfold owners in Hk. rewrite list_lookup_fmap in Hk. destruct (cs_workers s !! k) as [w|] eqn:Hkw; [|done].
    by rewrite (Hw k w Hkw) in Hk.
  - intros s' Hs. inversion Hs; try congruence; match goal with H : cs_workers s !! _ = Some _ |- _ => by apply Hw in H end.
Qed.

(** * Properties *)

(** Claim C39: the threads of a package server, whatever the order in which the
    listener, the workers and [sm_pkg_server_stop] run and whatever calls fail:
    no thread ever closes or shuts down a descriptor that the server does not
    own (a number closed by one thread and given to another part of the program
    meanwhile), at most sixteen workers are alive, each of them finds a free slot
    in which to register; and when [sm_pkg_server_stop] releases the server the
    listener has ended, all the workers are gone, every accepted connection has
    been closed, and no thread has a step left that would touch the server. *)
Theorem server_threads_safe s : reachable s ->
  cs_fault s = false /\ (count_if alive (cs_workers s) <= SM_PKG_SERVER_MAX_CONNECTIONS)%nat /\
  (forall k fd, cs_workers s !! k = Some (WStart fd) -> exists i, free_slot (cs_slots s) = Some i) /\
  (cs_stop s = SFreed -> cs_listener s = LExited /\ (forall k w, cs_workers s !! k = Some w -> w = WGone) /\
     cs_open s = ∅ /\ (forall s', ~ step s s')).
Proof.
  intros Hr. pose proof (reachable_connections s Hr) as Hinv. split_and!.
  - apply (iv_fault _ Hinv).
  - apply (iv_workers _ Hinv).
  - intros k fd Hk. destruct (register_finds s k fd Hinv Hk) as (i & Hi & _). by exists i.
  - by apply freed_all_gone.
Qed.

(** One connection served and the server stopped. *)
Lemma server_threads_safe_witness : exists s, reachable s /\ cs_stop s = SFreed /\ cs_fault s = false /\ cs_open s = ∅.
Proof.
  assert (Hr : exists s, reachable s /\ cs_stop s = SFreed).
  { eexists. split.
    - eapply reach_step; [eapply reach_step; [eapply reach_step; [eapply reach_step; [eapply reach_step; [
      eapply reach_step; [eapply reach_step; [eapply reach_step; [eapply reach_step; [eapply reach_step; [
      eapply reach_step; [eapply reach_step; [apply reach_start
      |eapply (l_accept _ 7); [reflexivity|reflexivity|set_solver]]
      |eapply (l_count _ 7); reflexivity]
      |eapply (l_thread _ 7); reflexivity]
      |eapply (w_register _ 0 7); reflexivity]
      |eapply (w_unregister _ 0 7 0); reflexivity]
      |apply s_stop; reflexivity]
      |apply l_leave; reflexivity]
      |apply s_join; reflexivity]
      |apply s_sweep; reflexivity]
      |eapply (w_close _ 0 7); reflexivity]
      |eapply (w_retire _ 0); reflexivity]
      |apply s_free; reflexivity].
    - reflexivity. }
  destruct Hr as (s & Hr & Hf). exists s. destruct (server_threads_safe s Hr) as (H1 & _ & _ & H2).
  destruct (H2 Hf) as (_ & _ & H3 & _). done.
Defined.

(** once [sm_pkg_server_stop] has been called it comes to its end:
    from any reachable state the listener, the workers and the stop take together
    at most 74 more steps, in whatever order, and as long as the server has not
    been released one of them can go on; so the wait for the worker count never
    blocks for good, and the server is released. *)
Theorem server_stop_ends s n s' : reachable s -> cs_stop s <> SRunning -> steps n s s' ->
  (n <= 4 * SM_PKG_SERVER_MAX_CONNECTIONS + 10)%nat /\ (cs_stop s' = SFreed \/ exists s'', step s' s'').
Proof.
  intros Hr Hrun Hs. pose proof (reachable_connections s Hr) as Hinv.
  destruct (left_steps n s s' Hinv Hrun Hs) as (Hn & Hinv' & Hrun'). pose proof (left_bound s Hinv Hrun).
  split; [lia|by apply stop_can_step].
Qed.

Lemma server_stop_ends_witness : exists s s', reachable s /\ cs_listener s = LCounted 7 /\ steps 1 s s' /\
  cs_workers s' = [WStart 7] /\ exists s'', step s' s''.
Proof.
  assert (Hr : exists s s', reachable s /\ cs_listener s = LCounted 7 /\ cs_stop s <> SRunning /\ steps 1 s s' /\
    cs_workers s' = [WStart 7] /\ cs_stop s' = SJoining).
  { do 2 eexists. split_and!.
    - eapply reach_step; [eapply reach_step; [eapply reach_step; [apply reach_start
      |eapply (l_accept _ 7); [reflexivity|reflexivity|set_solver]]
      |eapply (l_count _ 7); reflexivity]
      |apply s_stop; reflexivity].
    - reflexivity.
    - discriminate.
    - eapply steps_next; [|apply steps_none]. eapply (l_thread _ 7). reflexivity.
    - reflexivity.
    - reflexivity. }
  destruct Hr as (s & s' & Hr & Hl & Hrun & Hs & Hw & Hp). exists s, s'.
  destruct (server_stop_ends s 1 s' Hr Hrun Hs) as (_ & [Hf|Hstep]); [congruence|done].
Defined.
