(* ===== verification/ScanCandidates.v ===== *)
(** * Collecting candidates for installation (src/sm_scan.c, first part)

    The pass over the scan roots, the images in them and the sources added by hand
    that decides what is handed to the installation.  The walk is the one of
    ScanTree.v.

    What other components and the system answer are questions, answered at the number
    of the question; calls that only change another component are recorded.  The trace
    holds both, newest first.  The flag that callers pass down by address is part of
    the state: a scan of an image has one of its own ([with_own_flag]). *)
From S2P Require Import Prelude CString StateTable TitleState ImageKinds ScanTree Effects GameCache.
From stdpp Require Import list.
Open Scope Z_scope.
Open Scope c_scope.

Definition DEFAULT_BACKPORT_SCAN_PATH : string := "/data/homebrew".

(** What a walk meets: the file system, the configured roots, and when the program is
    asked to stop or a game runs. *)
Record walk_env := WalkEnv {
  we_fs : scan_fs; we_scan_paths : list string; we_stop : nat -> bool; we_active_game : nat -> bool;
}.

Inductive question : Type -> Type :=
  | QStop : question bool
  | QBackground : question bool
  | QActiveMountPoint (path : string) : question bool
  | QGameParam (path : string) : question bool
  | QMissingParamLimited (path : string) : question bool
  | QGameInfo (path : string) : question (option (string * string))
  | QMountLink (title_id : string) : question (option string)
  | QImageLink (title_id : string) : question (option string)
  | QDataMounted (title_id : string) : question bool
  | QInstalled (title_id : string) : question bool
  | QAppmeta (title_id : string) : question bool
  | QExecutable (path : string) : question bool
  | QIndexHasTitle (image title_id : string) : question bool
  | QInstallPending (title_id : string) : question bool
  | QRegisterAttempted (title_id : string) : question bool
  | QFailedAttempts (title_id : string) : question Z
  | QStable (path name : string) : question bool
  | QRecordGame (path title_id : string) : question bool
  | QProtected (title_id : string) : question bool
  | QUninstall (title_id : string) : question Z
  | QMountImage (path name : string) : question (bool * bool)   (* mounted, reported as unstable *)
  | QStat (path : string) : question (option file_kind)
  | QReadyTitles (image : string) : question (option (list string))   (* the titles visited, if ready *)
  | QPersistentMounts : question bool
  | QMountPoint (image : string) : question string
  | QScanDepth (path : string) : question nat
  | QWalk (root : string) : question walk_env
  | QScanPaths : question (list (option string))
  | QManualPaths : question (list string)   (* none when the list cannot be opened *)
  | QAppDbTitles : question (option (list string))
  | QBlockedTitles : question (option (list string)).

Inductive call :=
  | RecordMissingParam (path : string)
  | ClearMissingParam (path : string)
  | CacheGame (path title_id title_name : string)
  | NoteSourceSeen (path title_id title_name : string)
  | NotifyDuplicate (title_id ignored existing : string)
  | ManualInstalled (source title_id title_name : string)
  | ManualMissing (source : string)
  | ManualPresent (source : string)
  | ManualReconcile
  | ForgetPending (title_id : string)
  | InvalidateTitles
  | BeginScan (image : string)
  | CompleteScan (image : string)
  | FlushIndex
  | RepairModuleCase (path : string)
  | RepairBackports (root : string)
  (* not calls: the batch is full; a walk and its result; manual sources left for later *)
  | BatchFull
  | Walked (root : string) (ok : bool)
  | ManualDeferred (source : string).

Inductive scan_event := Asked (A : Type) (q : question A) (answer : A) | Called (c : call).

(** What a question is answered, at its number. *)
Definition answers : Type := forall A : Type, nat -> question A -> A.

Record scan_candidate_t := Candidate {
  sc_path : string; sc_title_id : string; sc_title_name : string; sc_manual_source_path : string;
  sc_installed : bool; sc_in_app_db : bool; sc_manual : bool;
}.

(** [scan_workspace_t], the candidates collected, [*unstable_found_out]. *)
Record scan_world := Scan {
  found_titles : list string;
  checked_appmeta : list (string * bool);
  blocked_ppsa_uninstall : list string;
  discovered_param_roots : list string;
  candidates : list scan_candidate_t;
  unstable_found : bool;
  s_clock : nat;
  s_trace : list scan_event;
}.

Abbreviation M := (prog scan_world).

Record app_db_context := AppDb { titles : option (list string); blocked_ppsa_titles : option (list string) }.

Inductive directory_candidate_probe_t :=
  | DIRECTORY_CANDIDATE_DESCEND
  | DIRECTORY_CANDIDATE_SKIP_DESCEND
  | DIRECTORY_CANDIDATE_READY (title_id title_name : string).

Inductive existing_directory_result_t :=
  | EXISTING_DIRECTORY_CONTINUE (installed in_app_db : bool)
  | EXISTING_DIRECTORY_HANDLED
  | EXISTING_DIRECTORY_PREFER_CURRENT
  | EXISTING_DIRECTORY_PREFER_CACHED (path : string).

(** ** The state *)
Definition set_found (l : list string) : M () := change (fun w =>
  Scan l (checked_appmeta w) (blocked_ppsa_uninstall w) (discovered_param_roots w) (candidates w) (unstable_found w) (s_clock w) (s_trace w)).
Definition set_appmeta (l : list (string * bool)) : M () := change (fun w =>
  Scan (found_titles w) l (blocked_ppsa_uninstall w) (discovered_param_roots w) (candidates w) (unstable_found w) (s_clock w) (s_trace w)).
Definition set_blocked (l : list string) : M () := change (fun w =>
  Scan (found_titles w) (checked_appmeta w) l (discovered_param_roots w) (candidates w) (unstable_found w) (s_clock w) (s_trace w)).
Definition set_roots (l : list string) : M () := change (fun w =>
  Scan (found_titles w) (checked_appmeta w) (blocked_ppsa_uninstall w) l (candidates w) (unstable_found w) (s_clock w) (s_trace w)).
Definition set_candidates (l : list scan_candidate_t) : M () := change (fun w =>
  Scan (found_titles w) (checked_appmeta w) (blocked_ppsa_uninstall w) (discovered_param_roots w) l (unstable_found w) (s_clock w) (s_trace w)).
Definition set_unstable (b : bool) : M () := change (fun w =>
  Scan (found_titles w) (checked_appmeta w) (blocked_ppsa_uninstall w) (discovered_param_roots w) (candidates w) b (s_clock w) (s_trace w)).
Definition tell (c : call) : M () := change (fun w =>
  Scan (found_titles w) (checked_appmeta w) (blocked_ppsa_uninstall w) (discovered_param_roots w) (candidates w) (unstable_found w) (s_clock w)
    (Called c :: s_trace w)).

(** [*unstable_found_out = true]. *)
Definition flag_unstable : M () := set_unstable true.

(** A part with a flag of its own, initially [b]; the caller's flag is set when it was
    set, the part's flag is the result. *)
Definition with_own_flag (b : bool) (m : M ()) : M bool :=
  let* outer := look unstable_found in
  let* _ := set_unstable b in
  let* _ := m in
  let* inner := look unstable_found in
  let* _ := set_unstable (outer || inner) in
  ret inner.

Definition note_found_title (title_id : string) : M () :=
  if strcmp_eq title_id "" then ret tt
  else
    let* l := look found_titles in
    if existsb (fun t => strcmp_eq t title_id) l || (MAX_PENDING <=? length l)%nat then ret tt
    else set_found (l ++ [strlcpy title_id MAX_TITLE_ID]).

Definition blocked_ppsa_uninstall_requested (title_id : string) : M bool :=
  let* l := look blocked_ppsa_uninstall in
  ret (negb (strcmp_eq title_id "") && existsb (fun t => strcmp_eq t title_id) l).

Definition remember_blocked_ppsa_uninstall (title_id : string) : M () :=
  let* requested := blocked_ppsa_uninstall_requested title_id in
  if strcmp_eq title_id "" || requested then ret tt
  else
    let* l := look blocked_ppsa_uninstall in
    if (MAX_PENDING <=? length l)%nat then ret tt else set_blocked (l ++ [strlcpy title_id MAX_TITLE_ID]).

Definition is_blocked_ppsa_title (app_db : app_db_context) (title_id : string) : bool :=
  match blocked_ppsa_titles app_db with Some l => app_db_title_list_contains l title_id | None => false end.

Definition is_under_discovered_param_root (path : string) (roots : list string) : bool :=
  existsb (fun root => has_prefix path root &&
    (bool_decide (char_at path (strlen root) = None) || bool_decide (char_at path (strlen root) = Some slash))) roots.

Definition find_scan_candidate_index_by_title_id (l : list scan_candidate_t) (title_id : string) : option nat :=
  find_index (fun c => strcmp_eq (sc_title_id c) title_id) l.

Definition mark_scan_candidate_manual (manual_source_path : option string) (c : scan_candidate_t) : scan_candidate_t :=
  match manual_source_path with
  | Some source =>
      if strcmp_eq source "" then c
      else Candidate (sc_path c) (sc_title_id c) (sc_title_name c) (strlcpy source MAX_PATH) (sc_installed c) (sc_in_app_db c) true
  | None => c
  end.

Definition remove_scan_candidate_at (index : nat) (l : list scan_candidate_t) : list scan_candidate_t := delete index l.

Section scan.
Context (sys : answers) (max_candidates : nat).

Definition ask {A} (q : question A) : M A := fun w =>
  let a := sys A (s_clock w) q in
  Some (a, Scan (found_titles w) (checked_appmeta w) (blocked_ppsa_uninstall w) (discovered_param_roots w) (candidates w) (unstable_found w)
             (S (s_clock w)) (Asked A q a :: s_trace w)).

Definition note_found_indexed_title (image_path title_id : string) : M () :=
  let* _ := note_found_title title_id in
  let* runtime_path := ask (QMountLink title_id) in
  match runtime_path with
  | None => ret tt
  | Some runtime_path =>
      let* linked_image := ask (QImageLink title_id) in
      match linked_image with
      | None => ret tt
      | Some linked_image =>
          let* _ := when (negb (strcmp_eq linked_image image_path)) (tell (NotifyDuplicate title_id image_path linked_image)) in
          tell (CacheGame runtime_path title_id "")
      end
  end.

Fixpoint note_indexed_titles (image_path : string) (found : list string) : M () :=
  match found with
  | [] => ret tt
  | title_id :: found' =>
      let* _ := note_found_indexed_title image_path title_id in
      note_indexed_titles image_path found'
  end.

Definition mount_persistent_indexed_image (image_path image_name : string) : M bool :=
  let* answer := ask (QMountImage image_path image_name) in
  let '(mounted, image_unstable) := answer in
  if mounted : bool then ret true
  else let* _ := when image_unstable flag_unstable in ret false.

Definition request_blocked_ppsa_uninstall (title_id : string) : M bool :=
  let* requested := blocked_ppsa_uninstall_requested title_id in
  if strcmp_eq title_id "" || requested then ret false
  else
    let* _ := remember_blocked_ppsa_uninstall title_id in
    let* res := ask (QUninstall title_id) in
    if res =? 0 then
      let* _ := tell (ForgetPending title_id) in
      let* _ := tell InvalidateTitles in
      ret true
    else ret false.

Definition get_appmeta_present_for_scan_cycle (title_id : string) : M bool :=
  let* l := look checked_appmeta in
  match find_index (fun e => strcmp_eq e.1 title_id) l ≫= fun i => l !! i with
  | Some e => ret e.2
  | None =>
      let* present := ask (QAppmeta title_id) in
      let* _ := when (length l <? MAX_PENDING)%nat (set_appmeta (l ++ [(strlcpy title_id MAX_TITLE_ID, present)])) in
      ret present
  end.

(** ** One directory *)
Definition probe_directory_candidate (full_path : string) (allow_known_param_root : bool) : M directory_candidate_probe_t :=
  let* roots := look discovered_param_roots in
  if is_pfsc_image_mount_base_or_child full_path then ret DIRECTORY_CANDIDATE_DESCEND
  else if negb allow_known_param_root && is_under_discovered_param_root full_path roots then ret DIRECTORY_CANDIDATE_SKIP_DESCEND
  else
    let* inactive :=
      (if is_under_image_mount_base full_path then let* active := ask (QActiveMountPoint full_path) in ret (negb active)
       else ret false) in
    if inactive : bool then ret DIRECTORY_CANDIDATE_SKIP_DESCEND
    else
      let* has_param := ask (QGameParam full_path) in
      if negb has_param then
        let* limited := ask (QMissingParamLimited full_path) in
        let* _ := when (negb limited) (tell (RecordMissingParam full_path)) in
        ret DIRECTORY_CANDIDATE_DESCEND
      else
        let* info := ask (QGameInfo full_path) in
        match info with
        | None =>
            let* _ := tell (RecordMissingParam full_path) in
            ret DIRECTORY_CANDIDATE_SKIP_DESCEND
        | Some (title_id, title_name) =>
            let* _ := when ((length roots <? MAX_PENDING)%nat && negb (is_under_discovered_param_root full_path roots))
                        (set_roots (roots ++ [strlcpy full_path MAX_PATH])) in
            let* _ := tell (ClearMissingParam full_path) in
            ret (DIRECTORY_CANDIDATE_READY (strlcpy title_id MAX_TITLE_ID) (strlcpy title_name MAX_TITLE_NAME))
        end.

(** [true]: there is no room; the caller's flag is set. *)
Definition defer_full_candidate_batch : M bool :=
  let* l := look candidates in
  if (length l <? max_candidates)%nat then ret false
  else
    let* _ := tell BatchFull in
    let* _ := flag_unstable in
    ret true.

Definition handle_existing_directory_candidate (full_path : string) (app_db : app_db_context) (title_id title_name : string) :
    M existing_directory_result_t :=
  let* tracked_path := ask (QMountLink title_id) in
  let link_matches_source := match tracked_path with Some p => strcmp_eq p full_path | None => false end in
  if is_blocked_ppsa_title app_db title_id then
    let* _ := request_blocked_ppsa_uninstall title_id in
    ret EXISTING_DIRECTORY_HANDLED
  else
    match titles app_db with
    | None =>
        let* mounted := (if link_matches_source then ask (QDataMounted title_id) else ret false) in
        if mounted : bool then
          let* _ := tell (CacheGame full_path title_id title_name) in
          ret EXISTING_DIRECTORY_PREFER_CURRENT
        else ret EXISTING_DIRECTORY_HANDLED
    | Some titles =>
        let in_app_db := app_db_title_list_contains titles title_id in
        let* installed := (if in_app_db then ask (QInstalled title_id) else ret false) in
        let* appmeta_present := (if installed : bool then get_appmeta_present_for_scan_cycle title_id else ret false) in
        let* source_valid := (if installed && link_matches_source then ask (QExecutable full_path) else ret false) in
        if source_valid && appmeta_present then
          let* _ := tell (CacheGame full_path title_id title_name) in
          ret EXISTING_DIRECTORY_PREFER_CURRENT
        else
          let* other :=
            match tracked_path with
            | Some tracked_path =>
                if installed && appmeta_present && negb (strcmp_eq tracked_path full_path) then
                  let* linked_source_valid :=
                    (if is_under_image_mount_base tracked_path then
                       let* linked_image := ask (QImageLink title_id) in
                       match linked_image with
                       | Some image => ask (QIndexHasTitle image title_id)
                       | None => ret false
                       end
                     else ret false) in
                  let* kept := (if linked_source_valid : bool then ret true else ask (QDataMounted title_id)) in
                  ret (if kept : bool then Some tracked_path else None)
                else ret None
            | None => ret None
            end in
          match other with
          | Some tracked_path =>
              let* _ := tell (CacheGame tracked_path title_id title_name) in
              ret (EXISTING_DIRECTORY_PREFER_CACHED tracked_path)
          | None =>
              let* pending := (if in_app_db then ret false else ask (QInstallPending title_id)) in
              if pending : bool then ret EXISTING_DIRECTORY_HANDLED
              else
                let* attempted := (if in_app_db then ret false else ask (QRegisterAttempted title_id)) in
                if attempted : bool then ret EXISTING_DIRECTORY_HANDLED
                else ret (EXISTING_DIRECTORY_CONTINUE installed in_app_db)
          end
    end.

Definition metadata_path_of (full_path : string) : string := (full_path ++ "/sce_sys")%string.

Definition enqueue_directory_candidate (full_path title_id title_name : string) (installed in_app_db : bool)
    (manual_source_path : option string) : M () :=
  let* failed_attempts := ask (QFailedAttempts title_id) in
  if MAX_FAILED_MOUNT_ATTEMPTS <=? failed_attempts then ret tt
  else if (MAX_PATH <=? strlen (metadata_path_of full_path))%nat then ret tt
  else
    let* stable := ask (QStable (metadata_path_of full_path) title_name) in
    if negb stable then flag_unstable
    else
      let* full := defer_full_candidate_batch in
      if full : bool then ret tt
      else
        let* l := look candidates in
        set_candidates (l ++ [mark_scan_candidate_manual manual_source_path
          (Candidate (strlcpy full_path MAX_PATH) (strlcpy title_id MAX_TITLE_ID) (strlcpy title_name MAX_TITLE_NAME) ""
             installed in_app_db false)]).

(** The candidate with the title, if any; its path. *)
Definition duplicate_of (title_id : string) : M (option (nat * string)) :=
  let* l := look candidates in
  ret (match find_scan_candidate_index_by_title_id l title_id with
       | Some i => match l !! i with Some c => Some (i, sc_path c) | None => None end
       | None => None
       end).

Definition mark_manual_at (i : nat) (manual_source_path : option string) : M () :=
  let* l := look candidates in set_candidates (alter (mark_scan_candidate_manual manual_source_path) i l).

(** [true]: the walk does not go below the directory. *)
Definition try_collect_candidate_for_directory (full_path : string) (app_db : app_db_context) (allow_known_param_root : bool)
    (manual_source_path : option string) : M bool :=
  let* probe := probe_directory_candidate full_path allow_known_param_root in
  match probe with
  | DIRECTORY_CANDIDATE_SKIP_DESCEND => ret true
  | DIRECTORY_CANDIDATE_DESCEND => ret false
  | DIRECTORY_CANDIDATE_READY title_id title_name =>
      let* _ := note_found_title title_id in
      let* recorded := ask (QRecordGame full_path title_id) in
      let* _ := when (negb recorded) flag_unstable in
      let* protected := ask (QProtected title_id) in
      if protected : bool then ret true
      else
        let* _ := tell (RepairModuleCase full_path) in
        let* _ := tell (NoteSourceSeen full_path title_id title_name) in
        let* duplicate := duplicate_of title_id in
        let* existing := handle_existing_directory_candidate full_path app_db title_id title_name in
        match existing with
        | EXISTING_DIRECTORY_PREFER_CURRENT =>
            let* _ := match manual_source_path with
                      | Some source => tell (ManualInstalled source title_id title_name)
                      | None => ret tt
                      end in
            match duplicate with
            | Some (i, path) =>
                let* _ := when (negb (strcmp_eq path full_path)) (tell (NotifyDuplicate title_id path full_path)) in
                let* l := look candidates in
                let* _ := set_candidates (remove_scan_candidate_at i l) in
                ret true
            | None => ret true
            end
        | EXISTING_DIRECTORY_PREFER_CACHED preferred =>
            let* _ := tell (NotifyDuplicate title_id full_path preferred) in
            match duplicate with
            | Some (i, _) =>
                let* l := look candidates in
                let* _ := set_candidates (remove_scan_candidate_at i l) in
                ret true
            | None => ret true
            end
        | EXISTING_DIRECTORY_HANDLED =>
            match duplicate with
            | Some (i, path) =>
                let* _ := when (negb (strcmp_eq path full_path)) (tell (NotifyDuplicate title_id full_path path)) in
                let* _ := mark_manual_at i manual_source_path in
                ret true
            | None => ret true
            end
        | EXISTING_DIRECTORY_CONTINUE installed in_app_db =>
            match duplicate with
            | Some (i, path) =>
                let* _ := when (negb (strcmp_eq path full_path)) (tell (NotifyDuplicate title_id full_path path)) in
                let* _ := mark_manual_at i manual_source_path in
                ret true
            | None =>
                let* _ := enqueue_directory_candidate full_path title_id title_name installed in_app_db manual_source_path in
                ret true
            end
        end
  end.

(** ** The walk *)

(** A callback of the walk: its context is the state, [None] once the fuel is used up. *)
Definition lift {A} (default : A) (m : M A) (c : option scan_world) : A * option scan_world :=
  match c with
  | Some w => match m w with Some (a, w') => (a, Some w') | None => (default, None) end
  | None => (default, None)
  end.

Definition walk_with (env : walk_env) (depth : nat) (root : string) (on_dir : string -> nat -> M sm_scan_tree_dir_visit_t)
    (on_image : option (string -> string -> M bool)) : M bool := fun w =>
  let callbacks := Callbacks (Some (fun dir d => lift SM_SCAN_TREE_DIR_ABORT (on_dir dir d)))
    (option_map (fun f => fun path name (_ : nat) => lift false (f path name)) on_image) false in
  let '(ok, s) := sm_scan_tree_walk (we_fs env) (we_scan_paths env) (we_stop env) (we_active_game env) callbacks root depth root 0
    (0%nat, Some w) in
  match s.2 with
  | Some w' => Some (ok, w')
  | None => None
  end.

Definition walk_root (root : string) (on_dir : string -> nat -> M sm_scan_tree_dir_visit_t)
    (on_image : option (string -> string -> M bool)) : M bool :=
  let* depth := ask (QScanDepth root) in
  let* env := ask (QWalk root) in
  let* ok := walk_with env depth root on_dir on_image in
  let* _ := tell (Walked root ok) in
  ret ok.

Definition collect_candidate_directory_visit (app_db : app_db_context) (manual_source_path : option string)
    (dir_path : string) (depth_from_root : nat) : M sm_scan_tree_dir_visit_t :=
  let* background := ask QBackground in
  if negb background then ret SM_SCAN_TREE_DIR_ABORT
  else if (depth_from_root =? 0)%nat then ret SM_SCAN_TREE_DIR_DESCEND
  else
    let* full := defer_full_candidate_batch in
    if full : bool then ret SM_SCAN_TREE_DIR_ABORT
    else
      let* handled := try_collect_candidate_for_directory dir_path app_db false manual_source_path in
      ret (if handled : bool then SM_SCAN_TREE_DIR_SKIP_DESCEND else SM_SCAN_TREE_DIR_DESCEND).

(** The scan of a mounted image, inside [begin_scan] and [complete_scan] when it is in
    the index; [m] collects from its mount point. *)
Definition scan_mounted_image (indexed image_unstable : bool) (image_path : string) (m : string -> M ()) : M () :=
  let* _ := when indexed (tell (BeginScan image_path)) in
  let* mount_point := ask (QMountPoint image_path) in
  let* image_unstable := with_own_flag image_unstable (m mount_point) in
  if indexed && negb image_unstable then
    let* stop := ask QStop in
    when (negb stop) (tell (CompleteScan image_path))
  else ret tt.

(** [collect] is the scan of a mount point. *)
Definition collect_candidate_image_visit (collect : string -> option string -> M ()) (app_db : app_db_context)
    (manual_source_path : option string) (image_path image_name : string) : M bool :=
  let* background := ask QBackground in
  if negb background then ret false
  else
    let* full := defer_full_candidate_batch in
    if full : bool then ret false
    else
      let* image_st := ask (QStat image_path) in
      match image_st with
      | None => ret true
      | Some _ =>
          let indexed_image := negb (is_under_image_mount_base image_path) in
          let* ready := (if indexed_image then ask (QReadyTitles image_path) else ret None) in
          match ready with
          | Some found =>
              let* _ := note_indexed_titles image_path found in
              let* persistent := ask QPersistentMounts in
              if negb persistent then ret true
              else let* _ := mount_persistent_indexed_image image_path image_name in ret true
          | None =>
              let* answer := ask (QMountImage image_path image_name) in
              let '(mounted, image_unstable) := answer in
              if negb mounted then let* _ := when image_unstable flag_unstable in ret true
              else
                let* _ := scan_mounted_image indexed_image image_unstable image_path (fun mount_point => collect mount_point manual_source_path) in
                ret true
          end
      end.

(** The walk of a root, with the flag set when it is cut short. *)
Definition walk_for_candidates (root : string) (app_db : app_db_context) (manual_source_path : option string)
    (on_image : option (string -> string -> M bool)) : M () :=
  let* ok := walk_root root (collect_candidate_directory_visit app_db manual_source_path) on_image in
  when (negb ok) flag_unstable.

Fixpoint collect_scan_candidates_from_manual_root (fuel : nat) (app_db : app_db_context) (scan_path : string)
    (manual_source_path : option string) : M () :=
  match fuel with
  | O => stuck
  | S fuel' =>
      let* stop := ask QStop in
      if stop : bool then ret tt
      else
        let pfsc_container_root := is_pfsc_image_mount_base_or_child scan_path in
        let* try_root_candidate :=
          (if pfsc_container_root then ret false
           else if is_under_image_mount_base scan_path then ask (QGameParam scan_path)
           else ret true) in
        let* handled := (if try_root_candidate : bool
                         then try_collect_candidate_for_directory scan_path app_db true manual_source_path else ret false) in
        if handled : bool then ret tt
        else
          walk_for_candidates scan_path app_db manual_source_path
            (if pfsc_container_root
             then Some (collect_candidate_image_visit (collect_scan_candidates_from_manual_root fuel' app_db) app_db manual_source_path)
             else None)
  end.

Section collect.
Context (fuel : nat) (app_db : app_db_context).

Definition collect_root : string -> option string -> M () := collect_scan_candidates_from_manual_root fuel app_db.

Definition collect_scan_candidates_from_manual_path (manual_path : string) : M () :=
  let* stop := ask QStop in
  if stop : bool then ret tt
  else
    let* full := defer_full_candidate_batch in
    if full : bool then ret tt
    else
      let* st := ask (QStat manual_path) in
      match st with
      | None => tell (ManualMissing manual_path)
      | Some kind =>
          let* _ := tell (ManualPresent manual_path) in
          let name := get_filename_component manual_path in
          if (match kind with KRegular => true | _ => false end) && is_supported_image_file_path manual_path name then
            let* ready := ask (QReadyTitles manual_path) in
            match ready with
            | Some found =>
                let* _ := note_indexed_titles manual_path found in
                let* persistent := ask QPersistentMounts in
                if negb persistent then ret tt
                else
                  let* mounted := mount_persistent_indexed_image manual_path name in
                  if negb mounted then ret tt
                  else
                    let* mount_point := ask (QMountPoint manual_path) in
                    when (is_pfsc_image_mount_base_or_child mount_point) (collect_root mount_point (Some manual_path))
            | None =>
                let* answer := ask (QMountImage manual_path name) in
                let '(mounted, image_unstable) := answer in
                if negb mounted then let* _ := when image_unstable flag_unstable in ret tt
                else scan_mounted_image true image_unstable manual_path (fun mount_point => collect_root mount_point (Some manual_path))
            end
          else
            let* has_param := (match kind with KDir => ask (QGameParam manual_path) | _ => ret false end) in
            if negb has_param then ret tt
            else collect_root manual_path (Some manual_path)
      end.

(** [sm_manual_for_each_path] with [collect_manual_path_visit]. *)
Fixpoint collect_manual_paths (paths : list string) : M () :=
  match paths with
  | [] => ret tt
  | manual_path :: paths' =>
      let* stop := ask QStop in
      if stop : bool then ret tt
      else
        let* l := look candidates in
        if (max_candidates <=? length l)%nat then tell (ManualDeferred manual_path)
        else
          let* _ := collect_scan_candidates_from_manual_path manual_path in
          collect_manual_paths paths'
  end.

Definition collect_scan_candidates_from_manual_list : M () :=
  let* stop := ask QStop in
  if stop : bool then ret tt
  else
    let* _ := tell ManualReconcile in
    let* paths := ask QManualPaths in
    collect_manual_paths paths.

Definition collect_scan_candidates_from_root (scan_path : string) : M () :=
  let* stop := ask QStop in
  if stop : bool then ret tt
  else
    let* _ := when (negb (strcmp_eq scan_path DEFAULT_BACKPORT_SCAN_PATH)) (tell (RepairBackports scan_path)) in
    let* stop := ask QStop in
    if stop : bool then ret tt
    else walk_for_candidates scan_path app_db None (Some (collect_candidate_image_visit collect_root app_db None)).

Fixpoint collect_roots (paths : list (option string)) : M () :=
  match paths with
  | [] => ret tt
  | scan_path :: paths' =>
      let* stop := ask QStop in
      if stop : bool then ret tt
      else
        let* _ := match scan_path with Some path => collect_scan_candidates_from_root path | None => ret tt end in
        collect_roots paths'
  end.

Fixpoint uninstall_blocked_ppsa_titles (blocked : list string) : M () :=
  match blocked with
  | [] => ret tt
  | title_id :: blocked' =>
      let* stop := ask QStop in
      if stop : bool then ret tt
      else
        let* _ := request_blocked_ppsa_uninstall title_id in
        uninstall_blocked_ppsa_titles blocked'
  end.
End collect.

(** [reset_scan_workspace], no candidates, no discovered roots. *)
Definition reset_scan : M () :=
  let* _ := set_appmeta [] in
  let* _ := set_blocked [] in
  let* _ := set_found [] in
  let* _ := set_roots [] in
  set_candidates [].

Definition id_array (ids : list string) : list string := (fun id => strlcpy id MAX_TITLE_ID) <$> ids.

Definition scan_app_db : M app_db_context :=
  let* titles := ask QAppDbTitles in
  let* blocked := ask QBlockedTitles in
  ret (AppDb (id_array <$> titles) (id_array <$> blocked)).

(** The candidates, and the number of titles found. *)
Definition scan_result : M (list scan_candidate_t * nat) :=
  let* found := look found_titles in
  let* _ := tell FlushIndex in
  let* l := look candidates in
  ret (l, length found).

Definition collect_scan_candidates_for_scan_root (fuel : nat) (scan_root : string) : M (list scan_candidate_t * nat) :=
  let* _ := reset_scan in
  let* app_db := scan_app_db in
  let* _ := tell (RepairBackports DEFAULT_BACKPORT_SCAN_PATH) in
  let* _ := collect_scan_candidates_from_root fuel app_db scan_root in
  scan_result.

Definition collect_scan_candidates (fuel : nat) : M (list scan_candidate_t * nat) :=
  let* _ := reset_scan in
  let* app_db := scan_app_db in
  let* _ := tell (RepairBackports DEFAULT_BACKPORT_SCAN_PATH) in
  let* paths := ask QScanPaths in
  let* _ := collect_roots fuel app_db paths in
  let* _ := collect_scan_candidates_from_manual_list fuel app_db in
  let* _ := uninstall_blocked_ppsa_titles (default [] (blocked_ppsa_titles app_db)) in
  scan_result.
End scan.

(** * The walk keeps what its callbacks keep *)
Lemma join_prefix root dir name : has_prefix dir root = true -> has_prefix (join_path dir name) root = true.
Proof.
  rewrite !has_prefix_spec. intros [r ->]. exists (String.append r (String slash name)). unfold join_path.
  by rewrite string_app_assoc.
Qed.

Section walk_keeps.
Context (env : walk_env) {C : Type} (callbacks : sm_scan_tree_callbacks_t C) (root : string) (R : C -> C -> Prop).
(** The directories that the walk reaches. *)
Context (inside : string -> Prop) (Hinside : forall dir name, inside dir -> inside (join_path dir name)).
Context (Hrefl : forall c, R c c) (Htrans : forall a b c, R a b -> R b c -> R a c).
Context (Hdir : forall f path d c, on_directory callbacks = Some f -> R c (f path d c).2).
Context (Himage : forall f path name d c, on_image_file callbacks = Some f -> inside path -> R c (f path name d c).2).

Abbreviation walk := (sm_scan_tree_walk (we_fs env) (we_scan_paths env) (we_stop env) (we_active_game env) callbacks root).

Lemma poll_ctx s : (poll (C := C) (we_stop env) s).2.2 = s.2.
Proof. done. Qed.

Lemma pace_ctx entries s : (pace (C := C) (we_stop env) (we_active_game env) entries s).2.2 = s.2.
Proof. unfold pace. by case_match. Qed.

Lemma visit_image_keeps path name d regular s : inside path -> R s.2 (visit_image callbacks root path name d regular s).2.2.
Proof.
  intros Hp. unfold visit_image. destruct (on_image_file callbacks) as [f|]; [|apply Hrefl].
  destruct (_ && _); [|apply Hrefl]. pose proof (Himage f path name d s.2 eq_refl Hp) as H. by destruct (f path name d s.2).
Qed.

Definition turn_state (t : turn (C := C)) : wstate (C := C) := match t with Go s => s | Return _ s => s end.

Lemma entry_turn_keeps sub dir d entries entry s : inside dir ->
  (forall path s', inside path -> R s'.2 (sub path s').2.2) ->
  R s.2 (turn_state (entry_turn (we_fs env) (we_stop env) (we_active_game env) callbacks root sub dir d entries entry s)).2.
Proof.
  intros Hp Hsub. destruct entry as [name t]. unfold entry_turn.
  pose proof (poll_ctx s) as H1. destruct (poll (we_stop env) s) as [b s1]. simpl in H1. rewrite <-H1.
  destruct b; [apply Hrefl|].
  pose proof (pace_ctx entries s1) as H2. destruct (pace (we_stop env) (we_active_game env) entries s1) as [b s2]. simpl in H2. rewrite <-H2.
  destruct b; [apply Hrefl|]. destruct (hidden name); [apply Hrefl|]. destruct (_ && _); [apply Hrefl|].
  destruct (MAX_PATH <=? _)%nat; [apply Hrefl|].
  destruct (classify_scan_tree_entry _ _ _) as [[is_dir is_regular]|e]; [|destruct (_ && _); apply Hrefl].
  pose proof (visit_image_keeps (join_path dir name) name (S d) is_regular s2 (Hinside dir name Hp)) as H3.
  destruct (visit_image _ _ _ _ _ _ s2) as [ok s3]. destruct (negb ok); [exact H3|]. destruct (negb is_dir); [exact H3|].
  pose proof (Hsub (join_path dir name) s3 (Hinside dir name Hp)) as H4. destruct (sub _ s3) as [ok' s4].
  destruct ok'; eapply Htrans; done.
Qed.

Lemma entry_loop_keeps sub dir d names error : inside dir ->
  (forall path s', inside path -> R s'.2 (sub path s').2.2) ->
  forall entries s, R s.2 (entry_loop (we_fs env) (we_stop env) (we_active_game env) callbacks root sub dir d entries names error s).2.2.
Proof.
  intros Hp Hsub. induction names as [|entry names IH]; intros entries s; cbn -[poll entry_turn];
    pose proof (poll_ctx s) as H1; destruct (poll (we_stop env) s) as [b s1]; simpl in H1; rewrite <-H1; destruct b; try apply Hrefl.
  pose proof (entry_turn_keeps sub dir d (S entries) entry s1 Hp Hsub) as H2.
  destruct (entry_turn _ _ _ _ _ _ _ _ _ entry s1) as [s2|ok s2]; [|exact H2]. eapply Htrans; [exact H2|apply IH].
Qed.

Lemma walk_keeps n dir d s : inside dir -> R s.2 (walk n dir d s).2.2.
Proof.
  revert dir d s. induction n as [|n IH]; intros dir d s Hp; cbn -[poll visit_directory entry_loop];
    (pose proof (poll_ctx s) as H1; destruct (poll (we_stop env) s) as [b s1]; simpl in H1; rewrite <-H1;
     destruct b; [apply Hrefl|]; destruct (_ && _); [apply Hrefl|];
     pose proof (poll_ctx s1) as H2; destruct (poll (we_stop env) s1) as [b s2]; simpl in H2; rewrite <-H2;
     destruct b; [apply Hrefl|];
     assert (H3 : R s2.2 (visit_directory callbacks dir d s2).2.2) by
       (unfold visit_directory; destruct (on_directory callbacks) as [f|]; [|apply Hrefl];
        pose proof (Hdir f dir d s2.2 eq_refl) as H3; by destruct (f dir d s2.2));
     destruct (visit_directory callbacks dir d s2) as [v s3]; simpl in H3; destruct v; try exact H3).
  destruct (fs_dir _ dir) as [e|names error]; [exact H3|].
  eapply Htrans; [exact H3|]. apply entry_loop_keeps; [done|]. intros path s' Hp'. by apply IH.
Qed.
End walk_keeps.
