(* ===== verification/ScanCollect.v ===== *)
(** * What a scan collects (theorems on ScanCandidates.v)

    One relation between the states before and after a part of a scan carries all of
    them: what a part adds to the history, that a scan which leaves something out says
    so, that an image is marked as scanned only when it was, and that the candidates
    and the titles to uninstall stay as they have to be. *)
From S2P Require Import Prelude CString StateTable TitleState ImageKinds ScanTree Effects GameCache ScanCandidates.
From stdpp Require Import list.
Open Scope Z_scope.
Open Scope c_scope.

(** ** Histories *)

(** Whether nothing was left out: the answers and steps after which a later scan has
    to look again. *)
Definition complete_question {A} (q : question A) : A -> bool :=
  match q in question A return A -> bool with
  | QRecordGame _ _ => fun recorded => recorded
  | QStable _ _ => fun stable => stable
  | QMountImage _ _ => fun a => a.1 || negb a.2
  | _ => fun _ => true
  end.

Definition complete_event (e : scan_event) : bool :=
  match e with
  | Asked A q a => complete_question q a
  | Called BatchFull => false
  | Called (Walked _ ok) => ok
  | Called _ => true
  end.

Definition complete (evs : list scan_event) : bool := forallb complete_event evs.

(** An image is marked as scanned only at the end of a complete scan of it. *)
Definition index_protocol (evs : list scan_event) : Prop := forall later earlier image,
  evs = later ++ Called (CompleteScan image) :: earlier ->
  exists scan before, earlier = scan ++ Called (BeginScan image) :: before /\ complete scan = true.

(** The titles whose uninstallation is requested, newest first. *)
Definition uninstall_of (e : scan_event) : option string :=
  match e with Asked A q _ => match q with QUninstall t => Some t | _ => None end | _ => None end.
Definition uninstalls (evs : list scan_event) : list string := omap uninstall_of evs.

Definition is_complete_scan (e : scan_event) : bool := match e with Called (CompleteScan _) => true | _ => false end.

Lemma complete_app a b : complete (a ++ b) = complete a && complete b.
Proof. apply forallb_app. Qed.

Lemma index_protocol_nil : index_protocol [].
Proof. intros [|] earlier image H; discriminate. Qed.

Lemma index_protocol_app a b : index_protocol a -> index_protocol b -> index_protocol (a ++ b).
Proof.
  intros Ha Hb later earlier image H. apply app_eq_app in H as (l & [[-> Hl]|[-> Hl]]).
  - destruct l as [|e l]; [by apply (Hb [])|]. simplify_eq/=.
    destruct (Ha later l image eq_refl) as (scan & before & -> & Hc). exists scan, (before ++ b). by rewrite <-(assoc_L app).
  - destruct (Hb l earlier image) as (scan & before & -> & Hc); [|by exists scan, before]. done.
Qed.

Lemma index_protocol_one e : is_complete_scan e = false -> index_protocol [e].
Proof. intros He [|e' [|]] earlier image H; simplify_eq/=. Qed.

(** ** Candidates *)
Section candidates.
Context (app_db : app_db_context) (max_candidates : nat).

(** What a candidate rests on. *)
Definition candidate_from (tr : list scan_event) (c : scan_candidate_t) : Prop := exists path raw_title raw_name attempts known,
  let title := strlcpy raw_title MAX_TITLE_ID in
  let name := strlcpy raw_name MAX_TITLE_NAME in
  sc_path c = strlcpy path MAX_PATH /\ sc_title_id c = title /\ sc_title_name c = strlcpy name MAX_TITLE_NAME /\
  Asked _ (QGameParam path) true ∈ tr /\
  Asked _ (QGameInfo path) (Some (raw_title, raw_name)) ∈ tr /\
  Asked _ (QProtected title) false ∈ tr /\
  Asked _ (QFailedAttempts title) attempts ∈ tr /\ attempts < MAX_FAILED_MOUNT_ATTEMPTS /\
  Asked _ (QStable (metadata_path_of path) name) true ∈ tr /\
  is_blocked_ppsa_title app_db title = false /\
  titles app_db = Some known /\ sc_in_app_db c = app_db_title_list_contains known title /\
  (if sc_in_app_db c then Asked _ (QInstalled title) (sc_installed c) ∈ tr
   else sc_installed c = false /\ Asked _ (QInstallPending title) false ∈ tr /\ Asked _ (QRegisterAttempted title) false ∈ tr).

Definition candidates_ok (w : scan_world) : Prop :=
  (length (candidates w) <= max_candidates)%nat /\
  NoDup (sc_title_id <$> candidates w) /\
  forall c, c ∈ candidates w -> candidate_from (s_trace w) c.

(** ** What a part of a scan does *)
Record extends (w w' : scan_world) : Prop := {
  ex_trace : exists evs, s_trace w' = evs ++ s_trace w /\ index_protocol evs /\
    exists added, blocked_ppsa_uninstall w' = blocked_ppsa_uninstall w ++ added /\
      ((length (blocked_ppsa_uninstall w') < MAX_PENDING)%nat -> uninstalls evs = reverse added) /\
      (NoDup (blocked_ppsa_uninstall w) -> NoDup (blocked_ppsa_uninstall w'));
  ex_candidates : candidates_ok w -> candidates_ok w';
}.

Record progress (w w' : scan_world) : Prop := {
  pr_extends : extends w w';
  pr_flag : unstable_found w' = false -> unstable_found w = false;
  pr_complete : unstable_found w' = false -> forall evs, s_trace w' = evs ++ s_trace w -> complete evs = true;
}.

Lemma extends_refl w : extends w w.
Proof.
  split; [|done]. exists []. split_and!; [done|apply index_protocol_nil|]. exists []. rewrite app_nil_r. by split_and!.
Qed.

Lemma extends_trans a b c : extends a b -> extends b c -> extends a c.
Proof.
  intros [(e1 & H1 & P1 & n1 & B1 & U1 & D1) C1] [(e2 & H2 & P2 & n2 & B2 & U2 & D2) C2]. split; [|by auto].
  exists (e2 ++ e1). split_and!; [by rewrite H2, H1, (assoc_L app)|by apply index_protocol_app|].
  exists (n1 ++ n2). split_and!; [by rewrite B2, B1, (assoc_L app)| |by auto].
  intros Hl. unfold uninstalls in *. rewrite omap_app, U2, U1, reverse_app; [done| |done].
  rewrite B2, length_app in Hl. lia.
Qed.

Lemma progress_refl w : progress w w.
Proof.
  split; [apply extends_refl|done|]. intros _ evs H. apply (f_equal length) in H. rewrite length_app in H.
  destruct evs; [done|simpl in H; lia].
Qed.

Lemma progress_trans a b c : progress a b -> progress b c -> progress a c.
Proof.
  intros [E1 F1 K1] [E2 F2 K2]. split; [by eapply extends_trans|by auto|]. intros Hf evs H.
  destruct E1 as [(e1 & H1 & _) _]. destruct E2 as [(e2 & H2 & _) _]. pose proof (K2 Hf e2 H2) as Hc2.
  pose proof (K1 (F2 Hf) e1 H1) as Hc1. rewrite H2, H1, (assoc_L app) in H. apply app_inv_tail in H as <-.
  by rewrite complete_app, Hc2, Hc1.
Qed.

(** Once the flag is set nothing is claimed. *)
Lemma progress_flagged w w' : extends w w' -> unstable_found w' = true -> progress w w'.
Proof. intros He Hf. split; [done|congruence|congruence]. Qed.

Lemma extends_mem w w' e : extends w w' -> e ∈ s_trace w -> e ∈ s_trace w'.
Proof. intros [(evs & -> & _) _] H. apply elem_of_app. by right. Qed.

Lemma progress_mem w w' e : progress w w' -> e ∈ s_trace w -> e ∈ s_trace w'.
Proof. intros [H _ _]. by apply extends_mem. Qed.

Lemma candidate_from_more tr tr' c : (forall e, e ∈ tr -> e ∈ tr') -> candidate_from tr c -> candidate_from tr' c.
Proof.
  intros Hm (path & t & n & k & l & H). exists path, t, n, k, l. destruct H as (? & ? & ? & ? & ? & ? & ? & ? & ? & ? & ? & ? & H).
  split_and!; eauto. destruct (sc_in_app_db c); [by apply Hm|]. destruct H as (? & ? & ?). split_and!; eauto.
Qed.

(** The candidates stay, the history grows. *)
Lemma candidates_ok_same w w' : candidates w' = candidates w -> (forall e, e ∈ s_trace w -> e ∈ s_trace w') ->
  candidates_ok w -> candidates_ok w'.
Proof.
  intros Hc Hm (H1 & H2 & H3). unfold candidates_ok. rewrite Hc. split_and!; [done|done|]. intros c Hin.
  eapply candidate_from_more; [exact Hm|by apply H3].
Qed.

(** A part that leaves candidates and blocked titles alone and adds one event. *)
Lemma extends_event e w w' : s_trace w' = e :: s_trace w -> candidates w' = candidates w ->
  blocked_ppsa_uninstall w' = blocked_ppsa_uninstall w -> is_complete_scan e = false -> uninstall_of e = None -> extends w w'.
Proof.
  intros Ht Hc Hb He Hu. split.
  - exists [e]. split_and!; [done|by apply index_protocol_one|]. exists []. rewrite app_nil_r, Hb. split_and!; [done| |done].
    intros _. unfold uninstalls. simpl. by rewrite Hu.
  - apply candidates_ok_same; [done|]. intros e' H. rewrite Ht. apply elem_of_cons. by right.
Qed.

Lemma progress_event e w w' : s_trace w' = e :: s_trace w -> candidates w' = candidates w ->
  blocked_ppsa_uninstall w' = blocked_ppsa_uninstall w -> unstable_found w' = unstable_found w ->
  is_complete_scan e = false -> uninstall_of e = None -> complete_event e = true -> progress w w'.
Proof.
  intros Ht Hc Hb Hu He Hn Hok. split; [by eapply extends_event|by rewrite Hu|].
  intros _ evs H. rewrite Ht in H. change (e :: s_trace w) with ([e] ++ s_trace w) in H. apply app_inv_tail in H as <-. simpl. by rewrite Hok.
Qed.

(** A part that changes nothing of this. *)
Lemma progress_same w w' : s_trace w' = s_trace w -> candidates w' = candidates w ->
  blocked_ppsa_uninstall w' = blocked_ppsa_uninstall w -> unstable_found w' = unstable_found w -> progress w w'.
Proof.
  intros Ht Hc Hb Hu. split; [split|by rewrite Hu|].
  - exists []. split_and!; [done|apply index_protocol_nil|]. exists []. rewrite app_nil_r, Hb. by split_and!.
  - apply candidates_ok_same; [done|]. intros e H. by rewrite Ht.
  - intros _ evs H. rewrite Ht in H. apply (f_equal length) in H. rewrite length_app in H. destruct evs; [done|simpl in H; lia].
Qed.
End candidates.

(** * The parts of a scan *)
Section parts.
Context {F : Fuel} (sys : answers) (max_candidates : nat) (app_db : app_db_context).

Abbreviation progress := (progress app_db max_candidates).
Abbreviation extends := (extends app_db max_candidates).

(** A part that keeps the candidates. *)
Record still (w w' : scan_world) : Prop := {
  st_progress : progress w w';
  st_candidates : candidates w' = candidates w;
}.

Definition keeps {A} (m : M A) : Prop := forall w, wp m (fun _ w' => progress w w') w.
Definition rests {A} (m : M A) : Prop := forall w, wp m (fun _ w' => still w w') w.

Lemma still_refl w : still w w.
Proof. split; [apply progress_refl|done]. Qed.

Lemma still_trans a b c : still a b -> still b c -> still a c.
Proof. intros [] []. split; [by eapply progress_trans|congruence]. Qed.

Lemma still_mem w w' e : still w w' -> e ∈ s_trace w -> e ∈ s_trace w'.
Proof. intros []. by eapply progress_mem. Qed.

Lemma keeps_rests {A} (m : M A) : rests m -> keeps m.
Proof. intros H w. eapply wp_mono; [apply H|]. by intros a w' []. Qed.

Lemma keeps_ret {A} (x : A) : keeps (ret x).
Proof. intros w. apply wp_ret, progress_refl. Qed.

Lemma keeps_bind {A B} (m : M A) (k : A -> M B) : keeps m -> (forall a, keeps (k a)) -> keeps (bind m k).
Proof.
  intros Hm Hk w. apply wp_bind. eapply wp_mono; [apply Hm|]. intros a w1 H1. eapply wp_mono; [apply Hk|].
  intros b w2 H2. eapply progress_trans; [exact H1|exact H2].
Qed.

Lemma rests_ret {A} (x : A) : rests (ret x).
Proof. intros w. apply wp_ret, still_refl. Qed.

Lemma rests_bind {A B} (m : M A) (k : A -> M B) : rests m -> (forall a, rests (k a)) -> rests (bind m k).
Proof.
  intros Hm Hk w. apply wp_bind. eapply wp_mono; [apply Hm|]. intros a w1 H1. eapply wp_mono; [apply Hk|].
  intros b w2 H2. eapply still_trans; [exact H1|exact H2].
Qed.

Lemma rests_when b (m : M ()) : rests m -> rests (when b m).
Proof. intros H w. apply wp_when; intros _; [apply H|apply still_refl]. Qed.

Lemma keeps_when b (m : M ()) : keeps m -> keeps (when b m).
Proof. intros H w. apply wp_when; intros _; [apply H|apply progress_refl]. Qed.

(** The state after a question. *)
Definition asked {A} (q : question A) (w : scan_world) : scan_world :=
  Scan (found_titles w) (checked_appmeta w) (blocked_ppsa_uninstall w) (discovered_param_roots w) (candidates w) (unstable_found w)
    (S (s_clock w)) (Asked A q (sys A (s_clock w) q) :: s_trace w).

Definition harmless {A} (q : question A) : Prop := forall a, complete_event (Asked A q a) = true /\ uninstall_of (Asked A q a) = None.

Lemma still_asked {A} (q : question A) w : complete_event (Asked A q (sys A (s_clock w) q)) = true ->
  uninstall_of (Asked A q (sys A (s_clock w) q)) = None -> still w (asked q w).
Proof. intros Hc Hu. split; [|done]. by eapply progress_event. Qed.

Lemma extends_asked {A} (q : question A) w : uninstall_of (Asked A q (sys A (s_clock w) q)) = None -> extends w (asked q w).
Proof. intros Hu. by eapply extends_event. Qed.

Lemma rests_ask {A} (q : question A) : harmless q -> rests (ask sys q).
Proof. intros Hq w. destruct (Hq (sys A (s_clock w) q)) as [Hc Hu]. exact (still_asked q w Hc Hu). Qed.

(** The answer is in the history. *)
Lemma wp_ask_in {A} (q : question A) w : harmless q ->
  wp (ask sys q) (fun a w' => still w w' /\ Asked A q a ∈ s_trace w') w.
Proof.
  intros Hq. destruct (Hq (sys A (s_clock w) q)) as [Hc Hu]. split; [exact (still_asked q w Hc Hu)|]. apply elem_of_cons. by left.
Qed.

Definition plain_call (c : call) : Prop := complete_event (Called c) = true /\ is_complete_scan (Called c) = false.

Lemma rests_tell c : plain_call c -> rests (tell c).
Proof. intros [Hc Hs] w. split; [|done]. by eapply (progress_event _ _ (Called c)). Qed.

Lemma rests_look {A} (f : scan_world -> A) : rests (look f).
Proof. intros w. apply still_refl. Qed.

Lemma rests_set_found l : rests (set_found l).
Proof. intros w. split; [by apply progress_same|done]. Qed.
Lemma rests_set_appmeta l : rests (set_appmeta l).
Proof. intros w. split; [by apply progress_same|done]. Qed.
Lemma rests_set_roots l : rests (set_roots l).
Proof. intros w. split; [by apply progress_same|done]. Qed.

Lemma still_flag w w' : extends w w' -> candidates w' = candidates w ->
  still w (Scan (found_titles w') (checked_appmeta w') (blocked_ppsa_uninstall w') (discovered_param_roots w') (candidates w') true
             (s_clock w') (s_trace w')).
Proof.
  intros [(evs & Ht & Hp & Hb) Hc] Hs. split; [|done]. apply progress_flagged; [|done]. split; [by exists evs|].
  intros H. exact (Hc H).
Qed.

Lemma rests_flag : rests flag_unstable.
Proof. intros w. apply still_flag; [apply extends_refl|done]. Qed.

(** A question whose answer may leave something out. *)
Lemma wp_ask_any {A} (q : question A) w : (forall a, uninstall_of (Asked A q a) = None) ->
  wp (ask sys q) (fun a w' => extends w w' /\ candidates w' = candidates w /\ (complete_question q a = true -> still w w')) w.
Proof.
  intros Hq. split_and!; [exact (extends_asked q w (Hq _))|done|]. intros Hc. exact (still_asked q w Hc (Hq _)).
Qed.

Lemma wp_then {A B} (m : M A) (k : A -> M B) (P : A -> scan_world -> Prop) w :
  wp m P w -> (forall a w', P a w' -> wp (k a) (fun _ w'' => still w w'') w') -> wp (bind m k) (fun _ w'' => still w w'') w.
Proof. intros Hm Hk. apply wp_bind. eapply wp_mono; [exact Hm|exact Hk]. Qed.

(** What follows a part at rest. *)
Lemma wp_after {A} (m : M A) w w' : still w w' -> rests m -> wp m (fun _ w'' => still w w'') w'.
Proof. intros H Hm. eapply wp_mono; [apply Hm|]. intros a w'' H'. eapply still_trans; [exact H|exact H']. Qed.
End parts.


Ltac rests_step :=
  match goal with
  | |- rests _ _ (bind _ _) => apply rests_bind; [|intros ?]
  | |- rests _ _ (ret _) => apply rests_ret
  | |- rests _ _ (when _ _) => apply rests_when
  | |- rests _ _ (look _) => apply rests_look
  | |- rests _ _ (ask _ _) => apply rests_ask; intros ?; split; reflexivity
  | |- rests _ _ (tell _) => apply rests_tell; split; reflexivity
  | |- rests _ _ flag_unstable => apply rests_flag
  | |- rests _ _ (set_found _) => apply rests_set_found
  | |- rests _ _ (set_appmeta _) => apply rests_set_appmeta
  | |- rests _ _ (set_roots _) => apply rests_set_roots
  | |- rests _ _ (if ?b then _ else _) => destruct b
  | |- rests _ _ (match ?x with _ => _ end) => destruct x
  | |- rests _ _ (let '(_, _) := ?x in _) => destruct x
  | |- _ => solve [eauto with scan]
  end.
Ltac rests := repeat rests_step.

Create HintDb scan.

Section directories.
Context {F : Fuel} (sys : answers) (max_candidates : nat) (app_db : app_db_context).
Abbreviation rests := (rests max_candidates app_db).
Abbreviation keeps := (keeps max_candidates app_db).
Abbreviation still := (still max_candidates app_db).
Abbreviation progress := (progress app_db max_candidates).

Lemma rests_note_found title_id : rests (note_found_title title_id).
Proof. unfold note_found_title. rests. Qed.

Lemma rests_note_found_indexed image title_id : rests (note_found_indexed_title sys image title_id).
Proof. unfold note_found_indexed_title. repeat (rests_step || apply rests_note_found). Qed.

Lemma rests_note_indexed image found : rests (note_indexed_titles sys image found).
Proof. induction found as [|t l IH]; simpl; repeat (rests_step || apply rests_note_found_indexed || apply IH). Qed.

(** A mounted image, or the flag when it is not stable yet. *)
Lemma rests_mount_persistent image name : rests (mount_persistent_indexed_image sys image name).
Proof.
  intros w. unfold mount_persistent_indexed_image. eapply wp_then; [apply wp_ask_any; reflexivity|].
  intros [mounted unstable] w' (He & Hc & Hs). simpl in Hs. destruct mounted; [apply wp_after; [by apply Hs|apply rests_ret]|].
  destruct unstable; simpl.
  - apply wp_bind. apply wp_ret. by apply still_flag.
  - apply wp_after; [by apply Hs|]. rests.
Qed.

Lemma rests_appmeta title_id : rests (get_appmeta_present_for_scan_cycle sys title_id).
Proof. unfold get_appmeta_present_for_scan_cycle. rests. Qed.

(** ** Uninstalling *)
Definition fits (title_id : string) : Prop := strlcpy title_id MAX_TITLE_ID = title_id.

Lemma strlcpy_twice s n : strlcpy (strlcpy s n) n = strlcpy s n.
Proof.
  destruct n as [|n].
  - unfold strlcpy. simpl. destruct s; done.
  - apply strlcpy_fits. apply strlcpy_length. lia.
Qed.

Lemma fits_copied t : fits (strlcpy t MAX_TITLE_ID).
Proof. apply strlcpy_twice. Qed.

Lemma requested_mem t l : existsb (fun t' => strcmp_eq t' t) l = false -> t ∉ l.
Proof.
  intros H Hin. apply not_true_iff_false in H. apply H, existsb_exists. exists t. split; [by apply list_elem_of_In|].
  by apply strcmp_eq_true.
Qed.

Lemma rests_request_blocked title_id : fits title_id -> rests (request_blocked_ppsa_uninstall sys title_id).
Proof.
  intros Hf w. unfold request_blocked_ppsa_uninstall, blocked_ppsa_uninstall_requested.
  apply wp_bind, wp_bind, wp_look, wp_ret. destruct (strcmp_eq title_id "") eqn:He; [apply still_refl|].
  cbn [negb andb orb]. destruct (existsb _ _) eqn:Hreq; [apply still_refl|].
  apply wp_bind. unfold remember_blocked_ppsa_uninstall, blocked_ppsa_uninstall_requested. apply wp_bind, wp_bind, wp_look, wp_ret.
  rewrite He, Hreq. cbn [negb andb orb]. apply wp_bind, wp_look. rewrite Hf.
  set (w1 := if (MAX_PENDING <=? length (blocked_ppsa_uninstall w))%nat then w else
    Scan (found_titles w) (checked_appmeta w) (blocked_ppsa_uninstall w ++ [title_id]) (discovered_param_roots w) (candidates w)
      (unstable_found w) (s_clock w) (s_trace w)).
  apply wp_mono with (Q := fun _ w' => w' = w1); [unfold w1; destruct (MAX_PENDING <=? _)%nat; exact eq_refl|]. intros _ w' ->.
  assert (Hs : still w (asked sys (QUninstall title_id) w1)).
  { assert (Htr : s_trace (asked sys (QUninstall title_id) w1) = [Asked _ (QUninstall title_id) (sys Z (s_clock w1) (QUninstall title_id))] ++ s_trace w)
      by (unfold w1; by case_match).
    split; [|unfold w1; by case_match]. split; [split|unfold w1; by case_match|].
    - exists [Asked _ (QUninstall title_id) (sys Z (s_clock w1) (QUninstall title_id))]. split_and!; [done|by apply index_protocol_one|].
      unfold w1. destruct (Nat.leb_spec MAX_PENDING (length (blocked_ppsa_uninstall w))) as [Hl|Hl]; cbn [asked blocked_ppsa_uninstall].
      + exists []. rewrite app_nil_r. split_and!; [done|lia|done].
      + exists [title_id]. split_and!; [done|done|]. intros Hnd. apply NoDup_app. split_and!; [done| |apply NoDup_singleton].
        intros t Ht ->%list_elem_of_singleton. by apply (requested_mem _ _ Hreq).
    - apply candidates_ok_same; [unfold w1; by case_match|]. intros e Hin. rewrite Htr. apply elem_of_app. by right.
    - intros _ evs H. rewrite Htr in H. by apply app_inv_tail in H as <-. }
  apply wp_bind. change (wp (if sys Z (s_clock w1) (QUninstall title_id) =? 0 then
      let* _ := tell (ForgetPending title_id) in let* _ := tell InvalidateTitles in ret true else ret false)
    (fun _ w' => still w w') (asked sys (QUninstall title_id) w1)).
  apply wp_after; [exact Hs|]. rests.
Qed.

(** ** Answers that candidates rest on *)
Definition known {A} (m : M A) (P : A -> list scan_event -> Prop) : Prop :=
  forall w, wp m (fun a w' => still w w' /\ P a (s_trace w')) w.

Lemma wp_seq {A B} (m : M A) (k : A -> M B) (P : A -> list scan_event -> Prop) (Q : B -> list scan_event -> Prop) w :
  wp m (fun a w' => still w w' /\ P a (s_trace w')) w ->
  (forall a w', still w w' -> P a (s_trace w') -> wp (k a) (fun b w'' => still w' w'' /\ Q b (s_trace w'')) w') ->
  wp (bind m k) (fun b w'' => still w w'' /\ Q b (s_trace w'')) w.
Proof.
  intros Hm Hk. apply wp_bind. eapply wp_mono; [exact Hm|]. intros a w' [Hs HP]. eapply wp_mono; [by apply Hk|].
  intros b w'' [Hs' HQ]. split; [|done]. eapply still_trans; [exact Hs|exact Hs'].
Qed.

Lemma seq_ask {A B} (q : question A) (k : A -> M B) (Q : B -> list scan_event -> Prop) w : harmless q ->
  (forall a w', still w w' -> Asked A q a ∈ s_trace w' -> wp (k a) (fun b w'' => still w' w'' /\ Q b (s_trace w'')) w') ->
  wp (bind (ask sys q) k) (fun b w'' => still w w'' /\ Q b (s_trace w'')) w.
Proof. intros Hq. apply (wp_seq _ _ (fun a tr => Asked A q a ∈ tr)). by apply wp_ask_in. Qed.

Lemma seq_rests {A B} (m : M A) (k : A -> M B) (Q : B -> list scan_event -> Prop) w : rests m ->
  (forall a w', still w w' -> wp (k a) (fun b w'' => still w' w'' /\ Q b (s_trace w'')) w') ->
  wp (bind m k) (fun b w'' => still w w'' /\ Q b (s_trace w'')) w.
Proof.
  intros Hm Hk. apply (wp_seq _ _ (fun _ _ => True)); [|by auto]. eapply wp_mono; [apply Hm|]. by intros a w' Hs.
Qed.

Lemma seq_known {A B} (m : M A) (k : A -> M B) (P : A -> list scan_event -> Prop) (Q : B -> list scan_event -> Prop) w : known m P ->
  (forall a w', still w w' -> P a (s_trace w') -> wp (k a) (fun b w'' => still w' w'' /\ Q b (s_trace w'')) w') ->
  wp (bind m k) (fun b w'' => still w w'' /\ Q b (s_trace w'')) w.
Proof. intros Hm. apply wp_seq, Hm. Qed.

Lemma known_ret {A} (x : A) (P : A -> list scan_event -> Prop) w : P x (s_trace w) ->
  wp (ret x) (fun a w' => still w w' /\ P a (s_trace w')) w.
Proof. intros H. apply wp_ret. split; [apply still_refl|done]. Qed.
End directories.

(** What is in the history stays there. *)
Ltac carry Hs :=
  match type of Hs with ScanCollect.still _ _ ?w ?w' =>
    repeat match goal with H : _ ∈ s_trace w |- _ => apply (still_mem _ _ w w' _ Hs) in H end
  | still _ _ ?w ?w' =>
    repeat match goal with H : _ ∈ s_trace w |- _ => apply (still_mem _ _ w w' _ Hs) in H end
  end.
Ltac after_ask a Hin :=
  apply seq_ask; [intros ?; split; reflexivity|];
  let w' := fresh "w" in let Hs := fresh "Hs" in intros a w' Hs Hin; carry Hs; cbv beta in Hin.
Ltac after_rest :=
  apply seq_rests; [rests|];
  let a := fresh "x" in let w' := fresh "w" in let Hs := fresh "Hs" in intros a w' Hs; carry Hs.

Section candidate.
Context {F : Fuel} (sys : answers) (max_candidates : nat) (app_db : app_db_context).
Abbreviation rests := (rests max_candidates app_db).
Abbreviation keeps := (keeps max_candidates app_db).
Abbreviation still := (still max_candidates app_db).
Abbreviation progress := (progress app_db max_candidates).
Abbreviation known := (known max_candidates app_db).

Definition probed (full_path : string) (r : directory_candidate_probe_t) (tr : list scan_event) : Prop :=
  match r with
  | DIRECTORY_CANDIDATE_READY title_id title_name => exists raw_title raw_name,
      title_id = strlcpy raw_title MAX_TITLE_ID /\ title_name = strlcpy raw_name MAX_TITLE_NAME /\
      Asked _ (QGameParam full_path) true ∈ tr /\ Asked _ (QGameInfo full_path) (Some (raw_title, raw_name)) ∈ tr
  | _ => True
  end.

Lemma probe_known full_path allow : known (probe_directory_candidate sys full_path allow) (probed full_path).
Proof.
  intros w. unfold probe_directory_candidate. apply seq_rests; [rests|]. intros roots w1 _.
  destruct (is_pfsc_image_mount_base_or_child full_path); [by apply known_ret|].
  destruct (_ && _); [by apply known_ret|].
  apply seq_rests; [rests|]. intros inactive w2 _. destruct inactive; [by apply known_ret|].
  after_ask has_param Hparam. destruct has_param; cbn [negb].
  - after_ask info Hinfo. destruct info as [[t n]|].
    + after_rest. after_rest. apply known_ret. exists t, n. done.
    + after_rest. by apply known_ret.
  - after_rest. after_rest. by apply known_ret.
Qed.

(** The directory goes on to the queue: not blocked, and not pending or tried before
    unless the title is installed. *)
Definition goes_on (title_id : string) (r : existing_directory_result_t) (tr : list scan_event) : Prop :=
  match r with
  | EXISTING_DIRECTORY_CONTINUE installed in_app_db =>
      is_blocked_ppsa_title app_db title_id = false /\
      exists known, titles app_db = Some known /\ in_app_db = app_db_title_list_contains known title_id /\
      (if in_app_db then Asked _ (QInstalled title_id) installed ∈ tr
       else installed = false /\ Asked _ (QInstallPending title_id) false ∈ tr /\ Asked _ (QRegisterAttempted title_id) false ∈ tr)
  | _ => True
  end.

Lemma existing_known full_path title_id title_name : fits title_id ->
  known (handle_existing_directory_candidate sys full_path app_db title_id title_name) (goes_on title_id).
Proof.
  intros Hf w. unfold handle_existing_directory_candidate. after_ask tracked Htracked.
  destruct (is_blocked_ppsa_title app_db title_id) eqn:Hb.
  { apply seq_rests; [by apply rests_request_blocked|]. intros ? ? _. by apply known_ret. }
  destruct (titles app_db) as [l|] eqn:Hl.
  2: { after_rest. destruct x; [after_rest|]; by apply known_ret. }
  set (in_db := app_db_title_list_contains l title_id) in *.
  apply (seq_known _ _ _ _ (fun installed tr => if in_db then Asked _ (QInstalled title_id) installed ∈ tr else installed = false)).
  { intros w'. destruct in_db; [by apply wp_ask_in|by apply wp_ret; split; [apply still_refl|]]. }
  intros installed w2 _ Hinst.
  apply seq_rests; [destruct installed; [apply rests_appmeta|rests]|]. intros appmeta w3 Hs3.
  apply seq_rests; [rests|]. intros valid w4 Hs4.
  destruct (valid && appmeta); [after_rest; by apply known_ret|].
  apply seq_rests; [rests|]. intros other w5 Hs5. destruct other; [after_rest; by apply known_ret|].
  assert (Hinst5 : if in_db then Asked _ (QInstalled title_id) installed ∈ s_trace w5 else installed = false).
  { destruct in_db; [|done]. by do 3 (eapply still_mem; [eassumption|]). }
  destruct in_db eqn:Hdb; cbn match.
  - do 2 (after_rest; destruct x; [by apply known_ret|]). apply known_ret. split; [done|]. exists l. by split_and!.
  - after_ask pending Hpending. destruct pending; [by apply known_ret|].
    after_ask attempted Hattempted. destruct attempted; [by apply known_ret|].
    apply known_ret. split; [done|]. exists l. by split_and!.
Qed.

(** ** The list of candidates *)
Lemma progress_candidates w w' : s_trace w' = s_trace w -> blocked_ppsa_uninstall w' = blocked_ppsa_uninstall w ->
  unstable_found w' = unstable_found w -> (candidates_ok app_db max_candidates w -> candidates_ok app_db max_candidates w') -> progress w w'.
Proof.
  intros Ht Hb Hu Hc. split; [split; [|done]|by rewrite Hu|].
  - exists []. split_and!; [done|apply index_protocol_nil|]. exists []. rewrite app_nil_r, Hb. by split_and!.
  - intros _ evs H. rewrite Ht in H. apply (f_equal length) in H. rewrite length_app in H. destruct evs; [done|simpl in H; lia].
Qed.

Lemma wp_set_candidates l w : (candidates_ok app_db max_candidates w ->
    (length l <= max_candidates)%nat /\ NoDup (sc_title_id <$> l) /\ forall c, c ∈ l -> candidate_from app_db (s_trace w) c) ->
  wp (set_candidates l) (fun _ w' => progress w w') w.
Proof. intros H. by apply progress_candidates. Qed.

Lemma candidate_marked tr manual c : candidate_from app_db tr c -> candidate_from app_db tr (mark_scan_candidate_manual manual c).
Proof.
  intros H. destruct manual as [source|]; [|done]. simpl. destruct (strcmp_eq source ""); [done|].
  destruct H as (path & t & n & k & l & H). by exists path, t, n, k, l.
Qed.

Lemma marked_title manual c : sc_title_id (mark_scan_candidate_manual manual c) = sc_title_id c.
Proof. destruct manual as [source|]; [|done]. simpl. by destruct (strcmp_eq source ""). Qed.

Lemma keeps_mark i manual : keeps (mark_manual_at i manual).
Proof.
  intros w. unfold mark_manual_at. apply wp_bind, wp_look. apply wp_set_candidates. intros (H1 & H2 & H3). split_and!.
  - by rewrite length_alter.
  - replace (sc_title_id <$> alter (mark_scan_candidate_manual manual) i (candidates w)) with (sc_title_id <$> candidates w); [done|].
    apply list_eq. intros j. rewrite !list_lookup_fmap. destruct (decide (i = j)) as [->|Hne].
    + rewrite list_lookup_alter_eq. destruct (candidates w !! j); [|done]. simpl. by rewrite marked_title.
    + by rewrite list_lookup_alter_ne.
  - intros c Hin. apply list_elem_of_lookup in Hin as [j Hj]. destruct (decide (i = j)) as [->|Hne].
    + rewrite list_lookup_alter_eq in Hj. apply fmap_Some in Hj as (c0 & Hc0 & ->). apply candidate_marked, H3.
      by eapply list_elem_of_lookup_2.
    + rewrite list_lookup_alter_ne in Hj by done. apply H3. by eapply list_elem_of_lookup_2.
Qed.

Lemma delete_sublist {A} i (l : list A) : delete i l `sublist_of` l.
Proof.
  revert i. induction l as [|a l IH]; intros [|i]; simpl; [done|done|by apply sublist_cons|]. by apply sublist_skip.
Qed.

Lemma keeps_remove i : keeps (let* l := look candidates in set_candidates (remove_scan_candidate_at i l)).
Proof.
  intros w. apply wp_bind, wp_look. apply wp_set_candidates. intros (H1 & H2 & H3). unfold remove_scan_candidate_at.
  pose proof (delete_sublist i (candidates w)) as Hs. split_and!.
  - apply sublist_length in Hs. lia.
  - eapply sublist_NoDup; [exact H2|]. by apply fmap_sublist.
  - intros c Hin. apply H3. by eapply elem_of_sublist.
Qed.

(** ** The queue *)
Lemma defer_known w : wp (defer_full_candidate_batch max_candidates)
  (fun full w' => still w w' /\ (full = false -> (length (candidates w') < max_candidates)%nat)) w.
Proof.
  unfold defer_full_candidate_batch. apply wp_bind, wp_look. destruct (Nat.ltb_spec (length (candidates w)) max_candidates).
  - apply wp_ret. split; [apply still_refl|done].
  - apply wp_bind. apply wp_bind. apply wp_ret. split; [|done].
    apply (still_flag max_candidates app_db w (Scan (found_titles w) (checked_appmeta w) (blocked_ppsa_uninstall w) (discovered_param_roots w)
      (candidates w) (unstable_found w) (s_clock w) (Called BatchFull :: s_trace w))); [|done].
    by eapply (extends_event _ _ (Called BatchFull)).
Qed.

Lemma enqueue_progress full_path title_id title_name installed in_app_db manual w :
  probed full_path (DIRECTORY_CANDIDATE_READY title_id title_name) (s_trace w) ->
  goes_on title_id (EXISTING_DIRECTORY_CONTINUE installed in_app_db) (s_trace w) ->
  Asked _ (QProtected title_id) false ∈ s_trace w ->
  title_id ∉ (sc_title_id <$> candidates w) ->
  wp (enqueue_directory_candidate sys max_candidates full_path title_id title_name installed in_app_db manual) (fun _ w' => progress w w') w.
Proof.
  intros (t & n & -> & -> & Hparam & Hinfo) (Hblocked & l & Hl & Hdb & Hinst) Hprot Hnew. unfold enqueue_directory_candidate.
  apply wp_bind. eapply wp_mono; [by apply wp_ask_in|]. intros attempts w1 [Hs1 Hatt].
  destruct (Z.leb_spec MAX_FAILED_MOUNT_ATTEMPTS attempts) as [|Hlt]; [apply wp_ret, Hs1|].
  destruct (MAX_PATH <=? _)%nat; [apply wp_ret, Hs1|].
  apply wp_bind. unfold ask. apply wp_mono with (Q := fun a w' => w' = asked sys (QStable (metadata_path_of full_path) (strlcpy n MAX_TITLE_NAME)) w1 /\
    a = sys bool (s_clock w1) (QStable (metadata_path_of full_path) (strlcpy n MAX_TITLE_NAME))); [by split|].
  intros stable w2 [-> Hstable]. destruct stable; cbn [negb].
  2: { eapply progress_trans; [apply Hs1|]. apply (still_flag max_candidates app_db w1 (asked sys _ w1)); [|done]. by apply extends_asked. }
  assert (Hs2 : still w1 (asked sys (QStable (metadata_path_of full_path) (strlcpy n MAX_TITLE_NAME)) w1)).
  { apply still_asked; [|done]. simpl. by rewrite <-Hstable. }
  assert (Hst : Asked _ (QStable (metadata_path_of full_path) (strlcpy n MAX_TITLE_NAME)) true ∈ s_trace (asked sys (QStable (metadata_path_of full_path) (strlcpy n MAX_TITLE_NAME)) w1)).
  { rewrite Hstable. apply elem_of_cons. by left. }
  set (w2 := asked _ _ w1) in *. apply wp_bind. eapply wp_mono; [apply defer_known|]. intros full w3 [Hs3 Hroom].
  pose proof (still_trans _ _ _ _ _ Hs1 (still_trans _ _ _ _ _ Hs2 Hs3)) as Hs. destruct full; [apply wp_ret, Hs|].
  apply wp_bind, wp_look. eapply wp_mono; [apply wp_set_candidates|]; [|intros ? w4 H4; eapply progress_trans; [apply Hs|exact H4]].
  intros (_ & H2 & H3). rewrite length_app. split_and!.
  - specialize (Hroom eq_refl). simpl. lia.
  - rewrite fmap_app. apply NoDup_app. split_and!; [done| |apply NoDup_singleton].
    intros x Hx ->%list_elem_of_singleton. rewrite marked_title in Hx. simpl in Hx. rewrite strlcpy_twice in Hx.
    apply Hnew. by rewrite (st_candidates _ _ _ _ Hs) in Hx.
  - intros c [Hin| ->%list_elem_of_singleton]%elem_of_app; [by apply H3|]. apply candidate_marked.
    exists full_path, t, n, attempts, l. simpl. rewrite !strlcpy_twice.
    pose proof (fun e => still_mem max_candidates app_db w w3 e Hs) as Hm.
    split_and!; try done; try by apply Hm.
    + eapply still_mem; [exact (still_trans _ _ _ _ _ Hs2 Hs3)|exact Hatt].
    + eapply still_mem; [exact Hs3|exact Hst].
    + destruct in_app_db; [by apply Hm|]. destruct Hinst as (? & ? & ?). split_and!; [done|by apply Hm|by apply Hm].
Qed.

(** ** A directory *)
Lemma probed_more full_path r tr tr' : (forall e, e ∈ tr -> e ∈ tr') -> probed full_path r tr -> probed full_path r tr'.
Proof. intros Hm. destruct r; [done|done|]. intros (t & n & H1 & H2 & H3 & H4). exists t, n. split_and!; auto. Qed.

Lemma keeps_after {A} (m : M A) w w' : still w w' -> keeps m -> wp m (fun _ w'' => progress w w'') w'.
Proof.
  intros [H _] Hm. eapply wp_mono; [apply Hm|]. intros a w'' H'. eapply progress_trans; [exact H|exact H'].
Qed.

Lemma not_duplicate l title_id : find_scan_candidate_index_by_title_id l title_id = None -> title_id ∉ (sc_title_id <$> l).
Proof.
  unfold find_scan_candidate_index_by_title_id. rewrite find_index_None. intros H Hin.
  apply list_elem_of_fmap in Hin as (c & -> & Hc). apply list_elem_of_lookup in Hc as [i Hi].
  specialize (H i c Hi). by apply strcmp_eq_false in H.
Qed.

Lemma duplicate_known title_id w : wp (duplicate_of title_id)
  (fun d w' => w' = w /\ (d = None -> title_id ∉ (sc_title_id <$> candidates w))) w.
Proof.
  unfold duplicate_of. apply wp_bind, wp_look, wp_ret. split; [done|].
  destruct (find_scan_candidate_index_by_title_id _ _) as [i|] eqn:Hf; [|intros _; by apply not_duplicate].
  apply find_index_hit in Hf as (c & Hc & _). by rewrite Hc.
Qed.

(** Recording a game of an image; the flag when that fails. *)
Lemma recorded_known full_path title_id w :
  wp (ask sys (QRecordGame full_path title_id)) (fun recorded w' => wp (when (negb recorded) flag_unstable) (fun _ w'' => still w w'') w') w.
Proof.
  eapply wp_mono; [by apply wp_ask_any|]. intros [] w' (He & Hc & Hs); [by apply Hs|]. by apply still_flag.
Qed.

Ltac keep_step :=
  match goal with
  | |- keeps (bind (look candidates) (fun l => bind (set_candidates (remove_scan_candidate_at _ l)) _)) => idtac
  | |- keeps (bind _ _) => apply keeps_bind; [|intros ?]
  | |- keeps (ret _) => apply keeps_ret
  | |- keeps (when _ _) => apply keeps_when
  | |- keeps (tell _) => apply keeps_rests, rests_tell; split; reflexivity
  | |- keeps (ask _ _) => apply keeps_rests, rests_ask; intros ?; split; reflexivity
  | |- keeps flag_unstable => apply keeps_rests, rests_flag
  | |- keeps (mark_manual_at _ _) => apply keeps_mark
  | |- keeps (match ?x with _ => _ end) => destruct x
  end.

Lemma keeps_remove_then {A} i (k : M A) : keeps k ->
  keeps (let* l := look candidates in let* _ := set_candidates (remove_scan_candidate_at i l) in k).
Proof.
  intros Hk w. apply wp_bind, wp_look. apply wp_bind. apply wp_mono with (Q := fun _ w' => progress w w'); [exact (keeps_remove i w)|].
  intros ? w' H'. eapply wp_mono; [apply Hk|]. intros ? w'' H''. eapply progress_trans; [exact H'|exact H''].
Qed.

Lemma keeps_try full_path allow manual :
  keeps (try_collect_candidate_for_directory sys max_candidates full_path app_db allow manual).
Proof.
  intros w. unfold try_collect_candidate_for_directory. apply wp_bind. eapply wp_mono; [apply probe_known|].
  intros probe w1 [Hs1 Hprobe]. destruct probe as [| |title_id title_name]; [apply wp_ret, Hs1|apply wp_ret, Hs1|].
  assert (Hfit : fits title_id) by (destruct Hprobe as (t & n & -> & _); apply fits_copied).
  apply wp_bind. eapply wp_mono; [apply (rests_note_found max_candidates app_db)|]. intros ? w2 Hs2.
  apply wp_bind. eapply wp_mono; [apply recorded_known|]. intros recorded w3 Hrec. apply wp_bind.
  eapply wp_mono; [exact Hrec|]. intros ? w4 Hs4.
  apply wp_bind. eapply wp_mono; [by apply wp_ask_in|]. intros protected w5 [Hs5 Hprot].
  pose proof (still_trans _ _ _ _ _ Hs1 (still_trans _ _ _ _ _ Hs2 (still_trans _ _ _ _ _ Hs4 Hs5))) as Hs.
  destruct protected; [apply wp_ret, Hs|].
  apply wp_bind. eapply wp_mono; [apply (rests_tell max_candidates app_db); by split|]. intros ? w6 Hs6.
  apply wp_bind. eapply wp_mono; [apply (rests_tell max_candidates app_db); by split|]. intros ? w7 Hs7.
  apply wp_bind. eapply wp_mono; [apply duplicate_known|]. intros duplicate w7' [-> Hdup].
  apply wp_bind. eapply wp_mono; [by apply existing_known|]. intros existing w8 [Hs8 Hgoes].
  pose proof (still_trans _ _ _ _ _ Hs6 (still_trans _ _ _ _ _ Hs7 Hs8)) as Hs58.
  pose proof (still_trans _ _ _ _ _ Hs Hs58) as Hall.
  destruct existing as [installed in_app_db| | |preferred].
  - destruct duplicate as [[i path]|]; [apply keeps_after; [exact Hall|]; repeat keep_step|].
    apply wp_bind. eapply wp_mono; [apply enqueue_progress|].
    + eapply probed_more; [|exact Hprobe]. intros e He. eapply still_mem; [exact Hs58|]. eapply still_mem; [exact Hs5|].
      eapply still_mem; [exact Hs4|]. eapply still_mem; [exact Hs2|done].
    + done.
    + eapply still_mem; [exact Hs58|done].
    + rewrite (st_candidates _ _ _ _ Hs8). by apply Hdup.
    + intros ? w9 H9. apply wp_ret. eapply progress_trans; [apply Hall|exact H9].
  - apply keeps_after; [exact Hall|]. destruct duplicate as [[i path]|]; repeat keep_step.
  - apply keeps_after; [exact Hall|]. apply keeps_bind; [repeat keep_step|intros _].
    destruct duplicate as [[i path]|]; [|repeat keep_step]. apply keeps_bind; [repeat keep_step|intros _].
    apply keeps_remove_then. repeat keep_step.
  - apply keeps_after; [exact Hall|]. apply keeps_bind; [repeat keep_step|intros _].
    destruct duplicate as [[i path]|]; [|repeat keep_step]. apply keeps_remove_then. repeat keep_step.
Qed.
End candidate.

(** * Images and walks *)
Section images.
Context {F : Fuel} (sys : answers) (max_candidates : nat) (app_db : app_db_context).
Abbreviation rests := (rests max_candidates app_db).
Abbreviation keeps := (keeps max_candidates app_db).
Abbreviation still := (still max_candidates app_db).
Abbreviation progress := (progress app_db max_candidates).
Abbreviation extends := (extends app_db max_candidates).

Lemma extends_like w w1 w' w1' : extends w w1 ->
  s_trace w' = s_trace w -> blocked_ppsa_uninstall w' = blocked_ppsa_uninstall w -> candidates w' = candidates w ->
  s_trace w1' = s_trace w1 -> blocked_ppsa_uninstall w1' = blocked_ppsa_uninstall w1 -> candidates w1' = candidates w1 -> extends w' w1'.
Proof.
  intros [He Hc] Ht Hb Hl Ht1 Hb1 Hl1. split; [by rewrite Ht, Ht1, Hb, Hb1|]. unfold candidates_ok in *.
  by rewrite Ht, Hl, Ht1, Hl1.
Qed.

(** A part with a flag of its own: the flag tells whether something was left out. *)
Lemma own_flag_known b (m : M ()) w : keeps m ->
  wp (with_own_flag b m) (fun inner w' => progress w w' /\
    (inner = false -> forall evs, s_trace w' = evs ++ s_trace w -> complete evs = true)) w.
Proof.
  intros Hm. unfold with_own_flag. apply wp_bind, wp_look, wp_bind.
  set (w0 := Scan (found_titles w) (checked_appmeta w) (blocked_ppsa_uninstall w) (discovered_param_roots w) (candidates w) b (s_clock w) (s_trace w)).
  apply wp_mono with (Q := fun _ w' => w' = w0); [done|]. intros ? w0' ->. apply wp_bind.
  eapply wp_mono; [apply Hm|]. intros ? w1 [He _ Hc]. apply wp_bind, wp_look, wp_bind.
  set (w2 := Scan (found_titles w1) (checked_appmeta w1) (blocked_ppsa_uninstall w1) (discovered_param_roots w1) (candidates w1)
    (unstable_found w || unstable_found w1) (s_clock w1) (s_trace w1)).
  apply wp_mono with (Q := fun _ w' => w' = w2); [done|]. intros ? w2' ->. apply wp_ret. split; [split|exact Hc].
  - by eapply extends_like.
  - intros H. by apply orb_false_iff in H as [H _].
  - intros H. apply orb_false_iff in H as [_ H]. exact (Hc H).
Qed.

Lemma progress_complete_scan image scan w w4 w5 : progress w w4 -> s_trace w4 = scan ++ Called (BeginScan image) :: s_trace w ->
  complete scan = true -> s_trace w5 = Called (CompleteScan image) :: s_trace w4 -> candidates w5 = candidates w4 ->
  blocked_ppsa_uninstall w5 = blocked_ppsa_uninstall w4 -> unstable_found w5 = unstable_found w4 -> progress w w5.
Proof.
  intros [[(evs & Ht & Hp & added & Hb & Hu & Hnd) Hc] Hf Hk] Ht4 Hscan Ht5 Hc5 Hb5 Hu5.
  assert (Hevs : evs = scan ++ [Called (BeginScan image)]).
  { rewrite Ht in Ht4. change (?a :: s_trace w) with ([a] ++ s_trace w) in Ht4. rewrite (assoc_L app) in Ht4. by apply app_inv_tail in Ht4. }
  split; [split| |].
  - exists (Called (CompleteScan image) :: evs). split_and!; [by rewrite Ht5, Ht| |].
    + intros [|e later] earlier image' H; simplify_eq/=; [by exists scan, []|]. by eapply Hp.
    + exists added. split_and!; [by rewrite Hb5| |by rewrite Hb5]. rewrite Hb5. exact Hu.
  - intros H. eapply candidates_ok_same; [exact Hc5| |by apply Hc]. intros e He. rewrite Ht5. apply elem_of_cons. by right.
  - by rewrite Hu5.
  - rewrite Hu5. intros H evs' H'. rewrite Ht5, Ht in H'. change (?a :: ?l ++ s_trace w) with ((a :: l) ++ s_trace w) in H'.
    apply app_inv_tail in H' as <-. simpl. by apply Hk.
Qed.

(** The answer to a question about a mount point. *)
Lemma wp_ask_point image w : wp (ask sys (QMountPoint image))
  (fun p w' => p = sys string (s_clock w) (QMountPoint image) /\ w' = asked sys (QMountPoint image) w) w.
Proof. done. Qed.

Lemma keeps_scan_mounted indexed b image (m : string -> M ()) :
  (forall n, keeps (m (sys string n (QMountPoint image)))) -> keeps (scan_mounted_image sys indexed b image m).
Proof.
  intros Hm w. unfold scan_mounted_image. apply wp_bind.
  set (w1 := if indexed then Scan (found_titles w) (checked_appmeta w) (blocked_ppsa_uninstall w) (discovered_param_roots w) (candidates w)
               (unstable_found w) (s_clock w) (Called (BeginScan image) :: s_trace w) else w).
  apply wp_mono with (Q := fun _ w' => w' = w1); [by destruct indexed|]. intros ? w1' ->.
  assert (H1 : progress w w1).
  { destruct indexed; [|apply progress_refl]. by eapply (progress_event _ _ (Called (BeginScan image))). }
  apply wp_bind. eapply wp_mono; [apply wp_ask_point|]. intros p w2 [-> ->].
  assert (H2 : progress w1 (asked sys (QMountPoint image) w1)) by by apply still_asked.
  apply wp_bind. eapply wp_mono; [by apply own_flag_known|]. intros inner w3 [H3 Hinner].
  pose proof (progress_trans _ _ _ _ _ H1 (progress_trans _ _ _ _ _ H2 H3)) as H13.
  destruct indexed; [|apply wp_ret, H13]. destruct inner; [apply wp_ret, H13|]. cbn [andb negb].
  apply wp_bind. apply wp_mono with (Q := fun _ w' => w' = asked sys QStop w3); [done|]. intros stop w4 ->.
  assert (H4 : progress w3 (asked sys QStop w3)) by by apply still_asked.
  pose proof (progress_trans _ _ _ _ _ H13 H4) as H14.
  apply wp_when; intros _; [|exact H14].
  destruct H3 as [[(evs & Ht3 & _) _] _ _]. specialize (Hinner eq_refl evs Ht3).
  apply wp_change. eapply (progress_complete_scan image (Asked _ QStop (sys bool (s_clock w3) QStop) :: evs ++ [Asked _ (QMountPoint image) (sys string (s_clock w1) (QMountPoint image))]));
    [exact H14| | |reflexivity|reflexivity|reflexivity|reflexivity].
  - simpl. rewrite Ht3. simpl. by rewrite <-(assoc_L app).
  - simpl. rewrite complete_app, Hinner. done.
Qed.

(** ** The walk *)
Definition walked (c c' : option scan_world) : Prop :=
  match c, c' with
  | Some w, Some w' => progress w w'
  | Some _, None => exhausted
  | None, c' => c' = None
  end.

Lemma walked_refl c : walked c c.
Proof. destruct c; [apply progress_refl|done]. Qed.

Lemma walked_trans a b c : walked a b -> walked b c -> walked a c.
Proof.
  destruct a as [a|], b as [b|], c as [c|]; simpl; try done. apply progress_trans.
Qed.

Lemma walked_lift {A} (d : A) (m : M A) c : keeps m -> walked c (lift d m c).2.
Proof.
  intros Hm. destruct c as [w|]; [|done]. specialize (Hm w). unfold wp in Hm. simpl. by destruct (m w) as [[a w']|].
Qed.

Lemma prefix_self s : has_prefix s s = true.
Proof. apply has_prefix_spec. exists ""%string. by rewrite string_app_nil_r. Qed.

Lemma keeps_walk_with env depth root on_dir on_image : (forall dir d, keeps (on_dir dir d)) ->
  (forall f path name, on_image = Some f -> has_prefix path root = true -> keeps (f path name)) ->
  keeps (walk_with env depth root on_dir on_image).
Proof.
  intros Hd Hi w. unfold walk_with, wp.
  match goal with |- context[sm_scan_tree_walk _ _ _ _ ?cb _ _ _ _ _] => set (callbacks := cb) end.
  pose proof (walk_keeps env callbacks root walked (fun p => has_prefix p root = true) (join_prefix root) walked_refl walked_trans) as H.
  assert (Hw : walked (Some w) (sm_scan_tree_walk (we_fs env) (we_scan_paths env) (we_stop env) (we_active_game env) callbacks root depth root 0
    (0%nat, Some w)).2.2).
  { apply (H) with (s := (0%nat, Some w)); [| |apply prefix_self].
    - intros f path d c [= <-]. by apply walked_lift.
    - intros f path name d c Hf Hp. simpl in Hf. destruct on_image as [g|]; [|done]. injection Hf as <-. apply walked_lift. by eapply Hi. }
  destruct (sm_scan_tree_walk _ _ _ _ _ _ _ _ _ _) as [ok [k [w'|]]]; exact Hw.
Qed.

Lemma keeps_walk root db manual on_image :
  (forall dir d, keeps (collect_candidate_directory_visit sys max_candidates db manual dir d)) ->
  (forall f path name, on_image = Some f -> has_prefix path root = true -> keeps (f path name)) ->
  keeps (walk_for_candidates sys max_candidates root db manual on_image).
Proof.
  intros Hd Hi w. unfold walk_for_candidates, walk_root. apply wp_bind, wp_bind.
  eapply wp_mono; [by apply (rests_ask sys max_candidates app_db)|]. intros depth w1 H1.
  apply wp_bind. eapply wp_mono; [by apply (rests_ask sys max_candidates app_db)|]. intros env w2 H2.
  apply wp_bind. eapply wp_mono; [by apply keeps_walk_with|]. intros ok w3 H3.
  pose proof (progress_trans _ _ _ _ _ (st_progress _ _ _ _ (still_trans _ _ _ _ _ H1 H2)) H3) as H13.
  apply wp_bind.
  set (w4 := Scan (found_titles w3) (checked_appmeta w3) (blocked_ppsa_uninstall w3) (discovered_param_roots w3) (candidates w3)
    (unstable_found w3) (s_clock w3) (Called (Walked root ok) :: s_trace w3)).
  apply wp_mono with (Q := fun _ w' => w' = w4); [done|]. intros ? w4' ->. apply wp_ret.
  assert (He : extends w3 w4) by by eapply (extends_event _ _ (Called (Walked root ok))).
  destruct ok; simpl.
  - eapply progress_trans; [exact H13|]. by eapply (progress_event _ _ (Called (Walked root true))).
  - eapply progress_trans; [exact H13|]. by apply (still_flag max_candidates app_db w3 w4).
Qed.
End images.

(** * The whole scan *)
Section scans.
Context {F : Fuel} (sys : answers) (max_candidates : nat) (app_db : app_db_context).
Abbreviation rests := (rests max_candidates app_db).
Abbreviation keeps := (keeps max_candidates app_db).
Abbreviation progress := (progress app_db max_candidates).

(** How deep images are nested below a path, when the fuel has to suffice: the mount
    point of an image in a container lies less deep than the container. *)
Context (nesting : string -> nat).
Definition nested_less : Prop := forall n root image, is_pfsc_image_mount_base_or_child root = true ->
  has_prefix image root = true -> (nesting (sys string n (QMountPoint image)) < nesting root)%nat.
Context (Hnesting : exhausted \/ nested_less).

Lemma keeps_defer : keeps (defer_full_candidate_batch max_candidates).
Proof. intros w. eapply wp_mono; [apply (defer_known max_candidates app_db)|]. by intros full w' [[H _] _]. Qed.

Ltac keep :=
  match goal with
  | |- keeps (bind _ _) => apply keeps_bind; [|intros ?]
  | |- keeps (ret _) => apply keeps_ret
  | |- keeps (when _ _) => apply keeps_when
  | |- keeps (tell _) => apply keeps_rests, rests_tell; split; reflexivity
  | |- keeps (look _) => apply keeps_rests, rests_look
  | |- keeps flag_unstable => apply keeps_rests, rests_flag
  | |- keeps (defer_full_candidate_batch _) => apply keeps_defer
  | |- keeps (note_indexed_titles _ _ _) => apply keeps_rests, rests_note_indexed
  | |- keeps (mount_persistent_indexed_image _ _ _) => apply keeps_rests, rests_mount_persistent
  | |- keeps (try_collect_candidate_for_directory _ _ _ _ _ _) => apply keeps_try
  | |- keeps (ask _ _) => apply keeps_rests, rests_ask; intros ?; split; reflexivity
  | |- keeps (if ?b then _ else _) => destruct b
  | |- keeps (match ?x with _ => _ end) => destruct x
  end.

Lemma keeps_directory_visit manual dir d : keeps (collect_candidate_directory_visit sys max_candidates app_db manual dir d).
Proof. unfold collect_candidate_directory_visit. repeat keep. Qed.

(** Mounting an image and going on with it, or the flag. *)
Lemma keeps_mount {A} path name (k1 : M A) (k2 : bool -> M A) : keeps k1 -> (forall u, keeps (k2 u)) ->
  keeps (let* answer := ask sys (QMountImage path name) in
         let '(mounted, image_unstable) := answer in
         if negb mounted then let* _ := when image_unstable flag_unstable in k1 else k2 image_unstable).
Proof.
  intros H1 H2 w. apply wp_bind. eapply wp_mono; [by apply (wp_ask_any sys max_candidates app_db)|].
  intros [mounted unstable] w' (He & Hc & Hs). simpl in Hs. destruct mounted; cbn [negb].
  - apply keeps_after; [by apply Hs|done].
  - apply wp_bind. apply wp_mono with (Q := fun _ w'' => still max_candidates app_db w w'').
    + destruct unstable; [by apply still_flag|by apply Hs].
    + intros ? w'' H''. by apply keeps_after.
Qed.

Lemma keeps_image_visit collect db manual path name :
  (forall n, keeps (collect (sys string n (QMountPoint path)) manual)) ->
  keeps (collect_candidate_image_visit sys max_candidates collect db manual path name).
Proof.
  intros Hc. unfold collect_candidate_image_visit. apply keeps_bind; [keep|intros background]. destruct background; cbn [negb]; [|keep].
  apply keeps_bind; [keep|intros full]. destruct full; [keep|]. apply keeps_bind; [keep|intros st]. destruct st as [kind|]; [|keep].
  apply keeps_bind; [destruct (negb (is_under_image_mount_base path)); repeat keep|intros ready].
  destruct ready as [found|]; [repeat keep|]. apply keeps_mount; [repeat keep|]. intros u.
  apply keeps_bind; [by apply keeps_scan_mounted|]. intros ?. repeat keep.
Qed.

Lemma keeps_manual_root fuel path manual : exhausted \/ (nesting path < fuel)%nat ->
  keeps (collect_scan_candidates_from_manual_root sys max_candidates fuel app_db path manual).
Proof.
  revert path manual. induction fuel as [|fuel IH]; intros path manual Hfuel; simpl.
  { intros w. apply wp_stuck. destruct Hfuel; [done|lia]. }
  apply keeps_bind; [repeat keep|]. intros stop. destruct stop; [repeat keep|].
  apply keeps_bind; [repeat keep|]. intros try_root. apply keeps_bind; [repeat keep|]. intros handled.
  destruct handled; [repeat keep|]. apply keeps_walk; [apply keeps_directory_visit|].
  intros f image name Hf Hp. destruct (is_pfsc_image_mount_base_or_child path) eqn:Hpfsc; [|done].
  injection Hf as <-. apply keeps_image_visit. intros n. apply IH. destruct Hnesting as [|Hn]; [by left|].
  destruct Hfuel; [by left|]. right. specialize (Hn n path image Hpfsc Hp). lia.
Qed.

(** The fuel covers everything that is mounted, and the sources added by hand. *)
Definition fuel_enough (fuel : nat) : Prop :=
  (forall n image, (nesting (sys string n (QMountPoint image)) < fuel)%nat) /\
  (forall n paths path, sys (list string) n QManualPaths = paths -> path ∈ paths -> (nesting path < fuel)%nat).

Context (fuel : nat) (Hfuel : exhausted \/ fuel_enough fuel).

Lemma point_fuel n image : exhausted \/ (nesting (sys string n (QMountPoint image)) < fuel)%nat.
Proof. destruct Hfuel as [|[H _]]; [by left|right]. apply H. Qed.

Lemma keeps_from_root path : keeps (collect_scan_candidates_from_root sys max_candidates fuel app_db path).
Proof.
  unfold collect_scan_candidates_from_root. repeat keep. apply keeps_walk; [apply keeps_directory_visit|].
  intros f image name [= <-] _. apply keeps_image_visit. intros n. apply keeps_manual_root, point_fuel.
Qed.

Lemma keeps_roots paths : keeps (collect_roots sys max_candidates fuel app_db paths).
Proof. induction paths as [|p paths IH]; simpl; repeat (keep || apply keeps_from_root || apply IH). Qed.

Lemma keeps_manual_path path : exhausted \/ (nesting path < fuel)%nat ->
  keeps (collect_scan_candidates_from_manual_path sys max_candidates fuel app_db path).
Proof.
  intros Hpath. unfold collect_scan_candidates_from_manual_path. apply keeps_bind; [keep|intros stop]. destruct stop; [keep|].
  apply keeps_bind; [keep|intros full]. destruct full; [keep|]. apply keeps_bind; [keep|intros st]. destruct st as [kind|]; [|keep].
  apply keeps_bind; [keep|intros ?].
  destruct (_ && _).
  - apply keeps_bind; [keep|intros ready]. destruct ready as [found|].
    + do 2 (apply keeps_bind; [keep|intros ?]). keep; [keep|]. apply keeps_bind; [keep|intros mounted]. keep; [keep|].
      intros w. apply wp_bind. eapply wp_mono; [apply wp_ask_point|]. intros p w' [-> ->].
      apply keeps_after; [by apply still_asked|]. apply keeps_when, keeps_manual_root, point_fuel.
    + apply keeps_mount; [repeat keep|]. intros u. apply keeps_scan_mounted. intros n. apply keeps_manual_root, point_fuel.
  - apply keeps_bind; [repeat keep|intros has_param]. keep; [keep|]. by apply keeps_manual_root.
Qed.

Lemma keeps_manual_paths paths : exhausted \/ (forall path, path ∈ paths -> (nesting path < fuel)%nat) ->
  keeps (collect_manual_paths sys max_candidates fuel app_db paths).
Proof.
  induction paths as [|p paths IH]; intros Hp; simpl; [keep|]. apply keeps_bind; [keep|intros stop]. destruct stop; [keep|].
  apply keeps_bind; [keep|intros l]. keep; [keep|]. apply keeps_bind.
  - apply keeps_manual_path. destruct Hp as [|Hp]; [by left|right]. apply Hp, elem_of_cons. by left.
  - intros _. apply IH. destruct Hp as [|Hp]; [by left|right]. intros q Hq. apply Hp, elem_of_cons. by right.
Qed.

Lemma keeps_manual_list : keeps (collect_scan_candidates_from_manual_list sys max_candidates fuel app_db).
Proof.
  unfold collect_scan_candidates_from_manual_list. apply keeps_bind; [keep|intros stop]. destruct stop; [keep|].
  apply keeps_bind; [keep|intros ?]. intros w. apply wp_bind.
  apply wp_mono with (Q := fun paths w' => paths = sys (list string) (s_clock w) QManualPaths /\ w' = asked sys QManualPaths w); [done|].
  intros paths w' [-> ->]. apply keeps_after; [by apply still_asked|]. apply keeps_manual_paths.
  destruct Hfuel as [|[_ H]]; [by left|right]. intros path Hin. by eapply H.
Qed.

Lemma keeps_uninstall blocked : Forall fits blocked -> keeps (uninstall_blocked_ppsa_titles sys blocked).
Proof.
  induction 1 as [|t blocked Ht _ IH]; simpl; [keep|]. apply keeps_bind; [keep|intros stop]. destruct stop; [keep|].
  apply keeps_bind; [by apply keeps_rests, rests_request_blocked|]. intros _. exact IH.
Qed.
End scans.

Lemma id_array_fits ids : Forall fits (id_array ids).
Proof. apply Forall_fmap, Forall_true. intros t. apply fits_copied. Qed.

(** ** Both scans *)
Section runs.
Context {F : Fuel} (sys : answers) (max_candidates : nat) (nesting : string -> nat) (fuel : nat).
Context (Hnesting : exhausted \/ nested_less sys nesting) (Hfuel : exhausted \/ fuel_enough sys nesting fuel).

(** All roots, or one. *)
Definition scan (root : option string) : M (list scan_candidate_t * nat) :=
  match root with
  | Some r => collect_scan_candidates_for_scan_root sys max_candidates fuel r
  | None => collect_scan_candidates sys max_candidates fuel
  end.

(** The lists of titles a scan works with. *)
Definition app_db_at (n : nat) : app_db_context :=
  AppDb (id_array <$> sys _ n QAppDbTitles) (id_array <$> sys _ (S n) QBlockedTitles).

(** The state once the lists are read. *)
Definition scan_begun (w : scan_world) : scan_world :=
  Scan [] [] [] [] [] (unstable_found w) (S (S (s_clock w)))
    (Asked _ QBlockedTitles (sys _ (S (s_clock w)) QBlockedTitles) :: Asked _ QAppDbTitles (sys _ (s_clock w) QAppDbTitles) :: s_trace w).

Lemma keeps_result : forall db w, wp scan_result (fun r w' => progress db max_candidates w w' /\ r.1 = candidates w') w.
Proof.
  intros db w. unfold scan_result. apply wp_bind, wp_look, wp_bind.
  eapply wp_mono; [apply (rests_tell max_candidates db); by split|]. intros ? w' [H1 _]. apply wp_bind, wp_look, wp_ret. by split.
Qed.

Lemma scan_progress root w :
  wp (scan root) (fun r w' => progress (app_db_at (s_clock w)) max_candidates (scan_begun w) w' /\ r.1 = candidates w') w.
Proof.
  set (db := app_db_at (s_clock w)).
  assert (Hthen : forall (m : M ()), keeps max_candidates db m ->
    wp (let* _ := m in scan_result) (fun r w' => progress db max_candidates (scan_begun w) w' /\ r.1 = candidates w') (scan_begun w)).
  { intros m Hm. apply wp_bind. eapply wp_mono; [apply Hm|]. intros ? w1 H1. eapply wp_mono; [apply (keeps_result db)|].
    intros r w2 [H2 Hr]. split; [|done]. eapply progress_trans; [exact H1|exact H2]. }
  assert (Hseq : forall (m1 m2 : M ()) w0, wp (let* _ := (let* _ := m1 in m2) in scan_result)
      (fun r w' => progress db max_candidates (scan_begun w) w' /\ r.1 = candidates w') w0 ->
    wp (let* _ := m1 in let* _ := m2 in scan_result) (fun r w' => progress db max_candidates (scan_begun w) w' /\ r.1 = candidates w') w0).
  { intros m1 m2 w0. unfold wp, bind. by destruct (m1 w0) as [[? w1]|]. }
  assert (Hrepair : keeps max_candidates db (tell (RepairBackports DEFAULT_BACKPORT_SCAN_PATH))) by by apply keeps_rests, rests_tell.
  destruct root as [r|].
  - change (wp (let* _ := tell (RepairBackports DEFAULT_BACKPORT_SCAN_PATH) in
      let* _ := collect_scan_candidates_from_root sys max_candidates fuel db r in scan_result)
      (fun r w' => progress db max_candidates (scan_begun w) w' /\ r.1 = candidates w') (scan_begun w)).
    apply Hseq, Hthen. apply keeps_bind; [done|]. intros _. eapply keeps_from_root; eassumption.
  - change (wp (let* _ := tell (RepairBackports DEFAULT_BACKPORT_SCAN_PATH) in
      let* paths := ask sys QScanPaths in
      let* _ := collect_roots sys max_candidates fuel db paths in
      let* _ := collect_scan_candidates_from_manual_list sys max_candidates fuel db in
      let* _ := uninstall_blocked_ppsa_titles sys (default [] (blocked_ppsa_titles db)) in scan_result)
      (fun r w' => progress db max_candidates (scan_begun w) w' /\ r.1 = candidates w') (scan_begun w)).
    apply wp_bind. eapply wp_mono; [apply Hrepair|]. intros ? w1 H1. apply wp_bind.
    eapply wp_mono; [by apply (rests_ask sys max_candidates db)|]. intros paths w2 [H2 _].
    apply wp_bind. eapply wp_mono; [eapply keeps_roots; eassumption|]. intros ? w3 H3.
    apply wp_bind. eapply wp_mono; [eapply keeps_manual_list; eassumption|]. intros ? w4 H4.
    apply wp_bind. eapply wp_mono; [apply (keeps_uninstall sys max_candidates db)|].
    { unfold db, app_db_at. simpl. destruct (sys _ _ QBlockedTitles); [apply id_array_fits|apply Forall_nil_2]. }
    intros ? w5 H5. eapply wp_mono; [apply (keeps_result db)|]. intros r w6 [H6 Hr]. split; [|done].
    exact (progress_trans _ _ _ _ _ H1 (progress_trans _ _ _ _ _ H2 (progress_trans _ _ _ _ _ H3
      (progress_trans _ _ _ _ _ H4 (progress_trans _ _ _ _ _ H5 H6))))).
Qed.
End runs.

(** * Properties *)

(** A scan of one root with one game in it. *)
Definition sample_env : walk_env :=
  WalkEnv (ScanFs (fun dir => if strcmp_eq dir "/data/homebrew" then Entries [("game", DT_DIR)] None else Entries [] None)
             (fun _ => inl KDir)) ["/data/homebrew"%string] (fun _ => false) (fun _ => false).

Definition sample_answers (manual : list string) : answers := fun A n q =>
  match q in question A return A with
  | QStop => false | QBackground => true | QActiveMountPoint _ => false
  | QGameParam p => strcmp_eq p "/data/homebrew/game"
  | QMissingParamLimited _ => true
  | QGameInfo _ => Some ("PPSA00001", "Game")%string
  | QMountLink _ => None | QImageLink _ => None | QDataMounted _ => false | QInstalled _ => false | QAppmeta _ => false
  | QExecutable _ => true | QIndexHasTitle _ _ => false | QInstallPending _ => false | QRegisterAttempted _ => false
  | QFailedAttempts _ => 0 | QStable _ _ => true | QRecordGame _ _ => true | QProtected _ => false | QUninstall _ => 0
  | QMountImage _ _ => (false, false) | QStat _ => Some KDir | QReadyTitles _ => None | QPersistentMounts => false
  | QMountPoint _ => "/mnt/shadowmnt/image"%string | QScanDepth _ => 1%nat | QWalk _ => sample_env
  | QScanPaths => [Some "/data/homebrew"%string] | QManualPaths => manual
  | QAppDbTitles => Some [] | QBlockedTitles => Some ["CUSA00001"%string]
  end.

Definition sample_start : scan_world := Scan ["CUSA00009"%string] [] [] [] [] false 0 [].

(** Claim C33: every candidate a scan hands to the installation, of all roots or of
    one and whatever the system answers, is one that may be installed: the list has
    at most its capacity, no title twice, and for each candidate the scan read the
    title id and name from the metadata of its directory, found the title neither
    protected nor blocked, its attempts below the limit and its metadata stable, and
    its mark of being installed is the one the application database and the system
    gave; a title that is not in the database had neither a pending nor an attempted
    registration.  Without the database there are no candidates. *)
Theorem scan_candidates_sound sys max_candidates fuel root w l total w' : s_trace w = [] ->
  scan sys max_candidates fuel root w = Some ((l, total), w') ->
  (length l <= max_candidates)%nat /\ NoDup (sc_title_id <$> l) /\
  (forall c, c ∈ l -> candidate_from (app_db_at sys (s_clock w)) (s_trace w') c).
Proof.
  intros Ht Hrun. pose proof (scan_progress (F := partly) sys max_candidates (fun _ => 0%nat) fuel (or_introl I) (or_introl I) root w) as H.
  eapply wp_result in H; [|exact Hrun]. destruct H as [[[_ Hc] _ _] Hl]. simpl in Hl. subst l.
  destruct Hc as (H1 & H2 & H3); [|done]. split_and!; simpl; [lia|apply NoDup_nil_2|]. by intros c ?%elem_of_nil.
Qed.

Lemma scan_candidates_sound_witness : exists l total w',
  scan (sample_answers []) 512 1 None sample_start = Some ((l, total), w') /\ sc_title_id <$> l = ["PPSA00001"%string] /\
  NoDup (sc_title_id <$> l).
Proof.
  destruct (scan (sample_answers []) 512 1 None sample_start) as [[[l total] w']|] eqn:Hrun; [|vm_compute in Hrun; discriminate].
  exists l, total, w'. destruct (scan_candidates_sound (sample_answers []) 512 1 None sample_start l total w' eq_refl Hrun) as (_ & Hnd & _).
  vm_compute in Hrun. injection Hrun as <- <- <-. split_and!; [reflexivity|reflexivity|exact Hnd].
Defined.

(** the history of a scan keeps three promises, whatever the system
    answers.  When the scan does not report that something was left for later, it
    recorded every game it met in the image index, found all metadata and images
    stable, never ran out of room and no walk was cut short.  An image is marked as
    scanned only at the end of a scan of that image which left nothing out.  And as
    long as fewer than 512 blocked titles were met, the uninstallation of each is
    requested once and of no other title. *)
Theorem scan_history_exact sys max_candidates fuel root w r w' :
  scan sys max_candidates fuel root w = Some (r, w') ->
  exists evs, s_trace w' = evs ++ s_trace w /\ index_protocol evs /\
    (unstable_found w' = false -> unstable_found w = false /\ complete evs = true) /\
    ((length (blocked_ppsa_uninstall w') < MAX_PENDING)%nat ->
       uninstalls evs = reverse (blocked_ppsa_uninstall w') /\ NoDup (uninstalls evs)).
Proof.
  intros Hrun. pose proof (scan_progress (F := partly) sys max_candidates (fun _ => 0%nat) fuel (or_introl I) (or_introl I) root w) as H.
  eapply wp_result in H; [|exact Hrun]. destruct H as [[[(evs & Ht & Hp & added & Hb & Hu & Hnd) _] Hf Hk] _].
  simpl in Hb.
  set (e1 := Asked _ QBlockedTitles (sys _ (S (s_clock w)) QBlockedTitles)).
  set (e2 := Asked _ QAppDbTitles (sys _ (s_clock w) QAppDbTitles)).
  exists (evs ++ [e1; e2]). split_and!.
  - rewrite Ht. simpl. by rewrite <-(assoc_L app).
  - apply index_protocol_app; [done|]. apply (index_protocol_app [e1] [e2]); by apply index_protocol_one.
  - intros H. specialize (Hk H evs Ht). split; [by apply Hf|]. rewrite complete_app, Hk. done.
  - intros Hl. specialize (Hu Hl). unfold uninstalls in *. rewrite omap_app, Hu. simpl. rewrite app_nil_r, Hb.
    split; [done|]. rewrite reverse_Permutation, <-Hb. apply Hnd. apply NoDup_nil_2.
Qed.

Lemma scan_history_exact_witness : exists r w' evs,
  scan (sample_answers []) 512 1 None sample_start = Some (r, w') /\ s_trace w' = evs ++ [] /\ complete evs = true /\
  uninstalls evs = ["CUSA00001"%string].
Proof.
  destruct (scan (sample_answers []) 512 1 None sample_start) as [[r w']|] eqn:Hrun; [|vm_compute in Hrun; discriminate].
  destruct (scan_history_exact _ _ _ _ _ _ _ Hrun) as (evs & Ht & _ & Hc & Hu). exists r, w', evs.
  assert (Hw : unstable_found w' = false /\ blocked_ppsa_uninstall w' = ["CUSA00001"%string]).
  { vm_compute in Hrun. injection Hrun as <- <-. by split. }
  destruct Hw as [Hf Hb]. rewrite Hb in Hu. destruct Hu as [Hu _]; [unfold MAX_PENDING; simpl; lia|].
  split_and!; [reflexivity|exact Ht|by apply Hc|exact Hu].
Defined.

(** a scan comes to its end: when an image in a container is mounted less
    deep than the container, as the mount points of images are, the recursion from
    containers into the images in them takes no more levels than the deepest mount
    point or manual source has, and the scan returns its candidates. *)
Theorem scan_ends sys max_candidates nesting fuel root w : nested_less sys nesting -> fuel_enough sys nesting fuel ->
  exists l total w', scan sys max_candidates fuel root w = Some ((l, total), w').
Proof.
  intros Hn Hf. pose proof (scan_progress (F := wholly) sys max_candidates nesting fuel (or_intror Hn) (or_intror Hf) root w) as H.
  apply wp_ends in H as ([l total] & w' & H & _). by exists l, total, w'.
Qed.

Lemma scan_ends_witness : exists l total w', scan (sample_answers ["/mnt/usb0/game"%string]) 512 2 None sample_start = Some ((l, total), w').
Proof.
  apply (scan_ends _ 512 (fun p => if is_pfsc_image_mount_base_or_child p then 1 else 0)%nat 2).
  - intros n root image Hr _. cbv beta. rewrite Hr. vm_compute. lia.
  - split; [intros n image; vm_compute; lia|]. intros n paths path _ _. destruct (is_pfsc_image_mount_base_or_child path); lia.
Defined.

(** Sources added by hand that no longer fit the list of candidates are left for
    later without the report that makes a later scan look again. *)
Theorem manual_deferral_unreported : exists r w',
  scan (sample_answers ["/mnt/usb0/game"%string]) 1 2 None sample_start = Some (r, w') /\
  Called (ManualDeferred "/mnt/usb0/game") ∈ s_trace w' /\ unstable_found w' = false.
Proof.
  destruct (scan (sample_answers ["/mnt/usb0/game"%string]) 1 2 None sample_start) as [[r w']|] eqn:Hrun; [|vm_compute in Hrun; discriminate].
  exists r, w'. vm_compute in Hrun. injection Hrun as <- <-. split_and!; [reflexivity| |reflexivity].
  repeat (apply elem_of_cons; (left; reflexivity) || right).
Qed.
