(* ===== verification/ScanBackports.v ===== *)
(** * Backports of a title (src/sm_scan.c, second part)

    Finding the directory with a title's backport, mounting it over the game, and
    repairing the permissions below a backports directory.  The answers of the file
    system are functions on paths; the modes that the repair changes are its state. *)
From S2P Require Import Prelude CString ImageKinds ScanTree.
From stdpp Require Import list.
From Stdlib Require Import OrdersEx.
Open Scope Z_scope.
Open Scope c_scope.

(** ** The directory of a backport *)

(** [strcmp(a, b) < 0]: bytes are compared as unsigned. *)
Definition strcmp_less (a b : string) : bool := match String_as_OT.compare a b with Lt => true | _ => false end.

(** [d_type] of an entry. *)
Inductive backport_entry_type := BE_DIR | BE_LNK | BE_UNKNOWN | BE_OTHER.

(** A directory read to its end: the entries, and whether an error of [readdir] or
    [closedir] ended it. *)
Record dir_read := DirRead { dr_entries : list (string * backport_entry_type); dr_error : bool }.

Section resolve.
(** [stat] finds a directory; what [opendir] and reading give. *)
Context (is_dir : string -> bool) (read : string -> option dir_read).

Definition under (root name : string) : string := String.append root (String slash name).

Definition usable_type (t : backport_entry_type) : bool := match t with BE_OTHER => false | _ => true end.

(** The loop over the entries; [best] is the name found so far. *)
Definition better_name (best : option string) (name : string) : bool :=
  match best with Some b => strcmp_less name b | None => true end.

Definition backport_entry (title_id backport_root : string) (best : option string) (entry : string * backport_entry_type) : option string :=
  let '(name, t) := entry in
  if negb (backport_name_matches_title title_id name) then best
  else if negb (usable_type t) then best
  else if negb (better_name best name) then best
  else if (MAX_PATH <=? strlen (under backport_root name))%nat then best
  else if is_dir (under backport_root name) then Some name else best.

Definition resolve_backport_path_for_scan_root (title_id : string) (scan_path : option string) : option string :=
  match scan_path with
  | None => None
  | Some scan_path =>
      if strcmp_eq title_id "" || strcmp_eq scan_path "" then None
      else
        match build_backports_root_path scan_path with
        | None => None
        | Some backport_root =>
            let exact := under backport_root title_id in
            if (MAX_PATH <=? strlen exact)%nat then None
            else if is_dir exact then Some exact
            else
              match read backport_root with
              | None => None
              | Some d =>
                  if dr_error d then None
                  else option_map (under backport_root) (fold_left (backport_entry title_id backport_root) (dr_entries d) None)
              end
        end
  end.

(** [get_backport_scan_path] may fail for an index. *)
Fixpoint first_backport (title_id : string) (owning : option string) (scan_paths : list (option string)) : option string :=
  match scan_paths with
  | [] => None
  | None :: rest => first_backport title_id owning rest
  | Some scan_path :: rest =>
      if match owning with Some o => strcmp_eq scan_path o | None => false end then first_backport title_id owning rest
      else
        match resolve_backport_path_for_scan_root title_id (Some scan_path) with
        | Some path => Some path
        | None => first_backport title_id owning rest
        end
  end.

Definition resolve_backport_path_for_title (title_id : string) (owning : option string) (scan_paths : list (option string)) : option string :=
  if strcmp_eq title_id "" then None
  else
    match resolve_backport_path_for_scan_root title_id owning with
    | Some path => Some path
    | None => first_backport title_id owning scan_paths
    end.
End resolve.

(** ** Mounting it *)
Inductive backport_overlay_result_t := BACKPORT_OVERLAY_ACTIVE | BACKPORT_OVERLAY_SKIPPED | BACKPORT_OVERLAY_FAILED.

(** What mounting needs to know: [None] of [reconcile] is its failure, otherwise
    whether the overlay is active. *)
Record overlay_env := OverlayEnv {
  ov_stop : bool;
  ov_resolved : option string;
  ov_blocked : string -> bool;
  ov_reconcile : nat -> option bool;
  ov_stable : bool;
  ov_mount : backport_overlay_result_t;
}.

Inductive overlay_call :=
  | Reconciled (path : string)
  | MountedOverlay (target path : string)
  | NoteMountFailure (path : string)
  | ClearMountFailure (path : string).

(** The result, whether the backport was found unstable, the calls. *)
Record overlay_run := OverlayRun { or_result : bool; or_unstable : bool; or_calls : list overlay_call }.

Definition mount_backport_overlay_for_title (e : overlay_env) (title_id : string) : overlay_run :=
  if ov_stop e then OverlayRun false false []
  else
    match ov_resolved e with
    | None => OverlayRun true false []
    | Some backport_path =>
        if ov_blocked e backport_path then OverlayRun false false []
        else
          match ov_reconcile e 0 with
          | None => OverlayRun false false [Reconciled backport_path]
          | Some true => OverlayRun true false [Reconciled backport_path]
          | Some false =>
              if negb (ov_stable e) then OverlayRun false true [Reconciled backport_path]
              else
                match ov_reconcile e 1 with
                | None => OverlayRun false false [Reconciled backport_path; Reconciled backport_path]
                | Some true => OverlayRun true false [Reconciled backport_path; Reconciled backport_path]
                | Some false =>
                    let target := ("/system_ex/app/" ++ title_id)%string in
                    let calls := [Reconciled backport_path; Reconciled backport_path; MountedOverlay target backport_path] in
                    match ov_mount e with
                    | BACKPORT_OVERLAY_FAILED => OverlayRun false false (calls ++ [NoteMountFailure backport_path])
                    | BACKPORT_OVERLAY_SKIPPED => OverlayRun false false calls
                    | BACKPORT_OVERLAY_ACTIVE => OverlayRun true false (calls ++ [ClearMountFailure backport_path])
                    end
                end
          end
    end.

(** ** Permissions *)
Inductive inode_kind := IsDir | IsRegular | IsOtherKind.

Definition ENOENT : Z := 2.
Definition ENAMETOOLONG : Z := 63.
Definition FULL_MODE : Z := 511.   (* 0777 *)

(** The tree as it is while the repair runs: [lstat] (with the mode before the
    repair), [chmod], [opendir] and [readdir] (entries and errno, 0 at the end),
    [closedir]; whether the program is asked to stop, by the number of the question. *)
Record perm_env := PermEnv {
  pe_lstat : string -> (inode_kind * Z) + Z;
  pe_chmod : string -> Z;
  pe_opendir : string -> (list string * Z) + Z;
  pe_closedir : string -> Z;
  pe_stop : nat -> bool;
}.

(** The paths changed and the failures, newest first. *)
Record backport_permission_repair_t := Repair { rp_fixed : list string; rp_failures : list (string * Z); rp_clock : nat }.

Section permissions.
Context (e : perm_env).

Definition note_backport_permission_failure (path : string) (error : Z) (r : backport_permission_repair_t) : backport_permission_repair_t :=
  Repair (rp_fixed r) ((path, error) :: rp_failures r) (rp_clock r).
Definition note_fixed (path : string) (r : backport_permission_repair_t) : backport_permission_repair_t :=
  Repair (path :: rp_fixed r) (rp_failures r) (rp_clock r).

Definition stop_now (r : backport_permission_repair_t) : bool * backport_permission_repair_t :=
  (pe_stop e (rp_clock r), Repair (rp_fixed r) (rp_failures r) (S (rp_clock r))).

(** The permission bits now. *)
Definition mode_of (r : backport_permission_repair_t) (path : string) (mode : Z) : Z :=
  if bool_decide (path ∈ rp_fixed r) then FULL_MODE else Z.land mode 4095.

Definition dot_name (name : string) : bool := strcmp_eq name "." || strcmp_eq name "..".

(** The loop over a directory; [sub] repairs an entry. *)
Fixpoint repair_entries (sub : string -> backport_permission_repair_t -> option (bool * backport_permission_repair_t)) (path : string)
    (names : list string) (error : Z) (r : backport_permission_repair_t) : option (bool * backport_permission_repair_t) :=
  let '(stop, r) := stop_now r in
  if stop then Some (false, r)
  else
    match names with
    | [] => Some (true, if error =? 0 then r else note_backport_permission_failure path error r)
    | name :: names' =>
        if dot_name name then repair_entries sub path names' error r
        else if (MAX_PATH <=? strlen (under path name))%nat
        then repair_entries sub path names' error (note_backport_permission_failure path ENAMETOOLONG r)
        else
          match sub (under path name) r with
          | None => None
          | Some (true, r) => repair_entries sub path names' error r
          | Some (false, r) => Some (false, r)
          end
    end.

Definition repair_directory (sub : string -> backport_permission_repair_t -> option (bool * backport_permission_repair_t)) (path : string)
    (r : backport_permission_repair_t) : option (bool * backport_permission_repair_t) :=
  match pe_opendir e path with
  | inr error => Some (true, note_backport_permission_failure path error r)
  | inl (names, error) =>
      match repair_entries sub path names error r with
      | None => None
      | Some (completed, r) =>
          Some (completed, if pe_closedir e path =? 0 then r else note_backport_permission_failure path (pe_closedir e path) r)
      end
  end.

Fixpoint repair_backport_path_permissions (fuel : nat) (path : string) (r : backport_permission_repair_t) :
    option (bool * backport_permission_repair_t) :=
  match fuel with
  | O => None
  | S fuel' =>
      let '(stop, r) := stop_now r in
      if stop then Some (false, r)
      else
        match pe_lstat e path with
        | inr error => Some (true, if error =? ENOENT then r else note_backport_permission_failure path error r)
        | inl (kind, mode) =>
            let go r := match kind with
                        | IsDir => repair_directory (repair_backport_path_permissions fuel') path r
                        | _ => Some (true, r)
                        end in
            match kind with
            | IsOtherKind => Some (true, r)
            | _ =>
                if mode_of r path mode =? FULL_MODE then go r
                else if pe_chmod e path =? 0 then go (note_fixed path r)
                else Some (true, note_backport_permission_failure path (pe_chmod e path) r)
            end
        end
  end.
End permissions.

(** [statfs]: the type of the file system and what it is mounted from. *)
Definition backport_filesystem_needs_permission_repair (statfs : string -> option (string * string)) (path : string) : bool :=
  match statfs path with
  | None => false
  | Some (fstypename, mntfromname) =>
      let final :=
        if strcmp_eq fstypename "nullfs" then
          if negb (bool_decide (char_at mntfromname 0 = Some slash)) || (MAX_PATH <=? strlen mntfromname)%nat then None
          else option_map fst (statfs mntfromname)
        else Some fstypename in
      match final with Some t => strcmp_eq t "ufs" || strcmp_eq t "bfs" | None => false end
  end.

(** What a repair of a scan root leaves behind. *)
Inductive backport_repair_call :=
  | ClearIncomplete (root : string)
  | NoteIncomplete (root : string)
  | RepairCase (root : string).

Definition repair_backport_permissions_for_scan_root (e : perm_env) (statfs : string -> option (string * string)) (fuel : nat)
    (scan_path : string) : option (backport_permission_repair_t * list backport_repair_call) :=
  let start := Repair [] [] 0 in
  let '(stop, r) := stop_now e start in
  if stop then Some (r, [])
  else
    match build_backports_root_path scan_path with
    | None => Some (r, [])
    | Some backports_root =>
        match pe_lstat e backports_root with
        | inl (IsDir, _) =>
            if negb (backport_filesystem_needs_permission_repair statfs backports_root) then Some (r, [ClearIncomplete backports_root])
            else
              match repair_backport_path_permissions e fuel backports_root r with
              | None => None
              | Some (false, r) => Some (r, [])
              | Some (true, r) =>
                  Some (r, [if bool_decide (rp_failures r = []) then ClearIncomplete backports_root else NoteIncomplete backports_root;
                            RepairCase backports_root])
              end
        | _ => Some (r, [])
        end
    end.

(** * Which directory is chosen *)

(** A directory of [backport_root] that may serve as the backport of the title. *)
Definition eligible (is_dir : string -> bool) (d : dir_read) (backport_root title_id name : string) : Prop := exists t,
  (name, t) ∈ dr_entries d /\ backport_name_matches_title title_id name = true /\ usable_type t = true /\
  (strlen (under backport_root name) < MAX_PATH)%nat /\ is_dir (under backport_root name) = true.

Lemma strcmp_less_lt a b : strcmp_less a b = true <-> String_as_OT.lt a b.
Proof. unfold strcmp_less, String_as_OT.lt. by destruct (String_as_OT.compare a b). Qed.

Lemma strcmp_less_trans a b c : strcmp_less a b = true -> strcmp_less b c = true -> strcmp_less a c = true.
Proof. rewrite !strcmp_less_lt. apply String_as_OT.lt_strorder. Qed.

Lemma strcmp_not_less a b : strcmp_less a b = false -> b = a \/ strcmp_less b a = true.
Proof.
  unfold strcmp_less at 1. destruct (String_as_OT.compare_spec a b) as [->|H|H]; intros Hc; [by left|done|right].
  by apply strcmp_less_lt.
Qed.

(** The best of the entries seen. *)
Definition best_of (is_dir : string -> bool) (title_id root : string) (entries : list (string * backport_entry_type)) (best : option string) : Prop :=
  match best with
  | Some name => eligible is_dir (DirRead entries false) root title_id name /\
      forall name', eligible is_dir (DirRead entries false) root title_id name' -> name' = name \/ strcmp_less name name' = true
  | None => forall name, ~ eligible is_dir (DirRead entries false) root title_id name
  end.

Lemma eligible_app is_dir title_id root seen name t n : eligible is_dir (DirRead (seen ++ [(name, t)]) false) root title_id n <->
  eligible is_dir (DirRead seen false) root title_id n \/
  (n = name /\ backport_name_matches_title title_id name = true /\ usable_type t = true /\
   (strlen (under root name) < MAX_PATH)%nat /\ is_dir (under root name) = true).
Proof.
  unfold eligible. simpl. split.
  - intros (t' & [Hin|Hin%list_elem_of_singleton]%elem_of_app & H); [left; by exists t'|right; by injection Hin as -> ->].
  - intros [(t' & Hin & H)|(-> & H)]; [exists t'|exists t]; rewrite elem_of_app; [by split; [left|]|].
    split; [right; by apply list_elem_of_singleton|done].
Qed.

Lemma backport_entry_best is_dir title_id root seen best entry : best_of is_dir title_id root seen best ->
  best_of is_dir title_id root (seen ++ [entry]) (backport_entry is_dir title_id root best entry).
Proof.
  destruct entry as [name t]. intros Hb.
  assert (Hkeep : (forall n, eligible is_dir (DirRead (seen ++ [(name, t)]) false) root title_id n ->
      eligible is_dir (DirRead seen false) root title_id n \/ exists b, best = Some b /\ (n = b \/ strcmp_less b n = true)) ->
    best_of is_dir title_id root (seen ++ [(name, t)]) best).
  { intros H. destruct best as [b|]; simpl in *.
    - destruct Hb as [He Hm]. split; [apply eligible_app; by left|]. intros n [Hn|(b' & [= <-] & Hn)]%H; [by apply Hm|done].
    - intros n [Hn|(b & [=] & _)]%H. by eapply Hb. }
  unfold backport_entry.
  destruct (backport_name_matches_title title_id name) eqn:Hmatch; cbn [negb];
    [|apply Hkeep; intros n [Hn|(_ & H & _)]%eligible_app; [by left|congruence]].
  destruct (usable_type t) eqn:Ht; cbn [negb]; [|apply Hkeep; intros n [Hn|(_ & _ & H & _)]%eligible_app; [by left|congruence]].
  destruct (better_name best name) eqn:Hbetter; cbn [negb].
  2: { apply Hkeep. intros n [Hn|(-> & _)]%eligible_app; [by left|right]. destruct best as [b|]; [|done].
       exists b. split; [done|]. apply strcmp_not_less in Hbetter. destruct Hbetter; [by left|by right]. }
  destruct (Nat.leb_spec MAX_PATH (strlen (under root name))) as [Hl|Hl];
    [apply Hkeep; intros n [Hn|(_ & _ & _ & H & _)]%eligible_app; [by left|lia]|].
  destruct (is_dir (under root name)) eqn:Hd; [|apply Hkeep; intros n [Hn|(_ & _ & _ & _ & H)]%eligible_app; [by left|congruence]].
  simpl. split; [apply eligible_app; by right|]. intros n [Hn|(-> & _)]%eligible_app; [|by left]. right.
  destruct best as [b|]; simpl in *; [|by destruct (Hb n)]. destruct Hb as [_ Hm].
  destruct (Hm n Hn) as [->|Hlt]; [done|by eapply strcmp_less_trans].
Qed.

Lemma backport_entries_best is_dir title_id root entries : best_of is_dir title_id root entries
  (fold_left (backport_entry is_dir title_id root) entries None).
Proof.
  assert (H : forall rest seen best, best_of is_dir title_id root seen best ->
    best_of is_dir title_id root (seen ++ rest) (fold_left (backport_entry is_dir title_id root) rest best)).
  { intros rest. induction rest as [|entry rest IH]; intros seen best Hb; simpl; [by rewrite app_nil_r|].
    rewrite cons_middle, (assoc_L app). apply IH. by apply backport_entry_best. }
  apply (H entries [] None). intros n (t & Hin & _). by apply elem_of_nil in Hin.
Qed.

(** * Permissions *)

(** What the repair walks over. *)
Inductive below (e : perm_env) (path : string) : string -> Prop :=
  | below_self : below e path path
  | below_child dir mode names error name : below e path dir -> pe_lstat e dir = inl (IsDir, mode) -> pe_opendir e dir = inl (names, error) ->
      name ∈ names -> dot_name name = false -> below e path (under dir name).

Lemma below_trans e a b c : below e a b -> below e b c -> below e a c.
Proof. intros Ha. induction 1; [done|by eapply below_child]. Qed.

Lemma below_down e path q : below e path q -> q = path \/ exists mode names error name, pe_lstat e path = inl (IsDir, mode) /\
  pe_opendir e path = inl (names, error) /\ name ∈ names /\ dot_name name = false /\ below e (under path name) q.
Proof.
  induction 1 as [|dir mode names error name Hb IH Hl Ho Hin Hd]; [by left|right].
  destruct IH as [->|(m & ns & er & n & H1 & H2 & H3 & H4 & H5)].
  - exists mode, names, error, name. split_and!; try done. apply below_self.
  - exists m, ns, er, n. split_and!; try done. by eapply below_child.
Qed.

(** What a part of the repair did. *)
Record repaired (e : perm_env) (top : string -> Prop) (completed : bool) (r r' : backport_permission_repair_t) : Prop := {
  re_fixed : forall q, q ∈ rp_fixed r' -> q ∈ rp_fixed r \/
    (exists p, top p /\ below e p q) /\ pe_chmod e q = 0 /\ exists kind mode, pe_lstat e q = inl (kind, mode) /\ kind <> IsOtherKind;
  re_keep : forall q, q ∈ rp_fixed r -> q ∈ rp_fixed r';
  re_failures : (length (rp_failures r) <= length (rp_failures r'))%nat;
  re_done : completed = true -> length (rp_failures r') = length (rp_failures r) ->
    forall p q kind mode, top p -> below e p q -> pe_lstat e q = inl (kind, mode) -> kind <> IsOtherKind -> mode_of r' q mode = FULL_MODE;
}.

Lemma mode_of_more r r' q mode : (forall q, q ∈ rp_fixed r -> q ∈ rp_fixed r') -> mode_of r q mode = FULL_MODE -> mode_of r' q mode = FULL_MODE.
Proof.
  intros Hk. unfold mode_of. case_bool_decide as H1; case_bool_decide as H2; try done. destruct H2. by apply Hk.
Qed.

Lemma repaired_trans e (p1 p2 p : string -> Prop) c r r1 r2 : (forall x, p x -> p1 x \/ p2 x) -> (forall x, p1 x -> p x) -> (forall x, p2 x -> p x) ->
  repaired e p1 true r r1 -> repaired e p2 c r1 r2 -> repaired e p c r r2.
Proof.
  intros Hp H1p H2p [F1 K1 L1 D1] [F2 K2 L2 D2]. split.
  - intros q Hq. destruct (F2 q Hq) as [H|((x & Hx & Hb) & H)]; [destruct (F1 q H) as [H'|((x & Hx & Hb) & H')]; [by left|]|]; right; (split; [exists x; auto|done]).
  - auto.
  - lia.
  - intros Hc Hl x q kind mode Hx. destruct (Hp x Hx) as [Hx1|Hx2].
    + intros Hb Hst Hk. eapply mode_of_more; [exact K2|]. apply (D1 eq_refl) with (p := x) (kind := kind); try done. lia.
    + intros Hb Hst Hk. apply (D2 Hc) with (p := x) (kind := kind); try done. lia.
Qed.

Lemma stop_now_same e r b r' : stop_now e r = (b, r') -> rp_fixed r' = rp_fixed r /\ rp_failures r' = rp_failures r.
Proof. unfold stop_now. by intros [= <- <-]. Qed.

(** A part that does nothing, for paths that need nothing or when it fails. *)
Lemma repaired_none e (top : string -> Prop) c r r' : rp_fixed r' = rp_fixed r -> (length (rp_failures r) <= length (rp_failures r'))%nat ->
  (c = true -> length (rp_failures r') = length (rp_failures r) -> forall p q kind mode, top p -> below e p q -> pe_lstat e q = inl (kind, mode) ->
    kind <> IsOtherKind -> mode_of r' q mode = FULL_MODE) -> repaired e top c r r'.
Proof. intros Hf Hl Hd. split; [|by rewrite Hf|done|done]. intros q Hq. left. by rewrite <-Hf. Qed.

(** The entries of a directory below [path]. *)
Definition children (path : string) (names : list string) (p : string) : Prop :=
  exists name, name ∈ names /\ dot_name name = false /\ p = under path name.

Lemma repair_entries_repaired e sub path names error r b r' :
  (forall q r b r', sub q r = Some (b, r') -> repaired e (eq q) b r r') ->
  repair_entries e sub path names error r = Some (b, r') ->
  repaired e (children path names) b r r' /\ (b = true -> length (rp_failures r') = length (rp_failures r) -> error = 0).
Proof.
  intros Hsub. revert r. induction names as [|name names IH]; intros r; cbn [repair_entries];
    destruct (stop_now e r) as [stop r0] eqn:Hs; apply stop_now_same in Hs as [Hf Hl];
    (destruct stop; [intros [= <- <-]; split; [apply repaired_none; [done|by rewrite Hl|done]|done]|]).
  - intros [= <- <-]. split.
    + apply repaired_none; [by case_match|case_match; simpl; rewrite Hl; lia|]. intros _ _ p q kind mode (n & Hn & _). by apply elem_of_nil in Hn.
    + intros _. case_match eqn:He; [by apply Z.eqb_eq in He|]. simpl. rewrite Hl. lia.
  - assert (Hskip : forall r1 c r2, rp_fixed r1 = rp_fixed r -> (length (rp_failures r) <= length (rp_failures r1))%nat ->
      (dot_name name = false -> (length (rp_failures r) < length (rp_failures r1))%nat) ->
      repaired e (children path names) c r1 r2 /\ (c = true -> length (rp_failures r2) = length (rp_failures r1) -> error = 0) ->
      repaired e (children path (name :: names)) c r r2 /\ (c = true -> length (rp_failures r2) = length (rp_failures r) -> error = 0)).
    { intros r1 c r2 H1 H2 Hdot [[F2 K2 L2 D2] He]. split; [split|].
      - intros q Hq. destruct (F2 q Hq) as [H|((x & (n & Hn & Hd & ->) & Hb) & H)]; [left; by rewrite <-H1|right; split; [|done]].
        exists (under path n). split; [|done]. exists n. split_and!; [apply elem_of_cons; by right|done|done].
      - intros q Hq. apply K2. by rewrite H1.
      - lia.
      - intros Hc Hlen p q kind mode (n & [->|Hn]%elem_of_cons & Hd & ->) Hb Hst Hk; [specialize (Hdot Hd); lia|].
        apply (D2 Hc) with (p := under path n) (kind := kind); try done; [lia|]. by exists n.
      - intros Hc Hlen. apply He; [done|lia]. }
    destruct (dot_name name) eqn:Hdot.
    { intros H. apply IH in H. apply (Hskip r0); [done|by rewrite Hl|done|done]. }
    destruct (MAX_PATH <=? strlen (under path name))%nat.
    { intros H. apply IH in H. eapply Hskip; [| | |exact H]; [done|simpl; rewrite Hl; lia|intros _; simpl; rewrite Hl; lia]. }
    destruct (sub (under path name) r0) as [[[|] r1]|] eqn:Hsb; [| |done].
    + intros H. apply IH in H as [H He]. apply Hsub in Hsb.
      assert (H0 : repaired e (eq (under path name)) true r r1).
      { destruct Hsb as [F K L D]. split; rewrite <-?Hf, <-?Hl; done. }
      split; [|intros Hb Hlen; apply He; [done|]; pose proof (re_failures _ _ _ _ _ H0); pose proof (re_failures _ _ _ _ _ H); lia].
      eapply repaired_trans; [| | |exact H0|exact H].
      * intros x (n & [->|Hn]%elem_of_cons & Hd & ->); [by left|right]. by exists n.
      * intros x <-. exists name. split_and!; [apply elem_of_cons; by left|done|done].
      * intros x (n & Hn & Hd & ->). exists n. split_and!; [apply elem_of_cons; by right|done|done].
    + intros [= <- <-]. apply Hsub in Hsb as [F K L D]. split; [|done]. split; rewrite <-?Hf, <-?Hl; try done.
      intros q Hq. destruct (F q Hq) as [H|((x & <- & Hb) & H)]; [by left|right; split; [|done]].
      exists (under path name). split; [|done]. exists name. split_and!; [apply elem_of_cons; by left|done|done].
Qed.

(** Every level of the recursion keeps what it promises. *)
Lemma repair_repaired e fuel path r b r' : repair_backport_path_permissions e fuel path r = Some (b, r') -> repaired e (eq path) b r r'.
Proof.
  revert path r b r'. induction fuel as [|fuel IH]; intros path r b r'; cbn [repair_backport_path_permissions]; [done|].
  destruct (stop_now e r) as [stop r0] eqn:Hs; apply stop_now_same in Hs as [Hf Hl].
  destruct stop; [intros [= <- <-]; apply repaired_none; [done|by rewrite Hl|done]|].
  destruct (pe_lstat e path) as [[kind mode]|error] eqn:Hst.
  2: { intros [= <- <-]. apply repaired_none; [by case_match|case_match; simpl; rewrite Hl; lia|].
       intros _ _ p q kind mode <- [->|(m & ns & er & n & H1 & _)]%below_down Hq Hk; congruence. }
  assert (Hdir : forall r1, rp_fixed r1 = rp_fixed r0 \/ (rp_fixed r1 = path :: rp_fixed r0 /\ pe_chmod e path = 0) ->
    rp_failures r1 = rp_failures r0 -> mode_of r1 path mode = FULL_MODE -> kind <> IsOtherKind ->
    (match kind with IsDir => repair_directory e (repair_backport_path_permissions e fuel) path r1 | _ => Some (true, r1) end) = Some (b, r') ->
    repaired e (eq path) b r r').
  { intros r1 Hf1 Hl1 Hmode Hk Hrun.
    assert (Hself : forall c r2, (forall q, q ∈ rp_fixed r2 -> q ∈ rp_fixed r1 \/ (exists p, children path (match pe_opendir e path with inl (names, _) => names | _ => [] end) p /\ below e p q) /\
        kind = IsDir /\ pe_chmod e q = 0 /\ exists k m, pe_lstat e q = inl (k, m) /\ k <> IsOtherKind) ->
      (forall q, q ∈ rp_fixed r1 -> q ∈ rp_fixed r2) -> (length (rp_failures r1) <= length (rp_failures r2))%nat ->
      (c = true -> length (rp_failures r2) = length (rp_failures r1) -> forall q k m, below e path q -> q <> path ->
        pe_lstat e q = inl (k, m) -> k <> IsOtherKind -> mode_of r2 q m = FULL_MODE) -> repaired e (eq path) c r r2).
    { intros c r2 F K L D. split.
      - intros q Hq. destruct (F q Hq) as [H|((p & (n & Hn & Hd & ->) & Hb) & Hkd & H)].
        + destruct Hf1 as [Hf1|[Hf1 Hc1]]; rewrite Hf1 in H; [left; by rewrite <-Hf|]. apply elem_of_cons in H as [->|H]; [|left; by rewrite <-Hf].
          right. split; [exists path; split; [done|apply below_self]|]. split; [done|]. by exists kind, mode.
        + right. split; [|done]. exists path. split; [done|]. destruct (pe_opendir e path) as [[names error]|] eqn:Ho; [|by apply elem_of_nil in Hn].
          subst kind. eapply below_trans; [|exact Hb]. by eapply below_child; [apply below_self|..].
      - intros q Hq. apply K. destruct Hf1 as [Hf1|[Hf1 _]]; rewrite Hf1, ?elem_of_cons, Hf; auto.
      - rewrite <-Hl, <-Hl1. done.
      - intros Hc Hlen p q k m <- Hb Hq Hk'. destruct (decide (q = path)) as [->|Hne].
        + rewrite Hst in Hq. injection Hq as <- <-. by eapply mode_of_more.
        + rewrite <-Hl, <-Hl1 in Hlen. eapply D; eauto. }
    destruct kind; [|injection Hrun as <- <-|done].
    - unfold repair_directory in Hrun. destruct (pe_opendir e path) as [[names error]|error] eqn:Ho.
      + destruct (repair_entries e _ path names error r1) as [[c r2]|] eqn:He; [|done]. injection Hrun as <- <-.
        apply repair_entries_repaired in He as [[F K L D] Herr]; [|intros; by eapply IH].
        set (r3 := if pe_closedir e path =? 0 then r2 else note_backport_permission_failure path (pe_closedir e path) r2).
        assert (H3f : rp_fixed r3 = rp_fixed r2) by (unfold r3; by case_match).
        assert (H3l : (length (rp_failures r2) <= length (rp_failures r3))%nat) by (unfold r3; case_match; simpl; lia).
        apply Hself; [rewrite H3f; intros q Hq; destruct (F q Hq) as [|[? ?]]; [by left|right; done]|by rewrite H3f|lia|].
        intros Hc Hlen q k m Hb Hne Hq Hk'. eapply mode_of_more; [intros q' Hq'; rewrite H3f; exact Hq'|].
        apply below_down in Hb as [->|(m' & ns & er & n & H1 & H2 & H3 & H4 & H5)]; [by destruct Hne|].
        rewrite Ho in H2. injection H2 as <- <-. apply (D Hc) with (p := under path n) (kind := k); try done; [lia|]. by exists n.
      + injection Hrun as <- <-. apply Hself; [by left|done|simpl; lia|]. simpl. intros _ Hlen. lia.
    - apply Hself; [by left|done|done|]. intros _ _ q k m [->|(m' & ns & er & n & H1 & _)]%below_down Hne; [by destruct Hne|congruence]. }
  assert (Hfailed : repaired e (eq path) true r (note_backport_permission_failure path (pe_chmod e path) r0)).
  { apply repaired_none; [done|simpl; rewrite Hl; lia|]. simpl. rewrite Hl. lia. }
  destruct kind.
  3: { intros [= <- <-]. apply repaired_none; [done|by rewrite Hl|].
       intros _ _ p q k m <- [->|(m' & ns & er & n & H1 & _)]%below_down Hq Hk; congruence. }
  all: destruct (Z.eqb_spec (mode_of r0 path mode) FULL_MODE) as [Hm|Hm]; [intros H; by apply (Hdir r0); [left|..]|];
    destruct (Z.eqb_spec (pe_chmod e path) 0) as [Hc|Hc]; [|intros [= <- <-]; exact Hfailed];
    intros H; apply (Hdir (note_fixed path r0)); [right|..]; try done;
    unfold mode_of; rewrite bool_decide_true; [done|]; apply elem_of_cons; by left.
Qed.

(** ** The recursion ends *)
Lemma under_longer path name : (strlen path < strlen (under path name))%nat.
Proof. unfold under. rewrite strlen_append. simpl. lia. Qed.

Lemma repair_entries_total e sub path names error r :
  (forall name r, (strlen (under path name) < MAX_PATH)%nat -> is_Some (sub (under path name) r)) ->
  is_Some (repair_entries e sub path names error r).
Proof.
  intros Hsub. revert r. induction names as [|name names IH]; intros r; cbn [repair_entries]; destruct (stop_now e r) as [[|] r0]; try done.
  destruct (dot_name name); [done|]. destruct (Nat.leb_spec MAX_PATH (strlen (under path name))); [done|].
  destruct (Hsub name r0) as [[[|] r1] ->]; done.
Qed.

Lemma repair_total e fuel path r : (MAX_PATH - strlen path < fuel)%nat -> is_Some (repair_backport_path_permissions e fuel path r).
Proof.
  revert path r. induction fuel as [|fuel IH]; intros path r Hf; [lia|]. cbn [repair_backport_path_permissions].
  destruct (stop_now e r) as [[|] r0]; [done|]. destruct (pe_lstat e path) as [[kind mode]|error]; [|done].
  assert (Hdir : forall r1, is_Some (match kind with IsDir => repair_directory e (repair_backport_path_permissions e fuel) path r1 | _ => Some (true, r1) end)).
  { intros r1. destruct kind; [|done|done]. unfold repair_directory. destruct (pe_opendir e path) as [[names error]|]; [|done].
    destruct (repair_entries_total e (repair_backport_path_permissions e fuel) path names error r1) as [[c r2] ->]; [|done].
    intros name r2 Hl. apply IH. pose proof (under_longer path name). lia. }
  destruct kind; [| |done]; (destruct (_ =? _); [apply Hdir|]; destruct (_ =? _); [apply Hdir|done]).
Qed.

(** * Properties *)

(** the backport chosen for a title below one scan root is the directory
    named exactly after the title when there is one; otherwise, of all entries of
    the backports directory whose name begins with the title id, whose path fits and
    which are directories (also through a link), the one whose name comes first in
    byte order; and none only when there is no such entry or the directory cannot be
    read to its end. *)
Theorem backport_choice_exact is_dir read title_id scan_path backport_root :
  build_backports_root_path scan_path = Some backport_root -> title_id <> ""%string -> scan_path <> ""%string ->
  (strlen (under backport_root title_id) < MAX_PATH)%nat ->
  match resolve_backport_path_for_scan_root is_dir read title_id (Some scan_path) with
  | Some path =>
      (path = under backport_root title_id /\ is_dir path = true) \/
      (is_dir (under backport_root title_id) = false /\ exists d name, read backport_root = Some d /\ dr_error d = false /\
         path = under backport_root name /\ eligible is_dir d backport_root title_id name /\
         forall name', eligible is_dir d backport_root title_id name' -> name' = name \/ strcmp_less name name' = true)
  | None =>
      is_dir (under backport_root title_id) = false /\
      forall d, read backport_root = Some d -> dr_error d = true \/ forall name, ~ eligible is_dir d backport_root title_id name
  end.
Proof.
  intros Hroot Ht Hs Hl. unfold resolve_backport_path_for_scan_root.
  rewrite (proj2 (strcmp_eq_false title_id "") Ht), (proj2 (strcmp_eq_false scan_path "") Hs), Hroot. cbn [orb].
  destruct (Nat.leb_spec MAX_PATH (strlen (under backport_root title_id))); [lia|].
  destruct (is_dir (under backport_root title_id)) eqn:Hd; [by left|].
  destruct (read backport_root) as [d|] eqn:Hr; [|split; [done|]; by intros d [=]].
  destruct (dr_error d) eqn:He; [split; [done|]; intros d' [= <-]; by left|].
  pose proof (backport_entries_best is_dir title_id backport_root (dr_entries d)) as Hb. destruct d as [entries error]. simpl in *. subst error.
  destruct (fold_left _ entries None) as [name|]; simpl in *.
  - right. split; [done|]. exists (DirRead entries false), name. by destruct Hb.
  - split; [done|]. intros d [= <-]. by right.
Qed.

Lemma backport_choice_exact_witness :
  exists d name, resolve_backport_path_for_scan_root (fun p => negb (strcmp_eq p "/mnt/usb0/backports/PPSA00001"))
    (fun _ => Some (DirRead [("PPSA00001 v2", BE_DIR); ("other", BE_DIR); ("PPSA00001 v1", BE_LNK)]%string false)) "PPSA00001" (Some "/mnt/usb0"%string)
    = Some (under "/mnt/usb0/backports" name) /\ eligible (fun _ => true) d "/mnt/usb0/backports" "PPSA00001" name /\ name = "PPSA00001 v1"%string.
Proof.
  pose proof (backport_choice_exact (fun p => negb (strcmp_eq p "/mnt/usb0/backports/PPSA00001"))
    (fun _ => Some (DirRead [("PPSA00001 v2", BE_DIR); ("other", BE_DIR); ("PPSA00001 v1", BE_LNK)]%string false)) "PPSA00001" "/mnt/usb0" "/mnt/usb0/backports"
    eq_refl ltac:(discriminate) ltac:(discriminate) ltac:(vm_compute; lia)) as H.
  vm_compute in H. destruct H as [[H _]|[_ (d & name & Hd & _ & Hp & He & _)]]; [discriminate|].
  exists d, name. assert (Hn : name = "PPSA00001 v1"%string) by (injection Hp as Hp; by symmetry). subst name.
  split_and!; [reflexivity| |reflexivity]. destruct He as (t & Hin & H1 & H2 & H3 & _). exists t. split_and!; [exact Hin|exact H1|exact H2|exact H3|reflexivity].
Defined.

(** the repair of permissions ends for every tree of files and all answers
    of the system: its recursion is as deep as paths of 1024 characters allow.  It
    changes only directories and regular files that it reaches from the directory
    without following links.  And when it completes without a failure, every
    directory and regular file below the directory has mode 0777. *)
Theorem permission_repair_exact e path r : exists completed r',
  repair_backport_path_permissions e (S MAX_PATH) path r = Some (completed, r') /\
  (forall q, q ∈ rp_fixed r' -> q ∈ rp_fixed r \/
     (below e path q /\ pe_chmod e q = 0 /\ exists kind mode, pe_lstat e q = inl (kind, mode) /\ kind <> IsOtherKind)) /\
  (completed = true -> length (rp_failures r') = length (rp_failures r) ->
     forall q kind mode, below e path q -> pe_lstat e q = inl (kind, mode) -> kind <> IsOtherKind -> mode_of r' q mode = FULL_MODE).
Proof.
  destruct (repair_total e (S MAX_PATH) path r) as [[completed r'] Hrun]; [lia|]. exists completed, r'. split; [done|].
  destruct (repair_repaired _ _ _ _ _ _ Hrun) as [F _ _ D]. split.
  - intros q Hq. destruct (F q Hq) as [|((p & <- & Hb) & H)]; [by left|by right].
  - intros Hc Hl q kind mode Hb Hst Hk. by apply (D Hc Hl path q kind mode).
Qed.

(** a backport is mounted over a title only when the program is not to
    stop, a backport directory was found and is not blocked, its metadata was found
    stable, and two looks, before and after waiting for it, both said that the title
    has no overlay yet; and success is reported exactly when there is no backport or
    an overlay is in place. *)
Theorem overlay_mounted_when_ready e title_id target path :
  (MountedOverlay target path ∈ or_calls (mount_backport_overlay_for_title e title_id) <->
   target = ("/system_ex/app/" ++ title_id)%string /\ ov_stop e = false /\ ov_resolved e = Some path /\ ov_blocked e path = false /\
   ov_reconcile e 0 = Some false /\ ov_stable e = true /\ ov_reconcile e 1 = Some false) /\
  (or_result (mount_backport_overlay_for_title e title_id) = true <->
   ov_stop e = false /\
   match ov_resolved e with
   | None => True
   | Some p => ov_blocked e p = false /\
      (ov_reconcile e 0 = Some true \/
       (ov_reconcile e 0 = Some false /\ ov_stable e = true /\
        (ov_reconcile e 1 = Some true \/ (ov_reconcile e 1 = Some false /\ ov_mount e = BACKPORT_OVERLAY_ACTIVE))))
   end).
Proof.
  assert (Hin : forall c l, MountedOverlay target path ∈ c :: l <-> MountedOverlay target path = c \/ MountedOverlay target path ∈ l)
    by (intros; apply elem_of_cons).
  assert (Hnil : MountedOverlay target path ∈ [] <-> False) by (split; [by intros ?%elem_of_nil|done]).
  unfold mount_backport_overlay_for_title.
  destruct (ov_stop e) eqn:Hstop; [simpl; rewrite Hnil; intuition congruence|].
  destruct (ov_resolved e) as [p|] eqn:Hres; [|simpl; rewrite Hnil; intuition congruence].
  destruct (ov_blocked e p) eqn:Hbl; [simpl; rewrite Hnil; intuition congruence|].
  destruct (ov_reconcile e 0) as [[|]|] eqn:Hr0; try (simpl; rewrite Hin, Hnil; intuition congruence).
  destruct (ov_stable e) eqn:Hst; [|simpl; rewrite Hin, Hnil; intuition congruence].
  destruct (ov_reconcile e 1) as [[|]|] eqn:Hr1; try (simpl; rewrite !Hin, Hnil; intuition congruence).
  destruct (ov_mount e) eqn:Hm; simpl; rewrite !Hin, Hnil; intuition congruence.
Qed.
