(* ===== verification/ScanModules.v ===== *)
(** * Case of module file names (src/sm_scan.c, third part)

    A library that was copied with the case of its name changed cannot be loaded on a
    file system that tells cases apart; the scan renames it after the name in its
    header.  A rename is [link] and then [unlink].

    The names of the files below the directory are the state; everything else is
    answered at the number of the question, failures of every call included. *)
From S2P Require Import Prelude CString IniFile.
From stdpp Require Import list gmap.
Open Scope Z_scope.
Open Scope c_scope.

Definition full_stop : ascii := ".".
Definition path_slash : ascii := "/".
Definition path_backslash : ascii := "\".

(** [strrchr]: the text before the last character that satisfies [p], and after it. *)
Definition split_last (p : ascii -> bool) (s : text) : option (text * text) :=
  match break p (reverse s) with
  | (after, _ :: before) => Some (reverse before, reverse after)
  | _ => None
  end.

Definition extension (name : text) : option (text * text) := split_last (Ascii.eqb full_stop) name.

(** The directory, with its slash, and the name in it; a path has a slash. *)
Definition dir_and_name (path : text) : text * text :=
  match split_last (Ascii.eqb path_slash) path with
  | Some (dir, name) => (dir ++ [path_slash], name)
  | None => ([], path)
  end.

Definition is_module_filename (name : text) : bool :=
  match extension name with
  | Some (_, ext) => strcasecmp_eq ext (lit "prx") || strcasecmp_eq ext (lit "sprx")
  | None => false
  end.

(** [struct stat] as far as it is used. *)
Inductive node_kind := NodeDir | NodeRegular | NodeOther.
Record node_stat := NodeStat {
  ns_kind : node_kind; ns_dev : Z; ns_ino : Z; ns_size : Z; ns_mtime : Z; ns_mtime_nsec : Z; ns_ctime : Z; ns_ctime_nsec : Z;
}.
Record module_case_file_t := ModuleFile { mf_path : text; mf_stat : node_stat }.

(** ** Fingerprints: 64-bit FNV-1a of the path and the fields *)
Definition fnv64_step (hash byte : Z) : Z := u64 (Z.lxor hash byte * 1099511628211).

Definition field_bytes (v : Z) : list Z := (fun i => Z.land (Z.shiftr (u64 v) (8 * i)) 255) <$> seqZ 0 8.

Definition module_case_file_fingerprint (f : module_case_file_t) : Z :=
  let st := mf_stat f in
  let hash := fold_left fnv64_step (ascii_byte <$> mf_path f) 14695981039346656037 in
  fold_left fnv64_step
    (concat (field_bytes <$> [ns_dev st; ns_ino st; ns_size st; ns_mtime st; ns_mtime_nsec st; ns_ctime st; ns_ctime_nsec st])) hash.

Definition fingerprint_of (files : list module_case_file_t) : Z :=
  fold_left (fun total f => u64 (total + module_case_file_fingerprint f)) files 0.

(** ** The state and the answers *)
Record module_world := ModuleWorld { mw_names : gmap text Z; mw_clock : nat }.

(** [d_type]: a directory, unknown, or something else. *)
Inductive listed_type := ListedDir | ListedUnknown | ListedOther.

Record module_env := ModuleEnv {
  me_stop : nat -> bool;   (* stop requested, sleep mode, or a game runs *)
  me_lstat : nat -> text -> option node_stat;
  me_opendir : nat -> text -> option (list (text * listed_type));
  me_readdir_error : nat -> bool;
  me_closedir : nat -> bool;
  me_alloc : nat -> bool;
  me_original : nat -> text -> option text;   (* sm_self_read_original_filename *)
  me_link : nat -> Z;
  me_unlink : nat -> Z;
}.

Definition EEXIST : Z := 17.
Definition ENOENT : Z := 2.

Definition tick (w : module_world) : module_world := ModuleWorld (mw_names w) (S (mw_clock w)).

Section modules.
Context (e : module_env).

Definition stop_requested (w : module_world) : bool * module_world := (me_stop e (mw_clock w), tick w).
Definition lstat (path : text) (w : module_world) : option node_stat * module_world := (me_lstat e (mw_clock w) path, tick w).

(** [link(path, target)]: never over a name that exists. *)
Definition link (path target : text) (w : module_world) : Z * module_world :=
  match mw_names w !! target, mw_names w !! path with
  | Some _, _ => (EEXIST, tick w)
  | None, None => (ENOENT, tick w)
  | None, Some file =>
      if me_link e (mw_clock w) =? 0 then (0, ModuleWorld (<[target := file]> (mw_names w)) (S (mw_clock w)))
      else (me_link e (mw_clock w), tick w)
  end.

Definition unlink (path : text) (w : module_world) : Z * module_world :=
  match mw_names w !! path with
  | None => (ENOENT, tick w)
  | Some _ =>
      if me_unlink e (mw_clock w) =? 0 then (0, ModuleWorld (delete path (mw_names w)) (S (mw_clock w)))
      else (me_unlink e (mw_clock w), tick w)
  end.

(** ** Collecting the libraries *)
Record module_case_snapshot_t := Snapshot { sn_files : list module_case_file_t; sn_capacity : nat; sn_device : Z }.

Definition dots (name : text) : bool := bool_decide (name = lit ".") || bool_decide (name = lit "..").

Definition add_file (f : module_case_file_t) (s : module_case_snapshot_t) (w : module_world) : option module_case_snapshot_t * module_world :=
  if (length (sn_files s) =? sn_capacity s)%nat then
    if me_alloc e (mw_clock w)
    then (Some (Snapshot (sn_files s ++ [f]) (if (sn_capacity s =? 0)%nat then 16 else sn_capacity s * 2)%nat (sn_device s)), tick w)
    else (None, tick w)
  else (Some (Snapshot (sn_files s ++ [f]) (sn_capacity s) (sn_device s)), w).

(** The loop over a directory; [sub] collects from a subdirectory.  The boolean says
    whether the collection is complete so far. *)
Fixpoint collect_entries (sub : text -> module_case_snapshot_t -> module_world -> bool * module_case_snapshot_t * module_world) (path : text)
    (entries : list (text * listed_type)) (s : module_case_snapshot_t) (w : module_world) : bool * module_case_snapshot_t * module_world :=
  let '(stop, w) := stop_requested w in
  if stop then (false, s, w)
  else
    match entries with
    | [] => (negb (me_readdir_error e (mw_clock w)), s, tick w)
    | (name, t) :: entries' =>
        if dots name || (match t with ListedOther => true | _ => false end && negb (is_module_filename name))
        then collect_entries sub path entries' s w
        else
          let child := path ++ path_slash :: name in
          if (MAX_PATH <=? length child)%nat then (false, s, w)
          else
            let '(st, w) := lstat child w in
            match st with
            | None => (false, s, w)
            | Some st =>
                if negb (ns_dev st =? sn_device s) then collect_entries sub path entries' s w
                else
                  match ns_kind st with
                  | NodeDir =>
                      let '(complete, s, w) := sub child s w in
                      if complete : bool then collect_entries sub path entries' s w else (false, s, w)
                  | NodeRegular =>
                      if negb (is_module_filename name) then collect_entries sub path entries' s w
                      else
                        let '(added, w) := add_file (ModuleFile child st) s w in
                        match added with
                        | Some s => collect_entries sub path entries' s w
                        | None => (false, s, w)
                        end
                  | NodeOther => collect_entries sub path entries' s w
                  end
            end
    end.

(** [levels] is 33 less the depth. *)
Fixpoint collect_module_case_files (levels : nat) (path : text) (s : module_case_snapshot_t) (w : module_world) :
    bool * module_case_snapshot_t * module_world :=
  match levels with
  | O => (false, s, w)
  | S levels' =>
      let '(stop, w) := stop_requested w in
      if stop then (false, s, w)
      else
        match me_opendir e (mw_clock w) path with
        | None => (false, s, tick w)
        | Some entries =>
            let '(complete, s, w) := collect_entries (collect_module_case_files levels') path entries s (tick w) in
            (complete && me_closedir e (mw_clock w), s, tick w)
        end
  end.

(** ** Renaming *)

(** The base name of the original name: after the last slash or backslash. *)
Definition original_base (original : text) : text :=
  match split_last (fun a => Ascii.eqb path_slash a || Ascii.eqb path_backslash a) original with
  | Some (_, name) => name
  | None => original
  end.

(** The path with the case corrected, when the original name is one of the same
    library. *)
Definition case_target (path original : text) : option text :=
  let name := original_base original in
  let '(dir, source_name) := dir_and_name path in
  match extension name, extension source_name with
  | Some (stem, ext), Some (source_stem, source_ext) =>
      if negb (is_module_filename name) && negb (strcasecmp_eq ext (lit "debug_prx")) then None
      else if negb (length stem =? length source_stem)%nat || negb (strcasecmp_eq source_stem stem) then None
      else Some (dir ++ stem ++ full_stop :: (tolower <$> source_ext))
  | _, _ => None
  end.

(** One file: the file as it is afterwards, [None] when the repair gives up. *)
Definition repair_file (f : module_case_file_t) (w : module_world) : option module_case_file_t * module_world :=
  let '(stop, w) := stop_requested w in
  if stop then (None, w)
  else
    let original := me_original e (mw_clock w) (mf_path f) in
    let '(now, w) := lstat (mf_path f) (tick w) in
    match now with
    | None => (None, w)
    | Some st =>
        if negb (module_case_file_fingerprint (ModuleFile (mf_path f) st) =? module_case_file_fingerprint f) then (None, w)
        else
          match original ≫= case_target (mf_path f) with
          | None => (Some f, w)
          | Some target =>
              if bool_decide (target = mf_path f) then (Some f, w)
              else
                let '(stop, w) := stop_requested w in
                if stop then (None, w)
                else
                  let '(error, w) := link (mf_path f) target w in
                  if negb (error =? 0) then (Some f, w)
                  else
                    let '(error, w) := unlink (mf_path f) w in
                    if negb (error =? 0) then (Some f, w)
                    else
                      let '(now, w) := lstat target w in
                      match now with
                      | None => (None, w)
                      | Some st => (Some (ModuleFile target st), w)
                      end
          end
    end.

Fixpoint repair_files (files : list module_case_file_t) (w : module_world) : option (list module_case_file_t) * module_world :=
  match files with
  | [] => (Some [], w)
  | f :: files' =>
      let '(r, w) := repair_file f w in
      match r with
      | None => (None, w)
      | Some f' =>
          let '(rest, w) := repair_files files' w in
          (option_map (cons f') rest, w)
      end
  end.

(** The second look: every file is still as it was recorded. *)
Fixpoint unchanged_files (files : list module_case_file_t) (w : module_world) : bool * module_world :=
  match files with
  | [] => (true, w)
  | f :: files' =>
      let '(now, w) := lstat (mf_path f) w in
      match now with
      | Some st =>
          if module_case_file_fingerprint (ModuleFile (mf_path f) st) =? module_case_file_fingerprint f then unchanged_files files' w
          else (false, w)
      | None => (false, w)
      end
  end.

Definition repairable_path (path : text) : bool :=
  existsb (path_matches_root_or_child (String.string_of_list_ascii path)) ["/data"; "/mnt/ext0/homebrew"; "/mnt/ext1/homebrew"]%string.

(** A file that changed less than [stability] seconds ago. *)
Definition recently_changed (now stability : Z) (f : module_case_file_t) : bool :=
  let changed := if ns_ctime (mf_stat f) <? ns_mtime (mf_stat f) then ns_mtime (mf_stat f) else ns_ctime (mf_stat f) in
  let age := now - changed in (0 <=? age) && (age <? stability).

(** [statfs]: read-only, and the type; a file system that tells cases apart. *)
Definition case_sensitive_fs (fs : option (bool * string)) : bool :=
  match fs with Some (read_only, t) => negb read_only && (strcmp_eq t "ufs" || strcmp_eq t "bfs") | None => false end.

(** [matches]: the fingerprint is the one stored for the path; the result is the
    fingerprint to store. *)
Definition repair_module_case_for_source (path : text) (fs : option (bool * string)) (now stability : Z) (matches : Z -> bool) (w : module_world) :
    option Z * module_world :=
  if negb (repairable_path path) then (None, w)
  else
    let '(stop, w) := stop_requested w in
    if stop then (None, w)
    else
      let '(st, w) := lstat path w in
      match st with
      | None => (None, w)
      | Some st =>
          if negb (match ns_kind st with NodeDir => true | _ => false end) || negb (case_sensitive_fs fs) then (None, w)
          else
            let '(complete, s, w) := collect_module_case_files 33 path (Snapshot [] 0 (ns_dev st)) w in
            if negb complete then (None, w)
            else if existsb (recently_changed now stability) (sn_files s) then (None, w)
            else if matches (fingerprint_of (sn_files s)) then (None, w)
            else
              let '(files, w) := repair_files (sn_files s) w in
              match files with
              | None => (None, w)
              | Some files =>
                  let '(same, w) := unchanged_files files w in
                  (if same : bool then Some (fingerprint_of files) else None, w)
              end
      end.
End modules.

(** * Properties of a target *)
Lemma split_last_spec p s a b : split_last p s = Some (a, b) ->
  exists c, p c = true /\ s = a ++ c :: b /\ Forall (fun x => p x = false) b.
Proof.
  unfold split_last. destruct (break p (reverse s)) as [after [|c before]] eqn:Hb; [done|]. intros [= <- <-].
  apply break_spec in Hb as (Heq & Hafter & Hc). exists c. split_and!; [done| |].
  - rewrite <-(reverse_involutive s), Heq, reverse_app, reverse_cons, <-(assoc_L app). done.
  - by apply Forall_reverse.
Qed.

Lemma split_last_app p a c b : p c = true -> Forall (fun x => p x = false) b -> split_last p (a ++ c :: b) = Some (a, b).
Proof.
  intros Hc Hb. unfold split_last. rewrite reverse_app, reverse_cons, <-(assoc_L app). simpl.
  rewrite (IniFile.break_app p (reverse b) (c :: reverse a)); [|by apply Forall_reverse|done].
  by rewrite !reverse_involutive.
Qed.

Lemma split_last_none p s : Forall (fun x => p x = false) s -> split_last p s = None.
Proof.
  intros H. unfold split_last. pose proof (IniFile.break_app p (reverse s) []) as Hb. rewrite app_nil_r in Hb.
  rewrite Hb; [done|by apply Forall_reverse|done].
Qed.

Lemma split_last_none_spec p s : split_last p s = None -> Forall (fun x => p x = false) s.
Proof.
  unfold split_last. destruct (break p (reverse s)) as [after [|c before]] eqn:Hb; [|done]. intros _.
  apply break_spec in Hb as (Heq & Hafter & _). rewrite app_nil_r in Heq. rewrite <-(reverse_involutive s), Heq. by apply Forall_reverse.
Qed.

Lemma tolower_slash a : tolower a = path_slash <-> a = path_slash.
Proof. destruct a as [[] [] [] [] [] [] [] []]; split; intros H; try discriminate H; reflexivity. Qed.

Lemma tolower_stop a : tolower a = full_stop <-> a = full_stop.
Proof. destruct a as [[] [] [] [] [] [] [] []]; split; intros H; try discriminate H; reflexivity. Qed.

Lemma tolower_twice (s : text) : tolower <$> (tolower <$> s) = tolower <$> s.
Proof.
  induction s as [|a s IH]; [done|]. simpl. f_equal; [|exact IH]. by destruct a as [[] [] [] [] [] [] [] []].
Qed.

Lemma same_text_app a a' b b' : same_text a a' -> same_text b b' -> same_text (a ++ b) (a' ++ b').
Proof. unfold same_text. rewrite !fmap_app. congruence. Qed.

(** The characters [c] that have no other case stay where they are. *)
Lemma same_text_free c (a b : text) : (forall x, tolower x = c <-> x = c) -> same_text a b ->
  Forall (fun x => Ascii.eqb c x = false) a -> Forall (fun x => Ascii.eqb c x = false) b.
Proof.
  intros Hc Hab Ha. apply Forall_forall. intros x Hx. apply Ascii.eqb_neq. intros <-.
  assert (Hin : tolower c ∈ tolower <$> b) by (by apply list_elem_of_fmap_2).
  rewrite <-Hab in Hin. apply list_elem_of_fmap in Hin as (y & Hy & Hin). rewrite Forall_forall in Ha. specialize (Ha y Hin).
  apply Ascii.eqb_neq in Ha. apply Ha. symmetry. apply Hc. rewrite <-Hy. by apply Hc.
Qed.

Lemma dir_and_name_spec path dir name : dir_and_name path = (dir, name) ->
  path = dir ++ name /\ Forall (fun x => Ascii.eqb path_slash x = false) name /\
  forall other, Forall (fun x => Ascii.eqb path_slash x = false) other -> dir_and_name (dir ++ other) = (dir, other).
Proof.
  unfold dir_and_name. destruct (split_last _ path) as [[d n]|] eqn:Hs; intros [= <- <-].
  - apply split_last_spec in Hs as (c & Hc & -> & Hn). apply Ascii.eqb_eq in Hc. subst c. split_and!; [by rewrite <-(assoc_L app)|done|].
    intros other Ho. rewrite <-(assoc_L app). simpl. rewrite split_last_app; [done|done|done].
  - apply split_last_none_spec in Hs. split_and!; [done|done|]. intros other Ho. simpl. by rewrite split_last_none.
Qed.

(** A target differs from the path in the case of letters, and names the same file of
    the same directory for good: the next repair leaves it alone. *)
Lemma case_target_spec path original target : case_target path original = Some target ->
  same_text path target /\ length target = length path /\ case_target target original = Some target.
Proof.
  unfold case_target. destruct (dir_and_name path) as [dir source_name] eqn:Hd.
  destruct (extension (original_base original)) as [[stem ext]|] eqn:Ho; [|done].
  destruct (extension source_name) as [[source_stem source_ext]|] eqn:Hs; [|done].
  destruct (negb (is_module_filename _) && _) eqn:Hmod; [done|].
  destruct (negb (length stem =? length source_stem)%nat || negb (strcasecmp_eq source_stem stem)) eqn:Hsame; [done|].
  intros [= <-]. apply orb_false_iff in Hsame as [_ Hsame]. apply negb_false_iff, strcasecmp_eq_true in Hsame.
  apply dir_and_name_spec in Hd as (-> & Hslash & Hagain).
  apply split_last_spec in Hs as (c & Hc & -> & Hext). apply Ascii.eqb_eq in Hc. subst c.
  assert (Hlow : same_text source_ext (tolower <$> source_ext)) by (unfold same_text; by rewrite tolower_twice).
  assert (Hname : same_text (source_stem ++ full_stop :: source_ext) (stem ++ full_stop :: (tolower <$> source_ext))).
  { apply same_text_app; [done|]. unfold same_text. simpl. by rewrite tolower_twice. }
  split_and!.
  - by apply same_text_app.
  - pose proof (f_equal length Hname) as Hl. rewrite !length_fmap in Hl. rewrite !length_app in *. lia.
  - rewrite Hagain by (eapply same_text_free; [apply tolower_slash|exact Hname|done]).
    unfold extension. rewrite split_last_app; [|done|by eapply same_text_free; [apply tolower_stop|exact Hlow|]].
    rewrite Nat.eqb_refl, (proj2 (strcasecmp_eq_true stem stem)) by done. simpl. by rewrite tolower_twice.
Qed.

(** * No file is lost *)

(** Every file keeps a name that differs at most in case, and every name is such a
    name of a file. *)
Definition same_files (names names' : gmap text Z) : Prop :=
  (forall p file, names !! p = Some file -> exists q, names' !! q = Some file /\ same_text p q) /\
  (forall q file, names' !! q = Some file -> exists p, names !! p = Some file /\ same_text p q).

Lemma same_files_refl n : same_files n n.
Proof. split; intros p file H; exists p; split; try done; reflexivity. Qed.

Lemma same_files_trans a b c : same_files a b -> same_files b c -> same_files a c.
Proof.
  intros [F1 B1] [F2 B2]. split.
  - intros p file H. destruct (F1 p file H) as (q & Hq & Hpq). destruct (F2 q file Hq) as (r & Hr & Hqr). exists r.
    split; [done|]. by transitivity q.
  - intros r file H. destruct (B2 r file H) as (q & Hq & Hqr). destruct (B1 q file Hq) as (p & Hp & Hpq). exists p.
    split; [done|]. by transitivity q.
Qed.

Lemma link_files e path target w error w' : same_text path target -> link e path target w = (error, w') ->
  same_files (mw_names w) (mw_names w') /\
  (error = 0 -> exists file, mw_names w !! path = Some file /\ mw_names w' = <[target := file]> (mw_names w) /\ mw_names w !! target = None).
Proof.
  unfold link. intros Hst. destruct (mw_names w !! target) as [other|] eqn:Ht.
  { intros [= <- <-]. split; [apply same_files_refl|done]. }
  destruct (mw_names w !! path) as [file|] eqn:Hp; [|intros [= <- <-]; split; [apply same_files_refl|done]].
  destruct (Z.eqb_spec (me_link e (mw_clock w)) 0) as [Hz|Hz]; intros [= <- <-]; simpl.
  - split; [|intros _; by exists file]. split.
    + intros p f Hpf. exists p. split; [|reflexivity]. rewrite lookup_insert_ne; [done|congruence].
    + intros q f Hq. destruct (decide (q = target)) as [->|Hne].
      * rewrite lookup_insert_eq in Hq. injection Hq as <-. by exists path.
      * rewrite lookup_insert_ne in Hq by done. exists q. split; [done|reflexivity].
  - split; [apply same_files_refl|]. intros Hz'. congruence.
Qed.

Lemma unlink_files e path target file w error w' : same_text path target -> target <> path ->
  mw_names w !! path = Some file -> mw_names w !! target = Some file -> unlink e path w = (error, w') ->
  same_files (mw_names w) (mw_names w').
Proof.
  intros Hst Hne Hp Ht. unfold unlink. rewrite Hp. destruct (_ =? 0); intros [= <- <-]; [|apply same_files_refl]. split.
  - intros p f Hpf. destruct (decide (p = path)) as [->|Hn].
    + exists target. simpl. rewrite lookup_delete_ne by done. split; [congruence|done].
    + exists p. simpl. rewrite lookup_delete_ne by done. split; [done|reflexivity].
  - intros q f Hq. simpl in Hq. apply lookup_delete_Some in Hq as [_ Hq]. exists q. split; [done|reflexivity].
Qed.

Lemma repair_file_files e f w r w' : repair_file e f w = (r, w') -> same_files (mw_names w) (mw_names w').
Proof.
  unfold repair_file, stop_requested, lstat. cbn [tick mw_clock mw_names].
  destruct (me_stop e _); [intros [= <- <-]; apply same_files_refl|].
  destruct (me_lstat e _ _) as [st|]; [|intros [= <- <-]; apply same_files_refl].
  destruct (negb _); [intros [= <- <-]; apply same_files_refl|].
  destruct (me_original e _ _ ≫= case_target (mf_path f)) as [target|] eqn:Ht; [|intros [= <- <-]; apply same_files_refl].
  apply bind_Some in Ht as (original & _ & Ht). apply case_target_spec in Ht as (Hst & _ & _).
  case_bool_decide as Hne; [intros [= <- <-]; apply same_files_refl|].
  destruct (me_stop e _); [intros [= <- <-]; apply same_files_refl|].
  destruct (link e (mf_path f) target _) as [error w1] eqn:Hl. apply link_files in Hl as [Hl1 Hl2]; [|done]. simpl in Hl1, Hl2.
  destruct (Z.eqb_spec error 0) as [->|He]; cbn [negb]; [|intros [= <- <-]; exact Hl1].
  destruct (Hl2 eq_refl) as (file & Hp & Hw1 & _).
  destruct (unlink e (mf_path f) w1) as [error w2] eqn:Hu.
  apply (unlink_files e _ target file) in Hu; [|done|done|rewrite Hw1, lookup_insert_ne; done|by rewrite Hw1, lookup_insert_eq].
  pose proof (same_files_trans _ _ _ Hl1 Hu) as Hall.
  destruct (negb (error =? 0)); [intros [= <- <-]; exact Hall|].
  destruct (me_lstat e _ _); intros [= <- <-]; exact Hall.
Qed.

Lemma repair_files_files e files w r w' : repair_files e files w = (r, w') -> same_files (mw_names w) (mw_names w').
Proof.
  revert w r w'. induction files as [|f files IH]; intros w r w'; simpl; [intros [= <- <-]; apply same_files_refl|].
  destruct (repair_file e f w) as [r1 w1] eqn:Hf. apply repair_file_files in Hf.
  destruct r1 as [f'|]; [|intros [= <- <-]; done]. destruct (repair_files e files w1) as [rest w2] eqn:Hr.
  apply IH in Hr. intros [= <- <-]. by eapply same_files_trans.
Qed.

(** Collecting looks only. *)
Lemma add_file_names e f s w : mw_names (add_file e f s w).2 = mw_names w.
Proof. unfold add_file. by repeat case_match. Qed.

Lemma collect_entries_names e sub path entries s w : (forall p s w, mw_names (sub p s w).2 = mw_names w) ->
  mw_names (collect_entries e sub path entries s w).2 = mw_names w.
Proof.
  intros Hsub. revert s w. induction entries as [|[name t] entries IH]; intros s w; cbn [collect_entries]; unfold stop_requested, lstat;
    destruct (me_stop e (mw_clock w)); try done.
  destruct (dots name || _); [by rewrite IH|]. destruct (MAX_PATH <=? _)%nat; [done|].
  destruct (me_lstat e _ _) as [st|]; [|done]. destruct (negb _); [by rewrite IH|].
  destruct (ns_kind st); [| |by rewrite IH].
  - match goal with |- context[sub ?p ?s ?w] => pose proof (Hsub p s w) as H; destruct (sub p s w) as [[c s'] w'] end.
    simpl in H. destruct c; [by rewrite IH|done].
  - destruct (negb _); [by rewrite IH|].
    match goal with |- context[add_file e ?f ?s ?w] => pose proof (add_file_names e f s w) as H; destruct (add_file e f s w) as [a w'] end.
    simpl in H. destruct a; [by rewrite IH|done].
Qed.

Lemma collect_names e levels path s w : mw_names (collect_module_case_files e levels path s w).2 = mw_names w.
Proof.
  revert path s w. induction levels as [|levels IH]; intros path s w; [done|]. cbn [collect_module_case_files]. unfold stop_requested.
  destruct (me_stop e (mw_clock w)); [done|]. destruct (me_opendir e _ _) as [entries|]; [|done].
  match goal with |- context[collect_entries e ?sub ?p ?es ?s ?w] =>
    pose proof (collect_entries_names e sub p es s w IH) as H; destruct (collect_entries e sub p es s w) as [[c s'] w'] end.
  exact H.
Qed.

Lemma unchanged_names e files w : mw_names (unchanged_files e files w).2 = mw_names w.
Proof.
  revert w. induction files as [|f files IH]; intros w; [reflexivity|]. cbn [unchanged_files]. unfold lstat.
  destruct (me_lstat e _ _) as [st|]; [|reflexivity]. destruct (Z.eqb _ _); [by rewrite IH|reflexivity].
Qed.

(** * Properties *)

(** Claim C34: correcting the case of library names never loses a file.  Whatever the
    calls answer and wherever the repair is cut short, every file that had a name
    has one afterwards that differs at most in the case of letters, and every name
    is such a name of the file it belongs to: nothing is overwritten with another
    file. *)
Theorem module_files_kept e path fs now stability matches w :
  same_files (mw_names w) (mw_names (repair_module_case_for_source e path fs now stability matches w).2).
Proof.
  unfold repair_module_case_for_source, stop_requested, lstat. destruct (negb (repairable_path path)); [apply same_files_refl|].
  destruct (me_stop e _); [apply same_files_refl|]. destruct (me_lstat e _ _) as [st|]; [|apply same_files_refl].
  destruct (negb _ || _); [apply same_files_refl|].
  match goal with |- context[collect_module_case_files e 33 ?p ?s ?w] => pose proof (collect_names e 33 p s w) as Hc;
    destruct (collect_module_case_files e 33 p s w) as [[complete s'] w1] end. cbn [snd tick mw_names] in Hc |- *. rewrite <-Hc.
  destruct (negb complete); [apply same_files_refl|]. destruct (existsb _ _); [apply same_files_refl|].
  destruct (matches _); [apply same_files_refl|]. destruct (repair_files e (sn_files s') w1) as [files w2] eqn:Hr.
  apply repair_files_files in Hr. destruct files as [files|]; [|done].
  pose proof (unchanged_names e files w2) as Hu. destruct (unchanged_files e files w2) as [same w3]. cbn [snd] in Hu |- *. by rewrite Hu.
Qed.

(** the corrected path of a library differs from its path only in the case
    of letters and has its length, so it stays in its directory and fits its buffer;
    and it is the corrected path of itself: one repair settles the name. *)
Theorem module_name_settles path original target : case_target path original = Some target ->
  same_text path target /\ length target = length path /\ case_target target original = Some target.
Proof. apply case_target_spec. Qed.

Lemma module_name_settles_witness :
  case_target (lit "/data/game/SCE_MODULE/LIBC.PRX") (lit "D:\build\libc.debug_prx") = Some (lit "/data/game/SCE_MODULE/libc.prx") /\
  case_target (lit "/data/game/SCE_MODULE/libc.prx") (lit "D:\build\libc.debug_prx") = Some (lit "/data/game/SCE_MODULE/libc.prx").
Proof.
  split; [vm_compute; reflexivity|].
  apply (module_name_settles (lit "/data/game/SCE_MODULE/LIBC.PRX") (lit "D:\build\libc.debug_prx")). vm_compute. reflexivity.
Defined.

(** The fingerprint of a directory does not depend on the order in which it is read. *)
Theorem fingerprint_order files files' : files ≡ₚ files' -> fingerprint_of files = fingerprint_of files'.
Proof.
  unfold fingerprint_of. assert (H : forall l l', l ≡ₚ l' -> forall a,
    fold_left (fun total f => u64 (total + module_case_file_fingerprint f)) l a =
    fold_left (fun total f => u64 (total + module_case_file_fingerprint f)) l' a); [|intros Hp; by apply H].
  induction 1 as [|f l l' _ IH|f g l|l1 l2 l3 _ IH1 _ IH2]; intros a; simpl; [done|apply IH| |by rewrite IH1].
  f_equal. unfold u64, wrap. rewrite !Zplus_mod_idemp_l. f_equal. lia.
Qed.

Lemma fingerprint_order_witness :
  fingerprint_of [ModuleFile (lit "a.prx") (NodeStat NodeRegular 1 2 3 4 5 6 7); ModuleFile (lit "b.prx") (NodeStat NodeRegular 1 3 3 4 5 6 7)] =
  fingerprint_of [ModuleFile (lit "b.prx") (NodeStat NodeRegular 1 3 3 4 5 6 7); ModuleFile (lit "a.prx") (NodeStat NodeRegular 1 2 3 4 5 6 7)].
Proof. apply fingerprint_order. apply Permutation_swap. Defined.
