(* ===== verification/ScanCleanup.v ===== *)
(** * Cleaning up around scans (src/sm_scan.c, fourth part)

    The sequences of calls that forget lost sources before a scan, release the mounts
    of a scan and unmount USB sources before the system sleeps.  Other components are
    called; their answers are arguments. *)
From S2P Require Import Prelude.
From stdpp Require Import list.
Open Scope Z_scope.

Inductive cleanup_call :=
  | IndexPrune
  | PruneGameCache (root : option string)
  | CleanupImageMounts (root : option string)
  | MountStateLock
  | MountStateUnlock
  | CleanupMountLinks (root : option string)
  | PrunePathState (root : option string)
  | CleanupUsbLinks
  | UnmountUsbImages
  | CleanupMountDirs
  | UnmountTitleLayers
  | ReleaseImageMounts.

Definition cleanup_lost_sources_before_scan : list cleanup_call :=
  [IndexPrune; PruneGameCache None; CleanupImageMounts None; MountStateLock; CleanupMountLinks None; MountStateUnlock; PrunePathState None].

Definition cleanup_lost_sources_for_scan_root (scan_root : string) : list cleanup_call :=
  [IndexPrune; PruneGameCache (Some scan_root); CleanupImageMounts (Some scan_root); MountStateLock; CleanupMountLinks (Some scan_root);
   MountStateUnlock; PrunePathState (Some scan_root)].

Definition unmount_usb_sources_for_suspend : list cleanup_call := [CleanupUsbLinks; UnmountUsbImages; CleanupMountDirs].

(** Background work may be blocked before the lock is taken and once it is held. *)
Record release_env := ReleaseEnv {
  rl_sleep : bool; rl_blocked : bool; rl_blocked_locked : bool; rl_layers : bool; rl_persistent : bool; rl_images : bool;
}.

Definition release_scan_runtime_mounts (e : release_env) : bool * list cleanup_call :=
  if rl_sleep e then (false, [])
  else if rl_blocked e then (true, [])
  else if rl_blocked_locked e then (true, [MountStateLock; MountStateUnlock])
  else if negb (rl_layers e) then (false, [MountStateLock; UnmountTitleLayers; MountStateUnlock])
  else if rl_persistent e then (true, [MountStateLock; UnmountTitleLayers; MountStateUnlock])
  else (rl_images e, [MountStateLock; UnmountTitleLayers; ReleaseImageMounts; MountStateUnlock]).

(** ** The lock *)

(** Mounts are changed only while the lock is held, and it is given back. *)
Definition needs_lock (c : cleanup_call) : bool :=
  match c with CleanupMountLinks _ | UnmountTitleLayers | ReleaseImageMounts => true | _ => false end.

Fixpoint locked_well (held : bool) (calls : list cleanup_call) : bool :=
  match calls with
  | [] => negb held
  | MountStateLock :: calls' => negb held && locked_well true calls'
  | MountStateUnlock :: calls' => held && locked_well false calls'
  | c :: calls' => (held || negb (needs_lock c)) && locked_well held calls'
  end.

(** The cleanup of links and the release of mounts hold the lock of the mount state
    while they work and give it back on every path; a release does nothing while
    background work is blocked, also when that begins while it waits for the lock. *)
Theorem cleanup_locked :
  locked_well false cleanup_lost_sources_before_scan = true /\
  (forall root, locked_well false (cleanup_lost_sources_for_scan_root root) = true) /\
  (forall e, locked_well false (release_scan_runtime_mounts e).2 = true /\
     (UnmountTitleLayers ∈ (release_scan_runtime_mounts e).2 -> rl_sleep e = false /\ rl_blocked e = false /\ rl_blocked_locked e = false) /\
     (ReleaseImageMounts ∈ (release_scan_runtime_mounts e).2 -> rl_layers e = true /\ rl_persistent e = false)).
Proof.
  split; [done|]. split; [done|]. intros e. unfold release_scan_runtime_mounts.
  destruct (rl_sleep e), (rl_blocked e), (rl_blocked_locked e), (rl_layers e), (rl_persistent e); simpl; (split_and!; [done|..]);
    rewrite ?elem_of_cons, ?elem_of_nil; intuition congruence.
Qed.
