(* ===== verification/ScannerWatch.v ===== *)
(** * The scanner's table of watched directories (src/sm_scanner.c, first part)

    Every watched directory is an entry of a growing array; entries of several scan roots
    may share one descriptor, which exactly one of them closes.  The entries of a root
    form a doubly linked list through the array, and an open-addressing index finds the
    owner of a descriptor.  Removing an entry moves the last one into its place. *)
From S2P Require Import Prelude CString ConfigState.
From stdpp Require Import list fin_sets.
Open Scope Z_scope.
Open Scope c_scope.

(** ** Data *)
Inductive scanner_watch_kind_t := SCANNER_WATCH_SCAN_ROOT | SCANNER_WATCH_SCAN_ROOT_PARENT | SCANNER_WATCH_SCAN_SUBDIR |
  SCANNER_WATCH_USB_PARENT | SCANNER_WATCH_USB_ROOT.

#[export] Instance scanner_watch_kind_eq_dec : EqDecision scanner_watch_kind_t.
Proof. solve_decision. Defined.

(** [None] in a link is SCANNER_WATCH_INDEX_NONE. *)
Record scanner_watch_entry_t := WatchEntry {
  we_fd : Z; we_owns_fd : bool; we_fd_shareable : bool; we_scan_root_index : Z; we_depth : Z;
  we_kind : scanner_watch_kind_t; we_prev : option nat; we_next : option nat; we_path : string;
}.

(** The memory that [memset] cleared. *)
Definition cleared_entry : scanner_watch_entry_t := WatchEntry 0 false false 0 0 SCANNER_WATCH_SCAN_ROOT (Some 0%nat) (Some 0%nat) "".

(** The descriptors that are open, as the kernel sees them, and whether one was closed
    that was not open. *)
Record descriptors := Descriptors { ds_open : gset Z; ds_stray : bool }.

(** The globals of the table; an index that is NULL has no slots. *)
Record watch_table := WatchTable {
  wt_entries : list scanner_watch_entry_t;
  wt_capacity : nat;
  wt_heads : list (option nat);
  wt_index : list (option nat);
  wt_fds : descriptors;
}.

Definition set_prev (i : option nat) (e : scanner_watch_entry_t) : scanner_watch_entry_t :=
  WatchEntry (we_fd e) (we_owns_fd e) (we_fd_shareable e) (we_scan_root_index e) (we_depth e) (we_kind e) i (we_next e) (we_path e).
Definition set_next (i : option nat) (e : scanner_watch_entry_t) : scanner_watch_entry_t :=
  WatchEntry (we_fd e) (we_owns_fd e) (we_fd_shareable e) (we_scan_root_index e) (we_depth e) (we_kind e) (we_prev e) i (we_path e).
Definition set_owner (e : scanner_watch_entry_t) : scanner_watch_entry_t :=
  WatchEntry (we_fd e) true (we_fd_shareable e) (we_scan_root_index e) (we_depth e) (we_kind e) (we_prev e) (we_next e) (we_path e).
Definition unshare (e : scanner_watch_entry_t) : scanner_watch_entry_t :=
  WatchEntry (we_fd e) (we_owns_fd e) false (we_scan_root_index e) (we_depth e) (we_kind e) (we_prev e) (we_next e) (we_path e).

Definition with_entries (es : list scanner_watch_entry_t) (t : watch_table) : watch_table :=
  WatchTable es (wt_capacity t) (wt_heads t) (wt_index t) (wt_fds t).
Definition with_heads (hs : list (option nat)) (t : watch_table) : watch_table :=
  WatchTable (wt_entries t) (wt_capacity t) hs (wt_index t) (wt_fds t).
Definition with_index (idx : list (option nat)) (t : watch_table) : watch_table :=
  WatchTable (wt_entries t) (wt_capacity t) (wt_heads t) idx (wt_fds t).
Definition with_fds (d : descriptors) (t : watch_table) : watch_table :=
  WatchTable (wt_entries t) (wt_capacity t) (wt_heads t) (wt_index t) d.

Definition watch_count (t : watch_table) : nat := length (wt_entries t).
Definition set_at (i : option nat) (f : scanner_watch_entry_t -> scanner_watch_entry_t) (es : list scanner_watch_entry_t) : list scanner_watch_entry_t :=
  match i with Some i => alter f i es | None => es end.
(** The memory behind the last entry is cleared. *)
Definition entry_at (t : watch_table) (i : nat) : scanner_watch_entry_t := default cleared_entry (wt_entries t !! i).
Definition slot_at (idx : list (option nat)) (slot : nat) : option nat := default None (idx !! slot).
Definition root_head (t : watch_table) (r : Z) : option nat := default None (wt_heads t !! Z.to_nat r).
Definition set_head (r : Z) (i : option nat) (t : watch_table) : watch_table := with_heads (<[Z.to_nat r := i]> (wt_heads t)) t.

Definition close_fd (fd : Z) (t : watch_table) : watch_table :=
  with_fds (Descriptors (ds_open (wt_fds t) ∖ {[fd]}) (ds_stray (wt_fds t) || negb (bool_decide (fd ∈ ds_open (wt_fds t))))) t.

(** ** Memory *)

(** [while (c < needed) c *= 2]; [fuel] turns are enough when [needed <= fuel]. *)
Fixpoint grow (fuel c needed : nat) : nat :=
  match fuel with O => c | S fuel' => if (c <? needed)%nat then grow fuel' (c * 2) needed else c end.

(** [realloc] gives memory, or not. *)
Definition ensure_scanner_watch_capacity (memory : bool) (needed_count : nat) (t : watch_table) : option watch_table :=
  if (needed_count <=? wt_capacity t)%nat then Some t
  else if negb memory then None
  else
    let c := if (wt_capacity t =? 0)%nat then 64%nat else wt_capacity t in
    Some (WatchTable (wt_entries t) (grow needed_count c needed_count) (wt_heads t) (wt_index t) (wt_fds t)).

Definition reset_scanner_root_watch_heads : list (option nat) := replicate MAX_SCAN_PATHS None.

Definition empty_watches (d : descriptors) : watch_table := WatchTable [] 0 reset_scanner_root_watch_heads [] d.

Definition clear_scanner_watch_entries (t : watch_table) : watch_table :=
  empty_watches (wt_fds (fold_left (fun t e => if we_owns_fd e && (0 <=? we_fd e) then close_fd (we_fd e) t else t) (wt_entries t) t)).

(** ** The index of descriptors *)
Definition scanner_watch_fd_hash (ident : Z) : Z := u64 (ident * 11400714819323198485).

Definition home (cap : nat) (ident : Z) : nat := Z.to_nat (Z.land (scanner_watch_fd_hash ident) (Z.of_nat cap - 1)).
Definition next_probe (cap slot : nat) : nat := Z.to_nat (Z.land (Z.of_nat slot + 1) (Z.of_nat cap - 1)).

(** The slot where a probe from [slot] stops: the first free one. *)
Fixpoint free_slot (fuel : nat) (idx : list (option nat)) (slot : nat) : option nat :=
  match fuel with
  | O => None
  | S fuel' =>
      match slot_at idx slot with
      | None => Some slot
      | Some _ => free_slot fuel' idx (next_probe (length idx) slot)
      end
  end.

(** [None]: no index, or no free slot within a whole turn. *)
Definition insert_scanner_watch_fd_index_entry (ident : Z) (watch_index : nat) (idx : list (option nat)) : option (list (option nat)) :=
  if (length idx =? 0)%nat then None
  else option_map (fun slot => <[slot := Some watch_index]> idx) (free_slot (length idx) idx (home (length idx) ident)).

Fixpoint index_owners (i : nat) (es : list scanner_watch_entry_t) (idx : list (option nat)) : bool * list (option nat) :=
  match es with
  | [] => (true, idx)
  | e :: es' =>
      if negb (we_owns_fd e) then index_owners (S i) es' idx
      else
        match insert_scanner_watch_fd_index_entry (we_fd e) i idx with
        | Some idx' => index_owners (S i) es' idx'
        | None => (false, idx)
        end
  end.

Definition needed_slots (watch_count : nat) : nat := grow (watch_count * 2) 16 (watch_count * 2).

(** The table keeps its old index when memory is short. *)
Definition rebuild_scanner_watch_fd_index_with_count (memory : bool) (count : nat) (t : watch_table) : bool * watch_table :=
  let needed := needed_slots count in
  if ((length (wt_index t) <? needed)%nat && negb memory) then (false, t)
  else
    let cap := Nat.max (length (wt_index t)) needed in
    let '(ok, idx) := index_owners 0 (wt_entries t) (replicate cap None) in
    (ok, with_index idx t).

Definition ensure_scanner_watch_fd_index_capacity (memory : bool) (count : nat) (t : watch_table) : bool * watch_table :=
  if negb (length (wt_index t) =? 0)%nat && (needed_slots count <=? length (wt_index t))%nat then (true, t)
  else rebuild_scanner_watch_fd_index_with_count memory count t.

Definition rebuild_scanner_watch_fd_index (memory : bool) (t : watch_table) : bool * watch_table :=
  rebuild_scanner_watch_fd_index_with_count memory (watch_count t) t.

(** The index of the entry found. *)
Fixpoint probe_fd (fuel : nat) (t : watch_table) (ident : Z) (slot : nat) : option (option nat) :=
  match fuel with
  | O => None
  | S fuel' =>
      match slot_at (wt_index t) slot with
      | None => Some None
      | Some i =>
          if we_fd (entry_at t i) =? ident then Some (Some i)
          else probe_fd fuel' t ident (next_probe (length (wt_index t)) slot)
      end
  end.

(** [None] is a probe that did not end within a whole turn. *)
Definition find_scanner_watch_entry_by_fd (t : watch_table) (ident : Z) : option (option nat) :=
  if (length (wt_index t) =? 0)%nat then Some None
  else probe_fd (length (wt_index t)) t ident (home (length (wt_index t)) ident).

(** ** The lists of the roots *)
Definition link_scanner_watch_entry_to_root (index : nat) (t : watch_table) : watch_table :=
  match wt_entries t !! index with
  | None => t
  | Some entry =>
      let r := we_scan_root_index entry in
      if r <? 0 then t
      else
        let head := root_head t r in
        let es := alter (fun e => set_next head (set_prev None e)) index (wt_entries t) in
        set_head r (Some index) (with_entries (set_at head (set_prev (Some index)) es) t)
  end.

Definition unlink_scanner_watch_entry_from_root (index : nat) (t : watch_table) : watch_table :=
  match wt_entries t !! index with
  | None => t
  | Some entry =>
      let r := we_scan_root_index entry in
      if r <? 0 then t
      else
        let t1 := match we_prev entry with
                  | Some p => with_entries (alter (set_next (we_next entry)) p (wt_entries t)) t
                  | None => set_head r (we_next entry) t
                  end in
        let es := set_at (we_next entry) (set_prev (we_prev entry)) (wt_entries t1) in
        with_entries (alter (fun e => set_next None (set_prev None e)) index es) t1
  end.

Definition rebind_scanner_watch_entry_root_index (old_index new_index : nat) (t : watch_table) : watch_table :=
  match wt_entries t !! new_index with
  | None => t
  | Some entry =>
      let r := we_scan_root_index entry in
      if r <? 0 then t
      else
        let t1 := if decide (root_head t r = Some old_index) then set_head r (Some new_index) t else t in
        let es := set_at (we_prev entry) (set_next (Some new_index)) (wt_entries t1) in
        with_entries (set_at (we_next entry) (set_prev (Some new_index)) es) t1
  end.

(** ** Subscriptions *)
Definition append_scanner_watch_subscription (fd : Z) (owns_fd : bool) (scan_root_index : Z) (path : string) (kind : scanner_watch_kind_t) (depth : Z)
    (t : watch_table) : nat * watch_table :=
  let index := watch_count t in
  let entry := WatchEntry fd owns_fd true scan_root_index depth kind None None (strlcpy path MAX_PATH) in
  (index, link_scanner_watch_entry_to_root index (with_entries (wt_entries t ++ [entry]) t)).

(** What the system answers to one registration: whether [realloc] gives memory for the
    entries and for the index; the descriptor that [open] gives, chosen from those that
    are free; device and inode of a descriptor; whether [kevent] succeeds. *)
Record register_answers := RegisterAnswers {
  ra_entries_memory : bool;
  ra_index_memory : bool;
  ra_open : option (gset Z -> Z);
  ra_fstat : Z -> option (Z * Z);
  ra_kevent : bool;
}.

(** How the search for a descriptor to share ends. *)
Inductive share_search := Subscribed | Conflicting | Shared (fd : option Z).

Definition same_directory (fstat : Z -> option (Z * Z)) (fd existing : Z) : bool :=
  match fstat fd, fstat existing with Some a, Some b => bool_decide (a = b) | _, _ => false end.

Fixpoint find_shared_fd (fstat : Z -> option (Z * Z)) (fd scan_root_index : Z) (path : string) (kind : scanner_watch_kind_t) (depth : Z)
    (es : list scanner_watch_entry_t) (shared_fd : option Z) : share_search :=
  match es with
  | [] => Shared shared_fd
  | existing :: es' =>
      if negb (we_fd_shareable existing) || negb (strcmp_eq (we_path existing) path)
      then find_shared_fd fstat fd scan_root_index path kind depth es' shared_fd
      else if negb (bool_decide (shared_fd = Some (we_fd existing))) && negb (same_directory fstat fd (we_fd existing))
      then find_shared_fd fstat fd scan_root_index path kind depth es' shared_fd
      else if we_scan_root_index existing =? scan_root_index then
        if bool_decide (we_kind existing = kind) && (we_depth existing =? depth) then Subscribed else Conflicting
      else
        find_shared_fd fstat fd scan_root_index path kind depth es'
          (match shared_fd with Some s => Some s | None => Some (we_fd existing) end)
  end.

(** The directory gets a descriptor of its own. *)
Definition watch_own_descriptor (memory kevent : bool) (fd scan_root_index : Z) (path : string) (kind : scanner_watch_kind_t) (depth : Z)
    (t : watch_table) : bool * watch_table :=
  let '(ok, t) := ensure_scanner_watch_fd_index_capacity memory (watch_count t + 1) t in
  if negb ok then (false, close_fd fd t)
  else if negb kevent then (false, close_fd fd t)
  else
    let '(entry_index, t1) := append_scanner_watch_subscription fd true scan_root_index path kind depth t in
    match insert_scanner_watch_fd_index_entry fd entry_index (wt_index t1) with
    | Some idx => (true, with_index idx t1)
    | None =>
        let t2 := close_fd fd (unlink_scanner_watch_entry_from_root entry_index t1) in
        (false, (rebuild_scanner_watch_fd_index memory (with_entries (take entry_index (wt_entries t2)) t2)).2)
    end.

Definition register_scanner_watch_entry (a : register_answers) (scan_root_index : Z) (path : string) (kind : scanner_watch_kind_t) (depth : Z)
    (t : watch_table) : bool * watch_table :=
  match ensure_scanner_watch_capacity (ra_entries_memory a) (watch_count t + 1) t with
  | None => (false, t)
  | Some t =>
      match ra_open a with
      | None => (true, t)
      | Some pick =>
          let fd := pick (ds_open (wt_fds t)) in
          let t := with_fds (Descriptors (ds_open (wt_fds t) ∪ {[fd]}) (ds_stray (wt_fds t))) t in
          match find_shared_fd (ra_fstat a) fd scan_root_index path kind depth (wt_entries t) None with
          | Subscribed => (true, close_fd fd t)
          | Conflicting => (false, close_fd fd t)
          | Shared (Some shared_fd) => (true, (append_scanner_watch_subscription shared_fd false scan_root_index path kind depth (close_fd fd t)).2)
          | Shared None => watch_own_descriptor (ra_index_memory a) (ra_kevent a) fd scan_root_index path kind depth t
          end
      end
  end.

(** The first other subscription of the descriptor becomes its owner. *)
Definition other_subscription (index : nat) (fd : Z) (es : list scanner_watch_entry_t) : option nat :=
  find_index id (imap (fun i e => negb (i =? index)%nat && (we_fd e =? fd)) es).

Definition remove_scanner_watch_entry_at (index : nat) (t : watch_table) : watch_table :=
  match wt_entries t !! index with
  | None => t
  | Some removed =>
      let removed_fd := we_fd removed in
      let t := unlink_scanner_watch_entry_from_root index t in
      let t :=
        if we_owns_fd removed && (0 <=? removed_fd) then
          match other_subscription index removed_fd (wt_entries t) with
          | Some i => with_entries (alter set_owner i (wt_entries t)) t
          | None => close_fd removed_fd t
          end
        else t in
      let last_index := (watch_count t - 1)%nat in
      let t :=
        if negb (index =? last_index)%nat then
          rebind_scanner_watch_entry_root_index last_index index
            (with_entries (<[index := entry_at t last_index]> (wt_entries t)) t)
        else t in
      with_entries (take last_index (wt_entries t)) t
  end.

(** [while (head != NONE) remove(head)]. *)
Fixpoint remove_heads (fuel : nat) (r : Z) (removed_any : bool) (t : watch_table) : option (bool * watch_table) :=
  match root_head t r with
  | None => Some (removed_any, t)
  | Some i =>
      match fuel with
      | O => None
      | S fuel' => remove_heads fuel' r true (remove_scanner_watch_entry_at i t)
      end
  end.

Definition after_removals (memory : bool) (run : option (bool * watch_table)) : option (bool * watch_table) :=
  match run with
  | Some (true, t) => Some (rebuild_scanner_watch_fd_index memory t)
  | Some (false, t) => Some (true, t)
  | None => None
  end.

Definition remove_scan_root_watch_entries (memory : bool) (r : Z) (t : watch_table) : option (bool * watch_table) :=
  after_removals memory (remove_heads (watch_count t) r false t).

Fixpoint remove_matching (fuel : nat) (r : Z) (path : string) (index : option nat) (removed_any : bool) (t : watch_table) : option (bool * watch_table) :=
  match index with
  | None => Some (removed_any, t)
  | Some i =>
      match fuel with
      | O => None
      | S fuel' =>
          let entry := entry_at t i in
          if path_matches_root_or_child (we_path entry) path
          then let t := remove_scanner_watch_entry_at i t in remove_matching fuel' r path (root_head t r) true t
          else remove_matching fuel' r path (we_next entry) removed_any t
      end
  end.

Definition remove_scan_root_watch_entries_for_path (memory : bool) (r : Z) (path : string) (t : watch_table) : option (bool * watch_table) :=
  after_removals memory (remove_matching (S (watch_count t) * watch_count t) r path (root_head t r) false t).

(** The loop over all entries that removes those of no root. *)
Fixpoint remove_rootless (fuel i : nat) (removed_any : bool) (t : watch_table) : option (bool * watch_table) :=
  match wt_entries t !! i with
  | None => Some (removed_any, t)
  | Some entry =>
      match fuel with
      | O => None
      | S fuel' =>
          if we_scan_root_index entry <? 0 then remove_rootless fuel' i true (remove_scanner_watch_entry_at i t)
          else remove_rootless fuel' (S i) removed_any t
      end
  end.

(** ** Growing and probing *)
Definition pow2 (n : nat) : Prop := exists k, n = (2 ^ k)%nat.

Lemma pow2_pos n : pow2 n -> (0 < n)%nat.
Proof. intros [k ->]. induction k; simpl; lia. Qed.

Lemma grow_ge fuel c needed : (1 <= c)%nat -> (needed <= c + fuel)%nat -> (needed <= grow fuel c needed /\ c <= grow fuel c needed)%nat.
Proof.
  revert c. induction fuel as [|fuel IH]; intros c Hc Hn; cbn [grow]; [lia|].
  destruct (Nat.ltb_spec c needed); [|lia]. destruct (IH (c * 2)%nat); lia.
Qed.

Lemma grow_pow2 fuel c needed : pow2 c -> pow2 (grow fuel c needed).
Proof.
  revert c. induction fuel as [|fuel IH]; intros c Hc; cbn [grow]; [done|]. case_match; [|done].
  apply IH. destruct Hc as [k ->]. exists (S k). rewrite Nat.pow_succ_r'. lia.
Qed.

Lemma needed_slots_spec n : pow2 (needed_slots n) /\ (16 <= needed_slots n)%nat /\ (n * 2 <= needed_slots n)%nat.
Proof.
  unfold needed_slots. split; [apply grow_pow2; by exists 4%nat|]. destruct (grow_ge (n * 2) 16 (n * 2)); lia.
Qed.

Definition walk (cap s d : nat) : nat := ((s + d) mod cap)%nat.

Lemma land_cap cap z : pow2 cap -> Z.land z (Z.of_nat cap - 1) = z mod Z.of_nat cap.
Proof.
  intros [k ->]. rewrite Nat2Z.inj_pow. change (Z.of_nat 2) with 2.
  replace (2 ^ Z.of_nat k - 1) with (Z.ones (Z.of_nat k)) by (rewrite Z.ones_equiv; lia). apply Z.land_ones. lia.
Qed.

Lemma home_lt cap ident : pow2 cap -> (home cap ident < cap)%nat.
Proof.
  intros Hp. unfold home. rewrite land_cap by done. apply pow2_pos in Hp.
  pose proof (Z.mod_pos_bound (scanner_watch_fd_hash ident) (Z.of_nat cap)). lia.
Qed.

Lemma walk_lt cap s d : (0 < cap)%nat -> (walk cap s d < cap)%nat.
Proof. intros. apply Nat.mod_upper_bound. lia. Qed.

Lemma probe_walk_0 cap s : (s < cap)%nat -> walk cap s 0 = s.
Proof. intros. unfold walk. rewrite Nat.add_0_r. by apply Nat.mod_small. Qed.

Lemma next_probe_walk cap s d : pow2 cap -> next_probe cap (walk cap s d) = walk cap s (S d).
Proof.
  intros Hp. unfold next_probe, walk. rewrite land_cap by done. apply pow2_pos in Hp.
  replace (Z.of_nat ((s + d) mod cap) + 1) with (Z.of_nat (S ((s + d) mod cap))) by lia.
  rewrite <-Nat2Z.inj_mod, Nat2Z.id. replace (s + S d)%nat with (S (s + d)) by lia.
  rewrite <-(Nat.add_1_r ((s + d) mod cap)), <-(Nat.add_1_r (s + d)). apply Nat.Div0.add_mod_idemp_l.
Qed.

Lemma probe_walk_onto cap s z : (s < cap)%nat -> (z < cap)%nat -> exists d, (d < cap)%nat /\ walk cap s d = z.
Proof.
  intros Hs Hz. destruct (decide (s <= z)%nat).
  - exists (z - s)%nat. split; [lia|]. unfold walk. replace (s + (z - s))%nat with z by lia. by apply Nat.mod_small.
  - exists (cap + z - s)%nat. split; [lia|]. unfold walk. replace (s + (cap + z - s))%nat with (z + 1 * cap)%nat by lia.
    rewrite Nat.Div0.mod_add. by apply Nat.mod_small.
Qed.

(** The number of slots in use. *)
Definition used (idx : list (option nat)) : nat := length (omap id idx).

Lemma used_insert idx s i : idx !! s = Some None -> used (<[s := Some i]> idx) = S (used idx).
Proof.
  intros Hs. unfold used. rewrite <-(take_drop_middle idx s None Hs) at 2. rewrite insert_take_drop by (by eapply lookup_lt_Some).
  rewrite !omap_app, !length_app. cbn. lia.
Qed.

Lemma used_le idx : (used idx <= length idx)%nat.
Proof. unfold used. induction idx as [|[i|] idx IH]; cbn in *; lia. Qed.

Lemma used_free idx : (used idx < length idx)%nat -> exists z, idx !! z = Some None.
Proof.
  unfold used. induction idx as [|[i|] idx IH]; cbn in *; [lia| |by exists 0%nat].
  intros Hl. destruct IH as [z Hz]; [lia|]. by exists (S z).
Qed.

Lemma used_empty n : used (replicate n (@None nat)) = 0%nat.
Proof. unfold used. induction n; cbn in *; done. Qed.

(** A slot of an index that is in range. *)
Lemma slot_None idx s : (s < length idx)%nat -> slot_at idx s = None -> idx !! s = Some None.
Proof. unfold slot_at. intros Hs. destruct (idx !! s) as [[i|]|] eqn:E; [done..|]. apply lookup_ge_None in E. lia. Qed.

Lemma free_slot_from fuel idx s d slot : pow2 (length idx) -> free_slot fuel idx (walk (length idx) s d) = Some slot ->
  exists j, slot = walk (length idx) s j /\ (d <= j < d + fuel)%nat /\ idx !! slot = Some None /\
    forall i, (d <= i < j)%nat -> exists x, idx !! walk (length idx) s i = Some (Some x).
Proof.
  intros Hp. pose proof (walk_lt (length idx) s) as Hlt. revert d. induction fuel as [|fuel IH]; intros d; cbn [free_slot]; [done|].
  destruct (slot_at idx (walk (length idx) s d)) as [x|] eqn:E.
  - unfold slot_at in E. rewrite next_probe_walk by done. intros (j & -> & Hj & Hn & Hb)%IH. exists j. split_and!; [done|lia|lia|done|].
    intros i Hi. destruct (decide (i = d)) as [->|]; [|apply Hb; lia].
    destruct (idx !! walk _ s d) as [o|]; simpl in E; [|done]. by exists x; subst o.
  - intros [= <-]. exists d. split_and!; [done|lia|lia| |lia]. apply slot_None; [by apply Hlt, pow2_pos|done].
Qed.

Lemma free_slot_total fuel idx s d j : pow2 (length idx) -> (d <= j < d + fuel)%nat -> idx !! walk (length idx) s j = Some None ->
  exists slot, free_slot fuel idx (walk (length idx) s d) = Some slot.
Proof.
  intros Hp. revert d. induction fuel as [|fuel IH]; intros d Hj Hn; cbn [free_slot]; [lia|].
  destruct (slot_at _ _) eqn:E; [|eauto]. unfold slot_at in E. rewrite next_probe_walk by done. apply IH; [|done].
  destruct (decide (j = d)) as [->|]; [by rewrite Hn in E|lia].
Qed.

(** Index [i] is met by a probe for [ident] before any free slot. *)
Definition reached (idx : list (option nat)) (ident : Z) (i : nat) : Prop :=
  exists d, (d < length idx)%nat /\ idx !! walk (length idx) (home (length idx) ident) d = Some (Some i) /\
    forall j, (j < d)%nat -> exists x, idx !! walk (length idx) (home (length idx) ident) j = Some (Some x).

Lemma insert_index_spec ident i idx : pow2 (length idx) -> (used idx < length idx)%nat ->
  exists slot, insert_scanner_watch_fd_index_entry ident i idx = Some (<[slot := Some i]> idx) /\ idx !! slot = Some None /\
    reached (<[slot := Some i]> idx) ident i.
Proof.
  intros Hp Hu. pose proof (pow2_pos _ Hp) as Hpos. pose proof (home_lt _ ident Hp) as Hh. unfold insert_scanner_watch_fd_index_entry.
  rewrite (proj2 (Nat.eqb_neq _ _)) by lia. destruct (used_free _ Hu) as [z Hz].
  destruct (probe_walk_onto (length idx) (home (length idx) ident) z Hh) as (j & Hj & <-); [by eapply lookup_lt_Some|].
  destruct (free_slot_total (length idx) idx (home (length idx) ident) 0 j) as [slot Hs]; [done|lia|done|]. rewrite probe_walk_0 in Hs by done.
  rewrite Hs. pose proof Hs as Hf. rewrite <-(probe_walk_0 (length idx) (home (length idx) ident)) in Hf by done.
  apply free_slot_from in Hf as (d & -> & Hd & Hn & Hb); [|done]. eexists. split; [done|]. split; [done|].
  exists d. rewrite length_insert. split; [lia|]. split; [apply list_lookup_insert_eq; by eapply lookup_lt_Some|].
  intros k Hk. destruct (Hb k) as [x Hx]; [lia|]. exists x. rewrite list_lookup_insert_ne; [done|]. congruence.
Qed.

Lemma reached_insert idx ident i slot x : idx !! slot = Some None -> reached idx ident i -> reached (<[slot := Some x]> idx) ident i.
Proof.
  intros Hs (d & Hd & Hi & Hb). exists d. rewrite length_insert. split; [done|]. split.
  - rewrite list_lookup_insert_ne; [done|]. congruence.
  - intros j Hj. destruct (Hb j Hj) as [y Hy]. exists y. rewrite list_lookup_insert_ne; [done|]. congruence.
Qed.

(** ** The index against the entries *)
Record index_ok (es : list scanner_watch_entry_t) (idx : list (option nat)) : Prop := {
  io_size : length idx = 0%nat \/ pow2 (length idx);
  io_used : (used idx <= length es)%nat /\ (length idx <> 0%nat -> (used idx < length idx)%nat);
  io_owner : forall s i, idx !! s = Some (Some i) -> exists e, es !! i = Some e /\ we_owns_fd e = true;
  io_reach : forall i e, es !! i = Some e -> we_owns_fd e = true -> reached idx (we_fd e) i;
}.

(** The owners below [n] are in the index. *)
Definition indexed_below (es : list scanner_watch_entry_t) (n : nat) (idx : list (option nat)) : Prop :=
  (used idx <= n)%nat /\ (forall s i, idx !! s = Some (Some i) -> exists e, es !! i = Some e /\ we_owns_fd e = true) /\
  forall i e, (i < n)%nat -> es !! i = Some e -> we_owns_fd e = true -> reached idx (we_fd e) i.

Lemma indexed_step es n idx e slot : indexed_below es n idx -> es !! n = Some e -> we_owns_fd e = true -> idx !! slot = Some None ->
  reached (<[slot := Some n]> idx) (we_fd e) n -> indexed_below es (S n) (<[slot := Some n]> idx).
Proof.
  intros (Hu & Ho & Hr) He Hw Hs Hn. split; [rewrite used_insert by done; lia|]. split.
  - intros s i Hi. apply list_lookup_insert_Some in Hi as [(_ & [= <-] & _)|[_ Hi]]; eauto.
  - intros i e' Hi He' Hw'. destruct (decide (i = n)) as [->|]; [by simplify_eq|]. apply reached_insert; [done|]. apply (Hr i); [lia|done..].
Qed.

Lemma index_owners_spec es pre rest idx : es = pre ++ rest -> pow2 (length idx) -> (length es < length idx)%nat ->
  indexed_below es (length pre) idx ->
  exists idx', index_owners (length pre) rest idx = (true, idx') /\ length idx' = length idx /\ indexed_below es (length es) idx'.
Proof.
  intros Hes Hp Hlen. revert pre idx Hes Hp Hlen. induction rest as [|e rest IH]; intros pre idx -> Hp Hlen Hi; cbn [index_owners].
  { exists idx. rewrite app_nil_r in *. done. }
  assert (He : (pre ++ e :: rest) !! length pre = Some e) by (by rewrite lookup_app_r, Nat.sub_diag by lia).
  assert (Hl1 : length (pre ++ [e]) = S (length pre)) by (rewrite length_app; simpl; lia).
  specialize (IH (pre ++ [e])). rewrite <-app_assoc, Hl1 in IH. cbn [app] in IH.
  destruct (we_owns_fd e) eqn:Hw; cbn [negb].
  - destruct (insert_index_spec (we_fd e) (length pre) idx Hp) as (slot & -> & Hs & Hr).
    { destruct Hi as [Hu _]. rewrite length_app in Hlen. simpl in Hlen. lia. }
    destruct (IH (<[slot := Some (length pre)]> idx)) as (idx' & ? & Hl & ?); [done|by rewrite length_insert..| |].
    { by eapply indexed_step. }
    exists idx'. rewrite length_insert in Hl. done.
  - apply IH; [done..|]. destruct Hi as (Hu & Ho & Hr). split; [lia|]. split; [done|]. intros i e' Hlt He' Hw'.
    destruct (decide (i = length pre)) as [->|]; [congruence|]. apply (Hr i); [lia|done..].
Qed.

Lemma rebuild_index_ok memory count t : (watch_count t <= count)%nat -> (length (wt_index t) = 0%nat \/ pow2 (length (wt_index t))) ->
  let '(ok, t') := rebuild_scanner_watch_fd_index_with_count memory count t in
  wt_entries t' = wt_entries t /\ wt_heads t' = wt_heads t /\ wt_fds t' = wt_fds t /\
  (memory = true -> ok = true) /\ (ok = false -> t' = t) /\
  (ok = true -> index_ok (wt_entries t') (wt_index t') /\ (needed_slots count <= length (wt_index t'))%nat).
Proof.
  intros Hc Hp. unfold rebuild_scanner_watch_fd_index_with_count. destruct (_ && negb memory) eqn:Hm.
  { bool_hyps. subst. by split_and!. }
  destruct (needed_slots_spec count) as (Hn & H16 & H2).
  set (cap := Nat.max _ _). assert (Hcap : pow2 cap).
  { unfold cap. destruct Hp as [Hp|Hp]; [by rewrite Hp|]. by destruct (Nat.max_spec (length (wt_index t)) (needed_slots count)) as [[_ ->]|[_ ->]]. }
  assert (Hle : (needed_slots count <= cap)%nat) by (unfold cap; lia). unfold watch_count in Hc.
  destruct (index_owners_spec (wt_entries t) [] (wt_entries t) (replicate cap None)) as (idx & Hi & Hl & Hb);
    [done|by rewrite length_replicate|rewrite length_replicate; lia| |].
  { split; [by rewrite used_empty|]. split; [|simpl; lia]. intros s i [? _]%lookup_replicate. done. }
  simpl in Hi. rewrite Hi. split_and!; [done..|]. cbn [with_index wt_entries wt_index]. intros _. rewrite length_replicate in Hl. rewrite Hl.
  split; [|done]. destruct Hb as (Hu & Ho & Hr). split; [right; by rewrite Hl|split; [done|lia]|done|].
  intros i e He Hw. by apply (Hr i); [eapply lookup_lt_Some|..].
Qed.

(** Looking up finds an owner, and only the owner, of a descriptor; it ends. *)
Lemma probe_fd_from fuel t ident d z : pow2 (length (wt_index t)) -> (d <= z < d + fuel)%nat ->
  wt_index t !! walk (length (wt_index t)) (home (length (wt_index t)) ident) z = Some None ->
  exists r, probe_fd fuel t ident (walk (length (wt_index t)) (home (length (wt_index t)) ident) d) = Some r /\
    match r with
    | Some i => exists s, wt_index t !! s = Some (Some i) /\ we_fd (entry_at t i) = ident
    | None => exists k, (d <= k)%nat /\ wt_index t !! walk (length (wt_index t)) (home (length (wt_index t)) ident) k = Some None /\
        forall j i, (d <= j < k)%nat -> wt_index t !! walk (length (wt_index t)) (home (length (wt_index t)) ident) j = Some (Some i) ->
          we_fd (entry_at t i) <> ident
    end.
Proof.
  intros Hp. pose proof (walk_lt (length (wt_index t)) (home (length (wt_index t)) ident)) as Hlt. specialize (fun d => Hlt d (pow2_pos _ Hp)).
  revert d. induction fuel as [|fuel IH]; intros d Hz Hn; cbn [probe_fd]; [lia|].
  unfold slot_at. destruct (wt_index t !! walk _ _ d) as [[i|]|] eqn:E; cbn [default from_option id].
  - destruct (Z.eqb_spec (we_fd (entry_at t i)) ident) as [He|He].
    { exists (Some i). split; [done|]. eexists. split; [exact E|exact He]. }
    rewrite next_probe_walk by done. destruct (IH (S d)) as (r & Hr & Hs); [|done|].
    { destruct (decide (z = d)) as [->|]; [congruence|lia]. }
    exists r. split; [done|]. destruct r as [j|]; [done|]. destruct Hs as (k & Hk & Hkn & Hj). exists k. split; [lia|]. split; [done|].
    intros j i' Hjk Hi'. destruct (decide (j = d)) as [->|]; [by simplify_eq|]. apply (Hj j); [lia|done].
  - exists None. split; [done|]. exists d. split; [done|]. split; [done|]. lia.
  - apply lookup_ge_None in E. specialize (Hlt d). lia.
Qed.

Lemma find_by_fd_spec t ident : index_ok (wt_entries t) (wt_index t) ->
  exists r, find_scanner_watch_entry_by_fd t ident = Some r /\
    match r with
    | Some i => exists e, wt_entries t !! i = Some e /\ we_owns_fd e = true /\ we_fd e = ident
    | None => forall e, e ∈ wt_entries t -> we_owns_fd e = true -> we_fd e <> ident
    end.
Proof.
  intros [Hs Hu Ho Hr]. unfold find_scanner_watch_entry_by_fd. destruct (Nat.eqb_spec (length (wt_index t)) 0) as [H0|H0].
  { exists None. split; [done|]. intros e [i He]%list_elem_of_lookup Hw. destruct (Hr i e He Hw) as (d & Hd & _). lia. }
  destruct Hs as [Hs|Hp]; [done|]. destruct (used_free (wt_index t)) as [z Hz]; [by apply Hu|].
  pose proof (home_lt _ ident Hp) as Hh. destruct (probe_walk_onto _ _ z Hh) as (j & Hj & <-); [by eapply lookup_lt_Some|].
  destruct (probe_fd_from (length (wt_index t)) t ident 0 j) as (r & Hf & Hspec); [done|lia|done|]. rewrite probe_walk_0 in Hf by done.
  exists r. split; [done|]. destruct r as [i|].
  - destruct Hspec as (s & Hi & He). destruct (Ho s i Hi) as (e & Hei & Hw). unfold entry_at in He. rewrite Hei in He. by exists e.
  - destruct Hspec as (k & _ & Hk & Hne). intros e [i He]%list_elem_of_lookup Hw Hid. destruct (Hr i e He Hw) as (d & Hd & Hi & Hb).
    rewrite Hid in *. destruct (decide (k <= d)%nat) as [Hkd|Hkd].
    + destruct (decide (k = d)) as [->|]; [congruence|]. destruct (Hb k) as [x Hx]; [lia|congruence].
    + apply (Hne d i); [lia|done|]. unfold entry_at. by rewrite He.
Qed.
