(* ===== verification/ScannerLinks.v ===== *)
(** * The lists of the scan roots in the table of watches

    Lemmas on the doubly linked lists of ScannerWatch.v: linking an entry, unlinking one,
    and moving the last entry into the place of a removed one keep every root's list. *)
From S2P Require Import Prelude CString ConfigState ScannerWatch.
From stdpp Require Import list fin_sets.
Open Scope Z_scope.
Open Scope c_scope.

(** ** The lists of the roots *)

(** The links from [p] through [ls] to [n]. *)
Fixpoint dll (es : list scanner_watch_entry_t) (r : Z) (p : option nat) (ls : list nat) (n : option nat) : Prop :=
  match ls with
  | [] => True
  | i :: ls' =>
      (exists e, es !! i = Some e /\ we_scan_root_index e = r /\ we_prev e = p /\ we_next e = match ls' with j :: _ => Some j | [] => n end) /\
      dll es r (Some i) ls' n
  end.

Definition first (ls : list nat) (n : option nat) : option nat := match ls with i :: _ => Some i | [] => n end.
Definition final (p : option nat) (ls : list nat) : option nat := match last ls with Some i => Some i | None => p end.

Lemma dll_app es r p l1 l2 n : dll es r p (l1 ++ l2) n <-> dll es r p l1 (first l2 n) /\ dll es r (final p l1) l2 n.
Proof.
  revert p. induction l1 as [|i l1 IH]; intros p; cbn [app dll]; [by unfold final; simpl; tauto|].
  rewrite IH. assert (final p (i :: l1) = final (Some i) l1) as -> by (unfold final; rewrite last_cons; by destruct (last l1)).
  destruct l1; simpl; tauto.
Qed.

Lemma dll_entry es r p ls n i : dll es r p ls n -> i ∈ ls -> exists e, es !! i = Some e /\ we_scan_root_index e = r.
Proof.
  revert p. induction ls as [|j ls IH]; intros p; [intros _ Hi; by apply elem_of_nil in Hi|]. intros [(e & He & Hr & _) Hd] [->|Hi]%elem_of_cons; [eauto|].
  by eapply IH.
Qed.

(** The links depend only on the roots and links of the entries in the list. *)
Lemma dll_rename f es es' r p ls n : dll es r p ls n ->
  (forall i e, i ∈ ls -> es !! i = Some e -> we_scan_root_index e = r ->
    exists e', es' !! f i = Some e' /\ we_scan_root_index e' = r /\ we_prev e' = option_map f (we_prev e) /\ we_next e' = option_map f (we_next e)) ->
  dll es' r (option_map f p) (f <$> ls) (option_map f n).
Proof.
  revert p. induction ls as [|i ls IH]; intros p; [done|]. intros [(e & He & Hr & Hp & Hn) Hd] Hf. cbn [fmap list_fmap dll].
  split.
  - destruct (Hf i e) as (e' & He' & Hr' & Hp' & Hn'); [apply elem_of_cons; by left|done..|]. exists e'. split_and!; [done..|by rewrite Hp', Hp|].
    rewrite Hn', Hn. by destruct ls.
  - apply (IH (Some i)); [done|]. intros j e0 Hj. apply Hf. apply elem_of_cons. by right.
Qed.

Lemma dll_frame es es' r p ls n : dll es r p ls n ->
  (forall i e, i ∈ ls -> es !! i = Some e -> we_scan_root_index e = r ->
    exists e', es' !! i = Some e' /\ we_scan_root_index e' = r /\ we_prev e' = we_prev e /\ we_next e' = we_next e) ->
  dll es' r p ls n.
Proof.
  intros Hd Hf. assert (Hid : forall o : option nat, option_map id o = o) by (by intros []).
  pose proof (dll_rename id es es' r p ls n Hd) as H. rewrite !Hid, list_fmap_id in H. apply H. intros i e Hi He Hr.
  destruct (Hf i e Hi He Hr) as (e' & ? & ? & ? & ?). exists e'. by rewrite !Hid.
Qed.

(** In a list without duplicates, [i] precedes [j] exactly when [j] follows [i]. *)
Lemma dll_next es r p ls n i j e : dll es r p ls n -> NoDup ls -> (forall k, p = Some k -> k ∉ ls) -> n = None ->
  i ∈ ls -> es !! i = Some e -> we_next e = Some j -> exists e', j ∈ ls /\ es !! j = Some e' /\ we_prev e' = Some i.
Proof.
  revert p. induction ls as [|k ls IH]; intros p; [intros _ _ _ _ Hi; by apply elem_of_nil in Hi|].
  intros [(ek & Hek & Hr & Hp & Hn) Hd] [Hk Hnd]%NoDup_cons Hpre -> [->|Hi]%elem_of_cons He Hj.
  - simplify_eq. rewrite Hn in Hj. destruct ls as [|j' ls]; [done|]. injection Hj as ->. destruct Hd as [(e' & He' & _ & Hp' & _) _].
    exists e'. split; [apply elem_of_cons; right; apply elem_of_cons; by left|done].
  - destruct (IH (Some k)) as (e' & Hin & ? & ?); [done..| | |done|done|done|].
    + by intros ? [= <-].
    + done.
    + exists e'. split; [apply elem_of_cons; by right|done].
Qed.

Lemma dll_prev es r p ls n i j e : dll es r p ls n -> NoDup ls -> p = None ->
  j ∈ ls -> es !! j = Some e -> we_prev e = Some i -> exists e', i ∈ ls /\ es !! i = Some e' /\ we_next e' = Some j.
Proof.
  intros Hd Hnd -> Hj He Hp. apply list_elem_of_split in Hj as (l1 & l2 & ->). apply dll_app in Hd as [H1 H2].
  destruct H2 as [(e0 & He0 & _ & Hp0 & _) _]. simplify_eq. rewrite Hp0 in Hp. unfold final in Hp.
  destruct (last l1) as [k|] eqn:Hl; [|done]. injection Hp as ->. apply last_Some in Hl as [l0 ->].
  apply dll_app in H1 as [_ [(e' & He' & _ & _ & Hn) _]]. exists e'. split; [apply elem_of_app; left; apply elem_of_app; right; by apply elem_of_cons; left|].
  split; [done|]. by rewrite Hn.
Qed.

Lemma dll_no_self es r ls i e : dll es r None ls None -> NoDup ls -> i ∈ ls -> es !! i = Some e -> we_prev e <> Some i /\ we_next e <> Some i.
Proof.
  intros Hd Hnd Hi He. apply list_elem_of_split in Hi as (l1 & l2 & ->). apply dll_app in Hd as [_ [(e0 & He0 & _ & Hp & Hn) _]].
  simplify_eq. apply NoDup_app in Hnd as (_ & Hdis & [Hi2 _]%NoDup_cons). split.
  - rewrite Hp. unfold final. destruct (last l1) as [k|] eqn:Hl; [|done]. intros [= ->]. apply last_Some_elem_of in Hl.
    apply (Hdis i Hl). apply elem_of_cons. by left.
  - rewrite Hn. destruct l2 as [|j l2]; [done|]. intros [= ->]. apply Hi2. apply elem_of_cons. by left.
Qed.

(** The links of an entry stay in its own list. *)
Lemma dll_own es r ls i j e : dll es r None ls None -> NoDup ls -> i ∈ ls -> es !! i = Some e -> we_prev e = Some j \/ we_next e = Some j ->
  exists e', es !! j = Some e' /\ we_scan_root_index e' = r.
Proof.
  intros Hd Hnd Hi He [Hj|Hj].
  - destruct (dll_prev _ _ _ _ _ _ _ _ Hd Hnd eq_refl Hi He Hj) as (? & ? & _). by eapply dll_entry.
  - destruct (dll_next _ _ _ _ _ _ _ _ Hd Hnd ltac:(done) eq_refl Hi He Hj) as (? & ? & _). by eapply dll_entry.
Qed.

(** The list of root [r]; [gone] is an entry that has left it. *)
Record root_list (t : watch_table) (gone : option nat) (r : Z) (ls : list nat) : Prop := {
  rl_head : root_head t r = first ls None;
  rl_links : dll (wt_entries t) r None ls None;
  rl_nodup : NoDup ls;
  rl_all : forall i e, wt_entries t !! i = Some e -> we_scan_root_index e = r -> gone <> Some i -> i ∈ ls;
  rl_gone : forall i, gone = Some i -> i ∉ ls;
}.

Definition root_range (r : Z) : Prop := 0 <= r < Z.of_nat MAX_SCAN_PATHS.

(** Every root has its list, and the entries of no root have no links. *)
Record links_ok (t : watch_table) (gone : option nat) : Prop := {
  lo_heads : length (wt_heads t) = MAX_SCAN_PATHS;
  lo_roots : forall i e, wt_entries t !! i = Some e -> -1 <= we_scan_root_index e < Z.of_nat MAX_SCAN_PATHS;
  lo_lists : forall r, root_range r -> exists ls, root_list t gone r ls;
}.

(** The fields of an entry that are not links. *)
Record subscription := Subscription {
  sb_fd : Z; sb_owns_fd : bool; sb_fd_shareable : bool; sb_root : Z; sb_depth : Z; sb_kind : scanner_watch_kind_t; sb_path : string;
}.
Definition core (e : scanner_watch_entry_t) : subscription :=
  Subscription (we_fd e) (we_owns_fd e) (we_fd_shareable e) (we_scan_root_index e) (we_depth e) (we_kind e) (we_path e).
Definition subscriptions (t : watch_table) : list subscription := core <$> wt_entries t.

Lemma core_alter f (i : nat) (es : list scanner_watch_entry_t) : (forall e, core (f e) = core e) -> core <$> alter f i es = core <$> es.
Proof.
  intros Hf. revert i. induction es as [|e es IH]; intros [|i]; cbn; [done..|by rewrite Hf|]. f_equal. apply IH.
Qed.

Lemma core_set_at f i es : (forall e, core (f e) = core e) -> core <$> set_at i f es = core <$> es.
Proof. intros Hf. destruct i; [by apply core_alter|done]. Qed.

Lemma head_set_eq t r i : length (wt_heads t) = MAX_SCAN_PATHS -> root_range r -> root_head (set_head r i t) r = i.
Proof.
  intros Hl [? ?]. unfold root_head, set_head. cbn [with_heads wt_heads]. rewrite list_lookup_insert_eq; [done|]. rewrite Hl. lia.
Qed.

Lemma head_set_ne t r r' i : root_range r -> root_range r' -> r <> r' -> root_head (set_head r i t) r' = root_head t r'.
Proof. intros [? ?] [? ?] Hne. unfold root_head, set_head. cbn [with_heads wt_heads]. rewrite list_lookup_insert_ne; [done|]. lia. Qed.

(** A change of the entries that leaves alone the roots, and the links outside one list. *)
Definition keeps_roots (es es' : list scanner_watch_entry_t) : Prop :=
  forall i, option_map we_scan_root_index (es' !! i) = option_map we_scan_root_index (es !! i).

Lemma keeps_roots_back es es' i e' : keeps_roots es es' -> es' !! i = Some e' -> exists e, es !! i = Some e /\ we_scan_root_index e = we_scan_root_index e'.
Proof. intros Hk He. specialize (Hk i). rewrite He in Hk. destruct (es !! i) as [e|]; [|done]. exists e. split; [done|]. by injection Hk. Qed.

Lemma alter_cases (f : scanner_watch_entry_t -> scanner_watch_entry_t) (i : nat) (es : list scanner_watch_entry_t) j : alter f i es !! j = (if decide (i = j) then f <$> es !! j else es !! j).
Proof. case_decide as Hd; [subst; apply list_lookup_alter_eq|by apply list_lookup_alter_ne]. Qed.

Lemma set_at_cases f o es j : set_at o f es !! j = (if decide (o = Some j) then f <$> es !! j else es !! j).
Proof.
  destruct o as [i|]; cbn [set_at]; [|done]. rewrite alter_cases. destruct (decide (i = j)), (decide (Some i = Some j)); congruence.
Qed.

(** The list of another root is not touched. *)
Lemma root_list_other t t' gone gone' r ls : root_list t gone r ls ->
  root_head t' r = root_head t r -> keeps_roots (wt_entries t) (wt_entries t') ->
  (forall i e e', wt_entries t !! i = Some e -> wt_entries t' !! i = Some e' -> we_scan_root_index e = r ->
    we_prev e' = we_prev e /\ we_next e' = we_next e) ->
  (forall i e, wt_entries t !! i = Some e -> we_scan_root_index e = r -> gone <> Some i /\ gone' <> Some i) ->
  root_list t' gone' r ls.
Proof.
  intros [Hh Hd Hnd Hall Hg] Hh' Hk Hl Hne. split.
  - by rewrite Hh'.
  - eapply dll_frame; [done|]. intros i e Hi He Hr. pose proof (Hk i) as Hki. rewrite He in Hki.
    destruct (wt_entries t' !! i) as [e'|] eqn:He'; [|done]. injection Hki as Hki. exists e'. rewrite Hki. destruct (Hl i e e') as [? ?]; done.
  - done.
  - intros i e' He' Hr _. destruct (keeps_roots_back _ _ _ _ Hk He') as (e & He & Hr'). apply (Hall i e); [done|congruence|].
    destruct (Hne i e); [done|congruence|done].
  - intros i Hi Hin. destruct (dll_entry _ _ _ _ _ _ Hd Hin) as (e & He & Hr). by destruct (Hne i e He Hr).
Qed.

Lemma dll_set_first es es' r p p' ls n : dll es r p ls n -> NoDup ls ->
  (forall i e, i ∈ ls -> es !! i = Some e -> exists e', es' !! i = Some e' /\ we_scan_root_index e' = we_scan_root_index e /\
    we_next e' = we_next e /\ we_prev e' = (if decide (first ls None = Some i) then p' else we_prev e)) ->
  dll es' r p' ls n.
Proof.
  destruct ls as [|i ls]; [done|]. intros [(e & He & Hr & Hp & Hn) Hd] [Hi Hnd]%NoDup_cons Hf. split.
  - destruct (Hf i e) as (e' & ? & Hr' & Hn' & Hp'); [apply elem_of_cons; by left|done|]. exists e'. cbn [first] in Hp'. rewrite decide_True in Hp' by done.
    split_and!; [done|congruence|done|congruence].
  - eapply dll_frame; [done|]. intros j e0 Hj He0 Hr0. destruct (Hf j e0) as (e' & ? & ? & ? & Hp'); [apply elem_of_cons; by right|done|].
    cbn [first] in Hp'. rewrite decide_False in Hp' by congruence. exists e'. split_and!; [done|congruence|done|done].
Qed.

Lemma dll_set_final es es' r p ls n n' : dll es r p ls n -> NoDup ls ->
  (forall i e, i ∈ ls -> es !! i = Some e -> exists e', es' !! i = Some e' /\ we_scan_root_index e' = we_scan_root_index e /\
    we_prev e' = we_prev e /\ we_next e' = (if decide (last ls = Some i) then n' else we_next e)) ->
  dll es' r p ls n'.
Proof.
  destruct ls as [|i ls _] using rev_ind; [done|]. intros Hd (Hnd & Hi & _)%NoDup_app Hf. rewrite last_snoc in Hf.
  apply dll_app in Hd as [Hd1 Hd2]. apply dll_app. cbn [first dll] in *. destruct Hd2 as [(e & He & Hr & Hp & Hn) _].
  assert (Hni : forall j, j ∈ ls -> j <> i) by (intros j Hj ->; apply (Hi i Hj); by apply elem_of_cons; left). split.
  - eapply dll_frame; [done|]. intros j e0 Hj He0 Hr0. destruct (Hf j e0) as (e' & ? & ? & ? & Hn'); [apply elem_of_app; by left|done|].
    rewrite decide_False in Hn' by (intros [= Hx]; by destruct (Hni j Hj)). exists e'. split_and!; [done|congruence|done|done].
  - split; [|done]. destruct (Hf i e) as (e' & ? & Hr' & Hp' & Hn'); [apply elem_of_app; right; by apply elem_of_cons; left|done|].
    rewrite decide_True in Hn' by done. exists e'. split_and!; [done|congruence|congruence|done].
Qed.

(** The entry of a new subscription is not yet in a list. *)
Lemma links_append t e : links_ok t None -> -1 <= we_scan_root_index e < Z.of_nat MAX_SCAN_PATHS ->
  links_ok (with_entries (wt_entries t ++ [e]) t) (Some (watch_count t)).
Proof.
  intros [Hh Hr Hls] He. split; [done| |].
  - intros i e' Hi. cbn [with_entries wt_entries] in Hi. apply lookup_app_Some in Hi as [Hi|[_ Hi]]; [eauto|].
    apply list_lookup_singleton_Some in Hi as [_ <-]. done.
  - intros r Hrr. destruct (Hls r Hrr) as [ls [H1 H2 H3 H4 _]]. exists ls. split; [done| |done| |].
    + eapply dll_frame; [done|]. intros i e' _ Hi Hre. exists e'. split; [|done]. cbn [with_entries wt_entries]. by apply lookup_app_l_Some.
    + intros i e' Hi Hre Hne. cbn [with_entries wt_entries] in Hi. apply lookup_app_Some in Hi as [Hi|[Hle Hi]]; [by apply (H4 i e')|].
      apply list_lookup_singleton_Some in Hi as [Hi _]. destruct Hne. f_equal. unfold watch_count. lia.
    + intros i [= <-] Hin. destruct (dll_entry _ _ _ _ _ _ H2 Hin) as (e' & Hi & _). apply lookup_lt_Some in Hi. unfold watch_count in Hi. lia.
Qed.

Lemma links_gone_rootless t i e : links_ok t (Some i) -> wt_entries t !! i = Some e -> we_scan_root_index e < 0 -> links_ok t None.
Proof.
  intros [Hh Hr Hls] He Hn. split; [done|done|]. intros r Hrr. destruct (Hls r Hrr) as [ls [H1 H2 H3 H4 H5]]. exists ls. split; [done..| |done].
  intros j e' Hj Hre _. apply (H4 j e'); [done..|]. intros [= ->]. destruct Hrr. simplify_eq. lia.
Qed.

Lemma links_rootless_gone t i e : links_ok t None -> wt_entries t !! i = Some e -> we_scan_root_index e < 0 -> links_ok t (Some i).
Proof.
  intros [Hh Hr Hls] He Hn. split; [done|done|]. intros r Hrr. destruct (Hls r Hrr) as [ls [H1 H2 H3 H4 H5]]. exists ls. split; [done..| |].
  - intros j e' Hj Hre _. by apply (H4 j e').
  - intros j [= <-] Hin. destruct (dll_entry _ _ _ _ _ _ H2 Hin) as (e' & Hj & Hre). destruct Hrr. simplify_eq. lia.
Qed.

Lemma first_elem ls i : first ls None = Some i -> i ∈ ls.
Proof. destruct ls; [done|]. intros [= ->]. by apply elem_of_cons; left. Qed.

Lemma link_fields index t : wt_fds (link_scanner_watch_entry_to_root index t) = wt_fds t /\ wt_index (link_scanner_watch_entry_to_root index t) = wt_index t /\
  wt_capacity (link_scanner_watch_entry_to_root index t) = wt_capacity t /\ subscriptions (link_scanner_watch_entry_to_root index t) = subscriptions t.
Proof.
  unfold link_scanner_watch_entry_to_root. destruct (wt_entries t !! index) as [e|]; [|done]. destruct (_ <? 0); [done|].
  split_and!; [done..|]. unfold subscriptions. cbn [set_head with_heads with_entries wt_entries]. rewrite core_set_at by done. by rewrite core_alter.
Qed.

Lemma links_link index t e : links_ok t (Some index) -> wt_entries t !! index = Some e -> links_ok (link_scanner_watch_entry_to_root index t) None.
Proof.
  intros Hok He. unfold link_scanner_watch_entry_to_root. rewrite He. set (r := we_scan_root_index e).
  destruct (Z.ltb_spec r 0); [by eapply links_gone_rootless|]. destruct Hok as [Hh Hr Hls].
  assert (Hrr : root_range r) by (unfold root_range, r in *; specialize (Hr index e He); lia).
  destruct (Hls r Hrr) as [ls [H1 H2 H3 H4 H5]]. specialize (H5 index eq_refl).
  set (t' := set_head _ _ _).
  assert (Hlk : forall i, wt_entries t' !! i = (if decide (root_head t r = Some i) then set_prev (Some index) <$> (if decide (index = i) then (fun e => set_next (root_head t r) (set_prev None e)) <$> wt_entries t !! i else wt_entries t !! i)
    else if decide (index = i) then (fun e => set_next (root_head t r) (set_prev None e)) <$> wt_entries t !! i else wt_entries t !! i)).
  { intros i. unfold t'. cbn [set_head with_heads with_entries wt_entries]. rewrite set_at_cases, alter_cases. done. }
  assert (Hhd : forall i, root_head t r = Some i -> i ∈ ls) by (intros i Hi; apply first_elem; congruence).
  assert (Hk : keeps_roots (wt_entries t) (wt_entries t')).
  { intros i. rewrite Hlk. repeat case_decide; by destruct (wt_entries t !! i). }
  split; [unfold t'; cbn; by rewrite length_insert| |].
  { intros i e' Hi. destruct (keeps_roots_back _ _ _ _ Hk Hi) as (e0 & ? & <-). eauto. }
  intros r' Hrr'. destruct (decide (r' = r)) as [->|Hne].
  - exists (index :: ls). split.
    + unfold t'. by rewrite head_set_eq.
    + split.
      * exists (set_next (root_head t r) (set_prev None e)). split; [|by destruct ls].
        rewrite Hlk, decide_False by (intros ?; by apply H5, Hhd). by rewrite decide_True, He.
      * eapply dll_set_first; [done..|]. intros i e0 Hi He0. rewrite Hlk, He0.
        assert (index <> i) by (by intros ->). rewrite !(decide_False (P := index = i)) by done. rewrite <-H1.
        destruct (decide _); by eexists.
    + by apply NoDup_cons.
    + intros i e' Hi Hre _. destruct (decide (i = index)) as [->|Hni]; [by apply elem_of_cons; left|]. apply elem_of_cons; right.
      destruct (keeps_roots_back _ _ _ _ Hk Hi) as (e0 & ? & ?). apply (H4 i e0); [done|congruence|]. by intros [= ->].
    + done.
  - destruct (Hls r' Hrr') as [ls' Hl']. exists ls'. eapply root_list_other; [done| |done| |].
    + unfold t'. by rewrite head_set_ne by done.
    + intros i e0 e' He0 He' Hre. rewrite Hlk, He0 in He'.
      rewrite decide_False in He' by (intros Hi; apply Hhd in Hi; destruct (dll_entry _ _ _ _ _ _ H2 Hi) as (? & ? & ?); congruence).
      rewrite decide_False in He' by (intros <-; apply Hne; unfold r; congruence). by simplify_eq.
    + intros i e0 He0 Hre. split; [|done]. intros [= ->]. apply Hne. unfold r. congruence.
Qed.

Lemma unlink_fields index t : wt_fds (unlink_scanner_watch_entry_from_root index t) = wt_fds t /\ wt_index (unlink_scanner_watch_entry_from_root index t) = wt_index t /\
  wt_capacity (unlink_scanner_watch_entry_from_root index t) = wt_capacity t /\ subscriptions (unlink_scanner_watch_entry_from_root index t) = subscriptions t.
Proof.
  unfold unlink_scanner_watch_entry_from_root. destruct (wt_entries t !! index) as [e|]; [|done]. destruct (_ <? 0); [done|].
  unfold subscriptions. destruct (we_prev e); (split_and!; [done..|]); cbn [set_head with_heads with_entries wt_entries];
    rewrite core_alter by done; rewrite core_set_at by done; by rewrite ?core_alter by done.
Qed.

Section unlink.
Context (index : nat) (t : watch_table) (e : scanner_watch_entry_t) (l1 l2 : list nat).
Context (He : wt_entries t !! index = Some e) (Hr0 : 0 <= we_scan_root_index e).
Context (Hl : root_list t None (we_scan_root_index e) (l1 ++ index :: l2)).
Abbreviation r := (we_scan_root_index e).
Abbreviation t' := (unlink_scanner_watch_entry_from_root index t).

Lemma unlink_split : we_prev e = last l1 /\ we_next e = first l2 None /\ (index ∉ l1) /\ (index ∉ l2) /\ NoDup l1 /\ NoDup l2 /\ (forall i, i ∈ l1 -> i ∉ l2) /\
  dll (wt_entries t) r None l1 (Some index) /\ dll (wt_entries t) r (Some index) l2 None.
Proof.
  destruct Hl as [H1 H2 H3 H4 _]. apply dll_app in H2 as [Hd1 [(e0 & He0 & _ & Hp & Hn) Hd2]]. rewrite He in He0. injection He0 as <-.
  apply NoDup_app in H3 as (Hn1 & Hdis & [Hi2 Hn2]%NoDup_cons). split; [rewrite Hp; unfold final; by destruct (last l1)|]. split_and!; try done.
  - intros Hi. apply (Hdis index Hi). apply elem_of_cons. by left.
  - intros i Hi1 Hi2'. apply (Hdis i Hi1). apply elem_of_cons. by right.
Qed.

Lemma unlink_lookup i : wt_entries t' !! i =
  if decide (index = i) then (fun e => set_next None (set_prev None e)) <$> wt_entries t !! i
  else if decide (first l2 None = Some i) then set_prev (last l1) <$> wt_entries t !! i
  else if decide (last l1 = Some i) then set_next (first l2 None) <$> wt_entries t !! i else wt_entries t !! i.
Proof.
  destruct unlink_split as (Hp' & Hn' & Hi1 & Hi2 & _ & _ & Hd12 & _). unfold unlink_scanner_watch_entry_from_root. rewrite He.
  rewrite (proj2 (Z.ltb_ge _ _)) by done. cbn [with_entries wt_entries]. rewrite alter_cases, set_at_cases, Hn', Hp'.
  assert (Hx : last l1 = Some i -> i ∈ l1 /\ i <> index) by (intros Hj%last_Some_elem_of; split; [done|by intros ->]).
  assert (Hy : first l2 None = Some i -> i ∈ l2 /\ i <> index) by (intros Hj%first_elem; split; [done|by intros ->]).
  assert (Hm : wt_entries (match last l1 with Some p => with_entries (alter (set_next (first l2 None)) p (wt_entries t)) t | None => set_head r (first l2 None) t end) !! i =
    if decide (last l1 = Some i) then set_next (first l2 None) <$> wt_entries t !! i else wt_entries t !! i).
  { destruct (last l1) as [j|] eqn:Hlast; [|by rewrite decide_False]. cbn [with_entries wt_entries]. rewrite alter_cases.
    destruct (decide (j = i)), (decide (Some j = Some i)); congruence. }
  rewrite Hm. destruct (decide (index = i)) as [->|Hni].
  { rewrite decide_False by (by intros [_ ?]%Hy). by rewrite decide_False by (by intros [_ ?]%Hx). }
  destruct (decide (first l2 None = Some i)) as [Hf|]; [|done]. rewrite decide_False; [done|].
  intros [Hl1 _]%Hx. apply Hy in Hf as [Hf _]. by apply (Hd12 i).
Qed.

Lemma unlink_keeps_roots : keeps_roots (wt_entries t) (wt_entries t').
Proof. intros i. rewrite unlink_lookup. repeat case_decide; by destruct (wt_entries t !! i). Qed.

Lemma unlink_heads : wt_heads t' = match last l1 with Some _ => wt_heads t | None => wt_heads (set_head r (first l2 None) t) end.
Proof.
  destruct unlink_split as (Hp' & Hn' & _). unfold unlink_scanner_watch_entry_from_root. rewrite He, (proj2 (Z.ltb_ge _ _)) by done.
  cbn [with_entries wt_heads]. rewrite Hp', Hn'. by destruct (last l1).
Qed.

(** The list of the root itself. *)
Lemma unlink_own : length (wt_heads t) = MAX_SCAN_PATHS -> root_range r -> root_list t' (Some index) r (l1 ++ l2).
Proof.
  intros Hh Hrr. destruct unlink_split as (_ & _ & Hi1 & Hi2 & Hn1 & Hn2 & Hd12 & Hd1 & Hd2). destruct Hl as [H1 _ _ H4 _]. split.
  - unfold root_head. rewrite unlink_heads. destruct l1 as [|j l]; [by apply head_set_eq|]. rewrite last_cons.
    replace (match match last l with Some y => Some y | None => Some j end with Some _ => _ | None => _ end) with (wt_heads t) by (by destruct (last l)). exact H1.
  - apply dll_app. split.
    + eapply dll_set_final; [done..|]. intros i e0 Hi He0. rewrite unlink_lookup, He0. rewrite (decide_False (P := index = i)) by (by intros ->).
      rewrite (decide_False (P := first l2 None = Some i)) by (intros Hf%first_elem; by apply (Hd12 i)). destruct (decide _); by eexists.
    + eapply dll_set_first; [done..|]. intros i e0 Hi He0. rewrite unlink_lookup, He0. rewrite (decide_False (P := index = i)) by (by intros ->).
      destruct (decide (first l2 None = Some i)); [eexists; split_and!; [done..|]; unfold final; cbn; by destruct (last l1)|].
      rewrite decide_False by (intros Hlast%last_Some_elem_of; by apply (Hd12 i)). by eexists.
  - by apply NoDup_app.
  - intros i e' Hi Hre Hni. destruct (keeps_roots_back _ _ _ _ unlink_keeps_roots Hi) as (e0 & ? & ?).
    assert (i ∈ l1 ++ index :: l2) as [?|[->|?]%elem_of_cons]%elem_of_app by (apply (H4 i e0); [done|congruence|done]); apply elem_of_app; tauto.
  - intros i [= <-] [?|?]%elem_of_app; done.
Qed.

Lemma unlink_other r' ls : root_range r -> root_range r' -> r' <> r -> root_list t None r' ls -> root_list t' (Some index) r' ls.
Proof.
  intros Hrr Hrr' Hne Hl'. assert (Hout : forall i e0, wt_entries t !! i = Some e0 -> we_scan_root_index e0 = r' -> i ∉ l1 ++ index :: l2).
  { intros i e0 Hi Hre Hin. destruct (dll_entry _ _ _ _ _ _ (rl_links _ _ _ _ Hl) Hin) as (e1 & ? & ?). apply Hne. congruence. }
  eapply root_list_other; [done| |apply unlink_keeps_roots| |].
  - unfold root_head. rewrite unlink_heads. destruct (last l1); [done|]. by apply head_set_ne.
  - intros i e0 e' He0 He' Hre. specialize (Hout i e0 He0 Hre). rewrite unlink_lookup, He0 in He'.
    rewrite decide_False in He' by (intros <-; apply Hout, elem_of_app; right; apply elem_of_cons; by left).
    rewrite decide_False in He' by (intros Hf%first_elem; apply Hout, elem_of_app; right; apply elem_of_cons; by right).
    rewrite decide_False in He' by (intros Hf%last_Some_elem_of; apply Hout, elem_of_app; by left). by simplify_eq.
  - intros i e0 He0 Hre. specialize (Hout i e0 He0 Hre). split; [done|]. intros [= ->]. apply Hout, elem_of_app. right. apply elem_of_cons. by left.
Qed.
End unlink.

Lemma links_unlink index t e : links_ok t None -> wt_entries t !! index = Some e -> links_ok (unlink_scanner_watch_entry_from_root index t) (Some index).
Proof.
  intros Hok He. destruct (Z.ltb_spec (we_scan_root_index e) 0) as [Hneg|Hr0].
  { unfold unlink_scanner_watch_entry_from_root. rewrite He, (proj2 (Z.ltb_lt _ _)) by done. by eapply links_rootless_gone. }
  destruct Hok as [Hh Hr Hls]. assert (Hrr : root_range (we_scan_root_index e)) by (unfold root_range; specialize (Hr index e He); lia).
  destruct (Hls _ Hrr) as [ls Hl]. pose proof (rl_all _ _ _ _ Hl index e He eq_refl ltac:(done)) as Hin. apply list_elem_of_split in Hin as (l1 & l2 & ->). split.
  - rewrite (unlink_heads index t e l1 l2) by done. destruct (last l1); [done|]. cbn. by rewrite length_insert.
  - intros i e' Hi. destruct (keeps_roots_back _ _ _ _ (unlink_keeps_roots index t e l1 l2 He Hr0 Hl) Hi) as (e0 & ? & <-). eauto.
  - intros r' Hrr'. destruct (decide (r' = we_scan_root_index e)) as [->|Hne]; [exists (l1 ++ l2); by apply unlink_own|].
    destruct (Hls r' Hrr') as [ls' Hl']. exists ls'. by eapply unlink_other.
Qed.

Definition drop_last (t : watch_table) : watch_table := with_entries (take (watch_count t - 1) (wt_entries t)) t.

Lemma lookup_take_cases (es : list scanner_watch_entry_t) n i e : take n es !! i = Some e -> es !! i = Some e /\ (i < n)%nat.
Proof. intros [? ?]%lookup_take_Some. done. Qed.

(** Nothing is to be moved when the last entry is the one that goes. *)
Lemma links_drop_last t : links_ok t (Some (watch_count t - 1)%nat) -> links_ok (drop_last t) None.
Proof.
  intros [Hh Hr Hls]. split; [done| |].
  - intros i e [Hi _]%lookup_take_cases. eauto.
  - intros r Hrr. destruct (Hls r Hrr) as [ls [H1 H2 H3 H4 H5]]. exists ls. specialize (H5 _ eq_refl). split; [done| |done| |done].
    + eapply dll_frame; [done|]. intros i e Hi He Hre. exists e. split; [|done]. cbn [drop_last with_entries wt_entries]. apply lookup_take_Some. split; [done|].
      pose proof (lookup_lt_Some _ _ _ He). unfold watch_count in *. assert (i <> (length (wt_entries t) - 1)%nat) by (by intros ->). lia.
    + intros i e [Hi Hlt]%lookup_take_cases Hre _. apply (H4 i e); [done..|]. intros [= <-]. lia.
Qed.

(** What the last entry leaves behind is updated to its new place. *)
Definition moved (last index : nat) (i : nat) : nat := if decide (i = last) then index else i.

Definition move_last (index : nat) (t : watch_table) : watch_table :=
  let last_index := (watch_count t - 1)%nat in
  rebind_scanner_watch_entry_root_index last_index index (with_entries (<[index := entry_at t last_index]> (wt_entries t)) t).

Lemma move_fields index t : wt_fds (move_last index t) = wt_fds t /\ wt_index (move_last index t) = wt_index t /\
  wt_capacity (move_last index t) = wt_capacity t /\ subscriptions (move_last index t) = <[index := core (entry_at t (watch_count t - 1))]> (subscriptions t).
Proof.
  unfold move_last, rebind_scanner_watch_entry_root_index. cbn [with_entries wt_entries]. destruct (_ !! index) as [e|].
  - destruct (_ <? 0); [unfold subscriptions; cbn [with_entries wt_entries]; by rewrite list_fmap_insert|].
    unfold subscriptions. destruct (decide _); (split_and!; [done..|]); cbn [set_head with_heads with_entries wt_entries];
      rewrite !core_set_at by done; by rewrite list_fmap_insert.
  - unfold subscriptions; cbn [with_entries wt_entries]; by rewrite list_fmap_insert.
Qed.

Section move.
Context (index : nat) (t : watch_table) (e : scanner_watch_entry_t).
Context (Hlt : (index < watch_count t - 1)%nat) (He : wt_entries t !! (watch_count t - 1)%nat = Some e).
Abbreviation last := (watch_count t - 1)%nat.
Abbreviation r := (we_scan_root_index e).
Abbreviation placed i := (if decide (i = index) then Some e else wt_entries t !! i).

Lemma placed_lookup i : <[index := e]> (wt_entries t) !! i = placed i.
Proof.
  case_decide as Hd; [subst; apply list_lookup_insert_eq; unfold watch_count in *; lia|by apply list_lookup_insert_ne].
Qed.

(** The links of the moved entry lead to the entries that are corrected. *)
Lemma move_lookup i : wt_entries (move_last index t) !! i =
  if r <? 0 then placed i else
  (fun e0 => (if decide (we_next e = Some i) then set_prev (Some index) else id) ((if decide (we_prev e = Some i) then set_next (Some index) else id) e0)) <$> placed i.
Proof.
  unfold move_last, rebind_scanner_watch_entry_root_index, entry_at. rewrite He. cbn [with_entries wt_entries default from_option].
  change (id e) with e. rewrite placed_lookup, decide_True by done. destruct (r <? 0); [apply placed_lookup|]. cbn [with_entries wt_entries].
  rewrite !set_at_cases. destruct (decide (root_head _ _ = _)); cbn [set_head with_heads with_entries wt_entries]; rewrite placed_lookup;
    destruct (decide (we_next e = Some i)), (decide (we_prev e = Some i)); by destruct (placed i).
Qed.

Lemma move_heads r' : root_range r' -> length (wt_heads t) = MAX_SCAN_PATHS -> r < Z.of_nat MAX_SCAN_PATHS -> (root_head t r' = Some last -> r' = r) ->
  length (wt_heads (move_last index t)) = MAX_SCAN_PATHS /\ root_head (move_last index t) r' = option_map (moved last index) (root_head t r').
Proof.
  intros Hrr Hl Hr Hlast. unfold move_last, rebind_scanner_watch_entry_root_index, entry_at. rewrite He. cbn [with_entries wt_entries default from_option].
  change (id e) with e. rewrite placed_lookup, decide_True by done.
  assert (Hno : root_head t r' <> Some last -> root_head t r' = option_map (moved last index) (root_head t r')).
  { intros Hn. destruct (root_head t r') as [i|]; [|done]. cbn. unfold moved. rewrite decide_False; [done|congruence]. }
  destruct (Z.ltb_spec r 0) as [Hr0|Hr0].
  { split; [done|]. apply Hno. intros ->%Hlast. unfold root_range in Hrr. lia. }
  change (root_head (with_entries _ t) r) with (root_head t r). destruct (decide (root_head t r = Some last)) as [Hh|Hh].
  - split; [cbn; by rewrite length_insert|]. change (root_head (set_head r (Some index) t) r' = option_map (moved last index) (root_head t r')).
    destruct (decide (r' = r)) as [->|Hn]; [rewrite head_set_eq, Hh by done; cbn; unfold moved; by rewrite decide_True|].
    rewrite head_set_ne by (done || unfold root_range; lia). apply Hno. by intros ?%Hlast.
  - split; [done|]. change (root_head t r' = option_map (moved last index) (root_head t r')). apply Hno. intros Hh'. pose proof (Hlast Hh') as ->. done.
Qed.

Lemma other_root_link ls0 i e0 : root_list t (Some index) r ls0 -> wt_entries t !! i = Some e0 -> we_scan_root_index e0 <> r ->
  we_prev e <> Some i /\ we_next e <> Some i.
Proof.
  intros [H1 H2 H3 H4 H5] He0 Hn. assert (Hin : last ∈ ls0) by (apply (H4 last e); [done..|intros [= Hx]; lia]).
  split; intros Hx; destruct (dll_own _ _ _ _ i _ H2 H3 Hin He) as (e1 & ? & ?); auto; congruence.
Qed.

Lemma moved_link (o : option nat) : option_map (moved last index) o = if decide (o = Some last) then Some index else o.
Proof. destruct o as [k|]; [|done]. cbn. unfold moved. destruct (decide (k = last)), (decide (Some k = Some last)); congruence. Qed.

(** The links of every entry of a list follow the move. *)
Lemma move_entry r' ls ls0 i e0 : (0 <= r -> root_list t (Some index) r ls0) -> root_list t (Some index) r' ls -> 0 <= r' -> i ∈ ls -> wt_entries t !! i = Some e0 -> we_scan_root_index e0 = r' ->
  exists e', wt_entries (move_last index t) !! moved last index i = Some e' /\ we_scan_root_index e' = r' /\
    we_prev e' = option_map (moved last index) (we_prev e0) /\ we_next e' = option_map (moved last index) (we_next e0).
Proof.
  intros Hls0 [H1 H2 H3 H4 H5] Hr' Hi He0 Hre. specialize (H5 _ eq_refl).
  assert (Hlast : forall j e1, wt_entries t !! j = Some e1 -> we_scan_root_index e1 = r' -> j <> index -> j ∈ ls) by (intros; eapply H4; [done..|congruence]).
  assert (Hnext : forall i j e1, i ∈ ls -> wt_entries t !! i = Some e1 -> we_next e1 = Some j -> exists e2, j ∈ ls /\ wt_entries t !! j = Some e2 /\ we_prev e2 = Some i) by (intros; by eapply dll_next).
  assert (Hprev : forall i j e1, j ∈ ls -> wt_entries t !! j = Some e1 -> we_prev e1 = Some i -> exists e2, i ∈ ls /\ wt_entries t !! i = Some e2 /\ we_next e2 = Some j) by (intros; by eapply dll_prev).
  rewrite move_lookup. destruct (decide (i = last)) as [->|Hil].
  - replace (moved last index last) with index by (unfold moved; by rewrite decide_True). rewrite He in He0. injection He0 as <-. rewrite Hre. destruct (Z.ltb_spec r' 0); [lia|].
    rewrite (decide_True (P := index = index)) by done.
    destruct (dll_no_self _ _ _ _ _ H2 H3 Hi He) as [Hp Hn].
    assert (Hp' : we_prev e <> Some index) by (intros (? & ? & _)%(Hprev _ _ _ Hi He); done).
    assert (Hn' : we_next e <> Some index) by (intros (? & ? & _)%(Hnext _ _ _ Hi He); done).
    rewrite !decide_False by done. exists e. rewrite !moved_link, !decide_False by done. done.
  - replace (moved last index i) with i by (unfold moved; by rewrite decide_False). assert (i <> index) by (by intros ->). rewrite (decide_False (P := i = index)) by done. rewrite He0. cbn [fmap option_fmap option_map].
    destruct (decide (r' = r)) as [Hrr|Hrr].
    + destruct (Z.ltb_spec r 0); [lia|]. assert (Hll : last ∈ ls) by (apply (Hlast last e); [done..|lia]). eexists. split; [done|].
      assert (Hpn : we_prev e = Some i <-> we_next e0 = Some last).
      { split; [intros (? & ? & ? & ?)%(Hprev _ _ _ Hll He)|intros (? & ? & ? & ?)%(Hnext _ _ _ Hi He0)]; congruence. }
      assert (Hnp : we_next e = Some i <-> we_prev e0 = Some last).
      { split; [intros (? & ? & ? & ?)%(Hnext _ _ _ Hll He)|intros (? & ? & ? & ?)%(Hprev _ _ _ Hi He0)]; congruence. }
      split_and!; [by repeat case_decide| |].
      * rewrite (moved_link (we_prev e0)), <-(decide_ext _ _ _ _ Hnp). by repeat case_decide.
      * rewrite (moved_link (we_next e0)), <-(decide_ext _ _ _ _ Hpn). by repeat case_decide.
    + assert (Hll : last ∉ ls) by (intros Hll; destruct (dll_entry _ _ _ _ _ _ H2 Hll) as (e1 & ? & ?); simplify_eq).
      assert (Hi0 : 0 <= r -> we_prev e <> Some i /\ we_next e <> Some i) by (intros Hr0; apply (other_root_link ls0 i e0); [auto|done|congruence]).
      assert (Hpl : we_prev e0 <> Some last) by (intros (? & ? & _)%(Hprev _ _ _ Hi He0); done).
      assert (Hnl : we_next e0 <> Some last) by (intros (? & ? & _)%(Hnext _ _ _ Hi He0); done).
      rewrite !moved_link, !(decide_False (P := _ = Some last)) by done.
      destruct (Z.ltb_spec r 0); [by exists e0|]. destruct Hi0 as [? ?]; [done|]. rewrite !decide_False by done. by exists e0.
Qed.

Lemma links_move : links_ok t (Some index) -> links_ok (drop_last (move_last index t)) None.
Proof.
  intros [Hh Hr Hls]. assert (Hcnt : watch_count (move_last index t) = watch_count t).
  { pose proof (move_fields index t) as (_ & _ & _ & Hs). apply (f_equal length) in Hs. unfold subscriptions in Hs. by rewrite length_insert, !length_fmap in Hs. }
  assert (Hlast : forall r' ls, root_list t (Some index) r' ls -> last ∈ ls -> r' = r).
  { intros r' ls Hl Hin. destruct (dll_entry _ _ _ _ _ _ (rl_links _ _ _ _ Hl) Hin) as (e1 & ? & ?). congruence. }
  assert (Hr' : -1 <= r < Z.of_nat MAX_SCAN_PATHS) by (by eapply Hr).
  unfold drop_last. rewrite Hcnt. split.
  - cbn [with_entries wt_heads]. unfold move_last, rebind_scanner_watch_entry_root_index. repeat case_match; cbn; by rewrite ?length_insert.
  - intros i e' [Hi _]%lookup_take_cases. rewrite move_lookup in Hi.
    assert (Hx : exists e0 j, wt_entries t !! j = Some e0 /\ we_scan_root_index e0 = we_scan_root_index e').
    { destruct (decide (i = index)); [exists e, last|destruct (wt_entries t !! i) as [e0|] eqn:?; [exists e0, i|by destruct (r <? 0)]]; (split; [done|]);
        repeat case_match; by simplify_eq/=. }
    destruct Hx as (e0 & j & ? & <-). eauto.
  - intros r' Hrr. destruct (Hls r' Hrr) as [ls Hl]. pose proof Hl as [H1 H2 H3 H4 H5]. specialize (H5 _ eq_refl).
    destruct (move_heads r' Hrr Hh) as [_ Hhd]; [lia| |]; [intros Hhl; apply (Hlast r' ls Hl), first_elem; congruence|].
    assert (exists ls0, 0 <= r -> root_list t (Some index) r ls0) as [ls0 Hls0].
    { destruct (decide (0 <= r)); [|by exists []]. destruct (Hls r) as [ls0 ?]; [unfold root_range; lia|]. by exists ls0. }
    exists (moved last index <$> ls). split.
    + change (root_head (move_last index t) r' = first (moved last index <$> ls) None). rewrite Hhd, H1. by destruct ls.
    + eapply (dll_rename (moved last index) _ _ _ None _ None); [done|]. intros i e0 Hi He0 Hre.
      destruct (move_entry r' ls ls0 i e0) as (e' & He' & ?); [done|done|unfold root_range in Hrr; lia|done|done|done|]. exists e'. split; [|done]. cbn [with_entries wt_entries]. apply lookup_take_Some. split; [done|].
      pose proof (lookup_lt_Some _ _ _ He0). unfold moved, watch_count in *. case_decide; lia.
    + apply NoDup_fmap_2_strong; [|done]. intros i j Hi Hj. unfold moved. repeat case_decide; try congruence; intros ->; done.
    + intros i e' [Hi Hlt']%lookup_take_cases Hre _. rewrite move_lookup in Hi. destruct (decide (i = index)) as [->|Hni].
      * assert (r = r') as <- by (repeat case_match; by simplify_eq/=). apply list_elem_of_fmap. exists last. split; [unfold moved; by rewrite decide_True|].
        apply (H4 last e); [done..|]. intros [= Hx]. lia.
      * assert (exists e0, wt_entries t !! i = Some e0 /\ we_scan_root_index e0 = r') as (e0 & ? & ?).
        { destruct (wt_entries t !! i) as [e0|]; [|by destruct (r <? 0)]. exists e0. split; [done|]. repeat case_match; by simplify_eq/=. }
        apply list_elem_of_fmap. exists i. split; [unfold moved; rewrite decide_False by lia; done|]. apply (H4 i e0); [done..|congruence].
    + done.
Qed.
End move.
