(* ===== verification/ScannerTable.v ===== *)
(** * The invariant of the table of watches

    Who owns which descriptor, and the operations of ScannerWatch.v against it: registering
    adds a subscription, removing leaves exactly the others, clearing closes everything. *)
From S2P Require Import Prelude CString ConfigState ScannerWatch ScannerLinks.
From stdpp Require Import list fin_sets.
Open Scope Z_scope.
Open Scope c_scope.

(** ** The descriptors *)

(** Every descriptor is open, is closed by exactly one of its subscriptions, belongs to one
    directory and has each root at most once. *)
Record fds_ok (cs : list subscription) (d : descriptors) : Prop := {
  fo_range : forall c, c ∈ cs -> 0 <= sb_fd c /\ (strlen (sb_path c) < MAX_PATH)%nat;
  fo_owner : forall c, c ∈ cs -> exists c', c' ∈ cs /\ sb_fd c' = sb_fd c /\ sb_owns_fd c' = true;
  fo_one : NoDup (sb_fd <$> filter (fun c => sb_owns_fd c = true) cs);
  fo_same : forall c c', c ∈ cs -> c' ∈ cs -> sb_fd c = sb_fd c' -> sb_path c = sb_path c' /\ sb_fd_shareable c = sb_fd_shareable c';
  fo_once : NoDup ((fun c => (sb_fd c, sb_root c)) <$> cs);
  fo_open : forall fd, fd ∈ ds_open d <-> exists c, c ∈ cs /\ sb_fd c = fd;
  fo_stray : ds_stray d = false;
}.

Lemma fds_ok_perm cs cs' d : cs ≡ₚ cs' -> fds_ok cs d -> fds_ok cs' d.
Proof.
  intros Hp [H1 H2 H3 H4 H5 H6 H7]. split.
  - intros c. rewrite <-Hp. apply H1.
  - intros c. rewrite <-Hp. intros (c' & Hc & ?)%H2. exists c'. by rewrite <-Hp.
  - by rewrite <-Hp.
  - intros c c'. rewrite <-Hp. apply H4.
  - by rewrite <-Hp.
  - intros fd. rewrite H6. by setoid_rewrite Hp.
  - done.
Qed.

Definition sub_owner (c : subscription) : subscription :=
  Subscription (sb_fd c) true (sb_fd_shareable c) (sb_root c) (sb_depth c) (sb_kind c) (sb_path c).

Lemma owners_one c c' cs d : fds_ok cs d -> c ∈ cs -> c' ∈ cs -> sb_owns_fd c = true -> sb_owns_fd c' = true -> sb_fd c = sb_fd c' -> c = c'.
Proof.
  intros Hok Hc Hc' Ho Ho' Hfd. assert (Hin : forall c, c ∈ cs -> sb_owns_fd c = true -> c ∈ filter (fun c => sb_owns_fd c = true) cs) by (intros; by apply list_elem_of_filter).
  destruct (list_elem_of_lookup_1 _ _ (Hin c Hc Ho)) as [i Hi], (list_elem_of_lookup_1 _ _ (Hin c' Hc' Ho')) as [j Hj].
  assert (i = j) as <-; [|congruence]. eapply (NoDup_lookup _ i j (sb_fd c)); [apply (fo_one _ _ Hok)|..]; rewrite list_lookup_fmap; [by rewrite Hi|by rewrite Hj, Hfd].
Qed.

(** A subscription without a descriptor of its own goes. *)
Lemma fds_drop_shared c cs d : fds_ok (c :: cs) d -> sb_owns_fd c = false -> fds_ok cs d.
Proof.
  intros [H1 H2 H3 H4 H5 H6 H7] Hw. assert (Hc : forall x, x ∈ cs -> x ∈ c :: cs) by (intros; apply elem_of_cons; by right). split; try by auto.
  - intros x Hx. destruct (H2 x) as (o & [->|Ho]%elem_of_cons & ? & ?); [auto|congruence|eauto].
  - rewrite filter_cons_False in H3 by congruence. done.
  - cbn in H5. by apply NoDup_cons in H5 as [_ ?].
  - intros fd. rewrite H6. split; [|intros (x & ? & ?); exists x; auto]. intros (x & [->|Hx]%elem_of_cons & Hfd); [|eauto].
    destruct (H2 c) as (o & [->|Ho]%elem_of_cons & ? & ?); [by apply elem_of_cons; left|congruence|exists o; split; [done|congruence]].
Qed.

(** The owner goes and another subscription takes over. *)
Lemma fds_pass_on c c' cs d : fds_ok (c :: c' :: cs) d -> sb_owns_fd c = true -> sb_fd c' = sb_fd c -> fds_ok (sub_owner c' :: cs) d.
Proof.
  intros Hok Hw Hfd. pose proof Hok as [H1 H2 H3 H4 H5 H6 H7].
  assert (Hc' : c' ∈ c :: c' :: cs) by (apply elem_of_cons; right; apply elem_of_cons; by left).
  assert (Hc : forall x, x ∈ cs -> x ∈ c :: c' :: cs) by (intros; apply elem_of_cons; right; apply elem_of_cons; by right).
  assert (Hno : sb_owns_fd c' = false).
  { destruct (sb_owns_fd c') eqn:Ho; [|done]. assert (c = c') as <- by (by eapply owners_one; [exact Hok|apply elem_of_cons; left|..]).
    cbn in H5. apply NoDup_cons in H5 as [[] _]. apply elem_of_cons; by left. }
  assert (Hx : forall x, x ∈ sub_owner c' :: cs -> exists y, y ∈ c :: c' :: cs /\ sb_fd y = sb_fd x /\ sb_path y = sb_path x /\ sb_fd_shareable y = sb_fd_shareable x).
  { intros x [->|Hx]%elem_of_cons; [by exists c'|]. exists x. auto. }
  split.
  - intros x (y & Hy & <- & <- & _)%Hx. auto.
  - intros x (y & Hy & <- & _)%Hx. destruct (H2 y Hy) as (o & [->|[->|Ho]%elem_of_cons]%elem_of_cons & He & ?); [|congruence|exists o; split; [apply elem_of_cons; by right|done]].
    exists (sub_owner c'). split; [apply elem_of_cons; by left|]. cbn. split; [congruence|done].
  - rewrite filter_cons_True in H3 by done. rewrite filter_cons_False in H3 by congruence. rewrite filter_cons_True by done. cbn in *. by rewrite Hfd.
  - intros x x' (y & Hy & <- & <- & <-)%Hx (y' & Hy' & <- & <- & <-)%Hx. auto.
  - cbn in *. apply NoDup_cons in H5 as [_ ?]. done.
  - intros fd. rewrite H6. split.
    + intros (x & [->|[->|Ho]%elem_of_cons]%elem_of_cons & <-); [exists (sub_owner c'); split; [apply elem_of_cons; by left|done]..|]. exists x. split; [apply elem_of_cons; by right|done].
    + intros (x & (y & Hy & <- & _)%Hx & <-). eauto.
  - done.
Qed.

Definition closed (fd : Z) (d : descriptors) : descriptors := Descriptors (ds_open d ∖ {[fd]}) (ds_stray d || negb (bool_decide (fd ∈ ds_open d))).

(** The owner is alone and its descriptor is closed. *)
Lemma fds_close c cs d : fds_ok (c :: cs) d -> (forall x, x ∈ cs -> sb_fd x <> sb_fd c) -> fds_ok cs (closed (sb_fd c) d).
Proof.
  intros [H1 H2 H3 H4 H5 H6 H7] Hno. assert (Hc : forall x, x ∈ cs -> x ∈ c :: cs) by (intros; apply elem_of_cons; by right). split; try by auto.
  - intros x Hx. destruct (H2 x) as (o & [->|Ho]%elem_of_cons & ? & ?); [auto|by destruct (Hno x)|eauto].
  - destruct (decide (sb_owns_fd c = true)); [rewrite filter_cons_True in H3 by done; by apply NoDup_cons in H3 as [_ ?]|by rewrite filter_cons_False in H3 by done].
  - cbn in H5. by apply NoDup_cons in H5 as [_ ?].
  - intros fd. cbn. rewrite elem_of_difference, elem_of_singleton, H6. split.
    + intros [(x & [->|Hx]%elem_of_cons & Hfd) Hne]; [done|eauto].
    + intros (x & Hx & <-). split; [exists x; auto|by apply Hno].
  - cbn. rewrite H7, bool_decide_eq_true_2; [done|]. apply H6. exists c. split; [apply elem_of_cons; by left|done].
Qed.

(** A new subscription of a descriptor in use. *)
Lemma fds_share c x cs d : fds_ok cs d -> x ∈ cs -> sb_fd c = sb_fd x -> sb_path c = sb_path x -> sb_fd_shareable c = sb_fd_shareable x -> sb_owns_fd c = false ->
  (forall y, y ∈ cs -> sb_fd y = sb_fd c -> sb_root y <> sb_root c) -> fds_ok (c :: cs) d.
Proof.
  intros [H1 H2 H3 H4 H5 H6 H7] Hx Hfd Hp Hs Hw Hroot.
  assert (Hr : forall y, y ∈ c :: cs -> exists z, z ∈ cs /\ sb_fd z = sb_fd y /\ sb_path z = sb_path y /\ sb_fd_shareable z = sb_fd_shareable y).
  { intros y [->|Hy]%elem_of_cons; [by exists x|by exists y]. }
  split.
  - intros y (z & Hz & <- & <- & _)%Hr. auto.
  - intros y (z & Hz & <- & _)%Hr. destruct (H2 z Hz) as (o & ? & ?). exists o. split; [apply elem_of_cons; by right|done].
  - by rewrite filter_cons_False by congruence.
  - intros y y' (z & Hz & <- & <- & <-)%Hr (z' & Hz' & <- & <- & <-)%Hr. auto.
  - cbn. apply NoDup_cons. split; [|done]. intros (y & Hy & ?)%list_elem_of_fmap. simplify_eq. by destruct (Hroot y).
  - intros fd. rewrite H6. split; [intros (y & ? & ?); exists y; split; [apply elem_of_cons; by right|done]|]. intros (y & (z & Hz & <- & _)%Hr & <-). eauto.
  - done.
Qed.

(** A new descriptor. *)
Lemma fds_open_new c cs d : fds_ok cs d -> 0 <= sb_fd c -> (strlen (sb_path c) < MAX_PATH)%nat -> sb_fd c ∉ ds_open d -> sb_owns_fd c = true ->
  fds_ok (c :: cs) (Descriptors (ds_open d ∪ {[sb_fd c]}) (ds_stray d)).
Proof.
  intros [H1 H2 H3 H4 H5 H6 H7] Hfd Hl Hn Hw. assert (Hne : forall x, x ∈ cs -> sb_fd x <> sb_fd c) by (intros x Hx He; apply Hn, H6; eauto). split.
  - intros x [->|Hx]%elem_of_cons; auto.
  - intros x [->|Hx]%elem_of_cons; [exists c; split; [apply elem_of_cons; by left|done]|].
    destruct (H2 x Hx) as (o & ? & ?). exists o. split; [apply elem_of_cons; by right|done].
  - rewrite filter_cons_True by done. cbn. apply NoDup_cons. split; [|done]. intros (x & He & [_ Hx]%list_elem_of_filter)%list_elem_of_fmap. by apply (Hne x).
  - intros x x' [->|Hx]%elem_of_cons [->|Hx']%elem_of_cons He; auto; [by destruct (Hne x')|by destruct (Hne x)].
  - cbn. apply NoDup_cons. split; [|done]. intros (x & [= He _] & Hx)%list_elem_of_fmap. by apply (Hne x).
  - intros fd. cbn. rewrite elem_of_union, elem_of_singleton, H6. split.
    + intros [(x & ? & ?)| ->]; [exists x; split; [apply elem_of_cons; by right|done]|exists c; split; [apply elem_of_cons; by left|done]].
    + intros (x & [->|Hx]%elem_of_cons & <-); [by right|left; eauto].
  - done.
Qed.

(** ** The invariant of the table *)

(** Without the index, as between removals. *)
Record structure_ok (t : watch_table) : Prop := {
  st_links : links_ok t None;
  st_fds : fds_ok (subscriptions t) (wt_fds t);
  st_slots : length (wt_index t) = 0%nat \/ pow2 (length (wt_index t));
}.

Definition table_ok (t : watch_table) : Prop := structure_ok t /\ index_ok (wt_entries t) (wt_index t).

(** What the index needs of an entry. *)
Lemma index_ok_core es es' idx : core <$> es' = core <$> es -> index_ok es idx -> index_ok es' idx.
Proof.
  intros Hc [H1 H2 H3 H4]. assert (Hl : length es' = length es) by (apply (f_equal length) in Hc; by rewrite !length_fmap in Hc).
  assert (Hlk : forall i, core <$> es' !! i = core <$> es !! i) by (intros i; by rewrite <-!list_lookup_fmap, Hc). split; [done|by rewrite Hl| |].
  - intros s i (e & He & Hw)%H3. specialize (Hlk i). rewrite He in Hlk. destruct (es' !! i) as [e'|]; [|done]. exists e'. split; [done|]. injection Hlk. congruence.
  - intros i e' He' Hw. specialize (Hlk i). rewrite He' in Hlk. destruct (es !! i) as [e|] eqn:He; [|done]. injection Hlk as H5 H6 _ _ _ _ _. rewrite H5. apply (H4 i e He). congruence.
Qed.

(** The links concern the entries and the heads only. *)
Lemma links_ext t t' gone : wt_entries t' = wt_entries t -> wt_heads t' = wt_heads t -> links_ok t gone -> links_ok t' gone.
Proof.
  intros He Hh [H1 H2 H3]. split; [by rewrite Hh|by rewrite He|]. intros r Hr. destruct (H3 r Hr) as [ls [L1 L2 L3 L4 L5]]. exists ls.
  split; [|by rewrite He|done|by rewrite He|done]. unfold root_head. by rewrite Hh.
Qed.

Lemma links_owner t gone i : links_ok t gone -> links_ok (with_entries (alter set_owner i (wt_entries t)) t) gone.
Proof.
  intros [H1 H2 H3]. assert (Hk : keeps_roots (wt_entries t) (alter set_owner i (wt_entries t))).
  { intros j. rewrite alter_cases. case_decide; [|done]. by destruct (wt_entries t !! j). }
  split; [done| |].
  - intros j e Hj. destruct (keeps_roots_back _ _ _ _ Hk Hj) as (e0 & ? & <-). eauto.
  - intros r Hr. destruct (H3 r Hr) as [ls [L1 L2 L3 L4 L5]]. exists ls. split; [done| |done| |done].
    + eapply dll_frame; [done|]. intros j e Hj He Hre. cbn [with_entries wt_entries]. rewrite alter_cases, He. destruct (decide _); by eexists.
    + intros j e Hj Hre Hn. destruct (keeps_roots_back _ _ _ _ Hk Hj) as (e0 & ? & ?). apply (L4 j e0); congruence.
Qed.

(** Removing the entry at [index] from a list, the last one taking its place. *)
Lemma swap_remove {A} (l : list A) i y : (i < length l)%nat -> last l = Some y ->
  take (length l - 1) (if negb (i =? length l - 1)%nat then <[i := y]> l else l) ≡ₚ delete i l.
Proof.
  intros Hi Hl. apply last_Some in Hl as [l' ->]. rewrite length_app, Nat.add_sub in *. cbn [length] in Hi.
  destruct (Nat.eqb_spec i (length l')) as [->|Hne]; cbn [negb].
  - rewrite take_app_length. rewrite delete_middle. by rewrite app_nil_r.
  - rewrite insert_app_l by lia. rewrite take_app_length' by (by rewrite length_insert).
    rewrite insert_take_drop, delete_take_drop by lia. rewrite take_app_le, drop_app_le by lia.
    by rewrite app_assoc, <-Permutation_cons_append, <-Permutation_middle.
Qed.

Lemma other_subscription_Some index fd es i : other_subscription index fd es = Some i -> exists e, es !! i = Some e /\ i <> index /\ we_fd e = fd.
Proof.
  unfold other_subscription. intros (x & Hx & Hid & _)%find_index_Some. rewrite list_lookup_imap in Hx.
  destruct (es !! i) as [e|]; [|done]. simplify_eq/=. exists e. bool_hyps. rewrite Nat.eqb_neq in *. rewrite Z.eqb_eq in *. done.
Qed.

Lemma other_subscription_None index fd es i e : other_subscription index fd es = None -> es !! i = Some e -> i <> index -> we_fd e <> fd.
Proof.
  unfold other_subscription. intros Hn He Hi Hfd. rewrite find_index_None in Hn. 
  assert (Hx : imap (fun i e => negb (i =? index)%nat && (we_fd e =? fd)) es !! i = Some true).
  { rewrite list_lookup_imap, He. cbn. rewrite (proj2 (Nat.eqb_neq _ _)) by done. by rewrite (proj2 (Z.eqb_eq _ _)). }
  apply Hn in Hx. done.
Qed.

(** What a subscription is about: the root that watches, the directory, what it is to it,
    and its depth. *)
Definition watch : Type := Z * string * scanner_watch_kind_t * Z.
Definition key (c : subscription) : watch := (sb_root c, sb_path c, sb_kind c, sb_depth c).
Definition watches (t : watch_table) : list watch := key <$> subscriptions t.

Lemma subs_lookup t i e : wt_entries t !! i = Some e -> subscriptions t !! i = Some (core e).
Proof. intros He. unfold subscriptions. by rewrite list_lookup_fmap, He. Qed.

Lemma watch_count_subs t : watch_count t = length (subscriptions t).
Proof. unfold watch_count, subscriptions. by rewrite length_fmap. Qed.

(** The step that gives the descriptor away or closes it. *)
Definition release_fd (index : nat) (e : scanner_watch_entry_t) (t : watch_table) : watch_table :=
  if we_owns_fd e && (0 <=? we_fd e) then
    match other_subscription index (we_fd e) (wt_entries t) with
    | Some i => with_entries (alter set_owner i (wt_entries t)) t
    | None => close_fd (we_fd e) t
    end
  else t.

Lemma delete_two {A} (l : list A) i j x y z : i <> j -> l !! i = Some x -> l !! j = Some y ->
  exists l0, l ≡ₚ x :: y :: l0 /\ delete i (<[j := z]> l) ≡ₚ z :: l0.
Proof.
  intros Hij Hx Hy. assert (Hxin : x ∈ delete j l).
  { destruct (decide (i < j)%nat).
    - apply (list_elem_of_lookup_2 _ i). by rewrite list_lookup_delete_lt by done.
    - apply (list_elem_of_lookup_2 _ (i - 1)). rewrite list_lookup_delete_ge by lia. by replace (S (i - 1)) with i by lia. }
  apply elem_of_Permutation in Hxin as [l0 Hl0]. exists l0.
  assert (H1 : l ≡ₚ y :: delete j l) by (by apply delete_Permutation). rewrite Hl0 in H1. split; [rewrite H1; apply perm_swap|].
  assert (H2 : <[j := z]> l ≡ₚ z :: delete j l).
  { assert (Hd : delete j (<[j := z]> l) = delete j l); [|rewrite <-Hd; apply delete_Permutation; apply list_lookup_insert_eq; by eapply lookup_lt_Some].
    rewrite !delete_take_drop. f_equal; [by rewrite take_insert_ge by lia|by rewrite drop_insert_lt by lia]. }
  assert (H3 : <[j := z]> l ≡ₚ x :: delete i (<[j := z]> l)) by (apply delete_Permutation; by rewrite list_lookup_insert_ne by done).
  rewrite H3, Hl0 in H2. rewrite (perm_swap x z l0) in H2. by apply Permutation_cons_inv in H2.
Qed.

Lemma release_fd_spec index e t : links_ok t (Some index) -> fds_ok (subscriptions t) (wt_fds t) -> subscriptions t !! index = Some (core e) ->
  let t' := release_fd index e t in
  links_ok t' (Some index) /\ wt_index t' = wt_index t /\ watch_count t' = watch_count t /\
  fds_ok (delete index (subscriptions t')) (wt_fds t') /\ key <$> delete index (subscriptions t') ≡ₚ key <$> delete index (subscriptions t) /\
  forall j, key <$> subscriptions t' !! j = key <$> subscriptions t !! j.
Proof.
  intros Hl Hf He. pose proof (delete_Permutation _ _ _ He) as Hp. pose proof (fds_ok_perm _ _ _ Hp Hf) as Hf'. unfold release_fd.
  destruct (we_owns_fd e) eqn:Hw; cbn [andb]; [|by split_and!; try done; eapply fds_drop_shared].
  rewrite (proj2 (Z.leb_le _ _)); [|by destruct (fo_range _ _ Hf (core e)); [apply list_elem_of_lookup; eauto|]].
  destruct (other_subscription index (we_fd e) (wt_entries t)) as [i|] eqn:Ho.
  - apply other_subscription_Some in Ho as (e' & He' & Hi & Hfd). split; [by apply links_owner|]. split; [done|].
    assert (Hs : subscriptions (with_entries (alter set_owner i (wt_entries t)) t) = <[i := sub_owner (core e')]> (subscriptions t)).
    { unfold subscriptions. cbn [with_entries wt_entries]. rewrite <-(list_fmap_insert core _ _ (set_owner e')). f_equal. apply list_eq. intros j.
      rewrite alter_cases. case_decide as Hd; [subst; rewrite He', list_lookup_insert_eq; [done|by eapply lookup_lt_Some]|by rewrite list_lookup_insert_ne]. }
    split; [by rewrite !watch_count_subs, Hs, length_insert|]. rewrite Hs. cbn [with_entries wt_fds].
    destruct (delete_two (subscriptions t) index i (core e) (core e') (sub_owner (core e'))) as (l0 & Hp0 & Hd); [done..|by apply subs_lookup|].
    split; [|split].
    + eapply fds_ok_perm; [by symmetry|]. eapply fds_pass_on; [by eapply fds_ok_perm|done|done].
    + assert (Hd' : delete index (subscriptions t) ≡ₚ core e' :: l0).
      { apply (Permutation_cons_inv (a := core e)). etransitivity; [symmetry; exact Hp|exact Hp0]. }
      by rewrite Hd, Hd'.
    + intros j. destruct (decide (i = j)) as [<-|]; [|by rewrite list_lookup_insert_ne]. rewrite list_lookup_insert_eq by (by eapply lookup_lt_Some, subs_lookup).
      by rewrite (subs_lookup _ _ _ He').
  - split; [by apply (links_ext t)|]. split_and!; [done|done| |done|done]. apply (fds_close (core e)); [done|]. intros x Hx.
    apply list_elem_of_lookup in Hx as [j Hj].
    assert (Hx : exists j', j' <> index /\ subscriptions t !! j' = Some x).
    { destruct (decide (j < index)%nat); [exists j|exists (S j)]; (split; [lia|]); [by rewrite list_lookup_delete_lt in Hj|by rewrite list_lookup_delete_ge in Hj by lia]. }
    destruct Hx as (j' & Hne & Hx). unfold subscriptions in Hx. rewrite list_lookup_fmap in Hx. destruct (wt_entries t !! j') as [e'|] eqn:He'; [|done].
    injection Hx as <-. by eapply other_subscription_None.
Qed.

Lemma remove_at_spec index t e : structure_ok t -> wt_entries t !! index = Some e ->
  let t' := remove_scanner_watch_entry_at index t in
  structure_ok t' /\ wt_index t' = wt_index t /\ watch_count t = S (watch_count t') /\ watches t ≡ₚ key (core e) :: watches t' /\
  forall j, (j < index)%nat -> key <$> subscriptions t' !! j = key <$> subscriptions t !! j.
Proof.
  intros [Hl Hf Hs] He. unfold remove_scanner_watch_entry_at. rewrite He. fold (release_fd index e (unlink_scanner_watch_entry_from_root index t)).
  destruct (unlink_fields index t) as (Hu1 & Hu2 & Hu3 & Hu4). pose proof (links_unlink _ _ _ Hl He) as Hl1.
  set (t1 := unlink_scanner_watch_entry_from_root index t) in *. rewrite <-Hu1, <-Hu4 in Hf.
  destruct (release_fd_spec index e t1) as (Hl2 & Hi2 & Hc2 & Hf2 & Hk2 & Hj2); [done..|by rewrite Hu4; apply subs_lookup|].
  set (t2 := release_fd index e t1) in *. assert (Hlt : (index < length (subscriptions t2))%nat).
  { rewrite <-watch_count_subs, Hc2, watch_count_subs, Hu4, <-watch_count_subs. by eapply lookup_lt_Some. }
  set (t3 := if negb (index =? watch_count t2 - 1)%nat then _ else t2).
  assert (H3 : links_ok (drop_last t3) None /\ watch_count t3 = watch_count t2 /\ wt_index t3 = wt_index t2 /\ wt_fds t3 = wt_fds t2 /\
    take (watch_count t2 - 1) (subscriptions t3) ≡ₚ delete index (subscriptions t2) /\
    forall j, (j < index)%nat -> subscriptions t3 !! j = subscriptions t2 !! j).
  { destruct (lookup_lt_is_Some_2 (wt_entries t2) (watch_count t2 - 1)) as [y Hy]; [rewrite <-watch_count_subs in Hlt; unfold watch_count in *; lia|].
    assert (Hlast : last (subscriptions t2) = Some (core y)) by (rewrite last_lookup; unfold subscriptions; rewrite list_lookup_fmap, length_fmap, <-Nat.sub_1_r; unfold watch_count in Hy; by rewrite Hy).
    pose proof (swap_remove (subscriptions t2) index (core y) Hlt Hlast) as Hsw. rewrite <-watch_count_subs in Hsw, Hlt. unfold t3.
    destruct (Nat.eqb_spec index (watch_count t2 - 1)) as [Hx|Hx]; cbn [negb] in *.
    - split_and!; try done. apply links_drop_last. by rewrite <-Hx.
    - fold (move_last index t2). destruct (move_fields index t2) as (M1 & M2 & M3 & M4). unfold entry_at in M4. rewrite Hy in M4. cbn [default from_option] in M4.
      split; [apply (links_move _ _ y); [lia|done|done]|]. split; [by rewrite watch_count_subs, M4, length_insert, <-watch_count_subs|]. split; [done|]. split; [done|].
      split; [by rewrite M4|]. intros j Hj. rewrite M4. by rewrite list_lookup_insert_ne by lia. }
  clearbody t3. destruct H3 as (L3 & C3 & I3 & F3 & P3 & J3).
  assert (Hsub : subscriptions (with_entries (take (watch_count t2 - 1) (wt_entries t3)) t3) = take (watch_count t2 - 1) (subscriptions t3)) by (unfold subscriptions; cbn [with_entries wt_entries]; by rewrite fmap_take).
  split; [split|].
  - unfold drop_last in L3. by rewrite C3 in L3.
  - rewrite Hsub. cbn [with_entries wt_fds]. rewrite F3. eapply fds_ok_perm; [by symmetry|done].
  - cbn [with_entries wt_index]. by rewrite I3, Hi2, Hu2.
  - split; [cbn [with_entries wt_index]; by rewrite I3, Hi2, Hu2|]. split; [|split].
    + rewrite (watch_count_subs (with_entries _ _)), Hsub, length_take, <-(watch_count_subs t3), C3.
      rewrite <-watch_count_subs in Hlt. assert (watch_count t2 = watch_count t) by (rewrite Hc2, !watch_count_subs; by rewrite Hu4). lia.
    + unfold watches. rewrite Hsub, P3, Hk2, Hu4. apply (fmap_Permutation key _ _ (delete_Permutation _ _ _ (subs_lookup _ _ _ He))).
    + intros j Hj. rewrite Hsub, lookup_take_lt, J3, Hj2, Hu4; [done|done|]. rewrite <-watch_count_subs in Hlt. lia.
Qed.

(** ** Registering *)
Definition fresh_open (a : register_answers) : Prop := forall pick, ra_open a = Some pick -> forall used, 0 <= pick used /\ pick used ∉ used.

(** What the search for a descriptor to share has found among the entries seen. *)
Definition share_found (fstat : Z -> option (Z * Z)) (fd r : Z) (path : string) (seen : list subscription) (found : option Z) : Prop :=
  match found with
  | None => forall c, c ∈ seen -> sb_fd_shareable c = true -> sb_path c = path -> same_directory fstat fd (sb_fd c) = false
  | Some s => same_directory fstat fd s = true /\ (exists c, c ∈ seen /\ sb_fd c = s /\ sb_fd_shareable c = true /\ sb_path c = path) /\
      forall c, c ∈ seen -> sb_fd c = s -> sb_root c <> r
  end.

Lemma find_shared_spec fstat fd r path kind depth cs d seen es found :
  fds_ok cs d -> cs = seen ++ (core <$> es) -> share_found fstat fd r path seen found ->
  match find_shared_fd fstat fd r path kind depth es found with
  | Shared s => share_found fstat fd r path cs s
  | Subscribed => exists c, c ∈ cs /\ sb_root c = r /\ sb_path c = path /\ sb_kind c = kind /\ sb_depth c = depth
  | Conflicting => exists c, c ∈ cs /\ sb_root c = r /\ sb_path c = path /\ (sb_kind c <> kind \/ sb_depth c <> depth)
  end.
Proof.
  intros Hok. revert seen found. induction es as [|e es IH]; intros seen found -> Hf; cbn [find_shared_fd fmap list_fmap].
  { by rewrite app_nil_r. }
  assert (Happ : seen ++ core e :: (core <$> es) = (seen ++ [core e]) ++ (core <$> es)) by (by rewrite <-app_assoc).
  change (core <$> e :: es) with (core e :: (core <$> es)) in *.
  assert (Hin : core e ∈ seen ++ core e :: (core <$> es)) by (apply elem_of_app; right; apply elem_of_cons; by left).
  assert (Hseen : forall c, c ∈ seen -> c ∈ seen ++ core e :: (core <$> es)) by (intros; apply elem_of_app; by left).
  assert (Hskip : share_found fstat fd r path (seen ++ [core e]) found ->
    match find_shared_fd fstat fd r path kind depth es found with
    | Shared s => share_found fstat fd r path (seen ++ core e :: (core <$> es)) s
    | Subscribed => exists c, c ∈ seen ++ core e :: (core <$> es) /\ sb_root c = r /\ sb_path c = path /\ sb_kind c = kind /\ sb_depth c = depth
    | Conflicting => exists c, c ∈ seen ++ core e :: (core <$> es) /\ sb_root c = r /\ sb_path c = path /\ (sb_kind c <> kind \/ sb_depth c <> depth)
    end) by (intros; by apply (IH (seen ++ [core e]))).
  (* an entry of the descriptor found so far passes both tests *)
  assert (Hsame : forall s, found = Some s -> we_fd e = s -> we_fd_shareable e = true /\ we_path e = path).
  { intros s -> Hs. destruct Hf as (_ & (c & Hc & Hcs & Hsh & Hp) & _). destruct (fo_same _ _ Hok c (core e)) as [H1 H2]; [auto|done|cbn; congruence|].
    cbn in H1, H2. split; congruence. }
  destruct (negb (we_fd_shareable e) || negb (strcmp_eq (we_path e) path)) eqn:H1.
  { apply Hskip. destruct found as [s|]; cbn [share_found] in *.
    - destruct Hf as (Hd & (c & Hc & ?) & Hr). split; [done|]. split; [exists c; split; [apply elem_of_app; by left|done]|].
      intros x [Hx|[->|[]%elem_of_nil]%elem_of_cons]%elem_of_app Hxs; [auto|]. destruct (Hsame s eq_refl Hxs) as [E1 E2].
      rewrite E1, E2 in H1. cbn [negb orb] in H1. unfold strcmp_eq in H1. by rewrite String.eqb_refl in H1.
    - intros x [Hx|[->|[]%elem_of_nil]%elem_of_cons]%elem_of_app Hs Hp; [auto|]. cbn in Hs, Hp. rewrite Hs, Hp in H1. cbn [negb orb] in H1.
      unfold strcmp_eq in H1. by rewrite String.eqb_refl in H1. }
  apply orb_false_iff in H1 as [Hsh Hp]. apply negb_false_iff in Hsh. apply negb_false_iff, String.eqb_eq in Hp.
  destruct (negb (bool_decide (found = Some (we_fd e))) && negb (same_directory fstat fd (we_fd e))) eqn:H2.
  { apply andb_true_iff in H2 as [Hne Hd]. apply negb_true_iff, bool_decide_eq_false in Hne. apply negb_true_iff in Hd.
    apply Hskip. destruct found as [s|]; cbn [share_found] in *.
    - destruct Hf as (Hds & (c & Hc & ?) & Hr). split; [done|]. split; [exists c; split; [apply elem_of_app; by left|done]|].
      intros x [Hx|[->|[]%elem_of_nil]%elem_of_cons]%elem_of_app Hxs; [auto|]. destruct Hne. f_equal. by symmetry.
    - intros x [Hx|[->|[]%elem_of_nil]%elem_of_cons]%elem_of_app Hs Hp'; [auto|]. exact Hd. }
  assert (Hd : same_directory fstat fd (we_fd e) = true).
  { apply andb_false_iff in H2 as [H2|H2]; [|by apply negb_false_iff in H2]. apply negb_false_iff, bool_decide_eq_true in H2. rewrite H2 in Hf. by destruct Hf. }
  destruct (Z.eqb_spec (we_scan_root_index e) r) as [Hr|Hr].
  { destruct (bool_decide_reflect (we_kind e = kind)), (Z.eqb_spec (we_depth e) depth); cbn [andb]; exists (core e); cbn; auto. }
  rewrite Happ in *. apply (IH (seen ++ [core e])); [done|].
  assert (Hlast : core e ∈ seen ++ [core e]) by (apply elem_of_app; right; apply elem_of_cons; by left).
  destruct found as [s|]; cbn [share_found] in *.
  - destruct Hf as (Hds & (c & Hc & ?) & Hrs). split; [done|]. split; [exists c; split; [apply elem_of_app; by left|done]|].
    intros x [Hx|[->|[]%elem_of_nil]%elem_of_cons]%elem_of_app Hxs; auto.
  - split; [done|]. split; [by exists (core e)|]. intros x [Hx|[->|[]%elem_of_nil]%elem_of_cons]%elem_of_app Hxs; [|done].
    destruct (fo_same _ _ Hok x (core e)) as [E1 E2]; [auto|done|done|]. cbn in E1, E2, Hxs. specialize (Hf x Hx). rewrite Hxs in Hf. rewrite Hf in Hd; congruence.
Qed.

Lemma append_spec fd owns r path kind depth t : links_ok t None -> -1 <= r < Z.of_nat MAX_SCAN_PATHS ->
  exists t', append_scanner_watch_subscription fd owns r path kind depth t = (watch_count t, t') /\
    links_ok t' None /\ subscriptions t' = subscriptions t ++ [Subscription fd owns true r depth kind (strlcpy path MAX_PATH)] /\ wt_fds t' = wt_fds t /\ wt_index t' = wt_index t.
Proof.
  intros Hl Hr. unfold append_scanner_watch_subscription. set (entry := WatchEntry _ _ _ _ _ _ _ _ _).
  eexists. split; [done|]. set (t1 := with_entries _ t). destruct (link_fields (watch_count t) t1) as (L1 & L2 & L3 & L4).
  split; [apply (links_link _ _ entry); [by apply links_append|unfold t1, watch_count; cbn [with_entries wt_entries]; by rewrite lookup_app_r, Nat.sub_diag by lia]|].
  split; [rewrite L4; unfold t1, subscriptions; cbn [with_entries wt_entries]; by rewrite fmap_app|]. by rewrite L1, L2.
Qed.

Lemma index_subs t i : (exists e, wt_entries t !! i = Some e /\ we_owns_fd e = true) <-> exists c, subscriptions t !! i = Some c /\ sb_owns_fd c = true.
Proof.
  unfold subscriptions. rewrite list_lookup_fmap. split; [intros (e & -> & ?); by exists (core e)|]. intros (c & Hc & ?). destruct (wt_entries t !! i) as [e|]; [|done].
  injection Hc as <-. by exists e.
Qed.

Lemma core_eq e e' : core e = core e' -> we_fd e = we_fd e' /\ we_owns_fd e = we_owns_fd e'.
Proof. by intros [= ? ? _ _ _ _ _]. Qed.

(** The index after an entry was appended, and after its owner was inserted. *)
Lemma index_append t t' c : index_ok (wt_entries t) (wt_index t) -> subscriptions t' = subscriptions t ++ [c] -> sb_owns_fd c = false -> wt_index t' = wt_index t ->
  index_ok (wt_entries t') (wt_index t').
Proof.
  intros [H1 H2 H3 H4] Hs Hw Hi. rewrite Hi. assert (Hl : length (wt_entries t') = S (length (wt_entries t))).
  { change (watch_count t' = S (watch_count t)). rewrite !watch_count_subs, Hs, length_app. cbn. lia. }
  split; [done|rewrite Hl; split; [lia|tauto]| |].
  - intros s i Hsi. apply index_subs. destruct (proj1 (index_subs t i) (H3 s i Hsi)) as (x & Hx & ?). exists x. split; [|done]. rewrite Hs. by apply lookup_app_l_Some.
  - intros i e He Hwe. pose proof (subs_lookup _ _ _ He) as Hx. rewrite Hs in Hx. apply lookup_app_Some in Hx as [Hx|[_ Hx]].
    + unfold subscriptions in Hx. rewrite list_lookup_fmap in Hx. destruct (wt_entries t !! i) as [e0|] eqn:He0; [|done]. apply (inj Some), core_eq in Hx as [Hf Ho].
      rewrite <-Hf. apply (H4 i e0 He0). congruence.
    + apply list_lookup_singleton_Some in Hx as [_ ->]. cbn in Hw. congruence.
Qed.

Lemma index_insert t t' c idx slot : index_ok (wt_entries t) (wt_index t) -> subscriptions t' = subscriptions t ++ [c] -> sb_owns_fd c = true ->
  pow2 (length (wt_index t)) -> (watch_count t + 2 <= length (wt_index t))%nat -> wt_index t !! slot = Some None -> idx = <[slot := Some (watch_count t)]> (wt_index t) ->
  reached idx (sb_fd c) (watch_count t) -> index_ok (wt_entries t') idx.
Proof.
  intros [H1 H2 H3 H4] Hs Hw Hp Hcap Hslot -> Hr. assert (Hl : length (wt_entries t') = S (length (wt_entries t))).
  { change (watch_count t' = S (watch_count t)). rewrite !watch_count_subs, Hs, length_app. cbn. lia. }
  unfold watch_count in Hcap. split.
  - right. by rewrite length_insert.
  - rewrite used_insert, length_insert by done. lia.
  - intros s i Hsi. apply index_subs. rewrite Hs. apply list_lookup_insert_Some in Hsi as [(_ & [= <-] & _)|[_ Hsi]].
    + exists c. split; [|done]. rewrite watch_count_subs. by rewrite lookup_app_r, Nat.sub_diag by lia.
    + destruct (proj1 (index_subs t i) (H3 s i Hsi)) as (x & Hx & ?). exists x. split; [|done]. by apply lookup_app_l_Some.
  - intros i e He Hwe. pose proof (subs_lookup _ _ _ He) as Hx. rewrite Hs in Hx. apply lookup_app_Some in Hx as [Hx|[Hle Hx]].
    + unfold subscriptions in Hx. rewrite list_lookup_fmap in Hx. destruct (wt_entries t !! i) as [e0|] eqn:He0; [|done]. apply (inj Some), core_eq in Hx as [Hf Ho].
      apply reached_insert; [done|]. rewrite <-Hf. apply (H4 i e0 He0). congruence.
    + apply list_lookup_singleton_Some in Hx as [Hi ->]. rewrite <-watch_count_subs in Hi, Hle. by replace i with (watch_count t) by lia.
Qed.

(** Opening a descriptor and closing it again changes nothing. *)
Lemma fds_reopen cs d fd : fds_ok cs d -> fd ∉ ds_open d -> fds_ok cs (closed fd (Descriptors (ds_open d ∪ {[fd]}) (ds_stray d))).
Proof.
  intros [H1 H2 H3 H4 H5 H6 H7] Hn. split; try done.
  - intros x. cbn. rewrite elem_of_difference, elem_of_union, elem_of_singleton, <-H6. split; [tauto|]. intros Hx. split; [by left|]. by intros ->.
  - cbn. rewrite H7, bool_decide_eq_true_2; [done|]. apply elem_of_union. right. by apply elem_of_singleton.
Qed.

Definition with_open (fd : Z) (t : watch_table) : watch_table := with_fds (Descriptors (ds_open (wt_fds t) ∪ {[fd]}) (ds_stray (wt_fds t))) t.

Lemma reopen_ok t t1 fd : table_ok t -> fd ∉ ds_open (wt_fds t) -> wt_entries t1 = wt_entries t -> wt_heads t1 = wt_heads t -> wt_fds t1 = wt_fds (with_open fd t) ->
  index_ok (wt_entries t1) (wt_index t1) -> table_ok (close_fd fd t1) /\ watches (close_fd fd t1) = watches t.
Proof.
  intros [[Hl Hf Hs] Hi] Hn He Hh Hd Hi1. assert (Hsub : subscriptions (close_fd fd t1) = subscriptions t) by (unfold subscriptions; cbn; by rewrite He).
  split; [|unfold watches; by rewrite Hsub]. split; [split|done].
  - by apply (links_ext t).
  - rewrite Hsub. unfold close_fd. cbn [with_fds wt_fds]. rewrite Hd. by apply fds_reopen.
  - by destruct Hi1.
Qed.

(** Room for one more owner in the index. *)
Lemma ensure_index_spec memory t : index_ok (wt_entries t) (wt_index t) ->
  let '(ok, t1) := ensure_scanner_watch_fd_index_capacity memory (watch_count t + 1) t in
  wt_entries t1 = wt_entries t /\ wt_heads t1 = wt_heads t /\ wt_fds t1 = wt_fds t /\ index_ok (wt_entries t1) (wt_index t1) /\
  (ok = true -> (watch_count t + 2 <= length (wt_index t1))%nat /\ pow2 (length (wt_index t1))).
Proof.
  intros Hi. pose proof (io_size _ _ Hi) as Hs. destruct (needed_slots_spec (watch_count t + 1)) as (Hp2 & H16 & H2n). unfold ensure_scanner_watch_fd_index_capacity.
  destruct (negb _ && _) eqn:Hb.
  - apply andb_true_iff in Hb as [Hb1 Hb2]. apply negb_true_iff, Nat.eqb_neq in Hb1. apply Nat.leb_le in Hb2. split_and!; [done..|]. intros _.
    split; [lia|]. by destruct Hs.
  - pose proof (rebuild_index_ok memory (watch_count t + 1) t) as Hre. destruct (rebuild_scanner_watch_fd_index_with_count _ _ _) as [ok t1].
    destruct Hre as (R1 & R2 & R3 & R4 & R5 & R6); [lia|done|]. split_and!; [done..| |].
    + destruct ok; [by apply R6|]. by rewrite R5.
    + intros ->. destruct R6 as [[Hz Hu _ _] Hge]; [done|]. split; [lia|]. destruct Hz; [lia|done].
Qed.

(** A directory that no descriptor can be shared for. *)
Lemma watch_own_spec memory kevent fd r path kind depth t : table_ok t -> 0 <= fd -> fd ∉ ds_open (wt_fds t) -> -1 <= r < Z.of_nat MAX_SCAN_PATHS ->
  let '(ok, t') := watch_own_descriptor memory kevent fd r path kind depth (with_open fd t) in
  table_ok t' /\ (if ok then watches t' ≡ₚ (r, strlcpy path MAX_PATH, kind, depth) :: watches t else watches t' = watches t).
Proof.
  intros Hok Hfd Hn Hr. pose proof Hok as [[Hl Hf Hs] Hi]. unfold watch_own_descriptor.
  pose proof (ensure_index_spec memory (with_open fd t) Hi) as He.
  destruct (ensure_scanner_watch_fd_index_capacity _ _ _) as [ok t1]. destruct He as (E1 & E2 & E3 & E4 & E5).
  change (watch_count (with_open fd t)) with (watch_count t) in E5. change (wt_entries (with_open fd t)) with (wt_entries t) in E1.
  destruct ok; cbn [negb]; [|by apply reopen_ok]. destruct kevent; cbn [negb]; [|by apply reopen_ok]. destruct (E5 eq_refl) as [Hcap Hp2].
  destruct (append_spec fd true r path kind depth t1) as (t' & -> & Hl' & Hsub & Hd' & Hi'); [by apply (links_ext t)|done..|].
  assert (Hs1 : subscriptions t1 = subscriptions t) by (unfold subscriptions; by rewrite E1). 
  assert (Hc1 : watch_count t1 = watch_count t) by (unfold watch_count; by rewrite E1). rewrite Hi'.
  destruct (insert_index_spec fd (watch_count t1) (wt_index t1) Hp2) as (slot & -> & Hslot & Hreach).
  { destruct E4 as [_ [Hu _] _ _]. rewrite E1 in Hu. unfold watch_count in *. lia. }
  assert (Hperm : subscriptions t' ≡ₚ Subscription fd true true r depth kind (strlcpy path MAX_PATH) :: subscriptions t) by (rewrite Hsub, Hs1; by rewrite <-Permutation_cons_append).
  assert (Hix : index_ok (wt_entries t') (<[slot:=Some (watch_count t1)]> (wt_index t1))) by (eapply (index_insert t1); eauto; rewrite ?Hc1; done).
  split; [split; [split|]|].
  - by apply (links_ext t').
  - change (fds_ok (subscriptions t') (wt_fds t')). eapply fds_ok_perm; [by symmetry|]. rewrite Hd', E3. apply fds_open_new; [done..| |done|done]. apply strlcpy_length. unfold MAX_PATH. lia.
  - by destruct Hix.
  - done.
  - unfold watches. change (subscriptions (with_index _ t')) with (subscriptions t'). by rewrite Hperm.
Qed.

Lemma register_spec a r path kind depth t : table_ok t -> fresh_open a -> -1 <= r < Z.of_nat MAX_SCAN_PATHS ->
  let '(ok, t') := register_scanner_watch_entry a r path kind depth t in
  table_ok t' /\
  (if ok then watches t' = watches t /\ (ra_open a = None \/ (r, path, kind, depth) ∈ watches t) \/
     ra_open a <> None /\ watches t' ≡ₚ (r, strlcpy path MAX_PATH, kind, depth) :: watches t
   else watches t' = watches t).
Proof.
  intros Hok Hopen Hr. unfold register_scanner_watch_entry.
  destruct (ensure_scanner_watch_capacity _ _ t) as [t0|] eqn:Hcap; [|done].
  assert (H0 : wt_entries t0 = wt_entries t /\ wt_heads t0 = wt_heads t /\ wt_index t0 = wt_index t /\ wt_fds t0 = wt_fds t).
  { unfold ensure_scanner_watch_capacity in Hcap. repeat case_match; by simplify_eq. }
  assert (Hok0 : table_ok t0 /\ watches t0 = watches t).
  { destruct H0 as (E1 & E2 & E3 & E4), Hok as [[Hl Hf Hs] Hi]. unfold table_ok, watches, subscriptions in *. rewrite E1, E3. split; [|done]. split; [|done].
    split; [by apply (links_ext t)|unfold subscriptions; by rewrite E1, E4|by rewrite E3]. }
  clear H0 Hcap Hok. destruct Hok0 as [Hok Hw0]. rewrite <-Hw0. clear Hw0. clear t. rename t0 into t.
  destruct (ra_open a) as [pick|] eqn:Ho; [|by split; [|left; auto]]. set (fd := pick _). fold (with_open fd t).
  destruct (Hopen pick Ho (ds_open (wt_fds t))) as [Hfd Hn]. fold fd in Hfd, Hn. pose proof Hok as [[Hl Hf Hs] Hi].
  pose proof (find_shared_spec (ra_fstat a) fd r path kind depth _ _ [] (wt_entries t) None Hf eq_refl) as Hfs.
  change (wt_entries (with_open fd t)) with (wt_entries t).
  assert (Hsel : share_found (ra_fstat a) fd r path [] None) by (intros c Hc; by apply elem_of_nil in Hc). specialize (Hfs Hsel).
  destruct (find_shared_fd _ _ _ _ _ _ _ _) as [| |[s|]].
  - destruct (reopen_ok t (with_open fd t) fd) as [? Hw]; [done..|]. split; [done|]. left. split; [done|]. right.
    destruct Hfs as (c & Hc & <- & <- & <- & <-). apply list_elem_of_fmap. by exists c.
  - by apply (reopen_ok t (with_open fd t) fd).
  - destruct (reopen_ok t (with_open fd t) fd) as [[[Hl1 Hf1 Hs1] Hi1] Hw]; [done..|].
    assert (Hp : strlcpy path MAX_PATH = path).
    { destruct Hfs as (_ & (c & Hc & _ & _ & <-) & _). apply strlcpy_fits. by apply (fo_range _ _ Hf). }
    destruct (append_spec s false r path kind depth (close_fd fd (with_open fd t)) Hl1 Hr) as (t' & -> & Hl' & Hsub & Hd' & Hi'). rewrite Hp in Hsub. cbn [snd].
    assert (Hperm : subscriptions t' ≡ₚ Subscription s false true r depth kind path :: subscriptions t) by (rewrite Hsub; by rewrite <-Permutation_cons_append).
    split; [split; [split|]|].
    + done.
    + eapply fds_ok_perm; [by symmetry|]. rewrite Hd'. destruct Hfs as (_ & (c & Hc & Hcs & Hsh & Hpath) & Hroot).
      by apply (fds_share _ c).
    + by rewrite Hi'.
    + by eapply index_append.
    + right. split; [done|]. unfold watches. by rewrite Hperm, Hp.
  - pose proof (watch_own_spec (ra_index_memory a) (ra_kevent a) fd r path kind depth t Hok Hfd Hn Hr) as Hown.
    destruct (watch_own_descriptor _ _ _ _ _ _ _ _) as [[] t']; destruct Hown as [? Hw]; (split; [done|]); [by right|done].
Qed.

(** ** Removing *)
Definition of_root (r : Z) (w : watch) : Prop := w.1.1.1 = r.
#[export] Instance of_root_dec r w : Decision (of_root r w).
Proof. unfold of_root. solve_decision. Defined.

Lemma root_head_spec t r : structure_ok t -> root_range r ->
  match root_head t r with
  | Some i => exists e, wt_entries t !! i = Some e /\ we_scan_root_index e = r
  | None => forall w, w ∈ watches t -> ~ of_root r w
  end.
Proof.
  intros [[_ _ Hls] _ _] Hr. destruct (Hls r Hr) as [ls [H1 H2 H3 H4 _]]. rewrite H1. destruct ls as [|i ls]; cbn [first].
  - intros w Hw Hwr. unfold watches, subscriptions in Hw. rewrite <-list_fmap_compose in Hw. apply list_elem_of_fmap in Hw as (e & -> & He).
    apply list_elem_of_lookup in He as [i He]. specialize (H4 i e He Hwr ltac:(done)). by apply elem_of_nil in H4.
  - by destruct H2 as [(e & ? & ? & _) _]; exists e.
Qed.

Lemma filter_none (P : watch -> Prop) `{!forall x, Decision (P x)} (l : list watch) : (forall x, x ∈ l -> P x) -> filter P l = l.
Proof.
  induction l as [|x l IH]; [done|]. intros Hall. rewrite filter_cons_True by (apply Hall; apply elem_of_cons; by left). f_equal.
  apply IH. intros y Hy. apply Hall. apply elem_of_cons. by right.
Qed.

Lemma remove_heads_spec fuel r b t : structure_ok t -> root_range r -> (watch_count t <= fuel)%nat ->
  exists b' t', remove_heads fuel r b t = Some (b', t') /\ structure_ok t' /\ wt_index t' = wt_index t /\
    watches t' ≡ₚ filter (fun w => ~ of_root r w) (watches t) /\ (b' = false -> t' = t /\ b = false).
Proof.
  revert b t. induction fuel as [|fuel IH]; intros b t Hok Hr Hf; pose proof (root_head_spec t r Hok Hr) as Hh; cbn [remove_heads];
    (destruct (root_head t r) as [i|]; [destruct Hh as (e & He & Hre)|exists b, t; split_and!; try done; by rewrite filter_none]).
  - apply lookup_lt_Some in He. unfold watch_count in Hf. lia.
  - destruct (remove_at_spec i t e Hok He) as (Hok' & Hi & Hc & Hw & _). destruct (IH true _ Hok' Hr) as (b' & t' & -> & ? & Hi' & Hw' & Hb); [lia|].
    exists b', t'. split; [done|]. split; [done|]. split; [by rewrite Hi', Hi|]. split; [rewrite Hw', Hw, filter_cons_False; [done|]; by intros []|].
    intros [_ ?]%Hb. done.
Qed.

(** The index is built again after removals; memory for it may be short. *)
Lemma after_removals_spec memory t b t' : table_ok t -> structure_ok t' -> wt_index t' = wt_index t -> (b = false -> t' = t) ->
  exists ok t'', after_removals memory (Some (b, t')) = Some (ok, t'') /\ structure_ok t'' /\ watches t'' = watches t' /\
    (ok = true -> table_ok t'') /\ (memory = true -> ok = true).
Proof.
  intros Hok Hs Hi Hb. destruct b; cbn [after_removals].
  - pose proof (rebuild_index_ok memory (watch_count t') t' ltac:(lia) (st_slots _ Hs)) as Hr. unfold rebuild_scanner_watch_fd_index.
    destruct (rebuild_scanner_watch_fd_index_with_count _ _ _) as [ok t'']. destruct Hr as (R1 & R2 & R3 & R4 & R5 & R6). exists ok, t''. split; [done|].
    assert (Hs'' : structure_ok t'').
    { destruct ok; [|by rewrite R5]. destruct Hs as [S1 S2 S3], R6 as [[? ? ? ?] _]; [done|]. split; [by apply (links_ext t')|unfold subscriptions; by rewrite R1, R3|done]. }
    split; [done|]. split; [unfold watches, subscriptions; by rewrite R1|]. split; [|done]. intros ->. destruct R6; done.
  - destruct Hb; [done|]. exists true, t'. by split_and!.
Qed.

Lemma remove_root_spec memory r t : table_ok t -> root_range r ->
  exists ok t', remove_scan_root_watch_entries memory r t = Some (ok, t') /\ structure_ok t' /\ (ok = true -> table_ok t') /\ (memory = true -> ok = true) /\
    watches t' ≡ₚ filter (fun w => ~ of_root r w) (watches t).
Proof.
  intros Hok Hr. unfold remove_scan_root_watch_entries. destruct (remove_heads_spec (watch_count t) r false t) as (b & t1 & -> & Hs1 & Hi & Hw & Hb); [apply Hok|done|done|].
  destruct (after_removals_spec memory t b t1) as (ok & t' & -> & ? & Hw' & ? & ?); [done..|intros; by apply Hb|].
  exists ok, t'. split_and!; try done. by rewrite Hw'.
Qed.

(** The directories below [path], or that directory. *)
Definition below (r : Z) (path : string) (w : watch) : Prop := of_root r w /\ path_matches_root_or_child w.1.1.2 path = true.
#[export] Instance below_dec r path w : Decision (below r path w).
Proof. unfold below. solve_decision. Defined.

Lemma key_root e : (key (core e)).1.1.1 = we_scan_root_index e.
Proof. done. Qed.

Lemma watches_elem t w : w ∈ watches t <-> exists i e, wt_entries t !! i = Some e /\ w = key (core e).
Proof.
  unfold watches, subscriptions. rewrite <-list_fmap_compose, list_elem_of_fmap. split.
  - intros (e & -> & [i He]%list_elem_of_lookup). by exists i, e.
  - intros (i & e & He & ->). exists e. split; [done|]. by eapply list_elem_of_lookup_2.
Qed.

Lemma NoDup_length_lt (ls : list nat) n : NoDup ls -> (forall j, j ∈ ls -> (j < n)%nat) -> (length ls <= n)%nat.
Proof.
  intros Hnd Hlt. assert (Hs : ls ⊆+ seq 0 n) by (apply NoDup_submseteq; [done|]; intros j Hj; apply elem_of_seq; specialize (Hlt j Hj); lia).
  apply submseteq_length in Hs. by rewrite length_seq in Hs.
Qed.

Lemma root_list_length t r ls : root_list t None r ls -> (length ls <= watch_count t)%nat.
Proof.
  intros Hls. apply NoDup_length_lt; [by apply Hls|]. intros j Hj. destruct (dll_entry _ _ _ _ _ _ (rl_links _ _ _ _ Hls) Hj) as (? & Hj' & _).
  by apply lookup_lt_Some in Hj'.
Qed.

Lemma remove_matching_spec fuel r path l1 l2 b t : structure_ok t -> root_range r -> root_list t None r (l1 ++ l2) ->
  (forall i e, i ∈ l1 -> wt_entries t !! i = Some e -> path_matches_root_or_child (we_path e) path = false) ->
  (length l2 + watch_count t * watch_count t <= fuel)%nat ->
  exists b' t', remove_matching fuel r path (first l2 None) b t = Some (b', t') /\ structure_ok t' /\ wt_index t' = wt_index t /\
    watches t' ≡ₚ filter (fun w => ~ below r path w) (watches t) /\ (b' = false -> t' = t /\ b = false).
Proof.
  revert l1 l2 b t. induction fuel as [|fuel IH]; intros l1 l2 b t Hok Hr Hl Hno Hf; destruct l2 as [|i l2]; cbn [first remove_matching];
    try (exists b, t; split_and!; try done; rewrite filter_none; [done|]; intros w (i & e & He & ->)%watches_elem [Hwr Hm];
      rewrite app_nil_r in Hl; pose proof (rl_all _ _ _ _ Hl i e He Hwr ltac:(done)) as Hin; specialize (Hno i e Hin He); cbn in Hm; congruence).
  { cbn [length] in Hf. lia. }
  cbn [length] in Hf. pose proof (proj2 (proj1 (dll_app _ _ _ _ _ _) (rl_links _ _ _ _ Hl))) as [(e & He & Hre & _ & Hn) _]. unfold entry_at. rewrite He. cbn [default from_option].
  change (id e) with e. destruct (path_matches_root_or_child (we_path e) path) eqn:Hm.
  - destruct (remove_at_spec i t e Hok He) as (Hok' & Hi & Hc & Hw & _). set (t1 := remove_scanner_watch_entry_at i t) in *.
    destruct (lo_lists _ _ (st_links _ Hok') r Hr) as [ls Hls]. pose proof (rl_head _ _ _ _ Hls) as ->.
    pose proof (root_list_length _ _ _ Hls) as Hle.
    destruct (IH [] ls true t1 Hok' Hr Hls) as (b' & t' & -> & ? & Hi' & Hw' & Hb); [intros ? ? Hx; by apply elem_of_nil in Hx|nia|].
    exists b', t'. split; [done|]. split; [done|]. split; [by rewrite Hi', Hi|]. split; [rewrite Hw', Hw, filter_cons_False; [done|]; by intros []; split|].
    intros [_ ?]%Hb. done.
  - replace (we_next e) with (first l2 None) by (by rewrite Hn; destruct l2). apply (IH (l1 ++ [i])); try done.
    + by rewrite <-app_assoc.
    + intros j e' [Hj|[->|[]%elem_of_nil]%elem_of_cons]%elem_of_app He'; [by eapply Hno|]. congruence.
    + lia.
Qed.

Lemma remove_path_spec memory r path t : table_ok t -> root_range r ->
  exists ok t', remove_scan_root_watch_entries_for_path memory r path t = Some (ok, t') /\ structure_ok t' /\ (ok = true -> table_ok t') /\ (memory = true -> ok = true) /\
    watches t' ≡ₚ filter (fun w => ~ below r path w) (watches t).
Proof.
  intros Hok Hr. unfold remove_scan_root_watch_entries_for_path. destruct (lo_lists _ _ (st_links _ (proj1 Hok)) r Hr) as [ls Hls].
  rewrite (rl_head _ _ _ _ Hls). destruct (remove_matching_spec (S (watch_count t) * watch_count t) r path [] ls false t) as (b & t1 & -> & Hs1 & Hi & Hw & Hb).
  - apply Hok.
  - done.
  - done.
  - intros ? ? Hx. by apply elem_of_nil in Hx.
  - pose proof (root_list_length _ _ _ Hls). lia.
  - destruct (after_removals_spec memory t b t1) as (ok & t' & -> & ? & Hw' & ? & ?); [done..|intros; by apply Hb|].
    exists ok, t'. split_and!; try done. by rewrite Hw'.
Qed.

(** The subscriptions of no root. *)
Definition rootless (w : watch) : Prop := w.1.1.1 < 0.
#[export] Instance rootless_dec w : Decision (rootless w).
Proof. unfold rootless. solve_decision. Defined.

Lemma no_rootless i t : wt_entries t !! i = None -> (forall j e, (j < i)%nat -> wt_entries t !! j = Some e -> 0 <= we_scan_root_index e) ->
  filter (fun w => ~ rootless w) (watches t) = watches t.
Proof.
  intros He%lookup_ge_None Hlow. apply filter_none. intros w (j & e & Hj & ->)%watches_elem Hneg. unfold rootless in Hneg. rewrite key_root in Hneg.
  pose proof (lookup_lt_Some _ _ _ Hj). specialize (Hlow j e ltac:(lia) Hj). lia.
Qed.

Lemma remove_rootless_spec fuel i b t : structure_ok t -> (watch_count t <= i + fuel)%nat ->
  (forall j e, (j < i)%nat -> wt_entries t !! j = Some e -> 0 <= we_scan_root_index e) ->
  exists b' t', remove_rootless fuel i b t = Some (b', t') /\ structure_ok t' /\ wt_index t' = wt_index t /\
    watches t' ≡ₚ filter (fun w => ~ rootless w) (watches t) /\ (b' = false -> t' = t /\ b = false).
Proof.
  revert i b t. induction fuel as [|fuel IH]; intros i b t Hok Hf Hlow; cbn [remove_rootless]; destruct (wt_entries t !! i) as [e|] eqn:He;
    try (exists b, t; split_and!; try done; by rewrite (no_rootless i)).
  - apply lookup_lt_Some in He. unfold watch_count in Hf. lia.
  - destruct (Z.ltb_spec (we_scan_root_index e) 0) as [Hneg|Hpos].
    + destruct (remove_at_spec i t e Hok He) as (Hok' & Hi & Hc & Hw & Hj). set (t1 := remove_scanner_watch_entry_at i t) in *.
      destruct (IH i true t1 Hok') as (b' & t' & -> & ? & Hi' & Hw' & Hb); [lia| |].
      { intros j e' Hlt He'. specialize (Hj j Hlt). rewrite (subs_lookup _ _ _ He') in Hj. unfold subscriptions in Hj. rewrite list_lookup_fmap in Hj.
        destruct (wt_entries t !! j) as [e0|] eqn:He0; [|done]. injection Hj as Hj _ _ _. cbn in Hj. rewrite Hj. by apply (Hlow j). }
      exists b', t'. split; [done|]. split; [done|]. split; [by rewrite Hi', Hi|]. split; [rewrite Hw', Hw, filter_cons_False; [done|]; by intros []|].
      intros [_ ?]%Hb. done.
    + apply IH; [done|lia|]. intros j e' Hj He'. destruct (decide (j = i)) as [->|]; [by simplify_eq|]. apply (Hlow j e'); [lia|done].
Qed.

(** ** Clearing *)
Lemma fold_close_spec es t : NoDup (we_fd <$> filter (fun e => we_owns_fd e = true) es) ->
  (forall e, e ∈ es -> we_owns_fd e = true -> 0 <= we_fd e /\ we_fd e ∈ ds_open (wt_fds t)) -> ds_stray (wt_fds t) = false ->
  let t' := fold_left (fun t e => if we_owns_fd e && (0 <=? we_fd e) then close_fd (we_fd e) t else t) es t in
  ds_stray (wt_fds t') = false /\ forall fd, fd ∈ ds_open (wt_fds t') <-> fd ∈ ds_open (wt_fds t) /\ forall e, e ∈ es -> we_owns_fd e = true -> we_fd e <> fd.
Proof.
  revert t. induction es as [|e es IH]; intros t Hnd Hin Hst; cbn [fold_left].
  { split; [done|]. intros fd. split; [|by intros []]. intros ?. split; [done|]. intros e He. by apply elem_of_nil in He. }
  assert (Hin' : forall e, e ∈ es -> we_owns_fd e = true -> 0 <= we_fd e /\ we_fd e ∈ ds_open (wt_fds t)) by (intros; apply Hin; [apply elem_of_cons; by right|done]).
  destruct (we_owns_fd e) eqn:Hw; cbn [andb].
  - destruct (Hin e) as [H0 Ho]; [apply elem_of_cons; by left|done|]. rewrite (proj2 (Z.leb_le _ _)) by done.
    rewrite filter_cons_True in Hnd by done. cbn in Hnd. apply NoDup_cons in Hnd as [Hn Hnd].
    assert (Hne : forall x, x ∈ es -> we_owns_fd x = true -> we_fd x <> we_fd e).
    { intros x Hx Hwx Heq. apply Hn. rewrite <-Heq. apply list_elem_of_fmap_2. by apply list_elem_of_filter. }
    destruct (IH (close_fd (we_fd e) t) Hnd) as [S1 S2].
    + intros x Hx Hwx. destruct (Hin' x Hx Hwx). split; [done|]. cbn. apply elem_of_difference. split; [done|]. rewrite elem_of_singleton. by apply Hne.
    + cbn. by rewrite Hst, bool_decide_eq_true_2.
    + split; [done|]. intros fd. rewrite S2. cbn. rewrite elem_of_difference, elem_of_singleton. split.
      * intros [[? ?] ?]. split; [done|]. intros x [->|Hx]%elem_of_cons; auto.
      * intros [? Hall]. split; [split; [done|]|intros; apply Hall; [apply elem_of_cons; by right|done]]. intros ->. by apply (Hall e); [apply elem_of_cons; left|..].
  - rewrite filter_cons_False in Hnd by congruence. destruct (IH t Hnd Hin' Hst) as [S1 S2]. split; [done|]. intros fd. rewrite S2. split.
    + intros [? Hall]. split; [done|]. intros x [->|Hx]%elem_of_cons; [congruence|auto].
    + intros [? Hall]. split; [done|]. intros x Hx. apply Hall. apply elem_of_cons. by right.
Qed.
