(* ===== verification/ScannerHistory.v ===== *)
(** * Histories of the table of watches

    The operations on USB watches (src/sm_scanner.c), the histories of a scanner's table
    and the theorems on them. *)
From S2P Require Import Prelude CString ConfigState ScannerWatch ScannerLinks ScannerTable.
From stdpp Require Import list fin_sets.
Open Scope Z_scope.
Open Scope c_scope.

(** ** USB watches *)
Definition build_scanner_usb_root_path (slot : nat) : string := String.append "/mnt/usb" (String (ascii_of_nat (48 + slot)) "").

Definition SCANNER_USB_SLOT_COUNT : nat := 8.

(** [get_scan_path] may fail for an index. *)
Fixpoint suspend_roots (paths : list (option string)) (i : Z) (removed_any : bool) (t : watch_table) : option (bool * watch_table) :=
  match paths with
  | [] => Some (removed_any, t)
  | path :: paths' =>
      if match path with Some p => is_usb_storage_path p | None => false end
      then do? run <- remove_heads (watch_count t) i removed_any t; suspend_roots paths' (i + 1) run.1 run.2
      else suspend_roots paths' (i + 1) removed_any t
  end.

Definition suspend_usb_scan_root_watch_trees (memory : bool) (paths : list (option string)) (t : watch_table) : option (bool * watch_table) :=
  do? run <- remove_rootless (watch_count t) 0 false t;
  after_removals memory (suspend_roots paths 0 run.1 run.2).

Fixpoint register_usb_roots (ans : nat -> register_answers) (slots : list nat) (t : watch_table) : bool * watch_table :=
  match slots with
  | [] => (true, t)
  | slot :: slots' =>
      let '(ok, t') := register_scanner_watch_entry (ans slot) (-1) (build_scanner_usb_root_path slot) SCANNER_WATCH_USB_ROOT 0 t in
      if ok : bool then register_usb_roots ans slots' t' else (false, t')
  end.

Definition rebuild_scanner_usb_watches (memory : bool) (ans : nat -> register_answers) (parent : register_answers) (t : watch_table) : option (bool * watch_table) :=
  do? run <- remove_rootless (watch_count t) 0 false t;
  let '(ok, t1) := rebuild_scanner_watch_fd_index memory run.2 in
  if negb ok then Some (false, t1)
  else
    let '(ok, t2) := register_scanner_watch_entry parent (-1) "/mnt" SCANNER_WATCH_USB_PARENT 0 t1 in
    if negb ok then Some (false, t2) else Some (register_usb_roots ans (seq 0 SCANNER_USB_SLOT_COUNT) t2).

(** An event that ends the life of the directory: its subscriptions are not shared any more. *)
Definition unshare_fd (ident : Z) (t : watch_table) : watch_table :=
  with_entries ((fun e => if we_fd e =? ident then unshare e else e) <$> wt_entries t) t.

(** ** Histories *)
Inductive watch_op :=
  | Register (a : register_answers) (r : Z) (path : string) (kind : scanner_watch_kind_t) (depth : Z)
  | RemoveRoot (memory : bool) (r : Z)
  | RemovePath (memory : bool) (r : Z) (path : string)
  | Suspend (memory : bool) (paths : list (option string))
  | RebuildUsb (memory : bool) (ans : nat -> register_answers) (parent : register_answers)
  | Unshare (fd : Z)
  | Clear.

Definition run_op (op : watch_op) (t : watch_table) : option (bool * watch_table) :=
  match op with
  | Register a r path kind depth => Some (register_scanner_watch_entry a r path kind depth t)
  | RemoveRoot memory r => remove_scan_root_watch_entries memory r t
  | RemovePath memory r path => remove_scan_root_watch_entries_for_path memory r path t
  | Suspend memory paths => suspend_usb_scan_root_watch_trees memory paths t
  | RebuildUsb memory ans parent => rebuild_scanner_usb_watches memory ans parent t
  | Unshare fd => Some (true, unshare_fd fd t)
  | Clear => Some (true, clear_scanner_watch_entries t)
  end.

(** What the callers guarantee: roots in range, and descriptors
    from [open] that are not in use. *)
Definition op_ok (op : watch_op) : Prop :=
  match op with
  | Register a r _ _ _ => fresh_open a /\ root_range r
  | RemoveRoot _ r | RemovePath _ r _ => root_range r
  | Suspend _ paths => (length paths <= MAX_SCAN_PATHS)%nat
  | RebuildUsb _ ans parent => (forall i, fresh_open (ans i)) /\ fresh_open parent
  | Unshare _ | Clear => True
  end.

(** Tables of a scanner; after an operation that failed, the scanner only clears. *)
Inductive watching : bool -> watch_table -> Prop :=
  | watching_init : watching true (empty_watches (Descriptors ∅ false))
  | watching_step t op ok t' : watching true t -> op_ok op -> run_op op t = Some (ok, t') -> watching ok t'
  | watching_clear t : watching false t -> watching true (clear_scanner_watch_entries t).

Lemma owned_fds {A} (g : A -> subscription) (owns : A -> bool) (fd : A -> Z) (l : list A) : (forall x, sb_owns_fd (g x) = owns x /\ sb_fd (g x) = fd x) ->
  sb_fd <$> filter (fun c => sb_owns_fd c = true) (g <$> l) = fd <$> filter (fun x => owns x = true) l.
Proof.
  intros Hg. induction l as [|x l IH]; [done|]. destruct (Hg x) as [H1 H2]. cbn [fmap list_fmap]. destruct (owns x) eqn:Ho.
  - rewrite !filter_cons_True by congruence. cbn [fmap list_fmap]. rewrite H2. by f_equal.
  - rewrite !filter_cons_False by congruence. done.
Qed.

Lemma clear_watches_spec t : structure_ok t -> clear_scanner_watch_entries t = empty_watches (Descriptors ∅ false).
Proof.
  intros [_ [H1 H2 H3 H4 H5 H6 H7] _]. unfold clear_scanner_watch_entries. f_equal.
  destruct (fold_close_spec (wt_entries t) t) as [S1 S2].
  - by rewrite <-(owned_fds core).
  - intros e He _. assert (Hc : core e ∈ subscriptions t) by (by apply list_elem_of_fmap_2). split; [by apply (H1 _ Hc)|]. apply H6. by exists (core e).
  - done.
  - destruct (wt_fds (fold_left _ _ _)) as [op st]. cbn [ds_open ds_stray] in *. subst st. f_equal. apply set_eq. intros fd. rewrite S2. split; [|set_solver].
    intros [Hin Hno]. apply H6 in Hin as (c & Hc & Hfd). destruct (H2 c Hc) as (o & Ho & Hof & Hw). unfold subscriptions in Ho. apply list_elem_of_fmap in Ho as (e & -> & He).
    destruct (Hno e He Hw). cbn in Hof. congruence.
Qed.

Lemma empty_ok : table_ok (empty_watches (Descriptors ∅ false)).
Proof.
  split; [split|].
  - split; [apply length_replicate|by intros i e|]. intros r [? ?]. exists []. split.
    + unfold root_head, empty_watches, reset_scanner_root_watch_heads. cbn [wt_heads]. rewrite lookup_replicate_2; [done|lia].
    + done.
    + constructor.
    + by intros i e.
    + done.
  - assert (Hno : forall c, c ∉ subscriptions (empty_watches (Descriptors ∅ false))) by (intros c Hc; by apply elem_of_nil in Hc). split.
    + intros c Hc. by apply Hno in Hc.
    + intros c Hc. by apply Hno in Hc.
    + constructor.
    + intros c c' Hc. by apply Hno in Hc.
    + constructor.
    + intros fd. split; [cbn; set_solver|]. intros (c & Hc & _). by apply Hno in Hc.
    + done.
  - by left.
  - split; [by left|done|done|done].
Qed.

Lemma unshare_ok fd t : table_ok t -> table_ok (unshare_fd fd t) /\ watches (unshare_fd fd t) = watches t.
Proof.
  intros [[[L1 L2 L3] [H1 H2 H3 H4 H5 H6 H7] Hs] [I1 I2 I3 I4]].
  set (f := fun e => if we_fd e =? fd then unshare e else e).
  assert (Hf : forall e, we_fd (f e) = we_fd e /\ we_owns_fd (f e) = we_owns_fd e /\ we_scan_root_index (f e) = we_scan_root_index e /\ we_prev (f e) = we_prev e /\
    we_next (f e) = we_next e /\ we_path (f e) = we_path e) by (intros e; unfold f; by case_match).
  assert (Hlk : forall i, wt_entries (unshare_fd fd t) !! i = f <$> wt_entries t !! i) by (intros i; unfold unshare_fd; cbn [with_entries wt_entries]; apply list_lookup_fmap).
  set (g := fun c => if sb_fd c =? fd then Subscription (sb_fd c) (sb_owns_fd c) false (sb_root c) (sb_depth c) (sb_kind c) (sb_path c) else c).
  assert (Hsub : subscriptions (unshare_fd fd t) = g <$> subscriptions t).
  { unfold subscriptions, unshare_fd. cbn [with_entries wt_entries]. rewrite <-!list_fmap_compose. apply list_fmap_ext. intros i e _. unfold compose, g. cbn. by case_match. }
  assert (Hg : forall c, sb_fd (g c) = sb_fd c /\ sb_owns_fd (g c) = sb_owns_fd c /\ sb_root (g c) = sb_root c /\ sb_path (g c) = sb_path c /\
    sb_fd_shareable (g c) = (if sb_fd c =? fd then false else sb_fd_shareable c) /\ key (g c) = key c) by (intros c; unfold g; by case_match).
  assert (Hgin : forall c, c ∈ g <$> subscriptions t -> exists c0, c0 ∈ subscriptions t /\ c = g c0).
  { intros c (c0 & -> & ?)%list_elem_of_fmap. by exists c0. }
  assert (Hel : length (wt_entries (unshare_fd fd t)) = length (wt_entries t)) by (unfold unshare_fd; cbn [with_entries wt_entries]; apply length_fmap).
  split; [|unfold watches; rewrite Hsub, <-list_fmap_compose; apply list_fmap_ext; intros i c _; apply Hg].
  split; [split|].
  - split; [done| |].
    + intros i e Hi. rewrite Hlk in Hi. apply fmap_Some in Hi as (e0 & He0 & ->). destruct (Hf e0) as (_ & _ & -> & _). eauto.
    + intros r Hr. destruct (L3 r Hr) as [ls [R1 R2 R3 R4 R5]]. exists ls. split; [done| |done| |done].
      * eapply dll_frame; [done|]. intros i e _ He Hre. exists (f e). rewrite Hlk, He. destruct (Hf e) as (_ & _ & ? & ? & ? & _). split_and!; [done|congruence..].
      * intros i e Hi Hre Hn. rewrite Hlk in Hi. apply fmap_Some in Hi as (e0 & He0 & ->). apply (R4 i e0); [done| |done]. destruct (Hf e0) as (_ & _ & ? & _). congruence.
  - rewrite Hsub. split.
    + intros c (c0 & Hc & ->)%Hgin. destruct (Hg c0) as (-> & _ & _ & -> & _). auto.
    + intros c (c0 & Hc & ->)%Hgin. destruct (H2 c0 Hc) as (o & Ho & ? & ?). exists (g o). split; [by apply list_elem_of_fmap_2|].
      destruct (Hg c0) as (-> & _), (Hg o) as (-> & -> & _). done.
    + rewrite (owned_fds g sb_owns_fd sb_fd); [done|]. intros c. destruct (Hg c) as (? & ? & _). done.
    + intros c c' (c0 & Hc & ->)%Hgin (c1 & Hc1 & ->)%Hgin. destruct (Hg c0) as (-> & _ & _ & -> & -> & _), (Hg c1) as (-> & _ & _ & -> & -> & _).
      intros He. destruct (H4 c0 c1 Hc Hc1 He) as [-> ->]. by rewrite He.
    + rewrite <-list_fmap_compose. erewrite list_fmap_ext; [exact H5|]. intros i c _. unfold compose. by destruct (Hg c) as (-> & _ & -> & _).
    + intros x. change (wt_fds (unshare_fd fd t)) with (wt_fds t). rewrite H6. split.
      * intros (c & Hc & <-). exists (g c). split; [by apply list_elem_of_fmap_2|apply Hg].
      * intros (c & (c0 & Hc & ->)%Hgin & <-). exists c0. split; [done|]. symmetry. apply Hg.
    + done.
  - done.
  - change (wt_index (unshare_fd fd t)) with (wt_index t). split; [done|by rewrite Hel| |].
    + intros s i (e & He & Hw)%I3. exists (f e). rewrite Hlk, He. split; [done|]. destruct (Hf e) as (_ & ? & _). congruence.
    + intros i e Hi Hw. rewrite Hlk in Hi. apply fmap_Some in Hi as (e0 & He0 & ->). destruct (Hf e0) as (-> & ? & _). apply (I4 i e0); congruence.
Qed.

Definition usb_root_index (paths : list (option string)) (r : Z) : bool :=
  (0 <=? r) && match paths !! Z.to_nat r with Some (Some p) => is_usb_storage_path p | _ => false end.

(** What the suspension removes from the [k]-th root on. *)
Definition usb_watch (paths : list (option string)) (k : nat) (w : watch) : Prop := Z.of_nat k <= w.1.1.1 /\ usb_root_index paths w.1.1.1 = true.
#[export] Instance usb_watch_dec paths k w : Decision (usb_watch paths k w).
Proof. unfold usb_watch. solve_decision. Defined.

Lemma filter_filter_watch (P Q R : watch -> Prop) `{!forall w, Decision (P w), !forall w, Decision (Q w), !forall w, Decision (R w)} (l : list watch) :
  (forall w, P w /\ Q w <-> R w) -> filter P (filter Q l) = filter R l.
Proof. intros Hpq. rewrite list_filter_filter. by apply list_filter_iff. Qed.

Lemma suspend_roots_spec paths k b t : structure_ok t -> (length paths <= MAX_SCAN_PATHS)%nat -> (k <= length paths)%nat ->
  exists b' t', suspend_roots (drop k paths) (Z.of_nat k) b t = Some (b', t') /\ structure_ok t' /\ wt_index t' = wt_index t /\
    watches t' ≡ₚ filter (fun w => ~ usb_watch paths k w) (watches t) /\ (b' = false -> t' = t /\ b = false).
Proof.
  intros Hok Hl Hk. remember (length paths - k)%nat as n eqn:Hn. revert k b t Hok Hk Hn. induction n as [|n IH]; intros k b t Hok Hk Hn.
  - rewrite drop_ge by lia. exists b, t. split_and!; try done. rewrite filter_none; [done|]. intros w _ [Hlt Hu]. unfold usb_root_index in Hu.
    rewrite lookup_ge_None_2 in Hu by lia. by rewrite andb_false_r in Hu.
  - destruct (lookup_lt_is_Some_2 paths k) as [path Hp]; [lia|]. rewrite (drop_S _ _ _ Hp). cbn [suspend_roots].
    replace (Z.of_nat k + 1) with (Z.of_nat (S k)) by lia.
    assert (Hu : usb_root_index paths (Z.of_nat k) = match path with Some p => is_usb_storage_path p | None => false end).
    { unfold usb_root_index. rewrite (proj2 (Z.leb_le _ _)), Nat2Z.id, Hp by lia. by destruct path. }
    rewrite <-Hu. destruct (usb_root_index paths (Z.of_nat k)) eqn:Huk.
    + destruct (remove_heads_spec (watch_count t) (Z.of_nat k) b t) as (b1 & t1 & -> & Hok1 & Hi1 & Hw1 & Hb1); [done|unfold root_range; lia|done|].
      cbn [fst snd]. destruct (IH (S k) b1 t1) as (b' & t' & -> & ? & Hi' & Hw' & Hb'); [done|lia|lia|]. exists b', t'. split; [done|]. split; [done|].
      split; [by rewrite Hi', Hi1|]. split.
      * rewrite Hw', Hw1. erewrite filter_filter_watch; [done|]. intros w. unfold usb_watch, of_root. split.
        -- intros [Q1 Q2] [Q3 Q4]. destruct (decide (w.1.1.1 = Z.of_nat k)); [done|]. apply Q1. split; [lia|done].
        -- intros Q1. split; [intros [Q2 Q3]; apply Q1; split; [lia|done]|]. intros Q2. apply Q1. rewrite Q2. split; [lia|done].
      * intros Hbf. destruct (Hb' Hbf) as [-> Hb0]. by apply Hb1.
    + destruct (IH (S k) b t) as (b' & t' & -> & ? & ? & Hw' & ?); [done|lia|lia|]. exists b', t'. split_and!; try done. rewrite Hw'.
      erewrite list_filter_iff; [done|]. intros w. unfold usb_watch. split; intros Q1 [Q2 Q3]; apply Q1; (split; [|done]); [|lia].
      destruct (decide (w.1.1.1 = Z.of_nat k)) as [He|]; [congruence|lia].
Qed.

Definition suspended_watch (paths : list (option string)) (w : watch) : Prop := rootless w \/ usb_root_index paths w.1.1.1 = true.
#[export] Instance suspended_watch_dec paths w : Decision (suspended_watch paths w).
Proof. unfold suspended_watch. solve_decision. Defined.

Lemma suspend_spec memory paths t : table_ok t -> (length paths <= MAX_SCAN_PATHS)%nat ->
  exists ok t', suspend_usb_scan_root_watch_trees memory paths t = Some (ok, t') /\ structure_ok t' /\ (ok = true -> table_ok t') /\ (memory = true -> ok = true) /\
    watches t' ≡ₚ filter (fun w => ~ suspended_watch paths w) (watches t).
Proof.
  intros Hok Hl. unfold suspend_usb_scan_root_watch_trees.
  destruct (remove_rootless_spec (watch_count t) 0 false t) as (b1 & t1 & -> & Hok1 & Hi1 & Hw1 & Hb1); [apply Hok|done|lia|]. cbn [fst snd].
  destruct (suspend_roots_spec paths 0 b1 t1) as (b2 & t2 & Hrun & Hok2 & Hi2 & Hw2 & Hb2); [done..|lia|]. rewrite drop_0 in Hrun. change (Z.of_nat 0) with 0 in Hrun. rewrite Hrun.
  destruct (after_removals_spec memory t b2 t2) as (ok & t' & -> & ? & Hw' & ? & ?); [done|done|congruence| |].
  { intros Hbf. destruct (Hb2 Hbf) as [-> Hb0]. by apply Hb1. }
  exists ok, t'. split_and!; try done. rewrite Hw', Hw2, Hw1. erewrite filter_filter_watch; [done|]. intros w. unfold usb_watch, suspended_watch. split.
  - intros [Q1 Q2] [Q3|Q3]; [done|]. apply Q1. split; [|done]. unfold usb_root_index in Q3. apply andb_true_iff in Q3 as [Q3 _]. lia.
  - intros Q1. split; [intros [_ Q2]|intros Q2]; apply Q1; auto.
Qed.

Lemma register_usb_roots_spec ans slots t : (forall i, fresh_open (ans i)) -> table_ok t ->
  let '(ok, t') := register_usb_roots ans slots t in table_ok t'.
Proof.
  intros Ha. revert t. induction slots as [|s slots IH]; intros t Hok; cbn [register_usb_roots]; [done|].
  pose proof (register_spec (ans s) (-1) (build_scanner_usb_root_path s) SCANNER_WATCH_USB_ROOT 0 t Hok (Ha s)) as Hr.
  destruct (register_scanner_watch_entry _ _ _ _ _ t) as [ok t']. destruct Hr as [Hok' _]; [unfold MAX_SCAN_PATHS; lia|].
  destruct ok; [|done]. by apply IH.
Qed.

Lemma rebuild_usb_spec memory ans parent t : (forall i, fresh_open (ans i)) -> fresh_open parent -> table_ok t ->
  exists ok t', rebuild_scanner_usb_watches memory ans parent t = Some (ok, t') /\ structure_ok t' /\ (ok = true -> table_ok t').
Proof.
  intros Ha Hp Hok. unfold rebuild_scanner_usb_watches.
  destruct (remove_rootless_spec (watch_count t) 0 false t) as (b1 & t1 & -> & Hok1 & Hi1 & Hw1 & Hb1); [apply Hok|done|lia|]. cbn [snd].
  destruct (after_removals_spec memory t true t1) as (ok & t2 & Hr & Hok2 & Hw2 & Hok2' & Hm); [done..|]. cbn [after_removals] in Hr. injection Hr as Hr. rewrite Hr.
  destruct ok; cbn [negb]; [|eauto]. pose proof (register_spec parent (-1) "/mnt" SCANNER_WATCH_USB_PARENT 0 t2 (Hok2' eq_refl) Hp) as Hreg.
  destruct (register_scanner_watch_entry _ _ _ _ _ t2) as [ok t3]. destruct Hreg as [Hok3 _]; [unfold MAX_SCAN_PATHS; lia|].
  destruct ok; cbn [negb]; [|exists false, t3; split_and!; try done; apply Hok3].
  pose proof (register_usb_roots_spec ans (seq 0 SCANNER_USB_SLOT_COUNT) t3 Ha Hok3) as Hfin. destruct (register_usb_roots _ _ _) as [ok t4].
  exists ok, t4. split_and!; try done. apply Hfin.
Qed.

(** One operation, on a sound table. *)
Lemma watch_op_runs op t : table_ok t -> op_ok op -> exists ok t', run_op op t = Some (ok, t') /\ structure_ok t' /\ (ok = true -> table_ok t').
Proof.
  intros Hok Hop. destruct op as [a r path kind depth|memory r|memory r path|memory paths|memory ans parent|fd|]; cbn [run_op op_ok] in *.
  - destruct Hop as (? & ?). pose proof (register_spec a r path kind depth t Hok) as Hr. destruct (register_scanner_watch_entry _ _ _ _ _ _) as [ok t'].
    exists ok, t'. destruct Hr as [Hok' _]; [done|unfold root_range in *; lia|]. split_and!; try done. apply Hok'.
  - destruct (remove_root_spec memory r t Hok Hop) as (ok & t' & ? & ? & ? & _). by exists ok, t'.
  - destruct (remove_path_spec memory r path t Hok Hop) as (ok & t' & ? & ? & ? & _). by exists ok, t'.
  - destruct (suspend_spec memory paths t Hok Hop) as (ok & t' & ? & ? & ? & _). by exists ok, t'.
  - destruct Hop. by apply rebuild_usb_spec.
  - destruct (unshare_ok fd t Hok) as [Hok' _]. exists true, (unshare_fd fd t). split_and!; try done. apply Hok'.
  - exists true, (clear_scanner_watch_entries t). rewrite clear_watches_spec by apply Hok. pose proof empty_ok as He. split_and!; try done. apply He.
Qed.

Lemma watching_ok ok t : watching ok t -> structure_ok t /\ (ok = true -> table_ok t).
Proof.
  pose proof empty_ok as He. induction 1 as [|t op ok t' _ [_ IH] Hop Hrun|t _ [IH _]].
  - split; [apply He|done].
  - destruct (watch_op_runs op t) as (ok' & t'' & Hrun' & ? & ?); [auto|done|]. simplify_eq. done.
  - rewrite clear_watches_spec by done. split; [apply He|done].
Qed.

(** Per descriptor one subscription of every root at most, and one of no root. *)
Lemma subscriptions_fit t ident : structure_ok t -> (length (filter (fun e => we_fd e = ident) (wt_entries t)) <= MAX_SCAN_PATHS + 1)%nat.
Proof.
  intros [Hl Hf _]. assert (Hnd : NoDup (we_scan_root_index <$> filter (fun e => we_fd e = ident) (wt_entries t))).
  { pose proof (fo_once _ _ Hf) as Hnd. unfold subscriptions in Hnd. rewrite <-list_fmap_compose in Hnd. clear -Hnd. induction (wt_entries t) as [|e es IH]; [constructor|].
    cbn [fmap list_fmap] in Hnd. apply NoDup_cons in Hnd as [Hn Hnd]. specialize (IH Hnd). destruct (decide (we_fd e = ident)).
    - rewrite filter_cons_True by done. cbn [fmap list_fmap]. apply NoDup_cons. split; [|done]. intros (x & Hx & [Hfx Hx']%list_elem_of_filter)%list_elem_of_fmap.
      apply Hn. apply list_elem_of_fmap. exists x. split; [|done]. unfold compose. cbn. congruence.
    - by rewrite filter_cons_False. }
  assert (Hsub : we_scan_root_index <$> filter (fun e => we_fd e = ident) (wt_entries t) ⊆+ seqZ (-1) (Z.of_nat (MAX_SCAN_PATHS + 1))).
  { apply NoDup_submseteq; [done|]. intros x (e & -> & [_ [i He]%list_elem_of_lookup]%list_elem_of_filter)%list_elem_of_fmap. apply elem_of_seqZ.
    pose proof (lo_roots _ _ Hl i e He). lia. }
  apply submseteq_length in Hsub. rewrite length_fmap, length_seqZ in Hsub. lia.
Qed.

(** ** Theorems *)

(** Claim C19: After any history of registrations, removals, suspensions, rebuilds and failures
    (memory, [open], [kevent]), every operation ends; every open descriptor has exactly one
    entry that closes it and every entry's descriptor is open; no descriptor is ever
    closed twice; clearing the table closes all of them. *)
Theorem watch_descriptors_safe ok t : watching ok t ->
  ds_stray (wt_fds t) = false /\
  (forall fd, fd ∈ ds_open (wt_fds t) <-> exists i e, wt_entries t !! i = Some e /\ we_fd e = fd) /\
  (forall fd, fd ∈ ds_open (wt_fds t) -> exists! i, exists e, wt_entries t !! i = Some e /\ we_fd e = fd /\ we_owns_fd e = true) /\
  wt_fds (clear_scanner_watch_entries t) = Descriptors ∅ false /\
  (ok = true -> forall op, op_ok op -> exists ok' t', run_op op t = Some (ok', t')).
Proof.
  intros Hw. destruct (watching_ok _ _ Hw) as [Hs Hok]. pose proof Hs as [_ Hf _].
  assert (Hin : forall fd, fd ∈ ds_open (wt_fds t) <-> exists i e, wt_entries t !! i = Some e /\ we_fd e = fd).
  { intros fd. rewrite (fo_open _ _ Hf). split.
    - intros (c & (e & -> & [i He]%list_elem_of_lookup)%list_elem_of_fmap & <-). by exists i, e.
    - intros (i & e & He & <-). exists (core e). split; [|done]. apply list_elem_of_fmap_2. by eapply list_elem_of_lookup_2. }
  split; [apply Hf|]. split; [done|]. split; [|split; [by rewrite clear_watches_spec|]].
  - intros fd (i & e & He & <-)%Hin. assert (Hc : core e ∈ subscriptions t) by (apply list_elem_of_fmap_2; by eapply list_elem_of_lookup_2).
    destruct (fo_owner _ _ Hf _ Hc) as (c & (o & -> & [j Ho]%list_elem_of_lookup)%list_elem_of_fmap & Hof & Hwn). exists j. split; [by exists o|].
    intros j' (o' & Ho' & Hof' & Hwn'). cbn in Hof, Hwn.
    assert (core o = core o') as Hco.
    { eapply owners_one; [exact Hf| | | | |cbn; congruence]; try (apply list_elem_of_fmap_2; by eapply list_elem_of_lookup_2); done. }
    pose proof (fo_once _ _ Hf) as Hnd. eapply (NoDup_lookup _ j j' _ Hnd); rewrite list_lookup_fmap; unfold subscriptions; rewrite list_lookup_fmap; [by rewrite Ho|by rewrite Ho', Hco].
  - intros -> op Hop. destruct (watch_op_runs op t (Hok eq_refl) Hop) as (ok' & t' & ? & _). by exists ok', t'.
Qed.

(** Looking up a descriptor in the index ends and is exact: it finds the entry that
    owns the descriptor, and nothing when no directory is watched through it; and the array
    into which an event copies the subscriptions of a descriptor is large enough for all. *)
Theorem watch_lookup_exact t ident : watching true t ->
  exists r, find_scanner_watch_entry_by_fd t ident = Some r /\
    (forall i, r = Some i <-> exists e, wt_entries t !! i = Some e /\ we_fd e = ident /\ we_owns_fd e = true) /\
    (r = None <-> forall e, e ∈ wt_entries t -> we_fd e <> ident) /\
    (length (filter (fun e => we_fd e = ident) (wt_entries t)) <= MAX_SCAN_PATHS + 1)%nat.
Proof.
  intros Hw. destruct (watching_ok _ _ Hw) as [Hs Hok]. destruct (Hok eq_refl) as [_ Hi]. pose proof Hs as [Hl Hf _].
  destruct (find_by_fd_spec t ident Hi) as (r & Hr & Hspec). exists r. split; [done|].
  assert (Hown : forall e, e ∈ wt_entries t -> exists o, o ∈ wt_entries t /\ we_fd o = we_fd e /\ we_owns_fd o = true).
  { intros e He. destruct (fo_owner _ _ Hf (core e)) as (c & (o & -> & Ho)%list_elem_of_fmap & ? & ?); [by apply list_elem_of_fmap_2|]. by exists o. }
  assert (Hone : forall i j e o, wt_entries t !! i = Some e -> wt_entries t !! j = Some o -> we_owns_fd e = true -> we_owns_fd o = true -> we_fd e = we_fd o -> i = j).
  { intros i j e o He Ho We Wo Hfd. assert (Hin : forall k x, wt_entries t !! k = Some x -> core x ∈ subscriptions t) by (intros k x Hx; apply list_elem_of_fmap_2; by eapply list_elem_of_lookup_2).
    assert (Hco : core e = core o) by (by eapply (owners_one (core e) (core o)); eauto).
    eapply (NoDup_lookup _ i j _ (fo_once _ _ Hf)); rewrite list_lookup_fmap; unfold subscriptions; rewrite list_lookup_fmap; [by rewrite He|by rewrite Ho, Hco]. }
  split; [|split].
  - intros i. destruct r as [k|].
    + destruct Hspec as (e & He & We & Hfd). split; [intros [= ->]; by exists e|]. intros (e' & He' & Hfd' & We'). f_equal. by apply (Hone k i e e'); [..|congruence].
    + split; [done|]. intros (e & He & Hfd & We). by destruct (Hspec e); [eapply list_elem_of_lookup_2|..].
  - destruct r as [k|].
    + destruct Hspec as (e & He & We & Hfd). split; [done|]. intros Hno. by destruct (Hno e); [eapply list_elem_of_lookup_2|].
    + split; [|done]. intros _ e He Hfd. destruct (Hown e He) as (o & Ho & Hof & Wo). apply (Hspec o Ho Wo). congruence.
  - by apply subscriptions_fit.
Qed.

(** Removing the watches of a scan root, or those below one directory of it, ends
    and leaves exactly the other subscriptions, whatever entries were moved in the array
    meanwhile; it fails only when memory for the index is short. *)
Theorem watch_removal_exact t memory r path : watching true t -> root_range r ->
  (exists ok t', remove_scan_root_watch_entries memory r t = Some (ok, t') /\ (memory = true -> ok = true) /\
    watches t' ≡ₚ filter (fun w => ~ of_root r w) (watches t)) /\
  exists ok t', remove_scan_root_watch_entries_for_path memory r path t = Some (ok, t') /\ (memory = true -> ok = true) /\
    watches t' ≡ₚ filter (fun w => ~ (of_root r w /\ path_matches_root_or_child w.1.1.2 path = true)) (watches t).
Proof.
  intros Hw Hr. destruct (watching_ok _ _ Hw) as [_ Hok]. specialize (Hok eq_refl). split.
  - destruct (remove_root_spec memory r t Hok Hr) as (ok & t' & ? & _ & _ & ? & ?). by exists ok, t'.
  - destruct (remove_path_spec memory r path t Hok Hr) as (ok & t' & ? & _ & _ & ? & Hp). by exists ok, t'.
Qed.

(** ** A concrete history *)
Definition next_fd (used : gset Z) : Z := 1 + fold_right Z.max 0 (elements used).

Lemma next_fd_fresh used : 0 <= next_fd used /\ next_fd used ∉ used.
Proof.
  assert (H : forall l, 0 <= fold_right Z.max 0 l /\ forall x, x ∈ l -> x <= fold_right Z.max 0 l).
  { induction l as [|y l [IH1 IH2]]; cbn; [split; [lia|]; intros x Hx; by apply elem_of_nil in Hx|]. split; [lia|].
    intros x [->|Hx]%elem_of_cons; [lia|]. specialize (IH2 x Hx). lia. }
  destruct (H (elements used)) as [H1 H2]. unfold next_fd. split; [lia|]. intros Hin. apply elem_of_elements, H2 in Hin. lia.
Qed.

Definition demo_answers : register_answers := RegisterAnswers true true (Some next_fd) (fun fd => Some (7, 42)) true.

Lemma demo_fresh : fresh_open demo_answers.
Proof. intros pick [= <-]. apply next_fd_fresh. Qed.

(** Two roots watch one directory through a descriptor, the first a second directory. *)
Definition demo_watch_table : watch_table :=
  let t := empty_watches (Descriptors ∅ false) in
  let t := (register_scanner_watch_entry demo_answers 0 "/data/a" SCANNER_WATCH_SCAN_ROOT 0 t).2 in
  let t := (register_scanner_watch_entry demo_answers 1 "/data/a" SCANNER_WATCH_SCAN_ROOT_PARENT 0 t).2 in
  (register_scanner_watch_entry demo_answers 0 "/data/a/b" SCANNER_WATCH_SCAN_SUBDIR 1 t).2.

Lemma watching_register t a r path kind depth : watching true t -> op_ok (Register a r path kind depth) ->
  (register_scanner_watch_entry a r path kind depth t).1 = true -> watching true (register_scanner_watch_entry a r path kind depth t).2.
Proof.
  intros Hw Hop Hr. eapply (watching_step t _ true); [done|exact Hop|]. cbn [run_op]. rewrite <-Hr. by destruct (register_scanner_watch_entry _ _ _ _ _ _).
Qed.

Lemma demo_op r path kind depth : (0 <=? r) && (r <? 256) = true -> op_ok (Register demo_answers r path kind depth).
Proof. intros H. bool_hyps. split; [apply demo_fresh|]. unfold root_range, MAX_SCAN_PATHS. lia. Qed.

Lemma demo_watching : watching true demo_watch_table.
Proof.
  unfold demo_watch_table. apply watching_register; [apply watching_register; [apply watching_register; [apply watching_init|..]|..]|..];
    (apply demo_op; reflexivity) || (vm_compute; reflexivity).
Qed.

(** The first root leaves; the second keeps the shared descriptor open. *)
Example demo_watch_removal :
  (fun p => (p.1, (fun e => (we_fd e, we_owns_fd e, we_scan_root_index e, we_path e)) <$> wt_entries p.2, elements (ds_open (wt_fds p.2)))) <$>
    remove_scan_root_watch_entries true 0 demo_watch_table = Some (true, [(1, true, 1, "/data/a"%string)], [1]).
Proof. vm_compute. reflexivity. Qed.

Lemma watch_descriptors_safe_witness : ds_stray (wt_fds demo_watch_table) = false /\ wt_fds (clear_scanner_watch_entries demo_watch_table) = Descriptors ∅ false.
Proof. destruct (watch_descriptors_safe true demo_watch_table demo_watching) as (H1 & _ & _ & H2 & _). split; [exact H1|exact H2]. Defined.

Lemma watch_lookup_exact_witness : find_scanner_watch_entry_by_fd demo_watch_table 2 = Some (Some 2%nat) /\
  exists r, find_scanner_watch_entry_by_fd demo_watch_table 9 = Some r /\ (r = None <-> forall e, e ∈ wt_entries demo_watch_table -> we_fd e <> 9).
Proof.
  split; [vm_compute; reflexivity|]. destruct (watch_lookup_exact demo_watch_table 9 demo_watching) as (r & H1 & _ & H2 & _). exists r. split; [exact H1|exact H2].
Defined.

Lemma watch_removal_exact_witness : exists ok t', remove_scan_root_watch_entries true 0 demo_watch_table = Some (ok, t') /\ (true = true -> ok = true) /\
  watches t' ≡ₚ filter (fun w => ~ of_root 0 w) (watches demo_watch_table).
Proof.
  assert (Hr : root_range 0) by (unfold root_range, MAX_SCAN_PATHS; lia).
  destruct (watch_removal_exact demo_watch_table true 0 "/data/a" demo_watching Hr) as [H _]. exact H.
Defined.
