(* ===== verification/ScannerSchedule.v ===== *)
(** * What the scanner has to do, and when (src/sm_scanner.c, second part)

    Per scan root: whether it is to be scanned, from when, and which part of its tree of
    watches is stale; besides, the deadlines of configuration and manual list, and the
    wait until the first of all of them.  [paths] are the answers of [get_scan_path] for
    the indexes below [get_scan_path_count()]. *)
From S2P Require Import Prelude CString ScannerWatch.
From stdpp Require Import list.
Open Scope Z_scope.
Open Scope c_scope.

(** ** State *)
Record scanner_root_state_t := RootState {
  rt_dirty : bool; rt_cleanup_pending : bool; rt_watch_tree_stale : bool; rt_root_present : bool; rt_usb_connect_counted : bool;
  rt_rebuild_depth : Z; rt_rebuild_kind : scanner_watch_kind_t; rt_root_device : Z; rt_root_inode : Z; rt_ready_after_us : Z;
  rt_usb_connect_found_games : Z; rt_rebuild_path : string;
}.

Definition cleared_root : scanner_root_state_t := RootState false false false false false 0 SCANNER_WATCH_SCAN_ROOT 0 0 0 0 "".

Definition set_dirty (d : bool) (ready : Z) (s : scanner_root_state_t) : scanner_root_state_t :=
  RootState d (rt_cleanup_pending s) (rt_watch_tree_stale s) (rt_root_present s) (rt_usb_connect_counted s) (rt_rebuild_depth s) (rt_rebuild_kind s)
    (rt_root_device s) (rt_root_inode s) ready (rt_usb_connect_found_games s) (rt_rebuild_path s).
Definition set_cleanup (c : bool) (s : scanner_root_state_t) : scanner_root_state_t :=
  RootState (rt_dirty s) c (rt_watch_tree_stale s) (rt_root_present s) (rt_usb_connect_counted s) (rt_rebuild_depth s) (rt_rebuild_kind s)
    (rt_root_device s) (rt_root_inode s) (rt_ready_after_us s) (rt_usb_connect_found_games s) (rt_rebuild_path s).
Definition set_rebuild (stale : bool) (depth : Z) (kind : scanner_watch_kind_t) (path : string) (s : scanner_root_state_t) : scanner_root_state_t :=
  RootState (rt_dirty s) (rt_cleanup_pending s) stale (rt_root_present s) (rt_usb_connect_counted s) depth kind
    (rt_root_device s) (rt_root_inode s) (rt_ready_after_us s) (rt_usb_connect_found_games s) path.
Definition set_presence (present : bool) (device inode : Z) (s : scanner_root_state_t) : scanner_root_state_t :=
  RootState (rt_dirty s) (rt_cleanup_pending s) (rt_watch_tree_stale s) present (rt_usb_connect_counted s) (rt_rebuild_depth s) (rt_rebuild_kind s)
    device inode (rt_ready_after_us s) (rt_usb_connect_found_games s) (rt_rebuild_path s).
Definition set_counted (counted : bool) (games : Z) (s : scanner_root_state_t) : scanner_root_state_t :=
  RootState (rt_dirty s) (rt_cleanup_pending s) (rt_watch_tree_stale s) (rt_root_present s) counted (rt_rebuild_depth s) (rt_rebuild_kind s)
    (rt_root_device s) (rt_root_inode s) (rt_ready_after_us s) games (rt_rebuild_path s).

(** The global timers; 0 is none. *)
Record scanner_timers := Timers {
  tm_config_reload_pending : bool; tm_config_reload_ready_after_us : Z; tm_config_probe_due_us : Z;
  tm_manual_scan_due_us : Z; tm_manual_probe_due_us : Z; tm_usb_mount_probe_due_us : Z;
}.

Definition SCANNER_CONFIG_RELOAD_DEBOUNCE_US : Z := 250000.
Definition SCANNER_CONFIG_PROBE_INTERVAL_US : Z := 10000000.
Definition SCANNER_MANUAL_RELOAD_DEBOUNCE_US : Z := 250000.
Definition SCANNER_MANUAL_PROBE_INTERVAL_US : Z := 10000000.
Definition SCANNER_USB_MOUNT_PROBE_DELAY_US : Z := 1000000.

Definition schedule_config_reload (now_us : Z) (t : scanner_timers) : scanner_timers :=
  Timers true (u64 (now_us + SCANNER_CONFIG_RELOAD_DEBOUNCE_US)) (tm_config_probe_due_us t) (tm_manual_scan_due_us t) (tm_manual_probe_due_us t) (tm_usb_mount_probe_due_us t).
Definition set_config_probe (due : Z) (t : scanner_timers) : scanner_timers :=
  Timers (tm_config_reload_pending t) (tm_config_reload_ready_after_us t) due (tm_manual_scan_due_us t) (tm_manual_probe_due_us t) (tm_usb_mount_probe_due_us t).
Definition schedule_config_probe (now_us : Z) (t : scanner_timers) : scanner_timers := set_config_probe (u64 (now_us + SCANNER_CONFIG_PROBE_INTERVAL_US)) t.
Definition set_manual_scan (due : Z) (t : scanner_timers) : scanner_timers :=
  Timers (tm_config_reload_pending t) (tm_config_reload_ready_after_us t) (tm_config_probe_due_us t) due (tm_manual_probe_due_us t) (tm_usb_mount_probe_due_us t).
Definition schedule_manual_scan (now_us : Z) (t : scanner_timers) : scanner_timers := set_manual_scan (u64 (now_us + SCANNER_MANUAL_RELOAD_DEBOUNCE_US)) t.
Definition set_manual_probe (due : Z) (t : scanner_timers) : scanner_timers :=
  Timers (tm_config_reload_pending t) (tm_config_reload_ready_after_us t) (tm_config_probe_due_us t) (tm_manual_scan_due_us t) due (tm_usb_mount_probe_due_us t).
Definition schedule_manual_probe (now_us : Z) (t : scanner_timers) : scanner_timers := set_manual_probe (u64 (now_us + SCANNER_MANUAL_PROBE_INTERVAL_US)) t.
Definition set_usb_probe (due : Z) (t : scanner_timers) : scanner_timers :=
  Timers (tm_config_reload_pending t) (tm_config_reload_ready_after_us t) (tm_config_probe_due_us t) (tm_manual_scan_due_us t) (tm_manual_probe_due_us t) due.
Definition clear_scanner_config_reload_state (t : scanner_timers) : scanner_timers :=
  Timers false 0 0 (tm_manual_scan_due_us t) (tm_manual_probe_due_us t) (tm_usb_mount_probe_due_us t).
Definition clear_scanner_manual_scan_state (t : scanner_timers) : scanner_timers := set_manual_scan 0 (set_manual_probe 0 t).

(** ** USB slots *)

(** -1 for a path outside the numbered slots. *)
Definition scanner_usb_slot_for_path (path : string) : Z :=
  if negb (has_prefix path "/mnt/usb") then -1
  else
    match char_at path 8 with
    | None => -1
    | Some c =>
        let n := Z.of_nat (nat_of_ascii c) in
        if (n <? 48) || (56 <=? n) then -1
        else
          match char_at path 9 with
          | Some s => if bool_decide (s = slash) then n - 48 else -1
          | None => n - 48
          end
    end.

Definition slot_mask (slot : Z) : Z := u8 (Z.shiftl 1 slot).
Definition slot_bit (mask slot : Z) : bool := negb (Z.land mask (slot_mask slot) =? 0).

(** ** Scan roots *)
Definition reset_scanner_root_states : list scanner_root_state_t := replicate ConfigState.MAX_SCAN_PATHS cleared_root.

Definition clear_scan_root_watch_tree_state (s : scanner_root_state_t) : scanner_root_state_t := set_rebuild false 0 SCANNER_WATCH_SCAN_ROOT "" s.

Definition on_root (i : Z) (f : scanner_root_state_t -> scanner_root_state_t) (roots : list scanner_root_state_t) : list scanner_root_state_t :=
  alter f (Z.to_nat i) roots.
Definition root_at (roots : list scanner_root_state_t) (i : Z) : scanner_root_state_t := default cleared_root (roots !! Z.to_nat i).

(** [get_scan_path]. *)
Definition scan_path_at (paths : list (option string)) (i : Z) : option string :=
  if i <? 0 then None else default None (paths !! Z.to_nat i).

Definition schedule_scan_root_cleanup (i : Z) (roots : list scanner_root_state_t) : list scanner_root_state_t := on_root i (set_cleanup true) roots.

(** [wait] is the stability wait, [pending] the mask of slots whose scan is to be reported. *)
Definition mark_dirty (pending wait : Z) (scan_root : string) (now_us : Z) (immediate : bool) (s : scanner_root_state_t) : scanner_root_state_t :=
  let usb_slot := scanner_usb_slot_for_path scan_root in
  let s := if (0 <=? usb_slot) && slot_bit pending usb_slot then set_counted false (rt_usb_connect_found_games s) s else s in
  let ready_after_us := if immediate then now_us else u64 (now_us + wait) in
  if negb (rt_dirty s) then set_dirty true ready_after_us s
  else if immediate then (if ready_after_us <? rt_ready_after_us s then set_dirty true ready_after_us s else s)
  else if rt_ready_after_us s <? ready_after_us then set_dirty true ready_after_us s else s.

Definition schedule_scan_root_dirty (paths : list (option string)) (pending wait i now_us : Z) (immediate : bool)
    (roots : list scanner_root_state_t) : list scanner_root_state_t :=
  match scan_path_at paths i with
  | None => roots
  | Some scan_root => on_root i (mark_dirty pending wait scan_root now_us immediate) roots
  end.

(** The loop over the roots of a USB slot. *)
Fixpoint schedule_slot_from (paths all : list (option string)) (pending wait slot excluded now_us i : Z) (roots : list scanner_root_state_t) : list scanner_root_state_t :=
  match paths with
  | [] => roots
  | path :: paths' =>
      let roots :=
        match path with
        | Some p => if negb (i =? excluded) && (scanner_usb_slot_for_path p =? slot) then schedule_scan_root_dirty all pending wait i now_us true roots else roots
        | None => roots
        end in
      schedule_slot_from paths' all pending wait slot excluded now_us (i + 1) roots
  end.

Definition schedule_scan_roots_for_usb_slot_except (paths : list (option string)) (pending wait slot excluded now_us : Z) (roots : list scanner_root_state_t) : list scanner_root_state_t :=
  schedule_slot_from paths paths pending wait slot excluded now_us 0 roots.
Definition schedule_scan_roots_for_usb_slot (paths : list (option string)) (pending wait slot now_us : Z) (roots : list scanner_root_state_t) : list scanner_root_state_t :=
  schedule_scan_roots_for_usb_slot_except paths pending wait slot (-1) now_us roots.

(** The slots in order, [for (slot = 0; slot < SCANNER_USB_SLOT_COUNT; slot++)]. *)
Definition usb_slots : list Z := [0; 1; 2; 3; 4; 5; 6; 7].

Definition schedule_pending_scanner_usb_scans (paths : list (option string)) (pending wait now_us : Z) (roots : list scanner_root_state_t) : list scanner_root_state_t :=
  fold_left (fun roots slot => if slot_bit pending slot then schedule_scan_roots_for_usb_slot paths pending wait slot now_us roots else roots) usb_slots roots.

Definition clear_all_dirty_scan_roots (paths : list (option string)) (roots : list scanner_root_state_t) : list scanner_root_state_t :=
  imap (fun i s => if (i <? length paths)%nat then clear_scan_root_watch_tree_state (set_cleanup false (set_dirty false 0 s)) else s) roots.

(** Events of a vnode, as the bits the code tests. *)
Record vnode_flags := VnodeFlags { nf_write : bool; nf_extend : bool; nf_attrib : bool; nf_delete : bool; nf_rename : bool; nf_revoke : bool }.

Definition scanner_event_requires_consistency_cleanup (f : vnode_flags) : bool := nf_delete f || nf_rename f || nf_revoke f.
Definition tree_change (f : vnode_flags) : bool := nf_write f || nf_extend f || nf_delete f || nf_rename f || nf_revoke f.

Record scanner_event_subscription_t := EventSubscription { ev_scan_root_index : Z; ev_depth : Z; ev_kind : scanner_watch_kind_t }.

(** [scan_depth] is [get_scan_depth_for_root]. *)
Definition scanner_event_requires_watch_tree_refresh (paths : list (option string)) (scan_depth : string -> Z) (sub : scanner_event_subscription_t) (f : vnode_flags) : bool :=
  match ev_kind sub with
  | SCANNER_WATCH_SCAN_ROOT => tree_change f
  | SCANNER_WATCH_SCAN_SUBDIR =>
      match scan_path_at paths (ev_scan_root_index sub) with
      | Some scan_root => (ev_depth sub <? scan_depth scan_root) && tree_change f
      | None => false
      end
  | _ => false
  end.

(** The path, depth and kind of the tree to rebuild. *)
Definition resolve_watch_tree_rebuild_target (paths : list (option string)) (sub : scanner_event_subscription_t) (watched_path : string) : option (string * Z * scanner_watch_kind_t) :=
  match ev_kind sub with
  | SCANNER_WATCH_SCAN_ROOT | SCANNER_WATCH_SCAN_SUBDIR => Some (strlcpy watched_path MAX_PATH, ev_depth sub, ev_kind sub)
  | SCANNER_WATCH_SCAN_ROOT_PARENT => do? p <- scan_path_at paths (ev_scan_root_index sub); Some (p, 0, SCANNER_WATCH_SCAN_ROOT)
  | _ => None
  end.

Definition merge_rebuild (scan_root : option string) (path : string) (depth : Z) (kind : scanner_watch_kind_t) (s : scanner_root_state_t) : scanner_root_state_t :=
  if negb (rt_watch_tree_stale s) || strcmp_eq (rt_rebuild_path s) "" then set_rebuild true depth kind (strlcpy path MAX_PATH) s
  else if strcmp_eq (rt_rebuild_path s) path then
    set_rebuild (rt_watch_tree_stale s) (if depth <? rt_rebuild_depth s then depth else rt_rebuild_depth s)
      (match kind with SCANNER_WATCH_SCAN_ROOT => kind | _ => rt_rebuild_kind s end) (rt_rebuild_path s) s
  else if path_matches_root_or_child path (rt_rebuild_path s) then s
  else if path_matches_root_or_child (rt_rebuild_path s) path then set_rebuild (rt_watch_tree_stale s) depth kind (strlcpy path MAX_PATH) s
  else set_rebuild true 0 SCANNER_WATCH_SCAN_ROOT (default (rt_rebuild_path s) scan_root) s.

Definition schedule_scan_root_watch_tree_rebuild (paths : list (option string)) (sub : scanner_event_subscription_t) (watched_path : string)
    (roots : list scanner_root_state_t) : list scanner_root_state_t :=
  match resolve_watch_tree_rebuild_target paths sub watched_path with
  | None => roots
  | Some (path, depth, kind) => on_root (ev_scan_root_index sub) (merge_rebuild (scan_path_at paths (ev_scan_root_index sub)) path depth kind) roots
  end.

(** [stat] of the root: device and inode of a directory.  The result is whether the
    presence changed. *)
Definition update_presence (identity : option (Z * Z)) (s : scanner_root_state_t) : bool * scanner_root_state_t :=
  let present := bool_decide (is_Some identity) in
  let '(device, inode) := default (0, 0) identity in
  let changed := negb (eqb (rt_root_present s) present) ||
    (present && rt_root_present s && (negb (rt_root_device s =? device) || negb (rt_root_inode s =? inode))) in
  (changed, set_presence present device inode s).

Definition update_scan_root_presence_state (identity : option (Z * Z)) (i : Z) (roots : list scanner_root_state_t) : bool * list scanner_root_state_t :=
  let '(changed, s) := update_presence identity (root_at roots i) in (changed, on_root i (fun _ => s) roots).

(** ** Parent directories *)
(** The length of the path before its last slash. *)
Definition before_last_slash (path : string) : option nat :=
  option_map (fun rest => (strlen path - strlen rest - 1)%nat) (after_last path slash).

Definition build_parent_directory_path (path : string) : option string :=
  match before_last_slash path with
  | None => None
  | Some O => Some "/"%string
  | Some n => Some (String.substring 0 (Nat.min n (MAX_PATH - 1)) path)
  end.

(** The closest parent that is a directory; [fuel] above the length of the path is enough. *)
Fixpoint existing_parent (fuel : nat) (is_dir : string -> bool) (current_path : string) : option (option string) :=
  match fuel with
  | O => None
  | S fuel' =>
      match build_parent_directory_path current_path with
      | None => Some None
      | Some candidate =>
          if strcmp_eq candidate current_path then Some None
          else if is_dir candidate then Some (Some candidate)
          else existing_parent fuel' is_dir (strlcpy candidate MAX_PATH)
      end
  end.

Definition resolve_existing_parent_directory_path (is_dir : string -> bool) (path : string) : option (option string) :=
  existing_parent (S (strlen path)) is_dir (strlcpy path MAX_PATH).

(** ** Deadlines *)
Fixpoint find_pending_from (count i : nat) (roots : list scanner_root_state_t) : option nat :=
  match count with
  | O => None
  | S count' => if rt_cleanup_pending (root_at roots (Z.of_nat i)) then Some i else find_pending_from count' (S i) roots
  end.
Definition find_pending_cleanup_scan_root (count : nat) (roots : list scanner_root_state_t) : option nat := find_pending_from count 0 roots.

(** [selected] is the root found so far with its deadline. *)
Fixpoint find_due_from (count i : nat) (now_us : Z) (selected : option (nat * Z)) (roots : list scanner_root_state_t) : option (nat * Z) :=
  match count with
  | O => selected
  | S count' =>
      let s := root_at roots (Z.of_nat i) in
      let selected :=
        if negb (rt_dirty s) then selected
        else if now_us <? rt_ready_after_us s then selected
        else match selected with
             | None => Some (i, rt_ready_after_us s)
             | Some (_, deadline) => if rt_ready_after_us s <? deadline then Some (i, rt_ready_after_us s) else selected
             end in
      find_due_from count' (S i) now_us selected roots
  end.
Definition find_due_dirty_scan_root (count : nat) (now_us : Z) (roots : list scanner_root_state_t) : option nat :=
  fst <$> find_due_from count 0 now_us None roots.

Definition config_reload_due (t : scanner_timers) (now_us : Z) : bool := tm_config_reload_pending t && (tm_config_reload_ready_after_us t <=? now_us).
(** [missing] tells that one of the configuration files is not open. *)
Definition config_probe_due (missing : bool) (t : scanner_timers) (now_us : Z) : bool :=
  missing && negb (tm_config_probe_due_us t =? 0) && (tm_config_probe_due_us t <=? now_us).

(** [if (active && (next_deadline == 0 || due < next_deadline)) next_deadline = due;] *)
Definition earlier (active : bool) (due next_deadline : Z) : Z := if active && ((next_deadline =? 0) || (due <? next_deadline)) then due else next_deadline.

Fixpoint earliest_root (count i : nat) (roots : list scanner_root_state_t) (next_deadline : Z) : Z :=
  match count with
  | O => next_deadline
  | S count' => let s := root_at roots (Z.of_nat i) in earliest_root count' (S i) roots (earlier (rt_dirty s) (rt_ready_after_us s) next_deadline)
  end.

(** [install_wake_us] is [sm_install_next_wake_us(now_us)]. *)
Definition compute_next_scan_deadline_us (count : nat) (config_missing manual_missing : bool) (t : scanner_timers) (roots : list scanner_root_state_t)
    (install_wake_us full_resync_due_us cache_cleanup_due_us : Z) (include_scan_work : bool) : Z :=
  let d := full_resync_due_us in
  let d := earlier (negb (install_wake_us =? 0)) install_wake_us d in
  let d := earlier (tm_config_reload_pending t) (tm_config_reload_ready_after_us t) d in
  let d := earlier (config_missing && negb (tm_config_probe_due_us t =? 0)) (tm_config_probe_due_us t) d in
  let d := earlier (include_scan_work && negb (tm_manual_scan_due_us t =? 0)) (tm_manual_scan_due_us t) d in
  let d := earlier (manual_missing && negb (tm_manual_probe_due_us t =? 0)) (tm_manual_probe_due_us t) d in
  let d := earlier (negb (tm_usb_mount_probe_due_us t =? 0)) (tm_usb_mount_probe_due_us t) d in
  if include_scan_work then earliest_root count 0 roots (earlier (negb (cache_cleanup_due_us =? 0)) cache_cleanup_due_us d) else d.

(** [None] waits without a limit; otherwise seconds and nanoseconds. *)
Definition build_wait_timeout (now_us deadline_us : Z) : option (Z * Z) :=
  if deadline_us =? 0 then None
  else if deadline_us <=? now_us then Some (0, 0)
  else let delta_us := deadline_us - now_us in Some (delta_us / 1000000, delta_us mod 1000000 * 1000).

(** The full resync is off while work is blocked, and due at once afterwards. *)
Definition update_scan_work_blocked (blocked was_blocked : bool) (now_us next_full_resync_us : Z) : bool * Z :=
  if blocked then (true, 0)
  else if was_blocked then (false, now_us) else (was_blocked, next_full_resync_us).

(** ** What the main loop does next *)

(** The checks of one turn of [sm_scanner_run_loop], in the order of the code, for a scanner
    that is awake, after its USB probes were processed; [ti_busy] is the second answer of [sm_shellcore_background_work_blocked],
    [ti_requested] whether a scan is requested while work is not blocked. *)
Record turn_input := TurnInput {
  ti_now_us : Z; ti_busy : bool; ti_requested : bool; ti_config_missing : bool; ti_manual_missing : bool; ti_install_wake_us : Z;
  ti_was_blocked : bool; ti_next_full_resync_us : Z; ti_next_cache_cleanup_us : Z; ti_storage_watch : bool;
}.

Inductive scanner_action :=
  | RequestedScan
  | ProbeConfig | ProbeManual | ReloadConfig | ManualScan | ServiceInstall | CleanCaches | FullResync
  | CleanupRoot (i : nat) | ScanRoot (i : nat)
  | Wait (timeout : option (Z * Z)).

Definition SCANNER_STORAGE_FALLBACK_PROBE_US : Z := 5000000.

(** [process_due_scanner_usb_mount_probes] clears a probe that is due; without a storage
    watch a probe is set while a game runs. *)
Definition usb_probe_due (t : scanner_timers) (now_us : Z) : bool := negb (tm_usb_mount_probe_due_us t =? 0) && (tm_usb_mount_probe_due_us t <=? now_us).

Definition turn_timers (i : turn_input) (t : scanner_timers) : scanner_timers :=
  let t := if usb_probe_due t (ti_now_us i) then set_usb_probe 0 t else t in
  if negb (ti_storage_watch i) && ti_busy i && (tm_usb_mount_probe_due_us t =? 0)
  then set_usb_probe (u64 (ti_now_us i + SCANNER_STORAGE_FALLBACK_PROBE_US)) t else t.

Definition scanner_turn (count : nat) (i : turn_input) (t : scanner_timers) (roots : list scanner_root_state_t) : scanner_action :=
  if ti_requested i then RequestedScan
  else
    let now_us := ti_now_us i in
    let t := turn_timers i t in
    let next_full_resync_us := (update_scan_work_blocked (ti_busy i) (ti_was_blocked i) now_us (ti_next_full_resync_us i)).2 in
    if config_probe_due (ti_config_missing i) t now_us then ProbeConfig
    else if ti_manual_missing i && negb (tm_manual_probe_due_us t =? 0) && (tm_manual_probe_due_us t <=? now_us) then ProbeManual
    else if config_reload_due t now_us then ReloadConfig
    else if negb (ti_busy i) && negb (tm_manual_scan_due_us t =? 0) && (tm_manual_scan_due_us t <=? now_us) then ManualScan
    else if negb (ti_install_wake_us i =? 0) && (ti_install_wake_us i <=? now_us) then ServiceInstall
    else if negb (ti_busy i) && (ti_next_cache_cleanup_us i <=? now_us) then CleanCaches
    else if negb (ti_busy i) && negb (next_full_resync_us =? 0) && (next_full_resync_us <=? now_us) then FullResync
    else
      match (if ti_busy i then None else find_pending_cleanup_scan_root count roots) with
      | Some r => CleanupRoot r
      | None =>
          match (if ti_busy i then None else find_due_dirty_scan_root count now_us roots) with
          | Some r => ScanRoot r
          | None =>
              Wait (build_wait_timeout now_us (compute_next_scan_deadline_us count (ti_config_missing i) (ti_manual_missing i) t roots
                (ti_install_wake_us i) next_full_resync_us (ti_next_cache_cleanup_us i) (negb (ti_busy i))))
          end
      end.

(** ** Deadlines: what is waited for *)
Definition full_resync_at (i : turn_input) : Z := (update_scan_work_blocked (ti_busy i) (ti_was_blocked i) (ti_now_us i) (ti_next_full_resync_us i)).2.

(** The things with a date that wait for it. *)
Inductive awaited (count : nat) (i : turn_input) (t : scanner_timers) (roots : list scanner_root_state_t) : Z -> Prop :=
  | aw_install : ti_install_wake_us i <> 0 -> awaited count i t roots (ti_install_wake_us i)
  | aw_reload : tm_config_reload_pending t = true -> awaited count i t roots (tm_config_reload_ready_after_us t)
  | aw_config_probe : ti_config_missing i = true -> tm_config_probe_due_us t <> 0 -> awaited count i t roots (tm_config_probe_due_us t)
  | aw_manual_probe : ti_manual_missing i = true -> tm_manual_probe_due_us t <> 0 -> awaited count i t roots (tm_manual_probe_due_us t)
  | aw_usb_probe : tm_usb_mount_probe_due_us t <> 0 -> awaited count i t roots (tm_usb_mount_probe_due_us t)
  | aw_manual_scan : ti_busy i = false -> tm_manual_scan_due_us t <> 0 -> awaited count i t roots (tm_manual_scan_due_us t)
  | aw_cleanup : ti_busy i = false -> ti_next_cache_cleanup_us i <> 0 -> awaited count i t roots (ti_next_cache_cleanup_us i)
  | aw_resync : ti_busy i = false -> full_resync_at i <> 0 -> awaited count i t roots (full_resync_at i)
  | aw_root k : ti_busy i = false -> (k < count)%nat -> rt_dirty (root_at roots (Z.of_nat k)) = true -> awaited count i t roots (rt_ready_after_us (root_at roots (Z.of_nat k))).

(** [d] is the least of the dates [S]; 0 when there is none. *)
Definition least (S : Z -> Prop) (d : Z) : Prop := (d = 0 /\ forall x, ~ S x) \/ (d <> 0 /\ S d /\ forall x, S x -> d <= x).

Lemma least_iff (S S' : Z -> Prop) d : (forall x, S x <-> S' x) -> least S d -> least S' d.
Proof. intros H [[-> Hn]|(? & Hd & Hl)]; [left|right]; (split; [done|]); [intros x; rewrite <-H; apply Hn|]. split; [by apply H|]. intros x. rewrite <-H. apply Hl. Qed.

Lemma least_earlier S d active due : least S d -> (active = true -> due <> 0) -> least (fun x => S x \/ (active = true /\ x = due)) (earlier active due d).
Proof.
  intros Hd Hdue. unfold earlier. destruct active; cbn [andb].
  2: { apply (least_iff S); [|done]. intros x. split; [auto|]. intros [?|[? _]]; done. }
  specialize (Hdue eq_refl). destruct Hd as [[-> Hn]|(Hd0 & Hd & Hl)].
  - rewrite Z.eqb_refl. cbn [orb]. right. split; [done|]. split; [auto|]. intros x [Hx|[_ ->]]; [by destruct (Hn x)|lia].
  - rewrite (proj2 (Z.eqb_neq d 0)) by done. cbn [orb]. right. destruct (Z.ltb_spec due d).
    + split; [done|]. split; [auto|]. intros x [Hx|[_ ->]]; [specialize (Hl x Hx)|]; lia.
    + split; [done|]. split; [auto|]. intros x [Hx|[_ ->]]; [by apply Hl|lia].
Qed.

Lemma earliest_root_least count i roots S d : least S d ->
  (forall k, (i <= k < i + count)%nat -> rt_dirty (root_at roots (Z.of_nat k)) = true -> rt_ready_after_us (root_at roots (Z.of_nat k)) <> 0) ->
  least (fun x => S x \/ exists k, (i <= k < i + count)%nat /\ rt_dirty (root_at roots (Z.of_nat k)) = true /\ x = rt_ready_after_us (root_at roots (Z.of_nat k)))
    (earliest_root count i roots d).
Proof.
  revert i S d. induction count as [|count IH]; intros i S d Hd Hr; cbn [earliest_root].
  - apply (least_iff S); [|done]. intros x. split; [auto|]. intros [?|(k & ? & _)]; [done|lia].
  - eapply least_iff; [|apply IH; [apply least_earlier; [exact Hd|]|]].
    + intros x. cbn. split.
      * intros [[?|[? ->]]|(k & ? & ? & ->)]; [auto|right; exists i; split_and!; [lia..|done|done]|right; exists k; split_and!; [lia..|done|done]].
      * intros [?|(k & ? & ? & ->)]; [auto|]. destruct (decide (k = i)) as [->|]; [auto|]. right. exists k. split_and!; [lia..|done|done].
    + apply Hr. lia.
    + intros k Hk. apply Hr. lia.
Qed.

Lemma find_due_None count i now sel roots : find_due_from count i now sel roots = None ->
  sel = None /\ forall k, (i <= k < i + count)%nat -> rt_dirty (root_at roots (Z.of_nat k)) = true -> now < rt_ready_after_us (root_at roots (Z.of_nat k)).
Proof.
  revert i sel. induction count as [|count IH]; intros i sel; cbn [find_due_from]; [intros ->; split; [done|lia]|].
  intros [Hs Hk]%IH. destruct (rt_dirty (root_at roots (Z.of_nat i))) eqn:Hd; cbn [negb] in Hs.
  - destruct (Z.ltb_spec now (rt_ready_after_us (root_at roots (Z.of_nat i)))) as [Hlt|Hge].
    + split; [done|]. intros k Hk'. destruct (decide (k = i)) as [->|]; [done|]. apply Hk. lia.
    + destruct sel as [[? ?]|]; repeat case_match; simplify_eq.
  - split; [done|]. intros k Hk'. destruct (decide (k = i)) as [->|]; [congruence|]. apply Hk. lia.
Qed.

Lemma no_pending_root count i roots : find_pending_from count i roots = None ->
  forall k, (i <= k < i + count)%nat -> rt_cleanup_pending (root_at roots (Z.of_nat k)) = false.
Proof.
  revert i. induction count as [|count IH]; intros i; cbn [find_pending_from]; [lia|].
  destruct (rt_cleanup_pending _) eqn:Hc; [done|]. intros H k Hk. destruct (decide (k = i)) as [->|]; [done|]. apply (IH (S i)); [done|lia].
Qed.

Lemma deadline_least count i t roots : 0 <= ti_now_us i -> (ti_busy i = true -> full_resync_at i = 0) ->
  (tm_config_reload_pending t = true -> tm_config_reload_ready_after_us t <> 0) ->
  (forall k, (k < count)%nat -> rt_dirty (root_at roots (Z.of_nat k)) = true -> rt_ready_after_us (root_at roots (Z.of_nat k)) <> 0 \/ ti_busy i = true) ->
  least (awaited count i t roots)
    (compute_next_scan_deadline_us count (ti_config_missing i) (ti_manual_missing i) t roots (ti_install_wake_us i) (full_resync_at i) (ti_next_cache_cleanup_us i) (negb (ti_busy i))).
Proof.
  intros Hnow Hbusy Hrel Hroots. unfold compute_next_scan_deadline_us.
  assert (H0 : least (fun x => x = full_resync_at i /\ x <> 0) (full_resync_at i)).
  { destruct (decide (full_resync_at i = 0)) as [->|]; [left; split; [done|]; by intros x [-> ?]|]. right. split_and!; [done..|]. intros x [-> _]. lia. }
  assert (Hn : forall b z, b && negb (z =? 0) = true -> z <> 0) by (intros b z Hb; bool_hyps; by apply Z.eqb_neq).
  assert (Hn1 : forall z, negb (z =? 0) = true -> z <> 0) by (intros z Hb; bool_hyps; by apply Z.eqb_neq).
  pose proof (least_earlier _ _ (negb (ti_install_wake_us i =? 0)) (ti_install_wake_us i) H0 (Hn1 _)) as H1.
  pose proof (least_earlier _ _ (tm_config_reload_pending t) (tm_config_reload_ready_after_us t) H1 Hrel) as H2.
  pose proof (least_earlier _ _ (ti_config_missing i && negb (tm_config_probe_due_us t =? 0)) _ H2 (Hn _ _)) as H3.
  pose proof (least_earlier _ _ (negb (ti_busy i) && negb (tm_manual_scan_due_us t =? 0)) _ H3 (Hn _ _)) as H4.
  pose proof (least_earlier _ _ (ti_manual_missing i && negb (tm_manual_probe_due_us t =? 0)) _ H4 (Hn _ _)) as H5.
  pose proof (least_earlier _ _ (negb (tm_usb_mount_probe_due_us t =? 0)) _ H5 (Hn1 _)) as H6.
  clear H0 H1 H2 H3 H4 H5. destruct (ti_busy i) eqn:Hb; cbn [negb] in *.
  - eapply least_iff; [|exact H6]. intros x. cbn. specialize (Hbusy eq_refl). split.
    + intros [[[[[[[-> ?]|[? ->]]|[? ->]]|[? ->]]|[? ->]]|[? ->]]|[? ->]]; bool_hyps; try congruence; constructor; auto; try (by apply Z.eqb_neq); congruence.
    + intros []; try congruence; rewrite ?andb_true_iff, ?negb_true_iff, ?Z.eqb_neq; tauto.
  - pose proof (least_earlier _ _ (negb (ti_next_cache_cleanup_us i =? 0)) _ H6 (Hn1 _)) as H7.
    eapply least_iff; [|apply (earliest_root_least count 0 roots _ _ H7)]; [|intros k Hk Hd; destruct (Hroots k); [lia|done|done|done]].
    intros x. cbn. split.
    + intros [[[[[[[[[-> ?]|[? ->]]|[? ->]]|[? ->]]|[? ->]]|[? ->]]|[? ->]]|[? ->]]|(k & ? & ? & ->)]; bool_hyps; constructor; auto; try (by apply Z.eqb_neq); lia.
    + intros [| | | | | | | |k]; rewrite ?andb_true_iff, ?negb_true_iff, ?Z.eqb_neq; try tauto. right. exists k. split_and!; [lia..|done|done].
Qed.

(** ** Theorems *)

(** Claim C23: When the scanner goes to wait, nothing that it awaits is due, no cleanup is
    left that it may do, and it waits exactly until the first date: without a limit only
    when nothing has a date, and never with a limit of zero. *)
Theorem idle_wait_exact count i t roots timeout : 0 <= ti_now_us i < 2 ^ 62 ->
  scanner_turn count i t roots = Wait timeout ->
  (forall d, awaited count i (turn_timers i t) roots d -> ti_now_us i < d) /\
  (ti_busy i = false -> forall k, (k < count)%nat -> rt_cleanup_pending (root_at roots (Z.of_nat k)) = false) /\
  match timeout with
  | None => forall d, ~ awaited count i (turn_timers i t) roots d
  | Some (sec, nsec) => 0 <= sec /\ 0 <= nsec < 1000000000 /\ 0 < sec * 1000000000 + nsec /\
      exists d, awaited count i (turn_timers i t) roots d /\ (forall d', awaited count i (turn_timers i t) roots d' -> d <= d') /\
        sec * 1000000000 + nsec = (d - ti_now_us i) * 1000
  end.
Proof.
  intros Hnow. unfold scanner_turn. fold (full_resync_at i). set (t1 := turn_timers i t).
  assert (Husb : tm_usb_mount_probe_due_us t1 <> 0 -> ti_now_us i < tm_usb_mount_probe_due_us t1).
  { unfold t1, turn_timers, usb_probe_due. destruct (negb (tm_usb_mount_probe_due_us t =? 0) && _) eqn:Hd; destruct (_ && (_ =? 0)) eqn:Hf; cbn; try done;
      try (rewrite u64_small; unfold SCANNER_STORAGE_FALLBACK_PROBE_US, UINT64_MAX; lia).
    intros Hne. apply andb_false_iff in Hd as [Hd|Hd]; [apply negb_false_iff, Z.eqb_eq in Hd; done|lia]. }
  assert (Hresync : ti_busy i = true -> full_resync_at i = 0) by (unfold full_resync_at, update_scan_work_blocked; by intros ->).
  destruct (ti_requested i); [done|]. destruct (config_probe_due _ t1 _) eqn:H1; [done|]. destruct (ti_manual_missing i && _ && _) eqn:H2; [done|].
  destruct (config_reload_due t1 _) eqn:H3; [done|]. destruct (negb (ti_busy i) && negb (tm_manual_scan_due_us t1 =? 0) && _) eqn:H4; [done|].
  destruct (negb (ti_install_wake_us i =? 0) && _) eqn:H5; [done|]. destruct (negb (ti_busy i) && (ti_next_cache_cleanup_us i <=? _)) eqn:H6; [done|].
  destruct (negb (ti_busy i) && negb (full_resync_at i =? 0) && _) eqn:H7; [done|].
  destruct (if ti_busy i then None else find_pending_cleanup_scan_root count roots) eqn:H8; [done|].
  destruct (if ti_busy i then None else find_due_dirty_scan_root count (ti_now_us i) roots) eqn:H9; [done|]. intros [= <-].
  assert (Hroot : ti_busy i = false -> forall k, (k < count)%nat -> rt_dirty (root_at roots (Z.of_nat k)) = true -> ti_now_us i < rt_ready_after_us (root_at roots (Z.of_nat k))).
  { intros Hb k Hk Hd. rewrite Hb in H9. unfold find_due_dirty_scan_root in H9. apply fmap_None, find_due_None in H9 as [_ H9]. apply H9; [lia|done]. }
  assert (Hlate : forall d, awaited count i t1 roots d -> ti_now_us i < d).
  { unfold config_probe_due, config_reload_due in *. intros d []; try (by apply Hroot); try (by apply Husb);
      repeat match goal with H : ?b = true |- _ => rewrite H in * | H : ?b = false, H' : context [?b] |- _ => rewrite H in H' end; cbn [andb negb] in *;
      repeat match goal with H : _ && _ = false |- _ => apply andb_false_iff in H as [H|H] end;
      repeat match goal with H : negb _ = false |- _ => apply negb_false_iff, Z.eqb_eq in H end; try congruence; lia. }
  split; [done|]. split.
  { intros Hb k Hk. rewrite Hb in H8. apply (no_pending_root count 0 roots H8). lia. }
  pose proof (deadline_least count i t1 roots) as Hleast. set (d := compute_next_scan_deadline_us _ _ _ _ _ _ _ _ _) in *.
  destruct Hleast as [[Hd Hn]|(Hd & Haw & Hmin)]; [lia|done| | | |].
  - unfold config_reload_due in H3. intros Hp. rewrite Hp in H3. cbn [andb] in H3. lia.
  - intros k Hk Hdk. destruct (ti_busy i) eqn:Hb; [by right|]. left. specialize (Hroot eq_refl k Hk Hdk). lia.
  - unfold build_wait_timeout. by rewrite Hd, Z.eqb_refl.
  - unfold build_wait_timeout. rewrite (proj2 (Z.eqb_neq _ _)) by done. specialize (Hlate d Haw). rewrite (proj2 (Z.leb_gt _ _)) by done.
    pose proof (Z.div_mod (d - ti_now_us i) 1000000 ltac:(lia)) as Hdm. pose proof (Z.mod_pos_bound (d - ti_now_us i) 1000000 ltac:(lia)).
    assert (0 <= (d - ti_now_us i) / 1000000) by (apply Z.div_pos; lia). split; [done|]. split; [lia|]. split; [lia|]. exists d. split_and!; [done..|lia].
Qed.

(** Changes of one root, each with the time and whether something went away. *)
Definition changes (pending wait : Z) (scan_root : string) (evs : list (Z * bool)) (s : scanner_root_state_t) : scanner_root_state_t :=
  fold_left (fun s '(now_us, immediate) => mark_dirty pending wait scan_root now_us immediate s) evs s.

Definition ordered_times (evs : list (Z * bool)) : Prop := forall i j a b, (i <= j)%nat -> evs !! i = Some a -> evs !! j = Some b -> a.1 <= b.1.

Lemma mark_dirty_ready pending wait p now imm s : rt_dirty (mark_dirty pending wait p now imm s) = true /\
  rt_ready_after_us (mark_dirty pending wait p now imm s) =
    (if negb (rt_dirty s) then (if imm then now else u64 (now + wait))
     else if imm then Z.min now (rt_ready_after_us s) else Z.max (u64 (now + wait)) (rt_ready_after_us s)).
Proof.
  unfold mark_dirty. set (s1 := if _ && _ then set_counted _ _ s else s).
  assert (H1 : rt_dirty s1 = rt_dirty s /\ rt_ready_after_us s1 = rt_ready_after_us s) by (unfold s1; by destruct (_ && _)). destruct H1 as [E1 E2]. rewrite E1, E2.
  destruct (rt_dirty s) eqn:Hd; cbn [negb]; [|done]. destruct imm.
  - destruct (Z.ltb_spec now (rt_ready_after_us s)); cbn; rewrite ?E1, ?E2; (split; [done|lia]).
  - destruct (Z.ltb_spec (rt_ready_after_us s) (u64 (now + wait))); cbn; rewrite ?E1, ?E2; (split; [done|lia]).
Qed.

(** The root is never due later than the stability wait after the last change. *)
Lemma changes_bound pending wait p evs s bound : rt_dirty s = false -> 0 <= wait <= 2 ^ 62 -> (forall e, e ∈ evs -> 0 <= e.1 <= bound) -> bound < 2 ^ 62 ->
  rt_dirty (changes pending wait p evs s) = true -> rt_ready_after_us (changes pending wait p evs s) <= bound + wait.
Proof.
  intros Hs Hw He Hb. unfold changes. revert He. induction evs as [|[now imm] evs IH] using rev_ind; intros He; [cbn; congruence|].
  rewrite fold_left_app. cbn [fold_left]. set (s1 := fold_left _ evs s) in *. intros _. destruct (mark_dirty_ready pending wait p now imm s1) as [_ ->].
  assert (Hn : 0 <= now <= bound) by (apply (He (now, imm)); apply elem_of_app; right; apply elem_of_cons; by left).
  assert (Hu : u64 (now + wait) = now + wait) by (apply u64_small; unfold UINT64_MAX; lia).
  destruct (rt_dirty s1) eqn:Hd; cbn [negb].
  - assert (rt_ready_after_us s1 <= bound + wait) by (apply IH; [|done]; intros e Hin; apply He; apply elem_of_app; by left). destruct imm; [lia|rewrite Hu; lia].
  - destruct imm; [lia|rewrite Hu; lia].
Qed.

(** However many changes a clean root sees, it becomes due exactly the stability
    wait after the last one (its files have been quiet that long), and at once when the last
    one took something away; when it is due, the scanner finds a root to scan. *)
Theorem change_deadline_exact pending wait p evs now imm s count k roots : rt_dirty s = false -> 0 <= wait <= 2 ^ 62 ->
  ordered_times (evs ++ [(now, imm)]) -> (forall e, e ∈ evs -> 0 <= e.1) -> 0 <= now < 2 ^ 62 ->
  let s' := changes pending wait p (evs ++ [(now, imm)]) s in
  rt_dirty s' = true /\
  (if imm then rt_ready_after_us s' <= now else rt_ready_after_us s' = now + wait) /\
  ((k < count)%nat -> roots !! k = Some s' ->
     forall t, rt_ready_after_us s' <= t -> exists r, find_due_dirty_scan_root count t roots = Some r).
Proof.
  intros Hs Hw Hord Hpos Hnow s'. assert (Hs' : s' = mark_dirty pending wait p now imm (changes pending wait p evs s)) by (unfold s', changes; by rewrite fold_left_app).
  destruct (mark_dirty_ready pending wait p now imm (changes pending wait p evs s)) as [Hd Hr]. rewrite <-Hs' in Hd, Hr. split; [done|].
  assert (Hu : u64 (now + wait) = now + wait) by (apply u64_small; unfold UINT64_MAX; lia).
  assert (Hle : forall e, e ∈ evs -> 0 <= e.1 <= now).
  { intros e He. split; [by apply Hpos|]. apply list_elem_of_lookup in He as [i Hi].
    apply (Hord i (length evs) e (now, imm)); [apply lookup_lt_Some in Hi; lia|by apply lookup_app_l_Some|by rewrite lookup_app_r, Nat.sub_diag by lia]. }
  split.
  - rewrite Hr. destruct (rt_dirty (changes pending wait p evs s)) eqn:Hd0; cbn [negb]; [|by destruct imm].
    destruct imm; [lia|]. rewrite Hu. pose proof (changes_bound pending wait p evs s now Hs Hw Hle ltac:(lia) Hd0). lia.
  - intros Hk Hroots t Ht. destruct (find_due_dirty_scan_root count t roots) as [r|] eqn:Hf; [by exists r|]. exfalso.
    unfold find_due_dirty_scan_root in Hf. apply fmap_None, find_due_None in Hf as [_ Hf]. specialize (Hf k ltac:(lia)).
    unfold root_at in Hf. rewrite Nat2Z.id, Hroots in Hf. specialize (Hf Hd). cbn in Hf. lia.
Qed.

(** *** Trees to rebuild *)

(** The tree to rebuild takes in a directory: it is the whole root, or a tree that holds it. *)
Definition covers (s : scanner_root_state_t) (path : string) : Prop :=
  rt_watch_tree_stale s = true /\ (rt_rebuild_kind s = SCANNER_WATCH_SCAN_ROOT \/ path_matches_root_or_child path (rt_rebuild_path s) = true).

(** A stale tree has a path, and is the whole root only under the root's own path. *)
Definition tree_known (root : string) (s : scanner_root_state_t) : Prop :=
  rt_watch_tree_stale s = true -> rt_rebuild_path s <> ""%string /\ (rt_rebuild_kind s = SCANNER_WATCH_SCAN_ROOT -> rt_rebuild_path s = root).

Lemma matches_refl p : p <> ""%string -> path_matches_root_or_child p p = true.
Proof.
  intros Hp. apply path_matches_root_or_child_spec. destruct (decide (p = "/"%string)) as [->|]; [|by right; auto].
  left. split; [done|]. by exists ""%string.
Qed.

Lemma matches_trans a b c : path_matches_root_or_child c b = true -> path_matches_root_or_child b a = true -> path_matches_root_or_child c a = true.
Proof.
  rewrite !path_matches_root_or_child_spec. intros Hcb [[-> [r ->]]|(Ha0 & Ha & [->|[r ->]])].
  - left. split; [done|]. destruct Hcb as [[_ ?]|(_ & _ & [->|[r' ->]])]; [done|by exists r|]. eexists. cbn. done.
  - done.
  - right. split; [done|]. split; [done|]. right. destruct Hcb as [[Hb _]|(_ & _ & [->|[r' ->]])].
    + destruct a as [|x a]; [done|]. injection Hb as _ Hb. destruct a; done.
    + by exists r.
    + exists (String.append r (String slash r')). by rewrite <-string_app_assoc.
Qed.

(** A change of a directory of the root. *)
Definition of_tree (root path : string) (kind : scanner_watch_kind_t) : Prop :=
  path <> ""%string /\ (strlen path < MAX_PATH)%nat /\ path_matches_root_or_child path root = true /\ (kind = SCANNER_WATCH_SCAN_ROOT -> path = root).

Lemma merge_covers root path depth kind s : root <> ""%string -> of_tree root path kind -> tree_known root s ->
  let s' := merge_rebuild (Some root) path depth kind s in
  tree_known root s' /\ covers s' path /\ forall q, covers s q -> covers s' q.
Proof.
  intros Hroot (Hne & Hlen & Hbelow & Hkind) Hs. unfold merge_rebuild. rewrite !strlcpy_fits by done. pose proof (matches_refl path Hne) as Hself.
  assert (Hnew : forall d, tree_known root (set_rebuild true d kind path s) /\ covers (set_rebuild true d kind path s) path) by (intros d; split; [done|]; split; [done|by right]).
  cbv zeta. destruct (rt_watch_tree_stale s) eqn:Hst; cbn [negb orb].
  2: { split; [apply Hnew|]. split; [apply Hnew|]. intros q [? _]. congruence. }
  destruct (Hs Hst) as [H0 Hk0]. rewrite (proj2 (strcmp_eq_false _ _) H0). destruct (strcmp_eq (rt_rebuild_path s) path) eqn:H1.
  { apply strcmp_eq_true in H1. split; [|split].
    - intros _. split; [done|]. cbn. destruct kind; auto. intros _. rewrite H1. by apply Hkind.
    - split; [done|]. right. cbn. by rewrite H1.
    - intros q [_ [Hk|Hm]]; (split; [done|]); [left; cbn; by destruct kind|by right]. }
  destruct (path_matches_root_or_child path (rt_rebuild_path s)) eqn:H2; [split; [done|]; split; [split; [done|by right]|done]|].
  destruct (path_matches_root_or_child (rt_rebuild_path s) path) eqn:H3.
  { split; [apply Hnew|]. split; [apply Hnew|]. intros q [_ [Hk|Hm]].
    - rewrite (Hk0 Hk) in H2. congruence.
    - split; [done|]. right. cbn. by eapply matches_trans. }
  split; [done|]. split; [by split; [|left]|]. intros q _. by split; [|left].
Qed.

(** Whatever changes of its directories a root sees until it is scanned, in whatever
    order, the one tree of watches that is then rebuilt takes in every directory that
    changed. *)
Theorem rebuild_covers_changes root evs s : root <> ""%string -> rt_watch_tree_stale s = false ->
  Forall (fun '(path, _, kind) => of_tree root path kind) evs ->
  let s' := fold_left (fun s '(path, depth, kind) => merge_rebuild (Some root) path depth kind s) evs s in
  forall path depth kind, (path, depth, kind) ∈ evs -> covers s' path.
Proof.
  intros Hroot Hs Hall. cbv zeta. assert (Hk : tree_known root s) by (intros ?; congruence). clear Hs.
  enough (H : forall s, tree_known root s -> (forall path depth kind, (path, depth, kind) ∈ evs ->
    covers (fold_left (fun s '(path, depth, kind) => merge_rebuild (Some root) path depth kind s) evs s) path) /\
    forall q, covers s q -> covers (fold_left (fun s '(path, depth, kind) => merge_rebuild (Some root) path depth kind s) evs s) q) by (by apply H).
  clear s Hk. induction Hall as [|[[path depth] kind] evs He Hall IH]; intros s Hs; cbn [fold_left].
  { split; [|done]. intros ? ? ? Hin. by apply elem_of_nil in Hin. }
  destruct (merge_covers root path depth kind s Hroot He Hs) as (Hs' & Hc & Hkeep). destruct (IH _ Hs') as [IH1 IH2]. split.
  - intros p d k [[= -> -> ->]|Hin]%elem_of_cons; [by apply IH2|by eapply IH1].
  - intros q Hq. by apply IH2, Hkeep.
Qed.

(** ** Parents *)
Lemma after_last_shorter s c r : after_last s c = Some r -> (strlen r < strlen s)%nat /\ (strlen s = 1%nat -> s = String c "").
Proof.
  unfold strlen. revert r. induction s as [|a s IH]; intros r; simpl; [done|]. destruct (after_last s c) as [r'|].
  - intros [= <-]. destruct (IH r' eq_refl). split; [lia|]. lia.
  - destruct (Ascii.eqb_spec a c) as [->|]; [|done]. intros [= <-]. split; [lia|]. intros Hl. by destruct s.
Qed.

Lemma parent_shorter path parent : build_parent_directory_path path = Some parent -> parent <> path -> (strlen parent < strlen path)%nat.
Proof.
  unfold build_parent_directory_path, before_last_slash. destruct (after_last path slash) as [rest|] eqn:Hr; [|done]. cbn [option_map].
  destruct (after_last_shorter _ _ _ Hr) as [Hl H1]. destruct (strlen path - strlen rest - 1)%nat as [|n] eqn:Hn; intros [= <-] Hne.
  - change (strlen "/") with 1%nat. destruct (decide (strlen path = 1%nat)) as [H|]; [by rewrite (H1 H) in Hne|clear -Hl n; lia].
  - eapply Nat.le_lt_trans; [apply strlen_substring|]. lia.
Qed.

Lemma strlcpy_le s n : (strlen (strlcpy s n) <= strlen s)%nat.
Proof.
  unfold strlcpy, strlen. generalize (n - 1)%nat. intros k. revert k. induction s as [|a s IH]; intros [|k]; simpl; try lia. specialize (IH k). lia.
Qed.

(** The search for a parent that exists ends, and what it finds is a directory. *)
Lemma existing_parent_ends fuel is_dir path : (strlen path < fuel)%nat ->
  exists r, existing_parent fuel is_dir path = Some r /\ (forall p, r = Some p -> is_dir p = true /\ (strlen p < strlen path)%nat).
Proof.
  revert path. induction fuel as [|fuel IH]; intros path Hf; [lia|]. cbn [existing_parent].
  destruct (build_parent_directory_path path) as [c|] eqn:Hc; [|by exists None].
  destruct (strcmp_eq c path) eqn:He; [by exists None|]. apply strcmp_eq_false in He. pose proof (parent_shorter _ _ Hc He) as Hl.
  destruct (is_dir c) eqn:Hd; [exists (Some c); split; [done|]; by intros p [= <-]|].
  pose proof (strlcpy_le c MAX_PATH) as Hs.
  destruct (IH (strlcpy c MAX_PATH)) as (r & Hr & Hp); [lia|]. exists r. split; [done|]. intros p Hrp. destruct (Hp p Hrp). split; [done|lia].
Qed.

Lemma resolve_parent_ends is_dir path : exists r, resolve_existing_parent_directory_path is_dir path = Some r /\ (forall p, r = Some p -> is_dir p = true /\ (strlen p < strlen path)%nat).
Proof.
  unfold resolve_existing_parent_directory_path.
  pose proof (strlcpy_le path MAX_PATH) as Hs.
  destruct (existing_parent_ends (S (strlen path)) is_dir (strlcpy path MAX_PATH)) as (r & Hr & Hp); [lia|]. exists r. split; [done|]. intros p Hrp. destruct (Hp p Hrp). split; [done|lia].
Qed.

(** ** Witnesses *)
Definition demo_turn : turn_input := TurnInput 5000000 false false false false 9000000 false 8000000 86400000000 true.
Definition demo_timers : scanner_timers := Timers false 0 0 0 0 0.
Definition demo_roots : list scanner_root_state_t := [set_dirty true 6500000 cleared_root; cleared_root].

Lemma idle_wait_exact_witness : scanner_turn 2 demo_turn demo_timers demo_roots = Wait (Some (1, 500000000)) /\
  forall d, awaited 2 demo_turn (turn_timers demo_turn demo_timers) demo_roots d -> 5000000 < d.
Proof.
  split; [vm_compute; reflexivity|]. destruct (idle_wait_exact 2 demo_turn demo_timers demo_roots (Some (1, 500000000))) as [H _]; [vm_compute; split; congruence|vm_compute; reflexivity|exact H].
Defined.

Definition demo_changes : list (Z * bool) := [(1000, false); (2000, true); (3000, false)].

Lemma change_deadline_exact_witness : rt_ready_after_us (changes 0 10000 "/data/games" demo_changes cleared_root) = 13000 /\
  exists r, find_due_dirty_scan_root 1 13000 [changes 0 10000 "/data/games" demo_changes cleared_root] = Some r.
Proof.
  destruct (change_deadline_exact 0 10000 "/data/games" [(1000, false); (2000, true)] 3000 false cleared_root 1 0
    [changes 0 10000 "/data/games" demo_changes cleared_root]) as (H1 & H2 & H3).
  - reflexivity.
  - lia.
  - intros i j [] [] Hij Hi Hj. destruct i as [|[|[|i]]], j as [|[|[|j]]]; simplify_eq/=; lia.
  - intros e He. repeat (apply elem_of_cons in He as [->|He]; [cbn; lia|]). by apply elem_of_nil in He.
  - lia.
  - split; [exact H2|]. apply H3; [lia|reflexivity|vm_compute; congruence].
Defined.

Definition demo_trees : list (string * Z * scanner_watch_kind_t) :=
  [("/data/a/b"%string, 2, SCANNER_WATCH_SCAN_SUBDIR); ("/data/a/c"%string, 2, SCANNER_WATCH_SCAN_SUBDIR); ("/data/a"%string, 1, SCANNER_WATCH_SCAN_SUBDIR)].

Lemma rebuild_covers_changes_witness : covers (fold_left (fun s '(path, depth, kind) => merge_rebuild (Some "/data"%string) path depth kind s) demo_trees cleared_root) "/data/a/c".
Proof.
  apply (rebuild_covers_changes "/data" demo_trees cleared_root) with (depth := 2) (kind := SCANNER_WATCH_SCAN_SUBDIR).
  - done.
  - reflexivity.
  - assert (H : forall p, (strlen p <? 100)%nat = true -> (strlen p < MAX_PATH)%nat) by (intros p Hp%Nat.ltb_lt; unfold MAX_PATH; lia).
    repeat constructor; try done; by apply H.
  - apply elem_of_cons. right. apply elem_of_cons. by left.
Defined.
