(* ===== verification/ScannerUsb.v ===== *)
(** * USB storage as the scanner sees it (src/sm_scanner.c, third part)

    Which of the eight USB slots are mounted, what is told when a slot comes or goes, the
    report of the first scan of a slot, and the presence of the mount points.  The answers
    of the system are arguments; what is told to others is recorded in order. *)
From S2P Require Import Prelude CString ScannerWatch ScannerLinks ScannerTable ScannerHistory ScannerSchedule.
From stdpp Require Import list.
Open Scope Z_scope.
Open Scope c_scope.

(** ** State *)
Record scanner_usb_info_t := UsbInfo { ui_available_tenths : Z; ui_capacity_tenths : Z; ui_block_size_bytes : Z }.
Definition no_usb_info : scanner_usb_info_t := UsbInfo 0 0 0.

(** What is told: to the fake libraries of the running game, and to the user. *)
Inductive usb_call :=
  | FakelibMountChange (usb_root : string) (mounted : bool)
  | NotifyUsbConnected (usb_root : string)
  | NotifyUsbDisconnected (usb_root : string)
  | NotifyUsbScanned (usb_root : string) (available capacity : Z * Z) (cluster_kib : Z) (game_count : Z) (recommend : bool)
  | RefreshGameStorage.

Record usb_state := UsbState {
  us_mounted_mask : Z; us_result_pending_mask : Z; us_info : list scanner_usb_info_t; us_roots : list scanner_root_state_t; us_calls : list usb_call;
}.

Definition SCANNER_GIB_BYTES : Z := 1024 * 1024 * 1024.
Definition SCANNER_MAX_RECOMMENDED_CLUSTER_SIZE_BYTES : Z := 64 * 1024.

Definition usb_root_of (slot : Z) : string := build_scanner_usb_root_path (Z.to_nat slot).

Definition set_bit (mask slot : Z) : Z := u8 (Z.lor mask (slot_mask slot)).
Definition clear_bit (mask slot : Z) : Z := u8 (Z.land mask (u8 (Z.lnot (slot_mask slot)))).

Definition tell (calls : list usb_call) (s : usb_state) : usb_state :=
  UsbState (us_mounted_mask s) (us_result_pending_mask s) (us_info s) (us_roots s) (us_calls s ++ calls).
Definition set_roots (roots : list scanner_root_state_t) (s : usb_state) : usb_state :=
  UsbState (us_mounted_mask s) (us_result_pending_mask s) (us_info s) roots (us_calls s).
Definition set_masks (mounted pending : Z) (s : usb_state) : usb_state := UsbState mounted pending (us_info s) (us_roots s) (us_calls s).
Definition set_info (slot : Z) (info : scanner_usb_info_t) (s : usb_state) : usb_state :=
  UsbState (us_mounted_mask s) (us_result_pending_mask s) (<[Z.to_nat slot := info]> (us_info s)) (us_roots s) (us_calls s).

(** Whether a path of a scan root lies on a slot. *)
Definition on_slot (slot : Z) (path : option string) : bool := match path with Some p => scanner_usb_slot_for_path p =? slot | None => false end.

Definition scanner_usb_slot_has_scan_root (paths : list (option string)) (slot : Z) : bool := existsb (on_slot slot) paths.

Definition reset_scanner_usb_scan_counts (paths : list (option string)) (slot : Z) (roots : list scanner_root_state_t) : list scanner_root_state_t :=
  imap (fun i r => if on_slot slot (default None (paths !! i)) then set_counted false 0 r else r) roots.

(** [mounted] is [usb_storage_root_mounted]. *)
Definition reset_scanner_usb_mount_state (mounted : string -> bool) (roots : list scanner_root_state_t) (calls : list usb_call) : usb_state :=
  UsbState (fold_left (fun mask slot => if mounted (usb_root_of slot) then set_bit mask slot else mask) usb_slots 0) 0 (replicate 8 no_usb_info) roots calls.

Definition bytes_to_gib_tenths (bytes : Z) : Z :=
  let whole := bytes / SCANNER_GIB_BYTES in
  let remainder := bytes mod SCANNER_GIB_BYTES in
  u64 (u64 (whole * 10) + u64 (u64 (remainder * 10) + SCANNER_GIB_BYTES / 2) / SCANNER_GIB_BYTES).

(** [fstat] and [stat]: device and inode. *)
Fixpoint scanner_usb_root_identity_changed (fstat : Z -> option (Z * Z)) (stat : string -> option (Z * Z)) (usb_root : string)
    (es : list scanner_watch_entry_t) : bool :=
  match es with
  | [] => false
  | entry :: es' =>
      if negb (bool_decide (we_kind entry = SCANNER_WATCH_USB_ROOT)) || negb (strcmp_eq (we_path entry) usb_root)
      then scanner_usb_root_identity_changed fstat stat usb_root es'
      else
        match fstat (we_fd entry), stat usb_root with
        | None, _ => true
        | Some watched, Some current => negb (bool_decide (watched = current))
        | Some _, None => false
        end
  end.

(** What the system answers about a slot: whether it is mounted, whether the directory watched
    is another one than before, block size, blocks and blocks available. *)
Record usb_answers := UsbAnswers { ua_mounted : string -> bool; ua_identity_changed : string -> bool; ua_statfs : string -> option (Z * Z * Z) }.

(** The result tells that a scan is to be scheduled. *)
Definition notify_scanner_usb_mount_change (a : usb_answers) (paths : list (option string)) (path : string) (force_refresh : bool) (s : usb_state) : bool * usb_state :=
  let slot := scanner_usb_slot_for_path path in
  if slot <? 0 then (false, s)
  else
    let usb_root := usb_root_of slot in
    let mounted := ua_mounted a usb_root in
    let was_mounted := slot_bit (us_mounted_mask s) slot in
    let replaced := mounted && was_mounted && (force_refresh || ua_identity_changed a usb_root) in
    if eqb mounted was_mounted && negb replaced then (false, s)
    else if mounted then
      match ua_statfs a usb_root with
      | None => (false, s)
      | Some (block_size, blocks, available) =>
          let capacity_tenths := bytes_to_gib_tenths (u64 (blocks * block_size)) in
          let available_tenths := bytes_to_gib_tenths (u64 (available * block_size)) in
          let s := set_masks (set_bit (us_mounted_mask s) slot) (us_result_pending_mask s) s in
          let s :=
            if scanner_usb_slot_has_scan_root paths slot
            then set_roots (reset_scanner_usb_scan_counts paths slot (us_roots s)) (set_masks (us_mounted_mask s) (set_bit (us_result_pending_mask s) slot) s)
            else s in
          let s := set_info slot (UsbInfo available_tenths capacity_tenths block_size) s in
          (true, tell ((if replaced then [FakelibMountChange usb_root false] else []) ++ [FakelibMountChange usb_root true; NotifyUsbConnected usb_root]) s)
      end
    else
      let s := set_masks (clear_bit (us_mounted_mask s) slot) (clear_bit (us_result_pending_mask s) slot) s in
      let s := set_roots (reset_scanner_usb_scan_counts paths slot (us_roots s)) s in
      (false, tell [FakelibMountChange usb_root false; NotifyUsbDisconnected usb_root] (set_info slot no_usb_info s)).

Definition schedule_scanner_usb_mount_probe (path : string) (now_us mounted_mask : Z) (t : scanner_timers) : scanner_timers :=
  let slot := scanner_usb_slot_for_path path in
  if (slot <? 0) || slot_bit mounted_mask slot || negb (tm_usb_mount_probe_due_us t =? 0) then t
  else set_usb_probe (u64 (now_us + SCANNER_USB_MOUNT_PROBE_DELAY_US)) t.

Definition scanner_usb_slot_scan_incomplete (paths : list (option string)) (slot : Z) (roots : list scanner_root_state_t) : bool :=
  existsb (fun '(i, path) => on_slot slot path && (rt_dirty (root_at roots (Z.of_nat i)) || negb (rt_usb_connect_counted (root_at roots (Z.of_nat i)))))
    (imap pair paths).

Definition slot_game_count (paths : list (option string)) (slot : Z) (roots : list scanner_root_state_t) : Z :=
  fold_left (fun n '(i, path) => if on_slot slot path then n + rt_usb_connect_found_games (root_at roots (Z.of_nat i)) else n) (imap pair paths) 0.

Definition notify_scanner_usb_scan_complete (paths : list (option string)) (slot : Z) (s : usb_state) : usb_state :=
  if negb (slot_bit (us_result_pending_mask s) slot) || negb (slot_bit (us_mounted_mask s) slot) || scanner_usb_slot_scan_incomplete paths slot (us_roots s) then s
  else
    let game_count := slot_game_count paths slot (us_roots s) in
    let info := default no_usb_info (us_info s !! Z.to_nat slot) in
    tell [NotifyUsbScanned (usb_root_of slot) (ui_available_tenths info / 10, ui_available_tenths info mod 10) (ui_capacity_tenths info / 10, ui_capacity_tenths info mod 10)
            (u64 (ui_block_size_bytes info + 1023) / 1024) game_count (SCANNER_MAX_RECOMMENDED_CLUSTER_SIZE_BYTES <? ui_block_size_bytes info)]
      (set_masks (us_mounted_mask s) (clear_bit (us_result_pending_mask s) slot) s).

(** The slots one after the other; a slot that came is to be scanned. *)
Definition probe_slots (a : usb_answers) (paths : list (option string)) (wait now_us : Z) (slots : list Z) (s : usb_state) : usb_state :=
  fold_left (fun s slot =>
    let '(scan, s) := notify_scanner_usb_mount_change a paths (usb_root_of slot) false s in
    if scan : bool then set_roots (schedule_scan_roots_for_usb_slot paths (us_result_pending_mask s) wait slot now_us (us_roots s)) s else s) slots s.

(** Before the watches of the slots are rebuilt. *)
Definition process_due_scanner_usb_mount_probes (a : usb_answers) (paths : list (option string)) (wait now_us : Z) (t : scanner_timers) (s : usb_state) : bool * scanner_timers * usb_state :=
  if negb (usb_probe_due t now_us) then (false, t, s)
  else (true, set_usb_probe 0 t, probe_slots a paths wait now_us usb_slots (tell [RefreshGameStorage] s)).

(** A scan of a root of a slot is counted when nothing was unstable ([run_targeted_scan_cycle_impl]). *)
Definition count_scanned_root (slot : Z) (unstable_found : bool) (i : Z) (total_found_games : Z) (s : usb_state) : usb_state :=
  if (0 <=? slot) && negb unstable_found && slot_bit (us_result_pending_mask s) slot
  then set_roots (on_root i (set_counted true total_found_games) (us_roots s)) s else s.

(** ** Bits of the masks *)
Definition is_slot (slot : Z) : Prop := 0 <= slot < 8.

Lemma slot_mask_pow slot : is_slot slot -> slot_mask slot = 2 ^ slot.
Proof.
  intros [? ?]. unfold slot_mask. rewrite Z.shiftl_1_l. apply u8_small. split; [apply Z.pow_nonneg; lia|].
  assert (2 ^ slot <= 2 ^ 7) by (apply Z.pow_le_mono_r; lia). lia.
Qed.

Lemma slot_bit_testbit mask slot : is_slot slot -> slot_bit mask slot = Z.testbit mask slot.
Proof.
  intros Hs. unfold slot_bit. rewrite slot_mask_pow by done. destruct Hs. destruct (Z.testbit mask slot) eqn:Hb.
  - apply negb_true_iff, Z.eqb_neq. intros Hz. assert (Hl : Z.testbit (Z.land mask (2 ^ slot)) slot = false) by (rewrite Hz; apply Z.bits_0).
    rewrite Z.land_spec, Hb, Z.pow2_bits_true in Hl by lia. done.
  - apply negb_false_iff, Z.eqb_eq. apply Z.bits_inj'. intros n Hn. rewrite Z.land_spec, Z.bits_0.
    destruct (Z.eq_dec n slot) as [->|]; [by rewrite Hb|]. rewrite Z.pow2_bits_false by lia. by rewrite andb_false_r.
Qed.

Lemma u8_testbit z n : 0 <= n < 8 -> Z.testbit (u8 z) n = Z.testbit z n.
Proof. intros ?. unfold u8, wrap. apply Z.mod_pow2_bits_low. lia. Qed.

Lemma set_bit_bit mask slot slot' : is_slot slot -> is_slot slot' -> slot_bit (set_bit mask slot) slot' = (slot =? slot') || slot_bit mask slot'.
Proof.
  intros Hs Hs'. rewrite !slot_bit_testbit by done. unfold set_bit. rewrite slot_mask_pow by done. destruct Hs, Hs'. rewrite u8_testbit by lia.
  rewrite Z.lor_spec. destruct (Z.eqb_spec slot slot') as [->|]; [rewrite Z.pow2_bits_true by lia; by rewrite orb_true_r|].
  rewrite Z.pow2_bits_false by lia. by rewrite orb_false_r.
Qed.

Lemma clear_bit_bit mask slot slot' : is_slot slot -> is_slot slot' -> slot_bit (clear_bit mask slot) slot' = negb (slot =? slot') && slot_bit mask slot'.
Proof.
  intros Hs Hs'. rewrite !slot_bit_testbit by done. unfold clear_bit. rewrite slot_mask_pow by done. destruct Hs, Hs'. rewrite u8_testbit by lia.
  rewrite Z.land_spec, u8_testbit, Z.lnot_spec by lia. destruct (Z.eqb_spec slot slot') as [->|]; [rewrite Z.pow2_bits_true by lia; by rewrite andb_false_r|].
  rewrite Z.pow2_bits_false by lia. by rewrite andb_true_r.
Qed.

Lemma usb_slots_spec slot : slot ∈ usb_slots <-> is_slot slot.
Proof.
  unfold usb_slots, is_slot. rewrite !elem_of_cons, elem_of_nil. lia.
Qed.

Lemma slot_cases slot : is_slot slot -> slot = 0 \/ slot = 1 \/ slot = 2 \/ slot = 3 \/ slot = 4 \/ slot = 5 \/ slot = 6 \/ slot = 7.
Proof. unfold is_slot. lia. Qed.

Lemma usb_root_inj slot slot' : is_slot slot -> is_slot slot' -> strcmp_eq (usb_root_of slot) (usb_root_of slot') = (slot =? slot').
Proof.
  intros Hs%slot_cases Hs'%slot_cases. repeat destruct Hs as [->|Hs]; try (subst slot); repeat destruct Hs' as [->|Hs']; try (subst slot'); reflexivity.
Qed.

Lemma slot_for_path_range path : scanner_usb_slot_for_path path = -1 \/ is_slot (scanner_usb_slot_for_path path).
Proof.
  unfold scanner_usb_slot_for_path, is_slot. repeat case_match; auto;
    repeat match goal with H : _ || _ = false |- _ => apply orb_false_iff in H as [? ?] end; right; lia.
Qed.

(** The path of a slot is that slot's. *)
Lemma slot_of_root slot : is_slot slot -> scanner_usb_slot_for_path (usb_root_of slot) = slot.
Proof. intros Hs%slot_cases. repeat destruct Hs as [->|Hs]; try subst slot; reflexivity. Qed.

(** ** What is told about a slot *)
Inductive slot_event := Came | Gone | Reported.

Definition event_of (slot : Z) (c : usb_call) : option slot_event :=
  match c with
  | FakelibMountChange r mounted => if strcmp_eq r (usb_root_of slot) then Some (if mounted then Came else Gone) else None
  | NotifyUsbScanned r _ _ _ _ _ => if strcmp_eq r (usb_root_of slot) then Some Reported else None
  | _ => None
  end.
Definition slot_events (slot : Z) (calls : list usb_call) : list slot_event := omap (event_of slot) calls.

(** What a slot may do: come when it is gone, go when it is there, and be reported once
    each time that it came. *)
Fixpoint slot_follows (mounted reportable : bool) (evs : list slot_event) : option (bool * bool) :=
  match evs with
  | [] => Some (mounted, reportable)
  | Came :: evs' => if mounted then None else slot_follows true true evs'
  | Gone :: evs' => if mounted then slot_follows false false evs' else None
  | Reported :: evs' => if mounted && reportable then slot_follows true false evs' else None
  end.

Lemma slot_follows_app m r a b : slot_follows m r (a ++ b) = (match slot_follows m r a with Some (m', r') => slot_follows m' r' b | None => None end).
Proof. revert m r. induction a as [|[] a IH]; intros m r; cbn; [done|by destruct m|by destruct m|by destruct (m && r)]. Qed.

(** Operations on the USB state; [RootsChange] stands for scans, events and configuration. *)
Inductive usb_op :=
  | MountChange (a : usb_answers) (paths : list (option string)) (path : string) (force_refresh : bool)
  | ScanComplete (paths : list (option string)) (slot : Z)
  | ScanCounted (slot : Z) (unstable_found : bool) (i total_found_games : Z)
  | RootsChange (f : list scanner_root_state_t -> list scanner_root_state_t)
  | StorageRefresh.

Definition run_usb_op (s : usb_state) (op : usb_op) : usb_state :=
  match op with
  | MountChange a paths path force => (notify_scanner_usb_mount_change a paths path force s).2
  | ScanComplete paths slot => notify_scanner_usb_scan_complete paths slot s
  | ScanCounted slot unstable i games => count_scanned_root slot unstable i games s
  | RootsChange f => set_roots (f (us_roots s)) s
  | StorageRefresh => tell [RefreshGameStorage] s
  end.

Definition usb_op_ok (op : usb_op) : Prop := match op with ScanComplete _ slot => is_slot slot | _ => True end.

(** What was told about the slot fits its bits. *)
Definition slot_told (m0 : bool) (slot : Z) (s : usb_state) : Prop :=
  exists r, slot_follows m0 false (slot_events slot (us_calls s)) = Some (slot_bit (us_mounted_mask s) slot, r) /\
    (slot_bit (us_result_pending_mask s) slot = true -> r = true).

Lemma told_by m0 slot s s' new : slot_told m0 slot s -> us_calls s' = us_calls s ++ new ->
  (forall r, (slot_bit (us_result_pending_mask s) slot = true -> r = true) ->
    exists r', slot_follows (slot_bit (us_mounted_mask s) slot) r (slot_events slot new) = Some (slot_bit (us_mounted_mask s') slot, r') /\
      (slot_bit (us_result_pending_mask s') slot = true -> r' = true)) -> slot_told m0 slot s'.
Proof.
  intros (r & Hf & Hr) Hc Hnew. destruct (Hnew r Hr) as (r' & Hf' & Hr'). exists r'. split; [|done].
  rewrite Hc. unfold slot_events. rewrite omap_app, slot_follows_app. fold (slot_events slot (us_calls s)). by rewrite Hf.
Qed.

Lemma mount_change_told m0 slot a paths path force s : is_slot slot -> slot_told m0 slot s -> slot_told m0 slot (notify_scanner_usb_mount_change a paths path force s).2.
Proof.
  intros Hs Ht. unfold notify_scanner_usb_mount_change. set (sl := scanner_usb_slot_for_path path).
  destruct (slot_for_path_range path) as [Hsl|Hsl]; fold sl in Hsl; [by rewrite Hsl|].
  destruct (Z.ltb_spec sl 0) as [?|_]; [done|]. set (mounted := ua_mounted a (usb_root_of sl)). set (was := slot_bit (us_mounted_mask s) sl).
  destruct (eqb mounted was && _) eqn:Hsame; [done|]. pose proof (usb_root_inj sl slot Hsl Hs) as Hinj.
  destruct mounted eqn:Hm.
  - destruct (ua_statfs a (usb_root_of sl)) as [[[bs bl] av]|]; [|done]. cbn [snd].
    set (repl := (true && was && (force || ua_identity_changed a (usb_root_of sl)))) in *.
    assert (Hwas : was = repl).
    { destruct was; cbn in Hsame |- *; [|done]. apply negb_false_iff in Hsame. unfold repl in *. done. }
    set (st := if scanner_usb_slot_has_scan_root paths sl then _ else _).
    assert (Hst : us_mounted_mask st = set_bit (us_mounted_mask s) sl /\ us_calls st = us_calls s /\
      (slot_bit (us_result_pending_mask st) slot = true -> slot = sl \/ slot_bit (us_result_pending_mask s) slot = true)).
    { unfold st. destruct (scanner_usb_slot_has_scan_root paths sl); (split; [done|]); (split; [done|]); cbn.
      - rewrite set_bit_bit by done. destruct (Z.eqb_spec sl slot); [auto|]. cbn. auto.
      - auto. }
    clearbody st. destruct Hst as (Hst1 & Hst2 & Hst3).
    eapply told_by; [exact Ht|cbn; by rewrite Hst2|]. intros r Hr. cbn [tell set_info us_mounted_mask us_result_pending_mask]. rewrite Hst1, set_bit_bit by done.
    destruct (Z.eqb_spec sl slot) as [<-|Hne]; cbn [orb].
    + fold was. rewrite Hwas. exists true. split; [|done]. unfold slot_events. destruct repl; cbn; rewrite ?Hinj; reflexivity.
    + exists r. split; [unfold slot_events; destruct repl; cbn; rewrite ?Hinj; reflexivity|]. intros [?|?]%Hst3; [done|auto].
  - assert (Hwas : was = true) by (destruct was; [done|]; cbn in Hsame; done).
    eapply told_by; [exact Ht|reflexivity|]. intros r Hr. cbn. rewrite !clear_bit_bit by done.
    destruct (Z.eqb_spec sl slot) as [<-|Hne]; cbn [negb andb].
    + fold was. rewrite Hwas. exists false. split; [|done]. unfold slot_events. cbn. rewrite Hinj. reflexivity.
    + exists r. split; [|done]. unfold slot_events. cbn. rewrite Hinj. reflexivity.
Qed.

Lemma scan_complete_told m0 slot paths sl s : is_slot slot -> is_slot sl -> slot_told m0 slot s -> slot_told m0 slot (notify_scanner_usb_scan_complete paths sl s).
Proof.
  intros Hs Hsl Ht. unfold notify_scanner_usb_scan_complete. destruct (_ || _ || _) eqn:Hc; [done|].
  apply orb_false_iff in Hc as [[Hp Hm]%orb_false_iff _]. apply negb_false_iff in Hp, Hm. pose proof (usb_root_inj sl slot Hsl Hs) as Hinj.
  eapply told_by; [exact Ht|reflexivity|]. intros r Hr. cbn. rewrite clear_bit_bit by done.
  destruct (Z.eqb_spec sl slot) as [<-|Hne]; cbn [negb andb].
  - rewrite Hm. rewrite (Hr Hp). exists false. split; [|done]. unfold slot_events. cbn. rewrite Hinj. reflexivity.
  - exists r. split; [|done]. unfold slot_events. cbn. rewrite Hinj. reflexivity.
Qed.

Lemma usb_op_told m0 slot op s : is_slot slot -> usb_op_ok op -> slot_told m0 slot s -> slot_told m0 slot (run_usb_op s op).
Proof.
  intros Hs Hok Ht. destruct op as [a paths path force|paths sl|sl unstable i games|f|]; cbn [run_usb_op].
  - by apply mount_change_told.
  - by apply scan_complete_told.
  - unfold count_scanned_root. by destruct (_ && _).
  - done.
  - eapply told_by; [exact Ht|reflexivity|]. intros r Hr. by exists r.
Qed.

Lemma reset_told mounted roots slot : is_slot slot -> slot_told (mounted (usb_root_of slot)) slot (reset_scanner_usb_mount_state mounted roots []).
Proof.
  intros Hs. exists false. split; [|].
  - cbn [us_calls reset_scanner_usb_mount_state slot_events omap list_omap slot_follows us_mounted_mask]. f_equal. f_equal.
    assert (H : forall slots mask, (forall x, x ∈ slots -> is_slot x) ->
      slot_bit (fold_left (fun mask slot => if mounted (usb_root_of slot) then set_bit mask slot else mask) slots mask) slot =
      slot_bit mask slot || (bool_decide (slot ∈ slots) && mounted (usb_root_of slot))).
    { induction slots as [|x slots IH]; intros mask Hin; cbn [fold_left]; [by rewrite orb_false_r|].
      rewrite IH by (intros; apply Hin; apply elem_of_cons; by right). assert (Hx : is_slot x) by (apply Hin; apply elem_of_cons; by left).
      rewrite (bool_decide_ext (slot ∈ x :: slots) (slot = x \/ slot ∈ slots)) by apply elem_of_cons.
      destruct (decide (slot = x)) as [->|Hne].
      - rewrite (bool_decide_eq_true_2 (x = x \/ _)) by auto. destruct (mounted (usb_root_of x)); [rewrite set_bit_bit by done; by rewrite Z.eqb_refl, orb_true_r|].
        by rewrite !andb_false_r.
      - rewrite (bool_decide_ext (slot = x \/ slot ∈ slots) (slot ∈ slots)) by tauto. f_equal. destruct (mounted (usb_root_of x)); [|done].
        rewrite set_bit_bit by done. by rewrite (proj2 (Z.eqb_neq _ _)) by congruence. }
    rewrite H by (intros x; apply usb_slots_spec). rewrite bool_decide_eq_true_2 by (by apply usb_slots_spec). by rewrite andb_true_l, slot_bit_testbit, Z.bits_0.
  - cbn. rewrite slot_bit_testbit by done. by rewrite Z.bits_0.
Qed.

(** ** Theorems *)

(** Whatever the system answers and in whatever order storage is probed, scanned and
    reported, the running game's fake libraries are told of every USB slot in turn that it
    came and that it went, the mask of mounted slots is what they were told last, and the
    user is told the result of a slot's scan at most once each time it came, while it is
    there. *)
Theorem usb_slot_follows mounted roots ops slot : is_slot slot -> Forall usb_op_ok ops ->
  let s := fold_left run_usb_op ops (reset_scanner_usb_mount_state mounted roots []) in
  exists reportable, slot_follows (mounted (usb_root_of slot)) false (slot_events slot (us_calls s)) = Some (slot_bit (us_mounted_mask s) slot, reportable) /\
    (slot_bit (us_result_pending_mask s) slot = true -> reportable = true).
Proof.
  intros Hs Hops. assert (H : slot_told (mounted (usb_root_of slot)) slot (fold_left run_usb_op ops (reset_scanner_usb_mount_state mounted roots []))); [|exact H].
  pose proof (reset_told mounted roots slot Hs) as H0. revert H0. generalize (reset_scanner_usb_mount_state mounted roots []).
  induction Hops as [|op ops Hop Hops IH]; intros s Ht; cbn [fold_left]; [done|]. apply IH. by apply usb_op_told.
Qed.

(** The size told is right to a twentieth of a GiB, and no step of the computation overflows. *)
Lemma bytes_to_gib_tenths_rounds bytes : 0 <= bytes <= UINT64_MAX ->
  Z.abs (bytes_to_gib_tenths bytes * SCANNER_GIB_BYTES - bytes * 10) * 2 <= SCANNER_GIB_BYTES.
Proof.
  unfold UINT64_MAX. intros Hb. unfold bytes_to_gib_tenths. set (G := SCANNER_GIB_BYTES). assert (HG : G = 1073741824) by reflexivity.
  pose proof (Z.div_mod bytes G ltac:(lia)) as Hdm. pose proof (Z.mod_pos_bound bytes G ltac:(lia)) as Hm. set (w := bytes / G) in *. set (r := bytes mod G) in *.
  assert (0 <= w <= 2 ^ 34) by (split; [apply Z.div_pos; lia|unfold w; apply Z.div_le_upper_bound; lia]).
  rewrite (u64_small (w * 10)), (u64_small (r * 10)) by (unfold UINT64_MAX; lia). change (G / 2) with 536870912.
  rewrite (u64_small (r * 10 + 536870912)) by (unfold UINT64_MAX; lia).
  pose proof (Z.div_mod (r * 10 + 536870912) G ltac:(lia)) as Hq. pose proof (Z.mod_pos_bound (r * 10 + 536870912) G ltac:(lia)) as Hqm.
  set (q := (r * 10 + 536870912) / G) in *. assert (0 <= q <= 10) by (split; [apply Z.div_pos; lia|unfold q; apply Z.lt_succ_r, Z.div_lt_upper_bound; lia]).
  rewrite u64_small by (unfold UINT64_MAX; lia). lia.
Qed.

(** ** Witnesses *)
Definition demo_usb (there : bool) : usb_answers := UsbAnswers (fun _ => there) (fun _ => false) (fun _ => Some (65536, 1000000, 500000)).
Definition demo_paths : list (option string) := [Some "/data/games"%string; Some "/mnt/usb0/games"%string].
Definition demo_usb_ops : list usb_op :=
  [MountChange (demo_usb true) demo_paths "/mnt/usb0" false; MountChange (demo_usb true) demo_paths "/mnt/usb0/games" false;
   ScanComplete demo_paths 0; ScanCounted 0 false 1 3; ScanComplete demo_paths 0; ScanComplete demo_paths 0;
   MountChange (demo_usb true) demo_paths "/mnt/usb0" true; MountChange (demo_usb false) demo_paths "/mnt/usb0" false].

Example demo_usb_events :
  slot_events 0 (us_calls (fold_left run_usb_op demo_usb_ops (reset_scanner_usb_mount_state (fun _ => false) reset_scanner_root_states []))) = [Came; Reported; Gone; Came; Gone].
Proof. vm_compute. reflexivity. Qed.

Lemma usb_slot_follows_witness :
  let s := fold_left run_usb_op demo_usb_ops (reset_scanner_usb_mount_state (fun _ => false) reset_scanner_root_states []) in
  exists reportable, slot_follows false false (slot_events 0 (us_calls s)) = Some (slot_bit (us_mounted_mask s) 0, reportable) /\
    (slot_bit (us_result_pending_mask s) 0 = true -> reportable = true).
Proof.
  apply (usb_slot_follows (fun _ => false) reset_scanner_root_states demo_usb_ops 0); [unfold is_slot; lia|].
  repeat constructor; unfold is_slot; lia.
Defined.
