(* ===== verification/ScannerEject.v ===== *)
(** * Pausing the scanner while a USB disk is ejected (src/sm_scanner.c, fourth part)

    [sm_scanner_suspend_usb_for_eject] asks the scanner to close its watches of USB storage,
    [handle_usb_eject_pause] does so and holds still until it is told to go on.  The two
    threads share an atomic word and a pipe; here they are interleaved at every access. *)
From S2P Require Import Prelude CString ConfigState ScannerWatch ScannerLinks ScannerTable ScannerHistory.
From stdpp Require Import list.
Open Scope Z_scope.

Inductive eject_pause := USB_EJECT_IDLE | USB_EJECT_REQUESTED | USB_EJECT_PAUSED | USB_EJECT_RESUMING.
#[export] Instance eject_pause_eq_dec : EqDecision eject_pause.
Proof. solve_decision. Defined.

(** Where the scanner is: in its main loop; about to store IDLE after it read RESUMING; before
    [suspend_usb_scan_root_watch_trees]; before the store to [g_usb_watches_suspended]; before
    the exchange of REQUESTED for PAUSED; before the two conditions of the loop; in [select];
    before [drain_scanner_wake_pipe]; before the condition after the loop; reopening watches;
    before the store that ends it; stopped. *)
Inductive scanner_pc := SMain | SClear | SSuspend | SMark | SPublish | SLoad | SFlags | SSelect | SDrain | SLeave | SResume | SUnmark | SStoreIdle | SStopped.

(** Where the thread that ejects is: outside; before the exchange of IDLE for REQUESTED; before
    its wake-up; waiting, with the turns that are left; before the store of RESUMING; before
    the wake-up after it; holding the pause. *)
Inductive eject_pc := EOut | ERequest | EWake | EWait (n : nat) | EStore | EWakeLast | EHold.

Record eject_state := EjectState {
  es_pause : eject_pause; es_scanner : scanner_pc; es_eject : eject_pc; es_table : watch_table; es_suspended : bool;
  es_token : bool; es_stop : bool; es_sleep : bool;
  es_calm : bool; (* neither a stop nor sleep since the request *)
}.

Definition set_pause (p : eject_pause) (s : eject_state) : eject_state :=
  EjectState p (es_scanner s) (es_eject s) (es_table s) (es_suspended s) (es_token s) (es_stop s) (es_sleep s) (es_calm s).
Definition at_scanner (pc : scanner_pc) (s : eject_state) : eject_state :=
  EjectState (es_pause s) pc (es_eject s) (es_table s) (es_suspended s) (es_token s) (es_stop s) (es_sleep s) (es_calm s).
Definition at_eject (pc : eject_pc) (s : eject_state) : eject_state :=
  EjectState (es_pause s) (es_scanner s) pc (es_table s) (es_suspended s) (es_token s) (es_stop s) (es_sleep s) (es_calm s).
Definition set_table (t : watch_table) (s : eject_state) : eject_state :=
  EjectState (es_pause s) (es_scanner s) (es_eject s) t (es_suspended s) (es_token s) (es_stop s) (es_sleep s) (es_calm s).
Definition set_suspended (b : bool) (s : eject_state) : eject_state :=
  EjectState (es_pause s) (es_scanner s) (es_eject s) (es_table s) b (es_token s) (es_stop s) (es_sleep s) (es_calm s).
Definition set_token (b : bool) (s : eject_state) : eject_state :=
  EjectState (es_pause s) (es_scanner s) (es_eject s) (es_table s) (es_suspended s) b (es_stop s) (es_sleep s) (es_calm s).
Definition set_flags (stop sleep calm : bool) (s : eject_state) : eject_state :=
  EjectState (es_pause s) (es_scanner s) (es_eject s) (es_table s) (es_suspended s) (es_token s) stop sleep calm.

Definition disturbed (s : eject_state) : bool := es_stop s || es_sleep s.

Section steps.
(** The scan roots. *)
Context (paths : list (option string)).

(** One access of the scanner's thread. *)
Inductive scanner_step : eject_state -> eject_state -> Prop :=
  (* the main loop works on its watches, sleeps and wakes, and looks at the word *)
  | sc_work s op t : es_scanner s = SMain \/ es_scanner s = SResume -> op_ok op -> run_op op (es_table s) = Some (true, t) -> scanner_step s (set_table t s)
  | sc_mark s b : es_scanner s = SMain -> scanner_step s (set_suspended b s)
  | sc_fail s op t : es_scanner s = SMain \/ es_scanner s = SResume -> op_ok op -> run_op op (es_table s) = Some (false, t) ->
      scanner_step s (at_scanner SStopped (set_table (clear_scanner_watch_entries t) s))
  | sc_stop s : es_scanner s = SMain -> es_stop s = true -> scanner_step s (at_scanner SStopped (set_table (clear_scanner_watch_entries (es_table s)) s))
  | sc_look s : es_scanner s = SMain ->
      scanner_step s (at_scanner (match es_pause s with USB_EJECT_IDLE => SMain | USB_EJECT_RESUMING => SClear | _ => SSuspend end) s)
  | sc_drain_main s : es_scanner s = SMain -> scanner_step s (set_token false s)
  | sc_clear s : es_scanner s = SClear -> scanner_step s (at_scanner SMain (set_pause USB_EJECT_IDLE s))
  | sc_suspend s memory t : es_scanner s = SSuspend -> suspend_usb_scan_root_watch_trees memory paths (es_table s) = Some (true, t) ->
      scanner_step s (at_scanner SMark (set_table t s))
  | sc_suspend_fail s memory t : es_scanner s = SSuspend -> suspend_usb_scan_root_watch_trees memory paths (es_table s) = Some (false, t) ->
      scanner_step s (at_scanner SStopped (set_table (clear_scanner_watch_entries t) s))
  | sc_suspended s : es_scanner s = SMark -> scanner_step s (at_scanner SPublish (set_suspended true s))
  | sc_publish s : es_scanner s = SPublish ->
      scanner_step s (at_scanner SLoad (match es_pause s with USB_EJECT_REQUESTED => set_pause USB_EJECT_PAUSED s | _ => s end))
  | sc_load s : es_scanner s = SLoad -> scanner_step s (at_scanner (match es_pause s with USB_EJECT_PAUSED => SFlags | _ => SLeave end) s)
  | sc_flags s : es_scanner s = SFlags -> scanner_step s (at_scanner (if disturbed s then SLeave else SSelect) s)
  | sc_select s : es_scanner s = SSelect -> es_token s = true -> scanner_step s (at_scanner SDrain s)
  | sc_select_interrupted s : es_scanner s = SSelect -> scanner_step s (at_scanner SLoad s)
  | sc_select_fail s : es_scanner s = SSelect -> scanner_step s (at_scanner SStopped (set_table (clear_scanner_watch_entries (es_table s)) s))
  | sc_drain s : es_scanner s = SDrain -> scanner_step s (at_scanner SLoad (set_token false s))
  | sc_leave s : es_scanner s = SLeave -> scanner_step s (at_scanner (if disturbed s then SStoreIdle else SResume) s)
  | sc_resumed s : es_scanner s = SResume -> scanner_step s (at_scanner SUnmark s)
  | sc_unmark s : es_scanner s = SUnmark -> scanner_step s (at_scanner SStoreIdle (set_suspended false s))
  | sc_store s : es_scanner s = SStoreIdle -> scanner_step s (at_scanner SMain (set_pause USB_EJECT_IDLE s)).

(** One access of the thread that ejects. *)
Inductive eject_step : eject_state -> eject_state -> Prop :=
  | ej_begin s : es_eject s = EOut -> disturbed s = false -> eject_step s (at_eject ERequest (set_flags (es_stop s) (es_sleep s) true s))
  | ej_request s : es_eject s = ERequest -> es_pause s = USB_EJECT_IDLE -> eject_step s (at_eject EWake (set_pause USB_EJECT_REQUESTED s))
  | ej_busy s : es_eject s = ERequest -> es_pause s <> USB_EJECT_IDLE -> eject_step s (at_eject EOut s)
  | ej_wake s : es_eject s = EWake -> eject_step s (at_eject (EWait 200) (set_token true s))
  | ej_turn s n : es_eject s = EWait (S n) ->
      eject_step s (at_eject (if disturbed s then EStore else match es_pause s with USB_EJECT_PAUSED => EHold | _ => EWait n end) s)
  | ej_give_up s : es_eject s = EWait 0 -> eject_step s (at_eject EStore s)
  | ej_done s : es_eject s = EHold -> eject_step s (at_eject EStore s)
  | ej_store s : es_eject s = EStore -> eject_step s (at_eject EWakeLast (set_pause USB_EJECT_RESUMING s))
  | ej_wake_last s : es_eject s = EWakeLast -> eject_step s (at_eject EOut (set_token true s)).

(** Stop and sleep, and wake-ups by others. *)
Inductive outside_step : eject_state -> eject_state -> Prop :=
  | out_flags s stop sleep : outside_step s (set_flags stop sleep (es_calm s && negb (stop || sleep)) s)
  | out_token s : outside_step s (set_token true s).

Definition eject_start (t : watch_table) : eject_state := EjectState USB_EJECT_IDLE SMain EOut t false false false false true.

Inductive ejecting : eject_state -> Prop :=
  | ejecting_start t : watching true t -> ejecting (eject_start t)
  | ejecting_scanner s s' : ejecting s -> scanner_step s s' -> ejecting s'
  | ejecting_eject s s' : ejecting s -> eject_step s s' -> ejecting s'
  | ejecting_outside s s' : ejecting s -> outside_step s s' -> ejecting s'.
End steps.

(** ** The invariant *)
Definition no_usb_watches (paths : list (option string)) (t : watch_table) : Prop := forall w, w ∈ watches t -> ~ suspended_watch paths w.

(** The scanner holds still. *)
Definition holding (pc : scanner_pc) : bool := match pc with SLoad | SFlags | SSelect | SDrain => true | _ => false end.
Definition closed_pc (pc : scanner_pc) : bool := match pc with SMark | SPublish | SLoad | SFlags | SSelect | SDrain | SStopped => true | _ => false end.

(** What the word may be, by the scanner's place. *)
Definition pause_fits (pc : scanner_pc) (p : eject_pause) : Prop :=
  match pc with
  | SMain => p <> USB_EJECT_PAUSED
  | SClear => p = USB_EJECT_RESUMING
  | SSuspend | SMark | SPublish => p = USB_EJECT_REQUESTED \/ p = USB_EJECT_RESUMING
  | SStopped => True
  | _ => p = USB_EJECT_PAUSED \/ p = USB_EJECT_RESUMING
  end.

Definition eject_at_request (pc : eject_pc) : bool := match pc with EWake | EWait _ | EStore => true | _ => false end.
Definition eject_at_pause (pc : eject_pc) : bool := match pc with EWake | EWait _ | EStore | EHold => true | _ => false end.

Record eject_ok (paths : list (option string)) (s : eject_state) : Prop := {
  ek_table : table_ok (es_table s);
  ek_closed : closed_pc (es_scanner s) = true -> no_usb_watches paths (es_table s);
  ek_marked : holding (es_scanner s) = true -> es_suspended s = true;
  ek_publish : es_scanner s = SPublish -> es_suspended s = true;
  ek_fits : pause_fits (es_scanner s) (es_pause s);
  ek_requested : es_pause s = USB_EJECT_REQUESTED -> eject_at_request (es_eject s) = true;
  ek_paused : es_pause s = USB_EJECT_PAUSED -> eject_at_pause (es_eject s) = true;
  ek_calm : es_calm s = true -> es_eject s <> EOut -> disturbed s = false;
  ek_still : es_pause s = USB_EJECT_PAUSED -> es_calm s = true -> holding (es_scanner s) = true \/ es_scanner s = SStopped;
  ek_hold : es_eject s = EHold -> es_calm s = true -> es_pause s = USB_EJECT_PAUSED;
  ek_stopped : es_scanner s = SStopped -> wt_entries (es_table s) = [] /\ forall fd, fd ∉ ds_open (wt_fds (es_table s));
  ek_awake : es_scanner s = SFlags \/ es_scanner s = SSelect -> es_token s = false -> es_pause s = USB_EJECT_PAUSED \/ es_eject s = EWakeLast;
}.

Lemma cleared_closed paths t : structure_ok t -> table_ok (clear_scanner_watch_entries t) /\ no_usb_watches paths (clear_scanner_watch_entries t).
Proof.
  intros Ht. rewrite clear_watches_spec by done. split; [apply empty_ok|]. intros w Hw. by apply elem_of_nil in Hw.
Qed.

Lemma cleared_empty t : structure_ok t ->
  wt_entries (clear_scanner_watch_entries t) = [] /\ forall fd, fd ∉ ds_open (wt_fds (clear_scanner_watch_entries t)).
Proof. intros Ht. rewrite clear_watches_spec by done. split; [done|]. intros fd. cbn. set_solver. Qed.

Lemma suspend_closed paths memory t ok t' : table_ok t -> (length paths <= MAX_SCAN_PATHS)%nat -> suspend_usb_scan_root_watch_trees memory paths t = Some (ok, t') ->
  structure_ok t' /\ (ok = true -> table_ok t') /\ no_usb_watches paths t'.
Proof.
  intros Ht Hp Hs. destruct (suspend_spec memory paths t Ht Hp) as (ok' & t'' & Hs' & Hst & Hok & _ & Hw). simplify_eq. split; [done|]. split; [done|].
  intros w Hin. rewrite Hw in Hin. by apply list_elem_of_filter in Hin as [? _].
Qed.

Ltac eject_solve := cbn in *; intros; subst; repeat match goal with H : _ \/ _ |- _ => destruct H end; try congruence; auto.

Section kept.
Context (paths : list (option string)).
Hypothesis (Hpaths : (length paths <= MAX_SCAN_PATHS)%nat).

Lemma outside_kept s s' : eject_ok paths s -> outside_step s s' -> eject_ok paths s'.
Proof.
  intros [H1 H2 H3 H4 H5 H6 H7 H8 H9 H10 H12 H11] Hst. destruct Hst as [s stop sleep|s]; cbn in *; split; cbn; auto.
  - intros [Hc Hn]%andb_true_iff _. by apply negb_true_iff in Hn.
  - intros Hp [Hc _]%andb_true_iff. auto.
  - intros He [Hc _]%andb_true_iff. auto.
  - done.
Qed.

Lemma eject_kept s s' : eject_ok paths s -> eject_step s s' -> eject_ok paths s'.
Proof.
  intros [H1 H2 H3 H4 H5 H6 H7 H8 H9 H10 H12 H11] Hst.
  destruct Hst as [s He Hd|s He Hp|s He Hp|s He|s n He|s He|s He|s He|s He]; destruct s as [pause sc ej t susp token stop sleep calm]; cbn in *; subst;
    split; unfold disturbed in *; cbn in *; try (by auto); try (by eauto).
  all: try (intros; by (repeat match goal with H : _ \/ _ |- _ => destruct H end; subst; cbn in *; try congruence; auto)).
  all: try (destruct sc; cbn in *; intuition congruence).
  all: try (destruct (stop || sleep) eqn:?, pause; cbn in *; intuition congruence).
Qed.

Lemma scanner_kept s s' : eject_ok paths s -> scanner_step paths s s' -> eject_ok paths s'.
Proof.
  intros [H1 H2 H3 H4 H5 H6 H7 H8 H9 H10 H12 H11] Hst.
  assert (Hclear : forall t, structure_ok t -> table_ok (clear_scanner_watch_entries t) /\ no_usb_watches paths (clear_scanner_watch_entries t)) by (intros; by apply cleared_closed).
  assert (Hop : forall op ok t, op_ok op -> run_op op (es_table s) = Some (ok, t) -> structure_ok t /\ (ok = true -> table_ok t)).
  { intros op ok t Hop Hr. destruct (watch_op_runs op (es_table s) H1 Hop) as (? & ? & ? & ? & ?). by simplify_eq. }
  assert (Hsus : forall memory ok t, suspend_usb_scan_root_watch_trees memory paths (es_table s) = Some (ok, t) -> structure_ok t /\ (ok = true -> table_ok t) /\ no_usb_watches paths t)
    by (intros; by eapply suspend_closed).
  pose proof (proj1 (Hclear _ (proj1 H1))) as Hc1. pose proof (proj2 (Hclear _ (proj1 H1))) as Hc2.
  pose proof (cleared_empty _ (proj1 H1)) as Hc3.
  assert (Hquiet : es_pause s = USB_EJECT_PAUSED -> es_calm s = true -> disturbed s = false).
  { intros Hp Hc. apply H8; [done|]. intros He. specialize (H7 Hp). by rewrite He in H7. }
  destruct Hst as [s op t Hpc Ho Hr|s b Hpc|s op t Hpc Ho Hr|s Hpc Hs|s Hpc|s Hpc|s Hpc|s memory t Hpc Hr|s memory t Hpc Hr|s Hpc|s Hpc|s Hpc|s Hpc|s Hpc Ht|s Hpc|s Hpc|s Hpc|s Hpc|s Hpc|s Hpc|s Hpc];
    try (destruct (Hop _ _ _ Ho Hr) as [Q1 Q2]); try (destruct (Hsus _ _ _ Hr) as (Q1 & Q2 & Q3));
    try (pose proof (Hclear _ Q1) as [Q4 Q5]); try (pose proof (cleared_empty _ Q1) as Q6); clear Hop Hsus Hclear;
    destruct s as [pause sc ej t0 susp token stop sleep calm]; cbn in *; (destruct Hpc as [-> | ->] || subst sc);
    split; unfold disturbed in *; cbn in *; try assumption.
  all: try (intros; congruence).
  all: try (by auto).
  all: try (intros [? | ?]; congruence).
  all: destruct pause; cbn in *; try (by auto); try congruence; try (destruct (stop || sleep); cbn in *; intuition congruence).
  intros _. specialize (H6 eq_refl). by destruct ej.
Qed.

Lemma ejecting_ok s : ejecting paths s -> eject_ok paths s.
Proof.
  induction 1 as [t Ht|s s' _ IH Hst|s s' _ IH Hst|s s' _ IH Hst].
  - destruct (watching_ok _ _ Ht) as [_ Hok]. split; cbn; auto; try done; try (by intros [? | ?]).
  - by eapply scanner_kept.
  - by eapply eject_kept.
  - by eapply outside_kept.
Qed.
End kept.

(** ** Theorems *)

(** Claim C21: However the two threads, stops, sleep and wake-ups interleave: while the thread
    that ejects holds the pause, and neither a stop nor sleep came since its request, the
    scanner has no watch of a slot's directory or of "/mnt" itself (those of no scan root),
    and none that belongs to a scan root on USB storage, be it of the root, of a directory
    below it or of its parent; every descriptor it has open belongs to a watch that is left;
    and it stays at its wait and says that these watches are suspended, or it has failed and
    stopped, and has no watch and no descriptor left at all.  (Which watches are closed is
    decided by the path of the scan root: a root that contains USB storage without lying on
    it keeps its watches, those of directories of a drive included, as
    [root_above_drive_keeps_watch] shows.) *)
Theorem usb_eject_exclusive paths s : (length paths <= MAX_SCAN_PATHS)%nat -> ejecting paths s -> es_eject s = EHold -> es_calm s = true ->
  (forall w, w ∈ watches (es_table s) -> ~ suspended_watch paths w) /\
  (forall fd, fd ∈ ds_open (wt_fds (es_table s)) -> exists c, c ∈ subscriptions (es_table s) /\ sb_fd c = fd /\ ~ suspended_watch paths (key c)) /\
  ((holding (es_scanner s) = true /\ es_suspended s = true) \/
   (es_scanner s = SStopped /\ wt_entries (es_table s) = [] /\ forall fd, fd ∉ ds_open (wt_fds (es_table s)))).
Proof.
  intros Hp Hs Hh Hc. destruct (ejecting_ok paths Hp s Hs) as [H1 H2 H3 H4 H5 H6 H7 H8 H9 H10 H12 H11].
  assert (Hst : holding (es_scanner s) = true \/ es_scanner s = SStopped) by auto.
  assert (Hno : no_usb_watches paths (es_table s)) by (apply H2; destruct Hst as [Hst|Hst]; [by destruct (es_scanner s)|by rewrite Hst]).
  split; [exact Hno|]. split.
  - intros fd Hfd. destruct H1 as [[_ Hf _] _]. apply (fo_open _ _ Hf) in Hfd as (c & Hin & Hfd). exists c. split; [done|]. split; [done|].
    apply Hno. by apply list_elem_of_fmap_2.
  - destruct Hst as [Hst|Hst]; [left; auto|right; auto].
Qed.

(** No wake-up is lost: while the scanner blocks in its pause with nothing in the
    pipe, another thread still has to end the pause, and a thread that ended it goes on to
    write to the pipe. *)
Theorem eject_wakeup_pending paths s : (length paths <= MAX_SCAN_PATHS)%nat -> ejecting paths s -> es_scanner s = SSelect -> es_token s = false ->
  es_eject s <> EOut /\ es_eject s <> ERequest /\ (es_pause s <> USB_EJECT_PAUSED -> es_eject s = EWakeLast).
Proof.
  intros Hp Hs Hsel Ht. destruct (ejecting_ok paths Hp s Hs) as [H1 H2 H3 H4 H5 H6 H7 H8 H9 H10 H12 H11].
  destruct (H11 (or_intror Hsel) Ht) as [Hpa|He].
  - specialize (H7 Hpa). split_and!; [by intros He; rewrite He in H7..|done].
  - by rewrite He.
Qed.

(** *** An ejection *)
Definition demo_eject_paths : list (option string) := [Some "/mnt/usb0/games"%string; Some "/data/games"%string].

Definition demo_suspended_table : watch_table := from_option snd demo_watch_table (suspend_usb_scan_root_watch_trees true demo_eject_paths demo_watch_table).

Lemma demo_suspends : suspend_usb_scan_root_watch_trees true demo_eject_paths demo_watch_table = Some (true, demo_suspended_table).
Proof. vm_compute. reflexivity. Qed.

(** One watch is left of three. *)
Example demo_suspended_watches : (length (watches demo_watch_table), key <$> subscriptions demo_suspended_table) = (3%nat, [(1, "/data/a"%string, SCANNER_WATCH_SCAN_ROOT_PARENT, 0)]).
Proof. vm_compute. reflexivity. Qed.

(** The scan root "/mnt" is not on USB storage: suspending leaves its watch of "/mnt/usb0". *)
Example root_above_drive_keeps_watch :
  let t := (register_scanner_watch_entry demo_answers 0 "/mnt/usb0" SCANNER_WATCH_SCAN_SUBDIR 1 (empty_watches (Descriptors ∅ false))).2 in
  is_usb_storage_path "/mnt/usb0" = true /\
  (fun r => (r.1, key <$> subscriptions r.2)) <$> suspend_usb_scan_root_watch_trees true [Some "/mnt"%string] t =
    Some (true, [(0, "/mnt/usb0"%string, SCANNER_WATCH_SCAN_SUBDIR, 1)]).
Proof. vm_compute. split; reflexivity. Qed.

(** The thread that ejects gets the pause. *)
Definition held_state (t : watch_table) : eject_state := EjectState USB_EJECT_PAUSED SSelect EHold t true false false false true.

Lemma pause_granted P t t' : watching true t -> suspend_usb_scan_root_watch_trees true P t = Some (true, t') -> ejecting P (held_state t').
Proof.
  intros Hw Hs. set (s0 := eject_start t). pose proof (ejecting_start P t Hw : ejecting P s0) as H0.
  set (s1 := at_eject ERequest (set_flags false false true s0)).
  pose proof (ejecting_eject P s0 s1 H0 (ej_begin s0 eq_refl eq_refl)) as H1.
  set (s2 := at_eject EWake (set_pause USB_EJECT_REQUESTED s1)).
  pose proof (ejecting_eject P s1 s2 H1 (ej_request s1 eq_refl eq_refl)) as H2.
  set (s3 := at_eject (EWait 200) (set_token true s2)).
  pose proof (ejecting_eject P s2 s3 H2 (ej_wake s2 eq_refl)) as H3.
  set (s4 := at_scanner SSuspend s3).
  pose proof (ejecting_scanner P s3 s4 H3 (sc_look P s3 eq_refl)) as H4.
  set (s5 := at_scanner SMark (set_table t' s4)).
  pose proof (ejecting_scanner P s4 s5 H4 (sc_suspend P s4 true t' eq_refl Hs)) as H5.
  set (s6 := at_scanner SPublish (set_suspended true s5)).
  pose proof (ejecting_scanner P s5 s6 H5 (sc_suspended P s5 eq_refl)) as H6.
  set (s7 := at_scanner SLoad (set_pause USB_EJECT_PAUSED s6)).
  pose proof (ejecting_scanner P s6 s7 H6 (sc_publish P s6 eq_refl)) as H7.
  set (s8 := at_scanner SFlags s7).
  pose proof (ejecting_scanner P s7 s8 H7 (sc_load P s7 eq_refl)) as H8.
  set (s9 := at_scanner SSelect s8).
  pose proof (ejecting_scanner P s8 s9 H8 (sc_flags P s8 eq_refl)) as H9.
  set (s10 := at_scanner SDrain s9).
  pose proof (ejecting_scanner P s9 s10 H9 (sc_select P s9 eq_refl eq_refl)) as H10.
  set (s11 := at_scanner SLoad (set_token false s10)).
  pose proof (ejecting_scanner P s10 s11 H10 (sc_drain P s10 eq_refl)) as H11.
  set (s12 := at_scanner SFlags s11).
  pose proof (ejecting_scanner P s11 s12 H11 (sc_load P s11 eq_refl)) as H12.
  set (s13 := at_scanner SSelect s12).
  pose proof (ejecting_scanner P s12 s13 H12 (sc_flags P s12 eq_refl)) as H13.
  set (s14 := at_eject EHold s13).
  pose proof (ejecting_eject P s13 s14 H13 (ej_turn s13 199 eq_refl)) as H14.
  exact H14.
Qed.

Definition demo_held : eject_state := held_state demo_suspended_table.

Lemma demo_ejecting : ejecting demo_eject_paths demo_held.
Proof. exact (pause_granted _ _ _ demo_watching demo_suspends). Qed.

Lemma usb_eject_exclusive_witness : es_eject demo_held = EHold /\ forall w, w ∈ watches (es_table demo_held) -> ~ suspended_watch demo_eject_paths w.
Proof.
  assert (Hp : (length demo_eject_paths <= MAX_SCAN_PATHS)%nat) by (unfold MAX_SCAN_PATHS; cbn; lia).
  destruct (usb_eject_exclusive demo_eject_paths demo_held Hp demo_ejecting eq_refl eq_refl) as [H _]. split; [reflexivity|exact H].
Defined.

Lemma eject_wakeup_pending_witness : es_scanner demo_held = SSelect /\ es_eject demo_held <> EOut.
Proof.
  assert (Hp : (length demo_eject_paths <= MAX_SCAN_PATHS)%nat) by (unfold MAX_SCAN_PATHS; cbn; lia).
  destruct (eject_wakeup_pending demo_eject_paths demo_held Hp demo_ejecting eq_refl eq_refl) as [H _]. split; [reflexivity|exact H].
Defined.
