(* ===== verification/ScannerEvents.v ===== *)
(** * Events of the watches (src/sm_scanner.c, fifth part)

    Building the watches of a scan root over the walk of ScanTree.v, and what a batch of
    events of the kernel changes: the files of the configuration, the USB slots, the roots
    to scan and the trees to rebuild.  Answers of the system are functions of the number
    of questions asked so far. *)
From S2P Require Import Prelude CString ScanTree Effects ScanCandidates ScannerWatch ScannerLinks ScannerTable ScannerHistory ScannerSchedule ScannerUsb.
From stdpp Require Import list.
Open Scope Z_scope.
Open Scope c_scope.

(** ** State and answers *)
Inductive scan_call :=
  | TreeRebuilt (root : Z)
  | ClosedConfig (file : nat)
  | ClosedManual
  | DrainedWakePipe.

Record scan_state := ScanState {
  sn_table : watch_table; sn_usb : usb_state; sn_timers : scanner_timers;
  sn_config_fds : list (option Z); sn_manual_fd : option Z; sn_wake_fd : Z;
  sn_asked : nat; sn_log : list scan_call;
}.

Record scan_sys := ScanSys {
  sy_paths : list (option string); (* [get_scan_path] *)
  sy_depth : string -> Z; (* [get_scan_depth_for_root] *)
  sy_wait_us : Z; (* [scanner_stability_wait_us] *)
  sy_game_param : string -> bool; (* [directory_has_game_param] *)
  sy_walk : nat -> walk_env;
  sy_register : nat -> register_answers;
  sy_memory : nat -> bool;
  sy_directory : nat -> string -> option (Z * Z); (* device and inode of a directory *)
  sy_fstat : nat -> Z -> option (Z * Z);
  sy_mounted : nat -> string -> bool; (* [usb_storage_root_mounted] *)
  sy_statfs : nat -> string -> option (Z * Z * Z);
  sy_grace : nat -> bool; (* [runtime_resume_grace_active] *)
  sy_open_config : nat -> option Z;
  sy_open_manual : nat -> option Z;
  sy_kevent : nat -> bool;
}.

Definition M := prog scan_state.

Definition put_table (t : watch_table) (w : scan_state) : scan_state :=
  ScanState t (sn_usb w) (sn_timers w) (sn_config_fds w) (sn_manual_fd w) (sn_wake_fd w) (sn_asked w) (sn_log w).
Definition put_usb (u : usb_state) (w : scan_state) : scan_state :=
  ScanState (sn_table w) u (sn_timers w) (sn_config_fds w) (sn_manual_fd w) (sn_wake_fd w) (sn_asked w) (sn_log w).
Definition put_timers (t : scanner_timers) (w : scan_state) : scan_state :=
  ScanState (sn_table w) (sn_usb w) t (sn_config_fds w) (sn_manual_fd w) (sn_wake_fd w) (sn_asked w) (sn_log w).
Definition put_config_fds (fds : list (option Z)) (w : scan_state) : scan_state :=
  ScanState (sn_table w) (sn_usb w) (sn_timers w) fds (sn_manual_fd w) (sn_wake_fd w) (sn_asked w) (sn_log w).
Definition put_manual_fd (fd : option Z) (w : scan_state) : scan_state :=
  ScanState (sn_table w) (sn_usb w) (sn_timers w) (sn_config_fds w) fd (sn_wake_fd w) (sn_asked w) (sn_log w).
Definition put_asked (n : nat) (w : scan_state) : scan_state :=
  ScanState (sn_table w) (sn_usb w) (sn_timers w) (sn_config_fds w) (sn_manual_fd w) (sn_wake_fd w) n (sn_log w).
Definition put_log (c : scan_call) (w : scan_state) : scan_state :=
  ScanState (sn_table w) (sn_usb w) (sn_timers w) (sn_config_fds w) (sn_manual_fd w) (sn_wake_fd w) (sn_asked w) (sn_log w ++ [c]).

Definition sn_roots (w : scan_state) : list scanner_root_state_t := us_roots (sn_usb w).
Definition put_roots (roots : list scanner_root_state_t) (w : scan_state) : scan_state := put_usb (set_roots roots (sn_usb w)) w.

(** An answer to a question. *)
Definition ask {A} (f : nat -> A) : M A := fun w => Some (f (sn_asked w), put_asked (S (sn_asked w)) w).

Definition on_table (f : watch_table -> option (bool * watch_table)) : M bool :=
  fun w => match f (sn_table w) with Some (ok, t) => Some (ok, put_table t w) | None => None end.
Definition on_timers (f : scanner_timers -> scanner_timers) : M () := change (fun w => put_timers (f (sn_timers w)) w).
Definition on_roots (f : list scanner_root_state_t -> list scanner_root_state_t) : M () := change (fun w => put_roots (f (sn_roots w)) w).

(** Vnode events that end the life of the file or directory. *)
Definition terminal (f : vnode_flags) : bool := scanner_event_requires_consistency_cleanup f.

Inductive scan_event :=
  | EventRead (ident : Z)
  | EventFs (mounts_changed : bool)
  | EventVnode (ident : Z) (flags : vnode_flags)
  | EventOther.

Section scanner.
Context (sys : scan_sys).
Abbreviation paths := (sy_paths sys).

Definition schedule_dirty (i now_us : Z) (immediate : bool) : M () :=
  change (fun w => put_roots (schedule_scan_root_dirty paths (us_result_pending_mask (sn_usb w)) (sy_wait_us sys) i now_us immediate (sn_roots w)) w).
Definition schedule_slot (slot now_us : Z) : M () :=
  change (fun w => put_roots (schedule_scan_roots_for_usb_slot paths (us_result_pending_mask (sn_usb w)) (sy_wait_us sys) slot now_us (sn_roots w)) w).

(** What is asked about a slot at one moment. *)
Definition usb_answers_at (n : nat) (t : watch_table) : usb_answers :=
  UsbAnswers (sy_mounted sys n) (fun usb_root => scanner_usb_root_identity_changed (sy_fstat sys n) (sy_directory sys n) usb_root (wt_entries t)) (sy_statfs sys n).

Definition notify_mount_change (path : string) (force_refresh : bool) : M bool :=
  fun w =>
    let '(scan, u) := notify_scanner_usb_mount_change (usb_answers_at (sn_asked w) (sn_table w)) paths path force_refresh (sn_usb w) in
    Some (scan, put_asked (S (sn_asked w)) (put_usb u w)).

(** ** Watches of a root *)

(** The context of the walk: the questions asked and the table. *)
Definition register_watch_directory_visit (scan_root_index scan_depth : Z) (dir_path : string) (depth_from_root : nat) (ctx : nat * watch_table) :
    sm_scan_tree_dir_visit_t * (nat * watch_table) :=
  let '(n, t) := ctx in
  if (0 <? depth_from_root)%nat &&
     (is_under_image_mount_base dir_path || (scan_depth <=? Z.of_nat depth_from_root) || sy_game_param sys dir_path)
  then (SM_SCAN_TREE_DIR_SKIP_DESCEND, (n, t))
  else
    let kind := if (depth_from_root =? 0)%nat then SCANNER_WATCH_SCAN_ROOT else SCANNER_WATCH_SCAN_SUBDIR in
    let '(ok, t) := register_scanner_watch_entry (sy_register sys n) scan_root_index dir_path kind (u8 (Z.of_nat depth_from_root)) t in
    (if ok : bool then SM_SCAN_TREE_DIR_DESCEND else SM_SCAN_TREE_DIR_ABORT, (S n, t)).

Definition walk_watches (scan_root_index : Z) (scan_root dir : string) (depth : nat) (remaining : nat) : M bool :=
  fun w =>
    let env := sy_walk sys (sn_asked w) in
    let callbacks := Callbacks (Some (register_watch_directory_visit scan_root_index (sy_depth sys scan_root))) None true in
    let '(ok, (_, (n, t))) := sm_scan_tree_walk (we_fs env) (we_scan_paths env) (we_stop env) (we_active_game env) callbacks scan_root remaining dir depth
      (0%nat, (S (sn_asked w), sn_table w)) in
    Some (ok, put_asked n (put_table t w)).

Definition register_watch (scan_root_index : Z) (path : string) (kind : scanner_watch_kind_t) (depth : Z) : M bool :=
  let* a := ask (sy_register sys) in
  on_table (fun t => Some (register_scanner_watch_entry a scan_root_index path kind depth t)).

Definition resolve_parent (path : string) : M (option string) :=
  let* dir := ask (sy_directory sys) in
  match resolve_existing_parent_directory_path (fun p => bool_decide (is_Some (dir p))) path with
  | Some r => ret r
  | None => stuck
  end.

Definition register_scan_root_parent_watch (scan_root_index : Z) (scan_root : string) : M bool :=
  let* parent := resolve_parent scan_root in
  match parent with
  | None => ret true
  | Some parent_path => register_watch scan_root_index parent_path SCANNER_WATCH_SCAN_ROOT_PARENT 0
  end.

(** The presence of a root; the result is whether it changed and whether it is there. *)
Definition update_root_presence (scan_root_index : Z) (scan_root : string) : M (bool * bool) :=
  let* dir := ask (sy_directory sys) in
  let* changed := (fun w => let '(changed, roots) := update_scan_root_presence_state (dir scan_root) scan_root_index (sn_roots w) in Some (changed, put_roots roots w)) in
  ret (changed, bool_decide (is_Some (dir scan_root))).

Definition tree_rebuilt (scan_root_index : Z) : M () :=
  let* _ := on_roots (on_root scan_root_index clear_scan_root_watch_tree_state) in
  change (put_log (TreeRebuilt scan_root_index)).

Definition rebuild_scan_root_watch_tree (scan_root_index : Z) : M bool :=
  match scan_path_at paths scan_root_index with
  | None => ret false
  | Some scan_root =>
      let* memory := ask (sy_memory sys) in
      let* ok := on_table (remove_scan_root_watch_entries memory scan_root_index) in
      if negb ok then ret false
      else
        let* presence := update_root_presence scan_root_index scan_root in
        let* ok := (if presence.2 then walk_watches scan_root_index scan_root scan_root 0 (Z.to_nat (sy_depth sys scan_root)) else ret true) in
        if negb ok then ret false
        else
          let* ok := register_scan_root_parent_watch scan_root_index scan_root in
          if negb ok then ret false
          else let* _ := tree_rebuilt scan_root_index in ret true
  end.

Definition rebuild_scan_root_watch_subtree (scan_root_index : Z) (rebuild_path : string) (rebuild_depth : Z) (rebuild_kind : scanner_watch_kind_t) : M bool :=
  match scan_path_at paths scan_root_index with
  | None => ret false
  | Some scan_root =>
      if strcmp_eq rebuild_path "" || bool_decide (rebuild_kind = SCANNER_WATCH_SCAN_ROOT) || strcmp_eq rebuild_path scan_root
      then rebuild_scan_root_watch_tree scan_root_index
      else
        let scan_depth := sy_depth sys scan_root in
        let* memory := ask (sy_memory sys) in
        let* ok := on_table (remove_scan_root_watch_entries_for_path memory scan_root_index rebuild_path) in
        if negb ok then ret false
        else
          let* ok := (if scan_depth <? rebuild_depth then ret true
                      else walk_watches scan_root_index scan_root rebuild_path (Z.to_nat rebuild_depth) (Z.to_nat (scan_depth - rebuild_depth))) in
          if negb ok then ret false
          else let* _ := tree_rebuilt scan_root_index in ret true
  end.

Definition rebuild_usb_watches : M bool :=
  let* memory := ask (sy_memory sys) in
  let* parent := ask (sy_register sys) in
  fun w =>
    match rebuild_scanner_usb_watches memory (fun slot => sy_register sys (sn_asked w + slot)) parent (sn_table w) with
    | Some (ok, t) => Some (ok, put_asked (sn_asked w + SCANNER_USB_SLOT_COUNT) (put_table t w))
    | None => None
    end.

Fixpoint rebuild_roots (count : nat) (i : nat) : M bool :=
  match count with
  | O => ret true
  | S count' =>
      let* ok := rebuild_scan_root_watch_tree (Z.of_nat i) in
      if negb ok then ret false else rebuild_roots count' (S i)
  end.

Definition rebuild_all_scan_root_watch_trees : M bool :=
  let* ok := rebuild_roots (length paths) 0 in
  if negb ok then ret false else rebuild_usb_watches.

Fixpoint resume_roots (count i : nat) (now_us : Z) : M bool :=
  match count with
  | O => ret true
  | S count' =>
      match scan_path_at paths (Z.of_nat i) with
      | Some scan_root =>
          if negb (is_usb_storage_path scan_root) then resume_roots count' (S i) now_us
          else
            let* ok := rebuild_scan_root_watch_tree (Z.of_nat i) in
            if negb ok then ret false
            else
              let* mounted := ask (sy_mounted sys) in
              let* _ := when (mounted scan_root) (schedule_dirty (Z.of_nat i) now_us true) in
              resume_roots count' (S i) now_us
      | None => resume_roots count' (S i) now_us
      end
  end.

Definition resume_usb_scan_root_watch_trees (now_us : Z) : M bool :=
  let* ok := resume_roots (length paths) 0 now_us in
  if negb ok then ret false else rebuild_usb_watches.

(** ** The files of the configuration and the manual list *)
Definition config_fd (w : scan_state) (i : nat) : option Z := default None (sn_config_fds w !! i).
Definition set_config_fd (i : nat) (fd : option Z) : M () := change (fun w => put_config_fds (<[i := fd]> (sn_config_fds w)) w).

Definition close_config (i : nat) : M () :=
  let* _ := set_config_fd i None in change (put_log (ClosedConfig i)).

Fixpoint register_config_files (files : list nat) (now_us : Z) : M () :=
  match files with
  | [] => ret tt
  | i :: files' =>
      let* fd := look (fun w => config_fd w i) in
      let* _ := (match fd with
                 | Some _ => let* ok := ask (sy_kevent sys) in when (negb ok) (close_config i)
                 | None => ret tt
                 end) in
      let* fd := look (fun w => config_fd w i) in
      let* _ := when (bool_decide (fd = None)) (on_timers (schedule_config_probe now_us)) in
      register_config_files files' now_us
  end.

Definition register_config_file_watch (now_us : Z) : M () :=
  let* _ := on_timers (set_config_probe 0) in register_config_files [0; 1]%nat now_us.

Fixpoint reopen_config_files (files : list nat) (now_us : Z) : M () :=
  match files with
  | [] => ret tt
  | i :: files' =>
      let* fd := look (fun w => config_fd w i) in
      let* _ := (match fd with
                 | Some _ => ret tt
                 | None =>
                     let* opened := ask (sy_open_config sys) in
                     let* _ := set_config_fd i opened in
                     when (bool_decide (opened = None)) (on_timers (schedule_config_probe now_us))
                 end) in
      reopen_config_files files' now_us
  end.

(** [kq] tells whether there is a queue to register with. *)
Definition reopen_config_file_watch (kq : bool) (now_us : Z) : M () :=
  let* _ := reopen_config_files [0; 1]%nat now_us in
  when kq (register_config_file_watch now_us).

Definition close_scanner_manual_file : M () :=
  let* fd := look sn_manual_fd in
  when (bool_decide (is_Some fd)) (let* _ := change (put_manual_fd None) in change (put_log ClosedManual)).

Definition register_manual_file_watch (now_us : Z) : M () :=
  let* fd := look sn_manual_fd in
  match fd with
  | None => ret tt
  | Some _ =>
      let* ok := ask (sy_kevent sys) in
      if negb ok then let* _ := close_scanner_manual_file in on_timers (schedule_manual_probe now_us)
      else on_timers (set_manual_probe 0)
  end.

Definition reopen_manual_file_watch (now_us : Z) : M () :=
  let* _ := close_scanner_manual_file in
  let* opened := ask (sy_open_manual sys) in
  let* _ := change (put_manual_fd opened) in
  match opened with
  | None => on_timers (schedule_manual_probe now_us)
  | Some _ => register_manual_file_watch now_us
  end.

(** ** Events *)
Definition handle_scan_root_parent_event (sub : scanner_event_subscription_t) (watched_path : string) (now_us : Z) : M bool :=
  let i := ev_scan_root_index sub in
  match scan_path_at paths i with
  | None => ret false
  | Some scan_root =>
      let* presence := update_root_presence i scan_root in
      let '(root_changed, root_present) := presence in
      if root_present && root_changed then
        let* grace := ask (sy_grace sys) in
        let resumed_usb_root := grace && is_usb_storage_path scan_root in
        let* mounted := ask (sy_mounted sys) in
        if resumed_usb_root && negb (mounted scan_root) then rebuild_scan_root_watch_tree i
        else
          let* _ := schedule_dirty i now_us resumed_usb_root in
          let* _ := on_roots (schedule_scan_root_watch_tree_rebuild paths sub watched_path) in
          ret true
      else if root_present then ret true
      else if root_changed then
        let* grace := ask (sy_grace sys) in
        if grace && is_usb_storage_path scan_root then rebuild_scan_root_watch_tree i
        else
          let* _ := on_roots (schedule_scan_root_cleanup i) in
          let* _ := schedule_dirty i now_us true in
          let* _ := on_roots (schedule_scan_root_watch_tree_rebuild paths sub watched_path) in
          ret true
      else
        let* parent := resolve_parent scan_root in
        if match parent with Some p => negb (strcmp_eq p watched_path) | None => true end
        then rebuild_scan_root_watch_tree i else ret true
  end.

Definition handle_config_event (i : nat) (flags : vnode_flags) (now_us : Z) : M () :=
  let* _ := when (terminal flags) (let* _ := close_config i in reopen_config_file_watch true now_us) in
  on_timers (schedule_config_reload now_us).

Definition handle_scanner_control_event (event : scan_event) (now_us : Z) : M bool :=
  let* w := look id in
  match event with
  | EventRead ident => if ident =? sn_wake_fd w then let* _ := change (put_log DrainedWakePipe) in ret true else ret false
  | EventVnode ident flags =>
      if bool_decide (config_fd w 0 = Some ident) then let* _ := handle_config_event 0 flags now_us in ret true
      else if bool_decide (config_fd w 1 = Some ident) then let* _ := handle_config_event 1 flags now_us in ret true
      else if bool_decide (sn_manual_fd w = Some ident) then
        let* _ := (if terminal flags
                   then let* _ := close_scanner_manual_file in on_timers (set_manual_probe (if now_us =? 0 then 1 else now_us))
                   else on_timers (schedule_manual_scan now_us)) in
        ret true
      else ret false
  | _ => ret false
  end.

(** The masks of one batch: slots that came again, and whether the slots' watches are to be
    rebuilt and mounts changed. *)
Record batch := Batch { bt_refreshed : Z; bt_refresh_watches : bool; bt_mounts_changed : bool }.

(** One slot of a subscription of no root. *)
Fixpoint check_slots (slots : list Z) (parent immediate : bool) (event_slot now_us : Z) (checked : Z) (b : batch) : M (Z * batch) :=
  match slots with
  | [] => ret (checked, b)
  | slot :: slots' =>
      if negb parent && negb (slot =? event_slot) then check_slots slots' parent immediate event_slot now_us checked b
      else
        let* b := (if slot_bit (bt_refreshed b) slot then ret b
                   else
                     let* scan := notify_mount_change (usb_root_of slot) (negb parent && immediate) in
                     if scan then
                       let* _ := schedule_slot slot now_us in
                       ret (Batch (set_bit (bt_refreshed b) slot) true (bt_mounts_changed b))
                     else ret b) in
        let* _ := when parent (change (fun w => put_timers (schedule_scanner_usb_mount_probe (usb_root_of slot) now_us (us_mounted_mask (sn_usb w)) (sn_timers w)) w)) in
        check_slots slots' parent immediate event_slot now_us (set_bit checked slot) b
  end.

Fixpoint rootless_subscriptions (subs : list scanner_event_subscription_t) (watched_path : string) (immediate : bool) (now_us : Z) (checked : Z) (b : batch) : M (Z * batch) :=
  match subs with
  | [] => ret (checked, b)
  | sub :: subs' =>
      if 0 <=? ev_scan_root_index sub then rootless_subscriptions subs' watched_path immediate now_us checked b
      else
        let parent := bool_decide (ev_kind sub = SCANNER_WATCH_USB_PARENT) in
        let* r := check_slots usb_slots parent immediate (scanner_usb_slot_for_path watched_path) now_us checked b in
        let '(checked, b) := r in
        rootless_subscriptions subs' watched_path immediate now_us checked (Batch (bt_refreshed b) (bt_refresh_watches b || parent || immediate) (bt_mounts_changed b))
  end.

(** A USB root among the subscriptions: its slot is looked at once per event. *)
Definition check_root_slot (scan_root : string) (now_us : Z) (checked : Z) (b : batch) : M (Z * batch) :=
  let usb_slot := scanner_usb_slot_for_path scan_root in
  if (usb_slot <? 0) || slot_bit checked usb_slot then ret (checked, b)
  else
    let checked := set_bit checked usb_slot in
    if slot_bit (bt_refreshed b) usb_slot then ret (checked, b)
    else
      let* scan := notify_mount_change scan_root false in
      if scan then
        let* _ := schedule_slot usb_slot now_us in
        ret (checked, Batch (set_bit (bt_refreshed b) usb_slot) (bt_refresh_watches b) (bt_mounts_changed b))
      else ret (checked, b).

(** A subscription of a root that is not one of its parent. *)
Definition mark_root (sub : scanner_event_subscription_t) (path : string) (flags : vnode_flags) (now_us : Z) : M () :=
  let* _ := when (terminal flags) (on_roots (schedule_scan_root_cleanup (ev_scan_root_index sub))) in
  let* _ := schedule_dirty (ev_scan_root_index sub) now_us (terminal flags) in
  when (scanner_event_requires_watch_tree_refresh paths (sy_depth sys) sub flags)
    (on_roots (schedule_scan_root_watch_tree_rebuild paths sub path)).

(** [None]: the batch is given up. *)
Fixpoint root_subscriptions (subs : list scanner_event_subscription_t) (watched_path : string) (flags : vnode_flags) (now_us : Z) (checked : Z) (b : batch) : M (option batch) :=
  match subs with
  | [] => ret (Some b)
  | sub :: subs' =>
      let i := ev_scan_root_index sub in
      match (if i <? 0 then None else scan_path_at paths i) with
      | None => root_subscriptions subs' watched_path flags now_us checked b
      | Some scan_root =>
          let* r := check_root_slot scan_root now_us checked b in
          let '(checked, b) := r in
          if bool_decide (ev_kind sub = SCANNER_WATCH_SCAN_ROOT_PARENT) then
            let* _ := change (fun w => put_timers (schedule_scanner_usb_mount_probe scan_root now_us (us_mounted_mask (sn_usb w)) (sn_timers w)) w) in
            let* ok := handle_scan_root_parent_event sub watched_path now_us in
            if negb ok then ret None else root_subscriptions subs' watched_path flags now_us checked b
          else
            let* _ := mark_root sub watched_path flags now_us in
            root_subscriptions subs' watched_path flags now_us checked b
      end
  end.

Definition subscription_of (e : scanner_watch_entry_t) : scanner_event_subscription_t := EventSubscription (we_scan_root_index e) (we_depth e) (we_kind e).

(** The loop over all entries, with [room] left in the array: the subscriptions of a
    descriptor, [None] when there are too many, and the entries as they are left. *)
Fixpoint collect_subscriptions (ident : Z) (immediate : bool) (room : nat) (es : list scanner_watch_entry_t) :
    option (list scanner_event_subscription_t) * list scanner_watch_entry_t :=
  match es with
  | [] => (Some [], [])
  | e :: es' =>
      if negb (we_fd e =? ident) then
        let '(subs, es1) := collect_subscriptions ident immediate room es' in (subs, e :: es1)
      else
        let e1 := if immediate then unshare e else e in
        match room with
        | O => (None, e1 :: es')
        | S room' =>
            let '(subs, es1) := collect_subscriptions ident immediate room' es' in (cons (subscription_of e) <$> subs, e1 :: es1)
        end
  end.

(** An event of a watched directory. *)
Definition watch_event (ident : Z) (flags : vnode_flags) (now_us : Z) (b : batch) : M (option batch) :=
  let* w := look id in
  match find_scanner_watch_entry_by_fd (sn_table w) ident with
  | None => stuck
  | Some None => ret (Some b)
  | Some (Some owner) =>
      let watched_path := strlcpy (we_path (entry_at (sn_table w) owner)) MAX_PATH in
      let '(subs, es) := collect_subscriptions ident (terminal flags) (ConfigState.MAX_SCAN_PATHS + 1) (wt_entries (sn_table w)) in
      let* _ := change (fun w => put_table (with_entries es (sn_table w)) w) in
      match subs with
      | None => ret None
      | Some subs =>
        let* r := rootless_subscriptions subs watched_path (terminal flags) now_us 0 b in
        let '(checked, b) := r in
        root_subscriptions subs watched_path flags now_us checked b
      end
  end.

Fixpoint event_loop (events : list scan_event) (now_us : Z) (b : batch) : M (option batch) :=
  match events with
  | [] => ret (Some b)
  | event :: events' =>
      let* handled := handle_scanner_control_event event now_us in
      if handled then event_loop events' now_us b
      else
        match event with
        | EventFs changed => event_loop events' now_us (Batch (bt_refreshed b) (bt_refresh_watches b) (bt_mounts_changed b || changed))
        | EventVnode ident flags =>
            let* r := watch_event ident flags now_us b in
            match r with None => ret None | Some b => event_loop events' now_us b end
        | _ => event_loop events' now_us b
        end
  end.

(** Mounts changed: the slots that were not looked at. *)
Fixpoint refresh_slots (slots : list Z) (now_us : Z) (b : batch) : M batch :=
  match slots with
  | [] => ret b
  | slot :: slots' =>
      if slot_bit (bt_refreshed b) slot then refresh_slots slots' now_us b
      else
        let* scan := notify_mount_change (usb_root_of slot) false in
        let* _ := when scan (schedule_slot slot now_us) in
        refresh_slots slots' now_us (Batch (bt_refreshed b) (bt_refresh_watches b || scan) (bt_mounts_changed b))
  end.

(** The end of a batch: the storage was mounted or unmounted, and the watches of the slots. *)
Definition finish_batch (now_us : Z) (b : batch) : M (bool * bool) :=
  let* b := (if bt_mounts_changed b
             then let* _ := change (fun w => put_usb (tell [RefreshGameStorage] (sn_usb w)) w) in refresh_slots usb_slots now_us b
             else ret b) in
  if bt_refresh_watches b then let* ok := rebuild_usb_watches in ret (ok, false) else ret (true, false).

(** What [kevent] gives: an error, interrupted or not, or events. *)
Inductive kevent_answer := KError (interrupted : bool) | KEvents (events : list scan_event).

(** The result, and whether the wait ended without an event. *)
Definition process_scanner_events (answer : kevent_answer) (now_us : Z) : M (bool * bool) :=
  match answer with
  | KError interrupted => ret (interrupted, false)
  | KEvents [] => ret (true, true)
  | KEvents events =>
      let* r := event_loop events now_us (Batch 0 false false) in
      match r with
      | None => ret (false, false)
      | Some b => finish_batch now_us b
      end
  end.

(** At most eight batches; the answers are those of the successive calls. *)
Fixpoint drain_scanner_events_nowait (batches : list (kevent_answer * Z)) : M bool :=
  match batches with
  | [] => ret true
  | (answer, now_us) :: batches' =>
      let* r := process_scanner_events answer now_us in
      if negb r.1 then ret false else if r.2 : bool then ret true else drain_scanner_events_nowait batches'
  end.

Fixpoint discard_events (events : list scan_event) (now_us : Z) (changed : bool) : M bool :=
  match events with
  | [] => ret changed
  | event :: events' =>
      let* _ := handle_scanner_control_event event now_us in
      discard_events events' now_us (changed || match event with EventFs c => c | _ => false end)
  end.

Fixpoint discard_batches (batches : list (kevent_answer * Z)) (changed : bool) : M (bool * bool) :=
  match batches with
  | [] => ret (true, changed)
  | (KError true, _) :: batches' => discard_batches batches' changed
  | (KError false, _) :: _ => ret (false, changed)
  | (KEvents [], _) :: _ => ret (true, changed)
  | (KEvents events, now_us) :: batches' =>
      let* changed := discard_events events now_us changed in
      discard_batches batches' changed
  end.

Definition discard_scanner_events_nowait (batches : list (kevent_answer * Z)) : M bool :=
  let* r := discard_batches batches false in
  if negb r.1 then ret false
  else let* _ := when r.2 (change (fun w => put_usb (tell [RefreshGameStorage] (sn_usb w)) w)) in ret true.
End scanner.
