(* ===== verification/ScannerBatch.v ===== *)
(** * Batches of events of the watches (src/sm_scanner.c): properties

    Every step of ScannerEvents.v ends, keeps the table of watches sound and forgets no scan
    that is to be done; an event schedules every root subscribed to its directory. *)
From S2P Require Import Prelude CString ScanTree Effects ScanCandidates ScannerWatch ScannerLinks ScannerTable ScannerHistory ScannerSchedule ScannerUsb ScannerEvents.
From stdpp Require Import list.
Open Scope Z_scope.
Open Scope c_scope.

(** ** What every step keeps *)

(** Neither a scan nor a cleanup that is to be done is forgotten. *)
Definition root_kept (s s' : scanner_root_state_t) : Prop :=
  (rt_dirty s = true -> rt_dirty s' = true) /\ (rt_cleanup_pending s = true -> rt_cleanup_pending s' = true).
Definition roots_kept : list scanner_root_state_t -> list scanner_root_state_t -> Prop := Forall2 root_kept.

#[export] Instance root_kept_pre : PreOrder root_kept.
Proof. split; [done|]. intros a b c [? ?] [? ?]. split; auto. Qed.
#[export] Instance roots_kept_pre : PreOrder roots_kept.
Proof. unfold roots_kept. split; apply _. Qed.

Lemma on_root_kept i f roots : (forall s, roots !! Z.to_nat i = Some s -> root_kept s (f s)) -> roots_kept roots (on_root i f roots).
Proof.
  intros Hf. apply Forall2_same_length_lookup. unfold on_root. split; [by rewrite length_alter|]. intros k s s' Hs Hs'.
  destruct (decide (Z.to_nat i = k)) as [<-|Hne].
  - rewrite list_lookup_alter_eq, Hs in Hs'. simplify_eq/=. auto.
  - rewrite list_lookup_alter_ne in Hs' by done. simplify_eq. done.
Qed.

Lemma imap_kept (f : nat -> scanner_root_state_t -> scanner_root_state_t) roots : (forall i s, root_kept s (f i s)) -> roots_kept roots (imap f roots).
Proof.
  intros Hf. apply Forall2_same_length_lookup. split; [by rewrite length_imap|]. intros k s s' Hs Hs'.
  rewrite list_lookup_imap, Hs in Hs'. simplify_eq/=. auto.
Qed.

Lemma mark_dirty_kept pending wait p now imm s : root_kept s (mark_dirty pending wait p now imm s).
Proof. split; [intros _; apply mark_dirty_ready|]. unfold mark_dirty. repeat case_match; done. Qed.

Lemma schedule_dirty_kept paths pending wait i now imm roots : roots_kept roots (schedule_scan_root_dirty paths pending wait i now imm roots).
Proof. unfold schedule_scan_root_dirty. case_match; [|done]. apply on_root_kept. intros x _. apply mark_dirty_kept. Qed.

Lemma schedule_slot_kept paths pending wait slot now roots : roots_kept roots (schedule_scan_roots_for_usb_slot paths pending wait slot now roots).
Proof.
  unfold schedule_scan_roots_for_usb_slot, schedule_scan_roots_for_usb_slot_except. generalize 0. generalize paths at 1.
  intros ps. revert roots. induction ps as [|p ps IH]; intros roots i; [done|]. cbn [schedule_slot_from]. etrans; [|apply IH].
  repeat case_match; try done. apply schedule_dirty_kept.
Qed.

Lemma rebuild_scheduled_kept paths sub path roots : roots_kept roots (schedule_scan_root_watch_tree_rebuild paths sub path roots).
Proof.
  unfold schedule_scan_root_watch_tree_rebuild. repeat case_match; try done. apply on_root_kept. intros x _. unfold merge_rebuild. repeat case_match; done.
Qed.

Lemma presence_kept identity i roots : roots_kept roots (update_scan_root_presence_state identity i roots).2.
Proof.
  unfold update_scan_root_presence_state, update_presence. destruct (default _ _) as [device inode]. cbn [snd]. apply on_root_kept.
  intros s Hs. unfold root_at. by rewrite Hs.
Qed.

Lemma counts_kept paths slot roots : roots_kept roots (reset_scanner_usb_scan_counts paths slot roots).
Proof. apply imap_kept. intros i s. by case_match. Qed.

Lemma mount_change_kept a paths path force u : roots_kept (us_roots u) (us_roots (notify_scanner_usb_mount_change a paths path force u).2).
Proof. unfold notify_scanner_usb_mount_change. repeat (case_match || cbn); try done; apply counts_kept. Qed.

(** What is recorded of the presence of a root. *)
Definition seen (s : scanner_root_state_t) : bool * Z * Z := (rt_root_present s, rt_root_device s, rt_root_inode s).
Definition seen_at (roots : list scanner_root_state_t) (i : Z) : bool * Z * Z := seen (root_at roots i).

Lemma on_root_seen j f roots i : (forall s, seen (f s) = seen s) -> seen_at (on_root j f roots) i = seen_at roots i.
Proof.
  intros Hf. unfold seen_at, root_at, on_root. destruct (decide (Z.to_nat j = Z.to_nat i)) as [->|Hne].
  - rewrite list_lookup_alter_eq. destruct (roots !! Z.to_nat i); [apply Hf|done].
  - by rewrite list_lookup_alter_ne.
Qed.

Lemma on_root_other i j f roots : Z.to_nat i <> Z.to_nat j -> root_at (on_root j f roots) i = root_at roots i.
Proof. intros Hne. unfold root_at, on_root. by rewrite list_lookup_alter_ne. Qed.

Lemma schedule_dirty_seen paths pending wait j now imm roots i : seen_at (schedule_scan_root_dirty paths pending wait j now imm roots) i = seen_at roots i.
Proof. unfold schedule_scan_root_dirty. case_match; [|done]. apply on_root_seen. intros x. unfold mark_dirty. repeat case_match; done. Qed.

Lemma schedule_slot_seen paths pending wait slot now roots i : seen_at (schedule_scan_roots_for_usb_slot paths pending wait slot now roots) i = seen_at roots i.
Proof.
  unfold schedule_scan_roots_for_usb_slot, schedule_scan_roots_for_usb_slot_except. generalize 0 at 1. generalize paths at 1.
  intros ps. revert roots. induction ps as [|p ps IH]; intros roots k; [done|]. cbn [schedule_slot_from]. rewrite IH.
  repeat case_match; try done. apply schedule_dirty_seen.
Qed.

Lemma rebuild_scheduled_seen paths sub path roots i : seen_at (schedule_scan_root_watch_tree_rebuild paths sub path roots) i = seen_at roots i.
Proof. unfold schedule_scan_root_watch_tree_rebuild. repeat case_match; try done. apply on_root_seen. intros x. unfold merge_rebuild. repeat case_match; done. Qed.

Lemma mount_change_seen a paths path force u i :
  seen_at (us_roots (notify_scanner_usb_mount_change a paths path force u).2) i = seen_at (us_roots u) i.
Proof.
  assert (Hr : forall slot roots, seen_at (reset_scanner_usb_scan_counts paths slot roots) i = seen_at roots i).
  { intros slot roots. unfold seen_at, root_at, reset_scanner_usb_scan_counts. rewrite list_lookup_imap. destruct (roots !! Z.to_nat i); [|done]. cbn. by case_match. }
  unfold notify_scanner_usb_mount_change. repeat (case_match || cbn); try done; apply Hr.
Qed.

(** A run on a sound table ends; the table is sound when the result is [okv], and the
    descriptors are accounted for in any case. *)
Definition good {A} (okv : A -> bool) (m : M A) : Prop :=
  forall w, table_ok (sn_table w) ->
    wp (F := wholly) m (fun a w' => structure_ok (sn_table w') /\ (okv a = true -> table_ok (sn_table w')) /\ roots_kept (sn_roots w) (sn_roots w')) w.

Definition always {A} (_ : A) : bool := true.
Definition is_some {A} (x : option A) : bool := match x with Some _ => true | None => false end.

Lemma good_ret {A} (okv : A -> bool) x : good okv (ret x).
Proof. intros w Hw. apply wp_ret. split_and!; [apply Hw|done|done]. Qed.

Lemma good_bind {A B} (okv : A -> bool) (okv' : B -> bool) (m : M A) k : good okv m ->
  (forall a, okv a = true -> good okv' (k a)) -> (forall a, okv a = false -> exists b, k a = ret b /\ okv' b = false) -> good okv' (bind m k).
Proof.
  intros Hm Hk Hn w Hw. apply wp_bind. eapply wp_mono; [by apply Hm|]. intros a w' (Hs & Ht & Hr). destruct (okv a) eqn:Ha.
  - eapply wp_mono; [apply (Hk a Ha); by apply Ht|]. intros b w'' (? & ? & ?). split_and!; [done..|by etrans].
  - destruct (Hn a Ha) as (b & -> & Hb). apply wp_ret. split_and!; [done|congruence|done].
Qed.

Lemma good_then {A B} (okv : B -> bool) (m : M A) k : good always m -> (forall a, good okv (k a)) -> good okv (bind m k).
Proof. intros Hm Hk. eapply good_bind; [exact Hm|auto|done]. Qed.

(** [if (!m) return x;] *)
Lemma good_try {A} (okv : A -> bool) (m : M bool) x (k : M A) : good id m -> okv x = false -> good okv k ->
  good okv (bind m (fun ok => if negb ok then ret x else k)).
Proof. intros Hm Hx Hk. eapply good_bind; [exact Hm| |]; intros [] ?; try done. by exists x. Qed.

Lemma good_weaken {A} (okv : A -> bool) (m : M A) : good always m -> good okv m.
Proof. intros Hm w Hw. eapply wp_mono; [by apply Hm|]. intros a w' (? & H & ?). split_and!; [done| |done]. intros _. by apply H. Qed.

Lemma good_when b (m : M ()) : good always m -> good always (when b m).
Proof. intros Hm. destruct b; [done|]. apply good_ret. Qed.

(** Steps that leave the table alone. *)
Lemma good_change f : (forall w, sn_table (f w) = sn_table w /\ roots_kept (sn_roots w) (sn_roots (f w))) -> good always (change f).
Proof. intros Hf w Hw. apply wp_change. destruct (Hf w) as [-> ?]. split_and!; [apply Hw|done|done]. Qed.

Lemma good_timers f : good always (on_timers f).
Proof. by apply good_change. Qed.

Lemma good_roots f : (forall roots, roots_kept roots (f roots)) -> good always (on_roots f).
Proof. intros Hf. by apply good_change. Qed.

Lemma good_ask {A} (f : nat -> A) : good always (ask f).
Proof. intros w Hw. unfold ask, wp. split_and!; [apply Hw|done|done]. Qed.

Lemma good_look {A} (f : scan_state -> A) : good always (look f).
Proof. intros w Hw. apply wp_look. split_and!; [apply Hw|done|done]. Qed.

(** Steps of the table. *)
Lemma good_table f : (forall t, table_ok t -> exists ok t', f t = Some (ok, t') /\ structure_ok t' /\ (ok = true -> table_ok t')) -> good id (on_table f).
Proof. intros Hf w Hw. unfold on_table, wp. destruct (Hf _ Hw) as (ok & t' & -> & ? & ?). by split_and!. Qed.

Create HintDb scanner.
Create HintDb presence.
#[export] Hint Resolve good_ret good_timers good_ask good_look schedule_dirty_kept schedule_slot_kept rebuild_scheduled_kept : scanner.

Lemma scan_path_range paths i p : (length paths <= ConfigState.MAX_SCAN_PATHS)%nat -> scan_path_at paths i = Some p -> root_range i.
Proof.
  unfold scan_path_at, root_range. intros Hl. destruct (Z.ltb_spec i 0); [done|]. destruct (paths !! Z.to_nat i) eqn:Hi; [|done].
  apply lookup_lt_Some in Hi. lia.
Qed.

(** The array is large enough, and the entries of an event that ends the directory's life
    are no longer shared. *)
Definition subscriptions_of (ident : Z) (t : watch_table) : list scanner_event_subscription_t :=
  subscription_of <$> filter (fun e => we_fd e = ident) (wt_entries t).

Lemma collect_spec ident immediate room (es : list scanner_watch_entry_t) : (length (filter (fun e => we_fd e = ident) es) <= room)%nat ->
  collect_subscriptions ident immediate room es =
    (Some (subscription_of <$> filter (fun e => we_fd e = ident) es), (fun e => if immediate && (we_fd e =? ident) then unshare e else e) <$> es).
Proof.
  revert room. induction es as [|e es IH]; intros room Hl; [done|]. cbn [collect_subscriptions fmap list_fmap].
  destruct (Z.eqb_spec (we_fd e) ident) as [Hfd|Hfd]; cbn [negb].
  - rewrite filter_cons_True in * by done. cbn [length] in Hl. destruct room as [|room]; [lia|]. rewrite IH by lia. cbn [fmap list_fmap option_fmap option_map].
    by rewrite andb_true_r.
  - rewrite filter_cons_False in * by done. rewrite IH by done. by rewrite andb_false_r.
Qed.

Lemma collect_table ident immediate t : structure_ok t ->
  collect_subscriptions ident immediate (ConfigState.MAX_SCAN_PATHS + 1) (wt_entries t) =
    (Some (subscriptions_of ident t), wt_entries (if immediate then unshare_fd ident t else t)).
Proof.
  intros Ht. rewrite collect_spec by (by apply subscriptions_fit). f_equal. destruct immediate; [done|]. cbn [andb]. by rewrite list_fmap_id.
Qed.

Section soundness.
Context (sys : scan_sys).
Context (Hopen : forall n, fresh_open (sy_register sys n)) (Hcount : (length (sy_paths sys) <= ConfigState.MAX_SCAN_PATHS)%nat).

Lemma good_schedule_dirty i now imm : good always (schedule_dirty sys i now imm).
Proof. apply good_change. intros w. split; [done|]. apply schedule_dirty_kept. Qed.

Lemma good_schedule_slot slot now : good always (schedule_slot sys slot now).
Proof. apply good_change. intros w. split; [done|]. apply schedule_slot_kept. Qed.

Lemma good_mount_change path force : good always (notify_mount_change sys path force).
Proof.
  intros w Hw. unfold notify_mount_change, wp. pose proof (mount_change_kept (usb_answers_at sys (sn_asked w) (sn_table w)) (sy_paths sys) path force (sn_usb w)) as Hk.
  destruct (notify_scanner_usb_mount_change _ _ _ _ _) as [scan u]. split_and!; [apply Hw|done|done].
Qed.

Lemma good_register i path kind depth : -1 <= i < Z.of_nat ConfigState.MAX_SCAN_PATHS -> good id (register_watch sys i path kind depth).
Proof.
  intros Hi w Hw. unfold register_watch, bind, ask, on_table, wp. cbn [sn_table put_asked].
  pose proof (register_spec (sy_register sys (sn_asked w)) i path kind depth (sn_table w) Hw (Hopen _) Hi) as Hr.
  destruct (register_scanner_watch_entry _ _ _ _ _ _) as [ok t']. destruct Hr as [Hok _]. split_and!; [apply Hok|done|done].
Qed.

Lemma good_walk i root dir depth remaining : root_range i -> good id (walk_watches sys i root dir depth remaining).
Proof.
  intros Hi w Hw. unfold walk_watches, wp.
  pose proof (walk_keeps (sy_walk sys (sn_asked w)) (Callbacks (Some (register_watch_directory_visit sys i (sy_depth sys root))) None true) root
    (fun c c' => table_ok c.2 -> table_ok c'.2) (fun _ => True) (fun _ _ H => H)) as Hk.
  specialize (Hk (fun _ H => H) (fun _ _ _ f g H => g (f H))). cbn [on_directory on_image_file] in Hk.
  assert (Hd : forall f path d c, Some (register_watch_directory_visit sys i (sy_depth sys root)) = Some f -> table_ok c.2 -> table_ok (f path d c).2.2).
  { intros f path d [n t] [= <-] Hc. unfold register_watch_directory_visit. case_match; [done|].
    pose proof (register_spec (sy_register sys n) i path (if (d =? 0)%nat then SCANNER_WATCH_SCAN_ROOT else SCANNER_WATCH_SCAN_SUBDIR) (u8 (Z.of_nat d)) t Hc (Hopen n)) as Hr.
    destruct (register_scanner_watch_entry _ _ _ _ _ _) as [ok t']. apply Hr. unfold root_range in Hi. lia. }
  specialize (Hk Hd (fun f path name d c H => match H with end) remaining dir depth (0%nat, (S (sn_asked w), sn_table w)) I Hw).
  destruct (sm_scan_tree_walk _ _ _ _ _ _ _ _ _) as [ok [a [n t]]]. split_and!; [apply Hk|done|done].
Qed.

Lemma good_resolve path : good always (resolve_parent sys path).
Proof.
  apply good_then with (okv := always); [apply good_ask|]. intros dir. destruct (resolve_parent_ends (fun p => bool_decide (is_Some (dir p))) path) as (r & -> & _). apply good_ret.
Qed.

Lemma good_presence i root : good always (update_root_presence sys i root).
Proof.
  unfold update_root_presence. apply good_then; [apply good_ask|]. intros dir. apply good_then; [|intros; apply good_ret].
  intros w Hw. unfold wp. pose proof (presence_kept (dir root) i (sn_roots w)) as Hk. destruct (update_scan_root_presence_state _ _ _) as [changed roots].
  split_and!; [apply Hw|done|done].
Qed.

Lemma good_rebuilt i : good always (tree_rebuilt i).
Proof. apply good_then; [|intros; by apply good_change]. apply good_roots. intros roots. by apply on_root_kept. Qed.

Lemma good_parent_watch i root : root_range i -> good id (register_scan_root_parent_watch sys i root).
Proof.
  intros Hi. apply good_then; [apply good_resolve|]. intros [p|]; [|apply good_ret]. apply good_register. unfold root_range in Hi. lia.
Qed.

Lemma good_rebuild_tree i : good id (rebuild_scan_root_watch_tree sys i).
Proof.
  unfold rebuild_scan_root_watch_tree. destruct (scan_path_at _ i) as [root|] eqn:Hp; [|apply good_ret].
  pose proof (scan_path_range _ _ _ Hcount Hp) as Hi. apply good_then; [apply good_ask|]. intros memory.
  apply good_try; [|done|].
  { apply good_table. intros t Ht. destruct (remove_root_spec memory i t Ht Hi) as (ok & t' & ? & ? & ? & _). by exists ok, t'. }
  apply good_then; [apply good_presence|]. intros presence. apply good_try; [|done|].
  { destruct presence.2; [|apply good_ret]. by apply good_walk. }
  apply good_try; [by apply good_parent_watch|done|]. apply good_then; [apply good_rebuilt|]. intros _. apply good_ret.
Qed.

Lemma good_rebuild_subtree i path depth kind : good id (rebuild_scan_root_watch_subtree sys i path depth kind).
Proof.
  unfold rebuild_scan_root_watch_subtree. destruct (scan_path_at _ i) as [root|] eqn:Hp; [|apply good_ret]. case_match; [apply good_rebuild_tree|].
  pose proof (scan_path_range _ _ _ Hcount Hp) as Hi. apply good_then; [apply good_ask|]. intros memory.
  apply good_try; [|done|].
  { apply good_table. intros t Ht. destruct (remove_path_spec memory i path t Ht Hi) as (ok & t' & ? & ? & ? & _). by exists ok, t'. }
  apply good_try; [case_match; [apply good_ret|by apply good_walk]|done|]. apply good_then; [apply good_rebuilt|]. intros _. apply good_ret.
Qed.

Lemma good_rebuild_usb : good id (rebuild_usb_watches sys).
Proof.
  intros w Hw. unfold rebuild_usb_watches, bind, ask, wp. cbn [sn_asked sn_table put_asked].
  set (ans := fun slot => _). set (memory := sy_memory _ _). set (parent := sy_register _ _).
  destruct (rebuild_usb_spec memory ans parent (sn_table w)) as (ok & t' & -> & ? & ?); [intros; apply Hopen|apply Hopen|done|]. by split_and!.
Qed.

Lemma good_rebuild_all : good id (rebuild_all_scan_root_watch_trees sys).
Proof.
  unfold rebuild_all_scan_root_watch_trees. apply good_try; [|done|apply good_rebuild_usb].
  generalize (length (sy_paths sys)), 0%nat. intros count. induction count as [|count IH]; intros i; [apply good_ret|]. cbn [rebuild_roots].
  apply good_try; [apply good_rebuild_tree|done|apply IH].
Qed.

Lemma good_resume_usb now : good id (resume_usb_scan_root_watch_trees sys now).
Proof.
  unfold resume_usb_scan_root_watch_trees. apply good_try; [|done|apply good_rebuild_usb].
  generalize (length (sy_paths sys)), 0%nat. intros count. induction count as [|count IH]; intros i; [apply good_ret|]. cbn [resume_roots].
  case_match; [|apply IH]. case_match; [apply IH|]. apply good_try; [apply good_rebuild_tree|done|].
  apply good_then; [apply good_ask|]. intros mounted. apply good_then; [apply good_when, good_schedule_dirty|]. intros _. apply IH.
Qed.

Lemma good_register_config files now : good always (register_config_files sys files now).
Proof.
  induction files as [|i files IH]; [apply good_ret|]. cbn [register_config_files]. apply good_then; [apply good_look|]. intros fd.
  apply good_then.
  { destruct fd; [|apply good_ret]. apply good_then; [apply good_ask|]. intros ok. apply good_when. apply good_then; [by apply good_change|]. intros _. by apply good_change. }
  intros _. apply good_then; [apply good_look|]. intros fd'. apply good_then; [apply good_when, good_timers|]. by intros _.
Qed.

Lemma good_reopen_config kq now : good always (reopen_config_file_watch sys kq now).
Proof.
  unfold reopen_config_file_watch. apply good_then.
  - generalize [0; 1]%nat as files. induction files as [|i files IH]; [apply good_ret|]. cbn [reopen_config_files]. apply good_then; [apply good_look|]. intros fd.
    apply good_then; [|by intros _]. destruct fd; [apply good_ret|]. apply good_then; [apply good_ask|]. intros opened.
    apply good_then; [by apply good_change|]. intros _. apply good_when, good_timers.
  - intros _. apply good_when. apply good_then; [apply good_timers|]. intros _. apply good_register_config.
Qed.

Lemma good_close_manual : good always close_scanner_manual_file.
Proof.
  apply good_then; [apply good_look|]. intros fd. apply good_when. apply good_then; [by apply good_change|]. intros _. by apply good_change.
Qed.

Lemma good_register_manual now : good always (register_manual_file_watch sys now).
Proof.
  apply good_then; [apply good_look|]. intros [fd|]; [|apply good_ret]. apply good_then; [apply good_ask|]. intros []; cbn [negb]; [apply good_timers|].
  apply good_then; [apply good_close_manual|]. intros _. apply good_timers.
Qed.

Lemma good_close_config i : good always (close_config i).
Proof. apply good_then; [by apply good_change|]. intros _. by apply good_change. Qed.

Lemma good_control event now : good always (handle_scanner_control_event sys event now).
Proof.
  apply good_then; [apply good_look|]. intros w. destruct event as [ident|changed|ident flags|]; try apply good_ret.
  - case_match; [|apply good_ret]. apply good_then; [by apply good_change|]. intros _. apply good_ret.
  - assert (Hc : forall i, good always (let* _ := handle_config_event sys i flags now in ret true)).
    { intros i. apply good_then; [|intros _; apply good_ret]. apply good_then; [|intros _; apply good_timers]. apply good_when.
      apply good_then; [apply good_close_config|]. intros _. apply good_reopen_config. }
    repeat (case_match; [apply Hc|]). case_match; [|apply good_ret]. apply good_then; [|intros _; apply good_ret].
    case_match; [|apply good_timers]. apply good_then; [apply good_close_manual|]. intros _. apply good_timers.
Qed.

Lemma good_parent_event sub path now : good id (handle_scan_root_parent_event sys sub path now).
Proof.
  unfold handle_scan_root_parent_event. destruct (scan_path_at _ _) as [root|]; [|apply good_ret]. apply good_then; [apply good_presence|].
  intros [changed present]. assert (Hre : good always (on_roots (schedule_scan_root_watch_tree_rebuild (sy_paths sys) sub path))) by (apply good_roots; auto with scanner).
  destruct (present && changed); [|destruct present; [apply good_ret|destruct changed]].
  - apply good_then; [apply good_ask|]. intros grace. apply good_then; [apply good_ask|]. intros mounted. case_match; [apply good_rebuild_tree|].
    apply good_then; [apply good_schedule_dirty|]. intros _. apply good_then; [done|]. intros _. apply good_ret.
  - apply good_then; [apply good_ask|]. intros grace. case_match; [apply good_rebuild_tree|].
    apply good_then; [apply good_roots; intros roots; by apply on_root_kept|]. intros _. apply good_then; [apply good_schedule_dirty|]. intros _.
    apply good_then; [done|]. intros _. apply good_ret.
  - apply good_then; [apply good_resolve|]. intros parent. case_match; [|apply good_ret]. apply good_rebuild_tree.
Qed.

Lemma good_usb_probe path now : good always (change (fun w => put_timers (schedule_scanner_usb_mount_probe path now (us_mounted_mask (sn_usb w)) (sn_timers w)) w)).
Proof. by apply good_change. Qed.

Lemma good_check_slots slots parent imm slot now checked b : good always (check_slots sys slots parent imm slot now checked b).
Proof.
  revert checked b. induction slots as [|s slots IH]; intros checked b; [apply good_ret|]. cbn [check_slots]. case_match; [done|].
  apply good_then; [|intros b'; apply good_then; [apply good_when, good_usb_probe|by intros _]]. case_match; [apply good_ret|].
  apply good_then; [apply good_mount_change|]. intros []; [|apply good_ret]. apply good_then; [apply good_schedule_slot|]. intros _. apply good_ret.
Qed.

Lemma good_rootless subs path imm now checked b : good always (rootless_subscriptions sys subs path imm now checked b).
Proof.
  revert checked b. induction subs as [|sub subs IH]; intros checked b; [apply good_ret|]. cbn [rootless_subscriptions]. case_match; [done|].
  apply good_then; [apply good_check_slots|]. intros [checked' b']. apply IH.
Qed.

Lemma good_check_root root now checked b : good always (check_root_slot sys root now checked b).
Proof.
  unfold check_root_slot. case_match; [apply good_ret|]. case_match; [apply good_ret|]. apply good_then; [apply good_mount_change|]. intros []; [|apply good_ret].
  apply good_then; [apply good_schedule_slot|]. intros _. apply good_ret.
Qed.

Lemma good_mark_root sub path flags now : good always (mark_root sys sub path flags now).
Proof.
  apply good_then; [apply good_when, good_roots; intros roots; by apply on_root_kept|]. intros _. apply good_then; [apply good_schedule_dirty|].
  intros _. apply good_when, good_roots. auto with scanner.
Qed.

Lemma good_root_subscriptions subs path flags now checked b : good is_some (root_subscriptions sys subs path flags now checked b).
Proof.
  revert checked b. induction subs as [|sub subs IH]; intros checked b; [apply good_ret|].
  cbn [root_subscriptions]. destruct (if _ <? 0 then None else _) as [root|]; [|done].
  apply good_then; [apply good_check_root|]. intros [checked' b']. case_match.
  - apply good_then; [apply good_usb_probe|]. intros _. apply good_try; [apply good_parent_event|done|apply IH].
  - apply good_then; [apply good_mark_root|]. intros _. apply IH.
Qed.

Lemma good_watch_event ident flags now b : good is_some (watch_event sys ident flags now b).
Proof.
  intros w Hw. unfold watch_event. apply wp_bind, wp_look. unfold id. destruct (find_by_fd_spec (sn_table w) ident (proj2 Hw)) as (r & -> & _).
  destruct r as [owner|]; [|by apply good_ret]. rewrite collect_table by apply Hw. apply wp_bind, wp_change.
  set (t := if terminal flags then _ else _). set (w1 := put_table _ w).
  assert (Ht : with_entries (wt_entries t) (sn_table w) = t) by (unfold t; destruct (terminal flags); [done|]; by destruct (sn_table w)).
  assert (Hw1 : table_ok (sn_table w1)).
  { unfold w1. cbn [sn_table put_table]. rewrite Ht. unfold t. destruct (terminal flags); [|done]. by apply unshare_ok. }
  change (sn_roots w) with (sn_roots w1).
  eapply (good_then is_some); [apply good_rootless| |exact Hw1]. intros [checked b']. apply good_root_subscriptions.
Qed.

Lemma good_event_loop events now b : good is_some (event_loop sys events now b).
Proof.
  revert b. induction events as [|event events IH]; intros b; [apply good_ret|]. cbn [event_loop]. apply good_then; [apply good_control|].
  intros []; [done|]. destruct event; try done. eapply good_bind; [apply good_watch_event| |]; intros [b'|]; try done. by exists None.
Qed.

Lemma good_refresh_slots slots now b : good always (refresh_slots sys slots now b).
Proof.
  revert b. induction slots as [|slot slots IH]; intros b; [apply good_ret|]. cbn [refresh_slots]. case_match; [done|].
  apply good_then; [apply good_mount_change|]. intros scan. apply good_then; [apply good_when, good_schedule_slot|]. by intros _.
Qed.

Lemma good_finish now b : good fst (finish_batch sys now b).
Proof.
  apply good_then.
  - case_match; [|apply good_ret]. apply good_then; [by apply good_change|]. intros _. apply good_refresh_slots.
  - intros b'. case_match; [|apply good_ret]. eapply good_bind; [apply good_rebuild_usb| |]; intros [] ?; try done; [apply good_ret|by exists (false, false)].
Qed.

Lemma good_process answer now : good fst (process_scanner_events sys answer now).
Proof.
  destruct answer as [|[|event events]]; try apply good_ret. eapply good_bind; [apply good_event_loop| |]; intros [b|] ?; try done; [apply good_finish|by exists (false, false)].
Qed.

Lemma good_drain batches : good id (drain_scanner_events_nowait sys batches).
Proof.
  induction batches as [|[answer now] batches IH]; [apply good_ret|]. cbn [drain_scanner_events_nowait].
  eapply good_bind; [apply good_process| |]; intros [[] out] ?; try done; cbn [fst snd negb]; [|by exists false]. destruct out; [apply good_ret|done].
Qed.

Lemma good_discard_events events now changed : good always (discard_events sys events now changed).
Proof.
  revert changed. induction events as [|event events IH]; intros changed; [apply good_ret|]. cbn [discard_events].
  apply good_then; [apply good_control|]. by intros _.
Qed.

Lemma good_discard batches : good always (discard_scanner_events_nowait sys batches).
Proof.
  apply good_then.
  - generalize false. induction batches as [|[answer now] batches IH]; intros changed; [apply good_ret|]. cbn [discard_batches].
    destruct answer as [[]|[|event events]]; [apply IH|apply good_ret..|]. apply good_then; [apply good_discard_events|]. intros ?. apply IH.
  - intros [[] changed]; cbn [fst snd negb]; [|apply good_ret]. apply good_then; [|intros _; apply good_ret]. apply good_when. by apply good_change.
Qed.

(** ** What an event schedules *)
(** The root is to be scanned, and to be cleaned up when [cleanup]. *)
Definition marked (i : Z) (cleanup : bool) (roots : list scanner_root_state_t) : Prop :=
  rt_dirty (root_at roots i) = true /\ (cleanup = true -> rt_cleanup_pending (root_at roots i) = true).

Lemma marked_kept i cleanup roots roots' : marked i cleanup roots -> roots_kept roots roots' -> marked i cleanup roots'.
Proof.
  unfold marked, root_at. intros [Hd Hc] Hk. destruct (roots !! Z.to_nat i) as [s|] eqn:Hs; [|done].
  destruct (Forall2_lookup_l _ _ _ _ _ Hk Hs) as (s' & -> & H1 & H2). cbn in *. auto.
Qed.

(** A step that keeps the table, then the others. *)
Lemma wp_good {A B} (okv : A -> bool) (m : M A) (k : A -> M B) Q w : good okv m -> table_ok (sn_table w) ->
  (forall a w', okv a = true -> table_ok (sn_table w') -> roots_kept (sn_roots w) (sn_roots w') -> wp (F := wholly) (k a) Q w') ->
  (forall a w', okv a = false -> wp (F := wholly) (k a) Q w') -> wp (F := wholly) (bind m k) Q w.
Proof.
  intros Hm Hw Hk Hn. apply wp_bind. eapply wp_mono; [by apply Hm|]. intros a w' (_ & Ht & Hr). destruct (okv a) eqn:Ha; auto.
Qed.

Lemma on_root_at i f roots : (Z.to_nat i < length roots)%nat -> root_at (on_root i f roots) i = f (root_at roots i).
Proof. intros Hl. unfold root_at, on_root. rewrite list_lookup_alter_eq. by destruct (lookup_lt_is_Some_2 _ _ Hl) as [s ->]. Qed.

Lemma mark_root_marks sub path flags now w root : scan_path_at (sy_paths sys) (ev_scan_root_index sub) = Some root ->
  (Z.to_nat (ev_scan_root_index sub) < length (sn_roots w))%nat ->
  wp (F := wholly) (mark_root sys sub path flags now) (fun _ w' => marked (ev_scan_root_index sub) (terminal flags) (sn_roots w')) w.
Proof.
  intros Hp Hl. set (i := ev_scan_root_index sub) in *. unfold mark_root. apply wp_bind.
  assert (H1 : wp (F := wholly) (when (terminal flags) (on_roots (schedule_scan_root_cleanup i)))
    (fun _ w' => length (sn_roots w') = length (sn_roots w) /\ (terminal flags = true -> rt_cleanup_pending (root_at (sn_roots w') i) = true)) w).
  { apply wp_when; [|by intros ->]. intros ->. apply wp_change. change (sn_roots (put_roots _ w)) with (schedule_scan_root_cleanup i (sn_roots w)).
    unfold schedule_scan_root_cleanup. rewrite on_root_at by done. split; [apply length_alter|done]. }
  eapply wp_mono; [exact H1|]. intros _ w1 [Hl1 Hc1]. apply wp_bind, wp_change.
  assert (H2 : marked i (terminal flags) (sn_roots (put_roots (schedule_scan_root_dirty (sy_paths sys) (us_result_pending_mask (sn_usb w1)) (sy_wait_us sys) i now (terminal flags) (sn_roots w1)) w1))).
  { change (sn_roots (put_roots ?r w1)) with r. unfold schedule_scan_root_dirty. rewrite Hp. unfold marked. rewrite on_root_at by congruence.
    split; [apply mark_dirty_ready|]. intros Ht. apply mark_dirty_kept. auto. }
  apply wp_when; [|done]. intros _. apply wp_change. eapply marked_kept; [exact H2|]. apply rebuild_scheduled_kept.
Qed.

Lemma root_subscriptions_mark subs path flags now checked b sub root w : table_ok (sn_table w) -> length (sn_roots w) = ConfigState.MAX_SCAN_PATHS ->
  sub ∈ subs -> ev_kind sub <> SCANNER_WATCH_SCAN_ROOT_PARENT -> scan_path_at (sy_paths sys) (ev_scan_root_index sub) = Some root ->
  wp (F := wholly) (root_subscriptions sys subs path flags now checked b) (fun r w' => is_some r = true -> marked (ev_scan_root_index sub) (terminal flags) (sn_roots w')) w.
Proof.
  intros Hw Hl Hin Hk Hp. revert w Hw Hl checked b. induction subs as [|s subs IH]; intros w Hw Hl checked b; [by apply elem_of_nil in Hin|].
  assert (Hi : root_range (ev_scan_root_index sub)) by (by eapply scan_path_range).
  assert (Hlen : forall w', roots_kept (sn_roots w) (sn_roots w') -> length (sn_roots w') = ConfigState.MAX_SCAN_PATHS) by (intros w' Hr; by rewrite <-(Forall2_length _ _ _ Hr)).
  cbn [root_subscriptions]. apply elem_of_cons in Hin as [<-|Hin].
  - assert (Hi0 : (ev_scan_root_index sub <? 0) = false) by (unfold root_range in Hi; lia). rewrite Hi0, Hp, bool_decide_eq_false_2 by done.
    eapply wp_good; [apply good_check_root|done| |done]. intros [checked' b'] w1 _ Hw1 Hr1.
    apply wp_bind. pose proof (good_mark_root sub path flags now w1 Hw1) as Hg.
    pose proof (mark_root_marks sub path flags now w1 root Hp) as Hm. unfold wp in Hg, Hm |- *.
    destruct (mark_root _ _ _ _ _ w1) as [[[] w2]|]; [|done]. destruct Hg as (_ & Hw2 & _).
    assert (Hm2 : marked (ev_scan_root_index sub) (terminal flags) (sn_roots w2)) by (apply Hm; rewrite (Hlen w1 Hr1); unfold root_range in Hi; lia).
    pose proof (good_root_subscriptions subs path flags now checked' b' w2 (Hw2 eq_refl)) as Hrest. unfold wp in Hrest.
    destruct (root_subscriptions _ _ _ _ _ _ _ w2) as [[r w3]|]; [|done]. intros _. eapply marked_kept; [exact Hm2|apply Hrest].
  - specialize (IH Hin). destruct (if _ <? 0 then None else _) as [root'|]; [|by apply IH].
    eapply wp_good; [apply good_check_root|done| |done]. intros [checked' b'] w1 _ Hw1 Hr1. case_match.
    + eapply wp_good; [apply good_usb_probe|done| |done]. intros [] w2 _ Hw2 Hr2. eapply wp_good; [apply good_parent_event|done| |].
      * intros [] w3 ? Hw3 Hr3; [|done]. cbn [negb]. apply IH; [done|]. apply Hlen. by rewrite Hr1, Hr2.
      * intros [] w3 ?; [done|]. by apply wp_ret.
    + eapply wp_good; [apply good_mark_root|done| |done]. intros [] w2 _ Hw2 Hr2. apply IH; [done|]. apply Hlen. by rewrite Hr1.
Qed.

(** *** Subscriptions of the parent of a root

    Only the root's own parent events, and rebuilds of its tree, change what is recorded of
    its presence. *)
Definition keeps_presence {A} (i : Z) (m : M A) : Prop := forall w a w', m w = Some (a, w') -> seen_at (sn_roots w') i = seen_at (sn_roots w) i.

Lemma presence_bind {A B} i (m : M A) (k : A -> M B) : keeps_presence i m -> (forall a, keeps_presence i (k a)) -> keeps_presence i (bind m k).
Proof.
  intros Hm Hk w b w' Hw. unfold bind in Hw. destruct (m w) as [[a w1]|] eqn:Ha; [|done]. by rewrite (Hk _ _ _ _ Hw), (Hm _ _ _ Ha).
Qed.

Lemma presence_change i f : (forall w, seen_at (sn_roots (f w)) i = seen_at (sn_roots w) i) -> keeps_presence i (change f).
Proof. by intros Hf w a w' [= _ <-]. Qed.

Lemma presence_roots i f : (forall roots, seen_at (f roots) i = seen_at roots i) -> keeps_presence i (on_roots f).
Proof. intros Hf. apply presence_change. intros w. apply Hf. Qed.

Lemma presence_ret {A} i (x : A) : keeps_presence i (ret x).
Proof. by intros w a w' [= _ <-]. Qed.

Lemma presence_stuck {A} i : keeps_presence i (@stuck _ A).
Proof. by intros w a w'. Qed.

Lemma presence_ask {A} i (f : nat -> A) : keeps_presence i (ask f).
Proof. by intros w a w' [= _ <-]. Qed.

Lemma presence_table i f : keeps_presence i (on_table f).
Proof. intros w a w'. unfold on_table. destruct (f _) as [[ok t]|]; [|done]. by intros [= _ <-]. Qed.

Lemma presence_walk i j root dir depth remaining : keeps_presence i (walk_watches sys j root dir depth remaining).
Proof. intros w a w'. unfold walk_watches. destruct (sm_scan_tree_walk _ _ _ _ _ _ _ _ _) as [ok [x [n t]]]. by intros [= _ <-]. Qed.

Lemma presence_mount_change i path force : keeps_presence i (notify_mount_change sys path force).
Proof.
  intros w a w'. unfold notify_mount_change. pose proof (mount_change_seen (usb_answers_at sys (sn_asked w) (sn_table w)) (sy_paths sys) path force (sn_usb w) i) as Hs.
  destruct (notify_scanner_usb_mount_change _ _ _ _ _) as [scan u]. by intros [= _ <-].
Qed.

Lemma presence_usb_probe i path now :
  keeps_presence i (change (fun w => put_timers (schedule_scanner_usb_mount_probe path now (us_mounted_mask (sn_usb w)) (sn_timers w)) w)).
Proof. by apply presence_change. Qed.

#[local] Hint Resolve presence_ret presence_stuck presence_ask presence_table presence_walk presence_mount_change presence_usb_probe : presence.

(** Runs through a program whose parts all keep the presence. *)
Ltac presence :=
  repeat first
    [ solve [eauto with presence nocore]
    | apply presence_bind; [|intros ?]
    | match goal with
      | |- keeps_presence _ (let '(_, _) := ?x in _) => destruct x
      | |- keeps_presence _ (match ?x with _ => _ end) => destruct x
      end ].

Lemma presence_when i b (m : M ()) : keeps_presence i m -> keeps_presence i (when b m).
Proof. destruct b; [done|]. intros _. apply presence_ret. Qed.

Lemma presence_schedule_dirty i j now imm : keeps_presence i (schedule_dirty sys j now imm).
Proof. apply presence_change. intros w. apply schedule_dirty_seen. Qed.

Lemma presence_schedule_slot i slot now : keeps_presence i (schedule_slot sys slot now).
Proof. apply presence_change. intros w. apply schedule_slot_seen. Qed.

Lemma presence_rebuild_scheduled i sub path : keeps_presence i (on_roots (schedule_scan_root_watch_tree_rebuild (sy_paths sys) sub path)).
Proof. apply presence_roots. intros roots. apply rebuild_scheduled_seen. Qed.

Lemma presence_cleanup i j : keeps_presence i (on_roots (schedule_scan_root_cleanup j)).
Proof. apply presence_roots. intros roots. by apply on_root_seen. Qed.

#[local] Hint Resolve presence_when presence_schedule_dirty presence_schedule_slot presence_rebuild_scheduled presence_cleanup : presence.

Lemma presence_check_root i root now checked b : keeps_presence i (check_root_slot sys root now checked b).
Proof. unfold check_root_slot. cbv zeta. presence. Qed.

Lemma presence_check_slots i slots parent imm slot now checked b : keeps_presence i (check_slots sys slots parent imm slot now checked b).
Proof. revert checked b. induction slots as [|x slots IH]; intros checked b; cbn [check_slots]; presence. Qed.
#[local] Hint Resolve presence_check_root presence_check_slots : presence.

Lemma presence_rootless i subs path imm now checked b : keeps_presence i (rootless_subscriptions sys subs path imm now checked b).
Proof. revert checked b. induction subs as [|sub subs IH]; intros checked b; cbn [rootless_subscriptions]; cbv zeta; presence. Qed.

Lemma presence_mark_root i sub path flags now : keeps_presence i (mark_root sys sub path flags now).
Proof. unfold mark_root. presence. Qed.

Lemma presence_resolve i path : keeps_presence i (resolve_parent sys path).
Proof.
  apply presence_bind; [apply presence_ask|]. intros dir.
  destruct (resolve_existing_parent_directory_path _ path); [apply presence_ret|apply presence_stuck].
Qed.
#[local] Hint Resolve presence_resolve : presence.

Lemma presence_of_another i j root : root_range i -> root_range j -> i <> j -> keeps_presence i (update_root_presence sys j root).
Proof.
  intros Hi Hj Hne. unfold update_root_presence. presence. intros w x w'. unfold update_scan_root_presence_state.
  destruct (update_presence _ _) as [changed s]. intros [= _ <-]. unfold seen_at.
  change (sn_roots (put_roots ?r w)) with r. by rewrite on_root_other by (unfold root_range in *; lia).
Qed.

Lemma presence_tree_of_another i j : root_range i -> root_range j -> i <> j -> keeps_presence i (rebuild_scan_root_watch_tree sys j).
Proof.
  intros Hi Hj Hne. unfold rebuild_scan_root_watch_tree, register_scan_root_parent_watch, register_watch, tree_rebuilt.
  pose proof (fun root => presence_of_another i j root Hi Hj Hne). presence.
  - apply presence_roots. intros roots. by apply on_root_seen.
  - by apply presence_change.
Qed.

Lemma presence_parent_of_another i sub path now : root_range i -> i <> ev_scan_root_index sub -> keeps_presence i (handle_scan_root_parent_event sys sub path now).
Proof.
  intros Hi Hne. unfold handle_scan_root_parent_event. cbv zeta. destruct (scan_path_at _ _) as [root|] eqn:Hp; [|presence].
  pose proof (scan_path_range _ _ _ Hcount Hp) as Hj. pose proof (presence_of_another i _ root Hi Hj Hne).
  pose proof (presence_tree_of_another i _ Hi Hj Hne). presence.
Qed.

(** The root differs from what is recorded of it. *)
Definition presence_changed (found : option (Z * Z)) (i : Z) (roots : list scanner_root_state_t) : bool := (update_presence found (root_at roots i)).1.

Lemma presence_changed_seen found i roots roots' : seen_at roots' i = seen_at roots i -> presence_changed found i roots' = presence_changed found i roots.
Proof.
  unfold presence_changed, seen_at, seen, update_presence. destruct (default _ _). intros [= H1 H2 H3]. cbn [fst]. by rewrite H1, H2, H3.
Qed.

(** Changes of a root on USB storage are not acted on for a while after a resume. *)
Definition not_resuming (root : string) : Prop := is_usb_storage_path root = false \/ forall n, sy_grace sys n = false.

Lemma not_resuming_at root n : not_resuming root -> sy_grace sys n && is_usb_storage_path root = false.
Proof. intros [->| ->]; [apply andb_false_r|done]. Qed.

Lemma parent_event_marks sub path now w root found : scan_path_at (sy_paths sys) (ev_scan_root_index sub) = Some root ->
  (Z.to_nat (ev_scan_root_index sub) < length (sn_roots w))%nat -> (forall n, sy_directory sys n root = found) -> not_resuming root ->
  presence_changed found (ev_scan_root_index sub) (sn_roots w) = true ->
  wp (F := wholly) (handle_scan_root_parent_event sys sub path now) (fun _ w' => marked (ev_scan_root_index sub) (bool_decide (found = None)) (sn_roots w')) w.
Proof.
  intros Hp Hl Hfound Hg Hc. set (i := ev_scan_root_index sub) in *. unfold handle_scan_root_parent_event. fold i. rewrite Hp.
  assert (Hdirty : forall imm w cleanup, (Z.to_nat i < length (sn_roots w))%nat -> (cleanup = true -> rt_cleanup_pending (root_at (sn_roots w) i) = true) ->
    wp (F := wholly) (let* _ := schedule_dirty sys i now imm in let* _ := on_roots (schedule_scan_root_watch_tree_rebuild (sy_paths sys) sub path) in ret true)
      (fun _ w' => marked i cleanup (sn_roots w')) w).
  { intros imm x cleanup Hx Hcl. apply wp_bind, wp_change, wp_bind, wp_change, wp_ret.
    eapply marked_kept; [|apply rebuild_scheduled_kept]. change (sn_roots (put_roots ?r x)) with r. unfold schedule_scan_root_dirty. rewrite Hp.
    unfold marked. rewrite on_root_at by done. split; [apply mark_dirty_ready|]. intros Hcu. apply mark_dirty_kept. auto. }
  apply wp_bind. unfold update_root_presence. apply wp_bind. unfold ask at 1. unfold wp at 1. rewrite !Hfound. apply wp_bind. unfold wp at 1.
  unfold update_scan_root_presence_state. cbn [sn_usb sn_roots put_asked]. unfold presence_changed in Hc.
  change (sn_roots (put_asked ?n w)) with (sn_roots w). destruct (update_presence found (root_at (sn_roots w) i)) as [changed s]. cbn [fst] in Hc. subst changed.
  apply wp_ret. set (w1 := put_roots _ _). assert (Hl1 : (Z.to_nat i < length (sn_roots w1))%nat) by (unfold w1, on_root; cbn; by rewrite length_alter).
  destruct found as [id|]; cbn [bool_decide].
  - rewrite bool_decide_eq_true_2 by eauto. cbn [andb]. apply wp_bind. unfold ask at 1, wp at 1. apply wp_bind. unfold ask at 1, wp at 1.
    rewrite not_resuming_at by done. cbn [andb]. by apply Hdirty.
  - rewrite bool_decide_eq_false_2 by (intros [? ?]; done). cbn [andb]. apply wp_bind. unfold ask at 1, wp at 1. rewrite not_resuming_at by done.
    apply wp_bind, wp_change. unfold schedule_scan_root_cleanup. apply Hdirty.
    + unfold on_root. cbn. by rewrite length_alter.
    + intros _. change (sn_roots (put_roots ?r _)) with r. by rewrite on_root_at.
Qed.

Lemma bind_runs {A B} (m : M A) (k : A -> M B) w b w' : bind m k w = Some (b, w') -> exists a w1, m w = Some (a, w1) /\ k a w1 = Some (b, w').
Proof. unfold bind. destruct (m w) as [[a w1]|]; [|done]. eauto. Qed.

(** A run keeps the presence, the number of roots and what is to be done. *)
Lemma good_runs {A} (okv : A -> bool) (m : M A) w a w' : good okv m -> table_ok (sn_table w) -> m w = Some (a, w') -> okv a = true ->
  table_ok (sn_table w') /\ roots_kept (sn_roots w) (sn_roots w') /\ length (sn_roots w') = length (sn_roots w).
Proof.
  intros Hm Hw Hr Ha. destruct (wp_result _ _ _ _ _ (Hm w Hw) Hr) as (_ & Ht & Hk). split_and!; [auto|done|by rewrite (Forall2_length _ _ _ Hk)].
Qed.

Lemma root_subscriptions_parent subs path flags now checked b sub root found w r w' : table_ok (sn_table w) ->
  length (sn_roots w) = ConfigState.MAX_SCAN_PATHS ->
  sub ∈ subs -> ev_kind sub = SCANNER_WATCH_SCAN_ROOT_PARENT -> scan_path_at (sy_paths sys) (ev_scan_root_index sub) = Some root ->
  (forall n, sy_directory sys n root = found) -> not_resuming root -> presence_changed found (ev_scan_root_index sub) (sn_roots w) = true ->
  root_subscriptions sys subs path flags now checked b w = Some (Some r, w') -> marked (ev_scan_root_index sub) (bool_decide (found = None)) (sn_roots w').
Proof.
  intros Hw Hl Hin Hk Hp Hfound Hg Hc Hrun. set (i := ev_scan_root_index sub) in *.
  assert (Hi : root_range i) by (by eapply scan_path_range).
  revert w Hw Hl checked b Hc Hrun. induction subs as [|s subs IH]; intros w Hw Hl checked b Hc Hrun; [by apply elem_of_nil in Hin|].
  cbn [root_subscriptions] in Hrun. apply elem_of_cons in Hin.
  destruct (if ev_scan_root_index s <? 0 then None else _) as [root'|] eqn:Hroot.
  2:{ destruct Hin as [->|Hin]; [|by eapply IH]. exfalso. fold i in Hroot. unfold root_range in Hi. by destruct (Z.ltb_spec i 0); [lia|simplify_eq]. }
  apply bind_runs in Hrun as ([checked' b'] & w1 & H1 & Hrun).
  destruct (good_runs _ _ _ _ _ (good_check_root root' now checked b) Hw H1 eq_refl) as (Hw1 & _ & Hl1).
  pose proof (presence_check_root i _ _ _ _ _ _ _ H1) as Hs1. case_bool_decide as Hkind.
  - apply bind_runs in Hrun as ([] & w2 & H2 & Hrun). destruct (good_runs _ _ _ _ _ (good_usb_probe root' now) Hw1 H2 eq_refl) as (Hw2 & _ & Hl2).
    pose proof (presence_usb_probe i _ _ _ _ _ H2) as Hs2. rewrite Hs1 in Hs2.
    apply bind_runs in Hrun as (ok & w3 & H3 & Hrun). destruct ok; cbn [negb] in Hrun; [|done].
    destruct (good_runs _ _ _ _ _ (good_parent_event s path now) Hw2 H3 eq_refl) as (Hw3 & _ & Hl3).
    destruct (decide (ev_scan_root_index s = i)) as [He|Hne].
    + assert (Hm : marked i (bool_decide (found = None)) (sn_roots w3)).
      { rewrite <-He. refine (wp_result (F := wholly) _ _ _ _ _ (parent_event_marks s path now w2 root found _ _ Hfound Hg _) H3).
        - by rewrite He.
        - rewrite He. unfold root_range in Hi. rewrite Hl2, Hl1, Hl. lia.
        - by rewrite He, (presence_changed_seen _ _ _ _ Hs2). }
      destruct (good_runs _ _ _ _ _ (good_root_subscriptions subs path flags now checked' b') Hw3 Hrun eq_refl) as (_ & Hk4 & _). by eapply marked_kept.
    + destruct Hin as [->|Hin]; [done|]. pose proof (presence_parent_of_another i s path now Hi (not_eq_sym Hne) _ _ _ H3) as Hs3. rewrite Hs2 in Hs3.
      eapply IH; [done|done|congruence| |exact Hrun]. by rewrite (presence_changed_seen _ _ _ _ Hs3).
  - destruct Hin as [->|Hin]; [done|]. apply bind_runs in Hrun as ([] & w2 & H2 & Hrun).
    destruct (good_runs _ _ _ _ _ (good_mark_root s path flags now) Hw1 H2 eq_refl) as (Hw2 & _ & Hl2).
    pose proof (presence_mark_root i _ _ _ _ _ _ _ H2) as Hs2. rewrite Hs1 in Hs2.
    eapply IH; [done|done|congruence| |exact Hrun]. by rewrite (presence_changed_seen _ _ _ _ Hs2).
Qed.

(** Somebody closes the descriptor, so the index knows it. *)
Lemma watched_found ident t e : table_ok t -> e ∈ wt_entries t -> we_fd e = ident -> exists owner, find_scanner_watch_entry_by_fd t ident = Some (Some owner).
Proof.
  intros [Hs Hi] He <-. destruct (find_by_fd_spec t (we_fd e) Hi) as ([owner|] & -> & Hspec); [by exists owner|]. exfalso.
  destruct (fo_owner _ _ (st_fds _ Hs) (core e)) as (c & (o & -> & Ho)%list_elem_of_fmap & Hof & Hwn); [by apply list_elem_of_fmap_2|].
  by apply (Hspec o Ho Hwn).
Qed.

(** What an event of the directory of the entry [e] asks of its root: a scan, with a cleanup
    when the directory's life ends; and for an entry of the root's parent, when the root
    differs from what is recorded of it, a scan, with a cleanup when the root is gone. *)
Definition calls_for (e : scanner_watch_entry_t) (flags : vnode_flags) (root : string) (roots : list scanner_root_state_t) (cleanup : bool) : Prop :=
  if bool_decide (we_kind e = SCANNER_WATCH_SCAN_ROOT_PARENT) then
    exists found, (forall n, sy_directory sys n root = found) /\ not_resuming root /\
      presence_changed found (we_scan_root_index e) roots = true /\ cleanup = bool_decide (found = None)
  else cleanup = terminal flags.

Lemma watch_event_marks ident flags now b w e root cleanup : table_ok (sn_table w) -> length (sn_roots w) = ConfigState.MAX_SCAN_PATHS ->
  e ∈ wt_entries (sn_table w) -> we_fd e = ident -> scan_path_at (sy_paths sys) (we_scan_root_index e) = Some root ->
  calls_for e flags root (sn_roots w) cleanup ->
  wp (F := wholly) (watch_event sys ident flags now b) (fun r w' => is_some r = true -> marked (we_scan_root_index e) cleanup (sn_roots w')) w.
Proof.
  intros Hw Hl He Hfd Hp Hcalls. unfold watch_event. apply wp_bind, wp_look. unfold id. destruct (watched_found ident (sn_table w) e Hw He Hfd) as [owner ->].
  rewrite collect_table by apply Hw. apply wp_bind, wp_change. set (t := if terminal flags then _ else _). set (w1 := put_table _ w).
  assert (Hw1 : table_ok (sn_table w1)).
  { unfold w1. cbn [sn_table put_table]. replace (with_entries (wt_entries t) (sn_table w)) with t by (unfold t; destruct (terminal flags); [done|]; by destruct (sn_table w)).
    unfold t. destruct (terminal flags); [|done]. by apply unshare_ok. }
  assert (Hin : subscription_of e ∈ subscriptions_of ident (sn_table w)) by (apply list_elem_of_fmap_2, list_elem_of_filter; done).
  apply wp_bind. match goal with |- wp (rootless_subscriptions sys ?subs ?path ?imm now ?checked b) _ _ =>
    pose proof (good_rootless subs path imm now checked b w1 Hw1) as Hg; set (watched := path) in * end.
  unfold wp in Hg |- *. destruct (rootless_subscriptions _ _ _ _ _ _ _ w1) as [[[checked b'] w2]|] eqn:Hr; [|done].
  destruct Hg as (_ & Hw2 & Hk2). specialize (Hw2 eq_refl).
  assert (Hl2 : length (sn_roots w2) = ConfigState.MAX_SCAN_PATHS) by (by rewrite <-(Forall2_length _ _ _ Hk2)).
  unfold calls_for in Hcalls. case_bool_decide as Hk.
  - destruct Hcalls as (found & Hfound & Hg & Hc & ->).
    pose proof (good_root_subscriptions (subscriptions_of ident (sn_table w)) watched flags now checked b' w2 Hw2) as Hg2. unfold wp in Hg2.
    destruct (root_subscriptions _ _ _ _ _ _ _ w2) as [[[r|] w3]|] eqn:Hr3; [|done..]. intros _.
    eapply (root_subscriptions_parent _ _ _ _ _ _ (subscription_of e) root found w2); try done.
    rewrite (presence_changed_seen _ _ _ _ (presence_rootless (we_scan_root_index e) _ _ _ _ _ _ _ _ _ Hr)). exact Hc.
  - subst cleanup. by apply (root_subscriptions_mark _ _ _ _ _ _ (subscription_of e) root).
Qed.

Lemma event_loop_app before after now b w : event_loop sys (before ++ after) now b w =
  match event_loop sys before now b w with
  | Some (Some b1, w1) => event_loop sys after now b1 w1
  | r => r
  end.
Proof.
  revert b w. induction before as [|event before IH]; intros b w; [done|]. cbn [app event_loop]. unfold bind at 1 3.
  destruct (handle_scanner_control_event sys event now w) as [[[] w1]|]; [apply IH| |done]. destruct event; try apply IH.
  unfold bind. destruct (watch_event _ _ _ _ _ w1) as [[[b1|] w2]|]; [apply IH|done..].
Qed.
End soundness.

(** ** Theorems *)

(** Whatever events a batch holds, and whatever the system answers to the rebuilds
    they cause, handling it ends; every descriptor stays accounted for (open with one owner, none closed twice), the table stays
    usable unless the scanner is told to stop, and no scan or cleanup that was to be done is
    forgotten; the same holds for the batches handled, or discarded, without waiting. *)
Theorem scanner_batch_sound sys w answer now_us batches : table_ok (sn_table w) ->
  (forall n, fresh_open (sy_register sys n)) -> (length (sy_paths sys) <= ConfigState.MAX_SCAN_PATHS)%nat ->
  (exists ok timed_out w', process_scanner_events sys answer now_us w = Some ((ok, timed_out), w') /\
    structure_ok (sn_table w') /\ (ok = true -> table_ok (sn_table w')) /\ roots_kept (sn_roots w) (sn_roots w')) /\
  (exists ok w', drain_scanner_events_nowait sys batches w = Some (ok, w') /\
    structure_ok (sn_table w') /\ (ok = true -> table_ok (sn_table w')) /\ roots_kept (sn_roots w) (sn_roots w')) /\
  exists ok w', discard_scanner_events_nowait sys batches w = Some (ok, w') /\ table_ok (sn_table w') /\ roots_kept (sn_roots w) (sn_roots w').
Proof.
  intros Hw Hopen Hcount. split_and!.
  - destruct (wp_ends _ _ _ (good_process sys Hopen Hcount answer now_us w Hw)) as ([ok out] & w' & Hr & ? & ? & ?). by exists ok, out, w'.
  - destruct (wp_ends _ _ _ (good_drain sys Hopen Hcount batches w Hw)) as (ok & w' & Hr & ? & ? & ?). by exists ok, w'.
  - destruct (wp_ends _ _ _ (good_discard sys batches w Hw)) as (ok & w' & Hr & ? & ? & ?). exists ok, w'. split_and!; auto.
Qed.

(** Claim C20: A batch of events that is handled to its end: for every vnode event of it
    that is not one of the control files, and every scan root subscribed to the event's
    descriptor in the table of watches as it is when the event's turn comes, whatever
    events came before and after it.  A subscription of the root itself or of a directory
    below it leaves the root to be scanned, and to be cleaned up when the directory was
    deleted, renamed or revoked.  A subscription of the root's parent leaves the root to be
    scanned when the root, as the system shows it while the batch is handled, differs from
    what is recorded of it (its presence, or its device and inode), and to be cleaned up
    when it is gone; roots on USB storage are excepted here in the time after a resume.
    (An event may find its descriptor closed or reused by the rebuild of an earlier event:
    [rebuild_inside_batch]; only subscriptions still in the table count.) *)
Theorem batch_schedules_roots sys w before after ident flags now_us b w1 w2 out w' e root cleanup :
  table_ok (sn_table w) -> length (sn_roots w) = ConfigState.MAX_SCAN_PATHS ->
  (forall n, fresh_open (sy_register sys n)) -> (length (sy_paths sys) <= ConfigState.MAX_SCAN_PATHS)%nat ->
  event_loop sys before now_us (Batch 0 false false) w = Some (Some b, w1) ->
  handle_scanner_control_event sys (EventVnode ident flags) now_us w1 = Some (false, w2) ->
  process_scanner_events sys (KEvents (before ++ EventVnode ident flags :: after)) now_us w = Some ((true, out), w') ->
  e ∈ wt_entries (sn_table w2) -> we_fd e = ident -> scan_path_at (sy_paths sys) (we_scan_root_index e) = Some root ->
  calls_for sys e flags root (sn_roots w2) cleanup ->
  marked (we_scan_root_index e) cleanup (sn_roots w').
Proof.
  intros Hw Hl Hopen Hcount Hbefore Hctl Hrun He Hfd Hp Hcalls.
  destruct (wp_result _ _ _ _ _ (good_event_loop sys Hopen Hcount before now_us _ w Hw) Hbefore) as (_ & Hw1 & Hr1). specialize (Hw1 eq_refl).
  destruct (wp_result _ _ _ _ _ (good_control sys _ now_us w1 Hw1) Hctl) as (_ & Hw2 & Hr2). specialize (Hw2 eq_refl).
  assert (Hloop : forall x, process_scanner_events sys (KEvents (before ++ EventVnode ident flags :: after)) now_us x =
    (let* r := event_loop sys (before ++ EventVnode ident flags :: after) now_us (Batch 0 false false) in
     match r with None => ret (false, false) | Some b => finish_batch sys now_us b end) x) by (intros x; by destruct before).
  rewrite Hloop in Hrun. unfold bind at 1 in Hrun. rewrite event_loop_app, Hbefore in Hrun. cbn [event_loop] in Hrun. unfold bind in Hrun at 1. rewrite Hctl in Hrun.
  unfold bind in Hrun at 1.
  assert (Hmark : wp (F := wholly) (watch_event sys ident flags now_us b) (fun r w' => is_some r = true -> marked (we_scan_root_index e) cleanup (sn_roots w')) w2).
  { apply (watch_event_marks sys Hopen Hcount ident flags now_us b w2 e root cleanup); try done. by rewrite <-(Forall2_length _ _ _ Hr2), <-(Forall2_length _ _ _ Hr1). }
  pose proof (good_watch_event sys Hopen Hcount ident flags now_us b w2 Hw2) as Hg. unfold wp in Hmark, Hg.
  destruct (watch_event _ _ _ _ _ w2) as [[[b1|] w3]|]; [|by cbn in Hrun|done]. specialize (Hmark eq_refl). destruct Hg as (_ & Hw3 & _). specialize (Hw3 eq_refl).
  pose proof (good_event_loop sys Hopen Hcount after now_us b1 w3 Hw3) as Hg. unfold wp in Hg.
  destruct (event_loop _ _ _ _ w3) as [[[b2|] w4]|]; [|by cbn in Hrun|done]. destruct Hg as (_ & Hw4 & Hr4). specialize (Hw4 eq_refl).
  destruct (wp_result _ _ _ _ _ (good_finish sys Hopen now_us b2 w4 Hw4) Hrun) as (_ & _ & Hr5).
  eapply marked_kept; [|exact Hr5]. by eapply marked_kept.
Qed.

(** ** A concrete batch *)
Definition demo_sys (paths : list (option string)) (dirs : list string) (grace : bool) (answers : register_answers) : scan_sys :=
  let is_dir p := bool_decide (p ∈ dirs) in
  ScanSys paths (fun _ => 2) 10000000 (fun _ => false)
    (fun _ => WalkEnv (ScanFs (fun p => if is_dir p then Entries [] None else OpenError ENOENT) (fun _ => inr ENOENT)) [] (fun _ => false) (fun _ => false))
    (fun _ => answers) (fun _ => true) (fun _ p => if is_dir p then Some (7, 42) else None) (fun _ _ => Some (7, 42)) (fun _ _ => false) (fun _ _ => None)
    (fun _ => grace) (fun _ => Some 90) (fun _ => Some 91) (fun _ => true).

Definition demo_state (t : watch_table) : scan_state :=
  ScanState t (reset_scanner_usb_mount_state (fun _ => false) reset_scanner_root_states []) (Timers false 0 0 0 0 0) [Some 80; Some 81] (Some 82) 83 0 [].

(** The table of ScannerHistory.v: the first root and, as the parent of the second, "/data/a",
    and "/data/a/b" of the first. *)
Definition demo_scan_sys : scan_sys := demo_sys [Some "/data/a"; Some "/data/a/c"]%string ["/data/a"; "/data/a/b"; "/data"; "/"]%string false demo_answers.
Definition write_event : vnode_flags := VnodeFlags true false false false false false.
Definition delete_event : vnode_flags := VnodeFlags false false false true false false.

Lemma demo_table_ok : table_ok demo_watch_table.
Proof. apply (watching_ok _ _ demo_watching). done. Qed.

Lemma demo_paths_fit : (length (sy_paths demo_scan_sys) <= ConfigState.MAX_SCAN_PATHS)%nat.
Proof. apply Nat.leb_le. reflexivity. Qed.

Definition demo_batch : list scan_event := [EventRead 83; EventVnode 1 write_event; EventVnode 2 delete_event; EventFs true].

Lemma scanner_batch_sound_witness : exists ok timed_out w', process_scanner_events demo_scan_sys (KEvents demo_batch) 5000000 (demo_state demo_watch_table) = Some ((ok, timed_out), w') /\
  structure_ok (sn_table w') /\ (ok = true -> table_ok (sn_table w')) /\ roots_kept (sn_roots (demo_state demo_watch_table)) (sn_roots w').
Proof.
  destruct (scanner_batch_sound demo_scan_sys (demo_state demo_watch_table) (KEvents demo_batch) 5000000 []) as [H _];
    [exact demo_table_ok|intros; exact demo_fresh|exact demo_paths_fit|exact H].
Defined.

Definition demo_before : option (option batch * scan_state) := event_loop demo_scan_sys [EventRead 83; EventVnode 1 write_event] 5000000 (Batch 0 false false) (demo_state demo_watch_table).
Definition demo_w1 : scan_state := from_option snd (demo_state demo_watch_table) demo_before.
Definition demo_after : option ((bool * bool) * scan_state) := process_scanner_events demo_scan_sys (KEvents demo_batch) 5000000 (demo_state demo_watch_table).
Definition demo_w' : scan_state := from_option snd (demo_state demo_watch_table) demo_after.

(** The second root was seen, and is gone when its parent changes. *)
Definition demo_seen : scan_state := put_roots (on_root 1 (set_presence true 7 42) (sn_roots (demo_state demo_watch_table))) (demo_state demo_watch_table).
Definition demo_gone : scan_state :=
  from_option snd demo_seen (process_scanner_events demo_scan_sys (KEvents [EventVnode 1 write_event]) 5000000 demo_seen).

Lemma batch_schedules_roots_witness :
  (rt_dirty (root_at (sn_roots demo_w') 0) = true /\ rt_cleanup_pending (root_at (sn_roots demo_w') 0) = true) /\
  we_kind (entry_at demo_watch_table 1) = SCANNER_WATCH_SCAN_ROOT_PARENT /\ marked 1 true (sn_roots demo_gone).
Proof.
  split; [|split; [reflexivity|]].
  2:{ apply (batch_schedules_roots demo_scan_sys demo_seen [] [] 1 write_event 5000000 (Batch 0 false false) demo_seen demo_seen false demo_gone
        (entry_at demo_watch_table 1) "/data/a/c"); try (vm_compute; reflexivity).
      - exact demo_table_ok.
      - intros; exact demo_fresh.
      - exact demo_paths_fit.
      - vm_compute. apply list_elem_of_further, list_elem_of_here.
      - unfold calls_for. rewrite bool_decide_eq_true_2 by reflexivity. exists None.
        split; [intros; vm_compute; reflexivity|]. split; [left; vm_compute; reflexivity|]. split; vm_compute; reflexivity. }
  destruct (batch_schedules_roots demo_scan_sys (demo_state demo_watch_table) [EventRead 83; EventVnode 1 write_event] [EventFs true] 2 delete_event 5000000
    (Batch 0 false false) demo_w1 demo_w1 false demo_w' (entry_at demo_watch_table 2) "/data/a" true) as [H1 H2].
  - exact demo_table_ok.
  - reflexivity.
  - intros; exact demo_fresh.
  - exact demo_paths_fit.
  - vm_compute. reflexivity.
  - vm_compute. reflexivity.
  - vm_compute. reflexivity.
  - vm_compute. apply list_elem_of_further, list_elem_of_further, list_elem_of_here.
  - reflexivity.
  - reflexivity.
  - vm_compute. reflexivity.
  - split; [exact H1|exact (H2 eq_refl)].
Defined.

(** A comment of the code says that descriptors stay until every event of a batch is read.
    Rebuilding the tree of a USB root that went away after a resume does not wait: here it
    closes both descriptors in the middle of the batch and opens "/mnt" again under
    the number that "/mnt/usb0" had, and the event of "/mnt/usb0" that follows is taken for
    one of "/mnt": its watch is not shared any more although "/mnt" is still there. *)
Definition resumed_table : watch_table :=
  let t := (register_scanner_watch_entry demo_answers 0 "/mnt/usb0" SCANNER_WATCH_SCAN_ROOT 0 (empty_watches (Descriptors ∅ false))).2 in
  (register_scanner_watch_entry (RegisterAnswers true true (Some next_fd) (fun fd => Some (7, fd)) true) 0 "/mnt" SCANNER_WATCH_SCAN_ROOT_PARENT 0 t).2.
Definition resumed_state : scan_state := put_roots (on_root 0 (set_presence true 7 42) reset_scanner_root_states) (demo_state resumed_table).
Definition resumed_sys : scan_sys := demo_sys [Some "/mnt/usb0"]%string ["/mnt"; "/"]%string true demo_answers.
Definition revoke_event : vnode_flags := VnodeFlags false false false false false true.
Definition watched_as (w : scan_state) : list (Z * string * bool) := (fun e => (we_fd e, we_path e, we_fd_shareable e)) <$> wt_entries (sn_table w).

Example rebuild_inside_batch :
  watched_as resumed_state = [(1, "/mnt/usb0"%string, true); (2, "/mnt"%string, true)] /\
  (fun r => (r.1, watched_as r.2)) <$> process_scanner_events resumed_sys (KEvents [EventVnode 2 write_event]) 5000000 resumed_state =
    Some ((true, false), [(1, "/mnt"%string, true)]) /\
  (fun r => (r.1, watched_as r.2)) <$> process_scanner_events resumed_sys (KEvents [EventVnode 2 write_event; EventVnode 1 revoke_event]) 5000000 resumed_state =
    Some ((true, false), [(1, "/mnt"%string, false)]).
Proof. vm_compute. split_and!; reflexivity. Qed.
