(* ===== verification/ScannerCycle.v ===== *)
(** * Scan cycles (src/sm_scanner.c, sixth part)

    A full or targeted scan as the scanner runs it: under its mutex and with the claim on the
    library that is shared with the system's shell, given up when the program stops, sleeps
    or a game takes over.  The steps of the scan itself (ScanCollect.v, ScanCleanup.v,
    InstallQueue.v) are recorded in order. *)
From S2P Require Import Prelude CString ConfigState ScanTree Effects ScannerWatch ScannerHistory ScannerSchedule ScannerUsb ScannerEject ScannerEvents.
From stdpp Require Import list.
Open Scope Z_scope.
Open Scope c_scope.

(** ** State and answers *)
Inductive loop_call :=
  | LockCycle | UnlockCycle | BeginMutation | EndMutation
  | CleanupLostSources (scan_root : option string)
  | CollectCandidates (scan_root : option string)
  | ProcessCandidates (count : Z)
  | ReconcileMissingGames | ReleaseScanMounts
  | NotifyNewGames (count : Z) | NotifyLibrarySynced (total : Z)
  | ResetAttempts | InvalidateTitleCache | ServiceInstall_ | CleanupFakelibCaches
  | ReconfigureApi | UpdaterConfigReload | ResetMissingTimers | RequestScan (reason : string)
  | RefreshLifecycleWatcher | InitTranslations | NotifyConfigReloaded
  | WakeLifecycleWatcher | RefreshShellHooks | DrainWake | RefreshStorage
  | StorePause (p : eject_pause) | ExchangePause
  | CloseQueue | RequestShutdown (reason : string).

(** What a collection finds: candidates, those not installed yet, games in all, and whether
    something was left for later. *)
Record collected := Collected { co_count : Z; co_new : Z; co_total : Z; co_unstable : bool }.

(** [select] on the pipe that wakes the scanner. *)
Inductive select_answer := SelectFailed (interrupted : bool) | SelectReady.

(** [kqueue] and the registration of the pipe with it; the message of an error. *)
Inductive queue_answer := QueueFailed (message : string) | QueueUnregistered (message : string) | QueueReady.

(** The configuration changes with every reload, and the scan roots with it. *)
Record loop_env := LoopEnv {
  le_config : nat -> runtime_config_t;
  le_scan : nat -> scan_sys;
  le_now : nat -> Z; (* [monotonic_time_us] *)
  le_stop : nat -> bool; (* [should_stop_requested] *)
  le_asleep : nat -> bool; (* [runtime_sleep_mode_active] *)
  le_background : nat -> bool; (* [sm_game_lifecycle_background_title(NULL)] *)
  le_claim : nat -> bool; (* [sm_shellcore_try_begin_external_mutation] *)
  le_blocked : nat -> bool; (* [sm_shellcore_background_work_blocked] *)
  le_collect : nat -> option string -> collected;
  le_install_pending : nat -> bool; (* [sm_install_has_pending_work] *)
  le_install_wake_us : nat -> Z -> Z; (* [sm_install_next_wake_us] *)
  le_request : nat -> option (string * bool); (* [consume_scan_now_request]: reason, counters to reset *)
  le_reload : nat -> option bool; (* [reload_runtime_config_if_changed] *)
  le_kevent : nat -> kevent_answer;
  le_select : nat -> select_answer;
  le_pause : nat -> eject_pause * list select_answer; (* the pause, and the waits until it ends *)
  le_storage_watch : nat -> bool; (* [register_scanner_storage_watch] *)
  le_queue : nat -> queue_answer;
  le_pipe : nat -> option Z; (* [pipe] and its two [sm_set_fd_nonblocking]: the end that is read *)
}.

Record loop_state := LoopState {
  lp_scan : scan_state; lp_generation : nat;
  lp_next_full_resync_us : Z; lp_next_cache_cleanup_us : Z;
  lp_was_sleeping : bool; lp_scan_work_blocked : bool; lp_storage_watch : bool;
  lp_suspended : bool; (* [g_usb_watches_suspended] *)
  lp_calls : list loop_call;
}.

Definition L := prog loop_state.

Definition put_scan (s : scan_state) (w : loop_state) : loop_state :=
  LoopState s (lp_generation w) (lp_next_full_resync_us w) (lp_next_cache_cleanup_us w) (lp_was_sleeping w) (lp_scan_work_blocked w) (lp_storage_watch w) (lp_suspended w) (lp_calls w).
Definition put_generation (g : nat) (w : loop_state) : loop_state :=
  LoopState (lp_scan w) g (lp_next_full_resync_us w) (lp_next_cache_cleanup_us w) (lp_was_sleeping w) (lp_scan_work_blocked w) (lp_storage_watch w) (lp_suspended w) (lp_calls w).
Definition put_full_resync (due : Z) (w : loop_state) : loop_state :=
  LoopState (lp_scan w) (lp_generation w) due (lp_next_cache_cleanup_us w) (lp_was_sleeping w) (lp_scan_work_blocked w) (lp_storage_watch w) (lp_suspended w) (lp_calls w).
Definition put_cache_cleanup (due : Z) (w : loop_state) : loop_state :=
  LoopState (lp_scan w) (lp_generation w) (lp_next_full_resync_us w) due (lp_was_sleeping w) (lp_scan_work_blocked w) (lp_storage_watch w) (lp_suspended w) (lp_calls w).
Definition put_sleeping (b : bool) (w : loop_state) : loop_state :=
  LoopState (lp_scan w) (lp_generation w) (lp_next_full_resync_us w) (lp_next_cache_cleanup_us w) b (lp_scan_work_blocked w) (lp_storage_watch w) (lp_suspended w) (lp_calls w).
Definition put_blocked (b : bool) (w : loop_state) : loop_state :=
  LoopState (lp_scan w) (lp_generation w) (lp_next_full_resync_us w) (lp_next_cache_cleanup_us w) (lp_was_sleeping w) b (lp_storage_watch w) (lp_suspended w) (lp_calls w).
Definition put_storage_watch (b : bool) (w : loop_state) : loop_state :=
  LoopState (lp_scan w) (lp_generation w) (lp_next_full_resync_us w) (lp_next_cache_cleanup_us w) (lp_was_sleeping w) (lp_scan_work_blocked w) b (lp_suspended w) (lp_calls w).
Definition put_suspended (b : bool) (w : loop_state) : loop_state :=
  LoopState (lp_scan w) (lp_generation w) (lp_next_full_resync_us w) (lp_next_cache_cleanup_us w) (lp_was_sleeping w) (lp_scan_work_blocked w) (lp_storage_watch w) b (lp_calls w).
Definition put_calls (calls : list loop_call) (w : loop_state) : loop_state :=
  LoopState (lp_scan w) (lp_generation w) (lp_next_full_resync_us w) (lp_next_cache_cleanup_us w) (lp_was_sleeping w) (lp_scan_work_blocked w) (lp_storage_watch w) (lp_suspended w) calls.

Definition call (c : loop_call) : L () := change (fun w => put_calls (lp_calls w ++ [c]) w).

(** The reason is kept in 128 bytes. *)
Definition request_scanner_shutdown (reason : string) : L () :=
  call (RequestShutdown (strlcpy (if strcmp_eq reason "" then "scanner failure" else reason) 128)).

Section cycles.
Context (env : loop_env).

Definition sys_of (w : loop_state) : scan_sys := le_scan env (lp_generation w).
Definition paths_of (w : loop_state) : list (option string) := sy_paths (sys_of w).
Definition config_of (w : loop_state) : runtime_config_t := le_config env (lp_generation w).

(** A step of the scanner's own state, with the scan roots of now. *)
Definition scan {A} (m : scan_sys -> M A) : L A :=
  fun w => match m (sys_of w) (lp_scan w) with Some (a, s) => Some (a, put_scan s w) | None => None end.

(** One more question. *)
Definition query {A} (f : nat -> A) : L A := scan (fun _ => ask f).

Definition should_abort_scan_cycle : L bool :=
  let* stop := query (le_stop env) in
  if stop then ret true
  else
    let* asleep := query (le_asleep env) in
    if asleep then ret true
    else let* background := query (le_background env) in ret (negb background).

Fixpoint notify_slots (slots : list Z) : L () :=
  match slots with
  | [] => ret tt
  | slot :: slots' => let* _ := scan (fun sys => notify_mount_change sys (usb_root_of slot) false) in notify_slots slots'
  end.

Definition release_mounts_if_idle : L () :=
  let* pending := query (le_install_pending env) in when (negb pending) (call ReleaseScanMounts).

Definition collect (scan_root : option string) : L collected :=
  let* c := query (fun n => le_collect env n scan_root) in
  let* _ := call (CollectCandidates scan_root) in ret c.

(** Whether the cycle was completed, and [*unstable_found_out] when it is written. *)
Definition run_full_scan_cycle_impl (startup_sync : bool) : L (bool * option bool) :=
  let* abort := should_abort_scan_cycle in
  if abort then ret (false, None)
  else
    let* _ := when (negb startup_sync) (notify_slots usb_slots) in
    let* _ := call (CleanupLostSources None) in
    let* abort := should_abort_scan_cycle in
    if abort then ret (false, None)
    else
      let* c := collect None in
      let* abort := should_abort_scan_cycle in
      if abort then ret (false, None)
      else
        let* _ := when ((0 <? co_count c) && startup_sync && (0 <? co_new c)) (call (NotifyNewGames (co_new c))) in
        let* _ := call (ProcessCandidates (co_count c)) in
        let* abort := should_abort_scan_cycle in
        if abort then ret (false, None)
        else
          let* _ := call ReconcileMissingGames in
          let* _ := release_mounts_if_idle in
          let* _ := (if startup_sync then
                       let* abort := should_abort_scan_cycle in
                       let* w := look id in
                       when (negb abort && rc_library_sync_notification (config_of w)) (call (NotifyLibrarySynced (co_total c)))
                     else ret tt) in
          let* abort := should_abort_scan_cycle in ret (negb abort, Some (co_unstable c)).

Definition run_targeted_scan_cycle_impl (scan_root_index : Z) : L (bool * option bool) :=
  let* w := look id in
  match scan_path_at (paths_of w) scan_root_index with
  | None => ret (false, None)
  | Some scan_root =>
      let* abort := should_abort_scan_cycle in
      if abort then ret (false, None)
      else
        let usb_slot := scanner_usb_slot_for_path scan_root in
        let* came := scan (fun sys => notify_mount_change sys scan_root false) in
        let* _ := (if came : bool then
                     let* now_us := query (le_now env) in
                     scan (fun sys => change (fun s => put_roots (schedule_scan_roots_for_usb_slot_except (sy_paths sys) (us_result_pending_mask (sn_usb s)) (sy_wait_us sys) usb_slot scan_root_index now_us (sn_roots s)) s))
                   else ret tt) in
        let* _ := call (CleanupLostSources (Some scan_root)) in
        let* abort := should_abort_scan_cycle in
        if abort then ret (false, None)
        else
          let* c := collect (Some scan_root) in
          let* abort := should_abort_scan_cycle in
          if abort then ret (false, None)
          else
            let* _ := scan (fun _ => change (fun s => put_usb (count_scanned_root usb_slot (co_unstable c) scan_root_index (co_total c) (sn_usb s)) s)) in
            let* _ := call (ProcessCandidates (co_count c)) in
            let* abort := should_abort_scan_cycle in
            if abort then ret (false, None)
            else
              let* _ := release_mounts_if_idle in
              let* abort := should_abort_scan_cycle in ret (negb abort, Some (co_unstable c))
  end.

(** [run_full_scan_cycle] and [run_targeted_scan_cycle] around their bodies. *)
Definition guarded_cycle (impl : L (bool * option bool)) : L (bool * option bool) :=
  let* _ := call LockCycle in
  let* claimed := query (le_claim env) in
  let* _ := when claimed (call BeginMutation) in
  let* blocked := (if claimed then query (le_blocked env) else ret true) in
  let* r := (if blocked then ret (true, Some true) else impl) in
  let* _ := when claimed (call EndMutation) in
  let* r := (if r.1 : bool then ret r
             else
               let* stop := query (le_stop env) in
               if stop then ret r
               else let* asleep := query (le_asleep env) in ret (if asleep then r else (true, Some true))) in
  let* _ := call UnlockCycle in
  ret r.

Definition run_full_scan_cycle (startup_sync : bool) : L (bool * option bool) := guarded_cycle (run_full_scan_cycle_impl startup_sync).
Definition run_targeted_scan_cycle (scan_root_index : Z) : L (bool * option bool) := guarded_cycle (run_targeted_scan_cycle_impl scan_root_index).

(** ** Start-up *)

(** The wait for the end of sleep; [fuel] turns at most. *)
Fixpoint startup_sleep (fuel : nat) : L bool :=
  match fuel with
  | O => stuck
  | S fuel' =>
      let* asleep := query (le_asleep env) in
      if negb asleep then ret true
      else
        let* stop := query (le_stop env) in
        if stop then ret true
        else
          let* answer := query (le_select env) in
          match answer with
          | SelectFailed true => startup_sleep fuel'
          | SelectFailed false => ret false
          | SelectReady => let* _ := call DrainWake in startup_sleep fuel'
          end
  end.

Fixpoint startup_turns (fuel : nat) : L bool :=
  match fuel with
  | O => stuck
  | S fuel' =>
      let* stop := query (le_stop env) in
      if stop then ret false
      else
        let* ok := startup_sleep fuel' in
        if negb ok then ret false
        else
          let* stop := query (le_stop env) in
          if stop then ret false
          else
            let* r := run_full_scan_cycle true in
            if r.1 : bool then ret true
            else
              let* asleep := query (le_asleep env) in
              if asleep then startup_turns fuel' else ret false
  end.

(** [pipe] tells that the pipe that wakes the scanner is there. *)
Definition sm_scanner_run_startup_sync (fuel : nat) (pipe : bool) : L bool :=
  if negb pipe then let* _ := request_scanner_shutdown "scanner wake pipe unavailable at startup" in ret false
  else startup_turns fuel.
End cycles.
