(* ===== verification/ScannerLoop.v ===== *)
(** * The main loop of the scanner (src/sm_scanner.c, seventh part)

    Start, one turn and end of [sm_scanner_run_loop]: the pause for an ejection, sleep and
    waking, then the first of the things that are due (ScannerSchedule.v decides), or a
    batch of events. *)
From S2P Require Import Prelude CString ConfigState ScanTree Effects ScannerWatch ScannerHistory ScannerSchedule ScannerUsb ScannerEject ScannerEvents ScannerCycle.
From stdpp Require Import list.
Open Scope Z_scope.
Open Scope c_scope.

Definition RUNTIME_RESUME_GRACE_US : Z := 10000000.
Definition SCANNER_FAKELIB_CACHE_CLEANUP_INTERVAL_US : Z := 24 * 60 * 60 * 1000000.
Definition SCANNER_EVENT_DRAIN_BATCHES : nat := 8.

(** How a turn ends: [continue], or the end of the loop. *)
Inductive outcome := Again | Leave.

(** [hash ^= value; hash *= 16777619u] *)
Definition mix (hash value : Z) : Z := u32 (Z.lxor hash value * 16777619).
Definition mix_word (hash value : Z) : Z :=
  fold_left (fun hash shift => mix hash (Z.land (Z.shiftr value shift) 255)) [0; 8; 16; 24] hash.

Definition scanner_config_topology_hash (cfg : runtime_config_t) (paths : list (option string)) : Z :=
  let hash := mix_word (mix_word 2166136261 (u32 (rc_scan_depth cfg))) (Z.of_nat (length paths)) in
  fold_left (fun hash path => match path with Some p => mix hash (sm_fnv1a32 p) | None => hash end) paths hash.

Definition reload_taken (t : scanner_timers) : scanner_timers :=
  Timers false 0 (tm_config_probe_due_us t) (tm_manual_scan_due_us t) (tm_manual_probe_due_us t) (tm_usb_mount_probe_due_us t).

Definition close_config_files : M () :=
  let* w := look id in
  let* _ := when (bool_decide (is_Some (config_fd w 0))) (close_config 0) in
  when (bool_decide (is_Some (config_fd w 1))) (close_config 1).

Section loop.
Context (env : loop_env).

Abbreviation scan := (ScannerCycle.scan env).
Abbreviation query := (ScannerCycle.query env).

Definition when_ok (b : bool) (m : L bool) : L bool := if b then m else ret false.

(** ** Leaving *)
Definition clear_watches : L () := scan (fun _ => change (fun s => put_table (clear_scanner_watch_entries (sn_table s)) s)).

Definition leave : L outcome :=
  let* _ := call CloseQueue in let* _ := clear_watches in ret Leave.

Definition leave_with (reason : string) : L outcome :=
  let* _ := call CloseQueue in
  let* _ := clear_watches in
  let* _ := request_scanner_shutdown reason in ret Leave.

(** ** Shared steps *)

(** The answers of the next calls of [kevent]; the batches of one drain. *)
Definition next_batches : L (list (kevent_answer * Z)) :=
  query (fun n => (fun k => (le_kevent env (n + k)%nat, le_now env (n + k)%nat)) <$> seq 0 SCANNER_EVENT_DRAIN_BATCHES).

Definition drain_events : L bool :=
  let* batches := next_batches in scan (fun sys => drain_scanner_events_nowait sys batches).
Definition discard_events : L bool :=
  let* batches := next_batches in scan (fun sys => discard_scanner_events_nowait sys batches).

Definition suspend_usb : L bool :=
  scan (fun sys => let* memory := ask (sy_memory sys) in on_table (suspend_usb_scan_root_watch_trees memory (sy_paths sys))).

Definition resume_usb : L bool :=
  let* now_us := query (le_now env) in scan (fun sys => resume_usb_scan_root_watch_trees sys now_us).

Definition close_scanner_config_file : L () := scan (fun _ => close_config_files).

Definition clear_dirty : L () := scan (fun sys => on_roots (clear_all_dirty_scan_roots (sy_paths sys))).

(** After a full scan that was not interrupted. *)
Definition finish_full_scan (unstable_found : bool) (reason : string) : L outcome :=
  let* _ := clear_dirty in
  let* ok := scan rebuild_all_scan_root_watch_trees in
  let* ok := when_ok ok drain_events in
  if negb ok then leave_with reason
  else
    let* now_us := query (le_now env) in
    let* _ := scan (fun sys => change (fun s => put_roots (schedule_pending_scanner_usb_scans (sy_paths sys) (us_result_pending_mask (sn_usb s)) (sy_wait_us sys) now_us (sn_roots s)) s)) in
    let* now_us := query (le_now env) in
    let* w := look id in
    let next_full_resync_us := u64 (now_us + rc_scan_interval_us (config_of env w)) in
    let retry_due := u64 (now_us + sy_wait_us (sys_of env w)) in
    let* _ := change (put_full_resync (if unstable_found && (retry_due <? next_full_resync_us) then retry_due else next_full_resync_us)) in
    ret Again.

Definition full_scan (reason : string) : L outcome :=
  let* r := run_full_scan_cycle env false in
  if negb r.1 then let* asleep := query (le_asleep env) in if asleep : bool then ret Again else leave
  else finish_full_scan (default false r.2) reason.

(** ** The pause for an ejection *)

(** The waits while it lasts. *)
Fixpoint pause_waits (waits : list select_answer) : L bool :=
  match waits with
  | [] => ret true
  | SelectFailed false :: _ => ret false
  | SelectFailed true :: waits' => pause_waits waits'
  | SelectReady :: waits' => let* _ := call DrainWake in pause_waits waits'
  end.

Definition handle_usb_eject_pause : L bool :=
  let* p := query (le_pause env) in
  match p.1 with
  | USB_EJECT_IDLE => ret true
  | USB_EJECT_RESUMING => let* _ := call (StorePause USB_EJECT_IDLE) in ret true
  | _ =>
      let* ok := suspend_usb in
      if negb ok then ret false
      else
        let* _ := change (put_suspended true) in
        let* _ := call ExchangePause in
        let* ok := pause_waits p.2 in
        if negb ok then ret false
        else
          let* stop := query (le_stop env) in
          let* asleep := (if stop : bool then ret true else query (le_asleep env)) in
          let* ok := (if stop || asleep then ret true
                      else let* ok := resume_usb in let* _ := when ok (change (put_suspended false)) in ret ok) in
          if negb ok then ret false else let* _ := call (StorePause USB_EJECT_IDLE) in ret true
  end.

(** ** Sleep *)
Definition sleep_turn : L outcome :=
  let* w := look id in
  let* ok := (if lp_was_sleeping w then ret true
              else
                let* ok := suspend_usb in
                if negb ok then ret false
                else
                  let* _ := clear_dirty in
                  let* _ := scan (fun _ => on_timers (set_usb_probe 0)) in
                  let* _ := change (put_suspended true) in
                  let* _ := call WakeLifecycleWatcher in
                  let* _ := change (put_sleeping true) in ret true) in
  if negb ok then leave_with "USB watcher suspend failed"
  else
    let* answer := query (le_select env) in
    match answer with
    | SelectFailed true => ret Again
    | SelectFailed false => leave_with "scanner sleep wait failed"
    | SelectReady => let* _ := call DrainWake in ret Again
    end.

(** [None]: the turn goes on. *)
Definition resume_turn : L (option outcome) :=
  let* ok := discard_events in
  if negb ok then let* o := leave_with "scanner stale event drain failed" in ret (Some o)
  else
    let* resume_us := query (le_now env) in
    let* _ := close_scanner_config_file in
    let* _ := scan (fun sys => reopen_config_file_watch sys true resume_us) in
    let* _ := scan (fun _ => on_timers (schedule_config_reload resume_us)) in
    let* _ := scan (fun sys => reopen_manual_file_watch sys resume_us) in
    let* _ := scan (fun _ => on_timers (set_manual_scan (u64 (resume_us + RUNTIME_RESUME_GRACE_US)))) in
    let* ok := resume_usb in
    if negb ok then let* o := leave_with "USB watcher resume failed" in ret (Some o)
    else
      let* _ := change (put_suspended false) in
      let* _ := change (put_sleeping false) in
      let* now_us := query (le_now env) in
      let* _ := change (put_full_resync (u64 (now_us + RUNTIME_RESUME_GRACE_US))) in
      let* _ := call RefreshShellHooks in ret None.

(** ** Reloading the configuration *)
Definition apply_runtime_config_reload_effects (old_cfg new_cfg : runtime_config_t) (scan_topology_changed : bool) : L bool :=
  let* _ := when (negb (eqb (rc_api_enabled old_cfg) (rc_api_enabled new_cfg)) || negb (bool_decide (rc_api_bind_address old_cfg = rc_api_bind_address new_cfg)) ||
                  negb (rc_api_port old_cfg =? rc_api_port new_cfg)) (call ReconfigureApi) in
  let* _ := call UpdaterConfigReload in
  let* _ := when (negb (eqb (rc_auto_remove_missing_games old_cfg) (rc_auto_remove_missing_games new_cfg))) (call ResetMissingTimers) in
  let* _ := when (negb (eqb (rc_persistent_image_mounts old_cfg) (rc_persistent_image_mounts new_cfg)))
              (call (RequestScan (if rc_persistent_image_mounts new_cfg then "persistent image mounting enabled" else "persistent image mounting disabled"))) in
  let* ok := (if scan_topology_changed then
                let* _ := clear_watches in
                let* _ := scan (fun _ => change (put_roots reset_scanner_root_states)) in
                scan rebuild_all_scan_root_watch_trees
              else ret true) in
  if negb ok then ret false else let* _ := call RefreshLifecycleWatcher in ret true.

Definition reload_config : L outcome :=
  let* _ := scan (fun _ => on_timers reload_taken) in
  let* w := look id in
  let old_hash := scanner_config_topology_hash (config_of env w) (paths_of env w) in
  let old_cfg := config_of env w in
  let* reloaded := query (le_reload env) in
  match reloaded with
  | None | Some false => ret Again
  | Some true =>
      let* _ := change (fun w => put_generation (S (lp_generation w)) w) in
      let* w := look id in
      let changed := negb (old_hash =? scanner_config_topology_hash (config_of env w) (paths_of env w)) in
      let* ok := apply_runtime_config_reload_effects old_cfg (config_of env w) changed in
      if negb ok then leave_with "scanner watcher rebuild after config reload failed"
      else
        let* ok := (if changed then discard_events else ret true) in
        if negb ok then leave_with "scanner stale event drain after config reload failed"
        else
          let* _ := call InitTranslations in
          let* _ := call NotifyConfigReloaded in
          let* now_us := query (le_now env) in
          let* _ := change (put_full_resync (if changed then now_us else u64 (now_us + rc_scan_interval_us (config_of env w)))) in
          ret Again
  end.

(** ** Roots *)
Definition cleanup_root (i : nat) : L outcome :=
  let* _ := call LockCycle in
  let* claimed := query (le_claim env) in
  if negb claimed then let* _ := call UnlockCycle in ret Again
  else
    let* _ := call BeginMutation in
    let* _ := scan (fun _ => on_roots (on_root (Z.of_nat i) (set_cleanup false))) in
    let* w := look id in
    let* _ := match scan_path_at (paths_of env w) (Z.of_nat i) with Some p => call (CleanupLostSources (Some p)) | None => ret tt end in
    let* _ := call EndMutation in
    let* _ := call UnlockCycle in ret Again.

(** A scan of the root was cut short by sleep: everything that was to be done is to be done
    again.  [s] is the root before. *)
Definition reschedule_root (i : Z) (s : scanner_root_state_t) : L () :=
  let* _ := when (rt_cleanup_pending s) (scan (fun _ => on_roots (schedule_scan_root_cleanup i))) in
  let* now_us := query (le_now env) in
  let* _ := scan (fun sys => schedule_dirty sys i now_us true) in
  when (rt_watch_tree_stale s) (scan (fun _ => on_roots (on_root i (set_rebuild true (rt_rebuild_depth s) (rt_rebuild_kind s) (strlcpy (strlcpy (rt_rebuild_path s) MAX_PATH) MAX_PATH))))).

Definition scan_root_turn (i : Z) : L outcome :=
  let* w := look id in
  let s := root_at (sn_roots (lp_scan w)) i in
  let* _ := scan (fun _ => on_roots (on_root i (fun s => clear_scan_root_watch_tree_state (set_dirty false 0 (set_cleanup false s))))) in
  let* r := run_targeted_scan_cycle env i in
  if negb r.1 then
    let* asleep := query (le_asleep env) in
    if asleep : bool then let* _ := reschedule_root i s in ret Again else leave
  else
    let* ok := (if rt_watch_tree_stale s
                then scan (fun sys => rebuild_scan_root_watch_subtree sys i (strlcpy (rt_rebuild_path s) MAX_PATH) (rt_rebuild_depth s) (rt_rebuild_kind s))
                else ret true) in
    if negb ok then leave_with "scanner root watcher rebuild failed"
    else
      let* ok := drain_events in
      if negb ok then leave_with "scanner event drain failed"
      else
        let* _ := (if default false r.2 then let* now_us := query (le_now env) in scan (fun sys => schedule_dirty sys i now_us false) else ret tt) in
        let* w := look id in
        let usb_slot := match scan_path_at (paths_of env w) i with Some p => scanner_usb_slot_for_path p | None => -1 end in
        let* _ := when (0 <=? usb_slot) (scan (fun sys => change (fun s => put_usb (notify_scanner_usb_scan_complete (sy_paths sys) usb_slot (sn_usb s)) s))) in
        ret Again.

(** ** One turn *)

(** [process_due_scanner_usb_mount_probes] with the watches it rebuilds. *)
Definition process_usb_probes (now_us : Z) : L bool :=
  scan (fun sys s =>
    let '(due, t, u) := process_due_scanner_usb_mount_probes (usb_answers_at sys (sn_asked s) (sn_table s)) (sy_paths sys) (sy_wait_us sys) now_us (sn_timers s) (sn_usb s) in
    let s := put_asked (S (sn_asked s)) (put_timers t (put_usb u s)) in
    if due then rebuild_usb_watches sys s else Some (true, s)).

Definition wait_for_events (timeout : option (Z * Z)) : L outcome :=
  let* answer := query (le_kevent env) in
  let* now_us := query (le_now env) in
  let* r := scan (fun sys => process_scanner_events sys answer now_us) in
  if negb r.1 then leave_with "scanner kevent wait failed"
  else let* stop := query (le_stop env) in if stop : bool then leave else ret Again.

Definition run_action (now_us : Z) (action : scanner_action) : L outcome :=
  match action with
  | RequestedScan => ret Again (* taken before *)
  | ProbeConfig =>
      let* _ := scan (fun _ => on_timers (set_config_probe 0)) in
      let* _ := scan (fun sys => reopen_config_file_watch sys true now_us) in
      let* w := look id in
      let* _ := when (bool_decide (is_Some (config_fd (lp_scan w) 0)) && bool_decide (is_Some (config_fd (lp_scan w) 1)))
                  (scan (fun _ => on_timers (schedule_config_reload now_us))) in
      ret Again
  | ProbeManual =>
      let* _ := scan (fun _ => on_timers (set_manual_probe 0)) in
      let* _ := scan (fun sys => reopen_manual_file_watch sys now_us) in
      let* w := look id in
      let* _ := when (bool_decide (is_Some (sn_manual_fd (lp_scan w)))) (scan (fun _ => on_timers (schedule_manual_scan now_us))) in
      ret Again
  | ReloadConfig => reload_config
  | ManualScan =>
      let* _ := scan (fun _ => on_timers (set_manual_scan 0)) in
      let* _ := call InvalidateTitleCache in
      full_scan "scanner watcher refresh after manual scan failed"
  | ServiceInstall => let* _ := call LockCycle in let* _ := call ServiceInstall_ in let* _ := call UnlockCycle in ret Again
  | CleanCaches =>
      let* _ := call CleanupFakelibCaches in
      let* now_us := query (le_now env) in
      let* _ := change (put_cache_cleanup (u64 (now_us + SCANNER_FAKELIB_CACHE_CLEANUP_INTERVAL_US))) in ret Again
  | FullResync => full_scan "scanner watcher refresh after full resync failed"
  | CleanupRoot i => cleanup_root i
  | ScanRoot i => scan_root_turn (Z.of_nat i)
  | Wait timeout => wait_for_events timeout
  end.

Definition note_blocked (blocked : bool) (now_us : Z) : L () :=
  change (fun w =>
    let '(was, due) := update_scan_work_blocked blocked (lp_scan_work_blocked w) now_us (lp_next_full_resync_us w) in
    put_full_resync due (put_blocked was w)).

Definition requested_scan (reset_attempts : bool) : L outcome :=
  let* _ := when reset_attempts (call ResetAttempts) in
  full_scan "scanner watcher refresh failed".

(** What is due, once nothing is requested. *)
Definition due_turn : L outcome :=
  let* now_us := query (le_now env) in
  let* before := look id in
  let* ok := process_usb_probes now_us in
  if negb ok then leave_with "USB watcher refresh failed"
  else
    let* busy := query (le_blocked env) in
    let* install_wake_us := query (fun n => le_install_wake_us env n now_us) in
    let* w := look id in
    let input := TurnInput now_us busy false (bool_decide (config_fd (lp_scan w) 0 = None) || bool_decide (config_fd (lp_scan w) 1 = None))
                   (bool_decide (sn_manual_fd (lp_scan w) = None)) install_wake_us (lp_scan_work_blocked w) (lp_next_full_resync_us w)
                   (lp_next_cache_cleanup_us w) (lp_storage_watch w) in
    let timers := sn_timers (lp_scan before) in
    let* _ := scan (fun _ => on_timers (fun _ => turn_timers input timers)) in
    let* _ := note_blocked busy now_us in
    run_action now_us (scanner_turn (length (paths_of env w)) input timers (sn_roots (lp_scan w))).

Definition awake_turn : L outcome :=
  let* busy := query (le_blocked env) in
  let* now_us := query (le_now env) in
  let* _ := note_blocked busy now_us in
  let* request := (if busy : bool then ret None else query (le_request env)) in
  match request with
  | Some (_, reset_attempts) => requested_scan reset_attempts
  | None => due_turn
  end.

Definition loop_turn : L outcome :=
  let* stop := query (le_stop env) in
  if stop then leave
  else
    let* ok := handle_usb_eject_pause in
    if negb ok then leave_with "USB eject watcher pause failed"
    else
      let* asleep := query (le_asleep env) in
      if asleep then sleep_turn
      else
        let* w := look id in
        let* resumed := (if lp_was_sleeping w then resume_turn else ret None) in
        match resumed with Some o => ret o | None => awake_turn end.

(** ** Start and end *)
Definition put_wake_fd (fd : Z) (s : scan_state) : scan_state :=
  ScanState (sn_table s) (sn_usb s) (sn_timers s) (sn_config_fds s) (sn_manual_fd s) fd (sn_asked s) (sn_log s).

Definition sm_scanner_init : L bool :=
  let* _ := call (StorePause USB_EJECT_IDLE) in
  let* _ := scan (fun _ => change (put_wake_fd (-1))) in
  let* _ := close_scanner_config_file in
  let* _ := scan (fun _ => close_scanner_manual_file) in
  let* _ := clear_watches in
  let* _ := scan (fun _ => change (put_roots reset_scanner_root_states)) in
  let* _ := scan (fun _ => on_timers (fun t => clear_scanner_manual_scan_state (clear_scanner_config_reload_state t))) in
  let* _ := scan (fun sys => change (fun s => put_usb (reset_scanner_usb_mount_state (sy_mounted sys (sn_asked s)) (sn_roots s) (us_calls (sn_usb s))) s)) in
  let* _ := scan (fun _ => on_timers (set_usb_probe 0)) in
  let* _ := change (put_suspended true) in
  let* fd := query (le_pipe env) in
  match fd with
  | None => ret false
  | Some fd =>
      let* _ := scan (fun _ => change (put_wake_fd fd)) in
      let* now_us := query (le_now env) in
      let* _ := scan (fun sys => reopen_config_file_watch sys false now_us) in
      let* opened := scan (fun sys => ask (sy_open_manual sys)) in
      let* _ := scan (fun _ => change (put_manual_fd opened)) in
      let* _ := (match opened with
                 | Some _ => ret tt
                 | None => let* now_us := query (le_now env) in scan (fun _ => on_timers (schedule_manual_probe now_us))
                 end) in
      ret true
  end.

Definition sm_scanner_shutdown : L () :=
  let* _ := call (StorePause USB_EJECT_IDLE) in
  let* _ := clear_watches in
  let* _ := close_scanner_config_file in
  let* _ := scan (fun _ => close_scanner_manual_file) in
  let* _ := scan (fun _ => change (put_wake_fd (-1))) in
  let* _ := scan (fun _ => change (put_roots reset_scanner_root_states)) in
  let* _ := scan (fun _ => on_timers (fun t => clear_scanner_manual_scan_state (clear_scanner_config_reload_state t))) in
  let* _ := scan (fun _ => change (fun s => put_usb (UsbState 0 0 (replicate 8 no_usb_info) (sn_roots s) (us_calls (sn_usb s))) s)) in
  let* _ := scan (fun _ => on_timers (set_usb_probe 0)) in
  change (put_suspended true).

(** The queue, with the pipe that wakes the scanner. *)
Definition open_queue : L bool :=
  let* w := look id in
  if sn_wake_fd (lp_scan w) <? 0 then let* _ := request_scanner_shutdown "scanner wake pipe unavailable" in ret false
  else
    let* queue := query (le_queue env) in
    match queue with
    | QueueFailed message => let* _ := request_scanner_shutdown (strlcpy (String.append "scanner kqueue init failed: " message) 128) in ret false
    | QueueUnregistered message =>
        let* _ := call CloseQueue in
        let* _ := request_scanner_shutdown (strlcpy (String.append "scanner wake pipe registration failed: " message) 128) in ret false
    | QueueReady => ret true
    end.

(** The watches and dates the loop begins with: false when it is not entered. *)
Definition start_loop : L bool :=
  let* storage := query (le_storage_watch env) in
  let* _ := change (put_storage_watch storage) in
  let* now_us := query (le_now env) in
  let* _ := scan (fun sys => register_config_file_watch sys now_us) in
  let* now_us := query (le_now env) in
  let* _ := scan (fun sys => register_manual_file_watch sys now_us) in
  let* _ := change (put_suspended false) in
  let* ok := scan rebuild_all_scan_root_watch_trees in
  if negb ok then
    let* _ := call CloseQueue in
    let* _ := clear_watches in
    let* _ := change (put_suspended true) in
    let* _ := close_scanner_config_file in
    let* _ := scan (fun _ => close_scanner_manual_file) in
    let* _ := request_scanner_shutdown "scanner watcher initialization failed" in ret false
  else
    let* _ := call RefreshStorage in
    let* now_us := query (le_now env) in
    let* w := look id in
    let* _ := change (put_full_resync (u64 (now_us + rc_scan_interval_us (config_of env w)))) in
    let* now_us := query (le_now env) in
    let* _ := change (put_cache_cleanup (if now_us =? 0 then 1 else now_us)) in
    let* _ := change (put_sleeping false) in
    let* _ := change (put_blocked false) in ret true.

Fixpoint loop_turns (n : nat) : L outcome :=
  match n with
  | O => ret Again
  | S n' => let* o := loop_turn in match o with Leave => ret Leave | Again => loop_turns n' end
  end.

(** The first [n] turns. *)
Definition sm_scanner_run_loop (n : nat) : L outcome :=
  let* ok := open_queue in
  if negb ok then ret Leave
  else let* ok := start_loop in if negb ok then ret Leave else loop_turns n.
End loop.
