(* ===== verification/ScannerTurn.v ===== *)
(** * Turns of the scanner: properties (src/sm_scanner.c)

    A turn of ScannerLoop.v ends with a sound table of watches or with none at all; scan work
    is done under the mutex and the claim only, which are given back on every path; a scan
    that sleep cuts short is scheduled again as it was. *)
From S2P Require Import Prelude CString ConfigState ScanTree Effects ScanCandidates ScannerWatch ScannerLinks ScannerTable ScannerHistory ScannerSchedule ScannerUsb ScannerEject ScannerEvents ScannerBatch ScannerCycle ScannerLoop.
From stdpp Require Import list.
Open Scope Z_scope.
Open Scope c_scope.

Definition table_of (w : loop_state) : watch_table := sn_table (lp_scan w).
Definition no_watches : watch_table := empty_watches (Descriptors ∅ false).

(** A step on a sound table ends; the table stays sound when the result is [okv]. *)
Definition safe {A} (okv : A -> bool) (m : L A) : Prop :=
  forall w, table_ok (table_of w) -> wp (F := wholly) m (fun a w' => structure_ok (table_of w') /\ (okv a = true -> table_ok (table_of w'))) w.

Definition is_again (o : outcome) : bool := match o with Again => true | Leave => false end.

(** What a turn leaves behind. *)
Definition left_behind (o : outcome) (t : watch_table) : Prop := match o with Again => table_ok t | Leave => t = no_watches end.

Definition turns {A} (out : A -> option outcome) (m : L A) : Prop :=
  forall w, table_ok (table_of w) -> wp (F := wholly) m (fun a w' => match out a with Some o => left_behind o (table_of w') | None => table_ok (table_of w') end) w.

(** The end of the loop, whatever failed before. *)
Definition leaves {A} (out : A -> option outcome) (m : L A) : Prop :=
  forall w, structure_ok (table_of w) -> wp (F := wholly) m (fun a w' => out a = Some Leave /\ table_of w' = no_watches) w.

Lemma safe_ret {A} (okv : A -> bool) x : safe okv (ret x).
Proof. intros w Hw. apply wp_ret. split; [apply Hw|done]. Qed.

Lemma safe_bind {A B} (okv : A -> bool) (okv' : B -> bool) (m : L A) k : safe okv m ->
  (forall a, okv a = true -> safe okv' (k a)) -> (forall a, okv a = false -> exists b, k a = ret b /\ okv' b = false) -> safe okv' (bind m k).
Proof.
  intros Hm Hk Hn w Hw. apply wp_bind. eapply wp_mono; [by apply Hm|]. intros a w' (Hs & Ht). destruct (okv a) eqn:Ha.
  - apply (Hk a Ha). by apply Ht.
  - destruct (Hn a Ha) as (b & -> & Hb). apply wp_ret. split; [done|congruence].
Qed.

Lemma safe_then {A B} (okv : B -> bool) (m : L A) k : safe always m -> (forall a, safe okv (k a)) -> safe okv (bind m k).
Proof. intros Hm Hk. eapply safe_bind; [exact Hm|auto|done]. Qed.

Lemma safe_try {A} (okv : A -> bool) (m : L bool) x (k : L A) : safe id m -> okv x = false -> safe okv k ->
  safe okv (bind m (fun ok => if negb ok then ret x else k)).
Proof. intros Hm Hx Hk. eapply safe_bind; [exact Hm| |]; intros [] ?; try done. by exists x. Qed.

Lemma safe_when b (m : L ()) : safe always m -> safe always (when b m).
Proof. intros Hm. destruct b; [done|]. apply safe_ret. Qed.

(** Steps of the loop's own fields. *)
Lemma safe_change f : (forall w, table_of (f w) = table_of w) -> safe always (change f).
Proof. intros Hf w Hw. apply wp_change. rewrite Hf. split; [apply Hw|done]. Qed.

Lemma safe_call c : safe always (call c).
Proof. by apply safe_change. Qed.

Lemma safe_look {A} (f : loop_state -> A) : safe always (look f).
Proof. intros w Hw. apply wp_look. split; [apply Hw|done]. Qed.

Lemma turns_ret o : is_again o = true -> turns Some (ret o).
Proof. destruct o; [|done]. intros _ w Hw. by apply wp_ret. Qed.

Lemma turns_bind {A B} (okv : A -> bool) (out : B -> option outcome) (m : L A) k : safe okv m ->
  (forall a, okv a = true -> turns out (k a)) -> (forall a, okv a = false -> leaves out (k a)) -> turns out (bind m k).
Proof.
  intros Hm Hk Hn w Hw. apply wp_bind. eapply wp_mono; [by apply Hm|]. intros a w' (Hs & Ht). destruct (okv a) eqn:Ha.
  - apply (Hk a Ha). by apply Ht.
  - eapply wp_mono; [by apply (Hn a Ha)|]. intros b w'' (-> & ->). done.
Qed.

Lemma turns_then {A B} (out : B -> option outcome) (m : L A) k : safe always m -> (forall a, turns out (k a)) -> turns out (bind m k).
Proof. intros Hm Hk. eapply turns_bind; [exact Hm|auto|done]. Qed.

(** [if (!m) { close(kq); ...; return; }] *)
Lemma turns_try {A} (out : A -> option outcome) (m : L bool) (e k : L A) : safe id m -> leaves out e -> turns out k ->
  turns out (bind m (fun ok => if negb ok then e else k)).
Proof. intros Hm Hx Hk. eapply turns_bind; [exact Hm| |]; by intros []. Qed.

Lemma leaves_turns {A} (out : A -> option outcome) m : leaves out m -> turns out m.
Proof. intros Hm w Hw. eapply wp_mono; [apply Hm; apply Hw|]. intros a w' (-> & ->). done. Qed.

Section turns.
Context (env : loop_env).
Context (Hopen : forall g n, fresh_open (sy_register (le_scan env g) n)) (Hcount : forall g, (length (sy_paths (le_scan env g)) <= ConfigState.MAX_SCAN_PATHS)%nat).

(** A step of the scanner's own state. *)
Lemma safe_scan {A} (okv : A -> bool) (m : scan_sys -> M A) : (forall g, good okv (m (le_scan env g))) -> safe okv (ScannerCycle.scan env m).
Proof.
  intros Hm w Hw. pose proof (Hm (lp_generation w) (lp_scan w) Hw) as H. unfold ScannerCycle.scan, wp in *. fold (sys_of env w) in H.
  destruct (m _ _) as [[a s]|]; [|done]. destruct H as (? & ? & _). done.
Qed.

Lemma safe_query {A} (f : nat -> A) : safe always (query env f).
Proof. apply safe_scan. intros g. apply good_ask. Qed.

(** One that changes the roots in a way of its own. *)
Lemma safe_scan_change f : (forall sys s, sn_table (f sys s) = sn_table s) -> safe always (ScannerCycle.scan env (fun sys => change (f sys))).
Proof. intros Hf w Hw. unfold ScannerCycle.scan, change, wp. split; unfold table_of, put_scan; cbn; rewrite Hf; [apply Hw|done]. Qed.

Lemma leaves_clear {A} (out : A -> option outcome) (k : () -> L A) :
  (forall w, table_of w = no_watches -> wp (F := wholly) (k tt) (fun a w' => out a = Some Leave /\ table_of w' = no_watches) w) -> leaves out (bind (clear_watches env) k).
Proof.
  intros Hk w Hw. apply wp_bind. unfold clear_watches, ScannerCycle.scan, change, wp at 1. cbn. apply Hk. unfold table_of, put_scan. cbn. by apply clear_watches_spec.
Qed.

Lemma leaves_call {A} (out : A -> option outcome) c (k : () -> L A) : leaves out (k tt) -> leaves out (bind (call c) k).
Proof. intros Hk w Hw. apply wp_bind, wp_change. by apply Hk. Qed.

Lemma leave_leaves : leaves Some (leave env).
Proof. apply leaves_call, leaves_clear. intros w Hw. by apply wp_ret. Qed.

Lemma leave_with_leaves reason : leaves Some (leave_with env reason).
Proof. apply leaves_call, leaves_clear. intros w Hw. by apply wp_bind, wp_change, wp_ret. Qed.
Hint Resolve leave_leaves leave_with_leaves safe_query safe_call safe_look safe_ret safe_when : scanner.

(** ** Cycles *)
Lemma safe_abort : safe always (should_abort_scan_cycle env).
Proof.
  apply safe_then; [auto with scanner|]. intros []; [apply safe_ret|]. apply safe_then; [auto with scanner|]. intros []; [apply safe_ret|].
  apply safe_then; [auto with scanner|]. intros b. apply safe_ret.
Qed.

Lemma safe_notify slots : safe always (notify_slots env slots).
Proof.
  induction slots as [|slot slots IH]; [apply safe_ret|]. cbn [notify_slots]. apply safe_then; [|by intros _]. apply safe_scan. intros g. apply good_mount_change.
Qed.

Lemma safe_collect root : safe always (collect env root).
Proof. apply safe_then; [auto with scanner|]. intros c. apply safe_then; [auto with scanner|]. intros _. apply safe_ret. Qed.

Lemma safe_release : safe always (release_mounts_if_idle env).
Proof. apply safe_then; [auto with scanner|]. intros b. auto with scanner. Qed.
Hint Resolve safe_abort safe_notify safe_collect safe_release : scanner.

(** Consecutive steps of which none can fail. *)
Ltac safe_steps := repeat (match goal with
  | |- safe _ (bind _ _) => apply safe_then; [auto with scanner|intros ?]
  | |- safe _ (if ?b then _ else _) => destruct b
  | |- safe _ (match ?x with _ => _ end) => destruct x
  end; auto with scanner).

Lemma safe_full_cycle startup : safe always (run_full_scan_cycle_impl env startup).
Proof. unfold run_full_scan_cycle_impl. safe_steps. Qed.

Lemma safe_targeted_cycle i : safe always (run_targeted_scan_cycle_impl env i).
Proof.
  unfold run_targeted_scan_cycle_impl. apply safe_then; [auto with scanner|]. intros w. destruct (scan_path_at _ i) as [p|]; [|apply safe_ret].
  apply safe_then; [auto with scanner|]. intros []; [apply safe_ret|]. apply safe_then; [apply safe_scan; intros g; apply good_mount_change|]. intros came.
  apply safe_then.
  { destruct came; [|apply safe_ret]. apply safe_then; [auto with scanner|]. intros now. by apply safe_scan_change. }
  intros _. apply safe_then; [auto with scanner|]. intros _. apply safe_then; [auto with scanner|]. intros []; [apply safe_ret|].
  apply safe_then; [auto with scanner|]. intros c. apply safe_then; [auto with scanner|]. intros []; [apply safe_ret|].
  apply safe_then; [by apply safe_scan_change|]. intros _. safe_steps.
Qed.

Lemma safe_guarded impl : safe always impl -> safe always (guarded_cycle env impl).
Proof.
  intros Hi. unfold guarded_cycle. do 3 (apply safe_then; [auto with scanner|intros ?]). apply safe_then; [case_match; auto with scanner|]. intros blocked.
  apply safe_then; [case_match; auto with scanner|]. intros r. apply safe_then; [auto with scanner|]. intros _.
  apply safe_then; [case_match; [auto with scanner|safe_steps]|]. intros r'. safe_steps.
Qed.

(** ** Shared steps *)
Lemma safe_drain : safe id (drain_events env).
Proof. apply safe_then; [apply safe_query|]. intros b. apply safe_scan. intros g. by apply good_drain. Qed.

Lemma safe_discard : safe id (discard_events env).
Proof. apply safe_then; [apply safe_query|]. intros b. apply safe_scan. intros g. apply good_weaken, good_discard. Qed.

Lemma safe_suspend : safe id (suspend_usb env).
Proof.
  apply safe_scan. intros g. apply good_then; [apply good_ask|]. intros memory. apply good_table. intros t Ht.
  destruct (suspend_spec memory (sy_paths (le_scan env g)) t Ht (Hcount g)) as (ok & t' & ? & ? & ? & _). by exists ok, t'.
Qed.

Lemma safe_resume : safe id (resume_usb env).
Proof. apply safe_then; [apply safe_query|]. intros now. apply safe_scan. intros g. by apply good_resume_usb. Qed.

Lemma safe_clear_dirty : safe always (clear_dirty env).
Proof. by apply safe_scan_change. Qed.

Lemma safe_timers f : safe always (ScannerCycle.scan env (fun _ => on_timers f)).
Proof. by apply safe_scan_change. Qed.

Lemma safe_roots f : safe always (ScannerCycle.scan env (fun _ => on_roots f)).
Proof. by apply safe_scan_change. Qed.

Lemma safe_rebuild_all : safe id (ScannerCycle.scan env rebuild_all_scan_root_watch_trees).
Proof. apply safe_scan. intros g. by apply good_rebuild_all. Qed.

Lemma safe_dirty i now imm : safe always (ScannerCycle.scan env (fun sys => schedule_dirty sys i now imm)).
Proof. apply safe_scan. intros g. apply good_schedule_dirty. Qed.
Hint Resolve safe_drain safe_discard safe_suspend safe_resume safe_clear_dirty safe_timers safe_roots safe_rebuild_all safe_dirty : scanner.

Lemma good_close_configs : good always close_config_files.
Proof. apply good_then; [apply good_look|]. intros w. apply good_then; [apply good_when, good_close_config|]. intros _. apply good_when, good_close_config. Qed.

Lemma safe_reopen_config now : safe always (ScannerCycle.scan env (fun sys => reopen_config_file_watch sys true now)).
Proof. apply safe_scan. intros g. apply good_reopen_config. Qed.

Lemma safe_reopen_manual now : safe always (ScannerCycle.scan env (fun sys => reopen_manual_file_watch sys now)).
Proof.
  apply safe_scan. intros g. apply good_then; [apply good_close_manual|]. intros _. apply good_then; [apply good_ask|]. intros opened.
  apply good_then; [by apply good_change|]. intros _. destruct opened; [|apply good_timers]. apply good_register_manual.
Qed.
Hint Resolve safe_reopen_config safe_reopen_manual : scanner.

Lemma turns_finish unstable reason : turns Some (finish_full_scan env unstable reason).
Proof.
  unfold finish_full_scan. apply turns_then; [auto with scanner|]. intros _.
  eapply turns_bind; [apply safe_rebuild_all| |].
  - intros [] ?; [|done]. apply turns_try; [apply safe_drain|apply leave_with_leaves|].
    apply turns_then; [auto with scanner|]. intros now. apply turns_then; [by apply safe_scan_change|]. intros _.
    apply turns_then; [auto with scanner|]. intros now'. apply turns_then; [auto with scanner|]. intros w. apply turns_then; [by apply safe_change|]. intros _. by apply turns_ret.
  - intros [] ?; [done|]. cbn [when_ok]. intros w Hw. apply wp_bind, wp_ret. by apply leave_with_leaves.
Qed.

Lemma turns_full_scan reason : turns Some (full_scan env reason).
Proof.
  apply turns_then; [apply safe_guarded, safe_full_cycle|]. intros r. case_match; [|apply turns_finish].
  apply turns_then; [auto with scanner|]. intros []; [by apply turns_ret|apply leaves_turns, leave_leaves].
Qed.

Lemma safe_pause_waits waits : safe id (pause_waits waits).
Proof.
  induction waits as [|[[]|] waits IH]; [apply safe_ret|done|apply safe_ret|]. apply safe_then; [apply safe_call|by intros _].
Qed.

Lemma safe_eject_pause : safe id (handle_usb_eject_pause env).
Proof.
  apply safe_then; [apply safe_query|]. intros p.
  assert (Hd : safe id (let* ok := suspend_usb env in
    if negb ok then ret false
    else
      let* _ := change (put_suspended true) in
      let* _ := call ExchangePause in
      let* ok := pause_waits p.2 in
      if negb ok then ret false
      else
        let* stop := query env (le_stop env) in
        let* asleep := (if stop : bool then ret true else query env (le_asleep env)) in
        let* ok := (if stop || asleep then ret true
                    else let* ok := resume_usb env in let* _ := when ok (change (put_suspended false)) in ret ok) in
        if negb ok then ret false else let* _ := call (StorePause USB_EJECT_IDLE) in ret true)).
  { apply safe_try; [apply safe_suspend|done|]. apply safe_then; [by apply safe_change|]. intros _. apply safe_then; [apply safe_call|]. intros _.
    apply safe_try; [apply safe_pause_waits|done|]. apply safe_then; [apply safe_query|]. intros stop. apply safe_then; [case_match; auto with scanner|]. intros asleep.
    apply safe_try; [|done|apply safe_then; [apply safe_call|]; intros _; apply safe_ret]. destruct (stop || asleep); [apply safe_ret|].
    eapply safe_bind; [apply safe_resume| |]; intros [] ?; try done; [|by exists false]. apply safe_then; [by apply safe_change|]. intros _. apply safe_ret. }
  destruct p.1; [apply safe_ret|done|done|]. apply safe_then; [apply safe_call|]. intros _. apply safe_ret.
Qed.

Lemma turns_sleep : turns Some (sleep_turn env).
Proof.
  apply turns_then; [apply safe_look|]. intros w. apply turns_try; [|apply leave_with_leaves|].
  - case_match; [apply safe_ret|]. apply safe_try; [apply safe_suspend|done|]. do 2 (apply safe_then; [auto with scanner|intros _]).
    apply safe_then; [by apply safe_change|]. intros _. apply safe_then; [apply safe_call|]. intros _. apply safe_then; [by apply safe_change|]. intros _. apply safe_ret.
  - apply turns_then; [apply safe_query|]. intros [[]|]; [by apply turns_ret|apply leaves_turns, leave_with_leaves|].
    apply turns_then; [apply safe_call|]. intros _. by apply turns_ret.
Qed.

Lemma leaves_some reason : leaves id (let* o := leave_with env reason in ret (Some o)).
Proof. intros w Hw. apply wp_bind. eapply wp_mono; [by apply leave_with_leaves|]. intros o w' [[= ->] ?]. by apply wp_ret. Qed.

Lemma turns_resume : turns id (resume_turn env).
Proof.
  apply turns_try; [apply safe_discard|apply leaves_some|]. apply turns_then; [apply safe_query|]. intros now.
  apply turns_then; [apply safe_scan; intros g; apply good_close_configs|]. intros _. do 4 (apply turns_then; [auto with scanner|intros _]).
  apply turns_try; [apply safe_resume|apply leaves_some|]. do 2 (apply turns_then; [by apply safe_change|intros _]). apply turns_then; [apply safe_query|]. intros now'.
  apply turns_then; [by apply safe_change|]. intros _. apply turns_then; [apply safe_call|]. intros _ w Hw. by apply wp_ret.
Qed.

Lemma safe_clear : safe always (clear_watches env).
Proof.
  intros w Hw. unfold clear_watches, ScannerCycle.scan, change, wp. cbn. unfold table_of, put_scan. cbn. rewrite clear_watches_spec by apply Hw. pose proof empty_ok as H. split; [apply H|done].
Qed.

Lemma safe_apply old new changed : safe id (apply_runtime_config_reload_effects env old new changed).
Proof.
  unfold apply_runtime_config_reload_effects. do 4 (apply safe_then; [auto with scanner|intros _]).
  apply safe_try; [|done|apply safe_then; [apply safe_call|intros _; apply safe_ret]]. case_match; [|apply safe_ret].
  apply safe_then; [apply safe_clear|]. intros _. apply safe_then; [by apply safe_scan_change|]. intros _. apply safe_rebuild_all.
Qed.

Lemma turns_reload : turns Some (reload_config env).
Proof.
  unfold reload_config. apply turns_then; [auto with scanner|]. intros _. apply turns_then; [apply safe_look|]. intros w. apply turns_then; [apply safe_query|].
  intros [[]|]; try by apply turns_ret. apply turns_then; [by apply safe_change|]. intros _. apply turns_then; [apply safe_look|]. intros w'.
  apply turns_try; [apply safe_apply|apply leave_with_leaves|]. apply turns_try; [case_match; [apply safe_discard|apply safe_ret]|apply leave_with_leaves|].
  do 2 (apply turns_then; [apply safe_call|intros _]). apply turns_then; [apply safe_query|]. intros now. apply turns_then; [by apply safe_change|]. intros _. by apply turns_ret.
Qed.

Lemma turns_cleanup i : turns Some (cleanup_root env i).
Proof.
  apply turns_then; [apply safe_call|]. intros _. apply turns_then; [apply safe_query|]. intros [].
  - cbn [negb]. apply turns_then; [apply safe_call|]. intros _. apply turns_then; [auto with scanner|]. intros _. apply turns_then; [apply safe_look|]. intros w.
    apply turns_then; [case_match; auto with scanner|]. intros _. do 2 (apply turns_then; [apply safe_call|intros _]). by apply turns_ret.
  - cbn [negb]. apply turns_then; [apply safe_call|]. intros _. by apply turns_ret.
Qed.

Lemma safe_reschedule i s : safe always (reschedule_root env i s).
Proof.
  apply safe_then; [auto with scanner|]. intros _. apply safe_then; [apply safe_query|]. intros now. apply safe_then; [auto with scanner|]. intros _. auto with scanner.
Qed.

Lemma turns_scan_root i : turns Some (scan_root_turn env i).
Proof.
  apply turns_then; [apply safe_look|]. intros w. apply turns_then; [auto with scanner|]. intros _. apply turns_then; [apply safe_guarded, safe_targeted_cycle|]. intros r.
  case_match.
  - apply turns_then; [apply safe_query|]. intros []; [|apply leaves_turns, leave_leaves]. apply turns_then; [apply safe_reschedule|]. intros _. by apply turns_ret.
  - apply turns_try; [case_match; [apply safe_scan; intros g; by apply good_rebuild_subtree|apply safe_ret]|apply leave_with_leaves|].
    apply turns_try; [apply safe_drain|apply leave_with_leaves|]. apply turns_then.
    { case_match; [|apply safe_ret]. apply safe_then; [apply safe_query|]. intros now. auto with scanner. }
    intros _. apply turns_then; [apply safe_look|]. intros w'. apply turns_then; [by apply safe_when, safe_scan_change|]. intros _. by apply turns_ret.
Qed.

Lemma safe_usb_probes now : safe id (process_usb_probes env now).
Proof.
  intros w Hw. unfold process_usb_probes, ScannerCycle.scan, wp. fold (sys_of env w). set (sys := sys_of env w).
  destruct (process_due_scanner_usb_mount_probes _ _ _ _ _ _) as [[due t] u]. destruct due.
  - match goal with |- context [rebuild_usb_watches sys ?s] => pose proof (good_rebuild_usb sys (Hopen _) s) as H; set (s1 := s) in * end.
    specialize (H Hw). unfold wp in H. destruct (rebuild_usb_watches sys s1) as [[ok s2]|]; [|done]. destruct H as (? & ? & _). done.
  - split; [apply Hw|done].
Qed.

Lemma turns_wait timeout : turns Some (wait_for_events env timeout).
Proof.
  do 2 (apply turns_then; [apply safe_query|intros ?]). eapply turns_bind; [apply safe_scan; intros g; by apply good_process| |].
  - intros [[] out] ?; [|done]. cbn [fst negb]. apply turns_then; [apply safe_query|]. intros []; [apply leaves_turns, leave_leaves|by apply turns_ret].
  - intros [[] out] ?; [done|]. apply leave_with_leaves.
Qed.

Lemma turns_action now action : turns Some (run_action env now action).
Proof.
  destruct action; cbn [run_action].
  - by apply turns_ret.
  - do 2 (apply turns_then; [auto with scanner|intros _]). apply turns_then; [apply safe_look|]. intros w. apply turns_then; [auto with scanner|]. intros _. by apply turns_ret.
  - do 2 (apply turns_then; [auto with scanner|intros _]). apply turns_then; [apply safe_look|]. intros w. apply turns_then; [auto with scanner|]. intros _. by apply turns_ret.
  - apply turns_reload.
  - apply turns_then; [auto with scanner|]. intros _. apply turns_then; [apply safe_call|]. intros _. apply turns_full_scan.
  - do 3 (apply turns_then; [apply safe_call|intros _]). by apply turns_ret.
  - apply turns_then; [apply safe_call|]. intros _. apply turns_then; [apply safe_query|]. intros now'. apply turns_then; [by apply safe_change|]. intros _. by apply turns_ret.
  - apply turns_full_scan.
  - apply turns_cleanup.
  - apply turns_scan_root.
  - apply turns_wait.
Qed.

Lemma safe_note blocked now : safe always (note_blocked blocked now).
Proof. apply safe_change. intros w. by destruct (update_scan_work_blocked _ _ _ _). Qed.

Lemma turns_due : turns Some (due_turn env).
Proof.
  apply turns_then; [apply safe_query|]. intros now. apply turns_then; [apply safe_look|]. intros before. apply turns_try; [apply safe_usb_probes|apply leave_with_leaves|].
  do 2 (apply turns_then; [apply safe_query|intros ?]). apply turns_then; [apply safe_look|]. intros w. apply turns_then; [auto with scanner|]. intros _.
  apply turns_then; [apply safe_note|]. intros _. apply turns_action.
Qed.

Lemma turns_awake : turns Some (awake_turn env).
Proof.
  do 2 (apply turns_then; [apply safe_query|intros ?]). apply turns_then; [apply safe_note|]. intros _. apply turns_then; [case_match; auto with scanner|].
  intros [[reason reset]|]; [|apply turns_due]. apply turns_then; [auto with scanner|]. intros _. apply turns_full_scan.
Qed.

Lemma turns_turn : turns Some (loop_turn env).
Proof.
  apply turns_then; [apply safe_query|]. intros []; [apply leaves_turns, leave_leaves|]. apply turns_try; [apply safe_eject_pause|apply leave_with_leaves|].
  apply turns_then; [apply safe_query|]. intros []; [apply turns_sleep|]. apply turns_then; [apply safe_look|]. intros w0 w Hw. apply wp_bind.
  assert (Hr : turns id (if lp_was_sleeping w0 then resume_turn env else ret None)).
  { case_match; [apply turns_resume|]. intros w' Hw'. by apply wp_ret. }
  eapply wp_mono; [by apply Hr|]. intros [o|] w1 Ho; cbn [id] in Ho; [by apply wp_ret|]. by apply turns_awake.
Qed.

Lemma turns_turns n : turns Some (loop_turns env n).
Proof.
  induction n as [|n IH]; [by apply turns_ret|]. cbn [loop_turns]. intros w Hw. apply wp_bind. eapply wp_mono; [by apply turns_turn|].
  intros [] w' Ho; [by apply IH|by apply wp_ret].
Qed.

(** Steps that leave the table as it is. *)
Definition still {A} (m : M A) : Prop := forall w, wp (F := wholly) m (fun _ w' => sn_table w' = sn_table w) w.

Lemma still_change f : (forall w, sn_table (f w) = sn_table w) -> still (change f).
Proof. intros Hf w. by apply wp_change. Qed.

Lemma scan_still_then {A B} (m : M A) (k : A -> M B) : still m -> (forall a, still (k a)) -> still (bind m k).
Proof. intros Hm Hk w. apply wp_bind. eapply wp_mono; [apply Hm|]. intros a w' <-. apply Hk. Qed.

Lemma still_when b (m : M ()) : still m -> still (when b m).
Proof. intros Hm w. apply wp_when; [intros _; apply Hm|done]. Qed.

Lemma scan_still_look {A} (f : scan_state -> A) : still (look f).
Proof. intros w. by apply wp_look. Qed.

Lemma still_close_configs : still close_config_files.
Proof.
  assert (Hc : forall i, still (close_config i)) by (intros i; apply scan_still_then; [by apply still_change|]; intros _; by apply still_change).
  apply scan_still_then; [apply scan_still_look|]. intros w. apply scan_still_then; [by apply still_when|]. intros _. by apply still_when.
Qed.

Lemma still_close_manual : still close_scanner_manual_file.
Proof.
  apply scan_still_then; [apply scan_still_look|]. intros fd. apply still_when, scan_still_then; [by apply still_change|]. intros _. by apply still_change.
Qed.

Lemma wp_still {A B} (m : scan_sys -> M A) (k : A -> L B) Q w : (forall sys, still (m sys)) ->
  (forall a w', table_of w' = table_of w -> wp (F := wholly) (k a) Q w') -> wp (F := wholly) (bind (ScannerCycle.scan env m) k) Q w.
Proof.
  intros Hm Hk. apply wp_bind. pose proof (Hm (sys_of env w) (lp_scan w)) as H. unfold ScannerCycle.scan, wp in *.
  destruct (m _ _) as [[a s]|]; [|done]. apply Hk. exact H.
Qed.

Lemma start_safe w : table_ok (table_of w) -> wp (F := wholly) (start_loop env) (fun ok w' => if ok : bool then table_ok (table_of w') else table_of w' = no_watches) w.
Proof.
  assert (H : turns (fun ok : bool => if ok then None else Some Leave) (start_loop env)).
  { unfold start_loop. apply turns_then; [apply safe_query|]. intros storage. apply turns_then; [by apply safe_change|]. intros _. apply turns_then; [apply safe_query|]. intros now.
    apply turns_then; [apply safe_scan; intros g; apply good_then; [apply good_timers|intros _; apply good_register_config]|]. intros _. apply turns_then; [apply safe_query|]. intros now'.
    apply turns_then; [apply safe_scan; intros g; apply good_register_manual|]. intros _. apply turns_then; [by apply safe_change|]. intros _.
    apply turns_try; [apply safe_rebuild_all| |].
    - apply leaves_call, leaves_clear. intros w1 Hw1. apply wp_bind, wp_change. unfold close_scanner_config_file.
      apply (wp_still (fun sys => close_config_files)); [intros; apply still_close_configs|]. intros [] w2 Hw2.
      apply (wp_still (fun sys => close_scanner_manual_file)); [intros; apply still_close_manual|]. intros [] w3 Hw3. apply wp_bind, wp_change, wp_ret. split; [done|].
      change (table_of (put_calls _ w3)) with (table_of w3). by rewrite Hw3, Hw2.
    - apply turns_then; [apply safe_call|]. intros _. apply turns_then; [apply safe_query|]. intros now2. apply turns_then; [apply safe_look|]. intros w2.
      apply turns_then; [by apply safe_change|]. intros _. apply turns_then; [apply safe_query|]. intros now3. do 3 (apply turns_then; [by apply safe_change|intros _]).
      intros w3 Hw3. by apply wp_ret. }
  intros Hw. eapply wp_mono; [by apply H|]. by intros [] w'.
Qed.
End turns.

(** ** The mutex and the claim *)

(** Whether the mutex of the cycles is held, and the claim on the library. *)
Definition held := (bool * bool)%type.

(** The calls that have to be made under both, or under the mutex. *)
Definition guard_step (s : held) (c : loop_call) : option held :=
  let '(locked, claimed) := s in
  match c with
  | LockCycle => if locked then None else Some (true, claimed)
  | BeginMutation => if locked && negb claimed then Some (locked, true) else None
  | EndMutation => if claimed then Some (locked, false) else None
  | UnlockCycle => if locked && negb claimed then Some (false, claimed) else None
  | CleanupLostSources _ | CollectCandidates _ | ProcessCandidates _ | ReconcileMissingGames | ReleaseScanMounts => if locked && claimed then Some s else None
  | ServiceInstall_ => if locked then Some s else None
  | _ => Some s
  end.

Fixpoint guard_run (s : held) (cs : list loop_call) : option held :=
  match cs with [] => Some s | c :: cs' => match guard_step s c with Some s' => guard_run s' cs' | None => None end end.

Lemma guard_run_app s cs cs' : guard_run s (cs ++ cs') = match guard_run s cs with Some s' => guard_run s' cs' | None => None end.
Proof. revert s. induction cs as [|c cs IH]; intros s; [done|]. cbn. by destruct (guard_step s c). Qed.

(** A step that begins holding [s] and ends holding [s']. *)
Definition emits {A} (s : held) (s' : A -> held) (m : L A) : Prop :=
  forall w, wp (F := partly) m (fun a w' => exists cs, lp_calls w' = lp_calls w ++ cs /\ guard_run s cs = Some (s' a)) w.
Definition quiet {A} (s : held) (m : L A) : Prop := emits s (fun _ => s) m.

Lemma loop_emits_bind {A B} s t s' (m : L A) (k : A -> L B) : emits s t m -> (forall a, emits (t a) s' (k a)) -> emits s s' (bind m k).
Proof.
  intros Hm Hk w. apply wp_bind. eapply wp_mono; [apply Hm|]. intros a w1 (cs & Hc & Hr). eapply wp_mono; [apply Hk|]. intros b w2 (cs' & Hc' & Hr').
  exists (cs ++ cs'). split; [by rewrite Hc', Hc, app_assoc|]. by rewrite guard_run_app, Hr.
Qed.

Lemma quiet_bind {A B} s (m : L A) (k : A -> L B) : quiet s m -> (forall a, quiet s (k a)) -> quiet s (bind m k).
Proof. intros Hm Hk. by eapply loop_emits_bind. Qed.

Lemma emits_ret_bind {A B} s s' (x : A) (k : A -> L B) : emits s s' (k x) -> emits s s' (bind (ret x) k).
Proof. exact (fun H => H). Qed.

Lemma quiet_same {A} s (m : L A) : (forall w, wp (F := partly) m (fun _ w' => lp_calls w' = lp_calls w) w) -> quiet s m.
Proof. intros Hm w. eapply wp_mono; [apply Hm|]. intros a w' ->. exists []. split; [by rewrite app_nil_r|done]. Qed.

Lemma quiet_ret {A} s (x : A) : quiet s (ret x).
Proof. apply quiet_same. intros w. by apply wp_ret. Qed.
Lemma quiet_look {A} s (f : loop_state -> A) : quiet s (look f).
Proof. apply quiet_same. intros w. by apply wp_look. Qed.
Lemma quiet_change s f : (forall w, lp_calls (f w) = lp_calls w) -> quiet s (change f).
Proof. intros Hf. apply quiet_same. intros w. by apply wp_change. Qed.
Lemma loop_emits_call s s' c : guard_step s c = Some s' -> emits s (fun _ => s') (call c).
Proof. intros Hc w. apply wp_change. exists [c]. split; [done|]. cbn. by rewrite Hc. Qed.
Lemma quiet_call s c : guard_step s c = Some s -> quiet s (call c).
Proof. apply loop_emits_call. Qed.
Lemma quiet_when s b (m : L ()) : quiet s m -> quiet s (when b m).
Proof. intros Hm. destruct b; [done|]. apply quiet_ret. Qed.

Section guarded.
Context (env : loop_env).

Lemma quiet_scan {A} s (m : scan_sys -> M A) : quiet s (ScannerCycle.scan env m).
Proof. apply quiet_same. intros w. unfold ScannerCycle.scan, wp. by destruct (m _ _) as [[a x]|]. Qed.
Lemma quiet_query {A} s (f : nat -> A) : quiet s (query env f).
Proof. apply quiet_scan. Qed.
Hint Resolve quiet_ret quiet_look quiet_change quiet_call quiet_when quiet_scan quiet_query : scanner.

Ltac quiet_steps := auto with scanner; repeat (match goal with
  | |- quiet _ (bind _ _) => apply quiet_bind; [|intros ?]
  | |- quiet _ (when _ _) => apply quiet_when
  | |- quiet _ (if ?b then _ else _) => destruct b
  | |- quiet _ (match ?x with _ => _ end) => destruct x
  | |- quiet _ (change _) => by apply quiet_change
  | |- quiet _ (call _) => by apply quiet_call
  end; auto with scanner).

Lemma quiet_abort s : quiet s (should_abort_scan_cycle env).
Proof. unfold should_abort_scan_cycle. quiet_steps. Qed.
Hint Resolve quiet_abort : scanner.

Lemma quiet_notify s slots : quiet s (notify_slots env slots).
Proof. induction slots as [|slot slots IH]; [apply quiet_ret|]. cbn [notify_slots]. quiet_steps. Qed.
Hint Resolve quiet_notify : scanner.

Lemma quiet_full startup : quiet (true, true) (run_full_scan_cycle_impl env startup).
Proof. unfold run_full_scan_cycle_impl, collect, release_mounts_if_idle. quiet_steps. Qed.

Lemma quiet_targeted i : quiet (true, true) (run_targeted_scan_cycle_impl env i).
Proof. unfold run_targeted_scan_cycle_impl, collect, release_mounts_if_idle. quiet_steps. Qed.

Lemma quiet_guarded impl : quiet (true, true) impl -> quiet (false, false) (guarded_cycle env impl).
Proof.
  intros Hi. unfold guarded_cycle. apply (loop_emits_bind _ (fun _ => (true, false))); [by apply loop_emits_call|]. intros _.
  apply (loop_emits_bind _ (fun _ => (true, false))); [apply quiet_query|]. intros claimed.
  assert (Hend : forall r : bool * option bool, emits (true, false) (fun _ => (false, false))
    (let* r := (if r.1 : bool then ret r
                else
                  let* stop := query env (le_stop env) in
                  if stop then ret r else let* asleep := query env (le_asleep env) in ret (if asleep then r else (true, Some true))) in
     let* _ := call UnlockCycle in ret r)).
  { intros r. apply (loop_emits_bind _ (fun _ => (true, false))); [change (quiet (true, false) (if r.1 : bool then ret r
      else let* stop := query env (le_stop env) in if stop then ret r else let* asleep := query env (le_asleep env) in ret (if asleep then r else (true, Some true)))); quiet_steps|].
    intros r'. apply (loop_emits_bind _ (fun _ => (false, false))); [by apply loop_emits_call|]. intros _. apply quiet_ret. }
  destruct claimed.
  - apply (loop_emits_bind _ (fun _ => (true, true))); [by apply loop_emits_call|]. intros _. apply (loop_emits_bind _ (fun _ => (true, true))); [apply quiet_query|]. intros blocked.
    apply (loop_emits_bind _ (fun _ => (true, true))); [destruct blocked; [apply quiet_ret|exact Hi]|]. intros r.
    apply (loop_emits_bind _ (fun _ => (true, false))); [by apply loop_emits_call|]. intros _. apply Hend.
  - apply emits_ret_bind, emits_ret_bind. apply (loop_emits_bind _ (fun _ => (true, false))); [apply quiet_ret|]. intros r. apply emits_ret_bind, Hend.
Qed.

Lemma quiet_cycle_full startup : quiet (false, false) (run_full_scan_cycle env startup).
Proof. apply quiet_guarded, quiet_full. Qed.
Lemma quiet_cycle_targeted i : quiet (false, false) (run_targeted_scan_cycle env i).
Proof. apply quiet_guarded, quiet_targeted. Qed.
Hint Resolve quiet_cycle_full quiet_cycle_targeted : scanner.

Lemma quiet_leave s : quiet s (leave env).
Proof. destruct s. unfold leave, clear_watches. quiet_steps. Qed.
Lemma quiet_leave_with s reason : quiet s (leave_with env reason).
Proof. destruct s. unfold leave_with, clear_watches, request_scanner_shutdown. quiet_steps. Qed.
Hint Resolve quiet_leave quiet_leave_with : scanner.

Lemma quiet_finish unstable reason : quiet (false, false) (finish_full_scan env unstable reason).
Proof. unfold finish_full_scan, clear_dirty, drain_events, next_batches, when_ok. quiet_steps. Qed.
Hint Resolve quiet_finish : scanner.

Lemma quiet_full_scan reason : quiet (false, false) (full_scan env reason).
Proof. unfold full_scan. quiet_steps. Qed.
Hint Resolve quiet_full_scan : scanner.

Lemma quiet_eject_pause : quiet (false, false) (handle_usb_eject_pause env).
Proof.
  assert (Hw : forall waits, quiet (false, false) (pause_waits waits)).
  { induction waits as [|[[]|] waits IH]; cbn [pause_waits]; quiet_steps. }
  unfold handle_usb_eject_pause, suspend_usb, resume_usb. quiet_steps.
Qed.

Lemma quiet_sleep : quiet (false, false) (sleep_turn env).
Proof. unfold sleep_turn, suspend_usb, clear_dirty. quiet_steps. Qed.

Lemma quiet_resume : quiet (false, false) (resume_turn env).
Proof. unfold resume_turn, discard_events, next_batches, close_scanner_config_file, resume_usb. quiet_steps. Qed.

Lemma quiet_reload : quiet (false, false) (reload_config env).
Proof. unfold reload_config, apply_runtime_config_reload_effects, clear_watches, discard_events, next_batches. quiet_steps. Qed.

Lemma quiet_cleanup i : quiet (false, false) (cleanup_root env i).
Proof.
  unfold cleanup_root. apply (loop_emits_bind _ (fun _ => (true, false))); [by apply loop_emits_call|]. intros _.
  apply (loop_emits_bind _ (fun _ => (true, false))); [apply quiet_query|]. intros []; cbn [negb].
  - apply (loop_emits_bind _ (fun _ => (true, true))); [by apply loop_emits_call|]. intros _. apply (loop_emits_bind _ (fun _ => (true, true))); [apply quiet_scan|]. intros _.
    apply (loop_emits_bind _ (fun _ => (true, true))); [apply quiet_look|]. intros w. apply (loop_emits_bind _ (fun _ => (true, true))).
    { destruct (scan_path_at _ _); [by apply loop_emits_call|apply quiet_ret]. }
    intros _. apply (loop_emits_bind _ (fun _ => (true, false))); [by apply loop_emits_call|]. intros _. apply (loop_emits_bind _ (fun _ => (false, false))); [by apply loop_emits_call|].
    intros _. apply quiet_ret.
  - apply (loop_emits_bind _ (fun _ => (false, false))); [by apply loop_emits_call|]. intros _. apply quiet_ret.
Qed.

Lemma quiet_scan_root i : quiet (false, false) (scan_root_turn env i).
Proof. unfold scan_root_turn, reschedule_root, drain_events, next_batches. quiet_steps. Qed.

Lemma quiet_install : quiet (false, false) (let* _ := call LockCycle in let* _ := call ServiceInstall_ in let* _ := call UnlockCycle in ret Again).
Proof.
  apply (loop_emits_bind _ (fun _ => (true, false))); [by apply loop_emits_call|]. intros _. apply (loop_emits_bind _ (fun _ => (true, false))); [by apply loop_emits_call|]. intros _.
  apply (loop_emits_bind _ (fun _ => (false, false))); [by apply loop_emits_call|]. intros _. apply quiet_ret.
Qed.
Hint Resolve quiet_eject_pause quiet_sleep quiet_resume quiet_reload quiet_cleanup quiet_scan_root quiet_install : scanner.

Lemma quiet_action now action : quiet (false, false) (run_action env now action).
Proof. destruct action; cbn [run_action]; auto with scanner; unfold wait_for_events; quiet_steps. Qed.
Hint Resolve quiet_action : scanner.

Lemma quiet_turn : quiet (false, false) (loop_turn env).
Proof.
  assert (Hn : forall b now, quiet (false, false) (note_blocked b now)).
  { intros b now. apply quiet_change. intros w. by destruct (update_scan_work_blocked _ _ _ _). }
  unfold loop_turn, awake_turn, requested_scan, due_turn, process_usb_probes. quiet_steps.
Qed.

Lemma quiet_loop n : quiet (false, false) (sm_scanner_run_loop env n).
Proof.
  assert (Ht : quiet (false, false) (loop_turns env n)).
  { induction n as [|n IH]; cbn [loop_turns]; [apply quiet_ret|]. pose proof quiet_turn. quiet_steps. }
  unfold sm_scanner_run_loop, open_queue, start_loop, clear_watches, close_scanner_config_file, request_scanner_shutdown. quiet_steps.
Qed.
End guarded.

(** ** A scan cut short *)

(** Cycles neither reload the configuration nor change the number of roots. *)
Definition steady {A} (m : L A) : Prop :=
  forall w, wp (F := partly) m (fun _ w' => lp_generation w' = lp_generation w /\ length (sn_roots (lp_scan w')) = length (sn_roots (lp_scan w))) w.

Lemma steady_bind {A B} (m : L A) (k : A -> L B) : steady m -> (forall a, steady (k a)) -> steady (bind m k).
Proof.
  intros Hm Hk w. apply wp_bind. eapply wp_mono; [apply Hm|]. intros a w1 [H1 H2]. eapply wp_mono; [apply Hk|]. intros b w2 [-> ->]. done.
Qed.
Lemma steady_ret {A} (x : A) : steady (ret x).
Proof. intros w. by apply wp_ret. Qed.
Lemma steady_look {A} (f : loop_state -> A) : steady (look f).
Proof. intros w. by apply wp_look. Qed.
Lemma steady_call c : steady (call c).
Proof. intros w. by apply wp_change. Qed.
Lemma steady_when b (m : L ()) : steady m -> steady (when b m).
Proof. intros Hm. destruct b; [done|]. apply steady_ret. Qed.

Section interrupted.
Context (env : loop_env).

Lemma steady_scan {A} (m : scan_sys -> M A) :
  (forall sys s, wp (F := partly) (m sys) (fun _ s' => length (sn_roots s') = length (sn_roots s)) s) -> steady (ScannerCycle.scan env m).
Proof.
  intros Hm w. specialize (Hm (sys_of env w) (lp_scan w)). unfold ScannerCycle.scan, wp in *. by destruct (m _ _) as [[a s]|].
Qed.
Lemma steady_query {A} (f : nat -> A) : steady (query env f).
Proof. by apply steady_scan. Qed.
Lemma steady_mount path : steady (ScannerCycle.scan env (fun sys => notify_mount_change sys path false)).
Proof.
  apply steady_scan. intros sys s. unfold notify_mount_change, wp.
  pose proof (mount_change_kept (usb_answers_at sys (sn_asked s) (sn_table s)) (sy_paths sys) path false (sn_usb s)) as H. apply Forall2_length in H.
  destruct (notify_scanner_usb_mount_change _ _ _ _ _) as [b u]. symmetry. exact H.
Qed.
Hint Resolve steady_ret steady_look steady_call steady_when steady_query steady_mount : scanner.

Ltac steady_steps := auto with scanner; repeat (match goal with
  | |- steady (bind _ _) => apply steady_bind; [|intros ?]
  | |- steady (when _ _) => apply steady_when
  | |- steady (if ?b then _ else _) => destruct b
  | |- steady (match ?x with _ => _ end) => destruct x
  end; auto with scanner).

Lemma schedule_slot_except_length paths all pending wait slot excluded now i roots :
  length (schedule_slot_from paths all pending wait slot excluded now i roots) = length roots.
Proof.
  revert roots i. induction paths as [|p ps IH]; intros roots i; [done|]. cbn [schedule_slot_from]. rewrite IH. repeat case_match; try done.
  unfold schedule_scan_root_dirty. case_match; [|done]. apply length_alter.
Qed.

Lemma steady_targeted i : steady (run_targeted_scan_cycle env i).
Proof.
  unfold run_targeted_scan_cycle, guarded_cycle, run_targeted_scan_cycle_impl, should_abort_scan_cycle, collect, release_mounts_if_idle. steady_steps.
  - apply steady_scan. intros sys x. apply wp_change. apply schedule_slot_except_length.
  - apply steady_scan. intros sys x. apply wp_change. unfold count_scanned_root, sn_roots. cbn. case_match; [|done]. apply length_alter.
Qed.

(** The root as its scan begins. *)
Definition root_taken (i : Z) (w : loop_state) : loop_state :=
  put_scan (put_roots (on_root i (fun s => clear_scan_root_watch_tree_state (set_dirty false 0 (set_cleanup false s))) (sn_roots (lp_scan w))) (lp_scan w)) w.

Lemma query_run {A B} (f : nat -> A) (k : A -> L B) w :
  bind (query env f) k w = k (f (sn_asked (lp_scan w))) (put_scan (put_asked (S (sn_asked (lp_scan w))) (lp_scan w)) w).
Proof. done. Qed.

Lemma scan_root_turn_unfinished i w u w1 : run_targeted_scan_cycle env i (root_taken i w) = Some ((false, u), w1) ->
  scan_root_turn env i w =
    (let* asleep := query env (le_asleep env) in
     if asleep : bool then let* _ := reschedule_root env i (root_at (sn_roots (lp_scan w)) i) in ret Again else leave env) w1.
Proof.
  intros Hr. unfold scan_root_turn. unfold bind at 1, look. unfold id. unfold bind at 1, ScannerCycle.scan at 1, on_roots, change.
  change (put_scan _ w) with (root_taken i w). unfold bind at 1. by rewrite Hr.
Qed.

Lemma reschedule_root_spec i s w root : scan_path_at (paths_of env w) i = Some root -> (Z.to_nat i < length (sn_roots (lp_scan w)))%nat ->
  (strlen (rt_rebuild_path s) < MAX_PATH)%nat ->
  wp (F := wholly) (reschedule_root env i s) (fun _ w' => rt_dirty (root_at (sn_roots (lp_scan w')) i) = true /\
    (rt_cleanup_pending s = true -> rt_cleanup_pending (root_at (sn_roots (lp_scan w')) i) = true) /\
    (rt_watch_tree_stale s = true -> let s' := root_at (sn_roots (lp_scan w')) i in
      rt_watch_tree_stale s' = true /\ rt_rebuild_depth s' = rt_rebuild_depth s /\ rt_rebuild_kind s' = rt_rebuild_kind s /\ rt_rebuild_path s' = rt_rebuild_path s)) w.
Proof.
  intros Hp Hl Hs. unfold reschedule_root. apply wp_bind.
  assert (H1 : wp (F := wholly) (when (rt_cleanup_pending s) (ScannerCycle.scan env (fun _ => on_roots (schedule_scan_root_cleanup i))))
    (fun _ w' => lp_generation w' = lp_generation w /\ length (sn_roots (lp_scan w')) = length (sn_roots (lp_scan w)) /\
      (rt_cleanup_pending s = true -> rt_cleanup_pending (root_at (sn_roots (lp_scan w')) i) = true)) w).
  { apply wp_when; [|by intros ->]. intros ->. unfold ScannerCycle.scan, on_roots, change, wp, sn_roots. cbn. unfold schedule_scan_root_cleanup.
    rewrite on_root_at by done. split_and!; [done|apply length_alter|done]. }
  eapply wp_mono; [exact H1|]. intros _ w1 (Hg1 & Hl1 & Hc1). apply wp_bind. unfold query at 1, ScannerCycle.scan at 1, ask, wp at 1. cbn.
  set (w2 := put_scan _ w1). set (now := le_now env _). apply wp_bind.
  assert (H2 : wp (F := wholly) (ScannerCycle.scan env (fun sys => schedule_dirty sys i now true))
    (fun _ w' => length (sn_roots (lp_scan w')) = length (sn_roots (lp_scan w)) /\ rt_dirty (root_at (sn_roots (lp_scan w')) i) = true /\
      (rt_cleanup_pending s = true -> rt_cleanup_pending (root_at (sn_roots (lp_scan w')) i) = true)) w2).
  { unfold ScannerCycle.scan, schedule_dirty, change, wp, sys_of. cbn. unfold sn_roots. cbn. unfold schedule_scan_root_dirty. rewrite Hg1. unfold paths_of, sys_of in Hp. rewrite Hp.
    unfold on_root at 1. rewrite length_alter. rewrite !on_root_at by (fold (sn_roots (lp_scan w1)); lia). split; [done|]. split; [apply mark_dirty_ready|].
    intros Hc. apply mark_dirty_kept. auto. }
  eapply wp_mono; [exact H2|]. intros _ w3 (Hl3 & Hd3 & Hc3). apply wp_when; [|intros ->; by split_and!]. intros Hst. rewrite Hst.
  unfold ScannerCycle.scan, on_roots, change, wp, sn_roots. cbn. rewrite on_root_at by (fold (sn_roots (lp_scan w3)); lia).
  rewrite !strlcpy_fits by (rewrite ?strlcpy_fits; done). by split_and!.
Qed.
End interrupted.

(** ** From a turn to the next one awake *)

(** A turn up to the point where it looks for work: how it ended, or [None] when it goes on. *)
Definition turn_start (env : loop_env) : L (option outcome) :=
  let* stop := query env (le_stop env) in
  if stop : bool then let* o := leave env in ret (Some o)
  else
    let* ok := handle_usb_eject_pause env in
    if negb ok then let* o := leave_with env "USB eject watcher pause failed" in ret (Some o)
    else
      let* asleep := query env (le_asleep env) in
      if asleep : bool then let* o := sleep_turn env in ret (Some o)
      else
        let* w := look id in
        if lp_was_sleeping w then resume_turn env else ret None.

Section awake.
Context (env : loop_env).

Lemma loop_turn_start w : loop_turn env w = (let* r := turn_start env in match r with Some o => ret o | None => awake_turn env end) w.
Proof.
  unfold loop_turn, turn_start, bind, look, ret. destruct (query env (le_stop env) w) as [[[] w1]|]; [by destruct (leave env w1) as [[]|]| |done].
  destruct (handle_usb_eject_pause env w1) as [[[] w2]|]; cbn [negb]; [|by destruct (leave_with _ _ w2) as [[]|]|done].
  destruct (query env (le_asleep env) w2) as [[[] w3]|]; [by destruct (sleep_turn env w3) as [[]|]| |done]. unfold id. by destruct (lp_was_sleeping w3).
Qed.

(** Steps that leave [was_sleeping] as it is. *)
Definition flag_kept {A} (m : L A) : Prop := forall w, wp (F := partly) m (fun _ w' => lp_was_sleeping w' = lp_was_sleeping w) w.

Lemma flag_bind {A B} (m : L A) (k : A -> L B) : flag_kept m -> (forall a, flag_kept (k a)) -> flag_kept (bind m k).
Proof.
  intros Hm Hk w. apply wp_bind. eapply wp_mono; [apply Hm|]. intros a w1 H1. eapply wp_mono; [apply Hk|]. intros b w2 ->. done.
Qed.
Lemma flag_ret {A} (x : A) : flag_kept (ret x).
Proof. intros w. by apply wp_ret. Qed.
Lemma flag_scan {A} (m : scan_sys -> M A) : flag_kept (ScannerCycle.scan env m).
Proof. intros w. unfold ScannerCycle.scan, wp. by destruct (m _ _) as [[a s]|]. Qed.
Lemma flag_change f : (forall w, lp_was_sleeping (f w) = lp_was_sleeping w) -> flag_kept (change f).
Proof. intros Hf w. apply wp_change. apply Hf. Qed.
Lemma flag_call c : flag_kept (call c).
Proof. by apply flag_change. Qed.
Lemma flag_when b (m : L ()) : flag_kept m -> flag_kept (when b m).
Proof. intros Hm. destruct b; [done|]. apply flag_ret. Qed.
Hint Resolve flag_ret flag_scan flag_call flag_when : scanner.

Lemma flag_waits waits : flag_kept (pause_waits waits).
Proof. induction waits as [|[[]|] waits IH]; cbn [pause_waits]; auto with scanner. apply flag_bind; [auto with scanner|by intros _]. Qed.
Hint Resolve flag_waits : scanner.

Ltac flag_steps := auto with scanner; repeat (match goal with
  | |- flag_kept (bind _ _) => apply flag_bind; [|intros ?]
  | |- flag_kept (change _) => by apply flag_change
  | |- flag_kept (when _ _) => apply flag_when
  | |- flag_kept (query _ _) => apply flag_scan
  | |- flag_kept (if ?b then _ else _) => destruct b
  | |- flag_kept (match ?x with _ => _ end) => destruct x
  end; auto with scanner).

Lemma flag_pause : flag_kept (handle_usb_eject_pause env).
Proof. unfold handle_usb_eject_pause, suspend_usb, resume_usb. flag_steps. Qed.

(** A full scan is dated [RUNTIME_RESUME_GRACE_US] after the clock that was just read. *)
Definition resync_dated (w : loop_state) : Prop :=
  lp_next_full_resync_us w = u64 (le_now env (pred (sn_asked (lp_scan w))) + RUNTIME_RESUME_GRACE_US).

Lemma turn_wp_any {A} (m : L A) w : wp (F := partly) m (fun _ _ => True) w.
Proof. unfold wp. by destruct (m w) as [[a w']|]. Qed.

Lemma wp_skip {A B} (m : L A) (k : A -> L B) Q w : (forall a w', wp (F := partly) (k a) Q w') -> wp (F := partly) (bind m k) Q w.
Proof. intros Hk. apply wp_bind. eapply wp_mono; [apply turn_wp_any|]. intros a w' _. apply Hk. Qed.

Lemma leave_result w : wp (F := partly) (leave env) (fun o _ => o = Leave) w.
Proof. unfold leave. apply wp_skip. intros _ w1. apply wp_skip. intros _ w2. by apply wp_ret. Qed.
Lemma leave_with_result reason w : wp (F := partly) (leave_with env reason) (fun o _ => o = Leave) w.
Proof. unfold leave_with. do 3 (apply wp_skip; intros _ ?). by apply wp_ret. Qed.

(** A turn asleep is marked as one. *)
Lemma sleep_marks w : wp (F := partly) (sleep_turn env) (fun o w' => o = Again -> lp_was_sleeping w' = true) w.
Proof.
  unfold sleep_turn. apply wp_bind, wp_look. unfold id. apply wp_bind.
  eapply (wp_mono _ (fun ok w' => ok = true -> lp_was_sleeping w' = true)).
  { destruct (lp_was_sleeping w) eqn:Hw; [by apply wp_ret|]. apply wp_skip. intros [] w1; cbn [negb]; [|by apply wp_ret].
    do 4 (apply wp_skip; intros _ ?). by apply wp_bind, wp_change, wp_ret. }
  intros ok w1 H1. destruct ok; cbn [negb].
  - specialize (H1 eq_refl). apply wp_bind. eapply wp_mono; [apply (flag_scan (fun _ => ask (le_select env)))|]. intros [[]|] w2 H2.
    + apply wp_ret. congruence.
    + eapply wp_mono; [apply leave_with_result|]. by intros o w3 ->.
    + apply wp_bind, wp_change, wp_ret. cbn. congruence.
  - eapply wp_mono; [apply leave_with_result|]. by intros o w2 ->.
Qed.

Lemma failed_result (m : L outcome) (Q : option outcome -> loop_state -> Prop) w :
  wp (F := partly) m (fun o _ => o = Leave) w -> (forall w', Q (Some Leave) w') -> wp (F := partly) (let* o := m in ret (Some o)) Q w.
Proof. intros Hm HQ. apply wp_bind. eapply wp_mono; [exact Hm|]. intros o w' ->. apply wp_ret, HQ. Qed.

(** Waking dates a full scan. *)
Lemma resume_dates w : wp (F := partly) (resume_turn env) (fun r w' => r <> Some Again /\ (r = None -> resync_dated w')) w.
Proof.
  unfold resume_turn. apply wp_skip. intros [] w1; cbn [negb]; [|by apply failed_result; [apply leave_with_result|]].
  do 6 (apply wp_skip; intros ? ?). apply wp_skip. intros [] w2; cbn [negb]; [|by apply failed_result; [apply leave_with_result|]].
  by apply wp_bind, wp_change, wp_bind, wp_change, wp_bind, wp_bind, wp_change, wp_bind, wp_change, wp_ret.
Qed.

(** How a turn begins: one that ends there and goes on was asleep, and the first awake after
    sleep dates a full scan. *)
Lemma turn_start_spec w : wp (F := partly) (turn_start env) (fun r w' =>
  (r = Some Again -> lp_was_sleeping w' = true) /\ (r = None -> lp_was_sleeping w = true -> resync_dated w')) w.
Proof.
  unfold turn_start. apply wp_bind. eapply wp_mono; [apply (flag_scan (fun _ => ask (le_stop env)))|]. intros [] w1 H1; [by apply failed_result; [apply leave_result|]|].
  apply wp_bind. eapply wp_mono; [apply flag_pause|]. intros [] w2 H2; cbn [negb]; [|by apply failed_result; [apply leave_with_result|]].
  apply wp_bind. eapply wp_mono; [apply (flag_scan (fun _ => ask (le_asleep env)))|]. intros [] w3 H3.
  - apply wp_bind. eapply wp_mono; [apply sleep_marks|]. intros o w4 H4. apply wp_ret. split; [|done]. intros [= ->]. auto.
  - apply wp_bind, wp_look. unfold id. destruct (lp_was_sleeping w3) eqn:Hs.
    + eapply wp_mono; [apply resume_dates|]. intros r w4 [H4 H5]. split; [done|auto].
    + apply wp_ret. split; [done|]. intros _ Hw. congruence.
Qed.

(** From one turn that slept to the one that wakes. *)
Definition slept : loop_state -> loop_state -> Prop := rtc (fun a b => turn_start env a = Some (Some Again, b)).

Lemma slept_marks w w' : slept w w' -> w' = w \/ lp_was_sleeping w' = true.
Proof.
  intros H. apply rtc_inv_r in H as [->|(x & _ & H)]; [by left|right]. exact (proj1 (wp_result _ _ _ _ _ (turn_start_spec x) H) eq_refl).
Qed.

(** *** What a turn without sleep before it keeps *)
Context (Hopen : forall g n, fresh_open (sy_register (le_scan env g) n)) (Hcount : forall g, (length (sy_paths (le_scan env g)) <= ConfigState.MAX_SCAN_PATHS)%nat).

Definition keeps {A} (okv : A -> bool) (m : L A) : Prop := forall w, table_ok (table_of w) ->
  wp (F := partly) m (fun a w' => (okv a = true -> table_ok (table_of w')) /\ roots_kept (sn_roots (lp_scan w)) (sn_roots (lp_scan w'))) w.

Lemma flags_keep_ret {A} (okv : A -> bool) x : keeps okv (ret x).
Proof. intros w Hw. by apply wp_ret. Qed.

Lemma keeps_then {A B} (okv : B -> bool) (m : L A) k : keeps always m -> (forall a, keeps okv (k a)) -> keeps okv (bind m k).
Proof.
  intros Hm Hk w Hw. apply wp_bind. eapply wp_mono; [by apply Hm|]. intros a w1 [H1 H2].
  eapply wp_mono; [apply Hk; by apply H1|]. intros b w2 [H3 H4]. split; [done|by etrans].
Qed.

(** [if (!m) return false;] *)
Lemma flags_keep_try (m k : L bool) : keeps id m -> keeps id k -> keeps id (bind m (fun ok => if negb ok then ret false else k)).
Proof.
  intros Hm Hk w Hw. apply wp_bind. eapply wp_mono; [by apply Hm|]. intros [] w1 [H1 H2]; cbn [negb]; [|by apply wp_ret].
  eapply wp_mono; [apply Hk; by apply H1|]. intros b w2 [H3 H4]. split; [done|by etrans].
Qed.

Lemma keeps_scan {A} (okv : A -> bool) (m : scan_sys -> M A) : (forall g, good okv (m (le_scan env g))) -> keeps okv (ScannerCycle.scan env m).
Proof.
  intros Hm w Hw. pose proof (Hm (lp_generation w) (lp_scan w) Hw) as H. unfold ScannerCycle.scan, wp in *. fold (sys_of env w) in H.
  destruct (m _ _) as [[a s]|]; [|done]. by destruct H as (_ & ? & ?).
Qed.

Lemma keeps_query {A} (f : nat -> A) : keeps always (query env f).
Proof. apply keeps_scan. intros g. apply good_ask. Qed.

Lemma keeps_change f : (forall w, lp_scan (f w) = lp_scan w) -> keeps always (change f).
Proof. intros Hf w Hw. apply wp_change. unfold table_of. by rewrite Hf. Qed.

Lemma keeps_waits waits : keeps id (pause_waits waits).
Proof. induction waits as [|[[]|] waits IH]; cbn [pause_waits]; try apply flags_keep_ret; [done|]. apply keeps_then; [by apply keeps_change|by intros _]. Qed.

Lemma keeps_resume : keeps id (resume_usb env).
Proof. apply keeps_then; [apply keeps_query|]. intros now. apply keeps_scan. intros g. by apply good_resume_usb. Qed.

Lemma keeps_suspend : keeps id (suspend_usb env).
Proof.
  apply keeps_scan. intros g. apply good_then; [apply good_ask|]. intros memory. apply good_table. intros t Ht.
  destruct (suspend_spec memory (sy_paths (le_scan env g)) t Ht (Hcount g)) as (ok & t' & ? & ? & ? & _). by exists ok, t'.
Qed.

Lemma keeps_pause : keeps id (handle_usb_eject_pause env).
Proof.
  assert (Hstore : keeps id (let* _ := call (StorePause USB_EJECT_IDLE) in ret true)) by (apply keeps_then; [by apply keeps_change|intros _; apply flags_keep_ret]).
  unfold handle_usb_eject_pause. apply keeps_then; [apply keeps_query|]. intros p. destruct p.1; [apply flags_keep_ret| | |exact Hstore].
  all: apply flags_keep_try; [apply keeps_suspend|]; do 2 (apply keeps_then; [by apply keeps_change|intros _]); apply flags_keep_try; [apply keeps_waits|].
  all: apply keeps_then; [apply keeps_query|]; intros stop; apply keeps_then; [destruct stop; [apply flags_keep_ret|apply keeps_query]|]; intros asleep.
  all: apply flags_keep_try; [|exact Hstore]; destruct (stop || asleep); [apply flags_keep_ret|].
  all: intros w Hw; apply wp_bind; eapply wp_mono; [by apply keeps_resume|]; intros [] w1 [H1 H2]; [|by apply wp_ret].
  all: by apply wp_bind, wp_change, wp_ret.
Qed.

(** The next turn, when it is awake and the one before was too. *)
Lemma turn_start_keeps w w' : table_ok (table_of w) -> turn_start env w = Some (None, w') -> lp_was_sleeping w = false ->
  roots_kept (sn_roots (lp_scan w)) (sn_roots (lp_scan w')).
Proof.
  intros Hw Hr Hs. refine (wp_result (F := partly) _ (fun r w' => r = None -> roots_kept (sn_roots (lp_scan w)) (sn_roots (lp_scan w'))) _ _ _ _ Hr eq_refl).
  assert (Hfail : forall (m : L outcome) x, wp (F := partly) (let* o := m in ret (Some o)) (fun r w' => r = None -> roots_kept (sn_roots (lp_scan w)) (sn_roots (lp_scan w'))) x).
  { intros m x. apply wp_skip. intros o y. by apply wp_ret. }
  unfold turn_start. apply wp_bind. unfold query at 1, ScannerCycle.scan at 1, ask, wp at 1. case_match; [apply Hfail|].
  apply wp_bind. set (w1 := put_scan _ w). pose proof (keeps_pause w1 Hw) as Hk. pose proof (flag_pause w1) as Hf. unfold wp in Hk, Hf |- * at 1.
  destruct (handle_usb_eject_pause env w1) as [[[] w2]|]; cbn [negb]; [|apply Hfail|done]. destruct Hk as [_ Hk].
  apply wp_bind. unfold query at 1, ScannerCycle.scan at 1, ask, wp at 1. case_match; [apply Hfail|].
  apply wp_bind, wp_look. unfold id. set (w3 := put_scan _ w2). replace (lp_was_sleeping w3) with false by (symmetry; etrans; [exact Hf|exact Hs]).
  apply wp_ret. intros _. exact Hk.
Qed.
End awake.

(** Single steps, on a state that is written out. *)
Lemma call_step {B} c (k : () -> L B) w : bind (call c) k w = k tt (put_calls (lp_calls w ++ [c]) w).
Proof. done. Qed.

Lemma scan_step env {A B} (m : scan_sys -> M A) (k : A -> L B) w a s : m (sys_of env w) (lp_scan w) = Some (a, s) ->
  bind (ScannerCycle.scan env m) k w = k a (put_scan s w).
Proof. intros Hm. unfold bind, ScannerCycle.scan. by rewrite Hm. Qed.

(** What is left of the scanner's state after [sm_scanner_shutdown]: no descriptor, no date and
    no USB slot; whatever it was before, [sm_scanner_init] begins with no watches. *)
Lemma shutdown_clears env w : structure_ok (table_of w) -> exists w', sm_scanner_shutdown env w = Some (tt, w') /\
  let s := lp_scan w' in
  sn_table s = no_watches /\ config_fd s 0 = None /\ config_fd s 1 = None /\ sn_manual_fd s = None /\ sn_wake_fd s = -1 /\
  sn_timers s = Timers false 0 0 0 0 0 /\ us_mounted_mask (sn_usb s) = 0 /\ sn_roots s = reset_scanner_root_states /\ lp_suspended w' = true.
Proof.
  intros Hw. destruct w as [[t u tm fds manual wake asked log] g fr cc sl bl sw su calls]. unfold table_of in Hw. cbn in Hw.
  assert (Hc : forall t', exists fds' log', close_config_files (ScanState t' u tm fds manual wake asked log) = Some (tt, ScanState t' u tm fds' manual wake asked log') /\
    default None (fds' !! 0%nat) = None /\ default None (fds' !! 1%nat) = None).
  { intros t'. destruct fds as [|[a|] [|[b|] fds]]; eexists _, _; (split; [reflexivity|done]). }
  unfold sm_scanner_shutdown, clear_watches, close_scanner_config_file.
  rewrite call_step. cbv beta. erewrite scan_step by reflexivity. cbv beta. cbn [put_calls put_scan put_table lp_scan sn_table sn_usb sn_timers sn_config_fds sn_manual_fd sn_wake_fd sn_asked sn_log].
  destruct (Hc (clear_scanner_watch_entries t)) as (fds' & log' & Hc1 & Hc2 & Hc3). erewrite scan_step by exact Hc1. cbv beta.
  assert (Hm : exists log2, close_scanner_manual_file (ScanState (clear_scanner_watch_entries t) u tm fds' manual wake asked log') =
    Some (tt, ScanState (clear_scanner_watch_entries t) u tm fds' None wake asked log2)) by (destruct manual; eexists; reflexivity).
  destruct Hm as [log2 Hm]. erewrite scan_step by exact Hm. cbv beta.
  do 5 (erewrite scan_step by reflexivity; cbv beta;
        cbn [put_scan put_wake_fd put_usb put_timers put_roots set_roots sn_roots us_roots us_mounted_mask us_result_pending_mask us_info us_calls lp_scan sn_table sn_usb sn_timers sn_config_fds
             sn_manual_fd sn_wake_fd sn_asked sn_log]).
  eexists. split; [reflexivity|]. cbn [put_suspended lp_scan sn_table sn_manual_fd sn_wake_fd sn_timers sn_usb us_mounted_mask lp_suspended]. unfold config_fd. cbn [sn_config_fds].
  split; [by apply clear_watches_spec|]. by split_and!.
Qed.

Lemma wp_cleared env {A B} (m : scan_sys -> M A) (k : A -> L B) Q w : table_of w = no_watches -> (forall sys, still (m sys)) ->
  (forall a w', table_of w' = no_watches -> wp (F := wholly) (k a) Q w') -> wp (F := wholly) (bind (ScannerCycle.scan env m) k) Q w.
Proof. intros Hw Hm Hk. apply wp_still; [done|]. intros a w' Hw'. apply Hk. by rewrite Hw'. Qed.

Lemma still_reopen sys now : still (reopen_config_file_watch sys false now).
Proof.
  apply scan_still_then; [|by intros _ w]. generalize [0; 1]%nat as files. induction files as [|i files IH]; [by intros w|].
  cbn [reopen_config_files]. apply scan_still_then; [apply scan_still_look|]. intros fd. apply scan_still_then; [|by intros _]. destruct fd; [by intros w|].
  apply scan_still_then; [by intros w|]. intros opened. apply scan_still_then; [by apply still_change|]. intros _. apply still_when. by apply still_change.
Qed.

Lemma queue_still env w : wp (F := wholly) (open_queue env) (fun _ w' => table_of w' = table_of w) w.
Proof.
  unfold open_queue. apply wp_bind, wp_look. case_match; [by apply wp_bind, wp_change, wp_ret|]. apply (wp_still env (fun _ => ask (le_queue env))); [by intros sys w1|].
  intros [message|message|] w1 H1; [by apply wp_bind, wp_change, wp_ret|by apply wp_bind, wp_change, wp_bind, wp_change, wp_ret|by apply wp_ret].
Qed.

Lemma init_clears env w : structure_ok (table_of w) -> exists ok w', sm_scanner_init env w = Some (ok, w') /\ table_of w' = no_watches.
Proof.
  intros Hw. apply wp_ends. unfold sm_scanner_init. apply wp_bind, wp_change.
  apply wp_still; [intros sys; by apply still_change|]. intros _ w1 H1. apply wp_still; [intros sys; apply still_close_configs|]. intros _ w2 H2.
  apply wp_still; [intros sys; apply still_close_manual|]. intros _ w3 H3. apply wp_bind. unfold clear_watches at 1. unfold ScannerCycle.scan at 1, change at 1, wp at 1. cbn beta iota.
  set (w4 := put_scan _ w3). assert (H4 : table_of w4 = no_watches).
  { unfold w4, table_of, put_scan. cbn. apply clear_watches_spec. fold (table_of w3). by rewrite H3, H2, H1. }
  clearbody w4. clear -H4.
  apply (wp_cleared env); [done|intros sys; by apply still_change|]. intros _ x1 K1.
  apply (wp_cleared env); [done|intros sys; by apply still_change|]. intros _ x2 K2.
  apply (wp_cleared env); [done|intros sys; by apply still_change|]. intros _ x3 K3.
  apply (wp_cleared env); [done|intros sys; by apply still_change|]. intros _ x4 K4.
  apply wp_bind, wp_change. assert (H5 : table_of (put_suspended true x4) = no_watches) by done.
  apply (wp_cleared env (fun _ => ask (le_pipe env))); [done|by intros sys w5|]. intros [fd|] w6 H6; [|by apply wp_ret].
  apply (wp_cleared env); [done|intros sys; by apply still_change|]. intros _ w7 H7.
  apply (wp_cleared env (fun _ => ask (le_now env))); [done|by intros sys w|]. intros now w8 H8.
  apply (wp_cleared env); [done|intros sys; apply still_reopen|]. intros _ w9 H9.
  apply (wp_cleared env (fun sys => ask (sy_open_manual sys))); [done|by intros sys w|]. intros opened w10 H10.
  apply (wp_cleared env); [done|intros sys; by apply still_change|]. intros _ w11 H11. apply wp_bind. destruct opened as [fd'|].
  - by apply wp_ret, wp_ret.
  - apply (wp_cleared env (fun _ => ask (le_now env))); [done|by intros sys w|]. intros now' w12 H12. by apply wp_ret.
Qed.

(** ** Theorems *)

(** Claim C18: From the state that [sm_scanner_init] leaves, however long the scanner runs, and whatever the system, the clock, sleep,
    ejections, games and new configurations do: every turn ends; while the loop goes on its
    table of watches is sound; and when it ends, after a failure too, no watch and no
    descriptor of one is left open. *)
Theorem scanner_loop_watches env w n : table_of w = no_watches ->
  (forall g k, fresh_open (sy_register (le_scan env g) k)) -> (forall g, (length (sy_paths (le_scan env g)) <= MAX_SCAN_PATHS)%nat) ->
  exists o w', sm_scanner_run_loop env n w = Some (o, w') /\
    match o with
    | Again => table_ok (table_of w')
    | Leave => wt_entries (table_of w') = [] /\ wt_fds (table_of w') = Descriptors ∅ false
    end.
Proof.
  intros Hw Hopen Hcount. unfold sm_scanner_run_loop, bind at 1. pose proof (queue_still env w) as Hq. unfold wp in Hq.
  destruct (open_queue env w) as [[[] w0]|]; [| |done]; cbn [negb].
  2: { exists Leave, w0. split; [done|]. by rewrite Hq, Hw. }
  assert (Hw0 : table_ok (table_of w0)) by (rewrite Hq, Hw; apply empty_ok).
  pose proof (start_safe env Hopen Hcount w0 Hw0) as Hs. unfold bind, wp in *.
  destruct (start_loop env w0) as [[[] w1]|]; [| |done]; cbn [negb].
  - pose proof (turns_turns env Hopen Hcount n w1 Hs) as Ht. unfold wp in Ht. destruct (loop_turns env n w1) as [[o w']|]; [|done].
    exists o, w'. split; [done|]. destruct o; [done|]. by rewrite Ht.
  - exists Leave, w1. split; [done|]. by rewrite Hs.
Qed.

(** Claim C22: In every run of the scanner, candidates are collected and processed and lost
    sources cleaned up only while it holds both its mutex and the claim on the library,
    pending installations are served only under the mutex, and each of the two is given back exactly once on every
    path before the next is taken. *)
Theorem scan_work_exclusive env n w o w' : sm_scanner_run_loop env n w = Some (o, w') ->
  exists cs, lp_calls w' = lp_calls w ++ cs /\ guard_run (false, false) cs = Some (false, false).
Proof. intros Hr. exact (wp_result _ _ _ _ _ (quiet_loop env n w) Hr). Qed.

(** Claim C24: When sleep cuts the scan of a root short, it is made up for (on a sound table
    of watches, see [scanner_loop_watches]).  If the program is still asleep when the loop
    asks, the loop goes on, and right after that turn the root is to be scanned again,
    cleaned up if it was to be, and the same part of its watches rebuilt.  However many
    turns the loop then spends asleep (the first of them drops these marks, with those of
    every other root), the first turn awake looks for work with a full scan of all roots
    dated [RUNTIME_RESUME_GRACE_US] after it woke, or, only if no turn was spent asleep, with
    the root still to be scanned, and to be cleaned up if it was to be.  If the sleep is over
    by the time the loop asks, the loop ends instead. *)
Theorem interrupted_scan_repeated env i w u w1 root :
  let s := root_at (sn_roots (lp_scan w)) i in
  table_ok (table_of w) -> (forall g n, fresh_open (sy_register (le_scan env g) n)) ->
  (forall g, (length (sy_paths (le_scan env g)) <= MAX_SCAN_PATHS)%nat) ->
  scan_path_at (paths_of env w) i = Some root -> (length (paths_of env w) <= length (sn_roots (lp_scan w)))%nat -> (strlen (rt_rebuild_path s) < MAX_PATH)%nat ->
  run_targeted_scan_cycle env i (root_taken i w) = Some ((false, u), w1) ->
  if le_asleep env (sn_asked (lp_scan w1)) then
    exists w', scan_root_turn env i w = Some (Again, w') /\
      (let s' := root_at (sn_roots (lp_scan w')) i in
       rt_dirty s' = true /\ (rt_cleanup_pending s = true -> rt_cleanup_pending s' = true) /\
       (rt_watch_tree_stale s = true -> rt_watch_tree_stale s' = true /\ rt_rebuild_depth s' = rt_rebuild_depth s /\ rt_rebuild_kind s' = rt_rebuild_kind s /\
         rt_rebuild_path s' = rt_rebuild_path s)) /\
      forall w2 w3, slept env w' w2 -> turn_start env w2 = Some (None, w3) ->
        loop_turn env w2 = awake_turn env w3 /\
        (resync_dated env w3 \/
         w2 = w' /\ marked i (rt_cleanup_pending s) (sn_roots (lp_scan w3)))
  else exists w', scan_root_turn env i w = Some (Leave, w') /\ lp_calls w' = lp_calls w1 ++ [CloseQueue].
Proof.
  intros s Ht Hopen Hcount Hp Hl Hs Hr. pose proof (turns_scan_root env Hopen Hcount i w Ht) as Hsafe. unfold wp in Hsafe.
  rewrite (scan_root_turn_unfinished env i w u w1 Hr) in *. destruct (wp_result _ _ _ _ _ (steady_targeted env i (root_taken i w)) Hr) as [Hg Hlen].
  rewrite query_run in *. fold s in Hsafe |- *. set (w2 := put_scan _ w1) in *. destruct (le_asleep env _).
  - assert (Hp2 : scan_path_at (paths_of env w2) i = Some root) by (unfold paths_of, sys_of, w2 in *; cbn; by rewrite Hg).
    assert (Hi : (Z.to_nat i < length (sn_roots (lp_scan w2)))%nat).
    { change (sn_roots (lp_scan w2)) with (sn_roots (lp_scan w1)). rewrite Hlen. unfold root_taken, sn_roots, on_root. cbn. rewrite length_alter. fold (sn_roots (lp_scan w)).
      unfold scan_path_at in Hp. destruct (_ <? 0); [done|]. destruct (paths_of env w !! Z.to_nat i) eqn:Hk; [|done]. apply lookup_lt_Some in Hk. lia. }
    destruct (wp_ends _ _ _ (reschedule_root_spec env i s w2 root Hp2 Hi Hs)) as ([] & w' & Hw' & H). exists w'.
    unfold bind in Hsafe |- * at 1. rewrite Hw' in *. split; [done|]. split; [exact H|]. intros w4 w5 Hslept Hstart. split.
    + rewrite loop_turn_start. unfold bind. by rewrite Hstart.
    + destruct (wp_result _ _ _ _ _ (turn_start_spec env w4) Hstart) as [_ Hd].
      destruct (slept_marks env _ _ Hslept) as [->|Hm]; [|left; auto]. destruct (lp_was_sleeping w') eqn:Hs'; [left; auto|right]. split; [done|].
      eapply marked_kept; [split; [apply H|apply H]|]. by eapply turn_start_keeps.
  - eexists. split; [reflexivity|]. done.
Qed.

(** ** A concrete scanner *)
Definition demo_loop_env (asleep : nat -> bool) (paths : list (option string)) (dirs : list string) : loop_env :=
  LoopEnv (fun _ => rs_cfg init_runtime_config_defaults) (fun _ => demo_sys paths dirs false demo_answers) (fun n => 5000000 + Z.of_nat n) (fun _ => false) asleep (fun _ => true)
    (fun _ => true) (fun _ => false) (fun _ _ => Collected 2 1 3 false) (fun _ => false) (fun _ _ => 0) (fun _ => Some ("test"%string, true)) (fun _ => None)
    (fun _ => KEvents []) (fun _ => SelectReady) (fun _ => (USB_EJECT_IDLE, [])) (fun _ => true) (fun _ => QueueReady) (fun _ => Some 83).

Definition demo_loop_state : loop_state := LoopState (demo_state demo_watch_table) 0 0 0 false false true false [].

Definition demo_env (asleep : nat -> bool) : loop_env := demo_loop_env asleep [Some "/data/a"; Some "/data/a/c"]%string ["/data/a"; "/data/a/b"; "/data"; "/"]%string.

(** Nothing is watched yet. *)
Definition demo_loop_start : loop_state := put_scan (demo_state no_watches) demo_loop_state.

Lemma scanner_loop_watches_witness : exists o w', sm_scanner_run_loop (demo_env (fun _ => false)) 3 demo_loop_start = Some (o, w') /\
  match o with
  | Again => table_ok (table_of w')
  | Leave => wt_entries (table_of w') = [] /\ wt_fds (table_of w') = Descriptors ∅ false
  end.
Proof.
  apply (scanner_loop_watches (demo_env (fun _ => false)) demo_loop_start 3); [reflexivity|intros g k; exact demo_fresh|intros g; exact demo_paths_fit].
Defined.

(** A requested scan runs to its end. *)
Definition demo_run : option (outcome * loop_state) := loop_turn (demo_env (fun _ => false)) demo_loop_state.

Example demo_requested_scan : (fun r => (r.1, lp_calls r.2)) <$> demo_run =
  Some (Again, [ResetAttempts; LockCycle; BeginMutation; CleanupLostSources None; CollectCandidates None; ProcessCandidates 2; ReconcileMissingGames; ReleaseScanMounts; EndMutation; UnlockCycle]).
Proof. vm_compute. reflexivity. Qed.

Definition demo_run3 : option (outcome * loop_state) := sm_scanner_run_loop (demo_env (fun _ => false)) 1 demo_loop_state.
Definition demo_end3 : loop_state := from_option snd demo_loop_state demo_run3.

Lemma scan_work_exclusive_witness : exists cs, lp_calls demo_end3 = lp_calls demo_loop_state ++ cs /\ guard_run (false, false) cs = Some (false, false).
Proof. apply (scan_work_exclusive (demo_env (fun _ => false)) 1 demo_loop_state Again demo_end3). vm_compute. reflexivity. Defined.

Definition demo_marked : loop_state := put_scan (put_roots (on_root 0 (fun s => set_rebuild true 1 SCANNER_WATCH_SCAN_SUBDIR "/data/a/b" (set_cleanup true (set_dirty true 4000000 s))) reset_scanner_root_states) (lp_scan demo_loop_state)) demo_loop_state.

(** Sleep lasts over the turn that is cut short and the next one. *)
Definition demo_nap : loop_env := demo_env (fun n => (n <? 14)%nat).
Definition demo_cut_state : loop_state := from_option snd demo_marked (run_targeted_scan_cycle demo_nap 0 (root_taken 0 demo_marked)).
Definition demo_slept : loop_state := from_option snd demo_marked (scan_root_turn demo_nap 0 demo_marked).
Definition demo_last_asleep : loop_state := from_option snd demo_marked (turn_start demo_nap demo_slept).
Definition demo_awake : loop_state := from_option snd demo_marked (turn_start demo_nap demo_last_asleep).

Lemma interrupted_scan_repeated_witness :
  scan_root_turn demo_nap 0 demo_marked = Some (Again, demo_slept) /\
  (rt_dirty (root_at (sn_roots (lp_scan demo_slept)) 0) = true /\ rt_cleanup_pending (root_at (sn_roots (lp_scan demo_slept)) 0) = true /\
   rt_rebuild_path (root_at (sn_roots (lp_scan demo_slept)) 0) = "/data/a/b"%string) /\
  rt_dirty (root_at (sn_roots (lp_scan demo_last_asleep)) 0) = false /\
  loop_turn demo_nap demo_last_asleep = awake_turn demo_nap demo_awake /\ lp_next_full_resync_us demo_awake = 15000035.
Proof.
  pose proof (interrupted_scan_repeated demo_nap 0 demo_marked None demo_cut_state "/data/a") as H. cbv zeta in H.
  assert (Ha : le_asleep demo_nap (sn_asked (lp_scan demo_cut_state)) = true) by (vm_compute; reflexivity).
  rewrite Ha in H. destruct H as (w' & Hr & (H1 & H2 & H3) & H4).
  - exact demo_table_ok.
  - intros g n. exact demo_fresh.
  - intros g. exact demo_paths_fit.
  - reflexivity.
  - apply Nat.leb_le. vm_compute. reflexivity.
  - apply Nat.ltb_lt. vm_compute. reflexivity.
  - vm_compute. reflexivity.
  - assert (Hw : demo_slept = w') by (unfold demo_slept; rewrite Hr; reflexivity). subst w'. split; [exact Hr|].
    split; [split; [exact H1|split; [apply H2; vm_compute; reflexivity|destruct H3 as (_ & _ & _ & H3); [vm_compute; reflexivity|exact H3]]]|].
    split; [vm_compute; reflexivity|]. destruct (H4 demo_last_asleep demo_awake) as [H5 H6].
    + apply rtc_once. vm_compute. reflexivity.
    + vm_compute. reflexivity.
    + split; [exact H5|]. vm_compute. reflexivity.
Defined.

(** Sleep that ends between the look of an interrupted scan and the look of the loop: the
    scanner, and with it the program, ends although nobody asked it to stop, and no
    reason is recorded. *)
Example waking_ends_scanner :
  let env := demo_env (fun n => (n =? 9) || (n =? 11))%nat in
  (forall k, le_stop env k = false) /\
  (fun r => (r.1, lp_calls r.2)) <$> loop_turn env demo_loop_state = Some (Leave, [ResetAttempts; LockCycle; BeginMutation; EndMutation; UnlockCycle; CloseQueue]).
Proof. split; [done|]. vm_compute. reflexivity. Qed.
