(* ===== verification/TitleLinks.v ===== *)
(** * The files that name a title's source (src/sm_filesystem.c)

    [/user/app/<title>/mount.lnk] names the directory a title runs from,
    [mount_img.lnk] the images that hold it, from the innermost outwards, and
    [mount.lnk.cleanup] is a link set aside while its title is being released.  This file
    holds the world these operations work in, reading and writing the files, and that a
    link is replaced as a whole.

    The world holds the files the program writes and the layers mounted on titles, with
    every state they went through ([w_past], newest first): a power failure leaves the
    files of one of these states.  Everything else is a question: each system call is
    asked whether it fails and with which error, so that a theorem holds for all faults.
    A fault never claims that an existing file does not exist. *)
From S2P Require Import Prelude CString IniFile ImageCache ScanBackports Effects.
From stdpp Require Import gmap strings.
Open Scope Z_scope.
Open Scope c_scope.

Definition EIO : Z := 5.
Definition EINVAL : Z := 22.
Definition EEXIST : Z := 17.
Definition EBUSY : Z := 16.

Definition APP_BASE : string := "/user/app".

Definition lowercase_sce_sys_name (name : string) : string :=
  String.string_of_list_ascii (tolower <$> String.list_ascii_of_string name).

(** The path itself or below it. *)
Definition below (path p : string) : bool := strcmp_eq p path || has_prefix p (path ++ "/").

Lemma below_refl path : below path path = true.
Proof. unfold below. by rewrite strcmp_eq_refl. Qed.

(** What is used of [struct statfs]. *)
Record mount_layer := Layer { f_mntonname : string; f_mntfromname : string; f_fstypename : string; f_rdonly : bool }.

#[export] Instance mount_layer_eq_dec : EqDecision mount_layer.
Proof. solve_decision. Defined.

(** [d_type] of an entry of [/user/app]. *)
Inductive app_entry_type := DT_DIR | DT_UNKNOWN | DT_OTHER.

Inductive question : Type -> Type :=
  | Fault : question (option Z)                         (** does the next system call fail? *)
  | Torn : question nat                                 (** how much of a failed write arrived *)
  | OpenFails : question bool                           (** opening an existing file to read it *)
  | ReadError : question (option nat)                   (** an error after so many bytes of a file *)
  | Stat (path : string) : question (inode_kind + Z)
  | Mkdir (path : string) : question (option Z)
  | Sleeping : question bool                            (** [runtime_sleep_mode_active] *)
  | Stopping : question bool                            (** [should_stop_requested] *)
  | Protected (title_id : string) : question bool       (** [sm_shellcore_title_is_protected] *)
  | AppEntries : question (list (string * app_entry_type) + Z)
  | CloseFails : question bool
  | CachedImage (path : string) : question (option string)
  | CachedChain (path : string) : question (list string)
  | BackportScanPaths : question (list (option string))
  | OtherMounts : question (list mount_layer)           (** the rest of the system's mount table *)
  | SizeofStatfs : question Z
  | ReadDir (path : string) : question (list string * Z + Z)     (** the names and the error at the end, or that of [opendir] *)
  | ResolveSceSys (root relative : string) : question (string + Z)
  | CopyFile (src dst : string) : question (list (option string) * option Z)      (** what the destination holds in turn; the error *)
  | CopyDir (src dst : string) : question (list (string * option string) * Z)       (** the same for files below the destination *)
  | Call (name : string) (args : list string) : question Z.

(** [Call] stands for a call into another component; its result, 0 or 1 for a [bool]. *)

(** What a question is answered, at its number. *)
Definition answers : Type := forall A : Type, nat -> question A -> A.

Inductive title_event := Asked (A : Type) (q : question A) (answer : A).

Record snapshot := Snapshot { s_files : gmap string string; s_mounts : list mount_layer }.

Record world := World {
  w_files : gmap string string;
  w_mounts : list mount_layer;     (** in the order they were mounted *)
  w_past : list snapshot;
  w_clock : nat;
  w_trace : list title_event;
}.

Abbreviation M := (prog world).

Definition now (w : world) : snapshot := Snapshot (w_files w) (w_mounts w).
#[global] Arguments now : simpl never.

Definition set_files (f : gmap string string -> gmap string string) : M () := change (fun w =>
  World (f (w_files w)) (w_mounts w) (now w :: w_past w) (w_clock w) (w_trace w)).
Definition set_mounts (f : list mount_layer -> list mount_layer) : M () := change (fun w =>
  World (w_files w) (f (w_mounts w)) (now w :: w_past w) (w_clock w) (w_trace w)).

(** A failing call has another reason than a missing file. *)
Definition fault_errno (e : Z) : Z := if e =? ENOENT then EIO else e.

(** [fgets] with [n + 1] bytes of room: the line read, and what is left. *)
Fixpoint fgets_from (n : nat) (s : string) : string * string :=
  match n, s with
  | O, _ => ("", s)%string
  | _, EmptyString => ("", "")%string
  | S n', String a s' =>
      if Ascii.eqb a newline then (String a "", s')%string
      else let '(l, r) := fgets_from n' s' in (String a l, r)
  end.

(** [NULL] at the end of the file. *)
Definition fgets (out_size : nat) (s : string) : option (string * string) :=
  match out_size, s with
  | O, _ => None
  | S (S _), EmptyString => None
  | S n, _ => Some (fgets_from n s)
  end.

Definition line_end (a : Ascii.ascii) : bool := Ascii.eqb a "013"%char || Ascii.eqb a newline.

(** [s] up to the first character that satisfies [p]. *)
Fixpoint until (p : Ascii.ascii -> bool) (s : string) : string :=
  match s with
  | EmptyString => EmptyString
  | String a s' => if p a then EmptyString else String a (until p s')
  end.

(** A buffer as a C string. *)
Definition c_string (s : string) : string := until (Ascii.eqb nul) s.

(** The line in the buffer without its end, and whether the line went on beyond the
    buffer; one character has then been read past it. *)
Definition line_of (out_size : nat) (chunk rest : string) : string * bool * string :=
  let out := c_string chunk in
  let line := until line_end out in
  if (strlen line =? strlen out)%nat && (out_size <=? strlen line + 1)%nat then
    match rest with
    | EmptyString => (line, false, rest)
    | String next rest' => (line, negb (line_end next), rest')
    end
  else (line, false, rest).

(** The path of the first line of a link file. *)
Definition link_line (out_size : nat) (content : string) : option string :=
  match fgets out_size content with
  | None => None
  | Some (chunk, rest) =>
      let '(line, truncated, _) := line_of out_size chunk rest in
      if truncated : bool then None else if strcmp_eq line "" then None else Some line
  end.

Definition build_title_link_path (title_id filename : string) : string :=
  strlcpy (APP_BASE ++ "/" ++ title_id ++ "/" ++ filename) MAX_PATH.

Record title_link_paths_t := LinkPaths { mount_link : string; staged_mount_link : string; mount_image_link : string }.

Definition build_title_link_paths (title_id : string) : title_link_paths_t :=
  LinkPaths (build_title_link_path title_id "mount.lnk") (build_title_link_path title_id "mount.lnk.cleanup")
    (build_title_link_path title_id "mount_img.lnk").

Section links.
Context (sys : answers).

Definition ask {A} (q : question A) : M A := fun w =>
  let a := sys A (w_clock w) q in
  Some (a, World (w_files w) (w_mounts w) (w_past w) (S (w_clock w)) (Asked A q a :: w_trace w)).

(** The error of the next system call, if it fails. *)
Definition fault : M (option Z) := let* e := ask Fault in ret (fault_errno <$> e).

Definition file (path : string) : M (option string) := look (fun w => w_files w !! path).

(** [stat] of a link file. *)
Definition stat_file (path : string) : M (inode_kind + Z) :=
  let* e := fault in
  match e with
  | Some e => ret (inr e)
  | None => let* f := file path in ret (match f with Some _ => inl IsRegular | None => inr ENOENT end)
  end.

(** The files change one after the other, each to its contents or to nothing. *)
Fixpoint put_files (changes : list (string * option string)) : M () :=
  match changes with
  | [] => ret tt
  | (path, content) :: rest => let* _ := set_files (partial_alter (fun _ => content) path) in put_files rest
  end.

(** [copy_file] and [copy_sce_sys_dir] of CopyTree.v, for sources that are not among the
    files here: they change their destination in any way, and nothing else. *)
Definition copy_file_to (src dst : string) : M (option Z) :=
  let* answer := ask (CopyFile src dst) in
  let* _ := put_files (pair dst <$> answer.1) in ret answer.2.

Definition copy_dir_to (src dst : string) : M Z :=
  let* answer := ask (CopyDir src dst) in
  let* _ := put_files ((fun c => ((dst ++ "/" ++ c.1)%string, c.2)) <$> answer.1) in ret answer.2.

Definition unlink (path : string) : M (option Z) :=
  let* e := fault in
  match e with
  | Some e => ret (Some e)
  | None =>
      let* f := file path in
      match f with
      | None => ret (Some ENOENT)
      | Some _ => let* _ := set_files (delete path) in ret None
      end
  end.

Definition rename (from to : string) : M (option Z) :=
  let* e := fault in
  match e with
  | Some e => ret (Some e)
  | None =>
      let* f := file from in
      match f with
      | None => ret (Some ENOENT)
      | Some c => let* _ := set_files (fun m => <[to := c]> (delete from m)) in ret None
      end
  end.

Definition write_file (path content : string) : M () := set_files (<[path := content]>).

(** ** Reading *)

(** What can be read of a file: its bytes up to an error, and whether there was one. *)
Definition read_file (path : string) : M (option (string * bool)) :=
  let* failed := ask OpenFails in
  if failed : bool then ret None
  else
    let* f := file path in
    match f with
    | None => ret None
    | Some c =>
        let* bad := ask ReadError in
        ret (Some (match bad with Some k => (String.substring 0 k c, true) | None => (c, false) end))
    end.

Definition read_mount_link_file (lnk_path : string) (out_size : nat) : M (option string) :=
  if (out_size =? 0)%nat then ret None
  else
    let* f := read_file lnk_path in
    ret (match f with Some (content, _) => link_line out_size content | None => None end).

Definition read_mount_link (title_id : string) (out_size : nat) : M (option string) :=
  read_mount_link_file (mount_link (build_title_link_paths title_id)) out_size.

Definition read_mount_image_link (title_id : string) (out_size : nat) : M (option string) :=
  read_mount_link_file (mount_image_link (build_title_link_paths title_id)) out_size.

(** The lines of a chain, at most [n] of them; [None] is an invalid line. *)
Fixpoint chain_lines (n : nat) (content : string) : option (list string * string) :=
  match n with
  | O => Some ([], content)
  | S n' =>
      match fgets MAX_PATH content with
      | None => Some ([], content)
      | Some (chunk, rest) =>
          let '(line, truncated, rest') := line_of MAX_PATH chunk rest in
          if truncated : bool then None
          else if strcmp_eq line "" then None
          else match chain_lines n' rest' with Some (lines, r) => Some (line :: lines, r) | None => None end
      end
  end.

Definition parse_chain (content : string) (read_error : bool) : option (list string) :=
  match chain_lines MAX_IMAGE_CHAIN_DEPTH content with
  | None => None
  | Some (lines, rest) =>
      if (length lines =? MAX_IMAGE_CHAIN_DEPTH)%nat && negb (strcmp_eq rest "") then None
      else if read_error : bool then None
      else match lines with [] => None | _ => Some lines end
  end.

Definition read_mount_image_chain (title_id : string) : M (option (list string)) :=
  let* f := read_file (mount_image_link (build_title_link_paths title_id)) in
  match f with
  | None => ret None
  | Some (content, read_error) =>
      let* bad := ask CloseFails in
      ret (if bad : bool then None else parse_chain content read_error)
  end.

(** ** Writing *)

(** The loop over the lines; [sofar] is what the file holds. *)
Fixpoint write_lines (temp_path sofar : string) (lines : list string) : M bool :=
  match lines with
  | [] => ret true
  | line :: rest =>
      if strcmp_eq line "" then ret false
      else
        let text := (line ++ match rest with [] => "" | _ => String newline "" end)%string in
        let* e := fault in
        match e with
        | Some _ =>
            let* n := ask Torn in
            let* _ := write_file temp_path (sofar ++ String.substring 0 n text) in
            ret false
        | None =>
            let* _ := write_file temp_path (sofar ++ text) in
            write_lines temp_path (sofar ++ text) rest
        end
  end.

(** [ok && call() == 0]: the call is not made when [ok] is false. *)
Definition and_call (ok : bool) : M bool :=
  if ok then let* e := fault in ret (bool_decide (e = None)) else ret false.

Definition write_link_lines_atomic (path : string) (lines : list string) : M bool :=
  let temp_path := (path ++ ".tmp")%string in
  if (MAX_PATH <=? strlen temp_path)%nat then ret false
  else
    let* e := fault in
    match e with
    | Some _ => ret false
    | None =>
        let* _ := write_file temp_path "" in
        let* ok := write_lines temp_path "" lines in
        let* ok := and_call ok in              (* fflush *)
        let* ok := and_call ok in              (* fsync *)
        let* closed := and_call true in        (* fclose *)
        let* renamed := (if ok && closed then rename temp_path path else ret (Some EIO)) in
        match renamed with
        | None => ret true
        | Some _ => let* _ := unlink temp_path in ret false
        end
    end.

Definition write_mount_link (title_id source_path : string) : M bool :=
  if strcmp_eq title_id "" || strcmp_eq source_path "" then ret false
  else write_link_lines_atomic (mount_link (build_title_link_paths title_id)) [source_path].

Definition write_mount_image_chain (title_id : string) (paths : list string) : M bool :=
  if strcmp_eq title_id "" || (length paths =? 0)%nat || (MAX_IMAGE_CHAIN_DEPTH <? length paths)%nat then ret false
  else write_link_lines_atomic (mount_image_link (build_title_link_paths title_id)) paths.

Definition write_mount_image_link (title_id image_path : string) : M bool :=
  if strcmp_eq title_id "" || strcmp_eq image_path "" then ret false
  else write_mount_image_chain title_id [strlcpy image_path MAX_PATH].
End links.

(** ** Reasoning about the world *)

(** Membership in a short list of paths. *)
Ltac in_files :=
  rewrite ?not_elem_of_cons in *; rewrite ?elem_of_cons; rewrite ?elem_of_nil in *;
  repeat match goal with H : _ /\ _ |- _ => destruct H end; try intuition congruence.

(** Nothing but questions. *)
Definition quiet (w w' : world) : Prop :=
  now w' = now w /\ w_past w' = w_past w /\ exists t, w_trace w' = t ++ w_trace w.

(** One change of the files or layers, to [s]. *)
Definition becomes (s : snapshot) (w w' : world) : Prop :=
  now w' = s /\ w_past w' = now w :: w_past w /\ exists t, w_trace w' = t ++ w_trace w.

(** Every state gone through satisfies [I], the last one included. *)
Definition through (I : snapshot -> Prop) (w w' : world) : Prop :=
  I (now w') /\ (exists l, w_past w' = l ++ w_past w /\ Forall I l) /\ exists t, w_trace w' = t ++ w_trace w.

Lemma quiet_refl w : quiet w w.
Proof. split; [done|]. split; [done|]. by exists []. Qed.

Lemma quiet_trans w1 w2 w3 : quiet w1 w2 -> quiet w2 w3 -> quiet w1 w3.
Proof.
  intros (H1 & H2 & t & H3) (H4 & H5 & t' & H6). split; [congruence|]. split; [congruence|].
  exists (t' ++ t). by rewrite H6, H3, app_assoc.
Qed.

Lemma quiet_becomes s w1 w2 w3 : quiet w1 w2 -> becomes s w2 w3 -> becomes s w1 w3.
Proof.
  intros (H1 & H2 & t & H3) (H4 & H5 & t' & H6). split; [done|]. split; [congruence|].
  exists (t' ++ t). by rewrite H6, H3, app_assoc.
Qed.

Lemma through_refl (I : snapshot -> Prop) w : I (now w) -> through I w w.
Proof. intros H. split; [done|]. split; by exists []. Qed.

Lemma through_quiet (I : snapshot -> Prop) w w' : I (now w) -> quiet w w' -> through I w w'.
Proof. intros H (H1 & H2 & H3). split; [by rewrite H1|]. split; [|done]. by exists []. Qed.

Lemma through_becomes (I : snapshot -> Prop) s w w' : I (now w) -> I s -> becomes s w w' -> through I w w'.
Proof. intros H Hs (H1 & H2 & H3). split; [by rewrite H1|]. split; [|done]. exists [now w]. split; [done|]. by constructor. Qed.

Lemma through_trans I w1 w2 w3 : through I w1 w2 -> through I w2 w3 -> through I w1 w3.
Proof.
  intros (H1 & (l & H2 & H3) & t & H4) (H5 & (l' & H6 & H7) & t' & H8). split; [done|]. split.
  - exists (l' ++ l). split; [by rewrite H6, H2, app_assoc|]. by apply Forall_app.
  - exists (t' ++ t). by rewrite H8, H4, app_assoc.
Qed.

Lemma through_mono (I J : snapshot -> Prop) w w' : (forall s, I s -> J s) -> through I w w' -> through J w w'.
Proof.
  intros HIJ (H1 & (l & H2 & H3) & H4). split; [auto|]. split; [|done]. exists l. split; [done|].
  by eapply Forall_impl.
Qed.

#[export] Hint Resolve quiet_refl : sm.

(** Every run ends. *)
#[export] Instance runs_end : Fuel := wholly.

Section rules.
Context (sys : answers).

Lemma wp_question {A} (q : question A) (Q : A -> world -> Prop) w :
  (forall w', quiet w w' -> w_clock w' = S (w_clock w) -> w_trace w' = Asked A q (sys A (w_clock w) q) :: w_trace w ->
    Q (sys A (w_clock w) q) w') -> wp (ask sys q) Q w.
Proof.
  intros H. apply H; [|done|done]. split; [done|]. split; [done|]. by exists [Asked A q (sys A (w_clock w) q)].
Qed.

(** The answer as any value. *)
Lemma wp_any {A} (q : question A) (Q : A -> world -> Prop) w :
  (forall a w', quiet w w' -> Q a w') -> wp (ask sys q) Q w.
Proof. intros H. apply wp_question. eauto. Qed.

Lemma fault_errno_enoent e : fault_errno e <> ENOENT.
Proof. unfold fault_errno, ENOENT, EIO. destruct (e =? 2) eqn:E; [done|]. by apply Z.eqb_neq. Qed.

Lemma wp_fault (Q : option Z -> world -> Prop) w :
  (forall e w', quiet w w' -> (forall x, e = Some x -> x <> ENOENT) -> Q e w') -> wp (fault sys) Q w.
Proof.
  intros H. unfold fault. apply wp_bind, wp_any. intros a w' Hq. apply wp_ret, H; [done|].
  intros x Hx. destruct a; [|done]. injection Hx as <-. apply fault_errno_enoent.
Qed.

Lemma wp_file path (Q : option string -> world -> Prop) w :
  Q (s_files (now w) !! path) w -> wp (file path) Q w.
Proof. exact (fun H => H). Qed.

Lemma wp_set_files f (Q : () -> world -> Prop) w :
  (forall w', becomes (Snapshot (f (s_files (now w))) (s_mounts (now w))) w w' -> Q tt w') -> wp (set_files f) Q w.
Proof. intros H. apply H. split; [done|]. split; [done|]. by exists []. Qed.

Lemma wp_stat_file path (Q : inode_kind + Z -> world -> Prop) w :
  (forall r w', quiet w w' -> (r = inl IsRegular -> is_Some (s_files (now w) !! path)) ->
    (r = inr ENOENT -> s_files (now w) !! path = None) -> (r = inl IsRegular \/ exists e, r = inr e) -> Q r w') ->
  wp (stat_file sys path) Q w.
Proof.
  intros H. unfold stat_file. apply wp_bind, wp_fault. intros [e|] w' Hq He.
  - apply wp_ret, H; [done|done| |eauto]. intros [= ->]. by destruct (He _ eq_refl).
  - apply wp_bind, wp_file, wp_ret. destruct Hq as (Hn & Hrest). rewrite Hn. apply H; [by split| | |].
    + destruct (_ !! path); [eauto|done].
    + by destruct (_ !! path).
    + destruct (_ !! path); eauto.
Qed.

Lemma wp_unlink path (Q : option Z -> world -> Prop) w :
  (forall e w', quiet w w' -> (e = ENOENT -> s_files (now w) !! path = None) -> Q (Some e) w') ->
  (forall w', becomes (Snapshot (delete path (s_files (now w))) (s_mounts (now w))) w w' -> Q None w') ->
  wp (unlink sys path) Q w.
Proof.
  intros Hf Ht. unfold unlink. apply wp_bind, wp_fault. intros [e|] w' Hq He.
  - apply wp_ret, Hf; [done|]. intros ->. by destruct (He _ eq_refl).
  - apply wp_bind, wp_file. pose proof Hq as (Hn & _ & _). rewrite Hn. destruct (_ !! path) eqn:Hp.
    + apply wp_bind, wp_set_files. intros w2 H2. apply wp_ret, Ht. eapply quiet_becomes; [done|]. by rewrite <-Hn.
    + by apply wp_ret, Hf.
Qed.

Lemma wp_rename from to (Q : option Z -> world -> Prop) w :
  (forall e w', quiet w w' -> Q (Some e) w') ->
  (forall c w', s_files (now w) !! from = Some c ->
    becomes (Snapshot (<[to := c]> (delete from (s_files (now w)))) (s_mounts (now w))) w w' -> Q None w') ->
  wp (rename sys from to) Q w.
Proof.
  intros Hf Ht. unfold rename. apply wp_bind, wp_fault. intros [e|] w' Hq He; [by apply wp_ret, Hf|].
  apply wp_bind, wp_file. pose proof Hq as (Hn & _ & _). rewrite Hn. destruct (_ !! from) as [c|] eqn:Hp.
  - apply wp_bind, wp_set_files. intros w2 H2. eapply wp_ret, Ht; [done|]. eapply quiet_becomes; [done|]. by rewrite <-Hn.
  - by apply wp_ret, Hf.
Qed.

(** Reading a file changes nothing. *)
Lemma wp_read_file path (Q : option (string * bool) -> world -> Prop) w :
  (forall r w', quiet w w' -> (forall c e, r = Some (c, e) -> exists c0, s_files (now w) !! path = Some c0 /\
      (e = false -> c = c0)) -> Q r w') -> wp (read_file sys path) Q w.
Proof.
  intros H. unfold read_file. apply wp_bind, wp_any. intros [|] w' Hq; [by apply wp_ret, H|].
  apply wp_bind, wp_file. pose proof Hq as (Hn & _ & _). rewrite Hn. destruct (_ !! path) as [c|] eqn:Hp; [|by apply wp_ret, H].
  apply wp_bind, wp_any. intros bad w2 H2. apply wp_ret, H; [by eapply quiet_trans|].
  intros c' e Hc. exists c. split; [done|]. by destruct bad; simplify_eq.
Qed.

Lemma wp_read_link path size (Q : option string -> world -> Prop) w :
  (forall r w', quiet w w' -> Q r w') -> wp (read_mount_link_file sys path size) Q w.
Proof.
  intros H. unfold read_mount_link_file. destruct (size =? 0)%nat; [by apply wp_ret, H, quiet_refl|].
  apply wp_bind, wp_read_file. intros r w' Hq _. by apply wp_ret, H.
Qed.
End rules.

(** ** A link is replaced as a whole *)

(** The contents of a file of [lines]. *)
Fixpoint join_lines (lines : list string) : string :=
  match lines with
  | [] => ""
  | [line] => line
  | line :: rest => line ++ String newline (join_lines rest)
  end%string.

(** Nothing but the files of [ps] differs from [s0]. *)
Definition only (ps : list string) (s0 s : snapshot) : Prop :=
  s_mounts s = s_mounts s0 /\ forall p, p ∉ ps -> s_files s !! p = s_files s0 !! p.

Lemma only_refl ps s : only ps s s.
Proof. done. Qed.

Lemma only_insert ps s0 s p c : only ps s0 s -> p ∈ ps -> only ps s0 (Snapshot (<[p := c]> (s_files s)) (s_mounts s)).
Proof. intros [H1 H2] Hp. split; [done|]. intros q Hq. simpl. rewrite lookup_insert_ne by in_files. by apply H2. Qed.

Lemma only_delete ps s0 s p : only ps s0 s -> p ∈ ps -> only ps s0 (Snapshot (delete p (s_files s)) (s_mounts s)).
Proof. intros [H1 H2] Hp. split; [done|]. intros q Hq. simpl. rewrite lookup_delete_ne by in_files. by apply H2. Qed.

Section atomic.
Context (sys : answers).

Lemma wp_and_call ok (Q : bool -> world -> Prop) w :
  (forall b w', quiet w w' -> (b = true -> ok = true) -> Q b w') -> wp (and_call sys ok) Q w.
Proof.
  intros H. unfold and_call. destruct ok; [|apply wp_ret, H; [apply quiet_refl|done]].
  apply wp_bind, wp_fault. intros e w' Hq _. by apply wp_ret, H.
Qed.

Lemma write_lines_spec temp s0 lines sofar w : only [temp] s0 (now w) -> s_files (now w) !! temp = Some sofar ->
  wp (write_lines sys temp sofar lines) (fun ok w' => through (only [temp] s0) w w' /\
    (ok = true -> s_files (now w') !! temp = Some (sofar ++ join_lines lines)%string /\ Forall (fun l => l <> ""%string) lines)) w.
Proof.
  revert sofar w. induction lines as [|line rest IH]; intros sofar w Hw Ht; simpl.
  { apply wp_ret. split; [by apply through_refl|]. by rewrite string_app_nil_r. }
  destruct (strcmp_eq line "") eqn:E; [apply wp_ret; split; [by apply through_refl|done]|].
  apply strcmp_eq_false in E. apply wp_bind, wp_fault. intros e w1 Hq1 _.
  pose proof Hq1 as (Hn1 & _). destruct e as [e|].
  - apply wp_bind, wp_any. intros n w2 Hq2. pose proof (quiet_trans _ _ _ Hq1 Hq2) as Hq. pose proof Hq as (Hn2 & _).
    apply wp_bind, wp_set_files. intros w3 H3. apply wp_ret. split; [|done].
    eapply through_becomes; [done| |eapply quiet_becomes; [done|exact H3]].
    rewrite Hn2. apply only_insert; [done|in_files].
  - set (text := (line ++ _)%string). apply wp_bind, wp_set_files. intros w2 H2.
    assert (H12 : through (only [temp] s0) w w2).
    { eapply through_becomes; [done| |eapply quiet_becomes; [done|exact H2]]. rewrite Hn1. apply only_insert; [done|in_files]. }
    destruct H2 as (Hn2 & _). eapply wp_mono; [apply IH|].
    + apply H12.
    + rewrite Hn2. simpl. by rewrite lookup_insert_eq.
    + intros ok w3 [H3 Hok]. split; [by eapply through_trans|]. intros ->. destruct (Hok eq_refl) as [Hf Hall].
      split; [|by constructor]. etransitivity; [exact Hf|]. f_equal. rewrite <-string_app_assoc. f_equal. subst text.
      destruct rest; simpl; [by rewrite !string_app_nil_r|]. rewrite <-string_app_assoc. done.
Qed.

(** The states of a write: the file is as it was or holds all the lines. *)
Definition replacing (path : string) (lines : list string) (s0 s : snapshot) : Prop :=
  only [path; path ++ ".tmp"]%string s0 s /\
  (s_files s !! path = s_files s0 !! path \/ s_files s !! path = Some (join_lines lines)).

Lemma temp_ne path : (path ++ ".tmp")%string <> path.
Proof. intros H. apply (f_equal strlen) in H. rewrite strlen_append in H. simpl in H. lia. Qed.

Lemma replacing_from path lines s0 s : only [path ++ ".tmp"]%string s0 s -> replacing path lines s0 s.
Proof.
  intros [H1 H2]. split; [split; [done|]; intros p Hp; apply H2; in_files|]. left. apply H2.
  pose proof (temp_ne path). in_files.
Qed.

Lemma write_link_atomic path lines w :
  wp (write_link_lines_atomic sys path lines) (fun ok w' => through (replacing path lines (now w)) w w' /\
    if ok then s_files (now w') = <[path := join_lines lines]> (delete (path ++ ".tmp")%string (s_files (now w))) /\
      Forall (fun l => l <> ""%string) lines
    else only [path ++ ".tmp"]%string (now w) (now w')) w.
Proof.
  set (s0 := now w). unfold write_link_lines_atomic. set (temp := (path ++ ".tmp")%string).
  assert (Hw0 : only [temp] s0 (now w)) by done.
  assert (Hto : forall w', through (only [temp] s0) w w' -> through (replacing path lines s0) w w').
  { intros w'. apply through_mono. intros s. apply replacing_from. }
  destruct (_ <=? _)%nat; [apply wp_ret; split; [by apply Hto, through_refl|done]|].
  apply wp_bind, wp_fault. intros [e|] w1 Hq1 _.
  { apply wp_ret. split; [by apply Hto, through_quiet|]. by destruct Hq1 as (-> & _). }
  pose proof Hq1 as (Hn1 & _). apply wp_bind, wp_set_files. intros w2 H2.
  assert (H02 : through (only [temp] s0) w w2).
  { eapply through_becomes; [done| |eapply quiet_becomes; [done|exact H2]]. rewrite Hn1. apply only_insert; [done|in_files]. }
  pose proof H2 as (Hn2 & _). apply wp_bind. eapply wp_mono.
  { apply (write_lines_spec temp s0); [apply H02|]. rewrite Hn2. simpl. by rewrite lookup_insert_eq. }
  intros ok w3 [H23 Hok]. pose proof (through_trans _ _ _ _ H02 H23) as H03. clear H02 H23.
  apply wp_bind, wp_and_call. intros ok1 w4 Hq4 Hok1. apply wp_bind, wp_and_call. intros ok2 w5 Hq5 Hok2.
  apply wp_bind, wp_and_call. intros closed w6 Hq6 _.
  pose proof (quiet_trans _ _ _ Hq4 (quiet_trans _ _ _ Hq5 Hq6)) as Hq.
  assert (Hn6 : now w6 = now w3) by apply Hq.
  assert (H06 : through (only [temp] s0) w w6).
  { eapply through_trans; [exact H03|]. apply through_quiet; [apply H03|done]. }
  clear Hq4 Hq5 Hq6 Hq Hq1.
  assert (Hfail : forall w', quiet w6 w' -> wp (let* _ := unlink sys temp in ret false) (fun (ok : bool) w'' => through (replacing path lines s0) w w'' /\
    if ok then s_files (now w'') = <[path := join_lines lines]> (delete temp (s_files s0)) /\ Forall (fun l => l <> ""%string) lines
    else only [temp] s0 (now w'')) w').
  { intros w' Hq. assert (H0 : through (only [temp] s0) w w').
    { eapply through_trans; [exact H06|]. apply through_quiet; [apply H06|done]. }
    apply wp_bind, wp_unlink.
    - intros e w7 Hq7 _. apply wp_ret.
      assert (H7 : through (only [temp] s0) w w7) by (eapply through_trans; [exact H0|apply through_quiet; [apply H0|done]]).
      split; [by apply Hto|]. apply H7.
    - intros w7 Hb7. apply wp_ret.
      assert (H7 : through (only [temp] s0) w w7).
      { eapply through_trans; [exact H0|]. eapply through_becomes; [apply H0| |exact Hb7]. apply only_delete; [apply H0|in_files]. }
      split; [by apply Hto|]. apply H7. }
  apply wp_bind. destruct (ok2 && closed) eqn:Eok; [|apply wp_ret, Hfail, quiet_refl].
  apply andb_true_iff in Eok as [-> _]. apply wp_rename; [intros e w' Hq; by apply Hfail|].
  intros c w7 Hc Hb. apply wp_ret. destruct (Hok (Hok1 (Hok2 eq_refl))) as [Hf Hall]. rewrite <-Hn6, Hc in Hf. injection Hf as ->.
  assert (Hnew : s_files (now w7) = <[path := join_lines lines]> (delete temp (s_files s0))).
  { destruct Hb as (-> & _). simpl. f_equal. apply map_eq. intros p. destruct (decide (p = temp)) as [->|Hp].
    - by rewrite !lookup_delete_eq.
    - rewrite !lookup_delete_ne by done. apply H06. in_files. }
  split; [|done]. eapply through_trans; [apply Hto, H06|].
  eapply through_becomes; [apply replacing_from, H06| |destruct Hb as (Hb & Hb'); split; [exact (eq_refl (now w7))|exact Hb']].
  split; [split|].
  - destruct Hb as (-> & _). simpl. apply H06.
  - intros p Hp. rewrite Hnew. subst temp. rewrite lookup_insert_ne, lookup_delete_ne by in_files. done.
  - right. rewrite Hnew. by rewrite lookup_insert_eq.
Qed.
End atomic.

(** ** What is written is read back *)
Fixpoint all_chars (p : Ascii.ascii -> bool) (s : string) : bool :=
  match s with EmptyString => true | String a s' => p a && all_chars p s' end.

(** The characters a link may hold. *)
Definition link_char (a : Ascii.ascii) : bool := negb (line_end a) && negb (Ascii.eqb nul a).

(** A path that fits a link. *)
Definition link_path (size : nat) (p : string) : Prop := p <> ""%string /\ (strlen p < size)%nat /\ all_chars link_char p = true.

Lemma until_all p s : all_chars (fun a => negb (p a)) s = true -> until p s = s.
Proof. induction s as [|a s IH]; simpl; [done|]. intros H. bool_hyps. by rewrite H, IH. Qed.

Lemma until_stop p s a r : all_chars (fun a => negb (p a)) s = true -> p a = true -> until p (s ++ String a r) = s.
Proof. intros Hs Ha. induction s as [|b s IH]; simpl in *; [by rewrite Ha|]. bool_hyps. by rewrite H, IH. Qed.

Lemma all_chars_mono (p q : Ascii.ascii -> bool) s : (forall a, p a = true -> q a = true) -> all_chars p s = true -> all_chars q s = true.
Proof. intros Hpq. induction s as [|a s IH]; simpl; [done|]. intros H. bool_hyps. by rewrite (Hpq a), IH. Qed.

Lemma all_chars_app p a b : all_chars p (a ++ b) = all_chars p a && all_chars p b.
Proof. induction a; simpl; [done|]. by rewrite IHa, andb_assoc. Qed.

Lemma link_char_line a : link_char a = true -> negb (line_end a) = true.
Proof. unfold link_char. intros H. by bool_hyps; apply negb_true_iff. Qed.

Lemma link_char_nul a : link_char a = true -> negb (Ascii.eqb nul a) = true.
Proof. unfold link_char. intros H. by bool_hyps; apply negb_true_iff. Qed.

Lemma link_char_newline a : link_char a = true -> Ascii.eqb a newline = false.
Proof. unfold link_char, line_end. intros H. by bool_hyps. Qed.

Lemma fgets_last n s : all_chars link_char s = true -> (strlen s <= n)%nat -> fgets_from n s = (s, ""%string).
Proof.
  revert n. induction s as [|a s IH]; intros n Hs Hn; [by destruct n|]. destruct n as [|n]; [simpl in Hn; lia|].
  simpl in *. bool_hyps. by rewrite link_char_newline, IH by (done || lia).
Qed.

Lemma fgets_line n s r : all_chars link_char s = true -> (strlen s <= n)%nat -> fgets_from n (s ++ String newline r) =
  if (strlen s <? n)%nat then ((s ++ String newline "")%string, r) else (s, String newline r).
Proof.
  revert n. induction s as [|a s IH]; intros n Hs Hn; [by destruct n|]. destruct n as [|n]; [simpl in Hn; lia|].
  simpl in *. bool_hyps. rewrite link_char_newline, IH by (done || lia).
  change (S (String.length s) <? S n)%nat with (strlen s <? n)%nat. by destruct (_ <? _)%nat.
Qed.

Lemma link_chars_c_string s : all_chars link_char s = true -> c_string s = s /\ until line_end s = s.
Proof.
  intros Hs. split; apply until_all; (eapply all_chars_mono; [|exact Hs]); [apply link_char_nul|apply link_char_line].
Qed.

(** The last line of a file. *)
Lemma last_line_read size s : link_path size s ->
  exists chunk rest, fgets size s = Some (chunk, rest) /\ line_of size chunk rest = (s, false, ""%string).
Proof.
  intros (Hne & Hlen & Hs). exists s, ""%string. split.
  - destruct s as [|a s]; [done|]. destruct size as [|[|n]]; [lia|simpl in Hlen; lia|].
    change (Some (fgets_from (S n) (String a s)) = Some (String a s, ""%string)). by rewrite fgets_last by (done || lia).
  - unfold line_of. destruct (link_chars_c_string s Hs) as [-> ->]. by destruct (_ && _).
Qed.

(** A line before others. *)
Lemma line_read size s r : link_path size s ->
  exists chunk rest, fgets size (s ++ String newline r) = Some (chunk, rest) /\ line_of size chunk rest = (s, false, r).
Proof.
  intros (Hne & Hlen & Hs). pose proof (link_chars_c_string s Hs) as [Hc Hu].
  assert (Hf : fgets size (s ++ String newline r) = Some (fgets_from (size - 1) (s ++ String newline r))).
  { destruct s as [|a s]; [done|]. destruct size as [|[|n]]; [lia|simpl in Hlen; lia|]. simpl. by rewrite ?Nat.sub_0_r. }
  rewrite Hf, fgets_line by (done || lia). destruct (Nat.ltb_spec (strlen s) (size - 1)) as [Hl|Hl].
  - eexists _, _. split; [done|]. unfold line_of. assert (Hcs : c_string (s ++ String newline "") = (s ++ String newline "")%string).
    { apply until_all. rewrite all_chars_app. rewrite (all_chars_mono _ _ s link_char_nul Hs). done. }
    rewrite Hcs, until_stop; [|by apply (all_chars_mono _ _ s link_char_line)|done].
    rewrite strlen_append. destruct (Nat.eqb_spec (strlen s) (strlen s + strlen (String newline ""))); [simpl in *; lia|done].
  - eexists _, _. split; [done|]. unfold line_of. rewrite Hc, Hu, Nat.eqb_refl.
    destruct (Nat.leb_spec size (strlen s + 1)); [done|lia].
Qed.

Lemma link_line_read size s : link_path size s -> link_line size s = Some s.
Proof.
  intros Hs. unfold link_line. destruct (last_line_read size s Hs) as (chunk & rest & -> & ->). simpl.
  destruct Hs as (Hne & _). by apply strcmp_eq_false in Hne as ->.
Qed.

Lemma chain_lines_read n lines : (length lines <= n)%nat -> Forall (link_path MAX_PATH) lines ->
  chain_lines n (join_lines lines) = Some (lines, ""%string).
Proof.
  revert n. induction lines as [|s lines IH]; intros n Hn Hall; [by destruct n|].
  apply Forall_cons_1 in Hall as [Hs Hall]. destruct n as [|n]; [simpl in Hn; lia|].
  assert (Hne : strcmp_eq s "" = false) by (apply strcmp_eq_false, Hs).
  destruct lines as [|s' lines].
  - destruct (last_line_read MAX_PATH s Hs) as (chunk & rest & Hf & Hl). cbn [join_lines chain_lines].
    rewrite Hf, Hl. cbn iota beta. rewrite Hne. by destruct n.
  - destruct (line_read MAX_PATH s (join_lines (s' :: lines)) Hs) as (chunk & rest & Hf & Hl).
    change (join_lines (s :: s' :: lines)) with (s ++ String newline (join_lines (s' :: lines)))%string. cbn [chain_lines].
    rewrite Hf, Hl. cbn iota beta. rewrite Hne, IH; [done|simpl in *; lia|done].
Qed.

Lemma chain_read lines : lines <> [] -> (length lines <= MAX_IMAGE_CHAIN_DEPTH)%nat -> Forall (link_path MAX_PATH) lines ->
  parse_chain (join_lines lines) false = Some lines.
Proof.
  intros Hne Hn Hall. unfold parse_chain. rewrite chain_lines_read by done. cbn [strcmp_eq String.eqb negb].
  change (strcmp_eq "" "") with true. cbn [negb]. rewrite andb_false_r. by destruct lines.
Qed.

(** A read error anywhere is noticed ([ferror]), whatever was read before it. *)
Lemma parse_chain_error c : parse_chain c true = None.
Proof. unfold parse_chain. destruct (chain_lines _ _) as [[lines rest]|]; [by destruct (_ && _)|done]. Qed.

(** A system without faults. *)
Definition no_faults (sys : answers) : Prop :=
  forall n, sys _ n Fault = None /\ sys _ n OpenFails = false /\ sys _ n ReadError = None /\ sys _ n CloseFails = false.

Section no_faults.
Context (sys : answers) (Hok : no_faults sys).

Lemma wp_no_fault (Q : option Z -> world -> Prop) w : (forall w', quiet w w' -> Q None w') -> wp (fault sys) Q w.
Proof. intros H. unfold fault. apply wp_bind, wp_question. intros w' Hq _ _. destruct (Hok (w_clock w)) as [-> _]. by apply wp_ret, H. Qed.

Lemma wp_and_call_ok (Q : bool -> world -> Prop) w : (forall w', quiet w w' -> Q true w') -> wp (and_call sys true) Q w.
Proof. intros H. unfold and_call. apply wp_bind, wp_no_fault. intros w' Hq. by apply wp_ret, H. Qed.

Lemma write_lines_ok temp lines sofar w : Forall (fun l => l <> ""%string) lines -> is_Some (s_files (now w) !! temp) ->
  wp (write_lines sys temp sofar lines) (fun ok w' => ok = true /\ is_Some (s_files (now w') !! temp)) w.
Proof.
  intros Hl. revert sofar w. induction Hl as [|line rest Hne Hl IH]; intros sofar w Hw; cbn [write_lines]; [by apply wp_ret|].
  apply strcmp_eq_false in Hne as ->. apply wp_bind, wp_no_fault. intros w1 (Hn1 & _).
  apply wp_bind, wp_set_files. intros w2 (Hn2 & _). apply IH. rewrite Hn2. simpl. by rewrite lookup_insert_eq.
Qed.

Lemma write_link_ok path lines w : (strlen path + 4 < MAX_PATH)%nat -> Forall (fun l => l <> ""%string) lines ->
  wp (write_link_lines_atomic sys path lines) (fun ok _ => ok = true) w.
Proof.
  intros Hp Hl. unfold write_link_lines_atomic.
  assert (Hlen : (MAX_PATH <=? strlen (path ++ ".tmp"))%nat = false).
  { apply Nat.leb_gt. rewrite strlen_append. exact Hp. }
  rewrite Hlen. apply wp_bind, wp_no_fault. intros w1 _. apply wp_bind, wp_set_files. intros w2 (Hn2 & _).
  apply wp_bind. eapply wp_mono.
  { apply (write_lines_ok (path ++ ".tmp")%string); [done|]. rewrite Hn2. simpl. rewrite lookup_insert_eq. eauto. }
  intros ok w3 [-> [c Hc]]. apply wp_bind, wp_and_call_ok. intros w4 Hq4. apply wp_bind, wp_and_call_ok. intros w5 Hq5.
  apply wp_bind, wp_and_call_ok. intros w6 Hq6. cbn [andb]. apply wp_bind. unfold rename.
  apply wp_bind, wp_no_fault. intros w7 Hq7. apply wp_bind, wp_file.
  destruct (quiet_trans _ _ _ Hq4 (quiet_trans _ _ _ Hq5 (quiet_trans _ _ _ Hq6 Hq7))) as (-> & _). rewrite Hc.
  apply wp_bind, wp_set_files. intros w8 _. by apply wp_ret, wp_ret.
Qed.
End no_faults.

Lemma build_title_link_path_fits title_id filename : (strlen title_id + strlen filename <= 1000)%nat ->
  build_title_link_path title_id filename = (APP_BASE ++ "/" ++ title_id ++ "/" ++ filename)%string.
Proof.
  intros H. apply strlcpy_fits. rewrite !strlen_append. change (strlen APP_BASE) with 9%nat. change (strlen "/") with 1%nat.
  apply (Nat.le_lt_trans _ 1011); [lia|]. apply Nat.ltb_lt. vm_compute. reflexivity.
Qed.

Lemma mount_image_link_length title_id : (strlen title_id < MAX_TITLE_ID)%nat ->
  (strlen (mount_image_link (build_title_link_paths title_id)) + 4 < MAX_PATH)%nat.
Proof.
  unfold MAX_TITLE_ID. intros H. cbn [mount_image_link build_title_link_paths].
  rewrite build_title_link_path_fits by (cbn; lia). rewrite !strlen_append. change (strlen APP_BASE) with 9%nat.
  change (strlen "/") with 1%nat. change (strlen "mount_img.lnk") with 13%nat.
  apply (Nat.le_lt_trans _ 61); [lia|]. apply Nat.ltb_lt. vm_compute. reflexivity.
Qed.

(** [mount.lnk] is replaced as a whole. *)
Lemma write_mount_link_spec sys title_id source_path w :
  wp (write_mount_link sys title_id source_path) (fun ok w' =>
    let link := mount_link (build_title_link_paths title_id) in
    through (fun s => only [link; link ++ ".tmp"]%string (now w) s /\
      (s_files s !! link = s_files (now w) !! link \/ s_files s !! link = Some source_path)) w w' /\
    s_files (now w') !! link = if ok then Some source_path else s_files (now w) !! link) w.
Proof.
  unfold write_mount_link. destruct (_ || _); [by apply wp_ret; split; [apply through_refl; split; [apply only_refl|left]|]|].
  eapply wp_mono; [apply write_link_atomic|]. cbn zeta. intros ok w' [Ht Hok]. split; [exact Ht|].
  destruct ok; [destruct Hok as [-> _]; apply lookup_insert_eq|]. apply Hok. pose proof (temp_ne (mount_link (build_title_link_paths title_id))). in_files.
Qed.

(** Claim C12: A title's link is replaced as a whole: in every state in between, and after every
    failing call, [mount.lnk] is as it was or names the new source; no other file
    but the temporary one changes.  Success means that the new link is in place, failure
    that the old one still is. *)
Theorem mount_link_atomic sys title_id source_path w :
  wp (write_mount_link sys title_id source_path) (fun ok w' =>
    let link := mount_link (build_title_link_paths title_id) in
    through (fun s => only [link; link ++ ".tmp"]%string (now w) s /\
      (s_files s !! link = s_files (now w) !! link \/ s_files s !! link = Some source_path)) w w' /\
    s_files (now w') !! link = if ok then Some source_path else s_files (now w) !! link) w.
Proof. exact (write_mount_link_spec sys title_id source_path w). Qed.

(** Claim C17: The images recorded for a title are read back: for a title id that fits its
    buffer, a chain of one to eight paths that fit theirs and hold no line end is, once
    written, read back exactly or not at all, whatever calls fail while it is written and
    read, read errors inside the file included; without faults it is written and read
    back. *)
Theorem image_chain_roundtrip sys title_id paths w : title_id <> ""%string -> (strlen title_id < MAX_TITLE_ID)%nat ->
  paths <> [] -> (length paths <= MAX_IMAGE_CHAIN_DEPTH)%nat -> Forall (link_path MAX_PATH) paths ->
  wp (let* ok := write_mount_image_chain sys title_id paths in
      let* chain := read_mount_image_chain sys title_id in ret (ok, chain))
    (fun '(ok, chain) _ => (ok = true -> chain = None \/ chain = Some paths) /\
      (no_faults sys -> ok = true /\ chain = Some paths)) w.
Proof.
  intros Ht Htl Hne Hn Hall. pose proof (mount_image_link_length title_id Htl) as Hlen.
  unfold write_mount_image_chain. apply strcmp_eq_false in Ht as ->.
  assert (Hb : (length paths =? 0)%nat || (MAX_IMAGE_CHAIN_DEPTH <? length paths)%nat = false).
  { apply orb_false_iff. split; [by destruct paths|]. by apply Nat.ltb_ge. }
  cbn [orb]. rewrite Hb. set (link := mount_image_link (build_title_link_paths title_id)) in *.
  pose proof (write_link_atomic sys link paths w) as Hw.
  assert (Hw' : no_faults sys -> wp (write_link_lines_atomic sys link paths) (fun ok _ => ok = true) w).
  { intros Hok. apply write_link_ok; [done|done|]. eapply Forall_impl; [exact Hall|]. intros p Hp. apply Hp. }
  unfold wp in Hw, Hw'. apply wp_bind. unfold wp at 1. destruct (write_link_lines_atomic sys link paths w) as [[ok w1]|]; [|done].
  destruct Hw as [_ Hw]. apply wp_bind. pose proof (chain_read paths Hne Hn Hall) as Hp.
  assert (Hf : ok = true -> s_files (now w1) !! link = Some (join_lines paths)).
  { intros ->. destruct Hw as [-> _]. apply lookup_insert_eq. }
  unfold read_mount_image_chain. fold link. apply wp_bind. unfold read_file.
  apply wp_bind, wp_question. intros w2 Hq2 _ _. destruct Hq2 as (Hn2 & _). destruct (sys _ _ OpenFails) eqn:Ef.
  { apply wp_ret, wp_ret, wp_ret. split; [by left|]. intros Hok. destruct (Hok (w_clock w1)) as (_ & Hf1 & _). congruence. }
  apply wp_bind, wp_file. rewrite Hn2. destruct (_ !! link) as [c|] eqn:Hc.
  2: { apply wp_ret, wp_ret, wp_ret. split; [by left|]. intros Hok. specialize (Hf (Hw' Hok)). congruence. }
  apply wp_bind, wp_question. intros w3 _ _ _. destruct (sys _ _ ReadError) as [k|] eqn:Er; apply wp_ret.
  { apply wp_bind, wp_question. intros w4 _ _ _. rewrite parse_chain_error. destruct (sys _ _ CloseFails);
      apply wp_ret, wp_ret; (split; [by left|]); intros Hok; destruct (Hok (w_clock w2)) as (_ & _ & Hre & _); congruence. }
  apply wp_bind, wp_question. intros w4 _ _ _.
  destruct (sys _ _ CloseFails) eqn:Ecl; apply wp_ret, wp_ret.
  - split; [by left|]. intros Hok. destruct (Hok (w_clock w3)) as (_ & _ & _ & Hcl). congruence.
  - split; [|intros Hok; specialize (Hw' Hok); split; [done|]; specialize (Hf Hw'); by simplify_eq].
    intros ->. right. specialize (Hf eq_refl). by simplify_eq.
Qed.

Definition demo_answers : answers := fun A n q =>
  match q with
  | Fault => None | OpenFails => false | ReadError => None | CloseFails => false | Torn => 0%nat
  | Stat _ => inl IsDir | Mkdir _ => None
  | Sleeping => false | Stopping => false | Protected _ => false | AppEntries => inl []
  | CachedImage _ => None | CachedChain _ => [] | BackportScanPaths => [] | OtherMounts => [] | SizeofStatfs => 472
  | ReadDir _ => inl ([], 0) | ResolveSceSys root relative => inl (root ++ "/" ++ relative)%string | CopyFile _ _ => ([Some "copy"%string], None) | CopyDir _ _ => ([("param.json", Some "{}")]%string, 0) | Call _ _ => 0
  end.

Definition demo_world : world := World ∅ [] [] 0 [].

Lemma image_chain_roundtrip_witness : exists w, (let* ok := write_mount_image_chain demo_answers "PPSA01234" ["/data/b.ffpkg"; "/mnt/usb0/a.exfat"] in
  let* chain := read_mount_image_chain demo_answers "PPSA01234" in ret (ok, chain)) demo_world = Some (true, Some ["/data/b.ffpkg"; "/mnt/usb0/a.exfat"], w).
Proof.
  pose proof (image_chain_roundtrip demo_answers "PPSA01234" ["/data/b.ffpkg"; "/mnt/usb0/a.exfat"]%string demo_world) as H.
  edestruct (wp_ends _ _ _ (H ltac:(done) ltac:(vm_compute; lia) ltac:(done) ltac:(vm_compute; lia)
    ltac:(repeat constructor; (done || vm_compute; lia)))) as ([ok chain] & w' & Hrun & _ & Hres).
  destruct (Hres (fun _ => conj eq_refl (conj eq_refl (conj eq_refl eq_refl)))) as [-> ->]. eexists. exact Hrun.
Defined.
