(* ===== verification/MountStack.v ===== *)
(** * The layers mounted on a title (src/sm_filesystem.c)

    A title runs at [/system_ex/app/<title>]: a nullfs layer shows the source there, and
    a unionfs layer may lay a backport over it.  This file holds the inspection of such a
    stack, its removal from the top, the rollback of a mount that is not published, and the
    overlay of a backport.

    The layers on titles are part of the world ([w_mounts], oldest first); those of the rest
    of the system are asked for at each look at the mount table, which may grow meanwhile.
    [statfs] answers with the topmost layer of a path, [unmount] removes it, [nmount] adds
    one, and each of these calls may fail. *)
From S2P Require Import Prelude CString ScanBackports ImageUnmount Effects TitleLinks.
From stdpp Require Import gmap strings.
Open Scope Z_scope.
Open Scope c_scope.

Definition LONG_MAX : Z := 2 ^ 63 - 1.

Definition SYSTEM_EX_APP : string := "/system_ex/app".

Definition system_ex_path_of (title_id : string) : string := strlcpy (SYSTEM_EX_APP ++ "/" ++ title_id) MAX_PATH.

Definition is_unionfs (l : mount_layer) : bool := strcmp_eq (f_fstypename l) "unionfs".
Definition is_nullfs (l : mount_layer) : bool := strcmp_eq (f_fstypename l) "nullfs".

(** [strcmp(mount->f_mntonname, path) == 0] *)
Definition mounted_at (path : string) (l : mount_layer) : bool := strcmp_eq (f_mntonname l) path.

(** The layers of [path], oldest first. *)
Definition layers (path : string) (mounts : list mount_layer) : list mount_layer := List.filter (mounted_at path) mounts.

(** The table without the topmost layer of [path]. *)
Fixpoint remove_top (path : string) (mounts : list mount_layer) : list mount_layer :=
  match mounts with
  | [] => []
  | l :: rest =>
      if mounted_at path l && negb (existsb (mounted_at path) rest) then rest else l :: remove_top path rest
  end.

Inductive title_stack_top_kind_t := TITLE_STACK_TOP_NONE | TITLE_STACK_TOP_OTHER | TITLE_STACK_TOP_NULLFS | TITLE_STACK_TOP_BACKPORT.

#[export] Instance top_kind_eq_dec : EqDecision title_stack_top_kind_t.
Proof. solve_decision. Defined.

Record title_mount_state_t := MountState {
  mounted : bool; has_our_nullfs : bool; has_nullfs_from_root : bool; has_our_backport : bool; top_is_our_nullfs : bool;
  our_nullfs_count : nat; our_backport_count : nat; top_kind : title_stack_top_kind_t; system_ex_path : string; top_from : string;
}.

Section mounts.
Context (sys : answers).

(** ** System calls *)

(** [inl None]: the path lies on the file system of another mount point. *)
Definition statfs (path : string) : M (option mount_layer + Z) :=
  let* e := fault sys in
  match e with
  | Some e => ret (inr e)
  | None => let* ms := look w_mounts in ret (inl (last (layers path ms)))
  end.

Definition unmount (path : string) : M (option Z) :=
  let* e := fault sys in
  match e with
  | Some e => ret (Some e)
  | None =>
      let* ms := look w_mounts in
      match layers path ms with
      | [] => ret (Some EINVAL)
      | _ => let* _ := set_mounts (remove_top path) in ret None
      end
  end.

Definition nmount (l : mount_layer) : M (option Z) :=
  let* e := fault sys in
  match e with
  | Some e => ret (Some e)
  | None => let* _ := set_mounts (fun ms => ms ++ [l]) in ret None
  end.

(** The table at this moment; nothing else mounts on titles. *)
Definition mount_table : M (list mount_layer) :=
  let* others := ask sys OtherMounts in
  let* ms := look w_mounts in
  ret (List.filter (fun l => negb (has_prefix (f_mntonname l) (SYSTEM_EX_APP ++ "/"))) others ++ ms).

(** [getfsstat] with room for [capacity] entries, [None] for a failure. *)
Definition getfsstat (capacity : nat) : M (option (list mount_layer)) :=
  let* e := fault sys in
  match e with
  | Some _ => ret None
  | None => let* t := mount_table in ret (Some (take capacity t))
  end.

(** [getfsstat(NULL, 0)]: the number of entries. *)
Definition getfsstat_count : M (option nat) :=
  let* e := fault sys in
  match e with
  | Some _ => ret None
  | None => let* t := mount_table in ret (Some (length t))
  end.

(** ** The mount table *)
Fixpoint snapshot_attempts (attempts capacity : nat) : M (option (list mount_layer)) :=
  match attempts with
  | O => ret None
  | S attempts' =>
      let* size := ask sys SizeofStatfs in
      if LONG_MAX / size <? Z.of_nat capacity then ret None
      else
        let* e := fault sys in                       (* malloc *)
        match e with
        | Some _ => ret None
        | None =>
            let* t := getfsstat capacity in
            match t with
            | None => ret None
            | Some t =>
                if (length t <? capacity)%nat then ret (Some t)
                else snapshot_attempts attempts' (capacity * 2)
            end
        end
  end.

Definition sm_mount_table_snapshot : M (option (list mount_layer)) :=
  let* count := getfsstat_count in
  match count with
  | None => ret None
  | Some count => snapshot_attempts 3 (count + 16)
  end.

(** The layer a path without a [statfs] of its own is taken to show: a unionfs rather
    than another, else the first. *)
Definition better_mount (best : option mount_layer) (l : mount_layer) : option mount_layer :=
  match best with
  | None => Some l
  | Some b => if is_unionfs l && negb (is_unionfs b) then Some l else best
  end.

Definition best_mount (path : string) (mounts : list mount_layer) : option mount_layer :=
  foldl better_mount None (layers path mounts).

(** [None]: -1, the table is unavailable. *)
Definition get_top_mount (path : string) : M (option (option mount_layer)) :=
  let* s := statfs path in
  match s with
  | inl (Some l) => ret (Some (Some l))
  | _ =>
      let* t := sm_mount_table_snapshot in
      ret (match t with None => None | Some t => Some (best_mount path t) end)
  end.

(** ** Inspecting a stack *)
Definition above_prefix : string := "<above>:".

Definition strip_above (path : string) : string :=
  if has_prefix path above_prefix then String.substring 8 (strlen path - 8) path else path.

Fixpoint under_backports_root (title_id path : string) (scan_paths : list (option string)) : bool :=
  match scan_paths with
  | [] => false
  | None :: rest => under_backports_root title_id path rest
  | Some scan_path :: rest =>
      match build_backports_root_path scan_path with
      | None => under_backports_root title_id path rest
      | Some root =>
          if has_prefix path root && bool_decide (char_at path (strlen root) = Some slash) &&
             backport_name_matches_title title_id (String.substring (strlen root + 1) (strlen path - (strlen root + 1)) path)
          then true
          else under_backports_root title_id path rest
      end
  end.

Definition path_is_managed_backport_for_title (title_id path : string) : M bool :=
  let* scan_paths := ask sys BackportScanPaths in
  ret (under_backports_root title_id (strip_above path) scan_paths).

(** The loop over the table; the flags and counts are those of the state. *)
Fixpoint inspect_layers (title_id source_path source_root : string) (ls : list mount_layer) (st : title_mount_state_t) :
    M title_mount_state_t :=
  match ls with
  | [] => ret st
  | l :: rest =>
      if is_nullfs l then
        let ours := negb (strcmp_eq source_path "") && strcmp_eq (f_mntfromname l) source_path in
        let from_root := negb (strcmp_eq source_root "") && path_matches_root_or_child (f_mntfromname l) source_root in
        inspect_layers title_id source_path source_root rest
          (MountState (mounted st) (has_our_nullfs st || ours) (has_nullfs_from_root st || from_root) (has_our_backport st)
             (top_is_our_nullfs st) (if ours then S (our_nullfs_count st) else our_nullfs_count st) (our_backport_count st)
             (top_kind st) (system_ex_path st) (top_from st))
      else
        let* managed := (if is_unionfs l then path_is_managed_backport_for_title title_id (f_mntfromname l) else ret false) in
        inspect_layers title_id source_path source_root rest
          (MountState (mounted st) (has_our_nullfs st) (has_nullfs_from_root st) (has_our_backport st || managed)
             (top_is_our_nullfs st) (our_nullfs_count st) (if managed : bool then S (our_backport_count st) else our_backport_count st)
             (top_kind st) (system_ex_path st) (top_from st))
  end.

(** What the topmost layer adds. *)
Definition inspect_top (title_id source_path : string) (top : mount_layer) (st : title_mount_state_t) : M title_mount_state_t :=
  let from := if is_unionfs top then strip_above (f_mntfromname top) else f_mntfromname top in
  let with_top kind ours_null ours_back :=
    MountState true (has_our_nullfs st || ours_null) (has_nullfs_from_root st) (has_our_backport st || ours_back)
      ours_null (our_nullfs_count st) (our_backport_count st) kind (system_ex_path st) (strlcpy from MAX_PATH) in
  if is_nullfs top then
    ret (with_top TITLE_STACK_TOP_NULLFS (negb (strcmp_eq source_path "") && strcmp_eq from source_path) false)
  else if is_unionfs top then
    let* managed := path_is_managed_backport_for_title title_id from in
    ret (if managed : bool then with_top TITLE_STACK_TOP_BACKPORT false true else with_top TITLE_STACK_TOP_OTHER false false)
  else ret (with_top TITLE_STACK_TOP_OTHER false false).

Definition no_mounts (title_id : string) : title_mount_state_t :=
  MountState false false false false false 0 0 TITLE_STACK_TOP_NONE (system_ex_path_of title_id) "".

(** An empty source or root is one that is not asked about. *)
Definition inspect_title_stack (title_id source_path source_root : string) : M (option title_mount_state_t) :=
  let path := system_ex_path_of title_id in
  let* s := statfs path in
  let* t := sm_mount_table_snapshot in
  match t with
  | None => ret None
  | Some t =>
      let* st := inspect_layers title_id source_path source_root (layers path t) (no_mounts title_id) in
      let top := match s with inl (Some l) => Some l | _ => best_mount path t end in
      match top with
      | Some top => let* st := inspect_top title_id source_path top st in ret (Some st)
      | None =>
          match s with
          | inr e => if (e =? 0) || (e =? ENOENT) || (e =? EINVAL) then ret (Some st) else ret None
          | inl _ => ret (Some st)
          end
      end
  end.

(** ** Removing layers *)
Definition unmount_top_controlled_layer_impl (path : string) (diagnose_busy : bool) : M bool :=
  let* top := get_top_mount path in
  match top with
  | None => ret false
  | Some None => ret true
  | Some (Some l) =>
      if negb (is_unionfs l || is_nullfs l) then ret false
      else
        let* e := unmount path in
        match e with
        | None => ret true
        | Some e =>
            if (e =? ENOENT) || (e =? EINVAL) then ret true
            else
              let* _ := when ((e =? EBUSY) && diagnose_busy)
                          (let* _ := ask sys (Call "sm_mount_diag_log_busy" [path]) in ret tt) in
              ret false
        end
  end.

Definition unmount_top_controlled_layer (path : string) : M bool := unmount_top_controlled_layer_impl path true.

Fixpoint unmount_layers (n : nat) (path : string) (diagnose_busy : bool) : M bool :=
  match n with
  | O => let* top := get_top_mount path in ret (match top with Some None => true | _ => false end)
  | S n' =>
      let* top := get_top_mount path in
      match top with
      | None => ret false
      | Some None => ret true
      | Some (Some _) =>
          let* released := unmount_top_controlled_layer_impl path diagnose_busy in
          if released : bool then unmount_layers n' path diagnose_busy else ret false
      end
  end.

Definition unmount_controlled_mount_stack_impl (path : string) (diagnose_busy : bool) : M bool :=
  unmount_layers (MAX_LAYERED_UNMOUNT_ATTEMPTS * 4) path diagnose_busy.

Definition unmount_controlled_mount_stack (path : string) : M bool := unmount_controlled_mount_stack_impl path true.

Definition title_stack_top_is_managed (st : title_mount_state_t) : bool :=
  top_is_our_nullfs st || bool_decide (top_kind st = TITLE_STACK_TOP_BACKPORT).

Definition rollback_title_nullfs_mount (title_id src_path : string) : M bool :=
  let* st := inspect_title_stack title_id src_path "" in
  match st with
  | None => ret false
  | Some st => if negb (top_is_our_nullfs st) then ret false else unmount_top_controlled_layer (system_ex_path st)
  end.

Definition unmount_title_runtime_layers_impl (title_id : string) (diagnose_busy : bool) : M bool :=
  if strcmp_eq title_id "" then ret false
  else
    let* protected := ask sys (Protected title_id) in
    if protected : bool then ret false
    else
      let path := (SYSTEM_EX_APP ++ "/" ++ title_id)%string in
      if (MAX_PATH <=? strlen path)%nat then ret false
      else unmount_controlled_mount_stack_impl path diagnose_busy.

Definition unmount_title_runtime_layers (title_id : string) : M bool := unmount_title_runtime_layers_impl title_id true.
Definition unmount_title_runtime_layers_quiet (title_id : string) : M bool := unmount_title_runtime_layers_impl title_id false.

(** ** Backports *)

(** The result, and [*overlay_active_out]. *)
Definition reconcile_title_backport_mount (title_id src_path expected_backport_path : string) : M (bool * bool) :=
  if strcmp_eq title_id "" || strcmp_eq src_path "" || strcmp_eq expected_backport_path "" then ret (false, false)
  else
    let* st := ask sys (Stat expected_backport_path) in
    let backport_present := match st with inl IsDir => true | _ => false end in
    let* st := inspect_title_stack title_id src_path "" in
    match st with
    | None => ret (false, false)
    | Some st =>
        if negb (has_our_nullfs st) then ret (false, false)
        else if top_is_our_nullfs st then ret (backport_present, false)
        else if negb (has_our_backport st) || negb (bool_decide (top_kind st = TITLE_STACK_TOP_BACKPORT)) then ret (false, false)
        else if strcmp_eq (top_from st) expected_backport_path && backport_present then ret (true, true)
        else
          let* released := unmount_top_controlled_layer (system_ex_path st) in
          ret (if released : bool then (backport_present, false) else (false, false))
    end.

Definition mount_backport_overlay (mount_point backport_path title_id : string) : M backport_overlay_result_t :=
  let* st := ask sys (Stat backport_path) in
  match st with
  | inl IsDir =>
      let* s := statfs mount_point in
      match s with
      | inl (Some l) =>
          if is_unionfs l then
            ret (if strcmp_eq (strip_above (f_mntfromname l)) backport_path then BACKPORT_OVERLAY_ACTIVE else BACKPORT_OVERLAY_SKIPPED)
          else
            let* e := nmount (Layer mount_point (above_prefix ++ backport_path) "unionfs" (f_rdonly l)) in
            match e with
            | None => ret BACKPORT_OVERLAY_ACTIVE
            | Some _ =>
                let* _ := ask sys (Call "notify_backport_overlay_failed" [title_id; backport_path]) in
                ret BACKPORT_OVERLAY_FAILED
            end
      | _ => ret BACKPORT_OVERLAY_SKIPPED
      end
  | _ => ret BACKPORT_OVERLAY_SKIPPED
  end.
End mounts.

(** ** The table of layers *)
Lemma layers_app path a b : layers path (a ++ b) = layers path a ++ layers path b.
Proof. apply List.filter_app. Qed.

Lemma layers_none path ms : existsb (mounted_at path) ms = false -> layers path ms = [].
Proof. induction ms as [|l ms IH]; simpl; [done|]. intros H. bool_hyps. rewrite H. by apply IH. Qed.

Lemma layers_some path ms : existsb (mounted_at path) ms = true -> layers path ms <> [].
Proof.
  induction ms as [|l ms IH]; simpl; [done|]. destruct (mounted_at path l) eqn:E; [by intros _|]. simpl. exact IH.
Qed.

(** Removing the top of a path. *)
Lemma layers_remove_top path ms : layers path (remove_top path ms) = removelast (layers path ms).
Proof.
  induction ms as [|l ms IH]; simpl; [done|]. destruct (mounted_at path l) eqn:E; simpl.
  - destruct (existsb (mounted_at path) ms) eqn:Ex; simpl.
    + rewrite E, IH. pose proof (layers_some path ms Ex) as Hne. by destruct (layers path ms).
    + by rewrite layers_none by done.
  - by rewrite E.
Qed.

Lemma layers_remove_top_ne path path' ms : path' <> path -> layers path' (remove_top path ms) = layers path' ms.
Proof.
  intros Hne. induction ms as [|l ms IH]; simpl; [done|]. destruct (mounted_at path l) eqn:E; simpl.
  - assert (E' : mounted_at path' l = false).
    { unfold mounted_at in *. apply strcmp_eq_true in E. rewrite E. apply strcmp_eq_false. congruence. }
    destruct (existsb (mounted_at path) ms); simpl; by rewrite E', ?IH.
  - by rewrite IH.
Qed.

Lemma remove_top_app_ne path ms l : mounted_at path l = true -> remove_top path (ms ++ [l]) = ms.
Proof.
  intros Hl. induction ms as [|x ms IH]; simpl; [by rewrite Hl|].
  assert (Hx : existsb (mounted_at path) (ms ++ [l]) = true) by (rewrite existsb_app; simpl; by rewrite Hl, orb_true_r).
  by rewrite Hx, andb_false_r, IH.
Qed.

Lemma best_mount_in path ms l : best_mount path ms = Some l -> l ∈ layers path ms.
Proof.
  unfold best_mount. set (ls := layers path ms). clearbody ls.
  assert (H : forall b, foldl better_mount b ls = Some l -> b = Some l \/ l ∈ ls).
  { induction ls as [|x ls IH]; intros b; simpl; [by left|]. intros Hf. destruct (IH _ Hf) as [Hb|Hin]; [|right; set_solver].
    unfold better_mount in Hb. destruct b as [b|]; [destruct (_ && _)|]; simplify_eq; (by left) || (right; set_solver). }
  intros Hf. by destruct (H None Hf).
Qed.

Lemma best_mount_none path ms : best_mount path ms = None <-> layers path ms = [].
Proof.
  unfold best_mount. destruct (layers path ms) as [|x ls]; [done|]. split; [|done]. simpl. intros Hf. exfalso.
  assert (H : forall b, foldl better_mount (Some b) ls <> None).
  { clear Hf. induction ls as [|y ls IH]; intros b; simpl; [done|]. destruct (_ && _); apply IH. }
  by apply (H x).
Qed.

Lemma last_in {A} (ls : list A) x : last ls = Some x -> x ∈ ls.
Proof. intros H. apply last_Some in H as [l ->]. set_solver. Qed.

Lemma last_none_nil {A} (ls : list A) : last ls = None -> ls = [].
Proof. by intros H%last_None. Qed.

(** A mount point of a title. *)
Definition title_path (path : string) : Prop := has_prefix path (SYSTEM_EX_APP ++ "/") = true.

Lemma layers_others path others : title_path path ->
  layers path (List.filter (fun l => negb (has_prefix (f_mntonname l) (SYSTEM_EX_APP ++ "/"))) others) = [].
Proof.
  intros Hp. apply layers_none. apply not_true_iff_false. intros (l & Hl & Hm)%existsb_exists.
  apply List.filter_In in Hl as [_ Hl]. unfold mounted_at in Hm. apply strcmp_eq_true in Hm. rewrite Hm in Hl.
  unfold title_path in Hp. by rewrite Hp in Hl.
Qed.

(** ** The calls *)
Section rules.
Context (sys : answers).

Lemma wp_statfs path (Q : option mount_layer + Z -> world -> Prop) w :
  (forall e w', quiet w w' -> ~ no_faults sys -> Q (inr e) w') ->
  (forall w', quiet w w' -> Q (inl (last (layers path (s_mounts (now w))))) w') -> wp (statfs sys path) Q w.
Proof.
  intros Hf Ht. unfold statfs, fault. apply wp_bind, wp_bind, wp_question. intros w' Hq _ _. destruct (sys _ _ Fault) as [e|] eqn:Ef.
  { apply wp_ret, wp_ret, Hf; [done|]. intros Hok. destruct (Hok (w_clock w)) as [Hnone _]. congruence. }
  apply wp_ret, wp_bind, wp_look, wp_ret. pose proof Hq as (Hn & _).
  replace (w_mounts w') with (s_mounts (now w)) by (rewrite <-Hn; done). by apply Ht.
Qed.

Lemma wp_unmount path (Q : option Z -> world -> Prop) w :
  (forall e w', quiet w w' -> Q (Some e) w') ->
  (forall w', layers path (s_mounts (now w)) <> [] ->
    becomes (Snapshot (s_files (now w)) (remove_top path (s_mounts (now w)))) w w' -> Q None w') -> wp (unmount sys path) Q w.
Proof.
  intros Hf Ht. unfold unmount. apply wp_bind, wp_fault. intros [e|] w' Hq _; [by apply wp_ret, Hf|].
  apply wp_bind, wp_look. pose proof Hq as (Hn & _).
  replace (w_mounts w') with (s_mounts (now w)) by (rewrite <-Hn; done). destruct (layers _ _) eqn:E; [by apply wp_ret, Hf|].
  apply wp_bind. unfold set_mounts. apply wp_change, wp_ret, Ht; [done|]. eapply quiet_becomes; [exact Hq|].
  split; [by rewrite <-Hn|]. split; [done|]. by exists [].
Qed.

Lemma wp_nmount l (Q : option Z -> world -> Prop) w :
  (forall e w', quiet w w' -> Q (Some e) w') ->
  (forall w', becomes (Snapshot (s_files (now w)) (s_mounts (now w) ++ [l])) w w' -> Q None w') -> wp (nmount sys l) Q w.
Proof.
  intros Hf Ht. unfold nmount. apply wp_bind, wp_fault. intros [e|] w' Hq _; [by apply wp_ret, Hf|].
  pose proof Hq as (Hn & _). apply wp_bind. unfold set_mounts. apply wp_change, wp_ret, Ht. eapply quiet_becomes; [exact Hq|].
  split; [by rewrite <-Hn|]. split; [done|]. by exists [].
Qed.

(** A table holds the layers of titles as they are. *)
Definition shows (ms t : list mount_layer) : Prop := forall path, title_path path -> layers path t = layers path ms.

Lemma wp_mount_table (Q : list mount_layer -> world -> Prop) w :
  (forall t w', quiet w w' -> shows (s_mounts (now w)) t -> Q t w') -> wp (mount_table sys) Q w.
Proof.
  intros H. unfold mount_table. apply wp_bind, wp_any. intros others w' Hq. apply wp_bind, wp_look, wp_ret, H; [done|].
  intros path Hp. rewrite layers_app, layers_others by done. destruct Hq as (<- & _). done.
Qed.

Lemma wp_snapshot_attempts n capacity (Q : option (list mount_layer) -> world -> Prop) w :
  (forall w', quiet w w' -> Q None w') -> (forall t w', quiet w w' -> shows (s_mounts (now w)) t -> Q (Some t) w') ->
  wp (snapshot_attempts sys n capacity) Q w.
Proof.
  revert capacity w. induction n as [|n IH]; intros capacity w Hn Ht; [by apply wp_ret, Hn, quiet_refl|].
  cbn [snapshot_attempts]. apply wp_bind, wp_any. intros size w1 Hq1. destruct (_ <? _); [by apply wp_ret, Hn|].
  apply wp_bind, wp_fault. intros [e|] w2 Hq2 _; pose proof (quiet_trans _ _ _ Hq1 Hq2) as Hq; [by apply wp_ret, Hn|].
  apply wp_bind. unfold getfsstat. apply wp_bind, wp_fault. intros [e|] w3 Hq3 _; pose proof (quiet_trans _ _ _ Hq Hq3) as Hq'.
  { by apply wp_ret, wp_ret, Hn. }
  apply wp_bind, wp_mount_table. intros t w4 Hq4 Hs. pose proof (quiet_trans _ _ _ Hq' Hq4) as Hq''. apply wp_ret.
  destruct Hq' as (Hn3 & _). rewrite Hn3 in Hs. destruct (Nat.ltb_spec (length (take capacity t)) capacity) as [Hl|_].
  - apply wp_ret, Ht; [done|]. rewrite length_take in Hl. by rewrite take_ge by lia.
  - apply IH; [intros w' Hq5; apply Hn; by eapply quiet_trans|]. intros t' w' Hq5 Hs'. apply Ht; [by eapply quiet_trans|].
    by destruct Hq'' as (<- & _).
Qed.

Lemma wp_snapshot (Q : option (list mount_layer) -> world -> Prop) w :
  (forall w', quiet w w' -> Q None w') -> (forall t w', quiet w w' -> shows (s_mounts (now w)) t -> Q (Some t) w') ->
  wp (sm_mount_table_snapshot sys) Q w.
Proof.
  intros Hn Ht. unfold sm_mount_table_snapshot, getfsstat_count. apply wp_bind, wp_bind, wp_fault. intros [e|] w1 Hq1 _.
  { by apply wp_ret, wp_ret, Hn. }
  apply wp_bind, wp_mount_table. intros t w2 Hq2 _. apply wp_ret. pose proof (quiet_trans _ _ _ Hq1 Hq2) as Hq.
  apply wp_snapshot_attempts.
  - intros w' Hq'. apply Hn. by eapply quiet_trans.
  - intros t' w' Hq' Hs. apply Ht; [by eapply quiet_trans|]. by destruct Hq as (<- & _).
Qed.

(** What is taken for the top is a layer of the path; without one, there is none. *)
Lemma wp_get_top path (Q : option (option mount_layer) -> world -> Prop) w : title_path path ->
  (forall w', quiet w w' -> Q None w') ->
  (forall w', quiet w w' -> layers path (s_mounts (now w)) = [] -> Q (Some None) w') ->
  (forall l w', quiet w w' -> l ∈ layers path (s_mounts (now w)) -> Q (Some (Some l)) w') ->
  wp (get_top_mount sys path) Q w.
Proof.
  intros Hp Hu Hn Hl. unfold get_top_mount.
  assert (Hrest : forall w1, quiet w w1 -> wp (let* t := sm_mount_table_snapshot sys in
    ret (match t with None => None | Some t => Some (best_mount path t) end)) Q w1).
  { intros w1 Hq1. apply wp_bind, wp_snapshot.
    - intros w2 Hq2. apply wp_ret, Hu. by eapply quiet_trans.
    - intros t w2 Hq2 Hs. apply wp_ret. pose proof (quiet_trans _ _ _ Hq1 Hq2) as Hq. destruct Hq1 as (Hn1 & _).
      rewrite Hn1 in Hs. specialize (Hs path Hp). destruct (best_mount path t) as [l|] eqn:Eb.
      + apply Hl; [done|]. rewrite <-Hs. by apply best_mount_in.
      + apply Hn; [done|]. rewrite <-Hs. by apply best_mount_none. }
  apply wp_bind, wp_statfs; [intros e w1 Hq1 _; by apply Hrest|]. intros w1 Hq1. destruct (last _) as [l|] eqn:El; [|by apply Hrest].
  apply wp_ret, Hl; [done|]. by apply last_in.
Qed.

(** ** Removing layers *)

(** From [s], only layers of [path] were removed, from its top. *)
Definition peeled (path : string) (s s' : snapshot) : Prop :=
  s_files s' = s_files s /\ exists k, s_mounts s' = Nat.iter k (remove_top path) (s_mounts s).

Lemma peeled_refl path s : peeled path s s.
Proof. split; [done|]. by exists 0%nat. Qed.

Lemma peeled_top path s s' : peeled path s s' -> peeled path s (Snapshot (s_files s') (remove_top path (s_mounts s'))).
Proof. intros [Hf [k Hk]]. split; [done|]. exists (S k). simpl. by rewrite Hk. Qed.

Lemma peeled_trans path s1 s2 s3 : peeled path s1 s2 -> peeled path s2 s3 -> peeled path s1 s3.
Proof.
  intros [H1 [k Hk]] [H2 [j Hj]]. split; [congruence|]. exists (j + k)%nat. by rewrite Hj, Hk, Nat.iter_add.
Qed.

Lemma peeled_layers path s s' : peeled path s s' -> exists j, layers path (s_mounts s') = take j (layers path (s_mounts s)).
Proof.
  intros [_ [k Hk]]. rewrite Hk. clear Hk s'. exists (length (layers path (s_mounts s)) - k)%nat. induction k as [|k IH]; simpl.
  - by rewrite Nat.sub_0_r, firstn_all.
  - rewrite layers_remove_top, IH. rewrite removelast_firstn_len, firstn_firstn, length_firstn. f_equal. lia.
Qed.

Lemma peeled_others path path' s s' : peeled path s s' -> path' <> path -> layers path' (s_mounts s') = layers path' (s_mounts s).
Proof.
  intros [_ [k Hk]] Hne. rewrite Hk. clear Hk s'. induction k as [|k IH]; simpl; [done|]. by rewrite layers_remove_top_ne.
Qed.

Lemma unmount_top_spec path d w : title_path path ->
  wp (unmount_top_controlled_layer_impl sys path d) (fun _ w' => through (peeled path (now w)) w w') w.
Proof.
  intros Hp. assert (H0 : peeled path (now w) (now w)) by apply peeled_refl. unfold unmount_top_controlled_layer_impl.
  apply wp_bind, wp_get_top; [done|..].
  - intros w1 Hq. apply wp_ret. by apply through_quiet.
  - intros w1 Hq _. apply wp_ret. by apply through_quiet.
  - intros l w1 Hq _. destruct (negb _); [apply wp_ret; by apply through_quiet|]. apply wp_bind, wp_unmount.
    + intros e w2 Hq2. pose proof (quiet_trans _ _ _ Hq Hq2) as Hq'. destruct (_ || _); [apply wp_ret; by apply through_quiet|].
      apply wp_bind, wp_when.
      * intros _. apply wp_bind, wp_any. intros a w3 Hq3. apply wp_ret, wp_ret. apply through_quiet; [done|]. by eapply quiet_trans.
      * intros _. apply wp_ret. by apply through_quiet.
    + intros w2 _ Hb. apply wp_ret. destruct Hq as (Hn & Hq). rewrite Hn in Hb. eapply through_becomes; [done| |].
      * by apply peeled_top.
      * eapply quiet_becomes; [split; [exact Hn|exact Hq]|exact Hb].
Qed.

Lemma unmount_layers_spec n path d w : title_path path ->
  wp (unmount_layers sys n path d) (fun ok w' => through (peeled path (now w)) w w' /\
    (ok = true -> layers path (s_mounts (now w')) = [])) w.
Proof.
  intros Hp. revert w. induction n as [|n IH]; intros w; cbn [unmount_layers]; (assert (H0 : peeled path (now w) (now w)) by apply peeled_refl).
  - apply wp_bind, wp_get_top; [done|..].
    + intros w1 Hq. apply wp_ret. split; [by apply through_quiet|done].
    + intros w1 Hq Hl. apply wp_ret. split; [by apply through_quiet|]. by destruct Hq as (-> & _).
    + intros l w1 Hq _. apply wp_ret. split; [by apply through_quiet|done].
  - apply wp_bind, wp_get_top; [done|..].
    + intros w1 Hq. apply wp_ret. split; [by apply through_quiet|done].
    + intros w1 Hq Hl. apply wp_ret. split; [by apply through_quiet|]. by destruct Hq as (-> & _).
    + intros l w1 Hq _. apply wp_bind. eapply wp_mono; [by apply unmount_top_spec|]. intros ok w2 H2.
      pose proof Hq as (Hn & _). rewrite Hn in H2. assert (H02 : through (peeled path (now w)) w w2).
      { eapply through_trans; [by apply through_quiet|done]. }
      destruct ok; [|by apply wp_ret]. eapply wp_mono; [apply IH|]. intros ok w3 [H3 Hok]. split; [|done].
      eapply through_trans; [done|]. eapply through_mono; [|exact H3]. intros s. apply peeled_trans, H02.
Qed.

Lemma unmount_stack_spec path d w : title_path path ->
  wp (unmount_controlled_mount_stack_impl sys path d) (fun ok w' => through (peeled path (now w)) w w' /\
    (ok = true -> layers path (s_mounts (now w')) = [])) w.
Proof. apply unmount_layers_spec. Qed.
End rules.

(** ** Without faults *)

(** No call fails, the rest of the table does not change, and its size is no issue for
    at most [n] layers on titles. *)
Definition calm (sys : answers) (n : nat) : Prop :=
  no_faults sys /\ exists others size, (forall k, sys _ k OtherMounts = others) /\ (forall k, sys _ k SizeofStatfs = size) /\
    Z.of_nat (length others + n + 16) <= LONG_MAX / size.

Definition controlled (l : mount_layer) : bool := is_unionfs l || is_nullfs l.

Lemma filter_length {A} (p : A -> bool) l : (length (List.filter p l) <= length l)%nat.
Proof. induction l as [|x l IH]; simpl; [done|]. destruct (p x); simpl; lia. Qed.

Lemma remove_top_length path ms : (length (remove_top path ms) <= length ms)%nat.
Proof. induction ms as [|l ms IH]; simpl; [done|]. destruct (_ && _); simpl; lia. Qed.

Section calm.
Context (sys : answers) (n : nat) (Hcalm : calm sys n).

Lemma calm_faults : no_faults sys.
Proof. apply Hcalm. Qed.

Lemma wp_statfs_calm path (Q : option mount_layer + Z -> world -> Prop) w :
  (forall w', quiet w w' -> Q (inl (last (layers path (s_mounts (now w))))) w') -> wp (statfs sys path) Q w.
Proof.
  intros Ht. unfold statfs. apply wp_bind, wp_no_fault; [apply calm_faults|]. intros w' Hq. apply wp_bind, wp_look, wp_ret.
  pose proof Hq as (Hn & _). replace (w_mounts w') with (s_mounts (now w)) by (rewrite <-Hn; done). by apply Ht.
Qed.

Lemma wp_snapshot_calm (Q : option (list mount_layer) -> world -> Prop) w : (length (s_mounts (now w)) <= n)%nat ->
  (forall t w', quiet w w' -> shows (s_mounts (now w)) t -> Q (Some t) w') -> wp (sm_mount_table_snapshot sys) Q w.
Proof.
  intros Hlen Ht. destruct Hcalm as (Hf & others & size & Ho & Hs & Hbound).
  set (t := List.filter (fun l => negb (has_prefix (f_mntonname l) (SYSTEM_EX_APP ++ "/"))) others ++ s_mounts (now w)).
  assert (Htab : forall (Q : list mount_layer -> world -> Prop) w1, now w1 = now w -> (forall w2, quiet w1 w2 -> Q t w2) -> wp (mount_table sys) Q w1).
  { intros R w1 Hn1 H. unfold mount_table. apply wp_bind, wp_question. intros w2 Hq _ _. rewrite Ho. apply wp_bind, wp_look, wp_ret.
    pose proof Hq as (Hn2 & _). replace (w_mounts w2) with (s_mounts (now w)) by (rewrite <-Hn1, <-Hn2; done). by apply H. }
  assert (Htl : (length t <= length others + n)%nat).
  { unfold t. rewrite length_app. pose proof (filter_length (fun l => negb (has_prefix (f_mntonname l) (SYSTEM_EX_APP ++ "/"))) others). lia. }
  unfold sm_mount_table_snapshot, getfsstat_count. apply wp_bind, wp_bind, wp_no_fault; [done|]. intros w1 Hq1.
  apply wp_bind, Htab; [apply Hq1|]. intros w2 Hq2. apply wp_ret. pose proof (quiet_trans _ _ _ Hq1 Hq2) as Hq.
  cbn [snapshot_attempts]. apply wp_bind, wp_question. intros w3 Hq3 _ _. rewrite Hs.
  destruct (Z.ltb_spec (LONG_MAX / size) (Z.of_nat (length t + 16))) as [Hlt|_]; [lia|].
  apply wp_bind, wp_no_fault; [done|]. intros w4 Hq4. apply wp_bind. unfold getfsstat. apply wp_bind, wp_no_fault; [done|].
  intros w5 Hq5. pose proof (quiet_trans _ _ _ Hq (quiet_trans _ _ _ Hq3 (quiet_trans _ _ _ Hq4 Hq5))) as Hq'.
  apply wp_bind, Htab; [apply Hq'|]. intros w6 Hq6. apply wp_ret. rewrite take_ge by lia.
  destruct (Nat.ltb_spec (length t) (length t + 16)); [|lia]. apply wp_ret, Ht; [by eapply quiet_trans|].
  intros path Hp. unfold t. by rewrite layers_app, layers_others.
Qed.

Lemma wp_get_top_calm path (Q : option (option mount_layer) -> world -> Prop) w : title_path path ->
  (length (s_mounts (now w)) <= n)%nat ->
  (forall w', quiet w w' -> Q (Some (last (layers path (s_mounts (now w))))) w') -> wp (get_top_mount sys path) Q w.
Proof.
  intros Hp Hlen H. unfold get_top_mount. apply wp_bind, wp_statfs_calm. intros w1 Hq1. destruct (last _) as [l|] eqn:El.
  - by apply wp_ret, H.
  - pose proof Hq1 as (Hn1 & _). apply wp_bind, wp_snapshot_calm; [by rewrite Hn1|]. intros t w2 Hq2 Hs. apply wp_ret.
    specialize (Hs path Hp). rewrite Hn1 in Hs.
    assert (Hb : best_mount path t = None) by (apply best_mount_none; rewrite Hs; by apply last_none_nil).
    rewrite Hb. apply H. by eapply quiet_trans.
Qed.

(** The top is removed when it is a nullfs or a unionfs, and nothing else is. *)
Lemma unmount_top_calm path d (Q : bool -> world -> Prop) w : title_path path -> (length (s_mounts (now w)) <= n)%nat ->
  (forall w', quiet w w' -> layers path (s_mounts (now w)) = [] -> Q true w') ->
  (forall w' l, quiet w w' -> last (layers path (s_mounts (now w))) = Some l -> controlled l = false -> Q false w') ->
  (forall w' l, becomes (Snapshot (s_files (now w)) (remove_top path (s_mounts (now w)))) w w' ->
     last (layers path (s_mounts (now w))) = Some l -> controlled l = true -> Q true w') ->
  wp (unmount_top_controlled_layer_impl sys path d) Q w.
Proof.
  intros Hp Hlen Hnone Hforeign Hours. unfold unmount_top_controlled_layer_impl. apply wp_bind, wp_get_top_calm; [done|done|].
  intros w1 Hq1. pose proof Hq1 as (Hn1 & _). destruct (last _) as [l|] eqn:El.
  2: { apply wp_ret, Hnone; [done|]. by apply last_none_nil. }
  fold (controlled l). destruct (controlled l) eqn:Ec; cbn [negb]; [|by eapply wp_ret, Hforeign].
  apply wp_bind. unfold unmount. apply wp_bind, wp_no_fault; [apply calm_faults|]. intros w2 Hq2.
  pose proof (quiet_trans _ _ _ Hq1 Hq2) as Hq. apply wp_bind, wp_look. pose proof Hq as (Hn2 & _).
  replace (w_mounts w2) with (s_mounts (now w)) by (rewrite <-Hn2; done). destruct (layers _ _) as [|x ls] eqn:E; [done|].
  apply wp_bind. unfold set_mounts. eapply wp_change, wp_ret, wp_ret, Hours; [|done|done]. eapply quiet_becomes; [exact Hq|].
  split; [by rewrite <-Hn2|]. split; [done|]. by exists [].
Qed.

Lemma unmount_layers_calm k path d w : title_path path -> (length (s_mounts (now w)) <= n)%nat ->
  let ls := layers path (s_mounts (now w)) in
  wp (unmount_layers sys k path d) (fun ok w' => exists j, (j <= length ls)%nat /\ layers path (s_mounts (now w')) = take j ls /\
    Forall (fun l => controlled l = true) (drop j ls) /\
    (ok = true <-> j = 0%nat) /\ ((length ls <= k)%nat -> Forall (fun l => controlled l = true) ls -> j = 0%nat)) w.
Proof.
  intros Hp. revert w. induction k as [|k IH]; intros w Hlen; cbn zeta; cbn [unmount_layers].
  - apply wp_bind, wp_get_top_calm; [done|done|]. intros w1 (Hn & _). apply wp_ret.
    exists (length (layers path (s_mounts (now w)))). rewrite Hn, firstn_all, drop_all. repeat split; [lia|constructor|..].
    + destruct (layers _ _) as [|x ls] using rev_ind; [done|]. by rewrite last_snoc.
    + intros H. by apply nil_length_inv in H as ->.
    + intros H. lia.
  - apply wp_bind, wp_get_top_calm; [done|done|]. intros w1 Hq1. pose proof Hq1 as (Hn1 & _).
    destruct (layers path (s_mounts (now w))) as [|x ls _] eqn:El using rev_ind.
    { apply wp_ret. exists 0%nat. rewrite Hn1, El. repeat split; simpl; (done || constructor). }
    rewrite last_snoc. apply wp_bind, unmount_top_calm; [done|by rewrite Hn1|..].
    + intros w2 _ H. rewrite Hn1, El in H. by destruct ls.
    + intros w2 l Hq2 Hl Hc. rewrite Hn1, El, last_snoc in Hl. injection Hl as <-. apply wp_ret.
      exists (length (ls ++ [x])). pose proof (quiet_trans _ _ _ Hq1 Hq2) as (Hn2 & _). rewrite Hn2, El, firstn_all, drop_all.
      rewrite length_app. simpl. repeat split; [lia|constructor|done|lia|]. intros _ [_ H]%Forall_app. inversion H. congruence.
    + intros w2 l Hb Hl Hc. rewrite Hn1, El, last_snoc in Hl. injection Hl as <-. destruct Hb as (Hn2 & _). rewrite Hn1 in Hn2.
      assert (Hls : layers path (s_mounts (now w2)) = ls).
      { rewrite Hn2. cbn [s_mounts]. by rewrite layers_remove_top, El, removelast_last. }
      eapply wp_mono; [apply IH|].
      * rewrite Hn2. cbn [s_mounts]. pose proof (remove_top_length path (s_mounts (now w))). lia.
      * cbn zeta. rewrite Hls. intros ok w3 (j & Hj & Ht & Hd & Hok & Hall). exists j. rewrite length_app. simpl.
        rewrite take_app_le, drop_app_le by done. repeat split; [lia|done| |apply Hok|apply Hok|].
        -- apply Forall_app. split; [done|]. by constructor.
        -- intros Hk [Hcs _]%Forall_app. apply Hall; [lia|done].
Qed.
End calm.

(** Claim C14: Releasing a title's stack removes layers of that title only, from the top,
    and in every state in between the other titles and all files are as before; it
    reports success only when no layer of the title is left, whatever calls fail.
    Without faults it never removes a layer that is not a nullfs or a unionfs, and it
    succeeds when the stack has at most sixteen layers, all of these kinds. *)
Theorem stack_release_exact sys path diagnose_busy w : title_path path ->
  let before := layers path (s_mounts (now w)) in
  wp (unmount_controlled_mount_stack_impl sys path diagnose_busy) (fun ok w' =>
    let after := layers path (s_mounts (now w')) in
    through (fun s => s_files s = s_files (now w) /\ (exists j, layers path (s_mounts s) = take j before) /\
      forall path', path' <> path -> layers path' (s_mounts s) = layers path' (s_mounts (now w))) w w' /\
    (ok = true -> after = []) /\
    (calm sys (length (s_mounts (now w))) -> exists j, after = take j before /\
      Forall (fun l => controlled l = true) (drop j before) /\
      ((length before <= 16)%nat -> Forall (fun l => controlled l = true) before -> ok = true /\ after = []))) w.
Proof.
  intros Hp. cbn zeta. pose proof (unmount_stack_spec sys path diagnose_busy w Hp) as H1.
  assert (H2 : calm sys (length (s_mounts (now w))) -> _) by exact (fun Hc =>
    unmount_layers_calm sys _ Hc (MAX_LAYERED_UNMOUNT_ATTEMPTS * 4) path diagnose_busy w Hp (le_n _)).
  fold (unmount_controlled_mount_stack_impl sys path diagnose_busy) in H2. unfold wp in *.
  destruct (unmount_controlled_mount_stack_impl _ _ _ _) as [[ok w']|]; [|done]. destruct H1 as [Ht Hok]. split; [|split; [done|]].
  - eapply through_mono; [|exact Ht]. intros s Hs. split; [apply Hs|]. split; [by apply peeled_layers|].
    intros path' Hne. by eapply peeled_others.
  - intros Hc. destruct (H2 Hc) as (j & _ & Hl & Hd & Hj & Hall). exists j. split; [done|]. split; [done|].
    intros Hlen Hcs. rewrite Hl. assert (j = 0%nat) as -> by (apply Hall; [exact Hlen|done]). split; [by apply Hj|done].
Qed.

Definition demo_path : string := "/system_ex/app/PPSA01234".
Definition demo_null : mount_layer := Layer demo_path "/data/game" "nullfs" false.
Definition demo_union : mount_layer := Layer demo_path "<above>:/data/homebrew/backports/PPSA01234" "unionfs" false.
Definition demo_mounted : world := World ∅ [demo_null; demo_union] [] 0 [].

Lemma demo_calm n : Z.of_nat (n + 16) <= LONG_MAX / 472 -> calm demo_answers n.
Proof. intros H. split; [by intros k|]. by exists [], 472. Qed.

Lemma stack_release_exact_witness : exists w', unmount_controlled_mount_stack_impl demo_answers demo_path true demo_mounted = Some (true, w') /\
  layers demo_path (s_mounts (now w')) = [].
Proof.
  pose proof (stack_release_exact demo_answers demo_path true demo_mounted ltac:(reflexivity)) as H. cbn zeta in H.
  apply wp_ends in H as (ok & w' & Hrun & _ & _ & Hc). destruct (Hc ltac:(apply demo_calm; vm_compute; discriminate)) as (j & _ & _ & Hall).
  destruct Hall as [-> Ha]; [vm_compute; lia|repeat constructor|]. exists w'. split; [exact Hrun|exact Ha].
Defined.

(** ** What an inspection finds *)
Definition our_layer (source_path : string) (l : mount_layer) : bool :=
  is_nullfs l && (negb (strcmp_eq source_path "") && strcmp_eq (f_mntfromname l) source_path).

Definition root_layer (source_root : string) (l : mount_layer) : bool :=
  is_nullfs l && (negb (strcmp_eq source_root "") && path_matches_root_or_child (f_mntfromname l) source_root).

(** What the state says of the layers [ls] and of the layer [top] taken for the top. *)
Record found (title_id source_path source_root : string) (ls : list mount_layer) (top : option mount_layer)
    (st : title_mount_state_t) : Prop := {
  found_mounted : mounted st = bool_decide (is_Some top);
  found_ours : has_our_nullfs st = existsb (our_layer source_path) ls;
  found_root : has_nullfs_from_root st = existsb (root_layer source_root) ls;
  found_count : our_nullfs_count st = count_if (our_layer source_path) ls;
  found_top : top_is_our_nullfs st = match top with Some l => our_layer source_path l | None => false end;
  found_backport : top_kind st = TITLE_STACK_TOP_BACKPORT -> exists l, top = Some l /\ is_unionfs l = true;
  found_from : top_from st = match top with
    | Some l => strlcpy (if is_unionfs l then strip_above (f_mntfromname l) else f_mntfromname l) MAX_PATH | None => "" end%string;
  found_path : system_ex_path st = system_ex_path_of title_id;
}.

Lemma nullfs_not_unionfs l : is_nullfs l = true -> is_unionfs l = false.
Proof. unfold is_nullfs, is_unionfs. intros ->%strcmp_eq_true. done. Qed.

Lemma existsb_in {A} (p : A -> bool) ls x : x ∈ ls -> p x = true -> existsb p ls = true.
Proof. intros Hin Hp. apply existsb_exists. exists x. split; [by apply list_elem_of_In|done]. Qed.

Section inspect.
Context (sys : answers).

Lemma wp_managed title_id path (Q : bool -> world -> Prop) w :
  (forall b w', quiet w w' -> Q b w') -> wp (path_is_managed_backport_for_title sys title_id path) Q w.
Proof. intros H. unfold path_is_managed_backport_for_title. apply wp_bind, wp_any. intros a w' Hq. by apply wp_ret, H. Qed.

Lemma inspect_layers_spec title_id src root ls st (Q : title_mount_state_t -> world -> Prop) w :
  (forall st' w', quiet w w' -> has_our_nullfs st' = has_our_nullfs st || existsb (our_layer src) ls ->
    has_nullfs_from_root st' = has_nullfs_from_root st || existsb (root_layer root) ls ->
    our_nullfs_count st' = (our_nullfs_count st + count_if (our_layer src) ls)%nat ->
    (mounted st', top_is_our_nullfs st', top_kind st', system_ex_path st', top_from st') =
    (mounted st, top_is_our_nullfs st, top_kind st, system_ex_path st, top_from st) -> Q st' w') ->
  wp (inspect_layers sys title_id src root ls st) Q w.
Proof.
  revert st w. induction ls as [|l ls IH]; intros st w H; cbn [inspect_layers].
  { apply wp_ret, H; [apply quiet_refl|by rewrite orb_false_r|by rewrite orb_false_r|simpl; lia|done]. }
  cbn [existsb count_if] in H. unfold our_layer at 1, root_layer at 1 in H. destruct (is_nullfs l) eqn:En; cbn [andb] in H.
  - apply IH. cbn. intros st' w' Hq H1 H2 H3 H4. apply H; [done|by rewrite orb_assoc|by rewrite orb_assoc| |done].
    unfold our_layer at 1. rewrite En. cbn [andb]. destruct (_ && _); lia.
  - apply wp_bind.
    assert (Hrest : forall b w1, quiet w w1 -> wp (inspect_layers sys title_id src root ls (MountState (mounted st) (has_our_nullfs st)
      (has_nullfs_from_root st) (has_our_backport st || b) (top_is_our_nullfs st) (our_nullfs_count st)
      (if b : bool then S (our_backport_count st) else our_backport_count st) (top_kind st) (system_ex_path st) (top_from st))) Q w1).
    { intros b w1 Hq1. apply IH. cbn. intros st' w' Hq H1 H2 H3 H4. apply H; [by eapply quiet_trans|done|done| |done].
      unfold our_layer at 1. rewrite En. cbn [andb]. lia. }
    destruct (is_unionfs l); [apply wp_managed; intros b w1 Hq1; by apply Hrest|apply wp_ret, Hrest, quiet_refl].
Qed.

Lemma inspect_top_spec title_id src root ls top st (Q : title_mount_state_t -> world -> Prop) w :
  found title_id src root ls None st -> top ∈ ls ->
  (forall st' w', quiet w w' -> found title_id src root ls (Some top) st' -> Q st' w') ->
  wp (inspect_top sys title_id src top st) Q w.
Proof.
  intros [Hm Ho Hr Hc Ht Hk Hf Hp] Hin H.
  assert (Hour : forall b, b = our_layer src top -> has_our_nullfs st || b = existsb (our_layer src) ls).
  { intros b ->. rewrite Ho. destruct (our_layer src top) eqn:E; [|by rewrite orb_false_r]. rewrite orb_true_r.
    symmetry. by eapply existsb_in. }
  unfold inspect_top. destruct (is_nullfs top) eqn:En.
  - pose proof (nullfs_not_unionfs top En) as Eu. rewrite Eu. apply wp_ret, H; [apply quiet_refl|].
    assert (Hb : negb (strcmp_eq src "") && strcmp_eq (f_mntfromname top) src = our_layer src top) by (unfold our_layer; by rewrite En).
    split; cbn; rewrite ?Eu; [done|by apply Hour|done|done|done|done|done|done].
  - assert (Hb : our_layer src top = false) by (unfold our_layer; by rewrite En).
    assert (Hfound : forall kind b, (kind = TITLE_STACK_TOP_BACKPORT -> is_unionfs top = true) ->
      found title_id src root ls (Some top) (MountState true (has_our_nullfs st || false) (has_nullfs_from_root st)
        (has_our_backport st || b) false (our_nullfs_count st) (our_backport_count st) kind (system_ex_path st)
        (strlcpy (if is_unionfs top then strip_above (f_mntfromname top) else f_mntfromname top) MAX_PATH))).
    { intros kind b Hkind. split; cbn; [done|by apply Hour|done|done|done|by intros ?; eauto|done|done]. }
    destruct (is_unionfs top) eqn:Eu; [|apply wp_ret, H; [apply quiet_refl|by apply Hfound]].
    apply wp_bind, wp_managed. intros b w4 Hq4. destruct b; by apply wp_ret, H, Hfound.
Qed.

Lemma inspect_spec title_id src root (Q : option title_mount_state_t -> world -> Prop) w : title_path (system_ex_path_of title_id) ->
  let ls := layers (system_ex_path_of title_id) (s_mounts (now w)) in
  (forall w', quiet w w' -> Q None w') ->
  (forall st top w', quiet w w' -> top = last ls \/ top = foldl better_mount None ls /\ ~ no_faults sys ->
     found title_id src root ls top st -> Q (Some st) w') ->
  wp (inspect_title_stack sys title_id src root) Q w.
Proof.
  cbn zeta. intros Hp Hnone Hsome. unfold inspect_title_stack. set (path := system_ex_path_of title_id) in *.
  set (ls := layers path (s_mounts (now w))) in *.
  apply wp_bind.
  assert (Hrest : forall (s : option mount_layer + Z) w1, quiet w w1 -> (s = inl (last ls) \/ (exists e, s = inr e) /\ ~ no_faults sys) ->
    wp (let* t := sm_mount_table_snapshot sys in
        match t with
        | None => ret None
        | Some t =>
            let* st := inspect_layers sys title_id src root (layers path t) (no_mounts title_id) in
            match (match s with inl (Some l) => Some l | _ => best_mount path t end) with
            | Some top => let* st := inspect_top sys title_id src top st in ret (Some st)
            | None =>
                match s with
                | inr e => if (e =? 0) || (e =? ENOENT) || (e =? EINVAL) then ret (Some st) else ret None
                | inl _ => ret (Some st)
                end
            end
        end) Q w1).
  { intros s w1 Hq1 Hs. pose proof Hq1 as (Hn1 & _). apply wp_bind, wp_snapshot.
    - intros w2 Hq2. apply wp_ret, Hnone. by eapply quiet_trans.
    - intros t w2 Hq2 Ht. rewrite Hn1 in Ht. specialize (Ht path Hp). fold ls in Ht. unfold best_mount. rewrite Ht.
      apply wp_bind, inspect_layers_spec. intros st w3 Hq3 Ho Hr Hc Hsame. cbn in Ho, Hr, Hc, Hsame. injection Hsame as Hm Hto Hk Hpath Hf.
      pose proof (quiet_trans _ _ _ Hq1 (quiet_trans _ _ _ Hq2 Hq3)) as Hq.
      assert (Hfound : found title_id src root ls None st).
      { split; rewrite ?Hm, ?Ho, ?Hr, ?Hc, ?Hto, ?Hk, ?Hpath, ?Hf; done. }
      set (top := match s with inl (Some l) => Some l | _ => foldl better_mount None ls end).
      assert (Htop : top = last ls \/ top = foldl better_mount None ls /\ ~ no_faults sys).
      { subst top. destruct Hs as [->|[[e ->] Hbad]]; [left|by right]. destruct (last ls) as [l|] eqn:El; [done|].
        by rewrite (last_none_nil ls El). }
      destruct top as [top|].
      + apply wp_bind, (inspect_top_spec title_id src root ls); [done| |].
        { destruct Htop as [Htop|[Htop _]]; [by apply last_in|]. apply (best_mount_in path (s_mounts (now w))). by rewrite Htop. }
        intros st' w4 Hq4 Hf'. apply wp_ret, (Hsome _ (Some top)); [by eapply quiet_trans|done|done].
      + destruct s as [o|e]; [by apply wp_ret, (Hsome _ None)|].
        destruct (_ || _); [by apply wp_ret, (Hsome _ None)|by apply wp_ret, Hnone]. }
  apply wp_statfs; [intros e w1 Hq1 Hbad; apply (Hrest (inr e)); eauto|]. intros w1 Hq1. apply (Hrest (inl (last ls))); auto.
Qed.
End inspect.
