(* ===== verification/TitleMounts.v ===== *)
(** * Mounting titles and clearing up after them (src/sm_filesystem.c)

    [mount_title_nullfs] shows a title's source at its mount point; the passes over
    [/user/app] restore links that an interrupted removal set aside, reset stacks that
    were mounted twice, remove the links (and stacks) of sources that are gone, and
    release everything at exit.  Built on the links of TitleLinks.v and the stacks of
    MountStack.v. *)
From S2P Require Import Prelude CString ScanBackports Effects TitleLinks MountStack.
From stdpp Require Import gmap strings.
Open Scope Z_scope.
Open Scope c_scope.

Definition APPMETA_BASE : string := "/user/appmeta".

(** [cleanup_mount_links_ctx_t]; an empty root is NULL. *)
Record cleanup_mount_links_ctx_t := CleanupCtx {
  removed_source_root : string; unmount_system_ex_bind : bool; force_remove_matching_source : bool;
  match_usb_sources : bool; preserve_mount_links : bool;
}.

Section titles.
Context (sys : answers).

(** ** Questions about paths *)
Definition path_exists (path : string) : M bool :=
  if strcmp_eq path "" then ret false
  else let* st := ask sys (Stat path) in ret (match st with inl _ => true | inr _ => false end).

Definition is_regular (path : string) : M bool :=
  let* st := ask sys (Stat path) in ret (match st with inl IsRegular => true | _ => false end).

(** A path that does not fit is passed over. *)
Definition has_executable_named (dir_path name : string) : M bool :=
  let path := (dir_path ++ "/" ++ name)%string in
  if (strlen path <? MAX_PATH)%nat then is_regular path else ret false.

Definition directory_has_game_executable (dir_path : string) : M bool :=
  let* first := has_executable_named dir_path "eboot.bin" in
  if first : bool then ret true else has_executable_named dir_path "eboot2.bin".

Definition is_installed (title_id : string) : M bool :=
  let* st := ask sys (Stat (strlcpy (APP_BASE ++ "/" ++ title_id) MAX_PATH)) in
  ret (match st with inl _ => true | inr _ => false end).

Definition appmeta_file_named (title_id name : string) : M bool :=
  let path := (APPMETA_BASE ++ "/" ++ title_id ++ "/" ++ name)%string in
  if (strlen path <? MAX_PATH)%nat then is_regular path else ret false.

Definition has_appmeta_data (title_id : string) : M bool :=
  let* first := appmeta_file_named title_id "param.json" in
  if first : bool then ret true else appmeta_file_named title_id "param.sfo".

(** [directory_has_game_param] is in another component. *)
Definition is_data_mounted (title_id : string) : M bool :=
  let* r := ask sys (Call "directory_has_game_param" [strlcpy ("/system_ex/app/" ++ title_id) MAX_PATH]) in
  ret (negb (r =? 0)).

(** ** Mounting *)
Definition recover_mount_directory_after_stat_failure (path : string) : M (option inode_kind) :=
  let* _ := unmount_controlled_mount_stack sys path in
  let* st := ask sys (Stat path) in
  match st with
  | inl kind => ret (Some kind)
  | inr e =>
      if negb (e =? ENOENT) then ret None
      else
        let* made := ask sys (Mkdir path) in
        let failed := match made with Some e => negb (e =? EEXIST) | None => false end in
        if failed then ret None
        else
          let* st := ask sys (Stat path) in
          ret (match st with inl kind => Some kind | inr _ => None end)
  end.

(** The mount directory is there. *)
Definition prepare_mount_directory (dst : string) : M bool :=
  let* made := ask sys (Mkdir dst) in
  match made with
  | None => ret true
  | Some e =>
      if negb (e =? EEXIST) then ret false
      else
        let* st := ask sys (Stat dst) in
        let* kind := (match st with inl kind => ret (Some kind) | inr _ => recover_mount_directory_after_stat_failure dst end) in
        ret (match kind with Some IsDir => true | _ => false end)
  end.

(** From the check for sleep on: the mount, and its removal when it is not wanted. *)
Definition mount_new_nullfs (src_path dst : string) : M bool :=
  let* sleeping := ask sys Sleeping in
  if sleeping : bool then ret false
  else
    let* e := nmount sys (Layer dst src_path "nullfs" false) in
    match e with
    | Some _ => ret false
    | None =>
        let* sleeping := ask sys Sleeping in
        if sleeping : bool then let* _ := unmount_top_controlled_layer sys dst in ret false
        else
          let* shown := directory_has_game_executable dst in
          if shown : bool then ret true
          else let* _ := unmount_top_controlled_layer sys dst in ret false
    end.

Definition mount_title_nullfs (title_id src_path : string) : M bool :=
  let dst := system_ex_path_of title_id in
  let* st := ask sys (Stat src_path) in
  match st with
  | inl IsDir =>
      let* playable := directory_has_game_executable src_path in
      if negb playable then ret false
      else
        let* prepared := prepare_mount_directory dst in
        if negb prepared then ret false
        else
          let* st := inspect_title_stack sys title_id src_path "" in
          match st with
          | None => ret false
          | Some st =>
              if mounted st then
                let* active := (if has_our_nullfs st && title_stack_top_is_managed st
                                then directory_has_game_executable dst else ret false) in
                if active : bool then ret true
                else
                  let* released := unmount_controlled_mount_stack sys dst in
                  if released : bool then mount_new_nullfs src_path dst else ret false
              else mount_new_nullfs src_path dst
          end
  | _ => ret false
  end.

(** ** The titles of [/user/app] *)

(** [None] is the [false] return; the path is what [app_dir] receives. *)
Definition resolve_title_app_dir (name : string) (d_type : app_entry_type) : M (option string) :=
  if bool_decide (char_at name 0 = Some "."%char) || negb (strlen name =? 9)%nat then ret None
  else
    let path := (APP_BASE ++ "/" ++ name)%string in
    match d_type with
    | DT_DIR => ret (Some path)
    | DT_OTHER => ret None
    | DT_UNKNOWN => let* st := ask sys (Stat path) in ret (match st with inl IsDir => Some path | _ => None end)
    end.

(** The loop over the entries with what [ctx] points to; [false] is a stop before the end. *)
Fixpoint for_entries {A} (stop_on_signal : bool) (fn : string -> title_link_paths_t -> A -> M (A * bool))
    (entries : list (string * app_entry_type)) (ctx : A) : M (A * bool) :=
  match entries with
  | [] => ret (ctx, true)
  | (name, d_type) :: rest =>
      let* stop := (if stop_on_signal then ask sys Stopping else ret false) in
      if stop : bool then ret (ctx, false)
      else
        let* dir := resolve_title_app_dir name d_type in
        match dir with
        | None => for_entries stop_on_signal fn rest ctx
        | Some _ =>
            let* result := fn name (build_title_link_paths name) ctx in
            let '(ctx, go_on) := result in
            if go_on : bool then for_entries stop_on_signal fn rest ctx else ret (ctx, false)
        end
  end.

Definition for_each_title_app_dir {A} (stop_on_signal : bool) (fn : string -> title_link_paths_t -> A -> M (A * bool)) (ctx : A) :
    M (A * bool) :=
  let* entries := ask sys AppEntries in
  match entries with
  | inr e => ret (ctx, e =? ENOENT)
  | inl entries =>
      let* result := for_entries stop_on_signal fn entries ctx in
      let '(ctx, completed) := result in
      let* bad := ask sys CloseFails in
      ret (ctx, completed && negb bad)
  end.

(** An entry function that leaves [ctx] alone. *)
Definition each (fn : string -> title_link_paths_t -> M bool) (title_id : string) (paths : title_link_paths_t) (ctx : ()) : M (() * bool) :=
  let* go_on := fn title_id paths in ret (ctx, go_on).

(** ** Links set aside by an interrupted removal *)
Definition note_image_source (image_path mount_point : string) : M Z :=
  ask sys (Call "cache_image_source_mapping" [image_path; mount_point]).

(** What is done with a link that was set aside; [false] ends the work on the title. *)
Definition restore_staged_link (paths : title_link_paths_t) : M bool :=
  let* staged := stat_file sys (staged_mount_link paths) in
  match staged with
  | inl _ =>
      let* link := stat_file sys (mount_link paths) in
      match link with
      | inl _ => let* _ := unlink sys (staged_mount_link paths) in ret true
      | inr e =>
          if negb (e =? ENOENT) then ret true
          else
            let* r := rename sys (staged_mount_link paths) (mount_link paths) in
            ret (match r with None => true | Some _ => false end)
      end
  | inr e => ret (e =? ENOENT)
  end.

Definition cleanup_staged_mount_links_entry (title_id : string) (paths : title_link_paths_t) : M bool :=
  let* go_on := restore_staged_link paths in
  if negb go_on then ret true
  else
    let* source := read_mount_link_file sys (mount_link paths) MAX_PATH in
    match source with
    | Some source_path =>
        if negb (is_under_image_mount_base source_path) then
          let* _ := unlink sys (mount_image_link paths) in ret true
        else
          let* image := read_mount_link_file sys (mount_image_link paths) MAX_PATH in
          match image with
          | None => ret true
          | Some image_source_path => let* _ := note_image_source image_source_path source_path in ret true
          end
    | None => let* _ := unlink sys (mount_image_link paths) in ret true
    end.

Definition cleanup_staged_mount_links : M () :=
  let* _ := for_each_title_app_dir false (each cleanup_staged_mount_links_entry) tt in ret tt.

(** ** Sources that are gone *)
Definition directory_needs_cleanup (source_path : string) : M bool :=
  let* there := path_exists source_path in
  if negb there then ret true
  else if path_matches_root_or_child source_path SYSTEM_EX_APP then ret true
  else let* playable := directory_has_game_executable source_path in ret (negb playable).

(** What an image says of a source inside it, if anything. *)
Definition image_decides (source_path : string) (image : option string) : M (option bool) :=
  match image with
  | None => ret None
  | Some image_source_path =>
      let* image_there := path_exists image_source_path in
      if negb image_there then ret (Some true)
      else
        let* source_there := path_exists source_path in
        ret (if negb source_there then Some false else None)
  end.

Definition source_path_needs_cleanup (source_path : string) : M bool :=
  let* image := (if is_under_image_mount_base source_path then ask sys (CachedImage source_path) else ret None) in
  let* decided := image_decides source_path image in
  match decided with Some b => ret b | None => directory_needs_cleanup source_path end.

Definition resolve_mount_image_source_path (paths : title_link_paths_t) (source_path : string) : M (option string) :=
  if negb (is_under_image_mount_base source_path) then ret None
  else
    let* image := read_mount_link_file sys (mount_image_link paths) MAX_PATH in
    match image with
    | Some image_source_path =>
        let* _ := note_image_source image_source_path source_path in ret (Some image_source_path)
    | None => ask sys (CachedImage source_path)
    end.

(** Is the source gone, by its image or by itself? *)
Definition link_source_gone (source_path : string) (image : option string) : M bool :=
  let* image_gone := (match image with
    | Some p => let* there := path_exists p in ret (negb there)
    | None => ret false
    end) in
  if image_gone : bool then ret true else source_path_needs_cleanup source_path.

(** [should_remove] and [matches_removed_source]; [None] leaves the link alone. *)
Definition link_to_remove (ctx : cleanup_mount_links_ctx_t) (source_path : string) (image : option string) : M (option (bool * bool)) :=
  if match_usb_sources ctx then
    ret (if is_usb_storage_path source_path || match image with Some p => is_usb_storage_path p | None => false end
         then Some (true, true) else None)
  else if negb (strcmp_eq (removed_source_root ctx) "") then
    if path_matches_root_or_child source_path (removed_source_root ctx) ||
       match image with Some p => path_matches_root_or_child p (removed_source_root ctx) | None => false end
    then
      if force_remove_matching_source ctx then ret (Some (true, true))
      else let* gone := link_source_gone source_path image in ret (Some (gone, true))
    else ret None
  else let* gone := link_source_gone source_path image in ret (Some (gone, false)).

Definition stack_matches_link (ctx : cleanup_mount_links_ctx_t) (source_path : string) (matches_removed_source : bool)
    (st : title_mount_state_t) : bool :=
  if negb (strcmp_eq source_path "") then has_our_nullfs st
  else matches_removed_source && negb (strcmp_eq (removed_source_root ctx) "") && has_nullfs_from_root st.

(** Releasing the stack: [None] leaves the title alone, otherwise [keep_mount_link] and
    [mount_link_staged]. *)
Definition release_stack (ctx : cleanup_mount_links_ctx_t) (title_id : string) (paths : title_link_paths_t) (source_path : string)
    (matches_removed_source : bool) : M (option (bool * bool)) :=
  let* st := inspect_title_stack sys title_id source_path (removed_source_root ctx) in
  match st with
  | None => ret None
  | Some st =>
      let top_is_ours := title_stack_top_is_managed st in
      let matching := stack_matches_link ctx source_path matches_removed_source st in
      if matching && negb top_is_ours then ret (Some (true, false))
      else if top_is_ours && matching then
        let* staged := (if negb (preserve_mount_links ctx) then
                          let* r := rename sys (mount_link paths) (staged_mount_link paths) in
                          ret (match r with None => Some true | Some _ => None end)
                        else ret (Some false)) in
        match staged with
        | None => ret None
        | Some mount_link_staged =>
            let* released := unmount_controlled_mount_stack sys (system_ex_path st) in
            ret (Some (negb released, mount_link_staged))
        end
      else ret (Some (false, false))
  end.

(** Removing the link, or putting it back. *)
Definition finish_link (paths : title_link_paths_t) (keep_mount_link mount_link_staged : bool) : M () :=
  if negb keep_mount_link then
    let* r := unlink sys (if mount_link_staged then staged_mount_link paths else mount_link paths) in
    when (match r with None => true | Some e => e =? ENOENT end)
      (let* _ := unlink sys (mount_image_link paths) in ret tt)
  else when mount_link_staged (let* _ := rename sys (staged_mount_link paths) (mount_link paths) in ret tt).

Definition cleanup_mount_links_entry (ctx : cleanup_mount_links_ctx_t) (title_id : string) (paths : title_link_paths_t) : M bool :=
  let* protected := ask sys (Protected title_id) in
  if protected : bool then ret true
  else
    let* st := stat_file sys (mount_link paths) in
    match st with
    | inl IsRegular =>
        let* source := read_mount_link_file sys (mount_link paths) MAX_PATH in
        let* decision := (match source with
          | None => ret (Some (true, false))
          | Some source_path =>
              let* image := resolve_mount_image_source_path paths source_path in
              link_to_remove ctx source_path image
          end) in
        match decision with
        | Some (true, matches_removed_source) =>
            let* state := (if unmount_system_ex_bind ctx
                           then release_stack ctx title_id paths (default "" source) matches_removed_source
                           else ret (Some (false, false))) in
            match state with
            | None => ret true
            | Some (keep, staged) =>
                let* _ := finish_link paths (keep || preserve_mount_links ctx) staged in ret true
            end
        | _ => ret true
        end
    | _ => ret true
    end.

Definition cleanup_mount_links (source_root : string) (unmount_bind : bool) : M () :=
  let* _ := for_each_title_app_dir (negb unmount_bind)
    (each (cleanup_mount_links_entry (CleanupCtx source_root unmount_bind false false false))) tt in
  ret tt.

Definition cleanup_mount_links_for_source_unmount (source_root : string) : M () :=
  if strcmp_eq source_root "" then ret tt
  else let* _ := for_each_title_app_dir false (each (cleanup_mount_links_entry (CleanupCtx source_root true true false false))) tt in ret tt.

Definition cleanup_usb_mount_links_for_suspend : M () :=
  let* _ := for_each_title_app_dir false (each (cleanup_mount_links_entry (CleanupCtx "" true false true true))) tt in ret tt.

(** ** Whole stacks *)
Definition cleanup_duplicate_title_mounts_entry (title_id : string) (paths : title_link_paths_t) : M bool :=
  let* source := read_mount_link_file sys (mount_link paths) MAX_PATH in
  match source with
  | None => ret true
  | Some source_path =>
      let* st := inspect_title_stack sys title_id source_path "" in
      match st with
      | None => ret true
      | Some st =>
          if ((our_nullfs_count st <=? 1)%nat && (our_backport_count st <=? 1)%nat) || negb (has_our_nullfs st) then ret true
          else if negb (title_stack_top_is_managed st) then ret true
          else let* _ := unmount_controlled_mount_stack sys (system_ex_path st) in ret true
      end
  end.

Definition cleanup_duplicate_title_mounts : M () :=
  let* _ := for_each_title_app_dir false (each cleanup_duplicate_title_mounts_entry) tt in ret tt.

(** [*ctx] is [all_released]. *)
Definition unmount_managed_title_entry (title_id : string) (paths : title_link_paths_t) (all_released : bool) : M (bool * bool) :=
  let* protected := ask sys (Protected title_id) in
  if protected : bool then ret (all_released, true)
  else
    let* source := read_mount_link_file sys (mount_link paths) MAX_PATH in
    match source with
    | None => ret (all_released, true)
    | Some source_path =>
        let* st := inspect_title_stack sys title_id source_path "" in
        match st with
        | None => ret (false, true)
        | Some st =>
            if negb (has_our_nullfs st) then ret (all_released, true)
            else let* released := unmount_title_runtime_layers sys title_id in ret (all_released && released, true)
        end
    end.

Definition unmount_all_title_runtime_layers : M bool :=
  let* result := for_each_title_app_dir false unmount_managed_title_entry true in
  let '(all_released, completed) := result in ret (completed && all_released).

Definition shutdown_title_mounts_entry (title_id : string) (paths : title_link_paths_t) (all_released : bool) : M (bool * bool) :=
  let* source := read_mount_link_file sys (mount_link paths) MAX_PATH in
  match source with
  | None => ret (all_released, true)
  | Some source_path =>
      let* st := inspect_title_stack sys title_id source_path "" in
      match st with
      | None => ret (false, true)
      | Some st =>
          if negb (has_our_nullfs st) then ret (all_released, true)
          else if negb (title_stack_top_is_managed st) then ret (false, true)
          else let* released := unmount_controlled_mount_stack sys (system_ex_path st) in ret (all_released && released, true)
      end
  end.

Definition shutdown_title_mounts : M bool :=
  let* result := for_each_title_app_dir false shutdown_title_mounts_entry true in
  let '(all_released, completed) := result in ret (completed && all_released).
End titles.

(** ** The files and mount points of different titles *)
Definition app_title (t : string) : Prop := strlen t = 9%nat.

Definition links (t : string) : title_link_paths_t := build_title_link_paths t.

Definition link_files (t : string) : list string := [mount_link (links t); staged_mount_link (links t); mount_image_link (links t)].

Lemma append_inj_length a b c d : strlen a = strlen b -> (a ++ c = b ++ d)%string -> a = b /\ c = d.
Proof.
  revert b. induction a as [|x a IH]; intros [|y b] Hl H; simpl in *; try done; try (exfalso; unfold strlen in Hl; simpl in Hl; lia).
  injection H as -> H. destruct (IH b) as [-> ->]; [unfold strlen in *; lia|done|done].
Qed.

Lemma append_inj_l a c d : (a ++ c = a ++ d)%string -> c = d.
Proof. intros H. by apply append_inj_length in H as [_ ->]. Qed.

Lemma link_path_of t f : app_title t -> (strlen f <= 20)%nat -> build_title_link_path t f = (APP_BASE ++ "/" ++ t ++ "/" ++ f)%string.
Proof. unfold app_title. intros Ht Hf. apply build_title_link_path_fits. lia. Qed.

Lemma link_path_inj t t' f f' : app_title t -> app_title t' -> (strlen f <= 20)%nat -> (strlen f' <= 20)%nat ->
  build_title_link_path t f = build_title_link_path t' f' -> t = t' /\ f = f'.
Proof.
  intros Ht Ht' Hf Hf' H. rewrite !link_path_of in H by done. apply append_inj_l, append_inj_l in H.
  unfold app_title in *. apply append_inj_length in H as [-> H]; [|congruence]. split; [done|]. by apply append_inj_l in H.
Qed.

Lemma link_files_inv t p : p ∈ link_files t -> exists f, (strlen f <= 20)%nat /\ p = build_title_link_path t f.
Proof.
  unfold link_files, links. cbn [mount_link staged_mount_link mount_image_link build_title_link_paths].
  rewrite !elem_of_cons. intros [->|[->|[->|H]]]; [eexists; split; [|done]; cbn; lia..|by apply elem_of_nil in H].
Qed.

Lemma link_files_disjoint t t' p : app_title t -> app_title t' -> t <> t' -> p ∈ link_files t -> p ∉ link_files t'.
Proof.
  intros Ht Ht' Hne (f & Hf & ->)%link_files_inv (f' & Hf' & H)%link_files_inv. by apply link_path_inj in H as [? _].
Qed.

Lemma links_distinct t : app_title t -> mount_link (links t) <> staged_mount_link (links t) /\
  mount_link (links t) <> mount_image_link (links t) /\ staged_mount_link (links t) <> mount_image_link (links t).
Proof.
  intros Ht. unfold links. cbn [mount_link staged_mount_link mount_image_link build_title_link_paths].
  split; [|split]; intros H; apply link_path_inj in H as [_ H]; (done || (cbn; lia)).
Qed.

Lemma system_ex_path_eq t : app_title t -> system_ex_path_of t = (SYSTEM_EX_APP ++ "/" ++ t)%string.
Proof.
  unfold app_title. intros Ht. apply strlcpy_fits. rewrite !strlen_append, Ht. apply Nat.ltb_lt. vm_compute. reflexivity.
Qed.

Lemma system_ex_title_path t : app_title t -> title_path (system_ex_path_of t).
Proof. intros Ht. rewrite system_ex_path_eq by done. unfold title_path. apply has_prefix_spec. by exists t. Qed.

Lemma system_ex_path_inj t t' : app_title t -> app_title t' -> system_ex_path_of t = system_ex_path_of t' -> t = t'.
Proof. intros Ht Ht' H. rewrite !system_ex_path_eq in H by done. by apply append_inj_l, append_inj_l in H. Qed.

(** ** What is known of a title's link *)

(** The link, or the one set aside for it. *)
Definition held (t : string) (s : snapshot) : option string :=
  match s_files s !! mount_link (links t) with Some c => Some c | None => s_files s !! staged_mount_link (links t) end.

(** Not both. *)
Definition unambiguous (t : string) (s : snapshot) : Prop :=
  s_files s !! mount_link (links t) = None \/ s_files s !! staged_mount_link (links t) = None.

(** No layer of the source in [c] is left on the title. *)
Definition released (t c : string) (s : snapshot) : Prop :=
  forall source, link_line MAX_PATH c = Some source -> existsb (our_layer source) (layers (system_ex_path_of t) (s_mounts s)) = false.

(** The title's link is as it was in [s0], or it is gone and so are the layers of its
    source. *)
Definition link_kept (t : string) (s0 s : snapshot) : Prop :=
  unambiguous t s /\ (held t s = held t s0 \/ (held t s = None /\ forall c, held t s0 = Some c -> released t c s)).

(** Only files of [t] and layers of [t] differ. *)
Definition title_frame (t : string) (s s' : snapshot) : Prop :=
  (forall p, p ∉ link_files t -> s_files s' !! p = s_files s !! p) /\
  (forall path, path <> system_ex_path_of t -> layers path (s_mounts s') = layers path (s_mounts s)).

Lemma title_frame_other t t' s s' : app_title t -> app_title t' -> t' <> t -> title_frame t s s' ->
  (forall p, p ∈ link_files t' -> s_files s' !! p = s_files s !! p) /\
  layers (system_ex_path_of t') (s_mounts s') = layers (system_ex_path_of t') (s_mounts s).
Proof.
  intros Ht Ht' Hne [Hf Hl]. split.
  - intros p Hp. apply Hf. by eapply (link_files_disjoint t' t).
  - apply Hl. intros H. by apply system_ex_path_inj in H.
Qed.

Lemma held_same t s s' : (forall p, p ∈ link_files t -> s_files s' !! p = s_files s !! p) -> held t s' = held t s.
Proof. intros H. unfold held. rewrite !H; [done| |]; unfold link_files; rewrite !elem_of_cons; tauto. Qed.

(** All titles. *)
Definition links_kept (s0 s : snapshot) : Prop := forall t, app_title t -> link_kept t s0 s.

Lemma links_kept_step t s0 s s' : app_title t -> links_kept s0 s -> title_frame t s s' -> link_kept t s0 s' -> links_kept s0 s'.
Proof.
  intros Ht Hk Hf Ht' t' Happ. destruct (decide (t' = t)) as [->|Hne]; [done|].
  destruct (title_frame_other t t' s s' Ht Happ Hne Hf) as [Hfiles Hlayers]. destruct (Hk t' Happ) as [Hu Hh]. split.
  - unfold unambiguous in *. rewrite !Hfiles; [done| |]; unfold link_files; rewrite !elem_of_cons; tauto.
  - rewrite (held_same t' s s') by done. destruct Hh as [Hh|[Hh Hr]]; [by left|right]. split; [done|].
    intros c Hc source Hs. rewrite Hlayers. by apply (Hr c).
Qed.

(** The frame of a removal of layers. *)
Lemma peeled_frame t s s' : peeled (system_ex_path_of t) s s' -> title_frame t s s'.
Proof. intros H. split; [intros p _; by destruct H as [-> _]|]. intros path Hne. by eapply peeled_others. Qed.

Lemma existsb_take {A} (p : A -> bool) j l : existsb p l = false -> existsb p (take j l) = false.
Proof.
  revert j. induction l as [|x l IH]; intros [|j]; simpl; [done..|]. intros H. bool_hyps. by rewrite H, IH.
Qed.

Lemma link_kept_peeled t s0 s s' : peeled (system_ex_path_of t) s s' -> link_kept t s0 s -> link_kept t s0 s'.
Proof.
  intros Hp [Hu Hh]. pose proof (peeled_layers _ _ _ Hp) as [j Hj]. destruct Hp as [Hf _]. split; [unfold unambiguous in *; by rewrite Hf|].
  assert (Hheld : held t s' = held t s) by (unfold held; by rewrite Hf). rewrite Hheld.
  destruct Hh as [Hh|[Hh Hr]]; [by left|right; split; [done|]]. intros c Hc source Hs. rewrite Hj. by apply existsb_take, (Hr c).
Qed.

Lemma delete_frame t p s : p ∈ link_files t -> title_frame t s (Snapshot (delete p (s_files s)) (s_mounts s)).
Proof. intros Hp. split; [|done]. intros q Hq. cbn. rewrite lookup_delete_ne; [done|]. by intros ->. Qed.

Lemma move_frame t p q c s : p ∈ link_files t -> q ∈ link_files t ->
  title_frame t s (Snapshot (<[q := c]> (delete p (s_files s))) (s_mounts s)).
Proof.
  intros Hp Hq. split; [|done]. intros r Hr. cbn. rewrite lookup_insert_ne by (by intros ->).
  rewrite lookup_delete_ne; [done|]. by intros ->.
Qed.

Lemma mount_link_in t : mount_link (links t) ∈ link_files t.
Proof. unfold link_files. rewrite !elem_of_cons. tauto. Qed.
Lemma staged_link_in t : staged_mount_link (links t) ∈ link_files t.
Proof. unfold link_files. rewrite !elem_of_cons. tauto. Qed.
Lemma image_link_in t : mount_image_link (links t) ∈ link_files t.
Proof. unfold link_files. rewrite !elem_of_cons. tauto. Qed.
#[export] Hint Resolve mount_link_in staged_link_in image_link_in : sm.

(** Link files that exist can be read. *)
Definition readable (sys : answers) : Prop := forall n, sys _ n OpenFails = false /\ sys _ n ReadError = None.

Section removal.
Context (sys : answers) (Hread : readable sys).

Lemma wp_read_link_exact path (Q : option string -> world -> Prop) w :
  (forall w', quiet w w' -> Q (match s_files (now w) !! path with Some c => link_line MAX_PATH c | None => None end) w') ->
  wp (read_mount_link_file sys path MAX_PATH) Q w.
Proof.
  intros H. unfold read_mount_link_file. assert (H0 : (MAX_PATH =? 0)%nat = false) by reflexivity. rewrite H0.
  apply wp_bind. unfold read_file. apply wp_bind, wp_question. intros w1 Hq1 _ _. destruct (Hread (w_clock w)) as [-> _].
  pose proof Hq1 as (Hn1 & _). apply wp_bind, wp_file. rewrite Hn1. destruct (_ !! path) as [c|]; [|by apply wp_ret, wp_ret, H].
  apply wp_bind, wp_question. intros w2 Hq2 _ _. destruct (Hread (w_clock w1)) as [_ ->]. apply wp_ret, wp_ret, H. by eapply quiet_trans.
Qed.

(** Questions about paths change nothing. *)
Lemma wp_path_exists path (Q : bool -> world -> Prop) w : (forall b w', quiet w w' -> Q b w') -> wp (path_exists sys path) Q w.
Proof.
  intros H. unfold path_exists. destruct (strcmp_eq _ _); [by apply wp_ret, H, quiet_refl|].
  apply wp_bind, wp_any. intros a w1 Hq. by apply wp_ret, H.
Qed.

Lemma wp_executable dir (Q : bool -> world -> Prop) w :
  (forall b w', quiet w w' -> Q b w') -> wp (directory_has_game_executable sys dir) Q w.
Proof.
  intros H.
  assert (Hone : forall name (R : bool -> world -> Prop) w1, (forall b w', quiet w1 w' -> R b w') -> wp (has_executable_named sys dir name) R w1).
  { intros name R w1 HR. unfold has_executable_named, is_regular. destruct (_ <? _)%nat; [|by apply wp_ret, HR, quiet_refl].
    apply wp_bind, wp_any. intros a w2 Hq2. by apply wp_ret, HR. }
  unfold directory_has_game_executable. apply wp_bind, Hone. intros [|] w1 Hq1; [by apply wp_ret, H|].
  apply Hone. intros b w2 Hq2. apply H. by eapply quiet_trans.
Qed.

Lemma wp_directory_needs_cleanup source (Q : bool -> world -> Prop) w :
  (forall b w', quiet w w' -> Q b w') -> wp (directory_needs_cleanup sys source) Q w.
Proof.
  intros H. unfold directory_needs_cleanup. apply wp_bind, wp_path_exists. intros b w1 Hq1. destruct (negb b); [by apply wp_ret, H|].
  destruct (path_matches_root_or_child _ _); [by apply wp_ret, H|]. apply wp_bind, wp_executable. intros b' w2 Hq2.
  apply wp_ret, H. by eapply quiet_trans.
Qed.

Lemma wp_image_decides source image (Q : option bool -> world -> Prop) w :
  (forall b w', quiet w w' -> Q b w') -> wp (image_decides sys source image) Q w.
Proof.
  intros H. unfold image_decides. destruct image; [|by apply wp_ret, H, quiet_refl]. apply wp_bind, wp_path_exists. intros b w1 Hq1.
  destruct (negb b); [by apply wp_ret, H|]. apply wp_bind, wp_path_exists. intros b' w2 Hq2. apply wp_ret, H. by eapply quiet_trans.
Qed.

Lemma wp_needs_cleanup source (Q : bool -> world -> Prop) w :
  (forall b w', quiet w w' -> Q b w') -> wp (source_path_needs_cleanup sys source) Q w.
Proof.
  intros H. unfold source_path_needs_cleanup. apply wp_bind.
  assert (Hrest : forall o w1, quiet w w1 -> wp (let* decided := image_decides sys source o in
    match decided with Some b => ret b | None => directory_needs_cleanup sys source end) Q w1).
  { intros o w1 Hq1. apply wp_bind, wp_image_decides. intros [b|] w2 Hq2; pose proof (quiet_trans _ _ _ Hq1 Hq2); [by apply wp_ret, H|].
    apply wp_directory_needs_cleanup. intros b w3 Hq3. apply H. by eapply quiet_trans. }
  destruct (is_under_image_mount_base source); [apply wp_any; intros o w1 Hq1; by apply Hrest|by apply wp_ret, Hrest, quiet_refl].
Qed.

Lemma wp_source_gone source image (Q : bool -> world -> Prop) w :
  (forall b w', quiet w w' -> Q b w') -> wp (link_source_gone sys source image) Q w.
Proof.
  intros H. unfold link_source_gone. apply wp_bind.
  assert (H1 : forall (b : bool) w1, quiet w w1 -> wp (if b then ret true else source_path_needs_cleanup sys source) Q w1).
  { intros [|] w1 Hq1; [by apply wp_ret, H|]. apply wp_needs_cleanup. intros b w2 Hq2. apply H. by eapply quiet_trans. }
  destruct image as [p|]; [|by apply wp_ret, (H1 false), quiet_refl].
  apply wp_bind, wp_path_exists. intros b w1 Hq1. apply wp_ret. by apply H1.
Qed.

Lemma wp_link_to_remove ctx source image (Q : option (bool * bool) -> world -> Prop) w :
  (forall b w', quiet w w' -> Q b w') -> wp (link_to_remove sys ctx source image) Q w.
Proof.
  intros H. unfold link_to_remove. destruct (match_usb_sources ctx); [by apply wp_ret, H, quiet_refl|].
  destruct (negb _); [|apply wp_bind, wp_source_gone; intros b w1 Hq; by apply wp_ret, H].
  destruct (_ || _); [|by apply wp_ret, H, quiet_refl]. destruct (force_remove_matching_source ctx); [by apply wp_ret, H, quiet_refl|].
  apply wp_bind, wp_source_gone. intros b w1 Hq. by apply wp_ret, H.
Qed.

Lemma wp_resolve_image paths source (Q : option string -> world -> Prop) w :
  (forall b w', quiet w w' -> Q b w') -> wp (resolve_mount_image_source_path sys paths source) Q w.
Proof.
  intros H. unfold resolve_mount_image_source_path. destruct (negb _); [by apply wp_ret, H, quiet_refl|].
  apply wp_bind, wp_read_link. intros [r|] w1 Hq1.
  - unfold note_image_source. apply wp_bind, wp_any. intros a w2 Hq2. apply wp_ret, H. by eapply quiet_trans.
  - apply wp_any. intros a w2 Hq2. apply H. by eapply quiet_trans.
Qed.

(** ** The removal of one link *)

(** The files of [t] while its link, with the contents [c], is being removed. *)
Definition in_removal (t c : string) (staged : bool) (s : snapshot) : Prop :=
  if staged then s_files s !! mount_link (links t) = None /\ s_files s !! staged_mount_link (links t) = Some c
  else s_files s !! mount_link (links t) = Some c /\ s_files s !! staged_mount_link (links t) = None.

Lemma in_removal_held t c staged s : in_removal t c staged s -> held t s = Some c /\ unambiguous t s.
Proof. unfold in_removal, held, unambiguous. destruct staged; intros [-> ->]; auto. Qed.

Lemma in_removal_kept t c staged s0 s : held t s0 = Some c -> in_removal t c staged s -> link_kept t s0 s.
Proof. intros H0 [Hh Hu]%in_removal_held. split; [done|]. left. congruence. Qed.

Lemma removal_start t s0 s c : app_title t -> links_kept s0 s -> s_files s !! mount_link (links t) = Some c ->
  held t s0 = Some c /\ in_removal t c false s.
Proof.
  intros Ht Hk Hc. destruct (Hk t Ht) as [Hu Hh]. unfold held at 1 3 in Hh. rewrite Hc in Hh.
  split; [|split; [done|]; by destruct Hu; congruence]. destruct Hh as [<-|[Hh _]]; done.
Qed.

Lemma in_removal_peeled t c staged s s' : peeled (system_ex_path_of t) s s' -> in_removal t c staged s -> in_removal t c staged s'.
Proof. intros [Hf _]. unfold in_removal. by rewrite Hf. Qed.

Lemma peel_through t s0 c staged w w' : app_title t -> held t s0 = Some c -> links_kept s0 (now w) -> in_removal t c staged (now w) ->
  through (peeled (system_ex_path_of t) (now w)) w w' -> through (links_kept s0) w w'.
Proof.
  intros Ht H0 Hk Hr. apply through_mono. intros s Hp. apply (links_kept_step t s0 (now w)); [done|done|by apply peeled_frame|].
  eapply in_removal_kept; [done|]. by eapply in_removal_peeled.
Qed.

Lemma stage_link t s0 c (Q : option Z -> world -> Prop) w : app_title t -> held t s0 = Some c -> links_kept s0 (now w) ->
  in_removal t c false (now w) ->
  (forall e w', quiet w w' -> Q (Some e) w') ->
  (forall w', through (links_kept s0) w w' -> in_removal t c true (now w') -> s_mounts (now w') = s_mounts (now w) -> Q None w') ->
  wp (rename sys (mount_link (links t)) (staged_mount_link (links t))) Q w.
Proof.
  intros Ht H0 Hk Hr Hf Hs. destruct (links_distinct t Ht) as (Hd & _ & _). apply wp_rename; [done|]. intros c' w' Hc Hb.
  destruct Hr as [Hm Hst]. rewrite Hm in Hc. injection Hc as <-.
  assert (Hnew : in_removal t c true (now w')).
  { destruct Hb as (-> & _). split; cbn; [rewrite lookup_insert_ne by done; apply lookup_delete_eq|apply lookup_insert_eq]. }
  apply Hs; [|done|by destruct Hb as (-> & _)]. eapply through_becomes; [done| |exact Hb].
  destruct Hb as (Hn & _). rewrite Hn in Hnew. eapply links_kept_step; [done|done|apply (move_frame t); auto with sm|by eapply in_removal_kept].
Qed.

Lemma unmatched_released ctx t c matches st top s :
  found t (default "" (link_line MAX_PATH c)) (removed_source_root ctx) (layers (system_ex_path_of t) (s_mounts s)) top st ->
  stack_matches_link ctx (default "" (link_line MAX_PATH c)) matches st = false -> released t c s.
Proof.
  intros Hfound Hm source Hs. rewrite Hs in Hfound, Hm. cbn in Hfound, Hm. unfold stack_matches_link in Hm.
  assert (Hne : strcmp_eq source "" = false).
  { unfold link_line in Hs. destruct (fgets _ _) as [[chunk rest]|]; [|done]. destruct (line_of _ _ _) as [[line truncated] ?].
    destruct truncated; [done|]. destruct (strcmp_eq line "") eqn:El; [done|]. by injection Hs as <-. }
  rewrite Hne in Hm. cbn in Hm. by rewrite <-(found_ours _ _ _ _ _ _ Hfound).
Qed.

(** What a release leaves. *)
Definition release_result (ctx : cleanup_mount_links_ctx_t) (t c : string) (s0 : snapshot) (w : world) (r : option (bool * bool)) (w' : world) :
    Prop :=
  through (links_kept s0) w w' /\
  match r with
  | None => True
  | Some (keep, staged) => in_removal t c staged (now w') /\ (keep = false -> released t c (now w')) /\
      (preserve_mount_links ctx = true -> staged = false)
  end.

Lemma release_after ctx t c s0 staged d w w2 : app_title t -> held t s0 = Some c -> through (links_kept s0) w w2 ->
  in_removal t c staged (now w2) -> (preserve_mount_links ctx = true -> staged = false) ->
  wp (let* ok := unmount_controlled_mount_stack_impl sys (system_ex_path_of t) d in ret (Some (negb ok, staged)))
    (release_result ctx t c s0 w) w2.
Proof.
  intros Ht H0 H2 Hr2 Hp. apply wp_bind. eapply wp_mono; [apply unmount_stack_spec; by apply system_ex_title_path|].
  intros ok w3 [H3 Hok]. apply wp_ret. split.
  - eapply through_trans; [exact H2|]. eapply peel_through; [done|done|apply H2|done|exact H3].
  - split; [eapply in_removal_peeled; [apply H3|done]|]. split; [|done].
    intros Hkeep source _. apply negb_false_iff in Hkeep. by rewrite (Hok Hkeep).
Qed.

Lemma release_stack_spec ctx t s0 c matches w : app_title t -> held t s0 = Some c -> links_kept s0 (now w) -> in_removal t c false (now w) ->
  wp (release_stack sys ctx t (links t) (default "" (link_line MAX_PATH c)) matches) (release_result ctx t c s0 w) w.
Proof.
  intros Ht H0 Hk Hr. unfold release_stack.
  apply wp_bind, inspect_spec; [by apply system_ex_title_path|intros w1 Hq; apply wp_ret; split; [by apply through_quiet|done]|].
  intros st top w1 Hq _ Hfound. pose proof Hq as (Hn & _). rewrite (found_path _ _ _ _ _ _ Hfound).
  assert (Hw1 : through (links_kept s0) w w1) by by apply through_quiet.
  set (matching := stack_matches_link _ _ _ _). rewrite <-Hn in Hfound, Hk, Hr.
  assert (Hplain : forall keep, (keep = false -> matching = false) -> wp (ret (Some (keep, false))) (release_result ctx t c s0 w) w1).
  { intros keep Hkeep. apply wp_ret. split; [done|]. split; [done|]. split; [|done]. intros Hf. eapply unmatched_released; [done|by apply Hkeep]. }
  destruct (title_stack_top_is_managed st); [|by destruct matching eqn:Em; apply Hplain].
  destruct matching eqn:Em; cbn [andb negb]; [|by apply Hplain].
  destruct (preserve_mount_links ctx) eqn:Ep; cbn [negb]; [by apply wp_bind, wp_ret, release_after|].
  apply wp_bind, wp_bind, (stage_link t s0 c); [done..| |].
  - intros e w2 Hq2. apply wp_ret, wp_ret. split; [|done]. eapply through_trans; [exact Hw1|by apply through_quiet].
  - intros w2 H2 Hr2 _. apply wp_ret, release_after; [done|done|by eapply through_trans|done|congruence].
Qed.

(** Removing the link or putting it back. *)
Lemma finish_link_spec t c s0 keep staged w : app_title t -> held t s0 = Some c -> links_kept s0 (now w) ->
  in_removal t c staged (now w) -> (keep = false -> released t c (now w)) ->
  wp (finish_link sys (links t) keep staged) (fun _ w' => through (links_kept s0) w w') w.
Proof.
  intros Ht H0 Hk Hr Hrel. destruct (links_distinct t Ht) as (Hd1 & Hd2 & Hd3). unfold finish_link. destruct keep; cbn [negb].
  - apply wp_when; [intros ->|intros _; by apply through_refl]. destruct Hr as [Hm Hs].
    apply wp_bind, wp_rename; [intros e w1 Hq; apply wp_ret; by apply through_quiet|]. intros c' w1 Hc Hb. apply wp_ret.
    rewrite Hs in Hc. injection Hc as <-. eapply through_becomes; [done| |exact Hb].
    eapply links_kept_step; [done|done|apply (move_frame t); auto with sm|]. eapply (in_removal_kept t c false); [done|].
    split; cbn; [apply lookup_insert_eq|]. rewrite lookup_insert_ne by done. apply lookup_delete_eq.
  - apply wp_bind. set (path := if staged then _ else _). assert (Hpath : path ∈ link_files t) by (subst path; destruct staged; auto with sm).
    apply wp_unlink.
    + intros e w1 Hq He. pose proof Hq as (Hn & _). apply wp_when; [intros Henoent|intros _; by apply through_quiet].
      exfalso. apply Z.eqb_eq in Henoent. specialize (He Henoent). subst path. destruct staged, Hr; congruence.
    + intros w1 Hb. pose proof Hb as (Hn & _).
      assert (Hgone : held t (now w1) = None /\ unambiguous t (now w1) /\ released t c (now w1)).
      { rewrite Hn. unfold held, unambiguous, released. cbn [s_files s_mounts]. specialize (Hrel eq_refl). subst path.
        destruct staged; destruct Hr as [Hm Hs].
        - rewrite lookup_delete_eq, lookup_delete_ne, Hm by done. auto.
        - rewrite lookup_delete_eq, lookup_delete_ne, Hs by done. auto. }
      assert (Hk1 : links_kept s0 (now w1)).
      { eapply links_kept_step; [done|done|rewrite Hn; by apply (delete_frame t)|]. destruct Hgone as (Hg & Hu & Hrl).
        split; [done|right]. split; [done|]. intros c' Hc'. rewrite H0 in Hc'. by injection Hc' as <-. }
      assert (H01 : through (links_kept s0) w w1) by (eapply through_becomes; [done|rewrite Hn in Hk1; exact Hk1|exact Hb]).
      apply wp_when; [intros _|done]. apply wp_bind, wp_unlink; [intros e w2 Hq _; apply wp_ret; eapply through_trans; [done|by apply through_quiet]|].
      intros w2 Hb2. apply wp_ret. eapply through_trans; [done|]. eapply through_becomes; [done| |exact Hb2].
      eapply links_kept_step; [done|done|apply (delete_frame t); auto with sm|]. destruct Hgone as (Hg & Hu & Hrl). split.
      * unfold unambiguous in *. cbn. by rewrite !lookup_delete_ne by done.
      * right. split; [unfold held in *; cbn; by rewrite !lookup_delete_ne by done|]. intros c' Hc'. rewrite H0 in Hc'. by injection Hc' as <-.
Qed.

Lemma cleanup_entry_kept ctx t s0 w : app_title t -> unmount_system_ex_bind ctx = true -> links_kept s0 (now w) ->
  wp (cleanup_mount_links_entry sys ctx t (links t)) (fun _ w' => through (links_kept s0) w w') w.
Proof.
  intros Ht Hctx Hk. unfold cleanup_mount_links_entry. apply wp_bind, wp_any. intros prot w1 Hq1.
  destruct prot; [by apply wp_ret, through_quiet|]. apply wp_bind, wp_stat_file. intros r w2 Hq2 Hreg _ Hr.
  pose proof (quiet_trans _ _ _ Hq1 Hq2) as Hq. destruct Hr as [->|[e ->]]; [|by apply wp_ret, through_quiet].
  destruct Hq1 as (Hn1 & _). rewrite Hn1 in Hreg. destruct (Hreg eq_refl) as [c Hc].
  destruct (removal_start t s0 (now w) c Ht Hk Hc) as [H0 Hr].
  apply wp_bind, wp_read_link_exact. intros w3 Hq3. pose proof Hq as (Hn2 & _). rewrite Hn2, Hc. apply wp_bind.
  pose proof (quiet_trans _ _ _ Hq Hq3) as Hq'.
  assert (Hrest : forall decision w4, quiet w w4 -> wp (match decision with
      | Some (true, matches_removed_source) =>
          let* state := (if unmount_system_ex_bind ctx
                         then release_stack sys ctx t (links t) (default "" (link_line MAX_PATH c)) matches_removed_source
                         else ret (Some (false, false))) in
          match state with
          | None => ret true
          | Some (keep, staged) => let* _ := finish_link sys (links t) (keep || preserve_mount_links ctx) staged in ret true
          end
      | _ => ret true
      end) (fun _ w' => through (links_kept s0) w w') w4).
  { intros decision w4 Hq4. pose proof Hq4 as (Hn4 & _). destruct decision as [[[] matches]|]; [|by apply wp_ret, through_quiet..].
    rewrite Hctx. apply wp_bind. eapply wp_mono; [apply (release_stack_spec ctx t s0 c); by rewrite ?Hn4|].
    intros r w5 [H5 Hres]. assert (H05 : through (links_kept s0) w w5) by (eapply through_trans; [by apply through_quiet|done]).
    destruct r as [[keep staged]|]; [|by apply wp_ret]. destruct Hres as (Hin & Hkeep & Hpres).
    apply wp_bind. eapply wp_mono; [apply (finish_link_spec t c s0); [done|done|apply H05|done|]|].
    - intros Hf. apply orb_false_iff in Hf as [Hf _]. by apply Hkeep.
    - intros ? w6 H6. apply wp_ret. by eapply through_trans. }
  destruct (link_line MAX_PATH c) as [source|] eqn:Eline; [|by apply wp_ret, (Hrest (Some (true, false)))].
  apply wp_bind, wp_resolve_image. intros image w4 Hq4. apply wp_link_to_remove. intros decision w5 Hq5.
  apply Hrest. eapply quiet_trans; [exact Hq'|by eapply quiet_trans].
Qed.
End removal.

(** ** Passes over the titles *)
Section passes.
Context (sys : answers).

Lemma wp_resolve_dir name d_type (Q : option string -> world -> Prop) w :
  (forall r w', quiet w w' -> (is_Some r -> app_title name) -> (d_type = DT_DIR -> app_title name -> char_at name 0 <> Some "."%char -> is_Some r) ->
     Q r w') -> wp (resolve_title_app_dir sys name d_type) Q w.
Proof.
  intros H. unfold resolve_title_app_dir. destruct (_ || _) eqn:E.
  - apply wp_ret, H; [apply quiet_refl|by intros [? ?]|]. intros _ Ht Hdot. apply orb_true_iff in E as [E|E].
    + by apply bool_decide_eq_true in E.
    + apply negb_true_iff, Nat.eqb_neq in E. by unfold app_title in Ht.
  - bool_hyps. assert (Ht : app_title name) by by apply Nat.eqb_eq. destruct d_type.
    + apply wp_ret, H; [apply quiet_refl|done|eauto].
    + apply wp_bind, wp_any. intros a w1 Hq. by apply wp_ret, H.
    + apply wp_ret, H; [apply quiet_refl|done|done].
Qed.

Lemma for_entries_rule {A} (I : snapshot -> Prop) stop (fn : string -> title_link_paths_t -> A -> M (A * bool)) entries ctx w :
  (forall t ctx w, app_title t -> I (now w) -> wp (fn t (links t) ctx) (fun _ w' => through I w w') w) -> I (now w) ->
  wp (for_entries sys stop fn entries ctx) (fun _ w' => through I w w') w.
Proof.
  intros Hfn. revert ctx w. induction entries as [|[name d_type] rest IH]; intros ctx w Hw; cbn [for_entries].
  { apply wp_ret. by apply through_refl. }
  assert (Hgo : forall (stopped : bool) w1, quiet w w1 -> wp (if stopped then ret (ctx, false) else
      let* dir := resolve_title_app_dir sys name d_type in
      match dir with
      | None => for_entries sys stop fn rest ctx
      | Some _ =>
          let* result := fn name (build_title_link_paths name) ctx in
          let '(ctx, go_on) := result in
          if go_on : bool then for_entries sys stop fn rest ctx else ret (ctx, false)
      end) (fun _ w' => through I w w') w1).
  { intros [|] w1 Hq1; [by apply wp_ret, through_quiet|]. pose proof (through_quiet I _ _ Hw Hq1) as H1.
    apply wp_bind, wp_resolve_dir. intros [dir|] w2 Hq2 Ht _; pose proof (through_trans _ _ _ _ H1 (through_quiet I _ _ (proj1 H1) Hq2)) as H2.
    - apply wp_bind. eapply wp_mono; [apply Hfn; [by apply Ht|apply H2]|]. intros [ctx' go_on] w3 H3.
      pose proof (through_trans _ _ _ _ H2 H3) as H03. destruct go_on; [|by apply wp_ret].
      eapply wp_mono; [apply IH, H03|]. intros r w4 H4. by eapply through_trans.
    - eapply wp_mono; [apply IH, H2|]. intros r w4 H4. by eapply through_trans. }
  apply wp_bind. destruct stop; [apply wp_any; intros b w1 Hq1; by apply Hgo|by apply wp_ret, (Hgo false), quiet_refl].
Qed.

Lemma for_each_rule {A} (I : snapshot -> Prop) stop (fn : string -> title_link_paths_t -> A -> M (A * bool)) ctx w :
  (forall t ctx w, app_title t -> I (now w) -> wp (fn t (links t) ctx) (fun _ w' => through I w w') w) -> I (now w) ->
  wp (for_each_title_app_dir sys stop fn ctx) (fun _ w' => through I w w') w.
Proof.
  intros Hfn Hw. unfold for_each_title_app_dir. apply wp_bind, wp_any. intros [entries|e] w1 Hq1; [|by apply wp_ret, through_quiet].
  pose proof (through_quiet I _ _ Hw Hq1) as H1. apply wp_bind. eapply wp_mono; [by apply for_entries_rule, H1|].
  intros [ctx' completed] w2 H2. pose proof (through_trans _ _ _ _ H1 H2) as H02. apply wp_bind, wp_any. intros bad w3 Hq3.
  apply wp_ret. eapply through_trans; [exact H02|]. apply through_quiet; [apply H02|done].
Qed.

Lemma each_rule fn t ctx (Q : () * bool -> world -> Prop) w :
  wp (fn t (links t)) (fun b w' => Q (ctx, b) w') w -> wp (each fn t (links t) ctx) Q w.
Proof. intros H. unfold each. apply wp_bind. eapply wp_mono; [exact H|]. intros b w' Hb. by apply wp_ret. Qed.
End passes.

(** ** The first work after a start, without faults *)
Section start.
Context (sys : answers) (Hok : no_faults sys).

Lemma restore_staged_ok t w : app_title t ->
  wp (restore_staged_link sys (links t)) (fun _ w' => title_frame t (now w) (now w') /\ held t (now w') = held t (now w) /\
    s_files (now w') !! staged_mount_link (links t) = None) w.
Proof.
  intros Ht. destruct (links_distinct t Ht) as (Hd & _ & _). unfold restore_staged_link, stat_file.
  apply wp_bind, wp_bind, wp_no_fault; [done|]. intros w1 (Hn1 & _). apply wp_bind, wp_file, wp_ret. rewrite Hn1.
  destruct (s_files (now w) !! staged_mount_link (links t)) as [c|] eqn:Hs.
  2: { apply wp_ret. by rewrite Hn1. }
  apply wp_bind, wp_bind, wp_no_fault; [done|]. intros w2 (Hn2 & _). apply wp_bind, wp_file, wp_ret. rewrite Hn2, Hn1.
  destruct (s_files (now w) !! mount_link (links t)) as [c'|] eqn:Hm.
  - apply wp_bind. unfold unlink. apply wp_bind, wp_no_fault; [done|]. intros w3 (Hn3 & _). apply wp_bind, wp_file.
    rewrite Hn3, Hn2, Hn1, Hs. apply wp_bind, wp_set_files. intros w4 (Hn4 & _). apply wp_ret, wp_ret. rewrite Hn4, Hn3, Hn2, Hn1.
    split; [apply delete_frame; auto with sm|]. cbn [s_files]. split; [|apply lookup_delete_eq].
    unfold held. cbn [s_files]. by rewrite lookup_delete_ne, Hm by done.
  - rewrite Z.eqb_refl. cbn [negb]. apply wp_bind. unfold rename. apply wp_bind, wp_no_fault; [done|]. intros w3 (Hn3 & _).
    apply wp_bind, wp_file. rewrite Hn3, Hn2, Hn1, Hs. apply wp_bind, wp_set_files. intros w4 (Hn4 & _). apply wp_ret, wp_ret.
    rewrite Hn4, Hn3, Hn2, Hn1. split; [apply move_frame; auto with sm|]. cbn [s_files]. split.
    + unfold held. cbn [s_files]. by rewrite lookup_insert_eq, Hm, Hs.
    + rewrite lookup_insert_ne by done. apply lookup_delete_eq.
Qed.

(** A title after the first pass: its link is back. *)
Definition link_back (t : string) (s s' : snapshot) : Prop :=
  held t s' = held t s /\ s_files s' !! staged_mount_link (links t) = None.

Lemma wp_drop_image t (Q : bool -> world -> Prop) w : app_title t ->
  (forall w', (forall p, p <> mount_image_link (links t) -> s_files (now w') !! p = s_files (now w) !! p) -> s_mounts (now w') = s_mounts (now w) ->
     Q true w') -> wp (let* _ := unlink sys (mount_image_link (links t)) in ret true) Q w.
Proof.
  intros Ht H. apply wp_bind, wp_unlink.
  - intros e w' (Hn & _) _. apply wp_ret, H; by rewrite Hn.
  - intros w' (Hn & _). apply wp_ret, H; rewrite Hn; [|done]. intros p Hp. cbn [s_files]. by rewrite lookup_delete_ne.
Qed.

Lemma staged_entry_ok t w : app_title t ->
  wp (cleanup_staged_mount_links_entry sys t (links t)) (fun go_on w' => go_on = true /\ title_frame t (now w) (now w') /\
    link_back t (now w) (now w')) w.
Proof.
  intros Ht. destruct (links_distinct t Ht) as (Hd1 & Hd2 & Hd3). unfold cleanup_staged_mount_links_entry.
  apply wp_bind. eapply wp_mono; [by apply restore_staged_ok|]. intros go_on w1 (Hf & Hh & Hs).
  assert (Hdone : forall w2, quiet w1 w2 -> title_frame t (now w) (now w2) /\ link_back t (now w) (now w2)) by (by intros w2 (-> & _)).
  destruct go_on; cbn [negb]; [|apply wp_ret; split; [done|apply Hdone, quiet_refl]].
  assert (Himage : forall w2, quiet w1 w2 -> wp (let* _ := unlink sys (mount_image_link (links t)) in ret true) (fun go_on w' => go_on = true /\
      title_frame t (now w) (now w') /\ link_back t (now w) (now w')) w2).
  { intros w2 Hq2. destruct (Hdone w2 Hq2) as [[Hf1 Hf2] [Hb1 Hb2]]. apply wp_drop_image; [done|]. intros w3 Hp Hm. split; [done|].
    split; [split|split].
    - intros p Hnot. rewrite Hp; [by apply Hf1|]. intros ->. apply Hnot. auto with sm.
    - intros path Hne. rewrite Hm. by apply Hf2.
    - rewrite <-Hb1. unfold held. by rewrite !Hp by done.
    - by rewrite Hp by done. }
  apply wp_bind, wp_read_link. intros [source|] w2 Hq2; [|by apply Himage].
  destruct (negb _); [by apply Himage|]. apply wp_bind, wp_read_link. intros [image|] w3 Hq3; pose proof (quiet_trans _ _ _ Hq2 Hq3) as Hq.
  - unfold note_image_source. apply wp_bind, wp_any. intros a w4 Hq4. apply wp_ret. split; [done|]. apply Hdone. by eapply quiet_trans.
  - apply wp_ret. split; [done|]. by apply Hdone.
Qed.

Lemma start_entries entries w :
  wp (for_entries sys false (each (cleanup_staged_mount_links_entry sys)) entries tt) (fun _ w' =>
    forall t, app_title t -> held t (now w') = held t (now w) /\
      (s_files (now w) !! staged_mount_link (links t) = None \/ ((t, DT_DIR) ∈ entries /\ char_at t 0 <> Some "."%char) ->
       s_files (now w') !! staged_mount_link (links t) = None)) w.
Proof.
  revert w. induction entries as [|[name d_type] rest IH]; intros w; cbn [for_entries].
  { apply wp_ret. intros t Ht. split; [done|]. intros [H|[H _]]; [done|by apply elem_of_nil in H]. }
  apply wp_bind, wp_ret. apply wp_bind, wp_resolve_dir. intros dir w1 (Hn1 & _) Happ Hdir.
  assert (Hskip : forall w2, (forall t, app_title t -> held t (now w2) = held t (now w) /\
      (s_files (now w) !! staged_mount_link (links t) = None -> s_files (now w2) !! staged_mount_link (links t) = None)) ->
      (app_title name -> is_Some dir -> s_files (now w2) !! staged_mount_link (links name) = None) ->
      wp (for_entries sys false (each (cleanup_staged_mount_links_entry sys)) rest tt) (fun _ w' =>
        forall t, app_title t -> held t (now w') = held t (now w) /\
          (s_files (now w) !! staged_mount_link (links t) = None \/ ((t, DT_DIR) ∈ (name, d_type) :: rest /\ char_at t 0 <> Some "."%char) ->
           s_files (now w') !! staged_mount_link (links t) = None)) w2).
  { intros w2 H2 Hname. eapply wp_mono; [apply IH|]. intros ? w3 H3 t Ht. destruct (H3 t Ht) as [Hh Hs]. destruct (H2 t Ht) as [Hh2 Hs2].
    split; [congruence|]. intros [Hn|[[[= -> <-]|Hin]%elem_of_cons Hdot]]; [by apply Hs; left; apply Hs2| |by apply Hs; right].
    apply Hs. left. apply Hname; [done|]. by apply Hdir. }
  destruct dir as [dir|]; [|apply Hskip; [intros t Ht; by rewrite Hn1|intros _ H; by destruct H]].
  assert (Ht : app_title name) by (apply Happ; eauto). apply wp_bind, each_rule. eapply wp_mono; [by apply staged_entry_ok|].
  intros go_on w2 (-> & Hf & Hb1 & Hb2). rewrite Hn1 in Hf, Hb1. apply Hskip; [|done].
  intros t Happ'. destruct (decide (t = name)) as [->|Hne]; [by split|].
  destruct (title_frame_other name t _ _ Ht Happ' Hne Hf) as [Hfiles _]. split; [by apply held_same|]. intros Hs.
  rewrite Hfiles; auto with sm.
Qed.

Lemma start_restores entries w : sys _ (w_clock w) AppEntries = inl entries ->
  wp (cleanup_staged_mount_links sys) (fun _ w' => forall t, (t, DT_DIR) ∈ entries -> app_title t -> char_at t 0 <> Some "."%char ->
    s_files (now w') !! mount_link (links t) = held t (now w) /\ s_files (now w') !! staged_mount_link (links t) = None) w.
Proof.
  intros He. unfold cleanup_staged_mount_links, for_each_title_app_dir. apply wp_bind, wp_bind, wp_question. intros w1 (Hn1 & _) _ _. rewrite He.
  apply wp_bind. eapply wp_mono; [apply start_entries|]. intros [[] completed] w2 H2. apply wp_bind, wp_any. intros bad w3 (Hn3 & _).
  apply wp_ret, wp_ret. intros t Hin Ht Hdot. rewrite Hn3. destruct (H2 t Ht) as [Hh Hs]. specialize (Hs (or_intror (conj Hin Hdot))).
  split; [|done]. rewrite Hn1 in Hh. rewrite <-Hh. unfold held. rewrite Hs. by destruct (s_files (now w2) !! mount_link (links t)).
Qed.
End start.

(** ** The first work after a start, with any faults *)
Section faulty_start.
Context (sys : answers).

(** Every title holds the link it held in [s0]. *)
Definition all_held (s0 s : snapshot) : Prop := forall t, app_title t -> held t s = held t s0.

Lemma all_held_step t s0 s s' : app_title t -> all_held s0 s -> title_frame t s s' -> held t s' = held t s -> all_held s0 s'.
Proof.
  intros Ht Hs Hf Hh t' Ht'. rewrite <-(Hs t' Ht'). destruct (decide (t' = t)) as [->|Hne]; [done|].
  destruct (title_frame_other t t' s s' Ht Ht' Hne Hf) as [Hfiles _]. by apply held_same.
Qed.

Lemma restore_held t s0 w : app_title t -> all_held s0 (now w) ->
  wp (restore_staged_link sys (links t)) (fun _ w' => through (all_held s0) w w') w.
Proof.
  intros Ht H0. destruct (links_distinct t Ht) as (Hd & _ & _). unfold restore_staged_link.
  apply wp_bind, wp_stat_file. intros r1 w1 Hq1 _ _ Hr1. pose proof (through_quiet _ _ _ H0 Hq1) as H1. pose proof Hq1 as (Hn1 & _).
  destruct Hr1 as [->|[e ->]]; [|by apply wp_ret]. apply wp_bind, wp_stat_file. intros r2 w2 Hq2 Hthere Hgone Hr2.
  pose proof (through_trans _ _ _ _ H1 (through_quiet _ _ _ (proj1 H1) Hq2)) as H2. pose proof Hq2 as (Hn2 & _). rewrite Hn1 in Hn2, Hthere, Hgone.
  destruct Hr2 as [->|[e ->]].
  - destruct (Hthere eq_refl) as [c Hc]. apply wp_bind, wp_unlink.
    + intros e w3 Hq3 _. apply wp_ret. eapply through_trans; [exact H2|]. by apply through_quiet; [apply H2|].
    + intros w3 Hb. apply wp_ret. eapply through_trans; [exact H2|]. eapply through_becomes; [apply H2| |exact Hb].
      apply (all_held_step t s0 (now w2)); [done|apply H2|apply (delete_frame t); auto with sm|].
      unfold held. cbn [s_files]. by rewrite Hn2, lookup_delete_ne, Hc by done.
  - destruct (Z.eqb_spec e ENOENT) as [->|]; cbn [negb]; [|by apply wp_ret]. specialize (Hgone eq_refl). apply wp_bind, wp_rename.
    + intros x w3 Hq3. apply wp_ret. eapply through_trans; [exact H2|]. by apply through_quiet; [apply H2|].
    + intros c w3 Hc Hb. apply wp_ret. eapply through_trans; [exact H2|]. eapply through_becomes; [apply H2| |exact Hb].
      apply (all_held_step t s0 (now w2)); [done|apply H2|apply (move_frame t); auto with sm|].
      unfold held. cbn [s_files]. rewrite Hn2 in *. by rewrite lookup_insert_eq, Hgone, Hc.
Qed.

Lemma staged_entry_held t s0 w : app_title t -> all_held s0 (now w) ->
  wp (cleanup_staged_mount_links_entry sys t (links t)) (fun _ w' => through (all_held s0) w w') w.
Proof.
  intros Ht H0. destruct (links_distinct t Ht) as (_ & Hd2 & Hd3). unfold cleanup_staged_mount_links_entry.
  apply wp_bind. eapply wp_mono; [by apply restore_held|]. intros go_on w1 H1.
  assert (Hq : forall w2, quiet w1 w2 -> through (all_held s0) w w2).
  { intros w2 Hq. eapply through_trans; [exact H1|]. by apply through_quiet; [apply H1|]. }
  assert (Himage : forall w2, quiet w1 w2 -> wp (let* _ := unlink sys (mount_image_link (links t)) in ret true) (fun _ w' => through (all_held s0) w w') w2).
  { intros w2 Hq2. pose proof (Hq w2 Hq2) as H2. apply wp_bind, wp_unlink.
    - intros e w3 Hq3 _. apply wp_ret. eapply through_trans; [exact H2|]. by apply through_quiet; [apply H2|].
    - intros w3 Hb. apply wp_ret. eapply through_trans; [exact H2|]. eapply through_becomes; [apply H2| |exact Hb].
      apply (all_held_step t s0 (now w2)); [done|apply H2|apply (delete_frame t); auto with sm|].
      unfold held. cbn [s_files]. by rewrite !lookup_delete_ne by done. }
  destruct go_on; cbn [negb]; [|by apply wp_ret].
  apply wp_bind, wp_read_link. intros [source|] w2 Hq2; [|by apply Himage]. destruct (negb _); [by apply Himage|].
  apply wp_bind, wp_read_link. intros [image|] w3 Hq3; pose proof (quiet_trans _ _ _ Hq2 Hq3) as Hq23; [|by apply wp_ret, Hq].
  unfold note_image_source. apply wp_bind, wp_any. intros a w4 Hq4. apply wp_ret, Hq. by eapply quiet_trans.
Qed.

Lemma start_keeps_held w : wp (cleanup_staged_mount_links sys) (fun _ w' => through (all_held (now w)) w w') w.
Proof.
  unfold cleanup_staged_mount_links. apply wp_bind. eapply wp_mono; [apply (for_each_rule sys (all_held (now w)))|].
  - intros t [] w1 Ht H1. by apply each_rule, staged_entry_held.
  - by intros t _.
  - intros ? w' H. by apply wp_ret.
Qed.
End faulty_start.

(** The passes that remove links. *)
Inductive removal_pass :=
  | SourcesGone (source_root : string)          (** [cleanup_mount_links(root, true)] *)
  | SourceUnmounted (source_root : string)
  | UsbSuspended.

Definition run_pass (sys : answers) (pass : removal_pass) : M () :=
  match pass with
  | SourcesGone root => cleanup_mount_links sys root true
  | SourceUnmounted root => cleanup_mount_links_for_source_unmount sys root
  | UsbSuspended => cleanup_usb_mount_links_for_suspend sys
  end.

Lemma run_pass_kept sys pass w : readable sys -> (forall t, app_title t -> unambiguous t (now w)) ->
  wp (run_pass sys pass) (fun _ w' => through (links_kept (now w)) w w') w.
Proof.
  intros Hr Hu. assert (H0 : links_kept (now w) (now w)) by (intros t Ht; split; [by apply Hu|by left]).
  assert (Hpass : forall stop ctx, unmount_system_ex_bind ctx = true ->
    wp (let* _ := for_each_title_app_dir sys stop (each (cleanup_mount_links_entry sys ctx)) tt in ret tt) (fun _ w' => through (links_kept (now w)) w w') w).
  { intros stop ctx Hctx. apply wp_bind. eapply wp_mono; [apply (for_each_rule sys (links_kept (now w)))|].
    - intros t [] w1 Ht H1. by apply each_rule, cleanup_entry_kept.
    - done.
    - intros ? w' H. by apply wp_ret. }
  destruct pass; cbn [run_pass]; [by apply Hpass| |by apply Hpass].
  unfold cleanup_mount_links_for_source_unmount. destruct (strcmp_eq _ _); [by apply wp_ret, through_refl|by apply Hpass].
Qed.

(** Claim C10: A removal of links can be interrupted anywhere.  Provided that link files
    that exist can be opened and read during the pass (one that cannot is deleted, see
    [unreadable_link_deleted]) and that no title starts with a link and another one set
    aside: in every state a pass goes through (sources gone, a source unmounted, sleep with
    USB drives), whatever other calls fail, every title's link is there as before, perhaps
    under the name it is set aside with, or it is gone, and then no nullfs layer of the
    source it named is left on the title.  From each of these states the first pass of the
    next start loses no link in any of its own states, whatever fails then; and if nothing
    fails, every link that was set aside is back afterwards: [mount.lnk] is exactly the link
    that was held, and nothing is set aside. *)
Theorem interrupted_removal_recovered sys pass w : readable sys -> (forall t, app_title t -> unambiguous t (now w)) ->
  wp (run_pass sys pass) (fun _ w' => exists l, w_past w' = l ++ w_past w /\
    forall s, s ∈ now w' :: l ->
      (forall t, app_title t -> link_kept t (now w) s) /\
      forall next_sys w1, now w1 = s ->
        wp (cleanup_staged_mount_links next_sys) (fun _ w2 => exists l2, w_past w2 = l2 ++ w_past w1 /\
          forall s2, s2 ∈ now w2 :: l2 -> forall t, app_title t -> held t s2 = held t s) w1 /\
        (forall entries, no_faults next_sys -> next_sys _ (w_clock w1) AppEntries = inl entries ->
         wp (cleanup_staged_mount_links next_sys) (fun _ w2 => forall t, (t, DT_DIR) ∈ entries -> app_title t -> char_at t 0 <> Some "."%char ->
           s_files (now w2) !! mount_link (links t) = held t s /\ s_files (now w2) !! staged_mount_link (links t) = None) w1)) w.
Proof.
  intros Hr Hu. eapply wp_mono; [by apply run_pass_kept|]. intros ? w' (Hnow & (l & Hl & Hall) & _). exists l. split; [done|].
  intros s Hs. split.
  - intros t Ht. rewrite Forall_forall in Hall. apply elem_of_cons in Hs as [->|Hs]; [by apply Hnow|by apply Hall].
  - intros next_sys w1 <-. split; [|intros entries Hok He; by apply start_restores].
    eapply wp_mono; [apply start_keeps_held|]. intros ? w2 (H2 & (l2 & Hl2 & Hall2) & _). exists l2. split; [done|].
    intros s2 Hs2. rewrite Forall_forall in Hall2. apply elem_of_cons in Hs2 as [->|Hs2]; [exact H2|by apply Hall2].
Qed.

Definition demo_title : string := "PPSA01234".
Definition demo_pass_answers : answers := fun A n q =>
  match q in question A return A with
  | AppEntries => inl [(demo_title, DT_DIR)]
  | BackportScanPaths => [Some "/data/homebrew"%string]
  | q => demo_answers _ n q
  end.
Definition demo_linked : world :=
  World {[ mount_link (links demo_title) := "/data/game" ]} [demo_null; demo_union] [] 0 [].

Lemma interrupted_removal_recovered_witness : exists w', run_pass demo_pass_answers (SourceUnmounted "/data") demo_linked = Some (tt, w') /\
  (forall t, app_title t -> link_kept t (now demo_linked) (now w')) /\ held demo_title (now w') = None.
Proof.
  pose proof (interrupted_removal_recovered demo_pass_answers (SourceUnmounted "/data") demo_linked (fun n => conj eq_refl eq_refl)) as H.
  apply wp_ends in H as ([] & w' & Hrun & l & _ & Hall).
  - exists w'. split; [exact Hrun|]. split; [apply Hall; by apply elem_of_cons; left|].
    assert (Hc : (held demo_title ∘ now ∘ snd) <$> run_pass demo_pass_answers (SourceUnmounted "/data") demo_linked = Some None) by (vm_compute; reflexivity).
    rewrite Hrun in Hc. by injection Hc.
  - intros t Ht. right. unfold demo_linked, now. cbn [s_files w_files]. rewrite lookup_singleton_ne; [done|].
    intros Heq. apply link_path_inj in Heq as [_ Heq]; [done|done|done|..]; cbn; lia.
Defined.

(** A link that cannot be opened counts as one without a source: a pass for an unrelated
    volume removes it, although its source is there and stays mounted. *)
Definition unopenable_answers : answers := fun A n q =>
  match q in question A return A with OpenFails => true | q => demo_pass_answers _ n q end.

Example unreadable_link_deleted :
  (fun r => (held demo_title (now r.2), w_mounts r.2)) <$> run_pass unopenable_answers (SourceUnmounted "/elsewhere") demo_linked =
  Some (None, [demo_null; demo_union]).
Proof. vm_compute. reflexivity. Qed.

(** ** Mounting a title *)

(** Two facts of one run. *)
Lemma wp_and {A} (m : M A) (P Q : A -> world -> Prop) w : wp m P w -> wp m Q w -> wp m (fun a w' => P a w' /\ Q a w') w.
Proof. unfold wp. destruct (m w) as [[a w']|]; [done|]. done. Qed.

(** Only layers of [path] differ. *)
Definition only_at (path : string) (s s' : snapshot) : Prop :=
  s_files s' = s_files s /\ forall path', path' <> path -> layers path' (s_mounts s') = layers path' (s_mounts s).

Lemma only_at_refl path s : only_at path s s.
Proof. done. Qed.

Lemma only_at_trans path s1 s2 s3 : only_at path s1 s2 -> only_at path s2 s3 -> only_at path s1 s3.
Proof. intros [H1 H2] [H3 H4]. split; [congruence|]. intros p Hp. by rewrite H4, H2. Qed.

Lemma peeled_only_at path s s' : peeled path s s' -> only_at path s s'.
Proof. intros H. split; [apply H|]. intros p Hp. by eapply peeled_others. Qed.

Lemma added_only_at path s l : mounted_at path l = true -> only_at path s (Snapshot (s_files s) (s_mounts s ++ [l])).
Proof.
  intros Hl. split; [done|]. intros p Hp. cbn [s_mounts]. rewrite layers_app. cbn [layers List.filter].
  assert (Hne : mounted_at p l = false).
  { apply strcmp_eq_true in Hl. apply strcmp_eq_false. congruence. }
  unfold layers at 2. cbn [List.filter]. by rewrite Hne, app_nil_r.
Qed.

Lemma through_only_at path w w1 w2 : through (only_at path (now w)) w w1 -> through (only_at path (now w1)) w1 w2 ->
  through (only_at path (now w)) w w2.
Proof.
  intros H1 H2. eapply through_trans; [exact H1|]. eapply through_mono; [|exact H2]. intros s. apply only_at_trans, H1.
Qed.

Lemma peeled_length path s s' : peeled path s s' -> (length (s_mounts s') <= length (s_mounts s))%nat.
Proof.
  intros [_ [k ->]]. induction k as [|k IH]; simpl; [done|]. etrans; [apply remove_top_length|exact IH].
Qed.

Section mounting.
Context (sys : answers) (t src : string) (Ht : app_title t).
Let path := system_ex_path_of t.
Let new : mount_layer := Layer path src "nullfs" false.

Lemma new_mounted_at : mounted_at path new = true.
Proof. apply strcmp_eq_refl. Qed.

Lemma layers_new ms : layers path (ms ++ [new]) = layers path ms ++ [new].
Proof. rewrite layers_app. unfold layers at 2. cbn [List.filter]. by rewrite new_mounted_at. Qed.

(** The new layer is there on success and, without faults, gone on failure. *)
Lemma mount_new_spec w :
  wp (mount_new_nullfs sys src path) (fun ok w' => through (only_at path (now w)) w w' /\
    (ok = true -> s_mounts (now w') = s_mounts (now w) ++ [new]) /\
    (calm sys (S (length (s_mounts (now w)))) -> ok = false -> s_mounts (now w') = s_mounts (now w))) w.
Proof.
  assert (Hp : title_path path) by by apply system_ex_title_path. unfold mount_new_nullfs.
  apply wp_bind, wp_any. intros [|] w1 Hq1; pose proof Hq1 as (Hn1 & _).
  { apply wp_ret. rewrite Hn1. split; [by apply through_quiet|done]. }
  apply wp_bind, wp_nmount; [intros e w2|intros w2].
  { intros Hq2. apply wp_ret. pose proof (quiet_trans _ _ _ Hq1 Hq2) as Hq. pose proof Hq as (Hn & _). rewrite Hn. split; [by apply through_quiet|done]. }
  intros Hb. rewrite Hn1 in Hb. pose proof Hb as (Hn2 & _).
  assert (H2 : through (only_at path (now w)) w w2).
  { eapply through_becomes; [done|apply (added_only_at path _ new), new_mounted_at|by eapply quiet_becomes]. }
  assert (Hback : forall w3, quiet w2 w3 -> wp (let* _ := unmount_top_controlled_layer sys path in ret false) (fun ok w' =>
      through (only_at path (now w)) w w' /\ (ok = true -> s_mounts (now w') = s_mounts (now w) ++ [new]) /\
      (calm sys (S (length (s_mounts (now w)))) -> ok = false -> s_mounts (now w') = s_mounts (now w))) w3).
  { intros w3 Hq3. pose proof Hq3 as (Hn3 & _).
    assert (H3 : through (only_at path (now w)) w w3) by (eapply through_trans; [exact H2|apply through_quiet; [apply H2|done]]).
    assert (Hcalm : wp (unmount_top_controlled_layer sys path) (fun _ w' => calm sys (S (length (s_mounts (now w)))) -> s_mounts (now w') = s_mounts (now w)) w3).
    { destruct (unmount_top_controlled_layer sys path w3) as [[ok w4]|] eqn:E.
      2: { pose proof (unmount_top_spec sys path true w3 Hp) as H. unfold wp in H. unfold unmount_top_controlled_layer in E. by rewrite E in H. }
      unfold wp. rewrite E. intros Hc. refine (wp_result (F := wholly) _ (fun _ w' => s_mounts (now w') = s_mounts (now w)) _ _ _ _ E).
      unfold unmount_top_controlled_layer.
      apply (unmount_top_calm sys _ Hc); rewrite ?Hn3, ?Hn2; cbn [s_mounts s_files]; rewrite ?layers_new, ?last_snoc; [done|rewrite length_app; simpl; lia|..].
      - intros w' _ H. by destruct (layers path (s_mounts (now w))).
      - intros w' l _ [= <-] Hcon. discriminate Hcon.
      - intros w' l (Hn & _) _ _. rewrite Hn. cbn [s_mounts]. apply remove_top_app_ne, new_mounted_at. }
    apply wp_bind. eapply wp_mono; [apply wp_and; [apply unmount_top_spec, Hp|exact Hcalm]|]. intros ok w4 [H4 Hc]. apply wp_ret.
    split; [|split; [done|by intros Hcalm' _; apply Hc]]. eapply through_only_at; [exact H3|]. eapply through_mono; [|exact H4]. intros s. apply peeled_only_at. }
  apply wp_bind, wp_any. intros [|] w3 Hq3; [by apply Hback|]. apply wp_bind, wp_executable. intros [|] w4 Hq4;
    pose proof (quiet_trans _ _ _ Hq3 Hq4) as Hq; [|by apply Hback].
  apply wp_ret. split; [eapply through_trans; [exact H2|apply through_quiet; [apply H2|done]]|]. split; [|done].
  intros _. destruct Hq as (-> & _). by rewrite Hn2.
Qed.

Lemma calm_le n m : (m <= n)%nat -> calm sys n -> calm sys m.
Proof. intros Hle (H1 & others & size & H2 & H3 & H4). split; [done|]. exists others, size. split; [done|]. split; [done|]. lia. Qed.

Lemma prepare_spec w : wp (prepare_mount_directory sys path) (fun _ w' => through (peeled path (now w)) w w') w.
Proof.
  assert (Hp : title_path path) by by apply system_ex_title_path.
  assert (Hdone : forall w1, quiet w w1 -> through (peeled path (now w)) w w1).
  { intros w1 Hq. apply through_quiet; [apply peeled_refl|done]. }
  unfold prepare_mount_directory. apply wp_bind, wp_any. intros [e|] w1 Hq1; [|by apply wp_ret, Hdone].
  destruct (negb _); [by apply wp_ret, Hdone|]. apply wp_bind, wp_any. intros [kind|e'] w2 Hq2; pose proof (quiet_trans _ _ _ Hq1 Hq2) as Hq.
  { by apply wp_bind, wp_ret, wp_ret, Hdone. }
  unfold recover_mount_directory_after_stat_failure. apply wp_bind, wp_bind. eapply wp_mono; [apply unmount_stack_spec, Hp|].
  intros ok w3 [H3 _]. pose proof Hq as (Hn & _). rewrite Hn in H3.
  assert (H03 : through (peeled path (now w)) w w3) by (eapply through_trans; [by apply Hdone|exact H3]).
  assert (Hafter : forall w4, quiet w3 w4 -> through (peeled path (now w)) w w4).
  { intros w4 Hq4. eapply through_trans; [exact H03|]. apply through_quiet; [apply H03|done]. }
  apply wp_bind, wp_any. intros [kind|e''] w4 Hq4; [by apply wp_ret, wp_ret, Hafter|].
  destruct (negb _); [by apply wp_ret, wp_ret, Hafter|]. apply wp_bind, wp_any. intros made w5 Hq5. pose proof (quiet_trans _ _ _ Hq4 Hq5) as Hq'.
  destruct (match made with Some _ => _ | None => _ end); [by apply wp_ret, wp_ret, Hafter|].
  apply wp_bind, wp_any. intros st w6 Hq6. apply wp_ret, wp_ret, Hafter. by eapply quiet_trans.
Qed.

(** What a mount leaves on the title, from the layers [before]. *)
Definition mount_result (before : snapshot) (w : world) (ok : bool) (w' : world) : Prop :=
  let after := layers path (s_mounts (now w')) in
  through (only_at path before) w w' /\
  (ok = true -> existsb (our_layer src) after = true) /\
  (calm sys (S (length (s_mounts before))) ->
     if ok then exists l, last after = Some l /\ (our_layer src l = true \/ is_unionfs l = true)
     else exists j, after = take j (layers path (s_mounts before))).

Lemma mount_failed s0 w w' : now w = s0 -> through (peeled path s0) w w' -> mount_result s0 w false w'.
Proof.
  intros Hn H. split; [eapply through_mono; [|exact H]; intros s; apply peeled_only_at|]. split; [done|].
  intros _. by apply peeled_layers, H.
Qed.

Hypothesis Hsrc : src <> ""%string.

Lemma new_ours : our_layer src new = true.
Proof. unfold our_layer. cbn. apply strcmp_eq_false in Hsrc as ->. by rewrite strcmp_eq_refl. Qed.

Lemma mount_new_result s0 w w1 : now w = s0 -> through (peeled path s0) w w1 ->
  wp (mount_new_nullfs sys src path) (mount_result s0 w) w1.
Proof.
  intros Hn H1. pose proof (proj1 H1) as Hpeel. eapply wp_mono; [apply mount_new_spec|]. intros ok w2 (H2 & Hok & Hfail).
  assert (Hthrough : through (only_at path s0) w w2).
  { rewrite <-Hn. eapply through_only_at; [|exact H2]. rewrite Hn. eapply through_mono; [|exact H1]. intros s. apply peeled_only_at. }
  split; [done|]. split.
  - intros ->. rewrite Hok, layers_new, existsb_app by done. cbn [existsb]. by rewrite new_ours, orb_true_r.
  - intros Hc. destruct ok.
    + exists new. rewrite Hok, layers_new, last_snoc by done. split; [done|left; apply new_ours].
    + rewrite Hfail; [by apply peeled_layers| |done]. eapply calm_le; [|exact Hc]. pose proof (peeled_length _ _ _ Hpeel). lia.
Qed.

Lemma mount_title_spec w : wp (mount_title_nullfs sys t src) (mount_result (now w) w) w.
Proof.
  assert (Hp : title_path path) by by apply system_ex_title_path.
  assert (Hquiet : forall w1, quiet w w1 -> mount_result (now w) w false w1).
  { intros w1 Hq. apply mount_failed; [done|]. apply through_quiet; [apply peeled_refl|done]. }
  unfold mount_title_nullfs. apply wp_bind, wp_any. intros [[]|e] w1 Hq1; try (by apply wp_ret, Hquiet).
  apply wp_bind, wp_executable. intros playable w2 Hq2. pose proof (quiet_trans _ _ _ Hq1 Hq2) as Hq. destruct (negb _); [by apply wp_ret, Hquiet|].
  apply wp_bind. eapply wp_mono; [apply prepare_spec|]. intros prepared w3 H3. pose proof Hq as (Hn & _). rewrite Hn in H3.
  assert (H03 : through (peeled path (now w)) w w3) by (eapply through_trans; [apply through_quiet; [apply peeled_refl|exact Hq]|exact H3]).
  clear H3. destruct (negb _); [by apply wp_ret, mount_failed|].
  assert (Hlater : forall w4, quiet w3 w4 -> through (peeled path (now w)) w w4).
  { intros w4 Hq4. eapply through_trans; [exact H03|]. apply through_quiet; [apply H03|done]. }
  apply wp_bind, inspect_spec; [done|intros w4 Hq4; by apply wp_ret, mount_failed, Hlater|].
  intros st top w4 Hq4 Htop Hfound. fold path in Hfound. pose proof (Hlater w4 Hq4) as H04. pose proof Hq4 as (Hn4 & _).
  destruct (mounted st) eqn:Em; [|by apply mount_new_result].
  assert (Hrest : forall (active : bool) w5, quiet w4 w5 ->
    (active = true -> has_our_nullfs st = true /\ title_stack_top_is_managed st = true) ->
    wp (if active then ret true else
        let* released := unmount_controlled_mount_stack sys path in
        if released : bool then mount_new_nullfs sys src path else ret false) (mount_result (now w) w) w5).
  { intros [|] w5 Hq5 Hact.
    - destruct (Hact eq_refl) as [Hour Hman]. pose proof (Hlater w5 (quiet_trans _ _ _ Hq4 Hq5)) as H05. apply wp_ret.
      pose proof (quiet_trans _ _ _ Hq4 Hq5) as (Hn5 & _). split; [eapply through_mono; [|exact H05]; intros s; apply peeled_only_at|].
      rewrite Hn5. split; [intros _; by rewrite <-(found_ours _ _ _ _ _ _ Hfound)|]. intros [Hnf _].
      destruct Htop as [Htop|[_ Hbad]]; [|by destruct (Hbad Hnf)]. fold path in Htop.
      unfold title_stack_top_is_managed in Hman. apply orb_true_iff in Hman as [Hman|Hman].
      + rewrite (found_top _ _ _ _ _ _ Hfound) in Hman. destruct top as [l|]; [|done]. exists l. rewrite <-Htop. auto.
      + apply bool_decide_eq_true in Hman. destruct (found_backport _ _ _ _ _ _ Hfound Hman) as (l & -> & Hl). exists l. rewrite <-Htop. auto.
    - pose proof (quiet_trans _ _ _ Hq4 Hq5) as Hq'. pose proof (Hlater w5 Hq') as H05. pose proof Hq' as (Hn5 & _).
      apply wp_bind. eapply wp_mono; [apply unmount_stack_spec, Hp|]. intros released w6 [H6 _].
      assert (H06 : through (peeled path (now w)) w w6).
      { eapply through_trans; [exact H05|]. eapply through_mono; [|exact H6]. intros s. apply peeled_trans, H05. }
      destruct released; [by apply mount_new_result|by apply wp_ret, mount_failed]. }
  apply wp_bind. destruct (has_our_nullfs st && title_stack_top_is_managed st) eqn:Eact.
  - apply andb_true_iff in Eact. apply wp_executable. intros b w5 Hq5. by apply Hrest.
  - apply wp_ret, (Hrest false); [apply quiet_refl|done].
Qed.
End mounting.

(** Claim C13: Mounting a title's source touches no file and no other title, in every state
    it goes through.  It reports success only when a nullfs layer of the source is on the
    title.  Without faults, success means that the topmost layer is that nullfs or a
    unionfs over it, and failure (sleep that begins meanwhile, no executable to be seen,
    a foreign layer in the way) leaves nothing new: at most layers were removed from the
    top. *)
Theorem title_mount_exact sys title_id src_path w : app_title title_id -> src_path <> ""%string ->
  let path := system_ex_path_of title_id in
  wp (mount_title_nullfs sys title_id src_path) (fun ok w' =>
    let after := layers path (s_mounts (now w')) in
    through (only_at path (now w)) w w' /\
    (ok = true -> existsb (our_layer src_path) after = true) /\
    (calm sys (S (length (s_mounts (now w)))) ->
       if ok then exists l, last after = Some l /\ (our_layer src_path l = true \/ is_unionfs l = true)
       else exists j, after = take j (layers path (s_mounts (now w))))) w.
Proof. intros Ht Hsrc. by apply mount_title_spec. Qed.

Definition demo_regular_answers : answers := fun A n q =>
  match q in question A return A with
  | Stat p => if String.eqb p "/data/game" then inl IsDir else inl IsRegular
  | q => demo_answers _ n q
  end.

Lemma title_mount_exact_witness : exists w', mount_title_nullfs demo_regular_answers demo_title "/data/game" demo_world = Some (true, w') /\
  existsb (our_layer "/data/game") (layers (system_ex_path_of demo_title) (s_mounts (now w'))) = true.
Proof.
  pose proof (title_mount_exact demo_regular_answers demo_title "/data/game" demo_world ltac:(reflexivity) ltac:(discriminate)) as H. cbn zeta in H.
  apply wp_ends in H as (ok & w' & Hrun & _ & Hok & _).
  assert (Hc : fst <$> mount_title_nullfs demo_regular_answers demo_title "/data/game" demo_world = Some true) by (vm_compute; reflexivity).
  rewrite Hrun in Hc. injection Hc as ->. exists w'. split; [exact Hrun|exact (Hok eq_refl)].
Defined.
