(* ===== verification/CopyTree.v ===== *)
(** * Copying files and directories (src/sm_filesystem.c)

    [copy_dir_impl] copies a directory with everything below it, [copy_file_buffered] a file,
    chunk by chunk, and [copy_param_json_rewrite] a param.json whose "upgradable" becomes
    "standard"; [remove_copy_path] makes room when a copy replaces what is there;
    [resolve_sce_sys_file] finds a file whatever the case of its name.

    The source is a tree, which a copy does not change; the destination is a map from
    paths to files, directories and links to one of these, which [fopen] and [open]
    follow.  Every system call is asked whether it fails.  Permissions are left out, and
    devices at the destination. *)
From S2P Require Import Prelude CString IniFile ScanBackports Effects TitleLinks.
From stdpp Require Import gmap strings.
Open Scope Z_scope.
Open Scope c_scope.

Definition MAX_PARAM_JSON_SIZE : Z := 1024 * 1024.

(** A link has a target that is no link, or none. *)
Inductive src_tree :=
  | SFile (content : text)
  | SDir (entries : list (string * src_tree))
  | SLink (target : option src_tree)
  | SSpecial.

Inductive dst_node := DFile (content : text) | DDir | DLink (target : string).

Record copy_world := CopyWorld { c_nodes : gmap string dst_node; c_clock : nat }.

Abbreviation M := (prog copy_world).

Definition nodes : M (gmap string dst_node) := look c_nodes.
Definition set_node (path : string) (n : dst_node) : M () := change (fun w => CopyWorld (<[path := n]> (c_nodes w)) (c_clock w)).
Definition drop_node (path : string) : M () := change (fun w => CopyWorld (delete path (c_nodes w)) (c_clock w)).

Definition child (path name : string) : string := (path ++ "/" ++ name)%string.

(** ** The patch of param.json *)
Fixpoint starts_with (p s : text) : bool :=
  match p, s with
  | [], _ => true
  | _, [] => false
  | a :: p', b :: s' => Ascii.eqb a b && starts_with p' s'
  end.

(** [strstr]: the offset of the first occurrence before the terminator. *)
Fixpoint strstr (s p : text) : option nat :=
  if starts_with p s then Some 0%nat
  else match s with
       | [] => None
       | a :: s' => if Ascii.eqb a nul then None else S <$> strstr s' p
       end.

(** [memcpy(hit, "standard", 8); memmove(hit + 8, hit + 10, tail + 1)]. *)
Definition patch_param_json (buf : text) : text :=
  match strstr buf (lit "upgradable") with
  | Some offset => take offset buf ++ lit "standard" ++ drop (offset + 10) buf
  | None => buf
  end.

Definition param_suffix : string := "/sce_sys/param.json".

Definition is_param_json (src : string) : bool :=
  (strlen param_suffix <=? strlen src)%nat &&
  strcasecmp_eq (lit (String.substring (strlen src - strlen param_suffix) (strlen param_suffix) src)) (lit param_suffix).

Section copy.
Context (fails : nat -> bool) (chunk_of : nat -> nat).   (** does call [n] fail; how much of a failed write arrives *)

(** One system call. *)
Definition sys_call : M bool := fun w => Some (fails (c_clock w), CopyWorld (c_nodes w) (S (c_clock w))).

Definition unlink_copy (path : string) : M () :=
  let* failed := sys_call in when (negb failed) (drop_node path).

(** What an open for writing reaches. *)
Definition reached (m : gmap string dst_node) (path : string) : string :=
  match m !! path with Some (DLink target) => target | _ => path end.

(** [Some p]: the file at [p] is empty now and open for writing. *)
Definition open_copy_destination (set_mode : bool) (path : string) : M (option string) :=
  let* failed := sys_call in                             (* fopen, open *)
  let* m := nodes in
  let p := reached m path in
  if failed || match m !! p with Some DDir | Some (DLink _) => true | _ => false end then ret None
  else
    let* _ := set_node p (DFile []) in
    if negb set_mode then ret (Some p)
    else
      let* failed := sys_call in                         (* fdopen *)
      if failed : bool then let* _ := unlink_copy path in ret None else ret (Some p).

(** [fwrite]: the file [so_far] grows by [data], or by a part of it. *)
Definition write_copy (path : string) (so_far data : text) : M bool :=
  let* n := look (fun w => chunk_of (c_clock w)) in
  let* failed := sys_call in
  if failed : bool then let* _ := set_node path (DFile (so_far ++ take n data)) in ret false
  else let* _ := set_node path (DFile (so_far ++ data)) in ret true.

Definition copy_param_json_rewrite (set_mode : bool) (content : text) (dst : string) : M bool :=
  let* e1 := sys_call in                                 (* fopen *)
  if e1 : bool then ret false
  else
    let* e2 := sys_call in                               (* fseek, ftell *)
    if e2 || (MAX_PARAM_JSON_SIZE <? Z.of_nat (length content)) then ret false
    else
      let* e3 := sys_call in                             (* malloc *)
      if e3 : bool then ret false
      else
        let* e4 := sys_call in                           (* fread *)
        if negb (length content =? 0)%nat && e4 then ret false
        else
          let buf := patch_param_json content in
          let* opened := open_copy_destination set_mode dst in
          match opened with
          | None => ret false
          | Some p =>
              let* written := (if (length buf =? 0)%nat then ret true else write_copy p [] buf) in
              let* e5 := sys_call in                     (* fclose *)
              if written && negb e5 then ret true else let* _ := unlink_copy dst in ret false
          end.

(** The loop of chunks; [rest] is still to be read. *)
Fixpoint copy_chunks (fuel buffer_size : nat) (dst : string) (so_far rest : text) : M bool :=
  match fuel with
  | O => stuck
  | S fuel' =>
      let* n := look (fun w => chunk_of (c_clock w)) in
      let* read_error := sys_call in
      if read_error : bool then                          (* a short read, then [ferror] *)
        let chunk := take (min n (pred buffer_size)) rest in
        let* _ := (if (0 <? length chunk)%nat then write_copy dst so_far chunk else ret true) in ret false
      else
        let chunk := take buffer_size rest in
        let* written := (if (0 <? length chunk)%nat then write_copy dst so_far chunk else ret true) in
        if negb written then ret false
        else if (length chunk <? buffer_size)%nat then ret true
        else copy_chunks fuel' buffer_size dst (so_far ++ chunk) (drop buffer_size rest)
  end.

Definition copy_file_buffered (set_mode : bool) (src : string) (content : text) (dst : string) (buffer_size : nat) : M bool :=
  if is_param_json src then copy_param_json_rewrite set_mode content dst
  else
    let* e := sys_call in
    if e : bool then ret false
    else
      let* opened := open_copy_destination set_mode dst in
      match opened with
      | None => ret false
      | Some p =>
          let* ok := copy_chunks (S (length content)) buffer_size p [] content in
          let* e1 := sys_call in                         (* fflush *)
          let* e2 := sys_call in                         (* fclose *)
          let* e3 := sys_call in                         (* fclose *)
          if ok && negb e1 && negb e2 && negb e3 then ret true else let* _ := unlink_copy dst in ret false
      end.

Definition BUFFER_SIZE : nat := 64 * 1024.

Definition copy_file_impl (set_mode : bool) (src : string) (content : text) (dst : string) : M bool :=
  let* e := sys_call in                                  (* malloc *)
  if e : bool then ret false else copy_file_buffered set_mode src content dst BUFFER_SIZE.

Definition copy_file := copy_file_impl false.
Definition copy_file_with_mode := copy_file_impl true.

(** ** Making room *)

(** [Some name] when [p] is [path/name]. *)
Definition child_name (path p : string) : option string :=
  if has_prefix p (path ++ "/") then
    let name := String.substring (strlen path + 1) (strlen p - (strlen path + 1)) p in
    if strchr name slash || strcmp_eq name "" then None else Some name
  else None.

Definition children_of (path : string) (m : gmap string dst_node) : list string :=
  omap (fun e => child_name path e.1) (map_to_list m).

(** A failing [readdir] ends the list as its end does. *)
Fixpoint remove_children (remove : string -> M bool) (path : string) (names : list string) : M bool :=
  let* read_error := sys_call in
  match names with
  | [] => ret true
  | name :: rest =>
      if read_error : bool then ret true
      else
        let p := child path name in
        if (MAX_PATH <=? strlen p)%nat then ret false
        else
          let* ok := remove p in
          if ok : bool then remove_children remove path rest else ret false
  end.

(** The depth of a path of [MAX_PATH] characters is enough fuel. *)
Fixpoint remove_copy_path (fuel : nat) (path : string) : M bool :=
  match fuel with
  | O => stuck
  | S fuel' =>
      let* e := sys_call in                              (* lstat *)
      if e : bool then ret false
      else
        let* m := nodes in
        match m !! path with
        | None => ret true
        | Some DDir =>
            let* e := sys_call in                        (* opendir *)
            if e : bool then ret false
            else
              let* ok := remove_children (remove_copy_path fuel') path (children_of path m) in
              let* e1 := sys_call in                     (* closedir *)
              if negb ok || e1 then ret false
              else
                let* e2 := sys_call in                   (* rmdir *)
                let* m := nodes in
                if e2 || negb (length (children_of path m) =? 0)%nat then ret false
                else let* _ := drop_node path in ret true
        | Some _ =>
            let* e := sys_call in                        (* unlink *)
            if e : bool then ret false else let* _ := drop_node path in ret true
        end
  end.

(** ** Directories *)
Inductive node_kind := KDir (entries : list (string * src_tree)) | KFile (content : text) | KRefused.

(** What [lstat] and [stat] let a copy do with a node. *)
Definition kind_of (t : src_tree) : node_kind :=
  match t with
  | SDir entries => KDir entries
  | SFile content => KFile content
  | SLink (Some (SFile content)) => KFile content
  | _ => KRefused
  end.

Definition is_dir_kind (t : src_tree) : bool := match t with SDir _ => true | _ => false end.

(** [mkdir], an existing directory is kept. *)
Definition make_copy_dir (dst : string) : M bool :=
  let* e := sys_call in
  if e : bool then ret false
  else
    let* m := nodes in
    match m !! dst with
    | None => let* _ := set_node dst DDir in ret true
    | Some DDir => let* e := sys_call in ret (negb e)    (* lstat *)
    | Some _ => ret false
    end.

(** [overlay]: what is in the way is removed. *)
Definition clear_destination (overlay : bool) (t : src_tree) (dd : string) : M bool :=
  if negb overlay then ret true
  else
    let* e := sys_call in                                (* lstat *)
    if e : bool then ret false
    else
      let* m := nodes in
      match m !! dd with
      | None => ret true
      | Some n =>
          if is_dir_kind t && match n with DDir => true | _ => false end then ret true
          else remove_copy_path (S MAX_PATH) dd
      end.

Section entries.
Context (sub : string -> string -> src_tree -> M bool) (set_mode overlay lowercase_names : bool) (src dst : string) (buffer_size : nat).

Definition dst_name (name : string) : string := if lowercase_names then lowercase_sce_sys_name name else name.

Fixpoint copy_entries (entries : list (string * src_tree)) : M bool :=
  let* read_error := sys_call in                         (* readdir *)
  if read_error : bool then ret false
  else
    match entries with
    | [] => ret true
    | (name, t) :: rest =>
        if dot_name name then copy_entries rest
        else
          let ss := child src name in
          if (MAX_PATH <=? strlen ss)%nat || (MAX_PATH <=? strlen (child dst name))%nat then ret false
          else
            let dd := child dst (dst_name name) in
            let* e := sys_call in                        (* lstat, stat *)
            if e : bool then ret false
            else
              match kind_of t with
              | KRefused => ret false
              | kind =>
                  let* room := clear_destination overlay t dd in
                  if negb room then ret false
                  else
                    let* ok := (match kind with
                                | KFile content => copy_file_buffered set_mode ss content dd buffer_size
                                | _ => sub ss dd t
                                end) in
                    if ok : bool then copy_entries rest else ret false
              end
    end.
End entries.

Fixpoint copy_dir_impl (set_mode overlay lowercase_names : bool) (buffer_size : nat) (src dst : string) (t : src_tree) : M bool :=
  match t with
  | SDir entries =>
      let* e := sys_call in                              (* opendir *)
      if e : bool then ret false
      else
        let* made := make_copy_dir dst in
        let* ok := (if made : bool
                    then copy_entries (copy_dir_impl set_mode overlay lowercase_names buffer_size) set_mode overlay lowercase_names src dst buffer_size entries
                    else ret false) in
        let* e := sys_call in                            (* closedir *)
        ret (ok && negb e)
  | _ => ret false
  end.

Definition copy_dir_with_options (set_mode overlay sce_sys : bool) (src dst : string) (t : src_tree) : M bool :=
  let* e := sys_call in                                  (* malloc *)
  if e : bool then ret false else copy_dir_impl set_mode overlay sce_sys BUFFER_SIZE src dst t.

Definition copy_dir := copy_dir_with_options false false false.
Definition copy_sce_sys_dir := copy_dir_with_options false false true.
Definition copy_dir_with_mode := copy_dir_with_options true true false.

(** ** A file below sce_sys, in any case *)

(** The parts between slashes. *)
Fixpoint path_parts (s : string) : list string :=
  match s with
  | EmptyString => [""%string]
  | String a s' =>
      if Ascii.eqb a slash then ""%string :: path_parts s'
      else match path_parts s' with part :: rest => String a part :: rest | [] => [String a ""] end
  end.

(** The first entry with that name. *)
Fixpoint find_entry (part : string) (entries : list (string * src_tree)) : M (option (string * src_tree)) :=
  let* read_error := sys_call in
  if read_error : bool then ret None
  else
    match entries with
    | [] => ret None
    | e :: rest => if strcasecmp_eq (lit e.1) (lit part) then ret (Some e) else find_entry part rest
    end.

Fixpoint resolve_parts (out : string) (t : src_tree) (parts : list string) : M (option string) :=
  match parts with
  | [] => ret (Some out)
  | part :: next =>
      if strcmp_eq part "" || dot_name part then ret None
      else
        let* failed := sys_call in                       (* opendir *)
        match t with
        | SDir entries | SLink (Some (SDir entries)) =>
            if failed : bool then ret None
            else
              let* found := find_entry part entries in
              let* failed := sys_call in                 (* closedir *)
              match found with
              | Some (name, t') =>
                  if failed || strcmp_eq name "" || (MAX_PATH <=? strlen (child out name))%nat then ret None
                  else resolve_parts (child out name) t' next
              | None => ret None
              end
        | _ => ret None
        end
  end.

Definition resolve_sce_sys_file (root relative : string) (t : src_tree) : M (option string) :=
  if (MAX_PATH <=? strlen root)%nat || (MAX_PATH <=? strlen relative)%nat then ret None
  else resolve_parts root t (path_parts relative).
End copy.

(** ** What a copy has to leave *)
Definition file_content (src : string) (content : text) : text := if is_param_json src then patch_param_json content else content.

(** The nodes a copy places, in their order. *)
Fixpoint placed (lowercase_names : bool) (src dst : string) (t : src_tree) : list (string * dst_node) :=
  match t with
  | SDir entries =>
      (dst, DDir) :: concat (map (fun e =>
        let ss := child src e.1 in
        let dd := child dst (dst_name lowercase_names e.1) in
        if dot_name e.1 then [] else
        match kind_of e.2 with
        | KFile content => [(dd, DFile (file_content ss content))]
        | _ => placed lowercase_names ss dd e.2
        end) entries)
  | _ => []
  end.

Definition place (l : list (string * dst_node)) (m : gmap string dst_node) : gmap string dst_node :=
  foldl (fun m e => <[e.1 := e.2]> m) m l.

Lemma place_app a b m : place (a ++ b) m = place b (place a m).
Proof. apply foldl_app. Qed.

(** Without two nodes at one path every node is found. *)
Lemma place_lookup l m p n : NoDup (fst <$> l) -> (p, n) ∈ l -> place l m !! p = Some n.
Proof.
  revert m. induction l as [|[q k] l IH] using rev_ind; intros m Hnd Hin; [by apply elem_of_nil in Hin|].
  rewrite fmap_app in Hnd. apply NoDup_app in Hnd as (Hnd & Hdis & _). rewrite place_app. simpl.
  apply elem_of_app in Hin as [Hin|Hin].
  - rewrite lookup_insert_ne; [by apply IH|]. intros <-. apply (Hdis q); [|by apply list_elem_of_singleton].
    apply list_elem_of_fmap. by exists (q, n).
  - apply list_elem_of_singleton in Hin as [= -> ->]. apply lookup_insert_eq.
Qed.

Lemma below_child path name p : below (child path name) p = true -> below path p = true.
Proof.
  unfold below, child. intros [H|H]%orb_true_iff; apply orb_true_iff; right; apply has_prefix_spec.
  - apply strcmp_eq_true in H as ->. exists name. by rewrite <-string_app_assoc.
  - apply has_prefix_spec in H as [r ->]. exists (name ++ "/" ++ r)%string. by rewrite <-!string_app_assoc.
Qed.

(** Only what is at or below [path] differs, and there are no new links. *)
Definition confined (path : string) (m m' : gmap string dst_node) : Prop :=
  (forall p, below path p = false -> m' !! p = m !! p) /\ (forall p t, m' !! p = Some (DLink t) -> m !! p = Some (DLink t)).

Lemma confined_refl path m : confined path m m.
Proof. done. Qed.

Lemma confined_trans path m1 m2 m3 : confined path m1 m2 -> confined path m2 m3 -> confined path m1 m3.
Proof. intros [H1 L1] [H2 L2]. split; [intros p Hp; by rewrite H2, H1|intros p t Hp; by apply L1, L2]. Qed.

Lemma confined_child path name m m' : confined (child path name) m m' -> confined path m m'.
Proof. intros [H L]. split; [|done]. intros p Hp. apply H. apply not_true_iff_false. intros Hb%below_child. congruence. Qed.

Lemma confined_insert path n m : (forall t, n <> DLink t) -> confined path m (<[path := n]> m).
Proof.
  intros Hn. split.
  - intros p Hp. rewrite lookup_insert_ne; [done|]. intros ->. by rewrite below_refl in Hp.
  - intros p t. rewrite lookup_insert_Some. intros [[_ Hl]|[_ Hl]]; [|done]. by destruct (Hn t).
Qed.

Lemma confined_file path c m : confined path m (<[path := DFile c]> m).
Proof. by apply confined_insert. Qed.

Lemma confined_dir path m : confined path m (<[path := DDir]> m).
Proof. by apply confined_insert. Qed.

Lemma confined_delete path m : confined path m (delete path m).
Proof.
  split.
  - intros p Hp. rewrite lookup_delete_ne; [done|]. intros ->. by rewrite below_refl in Hp.
  - intros p t. rewrite lookup_delete_Some. by intros [_ ?].
Qed.

(** No link is at or below [path]. *)
Definition no_links (path : string) (m : gmap string dst_node) : Prop := forall p t, below path p = true -> m !! p <> Some (DLink t).

Lemma no_links_confined path q m m' : no_links path m -> confined q m m' -> no_links path m'.
Proof. intros H [_ L] p t Hp Hl. by apply (H p t Hp), L. Qed.

Lemma no_links_child path name m : no_links path m -> no_links (child path name) m.
Proof. intros H p t Hp. apply H. by eapply below_child. Qed.

Definition no_link_at (path : string) (m : gmap string dst_node) : Prop := forall t, m !! path <> Some (DLink t).

Lemma no_link_reached path m : no_link_at path m -> reached m path = path.
Proof. unfold reached, no_link_at. destruct (m !! path) as [[| |t]|]; [done|done| |done]. intros H. by destruct (H t). Qed.

#[export] Hint Resolve confined_refl confined_file confined_dir confined_delete : sm.

Section rules.
Context (fails : nat -> bool) (chunk_of : nat -> nat).

Lemma wp_sys (Q : bool -> copy_world -> Prop) w : (forall b w', c_nodes w' = c_nodes w -> Q b w') -> wp (sys_call fails) Q w.
Proof. intros H. by apply H. Qed.

Lemma wp_nodes (Q : gmap string dst_node -> copy_world -> Prop) w : Q (c_nodes w) w -> wp nodes Q w.
Proof. exact (fun H => H). Qed.

Lemma wp_set p n (Q : () -> copy_world -> Prop) w : (forall w', c_nodes w' = <[p := n]> (c_nodes w) -> Q tt w') -> wp (set_node p n) Q w.
Proof. intros H. by apply H. Qed.

Lemma wp_drop p (Q : () -> copy_world -> Prop) w : (forall w', c_nodes w' = delete p (c_nodes w) -> Q tt w') -> wp (drop_node p) Q w.
Proof. intros H. by apply H. Qed.

(** Failure leaves anything at the destination; the rest is as it was. *)
Definition file_copied (dst : string) (content : text) (m : gmap string dst_node) (ok : bool) (w' : copy_world) : Prop :=
  confined dst m (c_nodes w') /\ (ok = true -> c_nodes w' = <[dst := DFile content]> m).

Lemma wp_write dst so_far data m w : c_nodes w = <[dst := DFile so_far]> m ->
  wp (write_copy fails chunk_of dst so_far data) (file_copied dst (so_far ++ data) m) w.
Proof.
  intros Hm. unfold write_copy. apply wp_bind, wp_look, wp_bind, wp_sys. intros [|] w1 H1; apply wp_bind, wp_set; intros w2 H2; apply wp_ret.
  - split; [|done]. rewrite H2, H1, Hm, insert_insert_eq. auto with sm.
  - rewrite H1, Hm, insert_insert_eq in H2. split; [|done]. rewrite H2. auto with sm.
Qed.

Lemma wp_unlink_ret {A} (x : A) dst m (Q : A -> copy_world -> Prop) w : confined dst m (c_nodes w) ->
  (forall w', confined dst m (c_nodes w') -> Q x w') -> wp (let* _ := unlink_copy fails dst in ret x) Q w.
Proof.
  intros Hm HQ. apply wp_bind, wp_bind, wp_sys. intros b w1 H1. apply wp_when; intros _; [apply wp_drop; intros w2 H2|]; apply wp_ret, HQ.
  - rewrite H2, H1. apply (confined_trans _ _ (c_nodes w)); [exact Hm|auto with sm].
  - by rewrite H1.
Qed.

Lemma wp_open set_mode dst w : no_link_at dst (c_nodes w) ->
  wp (open_copy_destination fails set_mode dst) (fun opened w' => confined dst (c_nodes w) (c_nodes w') /\
    (forall p, opened = Some p -> p = dst /\ c_nodes w' = <[dst := DFile []]> (c_nodes w))) w.
Proof.
  intros Hl. unfold open_copy_destination. apply wp_bind, wp_sys. intros b w1 H1. apply wp_bind, wp_nodes. rewrite H1, no_link_reached by done.
  destruct (_ || _); [apply wp_ret; by rewrite H1|].
  apply wp_bind, wp_set. intros w2 H2. rewrite H1 in H2. assert (Hc : confined dst (c_nodes w) (c_nodes w2)) by (rewrite H2; auto with sm).
  destruct set_mode; cbn [negb]; [|apply wp_ret; split; [done|]; by intros p [= ->]].
  apply wp_bind, wp_sys. intros [|] w3 H3; rewrite <-H3 in Hc; [eapply wp_unlink_ret; [exact Hc|]; by intros w4 H4|].
  apply wp_ret. split; [done|]. intros p [= ->]. by rewrite H3.
Qed.

(** The fuel is enough: every full chunk is at least one character. *)
Lemma copy_chunks_spec fuel size dst so_far rest m w : (0 < size)%nat -> (length rest < fuel)%nat -> c_nodes w = <[dst := DFile so_far]> m ->
  wp (copy_chunks fails chunk_of fuel size dst so_far rest) (file_copied dst (so_far ++ rest) m) w.
Proof.
  intros Hsize. revert so_far rest w. induction fuel as [|fuel IH]; intros so_far rest w Hf Hm; [lia|]. cbn [copy_chunks].
  apply wp_bind, wp_look, wp_bind, wp_sys. intros [|] w1 H1; rewrite Hm in H1.
  { apply wp_bind. destruct (_ <? _)%nat; [|apply wp_ret, wp_ret; split; [rewrite H1; auto with sm|done]].
    eapply wp_mono; [by apply wp_write|]. intros ok w2 [H2 _]. by apply wp_ret. }
  apply wp_bind. destruct (Nat.ltb_spec 0 (length (take size rest))) as [Hlen|Hlen].
  - eapply wp_mono; [by apply wp_write|]. intros ok w2 [H2 H2']. destruct ok; cbn [negb]; [|by apply wp_ret].
    rewrite length_take in *. destruct (Nat.ltb_spec (size `min` length rest) size) as [Hlt|Hge].
    + apply wp_ret. split; [done|]. rewrite take_ge in H2' by lia. exact H2'.
    + eapply wp_mono; [apply IH; [rewrite length_drop; lia|by apply H2']|]. intros ok w3 [H3 H3']. rewrite <-app_assoc, take_drop in H3'. by split.
  - apply wp_ret. cbn [negb]. rewrite length_take in *. assert (length rest = 0%nat) as Hnil by lia. apply nil_length_inv in Hnil as ->.
    destruct (Nat.ltb_spec (size `min` length (@nil Ascii.ascii)) size) as [_|Hge]; [|simpl in *; lia].
    apply wp_ret. rewrite app_nil_r. split; [rewrite H1; auto with sm|done].
Qed.

Lemma wp_false_copied {dst content m} w : confined dst m (c_nodes w) -> wp (ret false) (file_copied dst content m) w.
Proof. intros H. by apply wp_ret. Qed.

Lemma unlink_copied {dst content m} w : confined dst m (c_nodes w) ->
  wp (let* _ := unlink_copy fails dst in ret false) (file_copied dst content m) w.
Proof. intros H. eapply wp_unlink_ret; [exact H|]. by intros w' H'. Qed.

Lemma copy_param_spec set_mode content dst w : no_link_at dst (c_nodes w) ->
  wp (copy_param_json_rewrite fails chunk_of set_mode content dst) (file_copied dst (patch_param_json content) (c_nodes w)) w.
Proof.
  intros Hl. unfold copy_param_json_rewrite. apply wp_bind, wp_sys. intros [|] w1 H1; [apply wp_false_copied; by rewrite H1|].
  apply wp_bind, wp_sys. intros e2 w2 H2. rewrite H1 in H2. destruct (_ || _); [apply wp_false_copied; by rewrite H2|].
  apply wp_bind, wp_sys. intros [|] w3 H3; rewrite H2 in H3; [apply wp_false_copied; by rewrite H3|].
  apply wp_bind, wp_sys. intros e4 w4 H4. rewrite H3 in H4. destruct (_ && _); [apply wp_false_copied; by rewrite H4|].
  apply wp_bind. rewrite <-H4 in Hl |- *. eapply wp_mono; [by apply wp_open|]. intros [p|] w5 [H5 H5']; [|by apply wp_false_copied].
  destruct (H5' p eq_refl) as [-> Hn5]. set (buf := patch_param_json content). apply wp_bind.
  assert (Hend : forall (written : bool) w6, file_copied dst buf (c_nodes w4) written w6 ->
    wp (let* e5 := sys_call fails in if written && negb e5 then ret true else let* _ := unlink_copy fails dst in ret false)
      (file_copied dst buf (c_nodes w4)) w6).
  { intros written w6 [H6 H6']. apply wp_bind, wp_sys. intros e5 w7 H7. rewrite <-H7 in H6, H6'.
    destruct (written && negb e5) eqn:E; [|by apply unlink_copied]. bool_hyps. apply wp_ret. split; [done|]. intros _. by apply H6'. }
  destruct (Nat.eqb_spec (length buf) 0) as [Hnil|_].
  - apply wp_ret, Hend. split; [done|]. apply nil_length_inv in Hnil. by rewrite Hnil.
  - eapply wp_mono; [by apply wp_write|]. intros written w6 H6. by apply Hend.
Qed.

Lemma copy_file_spec set_mode src content dst size w : (0 < size)%nat -> no_link_at dst (c_nodes w) ->
  wp (copy_file_buffered fails chunk_of set_mode src content dst size) (file_copied dst (file_content src content) (c_nodes w)) w.
Proof.
  intros Hsize Hl. unfold copy_file_buffered, file_content. destruct (is_param_json src); [by apply copy_param_spec|].
  apply wp_bind, wp_sys. intros [|] w1 H1; [apply wp_false_copied; by rewrite H1|]. rewrite <-H1 in Hl |- *.
  apply wp_bind. eapply wp_mono; [by apply wp_open|]. intros [p|] w2 [H2 H2']; [|by apply wp_false_copied].
  destruct (H2' p eq_refl) as [-> Hn2].
  apply wp_bind. eapply wp_mono; [apply (copy_chunks_spec _ _ _ _ _ (c_nodes w1)); [done|lia|exact Hn2]|]. intros ok w3 [H3 H3']. simpl in H3'.
  apply wp_bind, wp_sys. intros e1 w4 H4. apply wp_bind, wp_sys. intros e2 w5 H5. apply wp_bind, wp_sys. intros e3 w6 H6.
  assert (Hsame : c_nodes w6 = c_nodes w3) by congruence. rewrite <-Hsame in H3, H3'. destruct (ok && negb e1 && negb e2 && negb e3) eqn:E.
  - apply wp_ret. bool_hyps. subst ok. by split.
  - by apply unlink_copied.
Qed.
End rules.

(** ** Directories *)
Section tree_induction.
Context (P : src_tree -> Prop) (Hfile : forall c, P (SFile c)) (Hdir : forall es, Forall (fun e => P e.2) es -> P (SDir es))
  (Hlink : forall o, P (SLink o)) (Hspecial : P SSpecial).

Fixpoint src_tree_children (t : src_tree) : P t :=
  match t with
  | SFile c => Hfile c
  | SDir es => Hdir es ((fix go (l : list (string * src_tree)) : Forall (fun e => P e.2) l :=
      match l with
      | [] => @List.Forall_nil _ _
      | e :: l' => @List.Forall_cons _ _ e l' (src_tree_children e.2) (go l')
      end) es)
  | SLink o => Hlink o
  | SSpecial => Hspecial
  end.
End tree_induction.

(** Destinations apart: distinct names without slashes, at every level. *)
Fixpoint names_apart (lowercase_names : bool) (t : src_tree) : Prop :=
  match t with
  | SDir es =>
      NoDup (map (fun e => dst_name lowercase_names e.1) es) /\
      foldr (fun e P => (strchr (dst_name lowercase_names e.1) slash = false /\ names_apart lowercase_names e.2) /\ P) True es
  | _ => True
  end.

Lemma foldr_conj {A} (P : A -> Prop) l : foldr (fun x Q => P x /\ Q) True l -> Forall P l.
Proof. induction l as [|x l IH]; simpl; [done|]. intros [Hx Hl]. constructor; auto. Qed.

(** Equal up to the first slash of both. *)
Lemma slashless_prefix a b r s : strchr a slash = false -> strchr b slash = false ->
  (r = "" \/ exists r', r = String slash r')%string -> (s = "" \/ exists s', s = String slash s')%string -> (a ++ r = b ++ s)%string -> a = b.
Proof.
  intros Ha Hb Hr Hs. revert b Hb. induction a as [|x a IH]; intros [|y b] Hb H; simpl in H.
  - done.
  - destruct Hr as [->|[r' ->]]; [done|]. injection H as <- _. done.
  - destruct Hs as [->|[s' ->]]; [done|]. injection H as -> _. done.
  - injection H as -> H. simpl in Ha, Hb. apply orb_false_iff in Ha as [_ Ha], Hb as [_ Hb]. f_equal. by apply IH.
Qed.

Lemma below_name path name p : below (child path name) p = true ->
  exists r, (r = "" \/ exists r', r = String slash r')%string /\ p = (path ++ "/" ++ name ++ r)%string.
Proof.
  unfold below, child. intros [H|H]%orb_true_iff.
  - apply strcmp_eq_true in H as ->. exists ""%string. split; [by left|]. by rewrite string_app_nil_r.
  - apply has_prefix_spec in H as [r ->]. exists ("/" ++ r)%string. split; [right; by exists r|]. by rewrite <-!string_app_assoc.
Qed.

Lemma string_app_cancel a b c : (a ++ b = a ++ c)%string -> b = c.
Proof. induction a as [|x a IH]; simpl; [done|]. intros [= H]. auto. Qed.

Lemma below_apart path a b p : strchr a slash = false -> strchr b slash = false -> a <> b ->
  below (child path a) p = true -> below (child path b) p = false.
Proof.
  intros Ha Hb Hne (r & Hr & ->)%below_name. apply not_true_iff_false. intros (s & Hs & H)%below_name.
  apply string_app_cancel, (string_app_cancel "/") in H. by apply Hne, (slashless_prefix _ _ r s).
Qed.

Lemma below_parent path name : below (child path name) path = false.
Proof.
  apply not_true_iff_false. intros (r & _ & H)%below_name. apply (f_equal strlen) in H. rewrite !strlen_append in H.
  change (strlen "/") with 1%nat in H. lia.
Qed.

(** The nodes of one entry. *)
Definition entry_placed (lowercase_names : bool) (src dst : string) (e : string * src_tree) : list (string * dst_node) :=
  let ss := child src e.1 in
  let dd := child dst (dst_name lowercase_names e.1) in
  if dot_name e.1 then [] else
  match kind_of e.2 with
  | KFile content => [(dd, DFile (file_content ss content))]
  | _ => placed lowercase_names ss dd e.2
  end.

Lemma placed_below lowercase_names t src dst p n : (p, n) ∈ placed lowercase_names src dst t -> below dst p = true.
Proof.
  revert src dst p n. apply (src_tree_children (fun t => forall src dst p n, (p, n) ∈ placed lowercase_names src dst t -> below dst p = true));
    [intros c|intros es Hes|intros o|]; intros src dst p n; try (by intros ?%elem_of_nil).
  change (placed lowercase_names src dst (SDir es)) with ((dst, DDir) :: concat (map (entry_placed lowercase_names src dst) es)).
  intros [[= -> _]|Hin]%elem_of_cons; [apply below_refl|].
  induction Hes as [|e es He Hes IH]; simpl in Hin; [by apply elem_of_nil in Hin|].
  apply elem_of_app in Hin as [Hin|Hin]; [|by apply IH]. unfold entry_placed in Hin. destruct (dot_name e.1); [by apply elem_of_nil in Hin|].
  eapply below_child. destruct (kind_of e.2); [by eapply He| |by eapply He].
  apply list_elem_of_singleton in Hin as [= -> _]. apply below_refl.
Qed.

Lemma entry_below lowercase_names src dst e p n : (p, n) ∈ entry_placed lowercase_names src dst e ->
  below (child dst (dst_name lowercase_names e.1)) p = true.
Proof.
  unfold entry_placed. destruct (dot_name e.1); [by intros ?%elem_of_nil|]. destruct (kind_of e.2); try apply placed_below.
  intros [= -> _]%list_elem_of_singleton. apply below_refl.
Qed.

Section directories.
Context (fails : nat -> bool) (chunk_of : nat -> nat).

(** What a removal leaves: nothing at [path] when it succeeds. *)
Definition removed (path : string) (m : gmap string dst_node) (ok : bool) (w' : copy_world) : Prop :=
  confined path m (c_nodes w') /\ (ok = true -> c_nodes w' !! path = None).

Lemma removed_false path m w : confined path m (c_nodes w) -> wp (ret false) (removed path m) w.
Proof. intros H. by apply wp_ret. Qed.

Lemma removed_drop path m w : confined path m (c_nodes w) -> wp (let* _ := drop_node path in ret true) (removed path m) w.
Proof.
  intros Hm. apply wp_bind, wp_drop. intros w' H. apply wp_ret. unfold removed. rewrite H. split; [|intros _; apply lookup_delete_eq].
  apply (confined_trans _ _ (c_nodes w)); [exact Hm|auto with sm].
Qed.

Lemma remove_children_spec remove path names m w :
  (forall name w, (strlen (child path name) < MAX_PATH)%nat -> wp (remove (child path name)) (removed (child path name) (c_nodes w)) w) ->
  confined path m (c_nodes w) -> wp (remove_children fails remove path names) (fun _ w' => confined path m (c_nodes w')) w.
Proof.
  intros Hrec. revert w. induction names as [|name names IHn]; intros w Hm; cbn [remove_children]; apply wp_bind, wp_sys; intros e w1 H1;
    [apply wp_ret; by rewrite H1|]. destruct e; [apply wp_ret; by rewrite H1|].
  destruct (Nat.leb_spec MAX_PATH (strlen (child path name))) as [Hl|Hl]; [by apply wp_ret; rewrite H1|].
  apply wp_bind. eapply wp_mono; [by apply Hrec|]. rewrite H1. intros ok w2 [H2 _].
  pose proof (confined_trans _ _ _ _ Hm (confined_child _ _ _ _ H2)) as H02. destruct ok; [by apply IHn|by apply wp_ret].
Qed.

(** The fuel is enough: paths grow at each level and are bounded. *)
Lemma remove_spec fuel path w : (strlen path <= MAX_PATH)%nat -> (MAX_PATH < fuel + strlen path)%nat ->
  wp (remove_copy_path fails fuel path) (removed path (c_nodes w)) w.
Proof.
  revert path w. induction fuel as [|fuel IH]; intros path w Hlen Hfuel; [exfalso; exact (Nat.lt_irrefl _ (Nat.lt_le_trans _ _ _ Hfuel Hlen))|].
  cbn [remove_copy_path]. apply wp_bind, wp_sys. intros [|] w1 H1; rewrite <-H1; [apply removed_false; auto with sm|].
  apply wp_bind, wp_nodes.
  assert (Hleaf : wp (let* e := sys_call fails in if e : bool then ret false else let* _ := drop_node path in ret true)
      (removed path (c_nodes w1)) w1).
  { apply wp_bind, wp_sys. intros [|] w2 H2; rewrite <-H2; [apply removed_false|apply removed_drop]; auto with sm. }
  destruct (c_nodes w1 !! path) as [[| |]|] eqn:Hp; [exact Hleaf| |exact Hleaf|by apply wp_ret].
  apply wp_bind, wp_sys. intros [|] w2 H2; rewrite <-H2; [apply removed_false; auto with sm|].
  apply wp_bind. eapply wp_mono; [apply (remove_children_spec _ _ _ (c_nodes w2)); [|auto with sm]|].
  { intros name w3 Hl. apply IH; [by apply Nat.lt_le_incl|]. unfold child. rewrite !strlen_append. change (strlen "/") with 1%nat. lia. }
  intros ok w3 H3. cbv beta in H3. apply wp_bind, wp_sys. intros e1 w4 H4. rewrite <-H4 in H3.
  destruct (_ || _); [by apply removed_false|]. apply wp_bind, wp_sys. intros e2 w5 H5. rewrite <-H5 in H3. apply wp_bind, wp_nodes.
  destruct (_ || _); [by apply removed_false|by apply removed_drop].
Qed.

Lemma strlen_lowercase name : strlen (lowercase_sce_sys_name name) = strlen name.
Proof.
  unfold lowercase_sce_sys_name. induction name as [|a name IH]; [done|]. exact (f_equal S IH).
Qed.

Lemma strlen_dst_name lowercase_names dst name : strlen (child dst (dst_name lowercase_names name)) = strlen (child dst name).
Proof. unfold child, dst_name. rewrite !strlen_append. destruct lowercase_names; [by rewrite strlen_lowercase|done]. Qed.

(** No link is in the way: they are removed first, or there is none. *)
Definition clean (overlay : bool) (dst : string) (m : gmap string dst_node) : Prop := overlay = true \/ no_links dst m.

Lemma clean_confined overlay dst q m m' : clean overlay dst m -> confined q m m' -> clean overlay dst m'.
Proof. intros [H|H] Hc; [by left|right]. by eapply no_links_confined. Qed.

Lemma clean_child overlay dst name m : clean overlay dst m -> clean overlay (child dst name) m.
Proof. intros [H|H]; [by left|right]. by apply no_links_child. Qed.

Lemma clear_destination_spec overlay t dd w : (strlen dd <= MAX_PATH)%nat -> clean overlay dd (c_nodes w) ->
  wp (clear_destination fails overlay t dd) (fun ok w' => confined dd (c_nodes w) (c_nodes w') /\ (overlay = false -> c_nodes w' = c_nodes w) /\
    (ok = true -> is_dir_kind t = false -> no_link_at dd (c_nodes w'))) w.
Proof.
  intros Hlen Hclean. unfold clear_destination. destruct overlay; cbn [negb].
  - apply wp_bind, wp_sys. intros [|] w1 H1; rewrite <-H1; [by apply wp_ret; auto with sm|]. apply wp_bind, wp_nodes.
    destruct (c_nodes w1 !! dd) as [n|] eqn:Hn.
    + destruct (_ && _) eqn:E; [apply wp_ret; split; [auto with sm|]; bool_hyps; split; [done|congruence]|].
      eapply wp_mono; [apply remove_spec; [done|]|].
      * rewrite Nat.add_succ_l. apply Nat.lt_succ_r, Nat.le_add_r.
      * intros ok w2 [H2 Hnone]. split; [done|]. split; [done|]. intros Hok _ l. by rewrite Hnone.
    + apply wp_ret. split; [auto with sm|]. split; [done|]. intros _ _ l. by rewrite Hn.
  - apply wp_ret. split; [auto with sm|]. split; [done|]. intros _ _ l. destruct Hclean as [|H]; [done|]. apply H, below_refl.
Qed.

(** What copying one entry, whose nodes are [l], does at [dd]. *)
Definition copied_as (overlay : bool) (apart : Prop) (dd : string) (l : list (string * dst_node)) (m : gmap string dst_node) (ok : bool) (w' : copy_world) : Prop :=
  confined dd m (c_nodes w') /\ (ok = true -> overlay = false -> c_nodes w' = place l m) /\
  (ok = true -> apart -> forall p n, (p, n) ∈ l -> c_nodes w' !! p = Some n).

Definition tree_copied (overlay lowercase_names : bool) (src dst : string) (t : src_tree) :=
  copied_as overlay (names_apart lowercase_names t) dst (placed lowercase_names src dst t).

Lemma wp_entry (Q : bool -> copy_world -> Prop) overlay t dd l apart copy next w : (strlen dd <= MAX_PATH)%nat -> clean overlay dd (c_nodes w) ->
  (forall w, clean overlay dd (c_nodes w) -> (is_dir_kind t = false -> no_link_at dd (c_nodes w)) -> wp copy (copied_as overlay apart dd l (c_nodes w)) w) ->
  (forall ok w', copied_as overlay apart dd l (c_nodes w) ok w' -> wp (if ok : bool then next else ret false) Q w') ->
  wp (let* room := clear_destination fails overlay t dd in
      if negb room then ret false else let* ok := copy in if ok : bool then next else ret false) Q w.
Proof.
  intros Hlen Hclean Hcopy Hnext. apply wp_bind. eapply wp_mono; [by apply clear_destination_spec|]. intros room w1 (H1 & Hsame & Hno).
  destruct room; cbn [negb]; [|apply (Hnext false); split; [done|]; split; intros; discriminate].
  apply wp_bind. eapply wp_mono; [apply Hcopy; [by eapply clean_confined|by apply Hno]|]. intros ok w2 (H2 & Hplace & Hfound).
  apply Hnext. split; [by eapply confined_trans|]. split; [|done]. intros Hok Hov. by rewrite Hplace, Hsame.
Qed.

Section entries.
Context (sub : string -> string -> src_tree -> Effects.prog copy_world bool) (set_mode overlay lowercase_names : bool) (src dst : string) (size : nat).
Hypothesis Hsize : (0 < size)%nat.

Abbreviation dest e := (child dst (dst_name lowercase_names e.1)).

(** The entries are apart from each other and each in itself. *)
Definition entries_apart (es : list (string * src_tree)) : Prop :=
  NoDup (map (fun e => dst_name lowercase_names e.1) es) /\
  Forall (fun e => strchr (dst_name lowercase_names e.1) slash = false /\ names_apart lowercase_names e.2) es.

Definition entries_copied (es : list (string * src_tree)) (m : gmap string dst_node) (ok : bool) (w' : copy_world) : Prop :=
  copied_as overlay (entries_apart es) dst (concat (map (entry_placed lowercase_names src dst) es)) m ok w' /\
  (forall p, Forall (fun e => below (dest e) p = false) es -> c_nodes w' !! p = m !! p).

Lemma entries_copied_false es m w : confined dst m (c_nodes w) -> (forall p, Forall (fun e => below (dest e) p = false) es -> c_nodes w !! p = m !! p) ->
  wp (ret false) (entries_copied es m) w.
Proof. intros H1 H2. apply wp_ret. by split. Qed.

Lemma entries_false_same es m w : c_nodes w = m -> wp (ret false) (entries_copied es m) w.
Proof. intros <-. apply entries_copied_false; auto with sm. Qed.

(** One entry, then the rest. *)
Lemma entries_cons e es m ok1 w1 ok w' : copied_as overlay (names_apart lowercase_names e.2) (dest e) (entry_placed lowercase_names src dst e) m ok1 w1 ->
  ok1 = true -> entries_copied es (c_nodes w1) ok w' -> entries_copied (e :: es) m ok w'.
Proof.
  intros (H1 & Hp1 & Hf1) -> ((H2 & Hp2 & Hf2) & Hkeep). split; [split; [|split]|].
  - eapply confined_trans; [by eapply confined_child|done].
  - intros Hok Hov. cbn [map concat]. by rewrite place_app, Hp2, Hp1.
  - intros Hok [Hnd Hall] p n. cbn [map concat]. inversion Hnd as [|? ? Hnotin Hnd']. subst. apply Forall_cons in Hall as [[Hs Ha] Hall].
    intros [Hin|Hin]%elem_of_app; [|by apply Hf2].
    rewrite Hkeep; [by apply Hf1|]. apply entry_below in Hin. apply Forall_forall. intros e' He'.
    eapply below_apart; [exact Hs|by eapply Forall_forall in Hall as [? _]| |exact Hin]. intros Heq. apply Hnotin. rewrite Heq.
    by apply (list_elem_of_fmap_2 (fun e => dst_name lowercase_names e.1)).
  - intros p [Hb Hall]%Forall_cons. rewrite Hkeep by done. by apply H1.
Qed.

Lemma file_entry ss dd content w : no_link_at dd (c_nodes w) ->
  wp (copy_file_buffered fails chunk_of set_mode ss content dd size) (copied_as overlay True dd [(dd, DFile (file_content ss content))] (c_nodes w)) w.
Proof.
  intros Hl. eapply wp_mono; [by apply copy_file_spec|]. intros ok w' [H Hok]. split; [done|]. split; [intros Ht _; by apply Hok|].
  intros Ht _ p n Hin%list_elem_of_singleton. injection Hin as -> ->. rewrite Hok by done. apply lookup_insert_eq.
Qed.

Lemma copied_as_apart apart apart' dd l m ok w : (apart' -> apart) -> copied_as overlay apart dd l m ok w -> copied_as overlay apart' dd l m ok w.
Proof. intros Ha (H1 & H2 & H3). split; [done|]. split; [done|]. intros Hok Hap. apply H3; auto. Qed.

Lemma copy_entries_spec es w :
  Forall (fun e => forall ss dd w, clean overlay dd (c_nodes w) -> wp (sub ss dd e.2) (tree_copied overlay lowercase_names ss dd e.2 (c_nodes w)) w) es ->
  clean overlay dst (c_nodes w) ->
  wp (copy_entries fails chunk_of sub set_mode overlay lowercase_names src dst size es) (entries_copied es (c_nodes w)) w.
Proof.
  revert w. induction es as [|e es IH]; intros w Hsub Hclean; cbn [copy_entries]; apply wp_bind, wp_sys; intros [|] w1 H1;
    try (by apply entries_false_same).
  { apply wp_ret. rewrite <-H1. split; [split; [auto with sm|split; [done|by intros _ _ p n ?%elem_of_nil]]|done]. }
  destruct e as [name t]. apply Forall_cons in Hsub as [Ht Hsub]. cbn [snd] in Ht. rewrite <-H1 in Hclean |- *.
  destruct (dot_name name) eqn:Edot.
  { eapply wp_mono; [by apply IH|]. intros ok w2 H2. eapply (entries_cons (name, t) _ _ true w1); [|done|exact H2].
    unfold entry_placed. cbn [fst]. rewrite Edot. split; [auto with sm|]. split; [done|by intros _ _ p n ?%elem_of_nil]. }
  destruct (Nat.leb_spec MAX_PATH (strlen (child src name))); [by apply entries_false_same|].
  destruct (Nat.leb_spec MAX_PATH (strlen (child dst name))) as [|Hlen]; [by apply entries_false_same|]. cbn [orb].
  apply wp_bind, wp_sys. intros [|] w2 H2; [by apply entries_false_same|]. rewrite <-H2 in Hclean |- *. set (ss := child src name). set (dd := child dst (dst_name lowercase_names name)).
  assert (Hgo : forall copy,
    (forall w, clean overlay dd (c_nodes w) -> (is_dir_kind t = false -> no_link_at dd (c_nodes w)) ->
      wp copy (copied_as overlay (names_apart lowercase_names t) dd (entry_placed lowercase_names src dst (name, t)) (c_nodes w)) w) ->
    wp (let* room := clear_destination fails overlay t dd in
        if negb room then ret false
        else let* ok := copy in if ok : bool then copy_entries fails chunk_of sub set_mode overlay lowercase_names src dst size es else ret false)
      (entries_copied ((name, t) :: es) (c_nodes w2)) w2).
  { intros copy Hcopy. eapply wp_entry; [unfold dd; rewrite strlen_dst_name; by apply Nat.lt_le_incl|by apply clean_child|exact Hcopy|].
    intros ok w3 H3. destruct ok.
    - eapply wp_mono; [apply IH; [done|eapply clean_confined; [exact Hclean|apply H3]]|]. intros ok w4 H4. by eapply (entries_cons (name, t)).
    - apply entries_copied_false; [eapply confined_child; apply H3|]. intros p [Hb _]%Forall_cons. by apply H3. }
  unfold entry_placed in Hgo. cbn [fst snd] in Hgo. rewrite Edot in Hgo.
  destruct (kind_of t) as [es'|content|] eqn:Ek; [| |by apply entries_false_same]; apply Hgo; intros w3 Hc3 Hl3.
  - by apply Ht.
  - eapply wp_mono; [apply file_entry, Hl3; by destruct t as [| |[]|]|]. intros ok w4. by apply copied_as_apart.
Qed.
End entries.

Lemma make_dir_spec dst w : wp (make_copy_dir fails dst) (fun ok w' => confined dst (c_nodes w) (c_nodes w') /\
  (ok = true -> c_nodes w' = <[dst := DDir]> (c_nodes w))) w.
Proof.
  unfold make_copy_dir. apply wp_bind, wp_sys. intros [|] w1 H1; [by apply wp_ret; rewrite H1|]. apply wp_bind, wp_nodes. rewrite H1.
  destruct (c_nodes w !! dst) as [[| |]|] eqn:E; [by apply wp_ret; rewrite H1| |by apply wp_ret; rewrite H1|].
  - apply wp_bind, wp_sys. intros e w2 H2. apply wp_ret. rewrite H2, H1. split; [auto with sm|]. intros _. by rewrite insert_id.
  - apply wp_bind, wp_set. intros w2 H2. apply wp_ret. rewrite H2, H1. auto with sm.
Qed.

Lemma copy_dir_spec set_mode overlay lowercase_names size t src dst w : (0 < size)%nat -> clean overlay dst (c_nodes w) ->
  wp (copy_dir_impl fails chunk_of set_mode overlay lowercase_names size src dst t) (tree_copied overlay lowercase_names src dst t (c_nodes w)) w.
Proof.
  intros Hsize. revert src dst w. apply (src_tree_children (fun t => forall src dst w, clean overlay dst (c_nodes w) ->
    wp (copy_dir_impl fails chunk_of set_mode overlay lowercase_names size src dst t) (tree_copied overlay lowercase_names src dst t (c_nodes w)) w));
    [intros c|intros es Hes|intros o|]; intros src dst w Hclean; try (by apply wp_ret; split).
  cbn [copy_dir_impl]. apply wp_bind, wp_sys. intros [|] w1 H1; rewrite <-H1 in Hclean |- *; [by apply wp_ret|].
  apply wp_bind. eapply wp_mono; [apply make_dir_spec|]. intros made w2 [H2 H2']. apply wp_bind.
  assert (Hend : forall (ok : bool) w3, tree_copied overlay lowercase_names src dst (SDir es) (c_nodes w1) ok w3 ->
    wp (let* e := sys_call fails in ret (ok && negb e)) (tree_copied overlay lowercase_names src dst (SDir es) (c_nodes w1)) w3).
  { intros ok w3 (H3 & Hp & Hf). apply wp_bind, wp_sys. intros e w4 H4. apply wp_ret. rewrite <-H4 in H3, Hp, Hf.
    split; [done|]. split; intros Hok; bool_hyps; auto. }
  destruct made; [|by apply wp_ret, Hend]. specialize (H2' eq_refl).
  eapply wp_mono; [apply copy_entries_spec; [done| |by eapply clean_confined]|].
  - eapply Forall_impl; [exact Hes|]. intros e He ss dd w3. apply He.
  - intros ok w3 ((H3 & Hp & Hf) & Hkeep). apply Hend. split; [by eapply confined_trans|]. split.
    + intros Hok Hov. rewrite Hp, H2' by done. done.
    + intros Hok [Hnd Hall] p n. intros [[= -> ->]|Hin]%elem_of_cons; [|apply Hf; [done|split; [done|by apply foldr_conj]|done]].
      rewrite Hkeep, H2'; [apply lookup_insert_eq|]. apply Forall_forall. intros e _. apply below_parent.
Qed.
End directories.

(** ** Resolving a file below sce_sys *)

(** The node at the end of [names], links to directories followed. *)
Fixpoint node_at (t : src_tree) (names : list string) : option src_tree :=
  match names with
  | [] => Some t
  | name :: rest =>
      match t with
      | SDir entries | SLink (Some (SDir entries)) =>
          match list_find (fun e => strcasecmp_eq (lit e.1) (lit name)) entries with
          | Some (_, e) => node_at e.2 rest
          | None => None
          end
      | _ => None
      end
  end.

Lemma find_entry_spec fails part entries w : wp (find_entry fails part entries) (fun r w' => c_nodes w' = c_nodes w /\
  (forall e, r = Some e -> strcasecmp_eq (lit e.1) (lit part) = true /\
    exists i, list_find (fun e => strcasecmp_eq (lit e.1) (lit part)) entries = Some (i, e))) w.
Proof.
  revert w. induction entries as [|e es IH]; intros w; cbn [find_entry]; apply wp_bind, wp_sys; intros [|] w1 H1; try (by apply wp_ret).
  cbn [list_find]. destruct (strcasecmp_eq (lit e.1) (lit part)) eqn:E.
  - apply wp_ret. split; [done|]. intros e' [= <-]. split; [done|]. exists 0%nat. by rewrite decide_True.
  - eapply wp_mono; [apply IH|]. intros r w2 [H2 Hr]. split; [congruence|]. intros e' He. destruct (Hr e' He) as [Heq [i Hi]].
    split; [done|]. exists (S i). rewrite decide_False by auto. by rewrite Hi.
Qed.

Lemma resolve_parts_spec fails out t parts w : (strlen out < MAX_PATH)%nat ->
  wp (resolve_parts fails out t parts) (fun r w' => c_nodes w' = c_nodes w /\ (forall p, r = Some p -> (strlen p < MAX_PATH)%nat /\
    exists names, Forall2 (fun name part => strcasecmp_eq (lit name) (lit part) = true) names parts /\
      p = foldl child out names /\ is_Some (node_at t parts))) w.
Proof.
  revert out t w. induction parts as [|part parts IH]; intros out t w Hlen; cbn [resolve_parts].
  { apply wp_ret. split; [done|]. intros p [= <-]. split; [done|]. exists []. by eauto. }
  destruct (_ || _); [by apply wp_ret|]. apply wp_bind, wp_sys. intros failed w1 H1. cbn [node_at].
  assert (Hdir : forall entries,
    wp (if failed then ret None
        else let* found := find_entry fails part entries in
             let* failed := sys_call fails in
             match found with
             | Some (name, t') =>
                 if failed || strcmp_eq name "" || (MAX_PATH <=? strlen (child out name))%nat then ret None
                 else resolve_parts fails (child out name) t' parts
             | None => ret None
             end) (fun r w' => c_nodes w' = c_nodes w /\ (forall p, r = Some p -> (strlen p < MAX_PATH)%nat /\
        exists names, Forall2 (fun name part => strcasecmp_eq (lit name) (lit part) = true) names (part :: parts) /\
          p = foldl child out names /\
          is_Some (match list_find (fun e => strcasecmp_eq (lit e.1) (lit part)) entries with Some (_, e) => node_at e.2 parts | None => None end))) w1).
  { intros entries. destruct failed; [by apply wp_ret|]. apply wp_bind. eapply wp_mono; [apply find_entry_spec|]. intros found w2 [H2 Hfound].
    apply wp_bind, wp_sys. intros failed w3 H3. destruct found as [[name t']|]; [|apply wp_ret; split; [congruence|done]].
    destruct (Hfound _ eq_refl) as [Heq [i ->]]. destruct (_ || strcmp_eq name "") eqn:E; [apply wp_ret; split; [congruence|done]|].
    destruct (Nat.leb_spec MAX_PATH (strlen (child out name))) as [|Hl]; [apply wp_ret; split; [congruence|done]|]. cbn [orb].
    eapply wp_mono; [by apply IH|]. intros r w4 [H4 Hr]. split; [congruence|]. intros p Hp. destruct (Hr p Hp) as (Hlp & names & Hall & -> & Hn).
    split; [done|]. exists (name :: names). split; [by constructor|]. by split. }
  destruct t as [c|es|[[c|es|o|]|]|]; try apply Hdir; by apply wp_ret.
Qed.

(** A file found below [root] is there, under names that differ from the asked ones in
    case at most, and its path fits. *)
Lemma resolve_sce_sys_file_found fails root relative t w :
  wp (resolve_sce_sys_file fails root relative t) (fun r w' => c_nodes w' = c_nodes w /\ (forall p, r = Some p -> (strlen p < MAX_PATH)%nat /\
    exists names, Forall2 (fun name part => strcasecmp_eq (lit name) (lit part) = true) names (path_parts relative) /\
      p = foldl child root names /\ is_Some (node_at t (path_parts relative)))) w.
Proof.
  unfold resolve_sce_sys_file. destruct (Nat.leb_spec MAX_PATH (strlen root)) as [|Hl]; [by apply wp_ret|].
  destruct (MAX_PATH <=? strlen relative)%nat; [by apply wp_ret|]. cbn [orb]. by apply resolve_parts_spec.
Qed.

(** Claim C15: A copy of a directory ends, whatever calls fail, and changes nothing outside its
    destination (links there are removed first, or there are none).  When it reports
    success, the destination holds the directories and files of the source under their
    names, in lower case for sce_sys, each file with all its bytes and in param.json the
    first "upgradable" replaced; a copy that replaces nothing leaves exactly this over
    what was there before. *)
Theorem copy_dir_exact fails chunk_of set_mode overlay sce_sys src dst t w (Hclean : clean overlay dst (c_nodes w)) :
  wp (copy_dir_with_options fails chunk_of set_mode overlay sce_sys src dst t) (fun ok w' =>
    confined dst (c_nodes w) (c_nodes w') /\
    (ok = true -> names_apart sce_sys t -> forall p n, (p, n) ∈ placed sce_sys src dst t -> c_nodes w' !! p = Some n) /\
    (ok = true -> overlay = false -> c_nodes w' = place (placed sce_sys src dst t) (c_nodes w))) w.
Proof.
  unfold copy_dir_with_options. apply wp_bind, wp_sys. intros [|] w1 H1; [by apply wp_ret; rewrite H1|].
  eapply wp_mono; [apply copy_dir_spec; [apply Nat.ltb_lt; vm_compute; reflexivity|by rewrite H1]|].
  rewrite H1. intros ok w2 (H2 & Hp & Hf). by split.
Qed.

Definition demo_tree : src_tree :=
  SDir [("eboot.bin", SFile (lit "code")); ("Sce_sys", SDir [("param.json", SFile (lit "{upgradable}"))])]%string.

(** The destination has a link where a file belongs. *)
Definition demo_copy_world : copy_world := CopyWorld {["/dst" := DDir; "/dst/eboot.bin" := DLink "/system/file"; "/system/file" := DFile []]}%string 0.

(** Copying over a link: it is replaced, its target stays. *)
Lemma copy_dir_exact_witness : exists w', copy_dir_with_options (fun _ => false) (fun _ => 0%nat) true true false "/src" "/dst" demo_tree demo_copy_world = Some (true, w') /\
  c_nodes w' !! "/system/file"%string = Some (DFile []) /\ c_nodes w' !! "/dst/eboot.bin"%string = Some (DFile (lit "code")).
Proof.
  pose proof (copy_dir_exact (fun _ => false) (fun _ => 0%nat) true true false "/src" "/dst" demo_tree demo_copy_world (or_introl eq_refl)) as H.
  apply wp_ends in H as (ok & w' & Hrun & H).
  assert (Hok : fst <$> copy_dir_with_options (fun _ => false) (fun _ => 0%nat) true true false "/src" "/dst" demo_tree demo_copy_world = Some true) by (vm_compute; reflexivity).
  rewrite Hrun in Hok. injection Hok as ->. exists w'. split; [exact Hrun|]. destruct H as (H1 & H2 & _). split.
  - rewrite (proj1 H1) by (vm_compute; reflexivity). vm_compute. reflexivity.
  - apply H2; [done| |].
    + split; [by apply NoDup_ListNoDup; repeat constructor; vm_compute; intuition discriminate|]. vm_compute. repeat split; repeat constructor; by intros ?%elem_of_nil.
    + vm_compute. right. left.
Defined.
