(* ===== verification/Installation.v ===== *)
(** * Installing and remounting titles (src/sm_install.c)

    What is done with a candidate of a scan: its files are staged, its source is mounted at
    the title (TitleMounts.v), the link and the chain of images are written (TitleLinks.v),
    and it is registered, or put into the queue of the batch installer.  A copy changes the
    files at its destination in any way, one after the other, and nothing else (what copies
    do, and when links at the destination could lead elsewhere, is CopyTree.v); the
    installer and the other components are calls whose answers are arbitrary. *)
From S2P Require Import Prelude CString IniFile ImageCache ScanBackports ScanCandidates Effects TitleLinks MountStack TitleMounts.
From stdpp Require Import gmap strings.
Open Scope Z_scope.
Open Scope c_scope.

Abbreviation M := (prog world).

Definition ENOTDIR : Z := 20.
Definition ECANCELED : Z := 85.

(** [strcasecmp(a, b) == 0] *)
Definition same_name (a b : string) : bool := strcasecmp_eq (lit a) (lit b).

(** [strrchr(name, '.')]: the extension with its point. *)
Definition extension (name : string) : option string := String "."%char <$> after_last name "."%char.

Definition is_appmeta_file (name : string) : bool :=
  if same_name name "param.json" || same_name name "param.sfo" then true
  else match extension name with
       | None => false
       | Some ext => same_name ext ".png" || same_name ext ".dds" || same_name ext ".at9"
       end.

(** [g_app_install_title_dir_fn] and [g_app_install_title_dir_resolve_attempted]. *)
Record resolver := Resolver { fn_resolved : bool; resolve_attempted : bool }.

Section install.
Context (sys : answers).

Definition call (name : string) (args : list string) : M Z := TitleLinks.ask sys (Call name args).
Definition call_bool (name : string) (args : list string) : M bool := let* r := call name args in ret (negb (r =? 0)).
Definition tell (name : string) (args : list string) : M () := let* _ := call name args in ret tt.

(** [should_stop_requested() || runtime_sleep_mode_active()] *)
Definition interrupted : M bool :=
  let* stop := TitleLinks.ask sys Stopping in
  if stop : bool then ret true else TitleLinks.ask sys Sleeping.

(** ** The system's installer *)
Definition resolve_app_install_title_dir (st : resolver) : M (bool * resolver) :=
  if fn_resolved st then ret (true, st)
  else if resolve_attempted st then ret (false, st)
  else
    let* major := call "sm_firmware_major_version" [] in
    if 12 <=? major then ret (false, Resolver false true)
    else
      let* handle := call_bool "dlopen" [] in
      if negb handle then ret (false, Resolver false true)
      else
        let* found := call_bool "dlsym" [] in
        ret (found, Resolver found true).

(** [None] is the [false] return, otherwise the value of [*result_out]. *)
Definition sm_install_register_title_dir (title_id install_dir : string) (st : resolver) : M (option Z * resolver) :=
  let* bridge := call_bool "sm_shellcore_install_bridge_enabled" [] in
  if bridge : bool then
    let* done := call_bool "sm_shellcore_install_title_dir" [title_id; install_dir] in
    if done : bool then let* r := call "result" [] in ret (Some r, st) else ret (None, st)
  else
    let* resolved := resolve_app_install_title_dir st in
    let '(found, st) := resolved in
    if negb found then ret (None, st)
    else let* r := call "install_title_dir" [title_id; install_dir] in ret (Some r, st).

(** ** Staging *)

(** The turns over the entries of [sce_sys]; the error that ended them, 0 at the end. *)
Fixpoint appmeta_entries (src_sce_sys user_appmeta_dir : string) (names : list string) (last_error : Z) : M Z :=
  let* stop := interrupted in
  if stop : bool then ret ECANCELED
  else
    match names with
    | [] => ret last_error
    | name :: rest =>
        if dot_name name || negb (is_appmeta_file name) then appmeta_entries src_sce_sys user_appmeta_dir rest last_error
        else
          let src_path := (src_sce_sys ++ "/" ++ name)%string in
          if (MAX_PATH <=? strlen src_path)%nat then ret ENAMETOOLONG
          else
            let* st := TitleLinks.ask sys (Stat src_path) in
            match st with
            | inr e => ret e
            | inl IsRegular =>
                if (MAX_PATH <=? strlen (user_appmeta_dir ++ "/" ++ name))%nat then ret ENAMETOOLONG
                else
                  let* e := copy_file_to sys src_path (user_appmeta_dir ++ "/" ++ lowercase_sce_sys_name name) in
                  match e with
                  | Some e => ret (if e =? 0 then EIO else e)
                  | None => appmeta_entries src_sce_sys user_appmeta_dir rest last_error
                  end
            | inl _ => appmeta_entries src_sce_sys user_appmeta_dir rest last_error
            end
    end.

Definition copy_sce_sys_to_appmeta (src_sce_sys user_appmeta_dir : string) : M bool :=
  let* stop := interrupted in
  if stop : bool then ret false
  else
    let* dir := TitleLinks.ask sys (ReadDir src_sce_sys) in
    match dir with
    | inr _ => ret false
    | inl (names, last_error) =>
        let* error := appmeta_entries src_sce_sys user_appmeta_dir names last_error in
        let* bad := TitleLinks.ask sys CloseFails in
        ret ((error =? 0) && negb bad)
    end.

(** [errno == ENOENT || errno == ENOTDIR] *)
Definition absent (e : Z) : bool := (e =? ENOENT) || (e =? ENOTDIR).

Definition copy_optional_trophy_metadata_file (src_sce_sys dst_base relative_path : string) : M bool :=
  let* stop := interrupted in
  if stop : bool then ret false
  else
    let* resolved := TitleLinks.ask sys (ResolveSceSys src_sce_sys relative_path) in
    match resolved with
    | inr e => ret (absent e)
    | inl src_path =>
        let* st := TitleLinks.ask sys (Stat src_path) in
        match st with
        | inr e => ret (absent e)
        | inl IsRegular =>
            let dst_path := (dst_base ++ "/" ++ relative_path)%string in
            if (MAX_PATH <=? strlen dst_path)%nat then ret false
            else
              let* st := TitleLinks.ask sys (Stat dst_path) in
              match st with
              | inl kind => ret (match kind with IsRegular => true | _ => false end)
              | inr e =>
                  if negb (e =? ENOENT) then ret false
                  else let* e := copy_file_to sys src_path dst_path in ret (bool_decide (e = None))
              end
        | inl _ => ret false
        end
    end.

(** [a && b && c] of copies. *)
Fixpoint copy_metadata_files (src_sce_sys dst_base : string) (names : list string) : M bool :=
  match names with
  | [] => ret true
  | name :: rest =>
      let* ok := copy_optional_trophy_metadata_file src_sce_sys dst_base name in
      if ok : bool then copy_metadata_files src_sce_sys dst_base rest else ret false
  end.

Definition make_dir (path : string) : M () := let* _ := TitleLinks.ask sys (Mkdir path) in ret tt.

Definition update_trophy_metadata (title_id src_sce_sys : string) : M bool :=
  let* stop := interrupted in
  if stop : bool then ret false
  else
    let dst_base := ("/system_data/priv/appmeta/" ++ title_id)%string in
    if (MAX_PATH <=? strlen dst_base)%nat then ret false
    else
      let* _ := make_dir "/system_data/priv/appmeta" in
      let* _ := make_dir dst_base in
      if has_prefix title_id "CUSA" then copy_metadata_files src_sce_sys dst_base ["npbind.dat"; "nptitle.dat"; "param.sfo"]%string
      else if (MAX_PATH <=? strlen (dst_base ++ "/trophy2"))%nat then ret false
      else
        let* _ := make_dir (dst_base ++ "/trophy2") in
        if (MAX_PATH <=? strlen (dst_base ++ "/uds"))%nat then ret false
        else
          let* _ := make_dir (dst_base ++ "/uds") in
          copy_metadata_files src_sce_sys dst_base ["trophy2/npbind.dat"; "uds/npbind.dat"; "param.json"]%string.

Definition update_registered_title_snd0info (title_id : string) : M () :=
  let* _ := call "sceKernelUsleep" ["200000"]%string in
  tell "update_snd0info" [title_id].

Definition user_app_dir (title_id : string) : string := strlcpy (APP_BASE ++ "/" ++ title_id) MAX_PATH.
Definition user_appmeta_dir (title_id : string) : string := strlcpy (APPMETA_BASE ++ "/" ++ title_id) MAX_PATH.

Definition stage_app_files (title_id src_sce_sys : string) : M bool :=
  let app_dir := user_app_dir title_id in
  let user_sce_sys := strlcpy (app_dir ++ "/sce_sys") MAX_PATH in
  let* _ := make_dir APP_BASE in
  let* _ := make_dir app_dir in
  let* _ := make_dir user_sce_sys in
  let* copied := copy_dir_to sys src_sce_sys user_sce_sys in
  if negb (copied =? 0) then ret false
  else
    let* e := copy_file_to sys (strlcpy (user_sce_sys ++ "/icon0.png") MAX_PATH) (strlcpy (app_dir ++ "/icon0.png") MAX_PATH) in
    ret (bool_decide (e = None)).

Definition stage_appmeta (title_id src_sce_sys : string) : M bool :=
  let* _ := make_dir APPMETA_BASE in
  let* _ := make_dir (user_appmeta_dir title_id) in
  copy_sce_sys_to_appmeta src_sce_sys (user_appmeta_dir title_id).

(** ** Publishing the mount: the links, under the mutex of the mount state *)
Definition publish_image_chain (title_id src_path : string) (chain : list string) : M bool :=
  match chain with
  | [] =>
      let* _ := unlink sys (mount_image_link (build_title_link_paths title_id)) in ret true
  | first :: _ =>
      let* written := write_mount_image_chain sys title_id chain in
      if negb written then
        let* _ := unlink sys (mount_link (build_title_link_paths title_id)) in
        let* _ := rollback_title_nullfs_mount sys title_id src_path in
        ret false
      else let* _ := call "cache_image_source_mapping" [first; src_path] in ret true
  end.

Definition publish_locked (title_id src_path : string) (chain : list string) : M bool :=
  let* sleeping := TitleLinks.ask sys Sleeping in
  if sleeping : bool then let* _ := rollback_title_nullfs_mount sys title_id src_path in ret false
  else
    let* _ := make_dir APP_BASE in
    let* _ := make_dir (user_app_dir title_id) in
    let* written := write_mount_link sys title_id src_path in
    if negb written then let* _ := rollback_title_nullfs_mount sys title_id src_path in ret false
    else publish_image_chain title_id src_path chain.

(** Whether the links were published, and whether sleep had begun when they were. *)
Definition publish_mount (title_id src_path : string) (chain : list string) : M (bool * bool) :=
  let* _ := tell "runtime_mount_state_lock" [] in
  let* published := publish_locked title_id src_path chain in
  let* sleep_started := (if published then TitleLinks.ask sys Sleeping else ret false) in
  let* _ := tell "runtime_mount_state_unlock" [] in
  ret (published, sleep_started).

(** ** Registering *)
Definition RESTORED : Z := 0x80990002.

Definition registered (title_id : string) (new has_src_snd0 : bool) : M () :=
  let* _ := tell "invalidate_app_db_title_cache" [] in
  let* _ := tell "clear_register_attempts" [title_id] in
  let* _ := when new (tell "notify_game_installed_rich" [title_id]) in
  when has_src_snd0 (update_registered_title_snd0info title_id).

Definition register_title (title_id title_name : string) (has_src_snd0 : bool) (st : resolver) : M (bool * resolver) :=
  let* bridge_enabled := call_bool "sm_shellcore_install_bridge_enabled" [] in
  let* result := sm_install_register_title_dir title_id (APP_BASE ++ "/") st in
  let '(res, st) := result in
  match res with
  | None =>
      let* _ := tell "notify_register_unavailable" [if bridge_enabled : bool then "bridge" else "installer"; title_name; title_id]%string in
      ret (false, st)
  | Some res =>
      let* _ := tell "mark_register_attempted" [title_id] in
      if res =? 0 then let* _ := registered title_id true has_src_snd0 in ret (true, st)
      else if u32 res =? RESTORED then let* _ := registered title_id false has_src_snd0 in ret (true, st)
      else let* _ := tell "notify_register_failed" [title_name; title_id] in ret (false, st)
  end.

(** What follows a published mount: the result and [*has_src_snd0_out]. *)
Definition finish_install (title_id title_name : string) (should_register use_app_install_all metadata_restaged has_src_snd0 : bool)
    (st : resolver) : M (bool * bool * resolver) :=
  if negb should_register then
    let* _ := when (metadata_restaged && has_src_snd0) (tell "update_snd0info" [title_id]) in
    ret (true, false, st)
  else if use_app_install_all then ret (true, has_src_snd0, st)
  else let* r := register_title title_id title_name has_src_snd0 st in ret (r.1, false, r.2).

(** The files of a title; [None] is a failure, otherwise [metadata_restaged] and
    [has_src_snd0]. *)
Definition stage_title (title_id src_sce_sys : string) (is_remount should_register appmeta_missing : bool) : M (option (bool * bool)) :=
  let restage_staging := negb is_remount || should_register in
  let restage_appmeta := negb is_remount || appmeta_missing in
  let* stop := interrupted in
  if stop : bool then ret None
  else
    let* snd0 := TitleLinks.ask sys (ResolveSceSys src_sce_sys "snd0.at9") in
    let* has_src_snd0 := (match snd0 with inl p => TitleMounts.path_exists sys p | inr _ => ret false end) in
    let* staged := (if restage_staging then stage_app_files title_id src_sce_sys else ret true) in
    if negb staged then ret None
    else
      let* meta := (if restage_appmeta then stage_appmeta title_id src_sce_sys else ret true) in
      if negb meta then ret None
      else
        let* trophies := update_trophy_metadata title_id src_sce_sys in
        if negb trophies then ret None
        else
          let* stop := interrupted in
          ret (if stop : bool then None else Some (restage_appmeta, has_src_snd0)).

(** The result, [*has_src_snd0_out] (which starts as [false]), the resolver. *)
Definition mount_and_install (src_path title_id title_name : string) (is_remount should_register use_app_install_all : bool)
    (st : resolver) : M (bool * bool * resolver) :=
  let* chain := (if is_under_image_mount_base src_path then TitleLinks.ask sys (CachedChain src_path) else ret []) in
  let* sce := TitleLinks.ask sys (ResolveSceSys src_path "sce_sys") in
  match sce with
  | inr _ => ret (false, false, st)
  | inl src_sce_sys =>
      let* appmeta := has_appmeta_data sys title_id in
      let* staged := stage_title title_id src_sce_sys is_remount should_register (negb appmeta) in
      match staged with
      | None => ret (false, false, st)
      | Some (metadata_restaged, has_src_snd0) =>
          let* mounted := mount_title_nullfs sys title_id src_path in
          if negb mounted then ret (false, false, st)
          else
            let* result := publish_mount title_id src_path chain in
            let '(published, sleep_started) := result in
            if negb published then ret (false, false, st)
            else
              let* sleeping := (if sleep_started : bool then ret true else TitleLinks.ask sys Sleeping) in
              if sleeping : bool then ret (true, false, st)
              else finish_install title_id title_name should_register use_app_install_all metadata_restaged has_src_snd0 st
      end
  end.

(** ** The candidates of a scan *)
Definition note_failed_attempt (title_id : string) : M () :=
  let* _ := call "bump_failed_mount_attempts" [title_id] in ret tt.

(** One turn; [true] leaves the function. *)
Definition process_candidate (c : scan_candidate_t) (st : resolver) : M (bool * resolver) :=
  let* stop := interrupted in
  let* background := (if stop : bool then ret false else call_bool "sm_game_lifecycle_background_title" []) in
  if negb background then ret (true, st)
  else
    let* protected := TitleLinks.ask sys (Protected (sc_title_id c)) in
    if protected : bool then ret (false, st)
    else
      let* app_install_all := call_bool "app_install_all_enabled" [] in
      let use_app_install_all := app_install_all && negb (sc_in_app_db c) in
      let* _ := when (negb (sc_installed c) && negb use_app_install_all) (tell "notify_installing" [sc_title_name c; sc_title_id c]) in
      let* result := mount_and_install (sc_path c) (sc_title_id c) (sc_title_name c) (sc_installed c) (negb (sc_in_app_db c))
                       use_app_install_all st in
      let '(mounted, has_src_snd0, st) := result in
      let* sleeping := TitleLinks.ask sys Sleeping in
      if sleeping : bool then ret (true, st)
      else if mounted : bool then
        let* _ := when (sc_manual c && negb use_app_install_all)
                    (tell "sm_manual_note_installed" [sc_manual_source_path c; sc_title_id c; sc_title_name c]) in
        if use_app_install_all then
          let* queued := call_bool "sm_install_queue_candidate" [sc_path c; sc_title_id c; if has_src_snd0 then "1" else "0"]%string in
          if queued : bool then
            let* _ := tell "clear_failed_mount_attempts" [sc_title_id c] in ret (false, st)
          else
            let* stop := interrupted in
            if stop : bool then ret (true, st)
            else let* _ := note_failed_attempt (sc_title_id c) in ret (false, st)
        else
          let* _ := tell "clear_failed_mount_attempts" [sc_title_id c] in
          let* _ := tell "cache_game_entry" [sc_path c; sc_title_id c; sc_title_name c] in
          ret (false, st)
      else
        let* stop := interrupted in
        if stop : bool then ret (true, st)
        else let* _ := note_failed_attempt (sc_title_id c) in ret (false, st).

(** The loop; [true] is a return from inside it. *)
Fixpoint process_candidates (cs : list scan_candidate_t) (st : resolver) : M (bool * resolver) :=
  match cs with
  | [] => ret (false, st)
  | c :: rest =>
      let* result := process_candidate c st in
      let '(leave, st) := result in
      if leave : bool then ret (true, st) else process_candidates rest st
  end.

Definition process_scan_candidates (cs : list scan_candidate_t) (st : resolver) : M resolver :=
  let* sleeping := TitleLinks.ask sys Sleeping in
  if sleeping : bool then ret st
  else
    let* _ := tell "sm_install_poll_pending" [] in
    let* result := process_candidates cs st in
    let '(returned, st) := result in
    if returned : bool then ret st
    else
      let* submitted := call_bool "sm_install_submit_queued" [] in
      let* _ := when (negb submitted) (tell "sm_install_note_submit_failure" []) in
      ret st.
End install.

(** ** Registering asks questions only *)
Section quiet.
Context (sys : answers).

(** The run changes neither files nor layers. *)
Definition asks {A} (m : M A) : Prop := forall (Q : A -> world -> Prop) w, (forall a w', quiet w w' -> Q a w') -> wp m Q w.

Lemma asks_ret {A} (x : A) : asks (ret x).
Proof. intros Q w H. apply wp_ret, H, quiet_refl. Qed.

Lemma asks_bind {A B} (m : M A) (k : A -> M B) : asks m -> (forall a, asks (k a)) -> asks (bind m k).
Proof. intros Hm Hk Q w H. apply wp_bind, Hm. intros a w1 H1. apply Hk. intros b w2 H2. apply H. by eapply quiet_trans. Qed.

Lemma asks_ask {A} (q : question A) : asks (TitleLinks.ask sys q).
Proof. intros Q w H. by apply wp_any. Qed.

Lemma asks_when b m : asks m -> asks (when b m).
Proof. intros Hm. destruct b; [done|apply asks_ret]. Qed.

Lemma asks_path_exists p : asks (TitleMounts.path_exists sys p).
Proof. intros Q w H. by apply wp_path_exists. Qed.

Lemma asks_executable p : asks (directory_has_game_executable sys p).
Proof. intros Q w H. by apply wp_executable. Qed.
End quiet.

(** Take a program of questions apart. *)
Ltac asks :=
  repeat first
    [ assumption
    | simple apply asks_ret | simple apply asks_ask | simple apply asks_path_exists
    | simple apply asks_when
    | simple apply asks_bind; [|intros ?]
    | match goal with
      | |- asks (if ?b then _ else _) => destruct b
      | |- asks (match ?x with _ => _ end) => destruct x
      end ].

Section staging.
Context (sys : answers).

Lemma asks_call name args : asks (call sys name args).
Proof. apply asks_ask. Qed.

Lemma asks_tell name args : asks (tell sys name args).
Proof. unfold tell, call. asks. Qed.

Lemma asks_interrupted : asks (interrupted sys).
Proof. unfold interrupted. asks. Qed.

Lemma asks_appmeta title : asks (has_appmeta_data sys title).
Proof. unfold has_appmeta_data, appmeta_file_named, is_regular. asks. Qed.

Lemma asks_register title name snd0 st : asks (register_title sys title name snd0 st).
Proof.
  unfold register_title, sm_install_register_title_dir, resolve_app_install_title_dir, registered, update_registered_title_snd0info,
    call_bool, tell, call. asks.
Qed.

Lemma asks_finish title name register all meta snd0 st : asks (finish_install sys title name register all meta snd0 st).
Proof. unfold finish_install. asks; (simple apply asks_tell || simple apply asks_register). Qed.

(** ** Staging changes the destinations of its copies only *)

(** The files that belong to a title beside its links. *)
Definition sce_sys_dir (title_id : string) : string := (APP_BASE ++ "/" ++ title_id ++ "/" ++ "sce_sys")%string.
Definition icon_file (title_id : string) : string := (APP_BASE ++ "/" ++ title_id ++ "/" ++ "icon0.png")%string.
Definition appmeta_dir (title_id : string) : string := (APPMETA_BASE ++ "/" ++ title_id)%string.
Definition trophy_dir (title_id : string) : string := ("/system_data/priv/appmeta/" ++ title_id)%string.

Definition in_staging (title_id p : string) : bool :=
  below (sce_sys_dir title_id) p || strcmp_eq p (icon_file title_id) || below (appmeta_dir title_id) p || below (trophy_dir title_id) p.

Definition staged_only (title_id : string) (s s' : snapshot) : Prop :=
  s_mounts s' = s_mounts s /\ forall p, in_staging title_id p = false -> s_files s' !! p = s_files s !! p.

Lemma staged_only_refl t s : staged_only t s s.
Proof. done. Qed.

Lemma staged_only_trans t s1 s2 s3 : staged_only t s1 s2 -> staged_only t s2 s3 -> staged_only t s1 s3.
Proof. intros [H1 H2] [H3 H4]. split; [congruence|]. intros p Hp. by rewrite H4, H2. Qed.

(** The run stages files of [t] and does nothing else. *)
Definition stages (t : string) {A} (m : M A) : Prop := forall w, wp m (fun _ w' => through (staged_only t (now w)) w w') w.

Lemma stages_asks t {A} (m : M A) : asks m -> stages t m.
Proof. intros Hm w. apply Hm. intros a w' Hq. by apply through_quiet. Qed.

Lemma through_staged t w w1 w2 : through (staged_only t (now w)) w w1 -> through (staged_only t (now w1)) w1 w2 -> through (staged_only t (now w)) w w2.
Proof.
  intros H1 H2. eapply through_trans; [exact H1|]. eapply through_mono; [|exact H2]. intros s. apply staged_only_trans, H1.
Qed.

Lemma stages_bind t {A B} (m : M A) (k : A -> M B) : stages t m -> (forall a, stages t (k a)) -> stages t (bind m k).
Proof.
  intros Hm Hk w. apply wp_bind. eapply wp_mono; [apply Hm|]. intros a w1 H1. eapply wp_mono; [apply Hk|]. intros b w2. by apply through_staged.
Qed.

Lemma stages_put t changes : Forall (fun c => in_staging t c.1 = true) changes -> stages t (put_files changes).
Proof.
  induction 1 as [|[p c] rest Hp _ IH]; cbn [put_files]; [apply stages_asks, asks_ret|]. apply stages_bind; [|done].
  intros w. apply wp_set_files. intros w' Hb. eapply through_becomes; [done| |exact Hb]. split; [done|]. intros q Hq. cbn [s_files].
  rewrite lookup_partial_alter_ne; [done|]. intros Heq. cbn [fst] in Hp. congruence.
Qed.

Lemma stages_copy_file t src dst : in_staging t dst = true -> stages t (copy_file_to sys src dst).
Proof.
  intros Hd. unfold copy_file_to. apply stages_bind; [apply stages_asks, asks_ask|]. intros [contents e].
  apply stages_bind; [|intros ?; apply stages_asks, asks_ret]. apply stages_put. apply Forall_fmap, Forall_true. intros c. exact Hd.
Qed.

Lemma stages_copy_dir t src dst : (forall rel, in_staging t (dst ++ "/" ++ rel) = true) -> stages t (copy_dir_to sys src dst).
Proof.
  intros Hd. unfold copy_dir_to. apply stages_bind; [apply stages_asks, asks_ask|]. intros [changes e].
  apply stages_bind; [|intros ?; apply stages_asks, asks_ret]. apply stages_put. apply Forall_fmap, Forall_true. intros c. apply Hd.
Qed.

(** Paths below a directory of the title. *)
Lemma below_slash dir rel : below dir (dir ++ "/" ++ rel) = true.
Proof. unfold below. apply orb_true_iff. right. apply has_prefix_spec. exists rel. by rewrite <-string_app_assoc. Qed.

Lemma sce_sys_staged t rel : in_staging t (sce_sys_dir t ++ "/" ++ rel) = true.
Proof. unfold in_staging. by rewrite below_slash. Qed.
Lemma icon_staged t : in_staging t (icon_file t) = true.
Proof. unfold in_staging. by rewrite strcmp_eq_refl, orb_true_r. Qed.
Lemma appmeta_staged t rel : in_staging t (appmeta_dir t ++ "/" ++ rel) = true.
Proof. unfold in_staging. by rewrite (below_slash (appmeta_dir t)), !orb_true_r. Qed.
Lemma trophy_staged t rel : in_staging t (trophy_dir t ++ "/" ++ rel) = true.
Proof. unfold in_staging. by rewrite (below_slash (trophy_dir t)), !orb_true_r. Qed.

(** Buffers hold the paths of a title. *)
Lemma fits s n : (strlen s <= n)%nat -> (n <=? 100)%nat = true -> strlcpy s MAX_PATH = s.
Proof.
  intros Hs Hn. apply strlcpy_fits. apply Nat.leb_le in Hn. apply (Nat.le_lt_trans _ 100); [lia|]. apply Nat.ltb_lt. vm_compute. reflexivity.
Qed.

Lemma user_app_dir_eq t : app_title t -> user_app_dir t = (APP_BASE ++ "/" ++ t)%string.
Proof. unfold app_title. intros Ht. apply (fits _ 19); [rewrite !strlen_append, Ht; cbn; lia|done]. Qed.

Lemma user_appmeta_dir_eq t : app_title t -> user_appmeta_dir t = appmeta_dir t.
Proof. unfold app_title. intros Ht. apply (fits _ 30); [rewrite !strlen_append, Ht; cbn; lia|done]. Qed.

Lemma app_path_eq t f : app_title t -> (strlen f <= 20)%nat -> strlcpy (user_app_dir t ++ "/" ++ f) MAX_PATH = (APP_BASE ++ "/" ++ t ++ "/" ++ f)%string.
Proof.
  intros Ht Hf. rewrite user_app_dir_eq by done. rewrite <-!string_app_assoc. unfold app_title in Ht. apply (fits _ 40); [rewrite !strlen_append, Ht; cbn; lia|done].
Qed.

(** Take a program that stages apart. *)
Ltac stages :=
  repeat first
    [ simple apply stages_bind; [|intros ?]
    | solve [simple apply stages_asks; asks; simple apply asks_interrupted]
    | solve [simple apply stages_asks; asks]
    | match goal with
      | |- stages _ (if ?b then _ else _) => destruct b
      | |- stages _ (match ?x with _ => _ end) => destruct x
      end ].

Lemma stages_appmeta_entries t src names e : stages t (appmeta_entries sys src (appmeta_dir t) names e).
Proof.
  revert e. induction names as [|name rest IH]; intros e; cbn [appmeta_entries]; stages; try apply IH.
  apply stages_copy_file, appmeta_staged.
Qed.

Lemma stages_copy_optional t src name : stages t (copy_optional_trophy_metadata_file sys src (trophy_dir t) name).
Proof. unfold copy_optional_trophy_metadata_file. stages. apply stages_copy_file, trophy_staged. Qed.

Lemma stages_copy_files t src names : stages t (copy_metadata_files sys src (trophy_dir t) names).
Proof. induction names as [|name rest IH]; cbn [copy_metadata_files]; stages; [apply stages_copy_optional|done]. Qed.

Lemma stages_trophies t src : stages t (update_trophy_metadata sys t src).
Proof. unfold update_trophy_metadata, make_dir. fold (trophy_dir t). stages; apply stages_copy_files. Qed.

Lemma stages_stage_app t src : app_title t -> stages t (stage_app_files sys t src).
Proof.
  intros Ht. unfold stage_app_files, make_dir, call. cbv zeta.
  change (user_app_dir t ++ "/sce_sys")%string with (user_app_dir t ++ "/" ++ "sce_sys")%string.
  change (user_app_dir t ++ "/icon0.png")%string with (user_app_dir t ++ "/" ++ "icon0.png")%string.
  rewrite (app_path_eq t "sce_sys"), (app_path_eq t "icon0.png") by (done || (cbn; lia)). fold (sce_sys_dir t) (icon_file t).
  stages; [apply stages_copy_dir, sce_sys_staged|apply stages_copy_file, icon_staged].
Qed.

Lemma stages_stage_appmeta t src : app_title t -> stages t (stage_appmeta sys t src).
Proof.
  intros Ht. unfold stage_appmeta, make_dir, copy_sce_sys_to_appmeta. rewrite user_appmeta_dir_eq by done. stages. apply stages_appmeta_entries.
Qed.

Lemma stages_stage t src remount register missing : app_title t -> stages t (stage_title sys t src remount register missing).
Proof.
  intros Ht. unfold stage_title. stages;
    (simple apply stages_stage_app || simple apply stages_stage_appmeta || simple apply stages_trophies); done.
Qed.

(** The links of titles are not staged. *)
Lemma link_not_staged t t' f : app_title t -> app_title t' -> char_at f 0 = Some "m"%char -> in_staging t (APP_BASE ++ "/" ++ t' ++ "/" ++ f) = false.
Proof.
  intros Ht Ht' Hf. unfold in_staging. apply not_true_iff_false. rewrite !orb_true_iff.
  assert (Happ : forall g r, (APP_BASE ++ "/" ++ t' ++ "/" ++ f = (APP_BASE ++ "/" ++ t ++ "/" ++ g) ++ r)%string -> f = (g ++ r)%string).
  { intros g r H. rewrite <-!string_app_assoc in H. apply append_inj_l, append_inj_l in H.
    apply append_inj_length in H as [_ H]; [|unfold app_title in *; congruence]. by apply append_inj_l in H. }
  assert (Hm : forall g r, f = (String g r)%string -> g = "m"%char) by (by intros g r ->; injection Hf).
  assert (Hbelow : forall dir, below dir (APP_BASE ++ "/" ++ t' ++ "/" ++ f) = true -> exists r, (APP_BASE ++ "/" ++ t' ++ "/" ++ f = dir ++ r)%string).
  { intros dir [H|H]%orb_true_iff.
    - apply strcmp_eq_true in H as H'. exists ""%string. by rewrite string_app_nil_r.
    - apply has_prefix_spec in H as [r ->]. exists ("/" ++ r)%string. by rewrite <-string_app_assoc. }
  intros [[[H|H]|H]|H].
  - apply Hbelow in H as [r H]. apply Happ in H. by apply Hm in H.
  - apply strcmp_eq_true in H. assert (H' : f = ("icon0.png" ++ "")%string) by (apply Happ; rewrite string_app_nil_r; exact H). by apply Hm in H'.
  - by apply Hbelow in H as [r H].
  - by apply Hbelow in H as [r H].
Qed.
End staging.

(** ** A link is published over a mounted source *)
Section publish.
Context (sys : answers) (t src : string) (Ht : app_title t) (Hsrc : src <> ""%string).
Let path := system_ex_path_of t.
Let link := mount_link (links t).
Let image := mount_image_link (links t).

Definition install_files : list string := [link; link ++ ".tmp"; image; image ++ ".tmp"]%string.

Definition shown (s : snapshot) : bool := existsb (our_layer src) (layers path (s_mounts s)).

(** The states of an installation that starts in [s0]. *)
Record install_state (s0 s : snapshot) : Prop := {
  is_files : forall p, p ∉ install_files -> in_staging t p = false -> s_files s !! p = s_files s0 !! p;
  is_layers : forall path', path' <> path -> layers path' (s_mounts s) = layers path' (s_mounts s0);
  is_link : s_files s !! link = s_files s0 !! link \/ s_files s !! link = None \/ s_files s !! link = Some src;
  is_shown : no_faults sys -> s_files s !! link = Some src -> s_files s0 !! link = Some src \/ shown s = true;
}.

Lemma image_temp_eq : (image ++ ".tmp")%string = build_title_link_path t "mount_img.lnk.tmp".
Proof.
  unfold image, links. cbn [mount_image_link build_title_link_paths]. rewrite !link_path_of by (done || (cbn; lia)).
  by rewrite <-!string_app_assoc.
Qed.

Lemma link_ne_image : link <> image /\ link <> (image ++ ".tmp")%string.
Proof.
  destruct (links_distinct t Ht) as (_ & Hne & _). split; [exact Hne|]. rewrite image_temp_eq. unfold link, links. cbn [mount_link build_title_link_paths].
  intros H. apply link_path_inj in H as [_ H]; (done || (cbn; lia)).
Qed.

Lemma install_files_in : link ∈ install_files /\ (link ++ ".tmp")%string ∈ install_files /\ image ∈ install_files /\ (image ++ ".tmp")%string ∈ install_files.
Proof. unfold install_files. rewrite !elem_of_cons. tauto. Qed.

(** Steps: the link replaced while the source is shown; other files of the title; layers
    removed while the link does not name the source. *)
Lemma install_link s0 s s' : install_state s0 s -> shown s = true -> only [link; link ++ ".tmp"]%string s s' ->
  s_files s' !! link = s_files s !! link \/ s_files s' !! link = Some src -> install_state s0 s'.
Proof.
  intros [H1 H2 H3 H4] Hsh [Hm Ho] Hl. destruct install_files_in as (Hi1 & Hi2 & _). split.
  - intros p Hp. rewrite Ho; [by apply H1|]. rewrite !elem_of_cons. intros [->|[->|H]]; [done|done|by apply elem_of_nil in H].
  - by rewrite Hm.
  - destruct Hl as [->| ->]; [done|auto].
  - intros _ _. right. unfold shown. by rewrite Hm.
Qed.

Lemma install_image s0 s s' : install_state s0 s -> only [image; image ++ ".tmp"]%string s s' -> install_state s0 s'.
Proof.
  intros [H1 H2 H3 H4] [Hm Ho]. destruct install_files_in as (_ & _ & Hi1 & Hi2). destruct link_ne_image as [Hn1 Hn2].
  assert (Hl : s_files s' !! link = s_files s !! link) by (apply Ho; rewrite !elem_of_cons; intros [?|[?|H]]; [done|done|by apply elem_of_nil in H]).
  split; rewrite ?Hm, ?Hl; [|done|done|unfold shown; by rewrite Hm].
  intros p Hp. rewrite Ho; [by apply H1|]. rewrite !elem_of_cons. intros [->|[->|H]]; [done|done|by apply elem_of_nil in H].
Qed.

Lemma install_peel s0 s s' : install_state s0 s -> only_at path s s' ->
  (no_faults sys -> s_files s !! link = s_files s0 !! link \/ s_files s !! link = None) -> install_state s0 s'.
Proof.
  intros [H1 H2 H3 H4] [Hf Hl] Hold. split; rewrite ?Hf; [done| |done|].
  - intros p Hp. by rewrite Hl, H2.
  - intros Hok Hs. destruct (Hold Hok) as [Ho|Ho]; [left; congruence|congruence].
Qed.

Lemma rollback_spec w : wp (rollback_title_nullfs_mount sys t src) (fun _ w' => through (peeled path (now w)) w w') w.
Proof.
  assert (Hp : title_path path) by by apply system_ex_title_path. unfold rollback_title_nullfs_mount.
  apply wp_bind, inspect_spec; [done|intros w1 Hq; apply wp_ret, through_quiet; [apply peeled_refl|done]|].
  intros st top w1 Hq _ Hfound. pose proof Hq as (Hn & _). destruct (negb _); [apply wp_ret, through_quiet; [apply peeled_refl|done]|].
  rewrite (found_path _ _ _ _ _ _ Hfound). eapply wp_mono; [by apply unmount_top_spec|]. intros ok w2 H2. rewrite Hn in H2.
  eapply through_trans; [apply through_quiet; [apply peeled_refl|exact Hq]|done].
Qed.

(** The end of a publication. *)
Definition publish_result (s0 : snapshot) (w : world) (ok : bool) (w' : world) : Prop :=
  through (install_state s0) w w' /\
  (ok = true -> s_files (now w') !! link = Some src /\ shown (now w') = true) /\
  (no_faults sys -> ok = false -> s_files (now w') !! link = s_files s0 !! link \/ s_files (now w') !! link = None).

Lemma publish_quiet s0 w w1 ok : install_state s0 (now w) -> quiet w w1 ->
  (ok = true -> s_files (now w) !! link = Some src /\ shown (now w) = true) ->
  (no_faults sys -> ok = false -> s_files (now w) !! link = s_files s0 !! link \/ s_files (now w) !! link = None) -> publish_result s0 w ok w1.
Proof. intros H Hq H1 H2. split; [by apply through_quiet|]. by destruct Hq as (-> & _). Qed.

Lemma publish_after s0 w w1 w2 ok : through (install_state s0) w w1 -> publish_result s0 w1 ok w2 -> publish_result s0 w ok w2.
Proof. intros H1 (H2 & H3). split; [by eapply through_trans|done]. Qed.

Lemma rollback_result s0 w : install_state s0 (now w) ->
  (no_faults sys -> s_files (now w) !! link = s_files s0 !! link \/ s_files (now w) !! link = None) ->
  wp (let* _ := rollback_title_nullfs_mount sys t src in ret false) (publish_result s0 w) w.
Proof.
  intros Hw Hold. apply wp_bind. eapply wp_mono; [apply rollback_spec|]. intros ? w1 H1. apply wp_ret.
  assert (Hthrough : through (install_state s0) w w1).
  { eapply through_mono; [|exact H1]. intros s Hs. by apply (install_peel s0 (now w)); [|apply peeled_only_at|]. }
  split; [done|]. split; [done|]. intros Hok _. destruct H1 as ([Hf _] & _). rewrite Hf. by apply Hold.
Qed.

(** A file that is there is removed unless the call fails. *)
Lemma wp_unlink_why p (Q : option Z -> world -> Prop) w :
  (forall e w', quiet w w' -> (no_faults sys -> s_files (now w) !! p = None) -> Q (Some e) w') ->
  (forall w', becomes (Snapshot (delete p (s_files (now w))) (s_mounts (now w))) w w' -> Q None w') -> wp (unlink sys p) Q w.
Proof.
  intros Hf Ht'. unfold unlink, fault. apply wp_bind, wp_bind, wp_question. intros w1 Hq _ _. destruct (sys _ _ Fault) as [e|] eqn:Ef.
  { apply wp_ret, wp_ret, Hf; [done|]. intros Hok. destruct (Hok (w_clock w)) as [Hn _]. congruence. }
  apply wp_ret, wp_bind, wp_file. pose proof Hq as (Hn & _). rewrite Hn. destruct (s_files (now w) !! p) eqn:Hp; [|by apply wp_ret, Hf].
  apply wp_bind, wp_set_files. intros w2 H2. apply wp_ret, Ht'. rewrite Hn in H2. by eapply quiet_becomes.
Qed.

Lemma install_unlink s0 s : install_state s0 s -> install_state s0 (Snapshot (delete link (s_files s)) (s_mounts s)).
Proof.
  intros [H1 H2 H3 H4]. split; cbn [s_files s_mounts]; [|done|right; left; apply lookup_delete_eq|].
  - intros p Hp. rewrite lookup_delete_ne; [by apply H1|]. intros <-. apply Hp, install_files_in.
  - intros _ Hs. by rewrite lookup_delete_eq in Hs.
Qed.

Lemma unpublish_spec s0 w : install_state s0 (now w) ->
  wp (let* _ := unlink sys (mount_link (build_title_link_paths t)) in
      let* _ := rollback_title_nullfs_mount sys t src in ret false) (publish_result s0 w) w.
Proof.
  intros Hw. change (mount_link (build_title_link_paths t)) with link. apply wp_bind, wp_unlink_why.
  - intros e w1 Hq Hgone. eapply wp_mono; [apply (rollback_result s0)|].
    + by destruct Hq as (-> & _).
    + intros Hok. destruct Hq as (-> & _). right. by apply Hgone.
    + intros ok w2 H2. eapply publish_after; [by apply through_quiet|done].
  - intros w1 Hb. eapply wp_mono; [apply (rollback_result s0)|].
    + destruct Hb as (-> & _). by apply install_unlink.
    + intros _. right. destruct Hb as (-> & _). cbn [s_files]. apply lookup_delete_eq.
    + intros ok w2 H2. eapply publish_after; [|done]. eapply through_becomes; [exact Hw| |exact Hb]. by apply install_unlink.
Qed.

Lemma publish_chain_spec s0 chain w : install_state s0 (now w) -> s_files (now w) !! link = Some src -> shown (now w) = true ->
  wp (publish_image_chain sys t src chain) (publish_result s0 w) w.
Proof.
  intros Hw Hl Hs. destruct link_ne_image as [Hn1 Hn2]. destruct chain as [|first rest]; unfold publish_image_chain.
  - apply wp_bind, wp_unlink; [intros e w1 Hq _; by apply wp_ret, publish_quiet|]. intros w1 Hb. apply wp_ret.
    change (mount_image_link (build_title_link_paths t)) with image in Hb.
    assert (Hw1 : install_state s0 (Snapshot (delete image (s_files (now w))) (s_mounts (now w)))).
    { eapply install_image; [exact Hw|]. apply only_delete; [apply only_refl|apply elem_of_cons; by left]. }
    split; [by eapply through_becomes|]. destruct Hb as (-> & _). cbn [s_files]. by rewrite lookup_delete_ne by done.
  - apply wp_bind.
    assert (Hgo : forall (written : bool) w1, through (only [image; image ++ ".tmp"]%string (now w)) w w1 ->
      wp (if negb written then
            let* _ := unlink sys (mount_link (build_title_link_paths t)) in
            let* _ := rollback_title_nullfs_mount sys t src in ret false
          else let* _ := call sys "cache_image_source_mapping" [first; src] in ret true) (publish_result s0 w) w1).
    { intros written w1 H1.
      assert (Hthrough : through (install_state s0) w w1) by (eapply through_mono; [|exact H1]; intros s; by apply install_image).
      destruct written; cbn [negb].
      - apply wp_bind, wp_any. intros a w2 Hq2. apply wp_ret. eapply publish_after; [exact Hthrough|].
        apply publish_quiet; [apply Hthrough|done| |done]. intros _. destruct H1 as ([Hm Ho] & _). unfold shown. rewrite Hm. split; [|done].
        rewrite Ho; [done|]. rewrite !elem_of_cons. intros [?|[?|H]]; [done|done|by apply elem_of_nil in H].
      - eapply wp_mono; [apply unpublish_spec, Hthrough|]. intros ok w2 H2. by eapply publish_after. }
    unfold write_mount_image_chain. destruct (_ || _); [apply wp_ret, (Hgo false); by apply through_refl|].
    eapply wp_mono; [apply write_link_atomic|]. intros written w1 [H1 _]. apply Hgo. eapply through_mono; [|exact H1]. by intros s [? _].
Qed.

Lemma publish_locked_spec s0 chain w : install_state s0 (now w) -> s_files (now w) !! link = s_files s0 !! link -> shown (now w) = true ->
  wp (publish_locked sys t src chain) (publish_result s0 w) w.
Proof.
  intros Hw Hl Hs. unfold publish_locked, make_dir.
  assert (Hq0 : forall w1, quiet w w1 -> through (install_state s0) w w1) by (intros w1; by apply through_quiet).
  assert (Hroll : forall w1, through (install_state s0) w w1 -> s_files (now w1) !! link = s_files s0 !! link ->
    wp (let* _ := rollback_title_nullfs_mount sys t src in ret false) (publish_result s0 w) w1).
  { intros w1 H1 Hl1. eapply wp_mono; [apply (rollback_result s0); [apply H1|auto]|]. intros ok w2 H2. by eapply publish_after. }
  apply wp_bind, wp_any. intros [|] w1 Hq1; [apply Hroll; [by apply Hq0|by destruct Hq1 as (-> & _)]|].
  apply wp_bind, wp_bind, wp_any. intros a2 w2 Hq2. apply wp_ret, wp_bind, wp_bind, wp_any. intros a3 w3 Hq3. apply wp_ret.
  pose proof (quiet_trans _ _ _ Hq1 (quiet_trans _ _ _ Hq2 Hq3)) as Hq. pose proof Hq as (Hn3 & _).
  apply wp_bind. eapply wp_mono; [apply write_mount_link_spec|]. cbn zeta. change (mount_link (build_title_link_paths t)) with link. rewrite Hn3.
  intros written w4 [H4 Hl4].
  assert (H04 : through (install_state s0) w w4).
  { eapply through_trans; [by apply Hq0|]. eapply through_mono; [|exact H4]. intros s [Ho Hc]. by apply (install_link s0 (now w)). }
  destruct written; cbn [negb]; [|apply Hroll; [done|congruence]].
  eapply wp_mono; [apply (publish_chain_spec s0); [apply H04|done|]|].
  - destruct H4 as (([Hm _] & _) & _). unfold shown. by rewrite Hm.
  - intros ok w5 H5. by eapply publish_after.
Qed.

Lemma publish_spec s0 chain w : install_state s0 (now w) -> s_files (now w) !! link = s_files s0 !! link -> shown (now w) = true ->
  wp (publish_mount sys t src chain) (fun r w' => publish_result s0 w r.1 w') w.
Proof.
  intros Hw Hl Hs. unfold publish_mount. apply wp_bind, asks_tell. intros a w1 Hq1. pose proof Hq1 as (Hn1 & _).
  apply wp_bind. eapply wp_mono; [apply (publish_locked_spec s0); by rewrite ?Hn1|]. intros ok w2 H2.
  assert (H02 : publish_result s0 w ok w2) by (eapply publish_after; [by apply through_quiet|done]).
  assert (Hend : forall w3, quiet w2 w3 -> publish_result s0 w ok w3).
  { intros w3 Hq3. destruct H02 as (H & H'). split; [eapply through_trans; [exact H|apply through_quiet; [apply H|done]]|].
    by destruct Hq3 as (-> & _). }
  apply wp_bind. destruct ok; [apply wp_any; intros b w3 Hq3|apply wp_ret]; apply wp_bind, asks_tell; intros a' w4 Hq4; apply wp_ret, Hend;
    [by eapply quiet_trans|done].
Qed.

Lemma link_unstaged : in_staging t link = false.
Proof. unfold link, links. cbn [mount_link build_title_link_paths]. rewrite link_path_of by (done || (cbn; lia)). by apply link_not_staged. Qed.

Lemma mount_and_install_spec name remount register all st w :
  wp (mount_and_install sys src t name remount register all st) (fun r w' => through (install_state (now w)) w w' /\
    (r.1.1 = true -> s_files (now w') !! link = Some src /\ shown (now w') = true)) w.
Proof.
  assert (H0 : install_state (now w) (now w)) by (split; auto).
  assert (Hfail : forall w1, quiet w w1 -> through (install_state (now w)) w w1 /\
    (false = true -> s_files (now w1) !! link = Some src /\ shown (now w1) = true)) by (intros w1 Hq; split; [by apply through_quiet|done]).
  unfold mount_and_install. apply wp_bind.
  assert (Hchain : asks (if is_under_image_mount_base src then TitleLinks.ask sys (CachedChain src) else ret [])) by asks.
  apply Hchain. intros chain w1 Hq1. apply wp_bind, wp_any. intros [sce|e] w2 Hq2; pose proof (quiet_trans _ _ _ Hq1 Hq2) as Hq; [|by apply wp_ret, Hfail].
  apply wp_bind, asks_appmeta. intros appmeta w3 Hq3. apply wp_bind. eapply wp_mono; [by apply stages_stage|]. intros staged w4 H4.
  pose proof (quiet_trans _ _ _ Hq Hq3) as Hq'. pose proof Hq' as (Hn3 & _). rewrite Hn3 in H4.
  assert (Hl4 : forall s, staged_only t (now w) s -> s_files s !! link = s_files (now w) !! link) by (intros s [_ Hf]; apply Hf, link_unstaged).
  assert (Hstaged : forall s, staged_only t (now w) s -> install_state (now w) s).
  { intros s Hs. pose proof (Hl4 s Hs) as Hl. destruct Hs as [Hm Hf]. split; rewrite ?Hm, ?Hl; auto. }
  assert (H04 : through (install_state (now w)) w w4).
  { eapply through_trans; [by apply through_quiet|]. eapply through_mono; [|exact H4]. exact Hstaged. }
  destruct staged as [[meta snd0]|]; [|apply wp_ret; by split].
  apply wp_bind. eapply wp_mono; [by apply (mount_title_spec sys t src)|]. intros mounted w5 (H5 & Hmounted & _).
  specialize (Hl4 _ (proj1 H4)).
  assert (H05 : through (install_state (now w)) w w5).
  { eapply through_trans; [exact H04|]. eapply through_mono; [|exact H5]. intros s Hs. eapply install_peel; [apply H04|exact Hs|]. by left. }
  assert (Hl5 : s_files (now w5) !! link = s_files (now w) !! link) by (destruct H5 as ([-> _] & _); done).
  destruct mounted; cbn [negb]; [|by apply wp_ret].
  apply wp_bind. eapply wp_mono; [apply (publish_spec (now w)); [apply H05|done|by apply Hmounted]|]. intros [published sleep_started] w6 H6. cbn [fst] in H6.
  destruct H6 as (H6 & Hpub & _). pose proof (through_trans _ _ _ _ H05 H6) as H06.
  assert (Hend : forall (ok : bool) w7, published = true -> quiet w6 w7 -> through (install_state (now w)) w w7 /\
    (ok = true -> s_files (now w7) !! link = Some src /\ shown (now w7) = true)).
  { intros ok w7 Hp Hq7. split; [eapply through_trans; [exact H06|apply through_quiet; [apply H06|done]]|].
    destruct Hq7 as (-> & _). intros _. by apply Hpub. }
  destruct published; cbn [negb]; [|by apply wp_ret].
  assert (Hsleep : asks (if sleep_started then ret true else TitleLinks.ask sys Sleeping)) by asks.
  apply wp_bind, Hsleep. intros [|] w7 Hq7; [by apply wp_ret, Hend|].
  apply asks_finish. intros r w8 Hq8. apply Hend; [done|by eapply quiet_trans].
Qed.
End publish.

(** Other titles' links are not among the files of an installation. *)
Lemma install_frame t t' s0 s p : app_title t -> app_title t' -> t' <> t -> p ∈ link_files t' ->
  (forall q, q ∉ install_files t -> in_staging t q = false -> s_files s !! q = s_files s0 !! q) -> s_files s !! p = s_files s0 !! p.
Proof.
  intros Ht Ht' Hne Hp H. apply H.
  - assert (Hno : forall f, (strlen f <= 20)%nat -> p <> build_title_link_path t f).
    { intros f Hf ->. apply link_files_inv in Hp as (g & Hg & Heq). by apply link_path_inj in Heq as [? _]. }
    assert (Htmp : forall f, (strlen f + 4 <= 20)%nat -> p <> (build_title_link_path t f ++ ".tmp")%string).
    { intros f Hf Heq. apply (Hno (f ++ ".tmp")%string); [rewrite strlen_append; exact Hf|]. rewrite Heq, !link_path_of by (done || rewrite ?strlen_append; cbn; lia).
      by rewrite <-!string_app_assoc. }
    unfold install_files, links. cbn [mount_link mount_image_link build_title_link_paths]. rewrite !elem_of_cons.
    intros [H0|[H0|[H0|[H0|H0]]]]; [by apply Hno in H0; [|cbn; lia]|by apply Htmp in H0; [|cbn; lia]|by apply Hno in H0; [|cbn; lia]|
      by apply Htmp in H0; [|cbn; lia]|by apply elem_of_nil in H0].
  - unfold link_files, links in Hp. cbn [mount_link staged_mount_link mount_image_link build_title_link_paths] in Hp. rewrite !elem_of_cons in Hp.
    rewrite !link_path_of in Hp by (done || (cbn; lia)). destruct Hp as [->|[->|[->|H0]]]; [by apply link_not_staged..|by apply elem_of_nil in H0].
Qed.

(** Claim C11: A title is published only over its mounted source.  Throughout an
    installation, whatever fails and whenever the work is interrupted: files are changed
    only where the title is staged ([in_staging]: its sce_sys, icon0.png, appmeta and
    trophy files; copies change their destination only, [copy_dir_exact]) and at the
    title's two links and their temporary files, so no other title's links change; no other
    title's layers change; [mount.lnk] is as before, absent, or names the new source; and,
    without faults, it never newly names the source while the source is not mounted at the
    title: links are written after the mount, and a mount is rolled back only when its link
    is not (or no longer) there.  A successful installation leaves link and mount in place. *)
Theorem install_publishes_mounted sys src_path title_id title_name is_remount should_register use_app_install_all st w :
  app_title title_id -> src_path <> ""%string ->
  let link := mount_link (links title_id) in
  let mounted s := existsb (our_layer src_path) (layers (system_ex_path_of title_id) (s_mounts s)) in
  wp (mount_and_install sys src_path title_id title_name is_remount should_register use_app_install_all st) (fun r w' =>
    through (fun s =>
      (forall p, p ∉ install_files title_id -> in_staging title_id p = false -> s_files s !! p = s_files (now w) !! p) /\
      (forall t p, app_title t -> t <> title_id -> p ∈ link_files t -> s_files s !! p = s_files (now w) !! p) /\
      (forall path, path <> system_ex_path_of title_id -> layers path (s_mounts s) = layers path (s_mounts (now w))) /\
      (s_files s !! link = s_files (now w) !! link \/ s_files s !! link = None \/ s_files s !! link = Some src_path) /\
      (no_faults sys -> s_files s !! link = Some src_path -> s_files (now w) !! link = Some src_path \/ mounted s = true)) w w' /\
    (r.1.1 = true -> s_files (now w') !! link = Some src_path /\ mounted (now w') = true)) w.
Proof.
  intros Ht Hsrc. cbn zeta. eapply wp_mono; [by apply mount_and_install_spec|]. intros r w' [H1 H2]. split; [|exact H2].
  eapply through_mono; [|exact H1]. intros s [Hf Hl Hk Hs]. split; [exact Hf|]. split; [|by repeat split].
  intros t p Ht' Hne Hp. by apply (install_frame title_id t).
Qed.

Definition demo_resolver : resolver := Resolver false false.

Lemma install_publishes_mounted_witness : exists snd st w',
  mount_and_install demo_regular_answers "/data/game" demo_title "Game" true false false demo_resolver demo_world = Some (true, snd, st, w') /\
  s_files (now w') !! mount_link (links demo_title) = Some "/data/game"%string.
Proof.
  pose proof (install_publishes_mounted demo_regular_answers "/data/game" demo_title "Game" true false false demo_resolver demo_world
    ltac:(reflexivity) ltac:(discriminate)) as H. cbn zeta in H. apply wp_ends in H as ([[ok snd] st] & w' & Hrun & _ & Hok).
  assert (Hc : (fun r => fst (fst (fst r))) <$> mount_and_install demo_regular_answers "/data/game" demo_title "Game" true false false demo_resolver demo_world = Some true)
    by (vm_compute; reflexivity).
  rewrite Hrun in Hc. injection Hc as ->. exists snd, st, w'. split; [exact Hrun|exact (proj1 (Hok eq_refl))].
Defined.
