(* ===== verification/UsbEject.v ===== *)
(** * Ejecting a USB drive (src/sm_usb.c)

    The request that asks the system's mounter to unmount the device of a mount point,
    through an IPMI client: the list of devices is read, the device whose mount point is
    the path is looked for, its volume is checked again, and the request is sent once.

    The firmware's answers, [statfs] and the allocation are questions, answered at the
    number of the question; the trace holds every call with its answer, newest first.
    The state is the flag that no further client may be opened. *)
From S2P Require Import Prelude CString IniFile Effects TitleLinks.
From stdpp Require Import list.
Open Scope Z_scope.
Open Scope c_scope.

Definition ESTALE : Z := 70.
Definition ENOMEM : Z := 12.
Definition ENOTSUP : Z := 45.
Definition ENOENT : Z := 2.

Definition USB_DEVICE_LIMIT : nat := 8.
Definition USB_MOUNT_POINT_SIZE : nat := 128.
Definition USB_IPMI_MIN_STORAGE_SIZE : Z := 0x1000.
Definition UINT32_MAX : Z := 2 ^ 32 - 1.

(** What is used of [struct statfs]; [fs_id] is [f_fsid] as 64 bits. *)
Record usb_mount := UsbMount { mounted_on : string; mounted_from : string; mount_type : string; fs_id : Z }.

Inductive usb_event :=
  | EvStatfs (path : string) (answer : usb_mount + Z)
  | EvStorageSize (size : Z)
  | EvAlloc (ok : bool)
  | EvCreate (rc : Z) (client : bool)
  | EvConnect (rc result : Z)
  | EvList (rc result : Z) (ids : list Z) (count written_ids written_count : Z)
  | EvPoint (id rc result : Z) (bytes : list Ascii.ascii) (written : Z)
  | EvEject (id rc result : Z)
  | EvTerminate
  | EvDestroy (kid : Z)
  | EvFree.

Record usb_system := UsbSystem {
  us_statfs : nat -> string -> usb_mount + Z;
  us_size : nat -> Z;
  us_alloc : nat -> bool;
  us_create : nat -> Z * bool;
  us_connect : nat -> Z * Z;
  us_list : nat -> Z * Z * list Z * Z * Z * Z;
  us_point : nat -> Z -> Z * Z * list Ascii.ascii * Z;
  us_eject : nat -> Z -> Z * Z;
  us_kid : nat -> Z;
}.

Record usb_world := UsbWorld { cleanup_failed : bool; u_clock : nat; u_trace : list usb_event }.

Abbreviation M := (prog usb_world).

Definition log (e : usb_event) : M () := change (fun w => UsbWorld (cleanup_failed w) (S (u_clock w)) (e :: u_trace w)).
Definition fail_cleanup : M () := change (fun w => UsbWorld true (u_clock w) (u_trace w)).
Definition at_clock {A} (f : nat -> A) : M A := look (fun w => f (u_clock w)).

Definition is_usb_digit (a : Ascii.ascii) : bool := (48 <=? ascii_byte a) && (ascii_byte a <=? 55).

Definition sm_usb_mount_path (path : string) : bool :=
  strcmp_eq path "/mnt/ext0" ||
  ((strlen path =? 9)%nat && has_prefix path "/mnt/usb" &&
   match char_at path 8 with Some a => is_usb_digit a | None => false end).

Definition sm_usb_mount_matches (m : usb_mount) (path source : string) (mount_id : Z) : bool :=
  strcmp_eq (mounted_on m) path && strcmp_eq (mounted_from m) source && negb (strcmp_eq (mount_type m) "nullfs") && (fs_id m =? mount_id).

Definition usb_native_error (status : Z) : Z :=
  if (Z.land (u32 status) 0xffff0000 =? 0x80020000) && negb (Z.land (u32 status) 0xffff =? 0) then Z.land (u32 status) 0xffff
  else if negb (status =? 0) then EIO else 0.

Section usb.
Context (sys : usb_system).

Definition statfs (path : string) : M (usb_mount + Z) :=
  let* a := at_clock (fun n => us_statfs sys n path) in
  let* _ := log (EvStatfs path a) in ret a.

Definition sm_usb_check_mount (path source : string) (mount_id : Z) : M Z :=
  if negb (sm_usb_mount_path path) || strcmp_eq source "" then ret EINVAL
  else
    let* current := statfs path in
    ret (match current with
         | inr e => if e =? 0 then EIO else e
         | inl m =>
             if negb (strcmp_eq (mounted_on m) path) then ENOENT
             else if sm_usb_mount_matches m path source mount_id then 0 else ESTALE
         end).

(** Whether a client and whether storage is held. *)
Record usb_ipmi_client_t := IpmiClient { has_storage : bool; has_client : bool }.

Definition close_usb_ipmi (ipc : usb_ipmi_client_t) : M () :=
  let* retained := (if has_client ipc then
      let* _ := log EvTerminate in
      let* kid := at_clock (us_kid sys) in
      let* _ := log (EvDestroy kid) in
      if negb (kid =? UINT32_MAX) then let* _ := fail_cleanup in ret true else ret false
    else ret false) in
  if retained : bool then ret tt else when (has_storage ipc) (log EvFree).

(** The error, the native status, and what is held. *)
Definition open_usb_ipmi : M (Z * Z * usb_ipmi_client_t) :=
  let none := IpmiClient false false in
  let* failed := look cleanup_failed in
  if failed : bool then ret (EIO, 0, none)
  else
    let* size := at_clock (us_size sys) in
    let* _ := log (EvStorageSize size) in
    if (size <? USB_IPMI_MIN_STORAGE_SIZE) || (0x100000 <? size) then ret (ENOTSUP, 0, none)
    else
      let* ok := at_clock (us_alloc sys) in
      let* _ := log (EvAlloc ok) in
      if negb ok then ret (ENOMEM, 0, none)
      else
        let* created := at_clock (us_create sys) in
        let '(rc, client) := created in
        let* _ := log (EvCreate rc client) in
        if negb (rc =? 0) || negb client then ret (if negb (rc =? 0) then usb_native_error rc else EIO, rc, IpmiClient true false)
        else
          let* connected := at_clock (us_connect sys) in
          let '(rc, result) := connected in
          let* _ := log (EvConnect rc result) in
          let native := if negb (rc =? 0) then rc else result in
          ret (usb_native_error native, native, IpmiClient true true).

(** The status of a call and its native status. *)
Definition invoke_status (rc result : Z) : Z * Z :=
  let native := if negb (rc =? 0) then rc else result in (usb_native_error native, native).

(** A buffer of [n] bytes that was zero before [l] was received. *)
Definition received (n : nat) (l : list Ascii.ascii) : list Ascii.ascii := take n (l ++ replicate n nul).

(** The buffer up to its terminator. *)
Definition buffer_string (buf : list Ascii.ascii) : string := c_string (String.string_of_list_ascii buf).

(** The loop over the devices: the status and the native status. *)
Fixpoint eject_devices (path source : string) (mount_id : Z) (ids : list Z) (status native : Z) : M (Z * Z) :=
  match ids with
  | [] => ret (status, native)
  | id :: rest =>
      let* answer := at_clock (fun n => us_point sys n id) in
      let '(rc, result, bytes, written) := answer in
      let* _ := log (EvPoint id rc result bytes written) in
      let '(status, native) := invoke_status rc result in
      if negb (status =? 0) then ret (status, native)
      else
        let mount_point := received USB_MOUNT_POINT_SIZE bytes in
        if negb (existsb (Ascii.eqb nul) mount_point) || negb (written =? Z.of_nat USB_MOUNT_POINT_SIZE) then ret (EIO, native)
        else if negb (strcmp_eq path (buffer_string mount_point)) then eject_devices path source mount_id rest ENOENT native
        else
          let* status := sm_usb_check_mount path source mount_id in
          if negb (status =? 0) then ret (status, native)
          else
            let* answer := at_clock (fun n => us_eject sys n id) in
            let '(rc, result) := answer in
            let* _ := log (EvEject id rc result) in
            ret (invoke_status rc result)
  end.

Definition list_and_eject (path source : string) (mount_id : Z) : M (Z * Z) :=
  let* answer := at_clock (us_list sys) in
  let '(rc, result, ids, count, written_ids, written_count) := answer in
  let* _ := log (EvList rc result ids count written_ids written_count) in
  let '(status, native) := invoke_status rc result in
  if negb (status =? 0) then ret (status, native)
  else if (count <? 0) || (Z.of_nat USB_DEVICE_LIMIT <? count) || negb (written_ids =? 4 * Z.of_nat USB_DEVICE_LIMIT) || negb (written_count =? 4)
  then ret (EIO, native)
  else eject_devices path source mount_id (take (Z.to_nat count) (take USB_DEVICE_LIMIT (ids ++ replicate USB_DEVICE_LIMIT 0))) ENOENT native.

(** The result and [*native_status]. *)
Definition sm_usb_request_eject (path source : string) (mount_id : Z) : M (Z * Z) :=
  if negb (sm_usb_mount_path path) || strcmp_eq source "" then ret (EINVAL, 0)
  else
    let* opened := open_usb_ipmi in
    let '(status, native, ipc) := opened in
    let* result := (if negb (status =? 0) then ret (status, native) else list_and_eject path source mount_id) in
    let* _ := close_usb_ipmi ipc in
    ret result.
End usb.

(** ** The trace of a request *)
Definition is_eject (e : usb_event) : bool := match e with EvEject _ _ _ => true | _ => false end.
Definition is_client (e : usb_event) : bool := match e with EvCreate rc client => (rc =? 0) && client | _ => false end.
Definition is_terminate (e : usb_event) : bool := match e with EvTerminate => true | _ => false end.
Definition is_alloc (e : usb_event) : bool := match e with EvAlloc ok => ok | _ => false end.
Definition is_free (e : usb_event) : bool := match e with EvFree => true | _ => false end.
Definition is_kept (e : usb_event) : bool := match e with EvDestroy kid => negb (kid =? UINT32_MAX) | _ => false end.

(** Calls that neither eject nor hold anything. *)
Definition plain (e : usb_event) : bool :=
  negb (is_eject e || is_client e || is_terminate e || is_alloc e || is_free e || is_kept e).

(** A request that is sent goes to the device whose mount point was just read to be
    [path], directly after its volume was found to be the one asked for. *)
Inductive sent_for (path source : string) (mount_id : Z) : Z -> Z -> list usb_event -> Prop :=
  | Sent id rc result a bytes pre :
      sm_usb_mount_matches a path source mount_id = true ->
      buffer_string (received USB_MOUNT_POINT_SIZE bytes) = path ->
      sent_for path source mount_id rc result
        (EvEject id rc result :: EvStatfs path (inl a) :: EvPoint id 0 0 bytes (Z.of_nat USB_MOUNT_POINT_SIZE) :: pre).

(** The part of a run between opening and closing the client. *)
Definition guarded (path source : string) (mount_id status : Z) (t : list usb_event) : Prop :=
  (forallb plain t = true /\ status <> 0) \/
  exists rc result, sent_for path source mount_id rc result t /\ forallb plain (tail t) = true /\ (status = 0 <-> rc = 0 /\ result = 0).

Lemma native_error_zero status : usb_native_error status = 0 <-> status = 0.
Proof.
  unfold usb_native_error. split.
  - destruct (_ && _) eqn:E.
    + apply andb_true_iff in E as [_ E]. apply negb_true_iff, Z.eqb_neq in E. done.
    + destruct (Z.eqb_spec status 0); [done|]. by unfold EIO.
  - by intros ->.
Qed.

Lemma invoke_zero rc result status native : invoke_status rc result = (status, native) -> (status = 0 <-> rc = 0 /\ result = 0).
Proof.
  unfold invoke_status. intros [= <- _]. rewrite native_error_zero. destruct (Z.eqb_spec rc 0) as [->|Hrc]; cbn; split; [done|by intros [_ ?]|done|by intros [? _]].
Qed.

#[local] Existing Instance runs_end.

Section proofs.
Context (sys : usb_system).

Definition appends (t : list usb_event) (w w' : usb_world) : Prop :=
  u_trace w' = t ++ u_trace w /\ cleanup_failed w' = cleanup_failed w.

Lemma wp_log e (Q : () -> usb_world -> Prop) w : (forall w', appends [e] w w' -> Q tt w') -> wp (log e) Q w.
Proof. intros H. by apply H. Qed.

Lemma wp_clock {A} (f : nat -> A) (Q : A -> usb_world -> Prop) w : Q (f (u_clock w)) w -> wp (at_clock f) Q w.
Proof. exact (fun H => H). Qed.

Lemma appends_trans t1 t2 w1 w2 w3 : appends t1 w1 w2 -> appends t2 w2 w3 -> appends (t2 ++ t1) w1 w3.
Proof. intros [H1 H2] [H3 H4]. split; [by rewrite H3, H1, app_assoc|congruence]. Qed.

Lemma appends_nil w : appends [] w w.
Proof. done. Qed.

Lemma guarded_after path source mount_id status t pre : forallb plain pre = true -> guarded path source mount_id status t ->
  guarded path source mount_id status (t ++ pre).
Proof.
  intros Hp [[Ht Hs]|(rc & result & Hs & Ht & Hst)].
  - left. by rewrite forallb_app, Ht.
  - right. exists rc, result. inversion Hs as [id rc' result' a bytes pre' Ha Hb]; subst. split; [by constructor|]. split; [|done].
    cbn [tail] in Ht. change (forallb plain ((EvStatfs (buffer_string (received USB_MOUNT_POINT_SIZE bytes)) (inl a) ::
      EvPoint id 0 0 bytes (Z.of_nat USB_MOUNT_POINT_SIZE) :: pre') ++ pre) = true). by rewrite forallb_app, Ht.
Qed.

Lemma check_mount_spec path source mount_id (Q : Z -> usb_world -> Prop) w :
  (forall status t w', appends t w w' -> forallb plain t = true ->
     (status = 0 -> exists a, t = [EvStatfs path (inl a)] /\ sm_usb_mount_matches a path source mount_id = true) -> Q status w') ->
  wp (sm_usb_check_mount sys path source mount_id) Q w.
Proof.
  intros H. unfold sm_usb_check_mount. destruct (_ || _); [apply wp_ret, (H _ []); [done|done|by unfold EINVAL]|].
  unfold statfs. apply wp_bind, wp_bind, wp_clock, wp_bind, wp_log. intros w1 H1. apply wp_ret, wp_ret, (H _ [EvStatfs path (us_statfs sys (u_clock w) path)]); [exact H1|done|].
  destruct (us_statfs sys _ _) as [a|e].
  - destruct (negb _) eqn:E; [by unfold ENOENT|]. destruct (sm_usb_mount_matches _ _ _ _) eqn:Em; [eauto|by unfold ESTALE].
  - destruct (Z.eqb_spec e 0); [by unfold EIO|done].
Qed.

Lemma eject_devices_spec path source mount_id ids status native w : status <> 0 ->
  wp (eject_devices sys path source mount_id ids status native) (fun r w' => exists t, appends t w w' /\ guarded path source mount_id r.1 t) w.
Proof.
  revert status native w. induction ids as [|id rest IH]; intros status native w Hs; cbn [eject_devices].
  { apply wp_ret. exists []. split; [done|by left]. }
  apply wp_bind, wp_clock. destruct (us_point sys _ id) as [[[rc result] bytes] written].
  apply wp_bind, wp_log. intros w1 H1. destruct (invoke_status rc result) as [status1 native1] eqn:Ei. apply invoke_zero in Ei.
  assert (Hend : forall s n, s <> 0 -> wp (ret (s, n)) (fun (r : Z * Z) w' => exists t, appends t w w' /\ guarded path source mount_id r.1 t) w1).
  { intros s n Hn. apply wp_ret. eexists. split; [exact H1|]. by left. }
  destruct (Z.eqb_spec status1 0) as [->|Hne]; cbn [negb]; [|by apply Hend]. destruct (proj1 Ei eq_refl) as [-> ->].
  destruct (_ || _) eqn:Ebad; [by apply Hend; unfold EIO|]. apply orb_false_iff in Ebad as [_ Ew]. apply negb_false_iff, Z.eqb_eq in Ew. subst written.
  destruct (strcmp_eq path _) eqn:Ep; cbn [negb].
  - apply strcmp_eq_true in Ep. apply wp_bind, check_mount_spec. intros s t w2 H2 Ht Hmatch.
    pose proof (appends_trans _ _ _ _ _ H1 H2) as H02. destruct (Z.eqb_spec s 0) as [->|Hne]; cbn [negb].
    + destruct (Hmatch eq_refl) as (a & -> & Ha). apply wp_bind, wp_clock. destruct (us_eject sys _ id) as [rc result].
      apply wp_bind, wp_log. intros w3 H3. apply wp_ret. exists (EvEject id rc result :: [EvStatfs path (inl a)] ++ [EvPoint id 0 0 bytes 128]).
      split; [exact (appends_trans _ _ _ _ _ H02 H3)|]. right. exists rc, result. split; [by apply (Sent _ _ _ id rc result a bytes [])|].
      split; [done|]. destruct (invoke_status rc result) as [s' n'] eqn:Ei'. by apply invoke_zero in Ei'.
    + apply wp_ret. eexists. split; [exact H02|]. left. split; [|done]. by rewrite forallb_app, Ht.
  - eapply wp_mono; [by apply IH|]. intros r w2 (t & H2 & Hg). exists (t ++ [EvPoint id 0 0 bytes (Z.of_nat USB_MOUNT_POINT_SIZE)]).
    split; [exact (appends_trans _ _ _ _ _ H1 H2)|]. by apply guarded_after.
Qed.

Lemma list_and_eject_spec path source mount_id w :
  wp (list_and_eject sys path source mount_id) (fun r w' => exists t, appends t w w' /\ guarded path source mount_id r.1 t) w.
Proof.
  unfold list_and_eject. apply wp_bind, wp_clock. destruct (us_list sys _) as [[[[[rc result] ids] count] n1] n2].
  apply wp_bind, wp_log. intros w1 H1. destruct (invoke_status rc result) as [status native] eqn:Ei.
  assert (Hend : forall s n, s <> 0 -> wp (ret (s, n)) (fun (r : Z * Z) w' => exists t, appends t w w' /\ guarded path source mount_id r.1 t) w1).
  { intros s n Hn. apply wp_ret. eexists. split; [exact H1|]. by left. }
  destruct (Z.eqb_spec status 0) as [->|Hne]; cbn [negb]; [|by apply Hend].
  destruct (_ || _); [by apply Hend; unfold EIO|]. eapply wp_mono; [by apply eject_devices_spec|].
  intros r w2 (t & H2 & Hg). eexists. split; [exact (appends_trans _ _ _ _ _ H1 H2)|]. by apply guarded_after.
Qed.
End proofs.

(** ** Opening and closing *)
Lemma plain_counts t : forallb plain t = true -> count_if is_eject t = 0%nat /\ count_if is_client t = 0%nat /\
  count_if is_terminate t = 0%nat /\ count_if is_alloc t = 0%nat /\ count_if is_free t = 0%nat /\ count_if is_kept t = 0%nat.
Proof.
  induction t as [|e t IH]; cbn [forallb count_if]; [done|]. intros (He & Ht)%andb_true_iff. destruct (IH Ht) as (-> & -> & -> & -> & -> & ->).
  unfold plain in He. apply negb_true_iff in He. repeat (apply orb_false_iff in He as [He ?]).
  repeat match goal with H : ?f e = false |- _ => rewrite H; clear H end. done.
Qed.

Section request.
Context (sys : usb_system).

(** What a run holds: a client and storage. *)
Definition opened (ipc : usb_ipmi_client_t) (status : Z) (t : list usb_event) : Prop :=
  count_if is_eject t = 0%nat /\ count_if is_terminate t = 0%nat /\ count_if is_free t = 0%nat /\ count_if is_kept t = 0%nat /\
  count_if is_client t = (if has_client ipc then 1 else 0)%nat /\ count_if is_alloc t = (if has_storage ipc then 1 else 0)%nat /\
  (has_client ipc = true -> has_storage ipc = true) /\ (status = 0 -> has_client ipc = true).

Lemma open_spec w : wp (open_usb_ipmi sys) (fun '(status, native, ipc) w' => exists t, appends t w w' /\ opened ipc status t /\
  (cleanup_failed w = true -> t = [] /\ status <> 0 /\ has_client ipc = false /\ has_storage ipc = false)) w.
Proof.
  unfold open_usb_ipmi. apply wp_bind, wp_look. destruct (cleanup_failed w) eqn:Ef.
  { apply wp_ret. exists []. by repeat split. }
  apply wp_bind, wp_clock, wp_bind, wp_log. intros w1 H1. set (size := us_size sys _) in *.
  destruct (_ || _); [apply wp_ret; eexists; split; [exact H1|by repeat split]|].
  apply wp_bind, wp_clock, wp_bind, wp_log. intros w2 H2. pose proof (appends_trans _ _ _ _ _ H1 H2) as H02.
  destruct (us_alloc sys _) eqn:Ea; cbn [negb]; [|apply wp_ret; eexists; split; [exact H02|by repeat split]].
  apply wp_bind, wp_clock. destruct (us_create sys _) as [rc client] eqn:Ec. apply wp_bind, wp_log. intros w3 H3.
  pose proof (appends_trans _ _ _ _ _ H02 H3) as H03. destruct (negb (rc =? 0) || negb client) eqn:Ebad.
  - apply wp_ret. eexists. split; [exact H03|]. split; [|done]. unfold opened. cbn.
    assert (Hc : (rc =? 0) && client = false) by (destruct (rc =? 0), client; done). rewrite Hc. repeat split; [done..|].
    destruct (Z.eqb_spec rc 0); cbn; [by unfold EIO|]. by rewrite native_error_zero.
  - apply orb_false_iff in Ebad as [E1 E2]. apply negb_false_iff in E1, E2. apply wp_bind, wp_clock.
    destruct (us_connect sys _) as [rc' result] eqn:Eco. apply wp_bind, wp_log. intros w4 H4. apply wp_ret.
    eexists. split; [exact (appends_trans _ _ _ _ _ H03 H4)|]. split; [|done]. unfold opened. cbn. by rewrite E1, E2.
Qed.

(** Closing ends the client once and frees the storage unless it has to be retained. *)
Lemma close_spec ipc w : (has_client ipc = true -> has_storage ipc = true) ->
  wp (close_usb_ipmi sys ipc) (fun _ w' => exists t, u_trace w' = t ++ u_trace w /\ count_if is_eject t = 0%nat /\ count_if is_client t = 0%nat /\
    count_if is_alloc t = 0%nat /\ count_if is_terminate t = (if has_client ipc then 1 else 0)%nat /\
    (count_if is_free t + count_if is_kept t)%nat = (if has_storage ipc then 1 else 0)%nat /\
    cleanup_failed w' = cleanup_failed w || (0 <? count_if is_kept t)%nat /\ (has_storage ipc = false -> t = [])) w.
Proof.
  intros Hst. unfold close_usb_ipmi. destruct (has_client ipc) eqn:Ec.
  - specialize (Hst eq_refl). rewrite Hst. apply wp_bind, wp_bind, wp_log. intros w1 [H1 H1']. apply wp_bind, wp_clock, wp_bind, wp_log. intros w2 [H2 H2'].
    set (kid := us_kid sys _) in *. destruct (kid =? UINT32_MAX) eqn:Ek; cbn [negb].
    + apply wp_ret. cbn [when]. apply wp_log. intros w3 [H3 H3']. exists [EvFree; EvDestroy kid; EvTerminate].
      split; [by rewrite H3, H2, H1|]. cbn. rewrite Ek. cbn. repeat split; [|done]. by rewrite H3', H2', H1', orb_false_r.
    + apply wp_bind. unfold fail_cleanup. apply wp_change, wp_ret, wp_ret. exists [EvDestroy kid; EvTerminate]. cbn.
      split; [by rewrite H2, H1|]. rewrite Ek. cbn. repeat split; [|done]. by rewrite orb_true_r.
  - apply wp_bind, wp_ret. destruct (has_storage ipc); cbn [when].
    + apply wp_log. intros w1 [H1 H1']. exists [EvFree]. split; [done|]. repeat split; [|done]. by rewrite H1', orb_false_r.
    + apply wp_ret. exists []. repeat split. by rewrite orb_false_r.
Qed.
End request.

(** Claim C16: A request to eject is sent at most once, and never to another drive: only
    to the device whose mount point was just read to be the path asked for, directly
    after [statfs] showed there the volume asked for (same source and file system id, not
    a nullfs); success is reported exactly when the system accepted it.  Whatever calls
    fail, every client that was created is terminated once and its storage is freed once,
    unless the firmware keeps it alive; then, and only then, further requests are fenced,
    and a fenced request makes no call. *)
Theorem usb_eject_once sys path source mount_id w :
  wp (sm_usb_request_eject sys path source mount_id) (fun r w' => exists t, u_trace w' = t ++ u_trace w /\
    ((count_if is_eject t = 0%nat /\ r.1 <> 0) \/
     (exists post mid rc result, t = post ++ mid /\ sent_for path source mount_id rc result mid /\
        count_if is_eject (post ++ tail mid) = 0%nat /\ (r.1 = 0 <-> rc = 0 /\ result = 0))) /\
    count_if is_terminate t = count_if is_client t /\
    count_if is_alloc t = (count_if is_free t + count_if is_kept t)%nat /\
    cleanup_failed w' = cleanup_failed w || (0 <? count_if is_kept t)%nat /\
    (cleanup_failed w = true -> t = [] /\ r.1 <> 0)) w.
Proof.
  unfold sm_usb_request_eject. destruct (_ || _).
  { apply wp_ret. exists []. repeat split; [left; split; [done|by unfold EINVAL]|by rewrite orb_false_r|by unfold EINVAL]. }
  apply wp_bind. eapply wp_mono; [apply open_spec|]. intros [[status native] ipc] w1 (t1 & H1 & (Oe & Ot & Of & Ok & Oc & Oa & Hcs & Hst) & Hfailed).
  assert (Hclose : forall (r : Z * Z) t2 w2, appends t2 w1 w2 -> guarded path source mount_id r.1 t2 -> (cleanup_failed w = true -> t2 = []) ->
    wp (let* _ := close_usb_ipmi sys ipc in ret r) (fun r w' => exists t, u_trace w' = t ++ u_trace w /\
    ((count_if is_eject t = 0%nat /\ r.1 <> 0) \/
     (exists post mid rc result, t = post ++ mid /\ sent_for path source mount_id rc result mid /\
        count_if is_eject (post ++ tail mid) = 0%nat /\ (r.1 = 0 <-> rc = 0 /\ result = 0))) /\
    count_if is_terminate t = count_if is_client t /\
    count_if is_alloc t = (count_if is_free t + count_if is_kept t)%nat /\
    cleanup_failed w' = cleanup_failed w || (0 <? count_if is_kept t)%nat /\
    (cleanup_failed w = true -> t = [] /\ r.1 <> 0)) w2).
  { intros r t2 w2 H2 Hg Hnil. apply wp_bind. eapply wp_mono; [by apply close_spec|]. intros ? w3 (t3 & H3 & Ce & Cc & Ca & Ct & Cf & Cfail & Cnil).
    apply wp_ret. pose proof (appends_trans _ _ _ _ _ H1 H2) as [H12 Hflag]. exists (t3 ++ t2 ++ t1). split; [by rewrite H3, H12, app_assoc|].
    assert (Hcounts : count_if is_client t2 = 0%nat /\ count_if is_terminate t2 = 0%nat /\ count_if is_alloc t2 = 0%nat /\
      count_if is_free t2 = 0%nat /\ count_if is_kept t2 = 0%nat).
    { destruct Hg as [[Hp _]|(rc & result & Hsent & Hp & _)]; [by apply plain_counts in Hp as (_ & ? & ? & ? & ? & ?)|].
      inversion Hsent; subst. cbn [tail] in Hp. apply plain_counts in Hp as (_ & ? & ? & ? & ? & ?). done. }
    destruct Hcounts as (D1 & D2 & D3 & D4 & D5). rewrite !count_if_app, Ot, Of, Ok, Oc, Oa, D1, D2, D3, D4, D5, Cc, Ca, Ct.
    split; [|split; [by destruct (has_client ipc)|split; [by destruct (has_storage ipc); lia|split; [rewrite Cfail, Hflag; f_equal; by rewrite !Nat.add_0_r|]]]].
    - destruct Hg as [[Hp Hr]|(rc & result & Hsent & Hp & Hr)].
      + left. apply plain_counts in Hp as (-> & _). by rewrite Ce, Oe.
      + right. exists t3, (t2 ++ t1), rc, result. split; [done|]. inversion Hsent as [id rc' result' m bytes pre Hm Hb]; subst.
        split; [by constructor|]. split; [|done]. cbn [tail app] in *. apply plain_counts in Hp as (Hp & _). cbn [count_if is_eject] in Hp.
        rewrite count_if_app. cbn [count_if is_eject]. rewrite count_if_app, Ce, Oe. lia.
    - intros Hf. destruct (Hfailed Hf) as (-> & Hne & _ & Hs). rewrite (Hnil Hf), (Cnil Hs) in *. split; [done|].
      destruct Hg as [[_ Hr]|(rc & result & Hsent & _)]; [done|inversion Hsent]. }
  apply wp_bind. destruct (Z.eqb_spec status 0) as [->|Hne]; cbn [negb].
  - eapply wp_mono; [apply list_and_eject_spec|]. intros r w2 (t2 & H2 & Hg). eapply Hclose; [exact H2|done|].
    intros Hf. by destruct (Hfailed Hf) as (_ & Hne & _).
  - apply wp_ret. apply (Hclose _ []); [done|by left|done].
Qed.
